(* ===== verification/_CoqProject ===== *)
-Q . S2P
Prelude.v
MapSums.v
Calls.v
Programs.v
GoText.v
GoStrings.v
GoCrypto.v
Canonical.v
CanonicalSpec.v
CanonicalEncode.v
CanonicalDecode.v
CanonicalProofs.v
Identity.v
Celld.v
CelldContract.v
Permit.v
SessionState.v
SessionLadder.v
SessionCodec.v
CelldProofs.v
BlobGuard.v
BlobGuardProofs.v
StorageGate.v
ContentStore.v
ContentStoreProofs.v
Idempotency.v
BrokerTypes.v
EffectLedger.v
EffectLedgerProofs.v
Handshake.v
ModelTypes.v
ModelGateway.v
ModelMachine.v
ModelProofs.v
ModelRuns.v
ModelExecutor.v
ModelExecProofs.v
BrokerState.v
Coordinator.v
Recovery.v
BrokerProtocol.v
BrokerProofs.v
BrokerRuns.v
Authority.v
AuthorityProofs.v
Tenant.v
TenantProofs.v
TenantRuns.v
Manifest.v
ManifestTree.v
ArtifactRepo.v
ArtifactService.v
ArtifactBooks.v
ArtifactProtocol.v
ArtifactRuns.v
Secret.v
SecretService.v
SecretStore.v
SecretProtocol.v
SecretRuns.v
McpGateway.v
McpMachine.v
McpProofs.v
McpReplay.v
McpStore.v
McpStoreProofs.v
McpExecutor.v
McpRecovery.v
McpRequests.v
McpAdmission.v
McpCalm.v
McpProtocol.v
McpRuns.v
McpExamples.v
