(* ===== verification/Prelude.v ===== *)
(** * circulusd: a verification development

    circulusd is a platform that runs agent sessions: a session's turns are
    driven through durable commands, every external effect (a model call, a tool
    call) is prepared, dispatched and settled through records that survive a
    crash, and workspaces are content-addressed blobs.  The development models the
    Go packages under [src/internal] that decide what may happen; processes,
    sockets, file systems and generated messages are outside.

    ** Shared files

    - [Prelude] (this file): results, Go comparisons and integers, byte strings,
      big-endian integers, byte order, sorting, time; the tactics [inv_ok],
      [split_match], [forall_list], [go_arith] and the hint database [go].
    - [MapSums]: sums over finite maps, and bounded scans in key order.
    - [Calls]: traces of calls, a weakest precondition for them, and computations that
      are refused before they call anything.  [Programs]:
      programs as trees of calls, a logic for the calls a program makes
      ([guarded]), and pools of programs that run interleaved on a shared state
      ([pool_step], [pool_invariant]).
    - [GoText], [GoStrings], [GoCrypto]: what the code uses of
      UTF-8, [strings], [path], [strconv], [net/url], [time], SHA-256, HMAC and
      base32, executable, with test vectors; [x/text]'s NFC is the class
      [Normalizer] with its documented laws.

    ** Components

    - [Canonical], [CanonicalSpec], [CanonicalEncode], [CanonicalDecode],
      [CanonicalProofs] model [canonical/cbor.go].  The encoder and the decoder
      are the loops of the source over a writer and an offset; [CanonicalSpec]
      defines the canonical form [canon] and its bytes [enc], and the theorems
      show that [Encode] produces them, that [Decode] accepts exactly them, that
      map iteration order does not matter and that digests bind their input.
      [readValue] recurses with fuel; [decode_fuel_enough] shows that the depth
      limit plus two is always enough.
    - [Identity] models [identity/id.go].
    - [Celld] models [celld/host.go]: [Execute] over any storage, aggregate,
      sealer and fault injector.  [CelldContract] states what a storage promises
      (the class [StorageContract]) and what an object does, and proves the
      lemmas about [Execute] against the class; it also models
      [sessionstate/refstorage.go], which is an instance; [CelldProofs] has the
      theorems: refinement of the abstract object, one application per command,
      stable replays, no effect of refused commands.
    - [Permit] models [celld/permit.go], the sealed capability tokens.
    - [SessionState] models [sessionstate/session.go]: the aggregate that [Celld]
      hosts.  [SessionLadder] gives the turn ladder as a step relation and proves
      that [transition] implements it; [SessionCodec] proves the encodings
      faithful, so that the theorems reach the stored bytes.
    - [BlobGuard], [BlobGuardProofs] model [workspace/blob/guard.go]; [StorageGate]
      models the per-key gate of [storage_gate.go] as a transition system of
      goroutines: one holder per key, and no gate for two keys; [ContentStore], [ContentStoreProofs] model [store.go] over any
      object store that keeps the class [ObjectStoreContract].
    - [Idempotency] models [idempotency/creation.go].
    - [BrokerTypes] holds the data of [broker/types.go] that crosses packages;
      [EffectLedger], [EffectLedgerProofs] model [effectledger/reference.go] and
      prove it a refinement of a table of facts.
    - [Handshake] models [handshake/negotiator.go].
    - [ModelTypes], [ModelGateway], [ModelMachine], [ModelExecutor] model
      [modelgateway]: configuration, the validation of snapshots, [Apply] and the
      execution of dispatches, cancellations and recoveries.  [ModelProofs],
      [ModelRuns] and [ModelExecProofs] show that [Apply] keeps snapshots valid,
      that dispatches are bounded and an accepted request is not dispatched
      again, that every admitted effect can finish after any history of events
      whose last one does not strand it, and that nothing accepts a stranded
      effect any more, its settlement included; runs are evaluated in
      [ModelExecProofs].
    - [BrokerState], [Coordinator], [Recovery] model the
      broker over its durable store, ledgers and consumers, which are parameters
      with every answer possible.  [BrokerProtocol] says which call is justified
      by what, an attempt after a block by the confirmation of the request that
      asks for it among others; [BrokerProofs], [BrokerRuns] show that the broker
      makes only justified calls in any sequence of operations, that a provider is
      started once over any store that grants a start claim once, and that recovery
      decisions are grounded, with concrete services as examples.
    - [Authority], [AuthorityProofs] model [authority/validator.go]: what is
      issued, renewed and admitted, and that renewal never widens authority, in
      scope, permissions or lifetime.
    - [Tenant], [TenantProofs], [TenantRuns] model [tenant]: quotas are conserved
      over any run, an operation counts once, refunds need a proven teardown.
    - [Manifest], [ManifestTree] model
      [workspace/manifest/manifest.go]: a canonical manifest is a tree whose links
      stay inside, its digest determines it.  The traversal of links has the fuel
      [traversal_fuel], proved enough by a measure on pending components and the
      expansions left.
    - [ArtifactRepo], [ArtifactService] model [artifact]: the
      reference repository and blob store, and the service as programs.
      [ArtifactBooks] proves the accounts exact, [ArtifactProtocol] gives the
      semantics of calls, [ArtifactRuns] proves for every interleaving that the
      bytes of active artifacts are kept and quotas hold, and has the property of
      openings and a run.
    - [Secret], [SecretService] model [secret]: the reference store, and the
      service as programs whose dependencies may also panic.  [SecretStore] proves
      that the tables agree, that material is returned once per recovery and that
      following pages enumerates the pending recoveries ([follow_pages] with the
      number of recoveries plus one as its fuel).  [SecretProtocol] tracks where
      material may be live; [SecretRuns] proves that a credential stays fenced
      while it may be, unless the material became live after a confirmed
      containment and the completion of its recovery, and that every exposure is
      justified.  It evaluates a failed use and its recovery, and the run in which a
      sandbox is used after its recovery was completed ([used_after_recovery]).
      Assumed there: lease identifiers are not issued twice.

    - [McpGateway], [McpMachine] model the data, the configuration, the validation of
      snapshots and [Apply] of [mcpgateway] ([types.go], [gateway.go], [machine.go]);
      [McpStore] models every operation of the reference repository ([repository.go]):
      admission, dispatch, start and cancellation claims, commits, requests of servers,
      the audit outbox.  [McpExecutor], [McpRecovery], [McpRequests] are the operations
      of the gateway ([Admit], [Execute], [Cancel], [Recover], [Confirm], [FlushAudit],
      [HandleServerRequest], [FilterAdvertisedTools]) as programs over the repository,
      the providers and the other dependencies, which may answer anything.
      [McpProofs], [McpReplay] show that [Apply] keeps snapshots valid within the
      reserve of events, that an outcome can always be recorded and a cancellation is
      always accepted, that calls are repeated only as their policy allows, that what is
      dispatched is the admitted call, and that outcomes are final; [McpStoreProofs] that the repository refines the machine, that a turn
      has one unfinished effect, that dispatches and starts are claimed once.
      [McpAdmission], [McpCalm], [McpProtocol] prove what the programs may call and
      when; [McpRuns] concludes for every interleaving of programs with lost requests
      and answers and processes that stop anywhere: a provider is started once per
      attempt and only when justified, requests of servers are denied by default and a
      user is asked once, the programs refine the machine, every audit entry is
      acknowledged only after its own event was recorded.  [McpExamples] evaluates runs.
      Assumed there: the bounds leave room for the reasons that the gateway writes
      itself ([roomy]), and outcomes are reported for negotiated attempts only
      ([negotiated_evidence]), which [Apply] does not check.  The stream of chunks has
      the chunk limit as its fuel, proved enough by [stream_enough].

    ** Conventions

    A function that returns an error is a [res]; of an error only the sentinel
    that [errors.Is] finds is kept.  State is passed explicitly; a method that
    holds its mutex throughout is one step.  Interfaces of the source that have no
    implementation under [src] are parameters with the contract the source
    documents, and every theorem that uses one has a witness with a concrete
    instance.  Integers are [Z] (or [N]) at their width: the wrap-around is
    written out where arithmetic can leave the range.  Defensive copies of slices
    are the value they copy.  The log strings of errors and the redacting [String]
    methods are not modelled.

    ** Not modelled

    Process launchers, RPC servers, HTTP handlers, provider clients, file-system
    and object-store back ends (I/O); generated messages; the TypeScript and Rust
    parts. *)

From stdpp Require Export base tactics gmap strings list sorting.
From Stdlib Require Export ZArith Lia Ascii.

#[export] Set Default Proof Using "Type".
#[export] Set Warnings "-clear-no-such-hyp".
#[global] Open Scope Z_scope.

(** ** Results

    A Go function that returns [(T, error)] returns [res E T] here: [Ok v]
    stands for [(v, nil)], [Err e] for a non-nil error, of which only the
    sentinel that [errors.Is] finds is kept. *)
Inductive res (E A : Type) : Type :=
| Ok (a : A)
| Err (e : E).
Arguments Ok {E A} _.
Arguments Err {E A} _.

#[global] Instance res_eq_dec `{EqDecision E, EqDecision A} : EqDecision (res E A).
Proof. solve_decision. Defined.

#[global] Instance res_ret {E} : MRet (res E) := fun A a => Ok a.
#[global] Instance res_bind {E} : MBind (res E) := fun A B f m =>
  match m with Ok a => f a | Err e => Err e end.
#[global] Instance res_fmap {E} : FMap (res E) := fun A B f m =>
  match m with Ok a => Ok (f a) | Err e => Err e end.

(** [if cond { return ..., err }] *)
Definition reject_if {E} (b : bool) (e : E) : res E unit :=
  if b then Err e else Ok tt.

Definition is_ok {E A} (m : res E A) : bool :=
  match m with Ok _ => true | Err _ => false end.

(** [fmt.Errorf("%w: %v", sentinel, err)]: the caller's sentinel replaces the
    callee's. *)
Definition wrap_err {E E' A} (e' : E') (m : res E A) : res E' A :=
  match m with Ok a => Ok a | Err _ => Err e' end.

(** The error of a callee of another package, returned as it is. *)
Definition lift_err {E E' A} (f : E -> E') (m : res E A) : res E' A :=
  match m with Ok a => Ok a | Err e => Err (f e) end.

Lemma reject_if_ok {E B} (b : bool) (e : E) (k : unit -> res E B) v :
  (reject_if b e ≫= k) = Ok v <-> b = false /\ k tt = Ok v.
Proof. destruct b; simpl; naive_solver. Qed.

Lemma bind_ok {E A B} (m : res E A) (k : A -> res E B) v :
  (m ≫= k) = Ok v <-> exists a, m = Ok a /\ k a = Ok v.
Proof. destruct m; simpl; naive_solver. Qed.

Lemma bind_err {E A B} (m : res E A) (k : A -> res E B) e :
  (m ≫= k) = Err e <-> m = Err e \/ exists a, m = Ok a /\ k a = Err e.
Proof. destruct m; simpl; naive_solver. Qed.

Lemma wrap_err_ok {E E' A} (e' : E') (m : res E A) v :
  wrap_err e' m = Ok v <-> m = Ok v.
Proof. destruct m; simpl; naive_solver. Qed.

Lemma lift_err_ok {E E' A} (f : E -> E') (m : res E A) v :
  lift_err f m = Ok v <-> m = Ok v.
Proof. destruct m; simpl; naive_solver. Qed.

(** Decompose a hypothesis that a chain of [res] computations succeeded. *)
Ltac inv_ok H :=
  repeat first
    [ apply reject_if_ok in H as [? H]
    | apply bind_ok in H as (? & ? & H)
    | apply wrap_err_ok in H
    | apply lift_err_ok in H ].

(** Case analysis on every [match] and [if] of the goal and the hypotheses,
    closing the contradictory branches. *)
Ltac split_match := repeat (case_match; simplify_eq/=; try done).

(** Boolean conditions of the code as propositions: [bools] rewrites the goal,
    [bools in H] a hypothesis. *)
Lemma neq_test_false {A} (x y : A) `{D : Decision (x = y)} : bool_decide (x <> y) = false <-> x = y.
Proof. rewrite bool_decide_eq_false. split; [apply dec_stable|tauto]. Qed.

Ltac bools_step t rw :=
  match t with
  | context [(_ || _)%bool = false] => rw uconstr:(orb_false_iff)
  | context [(_ || _)%bool = true] => rw uconstr:(orb_true_iff)
  | context [(_ && _)%bool = false] => rw uconstr:(andb_false_iff)
  | context [(_ && _)%bool = true] => rw uconstr:(andb_true_iff)
  | context [negb _ = true] => rw uconstr:(negb_true_iff)
  | context [negb _ = false] => rw uconstr:(negb_false_iff)
  | context [bool_decide (_ <> _) = false] => rw uconstr:(@neq_test_false)
  | context [bool_decide _ = false] => rw uconstr:(@bool_decide_eq_false)
  | context [bool_decide _ = true] => rw uconstr:(@bool_decide_eq_true)
  | context [(_ <? _)%Z = true] => rw uconstr:(Z.ltb_lt)
  | context [(_ <? _)%Z = false] => rw uconstr:(Z.ltb_ge)
  | context [(_ <=? _)%Z = true] => rw uconstr:(Z.leb_le)
  | context [(_ <=? _)%Z = false] => rw uconstr:(Z.leb_gt)
  | context [(_ =? _)%Z = true] => rw uconstr:(Z.eqb_eq)
  | context [(_ =? _)%Z = false] => rw uconstr:(Z.eqb_neq)
  end.
Tactic Notation "bools" :=
  repeat match goal with |- ?g => bools_step g ltac:(fun l => rewrite !l) end.
Tactic Notation "bools" "in" hyp(H) :=
  repeat match type of H with ?t => bools_step t ltac:(fun l => rewrite !l in H) end.

(** A [Forall] on an explicit list, item by item. *)
Ltac forall_list := repeat first [apply List.Forall_nil | apply List.Forall_cons].

(** ** Comparisons

    [==] and [!=] on any comparable type, in the scope of Go expressions. *)
Declare Scope go_scope.
Delimit Scope go_scope with go.
Notation "x == y" := (bool_decide (x = y)) (at level 70, no associativity) : go_scope.
Notation "x != y" := (bool_decide (x <> y)) (at level 70, no associativity) : go_scope.

(** ** Machine integers

    A [uint64], [int64] or [int] is a [Z] in its range; arithmetic that can
    leave the range is written with the wrap-around of the language. *)
Definition u64_max : Z := 2 ^ 64 - 1.
Definition u64 (z : Z) : Z := z mod 2 ^ 64.
Definition u32 (z : Z) : Z := z mod 2 ^ 32.
Definition u16 (z : Z) : Z := z mod 2 ^ 16.
Definition i64 (z : Z) : Z := (z + 2 ^ 63) mod 2 ^ 64 - 2 ^ 63.
Definition is_u64 (z : Z) : Prop := 0 <= z < 2 ^ 64.
Definition is_i64 (z : Z) : Prop := - 2 ^ 63 <= z < 2 ^ 63.

(** The largest integer that the Go and the TypeScript side share. *)
Definition maxSafeInteger : Z := 9007199254740991.

Lemma u64_id z : is_u64 z -> u64 z = z.
Proof. unfold is_u64, u64. intros. apply Z.mod_small. lia. Qed.

Lemma u64_range z : is_u64 (u64 z).
Proof. unfold is_u64, u64. apply Z.mod_pos_bound. lia. Qed.

Lemma i64_id z : is_i64 z -> i64 z = z.
Proof. unfold is_i64, i64. intros. rewrite Z.mod_small; lia. Qed.

Lemma i64_range z : is_i64 (i64 z).
Proof.
  unfold is_i64, i64. pose proof (Z.mod_pos_bound (z + 2 ^ 63) (2 ^ 64)). lia.
Qed.

(** ** Bytes and strings

    A Go [string] is a sequence of bytes: a [String.string] whose characters are
    the bytes.  A [[]byte] is a list of the same characters. *)
Abbreviation byte := ascii (only parsing).
Abbreviation bytes := (list ascii) (only parsing).

Definition byte_val (b : byte) : Z := Z.of_N (N_of_ascii b).
(** [byte(z)]: truncation to the low eight bits. *)
Definition to_byte (z : Z) : byte := ascii_of_N (Z.to_N (z mod 256)).

(** [[]byte(s)] and [string(b)]. *)
Definition to_bytes (s : string) : bytes := String.list_ascii_of_string s.
Definition of_bytes (b : bytes) : string := String.string_of_list_ascii b.

(** [len(x)] of a slice or string, as an [int]. *)
Definition zlen {A} (l : list A) : Z := Z.of_nat (length l).
Definition strlen (s : string) : Z := Z.of_nat (String.length s).

Lemma byte_val_range b : 0 <= byte_val b < 256.
Proof. unfold byte_val. pose proof (N_ascii_bounded b). lia. Qed.

Lemma byte_val_to_byte z : byte_val (to_byte z) = z mod 256.
Proof.
  unfold byte_val, to_byte. pose proof (Z.mod_pos_bound z 256).
  rewrite N_ascii_embedding; lia.
Qed.

Lemma to_byte_byte_val b : to_byte (byte_val b) = b.
Proof.
  unfold to_byte, byte_val. pose proof (N_ascii_bounded b).
  rewrite Z.mod_small by lia. by rewrite N2Z.id, ascii_N_embedding.
Qed.

Lemma byte_val_inj b c : byte_val b = byte_val c -> b = c.
Proof. intros H. by rewrite <- (to_byte_byte_val b), H, to_byte_byte_val. Qed.

Lemma of_to_bytes s : of_bytes (to_bytes s) = s.
Proof. apply String.string_of_list_ascii_of_string. Qed.

Lemma to_of_bytes b : to_bytes (of_bytes b) = b.
Proof. apply String.list_ascii_of_string_of_list_ascii. Qed.

#[global] Instance to_bytes_inj : Inj (=) (=) to_bytes.
Proof. intros s t H. by rewrite <- (of_to_bytes s), H, of_to_bytes. Qed.

Lemma length_to_bytes s : length (to_bytes s) = String.length s.
Proof. induction s; simpl; auto. Qed.

Lemma zlen_to_bytes s : zlen (to_bytes s) = strlen s.
Proof. unfold zlen, strlen. by rewrite length_to_bytes. Qed.

Lemma zlen_app {A} (l k : list A) : zlen (l ++ k) = zlen l + zlen k.
Proof. unfold zlen. rewrite length_app. lia. Qed.

Lemma zlen_nonneg {A} (l : list A) : 0 <= zlen l.
Proof. unfold zlen. lia. Qed.

Lemma zlen_cons {A} (x : A) (l : list A) : zlen (x :: l) = 1 + zlen l.
Proof. unfold zlen. simpl. lia. Qed.

Lemma zlen_nil {A} : zlen (@nil A) = 0.
Proof. done. Qed.

Lemma strlen_nonneg s : 0 <= strlen s.
Proof. unfold strlen. lia. Qed.

Lemma to_bytes_append s t : to_bytes (s ++ t)%string = to_bytes s ++ to_bytes t.
Proof.
  induction s as [|c s IH]; [done|].
  change (c :: to_bytes (s ++ t)%string = c :: (to_bytes s ++ to_bytes t)). by rewrite IH.
Qed.

Create HintDb go.
#[export] Hint Rewrite @zlen_app @zlen_cons @zlen_nil zlen_to_bytes : go.
#[export] Hint Resolve byte_val_range u64_range i64_range strlen_nonneg : go.
#[export] Hint Resolve zlen_nonneg : go.

(** Side conditions of the arithmetic lemmas. *)
Ltac go_arith := solve [auto with go | unfold zlen, strlen in *; lia].

(** ** Readers

    A reader is the bytes it still delivers; [io.ReadFull] into a buffer of [n]
    bytes fails when they are not enough. *)
Definition io_ReadFull (n : nat) (r : bytes) : option (bytes * bytes) :=
  if (n <=? length r)%nat then Some (take n r, drop n r) else None.

Lemma io_ReadFull_app n a r : length a = n -> io_ReadFull n (a ++ r) = Some (a, r).
Proof.
  intros <-. unfold io_ReadFull. rewrite length_app, (proj2 (Nat.leb_le _ _)) by lia.
  by rewrite take_app_length, drop_app_length.
Qed.

Lemma io_ReadFull_some n r a r' : io_ReadFull n r = Some (a, r') <-> r = a ++ r' /\ length a = n.
Proof.
  split; [|intros [-> ?]; by apply io_ReadFull_app].
  unfold io_ReadFull. case_match eqn:Hn; [|done]. intros [= <- <-]. apply Nat.leb_le in Hn.
  by rewrite take_drop, length_take_le.
Qed.

(** ** Big-endian integers ([encoding/binary]) *)
Fixpoint be_bytes (n : nat) (z : Z) : bytes :=
  match n with
  | O => []
  | S n' => be_bytes n' (z / 256) ++ [to_byte z]
  end.

(** [argument = argument<<8 | uint64(b)], folded over the bytes. *)
Definition be_value (bs : bytes) : Z :=
  fold_left (fun acc b => acc * 256 + byte_val b) bs 0.

Lemma length_be_bytes n z : length (be_bytes n z) = n.
Proof.
  revert z. induction n as [|n IH]; intros z; simpl; [done|].
  rewrite length_app, IH. simpl. lia.
Qed.

Lemma zlen_be_bytes n z : zlen (be_bytes n z) = Z.of_nat n.
Proof. unfold zlen. by rewrite length_be_bytes. Qed.

Lemma be_value_snoc bs b : be_value (bs ++ [b]) = be_value bs * 256 + byte_val b.
Proof. unfold be_value. by rewrite fold_left_app. Qed.

Lemma be_value_be_bytes n z :
  0 <= z < 256 ^ Z.of_nat n -> be_value (be_bytes n z) = z.
Proof.
  revert z. induction n as [|n IH]; intros z Hz.
  - simpl in *. unfold be_value. simpl. lia.
  - rewrite Nat2Z.inj_succ, Z.pow_succ_r in Hz by lia.
    simpl. rewrite be_value_snoc, IH, byte_val_to_byte.
    + pose proof (Z.div_mod z 256). lia.
    + split; [apply Z.div_pos; lia|]. apply Z.div_lt_upper_bound; lia.
Qed.

Lemma be_value_range bs : 0 <= be_value bs < 256 ^ zlen bs.
Proof.
  induction bs as [|b bs IH] using rev_ind; [done|].
  rewrite be_value_snoc, zlen_app, Z.pow_add_r by go_arith.
  change (256 ^ zlen [b]) with 256. pose proof (byte_val_range b). lia.
Qed.

Lemma be_bytes_be_value bs : be_bytes (length bs) (be_value bs) = bs.
Proof.
  induction bs as [|b bs IH] using rev_ind; [done|].
  rewrite length_app, Nat.add_comm. simpl. rewrite be_value_snoc.
  pose proof (byte_val_range b).
  rewrite Z.div_add_l, (Z.div_small (byte_val b)), Z.add_0_r, IH by lia.
  f_equal. f_equal. apply byte_val_inj. rewrite byte_val_to_byte.
  rewrite Z.add_comm, Z.mod_add, Z.mod_small; lia.
Qed.

Lemma be_bytes_of_value n bs z : length bs = n -> be_value bs = z -> be_bytes n z = bs.
Proof. intros <- <-. apply be_bytes_be_value. Qed.

(** ** Byte-string order ([bytes.Compare]) *)
Fixpoint bytes_compare (a b : bytes) : comparison :=
  match a, b with
  | [], [] => Eq
  | [], _ :: _ => Lt
  | _ :: _, [] => Gt
  | x :: a', y :: b' =>
      match byte_val x ?= byte_val y with
      | Eq => bytes_compare a' b'
      | c => c
      end
  end.

Definition bytes_lt (a b : bytes) : Prop := bytes_compare a b = Lt.

Lemma bytes_compare_refl a : bytes_compare a a = Eq.
Proof. induction a; simpl; [done|]. by rewrite Z.compare_refl. Qed.

Lemma bytes_compare_eq a b : bytes_compare a b = Eq -> a = b.
Proof.
  revert b. induction a as [|x a IH]; intros [|y b]; simpl; try done.
  destruct (byte_val x ?= byte_val y) eqn:E; try done.
  apply Z.compare_eq, byte_val_inj in E as ->. intros ?%IH. by subst.
Qed.

Lemma bytes_compare_antisym a b : bytes_compare b a = CompOpp (bytes_compare a b).
Proof.
  revert b. induction a as [|x a IH]; intros [|y b]; simpl; try done.
  rewrite (Z.compare_antisym (byte_val x)).
  destruct (byte_val x ?= byte_val y); simpl; auto.
Qed.

Lemma bytes_lt_trans a b c : bytes_lt a b -> bytes_lt b c -> bytes_lt a c.
Proof.
  unfold bytes_lt. revert b c. induction a as [|x a IH]; intros [|y b] [|z c]; simpl; try done.
  destruct (Z.compare_spec (byte_val x) (byte_val y)) as [E|E|E];
    destruct (Z.compare_spec (byte_val y) (byte_val z)) as [F|F|F]; try done; intros H1 H2.
  - rewrite E, F, Z.compare_refl. eauto.
  - by rewrite E, (proj2 (Z.compare_lt_iff _ _)).
  - by rewrite <- F, (proj2 (Z.compare_lt_iff _ _)).
  - by rewrite (proj2 (Z.compare_lt_iff (byte_val x) (byte_val z))) by lia.
Qed.

Lemma bytes_lt_irrefl a : ~ bytes_lt a a.
Proof. unfold bytes_lt. by rewrite bytes_compare_refl. Qed.

#[global] Instance bytes_lt_order : StrictOrder bytes_lt.
Proof. split; [intros ? ?%bytes_lt_irrefl; done|intros ???; apply bytes_lt_trans]. Qed.

#[global] Instance bytes_lt_trichotomy : Trichotomy bytes_lt.
Proof.
  intros a b. unfold bytes_lt. rewrite (bytes_compare_antisym a b).
  destruct (bytes_compare a b) eqn:E; simpl; auto. apply bytes_compare_eq in E. auto.
Qed.

#[global] Instance bytes_lt_dec a b : Decision (bytes_lt a b).
Proof. unfold bytes_lt. apply _. Defined.

(** ** Sorting

    [sort.Slice(l, func(i, j int) bool { return less(key(l[i]), key(l[j])) })].  The
    algorithm of [sort.Slice] is not stable and not specified; where the keys
    are distinct, as at every call modelled here, the result does not depend on
    it ([sort_by_unique]). *)
Definition le_by {A K} (lt : relation K) (f : A -> K) (x y : A) : Prop := ~ lt (f y) (f x).

#[global] Instance le_by_dec {A K} (lt : relation K) `{forall x y, Decision (lt x y)}
  (f : A -> K) x y : Decision (le_by lt f x y).
Proof. unfold le_by. apply _. Defined.

Definition sort_by {A K} (lt : relation K) `{forall x y, Decision (lt x y)} (f : A -> K)
    (l : list A) : list A := merge_sort (le_by lt f) l.

Section sort_map.
Context {A B : Type} (R : relation B) (S : relation A).
Context `{forall x y, Decision (R x y)} `{forall x y, Decision (S x y)}.
Context (g : A -> B) (Hg : forall x y, R (g x) (g y) <-> S x y).

Lemma list_merge_map l1 l2 :
  list_merge R (map g l1) (map g l2) = map g (list_merge S l1 l2).
Proof using Hg.
  revert l2. induction l1 as [|x l1 IH1]; intros l2.
  - by destruct l2.
  - induction l2 as [|y l2 IH2]; [done|].
    cbn [map] in *. rewrite !list_merge_cons. rewrite (decide_ext (R (g x) (g y)) (S x y)) by done.
    destruct (decide (S x y)); cbn [map]; [by rewrite <- IH1|by rewrite <- IH2].
Qed.

Lemma merge_list_to_stack_map st l :
  merge_list_to_stack R (map (fmap (map g)) st) (map g l) =
  map (fmap (map g)) (merge_list_to_stack S st l).
Proof using Hg.
  revert l. induction st as [|[k|] st IH]; intros l; simpl; try done.
  by rewrite list_merge_map, IH.
Qed.

Lemma merge_stack_map st :
  merge_stack R (map (fmap (map g)) st) = map g (merge_stack S st).
Proof using Hg.
  induction st as [|[k|] st IH]; simpl; try done. by rewrite IH, list_merge_map.
Qed.

Lemma merge_sort_map l : merge_sort R (map g l) = map g (merge_sort S l).
Proof using Hg.
  unfold merge_sort. change (@nil (option (list B))) with (map (fmap (map g)) (@nil (option (list A)))).
  generalize (@nil (option (list A))) as st. induction l as [|x l IH]; intros st; simpl.
  - apply merge_stack_map.
  - change [g x] with (map g [x]). by rewrite merge_list_to_stack_map, IH.
Qed.
End sort_map.

Section sort_by.
Context {K : Type} (lt : relation K) `{forall x y, Decision (lt x y)}.
Context `{!StrictOrder lt, !Trichotomy lt}.
Context {A : Type}.
Implicit Types (f : A -> K) (l : list A).

Lemma le_by_iff f x y : le_by lt f x y <-> lt (f x) (f y) \/ f x = f y.
Proof using Type*.
  unfold le_by. split.
  - destruct (trichotomy lt (f x) (f y)) as [?|[?|?]]; auto; contradiction.
  - intros [Hl|Heq] Hgt.
    + by apply (irreflexivity lt (f x)); etrans.
    + rewrite Heq in Hgt. by apply (irreflexivity lt (f y)).
Qed.

#[local] Instance le_by_trans f : Transitive (le_by lt f).
Proof using Type*.
  intros x y z. rewrite !le_by_iff. intros [Hxy|Hxy] [Hyz|Hyz].
  - left. by etrans.
  - left. by rewrite <- Hyz.
  - left. by rewrite Hxy.
  - right. congruence.
Qed.

#[local] Instance le_by_total f : Total (le_by lt f).
Proof using Type*.
  intros x y. rewrite !le_by_iff. destruct (trichotomy lt (f x) (f y)) as [?|[?|?]]; auto.
Qed.

Lemma sort_by_perm f l : sort_by lt f l ≡ₚ l.
Proof using Type. apply merge_sort_Permutation. Qed.

Lemma sort_by_sorted f l : StronglySorted (le_by lt f) (sort_by lt f l).
Proof using Type*. apply (StronglySorted_merge_sort (le_by lt f)). Qed.

Lemma sorted_strict f l :
  NoDup (map f l) -> StronglySorted (le_by lt f) l -> StronglySorted lt (map f l).
Proof using Type*.
  intros Hnd Hs. induction Hs as [|x l Hs IH Hx]; simpl in *; [constructor|].
  apply NoDup_cons in Hnd as [Hni Hnd]. constructor; [auto|].
  apply Forall_map. rewrite Forall_forall in Hx |- *. intros y Hy.
  specialize (Hx y Hy). apply le_by_iff in Hx as [?|Heq]; [done|].
  exfalso. apply Hni. rewrite Heq. by apply list_elem_of_fmap_2.
Qed.

Lemma strict_sorted f l : StronglySorted lt (map f l) -> StronglySorted (le_by lt f) l.
Proof using Type*.
  induction l as [|x l IH]; simpl; [constructor|]. rewrite StronglySorted_cons. intros [Hx Hs].
  constructor; [auto|]. rewrite Forall_map in Hx. eapply Forall_impl; [exact Hx|].
  intros y Hy. apply le_by_iff. by left.
Qed.

Lemma strict_nodup (ks : list K) : StronglySorted lt ks -> NoDup ks.
Proof using Type*.
  induction 1 as [|k ks _ IH Hk]; constructor; [|done].
  intros Hin. rewrite Forall_forall in Hk. by apply (irreflexivity lt k), Hk.
Qed.

Lemma sorted_unique f l1 l2 :
  NoDup (map f l1) -> l1 ≡ₚ l2 -> StronglySorted (le_by lt f) l1 ->
  StronglySorted (le_by lt f) l2 -> l1 = l2.
Proof using Type*.
  intros Hnd Hp Hs1 Hs2. apply (StronglySorted_unique_strong (le_by lt f)); auto.
  intros x y Hx Hy Hxy Hyx. rewrite <- Hp in Hy. apply le_by_iff in Hxy as [Hxy|Heq].
  { apply le_by_iff in Hyx as [Hyx|Heq].
    - exfalso. apply (irreflexivity lt (f x)). by etrans.
    - rewrite Heq in Hxy. by apply (irreflexivity lt (f x)) in Hxy. }
  clear - Hnd Hx Hy Heq. induction l1 as [|z l IH]; [by apply not_elem_of_nil in Hx|].
  simpl in Hnd. apply NoDup_cons in Hnd as [Hni Hnd].
  apply elem_of_cons in Hx as [->|Hx]; apply elem_of_cons in Hy as [->|Hy]; auto.
  - exfalso. apply Hni. rewrite Heq. by apply list_elem_of_fmap_2.
  - exfalso. apply Hni. rewrite <- Heq. by apply list_elem_of_fmap_2.
Qed.

Lemma sort_by_strict f l : NoDup (map f l) -> StronglySorted lt (map f (sort_by lt f l)).
Proof using Type*.
  intros Hnd. apply sorted_strict; [|apply sort_by_sorted]. by rewrite sort_by_perm.
Qed.

Lemma sort_by_unique f l1 l2 :
  NoDup (map f l1) -> l1 ≡ₚ l2 -> sort_by lt f l1 = sort_by lt f l2.
Proof using Type*.
  intros Hnd Hp. apply (sorted_unique f); auto using sort_by_sorted.
  - by rewrite sort_by_perm.
  - by rewrite !sort_by_perm.
Qed.

Lemma sort_by_id f l : StronglySorted lt (map f l) -> sort_by lt f l = l.
Proof using Type*.
  intros Hs. apply (sorted_unique f); auto using sort_by_sorted, strict_sorted, sort_by_perm.
  rewrite sort_by_perm. by apply strict_nodup.
Qed.
End sort_by.

Lemma sort_by_map {A B K} (lt : relation K) `{forall x y, Decision (lt x y)}
    (f : B -> K) (g : A -> B) l :
  sort_by lt f (map g l) = map g (sort_by lt (f ∘ g) l).
Proof. by apply merge_sort_map. Qed.

(** ** Time

    A [time.Time] is the number of nanoseconds since the zero time, which
    [IsZero] recognises; [Before], [After] and [Add] are the order and the sum. *)
Abbreviation time := Z (only parsing).
Definition time_IsZero (t : time) : bool := t =? 0.
