(* ===== verification/MapSums.v ===== *)
(** * Sums over finite maps

    The total of a measure over the entries of a map, and how it changes with one entry;
    the accounts of the tenant and artifact repositories are such totals. *)

From S2P Require Import Prelude.
#[local] Open Scope Z_scope.

Section Sums.
Context {K A : Type} `{Countable K} (f : A -> Z).
Definition msum (m : gmap K A) : Z := map_fold (fun _ a acc => f a + acc) 0 m.

Lemma msum_empty : msum ∅ = 0.
Proof. apply map_fold_empty. Qed.
Lemma msum_insert m k a : m !! k = None -> msum (<[k := a]> m) = f a + msum m.
Proof. intros Hk. unfold msum. apply (map_fold_insert_L (fun _ a acc => f a + acc)); [intros; lia|done]. Qed.
Lemma msum_update m k a b : m !! k = Some a -> msum (<[k := b]> m) = msum m - f a + f b.
Proof.
  intros Hk. rewrite <- (insert_delete_id m k a Hk) at 2. rewrite <- insert_delete_eq.
  rewrite !msum_insert by apply lookup_delete_eq. lia.
Qed.
Lemma msum_nonneg m : (forall k a, m !! k = Some a -> 0 <= f a) -> 0 <= msum m.
Proof.
  induction m as [|k a m Hk IH] using map_ind; intros Hf; [by rewrite msum_empty|]. rewrite msum_insert by done.
  assert (0 <= f a) by (apply (Hf k); apply lookup_insert_eq). assert (0 <= msum m); [|lia]. apply IH. intros k' a' Hk'.
  apply (Hf k'). rewrite lookup_insert_ne; [done|]. congruence.
Qed.
Lemma msum_contains m k a : (forall k a, m !! k = Some a -> 0 <= f a) -> m !! k = Some a -> f a <= msum m.
Proof.
  intros Hf Hk. rewrite <- (insert_delete_id m k a Hk). rewrite msum_insert by apply lookup_delete_eq.
  assert (0 <= msum (delete k m)); [|lia]. apply msum_nonneg. intros k' a' [_ Hk']%lookup_delete_Some. eauto.
Qed.
End Sums.

(** ** Bounded pages of a sorted scan

    A scan that keeps only the first elements seen so far, in order, ends with the first
    elements of the whole, whatever the order of the scan. *)

Section filters.
Context {A B : Type} (f : A -> B) (P : A -> Prop) `{!forall x, Decision (P x)}.
Lemma map_filter_incl l k : k ∈ map f (filter P l) -> k ∈ map f l.
Proof. rewrite !list_elem_of_fmap. intros (x & -> & Hx). apply list_elem_of_filter in Hx as [_ Hx]. eauto. Qed.
Lemma nodup_filter l : NoDup (map f l) -> NoDup (map f (filter P l)).
Proof.
  induction l as [|x l IH]; [done|]. cbn [map]. rewrite NoDup_cons. intros [Hx Hnd]. rewrite filter_cons. destruct (decide (P x)); [|auto].
  cbn [map]. constructor; [|auto]. intros Hin. by apply Hx, map_filter_incl.
Qed.
Lemma sorted_filter (R : relation B) l : StronglySorted R (map f l) -> StronglySorted R (map f (filter P l)).
Proof.
  induction l as [|x l IH]; [done|]. cbn [map]. intros [Hx Hs]%StronglySorted_cons. rewrite filter_cons. destruct (decide (P x)); [|auto].
  cbn [map]. constructor; [auto|]. rewrite Forall_forall in Hx |- *. intros k Hk. by apply Hx, map_filter_incl.
Qed.
Lemma filter_none (l : list A) : (forall x, x ∈ l -> ~ P x) -> filter P l = [].
Proof. induction l as [|x l IH]; intros Hl; [done|]. rewrite filter_cons, decide_False by (apply Hl; by left). apply IH. intros y Hy. apply Hl. by right. Qed.
Lemma filter_all (l : list A) : (forall x, x ∈ l -> P x) -> filter P l = l.
Proof.
  induction l as [|x l IH]; intros Hl; [done|]. rewrite filter_cons, decide_True by (apply Hl; by left). rewrite IH; [done|]. intros y Hy. apply Hl. by right.
Qed.
End filters.

Section pages.
Context {A K : Type} (lt : relation K) `{!forall x y, Decision (lt x y)} `{!StrictOrder lt, !Trichotomy lt} (f : A -> K).
#[local] Set Default Proof Using "Type*".

Fixpoint insert_sorted (x : A) (l : list A) : list A :=
  match l with [] => [x] | y :: rest => if decide (lt (f x) (f y)) then x :: y :: rest else y :: insert_sorted x rest end.

Lemma insert_sorted_perm x l : insert_sorted x l ≡ₚ l ++ [x].
Proof.
  rewrite (comm (++)). simpl. induction l as [|y l IH]; simpl; [done|]. destruct (decide _); [done|]. rewrite IH. apply Permutation_swap.
Qed.
Lemma insert_sorted_take n x : forall l, take n (insert_sorted x (take n l)) = take n (insert_sorted x l).
Proof.
  induction n as [|n IH]; intros l; [done|]. destruct l as [|y l]; [done|]. simpl. destruct (decide _); simpl.
  - f_equal. destruct n as [|n]; [done|]. simpl. f_equal. rewrite take_take. f_equal. lia.
  - f_equal. apply IH.
Qed.
Lemma insert_sorted_strict x l : StronglySorted lt (map f l) -> f x ∉ map f l -> StronglySorted lt (map f (insert_sorted x l)).
Proof.
  induction l as [|y l IH]; simpl; intros Hs Hx; [repeat constructor|]. apply StronglySorted_cons in Hs as [Hy Hs]. apply not_elem_of_cons in Hx as [Hne Hx].
  destruct (decide (lt (f x) (f y))) as [Hlt|Hnlt]; simpl.
  - repeat constructor; try done. eapply Forall_impl; [exact Hy|]. intros k Hk. by etrans.
  - assert (Hyx : lt (f y) (f x)) by (destruct (trichotomy lt (f x) (f y)) as [?|[?|?]]; [done|done|done]).
    constructor; [by apply IH|]. apply Forall_map. rewrite insert_sorted_perm. apply Forall_app. split; [by apply Forall_map|by apply Forall_singleton].
Qed.

Lemma sort_snoc l x : NoDup (map f (l ++ [x])) -> sort_by lt f (l ++ [x]) = insert_sorted x (sort_by lt f l).
Proof.
  intros Hnd. assert (Hl : NoDup (map f l)) by (rewrite map_app in Hnd; by apply NoDup_app in Hnd as [? _]).
  assert (Hx : f x ∉ map f l).
  { rewrite map_app in Hnd. apply NoDup_app in Hnd as (_ & Hnot & _). intros Hin. apply (Hnot _ Hin). by apply list_elem_of_singleton. }
  rewrite <- (sort_by_id lt f (insert_sorted x (sort_by lt f l))).
  - apply sort_by_unique; [apply _..|done|]. by rewrite insert_sorted_perm, sort_by_perm.
  - apply insert_sorted_strict; [by apply sort_by_strict|]. by rewrite sort_by_perm.
Qed.
Lemma sorted_take (R : relation K) n : forall l, StronglySorted R l -> StronglySorted R (take n l).
Proof. induction n as [|n IH]; intros l Hs; [constructor|]. destruct Hs as [|x l Hs Hx]; simpl; constructor; [by apply IH|by apply Forall_take]. Qed.
(** Sorting the kept elements with the next one. *)
Lemma sort_bounded n l x : NoDup (map f (l ++ [x])) -> take n (sort_by lt f (take n (sort_by lt f l) ++ [x])) = take n (sort_by lt f (l ++ [x])).
Proof.
  intros Hnd. assert (Hl : NoDup (map f l)) by (rewrite map_app in Hnd; by apply NoDup_app in Hnd as [? _]).
  rewrite (sort_snoc l x Hnd), sort_snoc.
  - rewrite (sort_by_id lt f (take n (sort_by lt f l))); [by apply insert_sorted_take|]. rewrite fmap_take. apply sorted_take. by apply sort_by_strict.
  - rewrite map_app, fmap_take. rewrite map_app in Hnd. apply NoDup_app in Hnd as (_ & Hnot & Hone). apply NoDup_app. split; [|split; [|done]].
    + eapply sublist_NoDup; [|apply sublist_take]. by rewrite sort_by_perm.
    + intros k Hk. apply elem_of_take in Hk as (i & Hk & _). apply list_elem_of_lookup_2 in Hk. rewrite sort_by_perm in Hk. by apply Hnot.
Qed.

Lemma bounded_scan n l : NoDup (map f l) -> foldl (fun page x => take n (sort_by lt f (page ++ [x]))) [] l = take n (sort_by lt f l).
Proof.
  induction l as [|x l IH] using rev_ind; intros Hnd; [by destruct n|]. rewrite foldl_app. simpl.
  rewrite IH; [by apply sort_bounded|]. rewrite map_app in Hnd. by apply NoDup_app in Hnd as [? _].
Qed.
End pages.
