(* ===== verification/Calls.v ===== *)
(** * Computations that call other services

    A component whose dependencies are interfaces (stores, ledgers, providers) is
    modelled as a computation over the trace of the calls it has made: an answer is
    any function of the calls before it, so any stateful service can stand behind
    the interface, and the trace records what was asked and in which order. *)

From S2P Require Import Prelude.
#[local] Open Scope list_scope.

(** [C] is the type of calls, [E] the type of errors. *)
Definition CallM (C E A : Type) : Type := list C -> res E A * list C.

Section Computations.
Context {C E : Type}.
#[local] Abbreviation M := (CallM C E).
Definition ret {A} (a : A) : M A := fun tr => (Ok a, tr).
Definition fail {A} (e : E) : M A := fun tr => (Err e, tr).
Definition bindM {A B} (m : M A) (k : A -> M B) : M B := fun tr =>
  match m tr with (Ok a, tr') => k a tr' | (Err e, tr') => (Err e, tr') end.
Definition liftM {A} (r : res E A) : M A := fun tr => (r, tr).
Definition ensure (b : bool) (e : E) : M unit := liftM (reject_if b e).
(** A call whose answer is a value, and one whose answer may be an error. *)
Definition call {A} (c : C) (answer : list C -> A) : M A := fun tr => (Ok (answer tr), tr ++ [c]).
Definition ask {A} (c : C) (answer : list C -> res E A) : M A := fun tr => (answer tr, tr ++ [c]).
(** [ctx.Err()], which may change between calls. *)
Definition check_context (ctx_Err : list C -> option E) : M unit := fun tr =>
  match ctx_Err tr with Some e => (Err e, tr) | None => (Ok tt, tr) end.
End Computations.

Declare Scope call_scope.
Delimit Scope call_scope with call.
Notation "x <- m ;; k" := (bindM m (fun x => k)) (at level 100, m at next level, right associativity) : call_scope.

(** ** Values *)
Section Values.
Context {C E : Type}.
Lemma bindM_ok {A B} (m : CallM C E A) (k : A -> CallM C E B) tr v tr' :
  bindM m k tr = (Ok v, tr') <-> exists a tr1, m tr = (Ok a, tr1) /\ k a tr1 = (Ok v, tr').
Proof. unfold bindM. destruct (m tr) as [[a|e] tr1]; naive_solver. Qed.

Lemma ensure_ok b (e : E) (tr : list C) u tr' : ensure b e tr = (Ok u, tr') <-> b = false /\ tr' = tr.
Proof. unfold ensure, liftM, reject_if. destruct b, u; naive_solver. Qed.

Lemma liftM_ok {A} (r : res E A) (tr : list C) a tr' : liftM r tr = (Ok a, tr') <-> r = Ok a /\ tr' = tr.
Proof. unfold liftM. split; [by intros [= -> ->]|by intros [-> ->]]. Qed.

Lemma ask_ok {A} c (f : list C -> res E A) tr a tr' : ask c f tr = (Ok a, tr') <-> f tr = Ok a /\ tr' = tr ++ [c].
Proof. unfold ask. split; [by intros [= -> ->]|by intros [-> ->]]. Qed.

Lemma call_ok {A} c (f : list C -> A) tr a tr' : @call C E A c f tr = (Ok a, tr') <-> a = f tr /\ tr' = tr ++ [c].
Proof. unfold call. split; [by intros [= <- <-]|by intros [-> ->]]. Qed.

Lemma ret_ok {A} (x : A) tr a tr' : @ret C E A x tr = (Ok a, tr') <-> a = x /\ tr' = tr.
Proof. unfold ret. split; [by intros [= <- <-]|by intros [-> ->]]. Qed.

Lemma check_context_ok (ctx_Err : list C -> option E) tr u tr' : check_context ctx_Err tr = (Ok u, tr') -> tr' = tr.
Proof. unfold check_context. destruct (ctx_Err tr), u; naive_solver. Qed.
End Values.

(** Decompose a computation that returned a value. *)
Ltac inv_M H :=
  repeat first
    [ let a := fresh "v" in let t := fresh "tr" in apply bindM_ok in H as (a & t & ? & H)
    | apply ensure_ok in H as [? ->] | apply liftM_ok in H as [? ->] | apply ask_ok in H as [? ->]
    | apply call_ok in H as [-> ->] | apply ret_ok in H as [-> ->] ];
  repeat match goal with
    | Hm : check_context _ _ = (Ok _, _) |- _ => apply check_context_ok in Hm as ->
    | Hm : ensure _ _ _ = (Ok _, _) |- _ => apply ensure_ok in Hm as [Hm ->]
    | Hm : liftM _ _ = (Ok _, _) |- _ => apply liftM_ok in Hm as [Hm ->]
    | Hm : ask _ _ _ = (Ok _, _) |- _ => apply ask_ok in Hm as [Hm ->]
    | Hm : call _ _ _ = (Ok _, _) |- _ => apply call_ok in Hm as [-> ->]
    end.

(** ** Calls *)

(** [emits P m]: the calls of [m], which extend the trace, all satisfy [P]. *)
Definition emits {C E A} (P : C -> Prop) (m : CallM C E A) : Prop :=
  forall tr, exists calls, (m tr).2 = tr ++ calls /\ Forall P calls.

Section Emits.
Context {C E : Type} (P : C -> Prop).
#[local] Abbreviation M := (CallM C E).
Lemma emits_nothing {A} (m : M A) : (forall tr, (m tr).2 = tr) -> emits P m.
Proof. intros Hm tr. exists []. by rewrite Hm, app_nil_r. Qed.
Lemma emits_ret {A} (a : A) : emits P (ret a : M A).
Proof. by apply emits_nothing. Qed.
Lemma emits_fail {A} e : emits P (fail e : M A).
Proof. by apply emits_nothing. Qed.
Lemma emits_lift {A} (r : res E A) : emits P (liftM r : M A).
Proof. by apply emits_nothing. Qed.
Lemma emits_ensure b e : emits P (ensure b e : M unit).
Proof. apply emits_lift. Qed.
Lemma emits_ask {A} c (f : list C -> res E A) : P c -> emits P (ask c f).
Proof. intros Hc tr. exists [c]. by rewrite Forall_singleton. Qed.
Lemma emits_call {A} c (f : list C -> A) : P c -> emits P (call c f : M A).
Proof. intros Hc tr. exists [c]. by rewrite Forall_singleton. Qed.
Lemma emits_context (ctx_Err : list C -> option E) : emits P (check_context ctx_Err).
Proof. apply emits_nothing. intros tr. unfold check_context. by destruct (ctx_Err tr). Qed.
Lemma emits_bind {A B} (m : M A) (k : A -> M B) : emits P m -> (forall a, emits P (k a)) -> emits P (bindM m k).
Proof.
  intros Hm Hk tr. destruct (Hm tr) as (calls & Htr & Hc). unfold bindM. destruct (m tr) as [[a|e] tr1]; simpl in *; subst.
  - destruct (Hk a (tr ++ calls)) as (calls' & -> & Hc'). exists (calls ++ calls'). rewrite app_assoc, Forall_app. done.
  - by exists calls.
Qed.
End Emits.

Create HintDb emits.
#[export] Hint Resolve emits_ret emits_fail emits_lift emits_ensure emits_ask emits_call emits_context emits_bind : emits.

(** Every branch of a computation. *)
Ltac emits := repeat first
  [ apply emits_bind; [|intros ?] | case_match | by apply emits_ask | by apply emits_call | by auto with emits ].

(** [refused m]: [m] fails, and calls nothing. *)
Definition refused {C E A} (m : CallM C E A) : Prop := forall tr, exists e, m tr = (Err e, tr).
Section Refused.
Context {C E : Type}.
#[local] Abbreviation M := (CallM C E).
Lemma refused_bind {A B} (m : M A) (k : A -> M B) : refused m -> refused (bindM m k).
Proof. intros Hm tr. destruct (Hm tr) as [e He]. exists e. unfold bindM. by rewrite He. Qed.
Lemma refused_context {B} (ctx_Err : list C -> option E) (k : unit -> M B) : refused (k tt) -> refused (bindM (check_context ctx_Err) k).
Proof. intros Hk tr. unfold bindM, check_context. destruct (ctx_Err tr) as [e|]; [by exists e|apply Hk]. Qed.
Lemma refused_lift {A B} (r : res E A) (k : A -> M B) : (forall a, r = Ok a -> refused (k a)) -> refused (bindM (liftM r) k).
Proof. intros Hk tr. unfold bindM, liftM. destruct r as [a|e]; [by apply Hk|by exists e]. Qed.
Lemma refused_ensure {B} b (e : E) (k : unit -> M B) : (b = false -> refused (k tt)) -> refused (bindM (ensure b e) k).
Proof. intros Hk. apply refused_lift. intros [] H. apply Hk. by destruct b. Qed.
Lemma refused_fail {A} (e : E) : refused (fail e : M A).
Proof. intros tr. by exists e. Qed.
End Refused.
(** The checks that come before the calls of a computation. *)
Ltac refused := repeat first
  [ apply refused_context | apply refused_ensure; intros ? | apply refused_fail | apply refused_lift; intros ? ?; simplify_eq ].

(** ** A logic of calls

    [wp P m Q tr]: run after the calls [tr], [m] makes each call [c] with
    [P (calls before it) c], and its outcome satisfies [Q]. *)
Section Wp.
Context {C E : Type} (P : list C -> C -> Prop).
#[local] Abbreviation M := (CallM C E).

Fixpoint allowed (tr calls : list C) : Prop :=
  match calls with [] => True | c :: rest => P tr c /\ allowed (tr ++ [c]) rest end.

Definition wp {A} (m : M A) (Q : res E A -> list C -> Prop) (tr : list C) : Prop :=
  exists calls, (m tr).2 = tr ++ calls /\ allowed tr calls /\ Q (m tr).1 (m tr).2.

Lemma allowed_app tr calls more : allowed tr (calls ++ more) <-> allowed tr calls /\ allowed (tr ++ calls) more.
Proof.
  revert tr. induction calls as [|c calls IH]; intros tr; simpl; [rewrite app_nil_r; tauto|].
  rewrite IH, <- app_assoc. simpl. tauto.
Qed.

Lemma wp_pure {A} (m : M A) Q tr : (m tr).2 = tr -> Q (m tr).1 tr -> wp m Q tr.
Proof. intros Htr HQ. exists []. by rewrite app_nil_r, Htr. Qed.

Lemma wp_ret {A} (a : A) Q tr : Q (Ok a) tr -> wp (ret a) Q tr.
Proof. intros HQ. by apply wp_pure. Qed.
Lemma wp_fail {A} e (Q : res E A -> _) tr : Q (Err e) tr -> wp (fail e) Q tr.
Proof. intros HQ. by apply wp_pure. Qed.
Lemma wp_call {A} c (f : list C -> A) (Q : res E A -> _) tr : P tr c -> Q (Ok (f tr)) (tr ++ [c]) -> wp (call c f) Q tr.
Proof. intros Hc HQ. by exists [c]. Qed.

Lemma wp_bind {A B} (m : M A) (k : A -> M B) Q tr :
  wp m (fun r tr' => match r with Ok a => wp (k a) Q tr' | Err e => Q (Err e) tr' end) tr -> wp (bindM m k) Q tr.
Proof.
  intros (calls & Htr & Hc & HQ). unfold wp, bindM. destruct (m tr) as [[a|e] tr1]; simpl in *; subst; [|by exists calls].
  destruct HQ as (more & Htr & Hm & HQ). exists (calls ++ more). rewrite app_assoc, allowed_app. auto.
Qed.

Lemma wp_mono {A} (m : M A) (Q Q' : res E A -> list C -> Prop) tr : wp m Q tr -> (forall r tr', Q r tr' -> Q' r tr') -> wp m Q' tr.
Proof. intros (calls & Htr & Hc & HQ) HQQ. exists calls. auto. Qed.

(** The steps of a computation whose failures need no postcondition. *)
Definition returns {A} (Q : A -> list C -> Prop) (r : res E A) (tr : list C) : Prop := match r with Ok a => Q a tr | Err _ => True end.
End Wp.

Section WpSteps.
Context {C E A B : Type} (P : list C -> C -> Prop).
Implicit Types Q : B -> list C -> Prop.
Lemma wp_ensure b (e : E) (k : unit -> CallM C E B) Q tr :
  (b = false -> wp P (k tt) (returns Q) tr) -> wp P (bindM (ensure b e) k) (returns Q) tr.
Proof. intros Hk. apply wp_bind, wp_pure; [done|]. unfold ensure, liftM, reject_if. destruct b; simpl; auto. Qed.
Lemma wp_lift (r : res E A) (k : A -> CallM C E B) Q tr :
  (forall a, r = Ok a -> wp P (k a) (returns Q) tr) -> wp P (bindM (liftM r) k) (returns Q) tr.
Proof. intros Hk. apply wp_bind, wp_pure; [done|]. destruct r; simpl; auto. Qed.
Lemma wp_context (ctx_Err : list C -> option E) (k : unit -> CallM C E B) Q tr :
  wp P (k tt) (returns Q) tr -> wp P (bindM (check_context ctx_Err) k) (returns Q) tr.
Proof. intros Hk. apply wp_bind, wp_pure; unfold check_context; destruct (ctx_Err tr); simpl; auto. Qed.
Lemma wp_ask c (f : list C -> res E A) (k : A -> CallM C E B) Q tr :
  P tr c -> (forall a, f tr = Ok a -> wp P (k a) (returns Q) (tr ++ [c])) -> wp P (bindM (ask c f) k) (returns Q) tr.
Proof. intros Hc Hk. apply wp_bind. exists [c]. split; [done|]. split; [done|]. simpl. destruct (f tr); simpl; auto. Qed.
Lemma wp_seq (m : CallM C E A) (R : A -> list C -> Prop) (k : A -> CallM C E B) Q tr :
  wp P m (returns R) tr -> (forall a tr', R a tr' -> wp P (k a) (returns Q) tr') -> wp P (bindM m k) (returns Q) tr.
Proof. intros Hm Hk. apply wp_bind. eapply wp_mono; [exact Hm|]. intros [a|e] tr' HR; simpl; auto. Qed.
Lemma wp_try c (f : list C -> A) (k : A -> CallM C E B) Q tr :
  P tr c -> wp P (k (f tr)) (returns Q) (tr ++ [c]) -> wp P (bindM (call c f) k) (returns Q) tr.
Proof. intros Hc Hk. by apply wp_bind, wp_call. Qed.
Lemma wp_done (b : B) Q tr : Q b tr -> wp P (ret b : CallM C E B) (returns Q) tr.
Proof. intros HQ. by apply wp_ret. Qed.
Lemma wp_stop (e : E) Q tr : wp P (fail e) (returns Q) tr.
Proof. by apply wp_fail. Qed.
Lemma wp_weaken (m : CallM C E B) Q Q' tr :
  wp P m (returns Q) tr -> (forall b tr', Q b tr' -> Q' b tr') -> wp P m (returns Q') tr.
Proof. intros Hm HQ. eapply wp_mono; [exact Hm|]. intros [b|e] tr'; simpl; auto. Qed.
End WpSteps.

(** The next step of a computation; a call leaves its justification to prove. *)
Ltac wp_step :=
  match goal with
  | |- wp _ (bindM (check_context _) _) _ _ => apply wp_context
  | |- wp _ (bindM (ensure _ _) _) _ _ => apply wp_ensure; intros ?
  | |- wp _ (bindM (liftM _) _) _ _ => apply wp_lift; intros ? ?
  | |- wp _ (bindM (ask _ _) _) _ _ => apply wp_ask; [|intros ? ?]
  | |- wp _ (bindM (call _ _) _) _ _ => apply wp_try
  | |- wp _ (fail _) _ _ => apply wp_stop
  | |- wp _ (ret _) _ _ => apply wp_done
  end.
