(* ===== verification/Programs.v ===== *)
(** * Programs that call shared services

    A program is a finite tree of calls and their continuations.  Programs of several
    processes run interleaved on a shared state, one call at a time.  [guarded] is a
    program logic for the calls a program makes, given what it was answered before;
    [pool_invariant] lifts an invariant that every permitted call keeps, and that the
    others' knowledge survives, to every interleaving. *)

From S2P Require Import Prelude.

Inductive Prog (C : Type -> Type) (A : Type) : Type :=
| Ret (a : A)
| Vis {X : Type} (c : C X) (k : X -> Prog C A).
Arguments Ret {C A} a.
Arguments Vis {C A X} c k.

Fixpoint bindP {C A B} (p : Prog C A) (f : A -> Prog C B) : Prog C B :=
  match p with Ret a => f a | Vis c k => Vis c (fun x => bindP (k x) f) end.

(** Programs that may fail: an error ends the program. *)
Definition raise {C E A} (e : E) : Prog C (res E A) := Ret (Err e).
Definition done {C E A} (a : A) : Prog C (res E A) := Ret (Ok a).
Definition andThen {C E A B} (p : Prog C (res E A)) (f : A -> Prog C (res E B)) : Prog C (res E B) :=
  bindP p (fun r => match r with Ok a => f a | Err e => raise e end).
Definition pure {C E A} (r : res E A) : Prog C (res E A) := Ret r.
Definition ask {C X} (c : C X) : Prog C X := Vis c Ret.
(** A call whose error the program replaces by its own. *)
Definition ask_or {C E A} (e : E) (c : C (res E A)) : Prog C (res E A) := Vis c (fun r => Ret (wrap_err e r)).

Declare Scope prog_scope.
Delimit Scope prog_scope with prog.
Notation "x <-- p ;; q" := (bindP p (fun x => q)) (at level 100, p at next level, right associativity) : prog_scope.
Notation "x <- p ;; q" := (andThen p (fun x => q)) (at level 100, p at next level, right associativity) : prog_scope.

(** ** What a program calls *)
Record event (C : Type -> Type) := Event { ev_type : Type; ev_call : C ev_type; ev_answer : ev_type }.
Arguments Event {C ev_type} ev_call ev_answer.

Section logic.
Context {C : Type -> Type} (P : list (event C) -> forall X, C X -> Prop).

(** Every call is permitted by the events before it, the latest first, whatever the
    answers are; [Q] holds of the result. *)
Fixpoint guarded {A} (p : Prog C A) (Q : list (event C) -> A -> Prop) (h : list (event C)) : Prop :=
  match p with
  | Ret a => Q h a
  | Vis c k => P h _ c /\ forall x, guarded (k x) Q (Event c x :: h)
  end.

Lemma guarded_mono {A} (p : Prog C A) : forall (Q Q' : list (event C) -> A -> Prop) h,
  guarded p Q h -> (forall h' a, Q h' a -> Q' h' a) -> guarded p Q' h.
Proof. induction p as [a|X c k IH]; intros Q Q' h; simpl; [auto|]. intros [Hc Hk] HQ. split; [done|]. intros x. by eapply IH. Qed.
Lemma guarded_bind {A B} (p : Prog C A) (f : A -> Prog C B) : forall (Q : list (event C) -> B -> Prop) h,
  guarded p (fun h' a => guarded (f a) Q h') h -> guarded (bindP p f) Q h.
Proof. induction p as [a|X c k IH]; intros Q h; simpl; [done|]. intros [Hc Hk]. split; [done|]. intros x. by apply IH. Qed.
Lemma guarded_then {E A B} (p : Prog C (res E A)) (f : A -> Prog C (res E B)) (Q : list (event C) -> res E B -> Prop) h :
  guarded p (fun h' r => match r with Ok a => guarded (f a) Q h' | Err e => Q h' (Err e) end) h -> guarded (andThen p f) Q h.
Proof. intros H. apply guarded_bind. eapply guarded_mono; [exact H|]. intros h' [a|e]; done. Qed.

(** The history only grows. *)
Lemma guarded_extends {A} (p : Prog C A) : forall (Q : list (event C) -> A -> Prop) h,
  guarded p Q h -> guarded p (fun h' a => Q h' a /\ exists l, h' = l ++ h) h.
Proof.
  induction p as [a|X c k IH]; intros Q h; simpl; [intros H; split; [done|by exists []]|]. intros [Hc Hk]. split; [done|]. intros x.
  eapply guarded_mono; [by apply IH|]. intros h' a [HQ [l ->]]. split; [done|]. exists (l ++ [Event c x]). by rewrite <- app_assoc.
Qed.
(** A part of a program, by its specification. *)
Lemma guarded_seq {A B} (p : Prog C A) (f : A -> Prog C B) (Q : list (event C) -> A -> Prop) (R : list (event C) -> B -> Prop) h :
  guarded p Q h -> (forall l a, Q (l ++ h) a -> guarded (f a) R (l ++ h)) -> guarded (bindP p f) R h.
Proof. intros Hp Hf. apply guarded_bind. eapply guarded_mono; [by apply guarded_extends|]. intros h' a [HQ [l ->]]. by apply Hf. Qed.
Lemma guarded_ask {X B} (c : C X) (f : X -> Prog C B) (R : list (event C) -> B -> Prop) h :
  P h X c -> (forall x, guarded (f x) R (Event c x :: h)) -> guarded (bindP (ask c) f) R h.
Proof. by split. Qed.

(** Programs that may fail: what holds when they do not. *)
Definition succeeds {E A} (Q : list (event C) -> A -> Prop) (h : list (event C)) (r : res E A) : Prop := match r with Ok a => Q h a | Err _ => True end.
Lemma guarded_seq_ok {E A B} (p : Prog C (res E A)) (f : A -> Prog C (res E B)) Q (R : list (event C) -> B -> Prop) h :
  guarded p (succeeds Q) h -> (forall l a, Q (l ++ h) a -> guarded (f a) (succeeds R) (l ++ h)) -> guarded (andThen p f) (succeeds R) h.
Proof. intros Hp Hf. eapply guarded_seq; [exact Hp|]. intros l [a|e]; [apply Hf|done]. Qed.
Lemma guarded_ask_ok {E A B} (c : C (res E A)) (f : A -> Prog C (res E B)) (R : list (event C) -> B -> Prop) h :
  P h _ c -> (forall a, guarded (f a) (succeeds R) (Event c (Ok a) :: h)) -> guarded (andThen (ask c) f) (succeeds R) h.
Proof. intros Hc Hf. split; [done|]. intros [a|e]; [apply Hf|done]. Qed.
Lemma guarded_ask_or {E A B} e (c : C (res E A)) (f : A -> Prog C (res E B)) (R : list (event C) -> B -> Prop) h :
  P h _ c -> (forall a, guarded (f a) (succeeds R) (Event c (Ok a) :: h)) -> guarded (andThen (ask_or e c) f) (succeeds R) h.
Proof. intros Hc Hf. split; [done|]. intros [a|e']; [apply Hf|done]. Qed.
Lemma guarded_pure {E A B} (r : res E A) (f : A -> Prog C (res E B)) (R : list (event C) -> B -> Prop) h :
  (forall a, r = Ok a -> guarded (f a) (succeeds R) h) -> guarded (andThen (pure r) f) (succeeds R) h.
Proof. destruct r as [a|e]; [|done]. intros Hf. by apply Hf. Qed.
End logic.

Lemma lookup_snoc_last {A} (l : list A) (x : A) : (l ++ [x]) !! length l = Some x.
Proof. rewrite lookup_app_r, Nat.sub_diag by done. done. Qed.
Lemma list_insert_snoc_last {A} (l : list A) (x y : A) : <[length l := y]> (l ++ [x]) = l ++ [y].
Proof. rewrite insert_app_r_alt, Nat.sub_diag by done. done. Qed.

(** ** Interleavings

    A process is known by its place in the pool, which the semantics of a call may use. *)
Section pool.
Context {C : Type -> Type} {S : Type} (sem : S -> nat -> forall X, C X -> X -> S -> Prop) (env : S -> S -> Prop) (starts : forall A, Prog C A -> Prop).

Record process := Process { pr_result : Type; pr_history : list (event C); pr_program : Prog C pr_result }.
Definition running {A} (h : list (event C)) (p : Prog C A) : process := Process A h p.

(** A process makes its next call, the environment acts, or a process starts. *)
Inductive pool_step : S * list process -> S * list process -> Prop :=
| step_call s s' i pool A h X (c : C X) (k : X -> Prog C A) x :
    pool !! i = Some (running h (Vis c k)) -> sem s i X c x s' -> pool_step (s, pool) (s', <[i := running (Event c x :: h) (k x)]> pool)
| step_env s s' pool : env s s' -> pool_step (s, pool) (s', pool)
| step_start s A (p : Prog C A) pool : starts A p -> pool_step (s, pool) (s, pool ++ [running [] p]).

(** A program run alone, its calls answered by a handler: one of the interleavings. *)
Fixpoint drive (handle : forall X, C X -> S -> X * S) {A} (p : Prog C A) (s : S) (h : list (event C)) : A * S * list (event C) :=
  match p with
  | Ret a => (a, s, h)
  | Vis c k => let '(x, s') := handle _ c s in drive handle (k x) s' (Event c x :: h)
  end.
Lemma drive_steps (handle : forall X, C X -> S -> X * S) pool :
  (forall X (c : C X) s, sem s (length pool) X c (handle X c s).1 (handle X c s).2) ->
  forall A (p : Prog C A) s h,
    let '(a, s', h') := drive handle p s h in rtc pool_step (s, pool ++ [running h p]) (s', pool ++ [running h' (Ret a)]).
Proof.
  intros Hsem A p. induction p as [a|X c k IH]; intros s h; simpl; [done|]. specialize (Hsem X c s).
  destruct (handle X c s) as [x s']. specialize (IH x s' (Event c x :: h)). destruct (drive handle (k x) s' (Event c x :: h)) as [[a s''] h'].
  eapply rtc_l; [|exact IH]. rewrite <- (list_insert_snoc_last pool (running h (Vis c k)) (running (Event c x :: h) (k x))).
  apply (step_call _ _ (length pool)); [by apply lookup_snoc_last|done].
Qed.
Lemma drive_run (handle : forall X, C X -> S -> X * S) A (p : Prog C A) s pool :
  (forall i X (c : C X) s, sem s i X c (handle X c s).1 (handle X c s).2) -> starts A p ->
  let '(a, s', h') := drive handle p s [] in rtc pool_step (s, pool) (s', pool ++ [running h' (Ret a)]).
Proof.
  intros Hsem Hp. pose proof (drive_steps handle pool (Hsem _) A p s []) as Hd. destruct (drive handle p s []) as [[a s'] h'].
  eapply rtc_l; [by apply step_start|done].
Qed.

Context (P : list (event C) -> forall X, C X -> Prop) (Inv : S -> Prop) (assured : S -> nat -> list (event C) -> Prop).
Context (call_keeps : forall s s' i h X (c : C X) x, Inv s -> assured s i h -> P h X c -> sem s i X c x s' ->
  Inv s' /\ assured s' i (Event c x :: h) /\ forall j h', j <> i -> assured s j h' -> assured s' j h').
Context (env_keeps : forall s s', Inv s -> env s s' -> Inv s' /\ forall j h, assured s j h -> assured s' j h).
Context (starts_guarded : forall A (p : Prog C A), starts A p -> guarded P p (fun _ _ => True) []).
Context (assured_nil : forall s i, Inv s -> assured s i []).

Definition pool_ok (st : S * list process) : Prop :=
  Inv st.1 /\ forall i p, st.2 !! i = Some p -> assured st.1 i (pr_history p) /\ guarded P (pr_program p) (fun _ _ => True) (pr_history p).

Lemma pool_step_ok st st' : pool_ok st -> pool_step st st' -> pool_ok st'.
Proof using call_keeps env_keeps starts_guarded assured_nil.
  intros [Hi Hp] Hstep. destruct Hstep as [s s' i pool A h X c k x Hpi Hsem|s s' pool Henv|s A p pool Hstart]; simpl in *.
  - destruct (Hp _ _ Hpi) as [Hh [Hc Hk]]. simpl in *. destruct (call_keeps _ _ _ _ _ _ _ Hi Hh Hc Hsem) as (Hi' & Hh' & Hothers).
    split; [done|]. intros j p [(<- & <- & _)|[Hne Hj]]%list_lookup_insert_Some; [split; [done|apply Hk]|].
    destruct (Hp j p Hj) as [H1 H2]. by split; [apply Hothers|].
  - destruct (env_keeps _ _ Hi Henv) as [Hi' Hkeep]. split; [done|]. intros j p Hj. destruct (Hp j p Hj). by split; [apply Hkeep|].
  - split; [done|]. intros j q [Hj|[_ Hj]]%lookup_app_Some; [by apply Hp|]. apply list_lookup_singleton_Some in Hj as [_ <-].
    split; [by apply assured_nil|by apply starts_guarded].
Qed.

Lemma pool_invariant s st : Inv s -> rtc pool_step (s, []) st -> pool_ok st.
Proof using call_keeps env_keeps starts_guarded assured_nil.
  intros Hi Hr. assert (Hok : pool_ok (s, [])) by (split; [done|intros i p Hp; simpl in Hp; discriminate Hp]). revert Hok.
  induction Hr as [st|st st1 st2 Hstep Hr IH]; intros Hok; [done|]. by apply IH, (pool_step_ok st).
Qed.
End pool.

(** ** Programs that behave alike *)
Inductive alike {C : Type -> Type} {A} : Prog C A -> Prog C A -> Prop :=
| alike_ret a : alike (Ret a) (Ret a)
| alike_vis {X} (c : C X) k k' : (forall x, alike (k x) (k' x)) -> alike (Vis c k) (Vis c k').
Lemma alike_refl {C A} (p : Prog C A) : alike p p.
Proof. induction p as [a|X c k IH]; by constructor. Qed.
Lemma alike_bind {C A B} (p : Prog C A) (f g : A -> Prog C B) : (forall a, alike (f a) (g a)) -> alike (bindP p f) (bindP p g).
Proof. intros H. induction p as [a|X c k IH]; [apply H|]. by constructor. Qed.
