(* ===== verification/GoText.v ===== *)
(** * Text of the Go standard library

    The parts of [unicode/utf8], [unicode], [strings], [encoding/hex] and
    [regexp] that the modelled packages call, as executable functions on byte
    strings, and the interface of [golang.org/x/text/unicode/norm], which is
    not part of the repository: a parameter with the laws the code relies on. *)

From S2P Require Import Prelude.

(** ** UTF-8

    [decode_runes] is the iteration of [for _, r := range s]: each item is the
    decoded rune with its bytes, or [None] with the single byte that does not
    start a valid encoding (the language yields [U+FFFD] for it). *)
Definition in_range (lo hi x : Z) : bool := (lo <=? x) && (x <=? hi).
Definition is_cont (b : ascii) : bool := in_range 128 191 (byte_val b).

(** Lead byte and second byte of a three-byte encoding: no overlong forms and
    no surrogates. *)
Definition second3_ok (b0 b1 : Z) : bool :=
  in_range 224 239 b0 &&
  in_range (if b0 =? 224 then 160 else 128) (if b0 =? 237 then 159 else 191) b1.

(** The same for four bytes: no overlong forms, nothing above [U+10FFFF]. *)
Definition second4_ok (b0 b1 : Z) : bool :=
  in_range 240 244 b0 &&
  in_range (if b0 =? 240 then 144 else 128) (if b0 =? 244 then 143 else 191) b1.

Definition rune2 (b0 b1 : ascii) : Z :=
  (byte_val b0 - 192) * 64 + (byte_val b1 - 128).
Definition rune3 (b0 b1 b2 : ascii) : Z :=
  (byte_val b0 - 224) * 4096 + (byte_val b1 - 128) * 64 + (byte_val b2 - 128).
Definition rune4 (b0 b1 b2 b3 : ascii) : Z :=
  (byte_val b0 - 240) * 262144 + (byte_val b1 - 128) * 4096
  + (byte_val b2 - 128) * 64 + (byte_val b3 - 128).

(** [utf8.DecodeRune] on a non-empty input: the rune and its width, [None] and
    one byte for an invalid encoding. *)
Definition next_rune (bs : bytes) : option Z * nat :=
  match bs with
  | [] => (None, 0%nat)
  | b0 :: r0 =>
      if byte_val b0 <? 128 then (Some (byte_val b0), 1%nat)
      else match r0 with
      | b1 :: r1 =>
          if in_range 194 223 (byte_val b0) && is_cont b1 then (Some (rune2 b0 b1), 2%nat)
          else match r1 with
          | b2 :: r2 =>
              if second3_ok (byte_val b0) (byte_val b1) && is_cont b2
              then (Some (rune3 b0 b1 b2), 3%nat)
              else match r2 with
              | b3 :: _ =>
                  if second4_ok (byte_val b0) (byte_val b1) && is_cont b2 && is_cont b3
                  then (Some (rune4 b0 b1 b2 b3), 4%nat)
                  else (None, 1%nat)
              | [] => (None, 1%nat)
              end
          | [] => (None, 1%nat)
          end
      | [] => (None, 1%nat)
      end
  end.

(** The loop; every iteration consumes at least one byte, so the length of the
    input is fuel enough ([concat_decode_runes] below). *)
Fixpoint decode_runes_fuel (fuel : nat) (bs : bytes) : list (option Z * bytes) :=
  match fuel, bs with
  | S fuel', _ :: _ =>
      let '(r, w) := next_rune bs in
      (r, take w bs) :: decode_runes_fuel fuel' (drop w bs)
  | _, _ => []
  end.
Definition decode_runes (bs : bytes) : list (option Z * bytes) :=
  decode_runes_fuel (length bs) bs.

Definition rune_of (c : option Z * bytes) : Z := default 65533 c.1.

(** [utf8.Valid] and [utf8.ValidString] *)
Definition utf8_Valid (bs : bytes) : bool :=
  forallb (fun c => match c.1 with Some _ => true | None => false end) (decode_runes bs).
Definition utf8_ValidString (s : string) : bool := utf8_Valid (to_bytes s).

(** The runes a [range] loop over the string sees. *)
Definition string_runes (s : string) : list Z := map rune_of (decode_runes (to_bytes s)).

(** ** Character classes ([unicode.IsControl], [unicode.Cf], [unicode.IsSpace]) *)
Definition unicode_IsControl (r : Z) : bool := in_range 0 31 r || in_range 127 159 r.

Definition unicode_Cf (r : Z) : bool :=
  existsb (fun p => in_range p.1 p.2 r)
    [ (173, 173); (1536, 1541); (1564, 1564); (1757, 1757); (1807, 1807); (2192, 2193);
      (2274, 2274); (6158, 6158); (8203, 8207); (8234, 8238); (8288, 8292); (8294, 8303);
      (65279, 65279); (65529, 65531); (69821, 69821); (69837, 69837); (78896, 78911);
      (113824, 113827); (119155, 119162); (917505, 917505); (917536, 917631) ].

Definition unicode_IsSpace (r : Z) : bool :=
  in_range 9 13 r || (r =? 32) || (r =? 133) || (r =? 160) || (r =? 5760)
  || in_range 8192 8202 r || (r =? 8232) || (r =? 8233) || (r =? 8239) || (r =? 8287)
  || (r =? 12288).

Definition has_control (s : string) : bool := existsb unicode_IsControl (string_runes s).

(** [strings.TrimSpace] *)
Fixpoint trim_left (cs : list (option Z * bytes)) : list (option Z * bytes) :=
  match cs with
  | [] => []
  | c :: cs' => if unicode_IsSpace (rune_of c) then trim_left cs' else c :: cs'
  end.
Definition strings_TrimSpace (s : string) : string :=
  of_bytes (concat (map snd (rev (trim_left (rev (trim_left (decode_runes (to_bytes s)))))))).

(** ** Hexadecimal and digests *)
Definition is_lower_hex (b : ascii) : bool :=
  in_range 48 57 (byte_val b) || in_range 97 102 (byte_val b).

Definition hex_digit (z : Z) : ascii := to_byte (if z <? 10 then 48 + z else 87 + z).

(** [hex.EncodeToString] *)
Definition hex_EncodeToString (bs : bytes) : string :=
  of_bytes (flat_map (fun b => [hex_digit (byte_val b / 16); hex_digit (byte_val b mod 16)]) bs).

(** [hex.DecodeString], which takes digits of either case. *)
Definition hex_value (b : ascii) : option Z :=
  let z := byte_val b in
  if in_range 48 57 z then Some (z - 48)
  else if in_range 97 102 z then Some (z - 87)
  else if in_range 65 70 z then Some (z - 55) else None.
Fixpoint hex_decode (bs : bytes) : option bytes :=
  match bs with
  | [] => Some []
  | [_] => None
  | a :: b :: rest =>
      x ← hex_value a; y ← hex_value b; r ← hex_decode rest; Some (to_byte (x * 16 + y) :: r)
  end.
Definition hex_DecodeString (s : string) : option bytes := hex_decode (to_bytes s).

(** The regular expressions [^prefix[0-9a-f]{64}$] of the sources: the prefix
    followed by exactly 64 lower-case hexadecimal digits (Go's [$] without the
    [m] flag is the end of the text). *)
Definition matches_hex64 (prefix s : string) : bool :=
  match decide (take (String.length prefix) (to_bytes s) = to_bytes prefix) with
  | left _ =>
      let rest := drop (String.length prefix) (to_bytes s) in
      (length rest =? 64)%nat && forallb is_lower_hex rest
  | right _ => false
  end.
Definition matches_sha256 (s : string) : bool := matches_hex64 "sha256:" s.
Definition matches_hmac_sha256 (s : string) : bool := matches_hex64 "hmac-sha256:" s.

(** ** Unicode normalisation ([norm.NFC]) *)
Class Normalizer := nfc : string -> string.

(** What [x/text] documents and the code relies on: normalising is idempotent,
    keeps valid UTF-8 valid, and does not change ASCII text. *)
Definition is_ascii (s : string) : bool := forallb (fun b => byte_val b <? 128) (to_bytes s).

Class NormalizerLaws `{N : Normalizer} : Prop := {
  nfc_idem : forall s, utf8_ValidString s = true -> nfc (nfc s) = nfc s;
  nfc_valid : forall s, utf8_ValidString s = true -> utf8_ValidString (nfc s) = true;
  nfc_ascii : forall s, is_ascii s = true -> nfc s = s;
}.

(** A text that is already in the normal form the encoder produces. *)
Definition nfc_text `{Normalizer} (s : string) : Prop :=
  utf8_ValidString s = true /\ nfc s = s.

#[global] Instance nfc_text_dec `{Normalizer} s : Decision (nfc_text s).
Proof. unfold nfc_text. apply _. Defined.

(** ASCII text with the identity is a model of the laws, used by the
    witnesses. *)
#[local] Instance id_normalizer : Normalizer := fun s => s.

Lemma id_normalizer_laws : @NormalizerLaws id_normalizer.
Proof. split; done. Qed.

(** ** Facts about the iteration *)
Lemma decode_runes_ascii bs :
  forallb (fun b => byte_val b <? 128) bs = true ->
  decode_runes bs = map (fun b => (Some (byte_val b), [b])) bs.
Proof.
  unfold decode_runes. induction bs as [|b bs IH]; [done|]. simpl.
  intros [Hb Hbs]%andb_prop. rewrite Hb. simpl. rewrite drop_0. f_equal. auto.
Qed.

Lemma ascii_valid s : is_ascii s = true -> utf8_ValidString s = true.
Proof.
  intros H. unfold utf8_ValidString, utf8_Valid. rewrite decode_runes_ascii by done.
  rewrite forallb_forall. by intros x [b [<- _]]%in_map_iff.
Qed.

Lemma ascii_nfc_text `{NormalizerLaws} s : is_ascii s = true -> nfc_text s.
Proof. intros. split; [by apply ascii_valid|by apply nfc_ascii]. Qed.

Lemma nfc_nfc_text `{NormalizerLaws} s : utf8_ValidString s = true -> nfc_text (nfc s).
Proof. intros. split; [by apply nfc_valid|by apply nfc_idem]. Qed.

#[export] Hint Resolve ascii_nfc_text nfc_nfc_text ascii_valid : go.

(** One iteration consumes a non-empty chunk, and the chunks are the input. *)
Lemma next_rune_width b bs : (1 <= (next_rune (b :: bs)).2)%nat.
Proof. unfold next_rune. repeat case_match; simpl; lia. Qed.

Lemma concat_decode_runes bs : concat (map snd (decode_runes bs)) = bs.
Proof.
  unfold decode_runes.
  enough (forall fuel bs, (length bs <= fuel)%nat ->
            concat (map snd (decode_runes_fuel fuel bs)) = bs) by auto.
  clear bs. intros fuel.
  induction fuel as [|fuel IH]; intros [|b bs] Hlen; simpl in Hlen; try done; [lia|].
  pose proof (next_rune_width b bs) as Hw.
  unfold decode_runes_fuel; fold decode_runes_fuel.
  destruct (next_rune (b :: bs)) as [r w]. simpl in Hw.
  cbn [map concat snd]. rewrite IH; [apply take_drop|].
  rewrite length_drop. simpl. lia.
Qed.

(** ** Hexadecimal text determines the bytes *)
Lemma hex_digit_inj a b : 0 <= a < 16 -> 0 <= b < 16 -> hex_digit a = hex_digit b -> a = b.
Proof.
  intros Ha Hb Heq. unfold hex_digit in Heq. apply (f_equal byte_val) in Heq.
  rewrite !byte_val_to_byte in Heq. repeat case_match; rewrite !Z.mod_small in Heq; lia.
Qed.

Lemma hex_byte_inj b c :
  hex_digit (byte_val b / 16) = hex_digit (byte_val c / 16) ->
  hex_digit (byte_val b mod 16) = hex_digit (byte_val c mod 16) -> b = c.
Proof.
  pose proof (byte_val_range b). pose proof (byte_val_range c). intros Hq Hr.
  apply hex_digit_inj in Hq; [|split; [apply Z.div_pos|apply Z.div_lt_upper_bound]; lia..].
  apply hex_digit_inj in Hr; [|apply Z.mod_pos_bound; lia..].
  apply byte_val_inj. rewrite (Z.div_mod (byte_val b) 16), (Z.div_mod (byte_val c) 16); lia.
Qed.

#[global] Instance hex_EncodeToString_inj : Inj (=) (=) hex_EncodeToString.
Proof.
  intros bs cs Heq. unfold hex_EncodeToString in Heq. apply (f_equal to_bytes) in Heq.
  rewrite !to_of_bytes in Heq. revert cs Heq.
  induction bs as [|b bs IH]; intros [|c cs] Heq; simpl in *; try done.
  injection Heq as Hq Hr Hrest. f_equal; [by apply hex_byte_inj|auto].
Qed.

Lemma hex_value_digit z : 0 <= z < 16 -> hex_value (hex_digit z) = Some z.
Proof.
  intros Hz. unfold hex_digit, hex_value, in_range. rewrite byte_val_to_byte.
  destruct (Z.ltb_spec z 10); rewrite Z.mod_small by lia;
    repeat (case_match; [f_equal; lia|]); lia.
Qed.

Lemma hex_decode_encode bs : hex_DecodeString (hex_EncodeToString bs) = Some bs.
Proof.
  unfold hex_DecodeString, hex_EncodeToString. rewrite to_of_bytes.
  induction bs as [|b bs IH]; [done|]. pose proof (byte_val_range b).
  cbn [flat_map app hex_decode].
  rewrite (hex_value_digit (byte_val b / 16)) by (split; [apply Z.div_pos|apply Z.div_lt_upper_bound]; lia).
  rewrite (hex_value_digit (byte_val b mod 16)) by (apply Z.mod_pos_bound; lia).
  cbn [mbind option_bind]. rewrite IH. cbn [mbind option_bind]. do 2 f_equal.
  rewrite Z.mul_comm, <- Z.div_mod by lia. apply to_byte_byte_val.
Qed.
