(* ===== verification/GoStrings.v ===== *)
(** * Slash-separated paths

    The functions of [strings] and [path] the sources use on paths, and the
    correspondence of a path with the list of its components. *)

From S2P Require Import Prelude GoText.
#[local] Open Scope string_scope.
#[local] Open Scope list_scope.
#[local] Open Scope Z_scope.
#[local] Open Scope go_scope.

Definition slash : ascii := "/"%char.

(** [strings.Split(s, "/")]. *)
Fixpoint split_slash (s : string) : list string :=
  match s with
  | EmptyString => [""]
  | String a rest =>
      if decide (a = slash) then "" :: split_slash rest
      else match split_slash rest with c :: cs => String a c :: cs | [] => [String a ""] end
  end.

(** [strings.Join(l, "/")]. *)
Fixpoint join_slash (l : list string) : string :=
  match l with
  | [] => ""
  | [c] => c
  | c :: rest => (c ++ String slash (join_slash rest))%string
  end.

(** [s[:strings.LastIndexByte(s, '/')]], if there is a slash. *)
Fixpoint before_last_slash (s : string) : option string :=
  match s with
  | EmptyString => None
  | String a rest =>
      match before_last_slash rest with
      | Some p => Some (String a p)
      | None => if decide (a = slash) then Some "" else None
      end
  end.

(** [strings.HasPrefix] and [strings.TrimLeft(s, "/")]. *)
Definition strings_HasPrefix (s prefix : string) : bool := String.prefix prefix s.
Fixpoint trim_slashes (s : string) : string :=
  match s with String a rest => if decide (a = slash) then trim_slashes rest else s | EmptyString => s end.
Definition string_drop (n : nat) (s : string) : string := of_bytes (drop n (to_bytes s)).

(** [strings.IndexByte(s, 0) >= 0]. *)
Definition has_NUL (s : string) : bool := bool_decide (Ascii.zero ∈ to_bytes s).

(** [path.IsAbs], [path.Clean], [path.Join] of two elements, [path.Dir]. *)
Definition path_IsAbs (s : string) : bool := strings_HasPrefix s "/".

(** The components of a cleaned path, reversed: [..] removes the last component, or
    stays at the front of a path that is not rooted. *)
Fixpoint clean_components (rooted : bool) (out : list string) (components : list string) : list string :=
  match components with
  | [] => out
  | c :: rest =>
      if (c == "") || (c == ".") then clean_components rooted out rest
      else if c == ".." then
        match out with
        | top :: out' => if top == ".." then clean_components rooted (c :: out) rest else clean_components rooted out' rest
        | [] => clean_components rooted (if rooted then [] else [c]) rest
        end
      else clean_components rooted (c :: out) rest
  end.
Definition path_Clean (s : string) : string :=
  let rooted := path_IsAbs s in
  let out := join_slash (rev (clean_components rooted [] (split_slash s))) in
  if rooted then ("/" ++ out)%string else if out == "" then "." else out.
Definition path_Join (a b : string) : string :=
  if a == "" then (if b == "" then "" else path_Clean b)
  else if b == "" then path_Clean a
  else path_Clean (a ++ "/" ++ b)%string.
Definition path_Dir (s : string) : string :=
  match before_last_slash s with
  | None => path_Clean ""
  | Some parent => path_Clean (parent ++ "/")%string
  end.

Example clean_examples :
  (map path_Clean ["a/b/../c"; "../a"; "/../a//b/."; "a/.."; ""; "a/../../b"], path_Dir "a/b/c", path_Dir "a", path_Join "a" "../b")
  = (["a/c"; "../a"; "/a/b"; "."; "."; "../b"], "a/b", ".", "b").
Proof. reflexivity. Qed.

(** ** Components *)
Definition no_slash (c : string) : Prop := slash ∉ to_bytes c.

Lemma split_nonempty s : split_slash s <> [].
Proof. destruct s as [|a s]; simpl; [done|]. destruct (decide _); [done|]. by destruct (split_slash s). Qed.

Lemma split_no_slash s : Forall no_slash (split_slash s).
Proof.
  unfold no_slash. induction s as [|a s IH]; simpl.
  - constructor; [|done]. apply not_elem_of_nil.
  - destruct (decide (a = slash)) as [->|Hne].
    + constructor; [apply not_elem_of_nil|done].
    + destruct (split_slash s) as [|c cs]; [constructor; [|done]|]; simpl.
      * intros [Heq|H]%elem_of_cons; [congruence|]. by apply not_elem_of_nil in H.
      * apply Forall_cons in IH as [Hc Hcs]. constructor; [|done]. intros [Heq|H]%elem_of_cons; [congruence|done].
Qed.

Lemma join_split s : join_slash (split_slash s) = s.
Proof.
  induction s as [|a s IH]; simpl; [done|]. destruct (decide (a = slash)) as [->|Hne].
  - destruct (split_slash s) as [|c cs] eqn:E; [by apply split_nonempty in E|]. simpl in *. by rewrite IH.
  - destruct (split_slash s) as [|c cs] eqn:E; [by apply split_nonempty in E|]. rewrite <- IH. by destruct cs.
Qed.

Lemma split_app_slash c s : no_slash c -> split_slash (c ++ String slash s)%string = c :: split_slash s.
Proof.
  unfold no_slash. induction c as [|a c IH]; intros H; simpl; [done|].
  apply not_elem_of_cons in H as [Ha Hc]. rewrite decide_False by congruence. by rewrite IH.
Qed.
Lemma split_single c : no_slash c -> split_slash c = [c].
Proof.
  unfold no_slash. induction c as [|a c IH]; intros H; simpl; [done|].
  apply not_elem_of_cons in H as [Ha Hc]. rewrite decide_False by congruence. by rewrite IH.
Qed.

Lemma split_join l : l <> [] -> Forall no_slash l -> split_slash (join_slash l) = l.
Proof.
  induction l as [|c [|c' l] IH]; intros Hn Hf; [done| |].
  - rewrite Forall_singleton in Hf. exact (split_single c Hf).
  - apply Forall_cons in Hf as [Hc Hf]. change (join_slash (c :: c' :: l)) with (c ++ String slash (join_slash (c' :: l)))%string.
    rewrite split_app_slash by done. f_equal. by apply IH.
Qed.

Lemma length_split s : (length (split_slash s) <= S (String.length s))%nat.
Proof.
  induction s as [|a s IH]; simpl; [lia|]. destruct (decide (a = slash)); simpl; [lia|].
  destruct (split_slash s); simpl in *; lia.
Qed.

(** The parent of a path drops its last component. *)
Lemma join_cons c l : l <> [] -> join_slash (c :: l) = (c ++ String slash (join_slash l))%string.
Proof. by destruct l. Qed.

Lemma before_last_app c s : no_slash s -> before_last_slash (c ++ String slash s)%string = Some c.
Proof.
  intros Hs. assert (Hn : before_last_slash s = None).
  { unfold no_slash in Hs. induction s as [|a s IH]; [done|]. simpl in *. apply not_elem_of_cons in Hs as [Ha Hs].
    rewrite IH by done. by rewrite decide_False by congruence. }
  induction c as [|a c IH]; simpl; [by rewrite Hn|]. by rewrite IH.
Qed.
Lemma before_last_none s : no_slash s -> before_last_slash s = None.
Proof.
  unfold no_slash. induction s as [|a s IH]; intros H; [done|]. simpl in *. apply not_elem_of_cons in H as [Ha Hs].
  rewrite IH by done. by rewrite decide_False by congruence.
Qed.

Lemma append_assoc_slash a b c : (a ++ String slash (b ++ c) = (a ++ String slash b) ++ c)%string.
Proof. induction a as [|x a IH]; [done|]. exact (f_equal (String x) IH). Qed.
Lemma join_snoc l c : l <> [] -> join_slash (l ++ [c]) = (join_slash l ++ String slash c)%string.
Proof.
  induction l as [|x l IH]; intros Hl; [done|]. destruct l as [|y l]; [done|].
  change ((x :: y :: l) ++ [c]) with (x :: ((y :: l) ++ [c])). rewrite join_cons by (by destruct l).
  rewrite IH by done. rewrite (join_cons x (y :: l)) by done. by rewrite append_assoc_slash.
Qed.
Lemma before_last_join l c : no_slash c ->
  before_last_slash (join_slash (l ++ [c])) = if decide (l = []) then None else Some (join_slash l).
Proof.
  intros Hc. destruct (decide (l = [])) as [->|Hl]; [exact (before_last_none c Hc)|]. rewrite join_snoc by done. by apply before_last_app.
Qed.

Lemma has_prefix_iff p : forall s, strings_HasPrefix s p = true <-> exists t, s = (p ++ t)%string.
Proof.
  unfold strings_HasPrefix. induction p as [|a p IH]; intros s; [split; [by exists s|by destruct s]|].
  destruct s as [|b s]; [split; [done|by intros [t ?]]|].
  change (String.prefix (String a p) (String b s)) with (if ascii_dec a b then String.prefix p s else false).
  destruct (ascii_dec a b) as [<-|Hne].
  - rewrite IH. split; [intros [t ->]; by exists t|]. intros [t Ht]. injection Ht as ->. by exists t.
  - split; [done|]. intros [t Ht]. injection Ht as Ha _. congruence.
Qed.

(** ** Decimal numbers in text ([strconv]) *)

Definition digit (z : Z) : ascii := to_byte (48 + z).
Definition digit_value (a : ascii) : option Z :=
  let v := byte_val a in if (48 <=? v) && (v <=? 57) then Some (v - 48) else None.

(** The decimal digits of a number below [10 ^ fuel]. *)
Fixpoint digits (fuel : nat) (n : Z) (acc : string) : string :=
  match fuel with
  | O => acc
  | S fuel => let acc := String (digit (n mod 10)) acc in if n <? 10 then acc else digits fuel (n / 10) acc
  end.
(** [strconv.Itoa] and the verb [%d], on 64-bit integers. *)
Definition strconv_Itoa (z : Z) : string := if z <? 0 then String "-" (digits 20 (- z) "") else digits 20 z "".

Fixpoint parse_digits (acc : Z) (s : string) : option Z :=
  match s with
  | EmptyString => Some acc
  | String a rest => d ← digit_value a; parse_digits (10 * acc + d) rest
  end.
Definition parse_unsigned (s : string) : option Z := match s with EmptyString => None | _ => parse_digits 0 s end.
(** [strconv.ParseUint(s, 10, 64)] and [strconv.Atoi]; [None] is any error. *)
Definition strconv_ParseUint (s : string) : option Z := n ← parse_unsigned s; if n <=? u64_max then Some n else None.
Definition strconv_Atoi (s : string) : option Z :=
  let signed sign digits := n ← parse_unsigned digits; let z := sign * n in if (- 2 ^ 63 <=? z) && (z <? 2 ^ 63) then Some z else None in
  match s with
  | String a rest => if decide (a = "-"%char) then signed (-1) rest else if decide (a = "+"%char) then signed 1 rest else signed 1 s
  | EmptyString => None
  end.

Example itoa_examples : (strconv_Itoa 0, strconv_Itoa 1907, strconv_Itoa (-5), strconv_Atoi "1907", strconv_Atoi "-5", strconv_Atoi "1x")
  = ("0", "1907", "-5", Some 1907, Some (-5), None).
Proof. reflexivity. Qed.

(** ** Round trip *)
Lemma digit_value_digit z : 0 <= z < 10 -> digit_value (digit z) = Some z.
Proof.
  intros Hz. unfold digit_value, digit. rewrite byte_val_to_byte, Z.mod_small by lia.
  replace ((48 <=? 48 + z) && (48 + z <=? 57)) with true by lia. f_equal. lia.
Qed.

Lemma parse_digits_app fuel : forall n acc v, 0 <= n < 10 ^ Z.of_nat fuel ->
  exists k, 0 <= k /\ parse_digits v (digits fuel n acc) = parse_digits (v * 10 ^ k + n) acc.
Proof.
  induction fuel as [|fuel IH]; intros n acc v Hn; [exists 0; simpl in *; split; [done|]; f_equal; lia|].
  cbn [digits]. assert (Hm : 0 <= n mod 10 < 10) by (by apply Z.mod_pos_bound). destruct (Z.ltb_spec n 10) as [Hlt|Hge].
  - exists 1. split; [done|]. rewrite Z.mod_small by lia. cbn [parse_digits]. rewrite digit_value_digit by lia. simpl. f_equal. lia.
  - rewrite Nat2Z.inj_succ, Z.pow_succ_r in Hn by lia. destruct (IH (n / 10) (String (digit (n mod 10)) acc) v) as (k & Hk & ->).
    { split; [apply Z.div_pos; lia|]. apply Z.div_lt_upper_bound; lia. }
    exists (k + 1). split; [lia|]. cbn [parse_digits]. rewrite digit_value_digit by done. simpl. f_equal. rewrite Z.pow_add_r by lia.
    pose proof (Z.div_mod n 10). lia.
Qed.

Lemma digits_nonempty fuel n acc : (fuel <> 0)%nat \/ acc <> "" -> digits fuel n acc <> "".
Proof.
  revert n acc. induction fuel as [|fuel IH]; intros n acc [H|H]; cbn [digits]; try done.
  - destruct (n <? 10); [done|]. apply IH. by right.
  - destruct (n <? 10); [done|]. apply IH. by right.
Qed.

Lemma parse_itoa n : 0 <= n <= u64_max -> strconv_ParseUint (strconv_Itoa n) = Some n.
Proof.
  intros Hn. unfold strconv_ParseUint, strconv_Itoa. replace (n <? 0) with false by lia.
  assert (parse_unsigned (digits 20 n "") = Some n) as ->.
  { assert (Hne := digits_nonempty 20 n "" ltac:(by left)). unfold parse_unsigned. destruct (digits 20 n "") as [|a s] eqn:Hd; [done|].
    rewrite <- Hd. destruct (parse_digits_app 20 n "" 0) as (k & _ & ->); [unfold u64_max in Hn; lia|]. reflexivity. }
  cbn. assert ((n <=? u64_max) = true) as -> by lia. done.
Qed.

(** ** URLs and timestamps of the Go standard library

    [net/url.Parse] and [URL.String] of Go 1.25.0, the version [go.mod] names, as far as
    [parsed.String() == value] and the fields the sources read need them, and
    [time.RFC3339Nano]. *)

(** ** Byte strings *)
Definition ch (c : string) : bytes := to_bytes c.
Definition is_char (c : string) (b : byte) : bool := bool_decide ([b] = ch c).
Definition one_of (cs : string) (b : byte) : bool := bool_decide (b ∈ ch cs).
Fixpoint index_of (c : string) (bs : bytes) : option nat :=
  match bs with [] => None | b :: rest => if is_char c b then Some 0%nat else S <$> index_of c rest end.
Fixpoint last_index_of (c : string) (bs : bytes) : option nat :=
  match bs with
  | [] => None
  | b :: rest => match last_index_of c rest with Some i => Some (S i) | None => if is_char c b then Some 0%nat else None end
  end.
(** [strings.Cut(s, c)]. *)
Definition cut (c : string) (bs : bytes) : bytes * bytes :=
  match index_of c bs with Some i => (take i bs, drop (S i) bs) | None => (bs, []) end.
Definition starts_with (p : string) (bs : bytes) : bool := bool_decide (take (String.length p) bs = ch p).
(** [strings.Index(s, p)]. *)
Fixpoint find_sub (p : string) (bs : bytes) : option nat :=
  if starts_with p bs then Some 0%nat else match bs with [] => None | _ :: rest => S <$> find_sub p rest end.

(** ** Escaping *)
Inductive encoding := encodePath | encodeHost | encodeZone.
Definition is_alnum (b : byte) : bool :=
  in_range 97 122 (byte_val b) || in_range 65 90 (byte_val b) || in_range 48 57 (byte_val b).
Definition shouldEscape (b : byte) (mode : encoding) : bool :=
  if is_alnum b then false
  else match mode with
  | encodePath => negb (one_of "-_.~" b || one_of "$&+,/:;=@" b)
  | encodeHost | encodeZone => negb (one_of "!$&'()*+,;=:[]<>" b || (byte_val b =? 34) || one_of "-_.~" b)
  end.

Definition escaped_byte (x y : byte) : option Z := hi ← hex_value x; lo ← hex_value y; Some (hi * 16 + lo).
(** The escape is allowed in a host or a zone. *)
Definition escape_ok (mode : encoding) (x y : byte) (v : Z) : bool :=
  let percent := is_char "2" x && is_char "5" y in
  match mode with
  | encodePath => true
  | encodeHost => (8 <=? v / 16) || percent
  | encodeZone => percent || (v =? 32) || negb (shouldEscape (to_byte v) encodeHost)
  end.
Definition plain_ok (mode : encoding) (b : byte) : bool :=
  match mode with encodePath => true | _ => negb ((byte_val b <? 128) && shouldEscape b mode) end.
Fixpoint unescape (mode : encoding) (bs : bytes) : option bytes :=
  match bs with
  | [] => Some []
  | b :: rest =>
      if is_char "%" b then
        match rest with
        | x :: y :: rest' =>
            v ← escaped_byte x y;
            if escape_ok mode x y v then out ← unescape mode rest'; Some (to_byte v :: out) else None
        | _ => None
        end
      else if plain_ok mode b then out ← unescape mode rest; Some (b :: out) else None
  end.

Definition upper_hex (z : Z) : byte := to_byte (if z <? 10 then 48 + z else 55 + z).
Definition escape (mode : encoding) (bs : bytes) : bytes :=
  flat_map (fun b => if shouldEscape b mode then ch "%" ++ [upper_hex (byte_val b / 16); upper_hex (byte_val b mod 16)] else [b]) bs.
Definition validEncoded (bs : bytes) : bool :=
  forallb (fun b => one_of "!$&'()*+,;=:@[]%" b || negb (shouldEscape b encodePath)) bs.

(** ** Parsing *)
Record URL := MkURL {
  url_Scheme : string; url_Opaque : bytes; url_HasUser : bool; url_Host : bytes; url_Path : bytes; url_RawPath : bytes;
  url_ForceQuery : bool; url_RawQuery : bytes; url_Fragment : bytes; url_OmitHost : bool;
}.

(** [getScheme]: the scheme and the rest, or an error; no scheme is the empty one. *)
Fixpoint scheme_length (i : nat) (bs : bytes) : option (option nat) :=
  match bs with
  | [] => Some None
  | b :: rest =>
      if in_range 97 122 (byte_val b) || in_range 65 90 (byte_val b) then scheme_length (S i) rest
      else if in_range 48 57 (byte_val b) || one_of "+-." b then if (i =? 0)%nat then Some None else scheme_length (S i) rest
      else if is_char ":" b then if (i =? 0)%nat then None else Some (Some i)
      else Some None
  end.
Definition lower (b : byte) : byte := if in_range 65 90 (byte_val b) then to_byte (byte_val b + 32) else b.
Definition getScheme (bs : bytes) : option (string * bytes) :=
  match scheme_length 0 bs with
  | None => None
  | Some None => Some ("", bs)
  | Some (Some i) => Some (of_bytes (map lower (take i bs)), drop (S i) bs)
  end.

(** [validOptionalPort]. *)
Definition validOptionalPort (bs : bytes) : bool :=
  match bs with [] => true | b :: rest => is_char ":" b && forallb (fun b => in_range 48 57 (byte_val b)) rest end.
Definition parseHost (host : bytes) : option bytes :=
  if starts_with "[" host then
    match last_index_of "]" host with
    | None => None
    | Some i =>
        if negb (validOptionalPort (drop (S i) host)) then None
        else match find_sub "%25" (take i host) with
             | Some zone =>
                 host1 ← unescape encodeHost (take zone host);
                 host2 ← unescape encodeZone (drop zone (take i host));
                 host3 ← unescape encodeHost (drop i host);
                 Some (host1 ++ host2 ++ host3)
             | None => unescape encodeHost host
             end
    end
  else match last_index_of ":" host with
       | Some i => if validOptionalPort (drop i host) then unescape encodeHost host else None
       | None => unescape encodeHost host
       end.

(** [parseAuthority] and [setPath]: user information is only noticed, since the sources
    refuse it. *)
Definition set_path (u : URL) (p : bytes) : option URL :=
  path ← unescape encodePath p;
  Some (MkURL (url_Scheme u) (url_Opaque u) (url_HasUser u) (url_Host u) path (if bool_decide (escape encodePath path = p) then [] else p)
    (url_ForceQuery u) (url_RawQuery u) (url_Fragment u) (url_OmitHost u)).
Definition count_char (c : string) (bs : bytes) : nat := length (filter (fun b => is_char c b = true) bs).

Definition parse_rest (scheme : string) (rest : bytes) : option URL :=
  let force := (match last rest with Some b => is_char "?" b | None => false end) && (count_char "?" rest =? 1)%nat in
  let '(rest, query) := if force then (take (length rest - 1) rest, []) else cut "?" rest in
  let url host user omit opaque := MkURL scheme opaque user host [] [] force query [] omit in
  if negb (starts_with "/" rest) && (scheme != "") then Some (url [] false false rest)
  else if negb (starts_with "/" rest) && bool_decide (is_Some (index_of ":" (cut "/" rest).1)) then None
  else if ((scheme != "") || negb (starts_with "///" rest)) && starts_with "//" rest then
    let authority := drop 2 rest in
    let '(authority, path) := match index_of "/" authority with Some i => (take i authority, drop i authority) | None => (authority, []) end in
    match last_index_of "@" authority with
    | Some i => host ← parseHost (drop (S i) authority); set_path (url host true false []) path
    | None => host ← parseHost authority; set_path (url host false false []) path
    end
  else set_path (url [] false ((scheme != "") && starts_with "/" rest) []) rest.

Definition has_ctl (bs : bytes) : bool := existsb (fun b => (byte_val b <? 32) || (byte_val b =? 127)) bs.
Definition url_Parse (value : string) : option URL :=
  let '(u, fragment) := cut "#" (to_bytes value) in
  if has_ctl u then None
  else
    sr ← getScheme u;
    url ← parse_rest sr.1 sr.2;
    fragment ← unescape encodePath fragment;
    Some (MkURL (url_Scheme url) (url_Opaque url) (url_HasUser url) (url_Host url) (url_Path url) (url_RawPath url) (url_ForceQuery url)
      (url_RawQuery url) fragment (url_OmitHost url)).

(** [URL.String] of a URL with a scheme and without user information and fragment. *)
Definition EscapedPath (u : URL) : bytes :=
  if bool_decide (url_RawPath u <> []) && validEncoded (url_RawPath u) && bool_decide (unescape encodePath (url_RawPath u) = Some (url_Path u))
  then url_RawPath u
  else if bool_decide (url_Path u = ch "*") then ch "*" else escape encodePath (url_Path u).
Definition nonempty (bs : bytes) : bool := bool_decide (bs <> []).
Definition url_String (u : URL) : string :=
  let scheme := if url_Scheme u != "" then to_bytes (url_Scheme u) ++ ch ":" else [] in
  let body :=
    if nonempty (url_Opaque u) then url_Opaque u
    else
      let path := EscapedPath u in
      let host :=
        if ((url_Scheme u != "") || nonempty (url_Host u)) && negb (url_OmitHost u && negb (nonempty (url_Host u)))
        then (if nonempty (url_Host u) || nonempty (url_Path u) then ch "//" else []) ++ escape encodeHost (url_Host u) else [] in
      let slash := if nonempty path && negb (starts_with "/" path) && nonempty (url_Host u) then ch "/" else [] in
      host ++ slash ++ path in
  let query := if url_ForceQuery u || nonempty (url_RawQuery u) then ch "?" ++ url_RawQuery u else [] in
  of_bytes (scheme ++ body ++ query).

(** ** [Format(time.RFC3339Nano)] of a UTC time

    Days count from the first of January of year 1, the zero time. *)
Definition is_leap (year : Z) : bool := (year mod 4 =? 0) && (negb (year mod 100 =? 0) || (year mod 400 =? 0)).
Definition month_lengths (year : Z) : list Z := [31; (if is_leap year then 29 else 28); 31; 30; 31; 30; 31; 31; 30; 31; 30; 31].
Definition year_of (days : Z) : Z * Z :=
  let n400 := days / 146097 in let d := days mod 146097 in
  let n100 := Z.min 3 (d / 36524) in let d := d - n100 * 36524 in
  let n4 := d / 1461 in let d := d - n4 * 1461 in
  let n1 := Z.min 3 (d / 365) in
  (400 * n400 + 100 * n100 + 4 * n4 + n1 + 1, d - n1 * 365).
Fixpoint month_of (month : Z) (lengths : list Z) (day : Z) : Z * Z :=
  match lengths with [] => (month, day) | n :: rest => if day <? n then (month, day) else month_of (month + 1) rest (day - n) end.
(** A number in at least [width] digits. *)
Fixpoint padded (width : nat) (n : Z) : string :=
  match width with O => "" | S w => (padded w (n / 10) ++ String (digit (n mod 10)) "")%string end.
Definition year_text (year : Z) : string := if year <? 10000 then padded 4 year else strconv_Itoa year.
(** The fraction, without its trailing zeros. *)
Fixpoint trim_zeros (bs : bytes) : bytes := match bs with b :: rest => if is_char "0" b then trim_zeros rest else bs | [] => [] end.
Definition fraction_text (nanoseconds : Z) : string :=
  if nanoseconds =? 0 then "" else ("." ++ of_bytes (rev (trim_zeros (rev (to_bytes (padded 9 nanoseconds))))))%string.
Definition RFC3339Nano (t : time) : string :=
  let seconds := t / 1000000000 in
  let '(year, day) := year_of (seconds / 86400) in
  let '(month, day) := month_of 1 (month_lengths year) day in
  let s := seconds mod 86400 in
  (year_text year ++ "-" ++ padded 2 month ++ "-" ++ padded 2 (day + 1) ++ "T" ++ padded 2 (s / 3600) ++ ":" ++ padded 2 (s / 60 mod 60) ++ ":"
    ++ padded 2 (s mod 60) ++ fraction_text (t mod 1000000000) ++ "Z")%string.

Example RFC3339Nano_examples :
  map RFC3339Nano [0; 62135596800 * 1000000000; 63861998706 * 1000000000 + 120000000; 63871199999 * 1000000000 + 999999999] =
  ["0001-01-01T00:00:00Z"; "1970-01-01T00:00:00Z"; "2024-09-15T12:05:06.12Z"; "2024-12-30T23:59:59.999999999Z"].
Proof. vm_compute. reflexivity. Qed.

(** The URLs that are printed as they are written. *)
Definition prints_back (value : string) : bool := match url_Parse value with Some u => url_String u == value | None => false end.
Example url_examples :
  map prints_back ["https://api.example.com/v1/"; "http://h:8080"; "https://[::1]:443/x"; "https://h/a%2Fb"; "https://h/?"; "https://h/%7e"] = [true; true; true; true; true; true] /\
  map prints_back ["HTTPS://h/"; "https://h/#"; "https://h /"; "https://h:x/"; "https://[::1"; "https://h/%zz"; "https://h/a b"; "https://%41/"] =
    [false; false; false; false; false; false; false; false].
Proof. vm_compute. split; reflexivity. Qed.
