(* ===== verification/GoCrypto.v ===== *)
(** * Hashing and base32 of the Go standard library

    [crypto/sha256], [crypto/hmac] and [encoding/base32] as the packages use
    them.  SHA-256 and HMAC are the functions of FIPS 180-4 and RFC 2104, so
    that digests, sealed permits and handshake proofs evaluate; the examples
    are the published test vectors.  Nothing is assumed of them beyond what is
    proved here (the length of a digest). *)

From S2P Require Import Prelude GoText.

(** ** SHA-256 *)
Definition rotr (n x : Z) : Z := u32 (Z.lor (Z.shiftr x n) (Z.shiftl x (32 - n))).
Definition big_sigma0 (x : Z) : Z := Z.lxor (rotr 2 x) (Z.lxor (rotr 13 x) (rotr 22 x)).
Definition big_sigma1 (x : Z) : Z := Z.lxor (rotr 6 x) (Z.lxor (rotr 11 x) (rotr 25 x)).
Definition small_sigma0 (x : Z) : Z := Z.lxor (rotr 7 x) (Z.lxor (rotr 18 x) (Z.shiftr x 3)).
Definition small_sigma1 (x : Z) : Z := Z.lxor (rotr 17 x) (Z.lxor (rotr 19 x) (Z.shiftr x 10)).
Definition ch (x y z : Z) : Z := Z.lxor (Z.land x y) (Z.land (2 ^ 32 - 1 - x) z).
Definition maj (x y z : Z) : Z := Z.lxor (Z.land x y) (Z.lxor (Z.land x z) (Z.land y z)).

Definition sha256_k : list Z :=
  [ 1116352408; 1899447441; 3049323471; 3921009573; 961987163; 1508970993; 2453635748;
    2870763221; 3624381080; 310598401; 607225278; 1426881987; 1925078388; 2162078206;
    2614888103; 3248222580; 3835390401; 4022224774; 264347078; 604807628; 770255983;
    1249150122; 1555081692; 1996064986; 2554220882; 2821834349; 2952996808; 3210313671;
    3336571891; 3584528711; 113926993; 338241895; 666307205; 773529912; 1294757372;
    1396182291; 1695183700; 1986661051; 2177026350; 2456956037; 2730485921; 2820302411;
    3259730800; 3345764771; 3516065817; 3600352804; 4094571909; 275423344; 430227734;
    506948616; 659060556; 883997877; 958139571; 1322822218; 1537002063; 1747873779;
    1955562222; 2024104815; 2227730452; 2361852424; 2428436474; 2756734187; 3204031479;
    3329325298 ].

Record sha_state := ShaState { sa : Z; sb : Z; sc : Z; sd : Z; se : Z; sf : Z; sg : Z; sh : Z }.

Definition sha256_init : sha_state :=
  ShaState 1779033703 3144134277 1013904242 2773480762 1359893119 2600822924 528734635
    1541459225.

(** One round: [w] is the message-schedule window, whose head is this round's
    word. *)
Definition sha256_round (st : sha_state * list Z) (k : Z) : sha_state * list Z :=
  let '(s, w) := st in
  let w0 := nth 0 w 0 in
  let t1 := u32 (sh s + big_sigma1 (se s) + ch (se s) (sf s) (sg s) + k + w0) in
  let t2 := u32 (big_sigma0 (sa s) + maj (sa s) (sb s) (sc s)) in
  let w16 := u32 (small_sigma1 (nth 14 w 0) + nth 9 w 0 + small_sigma0 (nth 1 w 0) + w0) in
  (ShaState (u32 (t1 + t2)) (sa s) (sb s) (sc s) (u32 (sd s + t1)) (se s) (sf s) (sg s),
   tail w ++ [w16]).

Definition sha256_add (x y : sha_state) : sha_state :=
  ShaState (u32 (sa x + sa y)) (u32 (sb x + sb y)) (u32 (sc x + sc y)) (u32 (sd x + sd y))
    (u32 (se x + se y)) (u32 (sf x + sf y)) (u32 (sg x + sg y)) (u32 (sh x + sh y)).

Fixpoint words_of (n : nat) (bs : bytes) : list Z :=
  match n with
  | O => []
  | S n' => be_value (take 4 bs) :: words_of n' (drop 4 bs)
  end.

Definition sha256_block (s : sha_state) (block : bytes) : sha_state :=
  sha256_add s (fold_left sha256_round sha256_k (s, words_of 16 block)).1.

Fixpoint sha256_blocks (n : nat) (s : sha_state) (bs : bytes) : sha_state :=
  match n with
  | O => s
  | S n' => sha256_blocks n' (sha256_block s (take 64 bs)) (drop 64 bs)
  end.

Definition sha256_pad (bs : bytes) : bytes :=
  let n := length bs in
  let zeros := Z.to_nat ((55 - Z.of_nat n) mod 64) in
  bs ++ [to_byte 128] ++ replicate zeros (to_byte 0) ++ be_bytes 8 (8 * Z.of_nat n).

(** [sha256.Sum256] *)
Definition sha256_Sum256 (bs : bytes) : bytes :=
  let padded := sha256_pad bs in
  let s := sha256_blocks (length padded / 64) sha256_init padded in
  concat (map (be_bytes 4) [sa s; sb s; sc s; sd s; se s; sf s; sg s; sh s]).

(** ** HMAC-SHA-256: [hmac.New(sha256.New, key)], [Write], [Sum(nil)] *)
Definition hmac_sha256 (key msg : bytes) : bytes :=
  let k0 := if (64 <? length key)%nat then sha256_Sum256 key else key in
  let k := k0 ++ replicate (64 - length k0) (to_byte 0) in
  let xor c := map (fun b => to_byte (Z.lxor (byte_val b) c)) k in
  sha256_Sum256 (xor 92 ++ sha256_Sum256 (xor 54 ++ msg)).

(** [hmac.Equal] and [subtle.ConstantTimeCompare]: equality of contents. *)
Definition hmac_Equal (a b : bytes) : bool := bool_decide (a = b).

(** "sha256:" + hex.EncodeToString(sum) *)
Definition sha256_text (bs : bytes) : string :=
  ("sha256:" +:+ hex_EncodeToString (sha256_Sum256 bs))%string.

#[global] Arguments sha256_Sum256 : simpl never.
#[global] Arguments hmac_sha256 : simpl never.

Lemma length_sha256_Sum256 bs : length (sha256_Sum256 bs) = 32%nat.
Proof.
  unfold sha256_Sum256. cbn [map concat].
  by rewrite !length_app, !length_be_bytes.
Qed.

Lemma length_hmac_sha256 key msg : length (hmac_sha256 key msg) = 32%nat.
Proof. apply length_sha256_Sum256. Qed.

Lemma hmac_Equal_true a b : hmac_Equal a b = true <-> a = b.
Proof. apply bool_decide_eq_true. Qed.

Lemma hmac_Equal_refl a : hmac_Equal a a = true.
Proof. by apply hmac_Equal_true. Qed.

Example sha256_empty :
  hex_EncodeToString (sha256_Sum256 []) =
  "e3b0c44298fc1c149afbf4c8996fb92427ae41e4649b934ca495991b7852b855"%string.
Proof. vm_compute. reflexivity. Qed.

Example sha256_two_blocks :
  hex_EncodeToString (sha256_Sum256
    (to_bytes "abcdbcdecdefdefgefghfghighijhijkijkljklmklmnlmnomnopnopq")) =
  "248d6a61d20638b8e5c026930c3e6039a33ce45964ff2167f6ecedd419db06c1"%string.
Proof. vm_compute. reflexivity. Qed.

Example hmac_jefe :
  hex_EncodeToString (hmac_sha256 (to_bytes "Jefe") (to_bytes "what do ya want for nothing?")) =
  "5bdcc146bf60754e6a042426089575c75a003f089d2739839dec58b964ec3843"%string.
Proof. vm_compute. reflexivity. Qed.

(** ** Base32: [base32.StdEncoding.WithPadding(base32.NoPadding)]

    The text is the bit string of the input, most significant bit first, cut in
    groups of five bits (the last one filled with zeros), each group a letter of
    the alphabet. *)
Definition base32_alphabet : bytes := to_bytes "ABCDEFGHIJKLMNOPQRSTUVWXYZ234567".

Definition bits_of (width : nat) (z : Z) : list bool :=
  map (fun i => Z.testbit z (Z.of_nat i)) (rev (seq 0 width)).
Definition bits_val (bits : list bool) : Z :=
  fold_left (fun acc b => acc * 2 + Z.b2z b) bits 0.

(** Cut [n] groups of [w] bits, filling the last one with zeros. *)
Fixpoint bit_groups (n w : nat) (bits : list bool) : list Z :=
  match n with
  | O => []
  | S n' =>
      let g := take w bits in
      bits_val (g ++ replicate (w - length g) false) :: bit_groups n' w (drop w bits)
  end.

Definition base32_char (z : Z) : ascii := nth (Z.to_nat z) base32_alphabet zero.

Fixpoint index_of (b : ascii) (l : bytes) : option nat :=
  match l with
  | [] => None
  | c :: l' => if decide (b = c) then Some 0%nat else S <$> index_of b l'
  end.

Definition base32_EncodeToString (bs : bytes) : string :=
  let bits := flat_map (fun b => bits_of 8 (byte_val b)) bs in
  of_bytes (map base32_char (bit_groups ((length bits + 4) / 5) 5 bits)).

(** The number of bytes the last, incomplete quantum of eight letters gives: the
    [switch dlen] of the package's [decode]. *)
Definition base32_tail_bytes (dlen : nat) : nat :=
  match dlen with 2 => 1 | 4 => 2 | 5 => 3 | 7 => 4 | _ => 0 end%nat.

(** [DecodeString]: line breaks are dropped, any other byte outside the alphabet
    is an error ([None]), the bits left over at the end are ignored. *)
Definition base32_DecodeString (s : string) : option bytes :=
  let src := List.filter (fun b => negb ((byte_val b =? 10) || (byte_val b =? 13))) (to_bytes s) in
  values ← mapM (fun b => index_of b base32_alphabet) src;
  let bits := flat_map (fun i => bits_of 5 (Z.of_nat i)) values in
  let n := (5 * (length src / 8) + base32_tail_bytes (length src mod 8))%nat in
  Some (map to_byte (bit_groups n 8 bits)).

Lemma length_bits_of w z : length (bits_of w z) = w.
Proof. unfold bits_of. by rewrite length_map, length_rev, length_seq. Qed.

Lemma bits_of_succ w z : bits_of (S w) z = Z.testbit z (Z.of_nat w) :: bits_of w z.
Proof. unfold bits_of. by rewrite seq_S, rev_app_distr. Qed.

Lemma bits_val_cons_acc bits acc :
  fold_left (fun acc b => acc * 2 + Z.b2z b) bits acc = acc * 2 ^ zlen bits + bits_val bits.
Proof.
  unfold bits_val. revert acc. induction bits as [|b bits IH]; intros acc.
  - change (acc = acc * 1 + 0). lia.
  - cbn [fold_left]. rewrite IH, (IH (0 * 2 + _)), zlen_cons, Z.pow_add_r by go_arith. change (2 ^ 1) with 2. ring.
Qed.

Lemma bits_val_bits_of w z : 0 <= z < 2 ^ Z.of_nat w -> bits_val (bits_of w z) = z.
Proof.
  assert (H : forall z, bits_val (bits_of w z) = z mod 2 ^ Z.of_nat w).
  { clear z. induction w as [|w IH]; intros z.
    - by rewrite Z.mod_1_r.
    - rewrite bits_of_succ. unfold bits_val. cbn [fold_left]. rewrite bits_val_cons_acc.
      unfold zlen. rewrite length_bits_of, IH.
      rewrite Nat2Z.inj_succ, Z.pow_succ_r, (Z.mul_comm 2), Z.rem_mul_r by lia.
      rewrite <- Z.bit0_mod, Z.div_pow2_bits by lia. rewrite !Z.add_0_l. ring. }
  intros. rewrite H, Z.mod_small; lia.
Qed.

Lemma bits_val_range bits : 0 <= bits_val bits < 2 ^ zlen bits.
Proof.
  induction bits as [|b bits IH]; [done|]. unfold bits_val. cbn [fold_left].
  rewrite bits_val_cons_acc, zlen_cons, Z.pow_add_r by go_arith.
  destruct b; simpl; lia.
Qed.

Lemma bits_of_bits_val bits : bits_of (length bits) (bits_val bits) = bits.
Proof.
  induction bits as [|b bits IH]; [done|]. simpl length. rewrite bits_of_succ.
  unfold bits_val at 1 2. cbn [fold_left]. rewrite bits_val_cons_acc. fold (zlen bits).
  pose proof (bits_val_range bits) as Hr. f_equal.
  - rewrite Z.testbit_eqb by go_arith.
    rewrite Z.div_add_l, (Z.div_small (bits_val bits)) by lia. destruct b; done.
  - trans (bits_of (length bits) (bits_val bits)); [|done]. apply map_ext_in. intros i [_ Hi]%in_rev%in_seq.
    rewrite <- (Z.mod_pow2_bits_low _ (zlen bits)) by (unfold zlen; lia).
    by rewrite Z.add_comm, Z.mod_add, Z.mod_small by lia.
Qed.

Lemma bit_groups_range n w bits : Forall (fun z => 0 <= z < 2 ^ Z.of_nat w) (bit_groups n w bits).
Proof.
  revert bits. induction n as [|n IH]; intros bits; simpl; constructor; auto.
  set (g := take w bits ++ _). pose proof (bits_val_range g) as Hg.
  replace (zlen g) with (Z.of_nat w) in Hg; [done|].
  unfold zlen, g. rewrite length_app, length_replicate, length_take. lia.
Qed.

Lemma length_bit_groups n w bits : length (bit_groups n w bits) = n.
Proof. revert bits. induction n; intros; simpl; auto. Qed.

Lemma bit_groups_flat w zs tl :
  Forall (fun z => 0 <= z < 2 ^ Z.of_nat w) zs ->
  bit_groups (length zs) w (flat_map (bits_of w) zs ++ tl) = zs.
Proof.
  induction 1 as [|z zs Hz _ IH]; [done|]. simpl.
  rewrite <- app_assoc, take_app_length', drop_app_length' by (by rewrite length_bits_of).
  rewrite length_bits_of, Nat.sub_diag, app_nil_r, bits_val_bits_of by done. by rewrite IH.
Qed.

Lemma flat_bit_groups n w bits :
  (length bits <= n * w)%nat ->
  flat_map (bits_of w) (bit_groups n w bits) = bits ++ replicate (n * w - length bits) false.
Proof.
  revert bits. induction n as [|n IH]; intros bits Hlen; simpl.
  - destruct bits; [done|simpl in Hlen; lia].
  - rewrite IH by (rewrite length_drop; lia).
    set (g := take w bits ++ _).
    assert (Hg : length g = w).
    { unfold g. rewrite length_app, length_replicate, length_take. lia. }
    rewrite <- Hg at 1. rewrite bits_of_bits_val. unfold g. rewrite length_drop.
    destruct (decide (w <= length bits)%nat) as [Hw|Hw].
    + rewrite length_take_le, Nat.sub_diag, app_nil_r, app_assoc, take_drop by done.
      do 2 f_equal. lia.
    + rewrite drop_ge, (take_ge bits) by lia. rewrite <- app_assoc. f_equal. simpl.
      rewrite <- replicate_add. f_equal. lia.
Qed.

Lemma index_of_base32_char z :
  0 <= z < 32 -> index_of (base32_char z) base32_alphabet = Some (Z.to_nat z).
Proof.
  intros Hz. assert (Hin : In (Z.to_nat z) (seq 0 32)) by (apply in_seq; lia).
  unfold base32_char. revert Hin. generalize (Z.to_nat z).
  apply (proj1 (List.Forall_forall
    (fun n => index_of (nth n base32_alphabet zero) base32_alphabet = Some n) _)).
  repeat constructor.
Qed.

Lemma base32_char_not_break z :
  0 <= z < 32 ->
  negb ((byte_val (base32_char z) =? 10) || (byte_val (base32_char z) =? 13)) = true.
Proof.
  intros Hz. assert (Hin : In (Z.to_nat z) (seq 0 32)) by (apply in_seq; lia).
  unfold base32_char. revert Hin. generalize (Z.to_nat z).
  apply (proj1 (List.Forall_forall (fun n =>
    negb ((byte_val (nth n base32_alphabet zero) =? 10)
          || (byte_val (nth n base32_alphabet zero) =? 13)) = true) _)).
  repeat constructor.
Qed.

Lemma byte_bits_flat bs :
  flat_map (fun b => bits_of 8 (byte_val b)) bs = flat_map (bits_of 8) (map byte_val bs).
Proof. induction bs; simpl; congruence. Qed.

Lemma length_flat_bits w zs : length (flat_map (bits_of w) zs) = (length zs * w)%nat.
Proof. induction zs; simpl; [done|]. rewrite length_app, length_bits_of. lia. Qed.

Lemma base32_letters zs :
  Forall (fun z => 0 <= z < 2 ^ Z.of_nat 5) zs ->
  List.filter (fun b => negb ((byte_val b =? 10) || (byte_val b =? 13))) (map base32_char zs)
    = map base32_char zs /\
  mapM (fun b => index_of b base32_alphabet) (map base32_char zs) = Some (map Z.to_nat zs).
Proof.
  induction 1 as [|z zs Hz _ [IHf IHm]]; [done|]. cbn [map List.filter].
  rewrite base32_char_not_break by done. split; [by rewrite IHf|].
  change (index_of (base32_char z) base32_alphabet ≫= (fun x =>
    mapM (fun b => index_of b base32_alphabet) (map base32_char zs) ≫= (fun k => Some (x :: k)))
    = Some (Z.to_nat z :: map Z.to_nat zs)).
  by rewrite index_of_base32_char, IHm.
Qed.

Lemma flat_bits_of_nat w zs :
  Forall (fun z => 0 <= z) zs ->
  flat_map (fun i => bits_of w (Z.of_nat i)) (map Z.to_nat zs) = flat_map (bits_of w) zs.
Proof. induction 1; simpl; [done|]. rewrite Z2Nat.id by done. congruence. Qed.

(** Decoding inverts encoding on the 16 bytes of an identity. *)
Lemma base32_decode_encode bs :
  length bs = 16%nat -> base32_DecodeString (base32_EncodeToString bs) = Some bs.
Proof.
  intros Hlen. unfold base32_DecodeString, base32_EncodeToString. rewrite to_of_bytes.
  rewrite byte_bits_flat. set (bits := flat_map (bits_of 8) (map byte_val bs)).
  assert (Hbits : length bits = 128%nat).
  { unfold bits. rewrite length_flat_bits, length_map, Hlen. done. }
  rewrite Hbits. change ((128 + 4) / 5)%nat with 26%nat.
  pose proof (bit_groups_range 26 5 bits) as Hr.
  destruct (base32_letters _ Hr) as [-> ->]. rewrite length_map, length_bit_groups.
  cbn [mbind option_bind]. rewrite flat_bits_of_nat by (eapply Forall_impl; [done|intros ? [? _]; done]).
  rewrite flat_bit_groups by (rewrite Hbits; lia).
  replace (5 * (26 / 8) + base32_tail_bytes (26 mod 8))%nat with (length (map byte_val bs))
    by (by rewrite length_map, Hlen).
  unfold bits. rewrite bit_groups_flat.
  - rewrite map_map. f_equal. rewrite (map_ext _ id), map_id; [done|apply to_byte_byte_val].
  - apply Forall_map, Forall_true. intros b. apply byte_val_range.
Qed.

Lemma length_base32_encode bs :
  length bs = 16%nat -> length (to_bytes (base32_EncodeToString bs)) = 26%nat.
Proof.
  intros Hlen. unfold base32_EncodeToString. rewrite to_of_bytes, length_map, length_bit_groups.
  by rewrite byte_bits_flat, length_flat_bits, length_map, Hlen.
Qed.
