(* ===== verification/Canonical.v ===== *)
(** * internal/canonical: deterministic CBOR

    The encoder and decoder that every durable record, command and digest of the
    platform goes through ([src/internal/canonical/cbor.go]).  The file holds
    the data type of encodable values, [Encode], [Decode], [StructuredDigest] and
    [NormalizeStringSet]; the theorems are in [CanonicalProofs]. *)

From S2P Require Import Prelude GoText GoCrypto.

(** ** Values

    [Value] is [any]; the constructors are the dynamic types the encoder has a
    case for.  The five signed and the five unsigned integer types are one
    constructor each, with the kind.  A Go map
    is the association list of its entries in the order a [range] loop visits
    them (that order is arbitrary, which is why the encoder sorts); a map built by
    the decoder lists its entries in insertion order.  [VOther] is a value of any
    other dynamic type. *)
Inductive int_kind := KInt | KInt8 | KInt16 | KInt32 | KInt64.
Inductive uint_kind := KUint | KUint8 | KUint16 | KUint32 | KUint64.

#[local] Unset Elimination Schemes.
Inductive Value :=
| VNil
| VBool (b : bool)
| VString (s : string)
| VBytes (b : bytes)
| VInt (k : int_kind) (z : Z)
| VUint (k : uint_kind) (n : N)
| VArray (l : list Value)
| VMap (m : list (string * Value))
| VOther.
#[local] Set Elimination Schemes.

Inductive cerror :=
| ErrInvalidValue | ErrInvalidEncoding | ErrDuplicateKey | ErrLimitExceeded | ErrInvalidOption.

#[global] Instance cerror_eq_dec : EqDecision cerror.
Proof. solve_decision. Defined.

Record Options := { MaxDepth : Z; MaxBytes : Z; MaxItems : Z }.

Definition DefaultOptions : Options :=
  {| MaxDepth := 64; MaxBytes := Z.shiftl 16 20; MaxItems := 1000000 |}.

Definition invalid_options (o : Options) : bool :=
  (MaxDepth o <? 0) || (MaxBytes o <? 0) || (MaxItems o <? 0).

(** ** The encoder *)
Record writer := Writer { w_encoded : bytes; w_maxBytes : Z; w_items : Z; w_maxItems : Z }.

Definition w_count (o : writer) : writer :=
  Writer (w_encoded o) (w_maxBytes o) (w_items o + 1) (w_maxItems o).

Definition appendBytes (o : writer) (value : bytes) : res cerror writer :=
  if w_maxBytes o - zlen (w_encoded o) <? zlen value then Err ErrLimitExceeded
  else Ok (Writer (w_encoded o ++ value) (w_maxBytes o) (w_items o) (w_maxItems o)).

(** The header bytes of [appendHead]: the shortest form of the argument. *)
Definition head_bytes (major value : Z) : bytes :=
  if value <? 24 then [to_byte (Z.lor (Z.shiftl major 5) value)]
  else if value <=? 255 then [to_byte (Z.lor (Z.shiftl major 5) 24); to_byte value]
  else if value <=? 65535 then to_byte (Z.lor (Z.shiftl major 5) 25) :: be_bytes 2 value
  else if value <=? 4294967295 then to_byte (Z.lor (Z.shiftl major 5) 26) :: be_bytes 4 value
  else to_byte (Z.lor (Z.shiftl major 5) 27) :: be_bytes 8 value.

Definition appendHead (o : writer) (major value : Z) : res cerror writer :=
  appendBytes o (head_bytes major value).

(** The [int64] and [uint64] cases; the narrower kinds are widened to them by the
    [switch] at the top of [encode], which does not change the value. *)
Definition encodeInt (o : writer) (value : Z) : res cerror writer :=
  if 0 <=? value then
    if maxSafeInteger <? value then Err ErrInvalidValue else appendHead o 0 value
  else if value <? - maxSafeInteger then Err ErrInvalidValue
  else appendHead o 1 (-1 - value).

Definition encodeUint (o : writer) (value : Z) : res cerror writer :=
  if maxSafeInteger <? value then Err ErrInvalidValue else appendHead o 0 value.

(** Map keys are ordered by the length of their encoding, then bytewise. *)
Definition key_lt (a b : bytes) : Prop :=
  zlen a < zlen b \/ zlen a = zlen b /\ bytes_lt a b.

#[global] Instance key_lt_dec a b : Decision (key_lt a b).
Proof. unfold key_lt. apply _. Defined.

(** [sort.Slice(entries, less)]; the keys are distinct. *)
Definition sort_entries {A} (entries : list (bytes * A)) : list (bytes * A) :=
  sort_by key_lt fst entries.

Section encoder.
Context `{N : Normalizer}.

Definition encodeString (o : writer) (value : string) : res cerror writer :=
  if utf8_ValidString value then
    let value := nfc value in
    o ← appendHead o 3 (strlen value);
    appendBytes o (to_bytes value)
  else Err ErrInvalidValue.

(** The checks every value starts with: depth, item budget, item count. *)
Definition enter (o : writer) (depth maxDepth : Z) : res cerror writer :=
  if maxDepth <? depth then Err ErrLimitExceeded
  else if w_maxItems o <=? w_items o then Err ErrLimitExceeded
  else Ok (w_count o).

(** [encode(keyWriter, key, depth+1, maxDepth)] on a text. *)
Definition encodeKey (key : string) (depth maxDepth : Z) : res cerror bytes :=
  o ← enter (Writer [] (strlen key + 9) 0 1) depth maxDepth;
  o ← encodeString o key;
  Ok (w_encoded o).

(** The loop over the map that builds [entries]; [A] is what the entry keeps of
    the value. *)
Fixpoint collect_entries {A} (depth maxDepth : Z) (seen : gset string)
    (m : list (string * A)) : res cerror (list (bytes * A)) :=
  match m with
  | [] => Ok []
  | (key, item) :: m' =>
      if negb (utf8_ValidString key) then Err ErrInvalidValue
      else
        let key := nfc key in
        if decide (key ∈ seen) then Err ErrDuplicateKey
        else
          encoded ← encodeKey key (depth + 1) maxDepth;
          rest ← collect_entries depth maxDepth ({[key]} ∪ seen) m';
          Ok ((encoded, item) :: rest)
  end.

(** The loop that writes the sorted entries; each entry carries the pending
    [encode(output, entry.value, ...)]. *)
Fixpoint write_entries (o : writer) (entries : list (bytes * (writer -> res cerror writer))) :
    res cerror writer :=
  match entries with
  | [] => Ok o
  | (encoded, put) :: entries' =>
      if w_maxItems o <=? w_items o then Err ErrLimitExceeded
      else
        o ← appendBytes (w_count o) encoded;
        o ← put o;
        write_entries o entries'
  end.

Fixpoint write_items (o : writer) (items : list (writer -> res cerror writer)) :
    res cerror writer :=
  match items with
  | [] => Ok o
  | put :: items' => o ← put o; write_items o items'
  end.

Fixpoint encode (o : writer) (value : Value) (depth maxDepth : Z) {struct value} :
    res cerror writer :=
  o ← enter o depth maxDepth;
  match value with
  | VNil => appendBytes o [to_byte 246]
  | VBool true => appendBytes o [to_byte 245]
  | VBool false => appendBytes o [to_byte 244]
  | VString s => encodeString o s
  | VBytes b => o ← appendHead o 2 (zlen b); appendBytes o b
  | VInt _ z => encodeInt o z
  | VUint _ n => encodeUint o (Z.of_N n)
  | VArray l =>
      if w_maxItems o - w_items o <? zlen l then Err ErrLimitExceeded
      else
        o ← appendHead o 4 (zlen l);
        write_items o (map (fun item o => encode o item (depth + 1) maxDepth) l)
  | VMap m =>
      if Z.quot (w_maxItems o - w_items o) 2 <? zlen m then Err ErrLimitExceeded
      else
        entries ← collect_entries depth maxDepth ∅
                    (map (fun p => (p.1, fun o => encode o p.2 (depth + 1) maxDepth)) m);
        o ← appendHead o 5 (zlen entries);
        write_entries o (sort_entries entries)
  | VOther => Err ErrInvalidValue
  end.

Definition Encode (value : Value) (options : Options) : res cerror bytes :=
  if invalid_options options then Err ErrInvalidOption
  else
    o ← encode (Writer [] (MaxBytes options) 0 (MaxItems options)) value 0 (MaxDepth options);
    Ok (w_encoded o).

(** ** The decoder *)
Record decoder := Decoder {
  d_encoded : bytes; d_maxDepth : Z; d_maxItems : Z; d_items : Z; d_offset : nat }.

Definition d_count (d : decoder) : decoder :=
  Decoder (d_encoded d) (d_maxDepth d) (d_maxItems d) (d_items d + 1) (d_offset d).
Definition d_advance (d : decoder) (n : nat) : decoder :=
  Decoder (d_encoded d) (d_maxDepth d) (d_maxItems d) (d_items d) (d_offset d + n).
Definition d_remaining (d : decoder) : Z := zlen (d_encoded d) - Z.of_nat (d_offset d).
(** [input.encoded[from:to]] *)
Definition d_slice (d : decoder) (from to : nat) : bytes := take (to - from) (drop from (d_encoded d)).

(** The argument of the head byte, with the check that its form is minimal. *)
Definition readArgument (d : decoder) (additional : Z) : res cerror (Z * decoder) :=
  if additional <? 24 then Ok (additional, d)
  else if (24 <=? additional) && (additional <=? 27) then
    let width := Z.shiftl 1 (additional - 24) in
    if d_remaining d <? width then Err ErrInvalidEncoding
    else
      let n := Z.to_nat width in
      let argument := be_value (d_slice d (d_offset d) (d_offset d + n)) in
      let minimum := if width =? 2 then 256 else if width =? 4 then 65536
                     else if width =? 8 then 4294967296 else 24 in
      if argument <? minimum then Err ErrInvalidEncoding else Ok (argument, d_advance d n)
  else Err ErrInvalidEncoding.

Definition readString (d : decoder) (major argument : Z) : res cerror (Value * decoder) :=
  if d_remaining d <? argument then Err ErrInvalidEncoding
  else
    let n := Z.to_nat argument in
    let value := d_slice d (d_offset d) (d_offset d + n) in
    let d := d_advance d n in
    if major =? 2 then Ok (VBytes value, d)
    else if negb (utf8_Valid value) then Err ErrInvalidEncoding
    else
      let text := of_bytes value in
      if decide (nfc text = text) then Ok (VString text, d) else Err ErrInvalidEncoding.

(** The loops over the items of an array and the entries of a map; [read] is
    [input.readValue(depth + 1)]. *)
Fixpoint readArray (read : decoder -> res cerror (Value * decoder)) (n : nat) (d : decoder) :
    res cerror (list Value * decoder) :=
  match n with
  | O => Ok ([], d)
  | S n' =>
      '(value, d) ← read d;
      '(rest, d) ← readArray read n' d;
      Ok (value :: rest, d)
  end.

Fixpoint readMap (read : decoder -> res cerror (Value * decoder)) (n : nat)
    (result : list (string * Value)) (previous : option bytes) (d : decoder) :
    res cerror (list (string * Value) * decoder) :=
  match n with
  | O => Ok (result, d)
  | S n' =>
      let keyStart := d_offset d in
      match d_encoded d !! keyStart with
      | Some initial =>
          if negb (Z.shiftr (byte_val initial) 5 =? 3) then Err ErrInvalidEncoding
          else
            '(keyValue, d) ← read d;
            match keyValue with
            | VString key =>
                let currentKey := d_slice d keyStart (d_offset d) in
                if decide (key ∈ map fst result) then Err ErrInvalidEncoding
                else if match previous with
                        | Some previousKey => bool_decide (~ key_lt previousKey currentKey)
                        | None => false
                        end
                then Err ErrInvalidEncoding
                else
                  '(item, d) ← read d;
                  readMap read n' (result ++ [(key, item)]) (Some currentKey) d
            | _ => Err ErrInvalidEncoding
            end
      | None => Err ErrInvalidEncoding
      end
  end.

(** The [switch major] of [readValue], with [read] for [input.readValue(depth + 1)]. *)
Definition readMajor (read : decoder -> res cerror (Value * decoder)) (depth major argument : Z)
    (d : decoder) : res cerror (Value * decoder) :=
  if major =? 0 then
    if maxSafeInteger <? argument then Err ErrInvalidEncoding
    else Ok (VInt KInt64 argument, d)
  else if major =? 1 then
    if maxSafeInteger <=? argument then Err ErrInvalidEncoding
    else Ok (VInt KInt64 (-1 - argument), d)
  else if (major =? 2) || (major =? 3) then readString d major argument
  else if major =? 4 then
    if d_remaining d <? argument then Err ErrInvalidEncoding
    else if d_maxItems d - d_items d <? argument then Err ErrLimitExceeded
    else if (0 <? argument) && (d_maxDepth d <=? depth) then Err ErrLimitExceeded
    else
      '(result, d) ← readArray read (Z.to_nat argument) d;
      Ok (VArray result, d)
  else if major =? 5 then
    if Z.quot (d_remaining d) 2 <? argument then Err ErrInvalidEncoding
    else if Z.quot (d_maxItems d - d_items d) 2 <? argument then Err ErrLimitExceeded
    else if (0 <? argument) && (d_maxDepth d <=? depth) then Err ErrLimitExceeded
    else
      '(result, d) ← readMap read (Z.to_nat argument) [] None d;
      Ok (VMap result, d)
  else Err ErrInvalidEncoding.

(** [fuel] bounds the nesting; [Decode] gives [maxDepth + 2], one more than the
    deepest value that passes the depth check ([readValue_fuel]: any larger fuel
    gives the same result). *)
Fixpoint readValue (fuel : nat) (depth : Z) (d : decoder) {struct fuel} :
    res cerror (Value * decoder) :=
  match fuel with
  | O => Err ErrLimitExceeded
  | S fuel' =>
      if d_maxDepth d <? depth then Err ErrLimitExceeded
      else if d_maxItems d <=? d_items d then Err ErrLimitExceeded
      else
        let d := d_count d in
        match d_encoded d !! d_offset d with
        | None => Err ErrInvalidEncoding
        | Some initial =>
            let d := d_advance d 1 in
            let major := Z.shiftr (byte_val initial) 5 in
            let additional := Z.land (byte_val initial) 31 in
            if major =? 7 then
              if byte_val initial =? 244 then Ok (VBool false, d)
              else if byte_val initial =? 245 then Ok (VBool true, d)
              else if byte_val initial =? 246 then Ok (VNil, d)
              else Err ErrInvalidEncoding
            else if major =? 6 then Err ErrInvalidEncoding
            else
              '(argument, d) ← readArgument d additional;
              readMajor (readValue fuel' (depth + 1)) depth major argument d
        end
  end.

Definition decode_fuel (maxDepth : Z) : nat := Z.to_nat maxDepth + 2.

Definition Decode (encoded : bytes) (options : Options) : res cerror Value :=
  if invalid_options options then Err ErrInvalidOption
  else if MaxBytes options <? zlen encoded then Err ErrLimitExceeded
  else
    '(value, d) ← readValue (decode_fuel (MaxDepth options)) 0
                    (Decoder encoded (MaxDepth options) (MaxItems options) 0 0);
    if (d_offset d =? length encoded)%nat then Ok value else Err ErrInvalidEncoding.

(** ** Structured digests *)
Definition digest_preimage (domain : string) (schemaVersion : Z) (payload : Value) : Value :=
  VArray [VString "circulusd.hash"; VInt KInt64 1; VString domain; VInt KInt64 schemaVersion; payload].

Definition StructuredDigest (domain : string) (schemaVersion : Z) (payload : Value) :
    res cerror string :=
  if bool_decide (domain = ""%string) || negb (utf8_ValidString domain)
     || bool_decide (nfc domain <> domain)
  then Err ErrInvalidValue
  else if (schemaVersion =? 0) || (maxSafeInteger <? schemaVersion) then Err ErrInvalidValue
  else
    encoded ← Encode (digest_preimage domain schemaVersion payload) DefaultOptions;
    Ok (sha256_text encoded).

(** ** Normalised string sets *)
Fixpoint normalize_strings (seen : gset string) (values : list string) : res cerror (list string) :=
  match values with
  | [] => Ok []
  | value :: values' =>
      if negb (utf8_ValidString value) then Err ErrInvalidValue
      else
        let value := nfc value in
        if decide (value ∈ seen) then Err ErrDuplicateKey
        else
          rest ← normalize_strings ({[value]} ∪ seen) values';
          Ok (value :: rest)
  end.

Definition NormalizeStringSet (values : list string) : res cerror (list string) :=
  normalized ← normalize_strings ∅ values;
  Ok (sort_by bytes_lt to_bytes normalized).

End encoder.
