(* ===== verification/CanonicalSpec.v ===== *)
(** * Specification of the canonical encoding

    What a canonical value is, the bytes it stands for, and what it costs: the
    definitions the encoder and the decoder of [Canonical] are proved against in
    [CanonicalProofs]. *)

From S2P Require Import Prelude GoText GoCrypto Canonical.

(** ** Induction on values *)
Section value_ind.
Variable P : Value -> Prop.
Hypothesis HNil : P VNil.
Hypothesis HBool : forall b, P (VBool b).
Hypothesis HString : forall s, P (VString s).
Hypothesis HBytes : forall b, P (VBytes b).
Hypothesis HInt : forall k z, P (VInt k z).
Hypothesis HUint : forall k n, P (VUint k n).
Hypothesis HArray : forall l, Forall P l -> P (VArray l).
Hypothesis HMap : forall m, Forall (fun p => P p.2) m -> P (VMap m).
Hypothesis HOther : P VOther.

Fixpoint Value_ind (v : Value) : P v :=
  match v with
  | VNil => HNil
  | VBool b => HBool b
  | VString s => HString s
  | VBytes b => HBytes b
  | VInt k z => HInt k z
  | VUint k n => HUint k n
  | VArray l => HArray l
      ((fix go l : Forall P l :=
          match l with
          | [] => List.Forall_nil P
          | v :: l' => List.Forall_cons P v l' (Value_ind v) (go l')
          end) l)
  | VMap m => HMap m
      ((fix go m : Forall (fun p : string * Value => P p.2) m :=
          match m with
          | [] => List.Forall_nil _
          | p :: m' =>
              List.Forall_cons (fun p : string * Value => P p.2) p m' (Value_ind p.2) (go m')
          end) m)
  | VOther => HOther
  end.
End value_ind.

(** ** The encoding of a canonical value *)
Definition text_key (k : string) : bytes := head_bytes 3 (strlen k) ++ to_bytes k.

Fixpoint enc (v : Value) : bytes :=
  match v with
  | VNil => [to_byte 246]
  | VBool true => [to_byte 245]
  | VBool false => [to_byte 244]
  | VString s => text_key s
  | VBytes b => head_bytes 2 (zlen b) ++ b
  | VInt _ z => if 0 <=? z then head_bytes 0 z else head_bytes 1 (-1 - z)
  | VUint _ n => head_bytes 0 (Z.of_N n)
  | VArray l => head_bytes 4 (zlen l) ++ concat (map enc l)
  | VMap m => head_bytes 5 (zlen m) ++ concat (map (fun p => text_key p.1 ++ enc p.2) m)
  | VOther => []
  end.

(** An entry of a map as it is written. *)
Definition entry_bytes (p : string * Value) : bytes := text_key p.1 ++ enc p.2.

(** Number of data items, and nesting depth below the value. *)
Definition zsum (l : list Z) : Z := foldr Z.add 0 l.
Definition zmax (l : list Z) : Z := foldr Z.max 0 l.

Fixpoint nitems (v : Value) : Z :=
  match v with
  | VArray l => 1 + zsum (map nitems l)
  | VMap m => 1 + zsum (map (fun p => 1 + nitems p.2) m)
  | _ => 1
  end.

Fixpoint height (v : Value) : Z :=
  match v with
  | VArray l => zmax (map (fun v => 1 + height v) l)
  | VMap m => zmax (map (fun p => 1 + height p.2) m)
  | _ => 0
  end.

(** ** Canonical values

    Texts are in NFC, integers are [int64] in the shared safe range, the entries
    of a map are in strictly increasing key order, and every length fits the
    64-bit argument of a head. *)
Section canonical.
Context `{N : Normalizer}.

Fixpoint canonical (v : Value) : Prop :=
  match v with
  | VNil | VBool _ => True
  | VString s => nfc_text s /\ strlen s < 2 ^ 64
  | VBytes b => zlen b < 2 ^ 64
  | VInt k z => k = KInt64 /\ - maxSafeInteger <= z <= maxSafeInteger
  | VUint _ _ => False
  | VArray l => zlen l < 2 ^ 64 /\ foldr and True (map canonical l)
  | VMap m =>
      zlen m < 2 ^ 64 /\
      StronglySorted key_lt (map (fun p => text_key p.1) m) /\
      Forall (fun p => nfc_text p.1 /\ strlen p.1 < 2 ^ 64) m /\
      foldr and True (map (fun p => canonical p.2) m)
  | VOther => False
  end.

(** The canonical form of a value: integers as [int64], texts normalised, map
    entries in key order. *)
Fixpoint canon (v : Value) : Value :=
  match v with
  | VString s => VString (nfc s)
  | VInt _ z => VInt KInt64 z
  | VUint _ n => VInt KInt64 (Z.of_N n)
  | VArray l => VArray (map canon l)
  | VMap m => VMap (sort_by key_lt (text_key ∘ fst) (map (fun p => (nfc p.1, canon p.2)) m))
  | v => v
  end.
End canonical.

Lemma canonical_all (l : list Prop) : foldr and True l <-> Forall id l.
Proof. induction l; simpl; rewrite ?Forall_nil, ?Forall_cons; naive_solver. Qed.

Lemma canonical_array `{Normalizer} l :
  canonical (VArray l) <-> zlen l < 2 ^ 64 /\ Forall canonical l.
Proof. simpl. by rewrite canonical_all, Forall_map. Qed.

Lemma canonical_map `{Normalizer} m :
  canonical (VMap m) <->
  zlen m < 2 ^ 64 /\ StronglySorted key_lt (map (fun p => text_key p.1) m) /\
  Forall (fun p => nfc_text p.1 /\ strlen p.1 < 2 ^ 64) m /\ Forall (fun p => canonical p.2) m.
Proof. simpl. by rewrite canonical_all, Forall_map. Qed.

(** ** The order on keys *)
Lemma key_lt_irrefl a : ~ key_lt a a.
Proof. intros [?|[_ ?%bytes_lt_irrefl]]; [lia|done]. Qed.

#[global] Instance key_lt_trans : Transitive key_lt.
Proof.
  intros a b c [?|[? ?]] [?|[? ?]]; unfold key_lt; [left; lia|left; lia|left; lia|].
  right. split; [lia|]. by eapply bytes_lt_trans.
Qed.

Lemma key_lt_total a b : key_lt a b \/ a = b \/ key_lt b a.
Proof.
  unfold key_lt, bytes_lt. destruct (Z.lt_total (zlen a) (zlen b)) as [?|[?|?]]; auto.
  rewrite (bytes_compare_antisym a b).
  destruct (bytes_compare a b) eqn:E; simpl; auto. apply bytes_compare_eq in E. auto.
Qed.

#[global] Instance key_lt_order : StrictOrder key_lt.
Proof. split; [intros ? ?%key_lt_irrefl; done|apply _]. Qed.

#[global] Instance key_lt_trichotomy : Trichotomy key_lt.
Proof. intros a b. apply key_lt_total. Qed.

(** ** Heads *)
Definition check_head_byte (major a : Z) : bool :=
  let b := byte_val (to_byte (Z.lor (Z.shiftl major 5) a)) in
  (Z.shiftr b 5 =? major) && (Z.land b 31 =? a).

Lemma head_byte major a :
  0 <= major < 8 -> 0 <= a < 32 ->
  Z.shiftr (byte_val (to_byte (Z.lor (Z.shiftl major 5) a))) 5 = major /\
  Z.land (byte_val (to_byte (Z.lor (Z.shiftl major 5) a))) 31 = a.
Proof.
  intros Hm Ha.
  assert (Hall : forallb (fun m => forallb (check_head_byte (Z.of_nat m) ∘ Z.of_nat) (seq 0 32)) (seq 0 8)
                 = true) by (vm_compute; reflexivity).
  rewrite forallb_forall in Hall. specialize (Hall (Z.to_nat major)).
  rewrite forallb_forall in Hall. specialize (Hall ltac:(apply in_seq; lia) (Z.to_nat a)).
  specialize (Hall ltac:(apply in_seq; lia)). unfold compose, check_head_byte in Hall.
  rewrite !Z2Nat.id in Hall by lia. lia.
Qed.

Lemma head_bytes_length major value : (1 <= length (head_bytes major value) <= 9)%nat.
Proof. unfold head_bytes. repeat case_match; simpl; rewrite ?length_be_bytes; lia. Qed.

Lemma head_bytes_cons major value : exists b rest, head_bytes major value = b :: rest.
Proof. unfold head_bytes. repeat case_match; eauto. Qed.

(** The first byte of a value that is not [VOther]. *)
Lemma enc_nonempty v : v <> VOther -> 1 <= zlen (enc v).
Proof.
  destruct v as [|[]| | | | | | |]; simpl; intros Hne; try done;
    unfold text_key; repeat case_match; autorewrite with go;
    match goal with |- context [head_bytes ?m ?z] => pose proof (head_bytes_length m z) end;
    unfold zlen, strlen in *; lia.
Qed.

Lemma text_key_nonempty k : 1 <= zlen (text_key k).
Proof. exact (enc_nonempty (VString k) ltac:(done)). Qed.

Lemma nitems_pos v : 1 <= nitems v.
Proof.
  induction v as [| | | | | |l IH|m IH|] using Value_ind; simpl; try lia.
  - enough (0 <= zsum (map nitems l)) by lia. induction IH; simpl; lia.
  - enough (0 <= zsum (map (fun p => 1 + nitems p.2) m)) by lia. induction IH; simpl; lia.
Qed.

Lemma zmax_nonneg l : 0 <= zmax l.
Proof. induction l; simpl; lia. Qed.

Lemma height_nonneg v : 0 <= height v.
Proof. destruct v; simpl; try lia; apply zmax_nonneg. Qed.

(** A value needs at least one byte per item. *)
Lemma concat_length_ge {A} (f : A -> bytes) c l :
  Forall (fun x => c <= zlen (f x)) l -> c * zlen l <= zlen (concat (map f l)).
Proof. induction 1; simpl; autorewrite with go; lia. Qed.

Lemma zmax_le l k : zmax l <= k <-> 0 <= k /\ Forall (fun z => z <= k) l.
Proof.
  induction l as [|z l IH]; simpl; rewrite ?Forall_nil, ?Forall_cons; [naive_solver|].
  rewrite Z.max_lub_iff, IH. naive_solver.
Qed.

Lemma zsum_ge c (l : list Z) : Forall (fun z => c <= z) l -> c * zlen l <= zsum l.
Proof. induction 1; simpl; autorewrite with go; lia. Qed.

(** The text keys are the keys: the encoding of a text determines it. *)
Lemma head_bytes_length_mono major x y :
  0 <= x <= y -> zlen (head_bytes major x) <= zlen (head_bytes major y).
Proof.
  intros. unfold head_bytes. repeat case_match; rewrite ?zlen_cons, ?zlen_nil;
    unfold zlen; rewrite ?length_be_bytes; lia.
Qed.

Lemma text_key_inj k k' : text_key k = text_key k' -> k = k'.
Proof.
  intros Heq. assert (Hlen : strlen k = strlen k').
  { apply (f_equal zlen) in Heq. unfold text_key in Heq. autorewrite with go in Heq.
    pose proof (strlen_nonneg k). pose proof (strlen_nonneg k').
    destruct (Z.le_gt_cases (strlen k) (strlen k')) as [Hle|Hgt].
    - pose proof (head_bytes_length_mono 3 (strlen k) (strlen k')). lia.
    - pose proof (head_bytes_length_mono 3 (strlen k') (strlen k)). lia. }
  unfold text_key in Heq. rewrite Hlen in Heq. by apply app_inv_head, to_bytes_inj in Heq.
Qed.

#[global] Instance text_key_injective : Inj (=) (=) text_key.
Proof. intros k k'. apply text_key_inj. Qed.

Lemma zlen_concat_ge {A} (f : A -> bytes) x l : x ∈ l -> zlen (f x) <= zlen (concat (map f l)).
Proof.
  induction l as [|y l IH]; [by intros ?%not_elem_of_nil|]. intros Hx. simpl.
  autorewrite with go. pose proof (zlen_nonneg (f y)). pose proof (zlen_nonneg (concat (map f l))).
  apply elem_of_cons in Hx as [->|Hx]; [lia|]. specialize (IH Hx). lia.
Qed.

Lemma strlen_text_key k : strlen k <= zlen (text_key k).
Proof. unfold text_key. autorewrite with go. pose proof (zlen_nonneg (head_bytes 3 (strlen k))). lia. Qed.
