(* ===== verification/CanonicalEncode.v ===== *)
(** * The canonical encoder against its specification

    [encode] of [Canonical] writes exactly [enc (canon v)], counts exactly
    [nitems], nests exactly [height], and succeeds on a canonical value whenever
    the limits allow; the order in which a map is visited does not matter. *)

From S2P Require Import Prelude GoText GoCrypto Canonical CanonicalSpec.

(** ** What a successful write does *)
Definition emit (o : writer) (bs : bytes) (n : Z) : writer :=
  Writer (w_encoded o ++ bs) (w_maxBytes o) (w_items o + n) (w_maxItems o).

Definition fits (o : writer) (bs : bytes) (n : Z) : Prop :=
  zlen (w_encoded o) + zlen bs <= w_maxBytes o /\ w_items o + n <= w_maxItems o.

(** The limits of a writer are [int]s. *)
Definition int_writer (o : writer) : Prop :=
  w_maxBytes o < 2 ^ 63 /\ w_maxItems o < 2 ^ 63 /\ 0 <= w_items o.

Lemma emit_emit o bs n bs' n' : emit (emit o bs n) bs' n' = emit o (bs ++ bs') (n + n').
Proof. unfold emit. simpl. by rewrite app_assoc, Z.add_assoc. Qed.

Lemma fits_emit o bs n bs' n' :
  fits (emit o bs n) bs' n' <-> fits o (bs ++ bs') (n + n').
Proof. unfold fits, emit. simpl. autorewrite with go. lia. Qed.

Lemma int_writer_emit o bs n : int_writer o -> 0 <= n -> int_writer (emit o bs n).
Proof. unfold int_writer, emit. simpl. lia. Qed.

Lemma emit_nil o : emit o [] 0 = o.
Proof. destruct o. unfold emit. simpl. by rewrite app_nil_r, Z.add_0_r. Qed.

Lemma w_count_emit o : w_count o = emit o [] 1.
Proof. unfold w_count, emit. by rewrite app_nil_r. Qed.

Lemma appendBytes_ok o bs o' :
  appendBytes o bs = Ok o' <->
  zlen (w_encoded o) + zlen bs <= w_maxBytes o /\ o' = emit o bs 0.
Proof.
  unfold appendBytes, emit. case_match; rewrite ?Z.add_0_r; split; intros; naive_solver lia.
Qed.

Lemma enter_ok o d m o' :
  enter o d m = Ok o' <-> d <= m /\ w_items o < w_maxItems o /\ o' = emit o [] 1.
Proof.
  unfold enter, w_count, emit. rewrite app_nil_r.
  repeat case_match; split; intros; try naive_solver lia.
Qed.

(** Two appends in a row. *)
Lemma append2_ok o bs bs' o' :
  (appendBytes o bs ≫= (fun o => appendBytes o bs')) = Ok o' <->
  zlen (w_encoded o) + zlen (bs ++ bs') <= w_maxBytes o /\ o' = emit o (bs ++ bs') 0.
Proof.
  rewrite bind_ok. setoid_rewrite appendBytes_ok. split.
  - intros (o1 & (Hl & ->) & Hl' & ->). rewrite emit_emit. simpl in Hl'.
    autorewrite with go in *. split; [lia|done].
  - intros (Hl & ->). autorewrite with go in Hl. pose proof (zlen_nonneg bs').
    eexists. rewrite emit_emit. simpl. autorewrite with go. split_and!; try done; lia.
Qed.

Section proofs.
Context {N : Normalizer} {NL : NormalizerLaws}.

Lemma encodeString_ok o s o' :
  encodeString o s = Ok o' <->
  utf8_ValidString s = true /\
  zlen (w_encoded o) + zlen (text_key (nfc s)) <= w_maxBytes o /\
  o' = emit o (text_key (nfc s)) 0.
Proof using Type.
  unfold encodeString, appendHead, text_key. case_match; [|naive_solver].
  rewrite append2_ok. naive_solver.
Qed.

Lemma text_key_length k : zlen (text_key k) <= strlen k + 9.
Proof using Type.
  unfold text_key. autorewrite with go. pose proof (head_bytes_length 3 (strlen k)).
  unfold zlen. lia.
Qed.

Lemma encodeKey_ok key d m bs :
  nfc_text key -> encodeKey key d m = Ok bs <-> d <= m /\ bs = text_key key.
Proof using Type.
  intros [Hv Hn]. unfold encodeKey.
  pose proof (text_key_length key). split.
  - intros (o1 & (? & ? & ->)%enter_ok & (o2 & (? & ? & ->)%encodeString_ok & [= <-])%bind_ok)%bind_ok.
    by rewrite Hn.
  - intros [Hd ->]. assert (He : enter (Writer [] (strlen key + 9) 0 1) d m =
      Ok (emit (Writer [] (strlen key + 9) 0 1) [] 1)).
    { apply enter_ok. by split_and!. }
    rewrite He. simpl.
    assert (Hs : encodeString (emit (Writer [] (strlen key + 9) 0 1) [] 1) key =
      Ok (emit (emit (Writer [] (strlen key + 9) 0 1) [] 1) (text_key key) 0)).
    { apply encodeString_ok. rewrite Hn. simpl. split_and!; try done. }
    by rewrite Hs.
Qed.

(** The loop over the map: it fails on an invalid or duplicate key and on the
    depth limit, and otherwise lists the encoded keys in visiting order. *)
Definition keys_ok {A} (d m : Z) (seen : gset string) (l : list (string * A)) : Prop :=
  Forall (fun p => utf8_ValidString p.1 = true) l /\
  NoDup (map (fun p => nfc p.1) l) /\
  Forall (fun p => nfc p.1 ∉ seen) l /\
  (l <> [] -> d + 1 <= m).

Lemma collect_entries_ok {A} d m seen (l : list (string * A)) entries :
  collect_entries d m seen l = Ok entries <->
  keys_ok d m seen l /\ entries = map (fun p => (text_key (nfc p.1), p.2)) l.
Proof using Type*.
  unfold keys_ok. revert seen entries.
  induction l as [|[k v] l IH]; intros seen entries; simpl.
  { rewrite !Forall_nil. split; [intros; simplify_eq; split_and!; try done; constructor|naive_solver]. }
  rewrite !Forall_cons, NoDup_cons. simpl.
  destruct (utf8_ValidString k) eqn:Hv; simpl; [|naive_solver].
  pose proof (nfc_nfc_text k Hv) as Hk.
  case_decide as Hseen; [naive_solver|].
  assert (Hseen' : Forall (fun p : string * A => nfc p.1 ∉ {[nfc k]} ∪ seen) l <->
    (nfc k ∉ map (fun p => nfc p.1) l) /\ Forall (fun p => nfc p.1 ∉ seen) l).
  { rewrite !Forall_forall. setoid_rewrite not_elem_of_union. setoid_rewrite not_elem_of_singleton.
    split.
    - intros Hl. split; [|intros x Hx; by apply Hl].
      intros (x & Heq & Hx)%list_elem_of_fmap. destruct (Hl x Hx). congruence.
    - intros [Hni Hl] x Hx. split; [|by apply Hl]. intros Heq. apply Hni.
      rewrite <- Heq. apply (list_elem_of_fmap_2 (fun p => nfc p.1) _ _ Hx). }
  split.
  - intros (bs & [Hd ->]%encodeKey_ok & (rest & [(? & ? & Hs & ?) ->]%IH & [= <-])%bind_ok)%bind_ok;
      [|done].
    apply Hseen' in Hs. naive_solver.
  - intros [(? & ? & ? & Hd) ->].
    assert (He : encodeKey (nfc k) (d + 1) m = Ok (text_key (nfc k))).
    { apply encodeKey_ok; [done|]. split; [by apply Hd|done]. }
    rewrite He. simpl.
    assert (Hr : collect_entries d m ({[nfc k]} ∪ seen) l =
      Ok (map (fun p => (text_key (nfc p.1), p.2)) l)).
    { apply IH. rewrite Hseen'. naive_solver. }
    by rewrite Hr.
Qed.

Lemma keys_ok_perm {A} d m seen (l l' : list (string * A)) :
  l ≡ₚ l' -> keys_ok d m seen l -> keys_ok d m seen l'.
Proof using Type.
  intros Hp (? & ? & ? & Hd). split_and!; [by rewrite <- Hp..|].
  intros Hne. apply Hd. intros ->. by apply Permutation_nil in Hp.
Qed.

(** ** Soundness *)
Definition encodes (v : Value) : Prop := forall o d m o',
  int_writer o -> encode o v d m = Ok o' ->
  canonical (canon v) /\ fits o (enc (canon v)) (nitems (canon v)) /\
  d + height (canon v) <= m /\ o' = emit o (enc (canon v)) (nitems (canon v)).

Lemma write_items_sound l o d m o' :
  Forall encodes l -> int_writer o -> fits o [] 0 ->
  write_items o (map (fun v o => encode o v d m) l) = Ok o' ->
  Forall canonical (map canon l) /\
  fits o (concat (map enc (map canon l))) (zsum (map nitems (map canon l))) /\
  Forall (fun v => d + height v <= m) (map canon l) /\
  o' = emit o (concat (map enc (map canon l))) (zsum (map nitems (map canon l))).
Proof using Type.
  intros Hl. revert o. induction Hl as [|v l Hv _ IH]; intros o Ho Hf; simpl.
  - intros [= <-]. rewrite emit_nil. by split_and!.
  - intros (o1 & Hv1 & Hrest)%bind_ok. apply Hv in Hv1 as (Hc & Hfit & Hh & ->); [|done].
    apply IH in Hrest as (? & Hfit' & ? & ->).
    + rewrite fits_emit in Hfit'. rewrite emit_emit. split_and!; auto.
    + apply int_writer_emit; [done|]. pose proof (nitems_pos (canon v)). lia.
    + by rewrite fits_emit, app_nil_r, Z.add_0_r.
Qed.

Definition norm_entry (p : string * Value) : string * Value := (nfc p.1, canon p.2).

Definition write_entry (d m : Z) (p : string * Value) : bytes * (writer -> res cerror writer) :=
  (text_key (nfc p.1), fun o => encode o p.2 d m).

Lemma write_entries_sound l o d m o' :
  Forall (fun p => encodes p.2) l -> int_writer o -> fits o [] 0 ->
  write_entries o (map (write_entry d m) l) = Ok o' ->
  Forall (fun p => canonical p.2) (map norm_entry l) /\
  fits o (concat (map entry_bytes (map norm_entry l)))
       (zsum (map (fun p => 1 + nitems p.2) (map norm_entry l))) /\
  Forall (fun p => d + height p.2 <= m) (map norm_entry l) /\
  o' = emit o (concat (map entry_bytes (map norm_entry l)))
         (zsum (map (fun p => 1 + nitems p.2) (map norm_entry l))).
Proof using Type.
  intros Hl. revert o. induction Hl as [|[k v] l Hv _ IH]; intros o Ho Hf; simpl.
  - intros [= <-]. rewrite emit_nil. by split_and!.
  - case_match; [done|].
    intros (o1 & (Hl & ->)%appendBytes_ok & (o2 & Hv1 & Hrest)%bind_ok)%bind_ok.
    rewrite w_count_emit in *. rewrite emit_emit in Hv1.
    apply Hv in Hv1 as (Hc & Hfit & Hh & ->); [|by apply int_writer_emit].
    rewrite emit_emit in Hrest. rewrite fits_emit in Hfit.
    apply IH in Hrest as (? & Hfit' & ? & ->).
    + rewrite fits_emit in Hfit'. rewrite emit_emit. rewrite Z.add_0_r in *. by split_and!; auto.
    + apply int_writer_emit; [done|]. pose proof (nitems_pos (canon v)). simpl in *. lia.
    + by rewrite fits_emit, app_nil_r, !Z.add_0_r.
Qed.

Lemma sort_entries_map d m l :
  sort_entries (map (fun p => (text_key (nfc p.1), p.2))
    (map (fun p : string * Value => (p.1, fun o => encode o p.2 d m)) l)) =
  map (write_entry d m) (sort_by key_lt (text_key ∘ nfc ∘ fst) l).
Proof using Type. rewrite map_map. exact (sort_by_map key_lt fst (write_entry d m) l). Qed.

Lemma canon_map l :
  canon (VMap l) = VMap (map norm_entry (sort_by key_lt (text_key ∘ nfc ∘ fst) l)).
Proof using Type.
  simpl. f_equal. change (fun p : string * Value => (nfc p.1, canon p.2)) with norm_entry.
  exact (sort_by_map key_lt (text_key ∘ fst) norm_entry l).
Qed.


(** The scalar cases: the value is one item at depth zero. *)
Lemma scalar_sound o d m bs o1 o' :
  o1 = emit o [] 1 -> d <= m -> w_items o < w_maxItems o -> appendBytes o1 bs = Ok o' ->
  fits o bs 1 /\ d + 0 <= m /\ o' = emit o bs 1.
Proof using Type.
  intros -> Hd Hi (Hl & ->)%appendBytes_ok. rewrite emit_emit. simpl in *.
  rewrite app_nil_r in Hl. unfold fits. split_and!; try done; lia.
Qed.

(** The sorted entries of a map whose keys passed the loop are in strictly
    increasing order. *)
Lemma sorted_keys_strict {A} d m (l : list (string * A)) :
  keys_ok d m ∅ l ->
  StronglySorted key_lt (map (text_key ∘ nfc ∘ fst) (sort_by key_lt (text_key ∘ nfc ∘ fst) l)).
Proof using Type.
  intros (_ & Hnd & _). apply sort_by_strict; [apply _..|].
  replace (map (text_key ∘ nfc ∘ fst) l) with (text_key <$> map (fun p => nfc p.1) l)
    by apply map_map.
  by apply NoDup_fmap_2; [apply _|].
Qed.

Lemma keys_ok_payload {A B} (f : string * A -> B) d m l :
  keys_ok d m ∅ (map (fun p => (p.1, f p)) l) <-> keys_ok d m ∅ l.
Proof using Type.
  unfold keys_ok. rewrite !Forall_map, map_map.
  split; intros (? & ? & ? & Hd); split_and!; try done; intros; apply Hd; by destruct l.
Qed.

Lemma map_canonical d m l :
  keys_ok d m ∅ l ->
  zlen (concat (map entry_bytes (map norm_entry (sort_by key_lt (text_key ∘ nfc ∘ fst) l)))) < 2 ^ 63 ->
  zlen l < 2 ^ 63 ->
  Forall (fun p => canonical p.2) (map norm_entry (sort_by key_lt (text_key ∘ nfc ∘ fst) l)) ->
  canonical (canon (VMap l)).
Proof using Type*.
  intros Hk Hb Hl Hc. rewrite canon_map, canonical_map.
  set (ms := sort_by key_lt (text_key ∘ nfc ∘ fst) l) in *.
  assert (Hp : ms ≡ₚ l) by apply sort_by_perm. split_and!; [| | |done].
  - unfold zlen in *. rewrite length_map, (Permutation_length Hp). lia.
  - rewrite map_map. by apply (sorted_keys_strict d m).
  - apply Forall_forall. intros p Hin.
    pose proof (zlen_concat_ge entry_bytes p _ Hin) as Hlen.
    unfold entry_bytes in Hlen at 1. autorewrite with go in Hlen.
    pose proof (strlen_text_key p.1). pose proof (zlen_nonneg (enc p.2)).
    split; [|lia]. apply list_elem_of_fmap in Hin as (q & -> & Hq). simpl.
    apply nfc_nfc_text. rewrite Hp in Hq. destruct Hk as [Hv _].
    rewrite Forall_forall in Hv. by apply Hv.
Qed.

Lemma encode_sound v : encodes v.
Proof using Type*.
  induction v as [|b|s|b|k z|k n|l IH|l IH|] using Value_ind; intros o d m o' Ho;
    cbn [encode]; intros (o1 & (Hd & Hi & Ho1)%enter_ok & Hv)%bind_ok;
    pose proof Ho as (Hb & Hit & Hn).
  - split; [done|]. by eapply scalar_sound.
  - split; [done|]. destruct b; by eapply scalar_sound.
  - subst o1. apply encodeString_ok in Hv as (Hu & Hl & ->). rewrite emit_emit. simpl in *.
    rewrite app_nil_r in Hl. unfold fits. split_and!; try done; try lia.
    + by apply nfc_nfc_text.
    + unfold text_key in Hl. autorewrite with go in Hl.
      pose proof (zlen_nonneg (w_encoded o)).
      pose proof (zlen_nonneg (head_bytes 3 (strlen (nfc s)))). lia.
  - subst o1. unfold appendHead in Hv. apply append2_ok in Hv as (Hl & ->).
    rewrite emit_emit. simpl in *. rewrite app_nil_r in Hl. autorewrite with go in Hl.
    pose proof (zlen_nonneg (w_encoded o)). pose proof (zlen_nonneg (head_bytes 2 (zlen b))).
    unfold fits. autorewrite with go. split_and!; try done; lia.
  - unfold encodeInt, appendHead in Hv. simpl.
    repeat case_match; try done; (split; [split; [done|lia]|]); by eapply scalar_sound.
  - unfold encodeUint, appendHead in Hv. simpl. case_match; [done|].
    rewrite (proj2 (Z.leb_le 0 (Z.of_N n))) by lia. unfold maxSafeInteger in *.
    split; [split; [done|lia]|]. by eapply scalar_sound.
  - case_match eqn:Hle; [done|]. apply bind_ok in Hv as (o2 & (Hl & ->)%appendBytes_ok & Hv).
    subst o1. rewrite emit_emit in Hv. simpl in Hl. rewrite app_nil_r in Hl.
    apply write_items_sound in Hv as (Hc & Hf & Hh & ->); [|done|by apply int_writer_emit|].
    + rewrite fits_emit in Hf. rewrite emit_emit. cbn [canon]. rewrite canonical_array.
      simpl in *. unfold zlen in *. rewrite length_map in *. split_and!; try done; [lia|].
      enough (zmax (map (fun v => 1 + height v) (map canon l)) <= m - d) by lia.
      apply zmax_le. split; [lia|]. apply Forall_map. eapply Forall_impl; [exact Hh|].
      simpl. lia.
    + unfold fits. simpl. autorewrite with go. simpl. lia.
  - case_match eqn:Hle; [done|].
    apply bind_ok in Hv as (entries & (Hk & ->)%collect_entries_ok & Hv).
    apply bind_ok in Hv as (o2 & (Hl & ->)%appendBytes_ok & Hv).
    rewrite keys_ok_payload in Hk. unfold zlen in Hl, Hv. rewrite !length_map in Hl, Hv.
    fold (zlen l) in Hl, Hv.
    subst o1. rewrite emit_emit in Hv. simpl in Hl. rewrite app_nil_r in Hl.
    rewrite sort_entries_map in Hv.
    set (ms := sort_by key_lt (text_key ∘ nfc ∘ fst) l) in *.
    assert (Hp : ms ≡ₚ l) by apply sort_by_perm.
    apply write_entries_sound in Hv as (Hc & Hf & Hh & ->);
      [|by rewrite Hp|by apply int_writer_emit|].
    + rewrite fits_emit in Hf. rewrite emit_emit.
      assert (Hlen : zlen (map norm_entry ms) = zlen l).
      { unfold zlen. by rewrite length_map, Hp. }
      assert (Hcan : canonical (canon (VMap l))).
      { apply (map_canonical d m); auto; fold ms.
        - destruct Hf as [Hf _]. autorewrite with go in Hf.
          pose proof (zlen_nonneg (w_encoded o)). pose proof (zlen_nonneg (head_bytes 5 (zlen l))). lia.
        - simpl in Hle. pose proof (Z.quot_lt_upper_bound (w_maxItems o - (w_items o + 1)) 2 (2 ^ 63)).
          lia. }
      split; [done|]. rewrite canon_map. fold ms. simpl. rewrite Hlen. simpl in *.
      split_and!; try done.
      enough (zmax (map (fun p => 1 + height p.2) (map norm_entry ms)) <= m - d) by lia.
      apply zmax_le. split; [lia|]. apply Forall_map. eapply Forall_impl; [exact Hh|].
      simpl. lia.
    + unfold fits. simpl. autorewrite with go. simpl. fold (zlen (w_encoded o)) in Hl.
      fold (zlen (head_bytes 5 (zlen l))) in Hl. lia.
  - done.
Qed.

(** ** Completeness on canonical values *)
Lemma zsum_map_nonneg {A} (f : A -> Z) l : (forall x, 0 <= f x) -> 0 <= zsum (map f l).
Proof using Type. intros Hf. induction l as [|x l IH]; simpl; [lia|]. specialize (Hf x). lia. Qed.

Lemma zsum_map_ge {A} c (f : A -> Z) l : (forall x, c <= f x) -> c * zlen l <= zsum (map f l).
Proof using Type.
  intros Hf. induction l as [|x l IH]; simpl; autorewrite with go; [lia|]. specialize (Hf x). lia.
Qed.

Lemma zsum_items_nonneg l : 0 <= zsum (map nitems l).
Proof using Type. apply zsum_map_nonneg. intros x. pose proof (nitems_pos x). lia. Qed.

Definition encodable (v : Value) : Prop := forall o d m,
  canonical v -> fits o (enc v) (nitems v) -> d + height v <= m ->
  encode o v d m = Ok (emit o (enc v) (nitems v)).

Lemma write_items_complete l o d m :
  Forall encodable l -> Forall canonical l ->
  fits o (concat (map enc l)) (zsum (map nitems l)) -> Forall (fun v => d + height v <= m) l ->
  write_items o (map (fun v o => encode o v d m) l) =
  Ok (emit o (concat (map enc l)) (zsum (map nitems l))).
Proof using Type.
  intros Hl. revert o. induction Hl as [|v l Hv _ IH]; intros o Hc Hf Hh; simpl in *.
  - by rewrite emit_nil.
  - apply Forall_cons in Hc as [? ?]. apply Forall_cons in Hh as [? ?].
    rewrite Hv; [|done| |done].
    + simpl. rewrite IH; [by rewrite emit_emit|done|by rewrite fits_emit|done].
    + unfold fits in *. autorewrite with go in Hf. pose proof (zlen_nonneg (concat (map enc l))).
      pose proof (zsum_items_nonneg l). destruct Hf. split; lia.
Qed.

Lemma write_entries_complete l o d m :
  Forall (fun p => encodable p.2) l -> Forall (fun p => canonical p.2) l ->
  Forall (fun p => nfc_text p.1) l ->
  fits o (concat (map entry_bytes l)) (zsum (map (fun p => 1 + nitems p.2) l)) ->
  Forall (fun p => d + height p.2 <= m) l ->
  write_entries o (map (write_entry d m) l) =
  Ok (emit o (concat (map entry_bytes l)) (zsum (map (fun p => 1 + nitems p.2) l))).
Proof using Type.
  intros Hl. revert o. induction Hl as [|[k v] l Hv _ IH]; intros o Hc Hk Hf Hh; simpl in *.
  - by rewrite emit_nil.
  - apply Forall_cons in Hc as [? ?]. apply Forall_cons in Hh as [? ?].
    apply Forall_cons in Hk as [[_ Hnk] ?]. simpl in *.
    assert (Hrest : 0 <= zsum (map (fun p => 1 + nitems p.2) l)).
    { apply zsum_map_nonneg. intros x. pose proof (nitems_pos x.2). lia. }
    pose proof (nitems_pos v). pose proof (zlen_nonneg (concat (map entry_bytes l))).
    pose proof (zlen_nonneg (enc v)).
    pose proof Hf as [Hfb Hfi]. unfold entry_bytes in Hfb at 1. autorewrite with go in Hfb. simpl in *.
    rewrite (proj2 (Z.leb_gt _ _)) by lia. rewrite w_count_emit, Hnk.
    rewrite (proj2 (appendBytes_ok (emit o [] 1) (text_key k) (emit o (text_key k) 1))).
    + simpl. rewrite Hv; [|done| |done].
      * simpl. rewrite emit_emit, IH; [|done|done| |done].
        -- by rewrite emit_emit.
        -- rewrite fits_emit. unfold fits. autorewrite with go. lia.
      * rewrite fits_emit. unfold fits. autorewrite with go. lia.
    + simpl. rewrite app_nil_r, emit_emit. simpl. split; [lia|done].
Qed.

Lemma scalar_complete o bs :
  fits o bs 1 -> appendBytes (emit o [] 1) bs = Ok (emit o bs 1).
Proof using Type.
  intros [Hb _]. apply appendBytes_ok. simpl. by rewrite app_nil_r, emit_emit.
Qed.

Lemma scalar2_complete o bs bs' :
  fits o (bs ++ bs') 1 ->
  (appendBytes (emit o [] 1) bs ≫= (fun o => appendBytes o bs')) = Ok (emit o (bs ++ bs') 1).
Proof using Type.
  intros [Hb _]. apply append2_ok. simpl. by rewrite app_nil_r, emit_emit.
Qed.

(** The head of an array or map, before its items. *)
Lemma head_complete o head bs n :
  0 <= n -> fits o (head ++ bs) (1 + n) ->
  appendBytes (emit o [] 1) head = Ok (emit o head 1) /\ fits (emit o head 1) bs n.
Proof using Type.
  intros Hn Hf. rewrite fits_emit. split; [|done]. apply scalar_complete.
  destruct Hf as [Hb Hi]. autorewrite with go in Hb. pose proof (zlen_nonneg bs). split; lia.
Qed.

Lemma canonical_keys_ok d m l :
  canonical (VMap l) -> (l <> [] -> d + 1 <= m) -> keys_ok d m ∅ l.
Proof using Type.
  rewrite canonical_map. intros (_ & Hs & Hk & _) Hd.
  assert (Hn : map (fun p => nfc p.1) l = map fst l).
  { apply map_ext_in. intros p Hp. rewrite Forall_forall in Hk. apply Hk. by apply list_elem_of_In. }
  split_and!; [| |by apply Forall_true; intros; apply not_elem_of_empty|done].
  - eapply Forall_impl; [exact Hk|]. by intros p [[? _] _].
  - rewrite Hn. apply (NoDup_fmap_1 text_key).
    replace (text_key <$> map fst l) with (map (fun p => text_key p.1) l) by (symmetry; apply map_map).
    by apply (strict_nodup key_lt).
Qed.

Lemma encode_complete v : encodable v.
Proof using Type*.
  induction v as [|b|s|b|k z|k n|l IH|l IH|] using Value_ind; intros o d m Hc Hf Hh;
    match goal with |- encode o ?v d m = _ =>
      pose proof (nitems_pos v); pose proof (height_nonneg v) end;
    cbn [encode]; pose proof Hf as [Hfb Hfi];
    rewrite (proj2 (enter_ok o d m (emit o [] 1))) by (split_and!; [lia|lia|done]);
    cbn [mbind res_bind].
  - by apply scalar_complete.
  - destruct b; by apply scalar_complete.
  - destruct Hc as [[Hv Hn] _]. unfold encodeString. rewrite Hv, Hn. by apply scalar2_complete.
  - by apply scalar2_complete.
  - destruct Hc as [-> Hz]. unfold encodeInt, appendHead, maxSafeInteger in *. simpl in *.
    repeat case_match; try lia; by apply scalar_complete.
  - done.
  - apply canonical_array in Hc as [Hl Hc]. simpl in Hf, Hh.
    assert (Hpos : forall x, 1 <= nitems x) by apply nitems_pos.
    apply head_complete in Hf as [Hhead Hf]; [|apply zsum_map_nonneg; intros; specialize (Hpos x); lia].
    pose proof (zsum_map_ge 1 nitems l Hpos) as Hge. simpl in Hfi.
    case_match eqn:Hle; [simpl in Hle; lia|]. unfold appendHead. rewrite Hhead. cbn [mbind res_bind].
    rewrite write_items_complete; [by rewrite emit_emit|done..|].
    apply Z.le_add_le_sub_l, zmax_le in Hh as [_ Hh]. rewrite Forall_map in Hh.
    eapply Forall_impl; [exact Hh|]. simpl. lia.
  - assert (Hdm : l <> [] -> d + 1 <= m).
    { destruct l as [|p l]; [done|]. simpl in Hh. pose proof (height_nonneg p.2). lia. }
    pose proof (canonical_keys_ok d m l Hc Hdm) as Hk.
    apply canonical_map in Hc as (Hl & Hs & Hkt & Hc). simpl in Hf, Hh.
    assert (Hpos : forall p : string * Value, 2 <= 1 + nitems p.2)
      by (intros p; pose proof (nitems_pos p.2); lia).
    apply head_complete in Hf as [Hhead Hf]; [|apply zsum_map_nonneg; intros; specialize (Hpos x); lia].
    pose proof (zsum_map_ge 2 _ l Hpos) as Hge. simpl in Hfi.
    case_match eqn:Hle.
    { apply Z.ltb_lt in Hle. simpl in Hle.
      pose proof (Z.quot_le_lower_bound (w_maxItems o - (w_items o + 1)) 2 (zlen l)). lia. }
    rewrite (proj2 (collect_entries_ok _ _ _ _ _)) by (split; [by apply keys_ok_payload|reflexivity]).
    cbn [mbind res_bind]. unfold zlen at 1. rewrite !length_map. fold (zlen l).
    unfold appendHead. rewrite Hhead. cbn [mbind res_bind]. rewrite sort_entries_map.
    assert (Hsort : sort_by key_lt (text_key ∘ nfc ∘ fst) l = l).
    { apply sort_by_id; [apply _..|].
      replace (map (text_key ∘ nfc ∘ fst) l) with (map (fun p => text_key p.1) l); [done|].
      apply map_ext_in. intros p Hp%list_elem_of_In. rewrite Forall_forall in Hkt. simpl.
      by destruct (Hkt p Hp) as [[_ ->] _]. }
    rewrite Hsort, write_entries_complete; [by rewrite emit_emit|done|done| |done|].
    + eapply Forall_impl; [exact Hkt|]. by intros p [? _].
    + apply Z.le_add_le_sub_l, zmax_le in Hh as [_ Hh]. rewrite Forall_map in Hh.
      eapply Forall_impl; [exact Hh|]. simpl. lia.
  - done.
Qed.
End proofs.
