(* ===== verification/CanonicalDecode.v ===== *)
(** * The canonical decoder against its specification

    [readValue] of [Canonical] accepts exactly the encodings [enc v] of canonical
    values [v] within the limits: completeness (every such encoding is read back)
    and soundness (whatever is accepted is such an encoding). *)

From S2P Require Import Prelude GoText GoCrypto Canonical CanonicalSpec.

(** ** Positions in the input *)
Definition at_input (d : decoder) (bs : bytes) : Prop :=
  (d_offset d <= length (d_encoded d))%nat /\ drop (d_offset d) (d_encoded d) = bs.

(** The decoder after reading [n] bytes and [k] items. *)
Definition d_read (d : decoder) (n : nat) (k : Z) : decoder :=
  Decoder (d_encoded d) (d_maxDepth d) (d_maxItems d) (d_items d + k) (d_offset d + n).

Lemma d_count_read d : d_count d = d_read d 0 1.
Proof. unfold d_count, d_read. by rewrite Nat.add_0_r. Qed.

Lemma d_advance_read d n : d_advance d n = d_read d n 0.
Proof. unfold d_advance, d_read. by rewrite Z.add_0_r. Qed.

Lemma d_read_read d n k n' k' : d_read (d_read d n k) n' k' = d_read d (n + n') (k + k').
Proof. unfold d_read. simpl. by rewrite Nat.add_assoc, Z.add_assoc. Qed.

Lemma d_read_0 d : d_read d 0 0 = d.
Proof. destruct d. unfold d_read. simpl. by rewrite Nat.add_0_r, Z.add_0_r. Qed.

Lemma at_input_read d bs rest k : at_input d (bs ++ rest) -> at_input (d_read d (length bs) k) rest.
Proof.
  intros [Hl Hd]. unfold at_input, d_read. simpl. rewrite <- drop_drop, Hd, drop_app_length.
  split; [|done]. apply (f_equal length) in Hd. rewrite length_drop, length_app in Hd. lia.
Qed.

Lemma at_input_count d bs k : at_input d bs -> at_input (d_read d 0 k) bs.
Proof. intros H. by apply (at_input_read d [] bs). Qed.

Lemma at_input_remaining d bs : at_input d bs -> d_remaining d = zlen bs.
Proof. intros [Hl <-]. unfold d_remaining, zlen. rewrite length_drop. lia. Qed.

Lemma at_input_lookup d b rest : at_input d (b :: rest) -> d_encoded d !! d_offset d = Some b.
Proof.
  intros [_ Hd]. rewrite <- (Nat.add_0_r (d_offset d)), <- lookup_drop, Hd. done.
Qed.

Lemma at_input_lookup_inv d b :
  d_encoded d !! d_offset d = Some b -> exists rest, at_input d (b :: rest).
Proof.
  intros Hb. exists (drop (S (d_offset d)) (d_encoded d)).
  split; [apply lookup_lt_Some in Hb; lia|]. by apply drop_S.
Qed.

Lemma at_input_slice d bs rest n k :
  at_input d (bs ++ rest) -> n = (d_offset d + length bs)%nat ->
  d_slice (d_read d k 0) (d_offset d) n = bs.
Proof.
  intros [_ Hd] ->. unfold d_slice. simpl. rewrite Hd.
  replace (d_offset d + length bs - d_offset d)%nat with (length bs) by lia. apply take_app_length.
Qed.

Lemma at_input_slice_self d bs rest :
  at_input d (bs ++ rest) -> d_slice d (d_offset d) (d_offset d + length bs) = bs.
Proof. intros H. rewrite <- (d_read_0 d) at 1. by eapply at_input_slice. Qed.

(** A prefix of the remaining input. *)
Lemma at_input_split d bs n :
  at_input d bs -> (n <= length bs)%nat ->
  at_input d (d_slice d (d_offset d) (d_offset d + n) ++ drop n bs) /\
  length (d_slice d (d_offset d) (d_offset d + n)) = n.
Proof.
  intros [Hl Hd] Hn. unfold d_slice. rewrite Hd, Nat.add_sub_swap, Nat.sub_diag by lia. simpl.
  rewrite length_take_le by done. split; [|done]. split; [done|]. by rewrite take_drop.
Qed.

(** ** Heads *)
Lemma byte_split b :
  to_byte (Z.lor (Z.shiftl (Z.shiftr (byte_val b) 5) 5) (Z.land (byte_val b) 31)) = b.
Proof. by destruct b as [[] [] [] [] [] [] [] []]. Qed.

Lemma byte_major_range b : 0 <= Z.shiftr (byte_val b) 5 < 8 /\ 0 <= Z.land (byte_val b) 31 < 32.
Proof. by destruct b as [[] [] [] [] [] [] [] []]. Qed.

Lemma readArgument_wide d a n tail rest arg :
  24 <= a <= 27 -> n = Z.to_nat (Z.shiftl 1 (a - 24)) -> length tail = n ->
  be_value tail = arg ->
  (if Z.shiftl 1 (a - 24) =? 2 then 256 else if Z.shiftl 1 (a - 24) =? 4 then 65536
   else if Z.shiftl 1 (a - 24) =? 8 then 4294967296 else 24) <= arg ->
  at_input d (tail ++ rest) -> readArgument d a = Ok (arg, d_read d n 0).
Proof.
  intros Ha Hn Hlen Harg Hmin Hin. unfold readArgument.
  rewrite (proj2 (Z.ltb_ge a 24)), (proj2 (Z.leb_le 24 a)), (proj2 (Z.leb_le a 27)) by lia.
  cbn [andb]. rewrite (at_input_remaining _ _ Hin), zlen_app. rewrite <- Hn.
  assert (Hw : 0 <= Z.shiftl 1 (a - 24)) by (apply Z.shiftl_nonneg; lia).
  rewrite (proj2 (Z.ltb_ge _ _)) by (pose proof (zlen_nonneg rest); unfold zlen in *; lia).
  rewrite <- Hlen, !(at_input_slice_self _ _ _ Hin), Harg.
  rewrite (proj2 (Z.ltb_ge _ _)) by done. by rewrite d_advance_read.
Qed.

Lemma read_head_complete major arg d rest :
  0 <= major < 8 -> 0 <= arg < 2 ^ 64 -> at_input d (head_bytes major arg ++ rest) ->
  exists initial, d_encoded d !! d_offset d = Some initial /\
    Z.shiftr (byte_val initial) 5 = major /\
    readArgument (d_read d 1 0) (Z.land (byte_val initial) 31) =
      Ok (arg, d_read d (length (head_bytes major arg)) 0).
Proof.
  intros Hm Ha Hin. unfold head_bytes in *.
  repeat case_match; simpl app in Hin; (eexists; split; [by eapply at_input_lookup|]);
    (match type of Hin with at_input _ (to_byte (Z.lor _ ?a) :: _) =>
       destruct (head_byte major a Hm) as [E1 E2]; [lia|]; rewrite E1, E2 end);
    (split; [done|]); pose proof (at_input_read d [_] _ 0 Hin) as Hin'; simpl length in Hin'.
  - unfold readArgument. by rewrite (proj2 (Z.ltb_lt arg 24)) by lia.
  - change (to_byte arg :: rest) with ([to_byte arg] ++ rest) in Hin'.
    rewrite (readArgument_wide _ 24 1 [to_byte arg] rest arg);
      [by rewrite d_read_read|lia|done|done| |simpl; lia|done].
    change (0 * 256 + byte_val (to_byte arg) = arg). rewrite byte_val_to_byte, Z.mod_small; lia.
  - rewrite (readArgument_wide _ 25 2 (be_bytes 2 arg) rest arg);
      [by rewrite d_read_read|lia|done|done| |simpl; lia|done]. apply be_value_be_bytes. simpl. lia.
  - rewrite (readArgument_wide _ 26 4 (be_bytes 4 arg) rest arg);
      [by rewrite d_read_read|lia|done|done| |simpl; lia|done]. apply be_value_be_bytes. simpl. lia.
  - rewrite (readArgument_wide _ 27 8 (be_bytes 8 arg) rest arg);
      [by rewrite d_read_read|lia|done|done| |simpl; lia|done]. apply be_value_be_bytes. simpl. lia.
Qed.

Lemma head_byte_split (b : ascii) :
  exists major a, 0 <= major < 8 /\ 0 <= a < 32 /\ b = to_byte (Z.lor (Z.shiftl major 5) a) /\
    Z.shiftr (byte_val b) 5 = major /\ Z.land (byte_val b) 31 = a.
Proof.
  exists (Z.shiftr (byte_val b) 5), (Z.land (byte_val b) 31).
  pose proof (byte_major_range b). rewrite byte_split. by split_and!; try lia.
Qed.

Lemma read_head_sound initial d arg d' :
  d_encoded d !! d_offset d = Some initial ->
  readArgument (d_read d 1 0) (Z.land (byte_val initial) 31) = Ok (arg, d') ->
  0 <= arg < 2 ^ 64 /\
  exists rest, at_input d (head_bytes (Z.shiftr (byte_val initial) 5) arg ++ rest) /\
    d' = d_read d (length (head_bytes (Z.shiftr (byte_val initial) 5) arg)) 0.
Proof.
  intros Hb. destruct (head_byte_split initial) as (major & a & Hm & Ha & Hi & -> & ->).
  apply at_input_lookup_inv in Hb as (rest & Hin).
  pose proof (at_input_read d [initial] rest 0 Hin) as Hin'. simpl length in Hin'.
  unfold readArgument. case_match eqn:Ha24.
  { intros [= <- <-]. split; [lia|]. exists rest. unfold head_bytes. rewrite Ha24. simpl. by rewrite <- Hi. }
  case_match eqn:Ha27; [|done]. rewrite (at_input_remaining _ _ Hin').
  case_match eqn:Hrem; [done|]. set (n := Z.to_nat (Z.shiftl 1 (a - 24))) in *.
  destruct (at_input_split _ _ n Hin') as [Hsp Hlen]; [unfold zlen in *; lia|].
  set (tl := d_slice _ _ _) in *. case_match eqn:Hmin; [done|].
  intros [= <- <-]. rewrite d_advance_read, d_read_read. pose proof (be_value_range tl) as Hr.
  unfold zlen in Hr. rewrite Hlen in Hr.
  assert (Hcase : a = 24 /\ n = 1%nat \/ a = 25 /\ n = 2%nat \/ a = 26 /\ n = 4%nat \/
    a = 27 /\ n = 8%nat).
  { assert (a = 24 \/ a = 25 \/ a = 26 \/ a = 27) as [->|[->|[-> | ->]]] by lia; unfold n; tauto. }
  assert (Hgoal : head_bytes major (be_value tl) = initial :: tl).
  { rewrite <- (be_bytes_be_value tl) at 2. rewrite Hlen, Hi. unfold head_bytes.
    destruct Hcase as [[Ea En]|[[Ea En]|[[Ea En]|[Ea En]]]]; rewrite En in *; rewrite Ea in *;
      simpl in Hr, Hmin; by repeat (case_match; try lia). }
  rewrite Hgoal. simpl length. rewrite Hlen. split.
  - destruct Hcase as [[_ En]|[[_ En]|[[_ En]|[_ En]]]]; rewrite En in Hr; simpl in Hr; lia.
  - exists (drop n rest). split; [|done]. destruct Hin as [Hl Hd]. split; [done|].
    rewrite Hd. simpl. f_equal. destruct Hsp as [_ Hsp]. by rewrite <- Hsp; destruct Hin' as [_ ->].
Qed.

Section proofs.
Context `{N : Normalizer}.

Lemma readValue_head fuel depth d major arg rest :
  0 <= major < 6 -> 0 <= arg < 2 ^ 64 -> at_input d (head_bytes major arg ++ rest) ->
  depth <= d_maxDepth d -> d_items d < d_maxItems d ->
  readValue (S fuel) depth d =
  readMajor (readValue fuel (depth + 1)) depth major arg
    (d_read d (length (head_bytes major arg)) 1).
Proof using Type.
  intros Hm Ha Hin Hd Hi. apply (at_input_count _ _ 1) in Hin.
  destruct (read_head_complete major arg _ rest ltac:(lia) Ha Hin) as (b & Hb & Hmaj & Harg).
  cbn [readValue]. rewrite (proj2 (Z.ltb_ge _ _)), (proj2 (Z.leb_gt _ _)) by lia.
  rewrite d_count_read, Hb, Hmaj, d_advance_read, Harg.
  rewrite (proj2 (Z.eqb_neq major 7)), (proj2 (Z.eqb_neq major 6)) by lia.
  cbn [mbind res_bind]. by rewrite d_read_read.
Qed.

(** ** Completeness *)
Definition readable (v : Value) : Prop := forall fuel depth d rest,
  canonical v -> at_input d (enc v ++ rest) ->
  d_items d + nitems v <= d_maxItems d -> depth + height v <= d_maxDepth d ->
  height v < Z.of_nat fuel ->
  readValue fuel depth d = Ok (v, d_read d (length (enc v)) (nitems v)).

Lemma readString_complete d (bs rest : bytes) major v :
  at_input d (bs ++ rest) ->
  (major = 2 /\ v = VBytes bs) \/ (major = 3 /\ v = VString (of_bytes bs) /\ nfc_text (of_bytes bs)) ->
  readString d major (zlen bs) = Ok (v, d_read d (length bs) 0).
Proof using Type.
  intros Hin Hv. unfold readString. rewrite (at_input_remaining _ _ Hin), zlen_app.
  rewrite (proj2 (Z.ltb_ge _ _)) by (pose proof (zlen_nonneg rest); lia).
  unfold zlen. rewrite Nat2Z.id, (at_input_slice_self _ _ _ Hin), d_advance_read.
  destruct Hv as [[-> ->]|(-> & -> & Hu & Hn)]; [done|]. simpl.
  unfold utf8_ValidString in Hu. rewrite to_of_bytes in Hu. rewrite Hu. simpl.
  by rewrite decide_True.
Qed.

Lemma readArray_complete l read d rest depth fuel :
  (read = readValue fuel depth) ->
  Forall readable l -> Forall canonical l -> at_input d (concat (map enc l) ++ rest) ->
  d_items d + zsum (map nitems l) <= d_maxItems d ->
  Forall (fun v => depth + height v <= d_maxDepth d /\ height v < Z.of_nat fuel) l ->
  readArray read (length l) d =
  Ok (l, d_read d (length (concat (map enc l))) (zsum (map nitems l))).
Proof using Type.
  intros -> Hr. revert d. induction Hr as [|v l Hv _ IH]; intros d Hc Hin Hi Hh; simpl in *.
  { by rewrite d_read_0. }
  apply Forall_cons in Hc as [? ?]. apply Forall_cons in Hh as [[? ?] ?].
  rewrite <- app_assoc in Hin. pose proof (nitems_pos v).
  assert (0 <= zsum (map nitems l)).
  { clear. induction l as [|x l IH]; simpl; [lia|]. pose proof (nitems_pos x). lia. }
  rewrite (Hv fuel depth d (concat (map enc l) ++ rest)) by (done || lia).
  cbn [mbind res_bind]. rewrite IH; [|done|by apply at_input_read|simpl; lia|done].
  cbn [mbind res_bind]. by rewrite d_read_read, length_app.
Qed.

Lemma readable_string k : readable (VString k).
Proof using Type.
  intros fuel depth d rest [Hk Hlen] Hin Hi Hd Hf. simpl in *. unfold text_key in *.
  destruct fuel as [|fuel]; [lia|]. rewrite <- app_assoc in Hin. pose proof (strlen_nonneg k).
  rewrite (readValue_head _ _ _ 3 (strlen k) (to_bytes k ++ rest)) by (done || lia).
  unfold readMajor. simpl. rewrite <- zlen_to_bytes.
  erewrite (readString_complete _ (to_bytes k)); [|rewrite zlen_to_bytes; by apply at_input_read|].
  - by rewrite d_read_read, length_app, zlen_to_bytes.
  - right. by rewrite of_to_bytes.
Qed.

Lemma readMap_complete l read d rest depth fuel result previous :
  read = readValue fuel depth ->
  Forall (fun p => readable p.2) l -> Forall (fun p => canonical p.2) l ->
  Forall (fun p => nfc_text p.1 /\ strlen p.1 < 2 ^ 64) l ->
  StronglySorted key_lt (map (fun p => text_key p.1) l) -> NoDup (map fst (result ++ l)) ->
  match previous, l with Some pk, p :: _ => key_lt pk (text_key p.1) | _, _ => True end ->
  at_input d (concat (map entry_bytes l) ++ rest) ->
  d_items d + zsum (map (fun p => 1 + nitems p.2) l) <= d_maxItems d ->
  Forall (fun p => depth + height p.2 <= d_maxDepth d /\ height p.2 < Z.of_nat fuel) l ->
  readMap read (length l) result previous d =
  Ok (result ++ l,
      d_read d (length (concat (map entry_bytes l))) (zsum (map (fun p => 1 + nitems p.2) l))).
Proof using Type.
  intros -> Hr. revert d result previous.
  induction Hr as [|[k v] l Hv _ IH]; intros d result previous Hc Hk Hs Hnd Hp Hin Hi Hh; simpl in *.
  { by rewrite d_read_0, app_nil_r. }
  apply Forall_cons in Hc as [? ?]. apply Forall_cons in Hh as [[? ?] ?].
  apply Forall_cons in Hk as [[Hk Hkl] ?]. apply StronglySorted_cons in Hs as [Hlt Hs]. simpl in *.
  unfold entry_bytes in Hin at 1. rewrite <- !app_assoc in Hin. simpl in Hin.
  pose proof (nitems_pos v). pose proof (height_nonneg v). pose proof (strlen_nonneg k).
  assert (0 <= zsum (map (fun p : string * Value => 1 + nitems p.2) l)).
  { clear. induction l as [|x l IH]; simpl; [lia|]. pose proof (nitems_pos x.2). lia. }
  destruct (read_head_complete 3 (strlen k) d (to_bytes k ++ enc v ++ concat (map entry_bytes l) ++ rest))
    as (b & Hb & Hmaj & _); [lia|lia|by rewrite app_assoc|].
  rewrite Hb, Hmaj. cbn [negb Z.eqb Pos.eqb].
  rewrite (readable_string k fuel depth d _ (conj Hk Hkl) Hin) by (simpl; lia).
  cbn [mbind res_bind]. simpl enc. simpl nitems.
  assert (Hcur : d_slice (d_read d (length (text_key k)) 1) (d_offset d)
                   (d_offset (d_read d (length (text_key k)) 1)) = text_key k).
  { unfold d_slice. simpl. destruct Hin as [_ ->].
    rewrite Nat.add_sub_swap, Nat.sub_diag by lia. apply take_app_length. }
  rewrite Hcur. rewrite decide_False.
  2: { rewrite map_app in Hnd. simpl in Hnd. apply NoDup_app in Hnd as (_ & Hnd & _).
       intros Hx. apply (Hnd _ Hx). set_solver. }
  assert (Hord : match previous with
                 | Some previousKey => bool_decide (~ key_lt previousKey (text_key k))
                 | None => false end = false).
  { destruct previous; [|done]. apply bool_decide_eq_false. tauto. }
  rewrite Hord. apply (at_input_read _ _ _ 1) in Hin.
  rewrite (Hv fuel depth _ _ ltac:(done) Hin) by (simpl; lia). cbn [mbind res_bind].
  rewrite IH; try done.
  - rewrite <- app_assoc. simpl. rewrite !d_read_read. unfold entry_bytes at 2. simpl.
    do 3 f_equal; rewrite ?length_app; lia.
  - by rewrite <- app_assoc.
  - destruct l; [done|]. by apply Forall_cons in Hlt as [? _].
  - by apply at_input_read.
  - simpl. lia.
Qed.

(** The parameters of a head that announces [n] items. *)
Lemma array_limits d depth l rest :
  Forall canonical l -> at_input d (concat (map enc l) ++ rest) ->
  d_items d + zsum (map nitems l) <= d_maxItems d ->
  depth + zmax (map (fun v => 1 + height v) l) <= d_maxDepth d ->
  zlen l <= d_remaining d /\ zlen l <= d_maxItems d - d_items d /\
  (0 < zlen l -> depth < d_maxDepth d).
Proof using Type.
  intros Hc Hin Hi Hd. rewrite (at_input_remaining _ _ Hin), zlen_app. split_and!.
  - pose proof (concat_length_ge enc 1 l) as Hge. pose proof (zlen_nonneg rest).
    enough (1 * zlen l <= zlen (concat (map enc l))) by lia. apply Hge.
    eapply Forall_impl; [exact Hc|]. intros v Hv. apply enc_nonempty. by intros ->.
  - enough (1 * zlen l <= zsum (map nitems l)) by lia. clear.
    induction l as [|x l IH]; simpl; autorewrite with go; [lia|]. pose proof (nitems_pos x). lia.
  - intros Hl. destruct l as [|x l]; [done|]. simpl in Hd. pose proof (height_nonneg x). lia.
Qed.

Lemma map_limits d depth l rest :
  Forall (fun p => canonical p.2) l -> at_input d (concat (map entry_bytes l) ++ rest) ->
  d_items d + zsum (map (fun p => 1 + nitems p.2) l) <= d_maxItems d ->
  depth + zmax (map (fun p => 1 + height p.2) l) <= d_maxDepth d ->
  zlen l <= Z.quot (d_remaining d) 2 /\ zlen l <= Z.quot (d_maxItems d - d_items d) 2 /\
  (0 < zlen l -> depth < d_maxDepth d).
Proof using Type.
  intros Hc Hin Hi Hd. rewrite (at_input_remaining _ _ Hin), zlen_app.
  pose proof (zlen_nonneg rest). pose proof (zlen_nonneg l). split_and!.
  - apply Z.quot_le_lower_bound; [lia|].
    enough (2 * zlen l <= zlen (concat (map entry_bytes l))) by lia. apply concat_length_ge.
    eapply Forall_impl; [exact Hc|]. intros [k v] Hv. unfold entry_bytes. autorewrite with go.
    simpl. pose proof (text_key_nonempty k). pose proof (enc_nonempty v).
    enough (1 <= zlen (enc v)) by lia. apply enc_nonempty. by intros ->.
  - apply Z.quot_le_lower_bound; [lia|].
    enough (2 * zlen l <= zsum (map (fun p => 1 + nitems p.2) l)) by lia. clear.
    induction l as [|x l IH]; simpl; autorewrite with go; [lia|]. pose proof (nitems_pos x.2). lia.
  - intros Hl. destruct l as [|x l]; [done|]. simpl in Hd. pose proof (height_nonneg x.2). lia.
Qed.

Lemma readable_array l : Forall readable l -> readable (VArray l).
Proof using Type.
  intros IH fuel depth d rest Hc Hin Hi Hd Hf. apply canonical_array in Hc as [Hl Hc].
  pose proof (zmax_nonneg (map (fun v => 1 + height v) l)). pose proof (zlen_nonneg l).
  assert (0 <= zsum (map nitems l)).
  { clear. induction l as [|x l IH]; simpl; [lia|]. pose proof (nitems_pos x). lia. }
  simpl in Hin, Hi, Hd, Hf. destruct fuel as [|fuel]; [lia|]. rewrite <- app_assoc in Hin.
  rewrite (readValue_head _ _ _ 4 (zlen l) (concat (map enc l) ++ rest)) by (done || lia).
  apply (at_input_read _ _ _ 1) in Hin. unfold readMajor. simpl Z.eqb. cbn [orb].
  destruct (array_limits _ depth l rest Hc Hin) as (Hrem & Hitems & Hdepth); [simpl; lia|simpl; lia|].
  rewrite (proj2 (Z.ltb_ge _ _)), (proj2 (Z.ltb_ge _ _)) by done. simpl in Hdepth |- *.
  assert (Hcheck : (0 <? zlen l) && (d_maxDepth d <=? depth) = false) by lia.
  rewrite Hcheck. unfold zlen at 1. rewrite Nat2Z.id.
  rewrite (readArray_complete l _ _ rest (depth + 1) fuel); try done.
  - cbn [mbind res_bind]. by rewrite d_read_read, length_app.
  - simpl. lia.
  - apply Z.le_add_le_sub_l, zmax_le in Hd as [_ Hd]. rewrite Forall_map in Hd.
    assert (Hfz : zmax (map (fun v => 1 + height v) l) <= Z.of_nat fuel) by lia.
    apply zmax_le in Hfz as [_ Hfz]. rewrite Forall_map in Hfz.
    apply Forall_and.
    split; [eapply Forall_impl; [exact Hd|simpl; lia]|eapply Forall_impl; [exact Hfz|simpl; lia]].
Qed.

Lemma readable_map l : Forall (fun p => readable p.2) l -> readable (VMap l).
Proof using Type.
  intros IH fuel depth d rest Hc Hin Hi Hd Hf. apply canonical_map in Hc as (Hl & Hs & Hk & Hc).
  pose proof (zmax_nonneg (map (fun p => 1 + height p.2) l)). pose proof (zlen_nonneg l).
  assert (0 <= zsum (map (fun p => 1 + nitems p.2) l)).
  { clear. induction l as [|x l IH]; simpl; [lia|]. pose proof (nitems_pos x.2). lia. }
  simpl in Hin, Hi, Hd, Hf. destruct fuel as [|fuel]; [lia|]. rewrite <- app_assoc in Hin.
  rewrite (readValue_head _ _ _ 5 (zlen l) (concat (map entry_bytes l) ++ rest)) by (done || lia).
  apply (at_input_read _ _ _ 1) in Hin. unfold readMajor. simpl Z.eqb. cbn [orb].
  destruct (map_limits _ depth l rest Hc Hin) as (Hrem & Hitems & Hdepth); [simpl; lia|simpl; lia|].
  rewrite (proj2 (Z.ltb_ge _ _)), (proj2 (Z.ltb_ge _ _)) by done. simpl in Hdepth |- *.
  assert (Hcheck : (0 <? zlen l) && (d_maxDepth d <=? depth) = false) by lia.
  rewrite Hcheck. unfold zlen at 1. rewrite Nat2Z.id.
  rewrite (readMap_complete l _ _ rest (depth + 1) fuel [] None); try done.
  - cbn [mbind res_bind]. by rewrite d_read_read, length_app.
  - simpl. apply (NoDup_fmap_1 text_key).
    replace (text_key <$> map fst l) with (map (fun p => text_key p.1) l) by (symmetry; apply map_map).
    by apply (strict_nodup key_lt).
  - simpl. lia.
  - apply Z.le_add_le_sub_l, zmax_le in Hd as [_ Hd]. rewrite Forall_map in Hd.
    assert (Hfz : zmax (map (fun p => 1 + height p.2) l) <= Z.of_nat fuel) by lia.
    apply zmax_le in Hfz as [_ Hfz]. rewrite Forall_map in Hfz.
    apply Forall_and.
    split; [eapply Forall_impl; [exact Hd|simpl; lia]|eapply Forall_impl; [exact Hfz|simpl; lia]].
Qed.

(** The three simple values. *)
Lemma readValue_simple fuel depth d b v rest :
  (b = 244 /\ v = VBool false) \/ (b = 245 /\ v = VBool true) \/ (b = 246 /\ v = VNil) ->
  at_input d (to_byte b :: rest) -> d_items d + 1 <= d_maxItems d -> depth <= d_maxDepth d ->
  readValue (S fuel) depth d = Ok (v, d_read d 1 1).
Proof using Type.
  intros Hb Hin Hi Hd. cbn [readValue].
  rewrite (proj2 (Z.ltb_ge _ _)), (proj2 (Z.leb_gt _ _)) by lia.
  rewrite d_count_read. apply (at_input_count _ _ 1) in Hin.
  rewrite (at_input_lookup _ _ _ Hin), d_advance_read, d_read_read.
  by destruct Hb as [[-> ->]|[[-> ->]|[-> ->]]].
Qed.

Lemma readable_all v : readable v.
Proof using Type.
  induction v as [|b|s|b|k z|k n|l IH|l IH|] using Value_ind;
    [| |by apply readable_string| | | |by apply readable_array|by apply readable_map|by intros ???? []];
    intros fuel depth d rest Hc Hin Hi Hd Hf; (destruct fuel as [|fuel]; [simpl in Hf; lia|]);
    simpl in Hin, Hi, Hd, Hc.
  - eapply readValue_simple; [by eauto|done|lia|lia].
  - destruct b; (eapply readValue_simple; [by eauto|done|lia|lia]).
  - rewrite <- app_assoc in Hin. pose proof (zlen_nonneg b).
    rewrite (readValue_head _ _ _ 2 (zlen b) (b ++ rest)) by (done || lia).
    unfold readMajor. simpl Z.eqb. cbn [orb].
    rewrite (readString_complete _ b rest 2 (VBytes b)); [|by apply at_input_read|by left].
    simpl enc. by rewrite d_read_read, length_app.
  - destruct Hc as [-> Hz]. unfold maxSafeInteger in Hz. simpl enc in *. case_match.
    + rewrite (readValue_head _ _ _ 0 z rest) by (done || lia). unfold readMajor. simpl Z.eqb.
      by rewrite (proj2 (Z.ltb_ge _ _)) by (unfold maxSafeInteger; lia).
    + rewrite (readValue_head _ _ _ 1 (-1 - z) rest) by (done || lia). unfold readMajor.
      simpl Z.eqb. rewrite (proj2 (Z.leb_gt _ _)) by (unfold maxSafeInteger; lia).
      by replace (-1 - (-1 - z)) with z by lia.
  - done.
Qed.

(** ** Soundness *)
Definition read_sound (read : Z -> decoder -> res cerror (Value * decoder)) : Prop :=
  forall depth d v d', read depth d = Ok (v, d') ->
  canonical v /\ d_items d + nitems v <= d_maxItems d /\ depth + height v <= d_maxDepth d /\
  exists rest, at_input d (enc v ++ rest) /\ d' = d_read d (length (enc v)) (nitems v).

Lemma readArray_sound read n depth d l d' :
  read_sound read -> readArray (read depth) n d = Ok (l, d') -> at_input d (drop (d_offset d) (d_encoded d)) ->
  d_items d <= d_maxItems d ->
  Forall canonical l /\ length l = n /\ d_items d + zsum (map nitems l) <= d_maxItems d /\
  Forall (fun v => depth + height v <= d_maxDepth d) l /\
  exists rest, at_input d (concat (map enc l) ++ rest) /\
    d' = d_read d (length (concat (map enc l))) (zsum (map nitems l)).
Proof using Type.
  intros Hr. revert d l d'. induction n as [|n IH]; intros d l d' Hread Hin Hi; simpl in Hread.
  { simplify_eq. simpl. rewrite d_read_0. split_and!; try done; [lia|]. by exists (drop (d_offset d') (d_encoded d')). }
  apply bind_ok in Hread as ([v d1] & Hv & Hread). apply bind_ok in Hread as ([l' d2] & Hl & [= <- <-]).
  apply Hr in Hv as (Hc & Hit & Hh & rest & Hin1 & ->).
  apply (at_input_read _ _ _ (nitems v)) in Hin1 as Hin2.
  apply IH in Hl as (Hcs & Hlen & Hits & Hhs & rest' & Hin3 & ->); [|by destruct Hin2|done].
  simpl in *. split_and!; [by constructor|by f_equal|lia|by constructor|].
  exists rest'. rewrite d_read_read, length_app, <- app_assoc. split; [|done].
  destruct Hin2 as [_ Hin2]. destruct Hin3 as [_ Hin3]. by rewrite <- Hin3, Hin2.
Qed.

Lemma at_input_self d bs : at_input d bs -> at_input d (drop (d_offset d) (d_encoded d)).
Proof using Type. by intros [? _]. Qed.

(** Two reads in a row, seen from the first position. *)
Lemma at_input_join d bs rest k bs' rest' :
  at_input d (bs ++ rest) -> at_input (d_read d (length bs) k) (bs' ++ rest') ->
  at_input d ((bs ++ bs') ++ rest').
Proof using Type.
  intros Hin Hin'. pose proof (at_input_read _ _ _ k Hin) as [_ Hr]. destruct Hin' as [_ Hr'].
  rewrite Hr in Hr'. subst rest. by rewrite <- app_assoc.
Qed.

Lemma readMap_sound read n depth d result previous m d' :
  read_sound read -> readMap (read depth) n result previous d = Ok (m, d') ->
  at_input d (drop (d_offset d) (d_encoded d)) -> d_items d <= d_maxItems d ->
  exists l, m = result ++ l /\ length l = n /\ Forall (fun p => canonical p.2) l /\
    Forall (fun p => nfc_text p.1 /\ strlen p.1 < 2 ^ 64) l /\
    StronglySorted key_lt (map (fun p => text_key p.1) l) /\
    (forall pk, previous = Some pk -> Forall (key_lt pk) (map (fun p => text_key p.1) l)) /\
    d_items d + zsum (map (fun p => 1 + nitems p.2) l) <= d_maxItems d /\
    Forall (fun p => depth + height p.2 <= d_maxDepth d) l /\
    exists rest, at_input d (concat (map entry_bytes l) ++ rest) /\
      d' = d_read d (length (concat (map entry_bytes l))) (zsum (map (fun p => 1 + nitems p.2) l)).
Proof using Type.
  intros Hr. revert d result previous m d'.
  induction n as [|n IH]; intros d result previous m d' Hread Hin Hi; simpl in Hread.
  { simplify_eq. exists []. simpl. rewrite d_read_0, app_nil_r.
    split_and!; try done; [constructor|lia|eauto]. }
  destruct (d_encoded d !! d_offset d) as [b|]; [|done]. case_match; [done|].
  apply bind_ok in Hread as ([kv d1] & Hkv & Hread).
  destruct kv as [| |k| | | | | |]; try done.
  apply Hr in Hkv as (Hck & Hit & Hh & rest & Hin1 & ->). simpl in Hck, Hit, Hh, Hin1.
  assert (Hcur : d_slice (d_read d (length (enc (VString k))) (nitems (VString k))) (d_offset d)
                   (d_offset (d_read d (length (enc (VString k))) (nitems (VString k)))) = text_key k).
  { unfold d_slice. simpl. destruct Hin1 as [_ ->].
    rewrite Nat.add_sub_swap, Nat.sub_diag by lia. apply take_app_length. }
  rewrite Hcur in Hread. case_decide as Hdup; [done|].
  match type of Hread with (if ?c then _ else _) = _ => destruct c eqn:Hord end; [done|].
  apply bind_ok in Hread as ([v d2] & Hv & Hread).
  apply (at_input_read _ _ _ 1) in Hin1 as Hin2.
  apply Hr in Hv as (Hcv & Hitv & Hhv & rest2 & Hin3 & ->).
  apply (at_input_read _ _ _ (nitems v)) in Hin3 as Hin4. simpl in *.
  apply IH in Hread as (l & -> & Hlen & Hcs & Hks & Hsort & Hprev & Hits & Hhs & rest3 & Hin5 & ->);
    [|by eapply at_input_self|done].
  rewrite d_read_read in Hin5. simpl in *.
  pose proof (at_input_join _ _ _ _ _ _ Hin1 Hin3) as Hin6.
  rewrite <- length_app in Hin5. pose proof (at_input_join _ _ _ _ _ _ Hin6 Hin5) as Hin7.
  exists ((k, v) :: l). simpl. split_and!.
  - by rewrite <- app_assoc.
  - by f_equal.
  - by constructor.
  - by constructor.
  - constructor; [done|]. by apply Hprev.
  - intros pk ->. apply bool_decide_eq_false in Hord. apply dec_stable in Hord.
    constructor; [done|]. eapply Forall_impl; [by apply Hprev|]. intros x Hx. by etrans.
  - lia.
  - by constructor.
  - exists rest3. split; [done|]. rewrite !d_read_read.
    change (entry_bytes (k, v)) with (text_key k ++ enc v). f_equal; rewrite ?length_app; lia.
Qed.

Lemma readString_sound d major arg v d' bs :
  at_input d bs -> 0 <= arg -> readString d major arg = Ok (v, d') ->
  exists s rest, bs = s ++ rest /\ zlen s = arg /\ d' = d_read d (length s) 0 /\
    (major = 2 /\ v = VBytes s \/ major <> 2 /\ v = VString (of_bytes s) /\ nfc_text (of_bytes s)).
Proof using Type.
  intros Hin Ha. unfold readString. rewrite (at_input_remaining _ _ Hin).
  case_match eqn:Hrem; [done|].
  destruct (at_input_split _ _ (Z.to_nat arg) Hin) as [Hsp Hlen]; [unfold zlen in *; lia|].
  set (s := d_slice _ _ _) in *. rewrite d_advance_read.
  assert (Hbs : bs = s ++ drop (Z.to_nat arg) bs).
  { destruct Hin as [_ Hd]. destruct Hsp as [_ Hsp]. by rewrite <- Hsp, Hd. }
  intros Hread. exists s, (drop (Z.to_nat arg) bs). rewrite Hlen.
  split_and!; [done|unfold zlen; lia|..]; repeat case_match; simplify_eq; try done.
  - left. split; [lia|done].
  - right. split_and!; [lia|done|]. split; [|done]. unfold utf8_ValidString. rewrite to_of_bytes.
    by destruct (utf8_Valid s).
Qed.

Lemma readMajor_sound read depth d major arg v d' rest :
  read_sound read -> 0 <= major < 6 -> 0 <= arg < 2 ^ 64 ->
  at_input d (head_bytes major arg ++ rest) ->
  d_items d + 1 <= d_maxItems d -> depth <= d_maxDepth d ->
  readMajor (read (depth + 1)) depth major arg (d_read d (length (head_bytes major arg)) 1) = Ok (v, d') ->
  canonical v /\ d_items d + nitems v <= d_maxItems d /\ depth + height v <= d_maxDepth d /\
  exists rest, at_input d (enc v ++ rest) /\ d' = d_read d (length (enc v)) (nitems v).
Proof using Type.
  intros Hr Hm Ha Hin Hi Hd. pose proof (at_input_read _ _ _ 1 Hin) as Hin1. unfold readMajor.
  case_match eqn:H0; [|case_match eqn:H1; [|case_match eqn:H2; [|case_match eqn:H4;
    [|case_match eqn:H5; [|done]]]]].
  - case_match; [done|]. intros [= <- <-]. apply Z.eqb_eq in H0 as ->. simpl.
    rewrite (proj2 (Z.leb_le 0 arg)) by lia. unfold maxSafeInteger in *. split_and!; try done; [lia..|eauto].
  - case_match; [done|]. intros [= <- <-]. apply Z.eqb_eq in H1 as ->. cbn [enc nitems height canonical].
    rewrite (proj2 (Z.leb_gt 0 (-1 - arg))) by lia.
    replace (-1 - (-1 - arg)) with arg by lia. unfold maxSafeInteger in *. split_and!; try done; [lia..|eauto].
  - intros (s & rest' & -> & <- & -> & Hv)%(readString_sound _ _ _ _ _ _ Hin1); [|lia].
    assert (Hm2 : major = 2 \/ major = 3) by lia. rewrite d_read_read, Z.add_0_r.
    destruct Hv as [[-> ->]|(? & -> & Hn)].
    + cbn [enc nitems height canonical]. split_and!; try done; [lia..|]. exists rest'.
      by rewrite length_app, <- app_assoc.
    + assert (major = 3) as -> by lia. cbn [enc nitems height canonical]. unfold text_key.
      rewrite <- zlen_to_bytes, to_of_bytes. split_and!; try done; [lia..|]. exists rest'.
      by rewrite length_app, <- app_assoc.
  - case_match eqn:Hrem; [done|]. case_match; [done|]. case_match; [done|].
    intros ([l d1] & Hl & [= <- <-])%bind_ok. apply Z.eqb_eq in H4 as ->.
    apply readArray_sound in Hl as (Hc & Hlen & Hits & Hhs & rest' & Hin2 & ->);
      [|done|by eapply at_input_self|done].
    assert (Harg : arg = zlen l) by (unfold zlen; lia). rewrite canonical_array.
    simpl in Hits, Hhs |- *. rewrite Harg in *. split_and!; try done; [lia|lia| |].
    + apply Z.le_add_le_sub_l, zmax_le. split; [lia|]. apply Forall_map.
      eapply Forall_impl; [exact Hhs|]. simpl. lia.
    + exists rest'. rewrite d_read_read, length_app. split; [|done]. by eapply at_input_join.
  - case_match eqn:Hrem; [done|]. case_match; [done|]. case_match; [done|].
    intros ([l d1] & Hl & [= <- <-])%bind_ok. apply Z.eqb_eq in H5 as ->.
    apply readMap_sound in Hl as (l' & -> & Hlen & Hc & Hk & Hs & _ & Hits & Hhs & rest' & Hin2 & ->);
      [|done|by eapply at_input_self|done].
    assert (Harg : arg = zlen l') by (unfold zlen; lia). simpl app. rewrite canonical_map.
    simpl in Hits, Hhs |- *. rewrite Harg in *. split_and!; try done; [lia|lia| |].
    + apply Z.le_add_le_sub_l, zmax_le. split; [lia|]. apply Forall_map.
      eapply Forall_impl; [exact Hhs|]. simpl. lia.
    + exists rest'. rewrite d_read_read, length_app. split; [|done]. by eapply at_input_join.
Qed.

Lemma readValue_sound fuel : read_sound (readValue fuel).
Proof using Type.
  induction fuel as [|fuel IH]; intros depth d v d' Hread; [done|]. cbn [readValue] in Hread.
  case_match eqn:Hd; [done|]. case_match eqn:Hi; [done|].
  rewrite d_count_read, d_advance_read, d_read_read in Hread. simpl in Hread.
  rewrite Nat.add_0_r in Hread.
  destruct (d_encoded d !! d_offset d) as [b|] eqn:Hb; [|done].
  pose proof (byte_major_range b) as [Hm _].
  case_match eqn:H7.
  { apply at_input_lookup_inv in Hb as (rest & Hin). rewrite <- (to_byte_byte_val b) in Hin.
    repeat case_match; simplify_eq;
      match goal with H : (byte_val b =? _) = true |- _ => apply Z.eqb_eq in H; rewrite H in Hin end;
      simpl; (split_and!; [done|lia|lia|by exists rest]). }
  case_match eqn:H6; [done|]. apply bind_ok in Hread as ([arg d1] & Harg & Hread).
  assert (Hb' : d_encoded (d_read d 0 1) !! d_offset (d_read d 0 1) = Some b)
    by (simpl; by rewrite Nat.add_0_r).
  destruct (read_head_sound b (d_read d 0 1) arg d1 Hb') as (Ha & rest & Hin & Hd1);
    [by rewrite d_read_read|].
  subst d1. rewrite d_read_read in Hread. simpl in Hread.
  eapply readMajor_sound; [exact IH| |exact Ha| |lia|lia|exact Hread]; [lia|].
  destruct Hin as [Hl Hin]. simpl in *. rewrite Nat.add_0_r in *. by split.
Qed.

(** ** Termination

    More fuel than the depth limit needs does not change the result, so the
    recursion of the source, which has no fuel, is the one of the model. *)
Definition keeps_limit (read : decoder -> res cerror (Value * decoder)) : Prop :=
  forall d v d', read d = Ok (v, d') -> d_maxDepth d' = d_maxDepth d.

Lemma readValue_keeps_limit fuel depth : keeps_limit (readValue fuel depth).
Proof using Type. by intros d v d' (_ & _ & _ & rest & _ & ->)%readValue_sound. Qed.

Lemma readArray_ext read read' n d :
  keeps_limit read' -> (forall d', d_maxDepth d' = d_maxDepth d -> read d' = read' d') ->
  readArray read n d = readArray read' n d.
Proof using Type.
  intros Hk. revert d. induction n as [|n IH]; intros d He; simpl; [done|].
  rewrite He by done. destruct (read' d) as [[v d1]|] eqn:Hd; [|done]. cbn [mbind res_bind].
  rewrite IH; [done|]. intros d' Hd'. apply He. by rewrite Hd', (Hk _ _ _ Hd).
Qed.

Lemma readMap_ext read read' n result previous d :
  keeps_limit read' -> (forall d', d_maxDepth d' = d_maxDepth d -> read d' = read' d') ->
  readMap read n result previous d = readMap read' n result previous d.
Proof using Type.
  intros Hk. revert d result previous. induction n as [|n IH]; intros d result previous He; simpl; [done|].
  case_match; [|done]. case_match; [done|]. rewrite He by done.
  destruct (read' d) as [[v d1]|] eqn:Hd; [|done]. cbn [mbind res_bind].
  destruct v as [| |k| | | | | |]; try done. repeat (case_match; [done|]).
  pose proof (Hk _ _ _ Hd) as Hd1. rewrite He by done.
  destruct (read' d1) as [[v d2]|] eqn:Hd'; [|done]. cbn [mbind res_bind].
  pose proof (Hk _ _ _ Hd') as Hd2. apply IH. intros d' Hd3. apply He. congruence.
Qed.

Lemma readValue_fuel fuel fuel' depth d :
  d_maxDepth d - depth < Z.of_nat fuel -> d_maxDepth d - depth < Z.of_nat fuel' ->
  readValue fuel depth d = readValue fuel' depth d.
Proof using Type.
  revert fuel' depth d. induction fuel as [|fuel IH]; intros [|fuel'] depth d Hf Hf';
    cbn [readValue]; [done|by rewrite (proj2 (Z.ltb_lt _ _)) by lia..|].
  repeat (case_match; try done).
  match goal with |- mbind _ ?m = mbind _ ?m => destruct m as [[arg d1]|] eqn:Harg end; [|done].
  cbn [mbind res_bind].
  assert (Hd1 : d_maxDepth d1 = d_maxDepth d).
  { revert Harg. unfold readArgument. repeat case_match; intros; simplify_eq; done. }
  assert (He : forall d', d_maxDepth d' = d_maxDepth d1 ->
    readValue fuel (depth + 1) d' = readValue fuel' (depth + 1) d') by (intros; apply IH; lia).
  unfold readMajor. repeat (case_match; try done).
  - by rewrite (readArray_ext _ (readValue fuel' (depth + 1))) by (done || apply readValue_keeps_limit).
  - by rewrite (readMap_ext _ (readValue fuel' (depth + 1))) by (done || apply readValue_keeps_limit).
Qed.
End proofs.
