(* ===== verification/CanonicalProofs.v ===== *)
(** * Theorems about the canonical encoding

    Round trip, canonicity, independence of the map iteration order, injectivity
    of the digest preimage, and the normalised string sets. *)

From S2P Require Import Prelude GoText GoCrypto Canonical CanonicalSpec CanonicalEncode CanonicalDecode.

(** The limits of an [Options] are [int]s. *)
Definition int_options (o : Options) : Prop := MaxBytes o < 2 ^ 63 /\ MaxItems o < 2 ^ 63.

Lemma default_int_options : int_options DefaultOptions.
Proof. done. Qed.
#[export] Hint Resolve default_int_options : go.

(** Two values that differ only in the order their maps are visited. *)
#[local] Unset Elimination Schemes.
Inductive same_value : Value -> Value -> Prop :=
| same_refl v : same_value v v
| same_array l l' : Forall2 same_value l l' -> same_value (VArray l) (VArray l')
| same_map m m' m'' :
    m ≡ₚ m' -> Forall2 (fun p q => p.1 = q.1 /\ same_value p.2 q.2) m' m'' ->
    same_value (VMap m) (VMap m'').
#[local] Set Elimination Schemes.

Section theorems.
Context {N : Normalizer} {NL : NormalizerLaws}.

Lemma Encode_ok v opts bs :
  int_options opts -> Encode v opts = Ok bs ->
  invalid_options opts = false /\ canonical (canon v) /\ bs = enc (canon v) /\
  zlen bs <= MaxBytes opts /\ nitems (canon v) <= MaxItems opts /\ height (canon v) <= MaxDepth opts.
Proof using Type*.
  intros [Hb Hi]. unfold Encode. case_match eqn:Hopt; [done|]. intros (o & He & [= <-])%bind_ok.
  apply encode_sound in He as (Hc & [Hfb Hfi] & Hh & ->); [|done].
  simpl in *. rewrite ?zlen_nil in *. split_and!; try done; lia.
Qed.

Lemma Encode_canonical v opts :
  invalid_options opts = false -> canonical v -> zlen (enc v) <= MaxBytes opts ->
  nitems v <= MaxItems opts -> height v <= MaxDepth opts -> Encode v opts = Ok (enc v).
Proof using Type*.
  intros Ho Hc Hb Hi Hh. unfold Encode. rewrite Ho.
  rewrite encode_complete by (done || (split; simpl; rewrite ?zlen_nil; lia)). done.
Qed.

Lemma Decode_ok bs opts v :
  Decode bs opts = Ok v ->
  invalid_options opts = false /\ canonical v /\ bs = enc v /\
  zlen bs <= MaxBytes opts /\ nitems v <= MaxItems opts /\ height v <= MaxDepth opts.
Proof using Type.
  unfold Decode. case_match eqn:Hopt; [done|]. case_match eqn:Hb; [done|].
  intros ([v' d] & Hr & Hoff)%bind_ok. case_match eqn:Ho; [|done]. simplify_eq.
  apply readValue_sound in Hr as (Hc & Hi & Hh & rest & [_ Hin] & ->). simpl in *.
  apply Nat.eqb_eq in Ho. rewrite drop_0 in Hin. subst bs. rewrite length_app in Ho.
  destruct rest; [|simpl in Ho; lia]. rewrite app_nil_r in *. split_and!; try done; lia.
Qed.

Lemma Decode_canonical v opts :
  invalid_options opts = false -> canonical v -> zlen (enc v) <= MaxBytes opts ->
  nitems v <= MaxItems opts -> height v <= MaxDepth opts -> Decode (enc v) opts = Ok v.
Proof using Type.
  intros Ho Hc Hb Hi Hh. unfold Decode. rewrite Ho, (proj2 (Z.ltb_ge _ _)) by lia.
  pose proof (height_nonneg v). unfold invalid_options in Ho.
  rewrite (readable_all v _ 0 _ []); try done.
  - simpl. by rewrite Nat.eqb_refl.
  - split; [simpl; lia|]. by rewrite app_nil_r.
  - unfold decode_fuel. lia.
Qed.

Lemma decode_of_encode v opts bs :
  int_options opts -> Encode v opts = Ok bs -> Decode bs opts = Ok (canon v).
Proof using Type*.
  intros Hint (Ho & Hc & -> & ? & ? & ?)%Encode_ok; [|done]. by apply Decode_canonical.
Qed.

Lemma encode_of_decode bs opts v : Decode bs opts = Ok v -> Encode v opts = Ok bs.
Proof using Type*.
  intros (Ho & Hc & -> & ? & ? & ?)%Decode_ok. by apply Encode_canonical.
Qed.

Lemma encode_inj v v' opts bs :
  int_options opts -> Encode v opts = Ok bs -> Encode v' opts = Ok bs -> canon v = canon v'.
Proof using Type*.
  intros Hint He He'. apply decode_of_encode in He, He'; try done. congruence.
Qed.

(** ** The order of visits *)
Definition follows (f g : writer -> res cerror writer) : Prop := forall o o', f o = Ok o' -> g o = Ok o'.

Lemma write_items_follows o o' fs gs :
  Forall2 follows fs gs -> write_items o fs = Ok o' -> write_items o gs = Ok o'.
Proof using Type.
  intros Hf. revert o. induction Hf as [|f g fs gs Hfg _ IH]; intros o; simpl; [done|].
  intros (o1 & Ho1%Hfg & Hr)%bind_ok. rewrite Ho1. simpl. by apply IH.
Qed.

Lemma write_entries_follows o o' (fs gs : list (bytes * (writer -> res cerror writer))) :
  Forall2 (fun p q => p.1 = q.1 /\ follows p.2 q.2) fs gs ->
  write_entries o fs = Ok o' -> write_entries o gs = Ok o'.
Proof using Type.
  intros Hf. revert o. induction Hf as [|[k f] [k' g] fs gs [Hk Hfg] _ IH]; intros o; simpl; [done|].
  simpl in Hk, Hfg. subst k'. case_match; [done|].
  intros (o1 & Ha & (o2 & Ho2%Hfg & Hr)%bind_ok)%bind_ok. rewrite Ha. simpl. rewrite Ho2. simpl.
  by apply IH.
Qed.

(** A list of pairs with equal keys, as one list with two payloads. *)
Lemma zip_payload {A} (R : A -> A -> Prop) (m m' : list (string * A)) :
  Forall2 (fun p q => p.1 = q.1 /\ R p.2 q.2) m m' ->
  exists z : list (string * (A * A)), m = map (fun t => (t.1, t.2.1)) z /\
    m' = map (fun t => (t.1, t.2.2)) z /\ Forall (fun t => R t.2.1 t.2.2) z.
Proof using Type.
  induction 1 as [|[k v] [k' v'] m m' [Hk HR] _ (z & -> & -> & Hz)]; [by exists []|].
  simpl in *. subst k'. exists ((k, (v, v')) :: z). simpl. split_and!; auto.
Qed.

Definition invariant_under_order (v : Value) : Prop := forall v' o d m o',
  same_value v v' -> encode o v d m = Ok o' -> encode o v' d m = Ok o'.

Lemma order_array l : Forall invariant_under_order l -> invariant_under_order (VArray l).
Proof using Type.
  intros IH v' o d m o' Hs. inversion Hs as [|? l' Hl|]; subst; [done|]. cbn [encode].
  intros (o1 & Ho1 & Hv)%bind_ok. rewrite Ho1. cbn [mbind res_bind].
  assert (Hlen : zlen l' = zlen l) by (unfold zlen; by rewrite (Forall2_length _ _ _ Hl)).
  rewrite Hlen. case_match; [done|]. apply bind_ok in Hv as (o2 & Ho2 & Hv). rewrite Ho2.
  cbn [mbind res_bind]. eapply write_items_follows; [|exact Hv].
  clear - IH Hl. induction Hl as [|v v' l l' Hv _ IHl]; simpl; constructor.
  - apply Forall_cons in IH as [IH _]. intros o o'. by apply IH.
  - apply IHl. by apply Forall_cons in IH as [_ IH].
Qed.

Lemma order_map l :
  Forall (fun p => invariant_under_order p.2) l -> invariant_under_order (VMap l).
Proof using Type*.
  intros IH v' o d m o' Hs. inversion Hs as [| |? l1 l' Hp Hl]; subst; [done|]. cbn [encode].
  intros (o1 & Ho1 & Hv)%bind_ok. rewrite Ho1. cbn [mbind res_bind].
  destruct (zip_payload _ _ _ Hl) as (z & -> & -> & Hz).
  assert (Hlen : zlen (map (fun t : string * (Value * Value) => (t.1, t.2.2)) z) = zlen l).
  { unfold zlen. by rewrite Hp, !length_map. }
  rewrite Hlen. case_match; [done|].
  apply bind_ok in Hv as (entries & (Hk & ->)%collect_entries_ok & Hv).
  rewrite keys_ok_payload in Hk. apply (keys_ok_perm _ _ _ _ _ Hp) in Hk as Hkz.
  assert (Hk' : keys_ok d m ∅ (map (fun t : string * (Value * Value) => (t.1, t.2.2)) z)).
  { by apply (keys_ok_payload (fun t => t.2.2)), (keys_ok_payload (fun t => t.2.1)). }
  rewrite (proj2 (collect_entries_ok _ _ _ _ _)) by (split; [by apply keys_ok_payload|reflexivity]).
  cbn [mbind res_bind]. apply bind_ok in Hv as (o2 & Ho2 & Hv).
  unfold zlen in Ho2 |- *. rewrite !length_map in *. fold (zlen l) in Ho2.
  unfold zlen in Hlen. rewrite length_map in Hlen. rewrite Hlen. fold (zlen l). rewrite Ho2.
  cbn [mbind res_bind]. rewrite sort_entries_map in Hv |- *.
  assert (Hsort : sort_by key_lt (text_key ∘ nfc ∘ fst) l =
    map (fun t => (t.1, t.2.1)) (sort_by key_lt (text_key ∘ nfc ∘ fst) z)).
  { etrans; [|exact (sort_by_map key_lt (text_key ∘ nfc ∘ fst)
                       (fun t : string * (Value * Value) => (t.1, t.2.1)) z)].
    apply sort_by_unique; [apply _..| |done]. destruct Hk as (_ & Hnd & _).
    replace (map (text_key ∘ nfc ∘ fst) l) with (text_key <$> map (fun p => nfc p.1) l)
      by apply map_map. by apply NoDup_fmap_2; [apply _|]. }
  rewrite Hsort in Hv. rewrite (sort_by_map key_lt (text_key ∘ nfc ∘ fst)).
  change (text_key ∘ nfc ∘ fst ∘ (fun t : string * (Value * Value) => (t.1, t.2.2)))
    with (text_key ∘ nfc ∘ @fst string (Value * Value)).
  rewrite !map_map in *.
  eapply write_entries_follows; [|exact Hv].
  assert (HP : Forall (fun t => invariant_under_order t.2.1 /\ same_value t.2.1 t.2.2)
    (sort_by key_lt (text_key ∘ nfc ∘ fst) z)).
  { rewrite sort_by_perm. apply Forall_and. split; [|done]. rewrite Hp, Forall_map in IH. exact IH. }
  clear - HP. set (sorted := sort_by _ _ z) in *. clearbody sorted.
  induction HP as [|[k [v v']] sorted [Hinv Hsame] _ IHz]; simpl; constructor; [|done].
  split; [done|]. intros o o'. by apply Hinv.
Qed.

Lemma encode_same_value v : invariant_under_order v.
Proof using Type*.
  induction v using Value_ind; try (intros v' o d m o' Hs; by inversion Hs; subst).
  - by apply order_array.
  - by apply order_map.
Qed.

(** ** Records: maps with fixed keys *)
Lemma assoc_perm_eq {A B} (l k : list (A * B)) :
  NoDup (map fst l) -> map fst l = map fst k -> l ≡ₚ k -> l = k.
Proof using Type.
  revert k. induction l as [|[a b] l IH]; intros [|[a' b'] k] Hnd Hk Hp; try done. simpl in *.
  injection Hk as <- Hk. apply NoDup_cons in Hnd as [Hni Hnd].
  assert ((a, b) ∈ (a, b') :: k) as [Heq|Hin]%elem_of_cons by (rewrite <- Hp; by left).
  - injection Heq as <-. f_equal. apply IH; try done. by apply Permutation_cons_inv in Hp.
  - exfalso. apply Hni. rewrite Hk. apply list_elem_of_fmap. by exists (a, b).
Qed.

(** Two records with the same keys and the same canonical form agree in every
    field. *)
Lemma canon_record_inj m m' :
  map fst m = map fst m' -> Forall (fun k => nfc k = k) (map fst m) -> NoDup (map fst m) ->
  canon (VMap m) = canon (VMap m') -> map (fun p => canon p.2) m = map (fun p => canon p.2) m'.
Proof using Type.
  intros Hk Hn Hnd. cbn [canon]. intros [= Hs].
  set (f := fun p : string * Value => (nfc p.1, canon p.2)) in *.
  assert (forall l, map fst (map f l) = map nfc (map fst l)) as Hf by (intros l; by rewrite !map_map).
  assert (map nfc (map fst m) = map fst m) as Hid.
  { rewrite <- (map_id (map fst m)) at 2. by apply map_ext_Forall. }
  assert (map f m = map f m') as Heq.
  { apply assoc_perm_eq; [by rewrite Hf, Hid|by rewrite !Hf, Hk|].
    etrans; [symmetry; apply (sort_by_perm key_lt (text_key ∘ fst))|]. rewrite Hs. apply sort_by_perm. }
  apply (f_equal (map snd)) in Heq. by rewrite !map_map in Heq.
Qed.

(** ** Digests and string sets *)
Lemma structured_digest_ok domain version payload s :
  StructuredDigest domain version payload = Ok s ->
  nfc domain = domain /\ exists bs, Encode (digest_preimage domain version payload) DefaultOptions = Ok bs /\
    s = sha256_text bs.
Proof using Type.
  unfold StructuredDigest. case_match eqn:Hd; [done|]. case_match; [done|].
  intros (bs & He & [= <-])%bind_ok. split; [|by exists bs].
  apply orb_false_elim in Hd as [_ Hd]. apply bool_decide_eq_false in Hd. by apply dec_stable.
Qed.

Lemma preimage_inj domain version payload domain' version' payload' :
  nfc domain = domain -> nfc domain' = domain' ->
  canon (digest_preimage domain version payload) = canon (digest_preimage domain' version' payload') ->
  domain = domain' /\ version = version' /\ canon payload = canon payload'.
Proof using Type. intros Hd Hd' [= Hdom Hv Hp]. rewrite Hd, Hd' in Hdom. done. Qed.

Lemma normalize_strings_ok seen values out :
  normalize_strings seen values = Ok out <->
  Forall (fun s => utf8_ValidString s = true) values /\ NoDup (map nfc values) /\
  Forall (fun s => nfc s ∉ seen) values /\ out = map nfc values.
Proof using Type.
  revert seen out. induction values as [|v values IH]; intros seen out; simpl.
  { rewrite !Forall_nil. split; [intros; simplify_eq; split_and!; try done; constructor|naive_solver]. }
  rewrite !Forall_cons, NoDup_cons. destruct (utf8_ValidString v) eqn:Hv; simpl; [|naive_solver].
  case_decide as Hs; [naive_solver|].
  assert (Hs' : Forall (fun s => nfc s ∉ {[nfc v]} ∪ seen) values <->
    (nfc v ∉ map nfc values) /\ Forall (fun s => nfc s ∉ seen) values).
  { rewrite !Forall_forall. setoid_rewrite not_elem_of_union. setoid_rewrite not_elem_of_singleton.
    split.
    - intros Hl. split; [|intros x Hx; by apply Hl].
      intros (x & Heq & Hx)%list_elem_of_fmap. destruct (Hl x Hx). congruence.
    - intros [Hni Hl] x Hx. split; [|by apply Hl]. intros Heq. apply Hni.
      rewrite <- Heq. by apply list_elem_of_fmap_2. }
  rewrite bind_ok. setoid_rewrite IH. setoid_rewrite Hs'. naive_solver.
Qed.

(** ** The claims *)

(** C30: what [Encode] wrote is read back by [Decode] as the canonical form of the
    value (integers as [int64], texts in NFC, map entries in key order), and that
    form encodes to the same bytes. *)
Theorem canonical_roundtrip v opts bs :
  int_options opts -> Encode v opts = Ok bs ->
  Decode bs opts = Ok (canon v) /\ Encode (canon v) opts = Ok bs.
Proof using Type*.
  intros Hint He. pose proof (decode_of_encode _ _ _ Hint He) as Hd.
  split; [done|]. by apply encode_of_decode.
Qed.

(** C31: [Decode] accepts no second encoding of a value: re-encoding what it
    returns, under the same limits, gives the very bytes it was given. *)
Theorem canonical_unique bs opts v : Decode bs opts = Ok v -> Encode v opts = Ok bs.
Proof using Type*. apply encode_of_decode. Qed.

(** The encoding does not depend on the order in which the runtime visits a
    map, at any depth of the value. *)
Theorem encode_order_irrelevant v v' opts bs :
  same_value v v' -> Encode v opts = Ok bs -> Encode v' opts = Ok bs.
Proof using Type*.
  intros Hs. unfold Encode. case_match; [done|]. intros (o & He & [= <-])%bind_ok.
  by rewrite (encode_same_value v _ _ _ _ _ Hs He).
Qed.

Lemma digest_binding domain version payload domain' version' payload' s :
  StructuredDigest domain version payload = Ok s ->
  StructuredDigest domain' version' payload' = Ok s ->
  (domain = domain' /\ version = version' /\ canon payload = canon payload') \/
  (exists bs bs', bs <> bs' /\ sha256_Sum256 bs = sha256_Sum256 bs').
Proof using Type*.
  intros (Hd & bs & He & ->)%structured_digest_ok (Hd' & bs' & He' & Heq)%structured_digest_ok.
  unfold sha256_text in Heq. apply (inj (String.append _)), (inj hex_EncodeToString) in Heq.
  destruct (decide (bs = bs')) as [<-|Hne]; [left|right; by exists bs, bs'].
  apply preimage_inj; try done. by apply (encode_inj _ _ DefaultOptions bs default_int_options).
Qed.

(** A structured digest binds its domain, schema version and payload: two
    equal digests come from the same domain, the same version and payloads with
    the same canonical form, or they exhibit a SHA-256 collision. *)
Theorem structured_digest_binding domain version payload domain' version' payload' s :
  StructuredDigest domain version payload = Ok s ->
  StructuredDigest domain' version' payload' = Ok s ->
  (domain = domain' /\ version = version' /\ canon payload = canon payload') \/
  (exists bs bs', bs <> bs' /\ sha256_Sum256 bs = sha256_Sum256 bs').
Proof using Type*. apply digest_binding. Qed.

(** A normalised string set is strictly increasing in byte order, holds exactly
    the normal forms of the input, and does not depend on the input's order. *)
Theorem normalized_set_spec values values' out :
  values ≡ₚ values' -> NormalizeStringSet values = Ok out ->
  NormalizeStringSet values' = Ok out /\ StronglySorted bytes_lt (map to_bytes out) /\
  out ≡ₚ map nfc values /\ Forall nfc_text out.
Proof using Type*.
  unfold NormalizeStringSet. intros Hp (n & (Hv & Hnd & Hs & ->)%normalize_strings_ok & [= <-])%bind_ok.
  assert (Hndb : NoDup (map to_bytes (map nfc values))) by (apply NoDup_fmap_2; [apply _|done]).
  split_and!.
  - rewrite (proj2 (normalize_strings_ok ∅ values' (map nfc values'))).
    + simpl. f_equal. symmetry. apply sort_by_unique; [apply _..|done|by apply Permutation_map].
    + split_and!; [by rewrite <- Hp| |by rewrite <- Hp|done].
      assert (Hpm : map nfc values ≡ₚ map nfc values') by by apply Permutation_map.
      by rewrite <- Hpm.
  - by apply sort_by_strict; [apply _..|].
  - apply sort_by_perm.
  - rewrite sort_by_perm. apply Forall_map. eapply Forall_impl; [exact Hv|]. apply nfc_nfc_text.
Qed.

(** C36: the recursion of the decoder is bounded by the depth limit: with any fuel
    from [MaxDepth + 1] on it returns the same result, so the fuel [Decode] gives
    is never what stops it. *)
Theorem decode_fuel_enough fuel opts bs :
  0 <= MaxDepth opts -> MaxDepth opts < Z.of_nat fuel ->
  readValue (decode_fuel (MaxDepth opts)) 0 (Decoder bs (MaxDepth opts) (MaxItems opts) 0 0) =
  readValue fuel 0 (Decoder bs (MaxDepth opts) (MaxItems opts) 0 0).
Proof using Type. intros H0 Hf. apply readValue_fuel; simpl; unfold decode_fuel; lia. Qed.
End theorems.

(** ** Witnesses *)
Definition sample_value : Value :=
  VMap [("b"%string, VArray [VInt KInt (-5); VNil; VBool true]);
        ("aa"%string, VBytes (to_bytes "x")); ("a"%string, VUint KUint8 7)].
Definition sample_value' : Value :=
  VMap [("a"%string, VUint KUint8 7); ("b"%string, VArray [VInt KInt (-5); VNil; VBool true]);
        ("aa"%string, VBytes (to_bytes "x"))].
Definition sample_bytes : bytes :=
  map to_byte [163; 97; 97; 7; 97; 98; 131; 36; 246; 245; 98; 97; 97; 65; 120].

Lemma canonical_roundtrip_witness :
  Encode (N := id_normalizer) sample_value DefaultOptions = Ok sample_bytes /\
  Decode (N := id_normalizer) sample_bytes DefaultOptions = Ok (canon (N := id_normalizer) sample_value).
Proof.
  split; [vm_compute; reflexivity|].
  apply (canonical_roundtrip (N := id_normalizer) (NL := id_normalizer_laws)
           sample_value DefaultOptions sample_bytes); [done|vm_compute; reflexivity].
Defined.

Lemma canonical_unique_witness :
  Encode (N := id_normalizer) (canon (N := id_normalizer) sample_value) DefaultOptions = Ok sample_bytes.
Proof.
  apply (canonical_unique (N := id_normalizer) (NL := id_normalizer_laws)).
  vm_compute. reflexivity.
Defined.

Lemma encode_order_irrelevant_witness :
  Encode (N := id_normalizer) sample_value' DefaultOptions = Ok sample_bytes.
Proof.
  apply (encode_order_irrelevant (N := id_normalizer) (NL := id_normalizer_laws) sample_value).
  - eapply same_map with (m' := _ :: [_; _]).
    + etrans; [apply (Permutation_app_comm [_; _] [_])|]. simpl. reflexivity.
    + repeat constructor.
  - vm_compute. reflexivity.
Defined.

Definition sample_digest : string :=
  default ""%string (match StructuredDigest (N := id_normalizer) "cell-state" 1 sample_value with
                     | Ok s => Some s | Err _ => None end).

Lemma structured_digest_binding_witness :
  StructuredDigest (N := id_normalizer) "cell-state" 1 sample_value = Ok sample_digest /\
  (canon (N := id_normalizer) sample_value = canon (N := id_normalizer) sample_value' \/
   exists bs bs', bs <> bs' /\ sha256_Sum256 bs = sha256_Sum256 bs').
Proof.
  split; [vm_compute; reflexivity|].
  destruct (structured_digest_binding (N := id_normalizer) (NL := id_normalizer_laws)
    "cell-state" 1 sample_value "cell-state" 1 sample_value' sample_digest) as [(_ & _ & H)|H].
  - vm_compute. reflexivity.
  - vm_compute. reflexivity.
  - left. exact H.
  - right. exact H.
Defined.

Lemma normalized_set_spec_witness :
  NormalizeStringSet (N := id_normalizer) ["b"; "a"; "ab"]%string = Ok ["a"; "ab"; "b"]%string /\
  NormalizeStringSet (N := id_normalizer) ["a"; "b"; "ab"]%string = Ok ["a"; "ab"; "b"]%string.
Proof.
  split; [vm_compute; reflexivity|].
  apply (normalized_set_spec (N := id_normalizer) (NL := id_normalizer_laws)
    ["b"; "a"; "ab"]%string ["a"; "b"; "ab"]%string).
  - apply perm_swap.
  - vm_compute. reflexivity.
Defined.

Lemma decode_fuel_enough_witness :
  readValue (N := id_normalizer) (decode_fuel 4) 0 (Decoder sample_bytes 4 100 0 0) =
  readValue (N := id_normalizer) 1000 0 (Decoder sample_bytes 4 100 0 0).
Proof.
  apply (decode_fuel_enough (N := id_normalizer) 1000
    {| MaxBytes := 1000; MaxDepth := 4; MaxItems := 100 |}); simpl; lia.
Defined.
