(* ===== verification/Identity.v ===== *)
(** * Identities ([internal/identity/id.go])

    Typed identities: a declared kind, an underscore and sixteen bytes of
    entropy in unpadded base32.  The random source is the bytes it will still
    deliver; [io.ReadFull] fails when they are not enough. *)

From S2P Require Import Prelude GoText GoCrypto.

Definition entropyBytes : nat := 16.

(** [type Kind string] and its declared values. *)
Definition Kind := string.
Definition declaredKinds : list Kind :=
  [ "tenant"; "subject"; "sess"; "turn"; "effect"; "inv"; "ws"; "sandbox"; "proc"; "lease";
    "commit"; "op"; "req"; "artifact"; "runtime"; "env"; "policy" ]%string.

Record ID := MkID { id_kind : Kind; id_value : string }.

#[global] Instance ID_eq_dec : EqDecision ID.
Proof. solve_decision. Defined.
#[global] Instance ID_countable : Countable ID.
Proof.
  refine (inj_countable' (fun i => (id_kind i, id_value i)) (fun p => MkID p.1 p.2) _). by intros [].
Defined.

Inductive id_error :=
| ErrUndeclaredKind | ErrEntropy | ErrShape | ErrEncoding | ErrKindMismatch | ErrEmptyIdentity.

#[global] Instance id_error_eq_dec : EqDecision id_error.
Proof. solve_decision. Defined.

(** [for _, declared := range declaredKinds] *)
Definition isDeclaredKind (kind : Kind) : bool :=
  existsb (fun declared => bool_decide (kind = declared)) declaredKinds.

Definition AllKinds : list Kind := declaredKinds.

(** [string(kind) + "_" + encoded] *)
Definition id_text (kind : Kind) (encoded : string) : string :=
  (kind ++ "_" ++ encoded)%string.

(** [Generator.New]; the generator's random source is threaded. *)
Definition New (random : bytes) (kind : Kind) : res id_error ID * bytes :=
  if negb (isDeclaredKind kind) then (Err ErrUndeclaredKind, random)
  else match io_ReadFull entropyBytes random with
  | None => (Err ErrEntropy, [])
  | Some (entropy, random') =>
      (Ok {| id_kind := kind; id_value := id_text kind (base32_EncodeToString entropy) |}, random')
  end.

(** [strings.Cut(value, "_")]: before, after, found. *)
Fixpoint cut_underscore (bs : bytes) : bytes * bytes * bool :=
  match bs with
  | [] => ([], [], false)
  | b :: bs' =>
      if byte_val b =? 95 then ([], bs', true)
      else let '(before, after, found) := cut_underscore bs' in (b :: before, after, found)
  end.
Definition strings_Cut (value : string) : string * string * bool :=
  let '(before, after, found) := cut_underscore (to_bytes value) in
  if found then (of_bytes before, of_bytes after, true) else (value, ""%string, false).

Definition parseID (value : string) : res id_error ID :=
  let '(prefix, encoded, found) := strings_Cut value in
  if negb found || bool_decide (prefix = ""%string) || negb (strlen encoded =? 26)
  then Err ErrShape
  else if negb (isDeclaredKind prefix) then Err ErrUndeclaredKind
  else match base32_DecodeString encoded with
  | None => Err ErrEncoding
  | Some decoded =>
      if negb (zlen decoded =? 16) || bool_decide (base32_EncodeToString decoded <> encoded)
      then Err ErrEncoding
      else Ok {| id_kind := prefix; id_value := value |}
  end.

Definition Parse (expected : Kind) (value : string) : res id_error ID :=
  if negb (isDeclaredKind expected) then Err ErrUndeclaredKind
  else id ← parseID value;
       if bool_decide (id_kind id <> expected) then Err ErrKindMismatch else Ok id.

Definition MarshalText (id : ID) : res id_error bytes :=
  if bool_decide (id_value id = ""%string) then Err ErrEmptyIdentity else Ok (to_bytes (id_value id)).

(** [UnmarshalText] assigns through its receiver: the error and the receiver after. *)
Definition UnmarshalText (id : ID) (text : bytes) : option id_error * ID :=
  match parseID (of_bytes text) with
  | Err err => (Some err, id)
  | Ok parsed => (None, parsed)
  end.

(** ** Lemmas *)

(** What an identity of a kind is. *)
Definition well_formed_id (kind : Kind) (value : string) : Prop :=
  isDeclaredKind kind = true /\
  exists entropy, length entropy = entropyBytes /\ value = id_text kind (base32_EncodeToString entropy).

Lemma cut_underscore_prefix before after :
  Forall (fun b => byte_val b <> 95) before ->
  cut_underscore (before ++ to_byte 95 :: after) = (before, after, true).
Proof.
  induction 1 as [|b before Hb _ IH]; [done|]. simpl. apply Z.eqb_neq in Hb. by rewrite Hb, IH.
Qed.

Lemma cut_underscore_found bs before after :
  cut_underscore bs = (before, after, true) -> bs = before ++ to_byte 95 :: after.
Proof.
  revert before after. induction bs as [|b bs IH]; intros before after; simpl; [done|].
  case_match eqn:Hb.
  - intros [= <- <-]. apply Z.eqb_eq in Hb. change 95 with (byte_val (to_byte 95)) in Hb.
    apply byte_val_inj in Hb. by subst.
  - destruct (cut_underscore bs) as [[b0 a0] f0]. intros [= <- <- ->].
    simpl. f_equal. by apply IH.
Qed.

Lemma declared_kind_letters kind :
  isDeclaredKind kind = true ->
  kind <> ""%string /\ Forall (fun b => byte_val b <> 95) (to_bytes kind).
Proof.
  intros (k & Hk & ->%bool_decide_eq_true)%existsb_exists. revert k Hk.
  apply List.Forall_forall. repeat constructor; vm_compute; congruence.
Qed.

Lemma strings_Cut_id_text kind encoded :
  isDeclaredKind kind = true -> strings_Cut (id_text kind encoded) = (kind, encoded, true).
Proof.
  intros [_ Hk]%declared_kind_letters. unfold strings_Cut, id_text.
  rewrite to_bytes_append.
  change (to_bytes ("_" ++ encoded)%string) with (to_byte 95 :: to_bytes encoded).
  rewrite cut_underscore_prefix by done.
  by rewrite !of_to_bytes.
Qed.

Lemma parseID_generated kind entropy :
  isDeclaredKind kind = true -> length entropy = entropyBytes ->
  parseID (id_text kind (base32_EncodeToString entropy)) =
  Ok (MkID kind (id_text kind (base32_EncodeToString entropy))).
Proof.
  intros Hk Hlen. unfold parseID. rewrite strings_Cut_id_text, Hk by done.
  destruct (declared_kind_letters kind Hk) as [Hne _].
  rewrite bool_decide_eq_false_2 by done. rewrite <- zlen_to_bytes.
  unfold zlen. rewrite length_base32_encode, base32_decode_encode, Hlen by done. simpl.
  by rewrite bool_decide_eq_false_2 by naive_solver.
Qed.

Lemma parseID_ok value id :
  parseID value = Ok id <-> well_formed_id (id_kind id) value /\ id_value id = value.
Proof.
  split.
  - unfold parseID, strings_Cut. destruct (cut_underscore (to_bytes value)) as [[p e] []] eqn:Hcut;
      [|done]. apply cut_underscore_found in Hcut.
    case_match; [done|]. case_match eqn:Hdecl; [done|]. case_match eqn:Hdec; [|done].
    case_match eqn:Henc; [done|]. intros [= <-]. simpl. split; [|done].
    apply negb_false_iff in Hdecl. split; [done|].
    apply orb_false_elim in Henc as [Hl He]. apply negb_false_iff, Z.eqb_eq in Hl.
    apply bool_decide_eq_false, dec_stable in He.
    eexists. split; [|rewrite He].
    + unfold zlen, entropyBytes in *. lia.
    + apply (inj to_bytes). rewrite Hcut. unfold id_text. rewrite !to_bytes_append, !to_of_bytes.
      reflexivity.
  - intros [(Hk & entropy & Hlen & ->) Hv]. destruct id as [k v]. simpl in *. subst v.
    by apply parseID_generated.
Qed.

(** [Parse] accepts exactly the texts the generator can produce for the
    expected kind, each as the identity of that kind with that text. *)
Theorem parse_accepts_exactly_generated expected value id :
  Parse expected value = Ok id <->
  id = MkID expected value /\ isDeclaredKind expected = true /\
  exists random random', New random expected = (Ok id, random').
Proof.
  unfold Parse, New. destruct (isDeclaredKind expected) eqn:Hk; simpl; [|naive_solver].
  rewrite bind_ok. setoid_rewrite parseID_ok. unfold well_formed_id. split.
  - intros (id' & [(_ & entropy & Hlen & ->) Hv] & Hif). case_bool_decide as Hd; [done|].
    simplify_eq. destruct id as [k v]. simpl in *. subst v.
    split_and!; [done..|]. exists entropy, []. unfold io_ReadFull.
    rewrite Hlen, Nat.leb_refl, <- Hlen, take_ge, drop_ge by done. done.
  - intros (-> & _ & random & random' & Hn). unfold io_ReadFull in Hn.
    destruct (entropyBytes <=? length random)%nat eqn:Hlen; simplify_eq.
    exists (MkID expected (id_text expected (base32_EncodeToString (take entropyBytes random)))).
    simpl. rewrite bool_decide_eq_false_2 by naive_solver. split; [|done].
    split_and!; [done| |done]. exists (take entropyBytes random). split; [|done].
    apply Nat.leb_le in Hlen. by rewrite length_take_le.
Qed.

(** A generated identity survives every textual round trip, and the text
    determines both the kind and the entropy it was generated from. *)
Theorem generated_identity_roundtrip random random' kind id receiver :
  New random kind = (Ok id, random') ->
  Parse kind (id_value id) = Ok id /\
  (exists text, MarshalText id = Ok text /\ UnmarshalText receiver text = (None, id)) /\
  (forall kind2 random2 random2' id2,
     New random2 kind2 = (Ok id2, random2') -> id_value id2 = id_value id ->
     kind2 = kind /\ take entropyBytes random2 = take entropyBytes random).
Proof.
  unfold New, io_ReadFull. intros Hnew.
  destruct (isDeclaredKind kind) eqn:Hk; cbn [negb] in Hnew; [|done].
  destruct (entropyBytes <=? length random)%nat eqn:Hlen; simplify_eq.
  apply Nat.leb_le in Hlen. set (entropy := take entropyBytes random).
  assert (He : length entropy = entropyBytes) by (by apply length_take_le).
  pose proof (parseID_generated kind entropy Hk He) as Hp. split_and!.
  - unfold Parse. rewrite Hk. cbn [negb id_value]. rewrite Hp. simpl. by rewrite bool_decide_eq_false_2 by naive_solver.
  - unfold MarshalText, UnmarshalText. cbn [id_value].
    rewrite bool_decide_eq_false_2 by (unfold id_text; by destruct kind).
    eexists. split; [done|]. by rewrite of_to_bytes, Hp.
  - intros kind2 random2 random2' id2 Hnew2 Heq.
    destruct (isDeclaredKind kind2) eqn:Hk2; cbn [negb] in Hnew2; [|done].
    destruct (entropyBytes <=? length random2)%nat eqn:Hlen2; simplify_eq. apply Nat.leb_le in Hlen2.
    cbn [id_value] in Heq.
    pose proof (strings_Cut_id_text kind2 (base32_EncodeToString (take entropyBytes random2)) Hk2) as Hc2.
    pose proof (strings_Cut_id_text kind (base32_EncodeToString entropy) Hk) as Hc.
    rewrite Heq, Hc in Hc2.
    injection Hc2 as -> Henc. split; [done|].
    apply (f_equal base32_DecodeString) in Henc.
    rewrite !base32_decode_encode in Henc by (done || by apply length_take_le). by injection Henc.
Qed.

(** ** Witnesses *)
Definition sample_entropy : bytes := map to_byte [1; 2; 3; 4; 5; 6; 7; 8; 9; 10; 11; 12; 13; 14; 15; 16; 17].

Lemma generated_identity_roundtrip_witness :
  exists id, New sample_entropy "sess" = (Ok id, [to_byte 17]) /\ Parse "sess" (id_value id) = Ok id.
Proof.
  eexists. split; [vm_compute; reflexivity|].
  apply (generated_identity_roundtrip sample_entropy [to_byte 17] "sess" _ (MkID "" "")).
  vm_compute. reflexivity.
Defined.
