(* ===== verification/Celld.v ===== *)
(** * The celld host ([internal/celld/types.go], [internal/celld/host.go])

    [Host.Execute] runs one command of an aggregate inside an object
    transaction, with idempotency receipts, a durability barrier and sealed
    permits.  The interfaces [Aggregate], [Transaction], [Storage] and
    [PermitSealer] are records of operations; [StorageContract] states what a
    storage promises, and the host is verified against that contract. *)

From S2P Require Import Prelude GoText GoCrypto.

(** ** Types *)
Inductive celld_error :=
| ErrInvalidConfig | ErrInvalidRequest | ErrCommandTooLarge | ErrStateTooLarge
| ErrResponseTooLarge | ErrCapabilityClaimsTooLarge | ErrIdempotencyConflict
| ErrInvalidAggregateOutput | ErrCorruptReceipt | ErrStorageContract | ErrDurabilityBarrier
| ErrInvalidPermit | ErrPermitTooLarge.

(** The errors [Execute] returns: its own sentinels, and those of the context,
    the aggregate, the storage and the fault injector, which it passes on. *)
Inductive error (EA : Type) : Type :=
| CelldErr (e : celld_error)
| AggregateErr (e : EA)
| StorageErr
| ContextErr
| InjectedErr.
Arguments CelldErr {EA} _.
Arguments AggregateErr {EA} _.
Arguments StorageErr {EA}.
Arguments ContextErr {EA}.
Arguments InjectedErr {EA}.

(** [Digest] is a [[32]byte]. *)
Definition Digest := bytes.

Record Limits := MkLimits {
  MaxCommandBytes : Z;
  MaxStateBytes : Z;
  MaxResponseBytes : Z;
  MaxCapabilityClaims : Z;
  MaxCapabilityClaimBytes : Z;
}.

Record RawCapabilityClaims := MkClaims { claim_Kind : string; claim_Payload : bytes }.

Record ApplyResult := MkApplyResult {
  NextState : bytes;
  Response : bytes;
  CapabilityClaims : list RawCapabilityClaims;
}.

Record StoredReceipt := MkReceipt {
  sr_CommandDigest : Digest;
  sr_Response : bytes;
  sr_CapabilityClaims : list RawCapabilityClaims;
}.
Definition no_receipt : StoredReceipt := MkReceipt [] [] [].

Record CommitToken := MkToken { ObjectID : string; Revision : Z }.

Record PermitBinding := MkBinding {
  pb_ObjectID : string;
  pb_CommandID : string;
  pb_CommandDigest : Digest;
  pb_ClaimIndex : Z;
}.

Record SealedPermit := MkPermit { token : bytes }.

Inductive FaultPoint :=
| FaultBeforeCommit | FaultAfterCommit | FaultBeforeBarrier | FaultAfterBarrier
| FaultBeforeResponse.

Record Request := MkRequest { req_ObjectID : string; req_CommandID : string; req_Command : bytes }.

Record Result := MkResult {
  r_CommandDigest : Digest;
  r_Response : bytes;
  r_Permits : list SealedPermit;
  r_CommitRevision : Z;
  r_Replayed : bool;
  r_Durable : bool;
}.

#[global] Instance claims_eq_dec : EqDecision RawCapabilityClaims.
Proof. solve_decision. Defined.
#[global] Instance receipt_eq_dec : EqDecision StoredReceipt.
Proof. solve_decision. Defined.

(** A [context.Context]: whether its [Err()] is non-nil where it is asked.  The
    answers at different sites are independent, since a context can expire
    between any two of them. *)
Inductive ctx_site := AtExecute | AtTransaction | AtBarrier | AtSeal (claim : Z).
Definition Context := ctx_site -> bool.
Definition Background : Context := fun _ => false.

(** The interface [Aggregate]; the contract of its methods makes them pure. *)
Record Aggregate (EA : Type) := MkAggregate {
  ValidateCommand : bytes -> res EA unit;
  ValidateState : bytes -> res EA unit;
  Authorize : bytes -> bytes -> res EA unit;
  Apply : bytes -> bytes -> res EA ApplyResult;
}.
Arguments ValidateCommand {EA} _ _.
Arguments ValidateState {EA} _ _.
Arguments Authorize {EA} _ _ _.
Arguments Apply {EA} _ _ _.

(** The variables of [Execute] that the transaction callback assigns. *)
Record captured := Captured { cap_receipt : StoredReceipt; cap_replayed : bool; cap_invoked : bool }.
Definition not_invoked : captured := Captured no_receipt false false.

(** The interfaces [Transaction] and [Storage].  The callback gets the
    transaction (nil is [None]) and the captured variables; [Tx] is the staged
    read/write set it leaves. *)
Record TransactionOps (EA Tx : Type) := MkTransactionOps {
  ReadState : Tx -> res (error EA) bytes;
  LookupReceipt : Tx -> string -> res (error EA) (option StoredReceipt);
  WriteState : Tx -> bytes -> res (error EA) Tx;
  WriteReceipt : Tx -> string -> StoredReceipt -> res (error EA) Tx;
}.
Arguments ReadState {EA Tx} _ _.
Arguments LookupReceipt {EA Tx} _ _ _.
Arguments WriteState {EA Tx} _ _ _.
Arguments WriteReceipt {EA Tx} _ _ _ _.

Definition tx_callback (EA Tx : Type) : Type :=
  option Tx -> captured -> res (error EA) (option Tx) * captured.

Record Storage (EA St Tx : Type) := MkStorage {
  tx_ops : TransactionOps EA Tx;
  Transaction : Context -> St -> string -> tx_callback EA Tx -> captured ->
                res (error EA) CommitToken * St * captured;
  DurabilityBarrier : Context -> St -> CommitToken -> res (error EA) unit * St;
}.
Arguments tx_ops {EA St Tx} _.
Arguments Transaction {EA St Tx} _ _ _ _ _ _.
Arguments DurabilityBarrier {EA St Tx} _ _ _ _.

Definition PermitSealer (EA : Type) : Type :=
  Context -> PermitBinding -> RawCapabilityClaims -> res (error EA) SealedPermit.

(** [Inject] at a point returns a non-nil error. *)
Definition FaultInjector := FaultPoint -> bool.

Record Config (EA St Tx : Type) := MkConfig {
  cfg_Storage : option (Storage EA St Tx);
  cfg_Aggregate : option (Aggregate EA);
  cfg_Sealer : option (PermitSealer EA);
  cfg_Limits : Limits;
  cfg_FaultInjector : option FaultInjector;
}.
Arguments MkConfig {EA St Tx} _ _ _ _ _.
Arguments cfg_Storage {EA St Tx} _.
Arguments cfg_Aggregate {EA St Tx} _.
Arguments cfg_Sealer {EA St Tx} _.
Arguments cfg_Limits {EA St Tx} _.
Arguments cfg_FaultInjector {EA St Tx} _.

Record Host (EA St Tx : Type) := MkHost {
  storage : option (Storage EA St Tx);
  aggregate : option (Aggregate EA);
  sealer : option (PermitSealer EA);
  limits : Limits;
  faultInjector : option FaultInjector;
}.
Arguments MkHost {EA St Tx} _ _ _ _ _.
Arguments storage {EA St Tx} _.
Arguments aggregate {EA St Tx} _.
Arguments sealer {EA St Tx} _.
Arguments limits {EA St Tx} _.
Arguments faultInjector {EA St Tx} _.

(** ** The host *)
Definition defaultMaxCommandBytes : Z := Z.shiftl 8 20.
Definition defaultMaxStateBytes : Z := Z.shiftl 32 20.
Definition defaultMaxResponseBytes : Z := Z.shiftl 8 20.
Definition defaultMaxCapabilityClaims : Z := 8.
Definition defaultMaxCapabilityClaimBytes : Z := Z.shiftl 1 20.
Definition maxProtocolIdentifierBytes : Z := 256.

(** [if limit == 0 { limit = fallback }] *)
Definition or_default (limit fallback : Z) : Z := if limit =? 0 then fallback else limit.

Definition negative_limits (l : Limits) : bool :=
  (MaxCommandBytes l <? 0) || (MaxStateBytes l <? 0) || (MaxResponseBytes l <? 0)
  || (MaxCapabilityClaims l <? 0) || (MaxCapabilityClaimBytes l <? 0).

Definition with_defaults (l : Limits) : Limits :=
  MkLimits (or_default (MaxCommandBytes l) defaultMaxCommandBytes)
    (or_default (MaxStateBytes l) defaultMaxStateBytes)
    (or_default (MaxResponseBytes l) defaultMaxResponseBytes)
    (or_default (MaxCapabilityClaims l) defaultMaxCapabilityClaims)
    (or_default (MaxCapabilityClaimBytes l) defaultMaxCapabilityClaimBytes).

Definition is_nil {A} (o : option A) : bool := match o with None => true | Some _ => false end.

Definition NewHost {EA St Tx} (config : Config EA St Tx) : res celld_error (Host EA St Tx) :=
  if is_nil (cfg_Storage config) || is_nil (cfg_Aggregate config) || is_nil (cfg_Sealer config)
  then Err ErrInvalidConfig
  else if negative_limits (cfg_Limits config) then Err ErrInvalidConfig
  else
    let limits := with_defaults (cfg_Limits config) in
    if 2 ^ 32 - 1 <? u64 (MaxCapabilityClaims limits) then Err ErrInvalidConfig
    else Ok (MkHost (cfg_Storage config) (cfg_Aggregate config) (cfg_Sealer config) limits
               (cfg_FaultInjector config)).

Section host.
Context {N : Normalizer}.

Definition validProtocolIdentifier (value : string) : bool :=
  if bool_decide (value = ""%string) || negb (utf8_ValidString value)
     || bool_decide (nfc value <> value) || (maxProtocolIdentifierBytes <? strlen value)
  then false else negb (has_control value).

(** The loop over the claims of a stored receipt. *)
Fixpoint stored_claims_ok (limit totalClaimBytes : Z) (claims : list RawCapabilityClaims) : bool :=
  match claims with
  | [] => true
  | claim :: claims' =>
      if negb (validProtocolIdentifier (claim_Kind claim)) || (zlen (claim_Payload claim) =? 0)
         || (limit - totalClaimBytes <? zlen (claim_Payload claim))
      then false
      else stored_claims_ok limit (totalClaimBytes + zlen (claim_Payload claim)) claims'
  end.

(** The loop over the claims an aggregate returned. *)
Fixpoint check_applied_claims (limit totalClaimBytes : Z) (claims : list RawCapabilityClaims)
    : res celld_error unit :=
  match claims with
  | [] => Ok tt
  | claim :: claims' =>
      if negb (validProtocolIdentifier (claim_Kind claim)) || (zlen (claim_Payload claim) =? 0)
      then Err ErrInvalidAggregateOutput
      else if limit - totalClaimBytes <? zlen (claim_Payload claim) then Err ErrCapabilityClaimsTooLarge
      else check_applied_claims limit (totalClaimBytes + zlen (claim_Payload claim)) claims'
  end.

Context {EA St Tx : Type}.

(** [if host.faultInjector != nil { if err := Inject(point); err != nil { return err } }] *)
Definition inject (faults : option FaultInjector) (point : FaultPoint) : res (error EA) unit :=
  match faults with
  | Some f => reject_if (f point) InjectedErr
  | None => Ok tt
  end.

(** The branch of the callback for a command that has a receipt. *)
Definition replay_receipt (lim : Limits) (commandDigest : Digest) (stored : StoredReceipt)
    : res (error EA) unit :=
  if bool_decide (sr_CommandDigest stored <> commandDigest) then Err (CelldErr ErrIdempotencyConflict)
  else if (MaxResponseBytes lim <? zlen (sr_Response stored))
          || (MaxCapabilityClaims lim <? zlen (sr_CapabilityClaims stored))
  then Err (CelldErr ErrCorruptReceipt)
  else if negb (stored_claims_ok (MaxCapabilityClaimBytes lim) 0 (sr_CapabilityClaims stored))
  then Err (CelldErr ErrCorruptReceipt)
  else Ok tt.

(** The branch for a new command, up to the writes: the next state and the receipt. *)
Definition apply_command (agg : Aggregate EA) (lim : Limits) (commandDigest : Digest)
    (state command : bytes) : res (error EA) (bytes * StoredReceipt) :=
  applied ← lift_err AggregateErr (Apply agg state command);
  if MaxStateBytes lim <? zlen (NextState applied) then Err (CelldErr ErrStateTooLarge)
  else if MaxResponseBytes lim <? zlen (Response applied) then Err (CelldErr ErrResponseTooLarge)
  else if MaxCapabilityClaims lim <? zlen (CapabilityClaims applied)
  then Err (CelldErr ErrCapabilityClaimsTooLarge)
  else
    _ ← lift_err CelldErr (check_applied_claims (MaxCapabilityClaimBytes lim) 0 (CapabilityClaims applied));
    _ ← lift_err AggregateErr (ValidateState agg (NextState applied));
    Ok (NextState applied, MkReceipt commandDigest (Response applied) (CapabilityClaims applied)).

(** The checks on the state the transaction reads. *)
Definition admit_state (agg : Aggregate EA) (lim : Limits) (state command : bytes)
    : res (error EA) unit :=
  _ ← reject_if (MaxStateBytes lim <? zlen state) (CelldErr ErrStateTooLarge);
  _ ← lift_err AggregateErr (ValidateState agg state);
  lift_err AggregateErr (Authorize agg state command).

(** The reads of the callback and their checks: the state and the stored receipt. *)
Definition load_command (ops : TransactionOps EA Tx) (agg : Aggregate EA) (lim : Limits)
    (commandID : string) (command : bytes) (tx : Tx)
    : res (error EA) (bytes * option StoredReceipt) :=
  state ← ReadState ops tx;
  _ ← admit_state agg lim state command;
  stored ← LookupReceipt ops tx commandID;
  Ok (state, stored).

(** The callback: the error or the transaction it leaves, and the variables it
    assigned on the way ([replayed] is never reset). *)
Definition execute_callback (ops : TransactionOps EA Tx) (agg : Aggregate EA) (lim : Limits)
    (faults : option FaultInjector) (commandID : string) (command : bytes) (commandDigest : Digest)
    : tx_callback EA Tx := fun transaction cap =>
  let cap := Captured (cap_receipt cap) (cap_replayed cap) true in
  match transaction with
  | None => (Err (CelldErr ErrStorageContract), cap)
  | Some tx =>
      match load_command ops agg lim commandID command tx with
      | Err e => (Err e, cap)
      | Ok (_, Some stored) =>
          match replay_receipt lim commandDigest stored with
          | Err e => (Err e, cap)
          | Ok _ =>
              (_ ← inject faults FaultBeforeCommit; Ok (Some tx), Captured stored true true)
          end
      | Ok (state, None) =>
          match apply_command agg lim commandDigest state command with
          | Err e => (Err e, cap)
          | Ok (nextState, receipt) =>
              (tx1 ← WriteState ops tx nextState;
               tx2 ← WriteReceipt ops tx1 commandID receipt;
               _ ← inject faults FaultBeforeCommit;
               Ok (Some tx2), Captured receipt (cap_replayed cap) true)
          end
      end
  end.

(** The loop that seals the claims of the receipt. *)
Fixpoint seal_permits (seal : PermitSealer EA) (ctx : Context) (objectID commandID : string)
    (commandDigest : Digest) (index : Z) (claims : list RawCapabilityClaims)
    : res (error EA) (list SealedPermit) :=
  match claims with
  | [] => Ok []
  | claim :: claims' =>
      permit ← seal ctx (MkBinding objectID commandID commandDigest (u32 index)) claim;
      if zlen (token permit) =? 0 then Err (CelldErr ErrInvalidPermit)
      else permits ← seal_permits seal ctx objectID commandID commandDigest (index + 1) claims';
           Ok (permit :: permits)
  end.

(** What [Execute] does after the durability barrier. *)
Definition finish (seal : PermitSealer EA) (faults : option FaultInjector) (ctx : Context)
    (request : Request) (commandDigest : Digest) (commit : CommitToken) (cap : captured)
    : res (error EA) Result :=
  _ ← inject faults FaultAfterBarrier;
  permits ← seal_permits seal ctx (req_ObjectID request) (req_CommandID request) commandDigest 0
              (sr_CapabilityClaims (cap_receipt cap));
  _ ← inject faults FaultBeforeResponse;
  Ok (MkResult commandDigest (sr_Response (cap_receipt cap)) permits (Revision commit)
        (cap_replayed cap) true).

(** The checks of [Execute] before the transaction. *)
Definition check_request (agg : Aggregate EA) (lim : Limits) (request : Request)
    : res (error EA) unit :=
  if negb (validProtocolIdentifier (req_ObjectID request))
     || negb (validProtocolIdentifier (req_CommandID request)) || (zlen (req_Command request) =? 0)
  then Err (CelldErr ErrInvalidRequest)
  else if MaxCommandBytes lim <? zlen (req_Command request) then Err (CelldErr ErrCommandTooLarge)
  else lift_err AggregateErr (ValidateCommand agg (req_Command request)).

Definition Execute (host : option (Host EA St Tx)) (ctx : Context) (st : St) (request : Request)
    : res (error EA) Result * St :=
  if ctx AtExecute then (Err ContextErr, st)
  else match host with
  | Some (MkHost (Some sto) (Some agg) (Some seal) lim faults) =>
      match check_request agg lim request with
      | Err e => (Err e, st)
      | Ok _ =>
          let command := req_Command request in
          let commandDigest := sha256_Sum256 command in
          let '(committed, st1, cap) :=
            Transaction sto ctx st (req_ObjectID request)
              (execute_callback (tx_ops sto) agg lim faults (req_CommandID request) command commandDigest)
              not_invoked in
          match committed with
          | Err e => (Err e, st1)
          | Ok commit =>
              if negb (cap_invoked cap) || bool_decide (ObjectID commit <> req_ObjectID request)
                 || (Revision commit =? 0)
              then (Err (CelldErr ErrStorageContract), st1)
              else match (_ ← inject faults FaultAfterCommit; inject faults FaultBeforeBarrier) with
              | Err e => (Err e, st1)
              | Ok _ =>
                  let '(durable, st2) := DurabilityBarrier sto ctx st1 commit in
                  match durable with
                  | Err _ => (Err (CelldErr ErrDurabilityBarrier), st2)
                  | Ok _ => (finish seal faults ctx request commandDigest commit cap, st2)
                  end
              end
          end
      end
  | _ => (Err (CelldErr ErrInvalidConfig), st)
  end.
End host.
