(* ===== verification/CelldContract.v ===== *)
(** * The contract of a celld storage, and the host above it

    The contract of a storage, the abstract object it implements, and the
    lemmas about [Execute] for every storage that keeps the contract. *)

From S2P Require Import Prelude GoText GoCrypto Celld.

(** ** The abstract object

    What a storage keeps for one object: the aggregate's state, the receipts of
    its commands and a revision. *)
Record object := MkObject {
  obj_state : bytes;
  obj_receipts : gmap string StoredReceipt;
  obj_revision : Z;
}.
Definition empty_object : object := MkObject [] ∅ 0.

(** The staged read/write set of a transaction. *)
Record staged := MkStaged {
  stg_base : object;
  stg_state : option bytes;
  stg_receipts : gmap string StoredReceipt;
}.
Definition staged_state (t : staged) : bytes := default (obj_state (stg_base t)) (stg_state t).
Definition staged_receipts (t : staged) : gmap string StoredReceipt :=
  stg_receipts t ∪ obj_receipts (stg_base t).
Definition commit_staged (t : staged) : object :=
  MkObject (staged_state t) (staged_receipts t) (u64 (obj_revision (stg_base t) + 1)).

(** ** The contract of a storage

    [view] is the abstraction function.  A transaction commits the writes of one
    complete run of the callback on the current object and touches no other
    object; the variables it is started with are not constrained, since the
    storage may have run the callback before.  A transaction that reports an
    error either left everything as it was or lost the answer of a commit. *)
Class StorageContract {EA St Tx} (sto : Storage EA St Tx) := {
  view : St -> string -> object;
  stage : Tx -> staged;
  commits (st st' : St) (id : string) (cb : tx_callback EA Tx) (cap' : captured) : Prop :=
    exists tx0 cap0 tx1,
      stage tx0 = MkStaged (view st id) None ∅ /\ cb (Some tx0) cap0 = (Ok (Some tx1), cap') /\
      view st' id = commit_staged (stage tx1) /\ forall id', id' <> id -> view st' id' = view st id';
  read_law tx b : ReadState (tx_ops sto) tx = Ok b -> b = staged_state (stage tx);
  lookup_law tx id r :
    LookupReceipt (tx_ops sto) tx id = Ok r -> r = staged_receipts (stage tx) !! id;
  write_state_law tx b tx' :
    WriteState (tx_ops sto) tx b = Ok tx' ->
    stage tx' = MkStaged (stg_base (stage tx)) (Some b) (stg_receipts (stage tx));
  write_receipt_law tx id r tx' :
    WriteReceipt (tx_ops sto) tx id r = Ok tx' ->
    stage tx' = MkStaged (stg_base (stage tx)) (stg_state (stage tx)) (<[id := r]> (stg_receipts (stage tx)));
  transaction_law ctx st id cb cap r st' cap' :
    Transaction sto ctx st id cb cap = (r, st', cap') ->
    match r with
    | Ok tok => commits st st' id cb cap' /\ Revision tok = obj_revision (view st' id)
    | Err _ => (forall id', view st' id' = view st id') \/ exists cap1, commits st st' id cb cap1
    end;
  barrier_law ctx st tok r st' :
    DurabilityBarrier sto ctx st tok = (r, st') -> forall id, view st' id = view st id;
}.

(** ** The abstract step of a command on its object *)
Section spec.
Context {N : Normalizer} {EA : Type}.
Context (agg : Aggregate EA) (lim : Limits).

(** What the receipts, the authorisation and the aggregate make of a command:
    the state and the receipt after it, and whether it was a replay. *)
Definition object_outcome (o : object) (request : Request) : res (error EA) (bytes * StoredReceipt * bool) :=
  let digest := sha256_Sum256 (req_Command request) in
  _ ← admit_state agg lim (obj_state o) (req_Command request);
  match obj_receipts o !! req_CommandID request with
  | Some stored => _ ← replay_receipt lim digest stored; Ok (obj_state o, stored, true)
  | None =>
      '(next, receipt) ← apply_command agg lim digest (obj_state o) (req_Command request);
      Ok (next, receipt, false)
  end.

(** The step: state and receipt change together. *)
Definition object_step (o : object) (request : Request) (receipt : StoredReceipt) (replayed : bool)
    (o' : object) : Prop :=
  exists next, object_outcome o request = Ok (next, receipt, replayed) /\
    obj_state o' = next /\
    obj_receipts o' = <[req_CommandID request := receipt]> (obj_receipts o) /\
    obj_revision o' = u64 (obj_revision o + 1).

Lemma object_step_receipt o request receipt replayed o' :
  object_step o request receipt replayed o' ->
  sr_CommandDigest receipt = sha256_Sum256 (req_Command request) /\
  obj_receipts o' !! req_CommandID request = Some receipt /\
  obj_receipts o ⊆ obj_receipts o' /\
  (replayed = true -> obj_receipts o !! req_CommandID request = Some receipt /\ obj_state o' = obj_state o) /\
  (replayed = false -> obj_receipts o !! req_CommandID request = None).
Proof.
  intros (next & Hout & Hs & Hr & _). rewrite Hr, lookup_insert_eq.
  unfold object_outcome in Hout. apply bind_ok in Hout as (_ & _ & Hout).
  destruct (obj_receipts o !! req_CommandID request) as [stored|] eqn:Hl.
  - apply bind_ok in Hout as (u & Hrep & [= <- <- <-]).
    split_and!; try done.
    + unfold replay_receipt in Hrep. by case_bool_decide.
    + by rewrite insert_id.
  - apply bind_ok in Hout as ([n' r'] & Happ & [= <- <- <-]).
    split_and!; try done; [|by apply insert_subseteq].
    unfold apply_command in Happ. apply bind_ok in Happ as (applied & _ & Happ).
    repeat (case_match; [done|]). apply bind_ok in Happ as (_ & _ & Happ).
    apply bind_ok in Happ as (_ & _ & [= _ <-]). by subst.
Qed.

(** The claims of a receipt that a step used are within the limit. *)
Lemma object_step_claims o request receipt replayed o' :
  object_step o request receipt replayed o' ->
  zlen (sr_CapabilityClaims receipt) <= MaxCapabilityClaims lim.
Proof.
  intros (next & Hout & _). unfold object_outcome in Hout. apply bind_ok in Hout as (_ & _ & Hout).
  case_match.
  - apply bind_ok in Hout as (u & Hrep & [= _ <- _]). unfold replay_receipt in Hrep.
    case_match; [done|]. case_match eqn:Hl; [done|]. apply orb_false_elim in Hl as [_ Hl]. by apply Z.ltb_ge in Hl.
  - apply bind_ok in Hout as ([n r] & Happ & [= _ <- _]). unfold apply_command in Happ.
    apply bind_ok in Happ as (applied & _ & Happ). case_match; [done|]. case_match; [done|].
    case_match eqn:Hl; [done|]. inv_ok Happ. simplify_eq. by apply Z.ltb_ge in Hl.
Qed.
End spec.

Section theorems.
Context {N : Normalizer} {EA St Tx : Type}.
Context (sto : Storage EA St Tx) `{C : !StorageContract sto}.
Context (agg : Aggregate EA) (seal : PermitSealer EA) (lim : Limits).
Implicit Types (faults : option FaultInjector).

Definition host faults : option (Host EA St Tx) :=
  Some (MkHost (Some sto) (Some agg) (Some seal) lim faults).
#[local] Abbreviation callback faults request :=
  (execute_callback (tx_ops sto) agg lim faults (req_CommandID request) (req_Command request)
     (sha256_Sum256 (req_Command request))).

(** A committed run of the callback is the abstract step. *)
Lemma commits_step faults st st' request cap' :
  commits st st' (req_ObjectID request) (callback faults request) cap' ->
  cap_invoked cap' = true /\
  exists replayed, object_step agg lim (view st (req_ObjectID request)) request (cap_receipt cap') replayed
      (view st' (req_ObjectID request)) /\ (replayed = true -> cap_replayed cap' = true).
Proof using Type*.
  intros (tx0 & cap0 & tx1 & Hstage & Hcb & Hview & _). unfold execute_callback in Hcb.
  unfold object_step, object_outcome. destruct (load_command _ _ _ _ _ tx0) as [[state stored]|] eqn:Hload; [|done].
  unfold load_command in Hload. inv_ok Hload. injection Hload as -> ->.
  match goal with H : ReadState _ _ = _ |- _ => apply read_law in H as Hread end.
  match goal with H : LookupReceipt _ _ _ = _ |- _ => apply lookup_law in H as Hlook end.
  match goal with H : admit_state _ _ _ _ = _ |- _ => rename H into Hadm end.
  unfold staged_state, staged_receipts in *. rewrite Hstage in Hread, Hlook. simpl in Hread, Hlook.
  rewrite (left_id_L ∅ (∪)) in Hlook. subst state. destruct stored as [stored|].
  - destruct (replay_receipt _ _ _) as [[]|] eqn:Hrep; [|done]. injection Hcb as Hcb <-.
    apply bind_ok in Hcb as (_ & _ & [= <-]). split; [done|]. exists true. split; [|done].
    exists (obj_state (view st (req_ObjectID request))). rewrite Hadm, <- Hlook, Hrep. simpl.
    unfold commit_staged, staged_state, staged_receipts in Hview. rewrite Hstage in Hview. simpl in Hview.
    rewrite Hview. simpl. rewrite (left_id_L ∅ (∪)), insert_id by done. done.
  - destruct (apply_command _ _ _ _ _) as [[next receipt]|] eqn:Happ; [|done]. injection Hcb as Hcb <-.
    apply bind_ok in Hcb as (t1 & Hw1%write_state_law & Hcb).
    apply bind_ok in Hcb as (t2 & Hw2%write_receipt_law & Hcb).
    apply bind_ok in Hcb as (_ & _ & [= <-]). split; [done|]. exists false. split; [|done].
    exists next. rewrite Hadm, <- Hlook. simpl.
    unfold commit_staged, staged_state, staged_receipts in Hview. rewrite Hw1, Hstage in Hw2. simpl in Hw2.
    rewrite Hw2 in Hview. simpl in Hview. rewrite Hview. simpl.
    by rewrite insert_empty, <- insert_union_singleton_l.
Qed.

(** What a successful call returns, in terms of the receipt. *)
Definition answers (ctx : Context) (request : Request) (receipt : StoredReceipt) (result : Result) : Prop :=
  r_CommandDigest result = sr_CommandDigest receipt /\ r_Response result = sr_Response receipt /\
  seal_permits seal ctx (req_ObjectID request) (req_CommandID request) (r_CommandDigest result) 0
    (sr_CapabilityClaims receipt) = Ok (r_Permits result).

Lemma finish_answers faults ctx request commit cap result :
  sr_CommandDigest (cap_receipt cap) = sha256_Sum256 (req_Command request) ->
  finish seal faults ctx request (sha256_Sum256 (req_Command request)) commit cap = Ok result ->
  answers ctx request (cap_receipt cap) result /\ r_CommitRevision result = Revision commit /\
  r_Replayed result = cap_replayed cap /\ r_Durable result = true.
Proof using Type.
  intros Hd Hf. unfold finish in Hf. inv_ok Hf. injection Hf as <-. unfold answers. simpl.
  by rewrite Hd.
Qed.

(** The outcome of [Execute] on the abstract object. *)
Definition execute_outcome (ctx : Context) (st : St) (request : Request)
    (r : res (error EA) Result) (st' : St) : Prop :=
  let o := req_ObjectID request in
  (forall id, id <> o -> view st' id = view st id) /\
  match r with
  | Ok result => exists receipt replayed st1,
      object_step agg lim (view st o) request receipt replayed (view st' o) /\
      answers ctx request receipt result /\ (replayed = true -> r_Replayed result = true) /\
      r_Durable result = true /\ r_CommitRevision result = obj_revision (view st' o) /\
      DurabilityBarrier sto ctx st1 (MkToken o (r_CommitRevision result)) = (Ok tt, st')
  | Err _ =>
      view st' o = view st o \/
      exists receipt replayed, object_step agg lim (view st o) request receipt replayed (view st' o)
  end.

Lemma commits_frame st st' id cb cap : commits st st' id cb cap ->
  forall id', id' <> id -> view st' id' = view st id'.
Proof using Type. by intros (? & ? & ? & _ & _ & _ & ?). Qed.

Lemma execute_refines_object faults ctx st request r st' :
  Execute (host faults) ctx st request = (r, st') -> execute_outcome ctx st request r st'.
Proof using Type*.
  unfold Execute, host. case_match; [by intros [= <- <-]; split; [|left]|].
  destruct (check_request _ _ _); [|by intros [= <- <-]; split; [|left]].
  destruct (Transaction _ _ _ _ _ _) as [[[commit|e] st1] cap] eqn:Htx; apply transaction_law in Htx.
  2: { intros [= <- <-]. destruct Htx as [Hsame|(cap1 & Hc)]; [split; [|left]; done|].
       split; [by eapply commits_frame|]. right. apply commits_step in Hc as (_ & replayed & Hc & _).
       by eexists _, _. }
  destruct Htx as [Hc Hrev]. pose proof (commits_frame _ _ _ _ _ Hc) as Hframe.
  apply commits_step in Hc as (_ & replayed & Hstep & Hrep).
  assert (Herr : forall e st2, (forall id, view st2 id = view st1 id) ->
    execute_outcome ctx st request (Err e) st2).
  { intros e st2 Hv. split; [intros id Hid; rewrite Hv; auto|]. right. rewrite Hv. by eexists _, _. }
  case_match eqn:Hcontract; [intros [= <- <-]; by apply Herr|].
  apply orb_false_elim in Hcontract as [[_ Hid]%orb_false_elim Hrev0].
  apply bool_decide_eq_false, dec_stable in Hid.
  case_match; [|intros [= <- <-]; by apply Herr].
  destruct (DurabilityBarrier _ _ _ _) as [[[]|] st2] eqn:Hbar; pose proof (barrier_law _ _ _ _ _ Hbar) as Hv;
    [|intros [= <- <-]; by apply Herr].
  intros [= Hfin <-]. destruct r as [result|e]; [|by apply Herr].
  apply finish_answers in Hfin as (Hans & Hcr & Hrr & Hdur); [|by apply object_step_receipt in Hstep as [? _]].
  split; [intros id Hne; rewrite Hv; auto|]. exists (cap_receipt cap), replayed, st1. rewrite !Hv, Hcr.
  split_and!; try done; [naive_solver|]. destruct commit as [oid rev]. simpl in *. by subst oid.
Qed.

(** ** Histories

    Calls of [Execute] one after another, with any requests, contexts and fault
    points: a call that was cut short by a fault is a call, and a restart keeps
    the storage and nothing else. *)
Definition executes (st st' : St) : Prop :=
  exists faults ctx request r, Execute (host faults) ctx st request = (r, st').
Definition history : St -> St -> Prop := rtc executes.

Lemma execute_outcome_step ctx st request r st' :
  execute_outcome ctx st request r st' -> forall id,
  view st' id = view st id \/
  id = req_ObjectID request /\ exists receipt replayed,
    object_step agg lim (view st id) request receipt replayed (view st' id).
Proof using Type.
  intros [Hframe Hr] id. destruct (decide (id = req_ObjectID request)) as [->|Hne]; [|by left; apply Hframe].
  destruct r as [result|e].
  - right. destruct Hr as (receipt & replayed & st1 & Hs & _). split; [done|]. by eexists _, _.
  - destruct Hr as [?|?]; [by left|by right].
Qed.

Lemma execute_step id faults ctx st request r st' :
  Execute (host faults) ctx st request = (r, st') ->
  view st' id = view st id \/
  id = req_ObjectID request /\ exists receipt replayed,
    object_step agg lim (view st id) request receipt replayed (view st' id).
Proof using Type*. intros He%execute_refines_object. by eapply execute_outcome_step. Qed.

Lemma history_receipts st st' id :
  history st st' -> obj_receipts (view st id) ⊆ obj_receipts (view st' id).
Proof using Type*.
  induction 1 as [|st st1 st' (faults & ctx & request & r & He) _ IH]; [done|].
  etrans; [|exact IH]. apply (execute_step id) in He.
  destruct He as [->|(_ & receipt & replayed & Hs)]; [done|]. by apply object_step_receipt in Hs as (_ & _ & ? & _).
Qed.

(** What every step of an object preserves holds along every history. *)
Lemma history_invariant (P : object -> Prop) st st' id :
  (forall o request receipt replayed o', P o -> object_step agg lim o request receipt replayed o' -> P o') ->
  P (view st id) -> history st st' -> P (view st' id).
Proof using Type*.
  intros Hstep HP Hh. induction Hh as [|st st1 st' (faults & ctx & request & r & He) _ IH]; [done|].
  apply IH. apply (execute_step id) in He.
  destruct He as [->|(_ & receipt & replayed & Hs)]; [done|]. by eapply Hstep.
Qed.

(** A command that has its receipt is never applied again. *)
Lemma receipted_step o request receipt replayed o' stored :
  object_step agg lim o request receipt replayed o' ->
  obj_receipts o !! req_CommandID request = Some stored ->
  receipt = stored /\ replayed = true /\ obj_state o' = obj_state o.
Proof using Type.
  intros Hs Hl. apply object_step_receipt in Hs as (_ & _ & _ & Ht & Hf).
  destruct replayed; [|specialize (Hf eq_refl); congruence].
  destruct (Ht eq_refl) as [Hl' Hst]. split_and!; congruence.
Qed.
End theorems.

(** ** The reference storage ([internal/sessionstate/refstorage.go])

    The in-memory storage that the host runs on in reference and crash-window
    runs.  Its mutex serialises the transactions, so a transaction is one
    function of the map of objects.  [reference_contract] shows that it keeps
    the contract of the host, and [reference_execute] what the host computes on
    it, call by call. *)

(** [referenceObject] has the fields of the abstract object. *)
Definition referenceObject := object.

Record ReferenceStorage := MkReferenceStorage { objects : gmap string referenceObject }.

Definition NewReferenceStorage : ReferenceStorage := MkReferenceStorage ∅.

(** [State(objectID)]: the committed bytes and whether the object exists. *)
Definition State (sto : ReferenceStorage) (objectID : string) : bytes * bool :=
  match objects sto !! objectID with
  | None => ([], false)
  | Some object => (obj_state object, true)
  end.

(** [referenceTransaction]: [tx_stagedReceipts] is empty for a nil map. *)
Record referenceTransaction := MkReferenceTransaction {
  tx_object : referenceObject;
  tx_stagedState : bytes;
  tx_stateWritten : bool;
  tx_stagedReceipts : gmap string StoredReceipt;
}.

Definition ref_ReadState (transaction : referenceTransaction) : bytes :=
  if tx_stateWritten transaction then tx_stagedState transaction
  else obj_state (tx_object transaction).

Definition ref_LookupReceipt (transaction : referenceTransaction) (commandID : string)
    : option StoredReceipt :=
  match tx_stagedReceipts transaction !! commandID with
  | Some receipt => Some receipt
  | None => obj_receipts (tx_object transaction) !! commandID
  end.

Definition ref_WriteState (transaction : referenceTransaction) (state : bytes) : referenceTransaction :=
  MkReferenceTransaction (tx_object transaction) state true (tx_stagedReceipts transaction).

Definition ref_WriteReceipt (transaction : referenceTransaction) (commandID : string)
    (receipt : StoredReceipt) : referenceTransaction :=
  MkReferenceTransaction (tx_object transaction) (tx_stagedState transaction)
    (tx_stateWritten transaction) (<[commandID := receipt]> (tx_stagedReceipts transaction)).

(** What [Transaction] does to the object once the callback returned nil. *)
Definition ref_commit (transaction : referenceTransaction) : referenceObject :=
  let object := tx_object transaction in
  MkObject (if tx_stateWritten transaction then tx_stagedState transaction else obj_state object)
    (tx_stagedReceipts transaction ∪ obj_receipts object) (u64 (obj_revision object + 1)).

Section reference.
Context {EA : Type}.

Definition ref_Transaction (ctx : Context) (sto : ReferenceStorage) (objectID : string)
    (callback : tx_callback EA referenceTransaction) (cap : captured)
    : res (error EA) CommitToken * ReferenceStorage * captured :=
  if ctx AtTransaction then (Err ContextErr, sto, cap)
  else if bool_decide (objectID = ""%string) then (Err StorageErr, sto, cap)
  else
    let object := default empty_object (objects sto !! objectID) in
    match callback (Some (MkReferenceTransaction object [] false ∅)) cap with
    | (Err err, cap') => (Err err, sto, cap')
    | (Ok None, cap') => (Err StorageErr, sto, cap')   (* the callback never drops its transaction *)
    | (Ok (Some transaction), cap') =>
        let object' := ref_commit transaction in
        (Ok (MkToken objectID (obj_revision object')),
         MkReferenceStorage (<[objectID := object']> (objects sto)), cap')
    end.

Definition ref_DurabilityBarrier (ctx : Context) (sto : ReferenceStorage) (tok : CommitToken)
    : res (error EA) unit * ReferenceStorage :=
  if ctx AtBarrier then (Err ContextErr, sto)
  else match objects sto !! ObjectID tok with
  | None => (Err StorageErr, sto)
  | Some object =>
      if (Revision tok =? 0) || (obj_revision object <? Revision tok) then (Err StorageErr, sto)
      else (Ok tt, sto)
  end.

Definition reference_storage : Storage EA ReferenceStorage referenceTransaction :=
  MkStorage EA ReferenceStorage referenceTransaction
    (MkTransactionOps EA referenceTransaction
      (fun tx => Ok (ref_ReadState tx)) (fun tx id => Ok (ref_LookupReceipt tx id))
      (fun tx state => Ok (ref_WriteState tx state))
      (fun tx id receipt => Ok (ref_WriteReceipt tx id receipt)))
    ref_Transaction ref_DurabilityBarrier.

(** ** The contract *)
Definition ref_view (sto : ReferenceStorage) (id : string) : object :=
  default empty_object (objects sto !! id).
Definition ref_stage (tx : referenceTransaction) : staged :=
  MkStaged (tx_object tx) (if tx_stateWritten tx then Some (tx_stagedState tx) else None)
    (tx_stagedReceipts tx).

Lemma ref_commit_staged tx : ref_commit tx = commit_staged (ref_stage tx).
Proof using Type. unfold ref_commit, commit_staged, staged_state. simpl. by destruct (tx_stateWritten tx). Qed.

Lemma ref_view_insert sto id o id' :
  ref_view (MkReferenceStorage (<[id := o]> (objects sto))) id' =
  if decide (id' = id) then o else ref_view sto id'.
Proof using Type.
  unfold ref_view. simpl. case_decide as Hd; [subst; by rewrite lookup_insert_eq|].
  by rewrite lookup_insert_ne.
Qed.

#[global] Instance reference_contract : StorageContract reference_storage.
Proof using Type.
  refine {| view := ref_view; stage := ref_stage |}; simpl.
  - intros tx b [= <-]. unfold ref_ReadState, staged_state. simpl. by destruct (tx_stateWritten tx).
  - intros tx id r [= <-]. unfold ref_LookupReceipt, staged_receipts. simpl. rewrite lookup_union.
    by destruct (tx_stagedReceipts tx !! id); destruct (obj_receipts (tx_object tx) !! id).
  - by intros tx b tx' [= <-].
  - by intros tx id r tx' [= <-].
  - intros ctx st id cb cap r st' cap'. unfold ref_Transaction.
    case_match; [intros [= <- <- <-]; by left|]. case_match; [intros [= <- <- <-]; by left|].
    destruct (cb _ _) as [[[tx|]|e] cap1] eqn:Hcb; intros [= <- <- <-]; try by left.
    assert (Hv : ref_view (MkReferenceStorage (<[id := ref_commit tx]> (objects st))) id = ref_commit tx).
    { rewrite ref_view_insert. by rewrite decide_True. }
    split; [|by rewrite Hv].
    eexists _, cap, tx. split_and!; [|exact Hcb| |]; [done|by rewrite Hv, ref_commit_staged|].
    intros id' Hne. rewrite ref_view_insert. by rewrite decide_False.
  - intros ctx st tok r st' Hb id. unfold ref_DurabilityBarrier in Hb.
    repeat case_match; by injection Hb as _ <-.
Defined.
End reference.
