(* ===== verification/Permit.v ===== *)
(** * Sealed permits ([internal/celld/permit.go])

    [PermitCodec.Seal] writes a binding and its claims in a fixed layout and
    appends an HMAC over it; [Open] authenticates, parses and compares.  The
    theorems say that [Open] accepts exactly the tokens [Seal] produces for the
    expected binding. *)

From S2P Require Import Prelude GoText GoCrypto Celld.

Definition permitFormatVersion : Z := 1.
Definition permitMACSize : Z := 32.
Definition permitMaximumKindBytes : Z := 256.
Definition permitMaximumPayloadBytes : Z := Z.shiftl 1 20.
Definition permitMaximumEncodedBytes : Z := permitMaximumPayloadBytes + 2048.
Definition permitMACDomain : bytes := to_bytes "circulusd.celld.sealed-permit.v1" ++ [to_byte 0].

Definition permit_size_ok (encoded : bytes) : bool :=
  negb ((zlen encoded <=? permitMACSize) || (permitMaximumEncodedBytes <? zlen encoded)).

Definition ParseSealedPermit (encoded : bytes) : res celld_error SealedPermit :=
  if negb (permit_size_ok encoded) then Err ErrInvalidPermit else Ok (MkPermit encoded).

Definition MarshalBinary (permit : SealedPermit) : res celld_error bytes :=
  if negb (permit_size_ok (token permit)) then Err ErrInvalidPermit else Ok (token permit).

Record PermitCodec := MkPermitCodec { secret : bytes }.

Definition NewPermitCodec (secret : bytes) : res celld_error PermitCodec :=
  if zlen secret <? 32 then Err ErrInvalidConfig else Ok (MkPermitCodec secret).

(** [hmac.New(sha256.New, secret)] over the domain and the body. *)
Definition permit_mac (codec : PermitCodec) (body : bytes) : bytes :=
  hmac_sha256 (secret codec) (permitMACDomain ++ body).

(** A length in two bytes, and the string. *)
Definition short_string (s : string) : bytes := be_bytes 2 (u16 (strlen s)) ++ to_bytes s.

Definition permit_body (binding : PermitBinding) (claims : RawCapabilityClaims) : bytes :=
  [to_byte permitFormatVersion] ++ short_string (pb_ObjectID binding) ++ short_string (pb_CommandID binding)
  ++ pb_CommandDigest binding ++ be_bytes 4 (pb_ClaimIndex binding) ++ short_string (claim_Kind claims)
  ++ be_bytes 4 (u32 (zlen (claim_Payload claims))) ++ claim_Payload claims.

#[global] Arguments permit_body : simpl never.
#[global] Arguments permit_mac : simpl never.

(** A length in two bytes, checked against its limit and what is left. *)
Definition read_short_string (limit : Z) (reader : bytes) : option (bytes * bytes) :=
  '(shortLength, reader) ← io_ReadFull 2 reader;
  let length := be_value shortLength in
  if (limit <? length) || (zlen reader <? length) then None
  else io_ReadFull (Z.to_nat length) reader.

(** The parse of [Open]: object, command, digest, index, kind and payload. *)
Definition parse_permit_body (body : bytes) : option (bytes * bytes * bytes * Z * bytes * bytes) :=
  '(version, reader) ← io_ReadFull 1 body;
  if bool_decide (version <> [to_byte permitFormatVersion]) then None else
  '(objectID, reader) ← read_short_string maxProtocolIdentifierBytes reader;
  '(commandID, reader) ← read_short_string maxProtocolIdentifierBytes reader;
  '(digest, reader) ← io_ReadFull 32 reader;
  '(claimIndex, reader) ← io_ReadFull 4 reader;
  '(kind, reader) ← read_short_string permitMaximumKindBytes reader;
  '(payloadLength, reader) ← io_ReadFull 4 reader;
  let payloadSize := be_value payloadLength in
  if (permitMaximumPayloadBytes <? payloadSize) || (zlen reader <? payloadSize) then None else
  '(payload, reader) ← io_ReadFull (Z.to_nat payloadSize) reader;
  if negb (zlen reader =? 0) then None
  else Some (objectID, commandID, digest, be_value claimIndex, kind, payload).

Section codec.
Context {N : Normalizer}.

(** [Seal]; the codec may be nil. *)
Definition Seal {EA} (codec : option PermitCodec) (ctx : Context) (binding : PermitBinding)
    (claims : RawCapabilityClaims) : res (error EA) SealedPermit :=
  if ctx (AtSeal (pb_ClaimIndex binding)) then Err ContextErr
  else match codec with
  | None => Err (CelldErr ErrInvalidPermit)
  | Some codec =>
      if (zlen (secret codec) <? 32) || negb (validProtocolIdentifier (pb_ObjectID binding))
         || negb (validProtocolIdentifier (pb_CommandID binding))
         || negb (validProtocolIdentifier (claim_Kind claims))
         || (permitMaximumKindBytes <? strlen (claim_Kind claims)) || (zlen (claim_Payload claims) =? 0)
      then Err (CelldErr ErrInvalidPermit)
      else if permitMaximumPayloadBytes <? zlen (claim_Payload claims) then Err (CelldErr ErrPermitTooLarge)
      else
        let body := permit_body binding claims in
        let token := body ++ permit_mac codec body in
        if permitMaximumEncodedBytes <? zlen token then Err (CelldErr ErrPermitTooLarge)
        else Ok (MkPermit token)
  end.

Definition Open (codec : option PermitCodec) (permit : SealedPermit) (expected : PermitBinding)
    : res celld_error RawCapabilityClaims :=
  match codec with
  | None => Err ErrInvalidPermit
  | Some codec =>
      if (zlen (secret codec) <? 32) || negb (validProtocolIdentifier (pb_ObjectID expected))
         || negb (validProtocolIdentifier (pb_CommandID expected)) || negb (permit_size_ok (token permit))
      then Err ErrInvalidPermit
      else
        let n := (length (token permit) - 32)%nat in
        let body := take n (token permit) in
        let receivedMAC := drop n (token permit) in
        if negb (hmac_Equal receivedMAC (permit_mac codec body)) then Err ErrInvalidPermit
        else match parse_permit_body body with
        | None => Err ErrInvalidPermit
        | Some (objectID, commandID, digest, claimIndex, kind, payload) =>
            if bool_decide (of_bytes objectID <> pb_ObjectID expected)
               || bool_decide (of_bytes commandID <> pb_CommandID expected)
               || negb (hmac_Equal digest (pb_CommandDigest expected))
               || negb (claimIndex =? pb_ClaimIndex expected)
               || negb (validProtocolIdentifier (of_bytes kind)) || (zlen payload =? 0)
            then Err ErrInvalidPermit
            else Ok (MkClaims (of_bytes kind) payload)
        end
  end.

(** The values a Go [PermitBinding] can hold. *)
Definition typed_binding (b : PermitBinding) : Prop :=
  length (pb_CommandDigest b) = 32%nat /\ 0 <= pb_ClaimIndex b < 2 ^ 32.

(** ** Lemmas *)
Lemma valid_identifier_length s :
  validProtocolIdentifier s = true -> 0 < strlen s <= maxProtocolIdentifierBytes.
Proof.
  unfold validProtocolIdentifier. case_match eqn:H; [done|]. intros _.
  apply orb_false_elim in H as [H Hl]. apply orb_false_elim in H as [H _].
  apply orb_false_elim in H as [H _]. apply bool_decide_eq_false in H. apply Z.ltb_ge in Hl.
  split; [|done]. unfold strlen. destruct s; simpl; [done|lia].
Qed.

(** Reading a short string is the inverse of writing one. *)
Lemma read_short_string_app limit s reader :
  limit < 2 ^ 16 -> strlen s <= limit ->
  read_short_string limit (short_string s ++ reader) = Some (to_bytes s, reader).
Proof using Type.
  intros Hlim Hs. unfold read_short_string, short_string. pose proof (strlen_nonneg s).
  rewrite <- app_assoc, io_ReadFull_app by apply length_be_bytes.
  cbn [mbind option_bind]. unfold u16. rewrite Z.mod_small, be_value_be_bytes by lia.
  rewrite zlen_app, zlen_to_bytes. pose proof (zlen_nonneg reader).
  rewrite (proj2 (Z.ltb_ge _ _)), (proj2 (Z.ltb_ge _ _)) by lia. simpl. apply io_ReadFull_app.
  rewrite length_to_bytes. unfold strlen. lia.
Qed.

Lemma read_short_string_some limit reader s reader' :
  read_short_string limit reader = Some (to_bytes s, reader') ->
  strlen s <= limit /\ reader = short_string s ++ reader'.
Proof using Type.
  unfold read_short_string, short_string. intros Hr.
  destruct (io_ReadFull 2 reader) as [[len r1]|] eqn:Hl; simpl in Hr; [|done].
  apply io_ReadFull_some in Hl as [-> Hlen]. case_match eqn:Hc; [done|].
  apply io_ReadFull_some in Hr as [-> Hs]. rewrite length_to_bytes in Hs.
  apply orb_false_elim in Hc as [Hc _]. apply Z.ltb_ge in Hc.
  pose proof (be_value_range len) as Hrange. unfold zlen in Hrange. rewrite Hlen in Hrange.
  assert (Hv : strlen s = be_value len) by (unfold strlen; lia).
  split; [lia|]. unfold u16. rewrite Hv, Z.mod_small by (simpl in Hrange; lia).
  rewrite <- Hlen, be_bytes_be_value. by rewrite app_assoc.
Qed.

Definition permit_fields (b : PermitBinding) (c : RawCapabilityClaims) :=
  (to_bytes (pb_ObjectID b), to_bytes (pb_CommandID b), pb_CommandDigest b, pb_ClaimIndex b,
   to_bytes (claim_Kind c), claim_Payload c).
Definition permit_sizes (b : PermitBinding) (c : RawCapabilityClaims) : Prop :=
  strlen (pb_ObjectID b) <= 256 /\ strlen (pb_CommandID b) <= 256 /\
  strlen (claim_Kind c) <= 256 /\ zlen (claim_Payload c) <= permitMaximumPayloadBytes.

(** The parser reads back what [Seal] writes, and nothing else. *)
Lemma parse_permit_body_complete b c :
  typed_binding b -> permit_sizes b c -> parse_permit_body (permit_body b c) = Some (permit_fields b c).
Proof using Type.
  intros [Hd Hi] (Ho & Hc & Hk & Hp). unfold parse_permit_body, permit_body.
  pose proof (zlen_nonneg (claim_Payload c)) as Hp0. unfold permitMaximumPayloadBytes in *.
  rewrite (io_ReadFull_app 1 [_]) by done. cbn [mbind option_bind].
  rewrite bool_decide_eq_false_2 by naive_solver.
  rewrite read_short_string_app by done.
  cbn [mbind option_bind].
  rewrite read_short_string_app by done.
  cbn [mbind option_bind]. rewrite io_ReadFull_app by done. cbn [mbind option_bind].
  rewrite io_ReadFull_app by apply length_be_bytes. cbn [mbind option_bind].
  rewrite read_short_string_app by done.
  cbn [mbind option_bind]. rewrite io_ReadFull_app by apply length_be_bytes. cbn [mbind option_bind].
  change (Z.shiftl 1 20) with 1048576 in *. unfold u32.
  rewrite Z.mod_small, !be_value_be_bytes by (simpl; lia).
  rewrite (proj2 (Z.ltb_ge _ _)), (proj2 (Z.ltb_ge _ _)) by lia. cbn [orb].
  rewrite <- (app_nil_r (claim_Payload c)) at 2. rewrite io_ReadFull_app by (unfold zlen; lia). done.
Qed.

(** One step of inverting the parser. *)
Local Ltac inv_read H :=
  match type of H with
  | (?m ≫= _) = Some _ =>
      let E := fresh "Hread" in destruct m as [[? ?]|] eqn:E; cbn [mbind option_bind] in H; [|done]
  | (if ?c then None else _) = Some _ =>
      let E := fresh "Hcond" in destruct c eqn:E; [done|]
  end.

Lemma parse_permit_body_sound b c body :
  parse_permit_body body = Some (permit_fields b c) -> body = permit_body b c /\ permit_sizes b c.
Proof using Type.
  unfold parse_permit_body, permit_fields, permit_body, permit_sizes. intros H.
  repeat inv_read H. injection H as -> -> -> Hidx -> ->.
  repeat match goal with
  | E : io_ReadFull _ _ = Some _ |- _ => apply io_ReadFull_some in E as [-> ?]
  | E : read_short_string _ _ = Some _ |- _ => apply read_short_string_some in E as [? ->]
  end.
  match goal with E : bool_decide _ = false |- _ => apply bool_decide_eq_false, dec_stable in E as -> end.
  match goal with E : negb _ = false |- _ => apply negb_false_iff, Z.eqb_eq in E as Hnil end.
  match goal with E : _ || _ = false |- _ => apply orb_false_elim in E as [Hp _] end.
  match goal with E : length _ = Z.to_nat (be_value ?l) |- _ => rename E into Hlen, l into size end.
  match goal with E : length size = _ |- _ => rename E into Hsize end.
  match goal with E : zlen ?r = 0 |- _ => 
    assert (r = []) as -> by (destruct r; [done|unfold zlen in E; simpl in E; lia]) end.
  pose proof (be_value_range size) as Hrange. unfold zlen in Hrange. rewrite Hsize in Hrange.
  apply Z.ltb_ge in Hp. assert (Hz : zlen (claim_Payload c) = be_value size) by (unfold zlen; lia).
  split; [|split_and!; unfold maxProtocolIdentifierBytes, permitMaximumKindBytes in *; lia].
  unfold u32. rewrite Hz, Z.mod_small, app_nil_r by (simpl in Hrange; lia).
  rewrite (be_bytes_of_value 4 size (be_value size)) by done.
  match type of Hidx with be_value ?i = _ => rewrite (be_bytes_of_value 4 i) by done end.
  by rewrite <- ?app_assoc.
Qed.

Lemma length_permit_mac codec body : length (permit_mac codec body) = 32%nat.
Proof using Type. apply length_hmac_sha256. Qed.

(** A token splits into its body and its MAC. *)
Lemma token_split codec body :
  let t := body ++ permit_mac codec body in
  take (length t - 32) t = body /\ drop (length t - 32) t = permit_mac codec body.
Proof using Type.
  simpl. rewrite length_app, length_permit_mac, Nat.add_sub. by rewrite take_app_length, drop_app_length.
Qed.

Lemma permit_body_size b c :
  typed_binding b -> permit_sizes b c ->
  0 < zlen (permit_body b c) <= permitMaximumPayloadBytes + 1000.
Proof using Type.
  intros [Hd Hi] (Ho & Hc & Hk & Hp). unfold permit_body, short_string.
  assert (zlen (pb_CommandDigest b) = 32) as Hd32 by (unfold zlen; lia).
  rewrite !zlen_app, !zlen_to_bytes, !zlen_be_bytes, Hd32. change (zlen [to_byte permitFormatVersion]) with 1.
  pose proof (strlen_nonneg (pb_ObjectID b)). pose proof (strlen_nonneg (pb_CommandID b)).
  pose proof (strlen_nonneg (claim_Kind c)). pose proof (zlen_nonneg (claim_Payload c)). lia.
Qed.

(** What both operations check of the codec, the binding and the claims. *)
Definition sealable (codec : PermitCodec) (b : PermitBinding) (c : RawCapabilityClaims) : Prop :=
  32 <= zlen (secret codec) /\ validProtocolIdentifier (pb_ObjectID b) = true /\
  validProtocolIdentifier (pb_CommandID b) = true /\ validProtocolIdentifier (claim_Kind c) = true /\
  0 < zlen (claim_Payload c) <= permitMaximumPayloadBytes.

Lemma sealable_sizes codec b c : sealable codec b c -> permit_sizes b c.
Proof using Type.
  intros (_ & Ho & Hc & Hk & _ & Hp). apply valid_identifier_length in Ho, Hc, Hk.
  unfold permit_sizes, maxProtocolIdentifierBytes in *. split_and!; lia.
Qed.

Lemma sealed_size_ok codec b c t :
  typed_binding b -> permit_sizes b c -> t = permit_body b c ++ permit_mac codec (permit_body b c) ->
  permit_size_ok t = true.
Proof using Type.
  intros Ht Hs ->. pose proof (permit_body_size _ _ Ht Hs). unfold permit_size_ok.
  rewrite zlen_app. unfold zlen at 2 4. rewrite length_permit_mac.
  unfold permitMaximumEncodedBytes, permitMACSize.
  by rewrite (proj2 (Z.leb_gt _ _)), (proj2 (Z.ltb_ge _ _)) by lia.
Qed.

Lemma Seal_ok {EA} codec ctx b c p :
  typed_binding b ->
  Seal (EA := EA) (Some codec) ctx b c = Ok p <->
  ctx (AtSeal (pb_ClaimIndex b)) = false /\ sealable codec b c /\
  token p = permit_body b c ++ permit_mac codec (permit_body b c).
Proof using Type.
  intros Ht. unfold Seal. destruct (ctx _); [naive_solver|].
  destruct p as [t]. cbn [token]. split.
  - case_match eqn:Hg; [done|]. case_match eqn:Hp; [done|]. case_match; [done|]. intros [= <-].
    split_and!; try done. rewrite !orb_false_iff, !negb_false_iff in Hg.
    destruct Hg as (((((? & ?) & ?) & ?) & ?) & ?). pose proof (zlen_nonneg (claim_Payload c)).
    split_and!; try done; lia.
  - intros (_ & Hs & ->). pose proof (sealable_sizes _ _ _ Hs) as Hsz.
    pose proof Hsz as Hsz'. destruct Hs as (H1 & H2 & H3 & H4 & H5 & H6).
    rewrite H2, H3, H4. destruct Hsz as (_ & _ & Hk & _). unfold permitMaximumKindBytes.
    rewrite (proj2 (Z.ltb_ge _ _)), (proj2 (Z.ltb_ge _ _)), (proj2 (Z.eqb_neq _ _)) by lia.
    cbn [negb orb]. pose proof (sealed_size_ok codec b c _ Ht Hsz' eq_refl) as Hok. unfold permit_size_ok in Hok.
        apply negb_true_iff, orb_false_elim in Hok as [_ ->]. by rewrite (proj2 (Z.ltb_ge _ _)) by lia.
Qed.

Lemma Open_ok codec p b c :
  typed_binding b ->
  Open (Some codec) p b = Ok c <->
  sealable codec b c /\ token p = permit_body b c ++ permit_mac codec (permit_body b c).
Proof using Type.
  intros Ht. unfold Open. split.
  - case_match eqn:Hg; [done|]. case_match eqn:Hmac; [done|].
    destruct (parse_permit_body _) as [[[[[[o cid] d] i] k] pl]|] eqn:Hparse; [|done].
    case_match eqn:Hfin; [done|]. intros [= <-].
    rewrite !orb_false_iff, !negb_false_iff in Hg. rewrite !orb_false_iff, !negb_false_iff in Hfin.
    unfold permit_size_ok in Hg.
    destruct Hg as (((Hsec & Ho) & Hc) & Hsz).
    destruct Hfin as (((((Heo & Hec) & Hed%hmac_Equal_true) & Hei%Z.eqb_eq) & Hk) & Hpl).
    apply bool_decide_eq_false, dec_stable in Heo, Hec. apply negb_false_iff, hmac_Equal_true in Hmac.
    assert (Hf : (o, cid, d, i, k, pl) = permit_fields b (MkClaims (of_bytes k) pl)).
    { unfold permit_fields. simpl. by rewrite <- Heo, <- Hec, <- Hed, <- Hei, !to_of_bytes. }
    rewrite Hf in Hparse. apply parse_permit_body_sound in Hparse as [Hbody (_ & _ & _ & Hmax)].
    pose proof (zlen_nonneg pl). split; [split_and!; simpl in *; try done; lia|].
    rewrite <- Hbody, <- Hmac. by rewrite take_drop.
  - intros [Hs Htok]. pose proof (sealable_sizes _ _ _ Hs) as Hsz.
    pose proof (permit_body_size _ _ Ht Hsz) as Hb. destruct Hs as (H1 & H2 & H3 & H4 & H5 & H6).
    rewrite H2, H3, (proj2 (Z.ltb_ge _ _)) by lia. simpl.
    rewrite (proj2 (negb_false_iff _)); [|by apply (sealed_size_ok codec b c)]. rewrite Htok.
    destruct (token_split codec (permit_body b c)) as [-> ->]. rewrite hmac_Equal_refl.
    rewrite parse_permit_body_complete by done. simpl. rewrite !of_to_bytes, hmac_Equal_refl, H4.
    rewrite !bool_decide_eq_false_2, Z.eqb_refl, (proj2 (Z.eqb_neq _ _)) by (done || lia || auto).
    by destruct c.
Qed.

Lemma permit_body_inj b c b' c' :
  typed_binding b -> typed_binding b' -> permit_sizes b c -> permit_sizes b' c' ->
  permit_body b c = permit_body b' c' -> b = b' /\ c = c'.
Proof using Type.
  intros Ht Ht' Hs Hs' Heq. apply (f_equal parse_permit_body) in Heq.
  rewrite !parse_permit_body_complete in Heq by done. destruct b, b', c, c'.
  unfold permit_fields in Heq. simpl in Heq.
  injection Heq as Ho%(inj to_bytes) Hc%(inj to_bytes) Hd Hi Hk%(inj to_bytes) Hp.
  split; congruence.
Qed.

Lemma token_inj codec body body' :
  body ++ permit_mac codec body = body' ++ permit_mac codec body' -> body = body'.
Proof using Type.
  intros Heq. destruct (token_split codec body) as [<- _]. rewrite Heq.
  by destruct (token_split codec body') as [-> _].
Qed.

(** Sealing is a function of the binding and the claims. *)
Lemma Seal_deterministic {EA} codec ctx ctx' b c p p' :
  Seal (EA := EA) codec ctx b c = Ok p -> Seal (EA := EA) codec ctx' b c = Ok p' -> p = p'.
Proof using Type. unfold Seal. intros H H'. repeat (case_match; try done). congruence. Qed.

(** C32: [Open] accepts a token for an expected binding, and returns claims, exactly
    when [Seal] produces that very token for that binding and those claims: no
    other byte string is a permit, and every sealed permit survives the wire
    format and opens to what was sealed. *)
Theorem open_accepts_exactly_sealed {EA} codec p b c :
  typed_binding b ->
  (Open (Some codec) p b = Ok c <-> Seal (EA := EA) (Some codec) Background b c = Ok p) /\
  (Open (Some codec) p b = Ok c ->
     exists wire, MarshalBinary p = Ok wire /\ ParseSealedPermit wire = Ok p).
Proof using Type.
  intros Ht. rewrite Open_ok, Seal_ok by done. split; [naive_solver|]. intros [Hs Htok].
  exists (token p). unfold MarshalBinary, ParseSealedPermit.
  rewrite (sealed_size_ok codec b c (token p) Ht (sealable_sizes _ _ _ Hs) Htok).
  by destruct p.
Qed.

(** A permit cannot be moved: the token sealed for one object, command,
    command body and claim position opens for no other binding, and to no other
    claims. *)
Theorem permit_not_transferable {EA} codec ctx p b c b' c' :
  typed_binding b -> typed_binding b' -> Seal (EA := EA) (Some codec) ctx b c = Ok p ->
  Open (Some codec) p b' = Ok c' -> b' = b /\ c' = c.
Proof using Type.
  intros Ht Ht' (_ & Hs & Hp)%Seal_ok (Hs' & Hp')%Open_ok; try done.
  rewrite Hp in Hp'. apply token_inj, permit_body_inj in Hp';
    eauto using sealable_sizes. naive_solver.
Qed.
End codec.

(** ** Witnesses *)
Definition sample_codec : PermitCodec := MkPermitCodec (replicate 32 (to_byte 7)).
Definition sample_binding : PermitBinding := MkBinding "sess_1" "command-1" (sha256_Sum256 (to_bytes "x")) 0.
Definition sample_claims : RawCapabilityClaims := MkClaims "dispatch" (to_bytes "payload").
Definition sample_permit : SealedPermit :=
  MkPermit (permit_body sample_binding sample_claims
            ++ permit_mac sample_codec (permit_body sample_binding sample_claims)).

Lemma sample_typed : typed_binding sample_binding.
Proof. split; [vm_compute; reflexivity|simpl; lia]. Qed.

Lemma open_accepts_exactly_sealed_witness :
  Open (N := id_normalizer) (Some sample_codec) sample_permit sample_binding = Ok sample_claims /\
  exists wire, MarshalBinary sample_permit = Ok wire /\ ParseSealedPermit wire = Ok sample_permit.
Proof.
  destruct (open_accepts_exactly_sealed (N := id_normalizer) (EA := unit) sample_codec sample_permit
    sample_binding sample_claims sample_typed) as [Hiff Hwire].
  assert (Hopen : Open (N := id_normalizer) (Some sample_codec) sample_permit sample_binding = Ok sample_claims).
  { apply Hiff. vm_compute. reflexivity. }
  split; [exact Hopen|exact (Hwire Hopen)].
Defined.

Lemma permit_not_transferable_witness :
  Open (N := id_normalizer) (Some sample_codec) sample_permit sample_binding = Ok sample_claims /\
  sample_binding = sample_binding /\ sample_claims = sample_claims.
Proof.
  split; [vm_compute; reflexivity|].
  apply (permit_not_transferable (N := id_normalizer) (EA := unit) sample_codec Background sample_permit
    sample_binding sample_claims sample_binding sample_claims sample_typed sample_typed);
    vm_compute; reflexivity.
Defined.
