(* ===== verification/SessionState.v ===== *)
(** * The session aggregate ([internal/sessionstate/session.go])

    The durable turn/effect state machine of a session: its state and commands,
    the ladder ([transition]), the aggregate methods the host calls, and the
    canonical-CBOR encodings of states and commands. *)

From S2P Require Import Prelude GoText GoCrypto Canonical.
From S2P Require Celld.
#[local] Open Scope string_scope.
#[local] Open Scope list_scope.
#[local] Open Scope Z_scope.
#[local] Open Scope go_scope.

Definition stateSchemaVersion : Z := 1.

(** Turn ladder phases. *)
Definition phaseIdle := "idle".
Definition phaseAccepted := "accepted".
Definition phaseModelPrepared := "model_prepared".
Definition phaseModelDispatched := "model_dispatched".
Definition phaseModelSettled := "model_settled".
Definition phaseToolPrepared := "tool_prepared".
Definition phaseToolDispatched := "tool_dispatched".
Definition phaseToolExternalCommit := "tool_external_commit".
Definition phaseToolSettled := "tool_settled".

(** Effect kinds and effect phases. *)
Definition effectKindModel := "model".
Definition effectKindTool := "tool".
Definition effectPhasePrepared := "prepared".
Definition effectPhaseDispatched := "dispatched".
Definition effectPhaseCommitted := "committed".

(** Command kinds. *)
Definition commandOpenTurn := "open_turn".
Definition commandCompleteTurn := "complete_turn".
Definition commandPrepareModel := "prepare_model_effect".
Definition commandDispatchModel := "dispatch_model_effect".
Definition commandSettleModel := "settle_model_effect".
Definition commandPrepareTool := "prepare_tool_effect".
Definition commandDispatchTool := "dispatch_tool_effect".
Definition commandCommitTool := "commit_tool_effect".
Definition commandSettleTool := "settle_tool_effect".
Definition commandRotatePlacement := "rotate_placement_generation".
Definition commandRotatePolicy := "rotate_policy_generation".

(** The sentinels; [ErrCanonical] is an error of [canonical.Encode], returned as
    it is. *)
Inductive session_error :=
| ErrUnknownCommand | ErrInvalidCommand | ErrInvalidState | ErrTurnActive | ErrNoActiveTurn
| ErrInvalidTransition | ErrEffectActive | ErrEffectMismatch | ErrStaleGeneration
| ErrStalePlacementGeneration | ErrStalePolicyGeneration | ErrInvalidRotation
| ErrCanonical (e : cerror).

#[global] Instance session_error_eq_dec : EqDecision session_error.
Proof. solve_decision. Defined.

Record SessionState := MkState {
  SchemaVersion : Z;
  EventSequence : Z;
  TurnLeaseGeneration : Z;
  PlacementGeneration : Z;
  PolicyGeneration : Z;
  ActiveTurnID : string;
  TurnPhase : string;
  EffectID : string;
  EffectKind : string;
  EffectPhase : string;
  EffectRequestID : string;
  EffectProviderID : string;
  EffectExternalID : string;
}.

#[global] Instance SessionState_eq_dec : EqDecision SessionState.
Proof. solve_decision. Defined.

Record command := MkCommand {
  cmd_Kind : string;
  cmd_TurnID : string;
  cmd_EffectID : string;
  cmd_RequestDigest : string;
  cmd_ProviderRequestID : string;
  cmd_ExternalCommitID : string;
  cmd_TurnLeaseGeneration : Z;
  cmd_PlacementGeneration : Z;
  cmd_PolicyGeneration : Z;
}.

#[global] Instance command_eq_dec : EqDecision command.
Proof. solve_decision. Defined.

(** ** Assignments to groups of fields *)
Definition set_turn (s : SessionState) (turnID phase : string) : SessionState :=
  MkState (SchemaVersion s) (EventSequence s) (TurnLeaseGeneration s) (PlacementGeneration s)
    (PolicyGeneration s) turnID phase (EffectID s) (EffectKind s) (EffectPhase s)
    (EffectRequestID s) (EffectProviderID s) (EffectExternalID s).
Definition set_phase (s : SessionState) (phase : string) : SessionState :=
  set_turn s (ActiveTurnID s) phase.
Definition set_effect (s : SessionState) (id kind phase request provider external : string) : SessionState :=
  MkState (SchemaVersion s) (EventSequence s) (TurnLeaseGeneration s) (PlacementGeneration s)
    (PolicyGeneration s) (ActiveTurnID s) (TurnPhase s) id kind phase request provider external.
Definition set_generations (s : SessionState) (lease placement policy : Z) : SessionState :=
  MkState (SchemaVersion s) (EventSequence s) lease placement policy (ActiveTurnID s) (TurnPhase s)
    (EffectID s) (EffectKind s) (EffectPhase s) (EffectRequestID s) (EffectProviderID s)
    (EffectExternalID s).
Definition set_sequence (s : SessionState) (sequence : Z) : SessionState :=
  MkState (SchemaVersion s) sequence (TurnLeaseGeneration s) (PlacementGeneration s)
    (PolicyGeneration s) (ActiveTurnID s) (TurnPhase s) (EffectID s) (EffectKind s) (EffectPhase s)
    (EffectRequestID s) (EffectProviderID s) (EffectExternalID s).

(** ** The ladder *)
Definition requireActiveTurn (state : SessionState) (turnID : string) : res session_error unit :=
  reject_if ((ActiveTurnID state == "") || (ActiveTurnID state != turnID)) ErrNoActiveTurn.

Definition requireActiveEffect (state : SessionState) (cmd : command) (kind effectPhase turnPhase : string)
    : res session_error unit :=
  _ ← requireActiveTurn state (cmd_TurnID cmd);
  _ ← reject_if (TurnPhase state != turnPhase) ErrInvalidTransition;
  reject_if ((EffectID state != cmd_EffectID cmd) || (EffectKind state != kind)
             || (EffectPhase state != effectPhase)) ErrEffectMismatch.

Definition clearEffect (state : SessionState) : SessionState := set_effect state "" "" "" "" "" "".

Definition prepareEffect (state : SessionState) (cmd : command) (kind fromPhase toPhase : string)
    : res session_error SessionState :=
  _ ← requireActiveTurn state (cmd_TurnID cmd);
  _ ← reject_if (EffectID state != "") ErrEffectActive;
  _ ← reject_if (TurnPhase state != fromPhase) ErrInvalidTransition;
  _ ← reject_if (cmd_PolicyGeneration cmd <? PolicyGeneration state) ErrStalePolicyGeneration;
  Ok (set_effect (set_phase state toPhase) (cmd_EffectID cmd) kind effectPhasePrepared
        (cmd_RequestDigest cmd) (EffectProviderID state) (EffectExternalID state)).

Definition dispatchEffect (state : SessionState) (cmd : command) (kind fromPhase toPhase : string)
    : res session_error SessionState :=
  _ ← requireActiveEffect state cmd kind effectPhasePrepared fromPhase;
  _ ← reject_if (cmd_PlacementGeneration cmd <? PlacementGeneration state) ErrStalePlacementGeneration;
  Ok (set_effect (set_phase state toPhase) (EffectID state) (EffectKind state) effectPhaseDispatched
        (EffectRequestID state) (cmd_ProviderRequestID cmd) (EffectExternalID state)).

Definition transition (state : SessionState) (cmd : command) : res session_error SessionState :=
  let kind := cmd_Kind cmd in
  if kind == commandOpenTurn then
    _ ← reject_if (ActiveTurnID state != "") ErrTurnActive;
    Ok (set_turn state (cmd_TurnID cmd) phaseAccepted)
  else if kind == commandCompleteTurn then
    _ ← requireActiveTurn state (cmd_TurnID cmd);
    _ ← reject_if (EffectID state != "") ErrEffectActive;
    _ ← reject_if (negb ((TurnPhase state == phaseAccepted) || (TurnPhase state == phaseModelSettled)
                         || (TurnPhase state == phaseToolSettled))) ErrInvalidTransition;
    Ok (set_turn state "" phaseIdle)
  else if kind == commandPrepareModel then
    prepareEffect state cmd effectKindModel phaseAccepted phaseModelPrepared
  else if kind == commandDispatchModel then
    dispatchEffect state cmd effectKindModel phaseModelPrepared phaseModelDispatched
  else if kind == commandSettleModel then
    _ ← requireActiveEffect state cmd effectKindModel effectPhaseDispatched phaseModelDispatched;
    Ok (set_phase (clearEffect state) phaseModelSettled)
  else if kind == commandPrepareTool then
    prepareEffect state cmd effectKindTool phaseModelSettled phaseToolPrepared
  else if kind == commandDispatchTool then
    dispatchEffect state cmd effectKindTool phaseToolPrepared phaseToolDispatched
  else if kind == commandCommitTool then
    _ ← requireActiveEffect state cmd effectKindTool effectPhaseDispatched phaseToolDispatched;
    Ok (set_effect (set_phase state phaseToolExternalCommit) (EffectID state) (EffectKind state)
          effectPhaseCommitted (EffectRequestID state) (EffectProviderID state) (cmd_ExternalCommitID cmd))
  else if kind == commandSettleTool then
    _ ← requireActiveEffect state cmd effectKindTool effectPhaseCommitted phaseToolExternalCommit;
    Ok (set_phase (clearEffect state) phaseToolSettled)
  else if kind == commandRotatePlacement then
    _ ← reject_if (cmd_PlacementGeneration cmd <=? PlacementGeneration state) ErrInvalidRotation;
    Ok (set_generations state (TurnLeaseGeneration state) (cmd_PlacementGeneration cmd) (PolicyGeneration state))
  else if kind == commandRotatePolicy then
    _ ← reject_if (cmd_PolicyGeneration cmd <=? PolicyGeneration state) ErrInvalidRotation;
    Ok (set_generations state (TurnLeaseGeneration state) (PlacementGeneration state) (cmd_PolicyGeneration cmd))
  else Err ErrUnknownCommand.

(** ** Fields of a decoded map

    [fields[key]] of a map the decoder built: its keys are distinct. *)
Fixpoint map_get (key : string) (fields : list (string * Value)) : option Value :=
  match fields with
  | [] => None
  | (k, v) :: fields' => if decide (k = key) then Some v else map_get key fields'
  end.

Definition reqInt (fields : list (string * Value)) (key : string) : res session_error Z :=
  match map_get key fields with
  | Some (VInt KInt64 value) => Ok value
  | _ => Err ErrInvalidState
  end.

Definition reqString (fields : list (string * Value)) (key : string) : res session_error string :=
  match map_get key fields with
  | Some (VString value) => Ok value
  | _ => Err ErrInvalidState
  end.

Definition optString (fields : list (string * Value)) (key : string) : string :=
  match map_get key fields with
  | Some (VString raw) => raw
  | _ => ""
  end.

Definition optInt (fields : list (string * Value)) (key : string) : Z :=
  match map_get key fields with
  | Some (VInt KInt64 raw) => raw
  | _ => 0
  end.

Definition validateCommandShape (cmd : command) : res session_error unit :=
  let kind := cmd_Kind cmd in
  _ ← reject_if ((cmd_TurnID cmd == "") || negb (utf8_ValidString (cmd_TurnID cmd))) ErrInvalidCommand;
  _ ← reject_if (cmd_TurnLeaseGeneration cmd <=? 0) ErrInvalidCommand;
  if (kind == commandOpenTurn) || (kind == commandCompleteTurn) then Ok tt
  else if kind == commandPrepareModel then
    reject_if ((cmd_EffectID cmd == "") || (cmd_RequestDigest cmd == "")) ErrInvalidCommand
  else if kind == commandDispatchModel then
    reject_if ((cmd_EffectID cmd == "") || (cmd_ProviderRequestID cmd == "")) ErrInvalidCommand
  else if kind == commandSettleModel then
    reject_if ((cmd_EffectID cmd == "") || (cmd_ExternalCommitID cmd == "")) ErrInvalidCommand
  else if kind == commandPrepareTool then
    reject_if ((cmd_EffectID cmd == "") || (cmd_RequestDigest cmd == "")) ErrInvalidCommand
  else if kind == commandDispatchTool then
    reject_if ((cmd_EffectID cmd == "") || (cmd_ProviderRequestID cmd == "")) ErrInvalidCommand
  else if kind == commandCommitTool then
    reject_if ((cmd_EffectID cmd == "") || (cmd_ExternalCommitID cmd == "")) ErrInvalidCommand
  else if kind == commandSettleTool then reject_if (cmd_EffectID cmd == "") ErrInvalidCommand
  else if kind == commandRotatePlacement then
    reject_if (cmd_PlacementGeneration cmd <=? 0) ErrInvalidCommand
  else if kind == commandRotatePolicy then
    reject_if (cmd_PolicyGeneration cmd <=? 0) ErrInvalidCommand
  else Err ErrUnknownCommand.

Section codec.
Context {N : Normalizer}.

Definition state_fields (state : SessionState) : list (string * Value) :=
  [ ("schemaVersion", VInt KInt64 (SchemaVersion state));
    ("eventSequence", VInt KInt64 (EventSequence state));
    ("turnLeaseGeneration", VInt KInt64 (TurnLeaseGeneration state));
    ("placementGeneration", VInt KInt64 (PlacementGeneration state));
    ("policyGeneration", VInt KInt64 (PolicyGeneration state));
    ("activeTurnId", VString (ActiveTurnID state));
    ("turnPhase", VString (TurnPhase state));
    ("effectId", VString (EffectID state));
    ("effectKind", VString (EffectKind state));
    ("effectPhase", VString (EffectPhase state));
    ("effectRequestId", VString (EffectRequestID state));
    ("effectProviderId", VString (EffectProviderID state));
    ("effectExternalId", VString (EffectExternalID state)) ].

Definition encodeState (state : SessionState) : res cerror bytes :=
  Encode (VMap (state_fields state)) DefaultOptions.

(** The initial idle session: an empty stored object. *)
Definition initial_state : SessionState :=
  MkState stateSchemaVersion 0 0 0 0 "" phaseIdle "" "" "" "" "" "".

(** The fields of a state map, in the order the loops read them. *)
Definition read_state (fields : list (string * Value)) : res session_error SessionState :=
  schemaVersion ← reqInt fields "schemaVersion";
  eventSequence ← reqInt fields "eventSequence";
  turnLeaseGeneration ← reqInt fields "turnLeaseGeneration";
  placementGeneration ← reqInt fields "placementGeneration";
  policyGeneration ← reqInt fields "policyGeneration";
  activeTurnID ← reqString fields "activeTurnId";
  turnPhase ← reqString fields "turnPhase";
  effectID ← reqString fields "effectId";
  effectKind ← reqString fields "effectKind";
  effectPhase ← reqString fields "effectPhase";
  effectRequestID ← reqString fields "effectRequestId";
  effectProviderID ← reqString fields "effectProviderId";
  effectExternalID ← reqString fields "effectExternalId";
  Ok (MkState schemaVersion eventSequence turnLeaseGeneration placementGeneration policyGeneration
        activeTurnID turnPhase effectID effectKind effectPhase effectRequestID effectProviderID
        effectExternalID).

Definition decodeState (encoded : bytes) : res session_error SessionState :=
  if zlen encoded =? 0 then Ok initial_state
  else
    value ← wrap_err ErrInvalidState (Decode encoded DefaultOptions);
    match value with
    | VMap fields =>
        state ← read_state fields;
        _ ← reject_if (SchemaVersion state != stateSchemaVersion) ErrInvalidState;
        _ ← reject_if ((EventSequence state <? 0) || (TurnLeaseGeneration state <? 0)
                       || (PlacementGeneration state <? 0) || (PolicyGeneration state <? 0)) ErrInvalidState;
        Ok state
    | _ => Err ErrInvalidState
    end.

Definition DecodeState := decodeState.

(** [if value != zero { fields[key] = value }] *)
Definition opt_field {A} `{EqDecision A} (zero value : A) (key : string) (v : A -> Value)
    : list (string * Value) := if value != zero then [(key, v value)] else [].

Definition command_fields (cmd : command) : list (string * Value) :=
  [ ("kind", VString (cmd_Kind cmd));
    ("turnId", VString (cmd_TurnID cmd));
    ("turnLeaseGeneration", VInt KInt64 (cmd_TurnLeaseGeneration cmd)) ]
  ++ opt_field "" (cmd_EffectID cmd) "effectId" VString
  ++ opt_field "" (cmd_RequestDigest cmd) "requestDigest" VString
  ++ opt_field "" (cmd_ProviderRequestID cmd) "providerRequestId" VString
  ++ opt_field "" (cmd_ExternalCommitID cmd) "externalCommitId" VString
  ++ opt_field 0 (cmd_PlacementGeneration cmd) "placementGeneration" (VInt KInt64)
  ++ opt_field 0 (cmd_PolicyGeneration cmd) "policyGeneration" (VInt KInt64).

Definition encodeCommand (cmd : command) : res cerror bytes :=
  Encode (VMap (command_fields cmd)) DefaultOptions.

Definition read_command (fields : list (string * Value)) : res session_error command :=
  kind ← reqString fields "kind";
  turnID ← reqString fields "turnId";
  turnLeaseGeneration ← reqInt fields "turnLeaseGeneration";
  Ok (MkCommand kind turnID (optString fields "effectId") (optString fields "requestDigest")
        (optString fields "providerRequestId") (optString fields "externalCommitId")
        turnLeaseGeneration (optInt fields "placementGeneration") (optInt fields "policyGeneration")).

Definition decodeCommand (encoded : bytes) : res session_error command :=
  value ← wrap_err ErrInvalidCommand (Decode encoded DefaultOptions);
  match value with
  | VMap fields =>
      cmd ← read_command fields;
      _ ← validateCommandShape cmd;
      Ok cmd
  | _ => Err ErrInvalidCommand
  end.

(** ** The exported command encoders *)
Definition EncodeOpenTurn (turnID : string) (turnLeaseGeneration : Z) : res cerror bytes :=
  encodeCommand (MkCommand commandOpenTurn turnID "" "" "" "" turnLeaseGeneration 0 0).
Definition EncodeCompleteTurn (turnID : string) (turnLeaseGeneration : Z) : res cerror bytes :=
  encodeCommand (MkCommand commandCompleteTurn turnID "" "" "" "" turnLeaseGeneration 0 0).
Definition EncodePrepareModelEffect (turnID effectID requestDigest : string) (turnLeaseGeneration : Z) :=
  encodeCommand (MkCommand commandPrepareModel turnID effectID requestDigest "" "" turnLeaseGeneration 0 0).
Definition EncodeDispatchModelEffect (turnID effectID providerRequestID : string) (turnLeaseGeneration : Z) :=
  encodeCommand (MkCommand commandDispatchModel turnID effectID "" providerRequestID "" turnLeaseGeneration 0 0).
Definition EncodeSettleModelEffect (turnID effectID externalCommitID : string) (turnLeaseGeneration : Z) :=
  encodeCommand (MkCommand commandSettleModel turnID effectID "" "" externalCommitID turnLeaseGeneration 0 0).
Definition EncodePrepareToolEffect (turnID effectID requestDigest : string) (turnLeaseGeneration : Z) :=
  encodeCommand (MkCommand commandPrepareTool turnID effectID requestDigest "" "" turnLeaseGeneration 0 0).
Definition EncodeDispatchToolEffect (turnID effectID providerRequestID : string) (turnLeaseGeneration : Z) :=
  encodeCommand (MkCommand commandDispatchTool turnID effectID "" providerRequestID "" turnLeaseGeneration 0 0).
Definition EncodeCommitToolEffect (turnID effectID externalCommitID : string) (turnLeaseGeneration : Z) :=
  encodeCommand (MkCommand commandCommitTool turnID effectID "" "" externalCommitID turnLeaseGeneration 0 0).
Definition EncodeSettleToolEffect (turnID effectID : string) (turnLeaseGeneration : Z) :=
  encodeCommand (MkCommand commandSettleTool turnID effectID "" "" "" turnLeaseGeneration 0 0).
Definition EncodeDispatchModelEffectAt (turnID effectID providerRequestID : string)
    (placementGeneration turnLeaseGeneration : Z) :=
  encodeCommand (MkCommand commandDispatchModel turnID effectID "" providerRequestID ""
    turnLeaseGeneration placementGeneration 0).
Definition EncodePrepareModelEffectAt (turnID effectID requestDigest : string)
    (policyGeneration turnLeaseGeneration : Z) :=
  encodeCommand (MkCommand commandPrepareModel turnID effectID requestDigest "" ""
    turnLeaseGeneration 0 policyGeneration).
Definition EncodeRotatePlacement (turnID : string) (placementGeneration turnLeaseGeneration : Z) :=
  encodeCommand (MkCommand commandRotatePlacement turnID "" "" "" "" turnLeaseGeneration placementGeneration 0).
Definition EncodeRotatePolicy (turnID : string) (policyGeneration turnLeaseGeneration : Z) :=
  encodeCommand (MkCommand commandRotatePolicy turnID "" "" "" "" turnLeaseGeneration 0 policyGeneration).

(** ** The aggregate *)
Definition ValidateCommand (encoded : bytes) : res session_error unit :=
  _ ← decodeCommand encoded; Ok tt.
Definition ValidateState (encoded : bytes) : res session_error unit :=
  _ ← decodeState encoded; Ok tt.

Definition Authorize (stateBytes commandBytes : bytes) : res session_error unit :=
  state ← decodeState stateBytes;
  cmd ← decodeCommand commandBytes;
  reject_if (cmd_TurnLeaseGeneration cmd <? TurnLeaseGeneration state) ErrStaleGeneration.

(** The counters [Apply] advances; the sum is an [int64]. *)
Definition advance (state next : SessionState) (cmd : command) : SessionState :=
  set_sequence (set_generations next (cmd_TurnLeaseGeneration cmd) (PlacementGeneration next)
                  (PolicyGeneration next)) (i64 (EventSequence state + 1)).

Definition response_fields (cmd : command) (next : SessionState) : list (string * Value) :=
  [ ("turnId", VString (cmd_TurnID cmd)); ("turnPhase", VString (TurnPhase next));
    ("eventSequence", VInt KInt64 (EventSequence next)) ].

Definition Apply (stateBytes commandBytes : bytes) : res session_error Celld.ApplyResult :=
  state ← decodeState stateBytes;
  cmd ← decodeCommand commandBytes;
  next ← transition state cmd;
  let next := advance state next cmd in
  nextBytes ← lift_err ErrCanonical (encodeState next);
  response ← lift_err ErrCanonical (Encode (VMap (response_fields cmd next)) DefaultOptions);
  Ok (Celld.MkApplyResult nextBytes response []).

Definition session_aggregate : Celld.Aggregate session_error :=
  Celld.MkAggregate session_error ValidateCommand ValidateState Authorize Apply.
End codec.
