(* ===== verification/SessionLadder.v ===== *)
(** * The turn ladder as an abstract machine

    What the session aggregate promises: a turn is in one of nine abstract
    positions, each carrying exactly the identifiers it needs, and a command
    moves it along the ladder.  [transition] is proved to implement it. *)

From S2P Require Import Prelude GoText GoCrypto Canonical SessionState.
#[local] Open Scope string_scope.
#[local] Open Scope list_scope.
#[local] Open Scope Z_scope.

(** ** The abstract machine *)
Inductive turn :=
| Idle
| Accepted (t : string)
| ModelPrepared (t e request : string)
| ModelDispatched (t e request provider : string)
| ModelSettled (t : string)
| ToolPrepared (t e request : string)
| ToolDispatched (t e request provider : string)
| ToolCommitted (t e request provider external : string)
| ToolSettled (t : string).

(** A session: its turn and the two generations that fence effects. *)
Record asession := MkSession { a_turn : turn; a_placement : Z; a_policy : Z }.

(** The identifiers of the command that a step uses. *)
Inductive astep : asession -> command -> asession -> Prop :=
| step_open p q cmd :
    cmd_Kind cmd = commandOpenTurn ->
    astep (MkSession Idle p q) cmd (MkSession (Accepted (cmd_TurnID cmd)) p q)
| step_complete tn p q cmd :
    cmd_Kind cmd = commandCompleteTurn ->
    tn = Accepted (cmd_TurnID cmd) \/ tn = ModelSettled (cmd_TurnID cmd) \/ tn = ToolSettled (cmd_TurnID cmd) ->
    astep (MkSession tn p q) cmd (MkSession Idle p q)
| step_prepare_model p q cmd :
    cmd_Kind cmd = commandPrepareModel -> q <= cmd_PolicyGeneration cmd ->
    astep (MkSession (Accepted (cmd_TurnID cmd)) p q) cmd
      (MkSession (ModelPrepared (cmd_TurnID cmd) (cmd_EffectID cmd) (cmd_RequestDigest cmd)) p q)
| step_dispatch_model request p q cmd :
    cmd_Kind cmd = commandDispatchModel -> p <= cmd_PlacementGeneration cmd ->
    astep (MkSession (ModelPrepared (cmd_TurnID cmd) (cmd_EffectID cmd) request) p q) cmd
      (MkSession (ModelDispatched (cmd_TurnID cmd) (cmd_EffectID cmd) request (cmd_ProviderRequestID cmd)) p q)
| step_settle_model request provider p q cmd :
    cmd_Kind cmd = commandSettleModel ->
    astep (MkSession (ModelDispatched (cmd_TurnID cmd) (cmd_EffectID cmd) request provider) p q) cmd
      (MkSession (ModelSettled (cmd_TurnID cmd)) p q)
| step_prepare_tool p q cmd :
    cmd_Kind cmd = commandPrepareTool -> q <= cmd_PolicyGeneration cmd ->
    astep (MkSession (ModelSettled (cmd_TurnID cmd)) p q) cmd
      (MkSession (ToolPrepared (cmd_TurnID cmd) (cmd_EffectID cmd) (cmd_RequestDigest cmd)) p q)
| step_dispatch_tool request p q cmd :
    cmd_Kind cmd = commandDispatchTool -> p <= cmd_PlacementGeneration cmd ->
    astep (MkSession (ToolPrepared (cmd_TurnID cmd) (cmd_EffectID cmd) request) p q) cmd
      (MkSession (ToolDispatched (cmd_TurnID cmd) (cmd_EffectID cmd) request (cmd_ProviderRequestID cmd)) p q)
| step_commit_tool request provider p q cmd :
    cmd_Kind cmd = commandCommitTool ->
    astep (MkSession (ToolDispatched (cmd_TurnID cmd) (cmd_EffectID cmd) request provider) p q) cmd
      (MkSession (ToolCommitted (cmd_TurnID cmd) (cmd_EffectID cmd) request provider (cmd_ExternalCommitID cmd)) p q)
| step_settle_tool request provider external p q cmd :
    cmd_Kind cmd = commandSettleTool ->
    astep (MkSession (ToolCommitted (cmd_TurnID cmd) (cmd_EffectID cmd) request provider external) p q) cmd
      (MkSession (ToolSettled (cmd_TurnID cmd)) p q)
| step_rotate_placement tn p q cmd :
    cmd_Kind cmd = commandRotatePlacement -> p < cmd_PlacementGeneration cmd ->
    astep (MkSession tn p q) cmd (MkSession tn (cmd_PlacementGeneration cmd) q)
| step_rotate_policy tn p q cmd :
    cmd_Kind cmd = commandRotatePolicy -> q < cmd_PolicyGeneration cmd ->
    astep (MkSession tn p q) cmd (MkSession tn p (cmd_PolicyGeneration cmd)).

(** ** The refinement relation *)

(** The eight text fields of a state: turn, turn phase, effect, kind, effect
    phase, request, provider, external commit. *)
Definition turn_fields (tn : turn) : list string :=
  match tn with
  | Idle => [""; phaseIdle; ""; ""; ""; ""; ""; ""]
  | Accepted t => [t; phaseAccepted; ""; ""; ""; ""; ""; ""]
  | ModelPrepared t e r => [t; phaseModelPrepared; e; effectKindModel; effectPhasePrepared; r; ""; ""]
  | ModelDispatched t e r p => [t; phaseModelDispatched; e; effectKindModel; effectPhaseDispatched; r; p; ""]
  | ModelSettled t => [t; phaseModelSettled; ""; ""; ""; ""; ""; ""]
  | ToolPrepared t e r => [t; phaseToolPrepared; e; effectKindTool; effectPhasePrepared; r; ""; ""]
  | ToolDispatched t e r p => [t; phaseToolDispatched; e; effectKindTool; effectPhaseDispatched; r; p; ""]
  | ToolCommitted t e r p x => [t; phaseToolExternalCommit; e; effectKindTool; effectPhaseCommitted; r; p; x]
  | ToolSettled t => [t; phaseToolSettled; ""; ""; ""; ""; ""; ""]
  end.
Definition state_texts (s : SessionState) : list string :=
  [ActiveTurnID s; TurnPhase s; EffectID s; EffectKind s; EffectPhase s; EffectRequestID s;
   EffectProviderID s; EffectExternalID s].

(** Every identifier of a position is present. *)
Definition turn_ids (tn : turn) : list string :=
  match tn with
  | Idle => []
  | Accepted t | ModelSettled t | ToolSettled t => [t]
  | ModelPrepared t e r | ToolPrepared t e r => [t; e; r]
  | ModelDispatched t e r p | ToolDispatched t e r p => [t; e; r; p]
  | ToolCommitted t e r p x => [t; e; r; p; x]
  end.

Definition represents (s : SessionState) (a : asession) : Prop :=
  state_texts s = turn_fields (a_turn a) /\ Forall (fun id => id <> "") (turn_ids (a_turn a)) /\
  PlacementGeneration s = a_placement a /\ PolicyGeneration s = a_policy a.

(** Evaluate the comparisons of a command's kind with the constants. *)
Ltac eval_kind :=
  repeat match goal with
  | |- context [bool_decide (?a = ?b)] =>
      is_const a; is_const b;
      first [ change (bool_decide (a = b)) with false | change (bool_decide (a = b)) with true ]
  end.

(** What the shape check guarantees of the identifiers a step reads. *)
Definition shaped (cmd : command) : Prop :=
  cmd_TurnID cmd <> "" /\ utf8_ValidString (cmd_TurnID cmd) = true /\ 0 < cmd_TurnLeaseGeneration cmd /\
  (cmd_Kind cmd = commandPrepareModel \/ cmd_Kind cmd = commandPrepareTool ->
     cmd_EffectID cmd <> "" /\ cmd_RequestDigest cmd <> "") /\
  (cmd_Kind cmd = commandDispatchModel \/ cmd_Kind cmd = commandDispatchTool ->
     cmd_EffectID cmd <> "" /\ cmd_ProviderRequestID cmd <> "") /\
  (cmd_Kind cmd = commandCommitTool -> cmd_EffectID cmd <> "" /\ cmd_ExternalCommitID cmd <> "").

(** Two identifiers that a [reject_if] keeps from being empty. *)
Local Ltac two_ids H :=
  revert H; eval_kind; cbn; unfold reject_if; case_match; [done|]; intros _;
  match goal with E : _ || _ = false |- _ => apply orb_false_elim in E as [? ?] end;
  split; by eapply bool_decide_eq_false_1.

Lemma validate_shaped cmd : validateCommandShape cmd = Ok tt -> shaped cmd.
Proof.
  unfold validateCommandShape, shaped. intros H.
  apply reject_if_ok in H as [[Ht Hu%negb_false_iff]%orb_false_elim H]. apply bool_decide_eq_false in Ht.
  apply reject_if_ok in H as [Hl%Z.leb_gt H]. split_and!; try done.
  - intros [Hk|Hk]; rewrite Hk in H; two_ids H.
  - intros [Hk|Hk]; rewrite Hk in H; two_ids H.
  - intros Hk; rewrite Hk in H; two_ids H.
Qed.

Lemma requireActiveTurn_ok s t :
  requireActiveTurn s t = Ok tt <-> ActiveTurnID s <> "" /\ ActiveTurnID s = t.
Proof.
  unfold requireActiveTurn, reject_if.
  destruct (bool_decide_reflect (ActiveTurnID s = "")), (bool_decide_reflect (ActiveTurnID s <> t)) as [|Hd];
    simpl; try naive_solver. apply dec_stable in Hd. naive_solver.
Qed.

Lemma requireActiveEffect_ok s cmd kind ephase tphase :
  requireActiveEffect s cmd kind ephase tphase = Ok tt <->
  (ActiveTurnID s <> "" /\ ActiveTurnID s = cmd_TurnID cmd) /\ TurnPhase s = tphase /\
  EffectID s = cmd_EffectID cmd /\ EffectKind s = kind /\ EffectPhase s = ephase.
Proof.
  unfold requireActiveEffect. rewrite bind_ok. setoid_rewrite reject_if_ok.
  unfold reject_if. rewrite <- requireActiveTurn_ok. split.
  - intros ([] & Ht & Hp & He). case_match eqn:Hor; [done|].
    rewrite !orb_false_iff, !bool_decide_eq_false in Hor. apply bool_decide_eq_false in Hp.
    apply dec_stable in Hp. destruct Hor as [[He1%dec_stable He2%dec_stable] He3%dec_stable]. done.
  - intros (Ht & Hp & He1 & He2 & He3). exists tt. split; [done|].
    rewrite !bool_decide_eq_false_2 by congruence. done.
Qed.

(** Split the reduced comparisons of [transition] on the command's kind. *)
Ltac case_kind H :=
  unfold transition in H;
  repeat match type of H with
  | context [if bool_decide (cmd_Kind ?c = ?k) then _ else _] =>
      let E := fresh "Hkind" in destruct (bool_decide_reflect (cmd_Kind c = k)) as [E|_]
  end.

(** Turn the guards that let a step through into equations. *)
Ltac norm_guards :=
  repeat match goal with
  | E : _ || _ = false |- _ => apply orb_false_elim in E as [? ?]
  | E : bool_decide (_ = _) = false |- _ => apply bool_decide_eq_false in E
  | E : requireActiveEffect _ _ _ _ _ = Ok ?u |- _ =>
      destruct u; apply requireActiveEffect_ok in E as ([? ?] & ? & ? & ? & ?)
  | E : bool_decide (_ <> _) = false |- _ => apply bool_decide_eq_false, dec_stable in E
  | E : (_ <? _) = false |- _ => apply Z.ltb_ge in E
  | E : (_ <=? _) = false |- _ => apply Z.leb_gt in E
  end.

(** Discard the positions that a guard or an empty identifier excludes. *)
Ltac drop_impossible :=
  repeat match goal with
  | E : Forall _ (_ :: _) |- _ => apply Forall_cons in E as [? E]
  | E : negb _ = false |- _ => vm_compute in E; first [discriminate E | clear E]
  end; try congruence.

Lemma transition_sound s a cmd s' :
  represents s a -> shaped cmd -> transition s cmd = Ok s' ->
  exists a', astep a cmd a' /\ represents s' a'.
Proof.
  intros (Htexts & Hids & Hp & Hq) (Hturn & _ & Hlease & Hprep & Hdisp & Hcomm) H.
  destruct a as [tn p q], s. simpl in *. subst p q.
  case_kind H; unfold prepareEffect, dispatchEffect in H; inv_ok H; simplify_eq; norm_guards;
    unfold state_texts in Htexts; simpl in *; destruct tn; simplify_eq/=; drop_impossible.
  all: eexists; (split; [econstructor; solve [eassumption | auto]|]); split_and!; simpl; try done.
  all: repeat constructor; naive_solver.
Qed.

(** Every guard of a step the abstract machine can make lets it through. *)
Lemma transition_complete s a cmd a' :
  represents s a -> astep a cmd a' -> exists s', transition s cmd = Ok s'.
Proof.
  intros (Htexts & Hids & Hp & Hq) Hstep. destruct s. unfold state_texts in Htexts. simpl in *.
  destruct Hstep as [? ? ? Hk|? ? ? ? Hk Htn|? ? ? Hk Hf|? ? ? ? Hk Hf|? ? ? ? ? Hk|? ? ? Hk Hf
    |? ? ? ? Hk Hf|? ? ? ? ? Hk|? ? ? ? ? ? Hk|? ? ? ? Hk Hf|? ? ? ? Hk Hf];
    try destruct Htn as [-> |[-> | ->]]; simpl in *; simplify_eq/=; drop_impossible;
    unfold transition, prepareEffect, dispatchEffect; rewrite Hk; eval_kind; cbn -[requireActiveTurn requireActiveEffect].
  all: try (rewrite (proj2 (requireActiveEffect_ok _ _ _ _ _)) by (split_and!; done)).
  all: try (rewrite (proj2 (requireActiveTurn_ok _ _)) by (split_and!; done)).
  all: unfold reject_if; rewrite ?(proj2 (Z.ltb_ge _ _)), ?(proj2 (Z.leb_gt _ _)) by lia.
  all: by eexists.
Qed.

(** What no command changes. *)
Lemma transition_frame s cmd s' :
  transition s cmd = Ok s' ->
  SchemaVersion s' = SchemaVersion s /\ EventSequence s' = EventSequence s /\
  TurnLeaseGeneration s' = TurnLeaseGeneration s /\
  PlacementGeneration s <= PlacementGeneration s' /\ PolicyGeneration s <= PolicyGeneration s' /\
  PlacementGeneration s' ∈ [PlacementGeneration s; cmd_PlacementGeneration cmd] /\
  PolicyGeneration s' ∈ [PolicyGeneration s; cmd_PolicyGeneration cmd].
Proof.
  intros H. case_kind H; unfold prepareEffect, dispatchEffect in H; inv_ok H; simplify_eq; norm_guards;
    simpl; split_and!; try done; try lia; set_solver.
Qed.

Lemma transition_turn s cmd s' :
  transition s cmd = Ok s' ->
  ActiveTurnID s' = ActiveTurnID s \/ ActiveTurnID s' = cmd_TurnID cmd \/ ActiveTurnID s' = "".
Proof.
  intros H. case_kind H; unfold prepareEffect, dispatchEffect in H; inv_ok H; simplify_eq; simpl; auto.
Qed.

(** ** Runs of the aggregate

    One accepted command: the shape check, the lease fence, the ladder, the
    counters, and the limit of the encoding on the event sequence. *)
Definition exec (s : SessionState) (cmd : command) : res session_error SessionState :=
  _ ← validateCommandShape cmd;
  _ ← reject_if (cmd_TurnLeaseGeneration cmd <? TurnLeaseGeneration s) ErrStaleGeneration;
  next ← transition s cmd;
  _ ← reject_if (maxSafeInteger <? EventSequence s + 1) (ErrCanonical ErrInvalidValue);
  Ok (advance s next cmd).

(** The states a session goes through, with the commands it accepted. *)
Inductive reach : SessionState -> list command -> Prop :=
| reach_init : reach initial_state []
| reach_step s cmds cmd s' : reach s cmds -> exec s cmd = Ok s' -> reach s' (cmds ++ [cmd]).

(** The kinds of the accepted commands of the current turn, rotations left out. *)
Definition log_command (log : list string) (cmd : command) : list string :=
  let kind := cmd_Kind cmd in
  if bool_decide (kind = commandRotatePlacement) || bool_decide (kind = commandRotatePolicy) then log
  else if bool_decide (kind = commandCompleteTurn) then []
  else log ++ [kind].
Definition turn_log (cmds : list command) : list string := foldl log_command [] cmds.

(** The ladder up to a position. *)
Definition ladder_kinds : list string :=
  [commandOpenTurn; commandPrepareModel; commandDispatchModel; commandSettleModel;
   commandPrepareTool; commandDispatchTool; commandCommitTool; commandSettleTool].
Definition turn_rank (tn : turn) : nat :=
  match tn with
  | Idle => 0 | Accepted _ => 1 | ModelPrepared _ _ _ => 2 | ModelDispatched _ _ _ _ => 3
  | ModelSettled _ => 4 | ToolPrepared _ _ _ => 5 | ToolDispatched _ _ _ _ => 6
  | ToolCommitted _ _ _ _ _ => 7 | ToolSettled _ => 8
  end.

Lemma astep_log a cmd a' :
  astep a cmd a' ->
  log_command (take (turn_rank (a_turn a)) ladder_kinds) cmd = take (turn_rank (a_turn a')) ladder_kinds.
Proof.
  intros Hstep. unfold log_command.
  destruct Hstep as [? ? ? Hk|? ? ? ? Hk Htn|? ? ? Hk Hf|? ? ? ? Hk Hf|? ? ? ? ? Hk|? ? ? Hk Hf
    |? ? ? ? Hk Hf|? ? ? ? ? Hk|? ? ? ? ? ? Hk|? ? ? ? Hk Hf|? ? ? ? Hk Hf]; rewrite Hk; eval_kind; done.
Qed.

Lemma astep_functional a cmd a1 a2 : astep a cmd a1 -> astep a cmd a2 -> a1 = a2.
Proof.
  intros H1 H2. destruct H1 as [? ? ? Hk|? ? ? ? Hk ?|? ? ? Hk ?|? ? ? ? Hk ?|? ? ? ? ? Hk|? ? ? Hk ?
    |? ? ? ? Hk ?|? ? ? ? ? Hk|? ? ? ? ? ? Hk|? ? ? ? Hk ?|? ? ? ? Hk ?];
    inversion H2; match goal with E : cmd_Kind _ = _ |- _ => rewrite Hk in E; try discriminate E end;
    by simplify_eq.
Qed.

Lemma initial_represents : represents initial_state (MkSession Idle 0 0).
Proof. by repeat constructor. Qed.

Lemma represents_counters s a sequence lease :
  represents s a -> represents (set_sequence (set_generations s lease (PlacementGeneration s) (PolicyGeneration s)) sequence) a.
Proof. done. Qed.

(** A state of a run: its abstract position, its log and its counters. *)
Definition on_ladder (s : SessionState) (cmds : list command) (a : asession) : Prop :=
  represents s a /\ utf8_ValidString (ActiveTurnID s) = true /\ turn_log cmds = take (turn_rank (a_turn a)) ladder_kinds /\
  SchemaVersion s = stateSchemaVersion /\ EventSequence s = zlen cmds /\ zlen cmds <= maxSafeInteger /\
  0 <= TurnLeaseGeneration s /\ 0 <= PlacementGeneration s /\ 0 <= PolicyGeneration s.

Lemma exec_inv s cmd s' :
  exec s cmd = Ok s' ->
  shaped cmd /\ TurnLeaseGeneration s <= cmd_TurnLeaseGeneration cmd /\ EventSequence s + 1 <= maxSafeInteger /\
  exists next, transition s cmd = Ok next /\ s' = advance s next cmd.
Proof.
  unfold exec. intros ([] & Hshape & H)%bind_ok. apply validate_shaped in Hshape.
  apply reject_if_ok in H as [Hl%Z.ltb_ge H]. apply bind_ok in H as (next & Ht & H).
  apply reject_if_ok in H as [He%Z.ltb_ge [= <-]]. split_and!; try done. by exists next.
Qed.

Lemma exec_on_ladder s cmds a cmd s' :
  on_ladder s cmds a -> exec s cmd = Ok s' ->
  exists a', astep a cmd a' /\ on_ladder s' (cmds ++ [cmd]) a'.
Proof.
  intros (Hr & Hutf & Hlog & Hsch & Hseq & Hmax & Hl & Hp & Hq) (Hsh & Hlease & Hev & next & Ht & ->)%exec_inv.
  destruct (transition_sound _ _ _ _ Hr Hsh Ht) as (a' & Hstep & Hr').
  pose proof (transition_turn _ _ _ Ht) as Hturn.
  apply transition_frame in Ht as (Hs1 & Hs2 & Hs3 & Hp' & Hq' & _). exists a'. split; [done|].
  assert (Hz : zlen (cmds ++ [cmd]) = zlen cmds + 1) by (by rewrite zlen_app).
  pose proof (zlen_nonneg cmds). destruct Hsh as (_ & Hutf' & Hlpos & _).
  unfold on_ladder, turn_log. rewrite foldl_snoc. unfold turn_log in Hlog. rewrite Hlog, (astep_log _ _ _ Hstep).
  unfold advance. split_and!; try done; simpl; try lia.
  { by destruct Hturn as [-> |[-> | ->]]. }
  rewrite Hz, Hseq, i64_id; [done|]. unfold is_i64, maxSafeInteger in *. lia.
Qed.

Lemma reach_on_ladder s cmds : reach s cmds -> exists a, on_ladder s cmds a.
Proof.
  induction 1 as [|s cmds cmd s' _ [a Ha] He].
  - exists (MkSession Idle 0 0). split; [exact initial_represents|]. done.
  - destruct (exec_on_ladder _ _ _ _ _ Ha He) as (a' & _ & Ha'). by exists a'.
Qed.

(** ** Fences *)
Definition runs : SessionState -> SessionState -> Prop := rtc (fun s s' => exists cmd, exec s cmd = Ok s').

(** The generations of a state, least first compared. *)
Definition gens_le (s s' : SessionState) : Prop :=
  TurnLeaseGeneration s <= TurnLeaseGeneration s' /\ PlacementGeneration s <= PlacementGeneration s' /\
  PolicyGeneration s <= PolicyGeneration s'.

#[global] Instance gens_le_preorder : PreOrder gens_le.
Proof. split; [intros s|intros s1 s2 s3]; unfold gens_le; lia. Qed.

Lemma exec_gens s cmd s' : exec s cmd = Ok s' -> gens_le s s'.
Proof.
  intros (_ & Hl & _ & next & Ht & ->)%exec_inv. apply transition_frame in Ht as (_ & _ & _ & Hp & Hq & _).
  unfold gens_le, advance. simpl. lia.
Qed.

Lemma runs_gens s s' : runs s s' -> gens_le s s'.
Proof. induction 1 as [|s s1 s' [cmd He] _ IH]; [done|]. etrans; [by eapply exec_gens|done]. Qed.

(** A command minted under generations older than the state's is fenced out. *)
Definition stale (s : SessionState) (cmd : command) : Prop :=
  cmd_TurnLeaseGeneration cmd < TurnLeaseGeneration s \/
  (cmd_Kind cmd = commandDispatchModel \/ cmd_Kind cmd = commandDispatchTool) /\
    cmd_PlacementGeneration cmd < PlacementGeneration s \/
  (cmd_Kind cmd = commandPrepareModel \/ cmd_Kind cmd = commandPrepareTool) /\
    cmd_PolicyGeneration cmd < PolicyGeneration s.

Lemma stale_rejected s cmd : stale s cmd -> forall s', exec s cmd <> Ok s'.
Proof.
  intros Hst s' (_ & Hl & _ & next & Ht & _)%exec_inv. destruct Hst as [?|[[Hk Hf]|[Hk Hf]]]; [lia| |].
  all: unfold transition in Ht; destruct Hk as [Hk|Hk]; rewrite Hk in Ht; revert Ht; eval_kind; cbn;
    unfold prepareEffect, dispatchEffect; intros Ht; inv_ok Ht; norm_guards; lia.
Qed.

(** ** Progress

    The command that takes a turn one step towards its end, at the generations
    of the state. *)
Definition finishing_command (s : SessionState) (a : asession) : command :=
  let mk kind effect digest provider external :=
    MkCommand kind (ActiveTurnID s) effect digest provider external
      (Z.max 1 (TurnLeaseGeneration s)) (PlacementGeneration s) (PolicyGeneration s) in
  match a_turn a with
  | ModelPrepared _ e _ => mk commandDispatchModel e "" "provider" ""
  | ModelDispatched _ e _ _ => mk commandSettleModel e "" "" "commit"
  | ToolPrepared _ e _ => mk commandDispatchTool e "" "provider" ""
  | ToolDispatched _ e _ _ => mk commandCommitTool e "" "" "commit"
  | ToolCommitted _ e _ _ _ => mk commandSettleTool e "" "" ""
  | _ => mk commandCompleteTurn "" "" "" ""
  end.

(** Steps to the end of the turn. *)
Definition distance (tn : turn) : nat :=
  match tn with
  | Idle => 0 | Accepted _ | ModelSettled _ | ToolSettled _ => 1
  | ModelDispatched _ _ _ _ | ToolCommitted _ _ _ _ _ => 2
  | ModelPrepared _ _ _ | ToolDispatched _ _ _ _ => 3 | ToolPrepared _ _ _ => 4
  end.

Lemma finishing_shape s a :
  represents s a -> utf8_ValidString (ActiveTurnID s) = true -> a_turn a <> Idle ->
  validateCommandShape (finishing_command s a) = Ok tt.
Proof.
  intros (Htexts & Hids & _) Hutf Hne. destruct a as [tn p q], s. unfold state_texts in Htexts. simpl in *.
  unfold finishing_command, validateCommandShape. destruct tn; [done|..]; simplify_eq/=; drop_impossible;
    rewrite (bool_decide_eq_false_2 (t = "")), Hutf, (proj2 (Z.leb_gt _ _)) by (done || lia); eval_kind;
    cbn; rewrite ?(bool_decide_eq_false_2 (e = "")) by done; done.
Qed.

Lemma finishing_astep s a :
  represents s a -> a_turn a <> Idle ->
  exists a', astep a (finishing_command s a) a' /\ distance (a_turn a) = S (distance (a_turn a')) /\
    a_placement a' = a_placement a /\ a_policy a' = a_policy a.
Proof.
  intros (Htexts & _ & Hp & Hq) Hne. destruct a as [tn p q], s. unfold state_texts in Htexts. simpl in *.
  destruct tn; [done|..]; simplify_eq/=; set (cmd := finishing_command _ _);
    eexists; (split; [first [ apply (step_complete _ _ _ cmd); [done|auto]
      | eapply (step_dispatch_model _ _ _ cmd); [done|simpl; lia] | by eapply (step_settle_model _ _ _ _ cmd)
      | eapply (step_dispatch_tool _ _ _ cmd); [done|simpl; lia] | by eapply (step_commit_tool _ _ _ _ cmd)
      | by eapply (step_settle_tool _ _ _ _ _ cmd) ]|done]).
Qed.

Lemma finishing_step s cmds a :
  on_ladder s cmds a -> a_turn a <> Idle -> zlen cmds + 1 <= maxSafeInteger ->
  exists s' a', exec s (finishing_command s a) = Ok s' /\
    on_ladder s' (cmds ++ [finishing_command s a]) a' /\ distance (a_turn a) = S (distance (a_turn a')).
Proof.
  intros Hon Hne Hmax. pose proof Hon as (Hr & Hutf & _ & _ & Hseq & _ & Hl & _).
  pose proof (finishing_shape _ _ Hr Hutf Hne) as Hshape.
  destruct (finishing_astep _ _ Hr Hne) as (a' & Hstep & Hd & _).
  set (cmd := finishing_command s a) in *.
  destruct (transition_complete _ _ _ _ Hr Hstep) as [next Ht].
  assert (He : exec s cmd = Ok (advance s next cmd)).
  { unfold exec. rewrite Hshape, Ht. simpl. assert (cmd_TurnLeaseGeneration cmd = Z.max 1 (TurnLeaseGeneration s)) as ->.
    { unfold cmd, finishing_command. by destruct (a_turn a). }
    unfold reject_if. by rewrite !(proj2 (Z.ltb_ge _ _)) by lia. }
  exists (advance s next cmd). destruct (exec_on_ladder _ _ _ _ _ Hon He) as (a1 & Hstep1 & Hon1).
  rewrite (astep_functional _ _ _ _ Hstep1 Hstep) in Hon1. by exists a'.
Qed.

Lemma on_ladder_finishes n s cmds a :
  on_ladder s cmds a -> distance (a_turn a) = n -> zlen cmds + Z.of_nat n <= maxSafeInteger ->
  exists s' cmds' p q, runs s s' /\ on_ladder s' cmds' (MkSession Idle p q).
Proof.
  revert s cmds a. induction n as [|n IH]; intros s cmds a Hon Hd Hmax.
  - exists s, cmds, (a_placement a), (a_policy a). split; [constructor|].
    destruct a as [tn p q]. by destruct tn.
  - destruct (finishing_step s cmds a Hon) as (s1 & a1 & He & Hon1 & Hd1);
      [by intros Hi; rewrite Hi in Hd|lia|].
    destruct (IH s1 _ a1 Hon1) as (s' & cmds' & p & q & Hruns & Hon');
      [lia|rewrite zlen_app; change (zlen [_]) with 1; lia|].
    exists s', cmds', p, q. split; [eapply rtc_l; [by eexists|done]|done].
Qed.

(** ** The claims *)


(** The accepted commands of a turn are a prefix of the ladder, in its order,
    whatever was rejected in between: a tool effect settles only after its external
    commit was recorded, and at most one effect is active.  The event sequence
    counts the accepted commands and stays in the safe integer range. *)
Theorem accepted_commands_follow_ladder s cmds :
  reach s cmds ->
  exists a, represents s a /\ turn_log cmds = take (turn_rank (a_turn a)) ladder_kinds /\
    SchemaVersion s = stateSchemaVersion /\ EventSequence s = zlen cmds /\ zlen cmds <= maxSafeInteger.
Proof.
  intros (a & Hr & _ & Hlog & Hsch & Hseq & Hmax & _)%reach_on_ladder. by exists a.
Qed.

(** Generations never go back along a run, and a command that is stale for a
    state (an old lease, a dispatch under an old placement, a prepare under an old
    policy) is rejected in that state and in every later one. *)
Theorem stale_commands_stay_fenced s s' cmd :
  runs s s' -> stale s cmd -> gens_le s s' /\ forall s'', exec s' cmd <> Ok s''.
Proof.
  intros Hruns Hst. pose proof (runs_gens _ _ Hruns) as Hle. split; [done|].
  apply stale_rejected. unfold stale, gens_le in *. destruct Hst as [?|[[? ?]|[? ?]]]; [left|right; left|right; right];
    try split; try done; lia.
Qed.

(** No session gets stuck in a turn: from every state a session can reach (at
    least four commands short of the end of the event sequence), commands exist
    that the aggregate accepts one after another and that bring it back to idle. *)
Theorem turn_can_finish s cmds :
  reach s cmds -> zlen cmds + 4 <= maxSafeInteger ->
  exists s', runs s s' /\ ActiveTurnID s' = "" /\ TurnPhase s' = phaseIdle /\ EffectID s' = "".
Proof.
  intros [a Hon]%reach_on_ladder Hmax.
  destruct (on_ladder_finishes (distance (a_turn a)) s cmds a Hon eq_refl) as (s' & cmds' & p & q & Hruns & Hon').
  { assert (distance (a_turn a) <= 4)%nat by (destruct (a_turn a); simpl; lia). lia. }
  exists s'. destruct Hon' as [[Htexts _] _]. unfold state_texts in Htexts. simpl in Htexts. by simplify_eq.
Qed.

(** ** Witnesses *)
Definition open_cmd : command := MkCommand commandOpenTurn "turn-1" "" "" "" "" 3 0 0.
Definition prepare_cmd : command := MkCommand commandPrepareModel "turn-1" "eff-1" "digest" "" "" 3 0 0.
Definition opened_state : SessionState := MkState 1 1 3 0 0 "turn-1" phaseAccepted "" "" "" "" "" "".
Definition prepared_state : SessionState :=
  MkState 1 2 3 0 0 "turn-1" phaseModelPrepared "eff-1" effectKindModel effectPhasePrepared "digest" "" "".

Lemma opened_reach : reach opened_state [open_cmd].
Proof. apply (reach_step initial_state [] open_cmd); [constructor|vm_compute; reflexivity]. Qed.

Lemma prepared_reach : reach prepared_state [open_cmd; prepare_cmd].
Proof. apply (reach_step opened_state [open_cmd] prepare_cmd); [exact opened_reach|vm_compute; reflexivity]. Qed.


Lemma accepted_commands_follow_ladder_witness :
  exists a, represents prepared_state a /\
    turn_log [open_cmd; prepare_cmd] = take (turn_rank (a_turn a)) ladder_kinds.
Proof.
  destruct (accepted_commands_follow_ladder prepared_state [open_cmd; prepare_cmd] prepared_reach)
    as (a & Hr & Hl & _). exists a. split; [exact Hr|exact Hl].
Defined.

Definition stale_cmd : command := MkCommand commandCompleteTurn "turn-1" "" "" "" "" 2 0 0.
Lemma stale_commands_stay_fenced_witness :
  gens_le opened_state prepared_state /\ exec prepared_state stale_cmd <> Ok prepared_state.
Proof.
  destruct (stale_commands_stay_fenced opened_state prepared_state stale_cmd) as [Hle Hno].
  - apply rtc_once. exists prepare_cmd. vm_compute. reflexivity.
  - left. vm_compute. reflexivity.
  - split; [exact Hle|apply Hno].
Defined.

Lemma turn_can_finish_witness :
  exists s', runs prepared_state s' /\ ActiveTurnID s' = "" /\ TurnPhase s' = phaseIdle /\ EffectID s' = "".
Proof.
  apply (turn_can_finish prepared_state [open_cmd; prepare_cmd]); [exact prepared_reach|].
  vm_compute. discriminate.
Defined.
