(* ===== verification/SessionCodec.v ===== *)
(** * The encodings of session states and commands

    Stored states and commands survive the canonical encoding, and [Apply] on
    encoded bytes is [exec] on the values they stand for. *)

From S2P Require Import Prelude GoText GoCrypto Canonical CanonicalSpec CanonicalProofs SessionState SessionLadder.
From S2P Require Celld.
#[local] Open Scope string_scope.
#[local] Open Scope list_scope.
#[local] Open Scope Z_scope.

(** ** Fields of a map *)
Lemma map_get_list_to_map key (m : list (string * Value)) :
  map_get key m = (list_to_map m : gmap string Value) !! key.
Proof.
  induction m as [|[k v] m IH]; [done|]. simpl. case_decide as Hk.
  - subst. by rewrite lookup_insert_eq.
  - by rewrite lookup_insert_ne.
Qed.

Lemma map_get_perm key (m m' : list (string * Value)) :
  NoDup (map fst m) -> m ≡ₚ m' -> map_get key m = map_get key m'.
Proof.
  intros Hnd Hp. rewrite !map_get_list_to_map. f_equal. by apply list_to_map_proper.
Qed.

Lemma map_get_map (f : Value -> Value) key (m : list (string * Value)) :
  map_get key (map (fun p => (p.1, f p.2)) m) = f <$> map_get key m.
Proof. induction m as [|[k v] m IH]; [done|]. simpl. by case_decide. Qed.

Lemma map_get_app key (m m' : list (string * Value)) :
  map_get key (m ++ m') = match map_get key m with Some v => Some v | None => map_get key m' end.
Proof. induction m as [|[k v] m IH]; [done|]. simpl. by case_decide. Qed.

Lemma map_get_elem key m v : map_get key m = Some v -> (key, v) ∈ m.
Proof.
  induction m as [|[k w] m IH]; [done|]. simpl. case_decide as Hk; [|right; auto].
  intros [= ->]. subst. by left.
Qed.

(** Evaluate the lookups of constant keys. *)
Ltac eval_get :=
  repeat match goal with
  | |- context [map_get ?k ?m] =>
      let v := eval vm_compute in (map_get k m) in change (map_get k m) with v
  end.

Section codec.
Context {N : Normalizer} {NL : NormalizerLaws}.

Lemma canonical_get m key v : canonical (VMap m) -> map_get key m = Some v -> canonical v.
Proof using Type.
  intros (_ & _ & _ & Hv)%canonical_map Hg%map_get_elem. rewrite Forall_forall in Hv.
  by apply (Hv (key, v)).
Qed.

(** A map with distinct keys in NFC is read back field by field. *)
Lemma record_roundtrip m bs :
  Forall (fun p => nfc p.1 = p.1) m -> NoDup (map fst m) -> Encode (VMap m) DefaultOptions = Ok bs ->
  zlen bs <> 0 /\ exists m', Decode bs DefaultOptions = Ok (VMap m') /\ canonical (VMap m') /\
    forall key, map_get key m' = canon <$> map_get key m.
Proof using Type*.
  intros Hk Hnd He. split.
  { apply Encode_ok in He as (_ & _ & -> & _); [|apply default_int_options].
    assert (1 <= zlen (enc (canon (VMap m)))) by (apply enc_nonempty; discriminate). lia. }
  apply decode_of_encode in He as Hd; [|apply default_int_options]. cbn [canon] in Hd. eexists. split; [exact Hd|].
  apply Decode_ok in Hd as (_ & Hc & _). split; [done|]. intros key.
  assert (Heq : map (fun p : string * Value => (nfc p.1, canon p.2)) m = map (fun p => (p.1, canon p.2)) m).
  { apply map_ext_Forall. eapply Forall_impl; [exact Hk|]. intros p Hp. simpl. by rewrite Hp. }
  rewrite Heq, <- map_get_map. symmetry. apply map_get_perm; [|by rewrite sort_by_perm].
  by rewrite map_map.
Qed.

(** ** States *)

(** What a decoded state has: texts in NFC, the schema version, counters that
    the encoding can hold. *)
Definition state_texts_nfc (s : SessionState) : Prop := Forall nfc_text (state_texts s).
Definition state_ok (s : SessionState) : Prop :=
  state_texts_nfc s /\ SchemaVersion s = stateSchemaVersion /\
  Forall (fun z => 0 <= z <= maxSafeInteger)
    [EventSequence s; TurnLeaseGeneration s; PlacementGeneration s; PolicyGeneration s].

Lemma reqInt_ok fields key z : reqInt fields key = Ok z <-> map_get key fields = Some (VInt KInt64 z).
Proof using Type. unfold reqInt. repeat case_match; naive_solver. Qed.
Lemma reqString_ok fields key s : reqString fields key = Ok s <-> map_get key fields = Some (VString s).
Proof using Type. unfold reqString. repeat case_match; naive_solver. Qed.

Lemma canonical_int m key z :
  canonical (VMap m) -> reqInt m key = Ok z -> - maxSafeInteger <= z <= maxSafeInteger.
Proof using Type. intros Hc Hg%reqInt_ok. by apply (canonical_get _ _ _ Hc) in Hg as [_ ?]. Qed.
Lemma canonical_text m key s : canonical (VMap m) -> reqString m key = Ok s -> nfc_text s.
Proof using Type. intros Hc Hg%reqString_ok. by apply (canonical_get _ _ _ Hc) in Hg as [? _]. Qed.

Lemma initial_state_ok : state_ok initial_state.
Proof using Type*.
  split; [|split; [done|by forall_list]]. unfold state_texts_nfc, state_texts. simpl.
  forall_list; by apply ascii_nfc_text.
Qed.

Lemma decodeState_ok bs s : decodeState bs = Ok s -> state_ok s.
Proof using Type*.
  unfold decodeState. case_match eqn:Hz; [intros [= <-]; exact initial_state_ok|]. intros H.
  apply bind_ok in H as (v & Hd%wrap_err_ok & H). apply Decode_ok in Hd as (_ & Hc & _).
  destruct v as [| | | | | | |fields|]; try done. apply bind_ok in H as (st & Hr & H).
  apply reject_if_ok in H as [Hsch H]. apply reject_if_ok in H as [Hneg [= <-]].
  unfold read_state in Hr. inv_ok Hr. simplify_eq.
  repeat match goal with
  | E : reqInt _ _ = Ok _ |- _ => apply (canonical_int _ _ _ Hc) in E
  | E : reqString _ _ = Ok _ |- _ => apply (canonical_text _ _ _ Hc) in E
  end.
  rewrite !orb_false_iff, !Z.ltb_ge in Hneg. apply bool_decide_eq_false, dec_stable in Hsch. simpl in *.
  split; [|split; [done|]]; unfold state_texts_nfc, state_texts; simpl; forall_list; done || lia.
Qed.

Lemma nfc_text_canon s : nfc_text s -> canon (VString s) = VString s.
Proof using Type. intros [_ Hs]. simpl. by rewrite Hs. Qed.

Lemma ascii_keys (m : list (string * Value)) :
  forallb (fun p => is_ascii p.1) m = true -> Forall (fun p => nfc p.1 = p.1) m.
Proof using Type*.
  rewrite forallb_forall. intros Hk. apply Forall_forall. intros p Hp%list_elem_of_In.
  apply nfc_ascii, (Hk p Hp).
Qed.

Lemma encodeState_decode s bs :
  state_texts_nfc s -> SchemaVersion s = stateSchemaVersion ->
  Forall (fun z => 0 <= z) [EventSequence s; TurnLeaseGeneration s; PlacementGeneration s; PolicyGeneration s] ->
  encodeState s = Ok bs -> decodeState bs = Ok s.
Proof using Type*.
  intros Ht Hsch Hpos He. unfold encodeState in He.
  apply record_roundtrip in He as (Hnz & m' & Hd & _ & Hget);
    [|by apply ascii_keys|by apply (bool_decide_unpack _); vm_compute].
  unfold decodeState. rewrite (proj2 (Z.eqb_neq _ _)), Hd by done. cbn [wrap_err mbind res_bind].
  unfold read_state, reqInt, reqString. rewrite !Hget.
  unfold state_texts_nfc, state_texts in Ht. rewrite !Forall_cons in Ht. rewrite !Forall_cons in Hpos.
  destruct Ht as ([_ H1] & [_ H2] & [_ H3] & [_ H4] & [_ H5] & [_ H6] & [_ H7] & [_ H8] & _).
  destruct Hpos as (P1 & P2 & P3 & P4 & _).
  destruct s. simpl in *. eval_get. cbn. rewrite H1, H2, H3, H4, H5, H6, H7, H8, Hsch.
  by rewrite !(proj2 (Z.ltb_ge _ _)) by lia.
Qed.

(** ** Commands *)
Definition command_texts (cmd : command) : list string :=
  [cmd_Kind cmd; cmd_TurnID cmd; cmd_EffectID cmd; cmd_RequestDigest cmd; cmd_ProviderRequestID cmd;
   cmd_ExternalCommitID cmd].
Definition command_ok (cmd : command) : Prop :=
  Forall nfc_text (command_texts cmd) /\ validateCommandShape cmd = Ok tt /\
  Forall (fun z => - maxSafeInteger <= z <= maxSafeInteger)
    [cmd_TurnLeaseGeneration cmd; cmd_PlacementGeneration cmd; cmd_PolicyGeneration cmd].

Lemma optString_nfc m key : canonical (VMap m) -> nfc_text (optString m key).
Proof using Type*.
  intros Hc. unfold optString. destruct (map_get key m) as [v|] eqn:Hg; [|by apply ascii_nfc_text].
  apply (canonical_get _ _ _ Hc) in Hg. destruct v; try by apply ascii_nfc_text. by destruct Hg.
Qed.

Lemma optInt_safe m key : canonical (VMap m) -> - maxSafeInteger <= optInt m key <= maxSafeInteger.
Proof using Type.
  intros Hc. unfold optInt. destruct (map_get key m) as [v|] eqn:Hg; [|done].
  apply (canonical_get _ _ _ Hc) in Hg. repeat case_match; try done. by destruct Hg.
Qed.

Lemma decodeCommand_ok bs cmd : decodeCommand bs = Ok cmd -> command_ok cmd.
Proof using Type*.
  unfold decodeCommand. intros H. apply bind_ok in H as (v & Hd%wrap_err_ok & H).
  apply Decode_ok in Hd as (_ & Hc & _). destruct v as [| | | | | | |fields|]; try done.
  apply bind_ok in H as (c & Hr & H). apply bind_ok in H as ([] & Hs & [= <-]).
  unfold read_command in Hr. inv_ok Hr. simplify_eq. unfold command_ok, command_texts. simpl.
  split; [|split; [done|]]; forall_list;
    eauto using optString_nfc, optInt_safe, canonical_text, canonical_int.
Qed.

Lemma opt_field_get {A} `{EqDecision A} (zero value : A) key (v : A -> Value) k :
  map_get k (opt_field zero value key v) =
  if decide (key = k) then (if decide (value = zero) then None else Some (v value)) else None.
Proof using Type.
  unfold opt_field. case_bool_decide as Hz; repeat case_decide; simpl;
    repeat case_decide; try done; by apply dec_stable in Hz.
Qed.

Lemma command_fields_keys cmd :
  Forall (fun p => is_ascii p.1 = true) (command_fields cmd) /\ NoDup (map fst (command_fields cmd)).
Proof using Type.
  unfold command_fields, opt_field. repeat case_bool_decide; cbn;
    (split; [by forall_list|by apply (bool_decide_unpack _); vm_compute]).
Qed.

Lemma encodeCommand_decode cmd bs :
  Forall nfc_text (command_texts cmd) -> validateCommandShape cmd = Ok tt ->
  encodeCommand cmd = Ok bs -> decodeCommand bs = Ok cmd.
Proof using Type*.
  intros Ht Hs He. unfold encodeCommand in He. destruct (command_fields_keys cmd) as [Hk Hnd].
  apply record_roundtrip in He as (_ & m' & Hd & _ & Hget); [|eapply Forall_impl; [exact Hk|];
    intros p Hp; by apply nfc_ascii|done].
  unfold decodeCommand. rewrite Hd. cbn [wrap_err mbind res_bind].
  unfold command_texts in Ht. rewrite !Forall_cons in Ht.
  destruct Ht as ([_ H1] & [_ H2] & [_ H3] & [_ H4] & [_ H5] & [_ H6] & _).
  assert (Hr : read_command m' = Ok cmd).
  { unfold read_command, reqString, reqInt, optString, optInt. rewrite !Hget. unfold command_fields.
    rewrite !map_get_app, !opt_field_get. destruct cmd. simpl in *.
    cbn. rewrite H1, H2. repeat case_decide; simplify_eq; cbn; rewrite ?H3, ?H4, ?H5, ?H6; done. }
  rewrite Hr. cbn [mbind res_bind]. by rewrite Hs.
Qed.

(** ** [Apply] on encoded bytes *)
Lemma transition_nfc s cmd s' :
  state_texts_nfc s -> Forall nfc_text (command_texts cmd) -> transition s cmd = Ok s' -> state_texts_nfc s'.
Proof using Type*.
  unfold state_texts_nfc, state_texts, command_texts. rewrite !Forall_cons. intros Hs Hc H.
  destruct Hs as (? & ? & ? & ? & ? & ? & ? & ? & _). destruct Hc as (? & ? & ? & ? & ? & ? & _).
  case_kind H; unfold prepareEffect, dispatchEffect in H; inv_ok H; simplify_eq; simpl;
    split_and!; try done; first [by apply List.Forall_nil | by apply ascii_nfc_text].
Qed.

Lemma encodeState_sequence s bs : encodeState s = Ok bs -> EventSequence s <= maxSafeInteger.
Proof using Type*.
  unfold encodeState. intros (_ & m' & _ & Hc & Hget)%record_roundtrip;
    [|by apply ascii_keys|by apply (bool_decide_unpack _); vm_compute].
  specialize (Hget "eventSequence"). destruct s. simpl in *. revert Hget. eval_get. intros Hget.
  by apply (canonical_get _ _ _ Hc) in Hget as [_ [_ ?]].
Qed.

Lemma Apply_exec sb cb r :
  Authorize sb cb = Ok tt -> Apply sb cb = Ok r ->
  exists s cmd s', decodeState sb = Ok s /\ decodeCommand cb = Ok cmd /\ exec s cmd = Ok s' /\
    decodeState (Celld.NextState r) = Ok s' /\
    Encode (VMap (response_fields cmd s')) DefaultOptions = Ok (Celld.Response r) /\
    Celld.CapabilityClaims r = [].
Proof using Type*.
  unfold Authorize, Apply. intros Ha H. apply bind_ok in H as (s & Hs & H).
  apply bind_ok in H as (cmd & Hc & H). apply bind_ok in H as (next & Ht & H).
  apply bind_ok in H as (nb & Hn%lift_err_ok & H). apply bind_ok in H as (resp & Hresp%lift_err_ok & [= <-]).
  rewrite Hs, Hc in Ha. cbn [mbind res_bind] in Ha.
  pose proof (decodeState_ok _ _ Hs) as (Hnfc & Hsch & Hcnt). pose proof (decodeCommand_ok _ _ Hc) as (Hcn & Hshape & _).
  rewrite !Forall_cons in Hcnt. destruct Hcnt as (He & Hl & Hp & Hq & _).
  exists s, cmd, (advance s next cmd). split_and!; try done.
  - pose proof (encodeState_sequence _ _ Hn) as Hmax. unfold advance in Hmax. simpl in Hmax.
    rewrite i64_id in Hmax by (unfold is_i64, maxSafeInteger in *; lia).
    unfold exec. rewrite Hshape, Ha. cbn [mbind res_bind]. rewrite Ht. unfold reject_if. simpl.
    by rewrite (proj2 (Z.ltb_ge _ _)) by lia.
  - pose proof (transition_nfc _ _ _ Hnfc Hcn Ht) as Hnfc'.
    apply validate_shaped in Hshape as (_ & _ & Hlpos & _).
    apply transition_frame in Ht as (Hs1 & _ & _ & Hp' & Hq' & _).
    eapply encodeState_decode; [exact Hnfc'| | |exact Hn]; unfold advance; simpl; [congruence|].
    forall_list; try lia. rewrite i64_id; unfold is_i64, maxSafeInteger in *; lia.
Qed.

(** Stored states and commands survive their encoding: what [encodeState] and
    [encodeCommand] write is read back unchanged, and what the decoders accept is
    always of that kind (normalised texts, a shape-checked command, counters in
    range). *)
Theorem session_codec_roundtrip :
  (forall s bs, state_ok s -> encodeState s = Ok bs -> decodeState bs = Ok s) /\
  (forall cmd bs, command_ok cmd -> encodeCommand cmd = Ok bs -> decodeCommand bs = Ok cmd) /\
  (forall s bs, decodeState bs = Ok s -> state_ok s) /\
  (forall cmd bs, decodeCommand bs = Ok cmd -> command_ok cmd).
Proof using Type*.
  split_and!.
  - intros s bs (Ht & Hs & Hc) He. eapply encodeState_decode; eauto.
    eapply Forall_impl; [exact Hc|]. naive_solver.
  - intros cmd bs (Ht & Hs & _). by apply encodeCommand_decode.
  - intros s bs. apply decodeState_ok.
  - intros cmd bs. apply decodeCommand_ok.
Qed.

(** [Apply] on encoded bytes is one accepted step of the session: an authorised
    command that [Apply] accepts is accepted by [exec] on the decoded state, the
    bytes it returns decode to the state after it, the event sequence does not
    wrap, and no capability claims are issued. *)
Theorem apply_is_exec stateBytes commandBytes r :
  Authorize stateBytes commandBytes = Ok tt -> Apply stateBytes commandBytes = Ok r ->
  exists s cmd s', decodeState stateBytes = Ok s /\ decodeCommand commandBytes = Ok cmd /\
    exec s cmd = Ok s' /\ decodeState (Celld.NextState r) = Ok s' /\
    EventSequence s' = EventSequence s + 1 /\ Celld.CapabilityClaims r = [].
Proof using Type*.
  intros Ha Happ. destruct (Apply_exec _ _ _ Ha Happ) as (s & cmd & s' & Hs & Hc & He & Hs' & _ & Hcl).
  exists s, cmd, s'. split_and!; try done. apply decodeState_ok in Hs as (_ & _ & Hcnt).
  rewrite !Forall_cons in Hcnt. destruct Hcnt as ([H0 _] & _).
  apply exec_inv in He as (_ & _ & Hmax & next & _ & ->). simpl.
  apply i64_id. unfold is_i64, maxSafeInteger in *. lia.
Qed.
End codec.

(** ** Witnesses *)
Definition open_command_bytes : bytes :=
  match EncodeOpenTurn (N := id_normalizer) "turn-1" 3 with Ok b => b | Err _ => [] end.

Lemma apply_is_exec_witness :
  exists r s', Apply (N := id_normalizer) [] open_command_bytes = Ok r /\
    decodeState (N := id_normalizer) (Celld.NextState r) = Ok s' /\ Celld.CapabilityClaims r = [].
Proof.
  destruct (Apply (N := id_normalizer) [] open_command_bytes) as [r|] eqn:Happ;
    [|vm_compute in Happ; discriminate Happ].
  destruct (apply_is_exec (N := id_normalizer) (NL := id_normalizer_laws) [] open_command_bytes r)
    as (s & cmd & s' & _ & _ & _ & Hs' & _ & Hc).
  - vm_compute. reflexivity.
  - exact Happ.
  - exists r, s'. split; [reflexivity|]. split; [exact Hs'|exact Hc].
Defined.

Lemma session_codec_roundtrip_witness :
  exists cmd, decodeCommand (N := id_normalizer) open_command_bytes = Ok cmd /\
    command_ok (N := id_normalizer) cmd /\ encodeCommand (N := id_normalizer) cmd = Ok open_command_bytes /\ cmd_Kind cmd = commandOpenTurn.
Proof.
  destruct (decodeCommand (N := id_normalizer) open_command_bytes) as [cmd|] eqn:Hd;
    [|vm_compute in Hd; discriminate Hd].
  pose proof (session_codec_roundtrip (N := id_normalizer) (NL := id_normalizer_laws)) as (_ & _ & _ & Hok).
  exists cmd. split; [reflexivity|]. split; [exact (Hok cmd open_command_bytes Hd)|].
  vm_compute in Hd. injection Hd as <-. split; vm_compute; reflexivity.
Defined.
