(* ===== verification/CelldProofs.v ===== *)
(** * Theorems about the host, and the session aggregate running under it

    The claims about [Execute] for every storage that keeps the contract, and
    the composition: sessions on the host, on the reference storage, with
    permits sealed by the codec. *)

From S2P Require Import Prelude GoText GoCrypto Canonical CanonicalSpec CanonicalProofs Celld CelldContract Permit SessionState SessionLadder SessionCodec.
#[local] Open Scope string_scope.
#[local] Open Scope list_scope.
#[local] Open Scope Z_scope.

(** ** Sealing *)

(** What a sealer promises: the same binding and claims give the same permit. *)
Class DeterministicSealer {EA} (seal : PermitSealer EA) : Prop :=
  seal_det ctx ctx' b c p p' : seal ctx b c = Ok p -> seal ctx' b c = Ok p' -> p = p'.

#[global] Instance codec_deterministic {N : Normalizer} {EA} codec :
  DeterministicSealer (Seal (EA := EA) codec).
Proof. intros ctx ctx' b c p p'. apply Seal_deterministic. Qed.

Section sealing.
Context {EA : Type} (seal : PermitSealer EA).

Lemma seal_permits_det `{!DeterministicSealer seal} ctx ctx' o c d index claims ps ps' :
  seal_permits seal ctx o c d index claims = Ok ps -> seal_permits seal ctx' o c d index claims = Ok ps' ->
  ps = ps'.
Proof using Type.
  revert index ps ps'. induction claims as [|claim claims IH]; intros index ps ps'; simpl.
  { by intros [= <-] [= <-]. }
  intros (p & Hp & H)%bind_ok (p' & Hp' & H')%bind_ok. pose proof (seal_det _ _ _ _ _ _ Hp Hp') as <-.
  case_match; [done|]. apply bind_ok in H as (q & Hq & [= <-]). apply bind_ok in H' as (q' & Hq' & [= <-]).
  f_equal. by eapply IH.
Qed.

(** The permit at each position is sealed for that position. *)
Lemma seal_permits_lookup ctx o c d index claims ps i p :
  0 <= index -> index + zlen claims <= 2 ^ 32 ->
  seal_permits seal ctx o c d index claims = Ok ps -> ps !! i = Some p ->
  exists claim, claims !! i = Some claim /\ seal ctx (MkBinding o c d (index + Z.of_nat i)) claim = Ok p.
Proof using Type.
  revert index ps i. induction claims as [|claim claims IH]; intros index ps i H0 Hmax Hs Hi; simpl in Hs.
  { by injection Hs as <-. }
  rewrite zlen_cons in Hmax. pose proof (zlen_nonneg claims).
  apply bind_ok in Hs as (p0 & Hp & Hs). case_match; [done|]. apply bind_ok in Hs as (q & Hq & [= <-]).
  destruct i as [|i]; simpl in Hi.
  - injection Hi as <-. exists claim. split; [done|]. rewrite Z.add_0_r.
    unfold u32 in Hp. by rewrite Z.mod_small in Hp by lia.
  - destruct (IH (index + 1) q i) as (claim' & Hc & Hsl); [lia|lia|done..|].
    exists claim'. split; [done|]. by replace (index + Z.of_nat (S i)) with (index + 1 + Z.of_nat i) by lia.
Qed.
End sealing.

(** ** Limits of a host that [NewHost] built *)
Definition positive_limits (l : Limits) : Prop :=
  0 < MaxCommandBytes l /\ 0 < MaxStateBytes l /\ 0 < MaxResponseBytes l /\
  0 < MaxCapabilityClaims l <= 2 ^ 32 - 1 /\ 0 < MaxCapabilityClaimBytes l.

(** The limits are [int]s. *)
Definition int_limits (l : Limits) : Prop := MaxCapabilityClaims l < 2 ^ 63.

Lemma NewHost_ok {EA St Tx} (config : Config EA St Tx) h :
  int_limits (cfg_Limits config) -> NewHost config = Ok h ->
  exists sto agg seal, h = MkHost (Some sto) (Some agg) (Some seal) (with_defaults (cfg_Limits config))
      (cfg_FaultInjector config) /\ positive_limits (limits h).
Proof.
  intros Hint. unfold NewHost. destruct config as [[sto|] [agg|] [seal|] l f]; simpl; try done.
  case_match eqn:Hneg; [done|]. case_match eqn:Hmax; [done|]. intros [= <-].
  exists sto, agg, seal. split; [done|]. simpl. unfold negative_limits in Hneg.
  rewrite !orb_false_iff, !Z.ltb_ge in Hneg. apply Z.ltb_ge in Hmax. simpl in Hint. unfold int_limits in Hint.
  unfold positive_limits, with_defaults, or_default in *. simpl in *.
  assert (Hpos : forall x y : Z, 0 <= x -> 0 < y -> 0 < (if x =? 0 then y else x)).
  { intros x y Hx Hy. destruct (Z.eqb_spec x 0); lia. }
  split_and!; try (apply Hpos; [lia|done]).
  rewrite u64_id in Hmax; [done|]. unfold is_u64. destruct (Z.eqb_spec (MaxCapabilityClaims l) 0); [done|lia].
Qed.

Section host.
Context {N : Normalizer} {EA St Tx : Type}.
Context (sto : Storage EA St Tx) `{C : !StorageContract sto}.
Context (agg : Aggregate EA) (seal : PermitSealer EA) (lim : Limits).
#[local] Abbreviation host := (host sto agg seal lim).
#[local] Abbreviation history := (history sto agg seal lim).

(** C1: [Execute] refines the abstract object.  A call that returns a result made
    one step of its object, in which state and receipt changed together, touched no
    other object, passed the durability barrier for the revision it reports, and
    answers with what the receipt holds; a call that returns an error left the
    object as it was or made that same complete step. *)
Theorem execute_refines faults ctx st request r st' :
  Execute (host faults) ctx st request = (r, st') ->
  execute_outcome sto agg seal lim ctx st request r st'.
Proof using Type*. apply execute_refines_object. Qed.

(** C2: exactly once.  From the moment a command has its receipt, through any
    further calls, faults and restarts, executing that command again never changes
    the state, and an answer to it is the one recorded in the receipt. *)
Theorem command_applied_once st st1 faults ctx request r st2 receipt :
  obj_receipts (view st (req_ObjectID request)) !! req_CommandID request = Some receipt ->
  history st st1 -> Execute (host faults) ctx st1 request = (r, st2) ->
  obj_state (view st2 (req_ObjectID request)) = obj_state (view st1 (req_ObjectID request)) /\
  obj_receipts (view st2 (req_ObjectID request)) !! req_CommandID request = Some receipt /\
  forall result, r = Ok result -> r_Replayed result = true /\ answers seal ctx request receipt result.
Proof using Type*.
  intros Hl Hh He. pose proof (history_receipts _ _ _ _ _ _ (req_ObjectID request) Hh) as Hsub.
  pose proof (lookup_weaken _ _ _ _ Hl Hsub) as Hl1.
  assert (Hh2 : history st1 st2) by (apply rtc_once; by eexists _, _, _, _).
  pose proof (history_receipts _ _ _ _ _ _ (req_ObjectID request) Hh2) as Hsub2.
  split_and!; [| by eapply lookup_weaken|].
  - apply (execute_step sto agg seal lim (req_ObjectID request)) in He.
    destruct He as [->|(_ & rc & replayed & Hs)]; [done|]. by eapply receipted_step in Hs as (_ & _ & ?).
  - intros result ->. apply (execute_refines_object sto agg seal lim) in He as (_ & rc & replayed & st0 & Hs & Ha & Hrep & _).
    eapply receipted_step in Hs as (Hrc & Hrp & _); [|done]. subst. by split; [apply Hrep|].
Qed.

(** A lost response is recovered.  After a call that returned a result, a
    later call for the same object and command either fails or returns the same
    digest, response and permits. *)
Theorem replay_returns_same_result `{!DeterministicSealer seal}
    faults1 ctx1 st0 request1 result1 st1 st2 faults2 ctx2 request2 result2 st3 :
  Execute (host faults1) ctx1 st0 request1 = (Ok result1, st1) -> history st1 st2 ->
  req_ObjectID request2 = req_ObjectID request1 -> req_CommandID request2 = req_CommandID request1 ->
  Execute (host faults2) ctx2 st2 request2 = (Ok result2, st3) ->
  r_CommandDigest result2 = r_CommandDigest result1 /\ r_Response result2 = r_Response result1 /\
  r_Permits result2 = r_Permits result1 /\ r_Replayed result2 = true.
Proof using Type*.
  intros He1 Hh Ho Hc He2.
  apply (execute_refines_object sto agg seal lim) in He1 as (_ & rc & replayed & stb & Hs & (Hd1 & Hr1 & Hp1) & _).
  apply object_step_receipt in Hs as (_ & Hl & _).
  pose proof (history_receipts _ _ _ _ _ _ (req_ObjectID request1) Hh) as Hsub.
  pose proof (lookup_weaken _ _ _ _ Hl Hsub) as Hl2. rewrite <- Ho, <- Hc in Hl2.
  apply (execute_refines_object sto agg seal lim) in He2 as (_ & rc2 & replayed2 & stb2 & Hs2 & (Hd2 & Hr2 & Hp2) & Hrep & _).
  eapply receipted_step in Hs2 as (Hrc & Hrp & _); [|done]. subst.
  split_and!; [congruence..| |by apply Hrep].
  rewrite Hd1 in Hp1. rewrite Hd2, Ho, Hc in Hp2. by eapply seal_permits_det.
Qed.

(** A command that the aggregate does not authorise against the current state
    gets no answer, not even the recorded one, and changes nothing. *)
Theorem unauthorized_command_changes_nothing faults ctx st request r st' e :
  Celld.Authorize agg (obj_state (view st (req_ObjectID request))) (req_Command request) = Err e ->
  Execute (host faults) ctx st request = (r, st') ->
  (exists e', r = Err e') /\ forall id, view st' id = view st id.
Proof using Type*.
  intros Hauth He. apply (execute_refines_object sto agg seal lim) in He as Hout.
  assert (Hno : forall rc rp o', ~ object_step agg lim (view st (req_ObjectID request)) request rc rp o').
  { intros rc rp o' (next & Ho & _). unfold object_outcome, admit_state in Ho.
    rewrite Hauth in Ho. repeat (apply bind_ok in Ho as (? & ? & Ho)).
    match goal with E : _ = Ok _ |- _ => by inv_ok E end. }
  split.
  - destruct r as [result|e']; [|by eexists]. destruct Hout as (_ & rc & rp & ? & Hs & _). by apply Hno in Hs.
  - intros id. apply (execute_step sto agg seal lim id) in He as [?|(-> & rc & rp & Hs)]; [done|].
    by apply Hno in Hs.
Qed.

(** Under a host that [NewHost] built, the permit at position [i] of a result is
    sealed for claim index [i] and the [i]-th claim of the stored receipt: the
    limits keep the 32-bit claim index from wrapping. *)
Theorem permits_sealed_in_place l faults h ctx st request result st' i p :
  int_limits l -> NewHost (MkConfig (Some sto) (Some agg) (Some seal) l faults) = Ok h ->
  Execute (Some h) ctx st request = (Ok result, st') -> r_Permits result !! i = Some p ->
  exists receipt claim,
    obj_receipts (view st' (req_ObjectID request)) !! req_CommandID request = Some receipt /\
    sr_CapabilityClaims receipt !! i = Some claim /\
    seal ctx (MkBinding (req_ObjectID request) (req_CommandID request)
                (sha256_Sum256 (req_Command request)) (Z.of_nat i)) claim = Ok p.
Proof using Type*.
  intros Hint Hnew He Hi. pose proof Hnew as (_ & _ & _ & _ & Hpos)%NewHost_ok; [|exact Hint].
  unfold NewHost in Hnew. cbn in Hnew. case_match; [done|]. case_match; [done|]. injection Hnew as <-. destruct Hpos as (_ & _ & _ & [_ Hmax] & _).
  cbn [limits] in Hmax.
  apply (execute_refines_object sto agg seal) in He as (_ & receipt & replayed & st1 & Hs & (Hd & _ & Hp) & _).
  pose proof (object_step_claims _ _ _ _ _ _ _ Hs) as Hlen.
  apply object_step_receipt in Hs as (Hdig & Hl & _). exists receipt.
  assert (Hsz : 0 + zlen (sr_CapabilityClaims receipt) <= 2 ^ 32) by lia.
  destruct (seal_permits_lookup seal ctx _ _ _ 0 _ _ i p ltac:(done) Hsz Hp Hi) as (claim & Hc & Hsl).
  exists claim. split_and!; try done. by rewrite Hd, Hdig in Hsl.
Qed.
End host.

(** ** Sessions on the host *)
Section session.
Context {N : Normalizer} {NL : NormalizerLaws} {St Tx : Type}.
Context (sto : Storage session_error St Tx) `{C : !StorageContract sto}.
Context (seal : PermitSealer session_error) (lim : Limits).
#[local] Abbreviation host := (host sto session_aggregate seal lim).
#[local] Abbreviation history := (history sto session_aggregate seal lim).

(** A session object: its state is reachable on the ladder, and it holds one
    receipt per accepted command. *)
Definition session_object (o : object) : Prop :=
  exists s cmds, decodeState (obj_state o) = Ok s /\ reach s cmds /\
    EventSequence s = Z.of_nat (size (obj_receipts o)).

Lemma apply_command_session digest state command next receipt :
  apply_command session_aggregate lim digest state command = Ok (next, receipt) ->
  exists r, Apply state command = Ok r /\ next = Celld.NextState r.
Proof using Type.
  unfold apply_command. intros (r & Hr%lift_err_ok & H)%bind_ok. exists r. split; [exact Hr|].
  repeat (case_match; [done|]). by inv_ok H; simplify_eq.
Qed.

Lemma session_object_step o request receipt replayed o' :
  session_object o -> object_step session_aggregate lim o request receipt replayed o' -> session_object o'.
Proof using Type*.
  intros (s & cmds & Hd & Hreach & Hseq) (next & Hout & Hst & Hrc & _). unfold object_outcome in Hout.
  apply bind_ok in Hout as (u & Hadm & Hout). unfold admit_state in Hadm.
  apply reject_if_ok in Hadm as [_ Hadm]. apply bind_ok in Hadm as (v & _ & Hauth%lift_err_ok).
  destruct u. destruct (obj_receipts o !! req_CommandID request) as [stored|] eqn:Hl.
  - apply bind_ok in Hout as (w & _ & [= <- <- _]). exists s, cmds. by rewrite Hst, Hrc, insert_id.
  - apply bind_ok in Hout as ([n rc] & Happ & [= <- <- _]).
    apply apply_command_session in Happ as (r & Happ & ->).
    destruct (Apply_exec _ _ _ Hauth Happ) as (s1 & cmd & s' & Hd1 & _ & He & Hd' & _).
    rewrite Hd in Hd1. injection Hd1 as <-. exists s', (cmds ++ [cmd]). rewrite Hst, Hrc. split_and!; [done| |].
    + by eapply reach_step.
    + rewrite map_size_insert_None by done. apply exec_inv in He as (_ & _ & Hev & nx & _ & ->). simpl.
      rewrite i64_id; [lia|]. unfold is_i64, maxSafeInteger in *. lia.
Qed.

(** C3: sessions on the host.  Whatever is executed, with faults and restarts at
    any point, every object of a storage that started empty holds a state that is
    reachable on the turn ladder by some commands, exactly one per receipt: no
    accepted command is lost, and none is applied twice. *)
Theorem sessions_stay_on_ladder st st' id :
  (forall i, view st i = empty_object) -> history st st' ->
  exists s cmds, decodeState (obj_state (view st' id)) = Ok s /\ reach s cmds /\
    EventSequence s = zlen cmds /\ size (obj_receipts (view st' id)) = length cmds.
Proof using Type*.
  intros Hempty Hh.
  assert (Hso : session_object (view st' id)).
  { refine (history_invariant sto session_aggregate seal lim session_object st st' id _ _ Hh).
    - intros o request receipt replayed o'. apply session_object_step.
    - rewrite Hempty. exists initial_state, []. split_and!; [done|constructor|done]. }
  destruct Hso as (s & cmds & Hd & Hr & Hseq).
  destruct (reach_on_ladder _ _ Hr) as (a & _ & _ & _ & _ & Hlen & _). exists s, cmds.
  split_and!; try done. unfold zlen in Hlen. lia.
Qed.
End session.

(** ** The host on the reference storage *)
Section reference.
Context {N : Normalizer} {EA : Type}.
Context (agg : Aggregate EA) (seal : PermitSealer EA) (lim : Limits).

Lemma valid_identifier_nonempty s : validProtocolIdentifier s = true -> s <> "".
Proof using Type. intros [H _]%valid_identifier_length ->. unfold strlen in H. simpl in H. lia. Qed.

(** On the reference storage the callback computes the abstract outcome. *)
Lemma reference_callback o request next receipt replayed :
  object_outcome agg lim o request = Ok (next, receipt, replayed) ->
  exists tx, execute_callback (tx_ops reference_storage) agg lim None (req_CommandID request)
    (req_Command request) (sha256_Sum256 (req_Command request))
    (Some (MkReferenceTransaction o [] false ∅)) not_invoked = (Ok (Some tx), Captured receipt replayed true) /\
    ref_commit tx = MkObject next (<[req_CommandID request := receipt]> (obj_receipts o)) (u64 (obj_revision o + 1)).
Proof using Type.
  unfold object_outcome, execute_callback, load_command. simpl. unfold ref_ReadState, ref_LookupReceipt. simpl.
  intros ([] & Hadm & Hout)%bind_ok. rewrite Hadm, lookup_empty. simpl.
  destruct (obj_receipts o !! req_CommandID request) as [stored|] eqn:Hl.
  - apply bind_ok in Hout as ([] & Hrep & [= <- <- <-]). rewrite Hrep. eexists. split; [done|].
    unfold ref_commit. simpl. by rewrite (left_id_L ∅ (∪)), insert_id.
  - apply bind_ok in Hout as ([n rc] & Happ & [= <- <- <-]). rewrite Happ. eexists. split; [done|].
    unfold ref_commit. simpl. by rewrite insert_empty, <- insert_union_singleton_l.
Qed.

(** On the reference storage a call that is not cut short returns.  If the
    request is well formed, the object accepts the command and its claims can be
    sealed, then [Execute] returns the response, the permits and the next
    revision, and the object is the one the abstract step describes. *)
Theorem reference_execute_succeeds st request next receipt replayed permits :
  check_request agg lim request = Ok tt ->
  object_outcome agg lim (ref_view st (req_ObjectID request)) request = Ok (next, receipt, replayed) ->
  seal_permits seal Background (req_ObjectID request) (req_CommandID request)
    (sha256_Sum256 (req_Command request)) 0 (sr_CapabilityClaims receipt) = Ok permits ->
  0 <= obj_revision (ref_view st (req_ObjectID request)) < 2 ^ 64 - 1 ->
  exists st', Execute (Some (MkHost (Some reference_storage) (Some agg) (Some seal) lim None)) Background st request =
    (Ok (MkResult (sha256_Sum256 (req_Command request)) (sr_Response receipt) permits
           (obj_revision (ref_view st (req_ObjectID request)) + 1) replayed true), st') /\
  ref_view st' (req_ObjectID request) =
    MkObject next (<[req_CommandID request := receipt]> (obj_receipts (ref_view st (req_ObjectID request))))
      (obj_revision (ref_view st (req_ObjectID request)) + 1).
Proof using Type.
  intros Hreq Hout Hseal Hrev. set (o := ref_view st (req_ObjectID request)) in *.
  destruct (reference_callback _ _ _ _ _ Hout) as (tx & Hcb & Hcommit).
  rewrite u64_id in Hcommit by (unfold is_u64; lia).
  assert (Hid : req_ObjectID request <> "").
  { unfold check_request in Hreq. case_match eqn:Hv; [done|]. rewrite !orb_false_iff, !negb_false_iff in Hv.
    by apply valid_identifier_nonempty; destruct Hv as [[? _] _]. }
  unfold Execute. cbn [Background Transaction reference_storage]. rewrite Hreq. unfold ref_Transaction.
  rewrite bool_decide_eq_false_2 by done. fold (ref_view st (req_ObjectID request)). fold o.
  cbn [tx_ops reference_storage] in Hcb |- *. rewrite Hcb, Hcommit. cbn [obj_revision Revision ObjectID cap_invoked negb].
  cbn -[bool_decide]. rewrite bool_decide_eq_false_2, (proj2 (Z.eqb_neq _ _)) by (naive_solver lia). cbn.
  unfold ref_DurabilityBarrier. cbn. rewrite lookup_insert_eq. cbn.
  rewrite Z.ltb_irrefl. cbn. unfold finish. cbn. rewrite Hseal. cbn.
  eexists. split; [done|]. rewrite ref_view_insert. by rewrite decide_True.
Qed.
End reference.

(** ** Witnesses: one session on the reference storage *)
#[local] Existing Instance id_normalizer.
#[local] Existing Instance id_normalizer_laws.

#[local] Abbreviation rview := (view (sto := reference_storage (EA := session_error))).

Definition ok_or_nil {E} (m : res E bytes) : bytes := match m with Ok b => b | Err _ => [] end.
Definition sample_limits : Limits := with_defaults (MkLimits 0 0 0 0 0).
Definition sample_sealer : PermitSealer session_error := Seal (Some sample_codec).
Definition sample_host : option (Host session_error ReferenceStorage referenceTransaction) :=
  host reference_storage session_aggregate sample_sealer sample_limits None.
Definition open_request : Request := MkRequest "sess_1" "command-1" (ok_or_nil (EncodeOpenTurn "turn-1" 3)).
Definition stale_request : Request := MkRequest "sess_1" "command-2" (ok_or_nil (EncodeCompleteTurn "turn-1" 2)).
Definition first_run := Execute sample_host Background NewReferenceStorage open_request.
Definition first_storage : ReferenceStorage := first_run.2.
Definition second_run := Execute sample_host Background first_storage open_request.
Definition stale_run := Execute sample_host Background first_storage stale_request.
Definition result_of (m : res (error session_error) Result) : Result :=
  match m with Ok r => r | Err _ => MkResult [] [] [] 0 false false end.
Definition open_receipt : StoredReceipt :=
  default no_receipt (obj_receipts (ref_view first_storage "sess_1") !! "command-1").

Lemma first_run_history :
  history reference_storage session_aggregate sample_sealer sample_limits NewReferenceStorage first_storage.
Proof. apply rtc_once. exists None, Background, open_request, first_run.1. apply surjective_pairing. Qed.

Lemma execute_refines_witness :
  is_ok first_run.1 = true /\
  execute_outcome reference_storage session_aggregate sample_sealer sample_limits Background
    NewReferenceStorage open_request first_run.1 first_storage.
Proof.
  split; [vm_compute; reflexivity|].
  apply (execute_refines reference_storage session_aggregate sample_sealer sample_limits None).
  apply surjective_pairing.
Defined.

Lemma command_applied_once_witness :
  obj_state (rview second_run.2 (req_ObjectID open_request)) =
  obj_state (rview first_storage (req_ObjectID open_request)).
Proof.
  refine (proj1 (command_applied_once reference_storage session_aggregate sample_sealer sample_limits
    first_storage first_storage None Background open_request second_run.1 second_run.2 open_receipt _ _ _)).
  - vm_compute. reflexivity.
  - apply rtc_refl.
  - apply surjective_pairing.
Defined.

Lemma replay_returns_same_result_witness :
  r_Response (result_of second_run.1) = r_Response (result_of first_run.1) /\
  r_Replayed (result_of second_run.1) = true.
Proof.
  destruct (replay_returns_same_result reference_storage session_aggregate sample_sealer sample_limits
    None Background NewReferenceStorage open_request (result_of first_run.1) first_storage first_storage
    None Background open_request (result_of second_run.1) second_run.2) as (_ & Hr & _ & Hrep).
  - vm_compute. reflexivity.
  - apply rtc_refl.
  - reflexivity.
  - reflexivity.
  - vm_compute. reflexivity.
  - split; [exact Hr|exact Hrep].
Defined.

Lemma sessions_stay_on_ladder_witness :
  exists s cmds, decodeState (obj_state (rview first_storage "sess_1")) = Ok s /\ reach s cmds /\
    EventSequence s = zlen cmds /\ size (obj_receipts (rview first_storage "sess_1")) = length cmds.
Proof.
  apply (sessions_stay_on_ladder reference_storage sample_sealer sample_limits NewReferenceStorage
    first_storage "sess_1").
  - intros i. change (ref_view NewReferenceStorage i = empty_object). unfold ref_view, NewReferenceStorage.
    cbn [objects]. by rewrite lookup_empty.
  - exact first_run_history.
Defined.

Lemma unauthorized_command_changes_nothing_witness :
  exists e', stale_run.1 = Err e'.
Proof.
  refine (proj1 (unauthorized_command_changes_nothing reference_storage session_aggregate sample_sealer
    sample_limits None Background first_storage stale_request stale_run.1 stale_run.2 ErrStaleGeneration _ _)).
  - vm_compute. reflexivity.
  - apply surjective_pairing.
Defined.

Lemma reference_execute_succeeds_witness :
  exists next receipt st', Execute sample_host Background NewReferenceStorage open_request =
    (Ok (MkResult (sha256_Sum256 (req_Command open_request)) (sr_Response receipt) [] 1 false true), st') /\
    obj_state (ref_view st' "sess_1") = next.
Proof.
  eexists _, _.
  destruct (reference_execute_succeeds session_aggregate sample_sealer sample_limits NewReferenceStorage
    open_request (obj_state (ref_view first_storage "sess_1")) open_receipt false []) as (st' & He & Hv).
  - vm_compute. reflexivity.
  - vm_compute. reflexivity.
  - vm_compute. reflexivity.
  - vm_compute. split; [discriminate|reflexivity].
  - exists st'. split; [exact He|]. change "sess_1" with (req_ObjectID open_request). rewrite Hv. reflexivity.
Defined.

(** An aggregate that issues one claim per command, for the permits. *)
Definition claiming_aggregate : Aggregate session_error :=
  MkAggregate session_error (fun _ => Ok tt) (fun _ => Ok tt) (fun _ _ => Ok tt)
    (fun _ command => Ok (MkApplyResult command [] [sample_claims])).
Definition claim_request : Request := MkRequest "sess_1" "command-1" (to_bytes "go").
Definition claiming_host :=
  host reference_storage claiming_aggregate sample_sealer sample_limits None.
Definition claim_run := Execute claiming_host Background NewReferenceStorage claim_request.
Definition claim_permit : SealedPermit :=
  default (MkPermit []) (r_Permits (result_of claim_run.1) !! 0%nat).

Lemma permits_sealed_in_place_witness :
  exists receipt claim,
    obj_receipts (rview claim_run.2 (req_ObjectID claim_request)) !! req_CommandID claim_request = Some receipt /\
    sr_CapabilityClaims receipt !! 0%nat = Some claim /\
    sample_sealer Background (MkBinding (req_ObjectID claim_request) (req_CommandID claim_request)
      (sha256_Sum256 (req_Command claim_request)) (Z.of_nat 0)) claim = Ok claim_permit.
Proof.
  refine (permits_sealed_in_place reference_storage claiming_aggregate sample_sealer (MkLimits 0 0 0 0 0) None
    (MkHost (Some reference_storage) (Some claiming_aggregate) (Some sample_sealer) sample_limits None)
    Background NewReferenceStorage claim_request (result_of claim_run.1) claim_run.2 0 claim_permit _ _ _ _).
  - vm_compute. reflexivity.
  - reflexivity.
  - vm_compute. reflexivity.
  - vm_compute. reflexivity.
Defined.
