(* ===== verification/BlobGuard.v ===== *)
(** * The blob guard table ([internal/workspace/blob/guard.go])

    Every content-addressed blob has a guard: [Live], [Candidate] for deletion,
    [Deleting] or [Deleted].  Permits protect a blob, a garbage-collection sweep
    takes unreferenced blobs through two epochs, and a deletion claim names the
    generation and epoch it was issued for.  A method runs under the table's
    mutex, so it is one function of the table; the storage gate that fences the
    physical operations is modelled in [StorageGate]. *)

From S2P Require Import Prelude GoText.
#[local] Open Scope string_scope.
#[local] Open Scope list_scope.
#[local] Open Scope Z_scope.
#[local] Open Scope go_scope.

Inductive blob_error :=
| ErrIncompleteRoots | ErrObjectMissing | ErrObjectDeleting | ErrPermitMissing | ErrPermitReused
| ErrStalePermit | ErrStaleDeletion | ErrEpochOrder | ErrMarkedObjectMissing
| ErrKeyTenant | ErrKeyDigest | ErrCreationTime | ErrPermitID | ErrSweepTime.

#[global] Instance blob_error_eq_dec : EqDecision blob_error.
Proof. solve_decision. Defined.

Inductive State := Live | Candidate | Deleting | Deleted.
#[global] Instance State_eq_dec : EqDecision State.
Proof. solve_decision. Defined.

Record Key := MkKey { TenantID : string; Digest : string }.
#[global] Instance Key_eq_dec : EqDecision Key.
Proof. solve_decision. Defined.
#[global] Instance Key_countable : Countable Key.
Proof. refine (inj_countable' (fun k => (TenantID k, Digest k)) (fun p => MkKey p.1 p.2) _). by intros []. Defined.

Record Permit := MkPermit {
  p_ID : string;
  p_Key : Key;
  p_GuardGeneration : Z;
  p_ObjectIncarnation : Z;
}.

Record Deletion := MkDeletion { d_Key : Key; d_GuardGeneration : Z; d_Epoch : Z }.

Record GuardSnapshot := MkSnapshot {
  Found : bool;
  snap_State : option State;
  snap_Generation : Z;
  snap_Incarnation : Z;
  snap_CreatedAt : time;
  snap_CandidateEpoch : Z;
  snap_CandidateSince : time;
  snap_PendingPermits : Z;
}.

Record guardRecord := MkGuard {
  g_state : State;
  g_generation : Z;
  g_incarnation : Z;
  g_createdAt : time;
  g_candidateEpoch : Z;
  g_candidateSince : time;
  g_deletionEpoch : Z;
  g_pending : gset string;
}.

Inductive permitState := permitPending | permitFinalized | permitAbandoned.
#[global] Instance permitState_eq_dec : EqDecision permitState.
Proof. solve_decision. Defined.

Record permitRecord := MkPermitRecord { pr_permit : Permit; pr_state : permitState }.

Record GuardTable := MkTable {
  grace : Z;
  lastEpoch : Z;
  guards : gmap Key guardRecord;
  permits : gmap string permitRecord;
}.

Definition set_guards (t : GuardTable) (g : gmap Key guardRecord) : GuardTable :=
  MkTable (grace t) (lastEpoch t) g (permits t).
Definition set_guard (t : GuardTable) (k : Key) (g : guardRecord) : GuardTable :=
  set_guards t (<[k := g]> (guards t)).
Definition set_permit (t : GuardTable) (id : string) (p : permitRecord) : GuardTable :=
  MkTable (grace t) (lastEpoch t) (guards t) (<[id := p]> (permits t)).
Definition set_pending (g : guardRecord) (pending : gset string) : guardRecord :=
  MkGuard (g_state g) (g_generation g) (g_incarnation g) (g_createdAt g) (g_candidateEpoch g)
    (g_candidateSince g) (g_deletionEpoch g) pending.

(** [NewGuardTable] panics on a negative grace. *)
Definition NewGuardTable (grace : Z) : option GuardTable :=
  if grace <? 0 then None else Some (MkTable grace 0 ∅ ∅).

Definition validateKey (key : Key) : res blob_error unit :=
  _ ← reject_if (strings_TrimSpace (TenantID key) == "") ErrKeyTenant;
  reject_if (negb (matches_sha256 (Digest key))) ErrKeyDigest.

(** [state == Deleting || state == Deleted] *)
Definition going (s : State) : bool := (s == Deleting) || (s == Deleted).

Definition fresh_guard (createdAt : time) : guardRecord := MkGuard Live 1 1 createdAt 0 0 0 ∅.

(** The errors of an operation and the table it leaves. *)
Definition register (t : GuardTable) (key : Key) (createdAt : time) : res blob_error unit * GuardTable :=
  match validateKey key with
  | Err e => (Err e, t)
  | Ok _ =>
      if time_IsZero createdAt then (Err ErrCreationTime, t)
      else match guards t !! key with
      | None => (Ok tt, set_guard t key (fresh_guard createdAt))
      | Some record =>
          match g_state record with
          | Live | Candidate => (Ok tt, t)
          | Deleting => (Err ErrObjectDeleting, t)
          | Deleted =>
              (Ok tt, set_guard t key (MkGuard Live (u64 (g_generation record + 1))
                 (u64 (g_incarnation record + 1)) createdAt 0 0 0 ∅))
          end
      end
  end.

(** The guard after a new permit. *)
Definition protect_guard (guard : guardRecord) (permitID : string) : guardRecord :=
  MkGuard Live (u64 (g_generation guard + 1)) (g_incarnation guard) (g_createdAt guard) 0 0
    (g_deletionEpoch guard) ({[permitID]} ∪ g_pending guard).

Definition Protect (t : GuardTable) (key : Key) (permitID : string) : res blob_error Permit * GuardTable :=
  match validateKey key with
  | Err e => (Err e, t)
  | Ok _ =>
      if strings_TrimSpace permitID == "" then (Err ErrPermitID, t)
      else match permits t !! permitID with
      | Some existing =>
          (_ ← reject_if (p_Key (pr_permit existing) != key) ErrPermitReused;
           _ ← reject_if (pr_state existing == permitAbandoned) ErrStalePermit;
           match guards t !! key with
           | None => Err ErrStalePermit
           | Some guard =>
               _ ← reject_if (negb (g_incarnation guard =? p_ObjectIncarnation (pr_permit existing))) ErrStalePermit;
               _ ← reject_if (going (g_state guard)) ErrObjectDeleting;
               Ok (pr_permit existing)
           end, t)
      | None =>
          match guards t !! key with
          | None => (Err ErrObjectMissing, t)
          | Some guard =>
              if going (g_state guard) then (Err ErrObjectDeleting, t)
              else
                let guard' := protect_guard guard permitID in
                let permit := MkPermit permitID key (g_generation guard') (g_incarnation guard') in
                (Ok permit, set_permit (set_guard t key guard') permitID (MkPermitRecord permit permitPending))
          end
      end
  end.

(** [delete(guard.pending, permitID)] when the guard is there. *)
Definition drop_pending (t : GuardTable) (key : Key) (permitID : string) : GuardTable :=
  match guards t !! key with
  | None => t
  | Some guard => set_guard t key (set_pending guard (g_pending guard ∖ {[permitID]}))
  end.

Definition Finalize (t : GuardTable) (permitID : string) : res blob_error unit * GuardTable :=
  match permits t !! permitID with
  | None => (Err ErrPermitMissing, t)
  | Some record =>
      match pr_state record with
      | permitFinalized => (Ok tt, t)
      | permitAbandoned => (Err ErrStalePermit, t)
      | permitPending =>
          match guards t !! p_Key (pr_permit record) with
          | None => (Err ErrStalePermit, t)
          | Some guard =>
              if g_state guard == Deleted then (Err ErrStalePermit, t)
              else (Ok tt, set_permit (drop_pending t (p_Key (pr_permit record)) permitID) permitID
                             (MkPermitRecord (pr_permit record) permitFinalized))
          end
      end
  end.

Definition Abandon (t : GuardTable) (permitID : string) : res blob_error unit * GuardTable :=
  match permits t !! permitID with
  | None => (Err ErrPermitMissing, t)
  | Some record =>
      match pr_state record with
      | permitAbandoned => (Ok tt, t)
      | permitFinalized => (Err ErrStalePermit, t)
      | permitPending =>
          (Ok tt, set_permit (drop_pending t (p_Key (pr_permit record)) permitID) permitID
                    (MkPermitRecord (pr_permit record) permitAbandoned))
      end
  end.

(** The loop over [marked], in the order the map is visited. *)
Fixpoint check_marked (t : GuardTable) (marked : list Key) : res blob_error unit :=
  match marked with
  | [] => Ok tt
  | key :: marked' =>
      _ ← validateKey key;
      match guards t !! key with
      | None => Err ErrMarkedObjectMissing
      | Some guard =>
          if going (g_state guard) then Err ErrMarkedObjectMissing else check_marked t marked'
      end
  end.

(** One iteration of the loop over the guards. *)
Definition sweep_guard (grace epoch : Z) (marked : list Key) (now : time) (key : Key)
    (guard : guardRecord) : guardRecord :=
  if going (g_state guard) then guard
  else if bool_decide (key ∈ marked) || (0 <? Z.of_nat (size (g_pending guard))) then
    MkGuard Live (g_generation guard) (g_incarnation guard) (g_createdAt guard) 0 0
      (g_deletionEpoch guard) (g_pending guard)
  else if g_state guard == Live then
    MkGuard Candidate (g_generation guard) (g_incarnation guard) (g_createdAt guard) epoch now
      (g_deletionEpoch guard) (g_pending guard)
  else if (g_candidateEpoch guard <? epoch) && negb (now <? g_candidateSince guard + grace) then
    MkGuard Deleting (u64 (g_generation guard + 1)) (g_incarnation guard) (g_createdAt guard)
      (g_candidateEpoch guard) (g_candidateSince guard) epoch (g_pending guard)
  else guard.

(** The deletion that the iteration appends, if any. *)
Definition sweep_deletion (grace epoch : Z) (marked : list Key) (now : time) (key : Key)
    (guard : guardRecord) : option Deletion :=
  let guard' := sweep_guard grace epoch marked now key guard in
  if negb (going (g_state guard)) && (g_state guard' == Deleting)
  then Some (MkDeletion key (g_generation guard') epoch) else None.

(** [sort.Slice] by tenant, then digest; one deletion per key. *)
Definition deletion_key (d : Deletion) : bytes * bytes :=
  (to_bytes (TenantID (d_Key d)), to_bytes (Digest (d_Key d))).
Definition pair_lt (a b : bytes * bytes) : Prop :=
  bytes_lt a.1 b.1 \/ a.1 = b.1 /\ bytes_lt a.2 b.2.
#[global] Instance pair_lt_dec a b : Decision (pair_lt a b).
Proof. unfold pair_lt. apply _. Defined.

Definition Sweep (t : GuardTable) (epoch : Z) (rootsComplete : bool) (marked : list Key) (now : time)
    : res blob_error (list Deletion) * GuardTable :=
  if negb rootsComplete then (Err ErrIncompleteRoots, t)
  else if time_IsZero now then (Err ErrSweepTime, t)
  else if epoch <=? lastEpoch t then (Err ErrEpochOrder, t)
  else match check_marked t marked with
  | Err e => (Err e, t)
  | Ok _ =>
      let deletions := omap (fun p => sweep_deletion (grace t) epoch marked now p.1 p.2) (map_to_list (guards t)) in
      (Ok (sort_by pair_lt deletion_key deletions),
       MkTable (grace t) epoch (map_imap (fun k g => Some (sweep_guard (grace t) epoch marked now k g)) (guards t))
         (permits t))
  end.

Definition deletionMatchesGuard (deletion : Deletion) (guard : guardRecord) : bool :=
  (g_generation guard =? d_GuardGeneration deletion) && (g_deletionEpoch guard =? d_Epoch deletion).

Definition set_state (g : guardRecord) (s : State) : guardRecord :=
  MkGuard s (g_generation g) (g_incarnation g) (g_createdAt g) (g_candidateEpoch g)
    (g_candidateSince g) (g_deletionEpoch g) (g_pending g).

Definition completeDeletion (t : GuardTable) (deletion : Deletion) : res blob_error unit * GuardTable :=
  match validateKey (d_Key deletion) with
  | Err e => (Err e, t)
  | Ok _ =>
      match guards t !! d_Key deletion with
      | None => (Err ErrStaleDeletion, t)
      | Some guard =>
          if (g_state guard == Deleted) && deletionMatchesGuard deletion guard then (Ok tt, t)
          else if (g_state guard != Deleting) || negb (deletionMatchesGuard deletion guard)
          then (Err ErrStaleDeletion, t)
          else (Ok tt, set_guard t (d_Key deletion) (set_state guard Deleted))
      end
  end.

Definition ValidateDeletion (t : GuardTable) (deletion : Deletion) : res blob_error unit :=
  _ ← validateKey (d_Key deletion);
  match guards t !! d_Key deletion with
  | None => Err ErrStaleDeletion
  | Some guard =>
      reject_if (((g_state guard != Deleting) && (g_state guard != Deleted))
                 || negb (deletionMatchesGuard deletion guard)) ErrStaleDeletion
  end.

Definition Snapshot (t : GuardTable) (key : Key) : GuardSnapshot :=
  match guards t !! key with
  | None => MkSnapshot false None 0 0 0 0 0 0
  | Some guard =>
      MkSnapshot true (Some (g_state guard)) (g_generation guard) (g_incarnation guard) (g_createdAt guard)
        (g_candidateEpoch guard) (g_candidateSince guard) (Z.of_nat (size (g_pending guard)))
  end.

(** ** Steps of the table *)
Inductive guard_step : GuardTable -> GuardTable -> Prop :=
| step_register t key createdAt r t' : register t key createdAt = (r, t') -> guard_step t t'
| step_protect t key id r t' : Protect t key id = (r, t') -> guard_step t t'
| step_finalize t id r t' : Finalize t id = (r, t') -> guard_step t t'
| step_abandon t id r t' : Abandon t id = (r, t') -> guard_step t t'
| step_sweep t epoch complete marked now r t' : Sweep t epoch complete marked now = (r, t') -> guard_step t t'
| step_complete t d r t' : completeDeletion t d = (r, t') -> guard_step t t'.
