(* ===== verification/BlobGuardProofs.v ===== *)
(** * Theorems about the blob guard table

    The invariant of the table and its preservation by every operation,
    protection of pending permits, two-epoch deletion, and the fence against
    stale deletion claims. *)

From S2P Require Import Prelude GoText BlobGuard.
#[local] Open Scope string_scope.
#[local] Open Scope list_scope.
#[local] Open Scope Z_scope.

(** ** The invariant *)
Definition guard_ok (last : Z) (g : guardRecord) : Prop :=
  (g_pending g <> ∅ -> g_state g = Live) /\
  match g_state g with
  | Live => g_candidateEpoch g = 0 /\ g_deletionEpoch g = 0
  | Candidate => 0 < g_candidateEpoch g <= last /\ g_deletionEpoch g = 0
  | Deleting | Deleted => 0 < g_candidateEpoch g < g_deletionEpoch g /\ g_deletionEpoch g <= last
  end.

(** The permit is held by the guard of its key, in the incarnation it was given for. *)
Definition protected (t : GuardTable) (p : Permit) : Prop :=
  exists g, guards t !! p_Key p = Some g /\ p_ID p ∈ g_pending g /\ g_incarnation g = p_ObjectIncarnation p.

Definition permit_ok (t : GuardTable) (id : string) (p : permitRecord) : Prop :=
  p_ID (pr_permit p) = id /\ (pr_state p = permitPending -> protected t (pr_permit p)).

Definition pending_ok (t : GuardTable) (k : Key) (g : guardRecord) : Prop :=
  forall id, id ∈ g_pending g ->
    exists p, permits t !! id = Some (MkPermitRecord p permitPending) /\ p_Key p = k.

Record table_ok (t : GuardTable) : Prop := MkTableOk {
  ok_epoch : 0 <= lastEpoch t;
  ok_guards : map_Forall (fun _ => guard_ok (lastEpoch t)) (guards t);
  ok_permits : map_Forall (permit_ok t) (permits t);
  ok_pending : map_Forall (pending_ok t) (guards t);
}.

Lemma new_table_ok g t : NewGuardTable g = Some t -> table_ok t.
Proof. unfold NewGuardTable. case_match; [done|]. intros [= <-]. by split. Qed.

Lemma guard_ok_no_pending last g : guard_ok last g -> g_state g <> Live -> g_pending g = ∅.
Proof. intros [Hp _] Hs. destruct (decide (g_pending g = ∅)); [done|]. by exfalso; apply Hs, Hp. Qed.

Lemma going_spec s : going s = true <-> s = Deleting \/ s = Deleted.
Proof. by destruct s; unfold going; simpl; naive_solver. Qed.

(** Replace the guard of a key that has no pending permits, before or after. *)
Lemma table_ok_replace t k g' :
  table_ok t -> guard_ok (lastEpoch t) g' -> g_pending g' = ∅ ->
  (forall g, guards t !! k = Some g -> g_pending g = ∅) -> table_ok (set_guard t k g').
Proof.
  intros [He Hg Hp Hq] Hok Hemp Hold. split; simpl; [done| | |].
  - by apply map_Forall_insert_2.
  - intros id p Hid. destruct (Hp id p Hid) as [Hn Hprot]. split; [done|]. intros Hpend.
    destruct (Hprot Hpend) as (g & Hk & Hin & Hinc). exists g. simpl.
    rewrite lookup_insert_ne; [done|]. intros ->. rewrite (Hold g Hk) in Hin. set_solver.
  - apply map_Forall_insert_2; [|exact Hq]. intros id. rewrite Hemp. set_solver.
Qed.

Lemma register_ok t key createdAt r t' : table_ok t -> register t key createdAt = (r, t') -> table_ok t'.
Proof.
  intros Hok. unfold register. case_match; [|by intros [= _ <-]]. case_match; [by intros [= _ <-]|].
  destruct (guards t !! key) as [g|] eqn:Hk.
  - destruct (g_state g) eqn:Hs; intros [= _ <-]; try done. apply table_ok_replace; [done|by split|done|].
    intros g0 Hg0. rewrite Hk in Hg0. injection Hg0 as <-.
    eapply guard_ok_no_pending; [by eapply (ok_guards t Hok)|]. by rewrite Hs.
  - intros [= _ <-]. apply table_ok_replace; [done|by split|done|]. intros g Hg. by rewrite Hk in Hg.
Qed.

Lemma Protect_ok t key id r t' : table_ok t -> Protect t key id = (r, t') -> table_ok t'.
Proof.
  intros Hok. unfold Protect. case_match; [|by intros [= _ <-]]. case_match; [by intros [= _ <-]|].
  destruct (permits t !! id) as [p0|] eqn:Hid; [by intros [= _ <-]|].
  destruct (guards t !! key) as [g|] eqn:Hk; [|by intros [= _ <-]].
  destruct (going (g_state g)) eqn:Hgo; [by intros [= _ <-]|]. intros [= _ <-].
  pose proof Hok as [He Hg Hp Hq]. pose proof (Hg key g Hk) as [_ Hgs].
  assert (Hdel : g_deletionEpoch g = 0).
  { destruct (g_state g) eqn:E; try (by destruct Hgs); exfalso; vm_compute in Hgo; discriminate. }
  split; simpl; [done| | |].
  - apply map_Forall_insert_2; [|done]. split; [done|]. simpl. done.
  - apply map_Forall_insert_2.
    + split; [done|]. intros _. eexists. simpl. rewrite lookup_insert_eq. split_and!; [done|set_solver|done].
    + intros id1 p1 Hid1. destruct (Hp id1 p1 Hid1) as [Hn Hprot]. split; [done|]. intros Hpend.
      destruct (Hprot Hpend) as (g1 & Hk1 & Hin & Hinc). unfold protected. simpl.
      destruct (decide (p_Key (pr_permit p1) = key)) as [Heq|Hne].
      * rewrite Heq in *. simplify_eq. eexists. rewrite lookup_insert_eq. split_and!; [done|set_solver|done].
      * exists g1. by rewrite lookup_insert_ne.
  - assert (Hmono : forall k g0, guards t !! k = Some g0 -> forall x, x ∈ g_pending g0 ->
      exists p, <[id := MkPermitRecord (MkPermit id key (u64 (g_generation g + 1)) (g_incarnation g)) permitPending]>
        (permits t) !! x = Some (MkPermitRecord p permitPending) /\ p_Key p = k).
    { intros k g0 Hk0 x Hx. destruct (Hq k g0 Hk0 x Hx) as (p & Hpx & Hpk). exists p.
      rewrite lookup_insert_ne; [done|]. intros ->. congruence. }
    apply map_Forall_insert_2; [|intros k g0 Hk0 x Hx; by eapply Hmono].
    intros x Hx. simpl in Hx. apply elem_of_union in Hx as [->%elem_of_singleton|Hx]; [|by eapply Hmono].
    simpl. rewrite lookup_insert_eq. by eexists.
Qed.

(** Settle a pending permit: take it from its guard and mark it. *)
Lemma settle_ok t id p st :
  table_ok t -> permits t !! id = Some (MkPermitRecord p permitPending) -> st <> permitPending ->
  table_ok (set_permit (drop_pending t (p_Key p) id) id (MkPermitRecord p st)).
Proof.
  intros [He Hg Hp Hq] Hid Hst. destruct (Hp _ _ Hid) as [Hn Hprot]. simpl in *.
  destruct (Hprot eq_refl) as (g & Hk & Hin & Hinc). unfold drop_pending. rewrite Hk.
  split; simpl; [done| | |].
  - apply map_Forall_insert_2; [|done]. destruct (Hg _ _ Hk) as [Hl Hs]. split; [|exact Hs].
    intros _. apply Hl. set_solver.
  - intros id1 p1 [[<- <-]|[Hne Hid1]]%lookup_insert_Some; [by split|].
    destruct (Hp id1 p1 Hid1) as [Hn1 Hprot1]. split; [done|]. intros Hpend.
    destruct (Hprot1 Hpend) as (g1 & Hk1 & Hin1 & Hinc1). unfold protected. simpl.
    destruct (decide (p_Key (pr_permit p1) = p_Key p)) as [Heq|Hnk].
    + rewrite Heq in *. simplify_eq. eexists. rewrite lookup_insert_eq. split_and!; [done|set_solver|done].
    + exists g1. by rewrite lookup_insert_ne.
  - assert (Hother : forall k g0 x, guards t !! k = Some g0 -> x ∈ g_pending g0 -> x <> id ->
      exists p0, <[id := MkPermitRecord p st]> (permits t) !! x = Some (MkPermitRecord p0 permitPending) /\ p_Key p0 = k).
    { intros k g0 x Hk0 Hx Hxi. destruct (Hq k g0 Hk0 x Hx) as (p0 & Hp0 & Hpk). exists p0.
      by rewrite lookup_insert_ne by done. }
    intros k g0 [[<- <-]|[Hne Hk0]]%lookup_insert_Some x Hx; simpl in Hx |- *.
    + apply elem_of_difference in Hx as [Hx Hxi]. eapply Hother; [exact Hk|done|set_solver].
    + eapply Hother; [done..|]. intros ->. destruct (Hq k g0 Hk0 id Hx) as (p0 & Hp0 & Hpk). congruence.
Qed.

Lemma Finalize_ok t id r t' : table_ok t -> Finalize t id = (r, t') -> table_ok t'.
Proof.
  intros Hok. unfold Finalize. destruct (permits t !! id) as [[p []]|] eqn:Hid; simpl; try by intros [= _ <-].
  case_match; [|by intros [= _ <-]]. case_match; intros [= _ <-]; [done|]. by apply settle_ok.
Qed.

Lemma Abandon_ok t id r t' : table_ok t -> Abandon t id = (r, t') -> table_ok t'.
Proof.
  intros Hok. unfold Abandon. destruct (permits t !! id) as [[p []]|] eqn:Hid; simpl; intros [= _ <-]; try done.
  by apply settle_ok.
Qed.

Lemma completeDeletion_ok t d r t' : table_ok t -> completeDeletion t d = (r, t') -> table_ok t'.
Proof.
  intros Hok. unfold completeDeletion. case_match; [|by intros [= _ <-]].
  destruct (guards t !! d_Key d) as [g|] eqn:Hk; [|by intros [= _ <-]].
  case_match; [by intros [= _ <-]|]. case_match eqn:Hc; [by intros [= _ <-]|]. intros [= _ <-].
  apply orb_false_elim in Hc as [Hs%bool_decide_eq_false%dec_stable _].
  pose proof (ok_guards t Hok _ _ Hk) as Hg.
  assert (Hemp : g_pending g = ∅) by (eapply guard_ok_no_pending; [exact Hg|by rewrite Hs]).
  apply table_ok_replace; [done| |done|intros g0 Hg0; congruence].
  destruct Hg as [_ Hgs]. rewrite Hs in Hgs. split; [by simpl; rewrite Hemp|done].
Qed.

(** ** Sweeps *)
Section sweep.
Context (gr epoch : Z) (marked : list Key) (now : time).

Lemma sweep_guard_keeps k g :
  let g' := sweep_guard gr epoch marked now k g in
  g_pending g' = g_pending g /\ g_incarnation g' = g_incarnation g /\
  (going (g_state g) = true -> g' = g).
Proof. unfold sweep_guard. repeat case_match; done. Qed.

Lemma pending_size g : (0 <? Z.of_nat (size (g_pending g))) = true <-> g_pending g <> ∅.
Proof.
  rewrite Z.ltb_lt. split.
  - intros Hs Hemp. rewrite Hemp, size_empty in Hs. lia.
  - intros Hne. assert (size (g_pending g) <> 0%nat); [|lia].
    intros Hz. by apply Hne, leibniz_equiv, size_empty_inv.
Qed.

(** A guard with a pending permit, or of a marked object, stays or becomes live. *)
Lemma sweep_guard_held k g :
  going (g_state g) = false -> k ∈ marked \/ g_pending g <> ∅ ->
  g_state (sweep_guard gr epoch marked now k g) = Live.
Proof.
  intros Hgo Hheld. unfold sweep_guard. rewrite Hgo. case_match eqn:Hc; [done|].
  apply orb_false_elim in Hc as [Hm Hp]. apply bool_decide_eq_false in Hm.
  apply not_true_iff_false in Hp. rewrite pending_size in Hp. destruct Hheld; [done|].
  by apply dec_stable in Hp.
Qed.

Lemma sweep_guard_ok last k g :
  0 <= last < epoch -> guard_ok last g -> guard_ok epoch (sweep_guard gr epoch marked now k g).
Proof.
  intros He [Hp Hs]. unfold sweep_guard, guard_ok in *. destruct (g_state g) eqn:E; unfold going; simpl.
  - repeat case_match; simpl; try rewrite E; split; try done; try lia. intros Hne.
    apply orb_false_elim in H as [_ H]. apply not_true_iff_false in H. by rewrite pending_size in H.
  - destruct (orb (bool_decide (k ∈ marked)) _); [by split; [|destruct Hs]|].
    destruct (andb (_ <? _) _) eqn:Hc; simpl.
    + apply andb_prop in Hc as [Hc%Z.ltb_lt _]. split; [intros Hne; by specialize (Hp Hne)|]. lia.
    + rewrite E. split; [done|lia].
  - rewrite E. split; [done|lia].
  - rewrite E. split; [done|lia].
Qed.

(** What a deletion of a sweep means for the guard before it. *)
Lemma sweep_deletion_some k g d :
  sweep_deletion gr epoch marked now k g = Some d ->
  d = MkDeletion k (u64 (g_generation g + 1)) epoch /\
  g_state g = Candidate /\ (k ∉ marked) /\ g_pending g = ∅ /\
  g_candidateEpoch g < epoch /\ g_candidateSince g + gr <= now.
Proof.
  unfold sweep_deletion, sweep_guard. destruct (going (g_state g)) eqn:Hgo; [done|].
  destruct (orb (bool_decide (k ∈ marked)) _) eqn:Hm; [done|]. simpl.
  apply orb_false_elim in Hm as [Hm%bool_decide_eq_false Hp%not_true_iff_false].
  rewrite pending_size in Hp. apply dec_stable in Hp.
  destruct (g_state g) eqn:E; simpl; try done; rewrite ?E; simpl; try done.
  destruct (andb (_ <? _) _) eqn:Hc; simpl; [|by rewrite E].
  apply andb_prop in Hc as [Hc%Z.ltb_lt Hn%negb_true_iff%Z.ltb_ge]. intros [= <-]. done.
Qed.
End sweep.

Lemma Sweep_inv t epoch complete marked now ds t' :
  Sweep t epoch complete marked now = (Ok ds, t') ->
  complete = true /\ now <> 0 /\ lastEpoch t < epoch /\ check_marked t marked = Ok tt /\
  ds = sort_by pair_lt deletion_key
         (omap (fun p => sweep_deletion (grace t) epoch marked now p.1 p.2) (map_to_list (guards t))) /\
  grace t' = grace t /\ lastEpoch t' = epoch /\ permits t' = permits t /\
  forall k, guards t' !! k = sweep_guard (grace t) epoch marked now k <$> guards t !! k.
Proof.
  unfold Sweep. destruct complete; simpl; [|done]. case_match eqn:Hn; [done|]. case_match eqn:He; [done|].
  destruct (check_marked t marked) as [[]|] eqn:Hm; [|done]. intros [= <- <-]. unfold time_IsZero in Hn.
  apply Z.leb_gt in He. apply Z.eqb_neq in Hn. split_and!; try done. intros k. simpl.
  rewrite map_lookup_imap. by destruct (guards t !! k).
Qed.

Lemma Sweep_error t epoch complete marked now e t' :
  Sweep t epoch complete marked now = (Err e, t') -> t' = t.
Proof. unfold Sweep. repeat case_match; by intros [= _ <-]. Qed.

Lemma Sweep_ok t epoch complete marked now r t' :
  table_ok t -> Sweep t epoch complete marked now = (r, t') -> table_ok t'.
Proof.
  intros Hok Hsw. destruct r as [ds|e]; [|by apply Sweep_error in Hsw as ->].
  apply Sweep_inv in Hsw as (_ & _ & Hep & _ & _ & _ & Hle & Hpe & Hlook).
  pose proof Hok as [He Hg Hp Hq]. split.
  - lia.
  - intros k g. rewrite Hlook, Hle. destruct (guards t !! k) as [g0|] eqn:Hk; simpl; [|done].
    intros [= <-]. apply sweep_guard_ok with (last := lastEpoch t); [lia|by eapply Hg].
  - rewrite Hpe. intros id p Hid. destruct (Hp id p Hid) as [Hn Hprot]. split; [done|]. intros Hpend.
    destruct (Hprot Hpend) as (g & Hk & Hin & Hinc). unfold protected. rewrite Hlook, Hk. simpl.
    eexists. split; [done|]. destruct (sweep_guard_keeps (grace t) epoch marked now (p_Key (pr_permit p)) g) as (-> & -> & _).
    done.
  - intros k g'. rewrite Hlook. destruct (guards t !! k) as [g|] eqn:Hk; simpl; [|done]. intros [= <-] x.
    destruct (sweep_guard_keeps (grace t) epoch marked now k g) as (-> & _). rewrite Hpe. by apply (Hq k g Hk).
Qed.

Lemma guard_step_ok t t' : table_ok t -> guard_step t t' -> table_ok t'.
Proof.
  intros Hok Hs. destruct Hs as [? ? ? ? ? H|? ? ? ? ? H|? ? ? ? H|? ? ? ? H|? ? ? ? ? ? ? H|? ? ? ? H].
  - exact (register_ok _ _ _ _ _ Hok H).
  - exact (Protect_ok _ _ _ _ _ Hok H).
  - exact (Finalize_ok _ _ _ _ Hok H).
  - exact (Abandon_ok _ _ _ _ Hok H).
  - exact (Sweep_ok _ _ _ _ _ _ _ Hok H).
  - exact (completeDeletion_ok _ _ _ _ Hok H).
Qed.

Definition reachable (t : GuardTable) : Prop :=
  exists gr t0, NewGuardTable gr = Some t0 /\ rtc guard_step t0 t.

Lemma steps_ok t t' : table_ok t -> rtc guard_step t t' -> table_ok t'.
Proof. intros Hok Hs. induction Hs; eauto using guard_step_ok. Qed.

Lemma reachable_ok t : reachable t -> table_ok t.
Proof. intros (gr & t0 & Hn%new_table_ok & Hs). by eapply steps_ok. Qed.

(** ** The order of the deletions *)
#[global] Instance pair_lt_order : StrictOrder pair_lt.
Proof.
  split.
  - intros [a b] [H|[_ H]]; by apply bytes_lt_irrefl in H.
  - intros [a1 a2] [b1 b2] [c1 c2] [H|[H1 H2]] [K|[K1 K2]]; simpl in *; subst; unfold pair_lt; simpl.
    + left. by eapply bytes_lt_trans.
    + by left.
    + by left.
    + right. split; [done|]. by eapply bytes_lt_trans.
Qed.

#[global] Instance pair_lt_trichotomy : Trichotomy pair_lt.
Proof.
  intros [a1 a2] [b1 b2]. unfold pair_lt. simpl.
  destruct (trichotomy bytes_lt a1 b1) as [?|[->|?]]; [auto| |auto].
  destruct (trichotomy bytes_lt a2 b2) as [?|[->|?]]; auto.
Qed.

Lemma deletion_key_inj d d' : deletion_key d = deletion_key d' -> d_Key d = d_Key d'.
Proof.
  unfold deletion_key. intros [= H1%(inj to_bytes) H2%(inj to_bytes)].
  destruct (d_Key d), (d_Key d'). simpl in *. congruence.
Qed.

Lemma sweep_list_nodup (f : Key -> guardRecord -> option Deletion) (l : list (Key * guardRecord)) :
  (forall k g d, f k g = Some d -> d_Key d = k) -> NoDup l.*1 ->
  NoDup (map deletion_key (omap (fun p => f p.1 p.2) l)).
Proof.
  intros Hf. induction l as [|[k g] l IH]; simpl; [constructor|]. rewrite NoDup_cons. intros [Hni Hnd].
  destruct (f k g) as [d|] eqn:Hd; simpl; [|auto]. apply NoDup_cons. split; [|auto].
  intros (d' & Heq & Hin)%list_elem_of_fmap. apply list_elem_of_omap in Hin as ([k' g'] & Hin & Hd').
  simpl in Hd'. apply Hf in Hd, Hd'. apply deletion_key_inj in Heq. apply Hni.
  apply list_elem_of_fmap. exists (k', g'). split; [simpl; congruence|done].
Qed.

(** ** Deletion claims

    A claim issued at a sweep, seen from any later table: as long as the guard
    carries the claim's epoch, it is the incarnation the claim was issued for. *)
Definition claim_inv (d : Deletion) (incarnation : Z) (t : GuardTable) : Prop :=
  0 < d_Epoch d <= lastEpoch t /\
  exists g, guards t !! d_Key d = Some g /\
    (g_deletionEpoch g = d_Epoch d -> g_incarnation g = incarnation).

Lemma claim_inv_set_guard d i t k g' :
  claim_inv d i t ->
  (k = d_Key d -> forall g, guards t !! k = Some g -> g_deletionEpoch g' = d_Epoch d ->
     g_deletionEpoch g = d_Epoch d /\ g_incarnation g' = g_incarnation g) ->
  claim_inv d i (set_guard t k g').
Proof.
  intros (He & g & Hk & Hg) Hnew. split; [done|]. simpl. destruct (decide (k = d_Key d)) as [->|Hne].
  - exists g'. rewrite lookup_insert_eq. split; [done|]. intros Hd.
    destruct (Hnew eq_refl g Hk Hd) as [Hd0 ->]. auto.
  - exists g. by rewrite lookup_insert_ne.
Qed.

Lemma claim_inv_permits d i t id p : claim_inv d i t -> claim_inv d i (set_permit t id p).
Proof. done. Qed.

Lemma claim_inv_drop d i t k id : claim_inv d i t -> claim_inv d i (drop_pending t k id).
Proof.
  intros Hc. unfold drop_pending. destruct (guards t !! k) as [g|] eqn:Hk; [|done].
  apply claim_inv_set_guard; [done|]. intros _ g0 Hg0 Hd. rewrite Hk in Hg0. by injection Hg0 as <-.
Qed.

Lemma claim_inv_step d i t t' : claim_inv d i t -> guard_step t t' -> claim_inv d i t'.
Proof.
  intros Hc Hs. destruct Hs as [? ? ? ? ? H|? ? ? ? ? H|? ? ? ? H|? ? ? ? H|? ? ? ? ? ? ? H|? ? ? ? H].
  - unfold register in H. repeat case_match; simplify_eq; try done.
    + apply claim_inv_set_guard; [done|]. intros _ g0 _ Hd. simpl in Hd. destruct Hc as [? _]. lia.
    + apply claim_inv_set_guard; [done|]. intros _ g0 _ Hd. simpl in Hd. destruct Hc as [? _]. lia.
  - unfold Protect in H. repeat case_match; simplify_eq; try done. apply claim_inv_permits, claim_inv_set_guard; [done|].
    intros -> g0 Hg0 Hd. simplify_eq. done.
  - unfold Finalize in H. repeat case_match; simplify_eq; try done. by apply claim_inv_permits, claim_inv_drop.
  - unfold Abandon in H. repeat case_match; simplify_eq; try done. by apply claim_inv_permits, claim_inv_drop.
  - match type of H with _ = (?r, _) => destruct r as [ds|e] end; [|apply Sweep_error in H as ->; done].
    apply Sweep_inv in H as (_ & _ & Hep & _ & _ & _ & Hle & _ & Hlook). destruct Hc as ([H0 He] & g & Hk & Hg).
    split; [lia|]. rewrite Hlook, Hk. eexists. split; [done|]. simpl.
    destruct (sweep_guard_keeps (grace t) epoch marked now (d_Key d) g) as (_ & -> & _).
    unfold sweep_guard. repeat case_match; simpl; try done. lia.
  - unfold completeDeletion in H. repeat case_match; simplify_eq; try done.
    apply claim_inv_set_guard; [done|]. intros _ g0 Hg0 Hd. simplify_eq. done.
Qed.

Lemma sweep_claim t epoch complete marked now ds t' d :
  table_ok t -> Sweep t epoch complete marked now = (Ok ds, t') -> d ∈ ds ->
  exists g, guards t !! d_Key d = Some g /\ sweep_deletion (grace t) epoch marked now (d_Key d) g = Some d /\
    d_Epoch d = epoch /\ claim_inv d (g_incarnation g) t'.
Proof.
  intros Hok Hsw Hd. apply Sweep_inv in Hsw as (_ & _ & Hep & _ & -> & _ & Hle & _ & Hlook).
  rewrite sort_by_perm in Hd. apply list_elem_of_omap in Hd as ([k g] & Hk%elem_of_map_to_list & Hsd). simpl in Hsd.
  pose proof Hsd as (-> & Hc & _)%sweep_deletion_some. simpl in *. exists g. split_and!; try done.
  pose proof (ok_epoch t Hok). split; [simpl; lia|]. simpl. rewrite Hlook, Hk. eexists. split; [done|].
  intros _. apply sweep_guard_keeps.
Qed.

(** ** The claims *)

(** Whatever sequence of operations built the table, guards and permits agree:
    a guard with a pending permit is live, a candidate was made by an earlier sweep,
    a deletion's epoch lies after its candidate's, and every pending permit is held
    by the guard of its key in the incarnation it was issued for. *)
Theorem reachable_table_ok t : reachable t -> table_ok t.
Proof. apply reachable_ok. Qed.

(** A pending permit protects its blob: the guard is live in the permit's
    incarnation, no sweep (whatever is marked) claims the key or takes the permit
    away, and no deletion claim for the key is valid. *)
Theorem pending_permit_protects t id p :
  reachable t -> permits t !! id = Some (MkPermitRecord p permitPending) ->
  (exists g, guards t !! p_Key p = Some g /\ g_state g = Live /\ g_incarnation g = p_ObjectIncarnation p) /\
  (forall epoch complete marked now ds t', Sweep t epoch complete marked now = (Ok ds, t') ->
     Forall (fun d => d_Key d <> p_Key p) ds /\ permits t' !! id = Some (MkPermitRecord p permitPending)) /\
  (forall d, d_Key d = p_Key p -> ValidateDeletion t d <> Ok tt /\ (completeDeletion t d).1 <> Ok tt).
Proof.
  intros Hok%reachable_ok Hid. pose proof (ok_permits t Hok _ _ Hid) as [_ Hprot].
  destruct (Hprot eq_refl) as (g & Hk & Hin & Hinc). simpl in *.
  assert (Hne : g_pending g <> ∅) by set_solver.
  assert (Hlive : g_state g = Live) by (by apply (ok_guards t Hok _ _ Hk)).
  split_and!; [by exists g| |].
  - intros epoch complete marked now ds t' Hsw. split.
    + apply Forall_forall. intros d Hd Heq.
      destruct (sweep_claim _ _ _ _ _ _ _ _ Hok Hsw Hd) as (g0 & Hk0 & (_ & Hc & _)%sweep_deletion_some & _).
      rewrite Heq, Hk in Hk0. injection Hk0 as <-. congruence.
    + apply Sweep_inv in Hsw as (_ & _ & _ & _ & _ & _ & _ & -> & _). done.
  - intros d Hd. unfold ValidateDeletion, completeDeletion. rewrite Hd, Hk, Hlive.
    destruct (validateKey _); simpl; split; try done; by destruct (deletionMatchesGuard d g).
Qed.

(** A blob is claimed for deletion only by a second sweep: the guard was a
    candidate since an earlier epoch, the grace period has passed, the blob is not
    marked and has no pending permit; and a sweep runs only with complete roots,
    a fresh epoch and all marked blobs present. *)
Theorem deletion_needs_two_sweeps t epoch complete marked now ds t' d :
  reachable t -> Sweep t epoch complete marked now = (Ok ds, t') -> d ∈ ds ->
  complete = true /\ check_marked t marked = Ok tt /\
  exists g g', guards t !! d_Key d = Some g /\ guards t' !! d_Key d = Some g' /\
    g_state g = Candidate /\ (d_Key d ∉ marked) /\ g_pending g = ∅ /\
    0 < g_candidateEpoch g <= lastEpoch t /\ lastEpoch t < epoch /\ g_candidateSince g + grace t <= now /\
    g_state g' = Deleting /\ deletionMatchesGuard d g' = true.
Proof.
  intros Hok%reachable_ok Hsw Hd.
  destruct (sweep_claim _ _ _ _ _ _ _ _ Hok Hsw Hd) as (g & Hk & Hsd & _ & _).
  apply Sweep_inv in Hsw as (-> & _ & Hep & Hm & _ & _ & _ & _ & Hlook).
  pose proof Hsd as (Hdd & Hc & Hnm & Hp & Hce & Hgr)%sweep_deletion_some.
  pose proof (ok_guards t Hok _ _ Hk) as [_ Hgs]. rewrite Hc in Hgs.
  split_and!; try done. exists g. eexists. rewrite Hlook, Hk. split_and!; try done; try lia.
  - unfold sweep_deletion in Hsd. case_match eqn:E; [|done]. by apply andb_prop in E as [_ E%bool_decide_eq_true].
  - unfold sweep_deletion in Hsd. case_match eqn:E; [|done]. injection Hsd as <-.
    unfold deletionMatchesGuard. simpl. rewrite Z.eqb_refl. simpl. apply andb_prop in E as [_ E%bool_decide_eq_true].
    revert E. unfold sweep_guard. repeat case_match; simpl; intros E; try done; try apply Z.eqb_refl; congruence.
Qed.

(** A deletion claim deletes only the incarnation it was issued for: after any
    further operations a claim that is still valid names the same incarnation, in
    deletion, with no pending permit; once the blob was registered again, the
    claim is stale for ever. *)
Theorem deletion_claim_fenced t epoch complete marked now ds t1 d t2 :
  reachable t -> Sweep t epoch complete marked now = (Ok ds, t1) -> d ∈ ds -> rtc guard_step t1 t2 ->
  ValidateDeletion t2 d = Ok tt ->
  exists g g2, guards t !! d_Key d = Some g /\ guards t2 !! d_Key d = Some g2 /\
    g_incarnation g2 = g_incarnation g /\ (g_state g2 = Deleting \/ g_state g2 = Deleted) /\ g_pending g2 = ∅.
Proof.
  intros Hok%reachable_ok Hsw Hd Hsteps Hv.
  destruct (sweep_claim _ _ _ _ _ _ _ _ Hok Hsw Hd) as (g & Hk & _ & _ & Hc).
  assert (Hc2 : claim_inv d (g_incarnation g) t2).
  { clear - Hc Hsteps. induction Hsteps; eauto using claim_inv_step. }
  assert (Hok2 : table_ok t2) by (eapply steps_ok; [eapply Sweep_ok; [exact Hok|exact Hsw]|done]).
  destruct Hc2 as (_ & g2 & Hk2 & Hinc). exists g, g2. unfold ValidateDeletion in Hv.
  apply bind_ok in Hv as (u & _ & Hv). rewrite Hk2 in Hv. unfold reject_if in Hv. case_match eqn:Hb; [done|].
  apply orb_false_elim in Hb as [Hst Hm%negb_false_iff]. apply andb_prop in Hm as [_ Hm%Z.eqb_eq].
  assert (Hg : g_state g2 = Deleting \/ g_state g2 = Deleted).
  { destruct (g_state g2); simpl in Hst; auto; vm_compute in Hst; discriminate. }
  split_and!; try done; [auto|]. eapply guard_ok_no_pending; [by eapply (ok_guards t2 Hok2)|].
  by destruct Hg as [-> | ->].
Qed.

(** The deletions of a sweep are one per claimed guard, in strictly increasing
    order of tenant and digest, so the result does not depend on the order in which
    the map is visited; a failed sweep changes nothing, a successful one advances the
    epoch. *)
Theorem sweep_result_sorted t epoch complete marked now r t' :
  Sweep t epoch complete marked now = (r, t') ->
  match r with
  | Ok ds =>
      StronglySorted pair_lt (map deletion_key ds) /\ lastEpoch t < lastEpoch t' /\ lastEpoch t' = epoch /\
      (forall d, d ∈ ds <-> exists g, guards t !! d_Key d = Some g /\
         sweep_deletion (grace t) epoch marked now (d_Key d) g = Some d)
  | Err _ => t' = t
  end.
Proof.
  intros Hsw. destruct r as [ds|e]; [|by eapply Sweep_error].
  apply Sweep_inv in Hsw as (_ & _ & Hep & _ & -> & _ & Hle & _). rewrite Hle.
  assert (Hkey : forall k g d, sweep_deletion (grace t) epoch marked now k g = Some d -> d_Key d = k).
  { by intros k g d (-> & _)%sweep_deletion_some. }
  split_and!; try done.
  - apply sort_by_strict; [apply _..|]. apply sweep_list_nodup; [done|]. apply NoDup_fst_map_to_list.
  - intros d. rewrite sort_by_perm, list_elem_of_omap. split.
    + intros ([k g] & Hk%elem_of_map_to_list & Hsd). simpl in Hsd. rewrite (Hkey _ _ _ Hsd). by exists g.
    + intros (g & Hk & Hsd). exists (d_Key d, g). by rewrite elem_of_map_to_list.
Qed.

(** ** Witnesses *)
Definition sample_digest : string :=
  "sha256:0123456789abcdef0123456789abcdef0123456789abcdef0123456789abcdef".
Definition key_a : Key := MkKey "tenant_a" sample_digest.
Definition key_b : Key := MkKey "tenant_b" sample_digest.
Definition table0 : GuardTable := MkTable 5 0 ∅ ∅.
Definition table1 : GuardTable := (register table0 key_a 1).2.
Definition table2 : GuardTable := (register table1 key_b 1).2.
Definition table3 : GuardTable := (Protect table2 key_b "permit-1").2.
Definition table4 : GuardTable := (Sweep table3 1 true [] 10).2.
Definition table5 : GuardTable := (Sweep table4 2 true [] 20).2.
Definition claim_a : Deletion := MkDeletion key_a 2 2.

Lemma table3_reachable : reachable table3.
Proof.
  exists 5, table0. split; [reflexivity|].
  eapply rtc_l; [exact (step_register table0 key_a 1 _ table1 (surjective_pairing _))|].
  eapply rtc_l; [exact (step_register table1 key_b 1 _ table2 (surjective_pairing _))|].
  apply rtc_once. exact (step_protect table2 key_b "permit-1" _ table3 (surjective_pairing _)).
Qed.

Lemma table4_reachable : reachable table4.
Proof.
  destruct table3_reachable as (gr & t0 & Hn & Hs). exists gr, t0. split; [exact Hn|].
  eapply rtc_r; [exact Hs|]. exact (step_sweep table3 1 true [] 10 _ table4 (surjective_pairing _)).
Qed.

Lemma second_sweep : Sweep table4 2 true [] 20 = (Ok [claim_a], table5).
Proof. vm_compute. reflexivity. Qed.

Lemma reachable_table_ok_witness : table_ok table4.
Proof. apply (reachable_table_ok table4 table4_reachable). Defined.

Lemma pending_permit_protects_witness :
  exists g, guards table4 !! key_b = Some g /\ g_state g = Live.
Proof.
  destruct (pending_permit_protects table4 "permit-1" (MkPermit "permit-1" key_b 2 1) table4_reachable)
    as [(g & Hk & Hs & _) _].
  - vm_compute. reflexivity.
  - exists g. split; [exact Hk|exact Hs].
Defined.

Lemma deletion_needs_two_sweeps_witness :
  exists g, guards table4 !! key_a = Some g /\ g_state g = Candidate.
Proof.
  destruct (deletion_needs_two_sweeps table4 2 true [] 20 [claim_a] table5 claim_a table4_reachable second_sweep)
    as (_ & _ & g & _ & Hk & _ & Hs & _).
  - by left.
  - exists g. split; [exact Hk|exact Hs].
Defined.

Lemma deletion_claim_fenced_witness :
  exists g g2, guards table4 !! key_a = Some g /\ guards table5 !! key_a = Some g2 /\
    g_incarnation g2 = g_incarnation g.
Proof.
  destruct (deletion_claim_fenced table4 2 true [] 20 [claim_a] table5 claim_a table5 table4_reachable second_sweep)
    as (g & g2 & Hk & Hk2 & Hi & _).
  - by left.
  - apply rtc_refl.
  - vm_compute. reflexivity.
  - exists g, g2. split; [exact Hk|]. split; [exact Hk2|exact Hi].
Defined.

Lemma sweep_result_sorted_witness :
  StronglySorted pair_lt (map deletion_key [claim_a]) /\ lastEpoch table4 < lastEpoch table5.
Proof.
  destruct (sweep_result_sorted table4 2 true [] 20 (Ok [claim_a]) table5 second_sweep) as (Hs & Hl & _).
  split; [exact Hs|exact Hl].
Defined.
