(* ===== verification/StorageGate.v ===== *)
(** * The storage gate ([internal/workspace/blob/storage_gate.go])

    Physical blob operations of one key take turns: [acquireStorage] finds or
    makes the key's gate, counts itself as a user and waits for the one-slot
    channel; [release] empties the channel and drops the reference, and the last
    user removes the gate from the map.  The model is a transition system whose
    steps are the critical sections and channel operations of any number of
    goroutines; gates are heap cells, since a goroutine keeps its pointer after
    the map entry is gone. *)

From S2P Require Import Prelude GoText BlobGuard.

(** [storageGate]: whether the channel [turn] holds its token, and [users]. *)
Record storageGate := MkGate { turn : bool; users : Z }.

(** Where a goroutine inside [acquireStorage] or [release] stands, with its key
    and its gate: waiting in the [select], holding the gate, or past [<-gate.turn]
    and before [releaseStorageReference]. *)
Inductive phase := Waiting (key : Key) (gate : positive) | Holding (key : Key) (gate : positive)
| Leaving (key : Key) (gate : positive).
Definition phase_ref (p : phase) : Key * positive :=
  match p with Waiting k g | Holding k g | Leaving k g => (k, g) end.

Record gates := MkGates {
  storageGates : gmap Key positive;
  heap : gmap positive storageGate;
  threads : gmap nat phase;
}.
Definition no_gates : gates := MkGates ∅ ∅ ∅.

Definition set_heap (s : gates) (h : gmap positive storageGate) : gates :=
  MkGates (storageGates s) h (threads s).

(** [gate := table.storageGates[key]], made if it is nil. *)
Definition prepare_gate (s : gates) (key : Key) : positive * gates :=
  match storageGates s !! key with
  | Some g => (g, s)
  | None =>
      let g := fresh (dom (heap s)) in
      (g, MkGates (<[key := g]> (storageGates s)) (<[g := MkGate false 0]> (heap s)) (threads s))
  end.

(** The first critical section: find or make the gate and count the caller. *)
Definition enter (s : gates) (n : nat) (key : Key) : gates :=
  let '(g, s) := prepare_gate s key in
  match heap s !! g with
  | Some gate =>
      MkGates (storageGates s) (<[g := MkGate (turn gate) (users gate + 1)]> (heap s))
        (<[n := Waiting key g]> (threads s))
  | None => s
  end.

(** [releaseStorageReference] by a goroutine that ends there. *)
Definition releaseStorageReference (s : gates) (n : nat) (key : Key) (g : positive) : gates :=
  match heap s !! g with
  | Some gate =>
      let users' := users gate - 1 in
      MkGates (if users' =? 0 then delete key (storageGates s) else storageGates s)
        (<[g := MkGate (turn gate) users']> (heap s)) (delete n (threads s))
  | None => s
  end.

(** [gate.turn <- struct{}{}] when the slot is free. *)
Definition take_turn (s : gates) (n : nat) (key : Key) (g : positive) : option gates :=
  match heap s !! g with
  | Some (MkGate false u) =>
      Some (MkGates (storageGates s) (<[g := MkGate true u]> (heap s)) (<[n := Holding key g]> (threads s)))
  | _ => None
  end.

(** [<-gate.turn] when the slot is full. *)
Definition give_turn (s : gates) (n : nat) (key : Key) (g : positive) : option gates :=
  match heap s !! g with
  | Some (MkGate true u) =>
      Some (MkGates (storageGates s) (<[g := MkGate false u]> (heap s)) (<[n := Leaving key g]> (threads s)))
  | _ => None
  end.

(** A goroutine enters after its key and context were found good; it may be
    cancelled while it waits; once it holds the gate it gives it back, after its
    critical section or at once when the context is found done. *)
Inductive gate_step : gates -> gates -> Prop :=
| gate_enter s n key :
    threads s !! n = None -> validateKey key = Ok tt -> gate_step s (enter s n key)
| gate_take s n key g s' :
    threads s !! n = Some (Waiting key g) -> take_turn s n key g = Some s' -> gate_step s s'
| gate_cancel s n key g :
    threads s !! n = Some (Waiting key g) -> gate_step s (releaseStorageReference s n key g)
| gate_give s n key g s' :
    threads s !! n = Some (Holding key g) -> give_turn s n key g = Some s' -> gate_step s s'
| gate_leave s n key g :
    threads s !! n = Some (Leaving key g) -> gate_step s (releaseStorageReference s n key g).

(** ** The invariant *)
Definition refs_of (s : gates) : gmap nat (Key * positive) := phase_ref <$> threads s.
Definition ref_count (s : gates) (g : positive) : Z :=
  Z.of_nat (size (filter (fun p : nat * (Key * positive) => p.2.2 = g) (refs_of s))).

Record gates_ok (s : gates) : Prop := MkGatesOk {
  gok_users : forall g gate, heap s !! g = Some gate -> users gate = ref_count s g;
  gok_mapped : forall n k g, refs_of s !! n = Some (k, g) -> storageGates s !! k = Some g;
  gok_live : forall k g, storageGates s !! k = Some g -> is_Some (heap s !! g) /\ 0 < ref_count s g;
  gok_inj : forall k k' g, storageGates s !! k = Some g -> storageGates s !! k' = Some g -> k = k';
  gok_turn : forall g gate, heap s !! g = Some gate ->
    (turn gate = true <-> exists n k, threads s !! n = Some (Holding k g));
  gok_single : forall n m k k' g, threads s !! n = Some (Holding k g) -> threads s !! m = Some (Holding k' g) -> n = m;
}.

Lemma no_gates_ok : gates_ok no_gates.
Proof.
  split; unfold refs_of; simpl; try by intros *; rewrite ?fmap_empty, ?lookup_empty.
Qed.

Lemma ref_count_pos s g : 0 < ref_count s g <-> exists n k, refs_of s !! n = Some (k, g).
Proof.
  unfold ref_count. split.
  - intros Hs. destruct (decide (filter (fun p : nat * (Key * positive) => p.2.2 = g) (refs_of s) = ∅)) as [He|Hne].
    { rewrite He, map_size_empty in Hs. lia. }
    apply map_choose in Hne as (n & [k g'] & Hn). apply map_lookup_filter_Some in Hn as [Hn Hg]. simpl in Hg.
    subst. eauto.
  - intros (n & k & Hn). assert (Hf : filter (fun p : nat * (Key * positive) => p.2.2 = g) (refs_of s) !! n = Some (k, g)).
    { by apply map_lookup_filter_Some. }
    destruct (size _) eqn:E; [|lia]. apply map_size_empty_inv in E. by rewrite E, lookup_empty in Hf.
Qed.

Lemma refs_lookup s n p : threads s !! n = Some p -> refs_of s !! n = Some (phase_ref p).
Proof. intros H. unfold refs_of. by rewrite lookup_fmap, H. Qed.

(** Counting the references after a goroutine came or left. *)
Lemma ref_count_insert s s' n k g g0 :
  refs_of s !! n = None -> refs_of s' = <[n := (k, g)]> (refs_of s) ->
  ref_count s' g0 = ref_count s g0 + (if decide (g = g0) then 1 else 0).
Proof.
  intros Hn Hr. unfold ref_count. rewrite Hr. destruct (decide (g = g0)) as [->|Hne].
  - rewrite map_filter_insert_True by done.
    rewrite map_size_insert_None by (rewrite map_lookup_filter_None; left; done). lia.
  - rewrite map_filter_insert_False, delete_id by done. lia.
Qed.

Lemma ref_count_delete s s' n k g g0 :
  refs_of s !! n = Some (k, g) -> refs_of s' = delete n (refs_of s) ->
  ref_count s' g0 = ref_count s g0 - (if decide (g = g0) then 1 else 0).
Proof.
  intros Hn Hr. assert (Hc : ref_count s g0 = ref_count s' g0 + (if decide (g = g0) then 1 else 0)); [|lia].
  apply (ref_count_insert s' s n k g g0); rewrite Hr; [by rewrite lookup_delete_eq|].
  by rewrite insert_delete_id.
Qed.

Lemma refs_same s n p p' : threads s !! n = Some p -> phase_ref p' = phase_ref p ->
  phase_ref <$> <[n := p']> (threads s) = refs_of s.
Proof.
  intros Hn Hp. unfold refs_of. rewrite fmap_insert, Hp, <- fmap_insert. by rewrite insert_id.
Qed.

(** A goroutine that holds the gate or takes it changes the channel only. *)
Lemma turn_ok s n p p' g gate b :
  gates_ok s -> threads s !! n = Some p -> phase_ref p' = phase_ref p -> (phase_ref p).2 = g ->
  heap s !! g = Some gate ->
  (forall m k, <[n := p']> (threads s) !! m = Some (Holding k g) -> b = true /\ m = n) ->
  (b = true -> exists k, p' = Holding k g) ->
  gates_ok (MkGates (storageGates s) (<[g := MkGate b (users gate)]> (heap s)) (<[n := p']> (threads s))).
Proof.
  intros [Hu Hm Hl Hi Ht Hs] Hn Hp Hg Hh Hhold Hb. pose proof (refs_same s n p p' Hn Hp) as Href.
  assert (Hcount : forall g0, ref_count (MkGates (storageGates s) (<[g := MkGate b (users gate)]> (heap s))
                                 (<[n := p']> (threads s))) g0 = ref_count s g0).
  { intros g0. unfold ref_count, refs_of at 1. simpl. by rewrite Href. }
  split.
  - intros g0 gate0. rewrite Hcount. simpl. intros [[<- <-]|[_ H]]%lookup_insert_Some; [exact (Hu g gate Hh)|by apply Hu].
  - intros m k g0. unfold refs_of at 1. simpl. rewrite Href. apply Hm.
  - intros k g0. rewrite Hcount. simpl. intros Hk. destruct (Hl k g0 Hk) as [Hsome Hpos]. split; [|done].
    destruct (decide (g = g0)) as [->|Hne]; [rewrite lookup_insert_eq; by eexists|by rewrite lookup_insert_ne].
  - exact Hi.
  - intros g0 gate0. simpl. intros [[<- <-]|[Hne H]]%lookup_insert_Some; simpl.
    + split.
      * intros Hbt. destruct (Hb Hbt) as [k ->]. exists n, k. by rewrite lookup_insert_eq.
      * intros (m & k & Hk). by destruct (Hhold m k Hk).
    + rewrite (Ht g0 gate0 H). split; intros (m & k & Hk); exists m, k.
      * rewrite lookup_insert_ne; [done|]. intros ->. rewrite Hk in Hn. injection Hn as <-. simpl in Hg. congruence.
      * apply lookup_insert_Some in Hk as [[<- Hk]|[_ Hk]]; [|done]. rewrite Hk in Hp. simpl in Hp.
        rewrite <- Hp in Hg. simpl in Hg. congruence.
  - intros m1 m2 k k' g0 H1 H2. simpl in *. destruct (decide (g0 = g)) as [->|Hne].
    + destruct (Hhold m1 k H1), (Hhold m2 k' H2). congruence.
    + apply lookup_insert_Some in H1 as [[<- H1]|[_ H1]].
      { rewrite H1 in Hp. simpl in Hp. rewrite <- Hp in Hg. simpl in Hg. congruence. }
      apply lookup_insert_Some in H2 as [[<- H2]|[_ H2]].
      { rewrite H2 in Hp. simpl in Hp. rewrite <- Hp in Hg. simpl in Hg. congruence. }
      by eapply Hs.
Qed.

Lemma take_ok s n key g s' :
  gates_ok s -> threads s !! n = Some (Waiting key g) -> take_turn s n key g = Some s' -> gates_ok s'.
Proof.
  intros Hok Hn. unfold take_turn. destruct (heap s !! g) as [[[] u]|] eqn:Hh; try done. intros [= <-].
  apply (turn_ok s n (Waiting key g) (Holding key g) g (MkGate false u) true); try done; [|by eexists].
  intros m k [[<- _]|[Hne Hk]]%lookup_insert_Some; [done|]. exfalso.
  assert (turn (MkGate false u) = true) by (apply (gok_turn s Hok g _ Hh); eauto). done.
Qed.

Lemma give_ok s n key g s' :
  gates_ok s -> threads s !! n = Some (Holding key g) -> give_turn s n key g = Some s' -> gates_ok s'.
Proof.
  intros Hok Hn. unfold give_turn. destruct (heap s !! g) as [[[] u]|] eqn:Hh; try done. intros [= <-].
  apply (turn_ok s n (Holding key g) (Leaving key g) g (MkGate true u) false); try done.
  intros m k [[<- ?]|[Hne Hk]]%lookup_insert_Some; [done|]. exfalso. apply Hne.
  by eapply (gok_single s Hok).
Qed.

(** A goroutine that waits, or gave its turn back, drops its reference. *)
Lemma release_ok s n p key g :
  gates_ok s -> threads s !! n = Some p -> phase_ref p = (key, g) -> (forall k, p <> Holding k g) ->
  gates_ok (releaseStorageReference s n key g).
Proof.
  intros [Hu Hm Hl Hi Ht Hs] Hn Hp Hnh. pose proof (refs_lookup s n p Hn) as Hr. rewrite Hp in Hr.
  pose proof (Hm n key g Hr) as Hkey. destruct (Hl key g Hkey) as [[gate Hh] _].
  unfold releaseStorageReference. rewrite Hh. pose proof (Hu g gate Hh) as Hug.
  set (s' := MkGates _ _ _).
  assert (Href : refs_of s' = delete n (refs_of s)) by (unfold refs_of; simpl; by rewrite fmap_delete).
  pose proof (fun g0 => ref_count_delete s s' n key g g0 Hr Href) as Hcount.
  assert (Hmap : forall k g0, storageGates s' !! k = Some g0 <->
    storageGates s !! k = Some g0 /\ (g0 = g -> 0 < ref_count s' g)).
  { intros k g0. rewrite Hcount, decide_True by done. simpl.
    destruct (Z.eqb_spec (users gate - 1) 0) as [Hz|Hz].
    - rewrite lookup_delete_Some. split.
      + intros [Hk H0]. split; [done|]. intros ->. by destruct Hk; eapply Hi.
      + intros [H0 H1]. split; [|done]. intros <-. rewrite Hkey in H0. injection H0 as <-. specialize (H1 eq_refl). lia.
    - split; [|tauto]. intros H0. split; [done|]. intros ->. destruct (Hl k g H0) as [_ Hpos]. lia. }
  split.
  - intros g0 gate0. rewrite Hcount. simpl. intros [[<- <-]|[Hne H]]%lookup_insert_Some; simpl.
    + rewrite decide_True by done. lia.
    + rewrite decide_False by done. rewrite Z.sub_0_r. by apply Hu.
  - intros m k g0. rewrite Href. intros [Hne Hk]%lookup_delete_Some. apply Hmap. split; [by eapply Hm|].
    intros ->. apply ref_count_pos. exists m, k. rewrite Href. by rewrite lookup_delete_ne.
  - intros k g0 [Hk Hpos]%Hmap. destruct (Hl k g0 Hk) as [[gt Hgt] Hc]. simpl. destruct (decide (g = g0)) as [->|Hne].
    + rewrite lookup_insert_eq. split; [by eexists|auto].
    + rewrite lookup_insert_ne, Hcount, decide_False by done. split; [by eexists|lia].
  - intros k k' g0 [Hk _]%Hmap [Hk' _]%Hmap. by eapply Hi.
  - intros g0 gate0. simpl. assert (Hsame : (exists m k, delete n (threads s) !! m = Some (Holding k g0)) <->
      exists m k, threads s !! m = Some (Holding k g0)).
    { split; intros (m & k & Hk); exists m, k; [by apply lookup_delete_Some in Hk as [_ ?]|].
      rewrite lookup_delete_ne; [done|]. intros <-. rewrite Hn in Hk. injection Hk as ->. simpl in Hp.
      injection Hp as -> ->. by eapply Hnh. }
    rewrite Hsame. intros [[<- <-]|[Hne H]]%lookup_insert_Some; [exact (Ht g gate Hh)|by apply Ht].
  - intros m1 m2 k k' g0. simpl. intros [_ H1]%lookup_delete_Some [_ H2]%lookup_delete_Some. by eapply Hs.
Qed.

(** The state between making the gate and counting the user, which no other
    goroutine sees: the gate is there, and the others are as they were. *)
Record prepared (s : gates) (key : Key) (g : positive) (s1 : gates) (gate : storageGate) : Prop := {
  prep_eq : prepare_gate s key = (g, s1);
  prep_gate : heap s1 !! g = Some gate;
  prep_map : storageGates s1 = <[key := g]> (storageGates s);
  prep_threads : threads s1 = threads s;
  prep_users : forall g0 gt, heap s1 !! g0 = Some gt -> users gt = ref_count s g0;
  prep_heap : forall g0, g0 <> g -> heap s1 !! g0 = heap s !! g0;
  prep_key : forall k g0, storageGates s !! k = Some g0 -> (g0 = g <-> k = key);
  prep_turn : turn gate = true <-> exists m k, threads s !! m = Some (Holding k g);
}.

Lemma prepare_gate_ok s key : gates_ok s -> exists g s1 gate, prepared s key g s1 gate.
Proof.
  intros [Hu Hm Hl Hi Ht Hs]. destruct (storageGates s !! key) as [g|] eqn:Hk.
  - destruct (Hl key g Hk) as [[gate Hg] _]. exists g, s, gate. split; try done.
    + unfold prepare_gate. by rewrite Hk.
    + by rewrite insert_id.
    + intros k g0 Hk0. split; [intros ->; by eapply Hi|intros ->; congruence].
    + by apply Ht.
  - set (g := fresh (dom (heap s))). assert (Hf : heap s !! g = None) by (apply not_elem_of_dom, is_fresh).
    assert (Hno : forall m k, refs_of s !! m <> Some (k, g)).
    { intros m k Hmk. apply Hm, Hl in Hmk as [[gt Hgt] _]. congruence. }
    exists g, (MkGates (<[key := g]> (storageGates s)) (<[g := MkGate false 0]> (heap s)) (threads s)), (MkGate false 0).
    split; simpl.
    + unfold prepare_gate. by rewrite Hk.
    + by rewrite lookup_insert_eq.
    + done.
    + done.
    + intros g0 gt [[<- <-]|[_ H]]%lookup_insert_Some; [|by apply Hu]. simpl.
      destruct (decide (0 < ref_count s g)) as [(m & k & Hmk)%ref_count_pos|Hz]; [by apply Hno in Hmk|].
      unfold ref_count in *. lia.
    + intros g0 Hne. by rewrite lookup_insert_ne.
    + intros k g0 Hk0. split; [intros ->; apply Hl in Hk0 as [[gt Hgt] _]; congruence|intros ->; congruence].
    + split; [done|]. intros (m & k & Hmk). by apply refs_lookup, Hno in Hmk.
Qed.

Lemma gate_enter_ok s n key : gates_ok s -> threads s !! n = None -> gates_ok (enter s n key).
Proof.
  intros Hok Hn. destruct (prepare_gate_ok s key Hok) as (g & s1 & gate & [Hpg Hh Hmap Hth Hus Hheap Hkg Hturn]).
  destruct Hok as [Hu Hm Hl Hi Ht Hs]. unfold enter. rewrite Hpg, Hh, Hth, Hmap. set (s' := MkGates _ _ _).
  assert (Hrn : refs_of s !! n = None) by (unfold refs_of; by rewrite lookup_fmap, Hn).
  assert (Href : refs_of s' = <[n := (key, g)]> (refs_of s)) by (unfold refs_of; simpl; by rewrite fmap_insert).
  pose proof (fun g0 => ref_count_insert s s' n key g g0 Hrn Href) as Hcount.
  assert (Hhold : forall m k g0, threads s' !! m = Some (Holding k g0) <-> threads s !! m = Some (Holding k g0)).
  { intros m k g0. simpl. split; [by intros [[<- ?]|[_ ?]]%lookup_insert_Some|].
    intros Hk. rewrite lookup_insert_ne; [done|]. intros <-. congruence. }
  split.
  - intros g0 gt. rewrite Hcount. simpl. intros [[<- <-]|[Hne H]]%lookup_insert_Some; simpl.
    + rewrite decide_True by done. by rewrite (Hus g gate Hh).
    + rewrite decide_False, Z.add_0_r by done. by apply Hus.
  - intros m k g0. rewrite Href. simpl. intros [[<- [= <- <-]]|[Hne Hk]]%lookup_insert_Some; [by rewrite lookup_insert_eq|].
    apply Hm in Hk. destruct (decide (k = key)) as [->|Hnk]; [|by rewrite lookup_insert_ne].
    rewrite lookup_insert_eq. f_equal. symmetry. by apply (Hkg key g0 Hk).
  - intros k g0. rewrite Hcount. simpl. intros [[<- <-]|[Hne Hk]]%lookup_insert_Some.
    + rewrite lookup_insert_eq, decide_True by done. split; [by eexists|]. unfold ref_count. lia.
    + destruct (Hl k g0 Hk) as [Hsome Hpos]. assert (Hg : g0 <> g) by (intros Heq; by apply Hne; symmetry; apply (Hkg k g0 Hk)).
      rewrite lookup_insert_ne, decide_False, Hheap by done. split; [done|lia].
  - intros k k' g0. simpl. intros [[<- <-]|[Hne Hk]]%lookup_insert_Some [[<- Hk']|[Hne' Hk']]%lookup_insert_Some; try done.
    + by symmetry; apply (Hkg k' g Hk').
    + subst. by apply (Hkg k g0 Hk).
    + by eapply Hi.
  - intros g0 gt Hg0. setoid_rewrite Hhold. simpl in Hg0. apply lookup_insert_Some in Hg0 as [[<- <-]|[Hne H]]; [done|].
    rewrite Hheap in H by done. by apply Ht.
  - intros m1 m2 k k' g0. rewrite !Hhold. apply Hs.
Qed.

Lemma gate_step_ok s s' : gates_ok s -> gate_step s s' -> gates_ok s'.
Proof.
  intros Hok Hst. destruct Hst as [s n key Hn _|s n key g s' Hn Ht|s n key g Hn|s n key g s' Hn Hg|s n key g Hn].
  - by apply gate_enter_ok.
  - by eapply take_ok.
  - by eapply release_ok.
  - by eapply give_ok.
  - by eapply release_ok.
Qed.

Lemma gate_steps_ok s : rtc gate_step no_gates s -> gates_ok s.
Proof.
  enough (H : forall s0 s1, rtc gate_step s0 s1 -> gates_ok s0 -> gates_ok s1).
  { intros Hs. exact (H _ _ Hs no_gates_ok). }
  induction 1; eauto using gate_step_ok.
Qed.

Lemma gate_of_key s : gates_ok s -> forall n m key g g', refs_of s !! n = Some (key, g) -> refs_of s !! m = Some (key, g') -> g = g'.
Proof. intros Hok n m key g g' Hn%(gok_mapped s Hok) Hm%(gok_mapped s Hok). congruence. Qed.
Lemma key_of_gate s : gates_ok s -> forall n m key key' g, refs_of s !! n = Some (key, g) -> refs_of s !! m = Some (key', g) -> key = key'.
Proof. intros Hok n m key key' g Hn%(gok_mapped s Hok) Hm%(gok_mapped s Hok). by eapply (gok_inj s Hok). Qed.

(** No gate is retained and no waiter is lost: a key has a gate in the map exactly
    while some goroutine uses it, with as many users as goroutines; and a goroutine
    waiting for the gate of a key can take its turn as soon as no other holds it. *)
Theorem gate_released s :
  rtc gate_step no_gates s ->
  (forall key, is_Some (storageGates s !! key) <-> exists n g, refs_of s !! n = Some (key, g)) /\
  (forall n key g, threads s !! n = Some (Waiting key g) ->
     (forall m k, threads s !! m <> Some (Holding k g)) -> is_Some (take_turn s n key g)) /\
  (forall n key g, threads s !! n = Some (Holding key g) -> is_Some (give_turn s n key g)).
Proof.
  intros Hok%gate_steps_ok. split_and!.
  - intros key. split.
    + intros [g Hg]. destruct (gok_live s Hok key g Hg) as [_ (n & k & Hn)%ref_count_pos].
      exists n, g. by rewrite (gok_inj s Hok key k g Hg (gok_mapped s Hok n k g Hn)).
    + intros (n & g & Hn). exists g. by eapply (gok_mapped s Hok).
  - intros n key g Hn Hfree. pose proof (gok_mapped s Hok n key g (refs_lookup s n _ Hn)) as Hk.
    destruct (gok_live s Hok key g Hk) as [[[b u] Hh] _]. unfold take_turn. rewrite Hh.
    destruct b; [|by eexists]. exfalso. destruct (proj1 (gok_turn s Hok g _ Hh) eq_refl) as (m & k & Hm).
    by apply (Hfree m k).
  - intros n key g Hn. pose proof (gok_mapped s Hok n key g (refs_lookup s n _ Hn)) as Hk.
    destruct (gok_live s Hok key g Hk) as [[[b u] Hh] _]. unfold give_turn. rewrite Hh.
    destruct b; [by eexists|]. assert (turn (MkGate false u) = true); [|done].
    apply (gok_turn s Hok g _ Hh). eauto.
Qed.

(** C34: the gate excludes and separates: at any point of any interleaving, cancelled
    waiters included, at most one goroutine is between acquiring and releasing the gate of
    a key; the goroutines of different keys, wherever they stand, never have the same gate;
    and a waiter can take its turn as soon as no goroutine holds the gate of its key,
    whatever the goroutines of other keys hold. *)
Theorem gate_mutual_exclusion s : rtc gate_step no_gates s ->
  (forall n m key g g', threads s !! n = Some (Holding key g) -> threads s !! m = Some (Holding key g') -> n = m) /\
  (forall n m key key' g, refs_of s !! n = Some (key, g) -> refs_of s !! m = Some (key', g) -> key = key') /\
  (forall n key g, threads s !! n = Some (Waiting key g) -> (forall m g', threads s !! m <> Some (Holding key g')) -> is_Some (take_turn s n key g)).
Proof.
  intros Hs. pose proof (gate_steps_ok s Hs) as Hok. split_and!.
  - intros n m key g g' Hn Hm. pose proof (gate_of_key s Hok n m key g g' (refs_lookup s n _ Hn) (refs_lookup s m _ Hm)) as <-.
    by eapply (gok_single s Hok).
  - intros n m key key' g Hn Hm. by apply (key_of_gate s Hok n m key key' g).
  - intros n key g Hn Hfree. destruct (gate_released s Hs) as (_ & Htake & _). apply Htake; [done|]. intros m k Hm.
    apply (Hfree m g). by rewrite <- (key_of_gate s Hok m n k key g (refs_lookup s m _ Hm) (refs_lookup s n _ Hn)).
Qed.

(** ** Witnesses: two goroutines on one key *)
Definition gate_key : Key :=
  MkKey "tenant_a" "sha256:0123456789abcdef0123456789abcdef0123456789abcdef0123456789abcdef".
Definition entered1 : gates := enter no_gates 1 gate_key.
Definition entered2 : gates := enter entered1 2 gate_key.
Definition held1 : gates := default entered2 (take_turn entered2 1 gate_key 1).

Lemma held1_reachable : rtc gate_step no_gates held1.
Proof.
  eapply rtc_l; [apply (gate_enter no_gates 1 gate_key); vm_compute; reflexivity|].
  eapply rtc_l; [apply (gate_enter entered1 2 gate_key); vm_compute; reflexivity|].
  apply rtc_once. apply (gate_take entered2 1 gate_key 1 held1); vm_compute; reflexivity.
Qed.

Lemma gate_mutual_exclusion_witness : threads held1 !! 2%nat = Some (Waiting gate_key 1) /\
  (forall m g, threads held1 !! m = Some (Holding gate_key g) -> 1%nat = m).
Proof.
  split; [vm_compute; reflexivity|]. intros m g. apply (proj1 (gate_mutual_exclusion held1 held1_reachable) 1%nat m gate_key 1%positive g). vm_compute. reflexivity.
Defined.

Lemma gate_released_witness :
  is_Some (storageGates held1 !! gate_key) <-> exists n g, refs_of held1 !! n = Some (gate_key, g).
Proof. exact (proj1 (gate_released held1 held1_reachable) gate_key). Defined.
