(* ===== verification/ContentStore.v ===== *)
(** * The content store ([internal/workspace/blob/store.go])

    Content-addressed blobs: an object store holds the bytes, the guard table
    decides which may be deleted.  The object store is the interface
    [objectstore.Store]; [ObjectStoreContract] states the conditional-write
    contract of [internal/objectstore/types.go] that the code relies on.  An
    operation that mutates the storage holds the gate of its key ([StorageGate]),
    so it is one step of the pair of the store and the table. *)

From S2P Require Import Prelude GoText GoCrypto Identity BlobGuard BlobGuardProofs.
#[local] Open Scope string_scope.
#[local] Open Scope list_scope.
#[local] Open Scope Z_scope.
#[local] Open Scope go_scope.

(** ** The interface of the object store, for the bucket of workspace blobs *)
Inductive obj_error := ErrNotFound | ErrPreconditionFailed | ErrObjectStore.
#[global] Instance obj_error_eq_dec : EqDecision obj_error.
Proof. solve_decision. Defined.

Record Object := MkObject { Data : bytes; ETag : string }.

Record Store (O : Type) := MkStore {
  Get : O -> string -> res obj_error Object;
  PutIfAbsent : O -> string -> bytes -> res obj_error string * O;
  DeleteIfMatch : O -> string -> string -> res obj_error unit * O;
}.
Arguments Get {O} _ _ _.
Arguments PutIfAbsent {O} _ _ _ _.
Arguments DeleteIfMatch {O} _ _ _ _.

(** [contents] abstracts the bucket.  A write whose answer was lost may or may not
    have happened. *)
Class ObjectStoreContract {O} (ops : Store O) := {
  contents : O -> gmap string bytes;
  get_ok o k obj : Get ops o k = Ok obj -> contents o !! k = Some (Data obj) /\ ETag obj = sha256_text (Data obj);
  put_law o k d r o' : PutIfAbsent ops o k d = (r, o') ->
    match r with
    | Ok _ => contents o !! k = None /\ contents o' = <[k := d]> (contents o)
    | Err ErrPreconditionFailed => is_Some (contents o !! k) /\ contents o' = contents o
    | Err _ => contents o' = contents o \/ contents o !! k = None /\ contents o' = <[k := d]> (contents o)
    end;
  delete_law o k etag r o' : DeleteIfMatch ops o k etag = (r, o') ->
    match r with
    | Ok _ => contents o' = delete k (contents o)
    | Err ErrNotFound => contents o !! k = None /\ contents o' = contents o
    | Err _ => contents o' = contents o \/ contents o' = delete k (contents o)
    end;
}.

Inductive store_error :=
| ErrInvalidContentStore | ErrInvalidReference | ErrTenantMismatch | ErrCorruptObject
| GuardErr (e : blob_error) | StoreErr (e : obj_error) | ContextDone.

Record Reference := MkReference { ref_TenantID : ID; ref_Digest : string; ref_Size : Z }.

Definition ReferenceFor (tenant : ID) (data : bytes) : Reference :=
  MkReference tenant (sha256_text data) (u64 (zlen data)).

(** [reference.Digest[len("sha256:"):]] and its slices. *)
Definition hex_digest (digest : string) : bytes := drop 7 (to_bytes digest).
Definition object_path (tenant : string) (digest : string) : string :=
  let h := hex_digest digest in
  of_bytes (to_bytes tenant ++ to_bytes "/sha256/" ++ take 2 h ++ to_bytes "/" ++ take 2 (drop 2 h)
            ++ to_bytes "/" ++ h).

Definition ObjectKey (reference : Reference) : string :=
  if (id_kind (ref_TenantID reference) != "tenant") || negb (matches_sha256 (ref_Digest reference)) then ""
  else object_path (id_value (ref_TenantID reference)) (ref_Digest reference).

Section store.
Context {O : Type} (objects : Store O).

(** The store and the table that [NewContentStore] binds. *)
Record content := MkContent { c_objects : O; c_guards : GuardTable }.

(** [NewContentStore] refuses a nil store or a nil table. *)
Definition NewContentStore (objects : option O) (guards : option GuardTable) : res store_error content :=
  match objects, guards with
  | Some o, Some g => Ok (MkContent o g)
  | _, _ => Err ErrInvalidContentStore
  end.

(** [acquireStorage]: the key is checked, then the context ([cancelled] when it is
    done at the entry, while waiting, or once the gate is held). *)
Definition acquireStorage (cancelled : bool) (key : Key) : res store_error unit :=
  _ ← lift_err GuardErr (validateKey key);
  reject_if cancelled ContextDone.

Definition lift_guards {A} (o : O) (r : res blob_error A * GuardTable) : res store_error A * content :=
  (lift_err GuardErr r.1, MkContent o r.2).

Definition validateReference (tenant : ID) (reference : Reference) : res store_error unit :=
  _ ← reject_if ((id_kind tenant != "tenant") || (id_kind (ref_TenantID reference) != "tenant")
                 || negb (matches_sha256 (ref_Digest reference)) || (ObjectKey reference == ""))
        ErrInvalidReference;
  reject_if (tenant != ref_TenantID reference) ErrTenantMismatch.

(** The answer of the put: an object that is already there must hold the same
    bytes under the digest's ETag. *)
Definition check_put (o : O) (key : string) (data : bytes) (digest : string) (put : res obj_error string)
    : res store_error unit :=
  match put with
  | Err ErrPreconditionFailed =>
      match Get objects o key with
      | Err e => Err (StoreErr e)
      | Ok existing => reject_if ((ETag existing != digest) || (Data existing != data)) ErrCorruptObject
      end
  | Err e => Err (StoreErr e)
  | Ok _ => Ok tt
  end.

Definition Upload (s : content) (cancelled : bool) (tenant : ID) (data : bytes) (createdAt : time)
    : res store_error Reference * content :=
  if (id_kind tenant != "tenant") || time_IsZero createdAt then (Err ErrInvalidReference, s)
  else
    let reference := ReferenceFor tenant data in
    let guardKey := MkKey (id_value tenant) (ref_Digest reference) in
    match acquireStorage cancelled guardKey with
    | Err e => (Err e, s)
    | Ok _ =>
        let key := ObjectKey reference in
        let '(put, o) := PutIfAbsent objects (c_objects s) key data in
        match check_put o key data (ref_Digest reference) put with
        | Err e => (Err e, MkContent o (c_guards s))
        | Ok _ =>
            let '(registered, s') := lift_guards o (register (c_guards s) guardKey createdAt) in
            (_ ← registered; Ok reference, s')
        end
    end.

Definition Read (s : content) (tenant : ID) (reference : Reference) : res store_error bytes :=
  _ ← validateReference tenant reference;
  object ← lift_err StoreErr (Get objects (c_objects s) (ObjectKey reference));
  _ ← reject_if ((sha256_text (Data object) != ref_Digest reference) || (ETag object != ref_Digest reference)
                 || negb (u64 (zlen (Data object)) =? ref_Size reference)) ErrCorruptObject;
  Ok (Data object).

(** [ContentStore.Protect] *)
Definition ProtectBlob (s : content) (cancelled : bool) (tenant : ID) (reference : Reference) (permitID : string)
    : res store_error Permit * content :=
  let guardKey := MkKey (id_value tenant) (ref_Digest reference) in
  match (_ ← validateReference tenant reference; _ ← acquireStorage cancelled guardKey; Read s tenant reference) with
  | Err e => (Err e, s)
  | Ok _ => lift_guards (c_objects s) (Protect (c_guards s) guardKey permitID)
  end.

(** [ContentStore.Delete] *)
Definition DeleteBlob (s : content) (cancelled : bool) (deletion : Deletion) : res store_error unit * content :=
  let key := d_Key deletion in
  match (_ ← acquireStorage cancelled key; _ ← lift_err GuardErr (ValidateDeletion (c_guards s) deletion);
         tenant ← wrap_err ErrInvalidReference (Parse "tenant" (TenantID key));
         _ ← reject_if (negb (matches_sha256 (Digest key))) ErrInvalidReference; Ok tenant) with
  | Err e => (Err e, s)
  | Ok tenant =>
      let reference := MkReference tenant (Digest key) 0 in
      let '(deleted, o) := DeleteIfMatch objects (c_objects s) (ObjectKey reference) (Digest key) in
      match deleted with
      | Ok _ | Err ErrNotFound => lift_guards o (completeDeletion (c_guards s) deletion)
      | Err e => (Err (StoreErr e), MkContent o (c_guards s))
      end
  end.
End store.
Arguments MkContent {O} _ _.
Arguments c_objects {O} _.
Arguments c_guards {O} _.
