(* ===== verification/ContentStoreProofs.v ===== *)
(** * Theorems about the content store

    Integrity and round trip of blobs, and the invariant that ties the two
    stores together: a blob whose guard is live or a candidate is present. *)

From S2P Require Import Prelude GoText GoCrypto Identity BlobGuard BlobGuardProofs ContentStore.
#[local] Open Scope string_scope.
#[local] Open Scope list_scope.
#[local] Open Scope Z_scope.

(** ** Digests and object keys *)
Lemma matches_sha256_split d :
  matches_sha256 d = true -> to_bytes d = to_bytes "sha256:" ++ hex_digest d /\ length (hex_digest d) = 64%nat.
Proof.
  unfold matches_sha256, matches_hex64, hex_digest. destruct (decide _) as [Hp|]; [|done].
  intros [Hl%Nat.eqb_eq _]%andb_prop. split; [|exact Hl].
  rewrite <- (take_drop 7 (to_bytes d)) at 1. f_equal. exact Hp.
Qed.

Lemma object_path_inj t t' d d' :
  matches_sha256 d = true -> matches_sha256 d' = true -> object_path t d = object_path t' d' -> t = t' /\ d = d'.
Proof.
  intros [Hd Hl]%matches_sha256_split [Hd' Hl']%matches_sha256_split Heq. unfold object_path in Heq.
  apply (f_equal to_bytes) in Heq. rewrite !to_of_bytes in Heq.
  apply app_inj_2 in Heq as [Ht%(inj to_bytes) Heq].
  2: { rewrite !length_app, !length_take, !length_drop, Hl, Hl'. done. }
  split; [done|]. apply (inj to_bytes). rewrite Hd, Hd'. f_equal.
  apply app_inj_1 in Heq as [_ Heq]; [|done]. apply app_inj_1 in Heq as [_ Heq]; [|by rewrite !length_take, Hl, Hl'].
  apply app_inj_1 in Heq as [_ Heq]; [|done].
  apply app_inj_1 in Heq as [_ Heq]; [|by rewrite !length_take, !length_drop, Hl, Hl'].
  by apply app_inj_1 in Heq as [_ Heq].
Qed.

Lemma ObjectKey_path r :
  id_kind (ref_TenantID r) = "tenant" -> matches_sha256 (ref_Digest r) = true ->
  ObjectKey r = object_path (id_value (ref_TenantID r)) (ref_Digest r).
Proof. intros Hk Hm. unfold ObjectKey. rewrite Hk, Hm. done. Qed.

Lemma validateReference_ok tenant r :
  id_kind tenant = "tenant" -> ref_TenantID r = tenant -> matches_sha256 (ref_Digest r) = true ->
  validateReference tenant r = Ok tt.
Proof.
  intros Hk <- Hm. unfold validateReference. rewrite ObjectKey_path, Hk, Hm by done.
  assert (Hne : object_path (id_value (ref_TenantID r)) (ref_Digest r) <> "").
  { unfold object_path. intros Hn. apply (f_equal to_bytes) in Hn. rewrite to_of_bytes in Hn.
    by destruct (to_bytes (id_value (ref_TenantID r))). }
  rewrite (bool_decide_eq_false_2 (_ = "")) by done. by rewrite bool_decide_eq_false_2 by naive_solver.
Qed.

Definition key_path (k : Key) : string := object_path (TenantID k) (Digest k).

Lemma validateKey_digest k u : validateKey k = Ok u -> matches_sha256 (Digest k) = true.
Proof.
  unfold validateKey. intros [_ H]%reject_if_ok. unfold reject_if in H. case_match eqn:E; [done|].
  by apply negb_false_iff in E.
Qed.

(** After a successful registration the guard is there and not on its way out. *)
Lemma register_live t k createdAt u t' :
  register t k createdAt = (Ok u, t') -> exists g, guards t' !! k = Some g /\ going (g_state g) = false.
Proof.
  unfold register. intros Hr. destruct (validateKey k); [|done]. case_match; [done|].
  destruct (guards t !! k) as [g|] eqn:Hk.
  - destruct (g_state g) eqn:Hs; simplify_eq; simpl.
    + exists g. by rewrite Hs.
    + exists g. by rewrite Hs.
    + eexists. by rewrite lookup_insert_eq.
  - simplify_eq. simpl. eexists. by rewrite lookup_insert_eq.
Qed.

Lemma completeDeletion_done t d u t' :
  completeDeletion t d = (Ok u, t') -> exists g, guards t' !! d_Key d = Some g /\ g_state g = Deleted.
Proof.
  unfold completeDeletion. intros Hc. destruct (validateKey _); [|done].
  destruct (guards t !! d_Key d) as [g|] eqn:Hk; [|done]. case_match eqn:Hd.
  - simplify_eq. exists g. split; [done|]. by apply andb_prop in Hd as [Hd%bool_decide_eq_true _].
  - case_match; [done|]. simplify_eq. simpl. eexists. by rewrite lookup_insert_eq.
Qed.

Section proofs.
Context {O : Type} (objects : Store O) `{C : !ObjectStoreContract objects}.
Implicit Types (s : content (O := O)).

(** ** The invariant *)
Definition present (o : O) (k : Key) : Prop :=
  exists d, contents o !! key_path k = Some d /\ sha256_text d = Digest k.

Record content_ok (s : content (O := O)) : Prop := MkContentOk {
  cok_table : table_ok (c_guards s);
  cok_keys : forall k g, guards (c_guards s) !! k = Some g -> matches_sha256 (Digest k) = true;
  cok_present : forall k g, guards (c_guards s) !! k = Some g -> going (g_state g) = false -> present (c_objects s) k;
}.

Lemma present_mono o o' k : contents o ⊆ contents o' -> present o k -> present o' k.
Proof using Type. intros Hsub (d & Hd & Hh). exists d. split; [by eapply lookup_weaken|done]. Qed.

(** A step of the table that keeps the keys and wakes up no guard. *)
Lemma content_ok_table s t' :
  content_ok s -> table_ok t' ->
  (forall k g', guards t' !! k = Some g' -> exists g, guards (c_guards s) !! k = Some g /\
     (going (g_state g') = false -> going (g_state g) = false)) ->
  content_ok (MkContent (c_objects s) t').
Proof using Type.
  intros [Ht Hk Hp] Hok Hstep. split; simpl; [done| |].
  - intros k g' Hg'. destruct (Hstep k g' Hg') as (g & Hg & _). by eapply Hk.
  - intros k g' Hg' Hgo. destruct (Hstep k g' Hg') as (g & Hg & Hw). eauto.
Qed.

Lemma content_ok_objects s o' :
  content_ok s -> contents (c_objects s) ⊆ contents o' -> content_ok (MkContent o' (c_guards s)).
Proof using Type.
  intros [Ht Hk Hp] Hsub. split; simpl; [done|done|]. intros k g Hg Hgo. eapply present_mono; eauto.
Qed.

(** [register] touches the guard of its key only. *)
Lemma register_guards t k createdAt r t' k0 g' :
  register t k createdAt = (r, t') -> guards t' !! k0 = Some g' ->
  guards t !! k0 = Some g' \/ k0 = k /\ matches_sha256 (Digest k) = true.
Proof using Type.
  unfold register. intros Hr Hg. destruct (validateKey k) eqn:Hv; [|simplify_eq; by left].
  apply validateKey_digest in Hv. repeat case_match; simplify_eq; try by left.
  all: simpl in Hg; apply lookup_insert_Some in Hg as [[<- _]|[_ ?]]; [by right|by left].
Qed.

Lemma register_content s o k createdAt r s' :
  content_ok (MkContent o (c_guards s)) -> present o k ->
  lift_guards o (register (c_guards s) k createdAt) = (r, s') -> content_ok s'.
Proof using Type.
  intros [Ht Hk Hp] Hpres. unfold lift_guards. destruct (register _ _ _) as [r0 t'] eqn:Hr. intros [= _ <-].
  split; simpl in *; [by eapply register_ok| |].
  - intros k0 g' Hg'. destruct (register_guards _ _ _ _ _ _ _ Hr Hg') as [?|[-> ?]]; [by eapply Hk|done].
  - intros k0 g' Hg' Hgo. destruct (register_guards _ _ _ _ _ _ _ Hr Hg') as [?|[-> ?]]; [by eapply Hp|done].
Qed.

Lemma put_subseteq o k d r o' : PutIfAbsent objects o k d = (r, o') -> contents o ⊆ contents o'.
Proof using Type.
  intros Hp%put_law. repeat case_match; destruct_and?; destruct_or?; destruct_and?;
    match goal with E : contents o' = _ |- _ => rewrite E end; done || by apply insert_subseteq.
Qed.

Lemma check_put_stored o k d put o' digest u :
  PutIfAbsent objects o k d = (put, o') -> check_put objects o' k d digest put = Ok u -> contents o' !! k = Some d.
Proof using Type.
  intros Hp%put_law Hc. unfold check_put in Hc. destruct put as [e|[]]; try done.
  - destruct Hp as [_ ->]. by rewrite lookup_insert_eq.
  - destruct (Get objects o' k) as [obj|] eqn:Hg; [|done]. apply get_ok in Hg as [Hg _].
    unfold reject_if in Hc. case_match eqn:Hb; [done|].
    apply orb_false_elim in Hb as [_ Hb%bool_decide_eq_false%dec_stable]. by rewrite Hg, Hb.
Qed.

(** The bytes the upload leaves under the key are the data. *)
Lemma Upload_content s cancelled tenant data createdAt r s' :
  content_ok s -> Upload objects s cancelled tenant data createdAt = (r, s') ->
  content_ok s' /\ contents (c_objects s) ⊆ contents (c_objects s') /\
  forall reference, r = Ok reference -> reference = ReferenceFor tenant data /\ id_kind tenant = "tenant" /\
    matches_sha256 (ref_Digest reference) = true /\
    contents (c_objects s') !! ObjectKey reference = Some data /\
    exists g, guards (c_guards s') !! MkKey (id_value tenant) (ref_Digest reference) = Some g /\
      going (g_state g) = false.
Proof using Type*.
  intros Hok. unfold Upload. case_match eqn:Hin; [by intros [= <- <-]|].
  apply orb_false_elim in Hin as [Hkind%bool_decide_eq_false%dec_stable _].
  set (reference := ReferenceFor tenant data). set (gk := MkKey (id_value tenant) _).
  destruct (acquireStorage cancelled gk) as [u|] eqn:Hacq; [|by intros [= <- <-]].
  assert (Hm : matches_sha256 (ref_Digest reference) = true).
  { unfold acquireStorage in Hacq. apply bind_ok in Hacq as (v & Hv%lift_err_ok & _). by apply validateKey_digest in Hv. }
  destruct (PutIfAbsent objects (c_objects s) (ObjectKey reference) data) as [put o] eqn:Hput.
  pose proof (put_subseteq _ _ _ _ _ Hput) as Hsub.
  pose proof (content_ok_objects s o Hok Hsub) as Hok1.
  destruct (check_put _ _ _ _ _ _) as [v|e] eqn:Hchk; [|by intros [= <- <-]].
  pose proof (check_put_stored _ _ _ _ _ _ _ Hput Hchk) as Hstored.
  assert (Hpres : present o gk).
  { exists data. split; [|done]. unfold key_path. simpl.
    change (object_path (id_value tenant) (sha256_text data)) with
      (object_path (id_value (ref_TenantID reference)) (ref_Digest reference)).
    by rewrite <- ObjectKey_path. }
  destruct (lift_guards o _) as [reg s1] eqn:Hreg. intros [= <- <-].
  pose proof (register_content _ _ _ _ _ _ Hok1 Hpres Hreg) as Hok2.
  assert (Hobj : c_objects s1 = o) by (unfold lift_guards in Hreg; by simplify_eq).
  rewrite Hobj. split_and!; try done. intros ref Href. apply bind_ok in Href as (w & Hw & [= <-]).
  split_and!; try done. unfold lift_guards in Hreg. destruct (register _ _ _) as [r0 t'] eqn:Hr.
  injection Hreg as Hreg1 <-. subst reg. simpl in Hw |- *. apply lift_err_ok in Hw. subst r0.
  by eapply register_live.
Qed.

(** The table after an operation that does not register: every guard was there,
    and none came back. *)
Lemma Protect_guards t k id r t' k0 g' :
  Protect t k id = (r, t') -> guards t' !! k0 = Some g' ->
  exists g, guards t !! k0 = Some g /\ (going (g_state g') = false -> going (g_state g) = false).
Proof using Type.
  unfold Protect. intros Hr Hg. repeat case_match; simplify_eq; eauto.
  simpl in Hg. apply lookup_insert_Some in Hg as [[<- <-]|[_ ?]]; eauto.
Qed.

Lemma drop_guards t k id k0 g' :
  guards (drop_pending t k id) !! k0 = Some g' ->
  exists g, guards t !! k0 = Some g /\ (going (g_state g') = false -> going (g_state g) = false).
Proof using Type.
  unfold drop_pending. case_match eqn:Hk; [|eauto]. simpl.
  intros [[<- <-]|[_ ?]]%lookup_insert_Some; eauto.
Qed.

Lemma Finalize_guards t id r t' k0 g' :
  Finalize t id = (r, t') -> guards t' !! k0 = Some g' ->
  exists g, guards t !! k0 = Some g /\ (going (g_state g') = false -> going (g_state g) = false).
Proof using Type.
  unfold Finalize. intros Hr Hg. repeat case_match; simplify_eq; eauto. eapply drop_guards, Hg.
Qed.

Lemma Abandon_guards t id r t' k0 g' :
  Abandon t id = (r, t') -> guards t' !! k0 = Some g' ->
  exists g, guards t !! k0 = Some g /\ (going (g_state g') = false -> going (g_state g) = false).
Proof using Type.
  unfold Abandon. intros Hr Hg. repeat case_match; simplify_eq; eauto. eapply drop_guards, Hg.
Qed.

Lemma Sweep_guards t epoch complete marked now r t' k0 g' :
  Sweep t epoch complete marked now = (r, t') -> guards t' !! k0 = Some g' ->
  exists g, guards t !! k0 = Some g /\ (going (g_state g') = false -> going (g_state g) = false).
Proof using Type.
  intros Hr Hg. destruct r as [ds|e]; [|apply Sweep_error in Hr as ->; eauto].
  apply Sweep_inv in Hr as (_ & _ & _ & _ & _ & _ & _ & _ & Hlook). rewrite Hlook in Hg.
  destruct (guards t !! k0) as [g|]; [|done]. injection Hg as <-. exists g. split; [done|].
  destruct (going (g_state g)) eqn:Hgo; [|done].
  destruct (sweep_guard_keeps (grace t) epoch marked now k0 g) as (_ & _ & Hsame). by rewrite Hsame, Hgo.
Qed.

Lemma completeDeletion_guards t d r t' k0 g' :
  completeDeletion t d = (r, t') -> guards t' !! k0 = Some g' ->
  exists g, guards t !! k0 = Some g /\ (going (g_state g') = false -> going (g_state g) = false).
Proof using Type.
  unfold completeDeletion. intros Hr Hg. repeat case_match; simplify_eq; eauto.
  simpl in Hg. apply lookup_insert_Some in Hg as [[<- <-]|[_ ?]]; [|by eauto].
  eexists. by split; [eassumption|].
Qed.

Lemma ValidateDeletion_going t d u :
  ValidateDeletion t d = Ok u -> exists g, guards t !! d_Key d = Some g /\ going (g_state g) = true.
Proof using Type.
  unfold ValidateDeletion. intros (v & _ & H)%bind_ok. destruct (guards t !! d_Key d) as [g|]; [|done].
  exists g. split; [done|]. unfold reject_if in H. case_match eqn:Hb; [done|].
  apply orb_false_elim in Hb as [Hb _]. by destruct (g_state g).
Qed.

Lemma delete_cases o k etag r o' :
  DeleteIfMatch objects o k etag = (r, o') -> contents o' = contents o \/ contents o' = delete k (contents o).
Proof using Type. intros Hd%delete_law. repeat case_match; naive_solver. Qed.

(** Deleting the object of a guard that is going leaves the others present. *)
Lemma content_ok_delete s k g o' :
  content_ok s -> guards (c_guards s) !! k = Some g -> going (g_state g) = true ->
  contents o' = contents (c_objects s) \/ contents o' = delete (key_path k) (contents (c_objects s)) ->
  content_ok (MkContent o' (c_guards s)).
Proof using Type.
  intros [Ht Hk Hp] Hg Hgo Hdel. split; simpl; [done|done|]. intros k0 g0 Hg0 Hgo0.
  destruct (Hp k0 g0 Hg0 Hgo0) as (d & Hd & Hh). exists d. split; [|done].
  destruct Hdel as [-> | ->]; [done|]. rewrite lookup_delete_ne; [done|]. intros Heq.
  apply object_path_inj in Heq as [H1 H2]; [|by eapply Hk..].
  assert (k = k0) as -> by (destruct k, k0; simpl in *; congruence). congruence.
Qed.

(** The reference that [Delete] builds names the key's object. *)
Lemma deletion_path k tenant :
  Parse "tenant" (TenantID k) = Ok tenant -> matches_sha256 (Digest k) = true ->
  ObjectKey (MkReference tenant (Digest k) 0) = key_path k.
Proof using Type.
  intros Hp Hm. unfold Parse in Hp. case_match; [done|]. apply bind_ok in Hp as (id & Hid & Hp).
  apply parseID_ok in Hid as [_ Hv]. case_bool_decide as Hk; [done|]. injection Hp as <-.
  rewrite ObjectKey_path by done. simpl. by rewrite Hv.
Qed.

Lemma DeleteBlob_content s cancelled d r s' :
  content_ok s -> DeleteBlob objects s cancelled d = (r, s') ->
  content_ok s' /\ (r = Ok tt -> contents (c_objects s') !! key_path (d_Key d) = None /\
    exists g, guards (c_guards s') !! d_Key d = Some g /\ g_state g = Deleted).
Proof using Type*.
  intros Hok. unfold DeleteBlob. match goal with |- context [match ?m with _ => _ end] => destruct m as [tenant|e] eqn:Hpre end;
    [|by intros [= <- <-]].
  apply bind_ok in Hpre as (u & _ & Hpre). apply bind_ok in Hpre as (v & Hv%lift_err_ok & Hpre).
  apply bind_ok in Hpre as (tn & Hparse%wrap_err_ok & Hpre). apply bind_ok in Hpre as (w & Hm & [= ->]).
  unfold reject_if in Hm. case_match eqn:Hmatch; [done|]. apply negb_false_iff in Hmatch.
  apply ValidateDeletion_going in Hv as (g & Hg & Hgo). rewrite (deletion_path _ _ Hparse Hmatch).
  destruct (DeleteIfMatch objects _ _ _) as [del o] eqn:Hdel. pose proof (delete_cases _ _ _ _ _ Hdel) as Hcases.
  pose proof (content_ok_delete _ _ _ _ Hok Hg Hgo Hcases) as Hok1.
  assert (Hcomplete : forall r0 s0, lift_guards o (completeDeletion (c_guards s) d) = (r0, s0) ->
    contents o !! key_path (d_Key d) = None -> content_ok s0 /\ (r0 = Ok tt ->
      contents (c_objects s0) !! key_path (d_Key d) = None /\
      exists g, guards (c_guards s0) !! d_Key d = Some g /\ g_state g = Deleted)).
  { intros r0 s0 Hl Hnone. unfold lift_guards in Hl. destruct (completeDeletion _ _) as [rc t'] eqn:Hcd.
    injection Hl as <- <-. split.
    - apply (content_ok_table (MkContent o (c_guards s))); [done|by eapply completeDeletion_ok; [apply (cok_table s Hok)|]|].
      intros k g'. by eapply completeDeletion_guards.
    - simpl. intros Hr%lift_err_ok. split; [done|]. subst rc. by eapply completeDeletion_done. }
  apply delete_law in Hdel. destruct del as [[]|[]].
  - intros Hl. apply Hcomplete; [done|]. by rewrite Hdel, lookup_delete_eq.
  - intros Hl. apply Hcomplete; [done|]. destruct Hdel as [Hn ->]. done.
  - by intros [= <- <-].
  - by intros [= <- <-].
Qed.

Lemma ProtectBlob_content s cancelled tenant reference id r s' :
  content_ok s -> ProtectBlob objects s cancelled tenant reference id = (r, s') -> content_ok s'.
Proof using Type.
  intros Hok. unfold ProtectBlob, lift_guards. case_match; [|by intros [= _ <-]].
  destruct (Protect _ _ _) as [r0 t'] eqn:Hp. intros [= _ <-].
  apply content_ok_table; [done|by eapply Protect_ok; [apply (cok_table s Hok)|]|].
  intros k g'. by eapply Protect_guards.
Qed.

(** ** Steps of the content store

    Uploads, protections and deletions through the store, and the operations of
    the table that do not touch the objects. *)
Inductive content_step : content (O := O) -> content (O := O) -> Prop :=
| cs_upload s c tenant data createdAt r s' :
    Upload objects s c tenant data createdAt = (r, s') -> content_step s s'
| cs_protect s c tenant reference id r s' :
    ProtectBlob objects s c tenant reference id = (r, s') -> content_step s s'
| cs_delete s c d r s' : DeleteBlob objects s c d = (r, s') -> content_step s s'
| cs_finalize s id r t' :
    Finalize (c_guards s) id = (r, t') -> content_step s (MkContent (c_objects s) t')
| cs_abandon s id r t' :
    Abandon (c_guards s) id = (r, t') -> content_step s (MkContent (c_objects s) t')
| cs_sweep s epoch complete marked now r t' :
    Sweep (c_guards s) epoch complete marked now = (r, t') -> content_step s (MkContent (c_objects s) t').

Definition content_reachable (s : content (O := O)) : Prop :=
  exists o gr t s0, NewGuardTable gr = Some t /\ NewContentStore (Some o) (Some t) = Ok s0 /\ rtc content_step s0 s.

Lemma content_step_ok s s' : content_ok s -> content_step s s' -> content_ok s'.
Proof using Type*.
  intros Hok Hs. pose proof (cok_table s Hok) as Ht.
  destruct Hs as [? ? ? ? ? ? ? H|? ? ? ? ? ? ? H|? ? ? ? ? H|? ? ? t' H|? ? ? t' H|? ? ? ? ? ? t' H].
  - by apply Upload_content in H as [? _].
  - by eapply ProtectBlob_content.
  - by apply DeleteBlob_content in H as [? _].
  - apply content_ok_table; [done|by eapply Finalize_ok|]. intros k g'. by eapply Finalize_guards.
  - apply content_ok_table; [done|by eapply Abandon_ok|]. intros k g'. by eapply Abandon_guards.
  - apply content_ok_table; [done|by eapply Sweep_ok|]. intros k g'. by eapply Sweep_guards.
Qed.

Lemma content_reachable_ok s : content_reachable s -> content_ok s.
Proof using Type*.
  intros (o & gr & t & s0 & Hn & [= <-] & Hs).
  assert (H0 : content_ok (MkContent o t)).
  { unfold NewGuardTable in Hn. case_match; [done|]. injection Hn as <-.
    split; simpl; [by split|intros k g Hk; by rewrite lookup_empty in Hk..]. }
  clear Hn. induction Hs; eauto using content_step_ok.
Qed.

Lemma Read_ok s tenant reference data :
  Read objects s tenant reference = Ok data ->
  ReferenceFor tenant data = reference /\ validateReference tenant reference = Ok tt.
Proof using Type.
  unfold Read. intros ([] & Hv & H)%bind_ok. apply bind_ok in H as (obj & _ & H).
  apply reject_if_ok in H as [Hc [= <-]]. split; [|done].
  apply orb_false_elim in Hc as [Hc Hs%negb_false_iff%Z.eqb_eq].
  apply orb_false_elim in Hc as [Hd%bool_decide_eq_false%dec_stable _].
  unfold validateReference in Hv. apply bind_ok in Hv as (u & _ & Hv). unfold reject_if in Hv.
  case_bool_decide as Ht; [done|]. unfold ReferenceFor. rewrite Hd, Hs. destruct reference. simpl in *. congruence.
Qed.

(** ** The claims *)

(** C33: no guard without its blob: whatever was uploaded, protected, swept and
    deleted, with answers of the object store lost or not, the bytes of every blob
    whose guard is live or a candidate are in the object store, under the key's
    path and with the key's digest. *)
Theorem guarded_blob_is_present s k g :
  content_reachable s -> guards (c_guards s) !! k = Some g -> going (g_state g) = false ->
  exists d, contents (c_objects s) !! object_path (TenantID k) (Digest k) = Some d /\ sha256_text d = Digest k.
Proof using Type*. intros Hok%content_reachable_ok. apply (cok_present s Hok). Qed.

(** Content addressing: what [Read] returns for a tenant and a reference is
    bytes whose reference is exactly that one: the tenant, the digest and the size
    all match. *)
Theorem read_returns_addressed_content s tenant reference data :
  Read objects s tenant reference = Ok data ->
  ReferenceFor tenant data = reference /\ id_kind tenant = "tenant".
Proof using Type.
  intros [Hr Hv]%Read_ok. split; [done|]. unfold validateReference in Hv.
  apply reject_if_ok in Hv as [Hg _]. rewrite !orb_false_iff in Hg.
  destruct Hg as [[[Hk%bool_decide_eq_false%dec_stable _] _] _]. done.
Qed.

(** Round trip: after a successful upload the object store holds the data under
    the returned reference, its guard is live or a candidate, and a read that the
    object store answers returns the data. *)
Theorem upload_then_read s cancelled tenant data createdAt reference s' obj :
  content_reachable s -> Upload objects s cancelled tenant data createdAt = (Ok reference, s') ->
  Get objects (c_objects s') (ObjectKey reference) = Ok obj -> 
  reference = ReferenceFor tenant data /\ Read objects s' tenant reference = Ok data /\
  exists g, guards (c_guards s') !! MkKey (id_value tenant) (ref_Digest reference) = Some g /\
    going (g_state g) = false.
Proof using Type*.
  intros Hok%content_reachable_ok Hup Hget.
  apply Upload_content in Hup as (_ & _ & Hup); [|done]. destruct (Hup _ eq_refl) as (-> & Hkind & Hm & Hst & Hg).
  split_and!; [reflexivity| |exact Hg]. unfold Read. rewrite validateReference_ok, Hget by (assumption || reflexivity).
  apply get_ok in Hget as [Hg' He]. rewrite Hg' in Hst. injection Hst as Hdata.
  cbn [mbind res_bind lift_err ref_Digest ref_Size ReferenceFor]. rewrite He, Hdata.
  rewrite Z.eqb_refl, bool_decide_eq_false_2 by (intros Hne; by apply Hne). reflexivity.
Qed.

(** Deletion: [Delete] removes a blob only under a valid claim and leaves it
    absent with its guard deleted; a blob with a pending permit is never deleted, and
    the call leaves objects and guards as they were. *)
Theorem delete_respects_permits s cancelled d r s' :
  content_reachable s -> DeleteBlob objects s cancelled d = (r, s') ->
  (r = Ok tt -> contents (c_objects s') !! object_path (TenantID (d_Key d)) (Digest (d_Key d)) = None /\
     exists g, guards (c_guards s') !! d_Key d = Some g /\ g_state g = Deleted) /\
  (forall id p, permits (c_guards s) !! id = Some (MkPermitRecord p permitPending) -> p_Key p = d_Key d ->
     r <> Ok tt /\ s' = s).
Proof using Type*.
  intros Hok%content_reachable_ok Hd. split; [by apply DeleteBlob_content in Hd as [_ ?]|].
  intros id p Hid Hk. pose proof (cok_table s Hok) as Ht. destruct (ok_permits _ Ht _ _ Hid) as [_ Hprot].
  destruct (Hprot eq_refl) as (g & Hg & Hin & _). simpl in *. rewrite Hk in Hg.
  assert (Hlive : g_state g = Live) by (apply (ok_guards _ Ht _ _ Hg); set_solver).
  assert (Hno : forall u, ValidateDeletion (c_guards s) d <> Ok u).
  { intros u Hv. apply ValidateDeletion_going in Hv as (g' & Hg' & Hgo). rewrite Hg in Hg'. injection Hg' as <-.
    rewrite Hlive in Hgo. by vm_compute in Hgo. }
  unfold DeleteBlob in Hd. destruct (acquireStorage cancelled (d_Key d)); simpl in Hd; [|by simplify_eq].
  destruct (ValidateDeletion (c_guards s) d) as [u|] eqn:Hv; [by destruct (Hno u)|]. simpl in Hd. by simplify_eq.
Qed.
End proofs.

(** ** Witnesses: an in-memory object store *)
Definition memory_store : Store (gmap string bytes) :=
  MkStore (gmap string bytes)
    (fun o k => match o !! k with Some d => Ok (MkObject d (sha256_text d)) | None => Err ErrNotFound end)
    (fun o k d => match o !! k with
                  | Some _ => (Err ErrPreconditionFailed, o)
                  | None => (Ok (sha256_text d), <[k := d]> o)
                  end)
    (fun o k etag => match o !! k with
                     | None => (Err ErrNotFound, o)
                     | Some d => if bool_decide (sha256_text d = etag) then (Ok tt, delete k o)
                                 else (Err ErrPreconditionFailed, o)
                     end).

#[global] Instance memory_contract : ObjectStoreContract memory_store.
Proof.
  refine {| contents := fun o => o |}; simpl.
  - intros o k obj. case_match; by intros [= <-].
  - intros o k d r o'. case_match eqn:Hk; intros [= <- <-]; [|done]. by split; [eexists|].
  - intros o k etag r o'. case_match eqn:Hk; [|by intros [= <- <-]]. case_match; intros [= <- <-]; auto.
Defined.

Definition sample_tenant : ID := MkID "tenant" "tenant_AAAQEAYEAUDAOCAJBIFQYDIOB4".
Definition sample_data : bytes := to_bytes "hello".
Definition start : content := MkContent (∅ : gmap string bytes) (MkTable 5 0 ∅ ∅).
Definition uploaded := Upload memory_store start false sample_tenant sample_data 1.
Definition uploaded_ref : Reference := ReferenceFor sample_tenant sample_data.
Definition uploaded_key : Key := MkKey (id_value sample_tenant) (sha256_text sample_data).
Definition protected_blob := ProtectBlob memory_store uploaded.2 false sample_tenant uploaded_ref "permit-1".
Definition early_claim : Deletion := MkDeletion uploaded_key 1 1.
Definition refused := DeleteBlob memory_store protected_blob.2 false early_claim.

Lemma upload_step s c tenant data createdAt :
  content_step memory_store s (Upload memory_store s c tenant data createdAt).2.
Proof. exact (cs_upload memory_store s c tenant data createdAt _ _ (surjective_pairing _)). Qed.
Lemma protect_step s c tenant reference id :
  content_step memory_store s (ProtectBlob memory_store s c tenant reference id).2.
Proof. exact (cs_protect memory_store s c tenant reference id _ _ (surjective_pairing _)). Qed.

Lemma start_reachable : content_reachable memory_store start.
Proof. exists ∅, 5, (MkTable 5 0 ∅ ∅), start. split_and!; [reflexivity..|apply rtc_refl]. Qed.

Lemma uploaded_reachable : content_reachable memory_store uploaded.2.
Proof.
  destruct start_reachable as (o & gr & t & s0 & Hn & Hc & Hs). exists o, gr, t, s0. split_and!; [exact Hn|exact Hc|].
  eapply rtc_r; [exact Hs|]. exact (upload_step start false sample_tenant sample_data 1).
Qed.

Lemma protected_reachable : content_reachable memory_store protected_blob.2.
Proof.
  destruct uploaded_reachable as (o & gr & t & s0 & Hn & Hc & Hs). exists o, gr, t, s0. split_and!; [exact Hn|exact Hc|].
  eapply rtc_r; [exact Hs|]. exact (protect_step uploaded.2 false sample_tenant uploaded_ref "permit-1").
Qed.

Lemma guarded_blob_is_present_witness :
  exists d, contents (ops := memory_store) (c_objects uploaded.2) !! object_path (TenantID uploaded_key) (Digest uploaded_key) = Some d /\
    sha256_text d = Digest uploaded_key.
Proof.
  refine (guarded_blob_is_present memory_store uploaded.2 uploaded_key (fresh_guard 1) uploaded_reachable _ _).
  - vm_compute. reflexivity.
  - reflexivity.
Defined.

Lemma read_returns_addressed_content_witness :
  Read memory_store uploaded.2 sample_tenant uploaded_ref = Ok sample_data /\
  ReferenceFor sample_tenant sample_data = uploaded_ref /\ id_kind sample_tenant = "tenant".
Proof.
  split; [vm_compute; reflexivity|].
  apply (read_returns_addressed_content memory_store uploaded.2). vm_compute. reflexivity.
Defined.

Lemma upload_then_read_witness :
  uploaded_ref = ReferenceFor sample_tenant sample_data /\
  Read memory_store uploaded.2 sample_tenant uploaded_ref = Ok sample_data.
Proof.
  destruct (upload_then_read memory_store start false sample_tenant sample_data 1 uploaded_ref uploaded.2
    (MkObject sample_data (sha256_text sample_data)) start_reachable) as (H1 & H2 & _).
  - apply injective_projections; [vm_compute; reflexivity|reflexivity].
  - vm_compute. reflexivity.
  - split; [exact H1|exact H2].
Defined.

Lemma delete_respects_permits_witness : refused.1 <> Ok tt /\ refused.2 = protected_blob.2.
Proof.
  refine (proj2 (delete_respects_permits memory_store protected_blob.2 false early_claim refused.1 refused.2
    protected_reachable (surjective_pairing _)) "permit-1" (MkPermit "permit-1" uploaded_key 2 1) _ _).
  - vm_compute. reflexivity.
  - reflexivity.
Defined.
