(* ===== verification/Idempotency.v ===== *)
(** * Creation idempotency ([internal/idempotency/creation.go])

    The registry that makes the creation of a resource happen once per
    idempotency key: a reservation fixes the request and the resource, the
    target is initialised with a result, and the saga is finalised. *)

From S2P Require Import Prelude GoText GoCrypto.
#[local] Open Scope string_scope.
#[local] Open Scope list_scope.
#[local] Open Scope Z_scope.
#[local] Open Scope go_scope.

Inductive idem_error :=
| ErrKeyReused | ErrRecordNotFound | ErrSagaConflict | ErrInvalidSagaPhase
| ErrSecret | ErrRawKey | ErrScope | ErrKeyDigest | ErrRequestDigest | ErrResourceID | ErrResultRef.
#[global] Instance idem_error_eq_dec : EqDecision idem_error.
Proof. solve_decision. Defined.

Record Scope := MkScope {
  sc_TenantID : string;
  sc_SubjectID : string;
  sc_Method : string;
  sc_RouteTemplate : string;
  sc_TargetID : string;
}.
#[global] Instance Scope_eq_dec : EqDecision Scope.
Proof. solve_decision. Defined.
#[global] Instance Scope_countable : Countable Scope.
Proof.
  refine (inj_countable'
    (fun s => [sc_TenantID s; sc_SubjectID s; sc_Method s; sc_RouteTemplate s; sc_TargetID s])
    (fun l => match l with [a; b; c; d; e] => MkScope a b c d e | _ => MkScope "" "" "" "" "" end) _).
  by intros [].
Defined.

Inductive CreationPhase := Reserved | TargetInitialized | Finalized.
#[global] Instance CreationPhase_eq_dec : EqDecision CreationPhase.
Proof. solve_decision. Defined.

Record CreationRecord := MkRecord {
  cr_Scope : Scope;
  cr_KeyDigest : string;
  cr_RequestDigest : string;
  cr_ResourceID : string;
  cr_Phase : CreationPhase;
  cr_ResultRef : string;
}.

(** [recordKey] *)
Abbreviation recordKey := (Scope * string)%type.

(** [CreationRegistry]; a nil map is the empty one. *)
Abbreviation CreationRegistry := (gmap recordKey CreationRecord).
Definition NewCreationRegistry : CreationRegistry := ∅.

Definition DigestKey (secret : bytes) (rawKey : string) : res idem_error string :=
  if zlen secret <? 32 then Err ErrSecret
  else if (strlen rawKey =? 0) || (256 <? strlen rawKey) then Err ErrRawKey
  else Ok ("hmac-sha256:" ++ hex_EncodeToString (hmac_sha256 secret (to_bytes rawKey)))%string.

(** [strings.TrimSpace(value) == "" || len(value) > 256] *)
Definition blank_or_long (value : string) : bool := (strings_TrimSpace value == "") || (256 <? strlen value).

(** [^[A-Z]+$] *)
Definition matches_method (s : string) : bool :=
  negb (s == "") && forallb (fun b => in_range 65 90 (byte_val b)) (to_bytes s).

Definition strings_HasPrefix_slash (s : string) : bool :=
  match to_bytes s with b :: _ => byte_val b =? 47 | [] => false end.
Definition contains_query (s : string) : bool :=
  existsb (fun b => (byte_val b =? 63) || (byte_val b =? 35)) (to_bytes s).

Definition validateScopeAndKey (scope : Scope) (keyDigest : string) : res idem_error unit :=
  _ ← reject_if (blank_or_long (sc_TenantID scope) || blank_or_long (sc_SubjectID scope)) ErrScope;
  _ ← reject_if (negb (matches_method (sc_Method scope))) ErrScope;
  _ ← reject_if (negb (strings_HasPrefix_slash (sc_RouteTemplate scope)) || contains_query (sc_RouteTemplate scope)
                 || (512 <? strlen (sc_RouteTemplate scope))) ErrScope;
  _ ← reject_if (256 <? strlen (sc_TargetID scope)) ErrScope;
  reject_if (negb (matches_hmac_sha256 keyDigest)) ErrKeyDigest.

Definition validateRequestDigest (value : string) : res idem_error unit :=
  reject_if (negb (matches_sha256 value)) ErrRequestDigest.

(** [Reserve]: the record, whether it was there, or the error; and the registry. *)
Definition Reserve (registry : CreationRegistry) (scope : Scope) (keyDigest requestDigest proposedResourceID : string)
    : res idem_error (CreationRecord * bool) * CreationRegistry :=
  match (_ ← validateScopeAndKey scope keyDigest; _ ← validateRequestDigest requestDigest;
         reject_if (blank_or_long proposedResourceID) ErrResourceID) with
  | Err e => (Err e, registry)
  | Ok _ =>
      match registry !! (scope, keyDigest) with
      | Some existing =>
          if cr_RequestDigest existing != requestDigest then (Err ErrKeyReused, registry)
          else (Ok (existing, true), registry)
      | None =>
          let record := MkRecord scope keyDigest requestDigest proposedResourceID Reserved "" in
          (Ok (record, false), <[(scope, keyDigest) := record]> registry)
      end
  end.

Definition Lookup (registry : CreationRegistry) (scope : Scope) (keyDigest : string)
    : res idem_error (option CreationRecord) :=
  _ ← validateScopeAndKey scope keyDigest;
  Ok (registry !! (scope, keyDigest)).

Definition recordForTransition (registry : CreationRegistry) (scope : Scope)
    (keyDigest requestDigest resourceID : string) : res idem_error CreationRecord :=
  _ ← validateScopeAndKey scope keyDigest;
  _ ← validateRequestDigest requestDigest;
  match registry !! (scope, keyDigest) with
  | None => Err ErrRecordNotFound
  | Some record =>
      _ ← reject_if (cr_RequestDigest record != requestDigest) ErrKeyReused;
      _ ← reject_if (cr_ResourceID record != resourceID) ErrSagaConflict;
      Ok record
  end.

Definition set_phase (record : CreationRecord) (phase : CreationPhase) (resultRef : string) : CreationRecord :=
  MkRecord (cr_Scope record) (cr_KeyDigest record) (cr_RequestDigest record) (cr_ResourceID record) phase resultRef.

Definition MarkTargetInitialized (registry : CreationRegistry) (scope : Scope)
    (keyDigest requestDigest resourceID resultRef : string) : res idem_error CreationRecord * CreationRegistry :=
  if blank_or_long resultRef then (Err ErrResultRef, registry)
  else match recordForTransition registry scope keyDigest requestDigest resourceID with
  | Err e => (Err e, registry)
  | Ok record =>
      match cr_Phase record with
      | Reserved =>
          let record := set_phase record TargetInitialized resultRef in
          (Ok record, <[(scope, keyDigest) := record]> registry)
      | TargetInitialized | Finalized =>
          (_ ← reject_if (cr_ResultRef record != resultRef) ErrSagaConflict; Ok record, registry)
      end
  end.

Definition Finalize (registry : CreationRegistry) (scope : Scope) (keyDigest requestDigest resourceID : string)
    : res idem_error CreationRecord * CreationRegistry :=
  match recordForTransition registry scope keyDigest requestDigest resourceID with
  | Err e => (Err e, registry)
  | Ok record =>
      match cr_Phase record with
      | Reserved => (Err ErrInvalidSagaPhase, registry)
      | TargetInitialized =>
          let record := set_phase record Finalized (cr_ResultRef record) in
          (Ok record, <[(scope, keyDigest) := record]> registry)
      | Finalized => (Ok record, registry)
      end
  end.

(** ** Steps, and the order of a saga *)
Inductive registry_step : CreationRegistry -> CreationRegistry -> Prop :=
| rs_reserve g scope kd rd rid r g' : Reserve g scope kd rd rid = (r, g') -> registry_step g g'
| rs_mark g scope kd rd rid rr r g' : MarkTargetInitialized g scope kd rd rid rr = (r, g') -> registry_step g g'
| rs_finalize g scope kd rd rid r g' : Finalize g scope kd rd rid = (r, g') -> registry_step g g'.

Definition phase_rank (p : CreationPhase) : Z :=
  match p with Reserved => 0 | TargetInitialized => 1 | Finalized => 2 end.

(** What a later record of the same saga may differ in. *)
Definition record_le (r r' : CreationRecord) : Prop :=
  cr_Scope r' = cr_Scope r /\ cr_KeyDigest r' = cr_KeyDigest r /\ cr_RequestDigest r' = cr_RequestDigest r /\
  cr_ResourceID r' = cr_ResourceID r /\ phase_rank (cr_Phase r) <= phase_rank (cr_Phase r') /\
  (cr_Phase r <> Reserved -> cr_ResultRef r' = cr_ResultRef r).

#[global] Instance record_le_preorder : PreOrder record_le.
Proof.
  split.
  - by intros r.
  - intros r1 r2 r3 (A1 & A2 & A3 & A4 & A5 & A6) (B1 & B2 & B3 & B4 & B5 & B6).
    split_and!; try congruence; [lia|]. intros Hp. rewrite B6, A6; [done|done|].
    intros Hr. rewrite Hr in A5. by destruct (cr_Phase r1).
Qed.

(** Registries in which every saga only moved forward. *)
Definition registry_le (g g' : CreationRegistry) : Prop :=
  forall k r, g !! k = Some r -> exists r', g' !! k = Some r' /\ record_le r r'.

#[global] Instance registry_le_preorder : PreOrder registry_le.
Proof.
  split; [by intros g k r Hr; exists r|]. intros g1 g2 g3 H1 H2 k r Hr.
  destruct (H1 k r Hr) as (r2 & Hr2 & Hle). destruct (H2 k r2 Hr2) as (r3 & Hr3 & Hle'). exists r3.
  split; [done|by etrans].
Qed.

Lemma registry_le_insert g k r r' :
  (forall r0, g !! k = Some r0 -> r0 = r) -> record_le r r' -> registry_le g (<[k := r']> g).
Proof.
  intros Hr Hle k0 r0 Hk. destruct (decide (k = k0)) as [->|Hne].
  - exists r'. rewrite lookup_insert_eq. by rewrite (Hr r0 Hk).
  - exists r0. by rewrite lookup_insert_ne.
Qed.

Lemma recordForTransition_ok g scope kd rd rid r :
  recordForTransition g scope kd rd rid = Ok r ->
  g !! (scope, kd) = Some r /\ cr_RequestDigest r = rd /\ cr_ResourceID r = rid.
Proof.
  unfold recordForTransition. intros (u & _ & H)%bind_ok. apply bind_ok in H as (v & _ & H).
  destruct (g !! (scope, kd)) as [r0|]; [|done]. apply reject_if_ok in H as [H1%bool_decide_eq_false%dec_stable H].
  apply reject_if_ok in H as [H2%bool_decide_eq_false%dec_stable [= ->]]. done.
Qed.

Lemma registry_step_le g g' : registry_step g g' -> registry_le g g'.
Proof.
  intros Hs. destruct Hs as [g scope kd rd rid r g' H|g scope kd rd rid rr r g' H|g scope kd rd rid r g' H].
  - unfold Reserve in H. case_match; [|by simplify_eq]. destruct (g !! (scope, kd)) eqn:Hk.
    + by case_match; simplify_eq.
    + simplify_eq. eapply registry_le_insert; [|reflexivity]. intros r0 Hr0. congruence.
  - unfold MarkTargetInitialized in H. case_match; [by simplify_eq|]. case_match eqn:Hr; [|by simplify_eq].
    apply recordForTransition_ok in Hr as (Hk & _). destruct (cr_Phase a) eqn:Hp; simplify_eq; try done.
    eapply registry_le_insert; [intros r0 Hr0; rewrite Hk in Hr0; by injection Hr0 as <-|].
    split_and!; try done; simpl; rewrite Hp; done || (simpl; lia).
  - unfold Finalize in H. case_match eqn:Hr; [|by simplify_eq].
    apply recordForTransition_ok in Hr as (Hk & _). destruct (cr_Phase a) eqn:Hp; simplify_eq; try done.
    eapply registry_le_insert; [intros r0 Hr0; rewrite Hk in Hr0; by injection Hr0 as <-|].
    split_and!; try done; simpl; rewrite Hp; done || (simpl; lia).
Qed.

Lemma registry_steps_le g g' : rtc registry_step g g' -> registry_le g g'.
Proof. induction 1 as [|g g1 g' Hs _ IH]; [done|]. etrans; [by apply registry_step_le|done]. Qed.

(** ** The digest of a raw key *)
Lemma hex_digit_lower z : 0 <= z < 16 -> is_lower_hex (hex_digit z) = true.
Proof.
  intros Hz. unfold is_lower_hex, hex_digit. rewrite byte_val_to_byte.
  destruct (Z.ltb_spec z 10); rewrite Z.mod_small by lia; unfold in_range;
    rewrite ?orb_true_iff, ?andb_true_iff, ?Z.leb_le; lia.
Qed.

Lemma hex_encode_lower bs :
  forallb is_lower_hex (to_bytes (hex_EncodeToString bs)) = true /\
  length (to_bytes (hex_EncodeToString bs)) = (2 * length bs)%nat.
Proof.
  unfold hex_EncodeToString. rewrite to_of_bytes. induction bs as [|b bs [IH1 IH2]]; [done|]. simpl.
  rewrite IH1, IH2. pose proof (byte_val_range b). rewrite !hex_digit_lower; [split; [done|lia]| |].
  - apply Z.mod_pos_bound. lia.
  - split; [apply Z.div_pos|apply Z.div_lt_upper_bound]; lia.
Qed.

Lemma DigestKey_canonical secret rawKey d : DigestKey secret rawKey = Ok d -> matches_hmac_sha256 d = true.
Proof.
  unfold DigestKey. case_match; [done|]. case_match; [done|]. intros [= <-].
  destruct (hex_encode_lower (hmac_sha256 secret (to_bytes rawKey))) as [Hl Hn].
  unfold matches_hmac_sha256, matches_hex64. rewrite to_bytes_append, drop_app_length', take_app_length' by done.
  rewrite decide_True by done. by rewrite Hl, Hn, length_hmac_sha256.
Qed.

(** ** The claims *)

(** A key creates once: after a reservation was granted, however the registry was
    used in between, a reservation with the same scope and key returns the resource
    reserved first and changes nothing; one for another request is refused, and one
    for the same request is not, unless its proposed resource ID is malformed. *)
Theorem creation_happens_once g scope kd rd rid record found g1 g2 rd2 rid2 r g3 :
  Reserve g scope kd rd rid = (Ok (record, found), g1) -> rtc registry_step g1 g2 ->
  Reserve g2 scope kd rd2 rid2 = (r, g3) ->
  g3 = g2 /\
  match r with
  | Ok (record2, found2) =>
      found2 = true /\ rd2 = rd /\ cr_ResourceID record2 = cr_ResourceID record /\ record_le record record2
  | Err _ => rd2 = rd -> blank_or_long rid2 = true
  end.
Proof.
  intros H1 Hs H2.
  assert (Hk : (validateScopeAndKey scope kd = Ok tt /\ validateRequestDigest rd = Ok tt) /\
    g1 !! (scope, kd) = Some record /\ cr_RequestDigest record = rd).
  { unfold Reserve in H1. case_match eqn:Hv; [|done]. apply bind_ok in Hv as ([] & Hv & Hv').
    apply bind_ok in Hv' as ([] & Hv' & _). split; [done|]. destruct (g !! (scope, kd)) as [r0|] eqn:Hk.
    - case_bool_decide as Hd; [done|]. injection H1 as <- <- <-. done.
    - injection H1 as <- <- <-. by rewrite lookup_insert_eq. }
  destruct Hk as ([Hv Hv'] & Hk & Hrd). destruct (registry_steps_le _ _ Hs _ _ Hk) as (rec2 & Hk2 & Hle).
  unfold Reserve in H2. rewrite Hv in H2. simpl in H2. case_match eqn:Hchk.
  - rewrite Hk2 in H2. destruct Hle as (L1 & L2 & L3 & L4 & L5).
    case_bool_decide as Hd; injection H2 as <- <-; split; try done.
    + intros ->. congruence.
    + rewrite L3, Hrd in Hd. split_and!; try done.
  - injection H2 as <- <-. split; [done|]. intros ->. rewrite Hv' in Hchk. simpl in Hchk.
    unfold reject_if in Hchk. by case_match.
Qed.

(** The checks a caller of the saga has to pass. *)
Definition valid_saga (scope : Scope) (kd rd rid rr : string) : Prop :=
  validateScopeAndKey scope kd = Ok tt /\ validateRequestDigest rd = Ok tt /\ blank_or_long rid = false /\
  blank_or_long rr = false.

(** The saga completes, in order: on a registry without the key, reserving,
    initialising the target and finalising succeed one after the other and end with
    the final record; finalising before the target is initialised is refused; and
    repeating the last two calls returns the same record and changes nothing. *)
Theorem saga_completes g scope kd rd rid rr :
  valid_saga scope kd rd rid rr -> g !! (scope, kd) = None ->
  exists g1 g2 g3,
    let final := MkRecord scope kd rd rid Finalized rr in
    Reserve g scope kd rd rid = (Ok (MkRecord scope kd rd rid Reserved "", false), g1) /\
    Finalize g1 scope kd rd rid = (Err ErrInvalidSagaPhase, g1) /\
    MarkTargetInitialized g1 scope kd rd rid rr = (Ok (MkRecord scope kd rd rid TargetInitialized rr), g2) /\
    Finalize g2 scope kd rd rid = (Ok final, g3) /\
    MarkTargetInitialized g3 scope kd rd rid rr = (Ok final, g3) /\
    Finalize g3 scope kd rd rid = (Ok final, g3) /\
    Lookup g3 scope kd = Ok (Some final).
Proof.
  intros (Hv & Hrd & Hrid & Hrr) Hk. set (k := (scope, kd)).
  exists (<[k := MkRecord scope kd rd rid Reserved ""]> g),
    (<[k := MkRecord scope kd rd rid TargetInitialized rr]> (<[k := MkRecord scope kd rd rid Reserved ""]> g)),
    (<[k := MkRecord scope kd rd rid Finalized rr]>
       (<[k := MkRecord scope kd rd rid TargetInitialized rr]> (<[k := MkRecord scope kd rd rid Reserved ""]> g))).
  cbv zeta.
  unfold Reserve, Finalize, MarkTargetInitialized, recordForTransition, Lookup. rewrite Hv, Hrd, Hrid, Hrr, Hk.
  fold k. split_and!; simpl; rewrite ?lookup_insert_eq; simpl; rewrite ?bool_decide_eq_false_2 by naive_solver;
    simpl; rewrite ?bool_decide_eq_false_2 by naive_solver; reflexivity.
Qed.

(** ** Witnesses *)
Definition sample_scope : Scope := MkScope "tenant_a" "subject_a" "POST" "/v1/sessions" "".
Definition sample_key_digest : string :=
  "hmac-sha256:0123456789abcdef0123456789abcdef0123456789abcdef0123456789abcdef".
Definition sample_request_digest : string :=
  "sha256:0123456789abcdef0123456789abcdef0123456789abcdef0123456789abcdef".
Definition reserved_record : CreationRecord :=
  MkRecord sample_scope sample_key_digest sample_request_digest "sess_1" Reserved "".
Definition registry1 : CreationRegistry := <[(sample_scope, sample_key_digest) := reserved_record]> ∅.

Lemma sample_checks rid :
  blank_or_long rid = false ->
  (_ ← validateScopeAndKey sample_scope sample_key_digest; _ ← validateRequestDigest sample_request_digest;
   reject_if (blank_or_long rid) ErrResourceID) = Ok tt.
Proof.
  intros Hr. assert (validateScopeAndKey sample_scope sample_key_digest = Ok tt) as -> by (vm_compute; reflexivity).
  assert (validateRequestDigest sample_request_digest = Ok tt) as -> by (vm_compute; reflexivity).
  cbn [mbind res_bind]. by rewrite Hr.
Qed.

Lemma first_reserve :
  Reserve NewCreationRegistry sample_scope sample_key_digest sample_request_digest "sess_1" =
  (Ok (reserved_record, false), registry1).
Proof.
  unfold Reserve, NewCreationRegistry. rewrite sample_checks by (vm_compute; reflexivity). by rewrite lookup_empty.
Qed.

Lemma second_reserve :
  Reserve registry1 sample_scope sample_key_digest sample_request_digest "sess_2" =
  (Ok (reserved_record, true), registry1).
Proof.
  unfold Reserve. rewrite sample_checks by (vm_compute; reflexivity). unfold registry1.
  rewrite lookup_insert_eq. by rewrite bool_decide_eq_false_2 by naive_solver.
Qed.

Lemma creation_happens_once_witness :
  registry1 = registry1 /\ cr_ResourceID reserved_record = cr_ResourceID reserved_record.
Proof.
  destruct (creation_happens_once NewCreationRegistry sample_scope sample_key_digest sample_request_digest
    "sess_1" reserved_record false registry1 registry1 sample_request_digest "sess_2"
    (Ok (reserved_record, true)) registry1) as (Hg & _ & _ & Hr & _).
  - exact first_reserve.
  - apply rtc_refl.
  - exact second_reserve.
  - split; [exact Hg|exact Hr].
Defined.

Lemma saga_completes_witness :
  exists g3, Lookup g3 sample_scope sample_key_digest =
    Ok (Some (MkRecord sample_scope sample_key_digest sample_request_digest "sess_1" Finalized "result-1")).
Proof.
  destruct (saga_completes NewCreationRegistry sample_scope sample_key_digest sample_request_digest
    "sess_1" "result-1") as (g1 & g2 & g3 & _ & _ & _ & _ & _ & _ & Hl).
  - split_and!; vm_compute; reflexivity.
  - apply lookup_empty.
  - exists g3. exact Hl.
Defined.
