(* ===== verification/BrokerTypes.v ===== *)
(** * Broker data ([internal/broker/types.go])

    The identities, permits and ledger projections that the broker and the
    subordinate effect ledgers exchange. *)

From S2P Require Import Prelude Identity.
#[local] Open Scope string_scope.
#[local] Open Scope list_scope.
#[local] Open Scope Z_scope.
#[local] Open Scope go_scope.

(** [identity.ID{}] *)
Definition no_id : ID := MkID "" "".

(** [id != (identity.ID{}) && id.Kind() != kind] *)
Definition set_with_other_kind (id : ID) (kind : Kind) : bool := (id != no_id) && (id_kind id != kind).

(** [Digest [32]byte] and its zero value. *)
Abbreviation Digest := (list ascii) (only parsing).
Definition zero_digest : Digest := repeat zero 32.

(** A [time.Time] that [==] compares: the instant, as nanoseconds since the zero
    time, and the rest of the struct (location and monotonic reading). *)
Record Time := MkTime { t_instant : Z; t_rest : Z }.
#[global] Instance Time_eq_dec : EqDecision Time.
Proof. solve_decision. Defined.
Definition IsZero (t : Time) : bool := t_instant t =? 0.

Record Generations := MkGenerations {
  g_TurnLease : Z;
  g_Placement : Z;
  g_Sandbox : Z;
  g_Authorization : Z;
}.
#[global] Instance Generations_eq_dec : EqDecision Generations.
Proof. solve_decision. Defined.

(** [EffectService], [ReplayPolicy] and [OpaquePermit] are strings. *)
Definition ServiceModel := "model".
Definition ServiceWorkspace := "workspace".
Definition ServiceExecutor := "executor".
Definition ServiceMCP := "mcp".
Definition ServiceArtifact := "artifact".
Definition ServiceExternalTool := "external-tool".

Definition ReplaySafe := "safe".
Definition ReplayIdempotencyKey := "idempotency-key".
Definition ReplayNever := "never".
Definition ReplayConfirm := "confirm".

Record EffectKey := MkEffectKey {
  ek_SessionID : ID;
  ek_TurnID : ID;
  ek_EffectID : ID;
  ek_InvocationID : ID;
  ek_RequestDigest : Digest;
}.
#[global] Instance EffectKey_eq_dec : EqDecision EffectKey.
Proof. solve_decision. Defined.

Record DispatchPermit := MkDispatch {
  dp_EffectKey : EffectKey;
  dp_Opaque : string;
  dp_TenantID : ID;
  dp_WorkspaceID : ID;
  dp_UserID : ID;
  dp_Service : string;
  dp_Operation : string;
  dp_ParentOperationID : ID;
  dp_ParentOperation : string;
  dp_Ordinal : Z;
  dp_ReplayPolicy : string;
  dp_Generations : Generations;
  dp_DispatchAttempt : Z;
  dp_ProviderRequestID : ID;
  dp_ProviderRouteDigest : Digest;
  dp_Deadline : Time;
  dp_EventSequence : Z;
  dp_Durable : bool;
}.
#[global] Instance DispatchPermit_eq_dec : EqDecision DispatchPermit.
Proof. solve_decision. Defined.

Record DispatchStartPermit := MkStart {
  sp_Dispatch : DispatchPermit;
  sp_Opaque : string;
  sp_CommandDigest : Digest;
  sp_EventSequence : Z;
  sp_Durable : bool;
}.

(** [ClaimedDispatchStart]: the permit and whether the seal is the package's. *)
Record ClaimedDispatchStart := MkClaimedStart { cs_permit : DispatchStartPermit; cs_sealed : bool }.

(** [ClaimedDispatchStart.Open]; the zero permit of a failed [Open] is not read. *)
Definition ClaimedDispatchStart_Open (claim : ClaimedDispatchStart) : option DispatchStartPermit :=
  if cs_sealed claim then Some (cs_permit claim) else None.

Inductive LedgerStatus := LedgerAbsent | LedgerInflight | LedgerCommitted | LedgerFailed | LedgerUnknown
| OtherLedgerStatus (s : string).
#[global] Instance LedgerStatus_eq_dec : EqDecision LedgerStatus.
Proof. solve_decision. Defined.

Record LedgerLookup := MkLookup {
  ll_EffectKey : EffectKey;
  ll_TenantID : ID;
  ll_WorkspaceID : ID;
  ll_Service : string;
  ll_Operation : string;
  ll_DispatchAttempt : Z;
  ll_ProviderRequestID : ID;
  ll_ProviderRouteDigest : Digest;
}.
#[global] Instance LedgerLookup_eq_dec : EqDecision LedgerLookup.
Proof. solve_decision. Defined.

Record LedgerRecord := MkLedgerRecord {
  lr_Status : LedgerStatus;
  lr_TenantID : ID;
  lr_WorkspaceID : ID;
  lr_EffectID : ID;
  lr_InvocationID : ID;
  lr_RequestDigest : Digest;
  lr_Service : string;
  lr_Operation : string;
  lr_DispatchAttempt : Z;
  lr_ProviderRequestID : ID;
  lr_ProviderRouteDigest : Digest;
  lr_ExternalCommitID : ID;
  lr_ResultRef : ID;
}.
#[global] Instance LedgerRecord_eq_dec : EqDecision LedgerRecord.
Proof. solve_decision. Defined.
