(* ===== verification/EffectLedger.v ===== *)
(** * The reference effect ledger ([internal/effectledger/reference.go])

    What a provider adapter observed of one dispatched effect attempt: the
    prepared command, the claim of its single start, the provider's acceptance
    and the terminal fact.  Several ledger objects may share one store. *)

From S2P Require Import Prelude GoText Identity BrokerTypes.
#[local] Open Scope string_scope.
#[local] Open Scope list_scope.
#[local] Open Scope Z_scope.
#[local] Open Scope go_scope.

Definition maximumReferenceBytes : Z := Z.shiftl 16 20.
Definition maximumProviderRequestBytes : Z := Z.shiftl 4 10.
Definition maximumOccurrenceOrdinal : Z := Z.shiftl 1 53 - 1.

Inductive ledger_error :=
| ErrInvalidConfiguration | ErrInvalidCommand | ErrInvalidClaim | ErrInvalidObservation | ErrBindingMismatch
| ErrPrepareConflict | ErrCommandNotPrepared | ErrStartAlreadyClaimed | ErrObservationUnavailable
| ErrAcceptanceConflict | ErrTerminalConflict | ErrInvalidTransition | ErrLimitExceeded
| ErrIdentityGeneration | ContextError.
#[global] Instance ledger_error_eq_dec : EqDecision ledger_error.
Proof. solve_decision. Defined.

(** ** Data *)
Record ReferenceLimits := MkRefLimits { MaximumPayloadBytes : Z; MaximumResultBytes : Z }.

Record Command := MkCommand { c_Dispatch : DispatchPermit; c_CommandDigest : Digest; c_Payload : bytes }.

Inductive State := StatePrepared | StateClaimed | StateAccepted | StateTerminal.
#[global] Instance State_eq_dec : EqDecision State.
Proof. solve_decision. Defined.

(** [TerminalStatus], a string the caller supplies. *)
Definition TerminalCommitted := "committed".
Definition TerminalFailed := "failed".
Definition TerminalUnknown := "unknown".

Record Terminal := MkTerminal {
  tm_Status : string;
  tm_ExternalCommitID : ID;
  tm_ResultRef : ID;
  tm_Result : bytes;
}.
#[global] Instance Terminal_eq_dec : EqDecision Terminal.
Proof. solve_decision. Defined.

(** [Facts]; its [Terminal] is the zero value when there is no terminal fact. *)
Record Facts := MkFacts {
  f_State : State;
  f_Command : Command;
  f_ExternalProviderRequestID : string;
  f_Terminal : Terminal;
}.
Definition no_terminal : Terminal := MkTerminal "" no_id no_id [].

Record attemptKey := MkKey {
  k_sessionID : ID;
  k_turnID : ID;
  k_effectID : ID;
  k_invocationID : ID;
  k_dispatchAttempt : Z;
}.
#[global] Instance attemptKey_eq_dec : EqDecision attemptKey.
Proof. solve_decision. Defined.
#[global] Instance attemptKey_countable : Countable attemptKey.
Proof.
  refine (inj_countable'
    (fun k => (k_sessionID k, k_turnID k, k_effectID k, k_invocationID k, k_dispatchAttempt k))
    (fun '(a, b, c, d, e) => MkKey a b c d e) _). by intros [].
Defined.

Record entry := MkEntry {
  e_state : State;
  e_command : Command;
  e_externalProviderRequestID : string;
  e_terminal : option Terminal;
}.

(** [Observation]; the store and the seal are compared as pointers, [native] is
    set by the native ledger only. *)
Record Observation := MkObservation {
  o_store : Z;
  o_key : attemptKey;
  o_service : string;
  o_routeDigest : Digest;
  o_commandDigest : Digest;
  o_sealed : bool;
}.

Record ClaimedCommand := MkClaimed { cc_command : Command; cc_observation : Observation; cc_sealed : bool }.

(** [ClaimedCommand.Open] and [ClaimedCommand.Observation]; [None] for [false]. *)
Definition ClaimedCommand_Open (claimed : ClaimedCommand) : option Command :=
  if negb (cc_sealed claimed) || negb (o_sealed (cc_observation claimed)) then None
  else Some (cc_command claimed).
Definition ClaimedCommand_Observation (claimed : ClaimedCommand) : option Observation :=
  if negb (cc_sealed claimed) || negb (o_sealed (cc_observation claimed)) then None
  else Some (cc_observation claimed).

(** ** Validation *)
(** A [context.Context]: nil, or with its [Err()]. *)
Inductive Context := nil_context | live_context | cancelled_context.

Definition validateContext (ctx : Context) : res ledger_error unit :=
  match ctx with
  | nil_context => Err ErrInvalidCommand
  | live_context => Ok tt
  | cancelled_context => Err ContextError
  end.

Definition validService (service : string) : bool :=
  (service == ServiceModel) || (service == ServiceWorkspace) || (service == ServiceExecutor)
  || (service == ServiceMCP) || (service == ServiceArtifact) || (service == ServiceExternalTool).

Definition validReplayPolicy (policy : string) : bool :=
  (policy == ReplaySafe) || (policy == ReplayIdempotencyKey) || (policy == ReplayNever)
  || (policy == ReplayConfirm).

Definition dispatchWithoutOpaque (d : DispatchPermit) : DispatchPermit :=
  MkDispatch (dp_EffectKey d) "" (dp_TenantID d) (dp_WorkspaceID d) (dp_UserID d) (dp_Service d)
    (dp_Operation d) (dp_ParentOperationID d) (dp_ParentOperation d) (dp_Ordinal d) (dp_ReplayPolicy d)
    (dp_Generations d) (dp_DispatchAttempt d) (dp_ProviderRequestID d) (dp_ProviderRouteDigest d)
    (dp_Deadline d) (dp_EventSequence d) (dp_Durable d).

Section Validation.
Context `{Normalizer}.

(** [validateDispatchCore]; the two disjunctions are the two [if]s. *)
Definition invalid_dispatch (dispatch : DispatchPermit) (requireOpaque : bool) : bool :=
  let key := dp_EffectKey dispatch in
  let generations := dp_Generations dispatch in
  (id_kind (ek_SessionID key) != "sess") || (id_kind (ek_TurnID key) != "turn")
  || (id_kind (ek_EffectID key) != "effect") || (id_kind (ek_InvocationID key) != "inv")
  || (ek_RequestDigest key == zero_digest) || (requireOpaque && (dp_Opaque dispatch == ""))
  || (id_kind (dp_TenantID dispatch) != "tenant") || (id_kind (dp_WorkspaceID dispatch) != "ws")
  || (id_kind (dp_UserID dispatch) != "subject") || negb (validService (dp_Service dispatch))
  || (dp_Operation dispatch == "")
  || set_with_other_kind (dp_ParentOperationID dispatch) "op"
  || (dp_ParentOperationID dispatch != no_id) && (dp_ParentOperation dispatch != "")
  || (dp_ParentOperationID dispatch == no_id) && (dp_ParentOperation dispatch == "") && (dp_Ordinal dispatch != 0)
  || (maximumOccurrenceOrdinal <? dp_Ordinal dispatch) || negb (validReplayPolicy (dp_ReplayPolicy dispatch))
  || (g_TurnLease generations =? 0) || (g_Placement generations =? 0) || (g_Sandbox generations =? 0)
  || (g_Authorization generations =? 0) || (dp_DispatchAttempt dispatch =? 0)
  || set_with_other_kind (dp_ProviderRequestID dispatch) "req"
  || (dp_ProviderRouteDigest dispatch == zero_digest) || IsZero (dp_Deadline dispatch)
  || (dp_EventSequence dispatch =? 0) || negb (dp_Durable dispatch).

Definition invalid_parent (parent : string) : bool :=
  (parent != "") && ((256 <? strlen parent) || negb (utf8_ValidString parent)
                     || (nfc parent != parent) || has_control parent).

Definition validateDispatchCore (dispatch : DispatchPermit) (requireOpaque : bool) : res ledger_error unit :=
  _ ← reject_if (invalid_dispatch dispatch requireOpaque) ErrInvalidCommand;
  reject_if (invalid_parent (dp_ParentOperation dispatch)) ErrInvalidCommand.

Definition validateDispatch (dispatch : DispatchPermit) : res ledger_error unit :=
  validateDispatchCore dispatch true.

Definition validateCommand (command : Command) : res ledger_error unit :=
  _ ← reject_if (c_CommandDigest command == zero_digest) ErrInvalidCommand;
  validateDispatch (c_Dispatch command).
End Validation.

Definition validateProviderRequestID (externalProviderRequestID : string) : res ledger_error unit :=
  reject_if ((externalProviderRequestID == "") || negb (utf8_ValidString externalProviderRequestID)
             || (maximumProviderRequestBytes <? strlen externalProviderRequestID)
             || (strings_TrimSpace externalProviderRequestID != externalProviderRequestID)
             || existsb (fun codePoint => unicode_IsControl codePoint || unicode_Cf codePoint)
                  (string_runes externalProviderRequestID)) ErrInvalidCommand.

Definition validateTerminal (terminal : Terminal) : res ledger_error unit :=
  if tm_Status terminal == TerminalCommitted then
    _ ← reject_if ((zlen (tm_Result terminal) =? 0) && (tm_ResultRef terminal == no_id)) ErrInvalidCommand;
    _ ← reject_if (set_with_other_kind (tm_ExternalCommitID terminal) "commit") ErrInvalidCommand;
    reject_if (set_with_other_kind (tm_ResultRef terminal) "artifact") ErrInvalidCommand
  else if (tm_Status terminal == TerminalFailed) || (tm_Status terminal == TerminalUnknown) then
    reject_if ((tm_ExternalCommitID terminal != no_id) || (tm_ResultRef terminal != no_id)) ErrInvalidCommand
  else Err ErrInvalidCommand.

Definition validateLookupBinding (lookup : LedgerLookup) (service : string) (route : Digest)
    : res ledger_error unit :=
  let key := ll_EffectKey lookup in
  _ ← reject_if
        ((id_kind (ll_TenantID lookup) != "tenant") || (id_kind (ll_WorkspaceID lookup) != "ws")
         || (id_kind (ek_SessionID key) != "sess") || (id_kind (ek_TurnID key) != "turn")
         || (id_kind (ek_EffectID key) != "effect") || (id_kind (ek_InvocationID key) != "inv")
         || (ek_RequestDigest key == zero_digest) || negb (validService (ll_Service lookup))
         || (ll_Operation lookup == "") || (ll_DispatchAttempt lookup =? 0)
         || set_with_other_kind (ll_ProviderRequestID lookup) "req"
         || (ll_ProviderRouteDigest lookup == zero_digest)) ErrInvalidCommand;
  reject_if ((ll_Service lookup != service) || (ll_ProviderRouteDigest lookup != route)) ErrBindingMismatch.

(** ** Keys and projections *)
Definition keyForDispatch (dispatch : DispatchPermit) : attemptKey :=
  let key := dp_EffectKey dispatch in
  MkKey (ek_SessionID key) (ek_TurnID key) (ek_EffectID key) (ek_InvocationID key) (dp_DispatchAttempt dispatch).

Definition keyForLookup (lookup : LedgerLookup) : attemptKey :=
  let key := ll_EffectKey lookup in
  MkKey (ek_SessionID key) (ek_TurnID key) (ek_EffectID key) (ek_InvocationID key) (ll_DispatchAttempt lookup).

Definition lookupFor (dispatch : DispatchPermit) : LedgerLookup :=
  MkLookup (dp_EffectKey dispatch) (dp_TenantID dispatch) (dp_WorkspaceID dispatch) (dp_Service dispatch)
    (dp_Operation dispatch) (dp_DispatchAttempt dispatch) (dp_ProviderRequestID dispatch)
    (dp_ProviderRouteDigest dispatch).

Definition ledgerRecord (lookup : LedgerLookup) (status : LedgerStatus) (commit result : ID) : LedgerRecord :=
  let key := ll_EffectKey lookup in
  MkLedgerRecord status (ll_TenantID lookup) (ll_WorkspaceID lookup) (ek_EffectID key) (ek_InvocationID key)
    (ek_RequestDigest key) (ll_Service lookup) (ll_Operation lookup) (ll_DispatchAttempt lookup)
    (ll_ProviderRequestID lookup) (ll_ProviderRouteDigest lookup) commit result.

Definition sameCommand (left right : Command) : bool :=
  (c_Dispatch left == c_Dispatch right) && (c_CommandDigest left == c_CommandDigest right)
  && (c_Payload left == c_Payload right).

Definition terminalReplays (stored requested : Terminal) : bool :=
  if (tm_Status stored != tm_Status requested) || (tm_Result stored != tm_Result requested) then false
  else if (tm_ExternalCommitID requested != no_id) && (tm_ExternalCommitID stored != tm_ExternalCommitID requested)
  then false
  else if (tm_ResultRef requested != no_id) && (tm_ResultRef stored != tm_ResultRef requested) then false
  else true.

(** ** The store and the ledger

    The identity generator is an interface of the package: its state and its
    [New], which may fail.  [systemIdentityGenerator] is [identity.New].  The
    operations run under the store's mutex, so each is one step on the store; a
    [clone] returns the value it copies.  A command is stored and returned by
    value: no caller shares its payload with the store. *)
Record ReferenceStore (G : Type) := MkStore {
  rs_address : Z;
  rs_records : gmap attemptKey entry;
  rs_generator : G;
}.
Arguments MkStore {G} _ _ _.
Arguments rs_address {G} _.
Arguments rs_records {G} _.
Arguments rs_generator {G} _.

Record ReferenceLedger := MkLedger {
  rl_store : Z;
  rl_service : string;
  rl_routeDigest : Digest;
  rl_limits : ReferenceLimits;
}.

Definition systemIdentityGenerator (random : bytes) (kind : Kind) : res unit ID * bytes :=
  match New random kind with
  | (Ok id, random') => (Ok id, random')
  | (Err _, random') => (Err tt, random')
  end.

Definition NewReferenceStore (address : Z) (random : bytes) : ReferenceStore bytes := MkStore address ∅ random.

(** [observation] of the ledger. *)
Definition observation (ledger : ReferenceLedger) (key : attemptKey) (commandDigest : Digest) : Observation :=
  MkObservation (rl_store ledger) key (rl_service ledger) (rl_routeDigest ledger) commandDigest true.

Section Ledger.
Context `{Normalizer}.
Context {G : Type} (generator_New : G -> Kind -> res unit ID * G).
Implicit Types (store : ReferenceStore G) (ctx : Context) (record : entry).

(** A nil generator is [None]. *)
Definition NewReferenceStoreWithGenerator (address : Z) (generator : option G) : res ledger_error (ReferenceStore G) :=
  match generator with
  | None => Err ErrInvalidConfiguration
  | Some g => Ok (MkStore address ∅ g)
  end.

(** [None] is a nil store, or a zero one, which has neither records nor a
    generator. *)
Definition NewReferenceLedger (store : option (ReferenceStore G)) (service : string) (routeDigest : Digest)
    (limits : ReferenceLimits) : res ledger_error ReferenceLedger :=
  match store with
  | None => Err ErrInvalidConfiguration
  | Some st =>
      if negb (validService service) || (routeDigest == zero_digest)
         || (MaximumPayloadBytes limits <=? 0) || (maximumReferenceBytes <? MaximumPayloadBytes limits)
         || (MaximumResultBytes limits <=? 0) || (maximumReferenceBytes <? MaximumResultBytes limits)
      then Err ErrInvalidConfiguration
      else Ok (MkLedger (rs_address st) service routeDigest limits)
  end.

(** [if ledger == nil || ledger.store == nil] *)
Definition configured (ledger : option ReferenceLedger) : res ledger_error ReferenceLedger :=
  match ledger with None => Err ErrInvalidConfiguration | Some l => Ok l end.

Definition set_record store key record : ReferenceStore G :=
  MkStore (rs_address store) (<[key := record]> (rs_records store)) (rs_generator store).
Definition set_generator store (g : G) : ReferenceStore G :=
  MkStore (rs_address store) (rs_records store) g.

(** Run a validation that does not touch the store, then the locked part. *)
Definition locked {A B} (check : res ledger_error A) store
    (body : A -> res ledger_error B * ReferenceStore G) : res ledger_error B * ReferenceStore G :=
  match check with Ok a => body a | Err e => (Err e, store) end.

Definition Prepare ctx (ledger : option ReferenceLedger) store (command : Command)
    : res ledger_error unit * ReferenceStore G :=
  locked (_ ← validateContext ctx;
          l ← configured ledger;
          _ ← validateCommand command;
          _ ← reject_if ((dp_Service (c_Dispatch command) != rl_service l)
                         || (dp_ProviderRouteDigest (c_Dispatch command) != rl_routeDigest l)) ErrBindingMismatch;
          reject_if (MaximumPayloadBytes (rl_limits l) <? zlen (c_Payload command)) ErrLimitExceeded)
    store (fun _ =>
      let command := MkCommand (dispatchWithoutOpaque (c_Dispatch command)) (c_CommandDigest command)
                       (c_Payload command) in
      let key := keyForDispatch (c_Dispatch command) in
      match rs_records store !! key with
      | Some existing =>
          if sameCommand (e_command existing) command then (Ok tt, store) else (Err ErrPrepareConflict, store)
      | None => (Ok tt, set_record store key (MkEntry StatePrepared command "" None))
      end).

(** [claim.Open()] and the checks on the opened permit. *)
Definition open_start (l : ReferenceLedger) (claim : ClaimedDispatchStart) : res ledger_error DispatchStartPermit :=
  match ClaimedDispatchStart_Open claim with
  | None => Err ErrInvalidClaim
  | Some start =>
      _ ← reject_if ((sp_Opaque start == "") || negb (sp_Durable start) || (sp_EventSequence start =? 0)
                     || (sp_CommandDigest start == zero_digest)) ErrInvalidClaim;
      _ ← wrap_err ErrInvalidClaim (validateDispatch (sp_Dispatch start));
      _ ← reject_if ((dp_Service (sp_Dispatch start) != rl_service l)
                     || (dp_ProviderRouteDigest (sp_Dispatch start) != rl_routeDigest l)) ErrBindingMismatch;
      Ok start
  end.

Definition ClaimStart ctx (ledger : option ReferenceLedger) store (claim : ClaimedDispatchStart)
    : res ledger_error ClaimedCommand * ReferenceStore G :=
  locked (_ ← validateContext ctx; l ← configured ledger; start ← open_start l claim; Ok (l, start))
    store (fun '(l, start) =>
      let key := keyForDispatch (sp_Dispatch start) in
      match rs_records store !! key with
      | None => (Err ErrCommandNotPrepared, store)
      | Some record =>
          if (c_Dispatch (e_command record) != dispatchWithoutOpaque (sp_Dispatch start))
             || (c_CommandDigest (e_command record) != sp_CommandDigest start)
          then (Err ErrBindingMismatch, store)
          else if e_state record != StatePrepared then (Err ErrStartAlreadyClaimed, store)
          else (Ok (MkClaimed (e_command record) (observation l key (sp_CommandDigest start)) true),
                set_record store key
                  (MkEntry StateClaimed (e_command record) (e_externalProviderRequestID record) (e_terminal record)))
      end).

Definition recordForObservationLocked (l : ReferenceLedger) store (obs : Observation) : res ledger_error entry :=
  _ ← reject_if (negb (o_sealed obs) || (o_store obs != rl_store l) || (o_service obs != rl_service l)
                 || (o_routeDigest obs != rl_routeDigest l) || (o_commandDigest obs == zero_digest))
        ErrInvalidObservation;
  match rs_records store !! o_key obs with
  | None => Err ErrInvalidObservation
  | Some record =>
      _ ← reject_if ((c_CommandDigest (e_command record) != o_commandDigest obs)
                     || (dp_Service (c_Dispatch (e_command record)) != o_service obs)
                     || (dp_ProviderRouteDigest (c_Dispatch (e_command record)) != o_routeDigest obs))
            ErrInvalidObservation;
      Ok record
  end.

Definition RecordAccepted ctx (ledger : option ReferenceLedger) store (obs : Observation)
    (externalProviderRequestID : string) : res ledger_error unit * ReferenceStore G :=
  locked (_ ← validateContext ctx; l ← configured ledger;
          _ ← validateProviderRequestID externalProviderRequestID;
          recordForObservationLocked l store obs)
    store (fun record =>
      if e_externalProviderRequestID record != "" then
        (reject_if (e_externalProviderRequestID record != externalProviderRequestID) ErrAcceptanceConflict, store)
      else if e_state record != StateClaimed then (Err ErrInvalidTransition, store)
      else (Ok tt, set_record store (o_key obs)
                     (MkEntry StateAccepted (e_command record) externalProviderRequestID (e_terminal record)))).

(** [generator.New(kind)] into a field that is needed and unset; a generated
    identity of another kind is a failure. *)
Definition generate_if (needed : bool) (kind : Kind) (current : ID) (g : G) : res ledger_error ID * G :=
  if needed && (current == no_id) then
    match generator_New g kind with
    | (Ok id, g') => (_ ← reject_if (id_kind id != kind) ErrIdentityGeneration; Ok id, g')
    | (Err _, g') => (Err ErrIdentityGeneration, g')
    end
  else (Ok current, g).

Definition RecordTerminal ctx (ledger : option ReferenceLedger) store (obs : Observation) (terminal : Terminal)
    : res ledger_error Terminal * ReferenceStore G :=
  locked (_ ← validateContext ctx; l ← configured ledger;
          _ ← reject_if (MaximumResultBytes (rl_limits l) <? zlen (tm_Result terminal)) ErrLimitExceeded;
          _ ← validateTerminal terminal;
          recordForObservationLocked l store obs)
    store (fun record =>
      match e_terminal record with
      | Some stored =>
          (if terminalReplays stored terminal then Ok stored else Err ErrTerminalConflict, store)
      | None =>
          if (e_state record != StateClaimed) && (e_state record != StateAccepted)
          then (Err ErrInvalidTransition, store)
          else if (tm_Status terminal == TerminalCommitted) && (e_state record != StateAccepted)
          then (Err ErrInvalidTransition, store)
          else
            let committed := tm_Status terminal == TerminalCommitted in
            match generate_if committed "commit" (tm_ExternalCommitID terminal) (rs_generator store) with
            | (Err e, g1) => (Err e, set_generator store g1)
            | (Ok commit, g1) =>
                match generate_if (committed && negb (zlen (tm_Result terminal) =? 0)) "artifact"
                        (tm_ResultRef terminal) g1 with
                | (Err e, g2) => (Err e, set_generator store g2)
                | (Ok result, g2) =>
                    let normalized := MkTerminal (tm_Status terminal) commit result (tm_Result terminal) in
                    (Ok normalized,
                     set_record (set_generator store g2) (o_key obs)
                       (MkEntry StateTerminal (e_command record) (e_externalProviderRequestID record)
                          (Some normalized)))
                end
            end
      end).

Definition ResumeObservation ctx (ledger : option ReferenceLedger) store (lookup : LedgerLookup)
    (commandDigest : Digest) : res ledger_error Observation :=
  _ ← validateContext ctx;
  l ← configured ledger;
  _ ← validateLookupBinding lookup (rl_service l) (rl_routeDigest l);
  _ ← reject_if (commandDigest == zero_digest) ErrBindingMismatch;
  match rs_records store !! keyForLookup lookup with
  | None => Err ErrObservationUnavailable
  | Some record =>
      _ ← reject_if (e_state record == StatePrepared) ErrObservationUnavailable;
      _ ← reject_if ((lookup != lookupFor (c_Dispatch (e_command record)))
                     || (c_CommandDigest (e_command record) != commandDigest)) ErrBindingMismatch;
      Ok (observation l (keyForLookup lookup) commandDigest)
  end.

Definition Inspect ctx (ledger : option ReferenceLedger) store (lookup : LedgerLookup) : res ledger_error Facts :=
  _ ← validateContext ctx;
  l ← configured ledger;
  _ ← validateLookupBinding lookup (rl_service l) (rl_routeDigest l);
  match rs_records store !! keyForLookup lookup with
  | None => Err ErrObservationUnavailable
  | Some record =>
      _ ← reject_if (lookup != lookupFor (c_Dispatch (e_command record))) ErrBindingMismatch;
      Ok (MkFacts (e_state record) (e_command record) (e_externalProviderRequestID record)
            (default no_terminal (e_terminal record)))
  end.

(** The status switch of [Lookup]. *)
Definition project_record (lookup : LedgerLookup) record : res ledger_error LedgerRecord :=
  match e_state record with
  | StatePrepared => Ok (ledgerRecord lookup LedgerAbsent no_id no_id)
  | StateClaimed | StateAccepted => Ok (ledgerRecord lookup LedgerInflight no_id no_id)
  | StateTerminal =>
      match e_terminal record with
      | None => Err ErrInvalidTransition
      | Some terminal =>
          if tm_Status terminal == TerminalCommitted
          then Ok (ledgerRecord lookup LedgerCommitted (tm_ExternalCommitID terminal) (tm_ResultRef terminal))
          else if tm_Status terminal == TerminalFailed then Ok (ledgerRecord lookup LedgerFailed no_id no_id)
          else if tm_Status terminal == TerminalUnknown then Ok (ledgerRecord lookup LedgerUnknown no_id no_id)
          else Err ErrInvalidTransition
      end
  end.

Definition Lookup ctx (ledger : option ReferenceLedger) store (lookup : LedgerLookup)
    : res ledger_error LedgerRecord :=
  _ ← validateContext ctx;
  l ← configured ledger;
  _ ← validateLookupBinding lookup (rl_service l) (rl_routeDigest l);
  match rs_records store !! keyForLookup lookup with
  | None => Ok (ledgerRecord lookup LedgerAbsent no_id no_id)
  | Some record =>
      _ ← reject_if (lookup != lookupFor (c_Dispatch (e_command record))) ErrBindingMismatch;
      project_record lookup record
  end.
End Ledger.
