(* ===== verification/EffectLedgerProofs.v ===== *)
(** * The effect ledger refines a table of facts

    Every operation of the ledger is a step of a small transition system on
    attempts; a start is handed out once per attempt, facts are only added, and
    [Lookup] reports them. *)

From S2P Require Import Prelude GoText Identity BrokerTypes EffectLedger.
#[local] Open Scope string_scope.
#[local] Open Scope list_scope.
#[local] Open Scope Z_scope.
#[local] Open Scope go_scope.

Abbreviation records := (gmap attemptKey entry).

Section Ledger.
Context `{Normalizer}.

(** ** The abstract table *)
(** A command the store may hold: validated, without its dispatch proof. *)
Definition command_ok (command : Command) : Prop :=
  c_CommandDigest command <> zero_digest /\ dp_Opaque (c_Dispatch command) = "" /\
  validateDispatchCore (c_Dispatch command) false = Ok tt.

(** A terminal fact the store may hold: a committed one names its commit and
    its result. *)
Definition terminal_ok (t : Terminal) : Prop :=
  validateTerminal t = Ok tt /\
  (tm_Status t = TerminalCommitted ->
   id_kind (tm_ExternalCommitID t) = "commit" /\ id_kind (tm_ResultRef t) = "artifact").

Inductive entry_step : entry -> entry -> Prop :=
| es_accept command t id :
    validateProviderRequestID id = Ok tt ->
    entry_step (MkEntry StateClaimed command "" t) (MkEntry StateAccepted command id t)
| es_terminal st command id t :
    st = StateClaimed \/ st = StateAccepted -> (tm_Status t = TerminalCommitted -> st = StateAccepted) ->
    terminal_ok t ->
    entry_step (MkEntry st command id None) (MkEntry StateTerminal command id (Some t)).

(** The label is the attempt whose start the step hands out. *)
Inductive table_step : option attemptKey -> records -> records -> Prop :=
| ts_same m : table_step None m m
| ts_prepare m command :
    m !! keyForDispatch (c_Dispatch command) = None -> command_ok command ->
    table_step None m (<[keyForDispatch (c_Dispatch command) := MkEntry StatePrepared command "" None]> m)
| ts_claim m key command id t :
    m !! key = Some (MkEntry StatePrepared command id t) ->
    table_step (Some key) m (<[key := MkEntry StateClaimed command id t]> m)
| ts_entry m key r r' :
    m !! key = Some r -> entry_step r r' -> table_step None m (<[key := r']> m).

(** ** What the validations establish *)
Lemma validate_without_opaque d :
  validateDispatch d = Ok tt -> validateDispatchCore (dispatchWithoutOpaque d) false = Ok tt.
Proof.
  unfold validateDispatch, validateDispatchCore. intros [Hd Hp]%reject_if_ok.
  apply reject_if_ok. split; [|done]. revert Hd. unfold invalid_dispatch, dispatchWithoutOpaque.
  cbn [dp_EffectKey dp_Opaque dp_TenantID dp_WorkspaceID dp_UserID dp_Service dp_Operation dp_ParentOperationID
       dp_ParentOperation dp_Ordinal dp_ReplayPolicy dp_Generations dp_DispatchAttempt dp_ProviderRequestID
       dp_ProviderRouteDigest dp_Deadline dp_EventSequence dp_Durable].
  rewrite !orb_false_iff. intros Hd. destruct_and!. split_and!; solve [assumption|reflexivity].
Qed.

Lemma validateCommand_ok command :
  validateCommand command = Ok tt ->
  command_ok (MkCommand (dispatchWithoutOpaque (c_Dispatch command)) (c_CommandDigest command) (c_Payload command)).
Proof.
  unfold validateCommand. intros [Hz%bool_decide_eq_false Hd]%reject_if_ok.
  split_and!; [done|done|]. by apply validate_without_opaque.
Qed.

Lemma set_kind id kind : set_with_other_kind id kind = false -> id <> no_id -> id_kind id = kind.
Proof.
  unfold set_with_other_kind. rewrite andb_false_iff, !bool_decide_eq_false. intros [Hk|Hk] Hid; [tauto|].
  by apply dec_stable in Hk.
Qed.

Lemma recordForObservation_some {G} l (store : ReferenceStore G) obs r :
  recordForObservationLocked l store obs = Ok r -> rs_records store !! o_key obs = Some r.
Proof.
  unfold recordForObservationLocked. intros [_ Hr]%reject_if_ok. case_match; [|done].
  by apply reject_if_ok in Hr as [_ [= ->]].
Qed.

Context {G : Type} (generator_New : G -> Kind -> res unit ID * G).

Lemma generate_if_kind needed kind current g id g' :
  generate_if generator_New needed kind current g = (Ok id, g') ->
  (needed = true -> current = no_id -> id_kind id = kind) /\ (needed = false \/ current <> no_id -> id = current).
Proof.
  unfold generate_if. intros Hg. destruct needed; simpl in Hg; [|by simplify_eq; naive_solver].
  case_bool_decide as Hc; [|by simplify_eq; naive_solver].
  destruct (generator_New g kind) as [[i|] g1]; [|done].
  injection Hg as Hi _. apply reject_if_ok in Hi as [Hk%bool_decide_eq_false%dec_stable [= <-]]. naive_solver.
Qed.

Lemma normalized_ok t commit result g g1 g2 :
  validateTerminal t = Ok tt ->
  generate_if generator_New (tm_Status t == TerminalCommitted) "commit" (tm_ExternalCommitID t) g = (Ok commit, g1) ->
  generate_if generator_New ((tm_Status t == TerminalCommitted) && negb (zlen (tm_Result t) =? 0)) "artifact"
    (tm_ResultRef t) g1 = (Ok result, g2) ->
  terminal_ok (MkTerminal (tm_Status t) commit result (tm_Result t)).
Proof.
  unfold terminal_ok, validateTerminal. intros Hv [Hc1 Hc2]%generate_if_kind [Hr1 Hr2]%generate_if_kind. simpl.
  case_bool_decide as Hs; simpl in *.
  - apply reject_if_ok in Hv as [He Hv]. apply reject_if_ok in Hv as [Hkc Hv].
    destruct (set_with_other_kind (tm_ResultRef t) "artifact") eqn:Hkr; [done|]. clear Hv.
    assert (id_kind commit = "commit") as Hcommit.
    { destruct (decide (tm_ExternalCommitID t = no_id)); [auto|]. rewrite Hc2 by auto. by apply set_kind. }
    assert (id_kind result = "artifact") as Hresult.
    { destruct (decide (tm_ResultRef t = no_id)) as [Hz|]; [|rewrite Hr2 by auto; by apply set_kind].
      apply Hr1; [|done]. rewrite Hz, bool_decide_true, andb_true_r in He by done. by rewrite He. }
    split; [|done]. unfold set_with_other_kind. rewrite Hcommit, Hresult.
    rewrite (bool_decide_false ("commit" <> "commit")), (bool_decide_false ("artifact" <> "artifact")) by tauto.
    rewrite !andb_false_r. rewrite (bool_decide_false (result = no_id)) by (by intros ->). by rewrite andb_false_r.
  - assert (commit = tm_ExternalCommitID t) as -> by auto. assert (result = tm_ResultRef t) as -> by auto.
    by split.
Qed.

(** ** Every operation is a step of the table *)
Inductive ledger_op :=
| OpPrepare (ctx : Context) (ledger : option ReferenceLedger) (command : Command)
| OpClaimStart (ctx : Context) (ledger : option ReferenceLedger) (claim : ClaimedDispatchStart)
| OpRecordAccepted (ctx : Context) (ledger : option ReferenceLedger) (obs : Observation) (id : string)
| OpRecordTerminal (ctx : Context) (ledger : option ReferenceLedger) (obs : Observation) (t : Terminal).

Implicit Types (store : ReferenceStore G) (op : ledger_op).

Definition exec_op store op : ReferenceStore G :=
  match op with
  | OpPrepare ctx ledger command => (Prepare ctx ledger store command).2
  | OpClaimStart ctx ledger claim => (ClaimStart ctx ledger store claim).2
  | OpRecordAccepted ctx ledger obs id => (RecordAccepted ctx ledger store obs id).2
  | OpRecordTerminal ctx ledger obs t => (RecordTerminal generator_New ctx ledger store obs t).2
  end.

(** The attempt whose start the operation handed out. *)
Definition started store op : option attemptKey :=
  match op with
  | OpClaimStart ctx ledger claim =>
      match (ClaimStart ctx ledger store claim).1 with
      | Ok claimed => Some (keyForDispatch (c_Dispatch (cc_command claimed)))
      | Err _ => None
      end
  | _ => None
  end.

Lemma locked_ok {A B} (check : res ledger_error A) store (body : A -> res ledger_error B * ReferenceStore G) :
  (exists e, check = Err e /\ locked check store body = (Err e, store)) \/
  (exists a, check = Ok a /\ locked check store body = body a).
Proof. unfold locked. destruct check; eauto. Qed.

Lemma prepare_step ctx ledger store command :
  table_step None (rs_records store) (rs_records (Prepare ctx ledger store command).2).
Proof.
  unfold Prepare. match goal with |- context [locked ?c ?s ?b] => destruct (locked_ok c s b) as
    [(e & _ & ->)|([] & Hc & ->)] end; [constructor|].
  inv_ok Hc. case_match eqn:Hr; [case_match; constructor|].
  apply (ts_prepare _ (MkCommand (dispatchWithoutOpaque (c_Dispatch command)) (c_CommandDigest command)
    (c_Payload command))); [done|]. apply validateCommand_ok. by destruct (validateCommand command) as [[]|].
Qed.

(** A claim that succeeds finds its attempt prepared and leaves it claimed. *)
Lemma claim_cases ctx ledger store claim :
  (exists e, ClaimStart ctx ledger store claim = (Err e, store)) \/
  exists claimed command id t, ClaimStart ctx ledger store claim =
      (Ok claimed, set_record store (keyForDispatch (c_Dispatch command)) (MkEntry StateClaimed command id t)) /\
    cc_command claimed = command /\
    rs_records store !! keyForDispatch (c_Dispatch command) = Some (MkEntry StatePrepared command id t).
Proof.
  unfold ClaimStart. match goal with |- context [locked ?c ?s ?b] => destruct (locked_ok c s b) as
    [(e & _ & ->)|([l start] & Hc & ->)] end; [eauto|].
  destruct (rs_records store !! _) as [e|] eqn:Hr; [|eauto].
  destruct (_ || _) eqn:Hb; [eauto|].
  apply orb_false_iff in Hb as [Hd%bool_decide_eq_false%dec_stable _].
  case_bool_decide as Hs; [eauto|].
  destruct e as [st command id t]. simpl in *. right. exists (MkClaimed command (observation l
    (keyForDispatch (sp_Dispatch start)) (sp_CommandDigest start)) true), command, id, t.
  replace (keyForDispatch (c_Dispatch command)) with (keyForDispatch (sp_Dispatch start)) by (by rewrite Hd).
  subst st. done.
Qed.

Lemma accepted_step ctx ledger store obs id :
  table_step None (rs_records store) (rs_records (RecordAccepted ctx ledger store obs id).2).
Proof.
  unfold RecordAccepted. match goal with |- context [locked ?c ?s ?b] => destruct (locked_ok c s b) as
    [(e & _ & ->)|([st command id0 t] & Hc & ->)] end; [constructor|].
  apply bind_ok in Hc as (? & _ & Hc). apply bind_ok in Hc as (l & _ & Hc). apply bind_ok in Hc as ([] & Hid & Hc).
  apply recordForObservation_some in Hc. cbn [e_externalProviderRequestID e_state e_command e_terminal].
  case_bool_decide as Hne; [constructor|]. case_bool_decide as Hs; [constructor|].
  subst. by eapply ts_entry, es_accept.
Qed.

Lemma terminal_step ctx ledger store obs t :
  table_step None (rs_records store) (rs_records (RecordTerminal generator_New ctx ledger store obs t).2).
Proof.
  unfold RecordTerminal. match goal with |- context [locked ?c ?s ?b] => destruct (locked_ok c s b) as
    [(e & _ & ->)|([st command id t0] & Hc & ->)] end; [constructor|].
  apply bind_ok in Hc as (? & _ & Hc). apply bind_ok in Hc as (l & _ & Hc). apply bind_ok in Hc as (? & _ & Hc).
  apply bind_ok in Hc as ([] & Hv & Hc). apply recordForObservation_some in Hc.
  cbn [e_externalProviderRequestID e_state e_command e_terminal].
  destruct t0 as [t0|]; [constructor|].
  destruct (_ && _) eqn:Hst; [constructor|]. destruct ((tm_Status t == _) && _) eqn:Hcm; [constructor|].
  destruct (generate_if generator_New _ "commit" _ _) as [[commit|e] g1] eqn:Hg1; [|constructor].
  destruct (generate_if generator_New _ "artifact" _ _) as [[result|e] g2] eqn:Hg2; [|constructor].
  eapply ts_entry; [exact Hc|]. apply es_terminal; [| |by eapply normalized_ok].
  - apply andb_false_iff in Hst as [Hst|Hst]; apply bool_decide_eq_false, dec_stable in Hst; auto.
  - intros Hs. apply andb_false_iff in Hcm as [Hcm|Hcm]; apply bool_decide_eq_false in Hcm; [done|].
    by apply dec_stable in Hcm.
Qed.

Lemma exec_op_step store op :
  table_step (started store op) (rs_records store) (rs_records (exec_op store op)).
Proof.
  destruct op; simpl; [apply prepare_step| |apply accepted_step|apply terminal_step].
  destruct (claim_cases ctx ledger store claim) as [(e & ->)|(c & command & id & t & -> & Hcc & Hr)]; simpl;
    [constructor|]. rewrite Hcc. by apply ts_claim.
Qed.

(** ** Sequences of operations, by any ledgers on the store *)
Fixpoint exec_ops store (ops : list ledger_op) : ReferenceStore G :=
  match ops with [] => store | op :: ops' => exec_ops (exec_op store op) ops' end.

(** The attempts whose starts the sequence handed out, in order. *)
Fixpoint starts store (ops : list ledger_op) : list attemptKey :=
  match ops with
  | [] => []
  | op :: ops' => option_list (started store op) ++ starts (exec_op store op) ops'
  end.

(** ** Facts only grow *)
Definition state_rank (st : State) : Z :=
  match st with StatePrepared => 0 | StateClaimed => 1 | StateAccepted => 2 | StateTerminal => 3 end.

Definition entry_le (r r' : entry) : Prop :=
  e_command r' = e_command r /\ state_rank (e_state r) <= state_rank (e_state r') /\
  (e_externalProviderRequestID r <> "" -> e_externalProviderRequestID r' = e_externalProviderRequestID r) /\
  (forall t, e_terminal r = Some t -> e_terminal r' = Some t).

#[global] Instance entry_le_preorder : PreOrder entry_le.
Proof.
  split; [by intros r|]. intros r1 r2 r3 (A1 & A2 & A3 & A4) (B1 & B2 & B3 & B4).
  split_and!; [congruence|lia| |auto]. intros Hne. rewrite B3; [auto|]. by rewrite A3.
Qed.

Lemma entry_step_le r r' : entry_step r r' -> entry_le r r'.
Proof. intros [|st command id t [-> | ->]]; split_and!; simpl; (done || lia). Qed.

Lemma table_step_le label m m' key r :
  table_step label m m' -> m !! key = Some r -> exists r', m' !! key = Some r' /\ entry_le r r'.
Proof.
  intros [m0|m0 command Hn Hc|m0 k command id t Hk|m0 k r0 r1 Hk Hs] Hr; [by exists r| | |].
  - exists r. rewrite lookup_insert_ne by congruence. done.
  - destruct (decide (k = key)) as [->|Hne]; [|exists r; by rewrite lookup_insert_ne].
    exists (MkEntry StateClaimed command id t). rewrite lookup_insert_eq. simplify_eq. by split_and!.
  - destruct (decide (k = key)) as [->|Hne]; [|exists r; by rewrite lookup_insert_ne].
    exists r1. rewrite lookup_insert_eq. split; [done|]. simplify_eq. by apply entry_step_le.
Qed.

Lemma exec_ops_le store ops key r :
  rs_records store !! key = Some r -> exists r', rs_records (exec_ops store ops) !! key = Some r' /\ entry_le r r'.
Proof.
  revert store r. induction ops as [|op ops IH]; intros store r Hr; simpl; [by exists r|].
  destruct (table_step_le _ _ _ _ _ (exec_op_step store op) Hr) as (r1 & Hr1 & Hle).
  destruct (IH _ _ Hr1) as (r2 & Hr2 & Hle2). exists r2. split; [done|by etrans].
Qed.

(** ** A start is handed out once *)
Lemma started_cases store op key :
  started store op = Some key ->
  (exists r, rs_records store !! key = Some r /\ e_state r = StatePrepared) /\
  exists r, rs_records (exec_op store op) !! key = Some r /\ e_state r = StateClaimed.
Proof.
  intros Hst. pose proof (exec_op_step store op) as Hs. rewrite Hst in Hs. inversion Hs as [| |m k command id t Hk|].
  rewrite lookup_insert_eq. split; by eexists.
Qed.

Lemma claimed_never_started store ops key r :
  rs_records store !! key = Some r -> e_state r <> StatePrepared -> key ∉ starts store ops.
Proof.
  revert store r. induction ops as [|op ops IH]; intros store r Hr Hs; simpl; [apply not_elem_of_nil|].
  rewrite not_elem_of_app. split.
  - destruct (started store op) as [k|] eqn:Hst; simpl; [|apply not_elem_of_nil].
    intros ->%list_elem_of_singleton. destruct (started_cases _ _ _ Hst) as [(r0 & Hr0 & Hp) _]. congruence.
  - destruct (table_step_le _ _ _ _ _ (exec_op_step store op) Hr) as (r1 & Hr1 & _ & Hle & _).
    apply (IH _ r1); [done|]. intros Hp. rewrite Hp in Hle. by destruct (e_state r).
Qed.

(** C35: Over any sequence of operations by any number of ledger objects on one
    store, whatever claims and observations they present, the start of a
    dispatch attempt is handed out at most once. *)
Theorem start_claimed_once store ops : NoDup (starts store ops).
Proof.
  revert store. induction ops as [|op ops IH]; intros store; simpl; [constructor|].
  destruct (started store op) as [key|] eqn:Hst; simpl; [|done]. constructor; [|done].
  destruct (started_cases _ _ _ Hst) as [_ (r & Hr & Hs)]. eapply claimed_never_started; [done|by rewrite Hs].
Qed.

(** No operation revises what the ledger recorded of an attempt: the command,
    the provider's request identity and the terminal fact never change once set,
    and the state never goes back. *)
Theorem facts_never_revised store ops key r :
  rs_records store !! key = Some r ->
  exists r', rs_records (exec_ops store ops) !! key = Some r' /\
    e_command r' = e_command r /\ state_rank (e_state r) <= state_rank (e_state r') /\
    (e_externalProviderRequestID r <> "" -> e_externalProviderRequestID r' = e_externalProviderRequestID r) /\
    (forall t, e_terminal r = Some t -> e_terminal r' = Some t).
Proof. apply exec_ops_le. Qed.

(** ** The invariant of a store *)
Definition facts_ok (r : entry) : Prop :=
  match e_state r with
  | StatePrepared | StateClaimed => e_externalProviderRequestID r = "" /\ e_terminal r = None
  | StateAccepted => validateProviderRequestID (e_externalProviderRequestID r) = Ok tt /\ e_terminal r = None
  | StateTerminal =>
      exists t, e_terminal r = Some t /\ terminal_ok t /\
        (tm_Status t = TerminalCommitted -> validateProviderRequestID (e_externalProviderRequestID r) = Ok tt)
  end.

Definition entry_ok (key : attemptKey) (r : entry) : Prop :=
  key = keyForDispatch (c_Dispatch (e_command r)) /\ command_ok (e_command r) /\ facts_ok r.

Lemma entry_step_ok key r r' : entry_step r r' -> entry_ok key r -> entry_ok key r'.
Proof.
  intros Hs (Hk & Hc & Hf). destruct Hs as [|st command id t Hst Hcm Ht]; split_and!; try done.
  - by destruct Hf.
  - exists t. split_and!; try done. intros Hs. rewrite (Hcm Hs) in Hf. by destruct Hf.
Qed.

Lemma table_step_ok label m m' : table_step label m m' -> map_Forall entry_ok m -> map_Forall entry_ok m'.
Proof.
  intros [m0|m0 command Hn Hc|m0 k command id t Hk|m0 k r0 r1 Hk Hs] Hm; [done| | |];
    apply map_Forall_insert_2; try done.
  - destruct (Hm _ _ Hk) as (? & ? & ?). by split_and!.
  - apply entry_step_ok with r0; [done|]. by apply Hm.
Qed.

Lemma exec_ops_ok store ops :
  map_Forall entry_ok (rs_records store) -> map_Forall entry_ok (rs_records (exec_ops store ops)).
Proof.
  revert store. induction ops as [|op ops IH]; intros store Hs; simpl; [done|].
  apply IH. eapply table_step_ok; [apply exec_op_step|done].
Qed.

(** ** Attempts whose start was not handed out *)
Definition unstarted (m : records) (key : attemptKey) : Prop :=
  forall r, m !! key = Some r -> e_state r = StatePrepared.

Lemma table_step_unstarted label m m' key :
  table_step label m m' -> label <> Some key -> unstarted m key -> unstarted m' key.
Proof.
  intros [m0|m0 command Hn Hc|m0 k command id t Hk|m0 k r0 r1 Hk Hs] Hl Hu; [done| | |];
    intros r; rewrite lookup_insert_Some; intros [[? <-]|[_ Hr]]; try by apply Hu; subst; simplify_eq.
  - done.
  - subst. specialize (Hu _ Hk). destruct Hs as [|st ??? [-> | ->]]; by simpl in Hu.
Qed.

Lemma starts_unstarted store ops key :
  unstarted (rs_records store) key ->
  (unstarted (rs_records (exec_ops store ops)) key <-> key ∉ starts store ops).
Proof.
  revert store. induction ops as [|op ops IH]; intros store Hu; simpl.
  { split; [by intros _ ?%not_elem_of_nil|done]. }
  destruct (decide (started store op = Some key)) as [Hst|Hst].
  - destruct (started_cases _ _ _ Hst) as [_ (r & Hr & Hs)]. rewrite Hst. split.
    + intros Hu'. destruct (exec_ops_le _ ops _ _ Hr) as (r' & Hr' & _ & Hle & _).
      rewrite (Hu' _ Hr'), Hs in Hle. by simpl in Hle.
    + intros []. by left.
  - rewrite IH by (eapply table_step_unstarted; [apply exec_op_step|done|done]).
    rewrite not_elem_of_app. split; [|tauto]. intros Hn. split; [|done].
    destruct (started store op) as [k|]; simpl; [|apply not_elem_of_nil].
    intros ->%list_elem_of_singleton. by apply Hst.
Qed.

(** What the projection of a well-formed record says. *)
Lemma project_record_spec lookup key r :
  entry_ok key r ->
  exists rec, project_record lookup r = Ok rec /\
    rec = ledgerRecord lookup (lr_Status rec) (lr_ExternalCommitID rec) (lr_ResultRef rec) /\
    (lr_Status rec = LedgerAbsent <-> e_state r = StatePrepared) /\
    (lr_Status rec = LedgerInflight <-> e_state r <> StatePrepared /\ e_terminal r = None) /\
    (lr_Status rec = LedgerCommitted ->
     exists t, e_terminal r = Some t /\ tm_Status t = TerminalCommitted /\
       validateProviderRequestID (e_externalProviderRequestID r) = Ok tt /\
       lr_ExternalCommitID rec = tm_ExternalCommitID t /\ id_kind (tm_ExternalCommitID t) = "commit" /\
       lr_ResultRef rec = tm_ResultRef t /\ id_kind (tm_ResultRef t) = "artifact").
Proof.
  intros (_ & _ & Hf). unfold facts_ok, project_record in *.
  destruct (e_state r); [destruct Hf as [_ Ht]..|destruct Hf as (t & Ht & [Hv Hk] & Hp)];
    [eexists; split; [reflexivity|simpl; naive_solver]..|]. rewrite Ht.
  unfold validateTerminal in Hv. repeat case_bool_decide; try done;
    (eexists; split; [reflexivity|simpl; naive_solver]).
Qed.

(** On any store the ledger's operations built, a well-formed [Lookup] is
    answered, unless the attempt was prepared under another identity.  The
    answer repeats the identity; it says absent exactly when the attempt's start
    was never handed out and inflight exactly when it was and no terminal fact is
    recorded; it says committed only for a recorded commit that the provider had
    accepted, with the commit's identities. *)
Theorem lookup_reports_facts address g ops l lookup :
  validateLookupBinding lookup (rl_service l) (rl_routeDigest l) = Ok tt ->
  let key := keyForLookup lookup in
  let empty := MkStore address ∅ g in
  let recorded := rs_records (exec_ops empty ops) in
  match Lookup live_context (Some l) (exec_ops empty ops) lookup with
  | Err e =>
      e = ErrBindingMismatch /\
      exists r, recorded !! key = Some r /\ lookup <> lookupFor (c_Dispatch (e_command r))
  | Ok rec =>
      rec = ledgerRecord lookup (lr_Status rec) (lr_ExternalCommitID rec) (lr_ResultRef rec) /\
      (lr_Status rec = LedgerAbsent <-> key ∉ starts empty ops) /\
      (lr_Status rec = LedgerInflight <-> key ∈ starts empty ops /\ (recorded !! key ≫= e_terminal) = None) /\
      (lr_Status rec = LedgerCommitted ->
       exists r t, recorded !! key = Some r /\ e_terminal r = Some t /\ tm_Status t = TerminalCommitted /\
         validateProviderRequestID (e_externalProviderRequestID r) = Ok tt /\
         lr_ExternalCommitID rec = tm_ExternalCommitID t /\ id_kind (tm_ExternalCommitID t) = "commit" /\
         lr_ResultRef rec = tm_ResultRef t /\ id_kind (tm_ResultRef t) = "artifact")
  end.
Proof.
  intros Hv key empty recorded. unfold Lookup. cbn [validateContext configured mbind res_bind]. rewrite Hv.
  cbn [mbind res_bind].
  assert (unstarted (rs_records empty) key) as Hu by done.
  pose proof (starts_unstarted empty ops key Hu) as Hs. fold recorded key in Hs |- *.
  pose proof (exec_ops_ok empty ops (map_Forall_empty _)) as Hok. fold recorded in Hok.
  assert (key ∈ starts empty ops <-> ~ unstarted recorded key) as Hs'.
  { rewrite Hs. split; [tauto|apply dec_stable]. }
  destruct (recorded !! key) as [r|] eqn:Hr.
  - unfold reject_if. case_bool_decide as Hl; simpl; [by eauto|].
    destruct (project_record_spec lookup _ _ (Hok _ _ Hr)) as (rec & -> & Hrec & Ha & Hi & Hc).
    assert (unstarted recorded key <-> e_state r = StatePrepared) as Hiff.
    { unfold unstarted. rewrite Hr. naive_solver. }
    rewrite <- Hs, Hs', Hiff. split_and!; [done|done|done|]. intros (t & Ht)%Hc. by exists r, t.
  - assert (unstarted recorded key) as Hun by (intros r; by rewrite Hr).
    simpl. rewrite <- Hs, Hs'. split_and!; naive_solver.
Qed.

(** ** An attempt can run to its end *)
Definition retained (command : Command) : Command :=
  MkCommand (dispatchWithoutOpaque (c_Dispatch command)) (c_CommandDigest command) (c_Payload command).

Lemma reject_if_same {E A} `{EqDecision A} (x : A) (e : E) : reject_if (x != x) e = Ok tt.
Proof. unfold reject_if. by rewrite bool_decide_false by tauto. Qed.

Lemma reject_if_le {E} (x y : Z) (e : E) : x <= y -> reject_if (y <? x) e = Ok tt.
Proof. intros Hle. unfold reject_if. by rewrite (proj2 (Z.ltb_ge _ _)). Qed.

Lemma bound_to_ledger {E} l (d : DispatchPermit) (e : E) :
  dp_Service d = rl_service l -> dp_ProviderRouteDigest d = rl_routeDigest l ->
  reject_if ((dp_Service d != rl_service l) || (dp_ProviderRouteDigest d != rl_routeDigest l)) e = Ok tt.
Proof. intros -> ->. unfold reject_if. by rewrite !bool_decide_false by tauto. Qed.

Section Success.
Variables (l : ReferenceLedger) (command : Command).
Hypothesis Hvalid : validateCommand command = Ok tt.
Hypothesis Hservice : dp_Service (c_Dispatch command) = rl_service l.
Hypothesis Hroute : dp_ProviderRouteDigest (c_Dispatch command) = rl_routeDigest l.
Let key := keyForDispatch (c_Dispatch command).
Let obs := observation l key (c_CommandDigest command).

Lemma prepare_fresh store :
  zlen (c_Payload command) <= MaximumPayloadBytes (rl_limits l) -> rs_records store !! key = None ->
  Prepare live_context (Some l) store command =
    (Ok tt, set_record store key (MkEntry StatePrepared (retained command) "" None)).
Proof using Hvalid Hservice Hroute.
  intros Hlen Hn. unfold Prepare. cbn [validateContext configured mbind res_bind].
  rewrite Hvalid. cbn [mbind res_bind]. rewrite bound_to_ledger by done. cbn [mbind res_bind].
  rewrite reject_if_le by done. cbn [locked c_Dispatch].
  change (keyForDispatch (dispatchWithoutOpaque (c_Dispatch command))) with key. by rewrite Hn.
Qed.

Lemma digest_set : c_CommandDigest command <> zero_digest.
Proof using Hvalid. unfold validateCommand in Hvalid. by apply reject_if_ok in Hvalid as [?%bool_decide_eq_false _]. Qed.

Lemma open_start_ok opaque sequence :
  opaque <> "" -> sequence <> 0 ->
  let start := MkStart (c_Dispatch command) opaque (c_CommandDigest command) sequence true in
  open_start l (MkClaimedStart start true) = Ok start.
Proof using Hvalid Hservice Hroute.
  intros Ho Hs start. pose proof digest_set as Hz. unfold open_start.
  cbn [ClaimedDispatchStart_Open cs_sealed cs_permit sp_Opaque sp_Durable sp_EventSequence sp_CommandDigest
       sp_Dispatch negb start].
  apply reject_if_ok. split.
  { rewrite !bool_decide_false by done. by rewrite (proj2 (Z.eqb_neq _ _)). }
  unfold validateCommand in Hvalid. apply reject_if_ok in Hvalid as [_ Hd]. rewrite Hd. cbn [wrap_err mbind res_bind].
  by rewrite bound_to_ledger.
Qed.

Lemma claim_prepared store opaque sequence :
  opaque <> "" -> sequence <> 0 ->
  rs_records store !! key = Some (MkEntry StatePrepared (retained command) "" None) ->
  ClaimStart live_context (Some l) store
    (MkClaimedStart (MkStart (c_Dispatch command) opaque (c_CommandDigest command) sequence true) true) =
    (Ok (MkClaimed (retained command) obs true),
     set_record store key (MkEntry StateClaimed (retained command) "" None)).
Proof using Hvalid Hservice Hroute.
  intros Ho Hs Hr. unfold ClaimStart. cbn [validateContext configured mbind res_bind].
  rewrite (open_start_ok _ _ Ho Hs). cbn [mbind res_bind locked sp_Dispatch sp_CommandDigest].
  fold key. rewrite Hr. cbn [e_command e_state e_externalProviderRequestID e_terminal retained c_Dispatch c_CommandDigest].
  by rewrite !bool_decide_false by tauto.
Qed.

Lemma observed_record store st id t :
  rs_records store !! key = Some (MkEntry st (retained command) id t) ->
  recordForObservationLocked l store obs = Ok (MkEntry st (retained command) id t).
Proof using Hvalid Hservice Hroute.
  intros Hr. pose proof digest_set as Hz. unfold recordForObservationLocked.
  cbn [obs observation o_sealed o_store o_service o_routeDigest o_commandDigest o_key negb].
  rewrite Hr. cbn [e_command retained c_CommandDigest c_Dispatch dispatchWithoutOpaque dp_Service dp_ProviderRouteDigest].
  rewrite Hservice, Hroute, (bool_decide_false (_ = zero_digest)) by done.
  unfold reject_if. by rewrite !bool_decide_false by tauto.
Qed.

Lemma accepted_claimed store id :
  validateProviderRequestID id = Ok tt ->
  rs_records store !! key = Some (MkEntry StateClaimed (retained command) "" None) ->
  RecordAccepted live_context (Some l) store obs id =
    (Ok tt, set_record store key (MkEntry StateAccepted (retained command) id None)).
Proof using Hvalid Hservice Hroute.
  intros Hid Hr. unfold RecordAccepted. cbn [validateContext configured mbind res_bind].
  rewrite Hid. cbn [mbind res_bind]. rewrite (observed_record _ _ _ _ Hr). cbn [locked].
  cbn [e_state e_command e_externalProviderRequestID e_terminal].
  by rewrite !bool_decide_false by tauto.
Qed.

Lemma terminal_accepted store id t :
  (forall g kind, exists i g', generator_New g kind = (Ok i, g') /\ id_kind i = kind) ->
  validateTerminal t = Ok tt -> zlen (tm_Result t) <= MaximumResultBytes (rl_limits l) ->
  rs_records store !! key = Some (MkEntry StateAccepted (retained command) id None) ->
  exists commit result g, let t' := MkTerminal (tm_Status t) commit result (tm_Result t) in
    RecordTerminal generator_New live_context (Some l) store obs t =
      (Ok t', set_record (set_generator store g) key (MkEntry StateTerminal (retained command) id (Some t'))).
Proof using Hvalid Hservice Hroute.
  intros Hgen Ht Hlen Hr.
  assert (forall b kind i0 g0, exists i g1, generate_if generator_New b kind i0 g0 = (Ok i, g1)) as Hg.
  { intros b kind i0 g0. unfold generate_if. case_match; [|eauto].
    destruct (Hgen g0 kind) as (i & g' & -> & <-). exists i, g'. by rewrite reject_if_same. }
  unfold RecordTerminal. cbn [validateContext configured mbind res_bind].
  rewrite reject_if_le by done. cbn [mbind res_bind]. rewrite Ht. cbn [mbind res_bind].
  rewrite (observed_record _ _ _ _ Hr). cbn [locked e_state e_command e_externalProviderRequestID e_terminal].
  rewrite (bool_decide_false (StateAccepted <> StateAccepted)), !andb_false_r by tauto.
  destruct (Hg (tm_Status t == TerminalCommitted) "commit" (tm_ExternalCommitID t) (rs_generator store)) as (i & g1 & ->).
  destruct (Hg ((tm_Status t == TerminalCommitted) && negb (zlen (tm_Result t) =? 0)) "artifact" (tm_ResultRef t) g1)
    as (i2 & g2 & ->). by exists i, i2, g2.
Qed.

Lemma lookup_binding :
  validateLookupBinding (lookupFor (c_Dispatch command)) (rl_service l) (rl_routeDigest l) = Ok tt.
Proof using Hvalid Hservice Hroute.
  unfold validateCommand, validateDispatch, validateDispatchCore in Hvalid.
  apply reject_if_ok in Hvalid as [_ [Hd _]%reject_if_ok]. unfold validateLookupBinding, lookupFor.
  cbn [ll_EffectKey ll_TenantID ll_WorkspaceID ll_Service ll_Operation ll_DispatchAttempt ll_ProviderRequestID
       ll_ProviderRouteDigest].
  rewrite bound_to_ledger by done.
  apply reject_if_ok. split; [|done]. unfold invalid_dispatch in Hd. rewrite !orb_false_iff in Hd.
  rewrite !orb_false_iff. destruct_and!. split_and!; assumption.
Qed.
End Success.

(** A validated command for a fresh attempt runs to its end: it is prepared,
    its start is claimed with the broker's sealed permit and hands out exactly the
    prepared payload, the acceptance and the commit are recorded, and [Lookup]
    then reports the commit with the identities that were recorded. *)
Theorem attempt_completes store l command opaque sequence rid t :
  (forall g kind, exists i g', generator_New g kind = (Ok i, g') /\ id_kind i = kind) ->
  validateCommand command = Ok tt -> dp_Service (c_Dispatch command) = rl_service l ->
  dp_ProviderRouteDigest (c_Dispatch command) = rl_routeDigest l ->
  zlen (c_Payload command) <= MaximumPayloadBytes (rl_limits l) ->
  rs_records store !! keyForDispatch (c_Dispatch command) = None ->
  opaque <> "" -> sequence <> 0 -> validateProviderRequestID rid = Ok tt ->
  validateTerminal t = Ok tt -> tm_Status t = TerminalCommitted ->
  zlen (tm_Result t) <= MaximumResultBytes (rl_limits l) ->
  let start := MkStart (c_Dispatch command) opaque (c_CommandDigest command) sequence true in
  exists s1 s2 s3 s4 claimed t',
    Prepare live_context (Some l) store command = (Ok tt, s1) /\
    ClaimStart live_context (Some l) s1 (MkClaimedStart start true) = (Ok claimed, s2) /\
    c_Payload (cc_command claimed) = c_Payload command /\
    RecordAccepted live_context (Some l) s2 (cc_observation claimed) rid = (Ok tt, s3) /\
    RecordTerminal generator_New live_context (Some l) s3 (cc_observation claimed) t = (Ok t', s4) /\
    tm_Result t' = tm_Result t /\
    Lookup live_context (Some l) s4 (lookupFor (c_Dispatch command)) =
      Ok (ledgerRecord (lookupFor (c_Dispatch command)) LedgerCommitted (tm_ExternalCommitID t') (tm_ResultRef t')).
Proof.
  intros Hgen Hv Hs Hr Hlen Hn Ho Hq Hid Ht Hst Hres start.
  destruct (terminal_accepted l command Hv Hs Hr
    (set_record (set_record (set_record store (keyForDispatch (c_Dispatch command))
        (MkEntry StatePrepared (retained command) "" None)) (keyForDispatch (c_Dispatch command))
        (MkEntry StateClaimed (retained command) "" None)) (keyForDispatch (c_Dispatch command))
        (MkEntry StateAccepted (retained command) rid None)) rid t Hgen Ht Hres)
    as (commit & result & g & Hterm); [apply lookup_insert_eq|].
  do 6 eexists. split; [by apply prepare_fresh|]. split.
  { apply claim_prepared; try done. apply lookup_insert_eq. }
  split; [done|]. split; [apply accepted_claimed; try done; apply lookup_insert_eq|].
  split; [exact Hterm|]. split; [done|]. unfold Lookup. cbn [validateContext configured mbind res_bind].
  rewrite lookup_binding by done. cbn [mbind res_bind set_record rs_records].
  change (keyForLookup (lookupFor (c_Dispatch command))) with (keyForDispatch (c_Dispatch command)).
  rewrite lookup_insert_eq. unfold project_record.
  cbn [e_command retained c_Dispatch e_state e_terminal tm_Status tm_ExternalCommitID tm_ResultRef].
  change (lookupFor (dispatchWithoutOpaque (c_Dispatch command))) with (lookupFor (c_Dispatch command)).
  rewrite reject_if_same. cbn [mbind res_bind]. by rewrite Hst, bool_decide_true.
Qed.
End Ledger.

(** ** Witnesses *)
#[local] Existing Instance id_normalizer.

Definition sample_id (kind : Kind) : ID := MkID kind (kind ++ "_x").
Definition sample_digest : Digest := repeat one 32.
Definition sample_dispatch : DispatchPermit :=
  MkDispatch (MkEffectKey (sample_id "sess") (sample_id "turn") (sample_id "effect") (sample_id "inv") sample_digest)
    "proof" (sample_id "tenant") (sample_id "ws") (sample_id "subject") ServiceModel "generate" no_id "" 0
    ReplayNever (MkGenerations 1 1 1 1) 1 no_id sample_digest (MkTime 5 0) 3 true.
Definition sample_command : Command := MkCommand sample_dispatch sample_digest (to_bytes "payload").
Definition sample_ledger : ReferenceLedger := MkLedger 1 ServiceModel sample_digest (MkRefLimits 64 64).
Definition sample_generator (g : Z) (kind : Kind) : res unit ID * Z := (Ok (sample_id kind), g + 1).
Definition sample_ops : list ledger_op :=
  [ OpPrepare live_context (Some sample_ledger) sample_command;
    OpClaimStart live_context (Some sample_ledger)
      (MkClaimedStart (MkStart sample_dispatch "start" sample_digest 4 true) true) ].

Lemma facts_never_revised_witness :
  let store := exec_ops sample_generator (MkStore 1 ∅ 0) sample_ops in
  exists r', rs_records (exec_ops sample_generator store sample_ops) !! keyForDispatch sample_dispatch = Some r' /\
    e_state r' <> StatePrepared.
Proof.
  intros store.
  destruct (facts_never_revised sample_generator store sample_ops (keyForDispatch sample_dispatch)
    (MkEntry StateClaimed (retained sample_command) "" None)) as (r' & Hr & _ & Hle & _);
    [vm_compute; reflexivity|].
  exists r'. split; [exact Hr|]. intros Hs. rewrite Hs in Hle. cbv in Hle. by apply Hle.
Defined.

Lemma lookup_reports_facts_witness :
  exists rec, Lookup live_context (Some sample_ledger) (exec_ops sample_generator (MkStore 1 ∅ 0) sample_ops)
      (lookupFor sample_dispatch) = Ok rec /\
    (lr_Status rec = LedgerAbsent <->
     keyForLookup (lookupFor sample_dispatch) ∉ starts sample_generator (MkStore 1 ∅ 0) sample_ops).
Proof.
  pose proof (lookup_reports_facts sample_generator 1 0 sample_ops sample_ledger (lookupFor sample_dispatch)
    ltac:(vm_compute; reflexivity)) as Ht. cbv zeta in Ht.
  destruct (Lookup live_context _ _ _) as [rec|e] eqn:Hl; [exists rec; split; [done|apply Ht]|].
  exfalso. vm_compute in Hl. discriminate.
Defined.

Lemma attempt_completes_witness :
  exists (s : ReferenceStore Z) t', Lookup live_context (Some sample_ledger) s (lookupFor sample_dispatch) =
    Ok (ledgerRecord (lookupFor sample_dispatch) LedgerCommitted (tm_ExternalCommitID t') (tm_ResultRef t')).
Proof.
  destruct (attempt_completes sample_generator (MkStore 1 ∅ 0) sample_ledger sample_command "start" 4 "req-1"
    (MkTerminal TerminalCommitted no_id no_id (to_bytes "done")))
    as (s1 & s2 & s3 & s4 & claimed & t' & _ & _ & _ & _ & _ & _ & Hl);
    try (vm_compute; first [reflexivity|discriminate]).
  - intros g kind. by exists (sample_id kind), (g + 1).
  - by exists s4, t'.
Defined.
