(* ===== verification/Handshake.v ===== *)
(** * The sandbox handshake ([internal/handshake])

    The one-time negotiation between executord and sandboxd: the nonce is
    consumed by the first request that satisfies the configuration, and the
    answer carries a MAC over the canonical encoding of both messages.  The
    integers of the package are [uint64]; none of the operations on them
    (comparison, minimum, bitwise and) leaves the range. *)

From S2P Require Import Prelude GoText GoCrypto Canonical CanonicalSpec CanonicalProofs Identity.
From Stdlib Require Import NArith.
#[local] Open Scope string_scope.
#[local] Open Scope list_scope.
#[local] Open Scope N_scope.
#[local] Open Scope go_scope.

Definition NonceSize : Z := 32.
Definition zero_descriptor : bytes := repeat zero 32.

Inductive handshake_error :=
| ErrInvalidConfig | ErrInvalidRequest | ErrHandshakeConsumed | ErrPeerRejected | ErrUnsupportedProtocol
| ErrMissingFeature | ErrFrameSize | ErrDescriptorMismatch | ErrNonceMismatch | ErrSandboxBinding
| EncodeTranscript (e : cerror).
#[global] Instance handshake_error_eq_dec : EqDecision handshake_error.
Proof. solve_decision. Defined.

(** [Peer] is a string; the declared ones that the package compares with. *)
Definition PeerExecutord := "executord".
Definition PeerSandboxd := "sandboxd".

Record Version := MkVersion { Major : N; Minor : N }.
#[global] Instance Version_eq_dec : EqDecision Version.
Proof. solve_decision. Defined.

Record Request := MkRequest {
  rq_Peer : string;
  rq_MinimumVersion : Version;
  rq_MaximumVersion : Version;
  rq_FeatureBitmap : N;
  rq_MaximumFrameSize : N;
  rq_DescriptorDigest : bytes;
  rq_OneTimeNonce : bytes;
  rq_SandboxID : ID;
  rq_SandboxGeneration : N;
}.

Record Response := MkResponse {
  rs_SelectedVersion : Version;
  rs_FeatureBitmap : N;
  rs_MaximumFrameSize : N;
  rs_DescriptorDigest : bytes;
  rs_NonceProof : bytes;
}.

Record Config := MkConfig {
  cf_ServerPeer : string;
  cf_AllowedClientPeer : string;
  cf_MinimumVersion : Version;
  cf_MaximumVersion : Version;
  cf_SupportedFeatures : N;
  cf_RequiredFeatures : N;
  cf_MinimumFrameSize : N;
  cf_MaximumFrameSize : N;
  cf_DescriptorDigest : bytes;
  cf_SandboxID : ID;
  cf_SandboxGeneration : N;
  cf_OneTimeNonce : bytes;
}.

Definition maxProtocolInteger : N := 9007199254740991.

Record Negotiator := MkNegotiator { ng_config : Config; ng_nonce : bytes; ng_consumed : bool }.

(** The condition on a version range, in [NewSandboxNegotiator] and [Negotiate]. *)
Definition invalid_versions (minimum maximum : Version) : bool :=
  (Major minimum =? 0) || (Major minimum != Major maximum) || (Minor maximum <? Minor minimum)
  || (maxProtocolInteger <? Major maximum) || (maxProtocolInteger <? Minor maximum).

(** [config.OneTimeNonce = nil] *)
Definition without_nonce (c : Config) : Config :=
  MkConfig (cf_ServerPeer c) (cf_AllowedClientPeer c) (cf_MinimumVersion c) (cf_MaximumVersion c)
    (cf_SupportedFeatures c) (cf_RequiredFeatures c) (cf_MinimumFrameSize c) (cf_MaximumFrameSize c)
    (cf_DescriptorDigest c) (cf_SandboxID c) (cf_SandboxGeneration c) [].

Definition NewSandboxNegotiator (config : Config) : res handshake_error Negotiator :=
  _ ← reject_if ((cf_ServerPeer config != PeerSandboxd) || (cf_AllowedClientPeer config != PeerExecutord))
        ErrInvalidConfig;
  _ ← reject_if (invalid_versions (cf_MinimumVersion config) (cf_MaximumVersion config)) ErrInvalidConfig;
  _ ← reject_if (N.land (cf_RequiredFeatures config) (cf_SupportedFeatures config) != cf_RequiredFeatures config)
        ErrInvalidConfig;
  _ ← reject_if ((maxProtocolInteger <? cf_SupportedFeatures config)
                 || (maxProtocolInteger <? cf_RequiredFeatures config)) ErrInvalidConfig;
  _ ← reject_if ((cf_MinimumFrameSize config =? 0) || (cf_MaximumFrameSize config <? cf_MinimumFrameSize config)
                 || (maxProtocolInteger <? cf_MaximumFrameSize config)) ErrInvalidConfig;
  _ ← reject_if (cf_DescriptorDigest config == zero_descriptor) ErrInvalidConfig;
  _ ← reject_if ((id_kind (cf_SandboxID config) != "sandbox") || (id_value (cf_SandboxID config) == ""))
        ErrInvalidConfig;
  _ ← reject_if ((cf_SandboxGeneration config =? 0) || (maxProtocolInteger <? cf_SandboxGeneration config))
        ErrInvalidConfig;
  _ ← reject_if (negb (zlen (cf_OneTimeNonce config) =? NonceSize)%Z) ErrInvalidConfig;
  Ok (MkNegotiator (without_nonce config) (cf_OneTimeNonce config) false).

Section Handshake.
Context {NZ : Normalizer}.

Definition version_value (v : Version) : Value := VArray [VUint KUint64 (Major v); VUint KUint64 (Minor v)].

Definition transcript_fields (request : Request) (response : Response) (serverPeer : string)
    : list (string * Value) :=
  [ ("clientPeer", VString (rq_Peer request));
    ("serverPeer", VString serverPeer);
    ("minimumVersion", version_value (rq_MinimumVersion request));
    ("maximumVersion", version_value (rq_MaximumVersion request));
    ("requestedFeatures", VUint KUint64 (rq_FeatureBitmap request));
    ("requestedFrameSize", VUint KUint64 (rq_MaximumFrameSize request));
    ("requestedDescriptorDigest", VBytes (rq_DescriptorDigest request));
    ("selectedVersion", version_value (rs_SelectedVersion response));
    ("selectedFeatures", VUint KUint64 (rs_FeatureBitmap response));
    ("selectedFrameSize", VUint KUint64 (rs_MaximumFrameSize response));
    ("descriptorDigest", VBytes (rs_DescriptorDigest response));
    ("sandboxId", VString (id_value (rq_SandboxID request)));
    ("sandboxGeneration", VUint KUint64 (rq_SandboxGeneration request)) ].

Definition transcript_value (request : Request) (response : Response) (serverPeer : string) : Value :=
  VArray [VString "circulusd.sandbox-handshake-proof"; VUint KUint64 1;
          VMap (transcript_fields request response serverPeer)].

Definition handshakeTranscript (request : Request) (response : Response) (serverPeer : string) : res cerror bytes :=
  Encode (transcript_value request response serverPeer) DefaultOptions.

(** The checks of [Negotiate], in its order, up to the answer without a proof. *)
Definition negotiate_response (ng : Negotiator) (request : Request) : res handshake_error Response :=
  let config := ng_config ng in
  _ ← reject_if (rq_Peer request != cf_AllowedClientPeer config) ErrPeerRejected;
  _ ← reject_if (negb (zlen (rq_OneTimeNonce request) =? NonceSize)%Z
                 || negb (hmac_Equal (rq_OneTimeNonce request) (ng_nonce ng))) ErrNonceMismatch;
  _ ← reject_if ((rq_SandboxID request != cf_SandboxID config)
                 || (rq_SandboxGeneration request != cf_SandboxGeneration config)) ErrSandboxBinding;
  _ ← reject_if (invalid_versions (rq_MinimumVersion request) (rq_MaximumVersion request)) ErrInvalidRequest;
  _ ← reject_if (Major (rq_MinimumVersion request) != Major (cf_MinimumVersion config)) ErrUnsupportedProtocol;
  let minimumMinor :=
    if Minor (rq_MinimumVersion request) <? Minor (cf_MinimumVersion config)
    then Minor (cf_MinimumVersion config) else Minor (rq_MinimumVersion request) in
  let maximumMinor :=
    if Minor (cf_MaximumVersion config) <? Minor (rq_MaximumVersion request)
    then Minor (cf_MaximumVersion config) else Minor (rq_MaximumVersion request) in
  _ ← reject_if (maximumMinor <? minimumMinor) ErrUnsupportedProtocol;
  _ ← reject_if (N.land (rq_FeatureBitmap request) (cf_RequiredFeatures config) != cf_RequiredFeatures config)
        ErrMissingFeature;
  _ ← reject_if (maxProtocolInteger <? rq_FeatureBitmap request) ErrInvalidRequest;
  let maximumFrameSize :=
    if cf_MaximumFrameSize config <? rq_MaximumFrameSize request
    then cf_MaximumFrameSize config else rq_MaximumFrameSize request in
  _ ← reject_if ((maximumFrameSize <? cf_MinimumFrameSize config)
                 || (maxProtocolInteger <? rq_MaximumFrameSize request)) ErrFrameSize;
  _ ← reject_if (negb (hmac_Equal (rq_DescriptorDigest request) (cf_DescriptorDigest config))) ErrDescriptorMismatch;
  Ok (MkResponse (MkVersion (Major (cf_MaximumVersion config)) maximumMinor)
        (N.land (rq_FeatureBitmap request) (cf_SupportedFeatures config)) maximumFrameSize
        (cf_DescriptorDigest config) []).

Definition with_proof (response : Response) (proof : bytes) : Response :=
  MkResponse (rs_SelectedVersion response) (rs_FeatureBitmap response) (rs_MaximumFrameSize response)
    (rs_DescriptorDigest response) proof.

(** [Negotiate]; a nil negotiator is [None]. *)
Definition Negotiate (negotiator : option Negotiator) (request : Request)
    : res handshake_error Response * option Negotiator :=
  match negotiator with
  | None => (Err ErrInvalidConfig, None)
  | Some ng =>
      if ng_consumed ng then (Err ErrHandshakeConsumed, negotiator)
      else match negotiate_response ng request with
      | Err e => (Err e, negotiator)
      | Ok response =>
          match handshakeTranscript request response (cf_ServerPeer (ng_config ng)) with
          | Err e => (Err (EncodeTranscript e), negotiator)
          | Ok transcript =>
              (Ok (with_proof response (hmac_sha256 (ng_nonce ng) transcript)),
               Some (MkNegotiator (ng_config ng) [] true))
          end
      end
  end.

Definition VerifyNonceProof (nonce : bytes) (request : Request) (response : Response) (serverPeer : string) : bool :=
  if negb (zlen nonce =? NonceSize)%Z || negb (zlen (rs_NonceProof response) =? 32)%Z then false
  else match handshakeTranscript request response serverPeer with
  | Err _ => false
  | Ok transcript => hmac_Equal (rs_NonceProof response) (hmac_sha256 nonce transcript)
  end.
End Handshake.

(** ** The handshake is exact, one-time and bound to its transcript *)

(** ** What a request must satisfy, and what is agreed *)
Definition versions_ok (minimum maximum : Version) : Prop :=
  Major minimum <> 0 /\ Major minimum = Major maximum /\ Minor minimum <= Minor maximum /\
  Major maximum <= maxProtocolInteger /\ Minor maximum <= maxProtocolInteger.

Definition acceptable (config : Config) (nonce : bytes) (request : Request) : Prop :=
  rq_Peer request = cf_AllowedClientPeer config /\
  zlen (rq_OneTimeNonce request) = NonceSize /\ rq_OneTimeNonce request = nonce /\
  rq_SandboxID request = cf_SandboxID config /\ rq_SandboxGeneration request = cf_SandboxGeneration config /\
  versions_ok (rq_MinimumVersion request) (rq_MaximumVersion request) /\
  Major (rq_MinimumVersion request) = Major (cf_MinimumVersion config) /\
  N.max (Minor (rq_MinimumVersion request)) (Minor (cf_MinimumVersion config)) <=
    N.min (Minor (rq_MaximumVersion request)) (Minor (cf_MaximumVersion config)) /\
  N.land (rq_FeatureBitmap request) (cf_RequiredFeatures config) = cf_RequiredFeatures config /\
  rq_FeatureBitmap request <= maxProtocolInteger /\
  cf_MinimumFrameSize config <= N.min (rq_MaximumFrameSize request) (cf_MaximumFrameSize config) /\
  rq_MaximumFrameSize request <= maxProtocolInteger /\
  rq_DescriptorDigest request = cf_DescriptorDigest config.

Definition agreed (config : Config) (request : Request) : Response :=
  MkResponse
    (MkVersion (Major (cf_MaximumVersion config))
       (N.min (Minor (rq_MaximumVersion request)) (Minor (cf_MaximumVersion config))))
    (N.land (rq_FeatureBitmap request) (cf_SupportedFeatures config))
    (N.min (rq_MaximumFrameSize request) (cf_MaximumFrameSize config)) (cf_DescriptorDigest config) [].

Lemma invalid_versions_false minimum maximum :
  invalid_versions minimum maximum = false <-> versions_ok minimum maximum.
Proof.
  unfold invalid_versions, versions_ok. rewrite !orb_false_iff, N.eqb_neq, !N.ltb_ge, bool_decide_eq_false.
  split; [intros (((( ? & ?%dec_stable) & ?) & ?) & ?)|intros (? & ? & ? & ? & ?)]; split_and!; auto.
Qed.

Lemma negotiate_response_ok ng request response :
  negotiate_response ng request = Ok response <->
  acceptable (ng_config ng) (ng_nonce ng) request /\ response = agreed (ng_config ng) request.
Proof.
  assert (Hmax : forall a b, (if b <? a then b else a) = N.min a b).
  { intros a b. destruct (N.ltb_spec b a); lia. }
  assert (Hmin : forall a b, (if a <? b then b else a) = N.max a b).
  { intros a b. destruct (N.ltb_spec a b); lia. }
  unfold negotiate_response, acceptable, agreed. cbv zeta. rewrite !Hmax, Hmin.
  rewrite !reject_if_ok, !orb_false_iff, !negb_false_iff, invalid_versions_false, !N.ltb_ge, Z.eqb_eq, !hmac_Equal_true,
    !bool_decide_eq_false.
  assert (Hst : forall A (x y : A) (Hd : EqDecision A), ~ x <> y <-> x = y).
  { intros A x y Hd. split; [apply dec_stable|tauto]. }
  rewrite !Hst by apply _. naive_solver.
Qed.

Section handshake.
Context {NZ : Normalizer} {NL : NormalizerLaws}.

(** ** Sequences of requests *)
Fixpoint negotiate_all (ng : option Negotiator) (requests : list Request)
    : list (res handshake_error Response) * option Negotiator :=
  match requests with
  | [] => ([], ng)
  | request :: rest =>
      let '(answer, ng1) := Negotiate ng request in
      let '(answers, ng2) := negotiate_all ng1 rest in
      (answer :: answers, ng2)
  end.

Definition count_ok (answers : list (res handshake_error Response)) : nat := length (filter is_ok answers).

Lemma negotiate_cases ng request :
  (exists e, Negotiate ng request = (Err e, ng)) \/
  exists n response, ng = Some n /\ ng_consumed n = false /\
    Negotiate ng request = (Ok response, Some (MkNegotiator (ng_config n) [] true)).
Proof using Type.
  unfold Negotiate. destruct ng as [n|]; [|eauto]. destruct (ng_consumed n) eqn:Hc; [eauto|].
  destruct (negotiate_response n request) as [r|]; [|eauto].
  destruct (handshakeTranscript _ _ _); [|eauto]. right. by eexists _, _.
Qed.

Lemma consumed_answers n requests :
  ng_consumed n = true ->
  negotiate_all (Some n) requests = (map (fun _ => Err ErrHandshakeConsumed) requests, Some n).
Proof using Type.
  intros Hc. induction requests as [|r rest IH]; [done|]. cbn [negotiate_all map]. unfold Negotiate. rewrite Hc.
  by rewrite IH.
Qed.

Lemma count_ok_consumed {A} (l : list A) : count_ok (map (fun _ => Err ErrHandshakeConsumed) l) = 0%nat.
Proof. unfold count_ok. by induction l. Qed.

(** A negotiator answers at most one request: of any sequence of requests at
    most one succeeds, after which every request is refused as consumed and the
    nonce is gone; requests that fail leave the negotiator as it was. *)
Theorem handshake_one_time ng requests :
  let '(answers, ng') := negotiate_all ng requests in
  (count_ok answers <= 1)%nat /\
  (count_ok answers = 0%nat -> ng' = ng) /\
  (count_ok answers = 1%nat -> exists n, ng' = Some n /\ ng_consumed n = true /\ ng_nonce n = [] /\
     forall request, Negotiate ng' request = (Err ErrHandshakeConsumed, ng')).
Proof using Type.
  induction requests as [|request rest IH]; cbn [negotiate_all].
  { split_and!; [cbn; lia|done|cbn; lia]. }
  destruct (negotiate_cases ng request) as [(e & ->)|(n & response & -> & Hc & ->)].
  - by destruct (negotiate_all ng rest) as [answers ng'].
  - rewrite consumed_answers by done. cbn [count_ok filter is_ok length].
    change (count_ok _) with (S (count_ok (map (fun _ : Request => Err ErrHandshakeConsumed) rest))).
    rewrite count_ok_consumed. split_and!; [lia|done|]. intros _. by eexists.
Qed.

(** ** The answer and its proof *)
Lemma negotiator_ok config ng :
  NewSandboxNegotiator config = Ok ng ->
  cf_ServerPeer config = PeerSandboxd /\
  N.land (cf_RequiredFeatures config) (cf_SupportedFeatures config) = cf_RequiredFeatures config /\
  zlen (cf_OneTimeNonce config) = NonceSize /\
  ng = MkNegotiator (without_nonce config) (cf_OneTimeNonce config) false.
Proof using Type.
  unfold NewSandboxNegotiator. rewrite !reject_if_ok, !orb_false_iff, !bool_decide_eq_false, negb_false_iff, Z.eqb_eq.
  intros ([Hs%dec_stable _] & _ & Hl%dec_stable & _ & _ & _ & _ & _ & Hn & [= <-]). done.
Qed.

Lemma negotiate_ok config request response :
  let nonce := cf_OneTimeNonce config in
  (Negotiate (Some (MkNegotiator (without_nonce config) nonce false)) request).1 = Ok response <->
  acceptable config nonce request /\ exists transcript,
    handshakeTranscript request (agreed config request) (cf_ServerPeer config) = Ok transcript /\
    response = with_proof (agreed config request) (hmac_sha256 nonce transcript).
Proof using Type.
  intros nonce. unfold Negotiate. cbn [ng_consumed ng_config ng_nonce].
  assert (Hr : forall r, negotiate_response (MkNegotiator (without_nonce config) nonce false) request = Ok r <->
    acceptable config nonce request /\ r = agreed config request) by (intros r; apply negotiate_response_ok).
  destruct (negotiate_response _ request) as [r|e].
  - destruct (proj1 (Hr r) eq_refl) as [Hacc ->].
    change (cf_ServerPeer (without_nonce config)) with (cf_ServerPeer config).
    destruct (handshakeTranscript request (agreed config request) (cf_ServerPeer config)) as [t|]; cbn [fst].
    + split; [intros [= <-]; by eauto|]. by intros (_ & t' & [= <-] & ->).
    + split; [done|]. by intros (_ & t' & ? & _).
  - split; [done|]. intros (Hacc & _). by pose proof (proj2 (Hr _) (conj Hacc eq_refl)).
Qed.

Lemma handshakeTranscript_proof request response proof server :
  handshakeTranscript request (with_proof response proof) server = handshakeTranscript request response server.
Proof using Type. done. Qed.

Lemma verify_proof nonce request response server transcript :
  zlen nonce = NonceSize -> handshakeTranscript request response server = Ok transcript ->
  VerifyNonceProof nonce request (with_proof response (hmac_sha256 nonce transcript)) server = true.
Proof using Type.
  intros Hn Ht. unfold VerifyNonceProof. rewrite handshakeTranscript_proof, Ht, Hn. cbn [with_proof rs_NonceProof].
  unfold zlen. rewrite length_hmac_sha256. cbn. by apply hmac_Equal_refl.
Qed.

Lemma verify_ok nonce request response server :
  VerifyNonceProof nonce request response server = true ->
  exists transcript, handshakeTranscript request response server = Ok transcript /\
    rs_NonceProof response = hmac_sha256 nonce transcript.
Proof using Type.
  unfold VerifyNonceProof. case_match; [done|]. destruct (handshakeTranscript _ _ _) as [t|]; [|done].
  intros ?%hmac_Equal_true. by exists t.
Qed.

Lemma version_eq v v' : Major v = Major v' -> Minor v = Minor v' -> v = v'.
Proof using Type. destruct v, v'. cbn. by intros -> ->. Qed.

Lemma transcript_inj request response server request' response' server' :
  canon (transcript_value request response server) = canon (transcript_value request' response' server') ->
  nfc server = nfc server' /\ nfc (rq_Peer request) = nfc (rq_Peer request') /\
  rq_MinimumVersion request = rq_MinimumVersion request' /\
  rq_MaximumVersion request = rq_MaximumVersion request' /\
  rq_FeatureBitmap request = rq_FeatureBitmap request' /\
  rq_MaximumFrameSize request = rq_MaximumFrameSize request' /\
  rq_DescriptorDigest request = rq_DescriptorDigest request' /\
  nfc (id_value (rq_SandboxID request)) = nfc (id_value (rq_SandboxID request')) /\
  rq_SandboxGeneration request = rq_SandboxGeneration request' /\
  rs_SelectedVersion response = rs_SelectedVersion response' /\
  rs_FeatureBitmap response = rs_FeatureBitmap response' /\
  rs_MaximumFrameSize response = rs_MaximumFrameSize response' /\
  rs_DescriptorDigest response = rs_DescriptorDigest response'.
Proof using NL.
  unfold transcript_value. intros Hc.
  assert (canon (VMap (transcript_fields request response server)) =
          canon (VMap (transcript_fields request' response' server'))) as Hm.
  { cbn [canon map] in Hc |- *. congruence. }
  apply canon_record_inj in Hm; [|done| |].
  - unfold transcript_fields in Hm. cbn [map snd] in Hm.
    injection Hm. intros. split_and!; try done; first [lia|apply version_eq; lia].
  - cbn [map transcript_fields fst]. forall_list; by apply nfc_ascii.
  - cbn [map transcript_fields fst]. apply (bool_decide_unpack _). vm_compute. reflexivity.
Qed.

(** Negotiation is exact.  On a configured, unconsumed negotiator a request is
    answered if and only if it satisfies every condition of the configuration
    (and its transcript can be encoded); the answer is the highest common version,
    the common features, which include the required ones, and the smaller frame
    size, within both sides' bounds, and its proof verifies under the nonce. *)
Theorem negotiate_exact config ng request response :
  NewSandboxNegotiator config = Ok ng ->
  ((Negotiate (Some ng) request).1 = Ok response <->
   acceptable config (cf_OneTimeNonce config) request /\
   exists transcript,
     handshakeTranscript request (agreed config request) (cf_ServerPeer config) = Ok transcript /\
     response = with_proof (agreed config request) (hmac_sha256 (cf_OneTimeNonce config) transcript)) /\
  ((Negotiate (Some ng) request).1 = Ok response ->
   VerifyNonceProof (cf_OneTimeNonce config) request response PeerSandboxd = true /\
   (Minor (cf_MinimumVersion config) <= Minor (rs_SelectedVersion response) <= Minor (cf_MaximumVersion config))%N /\
   (Minor (rq_MinimumVersion request) <= Minor (rs_SelectedVersion response) <= Minor (rq_MaximumVersion request))%N /\
   N.land (rs_FeatureBitmap response) (cf_RequiredFeatures config) = cf_RequiredFeatures config /\
   (cf_MinimumFrameSize config <= rs_MaximumFrameSize response <= cf_MaximumFrameSize config)%N).
Proof using Type.
  intros Hnew. apply negotiator_ok in Hnew as (Hserver & Hsub & Hlen & ->).
  assert (Hiff : (Negotiate (Some (MkNegotiator (without_nonce config) (cf_OneTimeNonce config) false)) request).1
     = Ok response <-> acceptable config (cf_OneTimeNonce config) request /\ exists transcript,
     handshakeTranscript request (agreed config request) (cf_ServerPeer config) = Ok transcript /\
     response = with_proof (agreed config request) (hmac_sha256 (cf_OneTimeNonce config) transcript)).
  { apply negotiate_ok. }
  split; [exact Hiff|]. rewrite Hiff. intros (Hacc & transcript & Ht & ->).
  destruct Hacc as (_ & _ & _ & _ & _ & _ & _ & Hv & Hreq & _ & Hf & _).
  split_and!; cbn [with_proof agreed rs_SelectedVersion rs_FeatureBitmap rs_MaximumFrameSize Minor]; try lia.
  - apply verify_proof; [by rewrite Hlen|]. by rewrite <- Hserver.
  - by rewrite <- N.land_assoc, (N.land_comm (cf_SupportedFeatures config)), Hsub.
Qed.

(** The proof binds the whole exchange: when one proof verifies under one nonce
    for two exchanges, they have the same server, the same request (its nonce
    apart) and the same answer, up to the normal form of the text, or they exhibit
    two messages with the same HMAC. *)
Theorem proof_binds_transcript nonce request response server request' response' server' :
  VerifyNonceProof nonce request response server = true ->
  VerifyNonceProof nonce request' response' server' = true ->
  rs_NonceProof response = rs_NonceProof response' ->
  (nfc server = nfc server' /\ nfc (rq_Peer request) = nfc (rq_Peer request') /\
   rq_MinimumVersion request = rq_MinimumVersion request' /\
   rq_MaximumVersion request = rq_MaximumVersion request' /\
   rq_FeatureBitmap request = rq_FeatureBitmap request' /\
   rq_MaximumFrameSize request = rq_MaximumFrameSize request' /\
   rq_DescriptorDigest request = rq_DescriptorDigest request' /\
   nfc (id_value (rq_SandboxID request)) = nfc (id_value (rq_SandboxID request')) /\
   rq_SandboxGeneration request = rq_SandboxGeneration request' /\
   response = response') \/
  (exists m m', m <> m' /\ hmac_sha256 nonce m = hmac_sha256 nonce m').
Proof using NL.
  intros (t & Ht & Hp)%verify_ok (t' & Ht' & Hp')%verify_ok Heq.
  destruct (decide (t = t')) as [<-|Hne]; [left|right; exists t, t'; by rewrite <- Hp, <- Hp'].
  pose proof (encode_inj _ _ DefaultOptions t default_int_options Ht Ht') as Hc.
  apply transcript_inj in Hc. destruct response, response'. simpl in *. naive_solver.
Qed.
End handshake.

(** ** Witnesses *)
#[local] Existing Instance id_normalizer.
#[local] Existing Instance id_normalizer_laws.

Definition sample_nonce : bytes := repeat one 32.
Definition sample_config : Config :=
  MkConfig PeerSandboxd PeerExecutord (MkVersion 1 0) (MkVersion 1 4) 14 6 1024 65536 (repeat one 32)
    (MkID "sandbox" "sandbox_x") 3 sample_nonce.
Definition sample_request : Request :=
  MkRequest PeerExecutord (MkVersion 1 1) (MkVersion 1 9) 30 4096 (repeat one 32) sample_nonce
    (MkID "sandbox" "sandbox_x") 3.
Definition sample_negotiator : Negotiator := MkNegotiator (without_nonce sample_config) sample_nonce false.
Definition sample_response : Response :=
  match (Negotiate (Some sample_negotiator) sample_request).1 with
  | Ok r => r
  | Err _ => agreed sample_config sample_request
  end.

Lemma negotiate_exact_witness :
  Minor (rs_SelectedVersion sample_response) = 4 /\
  VerifyNonceProof sample_nonce sample_request sample_response PeerSandboxd = true.
Proof.
  split; [vm_compute; reflexivity|].
  refine (proj1 (proj2 (negotiate_exact sample_config sample_negotiator sample_request sample_response _) _));
    vm_compute; reflexivity.
Defined.

Lemma proof_binds_transcript_witness :
  (rq_MinimumVersion sample_request = rq_MinimumVersion sample_request) \/
  exists m m', m <> m' /\ hmac_sha256 sample_nonce m = hmac_sha256 sample_nonce m'.
Proof.
  assert (Hp : VerifyNonceProof sample_nonce sample_request sample_response PeerSandboxd = true)
    by (vm_compute; reflexivity).
  destruct (proof_binds_transcript sample_nonce sample_request sample_response PeerSandboxd
    sample_request sample_response PeerSandboxd Hp Hp eq_refl)
    as [(_ & _ & Hv & _)|Hc]; [left; exact Hv|right; exact Hc].
Defined.
