(* ===== verification/ModelTypes.v ===== *)
(** * Model gateway data ([internal/modelgateway/types.go])

    The fields of an [Effect] that no transition changes are grouped in
    [Admission]; the enumerated strings are inductive types with a constructor for
    any other string, since a restored snapshot may hold one. *)

From S2P Require Import Prelude GoText Identity BrokerTypes.
#[local] Open Scope string_scope.
#[local] Open Scope list_scope.
#[local] Open Scope Z_scope.

Inductive model_error :=
| ErrInvalidConfiguration | ErrInvalidRequest | ErrInputLimit | ErrModelNotAllowed | ErrTokenLimit
| ErrQuotaExceeded | ErrQuotaMismatch | ErrQuotaConflict | ErrProviderUnavailable | ErrStaleAuthority
| ErrAuthorityMismatch | ErrInvalidTransition | ErrConcurrentTransition | ErrDispatchNotDurable
| ErrDurableRetrievalUnavailable | ErrEventLimit | ErrSettlementNotReady | ErrStateDependenciesNotDurable
| ContextError | DependencyError.
#[global] Instance model_error_eq_dec : EqDecision model_error.
Proof. solve_decision. Defined.

Record Generations := MkModelGenerations { mg_TurnLease : Z; mg_Placement : Z; mg_Policy : Z }.
#[global] Instance model_generations_eq_dec : EqDecision Generations.
Proof. solve_decision. Defined.

Record ValidatedAuthority := MkAuthority {
  va_TenantID : ID;
  va_UserID : ID;
  va_SessionID : ID;
  va_TurnID : ID;
  va_EffectID : ID;
  va_InvocationID : ID;
  va_RuntimeRevision : ID;
  va_Generations : Generations;
}.
#[global] Instance ValidatedAuthority_eq_dec : EqDecision ValidatedAuthority.
Proof. solve_decision. Defined.
Definition no_authority : ValidatedAuthority :=
  MkAuthority no_id no_id no_id no_id no_id no_id no_id (MkModelGenerations 0 0 0).

(** ** Requests and configuration *)
Record Message := MkMessage { m_Role : string; m_Content : string }.
#[global] Instance Message_eq_dec : EqDecision Message.
Proof. solve_decision. Defined.

(** [ModelRequest]; [mr_Effort] is [Reasoning.Effort]. *)
Record ModelRequest := MkModelRequest {
  mr_Model : string;
  mr_Messages : list Message;
  mr_MaxOutputTokens : Z;
  mr_Effort : string;
}.

Record Bounds := MkBounds {
  MaxAuthorityBytes : Z;
  MaxMessages : Z;
  MaxMessageBytes : Z;
  MaxInputBytes : Z;
  MaxModelBytes : Z;
  MaxProviderIDBytes : Z;
  MaxProviderRequestIDBytes : Z;
  MaxEventBytes : Z;
  MaxEvents : Z;
  MaxStreamBytes : Z;
  MaxResponseBytes : Z;
  MaxReasonBytes : Z;
}.

Record ModelGrant := MkGrant {
  gr_TenantID : ID;
  gr_UserID : ID;
  gr_Model : string;
  gr_ProviderID : string;
  gr_MaxContextTokens : Z;
  gr_MaxOutputTokens : Z;
  gr_MaxTotalTokens : Z;
  gr_MaxPreDispatchRetries : Z;
}.

Record QuotaPermit := MkQuotaPermit {
  qp_ReservationID : string;
  qp_Durable : bool;
  qp_TenantID : ID;
  qp_UserID : ID;
  qp_EffectID : ID;
  qp_InvocationID : ID;
  qp_SessionID : ID;
  qp_TurnID : ID;
  qp_RuntimeRevision : ID;
  qp_Generations : Generations;
  qp_RequestDigest : Digest;
  qp_ContextTokens : Z;
  qp_OutputTokens : Z;
}.
#[global] Instance QuotaPermit_eq_dec : EqDecision QuotaPermit.
Proof. solve_decision. Defined.

(** ** Effects *)
Inductive State :=
| StateAdmitted | StateDispatching | StateRetryPending | StateDispatched | StateStreaming
| StateCancellationPending | StateCompleted | StateFailed | StateCancelled | StateUncertain
| OtherState (s : string).
#[global] Instance model_state_eq_dec : EqDecision State.
Proof. solve_decision. Defined.

(** [NoOutcome] is the empty string. *)
Inductive Outcome :=
| NoOutcome | OutcomeCompleted | OutcomeFailed | OutcomeCancelled | OutcomeUncertain | OtherOutcome (s : string).
#[global] Instance Outcome_eq_dec : EqDecision Outcome.
Proof. solve_decision. Defined.

Record Usage := MkUsage { InputTokens : Z; OutputTokens : Z }.
#[global] Instance Usage_eq_dec : EqDecision Usage.
Proof. solve_decision. Defined.

(** [ToolCall]; [tc_Arguments] is [Arguments.encoded]. *)
Record ToolCall := MkToolCall {
  tc_ID : string;
  tc_Name : string;
  tc_Arguments : bytes;
  tc_Declared : bool;
  tc_Index : Z;
}.
#[global] Instance ToolCall_eq_dec : EqDecision ToolCall.
Proof. solve_decision. Defined.

Record ModelResponse := MkModelResponse {
  r_Text : string;
  r_FinishReason : string;
  r_Usage : Usage;
  r_ToolCalls : list ToolCall;
}.
#[global] Instance ModelResponse_eq_dec : EqDecision ModelResponse.
Proof. solve_decision. Defined.

Record CancellationPermit := MkCancellation {
  cp_Proof : Digest;
  cp_Durable : bool;
  cp_CurrentScope : ValidatedAuthority;
  cp_EffectID : ID;
  cp_InvocationID : ID;
  cp_RequestDigest : Digest;
  cp_ProviderID : string;
  cp_ProviderRequestID : string;
  cp_Attempt : Z;
  cp_EffectRevision : Z;
  cp_DispatchPrevented : bool;
}.
#[global] Instance CancellationPermit_eq_dec : EqDecision CancellationPermit.
Proof. solve_decision. Defined.
Definition no_cancellation : CancellationPermit :=
  MkCancellation zero_digest false no_authority no_id no_id zero_digest "" "" 0 0 false.

Record ResumePermit := MkResume {
  rp_Proof : Digest;
  rp_Durable : bool;
  rp_OriginScope : ValidatedAuthority;
  rp_CurrentScope : ValidatedAuthority;
  rp_EffectID : ID;
  rp_InvocationID : ID;
  rp_RequestDigest : Digest;
  rp_ProviderID : string;
  rp_ProviderRequestID : string;
  rp_Attempt : Z;
  rp_EffectRevision : Z;
}.
#[global] Instance ResumePermit_eq_dec : EqDecision ResumePermit.
Proof. solve_decision. Defined.
Definition no_resume : ResumePermit :=
  MkResume zero_digest false no_authority no_authority no_id no_id zero_digest "" "" 0 0.

Record Admission := MkAdmission {
  ad_Scope : ValidatedAuthority;
  ad_RequestDigest : Digest;
  ad_Request : ModelRequest;
  ad_ProviderID : string;
  ad_QuotaPermit : QuotaPermit;
  ad_ContextTokens : Z;
  ad_RequestedOutputTokens : Z;
  ad_MaxContextTokens : Z;
  ad_MaxTotalTokens : Z;
  ad_MaxPreDispatchRetries : Z;
  ad_DurableRequestRetrieval : bool;
}.

Record Effect := MkEffect {
  ef_Admission : Admission;
  ef_State : State;
  ef_Outcome : Outcome;
  ef_Revision : Z;
  ef_Attempt : Z;
  ef_EventCount : Z;
  ef_EventBytes : Z;
  ef_StreamBytes : Z;
  ef_ProviderRequestID : string;
  ef_PartialOutput : bool;
  ef_FailureReason : string;
  ef_Response : option ModelResponse;
  ef_CancellationPermit : CancellationPermit;
  ef_RecoveryPermit : ResumePermit;
}.

(** ** Events *)
Inductive FailureClass :=
| NoFailure | FailurePreDispatch | FailureProviderRejected | FailureTransportUnknown | FailureAfterPartial
| OtherFailure (s : string).
#[global] Instance FailureClass_eq_dec : EqDecision FailureClass.
Proof. solve_decision. Defined.

Inductive EventKind :=
| EventBeginDispatch | EventProviderAccepted | EventDelta | EventResponseCompleted | EventDispatchFailed
| EventCancelRequested | EventCancellationResolved | OtherEvent (s : string).
#[global] Instance EventKind_eq_dec : EqDecision EventKind.
Proof. solve_decision. Defined.

Record Event := MkEvent {
  ev_ExpectedRevision : Z;
  ev_Kind : EventKind;
  ev_ProviderRequestID : string;
  ev_Delta : string;
  ev_Response : option ModelResponse;
  ev_Failure : FailureClass;
  ev_Reason : string;
  ev_DispatchPrevented : bool;
  ev_Cancellation : CancellationPermit;
  ev_Recovery : ResumePermit;
}.

(** The commands of a transition; their permits are the zero value here, the
    executor fills them in. *)
Record DispatchCommand := MkDispatchCommand {
  dc_ProviderID : string;
  dc_Scope : ValidatedAuthority;
  dc_EffectID : ID;
  dc_InvocationID : ID;
  dc_RequestDigest : Digest;
  dc_QuotaPermit : QuotaPermit;
  dc_Request : ModelRequest;
  dc_Attempt : Z;
}.

Record CancelCommand := MkCancelCommand {
  cx_ProviderID : string;
  cx_Scope : ValidatedAuthority;
  cx_EffectID : ID;
  cx_InvocationID : ID;
  cx_RequestDigest : Digest;
  cx_ProviderRequestID : string;
  cx_Attempt : Z;
}.

Record Transition := MkTransition {
  tr_Effect : Effect;
  tr_Dispatch : option DispatchCommand;
  tr_Cancel : option CancelCommand;
}.
