(* ===== verification/ModelGateway.v ===== *)
(** * Model gateway: configuration, snapshots and requests
    ([internal/modelgateway/gateway.go], [tool_calls.go], [executor.go])

    What a gateway accepts: its bounds and grants, a model request and its digest,
    the tool calls of a response, and [validateEffect], the well-formedness check
    of every snapshot the gateway is handed. *)

From S2P Require Import Prelude GoText GoCrypto Canonical Identity BrokerTypes ModelTypes.
#[local] Open Scope string_scope.
#[local] Open Scope list_scope.
#[local] Open Scope Z_scope.
#[local] Open Scope go_scope.

Definition hardMaxAuthorityBytes : Z := Z.shiftl 64 10.
Definition hardMaxMessages : Z := 4096.
Definition hardMaxMessageBytes : Z := Z.shiftl 1 20.
Definition hardMaxInputBytes : Z := Z.shiftl 8 20.
Definition hardMaxIdentifierBytes : Z := 256.
Definition hardMaxProviderRequestIDBytes : Z := 1024.
Definition hardMaxEventBytes : Z := Z.shiftl 1 20.
Definition hardMaxEvents : Z := Z.shiftl 1 20.
Definition hardMaxStreamBytes : Z := Z.shiftl 64 20.
Definition hardMaxResponseBytes : Z := Z.shiftl 64 20.
Definition hardMaxReasonBytes : Z := 4096.
Definition hardMaxPreDispatchRetries : Z := 16.
Definition defaultStreamCloseTimeout : Z := 5 * 1000000000.
Definition maximumStreamCloseTimeout : Z := 5 * 60 * 1000000000.

(** [identifierPattern]: a letter or digit, then letters, digits and [._:/-]. *)
Definition is_alnum (b : ascii) : bool :=
  in_range 48 57 (byte_val b) || in_range 65 90 (byte_val b) || in_range 97 122 (byte_val b).
Definition is_identifier_byte (b : ascii) : bool :=
  is_alnum b || existsb (Ascii.eqb b) (to_bytes "._:/-").
Definition matches_identifier (s : string) : bool :=
  match to_bytes s with
  | b :: rest => is_alnum b && forallb is_identifier_byte rest
  | [] => false
  end.

(** ** Configuration *)
Abbreviation grantKey := (ID * ID * string)%type.

Record Gateway := MkGateway {
  gw_bounds : Bounds;
  gw_streamCloseTimeout : Z;
  gw_grants : gmap grantKey ModelGrant;
  gw_providers : gset string;
}.

Definition bad_bound (value hard : Z) : bool := (value =? 0) || (hard <? value).

Definition invalid_bounds (b : Bounds) : bool :=
  bad_bound (MaxAuthorityBytes b) hardMaxAuthorityBytes || bad_bound (MaxMessages b) hardMaxMessages
  || bad_bound (MaxMessageBytes b) hardMaxMessageBytes || bad_bound (MaxInputBytes b) hardMaxInputBytes
  || bad_bound (MaxModelBytes b) hardMaxIdentifierBytes || bad_bound (MaxProviderIDBytes b) hardMaxIdentifierBytes
  || bad_bound (MaxProviderRequestIDBytes b) hardMaxProviderRequestIDBytes
  || bad_bound (MaxEventBytes b) hardMaxEventBytes || bad_bound (MaxEvents b) hardMaxEvents
  || bad_bound (MaxStreamBytes b) hardMaxStreamBytes || bad_bound (MaxResponseBytes b) hardMaxResponseBytes
  || bad_bound (MaxReasonBytes b) hardMaxReasonBytes
  || (MaxInputBytes b <? MaxMessageBytes b) || (MaxEvents b <? 4).

Definition invalid_grant (b : Bounds) (grant : ModelGrant) : bool :=
  (id_kind (gr_TenantID grant) != "tenant") || (id_kind (gr_UserID grant) != "subject")
  || negb (matches_identifier (gr_Model grant)) || (MaxModelBytes b <? strlen (gr_Model grant))
  || negb (matches_identifier (gr_ProviderID grant)) || (MaxProviderIDBytes b <? strlen (gr_ProviderID grant))
  || (gr_MaxContextTokens grant =? 0) || (gr_MaxOutputTokens grant =? 0) || (gr_MaxTotalTokens grant =? 0)
  || (gr_MaxTotalTokens grant <? gr_MaxContextTokens grant) || (gr_MaxTotalTokens grant <? gr_MaxOutputTokens grant)
  || (hardMaxPreDispatchRetries <? gr_MaxPreDispatchRetries grant)
  || (MaxEvents b <? gr_MaxPreDispatchRetries grant * 2 + 4).

Fixpoint add_grants (b : Bounds) (providers : gset string) (grants : list ModelGrant)
    (acc : gmap grantKey ModelGrant) : res model_error (gmap grantKey ModelGrant) :=
  match grants with
  | [] => Ok acc
  | grant :: rest =>
      _ ← reject_if (invalid_grant b grant) ErrInvalidConfiguration;
      _ ← reject_if (bool_decide (gr_ProviderID grant ∉ providers)) ErrInvalidConfiguration;
      let key := (gr_TenantID grant, gr_UserID grant, gr_Model grant) in
      match acc !! key with
      | Some _ => Err ErrInvalidConfiguration
      | None => add_grants b providers rest (<[key := grant]> acc)
      end
  end.

(** [newGatewayConfiguration]; the registry is the names with whether the provider
    is nil, and durations are nanoseconds. *)
Definition newGatewayConfiguration (bounds : Bounds) (streamCloseTimeout : Z) (grants : list ModelGrant)
    (registry : list (string * bool)) : res model_error Gateway :=
  let timeout := if streamCloseTimeout =? 0 then defaultStreamCloseTimeout else streamCloseTimeout in
  _ ← reject_if ((timeout <=? 0) || (maximumStreamCloseTimeout <? timeout)) ErrInvalidConfiguration;
  _ ← reject_if (invalid_bounds bounds) ErrInvalidConfiguration;
  _ ← reject_if (existsb (fun p => negb (matches_identifier p.1) || (MaxProviderIDBytes bounds <? strlen p.1) || p.2)
                   registry) ErrInvalidConfiguration;
  _ ← reject_if (zlen grants =? 0) ErrInvalidConfiguration;
  let providers := list_to_set (map fst registry) in
  table ← add_grants bounds providers grants ∅;
  Ok (MkGateway bounds timeout table providers).

(** ** Requests *)
Definition valid_role (role : string) : bool :=
  (role == "system") || (role == "user") || (role == "assistant") || (role == "tool").

Definition normalizeReasoningOptions (effort : string) : res model_error string :=
  let effort := if effort == "" then "default" else effort in
  if (effort == "default") || (effort == "disabled") || (effort == "low") || (effort == "medium") || (effort == "high")
  then Ok effort else Err ErrInvalidRequest.

Definition validFinishReason (reason : string) : bool :=
  (reason == "stop") || (reason == "length") || (reason == "tool_calls") || (reason == "content_filter")
  || (reason == "cancelled") || (reason == "other").

Section Requests.
Context {NZ : Normalizer}.

(** The loop over the messages; [bad] is the error of a content that is too long
    or malformed. *)
Fixpoint check_messages (maxMessage maxInput inputBytes : Z) (bad : model_error) (messages : list Message)
    : res model_error unit :=
  match messages with
  | [] => Ok tt
  | message :: rest =>
      _ ← reject_if (negb (valid_role (m_Role message))) ErrInvalidRequest;
      let content := m_Content message in
      _ ← reject_if ((content == "") || negb (utf8_ValidString content) || (nfc content != content)
                     || (maxMessage <? strlen content)) bad;
      _ ← reject_if (maxInput - inputBytes <? strlen content) ErrInputLimit;
      check_messages maxMessage maxInput (inputBytes + strlen content) bad rest
  end.

Definition validateModelRequest (b : Bounds) (request : ModelRequest) : res model_error unit :=
  _ ← reject_if (negb (matches_identifier (mr_Model request)) || (MaxModelBytes b <? strlen (mr_Model request))
                 || (mr_MaxOutputTokens request =? 0) || (zlen (mr_Messages request) =? 0)
                 || (MaxMessages b <? zlen (mr_Messages request))) ErrInvalidRequest;
  _ ← normalizeReasoningOptions (mr_Effort request);
  check_messages (MaxMessageBytes b) (MaxInputBytes b) 0 ErrInputLimit (mr_Messages request).

Definition request_value (request : ModelRequest) (effort : string) : Value :=
  VMap [ ("model", VString (mr_Model request));
         ("messages", VArray (map (fun m => VArray [VString (m_Role m); VString (m_Content m)]) (mr_Messages request)));
         ("maxOutputTokens", VUint KUint64 (Z.to_N (mr_MaxOutputTokens request)));
         ("reasoning", VMap [("effort", VString effort)]) ].

(** [strings.TrimPrefix(value, "sha256:")] of a digest, which has the prefix. *)
Definition trim_sha256 (value : string) : string :=
  if bool_decide (take 7 (to_bytes value) = to_bytes "sha256:") then of_bytes (drop 7 (to_bytes value)) else value.

Definition ModelRequestDigest (request : ModelRequest) : res model_error Digest :=
  _ ← reject_if (negb (matches_identifier (mr_Model request)) || (hardMaxIdentifierBytes <? strlen (mr_Model request))
                 || (mr_MaxOutputTokens request =? 0) || (zlen (mr_Messages request) =? 0)
                 || (hardMaxMessages <? zlen (mr_Messages request))) ErrInvalidRequest;
  effort ← normalizeReasoningOptions (mr_Effort request);
  _ ← check_messages hardMaxMessageBytes hardMaxInputBytes 0 ErrInvalidRequest (mr_Messages request);
  value ← wrap_err ErrInvalidRequest (StructuredDigest "model.request" 2 (request_value request effort));
  match hex_DecodeString (trim_sha256 value) with
  | Some decoded => if zlen decoded =? 32 then Ok decoded else Err ErrInvalidRequest
  | None => Err ErrInvalidRequest
  end.

(** ** Tool calls

    [pijson_DecodeValue] stands for the walk of [internal/pijson] over a decoded
    value, which compares numbers with the shortest decimals of [encoding/json];
    nothing here depends on which values it accepts. *)
Variable pijson_DecodeValue : Value -> bool.

Definition decodeToolArgumentJSON (encoded : bytes) : bool :=
  if (zlen encoded =? 0) || (hardMaxEventBytes <? zlen encoded) then false
  else match Decode encoded {| MaxDepth := MaxDepth DefaultOptions; MaxBytes := hardMaxEventBytes;
                               MaxItems := MaxItems DefaultOptions |} with
  | Ok value => pijson_DecodeValue value
  | Err _ => false
  end.

(** [validateCanonicalToolArguments]; its errors are all [ErrInvalidRequest]. *)
Definition validateCanonicalToolArguments (encoded : bytes) : bool :=
  if (zlen encoded =? 0) || (hardMaxEventBytes <? zlen encoded) then false else decodeToolArgumentJSON encoded.

Definition call_bytes (call : ToolCall) : Z :=
  u64 (u64 (u64 (strlen (tc_ID call) + strlen (tc_Name call)) + zlen (tc_Arguments call)) + 9).

(** The loop over the calls: their total size. *)
Fixpoint check_calls (declaredOrder : bool) (index totalBytes : Z) (seen : gset string) (calls : list ToolCall)
    : res model_error Z :=
  match calls with
  | [] => Ok totalBytes
  | call :: rest =>
      _ ← reject_if (negb (matches_identifier (tc_ID call)) || (hardMaxProviderRequestIDBytes <? strlen (tc_ID call))
                     || negb (matches_identifier (tc_Name call)) || (hardMaxIdentifierBytes <? strlen (tc_Name call))
                     || (tc_Declared call != declaredOrder) || (negb (tc_Declared call) && (tc_Index call != 0))
                     || (tc_Declared call && (tc_Index call != u32 index))) ErrInvalidRequest;
      _ ← reject_if (bool_decide (tc_ID call ∈ seen)) ErrInvalidRequest;
      _ ← reject_if (negb (validateCanonicalToolArguments (tc_Arguments call))) ErrInvalidRequest;
      _ ← reject_if (u64_max - totalBytes <? call_bytes call) ErrEventLimit;
      check_calls declaredOrder (index + 1) (totalBytes + call_bytes call) ({[tc_ID call]} ∪ seen) rest
  end.

(** The stable sort compares identities first; they are distinct here, so the
    comparisons of names and arguments are not reached. *)
Definition sort_calls (calls : list ToolCall) : list ToolCall :=
  sort_by bytes_lt (fun call => to_bytes (tc_ID call)) calls.

Definition normalizeToolCalls (calls : list ToolCall) : res model_error (list ToolCall * Z) :=
  match calls with
  | [] => Ok ([], 0)
  | first :: _ =>
      _ ← reject_if (hardMaxEvents <? zlen calls) ErrEventLimit;
      total ← check_calls (tc_Declared first) 0 0 ∅ calls;
      Ok (if tc_Declared first then calls else sort_calls calls, total)
  end.
End Requests.

(** ** Permits bound to a snapshot *)
Definition sameAuthorityIdentity (left right : ValidatedAuthority) : bool :=
  (va_TenantID left == va_TenantID right) && (va_UserID left == va_UserID right)
  && (va_SessionID left == va_SessionID right) && (va_TurnID left == va_TurnID right)
  && (va_EffectID left == va_EffectID right) && (va_InvocationID left == va_InvocationID right)
  && (va_RuntimeRevision left == va_RuntimeRevision right).

Definition generations_set (scope : ValidatedAuthority) : bool :=
  (mg_TurnLease (va_Generations scope) != 0) && (mg_Placement (va_Generations scope) != 0)
  && (mg_Policy (va_Generations scope) != 0).

Definition validCancellationPermit (effect : Effect) (permit : CancellationPermit) : bool :=
  let ad := ef_Admission effect in
  let revisionBound :=
    (cp_EffectRevision permit == ef_Revision effect)
    || (ef_CancellationPermit effect != no_cancellation) && (permit == ef_CancellationPermit effect)
       && (cp_EffectRevision permit <? ef_Revision effect) && (u64 (cp_EffectRevision permit + 1) =? ef_Revision effect) in
  cp_Durable permit && (cp_Proof permit != zero_digest) && (cp_EffectID permit == va_EffectID (ad_Scope ad))
  && (cp_InvocationID permit == va_InvocationID (ad_Scope ad)) && (cp_RequestDigest permit == ad_RequestDigest ad)
  && (cp_ProviderID permit == ad_ProviderID ad) && (cp_ProviderRequestID permit == ef_ProviderRequestID effect)
  && (cp_Attempt permit == ef_Attempt effect) && revisionBound
  && sameAuthorityIdentity (cp_CurrentScope permit) (ad_Scope ad) && generations_set (cp_CurrentScope permit).

Definition validResumePermit (effect : Effect) (permit : ResumePermit) : bool :=
  let ad := ef_Admission effect in
  let revisionBound :=
    (rp_EffectRevision permit == ef_Revision effect)
    || (ef_RecoveryPermit effect != no_resume) && (permit == ef_RecoveryPermit effect) in
  rp_Durable permit && (rp_Proof permit != zero_digest) && (rp_OriginScope permit == ad_Scope ad)
  && (rp_EffectID permit == va_EffectID (ad_Scope ad))
  && (rp_InvocationID permit == va_InvocationID (ad_Scope ad)) && (rp_RequestDigest permit == ad_RequestDigest ad)
  && (rp_ProviderID permit == ad_ProviderID ad) && (rp_ProviderRequestID permit == ef_ProviderRequestID effect)
  && (rp_Attempt permit == ef_Attempt effect) && revisionBound
  && sameAuthorityIdentity (rp_CurrentScope permit) (ad_Scope ad) && generations_set (rp_CurrentScope permit).

(** [normalizedFailureReason] *)
Definition failure_text (class : FailureClass) : string :=
  match class with
  | FailurePreDispatch => "provider dispatch definitely not sent"
  | FailureProviderRejected => "provider request rejected"
  | FailureTransportUnknown => "provider dispatch outcome unknown"
  | FailureAfterPartial => "provider stream interrupted after partial output"
  | _ => "provider request failed"
  end.
Definition normalizedFailureReason (b : Bounds) (class : FailureClass) : string :=
  let limit := Z.min (MaxReasonBytes b) (MaxEventBytes b) in
  if limit <? strlen (failure_text class) then of_bytes (repeat "?"%char (Z.to_nat limit)) else failure_text class.

Definition minimumTerminalEvents (effect : Effect) : Z :=
  let durable := ad_DurableRequestRetrieval (ef_Admission effect) in
  match ef_State effect with
  | StateDispatching => if durable then 4 else 3
  | StateDispatched | StateStreaming => if durable then 3 else 2
  | StateCancellationPending => if durable then 2 else 1
  | StateAdmitted | StateRetryPending => 1
  | _ => 0
  end.

(** ** [validateEffect] *)
Section Validate.
Context {NZ : Normalizer}.
Variable pijson_DecodeValue : Value -> bool.

Definition invalid_scope (scope : ValidatedAuthority) : bool :=
  (id_kind (va_TenantID scope) != "tenant") || (id_kind (va_UserID scope) != "subject")
  || (id_kind (va_SessionID scope) != "sess") || (id_kind (va_TurnID scope) != "turn")
  || (id_kind (va_EffectID scope) != "effect") || (id_kind (va_InvocationID scope) != "inv")
  || (id_kind (va_RuntimeRevision scope) != "runtime") || (mg_TurnLease (va_Generations scope) =? 0)
  || (mg_Placement (va_Generations scope) =? 0) || (mg_Policy (va_Generations scope) =? 0).

Definition invalid_counters (b : Bounds) (effect : Effect) : bool :=
  (ef_Revision effect =? 0) || (ef_Revision effect != u64 (ef_EventCount effect + 1))
  || (MaxEvents b <? ef_EventCount effect)
  || (u64 (ef_EventCount effect * MaxEventBytes b) <? ef_EventBytes effect)
  || (MaxStreamBytes b <? ef_StreamBytes effect)
  || (u32 (ad_MaxPreDispatchRetries (ef_Admission effect) + 1) <? ef_Attempt effect).

Definition quota_matches (ad : Admission) : bool :=
  let permit := ad_QuotaPermit ad in
  let scope := ad_Scope ad in
  qp_Durable permit && (qp_ReservationID permit != "") && (strlen (qp_ReservationID permit) <=? 256)
  && utf8_ValidString (qp_ReservationID permit) && negb (has_control (qp_ReservationID permit))
  && (qp_TenantID permit == va_TenantID scope) && (qp_UserID permit == va_UserID scope)
  && (qp_EffectID permit == va_EffectID scope) && (qp_InvocationID permit == va_InvocationID scope)
  && (qp_SessionID permit == va_SessionID scope) && (qp_TurnID permit == va_TurnID scope)
  && (qp_RuntimeRevision permit == va_RuntimeRevision scope) && (qp_Generations permit == va_Generations scope)
  && (qp_RequestDigest permit == ad_RequestDigest ad) && (qp_ContextTokens permit == ad_ContextTokens ad)
  && (qp_OutputTokens permit == ad_RequestedOutputTokens ad).

(** The checks on the fields that never change, after those on the counters. *)
Definition validate_admission (gw : Gateway) (ad : Admission) : res model_error unit :=
  let b := gw_bounds gw in
  _ ← wrap_err ErrInvalidRequest (validateModelRequest b (ad_Request ad));
  _ ← reject_if (bool_decide (normalizeReasoningOptions (mr_Effort (ad_Request ad)) <> Ok (mr_Effort (ad_Request ad))))
        ErrInvalidRequest;
  _ ← reject_if (bool_decide (ModelRequestDigest (ad_Request ad) <> Ok (ad_RequestDigest ad))) ErrInvalidRequest;
  match gw_grants gw !! (va_TenantID (ad_Scope ad), va_UserID (ad_Scope ad), mr_Model (ad_Request ad)) with
  | None => Err ErrInvalidRequest
  | Some grant =>
      _ ← reject_if ((gr_ProviderID grant != ad_ProviderID ad) || (gr_MaxContextTokens grant != ad_MaxContextTokens ad)
                     || (gr_MaxTotalTokens grant != ad_MaxTotalTokens ad)
                     || (gr_MaxPreDispatchRetries grant != ad_MaxPreDispatchRetries ad)
                     || (gr_MaxContextTokens grant <? ad_ContextTokens ad) || (ad_RequestedOutputTokens ad =? 0)
                     || (gr_MaxOutputTokens grant <? ad_RequestedOutputTokens ad)
                     || (gr_MaxTotalTokens grant <? ad_ContextTokens ad)
                     || (u64 (gr_MaxTotalTokens grant - ad_ContextTokens ad) <? ad_RequestedOutputTokens ad)
                     || (mr_MaxOutputTokens (ad_Request ad) != ad_RequestedOutputTokens ad)) ErrInvalidRequest;
      reject_if (negb (matches_identifier (ad_ProviderID ad)) || (MaxProviderIDBytes b <? strlen (ad_ProviderID ad))
                 || negb (quota_matches ad)) ErrQuotaMismatch
  end.

Definition failure_classes : list FailureClass :=
  [FailurePreDispatch; FailureProviderRejected; FailureTransportUnknown; FailureAfterPartial].

Definition invalid_texts (b : Bounds) (effect : Effect) : bool :=
  let id := ef_ProviderRequestID effect in
  let reason := ef_FailureReason effect in
  (id != "") && (negb (utf8_ValidString id) || has_control id || (MaxProviderRequestIDBytes b <? strlen id)
                 || (MaxEventBytes b <? strlen id))
  || (reason != "") && (negb (utf8_ValidString reason) || has_control reason || (MaxReasonBytes b <? strlen reason))
  || (reason != "") && negb (existsb (fun class => reason == normalizedFailureReason b class) failure_classes).

Definition invalid_permits (effect : Effect) : bool :=
  (ef_CancellationPermit effect != no_cancellation)
  && negb (validCancellationPermit effect (ef_CancellationPermit effect))
  || (ef_RecoveryPermit effect != no_resume) && negb (validResumePermit effect (ef_RecoveryPermit effect)).

(** The checks on a response, which give the bytes it accounts for. *)
Definition validate_response (b : Bounds) (effect : Effect) (response : ModelResponse) (accounted : Z)
    : res model_error Z :=
  let ad := ef_Admission effect in
  let usage := r_Usage response in
  _ ← reject_if (ad_ContextTokens ad <? InputTokens usage) ErrQuotaMismatch;
  match normalizeToolCalls pijson_DecodeValue (r_ToolCalls response) with
  | Err _ => Err ErrInvalidRequest
  | Ok (normalizedCalls, toolCallBytes) =>
      _ ← reject_if (normalizedCalls != r_ToolCalls response) ErrInvalidRequest;
      _ ← reject_if (negb (utf8_ValidString (r_Text response)) || (MaxResponseBytes b <? strlen (r_Text response))
                     || negb (validFinishReason (r_FinishReason response))
                     || (MaxReasonBytes b <? strlen (r_FinishReason response))
                     || (usage != MkUsage (ad_ContextTokens ad) (ad_RequestedOutputTokens ad))
                     || (ad_MaxContextTokens ad <? InputTokens usage)
                     || (ad_RequestedOutputTokens ad <? OutputTokens usage)
                     || (ad_MaxTotalTokens ad <? InputTokens usage)
                     || (u64 (ad_MaxTotalTokens ad - InputTokens usage) <? OutputTokens usage)) ErrInvalidRequest;
      let responseBytes := u64 (strlen (r_Text response) + strlen (r_FinishReason response)) in
      _ ← reject_if ((u64_max - responseBytes <? toolCallBytes)
                     || (MaxResponseBytes b <? u64 (responseBytes + toolCallBytes))
                     || (u64_max - accounted <? u64 (responseBytes + toolCallBytes))) ErrInvalidRequest;
      Ok (u64 (accounted + u64 (responseBytes + toolCallBytes)))
  end.

Definition validate_bytes (b : Bounds) (effect : Effect) : res model_error unit :=
  _ ← reject_if ((ef_PartialOutput effect && (ef_StreamBytes effect =? 0))
                 || (negb (ef_PartialOutput effect) && negb (ef_StreamBytes effect =? 0))) ErrInvalidRequest;
  let accounted := u64 (u64 (ef_StreamBytes effect + strlen (ef_ProviderRequestID effect))
                        + strlen (ef_FailureReason effect)) in
  accounted ← match ef_Response effect with
              | None => Ok accounted
              | Some response => validate_response b effect response accounted
              end;
  _ ← reject_if (ef_EventBytes effect <? accounted) ErrInvalidRequest;
  reject_if (u64_max - MaxEventBytes b <? ef_EventBytes effect) ErrInvalidRequest.

(** The [switch effect.State]: what must not hold in each state. *)
Definition invalid_state (effect : Effect) : bool :=
  let outcome := ef_Outcome effect in
  let id := ef_ProviderRequestID effect in
  let partial := ef_PartialOutput effect in
  let reason := ef_FailureReason effect in
  let answered := bool_decide (ef_Response effect <> None) in
  let cancellation := ef_CancellationPermit effect in
  let recovery := ef_RecoveryPermit effect in
  match ef_State effect with
  | StateAdmitted =>
      (outcome != NoOutcome) || negb (ef_Attempt effect =? 0) || negb (ef_EventCount effect =? 0) || (id != "")
      || partial || (reason != "") || answered || (cancellation != no_cancellation) || (recovery != no_resume)
  | StateDispatching =>
      (outcome != NoOutcome) || (ef_Attempt effect =? 0) || (id != "") || partial || (reason != "") || answered
      || (cancellation != no_cancellation) || (recovery != no_resume)
  | StateRetryPending =>
      (outcome != NoOutcome) || (ef_Attempt effect =? 0) || (id != "") || partial || (reason == "") || answered
      || (cancellation != no_cancellation) || (recovery != no_resume)
  | StateDispatched =>
      (outcome != NoOutcome) || (ef_Attempt effect =? 0) || (id == "") || partial || (reason != "") || answered
      || (cancellation != no_cancellation) || (recovery != no_resume)
  | StateStreaming =>
      (outcome != NoOutcome) || (ef_Attempt effect =? 0) || (id == "") || negb partial || (reason != "") || answered
      || (cancellation != no_cancellation)
  | StateCancellationPending =>
      (outcome != NoOutcome) || (ef_Attempt effect =? 0) || answered || (partial && (id == ""))
      || (cancellation != no_cancellation) || (recovery != no_resume)
  | StateCompleted =>
      (outcome != OutcomeCompleted) || (ef_Attempt effect =? 0) || (id == "") || (reason != "") || negb answered
      || (cancellation != no_cancellation)
  | StateFailed =>
      (outcome != OutcomeFailed) || (ef_Attempt effect =? 0) || partial || (reason == "") || answered
      || (cancellation != no_cancellation)
  | StateCancelled =>
      (outcome != OutcomeCancelled) || (id != "") || partial || (reason != "") || answered || (recovery != no_resume)
      || (cancellation != no_cancellation) && negb (cp_DispatchPrevented cancellation)
  | StateUncertain =>
      (outcome != OutcomeUncertain) || (ef_Attempt effect =? 0) || answered || (partial && (id == ""))
      || (cancellation != no_cancellation) && cp_DispatchPrevented cancellation
      || (cancellation != no_cancellation) && (recovery != no_resume)
  | OtherState _ => true
  end.

Definition over_budget (b : Bounds) (effect : Effect) : bool :=
  (ef_Outcome effect == NoOutcome) && (MaxEvents b <? ef_EventCount effect + minimumTerminalEvents effect).

Definition validateEffect (gw : Gateway) (effect : Effect) : res model_error unit :=
  let b := gw_bounds gw in
  let ad := ef_Admission effect in
  _ ← reject_if (invalid_scope (ad_Scope ad) || (ad_RequestDigest ad == zero_digest) || invalid_counters b effect)
        ErrInvalidRequest;
  _ ← validate_admission gw ad;
  _ ← reject_if (invalid_texts b effect) ErrInvalidRequest;
  _ ← reject_if (invalid_permits effect) ErrInvalidRequest;
  _ ← validate_bytes b effect;
  _ ← reject_if (invalid_state effect) ErrInvalidRequest;
  reject_if (over_budget b effect) ErrInvalidRequest.
End Validate.
