(* ===== verification/ModelMachine.v ===== *)
(** * Model gateway: the effect state machine ([internal/modelgateway/machine.go])

    [Apply] in the order of the code: the snapshot, the revision and the event
    limit, the shape of the event ([check_event], which also normalises it and
    counts its bytes), the recovery permit ([check_recovery]), the transition
    ([next_effect]) and the event budget. *)

From S2P Require Import Prelude GoText GoCrypto Canonical Identity BrokerTypes ModelTypes ModelGateway.
#[local] Open Scope string_scope.
#[local] Open Scope list_scope.
#[local] Open Scope Z_scope.
#[local] Open Scope go_scope.

(** ** Assignments to the fields of an effect and of an event *)
Definition set_state (s : State) (o : Outcome) (e : Effect) : Effect :=
  MkEffect (ef_Admission e) s o (ef_Revision e) (ef_Attempt e) (ef_EventCount e) (ef_EventBytes e) (ef_StreamBytes e)
    (ef_ProviderRequestID e) (ef_PartialOutput e) (ef_FailureReason e) (ef_Response e) (ef_CancellationPermit e)
    (ef_RecoveryPermit e).
Definition set_attempt (attempt : Z) (e : Effect) : Effect :=
  MkEffect (ef_Admission e) (ef_State e) (ef_Outcome e) (ef_Revision e) attempt (ef_EventCount e) (ef_EventBytes e)
    (ef_StreamBytes e) (ef_ProviderRequestID e) (ef_PartialOutput e) (ef_FailureReason e) (ef_Response e)
    (ef_CancellationPermit e) (ef_RecoveryPermit e).
Definition set_reason (reason : string) (e : Effect) : Effect :=
  MkEffect (ef_Admission e) (ef_State e) (ef_Outcome e) (ef_Revision e) (ef_Attempt e) (ef_EventCount e)
    (ef_EventBytes e) (ef_StreamBytes e) (ef_ProviderRequestID e) (ef_PartialOutput e) reason (ef_Response e)
    (ef_CancellationPermit e) (ef_RecoveryPermit e).
Definition set_provider_request (id : string) (e : Effect) : Effect :=
  MkEffect (ef_Admission e) (ef_State e) (ef_Outcome e) (ef_Revision e) (ef_Attempt e) (ef_EventCount e)
    (ef_EventBytes e) (ef_StreamBytes e) id (ef_PartialOutput e) (ef_FailureReason e) (ef_Response e)
    (ef_CancellationPermit e) (ef_RecoveryPermit e).
Definition set_stream (streamBytes : Z) (e : Effect) : Effect :=
  MkEffect (ef_Admission e) (ef_State e) (ef_Outcome e) (ef_Revision e) (ef_Attempt e) (ef_EventCount e)
    (ef_EventBytes e) streamBytes (ef_ProviderRequestID e) true (ef_FailureReason e) (ef_Response e)
    (ef_CancellationPermit e) (ef_RecoveryPermit e).
Definition set_response (response : ModelResponse) (e : Effect) : Effect :=
  MkEffect (ef_Admission e) (ef_State e) (ef_Outcome e) (ef_Revision e) (ef_Attempt e) (ef_EventCount e)
    (ef_EventBytes e) (ef_StreamBytes e) (ef_ProviderRequestID e) (ef_PartialOutput e) (ef_FailureReason e)
    (Some response) (ef_CancellationPermit e) (ef_RecoveryPermit e).
Definition set_cancellation (permit : CancellationPermit) (e : Effect) : Effect :=
  MkEffect (ef_Admission e) (ef_State e) (ef_Outcome e) (ef_Revision e) (ef_Attempt e) (ef_EventCount e)
    (ef_EventBytes e) (ef_StreamBytes e) (ef_ProviderRequestID e) (ef_PartialOutput e) (ef_FailureReason e)
    (ef_Response e) permit (ef_RecoveryPermit e).
Definition set_recovery (permit : ResumePermit) (e : Effect) : Effect :=
  MkEffect (ef_Admission e) (ef_State e) (ef_Outcome e) (ef_Revision e) (ef_Attempt e) (ef_EventCount e)
    (ef_EventBytes e) (ef_StreamBytes e) (ef_ProviderRequestID e) (ef_PartialOutput e) (ef_FailureReason e)
    (ef_Response e) (ef_CancellationPermit e) permit.
(** [next.Revision++; next.EventCount++; next.EventBytes += eventBytes] *)
Definition advance (eventBytes : Z) (e : Effect) : Effect :=
  MkEffect (ef_Admission e) (ef_State e) (ef_Outcome e) (u64 (ef_Revision e + 1)) (ef_Attempt e)
    (u32 (ef_EventCount e + 1)) (u64 (ef_EventBytes e + eventBytes)) (ef_StreamBytes e) (ef_ProviderRequestID e)
    (ef_PartialOutput e) (ef_FailureReason e) (ef_Response e) (ef_CancellationPermit e) (ef_RecoveryPermit e).

Definition event_with_response (response : ModelResponse) (ev : Event) : Event :=
  MkEvent (ev_ExpectedRevision ev) (ev_Kind ev) (ev_ProviderRequestID ev) (ev_Delta ev) (Some response) (ev_Failure ev)
    (ev_Reason ev) (ev_DispatchPrevented ev) (ev_Cancellation ev) (ev_Recovery ev).
Definition event_with_reason (reason : string) (ev : Event) : Event :=
  MkEvent (ev_ExpectedRevision ev) (ev_Kind ev) (ev_ProviderRequestID ev) (ev_Delta ev) (ev_Response ev) (ev_Failure ev)
    reason (ev_DispatchPrevented ev) (ev_Cancellation ev) (ev_Recovery ev).

Section Apply.
Context {NZ : Normalizer}.
Variable pijson_DecodeValue : Value -> bool.

(** [strings.IndexFunc(text, unicode.IsControl) >= 0] is [has_control]. *)
Definition bad_text (limit : Z) (text : string) : bool :=
  (text == "") || negb (utf8_ValidString text) || has_control text || (limit <? strlen text).

Definition has_response (ev : Event) : bool := bool_decide (ev_Response ev <> None).
Definition has_failure (ev : Event) : bool := ev_Failure ev != NoFailure.
Definition has_cancellation (ev : Event) : bool := ev_Cancellation ev != no_cancellation.
Definition has_recovery (ev : Event) : bool := ev_Recovery ev != no_resume.

(** The first [switch event.Kind]: the normalised event and [eventBytes]. *)
Definition check_completed (b : Bounds) (ev : Event) : res model_error (Event * Z) :=
  match ev_Response ev with
  | None => Err ErrInvalidRequest
  | Some response =>
      _ ← reject_if ((ev_ProviderRequestID ev != "") || (ev_Delta ev != "") || has_failure ev || (ev_Reason ev != "")
                     || ev_DispatchPrevented ev || has_cancellation ev
                     || negb (utf8_ValidString (r_Text response)) || (MaxResponseBytes b <? strlen (r_Text response))
                     || negb (validFinishReason (r_FinishReason response))
                     || (MaxReasonBytes b <? strlen (r_FinishReason response))) ErrInvalidRequest;
      _ ← reject_if (u64_max - strlen (r_FinishReason response) <? strlen (r_Text response)) ErrEventLimit;
      let responseBytes := u64 (strlen (r_Text response) + strlen (r_FinishReason response)) in
      '(normalizedCalls, toolCallBytes) ← normalizeToolCalls pijson_DecodeValue (r_ToolCalls response);
      _ ← reject_if (u64_max - responseBytes <? toolCallBytes) ErrEventLimit;
      let responseBytes := u64 (responseBytes + toolCallBytes) in
      _ ← reject_if (MaxResponseBytes b <? responseBytes) ErrEventLimit;
      Ok (event_with_response
            (MkModelResponse (r_Text response) (r_FinishReason response) (r_Usage response) normalizedCalls) ev,
          responseBytes)
  end.

Definition check_event (b : Bounds) (ev : Event) : res model_error (Event * Z) :=
  match ev_Kind ev with
  | EventBeginDispatch | EventCancelRequested =>
      _ ← reject_if ((ev_ProviderRequestID ev != "") || (ev_Delta ev != "") || has_response ev || has_failure ev
                     || (ev_Reason ev != "") || ev_DispatchPrevented ev || has_cancellation ev || has_recovery ev)
            ErrInvalidRequest;
      Ok (ev, 0)
  | EventProviderAccepted =>
      _ ← reject_if (bad_text (MaxProviderRequestIDBytes b) (ev_ProviderRequestID ev) || (ev_Delta ev != "")
                     || has_response ev || has_failure ev || (ev_Reason ev != "") || ev_DispatchPrevented ev
                     || has_cancellation ev || has_recovery ev) ErrInvalidRequest;
      Ok (ev, strlen (ev_ProviderRequestID ev))
  | EventDelta =>
      _ ← reject_if ((ev_Delta ev == "") || negb (utf8_ValidString (ev_Delta ev)) || (ev_ProviderRequestID ev != "")
                     || has_response ev || has_failure ev || (ev_Reason ev != "") || ev_DispatchPrevented ev
                     || has_cancellation ev) ErrInvalidRequest;
      Ok (ev, strlen (ev_Delta ev))
  | EventResponseCompleted => check_completed b ev
  | EventDispatchFailed =>
      _ ← reject_if (bool_decide (ev_Failure ev ∉ failure_classes)) ErrInvalidRequest;
      _ ← reject_if (bad_text (MaxReasonBytes b) (ev_Reason ev) || (ev_ProviderRequestID ev != "")
                     || (ev_Delta ev != "") || has_response ev || ev_DispatchPrevented ev || has_cancellation ev)
            ErrInvalidRequest;
      let reason := normalizedFailureReason b (ev_Failure ev) in
      Ok (event_with_reason reason ev, strlen reason)
  | EventCancellationResolved =>
      _ ← reject_if ((ev_ProviderRequestID ev != "") || (ev_Delta ev != "") || has_response ev || has_failure ev
                     || (ev_Reason ev != "") || has_recovery ev) ErrInvalidRequest;
      Ok (ev, 0)
  | OtherEvent _ => Err ErrInvalidRequest
  end.

Definition recovery_kind (kind : EventKind) : bool :=
  (kind == EventDelta) || (kind == EventResponseCompleted) || (kind == EventDispatchFailed).

Definition check_recovery (effect : Effect) (ev : Event) : res model_error unit :=
  _ ← reject_if (has_recovery ev && negb (validResumePermit effect (ev_Recovery ev))) ErrInvalidRequest;
  reject_if ((ef_RecoveryPermit effect != no_resume) && recovery_kind (ev_Kind ev) && negb (has_recovery ev))
    ErrInvalidRequest.

(** ** The second [switch event.Kind], one definition per case *)
Definition begin_dispatch (next : Effect) : res model_error (Effect * DispatchCommand) :=
  _ ← reject_if ((ef_State next != StateAdmitted) && (ef_State next != StateRetryPending)) ErrInvalidTransition;
  _ ← reject_if (u32 (ad_MaxPreDispatchRetries (ef_Admission next) + 1) <=? ef_Attempt next) ErrInvalidTransition;
  let next := set_reason "" (set_state StateDispatching (ef_Outcome next)
                (set_attempt (u32 (ef_Attempt next + 1)) next)) in
  let ad := ef_Admission next in
  Ok (next, MkDispatchCommand (ad_ProviderID ad) (ad_Scope ad) (va_EffectID (ad_Scope ad)) (va_InvocationID (ad_Scope ad))
              (ad_RequestDigest ad) (ad_QuotaPermit ad) (ad_Request ad) (ef_Attempt next)).

Definition provider_accepted (ev : Event) (next : Effect) : res model_error Effect :=
  _ ← reject_if ((ef_State next != StateDispatching) || (ef_ProviderRequestID next != "") || ef_PartialOutput next)
        ErrInvalidTransition;
  Ok (set_state StateDispatched (ef_Outcome next) (set_provider_request (ev_ProviderRequestID ev) next)).

(** [next.State != StateDispatched && next.State != StateStreaming &&
    !(next.State == StateUncertain && recoveryEvent)] *)
Definition not_answerable (ev : Event) (next : Effect) : bool :=
  (ef_State next != StateDispatched) && (ef_State next != StateStreaming)
  && negb ((ef_State next == StateUncertain) && has_recovery ev).

(** [if recoveryEvent { next.RecoveryPermit = event.Recovery; next.Outcome = "";
    next.FailureReason = "" }] *)
Definition resume (ev : Event) (next : Effect) : Effect :=
  if has_recovery ev then set_recovery (ev_Recovery ev) (set_state (ef_State next) NoOutcome (set_reason "" next))
  else next.

Definition delta (b : Bounds) (eventBytes : Z) (ev : Event) (next : Effect) : res model_error Effect :=
  _ ← reject_if (not_answerable ev next) ErrInvalidTransition;
  let next := resume ev next in
  _ ← reject_if (u64 (MaxStreamBytes b - ef_StreamBytes next) <? eventBytes) ErrEventLimit;
  Ok (set_state StateStreaming (ef_Outcome next) (set_stream (u64 (ef_StreamBytes next + eventBytes)) next)).

Definition response_completed (response : ModelResponse) (ev : Event) (next : Effect) : res model_error Effect :=
  _ ← reject_if (not_answerable ev next) ErrInvalidTransition;
  let next := resume ev next in
  let ad := ef_Admission next in
  let usage := r_Usage response in
  _ ← reject_if (ad_ContextTokens ad <? InputTokens usage) ErrQuotaMismatch;
  _ ← reject_if ((ad_MaxContextTokens ad <? InputTokens usage) || (ad_RequestedOutputTokens ad <? OutputTokens usage)
                 || (ad_MaxTotalTokens ad <? InputTokens usage)
                 || (u64 (ad_MaxTotalTokens ad - InputTokens usage) <? OutputTokens usage)) ErrTokenLimit;
  let settled := MkModelResponse (r_Text response) (r_FinishReason response)
                   (MkUsage (ad_ContextTokens ad) (ad_RequestedOutputTokens ad)) (r_ToolCalls response) in
  Ok (set_state StateCompleted OutcomeCompleted (set_response settled next)).

Definition dispatch_failed (ev : Event) (next : Effect) : res model_error Effect :=
  let next := if has_recovery ev then set_recovery (ev_Recovery ev) next else next in
  let next := set_reason (ev_Reason ev) next in
  let recovering := (ef_State next == StateUncertain) && has_recovery ev in
  match ev_Failure ev with
  | FailurePreDispatch =>
      _ ← reject_if ((ef_State next != StateDispatching) || (ef_ProviderRequestID next != "") || ef_PartialOutput next)
            ErrInvalidTransition;
      Ok (if ef_Attempt next <=? ad_MaxPreDispatchRetries (ef_Admission next)
          then set_state StateRetryPending (ef_Outcome next) next else set_state StateFailed OutcomeFailed next)
  | FailureProviderRejected =>
      _ ← reject_if ((ef_State next != StateDispatching) && (ef_State next != StateDispatched) && negb recovering
                     || ef_PartialOutput next) ErrInvalidTransition;
      Ok (set_state StateFailed OutcomeFailed next)
  | FailureTransportUnknown =>
      _ ← reject_if ((ef_State next != StateDispatching) && (ef_State next != StateDispatched)
                     && (ef_State next != StateStreaming) && negb recovering) ErrInvalidTransition;
      Ok (set_state StateUncertain OutcomeUncertain next)
  | FailureAfterPartial =>
      _ ← reject_if ((ef_State next != StateStreaming) && negb recovering || negb (ef_PartialOutput next))
            ErrInvalidTransition;
      Ok (set_state StateUncertain OutcomeUncertain next)
  | NoFailure | OtherFailure _ => Ok next
  end.

Definition cancel_requested (next : Effect) : res model_error (Effect * option CancelCommand) :=
  match ef_State next with
  | StateAdmitted | StateRetryPending => Ok (set_reason "" (set_state StateCancelled OutcomeCancelled next), None)
  | StateDispatching | StateDispatched | StateStreaming =>
      let ad := ef_Admission next in
      Ok (set_state StateCancellationPending (ef_Outcome next) next,
          Some (MkCancelCommand (ad_ProviderID ad) (ad_Scope ad) (va_EffectID (ad_Scope ad))
                  (va_InvocationID (ad_Scope ad)) (ad_RequestDigest ad) (ef_ProviderRequestID next) (ef_Attempt next)))
  | _ => Err ErrInvalidTransition
  end.

Definition cancellation_resolved (ev : Event) (next : Effect) : res model_error Effect :=
  _ ← reject_if (ef_State next != StateCancellationPending) ErrInvalidTransition;
  if has_cancellation ev then
    let permit := ev_Cancellation ev in
    _ ← reject_if (negb (validCancellationPermit next permit) || (ev_DispatchPrevented ev != cp_DispatchPrevented permit)
                   || cp_DispatchPrevented permit && ((ef_ProviderRequestID next != "") || ef_PartialOutput next))
          ErrInvalidRequest;
    let next := set_cancellation permit next in
    Ok (if cp_DispatchPrevented permit then set_state StateCancelled OutcomeCancelled next
        else set_state StateUncertain OutcomeUncertain next)
  else Ok (set_state StateUncertain OutcomeUncertain next).

(** A transition before its counters advance. *)
Definition effect_only (m : res model_error Effect) : res model_error Transition :=
  next ← m; Ok (MkTransition next None None).

Definition next_effect (b : Bounds) (eventBytes : Z) (ev : Event) (effect : Effect) : res model_error Transition :=
  match ev_Kind ev with
  | EventBeginDispatch => '(next, command) ← begin_dispatch effect; Ok (MkTransition next (Some command) None)
  | EventProviderAccepted => effect_only (provider_accepted ev effect)
  | EventDelta => effect_only (delta b eventBytes ev effect)
  | EventResponseCompleted =>
      match ev_Response ev with
      | Some response => effect_only (response_completed response ev effect)
      | None => Err ErrInvalidRequest
      end
  | EventDispatchFailed => effect_only (dispatch_failed ev effect)
  | EventCancelRequested => '(next, command) ← cancel_requested effect; Ok (MkTransition next None command)
  | EventCancellationResolved => effect_only (cancellation_resolved ev effect)
  | OtherEvent _ => Err ErrInvalidRequest
  end.

Definition Apply (gw : Gateway) (effect : Effect) (event : Event) : res model_error Transition :=
  let b := gw_bounds gw in
  _ ← validateEffect pijson_DecodeValue gw effect;
  _ ← reject_if (ev_ExpectedRevision event != ef_Revision effect) ErrConcurrentTransition;
  _ ← reject_if ((ef_Revision effect =? u64_max) || (MaxEvents b <=? ef_EventCount effect)) ErrEventLimit;
  '(event, eventBytes) ← check_event b event;
  _ ← reject_if ((MaxEventBytes b <? eventBytes) || (u64_max - ef_EventBytes effect <? eventBytes)) ErrEventLimit;
  _ ← check_recovery effect event;
  t ← next_effect b eventBytes event effect;
  let next := tr_Effect t in
  _ ← reject_if ((ef_Outcome next == NoOutcome)
                 && (MaxEvents b <? u32 (ef_EventCount next + 1) + minimumTerminalEvents next)) ErrEventLimit;
  Ok (MkTransition (advance eventBytes next) (tr_Dispatch t) (tr_Cancel t)).
End Apply.
