(* ===== verification/ModelProofs.v ===== *)
(** * Model gateway: what a valid snapshot says

    The boolean checks of [validateEffect] as propositions, under the bounds a
    configuration can have: the counters ([counters_ok]), the texts ([texts_ok]),
    the accounted bytes ([bytes_ok]) and the state ([state_ok]). *)

From S2P Require Import Prelude GoText GoCrypto Canonical Identity BrokerTypes ModelTypes ModelGateway ModelMachine.
#[local] Open Scope string_scope.
#[local] Open Scope list_scope.
#[local] Open Scope Z_scope.
#[local] Open Scope go_scope.

(** ** Bounds *)
Record bounds_ok (b : Bounds) : Prop := {
  bounds_valid : invalid_bounds b = false;
  bounds_words : Forall (fun n => 0 <= n) [MaxEventBytes b; MaxEvents b; MaxStreamBytes b; MaxResponseBytes b;
                                         MaxReasonBytes b; MaxProviderRequestIDBytes b];
}.

Lemma bounds_sizes b : bounds_ok b ->
  0 < MaxEventBytes b <= 2 ^ 20 /\ 4 <= MaxEvents b <= 2 ^ 20 /\ 0 < MaxStreamBytes b <= 2 ^ 26 /\
  0 < MaxResponseBytes b <= 2 ^ 26 /\ 0 < MaxReasonBytes b <= 4096 /\ 0 < MaxProviderRequestIDBytes b <= 1024.
Proof.
  intros [Hv Hw]. rewrite !Forall_cons in Hw. unfold invalid_bounds, bad_bound in Hv. bools in Hv.
  destruct_and!. change (hardMaxEventBytes) with (2 ^ 20) in *. change hardMaxEvents with (2 ^ 20) in *.
  change hardMaxStreamBytes with (2 ^ 26) in *. change hardMaxResponseBytes with (2 ^ 26) in *.
  change hardMaxReasonBytes with 4096 in *. change hardMaxProviderRequestIDBytes with 1024 in *. lia.
Qed.

(** ** Failure reasons *)
Definition printable (s : string) : bool := forallb (fun c => in_range 32 126 (byte_val c)) (to_bytes s).

Lemma printable_text s : printable s = true -> utf8_ValidString s = true /\ has_control s = false.
Proof.
  unfold printable. intros Hp.
  assert (forallb (fun c => byte_val c <? 128) (to_bytes s) = true) as Ha.
  { rewrite forallb_forall in Hp. rewrite forallb_forall. intros c Hc. specialize (Hp c Hc). unfold in_range in Hp. bools in Hp. bools. lia. }
  split; [by apply ascii_valid|].
  unfold has_control, string_runes. rewrite decode_runes_ascii, map_map by done.
  apply not_true_iff_false. rewrite existsb_exists. intros (r & [c [<- Hc]]%in_map_iff & Hr).
  rewrite forallb_forall in Hp. specialize (Hp c Hc). unfold rune_of, unicode_IsControl, in_range in *. simpl in Hr.
  bools in Hp. bools in Hr. lia.
Qed.

Lemma reason_printable b class : printable (normalizedFailureReason b class) = true.
Proof.
  unfold normalizedFailureReason. case_match; [|by destruct class].
  unfold printable. rewrite to_of_bytes. rewrite forallb_forall. by intros c ->%repeat_spec.
Qed.

Lemma strlen_of_bytes bs : strlen (of_bytes bs) = zlen bs.
Proof. by rewrite <- zlen_to_bytes, to_of_bytes. Qed.

Lemma reason_length b class : bounds_ok b ->
  0 < strlen (normalizedFailureReason b class) <= Z.min (MaxReasonBytes b) (MaxEventBytes b).
Proof.
  intros Hb%bounds_sizes. unfold normalizedFailureReason. case_match eqn:Hl; bools in Hl.
  - rewrite strlen_of_bytes. unfold zlen. rewrite repeat_length. lia.
  - split; [|done]. by destruct class.
Qed.

Lemma reason_nonempty b class : bounds_ok b -> normalizedFailureReason b class <> "".
Proof. intros Hb He. pose proof (reason_length b class Hb). rewrite He in H. change (strlen "") with 0 in H. lia. Qed.

(** ** Texts *)
Definition id_text (b : Bounds) (id : string) : Prop :=
  id = "" \/ utf8_ValidString id = true /\ has_control id = false /\
             strlen id <= MaxProviderRequestIDBytes b /\ strlen id <= MaxEventBytes b.
Definition reason_text (b : Bounds) (reason : string) : Prop :=
  reason = "" \/ exists class, class ∈ failure_classes /\ reason = normalizedFailureReason b class.

Lemma texts_ok b e : bounds_ok b ->
  invalid_texts b e = false <-> id_text b (ef_ProviderRequestID e) /\ reason_text b (ef_FailureReason e).
Proof.
  intros Hb. unfold invalid_texts. bools. unfold id_text, reason_text.
  assert (existsb (fun class => ef_FailureReason e == normalizedFailureReason b class) failure_classes = true <->
          exists class, class ∈ failure_classes /\ ef_FailureReason e = normalizedFailureReason b class) as ->.
  { rewrite existsb_exists. setoid_rewrite bool_decide_eq_true. by setoid_rewrite list_elem_of_In. }
  split; [naive_solver|]. intros [Hid Hr]. split_and!; [naive_solver| |naive_solver].
  destruct Hr as [Hr|(class & _ & ->)]; [naive_solver|right].
  destruct (printable_text _ (reason_printable b class)). pose proof (reason_length b class Hb).
  split_and!; [done|done|lia].
Qed.

(** ** Counters *)
Record counters_ok (b : Bounds) (e : Effect) : Prop := {
  count_range : 0 <= ef_EventCount e <= MaxEvents b;
  count_revision : ef_Revision e = ef_EventCount e + 1;
  count_bytes : 0 <= ef_EventBytes e <= ef_EventCount e * MaxEventBytes b;
  count_stream : 0 <= ef_StreamBytes e <= MaxStreamBytes b;
  count_attempt : 0 <= ef_Attempt e <= u32 (ad_MaxPreDispatchRetries (ef_Admission e) + 1);
}.

(** The fields of an effect at their widths. *)
Record effect_words (e : Effect) : Prop := {
  word_count : 0 <= ef_EventCount e < 2 ^ 32;
  word_bytes : 0 <= ef_EventBytes e < 2 ^ 64;
  word_stream : 0 <= ef_StreamBytes e < 2 ^ 64;
  word_attempt : 0 <= ef_Attempt e < 2 ^ 32;
  word_tokens : is_u64 (ad_ContextTokens (ef_Admission e)) /\ is_u64 (ad_RequestedOutputTokens (ef_Admission e)) /\
                is_u64 (ad_MaxTotalTokens (ef_Admission e));
  word_retries : 0 <= ad_MaxPreDispatchRetries (ef_Admission e) < 2 ^ 32;
}.

Lemma counters_spec b e : bounds_ok b -> effect_words e -> invalid_counters b e = false <-> counters_ok b e.
Proof.
  intros Hb%bounds_sizes [Hc Hby Hst Ha _ Hr]. unfold invalid_counters. bools. unfold u64. split.
  - intros H. destruct_and!. rewrite (Z.mod_small (ef_EventCount e + 1)) in * by lia.
    rewrite Z.mod_small in * by nia. split; lia.
  - intros [H1 H2 H3 H4 H5]. rewrite (Z.mod_small (ef_EventCount e + 1)) in * by lia.
    rewrite Z.mod_small by nia. lia.
Qed.

(** ** Accounted bytes *)
Lemma id_text_length b id : id_text b id -> 0 <= strlen id /\ (bounds_ok b -> strlen id <= 2 ^ 20).
Proof.
  intros Hid. split; [apply strlen_nonneg|]. intros Hb%bounds_sizes.
  destruct Hid as [->|(_ & _ & _ & Hl)]; [done|lia].
Qed.

Lemma reason_text_length b reason : bounds_ok b -> reason_text b reason -> 0 <= strlen reason <= 4096.
Proof.
  intros Hb [->|(class & _ & ->)]; [done|]. pose proof (reason_length b class Hb). apply bounds_sizes in Hb. lia.
Qed.

Definition accounted_bytes (e : Effect) : Z :=
  ef_StreamBytes e + strlen (ef_ProviderRequestID e) + strlen (ef_FailureReason e).

Record snapshot_texts (b : Bounds) (e : Effect) : Prop := {
  snapshot_id : id_text b (ef_ProviderRequestID e);
  snapshot_reason : reason_text b (ef_FailureReason e);
}.

Lemma accounted_small b e : bounds_ok b -> counters_ok b e -> snapshot_texts b e ->
  0 <= accounted_bytes e <= 2 ^ 28 /\
  u64 (u64 (ef_StreamBytes e + strlen (ef_ProviderRequestID e)) + strlen (ef_FailureReason e)) = accounted_bytes e.
Proof.
  intros Hb [_ _ _ Hs _] [[Hi1 Hi2]%id_text_length Hr%reason_text_length]; [|done]. specialize (Hi2 Hb).
  apply bounds_sizes in Hb. unfold accounted_bytes, u64. rewrite (Z.mod_small (_ + strlen (ef_ProviderRequestID e))), Z.mod_small by lia. lia.
Qed.

Definition partial_matches (e : Effect) : Prop := ef_PartialOutput e = true <-> ef_StreamBytes e <> 0.

Lemma partial_spec e :
  (ef_PartialOutput e && (ef_StreamBytes e =? 0)) || (negb (ef_PartialOutput e) && negb (ef_StreamBytes e =? 0)) = false
  <-> partial_matches e.
Proof. unfold partial_matches. destruct (ef_PartialOutput e), (Z.eqb_spec (ef_StreamBytes e) 0); naive_solver. Qed.

Lemma events_fit b e : bounds_ok b -> counters_ok b e -> ef_EventBytes e <= u64_max - MaxEventBytes b.
Proof. intros Hb%bounds_sizes [? ? ? ? ?]. unfold u64_max. nia. Qed.

Section Validated.
Context {NZ : Normalizer} (pijson_DecodeValue : Value -> bool).

Lemma bytes_unanswered b e : bounds_ok b -> counters_ok b e -> snapshot_texts b e -> ef_Response e = None ->
  validate_bytes pijson_DecodeValue b e = Ok tt <-> partial_matches e /\ accounted_bytes e <= ef_EventBytes e.
Proof.
  intros Hb Hc Ht Hn. destruct (accounted_small b e) as [_ Ha]; [done..|]. pose proof (events_fit b e Hb Hc) as Hf.
  unfold validate_bytes. rewrite Hn, Ha, <- partial_spec, reject_if_ok. cbn [mbind res_bind].
  rewrite reject_if_ok, Z.ltb_ge. split; [tauto|]. intros [? ?]. split_and!; [done..|].
  unfold reject_if. by rewrite (proj2 (Z.ltb_ge _ _)) by lia.
Qed.

(** ** Tool calls *)
Definition call_fine (call : ToolCall) : Prop :=
  matches_identifier (tc_ID call) = true /\ strlen (tc_ID call) <= hardMaxProviderRequestIDBytes /\
  matches_identifier (tc_Name call) = true /\ strlen (tc_Name call) <= hardMaxIdentifierBytes /\
  tc_Declared call = false /\ tc_Index call = 0 /\
  validateCanonicalToolArguments pijson_DecodeValue (tc_Arguments call) = true.

Fixpoint calls_bytes (calls : list ToolCall) : Z :=
  match calls with [] => 0 | call :: rest => call_bytes call + calls_bytes rest end.

Lemma calls_bytes_nonneg calls : 0 <= calls_bytes calls.
Proof.
  induction calls as [|call calls IH]; [done|]. simpl. unfold call_bytes at 1.
  pose proof (u64_range (u64 (u64 (strlen (tc_ID call) + strlen (tc_Name call)) + zlen (tc_Arguments call)) + 9)) as [? _].
  lia.
Qed.

Lemma calls_bytes_perm l1 l2 : l1 ≡ₚ l2 -> calls_bytes l1 = calls_bytes l2.
Proof. induction 1; simpl; lia. Qed.

Lemma check_calls_spec calls : forall index total seen result,
  check_calls pijson_DecodeValue false index total seen calls = Ok result <->
  Forall call_fine calls /\ NoDup (map tc_ID calls) /\ Forall (fun call => tc_ID call ∉ seen) calls /\
  result = total + calls_bytes calls /\ (calls = [] \/ result <= u64_max).
Proof.
  induction calls as [|call calls IH]; intros index total seen result; simpl.
  { rewrite !Forall_nil. split; [intros [= ->]|intros (_ & _ & _ & -> & _); f_equal; lia].
    split_and!; try done; [apply NoDup_nil_2|lia|by left]. }
  rewrite !reject_if_ok, IH. bools. rewrite !Forall_cons, NoDup_cons.
  pose proof (calls_bytes_nonneg calls). unfold call_fine at 2.
  assert (Forall (fun c => tc_ID c ∉ {[tc_ID call]} ∪ seen) calls <->
          (tc_ID call ∉ map tc_ID calls) /\ Forall (fun c => tc_ID c ∉ seen) calls) as ->.
  { rewrite !Forall_forall. setoid_rewrite not_elem_of_union. setoid_rewrite not_elem_of_singleton.
    rewrite list_elem_of_fmap. split.
    - intros Hn. split; [intros (c & He & Hc)|]; [by destruct (Hn c Hc)|]. intros c Hc. by destruct (Hn c Hc).
    - intros [Hn Hs] c Hc. split; [|by apply Hs]. intros He. apply Hn. by exists c. }
  destruct calls as [|call' calls']; simpl in *.
  - destruct (tc_Declared call); naive_solver lia.
  - destruct (tc_Declared call); naive_solver lia.
Qed.

Lemma check_calls_range calls : forall declared index total seen result, 0 <= total <= u64_max ->
  check_calls pijson_DecodeValue declared index total seen calls = Ok result -> 0 <= result <= u64_max.
Proof.
  induction calls as [|call calls IH]; intros declared index total seen result Ht; simpl; [by intros [= <-]|].
  rewrite !reject_if_ok. intros (_ & _ & _ & Hl & Hc). bools in Hl. eapply IH; [|done].
  unfold call_bytes in *. pose proof (u64_range (u64 (u64 (strlen (tc_ID call) + strlen (tc_Name call))
    + zlen (tc_Arguments call)) + 9)) as [? _]. lia.
Qed.

Lemma normalize_cons call calls calls' n :
  normalizeToolCalls pijson_DecodeValue (call :: calls) = Ok (calls', n) <->
  zlen (call :: calls) <= hardMaxEvents /\
  check_calls pijson_DecodeValue (tc_Declared call) 0 0 ∅ (call :: calls) = Ok n /\
  calls' = if tc_Declared call then call :: calls else sort_calls (call :: calls).
Proof.
  unfold normalizeToolCalls. rewrite reject_if_ok, Z.ltb_ge, bind_ok. naive_solver.
Qed.

(** A normalised list of calls is its own normal form. *)
Lemma normalizeToolCalls_idem calls calls' n :
  normalizeToolCalls pijson_DecodeValue calls = Ok (calls', n) ->
  normalizeToolCalls pijson_DecodeValue calls' = Ok (calls', n) /\ 0 <= n <= u64_max.
Proof.
  destruct calls as [|call calls]; [by intros [= <- <-]|]. rewrite normalize_cons. intros (Hmax & Hc & Hl).
  split; [|by eapply check_calls_range].
  destruct (tc_Declared call) eqn:Hd; subst calls'; [by rewrite normalize_cons, Hd|].
  remember (call :: calls) as l eqn:Hl. clear Hd.
  pose proof (sort_by_perm bytes_lt (fun c => to_bytes (tc_ID c)) l) as Hp. fold (sort_calls l) in Hp.
  apply check_calls_spec in Hc as (Hf & Hn & _ & Ht & Hm).
  assert (sort_calls (sort_calls l) = sort_calls l) as Hs.
  { apply sort_by_id; [apply _..|]. apply sort_by_strict; [apply _..|]. rewrite <- (map_map tc_ID to_bytes).
    by apply NoDup_fmap_2; [apply _|]. }
  assert (Forall call_fine (sort_calls l)) as Hf' by by rewrite Hp.
  assert (check_calls pijson_DecodeValue false 0 0 ∅ (sort_calls l) = Ok n) as Hc.
  { apply check_calls_spec. rewrite (calls_bytes_perm _ _ Hp). split_and!; try done.
    - by rewrite Hp.
    - rewrite Forall_forall. set_solver.
    - right. by destruct Hm as [->|?]. }
  destruct (sort_calls l) as [|first rest] eqn:Hr.
  { subst l. by apply Permutation_nil_cons in Hp. }
  assert (tc_Declared first = false) as Hdf by (apply Forall_cons in Hf' as [(_ & _ & _ & _ & ? & _) _]; done).
  rewrite normalize_cons, Hdf, Hs. split_and!; [|done|done].
  unfold zlen in *. by rewrite (Permutation_length Hp).
Qed.

(** The bytes of an accepted response, with the usage the gateway settles. *)
Definition response_bytes (response : ModelResponse) (toolCallBytes : Z) : Z :=
  strlen (r_Text response) + strlen (r_FinishReason response) + toolCallBytes.

Definition tokens_ok (ad : Admission) : Prop :=
  ad_ContextTokens ad <= ad_MaxContextTokens ad /\ 0 <= ad_ContextTokens ad /\
  ad_ContextTokens ad + ad_RequestedOutputTokens ad <= ad_MaxTotalTokens ad < 2 ^ 64 /\
  0 <= ad_RequestedOutputTokens ad.

Lemma bytes_answered b e response calls n : bounds_ok b -> counters_ok b e -> snapshot_texts b e ->
  tokens_ok (ef_Admission e) -> partial_matches e ->
  ef_Response e = Some response ->
  r_Usage response = MkUsage (ad_ContextTokens (ef_Admission e)) (ad_RequestedOutputTokens (ef_Admission e)) ->
  normalizeToolCalls pijson_DecodeValue calls = Ok (r_ToolCalls response, n) ->
  utf8_ValidString (r_Text response) = true -> validFinishReason (r_FinishReason response) = true ->
  strlen (r_FinishReason response) <= MaxReasonBytes b ->
  response_bytes response n <= MaxResponseBytes b ->
  accounted_bytes e + response_bytes response n <= ef_EventBytes e ->
  validate_bytes pijson_DecodeValue b e = Ok tt.
Proof.
  intros Hb Hc Ht (Hk1 & Hk2 & Hk3 & Hk4) Hp He Hu [Hn Hr]%normalizeToolCalls_idem Hv Hf Hfl Hm Ha.
  pose proof (accounted_small b e Hb Hc Ht) as [Has Hau].
  pose proof (events_fit b e Hb Hc) as Hev. pose proof (bounds_sizes b Hb) as Hsz.
  pose proof (strlen_nonneg (r_Text response)). pose proof (strlen_nonneg (r_FinishReason response)).
  unfold response_bytes in *. unfold validate_bytes. rewrite He, Hau, reject_if_ok, partial_spec. split; [done|].
  unfold validate_response. rewrite Hu, Hn. cbn [InputTokens OutputTokens].
  assert (u64 (strlen (r_Text response) + strlen (r_FinishReason response)) =
          strlen (r_Text response) + strlen (r_FinishReason response)) as -> by (apply u64_id; red; lia).
  assert (u64 (strlen (r_Text response) + strlen (r_FinishReason response) + n) =
          strlen (r_Text response) + strlen (r_FinishReason response) + n) as -> by (apply u64_id; red; lia).
  rewrite (u64_id (ad_MaxTotalTokens _ - _)) by (red; lia).
  unfold u64_max in *. rewrite bind_ok. exists (accounted_bytes e + (strlen (r_Text response)
    + strlen (r_FinishReason response) + n)).
  split.
  - rewrite !reject_if_ok, u64_id by (red; lia). bools. rewrite Hv, Hf. split_and!; try done; lia.
  - rewrite reject_if_ok. bools. split; [lia|]. unfold reject_if. by rewrite (proj2 (Z.ltb_ge _ _)) by lia.
Qed.

(** ** Valid snapshots *)
Definition fixed_ok (gw : Gateway) (ad : Admission) : Prop :=
  invalid_scope (ad_Scope ad) = false /\ ad_RequestDigest ad <> zero_digest /\ validate_admission gw ad = Ok tt.

Record snapshot_ok (gw : Gateway) (e : Effect) : Prop := {
  ok_fixed : fixed_ok gw (ef_Admission e);
  ok_counters : counters_ok (gw_bounds gw) e;
  ok_texts : snapshot_texts (gw_bounds gw) e;
  ok_permits : invalid_permits e = false;
  ok_bytes : validate_bytes pijson_DecodeValue (gw_bounds gw) e = Ok tt;
  ok_state : invalid_state e = false;
  ok_budget : over_budget (gw_bounds gw) e = false;
}.

Lemma last_check {E} b (err : E) : reject_if b err = Ok tt <-> b = false.
Proof. by destruct b. Qed.

Lemma validate_spec gw e : bounds_ok (gw_bounds gw) -> effect_words e ->
  validateEffect pijson_DecodeValue gw e = Ok tt <-> snapshot_ok gw e.
Proof.
  intros Hb Hw. unfold validateEffect.
  rewrite reject_if_ok, bind_ok, !orb_false_iff, bool_decide_eq_false, counters_spec by done. split.
  - intros ([[Hs Hd] Hc] & [] & Ha & Hr). rewrite !reject_if_ok in Hr. destruct Hr as (Ht & Hp & Hr).
    apply texts_ok in Ht as [Hi Hre]; [|done]. apply bind_ok in Hr as ([] & Hby & Hr).
    rewrite reject_if_ok, last_check in Hr. destruct Hr. by split.
  - intros [(Hs & Hd & Ha) Hc [Hi Hre] Hp Hby Hst Hbu]. split_and!; [done..|]. exists tt. split; [done|].
    rewrite !reject_if_ok, bind_ok. split_and!; [by apply texts_ok|done|]. exists tt.
    by rewrite reject_if_ok, last_check.
Qed.

Lemma admission_tokens gw e : effect_words e -> fixed_ok gw (ef_Admission e) -> tokens_ok (ef_Admission e).
Proof.
  intros [_ _ _ _ (Hc & Ho & Hm) _] (_ & _ & Ha). unfold validate_admission in Ha.
  apply bind_ok in Ha as (_ & _ & Ha). rewrite !reject_if_ok in Ha. destruct Ha as (_ & _ & Ha).
  destruct (gw_grants gw !! _) as [grant|]; [|done]. apply reject_if_ok in Ha as [Hg _].
  bools in Hg. destruct_and!. unfold tokens_ok, is_u64 in *.
  match goal with Hu : _ <= u64 ?z |- _ => rewrite (u64_id z) in Hu by (red; lia) end. lia.
Qed.

(** What an unanswered valid snapshot accounts for. *)
Lemma ok_accounted gw e : bounds_ok (gw_bounds gw) -> snapshot_ok gw e -> ef_Response e = None ->
  partial_matches e /\ accounted_bytes e <= ef_EventBytes e.
Proof. intros Hb [_ Hc Ht _ Hby _ _] Hn. by eapply bytes_unanswered. Qed.
End Validated.

(** ** Model gateway: the transitions of an effect

    [moved] is the step relation of the state machine, one rule per branch of
    [Apply]; [apply_moved] shows that [Apply] takes only those steps. The theorems
    on snapshots, dispatches and outcomes are proved on the relation. *)

(** The cases of [if recoveryEvent]. *)
Ltac case_recovery := 
  repeat match goal with |- context [if has_recovery ?ev then _ else _] => destruct (has_recovery ev) eqn:? end.

Section Steps.
Context {NZ : Normalizer} (pijson_DecodeValue : Value -> bool).

(** The permit an event of a recovery kind brings or continues. *)
Definition recovery_fact (e : Effect) (ev : Event) : Prop :=
  if has_recovery ev then validResumePermit e (ev_Recovery ev) = true else ef_RecoveryPermit e = no_resume.

Definition answerable (e : Effect) (ev : Event) : Prop :=
  ef_State e = StateDispatched \/ ef_State e = StateStreaming \/ ef_State e = StateUncertain /\ has_recovery ev = true.

(** What an accepted response is: its calls are normalised and it fits. *)
Definition response_fits (b : Bounds) (n : Z) (response : ModelResponse) : Prop :=
  utf8_ValidString (r_Text response) = true /\ validFinishReason (r_FinishReason response) = true /\
  strlen (r_FinishReason response) <= MaxReasonBytes b /\
  (exists calls m, normalizeToolCalls pijson_DecodeValue calls = Ok (r_ToolCalls response, m) /\
                   n = response_bytes response m) /\
  n <= MaxResponseBytes b.

Definition settled (e : Effect) (response : ModelResponse) : ModelResponse :=
  MkModelResponse (r_Text response) (r_FinishReason response)
    (MkUsage (ad_ContextTokens (ef_Admission e)) (ad_RequestedOutputTokens (ef_Admission e))) (r_ToolCalls response).

(** The effect of a failure event before its state is chosen. *)
Definition failing (b : Bounds) (ev : Event) (e : Effect) : Effect :=
  set_reason (normalizedFailureReason b (ev_Failure ev))
    (if has_recovery ev then set_recovery (ev_Recovery ev) e else e).

Definition unsent (e : Effect) : Prop :=
  ef_State e = StateDispatching /\ ef_ProviderRequestID e = "" /\ ef_PartialOutput e = false.

(** [moved b n ev e e']: the event [ev] of [n] bytes takes [e] to [e'] before the
    counters advance. *)
Inductive moved (b : Bounds) (n : Z) (ev : Event) (e : Effect) : Effect -> Prop :=
| moved_begin :
    ev_Kind ev = EventBeginDispatch -> n = 0 ->
    ef_State e = StateAdmitted \/ ef_State e = StateRetryPending ->
    ef_Attempt e < u32 (ad_MaxPreDispatchRetries (ef_Admission e) + 1) ->
    moved b n ev e (set_reason "" (set_state StateDispatching (ef_Outcome e) (set_attempt (u32 (ef_Attempt e + 1)) e)))
| moved_accepted :
    ev_Kind ev = EventProviderAccepted -> n = strlen (ev_ProviderRequestID ev) -> unsent e ->
    ev_ProviderRequestID ev <> "" -> id_text b (ev_ProviderRequestID ev) ->
    moved b n ev e (set_state StateDispatched (ef_Outcome e) (set_provider_request (ev_ProviderRequestID ev) e))
| moved_delta :
    ev_Kind ev = EventDelta -> answerable e ev -> recovery_fact e ev ->
    0 < n -> n <= MaxStreamBytes b - ef_StreamBytes e ->
    moved b n ev e (set_state StateStreaming (ef_Outcome (resume ev e)) (set_stream (ef_StreamBytes e + n) (resume ev e)))
| moved_completed response :
    ev_Kind ev = EventResponseCompleted -> answerable e ev -> recovery_fact e ev -> response_fits b n response ->
    moved b n ev e (set_state StateCompleted OutcomeCompleted (set_response (settled e response) (resume ev e)))
| moved_retry :
    ev_Kind ev = EventDispatchFailed -> ev_Failure ev = FailurePreDispatch -> recovery_fact e ev -> unsent e ->
    n = strlen (normalizedFailureReason b (ev_Failure ev)) ->
    ef_Attempt e <= ad_MaxPreDispatchRetries (ef_Admission e) ->
    moved b n ev e (set_state StateRetryPending (ef_Outcome e) (failing b ev e))
| moved_exhausted :
    ev_Kind ev = EventDispatchFailed -> ev_Failure ev = FailurePreDispatch -> recovery_fact e ev -> unsent e ->
    n = strlen (normalizedFailureReason b (ev_Failure ev)) ->
    ad_MaxPreDispatchRetries (ef_Admission e) < ef_Attempt e ->
    moved b n ev e (set_state StateFailed OutcomeFailed (failing b ev e))
| moved_rejected :
    ev_Kind ev = EventDispatchFailed -> ev_Failure ev = FailureProviderRejected -> recovery_fact e ev ->
    n = strlen (normalizedFailureReason b (ev_Failure ev)) ->
    ef_State e = StateDispatching \/ ef_State e = StateDispatched \/ ef_State e = StateUncertain /\ has_recovery ev = true ->
    ef_PartialOutput e = false ->
    moved b n ev e (set_state StateFailed OutcomeFailed (failing b ev e))
| moved_unknown :
    ev_Kind ev = EventDispatchFailed -> recovery_fact e ev ->
    ev_Failure ev = FailureTransportUnknown \/ ev_Failure ev = FailureAfterPartial ->
    n = strlen (normalizedFailureReason b (ev_Failure ev)) ->
    ef_State e = StateDispatching \/ answerable e ev ->
    moved b n ev e (set_state StateUncertain OutcomeUncertain (failing b ev e))
| moved_cancelled :
    ev_Kind ev = EventCancelRequested -> n = 0 ->
    ef_State e = StateAdmitted \/ ef_State e = StateRetryPending ->
    moved b n ev e (set_reason "" (set_state StateCancelled OutcomeCancelled e))
| moved_cancelling :
    ev_Kind ev = EventCancelRequested -> n = 0 ->
    ef_State e = StateDispatching \/ ef_State e = StateDispatched \/ ef_State e = StateStreaming ->
    moved b n ev e (set_state StateCancellationPending (ef_Outcome e) e)
| moved_prevented :
    ev_Kind ev = EventCancellationResolved -> n = 0 -> ef_State e = StateCancellationPending ->
    ev_Cancellation ev <> no_cancellation -> validCancellationPermit e (ev_Cancellation ev) = true ->
    cp_DispatchPrevented (ev_Cancellation ev) = true -> ef_ProviderRequestID e = "" -> ef_PartialOutput e = false ->
    moved b n ev e (set_state StateCancelled OutcomeCancelled (set_cancellation (ev_Cancellation ev) e))
| moved_unprevented :
    ev_Kind ev = EventCancellationResolved -> n = 0 -> ef_State e = StateCancellationPending ->
    ev_Cancellation ev <> no_cancellation -> validCancellationPermit e (ev_Cancellation ev) = true ->
    cp_DispatchPrevented (ev_Cancellation ev) = false ->
    moved b n ev e (set_state StateUncertain OutcomeUncertain (set_cancellation (ev_Cancellation ev) e))
| moved_unproven :
    ev_Kind ev = EventCancellationResolved -> n = 0 -> ef_State e = StateCancellationPending ->
    ev_Cancellation ev = no_cancellation ->
    moved b n ev e (set_state StateUncertain OutcomeUncertain e).

(** ** [Apply] takes only these steps *)
Lemma check_recovery_fact e ev : check_recovery e ev = Ok tt ->
  recovery_kind (ev_Kind ev) = true -> recovery_fact e ev.
Proof.
  unfold check_recovery, recovery_fact. rewrite reject_if_ok, last_check. intros [H1 H2] Hk. rewrite Hk in H2.
  destruct (has_recovery ev); simpl in *; bools in H1; bools in H2; naive_solver.
Qed.

Lemma answerable_spec ev e : not_answerable ev e = false <-> answerable e ev.
Proof.
  unfold not_answerable, answerable. bools. tauto.
Qed.

Lemma resume_stream ev e : ef_StreamBytes (resume ev e) = ef_StreamBytes e.
Proof. unfold resume. by case_recovery. Qed.
Lemma resume_admission ev e : ef_Admission (resume ev e) = ef_Admission e.
Proof. unfold resume. by case_recovery. Qed.

Lemma delta_moved b e ev n e' : bounds_ok b -> counters_ok b e -> ev_Kind ev = EventDelta ->
  recovery_fact e ev -> 0 < n <= MaxEventBytes b -> delta b n ev e = Ok e' -> moved b n ev e e'.
Proof.
  intros Hb%bounds_sizes [_ _ _ Hs _] Hk Hr Hn. unfold delta. rewrite reject_if_ok, answerable_spec. intros [Ha H].
  apply reject_if_ok in H as [Hm [= <-]]. rewrite resume_stream in *. bools in Hm.
  rewrite u64_id in Hm by (red; lia). rewrite u64_id by (red; lia). by apply moved_delta; [..|lia|lia].
Qed.

Lemma strlen_pos s : s <> "" -> 0 < strlen s.
Proof. destruct s; [done|]. intros _. unfold strlen. simpl. lia. Qed.

Lemma bad_text_false limit s : bad_text limit s = false <->
  s <> "" /\ utf8_ValidString s = true /\ has_control s = false /\ strlen s <= limit.
Proof. unfold bad_text. bools. tauto. Qed.

Lemma completed_moved b e ev ev' n response e' : bounds_ok b -> ev_Kind ev = EventResponseCompleted ->
  check_completed pijson_DecodeValue b ev = Ok (ev', n) -> ev_Response ev' = Some response -> recovery_fact e ev ->
  response_completed response ev' e = Ok e' -> moved b n ev e e' /\ 0 <= n.
Proof.
  intros Hb%bounds_sizes Hk. unfold check_completed. destruct (ev_Response ev) as [r|]; [|done].
  rewrite reject_if_ok. intros [Hshape H]. apply reject_if_ok in H as [_ H].
  apply bind_ok in H as ([calls m] & Hcalls & H). rewrite !reject_if_ok in H. destruct H as (Hm1 & Hm2 & [= <- <-]).
  intros [= <-] Hr. unfold response_completed. rewrite reject_if_ok.
  intros [Ha%answerable_spec H]. rewrite !reject_if_ok in H. destruct H as (_ & _ & [= <-]). rewrite resume_admission.
  bools in Hshape. destruct_and!. destruct (normalizeToolCalls_idem _ _ _ _ Hcalls) as [_ Hm].
  pose proof (strlen_nonneg (r_Text r)). pose proof (strlen_nonneg (r_FinishReason r)).
  rewrite (u64_id (strlen _ + _)) in * by (red; lia). bools in Hm1. unfold u64_max in *.
  rewrite (u64_id (_ + m)) in * by (red; lia). bools in Hm2.
  split; [|lia]. eapply (moved_completed b _ ev e
    (MkModelResponse (r_Text r) (r_FinishReason r) (r_Usage r) calls)); [done..|].
  unfold response_fits, response_bytes. simpl. split_and!; [done..| |done]. by exists (r_ToolCalls r), m.
Qed.

Lemma failed_moved b e ev e' : ev_Kind ev = EventDispatchFailed -> ev_Failure ev ∈ failure_classes -> recovery_fact e ev ->
  dispatch_failed (event_with_reason (normalizedFailureReason b (ev_Failure ev)) ev) e = Ok e' ->
  moved b (strlen (normalizedFailureReason b (ev_Failure ev))) ev e e'.
Proof.
  intros Hk Hf Hr. unfold dispatch_failed. cbn [event_with_reason ev_Failure ev_Reason ev_Recovery].
  change (has_recovery (event_with_reason _ ev)) with (has_recovery ev). fold (failing b ev e).
  assert (ef_State (failing b ev e) = ef_State e /\ ef_Outcome (failing b ev e) = ef_Outcome e /\
          ef_ProviderRequestID (failing b ev e) = ef_ProviderRequestID e /\
          ef_PartialOutput (failing b ev e) = ef_PartialOutput e /\ ef_Attempt (failing b ev e) = ef_Attempt e /\
          ef_Admission (failing b ev e) = ef_Admission e) as (-> & -> & -> & -> & -> & ->).
  { unfold failing. by case_recovery. }
  destruct (ev_Failure ev) eqn:Hfail; try set_solver; rewrite reject_if_ok; intros [Hg [= <-]]; bools in Hg;
    rewrite <- Hfail.
  - destruct Hg as [[? ?] ?]. case_match eqn:Ha; bools in Ha; [by apply moved_retry|by apply moved_exhausted].
  - apply moved_rejected; try done; naive_solver.
  - apply moved_unknown; try done; unfold answerable; naive_solver.
  - apply moved_unknown; try done; unfold answerable; naive_solver.
Qed.

Lemma cancel_moved b e ev e' cmd : ev_Kind ev = EventCancelRequested -> cancel_requested e = Ok (e', cmd) -> moved b 0 ev e e'.
Proof.
  unfold cancel_requested. intros Hk. destruct (ef_State e) eqn:Hs; try done; intros [= <- _];
    first [apply moved_cancelled | apply moved_cancelling]; tauto.
Qed.

Lemma resolved_moved b e ev e' : ev_Kind ev = EventCancellationResolved -> cancellation_resolved ev e = Ok e' ->
  moved b 0 ev e e'.
Proof.
  intros Hk. unfold cancellation_resolved, has_cancellation. rewrite reject_if_ok. intros [Hs H]. bools in Hs.
  case_bool_decide as Hc.
  - apply reject_if_ok in H as [Hp [= <-]]. bools in Hp. destruct Hp as [[Hv _] Hp].
    destruct (cp_DispatchPrevented (ev_Cancellation ev)) eqn:Hd; [|by apply moved_unprevented].
    apply moved_prevented; try done; naive_solver.
  - injection H as <-. by apply moved_unproven.
Qed.

(** The facts a successful [Apply] leaves. *)
Record applied (gw : Gateway) (e : Effect) (ev : Event) (t : Transition) (n : Z) (next : Effect) : Prop := {
  applied_ok : snapshot_ok pijson_DecodeValue gw e;
  applied_revision : ev_ExpectedRevision ev = ef_Revision e;
  applied_room : ef_EventCount e < MaxEvents (gw_bounds gw);
  applied_bytes : 0 <= n <= MaxEventBytes (gw_bounds gw);
  applied_moved : moved (gw_bounds gw) n ev e next;
  applied_budget : ef_Outcome next = NoOutcome ->
                   ef_EventCount e + 1 + minimumTerminalEvents next <= MaxEvents (gw_bounds gw);
  applied_effect : tr_Effect t = advance n next;
  applied_dispatch : tr_Dispatch t <> None <-> ev_Kind ev = EventBeginDispatch;
}.

Lemma moved_frame b n ev e e' : moved b n ev e e' ->
  ef_Admission e' = ef_Admission e /\ ef_Revision e' = ef_Revision e /\ ef_EventCount e' = ef_EventCount e /\
  ef_EventBytes e' = ef_EventBytes e.
Proof. destruct 1; unfold failing, resume; case_recovery; done. Qed.

Lemma effect_only_ok m t : effect_only m = Ok t -> exists e', m = Ok e' /\ t = MkTransition e' None None.
Proof. unfold effect_only. intros (e' & -> & [= <-])%bind_ok. by exists e'. Qed.

(** The event of each kind, checked and performed. *)
Lemma event_moved b e ev ev' n t : bounds_ok b -> counters_ok b e ->
  check_event pijson_DecodeValue b ev = Ok (ev', n) -> n <= MaxEventBytes b ->
  check_recovery e ev' = Ok tt -> next_effect b n ev' e = Ok t ->
  moved b n ev e (tr_Effect t) /\ 0 <= n /\ (tr_Dispatch t <> None <-> ev_Kind ev = EventBeginDispatch).
Proof.
  intros Hb Hc Hev Hn Hrec Hnext. unfold check_event in Hev. destruct (ev_Kind ev) eqn:Hk; try done.
  - apply reject_if_ok in Hev as [_ [= <- <-]]. unfold next_effect in Hnext. rewrite Hk in Hnext.
    apply bind_ok in Hnext as ([next cmd] & Hd & [= <-]). unfold begin_dispatch in Hd. rewrite !reject_if_ok in Hd.
    destruct Hd as (Hs & Ha & [= <- <-]). bools in Hs. bools in Ha. split_and!; [|done|done]. apply moved_begin; tauto.
  - apply reject_if_ok in Hev as [Ht [= <- <-]]. unfold next_effect in Hnext. rewrite Hk in Hnext.
    apply effect_only_ok in Hnext as (next & Hp & ->). apply reject_if_ok in Hp as [Hp [= <-]].
    rewrite !orb_false_iff, bad_text_false in Ht. bools in Hp. destruct Ht as [[[[[[[(? & ? & ? & ?) _] _] _] _] _] _] _].
    split_and!; [|apply strlen_nonneg|done]. apply moved_accepted; try done; [by split; tauto|]. by right.
  - apply reject_if_ok in Hev as [Ht [= <- <-]]. unfold next_effect in Hnext. rewrite Hk in Hnext.
    apply effect_only_ok in Hnext as (next & Hp & ->). bools in Ht.
    assert (0 < strlen (ev_Delta ev)) by (apply strlen_pos; tauto).
    split_and!; [|lia|done]. eapply delta_moved; try done. apply check_recovery_fact; [done|by rewrite Hk].
  - assert (exists r, ev' = event_with_response r ev) as [r ->].
    { unfold check_completed in Hev. destruct (ev_Response ev); [|done]. inv_ok Hev. case_match. inv_ok Hev.
      injection Hev as <- _. by eexists. }
    apply check_recovery_fact in Hrec; [|by unfold event_with_response; simpl; rewrite Hk].
    unfold next_effect in Hnext. cbn [event_with_response ev_Kind ev_Response] in Hnext. rewrite Hk in Hnext.
    apply effect_only_ok in Hnext as (next & Hp & ->).
    edestruct completed_moved as [Hm ?]; [done..| | |split_and!; try done].
    all: done.
  - apply reject_if_ok in Hev as [Hf Hev]. apply reject_if_ok in Hev as [_ [= <- <-]].
    rewrite bool_decide_eq_false in Hf. apply dec_stable in Hf.
    apply check_recovery_fact in Hrec; [|by simpl; rewrite Hk].
    unfold next_effect in Hnext. cbn [event_with_reason ev_Kind] in Hnext. rewrite Hk in Hnext.
    apply effect_only_ok in Hnext as (next & Hp & ->). split_and!; [by apply failed_moved|apply strlen_nonneg|done].
  - apply reject_if_ok in Hev as [_ [= <- <-]]. unfold next_effect in Hnext. rewrite Hk in Hnext.
    apply bind_ok in Hnext as ([next cmd] & Hd & [= <-]). split_and!; [by eapply cancel_moved|done|done].
  - apply reject_if_ok in Hev as [_ [= <- <-]]. unfold next_effect in Hnext. rewrite Hk in Hnext.
    apply effect_only_ok in Hnext as (next & Hp & ->). split_and!; [by apply resolved_moved|done|done].
Qed.

Lemma apply_moved gw e ev t : bounds_ok (gw_bounds gw) -> effect_words e ->
  Apply pijson_DecodeValue gw e ev = Ok t -> exists n next, applied gw e ev t n next.
Proof.
  intros Hb Hw. unfold Apply. intros ([] & Hv & H)%bind_ok. apply validate_spec in Hv as Hok; [|done..].
  rewrite !reject_if_ok in H. destruct H as (Hrev & Hlim & H). apply bind_ok in H as ([ev' n] & Hev & H).
  apply reject_if_ok in H as [Hn H]. apply bind_ok in H as ([] & Hrec & H). apply bind_ok in H as (t' & Hnext & H).
  apply reject_if_ok in H as [Hbud [= <-]]. bools in Hlim. bools in Hn. bools in Hrev.
  destruct (event_moved (gw_bounds gw) e ev ev' n t') as (Hm & Hn0 & Hd); try done; [apply Hok|tauto|].
  exists n, (tr_Effect t'). destruct (moved_frame _ _ _ _ _ Hm) as (_ & _ & Hcnt & _).
  pose proof (bounds_sizes _ Hb). destruct (ok_counters _ _ _ Hok) as [? _ _ _ _].
  split; try done; [lia|lia|]. intros Ho. rewrite Hcnt in Hbud. unfold u32 in Hbud. rewrite Z.mod_small in Hbud by lia.
  bools in Hbud. destruct Hbud as [?|?]; [done|lia].
Qed.

(** ** Snapshots after a step *)

(** The accepted events whose next snapshot the gateway itself refuses:
    cancelling a stream that a recovery permit continues, recovering a request
    after its cancellation was resolved with a permit, recovering a request that
    has no provider identity, a recovered pre-dispatch failure that would be
    retried, and a prevented dispatch of a snapshot that has a failure reason. *)
Definition strands (e : Effect) (ev : Event) : bool :=
  match ev_Kind ev with
  | EventDelta | EventResponseCompleted =>
      has_recovery ev && ((ef_CancellationPermit e != no_cancellation) || (ef_ProviderRequestID e == ""))
  | EventDispatchFailed =>
      has_recovery ev && ((ef_CancellationPermit e != no_cancellation)
                          || (ev_Failure ev == FailurePreDispatch)
                             && (ef_Attempt e <=? ad_MaxPreDispatchRetries (ef_Admission e)))
  | EventCancelRequested => (ef_State e == StateStreaming) && (ef_RecoveryPermit e != no_resume)
  | EventCancellationResolved =>
      has_cancellation ev && cp_DispatchPrevented (ev_Cancellation ev) && (ef_FailureReason e != "")
  | _ => false
  end.

Lemma has_recovery_spec ev : has_recovery ev = true <-> ev_Recovery ev <> no_resume.
Proof. apply bool_decide_eq_true. Qed.
Lemma no_recovery_spec ev : has_recovery ev = false <-> ev_Recovery ev = no_resume.
Proof. apply neq_test_false. Qed.

(** What each state says, as propositions. *)
Ltac state_facts H := unfold invalid_state in H; repeat match type of H with context [ef_State ?e] =>
  match goal with Hs : ef_State e = _ |- _ => rewrite Hs in H end end; bools in H; destruct_and?.

Lemma moved_texts b n ev e e' : bounds_ok b -> snapshot_texts b e -> moved b n ev e e' -> snapshot_texts b e'.
Proof.
  intros Hb [Hi Hr] Hm. assert (reason_text b "") by by left.
  assert (forall class, class ∈ failure_classes -> reason_text b (normalizedFailureReason b class)) as Hc.
  { intros class Hc. right. by exists class. }
  destruct Hm; unfold failing, resume; split; case_recovery; simpl; try done; apply Hc;
    unfold failure_classes; set_solver.
Qed.

Lemma moved_counters b n ev e e' : bounds_ok b -> effect_words e -> counters_ok b e -> ef_EventCount e < MaxEvents b ->
  0 <= n <= MaxEventBytes b -> moved b n ev e e' -> counters_ok b (advance n e').
Proof.
  intros Hb%bounds_sizes Hw [H1 H2 H3 H4 H5] Hlt Hn Hm. pose proof (moved_frame _ _ _ _ _ Hm) as (Ha & Hr & Hc & Hy).
  assert (0 <= ef_StreamBytes e' <= MaxStreamBytes b) as Hs.
  { destruct Hm; unfold failing, resume; case_recovery; simpl; lia. }
  assert (0 <= ef_Attempt e' <= u32 (ad_MaxPreDispatchRetries (ef_Admission e) + 1)) as Hat.
  { destruct Hm; unfold failing, resume; case_recovery; simpl; try lia.
    unfold u32 in *. pose proof (Z.mod_pos_bound (ad_MaxPreDispatchRetries (ef_Admission e) + 1) (2 ^ 32)).
    rewrite (Z.mod_small (ef_Attempt e + 1)) by lia. lia. }
  assert (ef_EventCount e * MaxEventBytes b <= 2 ^ 40) by nia.
  unfold advance, u64. rewrite Hr, Hc, Hy, (Z.mod_small (ef_EventBytes e + n)), (Z.mod_small (ef_Revision e + 1)) by lia.
  replace (u32 (ef_EventCount e + 1)) with (ef_EventCount e + 1) by (unfold u32; rewrite Z.mod_small; lia).
  split; simpl; rewrite ?Ha; try done; lia.
Qed.

(** A step starts from a state that has no response. *)
Definition open_state (s : State) : bool :=
  match s with
  | StateCompleted | StateFailed | StateCancelled | OtherState _ => false
  | _ => true
  end.

Lemma moved_open b n ev e e' : moved b n ev e e' -> open_state (ef_State e) = true.
Proof.
  by destruct 1; unfold unsent, answerable in *; destruct_or?; destruct_and?;
    match goal with Hs : ef_State e = _ |- _ => rewrite Hs end.
Qed.

Lemma open_unanswered e : invalid_state e = false -> open_state (ef_State e) = true -> ef_Response e = None.
Proof.
  intros Hi Ho. unfold invalid_state in Hi. destruct (ef_State e); try done; bools in Hi; by destruct_and?.
Qed.

Lemma resume_texts ev e :
  ef_ProviderRequestID (resume ev e) = ef_ProviderRequestID e /\ ef_PartialOutput (resume ev e) = ef_PartialOutput e /\
  (ef_FailureReason (resume ev e) = ef_FailureReason e \/ ef_FailureReason (resume ev e) = "").
Proof. unfold resume. case_recovery; simpl; tauto. Qed.

Lemma moved_unanswered_bytes b n ev e e' : moved b n ev e e' -> ef_Response e = None -> partial_matches e ->
  0 <= ef_StreamBytes e -> ef_Response e' = None -> 
  partial_matches e' /\ accounted_bytes e' <= accounted_bytes e + n.
Proof.
  intros Hm He Hp Hs Hn. pose proof (strlen_nonneg (ef_FailureReason e)).
  unfold partial_matches, accounted_bytes in *. change (strlen "") with 0.
  destruct Hm; unfold failing, resume, unsent in *; case_recovery; simpl in *; try done;
    change (strlen "") with 0; split; try done; try lia;
    repeat match goal with Hq : ef_State e = _ /\ _ |- _ => destruct Hq as (? & Hq & ?); rewrite Hq end;
    change (strlen "") with 0; try lia; split; try done; lia.
Qed.

Lemma moved_response b n ev e e' response : moved b n ev e e' -> ef_Response e = None -> ef_Response e' = Some response ->
  exists r, response = settled e r /\ response_fits b n r /\
            e' = set_state StateCompleted OutcomeCompleted (set_response (settled e r) (resume ev e)).
Proof.
  intros Hm Hn Hr. destruct Hm; unfold failing in *; try (destruct (has_recovery ev); simpl in *; congruence).
  { unfold resume in *. destruct (has_recovery ev); simpl in *; congruence. }
  injection Hr as <-. by exists response0.
Qed.

Lemma moved_bytes gw n ev e e' : bounds_ok (gw_bounds gw) -> effect_words e -> snapshot_ok pijson_DecodeValue gw e ->
  0 <= n <= MaxEventBytes (gw_bounds gw) -> moved (gw_bounds gw) n ev e e' ->
  counters_ok (gw_bounds gw) (advance n e') -> snapshot_texts (gw_bounds gw) (advance n e') ->
  validate_bytes pijson_DecodeValue (gw_bounds gw) (advance n e') = Ok tt.
Proof.
  intros Hb Hw Hok Hn Hm Hc Ht. pose proof (open_unanswered e (ok_state _ _ _ Hok) (moved_open _ _ _ _ _ Hm)) as Hnone.
  destruct (ok_accounted pijson_DecodeValue gw e) as [Hp Ha]; [done..|].
  pose proof (moved_frame _ _ _ _ _ Hm) as (Had & _ & _ & Hby). pose proof (ok_counters _ _ _ Hok) as Hce.
  assert (ef_EventBytes (advance n e') = ef_EventBytes e + n) as Hbytes.
  { simpl. rewrite Hby. apply u64_id. pose proof (count_bytes _ _ Hce). pose proof (events_fit _ _ Hb Hce).
    unfold u64_max in *. red. lia. }
  destruct (ef_Response e') as [response|] eqn:Hresp.
  - destruct (moved_response _ _ _ _ _ _ Hm Hnone Hresp) as (r & -> & (Hv & Hf & Hfl & (calls & m & Hcalls & ->) & Hmax) & ->).
    destruct (resume_texts ev e) as (Hi & Hpart & Hreason).
    apply (bytes_answered pijson_DecodeValue _ _ (settled e r) calls m); try done.
    + simpl. rewrite resume_admission. apply (admission_tokens gw); [done|apply Hok].
    + unfold partial_matches. simpl. by rewrite Hpart, resume_stream.
    + simpl. by rewrite resume_admission.
    + rewrite Hbytes. unfold accounted_bytes in *. simpl in *. rewrite Hi, resume_stream.
      change (response_bytes (settled e r) m) with (response_bytes r m).
      pose proof (strlen_nonneg (ef_FailureReason e)).
      destruct Hreason as [->| ->]; change (strlen "") with 0; lia.
  - apply bytes_unanswered; [done..|]. rewrite Hbytes.
    destruct (moved_unanswered_bytes _ _ _ _ _ Hm) as [Hp' Ha']; [done..|apply Hce|done|]. split; [done|].
    unfold accounted_bytes in *. simpl in *. lia.
Qed.

(** The state check of the next snapshot fails exactly on the stranding events. *)
Lemma moved_state b n ev e e' : bounds_ok b -> 0 <= ef_Attempt e -> invalid_state e = false -> moved b n ev e e' ->
  invalid_state (advance n e') = false <-> strands e ev = false.
Proof.
  intros Hb Hat Hi Hm. pose proof (reason_nonempty b (ev_Failure ev) Hb) as Hne.
  assert (forall m, ef_Attempt e < u32 m -> u32 (ef_Attempt e + 1) <> 0) as Hat'.
  { intros m Hlt. unfold u32 in *. pose proof (Z.mod_pos_bound m (2 ^ 32)). rewrite Z.mod_small; lia. }
  unfold strands, has_cancellation. destruct Hm; unfold unsent, answerable, recovery_fact in *;
    repeat match goal with Hk : ev_Kind ev = _ |- _ => rewrite Hk; clear Hk end;
    try match goal with Hlt : ef_Attempt e < u32 ?m |- _ => pose proof (Hat' m Hlt) end; clear Hat';
    destruct_or?; destruct_and?;
    repeat match goal with Hs : ef_State e = _ |- _ => state_facts Hi; try rewrite !Hs; clear Hs end.
  all: unfold invalid_state, failing, resume; destruct (has_recovery ev) eqn:Hr; simpl; try done.
  all: try (apply has_recovery_spec in Hr); try (apply no_recovery_spec in Hr).
  all: bools; intuition (congruence || lia).
Qed.

(** ** Permits *)
Definition permits_ok (e : Effect) : Prop :=
  (ef_CancellationPermit e = no_cancellation \/ validCancellationPermit e (ef_CancellationPermit e) = true) /\
  (ef_RecoveryPermit e = no_resume \/ validResumePermit e (ef_RecoveryPermit e) = true).

Lemma permits_spec e : invalid_permits e = false <-> permits_ok e.
Proof. unfold invalid_permits, permits_ok. bools. tauto. Qed.

(** A resume permit stays valid for the snapshot that stores it. *)
Lemma stored_resume e e' permit : permit <> no_resume -> validResumePermit e permit = true ->
  ef_Admission e' = ef_Admission e -> ef_ProviderRequestID e' = ef_ProviderRequestID e ->
  ef_Attempt e' = ef_Attempt e -> ef_RecoveryPermit e' = permit -> validResumePermit e' permit = true.
Proof.
  intros Hp Hv Ha Hi Hat Hr. unfold validResumePermit in *. rewrite Ha, Hi, Hat, Hr. bools in Hv. bools. tauto.
Qed.

(** A cancellation permit of the revision is valid for the next snapshot. *)
Lemma stored_cancellation e e' permit : permit <> no_cancellation -> validCancellationPermit e permit = true ->
  ef_CancellationPermit e = no_cancellation -> 0 <= ef_Revision e < u64_max ->
  ef_Admission e' = ef_Admission e -> ef_ProviderRequestID e' = ef_ProviderRequestID e ->
  ef_Attempt e' = ef_Attempt e -> ef_Revision e' = u64 (ef_Revision e + 1) -> ef_CancellationPermit e' = permit ->
  validCancellationPermit e' permit = true.
Proof.
  intros Hp Hv Hn Hrev Ha Hi Hat Hr Hc. unfold validCancellationPermit in *. rewrite Ha, Hi, Hat, Hr, Hc.
  rewrite Hn in Hv. bools in Hv. bools. unfold u64_max in *. rewrite u64_id by (red; lia).
  assert (cp_EffectRevision permit = ef_Revision e) as -> by tauto. rewrite u64_id by (red; lia).
  intuition lia.
Qed.

(** Only an uncertain effect keeps a cancellation permit while it can move. *)
Lemma open_cancellation e : invalid_state e = false -> open_state (ef_State e) = true ->
  ef_CancellationPermit e = no_cancellation \/ ef_State e = StateUncertain.
Proof.
  intros Hi Ho. unfold invalid_state in Hi. destruct (ef_State e); try done; try (by right); bools in Hi; left;
    by destruct_and?.
Qed.

Lemma moved_cancellation b n ev e e' : moved b n ev e e' -> invalid_state e = false -> strands e ev = false ->
  ef_CancellationPermit e = no_cancellation.
Proof.
  intros Hm Hi Hs. destruct (open_cancellation e Hi (moved_open _ _ _ _ _ Hm)) as [?|Hu]; [done|].
  unfold strands in Hs. destruct Hm; unfold unsent, answerable in *; rewrite Hu in *;
    destruct_or?; destruct_and?; try done;
    repeat match goal with Hk : ev_Kind ev = _ |- _ => rewrite Hk in Hs; clear Hk end;
    repeat match goal with Hk : has_recovery ev = true |- _ => rewrite Hk in Hs; clear Hk end; simpl in Hs;
    bools in Hs; tauto.
Qed.

Lemma early_permits e : invalid_state e = false ->
  ef_State e = StateAdmitted \/ ef_State e = StateRetryPending \/ ef_State e = StateDispatching ->
  ef_RecoveryPermit e = no_resume.
Proof.
  intros Hi Hs. unfold invalid_state in Hi. destruct Hs as [Hs|[Hs|Hs]]; rewrite Hs in Hi; bools in Hi; by destruct_and?.
Qed.

Lemma moved_permits b n ev e e' : moved b n ev e e' -> invalid_state e = false -> permits_ok e ->
  0 <= ef_Revision e < u64_max -> strands e ev = false -> permits_ok (advance n e').
Proof.
  intros Hm Hi [_ Hr] Hrev Hs. pose proof (moved_cancellation _ _ _ _ _ Hm Hi Hs) as Hc.
  assert (forall e2, ef_Admission e2 = ef_Admission e -> ef_ProviderRequestID e2 = ef_ProviderRequestID e ->
            ef_Attempt e2 = ef_Attempt e -> ef_RecoveryPermit e2 = ef_RecoveryPermit e ->
            ef_RecoveryPermit e2 = no_resume \/ validResumePermit e2 (ef_RecoveryPermit e2) = true) as Hsame.
  { intros e2 Ha Hid Hat He2. rewrite He2. destruct (decide (ef_RecoveryPermit e = no_resume)) as [|Hn]; [by left|right].
    destruct Hr as [?|Hr]; [done|]. by apply (stored_resume e). }
  split; destruct Hm; unfold failing, resume, recovery_fact, unsent in *.
  all: try (left; case_recovery; done).
  all: try (right; simpl; by apply (stored_cancellation e)).
  all: try (left; simpl; apply early_permits; tauto).
  all: try (by apply Hsame).
  all: destruct (has_recovery ev) eqn:Hrec; [right; apply has_recovery_spec in Hrec; by apply (stored_resume e)|by apply Hsame].
Qed.

(** ** The invariant *)
Lemma moved_words gw n ev e e' : bounds_ok (gw_bounds gw) -> effect_words e -> moved (gw_bounds gw) n ev e e' ->
  counters_ok (gw_bounds gw) (advance n e') -> effect_words (advance n e').
Proof.
  intros Hb%bounds_sizes [_ _ _ _ Ht Hr] Hm [H1 H2 H3 H4 H5]. destruct (moved_frame _ _ _ _ _ Hm) as (Ha & _).
  assert (0 <= u32 (ad_MaxPreDispatchRetries (ef_Admission e') + 1) < 2 ^ 32) by (apply Z.mod_pos_bound; lia).
  cbn [ef_Admission advance] in *. split; cbn [ef_Admission advance] in *; rewrite ?Ha; try done; try lia; nia.
Qed.

(** An accepted event leaves a snapshot the gateway accepts again, with its
    counters advanced by one event, except exactly for the stranding events: what
    [Apply] returns for a valid snapshot passes [validateEffect] if and only if
    the event is not one of those, and what it returns for them never does. *)
Theorem apply_keeps_snapshots gw e ev t :
  bounds_ok (gw_bounds gw) -> effect_words e -> Apply pijson_DecodeValue gw e ev = Ok t ->
  (validateEffect pijson_DecodeValue gw (tr_Effect t) = Ok tt <-> strands e ev = false) /\
  ef_Revision (tr_Effect t) = ef_Revision e + 1 /\ ef_EventCount (tr_Effect t) = ef_EventCount e + 1 /\
  ef_Admission (tr_Effect t) = ef_Admission e.
Proof.
  intros Hb Hw (n & next & [Hok Hrev Hroom Hn Hm Hbud -> Hd])%apply_moved; [|done..].
  pose proof (moved_frame _ _ _ _ _ Hm) as (Ha & Hr & Hcnt & _). pose proof (ok_counters _ _ _ Hok) as Hce.
  assert (counters_ok (gw_bounds gw) (advance n next)) as Hc by (by eapply moved_counters).
  assert (snapshot_texts (gw_bounds gw) (advance n next)) as Ht.
  { destruct (moved_texts _ _ _ _ _ Hb (ok_texts _ _ _ Hok) Hm). by split. }
  pose proof (moved_state _ _ _ _ _ Hb (proj1 (count_attempt _ _ Hce)) (ok_state _ _ _ Hok) Hm) as Hs.
  pose proof (bounds_sizes _ Hb). destruct Hce as [? Hre _ _ _].
  assert (ef_EventCount (advance n next) = ef_EventCount e + 1) as Hcount.
  { simpl. rewrite Hcnt. unfold u32. apply Z.mod_small. lia. }
  split_and!.
  - rewrite validate_spec; [|done|by eapply moved_words]. split; [intros Hok'; apply Hs, Hok'|]. intros Hns. split.
    + simpl. rewrite Ha. apply Hok.
    + done.
    + done.
    + apply permits_spec. eapply moved_permits; try done; [apply Hok|apply permits_spec, Hok|unfold u64_max; lia].
    + by eapply moved_bytes.
    + by apply Hs.
    + unfold over_budget. rewrite Hcount. apply andb_false_iff. rewrite Z.ltb_ge, bool_decide_eq_false.
      destruct (decide (ef_Outcome next = NoOutcome)) as [Ho|]; [right; by apply Hbud|by left].
  - rewrite (count_revision _ _ Hc), Hcount. lia.
  - done.
  - done.
Qed.
End Steps.
