(* ===== verification/ModelRuns.v ===== *)
(** * Model gateway: sequences of events

    [run] applies a sequence of events and collects the dispatch commands. The
    theorems follow one model effect from its admission: how often its request is
    sent, that an accepted request is never sent again, and that its snapshots stay
    valid and can be ended. *)

From S2P Require Import Prelude GoText GoCrypto Canonical Identity BrokerTypes ModelTypes ModelGateway ModelMachine ModelProofs.
#[local] Set Default Proof Using "Type*".
#[local] Open Scope string_scope.
#[local] Open Scope list_scope.
#[local] Open Scope Z_scope.
#[local] Open Scope go_scope.

Section Runs.
Context {NZ : Normalizer} (pijson_DecodeValue : Value -> bool) (gw : Gateway).
#[local] Abbreviation Apply := (ModelMachine.Apply pijson_DecodeValue gw).
#[local] Abbreviation validateEffect := (ModelGateway.validateEffect pijson_DecodeValue gw).

Fixpoint run (e : Effect) (evs : list Event) : res model_error (Effect * list DispatchCommand) :=
  match evs with
  | [] => Ok (e, [])
  | ev :: rest =>
      t ← Apply e ev;
      '(e', commands) ← run (tr_Effect t) rest;
      Ok (e', match tr_Dispatch t with Some command => command :: commands | None => commands end)
  end.

Context (Hb : bounds_ok (gw_bounds gw)).

Lemma apply_words e ev t : effect_words e -> Apply e ev = Ok t -> effect_words (tr_Effect t).
Proof.
  intros Hw (n & next & [Hok _ ? ? Hm _ -> _])%apply_moved; [|done..].
  eapply moved_words; try done. eapply moved_counters; try done. apply Hok.
Qed.

(** A property kept by every step is kept by a run. *)
Lemma run_ind (P : Effect -> Prop) (Q : DispatchCommand -> Prop) :
  (forall e ev t, effect_words e -> P e -> Apply e ev = Ok t ->
     P (tr_Effect t) /\ (forall command, tr_Dispatch t = Some command -> Q command)) ->
  forall evs e e' commands, effect_words e -> P e -> run e evs = Ok (e', commands) ->
    P e' /\ Forall Q commands.
Proof.
  intros Hstep. induction evs as [|ev evs IH]; intros e e' commands Hw HP; simpl; [intros [= <- <-]; by split|].
  intros (t & Ha & H)%bind_ok. apply bind_ok in H as ([e1 rest] & Hr & [= <- <-]).
  destruct (Hstep _ _ _ Hw HP Ha) as [HP' HQ].
  destruct (IH _ _ _ (apply_words _ _ _ Hw Ha) HP' Hr) as [? ?]. split; [done|].
  destruct (tr_Dispatch t); [|done]. apply Forall_cons. auto.
Qed.

(** ** Final states *)
Lemma final_refuses e ev : effect_words e -> open_state (ef_State e) = false -> is_ok (Apply e ev) = false.
Proof.
  intros Hw Ho. destruct (Apply e ev) as [t|] eqn:Ha; [|done].
  apply apply_moved in Ha as (n & next & [_ _ _ _ Hm _ _ _]); [|done..]. apply moved_open in Hm. congruence.
Qed.

(** ** Dispatches *)

(** The command is the effect's own request, for its current attempt. *)
Definition command_of (e : Effect) : DispatchCommand :=
  let ad := ef_Admission e in
  MkDispatchCommand (ad_ProviderID ad) (ad_Scope ad) (va_EffectID (ad_Scope ad)) (va_InvocationID (ad_Scope ad))
    (ad_RequestDigest ad) (ad_QuotaPermit ad) (ad_Request ad) (ef_Attempt e).

Lemma apply_dispatch e ev t command : Apply e ev = Ok t -> tr_Dispatch t = Some command ->
  command = command_of (tr_Effect t).
Proof.
  unfold ModelMachine.Apply. intros Ha Hd. apply bind_ok in Ha as (_ & _ & Ha). rewrite !reject_if_ok in Ha.
  destruct Ha as (_ & _ & Ha). apply bind_ok in Ha as ([ev' n] & _ & Ha). apply reject_if_ok in Ha as [_ Ha].
  apply bind_ok in Ha as (_ & _ & Ha). apply bind_ok in Ha as (t' & Hn & Ha). apply reject_if_ok in Ha as [_ [= <-]].
  simpl in Hd. unfold next_effect in Hn. destruct (ev_Kind ev').
  - apply bind_ok in Hn as ([next c] & Hg & [= <-]). unfold begin_dispatch in Hg. rewrite !reject_if_ok in Hg.
    destruct Hg as (_ & _ & [= <- <-]). by injection Hd as <-.
  - by apply effect_only_ok in Hn as (? & _ & ->).
  - by apply effect_only_ok in Hn as (? & _ & ->).
  - destruct (ev_Response ev'); [|done]. by apply effect_only_ok in Hn as (? & _ & ->).
  - by apply effect_only_ok in Hn as (? & _ & ->).
  - by apply bind_ok in Hn as ([? ?] & _ & [= <-]).
  - by apply effect_only_ok in Hn as (? & _ & ->).
  - done.
Qed.

(** An event dispatches only from a snapshot that no provider has accepted, and
    raises the attempt by one; every other event keeps it. *)
Lemma apply_attempt e ev t : effect_words e -> Apply e ev = Ok t ->
  0 <= ef_Attempt (tr_Effect t) <= ad_MaxPreDispatchRetries (ef_Admission e) + 1 /\
  ef_Admission (tr_Effect t) = ef_Admission e /\
  match tr_Dispatch t with
  | Some _ => ef_ProviderRequestID e = "" /\ ef_Attempt (tr_Effect t) = ef_Attempt e + 1
  | None => ef_Attempt (tr_Effect t) = ef_Attempt e
  end /\
  (ef_ProviderRequestID e <> "" -> ef_ProviderRequestID (tr_Effect t) = ef_ProviderRequestID e).
Proof.
  intros Hw (n & next & [Hok _ ? ? Hm _ Ht Hd])%apply_moved; [|done..].
  pose proof (moved_frame _ _ _ _ _ _ Hm) as (Ha & _). rewrite Ht. cbn [ef_Admission ef_Attempt ef_ProviderRequestID advance].
  assert (counters_ok (gw_bounds gw) (advance n next)) as Hc by (eapply moved_counters; try done; apply Hok).
  destruct Hc as [_ _ _ _ Hat]. cbn [ef_Attempt advance ef_Admission] in Hat. rewrite Ha in Hat.
  destruct Hw as [_ _ _ Hwa _ Hwr].
  assert (u32 (ad_MaxPreDispatchRetries (ef_Admission e) + 1) <= ad_MaxPreDispatchRetries (ef_Admission e) + 1).
  { unfold u32. apply Z.mod_le; lia. }
  assert (ef_State e = StateAdmitted \/ ef_State e = StateRetryPending -> ef_ProviderRequestID e = "") as Hearly.
  { intros Hs. pose proof (ok_state _ _ _ Hok) as Hi. unfold invalid_state in Hi.
    destruct Hs as [Hs|Hs]; rewrite Hs in Hi; bools in Hi; by destruct_and?. }
  split; [lia|]. split; [done|].
  assert (tr_Dispatch t <> None \/ tr_Dispatch t = None /\ ev_Kind ev <> EventBeginDispatch) as [Hs|[-> Hk]].
  { destruct (tr_Dispatch t); [by left|right]. split; [done|]. naive_solver. }
  - destruct (tr_Dispatch t); [|done]. destruct Hm; try (exfalso; naive_solver congruence).
    simpl. pose proof (Z.mod_pos_bound (ad_MaxPreDispatchRetries (ef_Admission e) + 1) (2 ^ 32)).
    unfold u32 in *. rewrite Z.mod_small in Hat by lia. rewrite Z.mod_small by lia. auto.
  - destruct Hm; try done; unfold failing, resume; try destruct (has_recovery ev); simpl; try done.
    all: split; [done|]. all: unfold unsent in *; naive_solver.
Qed.

(** The command for attempt [k] of an admitted request. *)
Definition command_at (ad : Admission) (k : Z) : DispatchCommand :=
  MkDispatchCommand (ad_ProviderID ad) (ad_Scope ad) (va_EffectID (ad_Scope ad)) (va_InvocationID (ad_Scope ad))
    (ad_RequestDigest ad) (ad_QuotaPermit ad) (ad_Request ad) k.

Lemma run_commands evs : forall e e' commands, effect_words e -> run e evs = Ok (e', commands) ->
  commands = map (command_at (ef_Admission e)) (seqZ (ef_Attempt e + 1) (ef_Attempt e' - ef_Attempt e)) /\
  ef_Attempt e <= ef_Attempt e' /\ ef_Admission e' = ef_Admission e /\
  (evs <> [] -> ef_Attempt e' <= ad_MaxPreDispatchRetries (ef_Admission e) + 1).
Proof.
  induction evs as [|ev evs IH]; intros e e' commands Hw; simpl.
  { intros [= <- <-]. rewrite Z.sub_diag. by split_and!. }
  intros (t & Ha & H)%bind_ok. apply bind_ok in H as ([e1 rest] & Hr & [= <- <-]).
  destruct (IH _ _ _ (apply_words _ _ _ Hw Ha) Hr) as (-> & Hle & Had & Hmax).
  pose proof (apply_dispatch e ev t) as Hcmd. destruct (apply_attempt e ev t Hw Ha) as (Hat & Had' & Hd & _).
  rewrite Had' in *. split_and!; [|destruct (tr_Dispatch t); lia|done|].
  - destruct (tr_Dispatch t) as [command|].
    + specialize (Hcmd command Ha eq_refl) as ->. destruct Hd as [_ Hd].
      rewrite (seqZ_cons _ (ef_Attempt e1 - ef_Attempt e)) by lia. simpl. unfold command_of. rewrite Had', Hd.
      unfold command_at at 2. f_equal. f_equal; f_equal; lia.
    + by rewrite Hd.
  - intros _. destruct evs as [|ev' evs]; [|by apply Hmax]. simpl in Hr. injection Hr as <- _. lia.
Qed.

(** An admitted request is sent to its provider at most once for each permitted
    attempt: the dispatch commands of any sequence of accepted events carry the
    attempts 1, 2, ... in order, each the admitted request under the admitted
    scope, digest and quota permit, and there are at most the configured retries
    plus one. *)
Theorem dispatches_bounded e evs e' commands :
  effect_words e -> validateEffect e = Ok tt -> ef_State e = StateAdmitted ->
  run e evs = Ok (e', commands) ->
  commands = map (command_at (ef_Admission e)) (seqZ 1 (ef_Attempt e')) /\
  zlen commands <= ad_MaxPreDispatchRetries (ef_Admission e) + 1.
Proof.
  intros Hw Hv Hs Hr. apply validate_spec in Hv as Hok; [|done..].
  assert (ef_Attempt e = 0) as H0.
  { pose proof (ok_state _ _ _ Hok) as Hi. unfold invalid_state in Hi. rewrite Hs in Hi. bools in Hi. by destruct_and?. }
  destruct (run_commands _ _ _ _ Hw Hr) as (-> & Hle & _ & Hmax). rewrite H0, Z.sub_0_r in *. split; [done|].
  unfold zlen. rewrite length_map, length_seqZ, Z2Nat.id by lia.
  destruct evs; [|by apply Hmax]. injection Hr as <- _. destruct Hw. lia.
Qed.

(** Once a provider has accepted a request, no sequence of events sends it
    again or changes the provider's identity for it, and an effect that completed,
    failed or was cancelled accepts no further event. *)
Theorem accepted_never_redispatched e evs e' commands :
  effect_words e -> ef_ProviderRequestID e <> "" \/ open_state (ef_State e) = false ->
  run e evs = Ok (e', commands) ->
  commands = [] /\ ef_ProviderRequestID e' = ef_ProviderRequestID e /\
  (open_state (ef_State e) = false -> evs = []).
Proof.
  intros Hw Hacc Hr.
  assert (open_state (ef_State e) = false -> evs = []) as Hfinal.
  { intros Ho. destruct evs as [|ev evs]; [done|]. simpl in Hr. apply bind_ok in Hr as (t & Ha & _).
    pose proof (final_refuses e ev Hw Ho) as Hf. by rewrite Ha in Hf. }
  destruct Hacc as [Hacc|Ho]; [|by rewrite (Hfinal Ho) in *; injection Hr as <- <-].
  destruct (run_ind (fun e1 => ef_ProviderRequestID e1 = ef_ProviderRequestID e) (fun _ => False)) with evs e e' commands
    as [? Hnone]; try done.
  - intros e1 ev t Hw1 Hid Ha. destruct (apply_attempt e1 ev t Hw1 Ha) as (_ & _ & Hd & Hkeep). rewrite Hid in *.
    split; [auto|]. intros command Hc. rewrite Hc in Hd. naive_solver.
  - split_and!; try done. by destruct Hnone.
Qed.

(** A stranding event leaves a snapshot that is not valid. *)
Lemma stranded_invalid e ev t : effect_words e -> Apply e ev = Ok t -> strands e ev = true -> exists err, validateEffect (tr_Effect t) = Err err.
Proof.
  intros Hw Ha Hs. destruct (apply_keeps_snapshots _ _ _ _ _ Hb Hw Ha) as [Hv _].
  destruct (validateEffect (tr_Effect t)) as [[]|err]; [|by exists err]. rewrite (proj1 Hv eq_refl) in Hs. done.
Qed.

(** The events took [e] to its snapshot, the last of them one that strands it. *)
Definition stranded_by (e : Effect) (evs : list Event) : Prop :=
  exists before ev e1 commands, evs = before ++ [ev] /\ run e before = Ok (e1, commands) /\ strands e1 ev = true.

(** The snapshots of a history that starts with a valid one are valid, the budget of events
    included, except after an event that strands it. *)
Lemma run_valid evs : forall e e' commands, effect_words e -> validateEffect e = Ok tt -> run e evs = Ok (e', commands) ->
  effect_words e' /\ (validateEffect e' = Ok tt \/ stranded_by e evs).
Proof.
  induction evs as [|ev evs IH]; intros e e' commands Hw Hv; simpl; [intros [= <- <-]; by split; [|left]|].
  intros (t & Ha & H)%bind_ok. apply bind_ok in H as ([e1 rest] & Hr & [= <- <-]). pose proof (apply_words _ _ _ Hw Ha) as Hw'.
  destruct (apply_keeps_snapshots _ _ _ _ _ Hb Hw Ha) as [Hkeep _]. destruct evs as [|ev2 evs].
  - simpl in Hr. injection Hr as <- _. split; [done|]. destruct (strands e ev) eqn:Hs; [right|left; by apply Hkeep].
    exists [], ev, e, []. by split_and!.
  - assert (validateEffect (tr_Effect t) = Ok tt) as Hv'.
    { simpl in Hr. apply bind_ok in Hr as (t2 & Ha2 & _). unfold ModelMachine.Apply in Ha2. by apply bind_ok in Ha2 as ([] & Hv2 & _). }
    destruct (IH _ _ _ Hw' Hv' Hr) as [Hwe [He|(before & evl & el & cs & -> & Hrun & Hs)]]; split; [done|by left|done|right].
    exists (ev :: before), evl, el. eexists. split; [done|]. split; [|done]. simpl. rewrite Ha. cbn [mbind res_bind]. rewrite Hrun. done.
Qed.

(** ** Finishing *)
Definition plain_event (e : Effect) (kind : EventKind) : Event :=
  MkEvent (ef_Revision e) kind "" "" None NoFailure "" false no_cancellation no_resume.

Definition lost_event (e : Effect) : Event :=
  MkEvent (ef_Revision e) EventDispatchFailed "" "" None FailureTransportUnknown
    (normalizedFailureReason (gw_bounds gw) FailureTransportUnknown) false no_cancellation (ef_RecoveryPermit e).

Definition ending_event (e : Effect) : Event :=
  match ef_State e with
  | StateAdmitted | StateRetryPending => plain_event e EventCancelRequested
  | StateCancellationPending => plain_event e EventCancellationResolved
  | _ => lost_event e
  end.

(** The steps of [Apply] that concern only the snapshot and the event's size. *)
Lemma apply_intro e ev ev' n t :
  effect_words e -> validateEffect e = Ok tt -> ev_ExpectedRevision ev = ef_Revision e ->
  ef_EventCount e < MaxEvents (gw_bounds gw) ->
  check_event pijson_DecodeValue (gw_bounds gw) ev = Ok (ev', n) -> 0 <= n <= MaxEventBytes (gw_bounds gw) ->
  check_recovery e ev' = Ok tt -> next_effect (gw_bounds gw) n ev' e = Ok t ->
  ef_EventCount (tr_Effect t) = ef_EventCount e ->
  (ef_Outcome (tr_Effect t) = NoOutcome ->
   ef_EventCount e + 1 + minimumTerminalEvents (tr_Effect t) <= MaxEvents (gw_bounds gw)) ->
  Apply e ev = Ok (MkTransition (advance n (tr_Effect t)) (tr_Dispatch t) (tr_Cancel t)).
Proof.
  intros Hw Hv Hrev Hroom Hev Hn Hrec Hnext Hcnt Hbud. unfold ModelMachine.Apply.
  apply validate_spec in Hv as Hok; [|done..]. pose proof (ok_counters _ _ _ Hok) as Hc.
  pose proof (events_fit _ _ Hb Hc). pose proof (bounds_sizes _ Hb). destruct Hc as [? ? ? ? ?].
  rewrite Hv. cbn [mbind res_bind]. rewrite !reject_if_ok. split_and!.
  - by rewrite neq_test_false.
  - bools. unfold u64_max. lia.
  - rewrite Hev. cbn [mbind res_bind]. rewrite reject_if_ok. split; [bools; lia|]. rewrite Hrec. cbn [mbind res_bind].
    rewrite Hnext. cbn [mbind res_bind]. rewrite reject_if_ok, Hcnt. split; [|done]. bools.
    unfold u32. rewrite Z.mod_small by lia. destruct (decide (ef_Outcome (tr_Effect t) = NoOutcome)); [right|by left].
    apply Hbud. done.
Qed.

Lemma lost_event_check e : check_event pijson_DecodeValue (gw_bounds gw) (lost_event e) =
  Ok (lost_event e, strlen (normalizedFailureReason (gw_bounds gw) FailureTransportUnknown)).
Proof.
  unfold check_event, lost_event. simpl ev_Kind. cbn match. rewrite !reject_if_ok. split_and!; [done| |done].
  rewrite !orb_false_iff, bad_text_false. simpl.
  destruct (printable_text _ (reason_printable (gw_bounds gw) FailureTransportUnknown)).
  pose proof (reason_length (gw_bounds gw) FailureTransportUnknown Hb).
  split_and!; try done; [by apply reason_nonempty|lia].
Qed.

Lemma lost_event_next n e :
  ef_State e = StateDispatching \/ ef_State e = StateDispatched \/ ef_State e = StateStreaming ->
  next_effect (gw_bounds gw) n (lost_event e) e =
  Ok (MkTransition (set_state StateUncertain OutcomeUncertain (failing (gw_bounds gw) (lost_event e) e)) None None).
Proof.
  intros Hs. unfold next_effect. cbn [ev_Kind lost_event]. unfold effect_only, dispatch_failed.
  cbn [ev_Failure ev_Reason ev_Recovery lost_event]. unfold failing. cbn [ev_Failure ev_Recovery lost_event].
  rewrite bind_ok. eexists. split; [|done]. rewrite reject_if_ok. split; [|done]. bools. left.
  by case_recovery; simpl; destruct Hs as [->|[->| ->]]; naive_solver.
Qed.

Lemma no_recovery_check e kind : recovery_kind kind = false -> check_recovery e (plain_event e kind) = Ok tt.
Proof.
  intros Hk. unfold check_recovery, has_recovery. simpl. rewrite Hk. by rewrite andb_false_r.
Qed.

Lemma bytes_room : 0 <= 0 <= MaxEventBytes (gw_bounds gw).
Proof. pose proof (bounds_sizes _ Hb). lia. Qed.

(** The event that ends an effect, from each group of states. *)
Lemma cancel_ends e : effect_words e -> validateEffect e = Ok tt -> ef_EventCount e < MaxEvents (gw_bounds gw) ->
  ef_State e = StateAdmitted \/ ef_State e = StateRetryPending ->
  exists t, Apply e (plain_event e EventCancelRequested) = Ok t /\ ef_Outcome (tr_Effect t) = OutcomeCancelled.
Proof.
  intros Hw Hv Hroom Hs.
  assert (next_effect (gw_bounds gw) 0 (plain_event e EventCancelRequested) e =
          Ok (MkTransition (set_reason "" (set_state StateCancelled OutcomeCancelled e)) None None)).
  { unfold next_effect, cancel_requested. simpl ev_Kind. by destruct Hs as [-> | ->]. }
  eexists. split; [eapply apply_intro; try done; [apply bytes_room|by apply no_recovery_check]|done].
Qed.

Lemma resolve_ends e : effect_words e -> validateEffect e = Ok tt -> ef_EventCount e < MaxEvents (gw_bounds gw) ->
  ef_State e = StateCancellationPending ->
  exists t, Apply e (plain_event e EventCancellationResolved) = Ok t /\ ef_Outcome (tr_Effect t) = OutcomeUncertain.
Proof.
  intros Hw Hv Hroom Hs.
  assert (next_effect (gw_bounds gw) 0 (plain_event e EventCancellationResolved) e =
          Ok (MkTransition (set_state StateUncertain OutcomeUncertain e) None None)).
  { unfold next_effect, cancellation_resolved. simpl ev_Kind. by rewrite Hs. }
  eexists. split; [eapply apply_intro; try done; [apply bytes_room|by apply no_recovery_check]|done].
Qed.

Lemma loss_ends e : effect_words e -> validateEffect e = Ok tt -> ef_EventCount e < MaxEvents (gw_bounds gw) ->
  ef_State e = StateDispatching \/ ef_State e = StateDispatched \/ ef_State e = StateStreaming ->
  exists t, Apply e (lost_event e) = Ok t /\ ef_Outcome (tr_Effect t) = OutcomeUncertain.
Proof.
  intros Hw Hv Hroom Hs. apply validate_spec in Hv as Hok; [|done..].
  pose proof (lost_event_next (strlen (normalizedFailureReason (gw_bounds gw) FailureTransportUnknown)) e Hs).
  assert (check_recovery e (lost_event e) = Ok tt) as Hrec.
  { unfold check_recovery, has_recovery, recovery_kind. simpl. pose proof (ok_permits _ _ _ Hok) as [_ Hp]%permits_spec.
    rewrite reject_if_ok, last_check. case_bool_decide; simpl; [|done]. destruct Hp as [?|Hp]; [done|]. by rewrite Hp. }
  pose proof (reason_length (gw_bounds gw) FailureTransportUnknown Hb) as Hlen.
  eexists. split; [eapply apply_intro; try done; [apply lost_event_check|lia|]|done].
  unfold failing. simpl. by case_recovery.
Qed.

(** Every valid snapshot without an outcome accepts an event that ends it: a cancellation
    before dispatch, otherwise the classification of the request as uncertain. *)
Lemma valid_can_finish e : effect_words e -> validateEffect e = Ok tt -> ef_Outcome e = NoOutcome ->
  exists t, Apply e (ending_event e) = Ok t /\ validateEffect (tr_Effect t) = Ok tt /\
            ef_Outcome (tr_Effect t) = match ef_State e with
                                       | StateAdmitted | StateRetryPending => OutcomeCancelled
                                       | _ => OutcomeUncertain
                                       end.
Proof.
  intros Hw Hv Ho. apply validate_spec in Hv as Hok; [|done..].
  pose proof (ok_state _ _ _ Hok) as Hi. pose proof (ok_budget _ _ _ Hok) as Hbud. unfold over_budget in Hbud.
  rewrite Ho in Hbud. simpl in Hbud. apply Z.ltb_ge in Hbud.
  assert (ef_EventCount e < MaxEvents (gw_bounds gw)) as Hroom.
  { unfold minimumTerminalEvents, invalid_state in *.
    destruct (ef_State e); try (bools in Hi; destruct_and?; congruence); try case_match; try lia. }
  assert (forall o, (exists t, Apply e (ending_event e) = Ok t /\ ef_Outcome (tr_Effect t) = o) ->
            strands e (ending_event e) = false ->
            exists t, Apply e (ending_event e) = Ok t /\ validateEffect (tr_Effect t) = Ok tt /\
                      ef_Outcome (tr_Effect t) = o) as Hend.
  { intros o (t & Ha & Hout) Hs. exists t. split_and!; [done| |done]. by apply (apply_keeps_snapshots _ _ _ _ _ Hb Hw Ha). }
  unfold ending_event in *. unfold invalid_state in Hi.
  destruct (ef_State e) eqn:Hs; try (bools in Hi; destruct_and?; congruence); apply Hend;
    try (by apply cancel_ends; tauto); try (by apply resolve_ends; tauto); try (by apply loss_ends; tauto).
  all: unfold strands; cbn [ev_Kind ev_Failure plain_event lost_event]; rewrite ?Hs; try done.
  all: bools in Hi; destruct_and?; bools; right; split; [done|by left].
Qed.
End Runs.
