(* ===== verification/ModelExecutor.v ===== *)
(** * Model gateway: admission, execution and settlement
    ([internal/modelgateway/gateway.go], [executor.go], [types.go], [provider.go])

    The operations that call the gateway's dependencies: the authority validator,
    the token counter, the quota service, the durable dispatch coordinator and the
    providers. They are parameters: [Deps] gives the answer of each to the calls
    made so far, so any stateful service can stand there, and an operation threads
    the trace of calls. *)

From S2P Require Import Prelude Calls GoText GoCrypto Canonical Identity BrokerTypes ModelTypes ModelGateway ModelMachine.
#[local] Open Scope string_scope.
#[local] Open Scope list_scope.
#[local] Open Scope Z_scope.
#[local] Open Scope go_scope.

(** ** Requests and answers *)
Record AdmissionAuthorityRequest := MkAuthorityRequest {
  ar_EffectID : ID; ar_InvocationID : ID; ar_RequestDigest : Digest; ar_Permission : string;
}.

Record AdmissionRequest := MkAdmissionRequest {
  aq_Authority : bytes; aq_EffectID : ID; aq_InvocationID : ID; aq_RequestDigest : Digest; aq_Request : ModelRequest;
}.

Record TokenCountRequest := MkTokenCount { tq_Model : string; tq_Messages : list Message }.

Record QuotaRequest := MkQuotaRequest {
  qr_TenantID : ID; qr_UserID : ID; qr_SessionID : ID; qr_TurnID : ID; qr_EffectID : ID; qr_InvocationID : ID;
  qr_RuntimeRevision : ID; qr_Generations : Generations; qr_RequestDigest : Digest;
  qr_ContextTokens : Z; qr_OutputTokens : Z;
}.

Record ProviderAvailability := MkAvailability { pa_Available : bool; pa_DurableRequestRetrieval : bool }.

Record DispatchPermit := MkDispatchPermit {
  dp_Proof : Digest; dp_Durable : bool; dp_Scope : ValidatedAuthority; dp_EffectID : ID; dp_InvocationID : ID;
  dp_RequestDigest : Digest; dp_ProviderID : string; dp_Attempt : Z; dp_EffectRevision : Z;
}.

Record SettlementPermit := MkSettlementPermit {
  sp_Proof : Digest; sp_Durable : bool; sp_CurrentScope : ValidatedAuthority; sp_EffectID : ID; sp_InvocationID : ID;
  sp_RequestDigest : Digest; sp_EffectRevision : Z; sp_TerminalDigest : Digest; sp_ReservationID : string;
}.
#[global] Instance SettlementPermit_eq_dec : EqDecision SettlementPermit.
Proof. solve_decision. Defined.

Inductive UncertainResolution := UncertainResolutionConsume | UncertainResolutionRelease | OtherResolution (s : string).
#[global] Instance UncertainResolution_eq_dec : EqDecision UncertainResolution.
Proof. solve_decision. Defined.

Record UncertainResolutionPermit := MkResolutionPermit {
  up_Proof : Digest; up_Durable : bool; up_CurrentScope : ValidatedAuthority; up_EffectID : ID; up_InvocationID : ID;
  up_RequestDigest : Digest; up_TerminalDigest : Digest; up_ReservationID : string; up_Decision : UncertainResolution;
}.
#[global] Instance UncertainResolutionPermit_eq_dec : EqDecision UncertainResolutionPermit.
Proof. solve_decision. Defined.
Definition no_resolution : UncertainResolutionPermit :=
  MkResolutionPermit zero_digest false no_authority no_id no_id zero_digest zero_digest "" (OtherResolution "").

Inductive QuotaDisposition := QuotaDispositionConsume | QuotaDispositionRelease | QuotaDispositionHold.
#[global] Instance QuotaDisposition_eq_dec : EqDecision QuotaDisposition.
Proof. solve_decision. Defined.

Record QuotaSettlementRequest := MkSettlementRequest {
  qs_Permit : QuotaPermit; qs_Authorization : SettlementPermit; qs_Recovery : ResumePermit;
  qs_Resolution : UncertainResolutionPermit; qs_Outcome : Outcome; qs_Disposition : QuotaDisposition; qs_Usage : Usage;
  qs_ProviderRequestID : string; qs_Attempt : Z;
}.

Record QuotaSettlementReceipt := MkReceipt {
  qt_ReservationID : string; qt_EffectID : ID; qt_InvocationID : ID; qt_RequestDigest : Digest; qt_Outcome : Outcome;
  qt_Disposition : QuotaDisposition; qt_Usage : Usage; qt_ProviderRequestID : string; qt_Attempt : Z; qt_Durable : bool;
  qt_Authorization : SettlementPermit; qt_Recovery : ResumePermit; qt_Resolution : UncertainResolutionPermit;
}.

Record SettlementAuthorityRequest := MkSettlementAuthority {
  sa_Scope : ValidatedAuthority; sa_RequestDigest : Digest; sa_ProviderRequestID : string; sa_Attempt : Z;
  sa_EffectRevision : Z; sa_State : State; sa_Outcome : Outcome; sa_Usage : Usage; sa_TerminalDigest : Digest;
}.

Record Settlement := MkSettlement {
  se_Scope : ValidatedAuthority; se_RequestDigest : Digest; se_Outcome : Outcome; se_ProviderRequestID : string;
  se_Attempt : Z; se_PartialOutput : bool; se_NeedsConfirmation : bool; se_FailureReason : string;
  se_Response : option ModelResponse; se_QuotaReceipt : QuotaSettlementReceipt;
}.

(** The error of a provider's [Dispatch], as [errors.As] classifies it. *)
Inductive DispatchError := DefinitelyNotSent | UnknownDispatchError.

(** The streams are the provider's; the gateway closes or passes them on. *)
Record ProviderDispatchResult := MkDispatchResult { pr_ProviderRequestID : string; pr_Stream : option nat }.

Record ProviderResumeCommand := MkResumeCommand {
  pc_ProviderID : string; pc_Scope : ValidatedAuthority; pc_OriginScope : ValidatedAuthority; pc_EffectID : ID;
  pc_InvocationID : ID; pc_RequestDigest : Digest; pc_ProviderRequestID : string; pc_Attempt : Z; pc_Permit : ResumePermit;
}.

(** ** Calls to the dependencies *)
Inductive Call :=
| CallValidateAdmission (authority : bytes) (request : AdmissionAuthorityRequest)
| CallValidateSettlement (authority : bytes) (request : SettlementAuthorityRequest)
| CallCount (request : TokenCountRequest)
| CallAvailability (provider : string)
| CallQuotaAdmit (request : QuotaRequest)
| CallQuotaSettle (request : QuotaSettlementRequest)
| CallCommitDispatch (expected : Z) (scope : ValidatedAuthority) (effect : Effect) (command : DispatchCommand)
| CallBeginDispatch (permit : DispatchPermit)
| CallProviderDispatch (provider : string) (command : DispatchCommand) (permit : DispatchPermit)
| CallCommitAccepted (expected : Z) (permit : DispatchPermit) (effect : Effect)
| CallCommitCancellation (expected : Z) (scope : ValidatedAuthority) (effect : Effect) (command : CancelCommand)
| CallProviderCancel (provider : string) (command : CancelCommand) (permit : CancellationPermit)
| CallCommitResume (scope : ValidatedAuthority) (effect : Effect)
| CallProviderResume (command : ProviderResumeCommand)
| CallCommitSettlement (expected : Z) (scope : ValidatedAuthority) (effect : Effect) (terminalDigest : Digest)
| CallCommitResolution (scope : ValidatedAuthority) (effect : Effect) (terminalDigest : Digest) (decision : UncertainResolution)
| CallCloseStream (stream : nat).
Abbreviation trace := (list Call).

(** The answers, given the calls made before (the latest last). *)
Record Deps := MkDeps {
  ctx_Err : trace -> option model_error;
  authority_ValidateAdmission : trace -> bytes -> AdmissionAuthorityRequest -> res model_error ValidatedAuthority;
  authority_ValidateSettlement : trace -> bytes -> SettlementAuthorityRequest -> res model_error ValidatedAuthority;
  tokenCounter_Count : trace -> TokenCountRequest -> res model_error Z;
  provider_Availability : trace -> string -> res model_error ProviderAvailability;
  provider_retrieves : string -> bool;
  quota_Admit : trace -> QuotaRequest -> res model_error QuotaPermit;
  quota_Settle : trace -> QuotaSettlementRequest -> res model_error QuotaSettlementReceipt;
  dispatches_CommitDispatch : trace -> Effect -> res model_error DispatchPermit;
  dispatches_Begin : trace -> DispatchPermit -> option model_error;
  provider_Dispatch : trace -> string -> DispatchCommand -> ProviderDispatchResult * option DispatchError;
  dispatches_CommitAccepted : trace -> Effect -> option model_error;
  dispatches_CommitCancellation : trace -> Effect -> res model_error CancellationPermit;
  dispatches_CommitResume : trace -> Effect -> res model_error ResumePermit;
  provider_Resume : trace -> ProviderResumeCommand -> res model_error (option nat);
  dispatches_CommitSettlement : trace -> Effect -> Digest -> res model_error SettlementPermit;
  dispatches_CommitResolution : trace -> Effect -> Digest -> UncertainResolution -> res model_error UncertainResolutionPermit;
  stream_Close : trace -> nat -> option model_error;
}.

(** The computations of this component. *)
Abbreviation M := (CallM Call model_error).
#[local] Open Scope call_scope.

Section Operations.
Context {NZ : Normalizer} (pijson_DecodeValue : Value -> bool) (gw : Gateway) (deps : Deps).
#[local] Abbreviation b := (gw_bounds gw).

Definition bad_authority (authority : bytes) : bool :=
  (zlen authority =? 0) || (MaxAuthorityBytes b <? zlen authority).

Definition with_effort (effort : string) (request : ModelRequest) : ModelRequest :=
  MkModelRequest (mr_Model request) (mr_Messages request) (mr_MaxOutputTokens request) effort.

(** ** [Admit] *)
Definition permit_mismatch (q : QuotaRequest) (permit : QuotaPermit) : bool :=
  negb (qp_Durable permit) || (qp_ReservationID permit == "") || (256 <? strlen (qp_ReservationID permit))
  || negb (utf8_ValidString (qp_ReservationID permit)) || has_control (qp_ReservationID permit)
  || (qp_TenantID permit != qr_TenantID q) || (qp_UserID permit != qr_UserID q) || (qp_EffectID permit != qr_EffectID q)
  || (qp_InvocationID permit != qr_InvocationID q) || (qp_SessionID permit != qr_SessionID q)
  || (qp_TurnID permit != qr_TurnID q) || (qp_RuntimeRevision permit != qr_RuntimeRevision q)
  || (qp_Generations permit != qr_Generations q) || (qp_RequestDigest permit != qr_RequestDigest q)
  || (qp_ContextTokens permit != qr_ContextTokens q) || (qp_OutputTokens permit != qr_OutputTokens q).

(** The admission authority's answer does not fit the request. *)
Definition scope_mismatch (request : AdmissionRequest) (scope : ValidatedAuthority) : bool :=
  (id_kind (va_TenantID scope) != "tenant") || (id_kind (va_UserID scope) != "subject")
  || (id_kind (va_SessionID scope) != "sess") || (id_kind (va_TurnID scope) != "turn")
  || (va_EffectID scope != aq_EffectID request) || (va_InvocationID scope != aq_InvocationID request)
  || (id_kind (va_RuntimeRevision scope) != "runtime") || (mg_TurnLease (va_Generations scope) =? 0)
  || (mg_Placement (va_Generations scope) =? 0) || (mg_Policy (va_Generations scope) =? 0).

(** [provider.Availability], an error of which is the context's or
    [ErrProviderUnavailable], and the checks on it. *)
Definition probe (grant : ModelGrant) : M bool := fun tr =>
  let provider := gr_ProviderID grant in
  let tr' := tr ++ [CallAvailability provider] in
  match provider_Availability deps tr provider with
  | Err _ => (Err (default ErrProviderUnavailable (ctx_Err deps tr')), tr')
  | Ok availability =>
      (_ <- ensure (negb (pa_Available availability)) ErrProviderUnavailable ;;
       _ <- ensure (pa_DurableRequestRetrieval availability && negb (provider_retrieves deps provider))
              ErrProviderUnavailable ;;
       _ <- ensure (pa_DurableRequestRetrieval availability
                    && (MaxEvents b <? gr_MaxPreDispatchRetries grant * 2 + 5)) ErrInvalidConfiguration ;;
       ret (pa_DurableRequestRetrieval availability)) tr'
  end.

Definition initial_effect (ad : Admission) : Effect :=
  MkEffect ad StateAdmitted NoOutcome 1 0 0 0 0 "" false "" None no_cancellation no_resume.

Definition Admit (request : AdmissionRequest) : M Effect :=
  _ <- check_context (ctx_Err deps) ;;
  _ <- ensure ((id_kind (aq_EffectID request) != "effect") || (id_kind (aq_InvocationID request) != "inv")
               || (aq_RequestDigest request == zero_digest) || bad_authority (aq_Authority request)) ErrInvalidRequest ;;
  _ <- liftM (validateModelRequest b (aq_Request request)) ;;
  effort <- liftM (normalizeReasoningOptions (mr_Effort (aq_Request request))) ;;
  let model := with_effort effort (aq_Request request) in
  _ <- ensure (bool_decide (ModelRequestDigest model <> Ok (aq_RequestDigest request))) ErrInvalidRequest ;;
  let authorityRequest := MkAuthorityRequest (aq_EffectID request) (aq_InvocationID request) (aq_RequestDigest request)
                            "model.dispatch" in
  scope <- ask (CallValidateAdmission (aq_Authority request) authorityRequest)
             (fun tr => authority_ValidateAdmission deps tr (aq_Authority request) authorityRequest) ;;
  _ <- ensure (scope_mismatch request scope) ErrAuthorityMismatch ;;
  match gw_grants gw !! (va_TenantID scope, va_UserID scope, mr_Model model) with
  | None => fail ErrModelNotAllowed
  | Some grant =>
      let countRequest := MkTokenCount (mr_Model model) (mr_Messages model) in
      contextTokens <- ask (CallCount countRequest) (fun tr => tokenCounter_Count deps tr countRequest) ;;
      _ <- ensure ((gr_MaxContextTokens grant <? contextTokens) || (gr_MaxOutputTokens grant <? mr_MaxOutputTokens model)
                   || (gr_MaxTotalTokens grant <? contextTokens)
                   || (u64 (gr_MaxTotalTokens grant - contextTokens) <? mr_MaxOutputTokens model)) ErrTokenLimit ;;
      durable <- probe grant ;;
      let quotaRequest := MkQuotaRequest (va_TenantID scope) (va_UserID scope) (va_SessionID scope) (va_TurnID scope)
        (va_EffectID scope) (va_InvocationID scope) (va_RuntimeRevision scope) (va_Generations scope)
        (aq_RequestDigest request) contextTokens (mr_MaxOutputTokens model) in
      permit <- ask (CallQuotaAdmit quotaRequest) (fun tr => quota_Admit deps tr quotaRequest) ;;
      _ <- ensure (permit_mismatch quotaRequest permit) ErrQuotaMismatch ;;
      ret (initial_effect
             (MkAdmission scope (aq_RequestDigest request) model (gr_ProviderID grant) permit contextTokens
                (mr_MaxOutputTokens model) (gr_MaxContextTokens grant) (gr_MaxTotalTokens grant)
                (gr_MaxPreDispatchRetries grant) durable))
  end.

(** ** Execution *)
Definition validate_admission_call (authority : bytes) (effect : Effect) (permission : string) : M ValidatedAuthority :=
  let ad := ef_Admission effect in
  let request := MkAuthorityRequest (va_EffectID (ad_Scope ad)) (va_InvocationID (ad_Scope ad)) (ad_RequestDigest ad)
                   permission in
  ask (CallValidateAdmission authority request) (fun tr => authority_ValidateAdmission deps tr authority request).

(** [gateway.closeProviderStream]: a failed close is [ErrProviderUnavailable]. *)
Definition closeProviderStream (stream : option nat) : M (option model_error) :=
  match stream with
  | None => ret None
  | Some s => failed <- call (CallCloseStream s) (fun tr => stream_Close deps tr s) ;;
              ret (match failed with Some _ => Some ErrProviderUnavailable | None => None end)
  end.

(** A [DispatchExecution] and the error that Go returns beside it; a zero
    execution with an error is an error of the computation. *)
Record DispatchExecution := MkExecution {
  de_Permit : DispatchPermit; de_Effect : Effect; de_Stream : option nat; de_Failure : option Event;
  de_error : option model_error;
}.

Definition command_matches (effect : Effect) (command : DispatchCommand) : bool :=
  let ad := ef_Admission effect in
  (dc_ProviderID command == ad_ProviderID ad) && (dc_Scope command == ad_Scope ad)
  && (dc_EffectID command == va_EffectID (ad_Scope ad)) && (dc_InvocationID command == va_InvocationID (ad_Scope ad))
  && (dc_RequestDigest command == ad_RequestDigest ad) && (dc_QuotaPermit command == ad_QuotaPermit ad)
  && (mr_Model (dc_Request command) == mr_Model (ad_Request ad))
  && (mr_MaxOutputTokens (dc_Request command) == mr_MaxOutputTokens (ad_Request ad))
  && (mr_Effort (dc_Request command) == mr_Effort (ad_Request ad))
  && (mr_Messages (dc_Request command) == mr_Messages (ad_Request ad)) && (dc_Attempt command == ef_Attempt effect).

Definition validateDispatchTransition (transition : Transition) : res model_error (Effect * DispatchCommand) :=
  match tr_Dispatch transition, tr_Cancel transition with
  | Some command, None =>
      let effect := tr_Effect transition in
      _ ← validateEffect pijson_DecodeValue gw effect;
      _ ← reject_if ((ef_State effect != StateDispatching) || (ef_Revision effect <? 2)
                     || negb (command_matches effect command)) ErrInvalidRequest;
      Ok (effect, command)
  | _, _ => Err ErrInvalidRequest
  end.

Definition dispatch_permit_valid (effect : Effect) (permit : DispatchPermit) : bool :=
  let ad := ef_Admission effect in
  dp_Durable permit && (dp_Proof permit != zero_digest) && (dp_Scope permit == ad_Scope ad)
  && (dp_EffectID permit == va_EffectID (ad_Scope ad)) && (dp_InvocationID permit == va_InvocationID (ad_Scope ad))
  && (dp_RequestDigest permit == ad_RequestDigest ad) && (dp_ProviderID permit == ad_ProviderID ad)
  && (dp_Attempt permit == ef_Attempt effect) && (dp_EffectRevision permit == ef_Revision effect).

Definition accepted_event (effect : Effect) (id : string) : Event :=
  MkEvent (ef_Revision effect) EventProviderAccepted id "" None NoFailure "" false no_cancellation no_resume.
Definition failure_event (effect : Effect) (class : FailureClass) : Event :=
  MkEvent (ef_Revision effect) EventDispatchFailed "" "" None class (normalizedFailureReason b class) false
    no_cancellation no_resume.

(** The identity the provider returned, unless it is malformed. *)
Definition bounded_identity (id : string) : option string :=
  let trimmed := strings_TrimSpace id in
  if (trimmed != "") && ((trimmed != id) || negb (utf8_ValidString trimmed) || has_control trimmed
                         || (MaxProviderRequestIDBytes b <? strlen trimmed) || (MaxEventBytes b <? strlen trimmed))
  then None else Some trimmed.

(** The end of [executeProviderDispatch]: a stream, or a classified failure. *)
Definition finish_dispatch (permit : DispatchPermit) (effect : Effect) (id : string) (stream : option nat)
    (dispatchErr : option DispatchError) : M DispatchExecution :=
  if bool_decide (dispatchErr = None) && bool_decide (stream <> None) && (id != "")
  then ret (MkExecution permit effect stream None None)
  else
    let class := match dispatchErr with
                 | Some DefinitelyNotSent => if id == "" then FailurePreDispatch else FailureTransportUnknown
                 | _ => FailureTransportUnknown
                 end in
    closeErr <- closeProviderStream stream ;;
    ret (MkExecution permit effect None (Some (failure_event effect class)) closeErr).

Definition executeProviderDispatch (effect : Effect) (command : DispatchCommand) (permit : DispatchPermit)
    : M DispatchExecution :=
  let provider := ad_ProviderID (ef_Admission effect) in
  answer <- call (CallProviderDispatch provider command permit) (fun tr => provider_Dispatch deps tr provider command) ;;
  let stream := pr_Stream answer.1 in
  let '(id, dispatchErr) := match bounded_identity (pr_ProviderRequestID answer.1) with
                            | Some id => (id, answer.2)
                            | None => ("", Some UnknownDispatchError)
                            end in
  if id == "" then finish_dispatch permit effect "" stream dispatchErr
  else match Apply pijson_DecodeValue gw effect (accepted_event effect id) with
  | Err applyErr =>
      _ <- closeProviderStream stream ;; ret (MkExecution permit effect None None (Some applyErr))
  | Ok accepted =>
      commitErr <- call (CallCommitAccepted (ef_Revision effect) permit (tr_Effect accepted))
                     (fun tr => dispatches_CommitAccepted deps tr (tr_Effect accepted)) ;;
      match commitErr with
      | Some _ =>
          _ <- closeProviderStream stream ;;
          ret (MkExecution permit (tr_Effect accepted) None None (Some ErrDispatchNotDurable))
      | None => finish_dispatch permit (tr_Effect accepted) id stream dispatchErr
      end
  end.

Definition ExecuteDispatch (authority : bytes) (transition : Transition) : M DispatchExecution :=
  _ <- check_context (ctx_Err deps) ;;
  _ <- ensure (bad_authority authority) ErrInvalidRequest ;;
  ec <- liftM (validateDispatchTransition transition) ;;
  let '(effect, command) := ec in
  currentScope <- validate_admission_call authority effect "model.dispatch" ;;
  _ <- ensure (currentScope != ad_Scope (ef_Admission effect)) ErrAuthorityMismatch ;;
  permit <- ask (CallCommitDispatch (u64 (ef_Revision effect - 1)) currentScope effect command)
              (fun tr => dispatches_CommitDispatch deps tr effect) ;;
  _ <- ensure (negb (dispatch_permit_valid effect permit)) ErrDispatchNotDurable ;;
  begun <- call (CallBeginDispatch permit) (fun tr => dispatches_Begin deps tr permit) ;;
  match begun with
  | Some err => ret (MkExecution permit effect None None (Some err))
  | None => executeProviderDispatch effect command permit
  end.

(** The scope of a takeover: the same identities under new generations. *)
Definition scope_current (current origin : ValidatedAuthority) : bool :=
  sameAuthorityIdentity current origin && generations_set current.

Definition cancel_matches (effect : Effect) (command : CancelCommand) : bool :=
  let ad := ef_Admission effect in
  (cx_ProviderID command == ad_ProviderID ad) && (cx_Scope command == ad_Scope ad)
  && (cx_EffectID command == va_EffectID (ad_Scope ad)) && (cx_InvocationID command == va_InvocationID (ad_Scope ad))
  && (cx_RequestDigest command == ad_RequestDigest ad) && (cx_ProviderRequestID command == ef_ProviderRequestID effect)
  && (cx_Attempt command == ef_Attempt effect).

Record CancellationExecution := MkCancellationExecution {
  ce_Permit : CancellationPermit; ce_Effect : Effect; ce_Resolution : Event;
}.

Definition resolution_event (effect : Effect) (permit : CancellationPermit) : Event :=
  MkEvent (ef_Revision effect) EventCancellationResolved "" "" None NoFailure "" (cp_DispatchPrevented permit) permit no_resume.

Definition ExecuteCancel (authority : bytes) (transition : Transition) : M CancellationExecution :=
  _ <- check_context (ctx_Err deps) ;;
  match tr_Cancel transition, tr_Dispatch transition with
  | Some command, None =>
      _ <- ensure (bad_authority authority) ErrInvalidRequest ;;
      let effect := tr_Effect transition in
      let ad := ef_Admission effect in
      _ <- liftM (validateEffect pijson_DecodeValue gw effect) ;;
      _ <- ensure ((ef_State effect != StateCancellationPending) || (ef_Revision effect <? 2)
                   || negb (cancel_matches effect command)) ErrInvalidRequest ;;
      currentScope <- validate_admission_call authority effect "model.cancel" ;;
      _ <- ensure (negb (scope_current currentScope (ad_Scope ad))) ErrAuthorityMismatch ;;
      permit <- ask (CallCommitCancellation (u64 (ef_Revision effect - 1)) currentScope effect command)
                  (fun tr => dispatches_CommitCancellation deps tr effect) ;;
      _ <- ensure (negb (validCancellationPermit effect permit) || (cp_CurrentScope permit != currentScope))
             ErrDispatchNotDurable ;;
      let execution := MkCancellationExecution permit effect (resolution_event effect permit) in
      if cp_DispatchPrevented permit then ret execution
      else
        let provider := ad_ProviderID ad in
        let providerCommand := MkCancelCommand (cx_ProviderID command) currentScope (cx_EffectID command)
          (cx_InvocationID command) (cx_RequestDigest command) (cx_ProviderRequestID command) (cx_Attempt command) in
        _ <- call (CallProviderCancel provider providerCommand permit) (fun _ => tt) ;;
        ret execution
  | _, _ => fail ErrInvalidRequest
  end.

Definition ResumeProviderRequest (authority : bytes) (effect : Effect) : M (nat * ResumePermit) :=
  let ad := ef_Admission effect in
  _ <- check_context (ctx_Err deps) ;;
  _ <- ensure (bad_authority authority) ErrInvalidRequest ;;
  _ <- liftM (validateEffect pijson_DecodeValue gw effect) ;;
  _ <- ensure (negb (ad_DurableRequestRetrieval ad) || (ef_ProviderRequestID effect == "")) ErrDurableRetrievalUnavailable ;;
  _ <- ensure ((ef_State effect != StateDispatched) && (ef_State effect != StateStreaming)
               && (ef_State effect != StateUncertain)) ErrInvalidTransition ;;
  currentScope <- validate_admission_call authority effect "model.resume" ;;
  _ <- ensure (negb (scope_current currentScope (ad_Scope ad))) ErrAuthorityMismatch ;;
  permit <- ask (CallCommitResume currentScope effect) (fun tr => dispatches_CommitResume deps tr effect) ;;
  _ <- ensure (negb (validResumePermit effect permit) || (rp_CurrentScope permit != currentScope)
               || (rp_EffectRevision permit != ef_Revision effect)) ErrDispatchNotDurable ;;
  _ <- ensure (negb (provider_retrieves deps (ad_ProviderID ad))) ErrDurableRetrievalUnavailable ;;
  let command := MkResumeCommand (ad_ProviderID ad) currentScope (ad_Scope ad) (va_EffectID (ad_Scope ad))
    (va_InvocationID (ad_Scope ad)) (ad_RequestDigest ad) (ef_ProviderRequestID effect) (ef_Attempt effect) permit in
  resumed <- call (CallProviderResume command) (fun tr => provider_Resume deps tr command) ;;
  match resumed with
  | Err _ => fun tr => (Err (default ErrProviderUnavailable (ctx_Err deps tr)), tr)
  | Ok None => fail ErrDurableRetrievalUnavailable
  | Ok (Some stream) => ret (stream, permit)
  end.

(** ** Provider streams

    [normalizedProviderStream.Next] on an event the stream returned. *)
Inductive ProviderEventKind := ProviderEventDelta | ProviderEventResponseCompleted | ProviderEventFailed | OtherProviderEvent (s : string).

Record ProviderEvent := MkProviderEvent {
  pe_Kind : ProviderEventKind; pe_Delta : string; pe_Response : option ModelResponse; pe_Failure : FailureClass;
  pe_Diagnostic : string;
}.

Definition normalize_finish (reason : string) : string := if validFinishReason reason then reason else "other".

Definition normalizedProviderStream_Next (recovery : ResumePermit) (event : ProviderEvent) : res model_error Event :=
  match pe_Kind event, pe_Response event with
  | ProviderEventDelta, response =>
      _ ← reject_if ((pe_Delta event == "") || bool_decide (response <> None) || (pe_Failure event != NoFailure)
                     || (pe_Diagnostic event != "")) ErrInvalidRequest;
      Ok (MkEvent 0 EventDelta "" (pe_Delta event) None NoFailure "" false no_cancellation recovery)
  | ProviderEventResponseCompleted, Some r =>
      _ ← reject_if ((pe_Delta event != "") || (pe_Failure event != NoFailure) || (pe_Diagnostic event != ""))
            ErrInvalidRequest;
      Ok (MkEvent 0 EventResponseCompleted "" ""
            (Some (MkModelResponse (r_Text r) (normalize_finish (r_FinishReason r)) (r_Usage r) (r_ToolCalls r)))
            NoFailure "" false no_cancellation recovery)
  | ProviderEventFailed, response =>
      _ ← reject_if ((pe_Delta event != "") || bool_decide (response <> None)) ErrInvalidRequest;
      _ ← reject_if (bool_decide (pe_Failure event ∉ [FailureProviderRejected; FailureTransportUnknown; FailureAfterPartial]))
            ErrInvalidRequest;
      Ok (MkEvent 0 EventDispatchFailed "" "" None (pe_Failure event) (normalizedFailureReason b (pe_Failure event)) false
            no_cancellation recovery)
  | _, _ => Err ErrInvalidRequest
  end.

(** ** Settlement *)
Definition state_text (s : State) : string :=
  match s with
  | StateAdmitted => "admitted" | StateDispatching => "dispatching" | StateRetryPending => "retry_pending"
  | StateDispatched => "dispatched" | StateStreaming => "streaming" | StateCancellationPending => "cancellation_pending"
  | StateCompleted => "completed" | StateFailed => "failed" | StateCancelled => "cancelled" | StateUncertain => "uncertain"
  | OtherState text => text
  end.
Definition outcome_text (o : Outcome) : string :=
  match o with
  | NoOutcome => "" | OutcomeCompleted => "completed" | OutcomeFailed => "failed" | OutcomeCancelled => "cancelled"
  | OutcomeUncertain => "uncertain" | OtherOutcome text => text
  end.

Definition uint_field (z : Z) : bytes := be_bytes 8 z.
Definition bool_field (v : bool) : bytes := uint_field (if v then 1 else 0).

Definition call_fields (c : ToolCall) : list bytes :=
  [to_bytes (tc_ID c); to_bytes (tc_Name c); tc_Arguments c; bool_field (tc_Declared c); uint_field (tc_Index c)].
Definition response_fields (response : option ModelResponse) : list bytes :=
  match response with
  | None => [uint_field 0]
  | Some r => [uint_field 1; to_bytes (r_Text r); to_bytes (r_FinishReason r); uint_field (InputTokens (r_Usage r));
               uint_field (OutputTokens (r_Usage r)); uint_field (zlen (r_ToolCalls r))]
              ++ concat (map call_fields (r_ToolCalls r))
  end.

(** The values [authorizeTerminal] hashes, in order: the strings, the integers and
    the rest. *)
Definition terminal_texts (e : Effect) : list string :=
  let ad := ef_Admission e in
  let scope := ad_Scope ad in
  [id_value (va_TenantID scope); id_value (va_UserID scope); id_value (va_SessionID scope); id_value (va_TurnID scope);
   id_value (va_EffectID scope); id_value (va_InvocationID scope); id_value (va_RuntimeRevision scope); ad_ProviderID ad;
   ef_ProviderRequestID e; qp_ReservationID (ad_QuotaPermit ad); state_text (ef_State e); outcome_text (ef_Outcome e);
   ef_FailureReason e].

Definition terminal_numbers (e : Effect) : list Z :=
  let g := va_Generations (ad_Scope (ef_Admission e)) in
  [mg_TurnLease g; mg_Placement g; mg_Policy g; ef_Revision e; ef_Attempt e; ef_EventCount e; ef_EventBytes e;
   ef_StreamBytes e].

Definition terminal_fields (effect : Effect) : list bytes :=
  [to_bytes "circulusd.model-settlement.v2"]
  ++ map to_bytes (terminal_texts effect)
  ++ [ad_RequestDigest (ef_Admission effect)]
  ++ map uint_field (terminal_numbers effect)
  ++ [bool_field (ef_PartialOutput effect)]
  ++ response_fields (ef_Response effect)
  ++ [cp_Proof (ef_CancellationPermit effect); rp_Proof (ef_RecoveryPermit effect);
      uint_field (cp_EffectRevision (ef_CancellationPermit effect)); uint_field (rp_EffectRevision (ef_RecoveryPermit effect))].

(** [writeTerminalBytes]: the length in eight bytes, then the value. *)
Definition write_field (field : bytes) : bytes := be_bytes 8 (zlen field) ++ field.
Definition terminal_digest (effect : Effect) : Digest := sha256_Sum256 (concat (map write_field (terminal_fields effect))).

Record terminalAuthorization := MkTerminalAuthorization {
  ta_currentScope : ValidatedAuthority; ta_terminalDigest : Digest; ta_permit : SettlementPermit;
}.

Definition terminal_state (s : State) : bool :=
  (s == StateCompleted) || (s == StateFailed) || (s == StateCancelled) || (s == StateUncertain).

Definition authorizeTerminal (effect : Effect) (authority : bytes) : M terminalAuthorization :=
  let ad := ef_Admission effect in
  _ <- check_context (ctx_Err deps) ;;
  _ <- ensure (bad_authority authority) ErrInvalidRequest ;;
  _ <- liftM (validateEffect pijson_DecodeValue gw effect) ;;
  _ <- ensure (negb (terminal_state (ef_State effect))) ErrSettlementNotReady ;;
  let digest := terminal_digest effect in
  let usage := match ef_Response effect with Some r => r_Usage r | None => MkUsage 0 0 end in
  let request := MkSettlementAuthority (ad_Scope ad) (ad_RequestDigest ad) (ef_ProviderRequestID effect) (ef_Attempt effect)
    (ef_Revision effect) (ef_State effect) (ef_Outcome effect) usage digest in
  currentScope <- ask (CallValidateSettlement authority request)
                    (fun tr => authority_ValidateSettlement deps tr authority request) ;;
  _ <- ensure (negb (scope_current currentScope (ad_Scope ad))) ErrAuthorityMismatch ;;
  permit <- ask (CallCommitSettlement (u64 (ef_Revision effect - 1)) currentScope effect digest)
              (fun tr => dispatches_CommitSettlement deps tr effect digest) ;;
  _ <- ensure (negb (sp_Durable permit) || (sp_Proof permit == zero_digest)
               || negb (scope_current (sp_CurrentScope permit) currentScope)
               || (sp_EffectID permit != va_EffectID (ad_Scope ad))
               || (sp_InvocationID permit != va_InvocationID (ad_Scope ad)) || (sp_RequestDigest permit != ad_RequestDigest ad)
               || (sp_EffectRevision permit != ef_Revision effect) || (sp_TerminalDigest permit != digest)
               || (sp_ReservationID permit != qp_ReservationID (ad_QuotaPermit ad))) ErrDispatchNotDurable ;;
  ret (MkTerminalAuthorization currentScope digest permit).

Definition validQuotaSettlementReceipt (effect : Effect) (request : QuotaSettlementRequest) (receipt : QuotaSettlementReceipt)
    : bool :=
  let ad := ef_Admission effect in
  qt_Durable receipt && (qt_ReservationID receipt == qp_ReservationID (ad_QuotaPermit ad))
  && (qt_EffectID receipt == va_EffectID (ad_Scope ad)) && (qt_InvocationID receipt == va_InvocationID (ad_Scope ad))
  && (qt_RequestDigest receipt == ad_RequestDigest ad) && (qt_Outcome receipt == qs_Outcome request)
  && (qt_Disposition receipt == qs_Disposition request) && (qt_Usage receipt == qs_Usage request)
  && (qt_ProviderRequestID receipt == qs_ProviderRequestID request) && (qt_Attempt receipt == qs_Attempt request)
  && (qt_Authorization receipt == qs_Authorization request) && (qt_Recovery receipt == qs_Recovery request)
  && (qt_Resolution receipt == qs_Resolution request).

Definition settlementResult (effect : Effect) (currentScope : ValidatedAuthority) (receipt : QuotaSettlementReceipt)
    (needsConfirmation : bool) : Settlement :=
  MkSettlement currentScope (ad_RequestDigest (ef_Admission effect)) (ef_Outcome effect) (ef_ProviderRequestID effect)
    (ef_Attempt effect) (ef_PartialOutput effect && (ef_Outcome effect != OutcomeCompleted)) needsConfirmation
    (ef_FailureReason effect) (ef_Response effect) receipt.

(** The switch on the outcome: what happens to the reservation. *)
Definition settlement_disposition (effect : Effect) : res model_error (QuotaDisposition * Usage) :=
  match ef_Outcome effect, ef_Response effect with
  | OutcomeCompleted, Some r => Ok (QuotaDispositionConsume, r_Usage r)
  | (OutcomeFailed | OutcomeCancelled), _ => Ok (QuotaDispositionRelease, MkUsage 0 0)
  | OutcomeUncertain, _ => Ok (QuotaDispositionHold, MkUsage 0 0)
  | _, _ => Err ErrSettlementNotReady
  end.

Definition settle (effect : Effect) (request : QuotaSettlementRequest) : M QuotaSettlementReceipt :=
  receipt <- ask (CallQuotaSettle request) (fun tr => quota_Settle deps tr request) ;;
  _ <- ensure (negb (validQuotaSettlementReceipt effect request receipt)) ErrQuotaMismatch ;;
  ret receipt.

Definition AuthorizeSettlement (effect : Effect) (authority : bytes) : M Settlement :=
  authorized <- authorizeTerminal effect authority ;;
  du <- liftM (settlement_disposition effect) ;;
  let request := MkSettlementRequest (ad_QuotaPermit (ef_Admission effect)) (ta_permit authorized) (ef_RecoveryPermit effect)
    no_resolution (ef_Outcome effect) du.1 du.2 (ef_ProviderRequestID effect) (ef_Attempt effect) in
  receipt <- settle effect request ;;
  ret (settlementResult effect (ta_currentScope authorized) receipt (ef_Outcome effect == OutcomeUncertain)).

Definition resolution_choice (resolution : UncertainResolution) : res model_error (QuotaDisposition * string) :=
  match resolution with
  | UncertainResolutionConsume => Ok (QuotaDispositionConsume, "model.resolve-uncertain.consume")
  | UncertainResolutionRelease => Ok (QuotaDispositionRelease, "model.resolve-uncertain.release")
  | OtherResolution _ => Err ErrInvalidRequest
  end.

Definition ResolveUncertain (effect : Effect) (authority : bytes) (resolution : UncertainResolution) : M Settlement :=
  let ad := ef_Admission effect in
  choice <- liftM (resolution_choice resolution) ;;
  let '(disposition, permission) := choice in
  _ <- ensure ((ef_State effect != StateUncertain) || (ef_Outcome effect != OutcomeUncertain)) ErrInvalidTransition ;;
  authorized <- authorizeTerminal effect authority ;;
  scope <- validate_admission_call authority effect permission ;;
  _ <- ensure (negb (scope_current scope (ad_Scope ad))) ErrAuthorityMismatch ;;
  permit <- ask (CallCommitResolution scope effect (ta_terminalDigest authorized) resolution)
              (fun tr => dispatches_CommitResolution deps tr effect (ta_terminalDigest authorized) resolution) ;;
  _ <- ensure (negb (up_Durable permit) || (up_Proof permit == zero_digest)
               || negb (scope_current (up_CurrentScope permit) scope) || (up_EffectID permit != va_EffectID (ad_Scope ad))
               || (up_InvocationID permit != va_InvocationID (ad_Scope ad)) || (up_RequestDigest permit != ad_RequestDigest ad)
               || (up_TerminalDigest permit != ta_terminalDigest authorized)
               || (up_ReservationID permit != qp_ReservationID (ad_QuotaPermit ad)) || (up_Decision permit != resolution))
         ErrDispatchNotDurable ;;
  let usage := if disposition == QuotaDispositionConsume
               then MkUsage (ad_ContextTokens ad) (ad_RequestedOutputTokens ad) else MkUsage 0 0 in
  let request := MkSettlementRequest (ad_QuotaPermit ad) (ta_permit authorized) (ef_RecoveryPermit effect) permit
    (ef_Outcome effect) disposition usage (ef_ProviderRequestID effect) (ef_Attempt effect) in
  receipt <- settle effect request ;;
  ret (settlementResult effect scope receipt false).
End Operations.
