(* ===== verification/ModelExecProofs.v ===== *)
(** * Model gateway: what admission, execution and settlement guarantee

    The theorems relate the calls an operation makes, their answers and the snapshot
    it returns. *)

From S2P Require Import Prelude Calls GoText GoCrypto Canonical Identity BrokerTypes ModelTypes ModelGateway ModelMachine ModelProofs ModelRuns ModelExecutor.
#[local] Open Scope string_scope.
#[local] Open Scope list_scope.
#[local] Open Scope Z_scope.
#[local] Open Scope go_scope.
#[local] Open Scope call_scope.

(** No provider is asked to start an inference. *)
Definition no_dispatch (c : Call) : Prop :=
  match c with CallProviderDispatch _ _ _ => False | _ => True end.

Section Guarantees.
Context {NZ : Normalizer} (pijson_DecodeValue : Value -> bool) (gw : Gateway) (deps : Deps).

Lemma emits_close P stream : (forall s, P (CallCloseStream s)) -> emits P (closeProviderStream deps stream).
Proof. intros HP. unfold closeProviderStream. by emits. Qed.

(** Recovering, cancelling and settling a request never start an inference:
    whatever the dependencies answer, [ResumeProviderRequest], [ExecuteCancel],
    [AuthorizeSettlement] and [ResolveUncertain] never call the provider's
    [Dispatch]. *)
Theorem recovery_never_dispatches authority effect transition resolution :
  emits no_dispatch (ResumeProviderRequest pijson_DecodeValue gw deps authority effect) /\
  emits no_dispatch (ExecuteCancel pijson_DecodeValue gw deps authority transition) /\
  emits no_dispatch (AuthorizeSettlement pijson_DecodeValue gw deps effect authority) /\
  emits no_dispatch (ResolveUncertain pijson_DecodeValue gw deps effect authority resolution).
Proof.
  assert (emits no_dispatch (authorizeTerminal pijson_DecodeValue gw deps effect authority)) as Ht.
  { unfold authorizeTerminal. by emits. }
  assert (forall request, emits no_dispatch (settle deps effect request)) as Hs.
  { intros request. unfold settle. by emits. }
  assert (forall permission, emits no_dispatch (validate_admission_call deps authority effect permission)) as Hv.
  { intros permission. unfold validate_admission_call. by emits. }
  split_and!.
  - unfold ResumeProviderRequest. emits. by apply emits_nothing.
  - unfold ExecuteCancel, validate_admission_call. by emits.
  - unfold AuthorizeSettlement. emits; done.
  - unfold ResolveUncertain. emits; done.
Qed.
(** ** Admission *)
Definition grant_ok (b : Bounds) (grant : ModelGrant) : Prop :=
  matches_identifier (gr_ProviderID grant) = true /\ strlen (gr_ProviderID grant) <= MaxProviderIDBytes b.

Lemma add_grants_ok b providers grants : forall acc table,
  (forall key grant, acc !! key = Some grant -> grant_ok b grant) -> add_grants b providers grants acc = Ok table ->
  forall key grant, table !! key = Some grant -> grant_ok b grant.
Proof.
  induction grants as [|grant grants IH]; intros acc table Hacc; simpl; [by intros [= <-]|].
  rewrite !reject_if_ok. intros (Hg & _ & H). case_match; [done|]. eapply IH; [|done]. intros key grant' Hl.
  apply lookup_insert_Some in Hl as [[_ <-]|[_ Hl]]; [|by eapply Hacc]. unfold invalid_grant in Hg. bools in Hg.
  split; tauto.
Qed.

Lemma configured_grants bounds timeout grants registry key grant :
  newGatewayConfiguration bounds timeout grants registry = Ok gw -> gw_grants gw !! key = Some grant -> grant_ok (gw_bounds gw) grant.
Proof.
  unfold newGatewayConfiguration. rewrite !reject_if_ok. intros (_ & _ & _ & _ & H). apply bind_ok in H as (table & Ht & [= Hgw]).
  rewrite <- Hgw. simpl. intros Hl. eapply add_grants_ok; [|done..]. intros k g. by rewrite lookup_empty.
Qed.

Lemma configured_bounds bounds timeout grants registry : newGatewayConfiguration bounds timeout grants registry = Ok gw -> gw_bounds gw = bounds.
Proof. unfold newGatewayConfiguration. rewrite !reject_if_ok. intros (_ & _ & _ & _ & H). by apply bind_ok in H as (? & _ & [= <-]). Qed.

Lemma normalizeReasoning_idem effort effort' : normalizeReasoningOptions effort = Ok effort' ->
  normalizeReasoningOptions effort' = Ok effort'.
Proof.
  destruct (decide (effort = "")) as [->|He]; [by intros [= <-]|]. unfold normalizeReasoningOptions.
  rewrite (bool_decide_false (effort = "")) by done. case_match eqn:Hc; [|done]. intros [= <-].
  by rewrite (bool_decide_false (effort = "")), Hc by done.
Qed.

Lemma initial_valid ad : bounds_ok (gw_bounds gw) -> fixed_ok gw ad ->
  validateEffect pijson_DecodeValue gw (initial_effect ad) = Ok tt.
Proof.
  intros Hb (Hs & Hd & Ha). pose proof (bounds_sizes _ Hb). unfold validateEffect, initial_effect. cbn [ef_Admission].
  rewrite reject_if_ok. split.
  { rewrite Hs, bool_decide_false by done. unfold invalid_counters. simpl. bools.
    pose proof (Z.mod_pos_bound (ad_MaxPreDispatchRetries ad + 1) (2 ^ 32)). unfold u32, u64.
    split_and!; try done; try lia. }
  rewrite Ha. cbn [mbind res_bind]. rewrite !reject_if_ok, bind_ok. split_and!; [done..|]. exists tt. split.
  - unfold validate_bytes. cbn [ef_PartialOutput ef_StreamBytes ef_Response]. rewrite reject_if_ok. split; [done|].
    cbn [mbind res_bind]. rewrite reject_if_ok, last_check. split; [done|]. bools. unfold u64_max. cbn [ef_EventBytes]. lia.
  - rewrite reject_if_ok, last_check. split; [done|]. unfold over_budget. simpl. bools. unfold minimumTerminalEvents. simpl. lia.
Qed.

Lemma probe_trace grant tr v tr' : probe gw deps grant tr = (Ok v, tr') -> tr' = tr ++ [CallAvailability (gr_ProviderID grant)].
Proof. unfold probe. case_match; [|done]. intros Hp. by inv_M Hp. Qed.

Lemma admitted_fixed bounds timeout grants registry request scope grant effort tokens permit durable :
  newGatewayConfiguration bounds timeout grants registry = Ok gw ->
  let model := with_effort effort (aq_Request request) in
  (id_kind (aq_EffectID request) != "effect") || (id_kind (aq_InvocationID request) != "inv")
    || (aq_RequestDigest request == zero_digest) || bad_authority gw (aq_Authority request) = false ->
  validateModelRequest (gw_bounds gw) (aq_Request request) = Ok tt ->
  normalizeReasoningOptions (mr_Effort (aq_Request request)) = Ok effort ->
  (ModelRequestDigest model != Ok (aq_RequestDigest request)) = false ->
  scope_mismatch request scope = false ->
  gw_grants gw !! (va_TenantID scope, va_UserID scope, mr_Model model) = Some grant ->
  (gr_MaxContextTokens grant <? tokens) || (gr_MaxOutputTokens grant <? mr_MaxOutputTokens model)
    || (gr_MaxTotalTokens grant <? tokens) || (u64 (gr_MaxTotalTokens grant - tokens) <? mr_MaxOutputTokens model) = false ->
  permit_mismatch (MkQuotaRequest (va_TenantID scope) (va_UserID scope) (va_SessionID scope) (va_TurnID scope)
    (va_EffectID scope) (va_InvocationID scope) (va_RuntimeRevision scope) (va_Generations scope)
    (aq_RequestDigest request) tokens (mr_MaxOutputTokens model)) permit = false ->
  fixed_ok gw (MkAdmission scope (aq_RequestDigest request) model (gr_ProviderID grant) permit tokens
    (mr_MaxOutputTokens model) (gr_MaxContextTokens grant) (gr_MaxTotalTokens grant) (gr_MaxPreDispatchRetries grant) durable).
Proof.
  intros Hgw model Hid Hreq Heff Hdig Hscope Hgrant Htok Hperm. destruct (configured_grants _ _ _ _ _ _ Hgw Hgrant) as [Hp1 Hp2].
  bools in Hid. bools in Hdig. unfold scope_mismatch in Hscope. bools in Hscope. unfold permit_mismatch in Hperm. cbn in Hperm.
  bools in Hperm. bools in Htok. destruct_and!.
  assert (mr_MaxOutputTokens model <> 0) as Hout.
  { unfold validateModelRequest in Hreq. apply reject_if_ok in Hreq as [Hr _]. bools in Hr. tauto. }
  assert (validateModelRequest (gw_bounds gw) model = Ok tt) as Hreq'.
  { unfold validateModelRequest in *. apply reject_if_ok in Hreq as [Hr Hm]. apply bind_ok in Hm as (? & _ & Hm).
    rewrite reject_if_ok. split; [done|]. cbn. rewrite (normalizeReasoning_idem _ _ Heff). done. }
  split_and!; cbn [ad_Scope ad_RequestDigest].
  - unfold invalid_scope. bools. split_and!; congruence.
  - done.
  - unfold validate_admission. cbn. fold model. rewrite Hreq'. cbn [wrap_err mbind res_bind]. rewrite !reject_if_ok.
    split_and!; [by rewrite neq_test_false; apply normalizeReasoning_idem in Heff|by rewrite neq_test_false|].
    change (mr_Model (aq_Request request)) with (mr_Model model). rewrite Hgrant. rewrite reject_if_ok, last_check. split.
    + bools. split_and!; try done.
    + unfold quota_matches. cbn. rewrite Hp1. bools. split_and!; try done; congruence.
Qed.

(** Admission produces a snapshot the state machine accepts, and reserves quota
    for exactly what was checked: when [Admit] returns an effect, the effect passes
    [validateEffect], is bound to the requested effect, invocation and digest, and
    the calls made were the authority check, the token count, the availability
    probe and then one reservation, for that digest and those token counts. *)
Theorem admit_valid bounds timeout grants registry request tr e tr' :
  bounds_ok bounds -> newGatewayConfiguration bounds timeout grants registry = Ok gw ->
  Admit gw deps request tr = (Ok e, tr') ->
  validateEffect pijson_DecodeValue gw e = Ok tt /\ ef_State e = StateAdmitted /\
  va_EffectID (ad_Scope (ef_Admission e)) = aq_EffectID request /\
  ad_RequestDigest (ef_Admission e) = aq_RequestDigest request /\
  exists quota,
    tr' = tr ++ [CallValidateAdmission (aq_Authority request)
                   (MkAuthorityRequest (aq_EffectID request) (aq_InvocationID request) (aq_RequestDigest request)
                      "model.dispatch");
                 CallCount (MkTokenCount (mr_Model (aq_Request request)) (mr_Messages (aq_Request request)));
                 CallAvailability (ad_ProviderID (ef_Admission e)); CallQuotaAdmit quota] /\
    qr_RequestDigest quota = aq_RequestDigest request /\
    qr_ContextTokens quota = ad_ContextTokens (ef_Admission e) /\
    qr_OutputTokens quota = mr_MaxOutputTokens (aq_Request request).
Proof.
  intros Hb Hgw H. pose proof (configured_bounds _ _ _ _ Hgw) as Hbounds.
  unfold Admit in H. inv_M H. destruct v1. case_match eqn:Hgrant; [|by unfold fail in H]. inv_M H.
  match goal with Hp : probe _ _ _ _ = _ |- _ => apply probe_trace in Hp as -> end.
  injection H as <-. split_and!.
  - apply initial_valid; [by rewrite Hbounds|]. by eapply admitted_fixed.
  - done.
  - match goal with Hs : scope_mismatch _ _ = false |- _ => unfold scope_mismatch in Hs; bools in Hs end. simpl. tauto.
  - done.
  - eexists. rewrite <- !app_assoc. by split_and!.
Qed.
(** C37: every effect that a configured gateway admits can be ended, whatever events it has
    accepted since: while it has no outcome, it accepts an event that ends it (a
    cancellation before dispatch, otherwise the classification of the request as uncertain)
    with a valid snapshot, because each accepted event leaves enough of the event budget
    for the ones that are still needed.  The one exception is an effect whose last event
    was one of the stranding ones. *)
Theorem effect_can_finish bounds timeout grants registry request tr e0 tr' evs e commands :
  bounds_ok bounds -> newGatewayConfiguration bounds timeout grants registry = Ok gw ->
  Admit gw deps request tr = (Ok e0, tr') -> effect_words e0 ->
  run pijson_DecodeValue gw e0 evs = Ok (e, commands) -> ef_Outcome e = NoOutcome ->
  stranded_by pijson_DecodeValue gw e0 evs \/
  exists t, Apply pijson_DecodeValue gw e (ending_event gw e) = Ok t /\ validateEffect pijson_DecodeValue gw (tr_Effect t) = Ok tt /\
            ef_Outcome (tr_Effect t) = match ef_State e with
                                       | StateAdmitted | StateRetryPending => OutcomeCancelled
                                       | _ => OutcomeUncertain
                                       end.
Proof.
  intros Hb Hgw Ha Hw Hr Ho. pose proof (configured_bounds _ _ _ _ Hgw) as Hbounds.
  destruct (admit_valid _ _ _ _ _ _ _ _ Hb Hgw Ha) as [Hv _]. rewrite <- Hbounds in Hb.
  destruct (run_valid _ _ Hb _ _ _ _ Hw Hv Hr) as [Hwe [Hve|Hs]]; [right|by left]. by apply valid_can_finish.
Qed.

(** C38: an event that strands an effect is accepted and leaves a snapshot that nothing
    accepts any more, whatever the dependencies would answer: every event is refused, the
    dispatch, the cancellation and the resumption of its request are, and so are the
    settlement and the resolution of its outcome, each before any dependency is called, so
    that the reserved quota is neither consumed nor released. *)
Theorem stranded_effect_is_stuck e ev t :
  bounds_ok (gw_bounds gw) -> effect_words e -> Apply pijson_DecodeValue gw e ev = Ok t -> strands e ev = true ->
  (forall ev', is_ok (Apply pijson_DecodeValue gw (tr_Effect t) ev') = false) /\
  (forall authority command, refused (ExecuteDispatch pijson_DecodeValue gw deps authority (MkTransition (tr_Effect t) (Some command) None))) /\
  (forall authority command, refused (ExecuteCancel pijson_DecodeValue gw deps authority (MkTransition (tr_Effect t) None (Some command)))) /\
  (forall authority, refused (ResumeProviderRequest pijson_DecodeValue gw deps authority (tr_Effect t))) /\
  (forall authority, refused (AuthorizeSettlement pijson_DecodeValue gw deps (tr_Effect t) authority)) /\
  (forall authority resolution, refused (ResolveUncertain pijson_DecodeValue gw deps (tr_Effect t) authority resolution)).
Proof.
  intros Hb Hw Ha Hs. destruct (stranded_invalid _ _ Hb _ _ _ Hw Ha Hs) as [err Hv]. clear Ha Hs.
  assert (forall authority, refused (authorizeTerminal pijson_DecodeValue gw deps (tr_Effect t) authority)) as Hterm.
  { intros authority. unfold authorizeTerminal. rewrite Hv. refused. }
  split_and!.
  - intros ev'. unfold Apply. by rewrite Hv.
  - intros authority command. unfold ExecuteDispatch, validateDispatchTransition. cbn [tr_Effect tr_Dispatch tr_Cancel]. rewrite Hv. refused.
  - intros authority command. unfold ExecuteCancel. cbn [tr_Effect tr_Dispatch tr_Cancel]. rewrite Hv. refused.
  - intros authority. unfold ResumeProviderRequest. rewrite Hv. refused.
  - intros authority. apply refused_bind, Hterm.
  - intros authority resolution. apply refused_lift. intros [disposition permission] _. apply refused_ensure. intros _. apply refused_bind, Hterm.
Qed.

(** ** Dispatch *)

(** The calls of one execution, after the claim: none of them dispatches again. *)
Lemma execute_calls effect command permit tr :
  exists calls, (executeProviderDispatch pijson_DecodeValue gw deps effect command permit tr).2 =
    tr ++ CallProviderDispatch (ad_ProviderID (ef_Admission effect)) command permit :: calls /\
    Forall no_dispatch calls.
Proof.
  assert (forall k, (forall a, emits no_dispatch (k a)) ->
    exists calls, (bindM (call (CallProviderDispatch (ad_ProviderID (ef_Admission effect)) command permit)
                     (fun tr => provider_Dispatch deps tr (ad_ProviderID (ef_Admission effect)) command)) k tr
                   : res model_error DispatchExecution * trace).2 =
      tr ++ CallProviderDispatch (ad_ProviderID (ef_Admission effect)) command permit :: calls /\ Forall no_dispatch calls) as Hk.
  { intros k Hk. unfold bindM, call.
    match goal with |- context [k ?a ?t] => destruct (Hk a t) as (calls & -> & Hc) end. exists calls. by rewrite <- app_assoc. }
  apply Hk. intros answer. pose proof (fun s => emits_close no_dispatch s ltac:(done)) as Hclose.
  assert (forall p e i s d, emits no_dispatch (finish_dispatch gw deps p e i s d)) as Hfinish.
  { intros. unfold finish_dispatch. emits; done. }
  emits; done.
Qed.

Ltac stop_at l := exists l; split; [by rewrite ?app_nil_r, <- ?app_assoc|];
  let Hin := fresh in intros Hin; exfalso;
  repeat (apply elem_of_cons in Hin as [Hin|Hin]; [done|]); by apply not_elem_of_nil in Hin.

(** Provider I/O happens only under a durable claim: if [ExecuteDispatch] calls
    a provider's [Dispatch], it does so once, for a valid dispatching snapshot and
    its own command, after the coordinator committed the snapshot and issued a
    permit bound to this effect, attempt and revision, and after the claim was
    begun. *)
Theorem dispatch_needs_claim authority t tr provider command permit :
  exists calls, (ExecuteDispatch pijson_DecodeValue gw deps authority t tr).2 = tr ++ calls /\
    (CallProviderDispatch provider command permit ∈ calls ->
     let e := tr_Effect t in
     validateEffect pijson_DecodeValue gw e = Ok tt /\ ef_State e = StateDispatching /\
     tr_Dispatch t = Some command /\ command_matches e command = true /\ provider = ad_ProviderID (ef_Admission e) /\
     dispatch_permit_valid e permit = true /\
     exists before scope rest,
       calls = [before; CallCommitDispatch (u64 (ef_Revision e - 1)) scope e command; CallBeginDispatch permit;
                CallProviderDispatch provider command permit] ++ rest /\
       Forall no_dispatch rest /\
       dispatches_CommitDispatch deps (tr ++ [before]) e = Ok permit /\
       dispatches_Begin deps (tr ++ [before; CallCommitDispatch (u64 (ef_Revision e - 1)) scope e command]) permit = None).
Proof.
  unfold ExecuteDispatch. unfold bindM at 1, check_context. destruct (ctx_Err deps tr); [by stop_at (@nil Call)|].
  unfold bindM at 1, ensure at 1, liftM at 1. destruct (bad_authority _ _); [by stop_at (@nil Call)|]. cbn [reject_if].
  unfold bindM at 1, liftM at 1. destruct (validateDispatchTransition _ _ _) as [[e c]|] eqn:Hv; [|by stop_at (@nil Call)].
  unfold bindM at 1, validate_admission_call, ask at 1. cbv zeta.
  match goal with |- context [tr ++ [?c]] => set (before := c) end.
  destruct (authority_ValidateAdmission _ _ _ _) as [scope|]; [|by stop_at [before]].
  unfold bindM at 1, ensure at 1, liftM at 1. destruct (scope != _); [by stop_at [before]|]. cbn [reject_if].
  unfold bindM at 1, ask at 1. set (commit := CallCommitDispatch _ _ _ _).
  destruct (dispatches_CommitDispatch _ _ _) as [p|] eqn:Hp; [|by stop_at [before; commit]].
  unfold bindM at 1, ensure at 1, liftM at 1.
  destruct (dispatch_permit_valid e p) eqn:Hvp; [|by stop_at [before; commit]]. cbn [reject_if negb].
  unfold bindM at 1, call at 1. destruct (dispatches_Begin _ _ _) eqn:Hbegin; [by stop_at [before; commit; CallBeginDispatch p]|].
  destruct (execute_calls e c p (((tr ++ [before]) ++ [commit]) ++ [CallBeginDispatch p])) as (rest & Hcalls & Hrest).
  exists ([before; commit; CallBeginDispatch p; CallProviderDispatch (ad_ProviderID (ef_Admission e)) c p] ++ rest).
  rewrite Hcalls, <- !app_assoc. split; [done|]. intros Hin.
  assert (CallProviderDispatch provider command permit = CallProviderDispatch (ad_ProviderID (ef_Admission e)) c p) as Heq.
  { apply elem_of_app in Hin as [Hin|Hin]; [|by rewrite Forall_forall in Hrest; destruct (Hrest _ Hin)].
    repeat (apply elem_of_cons in Hin as [Hin|Hin]; [done|]). by apply not_elem_of_nil in Hin. }
  injection Heq as -> -> ->. unfold validateDispatchTransition in Hv. destruct (tr_Dispatch t) as [cmd|]; [|done].
  destruct (tr_Cancel t); [done|]. apply bind_ok in Hv as ([] & Hval & Hv). apply reject_if_ok in Hv as [Hg [= <- <-]].
  bools in Hg. destruct Hg as [[Hst _] Hm]. split_and!; try done.
  exists before, scope, rest. split_and!; try done. by rewrite <- app_assoc in Hbegin.
Qed.
(** ** Settlement *)
Lemma terminal_outcome e : invalid_state e = false -> terminal_state (ef_State e) = true ->
  match ef_State e with
  | StateCompleted => ef_Outcome e = OutcomeCompleted /\ ef_Response e <> None
  | StateFailed => ef_Outcome e = OutcomeFailed
  | StateCancelled => ef_Outcome e = OutcomeCancelled
  | StateUncertain => ef_Outcome e = OutcomeUncertain
  | _ => False
  end.
Proof.
  unfold invalid_state, terminal_state. intros Hi Ht. destruct (ef_State e); try done; bools in Hi; destruct_and?; try done.
Qed.

Lemma validated_usage e r : validate_bytes pijson_DecodeValue (gw_bounds gw) e = Ok tt -> ef_Response e = Some r ->
  r_Usage r = MkUsage (ad_ContextTokens (ef_Admission e)) (ad_RequestedOutputTokens (ef_Admission e)).
Proof.
  unfold validate_bytes. intros Hv Hr. apply reject_if_ok in Hv as [_ Hv]. rewrite Hr in Hv.
  apply bind_ok in Hv as (n & Hn & _). unfold validate_response in Hn. apply reject_if_ok in Hn as [_ Hn].
  destruct (normalizeToolCalls _ _) as [[calls m]|]; [|done]. rewrite !reject_if_ok in Hn. destruct Hn as (_ & Hu & _).
  bools in Hu. destruct_and!. done.
Qed.

Lemma validated_parts e : validateEffect pijson_DecodeValue gw e = Ok tt ->
  invalid_state e = false /\ validate_bytes pijson_DecodeValue (gw_bounds gw) e = Ok tt.
Proof.
  unfold validateEffect. rewrite reject_if_ok. intros [_ H]. apply bind_ok in H as (_ & _ & H). rewrite !reject_if_ok in H.
  destruct H as (_ & _ & H). apply bind_ok in H as ([] & Hb & H). by apply reject_if_ok in H as [? _].
Qed.

Lemma authorizeTerminal_ok effect authority tr a tr' :
  authorizeTerminal pijson_DecodeValue gw deps effect authority tr = (Ok a, tr') ->
  validateEffect pijson_DecodeValue gw effect = Ok tt /\ terminal_state (ef_State effect) = true /\
  sp_TerminalDigest (ta_permit a) = terminal_digest effect.
Proof.
  unfold authorizeTerminal. intros H. inv_M H. injection H as <-. destruct v1.
  match goal with Hp : (negb (sp_Durable _) || _ || _ || _ || _ || _ || _ || _ || _)%bool = false |- _ => bools in Hp end.
  destruct_and!. split_and!; [done| |done]. by apply negb_false_iff.
Qed.

Lemma quota_settle_ok effect request tr receipt tr' : settle deps effect request tr = (Ok receipt, tr') ->
  validQuotaSettlementReceipt effect request receipt = true.
Proof. unfold settle. intros H. inv_M H. injection H as <-. by apply negb_false_iff. Qed.

(** A settlement accounts for its reservation as the outcome demands: a
    completed request consumes exactly the tokens reserved at admission, a failed or
    cancelled one releases the reservation, an uncertain one holds it and asks for
    confirmation; and the receipt is for this reservation, effect and digest, under
    the permit that won the terminal commit of this snapshot. *)
Theorem settlement_accounts effect authority tr s tr' :
  AuthorizeSettlement pijson_DecodeValue gw deps effect authority tr = (Ok s, tr') ->
  let receipt := se_QuotaReceipt s in
  let ad := ef_Admission effect in
  qt_ReservationID receipt = qp_ReservationID (ad_QuotaPermit ad) /\ qt_EffectID receipt = va_EffectID (ad_Scope ad) /\
  qt_RequestDigest receipt = ad_RequestDigest ad /\ sp_TerminalDigest (qt_Authorization receipt) = terminal_digest effect /\
  se_Outcome s = ef_Outcome effect /\
  match ef_Outcome effect with
  | OutcomeCompleted =>
      qt_Disposition receipt = QuotaDispositionConsume /\ se_Response s <> None /\ se_NeedsConfirmation s = false /\
      qt_Usage receipt = MkUsage (ad_ContextTokens ad) (ad_RequestedOutputTokens ad)
  | OutcomeFailed | OutcomeCancelled =>
      qt_Disposition receipt = QuotaDispositionRelease /\ se_Response s = None /\ se_NeedsConfirmation s = false
  | OutcomeUncertain =>
      qt_Disposition receipt = QuotaDispositionHold /\ se_Response s = None /\ se_NeedsConfirmation s = true
  | _ => False
  end.
Proof.
  unfold AuthorizeSettlement. intros H. apply bindM_ok in H as (a & tr1 & Ha & H).
  apply authorizeTerminal_ok in Ha as (Hval & Hterm & Hdig). apply bindM_ok in H as ([disposition usage] & tr2 & Hd & H).
  apply liftM_ok in Hd as [Hd ->]. apply bindM_ok in H as (receipt & tr3 & Hs & H). apply quota_settle_ok in Hs.
  apply ret_ok in H as [-> ->]. apply validated_parts in Hval as [Hi Hby]. pose proof (terminal_outcome _ Hi Hterm) as Ho.
  unfold validQuotaSettlementReceipt in Hs. cbn in Hs. bools in Hs. destruct_and!. cbn. split_and!; try congruence.
  unfold settlement_disposition in Hd. unfold invalid_state in Hi.
  destruct (ef_State effect); try done; [destruct Ho as [Ho Hr]|..]; rewrite Ho in *; bools in Hi; destruct_and!;
    try (injection Hd as <- <-; split_and!; done).
  destruct (ef_Response effect) as [r|] eqn:Hresp; [|done]. injection Hd as <- <-. split_and!; try done.
  by rewrite <- (validated_usage _ _ Hby Hresp).
Qed.
End Guarantees.

(** ** The terminal digest *)
Definition field_fits (f : bytes) : Prop := zlen f < 2 ^ 64.

Lemma write_fields_inj l1 : forall l2, Forall field_fits l1 -> Forall field_fits l2 ->
  concat (map write_field l1) = concat (map write_field l2) -> l1 = l2.
Proof.
  assert (forall f, field_fits f -> be_value (be_bytes 8 (zlen f)) = zlen f) as Hlen.
  { intros f Hf. apply be_value_be_bytes. split; [apply zlen_nonneg|exact Hf]. }
  induction l1 as [|f1 l1 IH]; intros [|f2 l2] H1 H2 He; [done|..].
  - apply (f_equal length) in He. cbn [map concat] in He. unfold write_field in He. rewrite !length_app, length_be_bytes in He. done.
  - apply (f_equal length) in He. cbn [map concat] in He. unfold write_field in He. rewrite !length_app, length_be_bytes in He. done.
  - apply Forall_cons in H1 as [Hf1 H1]. apply Forall_cons in H2 as [Hf2 H2]. cbn [map concat] in He.
    unfold write_field at 1 3 in He. rewrite <- !app_assoc in He.
    apply app_inj_1 in He as [Hl He]; [|by rewrite !length_be_bytes].
    apply (f_equal be_value) in Hl. rewrite !Hlen in Hl by done. unfold zlen in Hl.
    apply app_inj_1 in He as [-> He]; [|lia]. f_equal. by apply IH.
Qed.

Lemma uint_field_inj x y : is_u64 x -> is_u64 y -> uint_field x = uint_field y -> x = y.
Proof.
  intros Hx Hy He. unfold uint_field in He. apply (f_equal be_value) in He.
  rewrite !be_value_be_bytes in He; [done|exact Hy|exact Hx].
Qed.

Lemma bool_field_inj x y : bool_field x = bool_field y -> x = y.
Proof. unfold bool_field. intros He%uint_field_inj; [by destruct x, y|by destruct x|by destruct y]. Qed.

Definition response_words (response : option ModelResponse) : Prop :=
  match response with
  | None => True
  | Some r => is_u64 (InputTokens (r_Usage r)) /\ is_u64 (OutputTokens (r_Usage r)) /\ is_u64 (zlen (r_ToolCalls r)) /\
              Forall (fun c => is_u64 (tc_Index c)) (r_ToolCalls r)
  end.

Lemma call_fields_inj calls1 : forall calls2 rest1 rest2, length calls1 = length calls2 ->
  Forall (fun c => is_u64 (tc_Index c)) calls1 -> Forall (fun c => is_u64 (tc_Index c)) calls2 ->
  concat (map call_fields calls1) ++ rest1 = concat (map call_fields calls2) ++ rest2 ->
  calls1 = calls2 /\ rest1 = rest2.
Proof.
  induction calls1 as [|c1 calls1 IH]; intros [|c2 calls2] rest1 rest2 Hl H1 H2 He; try done.
  apply Forall_cons in H1 as [Hi1 H1]. apply Forall_cons in H2 as [Hi2 H2]. cbn [map concat call_fields app] in He.
  apply cons_eq_inj in He as [Hid He]. apply cons_eq_inj in He as [Hn He]. apply cons_eq_inj in He as [Ha He].
  apply cons_eq_inj in He as [Hd He]. apply cons_eq_inj in He as [Hx He].
  apply to_bytes_inj in Hid, Hn. apply bool_field_inj in Hd. apply uint_field_inj in Hx; [|done..].
  destruct (IH calls2 rest1 rest2) as [-> ->]; [by injection Hl|done..|]. split; [|done]. f_equal.
  destruct c1, c2; cbn in *; by subst.
Qed.

Lemma response_fields_inj r1 r2 rest1 rest2 : response_words r1 -> response_words r2 ->
  response_fields r1 ++ rest1 = response_fields r2 ++ rest2 -> r1 = r2 /\ rest1 = rest2.
Proof.
  destruct r1 as [r1|], r2 as [r2|]; unfold response_fields; intros H1 H2 He; [| | |by apply cons_eq_inj in He as [_ ->]].
  - destruct H1 as (Hi1 & Ho1 & Hl1 & Hc1), H2 as (Hi2 & Ho2 & Hl2 & Hc2). rewrite <- !app_assoc in He.
    cbn [app] in He. apply cons_eq_inj in He as [_ He]. apply cons_eq_inj in He as [Ht He].
    apply cons_eq_inj in He as [Hf He]. apply cons_eq_inj in He as [Hi He]. apply cons_eq_inj in He as [Ho He].
    apply cons_eq_inj in He as [Hl He].
    apply to_bytes_inj in Ht, Hf. apply uint_field_inj in Hi, Ho, Hl; try done.
    apply call_fields_inj in He as [Hc ->]; try done; [|unfold zlen in Hl; lia]. split; [|done].
    destruct r1 as [? ? [] ?], r2 as [? ? [] ?]; cbn in *; by subst.
  - exfalso. cbn [app] in He. apply cons_eq_inj in He as [He _]. by apply uint_field_inj in He.
  - exfalso. cbn [app] in He. apply cons_eq_inj in He as [He _]. by apply uint_field_inj in He.
Qed.

(** The integers that are hashed, at their width. *)
Definition terminal_words (e : Effect) : Prop :=
  Forall is_u64 (terminal_numbers e) /\ response_words (ef_Response e) /\
  is_u64 (cp_EffectRevision (ef_CancellationPermit e)) /\ is_u64 (rp_EffectRevision (ef_RecoveryPermit e)) /\
  Forall field_fits (terminal_fields e).

Lemma uint_fields_inj l1 : forall l2, Forall is_u64 l1 -> Forall is_u64 l2 -> map uint_field l1 = map uint_field l2 -> l1 = l2.
Proof.
  induction l1 as [|x l1 IH]; intros [|y l2] H1 H2 He; try done. apply Forall_cons in H1 as [Hx H1], H2 as [Hy H2].
  cbn [map] in He. apply cons_eq_inj in He as [Hf He]. apply uint_field_inj in Hf; [|done..]. subst. f_equal. by apply IH.
Qed.

Lemma state_text_inj s1 s2 : terminal_state s1 = true -> terminal_state s2 = true -> state_text s1 = state_text s2 -> s1 = s2.
Proof. by destruct s1, s2. Qed.

(** A settlement permit cannot be moved to another terminal snapshot: two
    terminal snapshots with the same terminal digest agree on every hashed text
    (identities, provider, reservation, outcome, reason), the state, the request
    digest, the counters, the whole response and the permit proofs, or they exhibit
    a SHA-256 collision. *)
Theorem terminal_digest_binds e1 e2 :
  terminal_words e1 -> terminal_words e2 ->
  terminal_state (ef_State e1) = true -> terminal_state (ef_State e2) = true ->
  terminal_digest e1 = terminal_digest e2 ->
  (terminal_texts e1 = terminal_texts e2 /\ ef_State e1 = ef_State e2 /\
   ad_RequestDigest (ef_Admission e1) = ad_RequestDigest (ef_Admission e2) /\
   terminal_numbers e1 = terminal_numbers e2 /\ ef_PartialOutput e1 = ef_PartialOutput e2 /\
   ef_Response e1 = ef_Response e2 /\
   cp_Proof (ef_CancellationPermit e1) = cp_Proof (ef_CancellationPermit e2) /\
   rp_Proof (ef_RecoveryPermit e1) = rp_Proof (ef_RecoveryPermit e2)) \/
  (exists bs bs', bs <> bs' /\ sha256_Sum256 bs = sha256_Sum256 bs').
Proof.
  intros (Hn1 & Hr1 & Hc1 & Hp1 & Hf1) (Hn2 & Hr2 & Hc2 & Hp2 & Hf2) Ht1 Ht2 Hd. unfold terminal_digest in Hd.
  destruct (decide (concat (map write_field (terminal_fields e1)) = concat (map write_field (terminal_fields e2))))
    as [Heq|Hne]; [left|right; by eexists _, _].
  apply write_fields_inj in Heq; [|done..]. unfold terminal_fields in Heq.
  cbn [app] in Heq. apply cons_eq_inj in Heq as [_ Heq].
  apply app_inj_1 in Heq as [Htexts Heq]; [|done]. apply (inj (map to_bytes)) in Htexts.
  apply cons_eq_inj in Heq as [Hdig Heq]. apply app_inj_1 in Heq as [Hnums Heq]; [|done].
  apply uint_fields_inj in Hnums; [|done..]. apply cons_eq_inj in Heq as [Hpart%bool_field_inj Heq].
  apply response_fields_inj in Heq as [Hresp Heq]; [|done..]. apply cons_eq_inj in Heq as [Hcp Heq].
  apply cons_eq_inj in Heq as [Hrp _]. split_and!; try done.
  apply state_text_inj; [done..|]. unfold terminal_texts in Htexts. by injection Htexts.
Qed.

(** ** Model gateway: a concrete effect

    A configured gateway with one grant and one provider, an admitted request and
    the snapshots it goes through; the theorems of the model gateway applied to
    them. *)

#[local] Existing Instance id_normalizer.

Definition sample_bounds : Bounds := MkBounds 1024 16 1024 4096 64 64 128 4096 32 65536 65536 256.
Definition sample_tenant : ID := MkID "tenant" "tenant_A".
Definition sample_user : ID := MkID "subject" "subject_A".
Definition sample_grant : ModelGrant := MkGrant sample_tenant sample_user "model-1" "provider-1" 1000 500 1500 2.
Definition json_any (_ : Value) : bool := true.

Definition sample_gateway : Gateway :=
  match newGatewayConfiguration sample_bounds 0 [sample_grant] [("provider-1", false)] with
  | Ok gw => gw
  | Err _ => MkGateway sample_bounds 0 ∅ ∅
  end.

Definition sample_scope (generation : Z) : ValidatedAuthority :=
  MkAuthority sample_tenant sample_user (MkID "sess" "sess_A") (MkID "turn" "turn_A") (MkID "effect" "effect_A")
    (MkID "inv" "inv_A") (MkID "runtime" "runtime_A") (MkModelGenerations generation 1 1).

Definition sample_model : ModelRequest := MkModelRequest "model-1" [MkMessage "user" "hello"] 100 "default".
Definition sample_digest : Digest :=
  match ModelRequestDigest sample_model with Ok d => d | Err _ => zero_digest end.
Definition sample_admission_request : AdmissionRequest :=
  MkAdmissionRequest (to_bytes "token") (MkID "effect" "effect_A") (MkID "inv" "inv_A") sample_digest sample_model.

Definition sample_permit (q : QuotaRequest) : QuotaPermit :=
  MkQuotaPermit "reservation-1" true (qr_TenantID q) (qr_UserID q) (qr_EffectID q) (qr_InvocationID q) (qr_SessionID q)
    (qr_TurnID q) (qr_RuntimeRevision q) (qr_Generations q) (qr_RequestDigest q) (qr_ContextTokens q) (qr_OutputTokens q).

Definition proof_bytes : Digest := repeat "p"%char 32.
Definition sample_dispatch_permit (e : Effect) : DispatchPermit :=
  let ad := ef_Admission e in
  MkDispatchPermit proof_bytes true (ad_Scope ad) (va_EffectID (ad_Scope ad)) (va_InvocationID (ad_Scope ad))
    (ad_RequestDigest ad) (ad_ProviderID ad) (ef_Attempt e) (ef_Revision e).
Definition sample_settlement_permit (e : Effect) (digest : Digest) : SettlementPermit :=
  let ad := ef_Admission e in
  MkSettlementPermit proof_bytes true (ad_Scope ad) (va_EffectID (ad_Scope ad)) (va_InvocationID (ad_Scope ad))
    (ad_RequestDigest ad) (ef_Revision e) digest (qp_ReservationID (ad_QuotaPermit ad)).
Definition sample_resume_permit (e : Effect) : ResumePermit :=
  let ad := ef_Admission e in
  MkResume proof_bytes true (ad_Scope ad) (ad_Scope ad) (va_EffectID (ad_Scope ad)) (va_InvocationID (ad_Scope ad))
    (ad_RequestDigest ad) (ad_ProviderID ad) (ef_ProviderRequestID e) (ef_Attempt e) (ef_Revision e).
Definition sample_cancellation (e : Effect) : CancellationPermit :=
  let ad := ef_Admission e in
  MkCancellation proof_bytes true (ad_Scope ad) (va_EffectID (ad_Scope ad)) (va_InvocationID (ad_Scope ad))
    (ad_RequestDigest ad) (ad_ProviderID ad) (ef_ProviderRequestID e) (ef_Attempt e) (ef_Revision e) false.
Definition sample_receipt (q : QuotaSettlementRequest) : QuotaSettlementReceipt :=
  let p := qs_Permit q in
  MkReceipt (qp_ReservationID p) (qp_EffectID p) (qp_InvocationID p) (qp_RequestDigest p) (qs_Outcome q) (qs_Disposition q)
    (qs_Usage q) (qs_ProviderRequestID q) (qs_Attempt q) true (qs_Authorization q) (qs_Recovery q) (qs_Resolution q).

(** Dependencies that grant everything. *)
Definition sample_deps : Deps :=
  MkDeps (fun _ => None) (fun _ _ _ => Ok (sample_scope 1)) (fun _ _ _ => Ok (sample_scope 1)) (fun _ _ => Ok 40)
    (fun _ _ => Ok (MkAvailability true true)) (fun _ => true) (fun _ q => Ok (sample_permit q)) (fun _ q => Ok (sample_receipt q))
    (fun _ e => Ok (sample_dispatch_permit e)) (fun _ _ => None) (fun _ _ _ => (MkDispatchResult "request-1" (Some 7%nat), None))
    (fun _ _ => None) (fun _ e => Ok (sample_cancellation e)) (fun _ e => Ok (sample_resume_permit e)) (fun _ _ => Ok (Some 8%nat))
    (fun _ e d => Ok (sample_settlement_permit e d)) (fun _ _ _ _ => Err DependencyError) (fun _ _ => None).

Definition admitted : Effect :=
  match Admit sample_gateway sample_deps sample_admission_request [] with
  | (Ok e, _) => e
  | _ => initial_effect (MkAdmission no_authority zero_digest sample_model "" (sample_permit (MkQuotaRequest no_id no_id no_id
           no_id no_id no_id no_id (MkModelGenerations 0 0 0) zero_digest 0 0)) 0 0 0 0 0 false)
  end.

Definition step (e : Effect) (ev : Event) : Effect :=
  match Apply json_any sample_gateway e ev with Ok t => tr_Effect t | Err _ => e end.
Definition dispatching : Effect := step admitted (plain_event admitted EventBeginDispatch).
Definition accepted : Effect := step dispatching (accepted_event dispatching "request-1").
Definition delta_event (e : Effect) (permit : ResumePermit) : Event :=
  MkEvent (ef_Revision e) EventDelta "" "text" None NoFailure "" false no_cancellation permit.
Definition completed_event (e : Effect) (permit : ResumePermit) : Event :=
  MkEvent (ef_Revision e) EventResponseCompleted "" "" (Some (MkModelResponse "answer" "stop" (MkUsage 40 7) [])) NoFailure ""
    false no_cancellation permit.
(** A stream resumed under a permit, and the same cancelled. *)
Definition resumed : Effect := step accepted (delta_event accepted (sample_resume_permit accepted)).
Definition completed : Effect := step accepted (completed_event accepted no_resume).
(** A request whose cancellation was resolved with a permit. *)
Definition cancelling : Effect := step accepted (plain_event accepted EventCancelRequested).
Definition uncertain : Effect := step cancelling (resolution_event cancelling (sample_cancellation cancelling)).

Example sample_states :
  map ef_State [admitted; dispatching; accepted; resumed; completed; cancelling; uncertain] =
  [StateAdmitted; StateDispatching; StateDispatched; StateStreaming; StateCompleted; StateCancellationPending; StateUncertain].
Proof. vm_compute. reflexivity. Qed.

(** A computation that succeeds, evaluated only for its success. *)
Lemma is_ok_inv {E A} (m : res E A) : is_ok m = true -> exists a, m = Ok a.
Proof. destruct m as [a|]; [by exists a|done]. Qed.

Ltac concrete := vm_compute; repeat split; intros; discriminate.
Lemma sample_bounds_ok : bounds_ok (gw_bounds sample_gateway).
Proof. split; [vm_compute; reflexivity|]. repeat apply List.Forall_cons; [concrete..|apply List.Forall_nil]. Qed.
Lemma admitted_words : effect_words admitted.
Proof. split; concrete. Qed.
Lemma accepted_words : effect_words accepted.
Proof. split; concrete. Qed.
Lemma resumed_words : effect_words resumed.
Proof. split; concrete. Qed.

Lemma apply_keeps_snapshots_witness :
  exists t, Apply json_any sample_gateway accepted (delta_event accepted no_resume) = Ok t /\
            validateEffect json_any sample_gateway (tr_Effect t) = Ok tt.
Proof.
  destruct (is_ok_inv (Apply json_any sample_gateway accepted (delta_event accepted no_resume))) as [t Ht];
    [vm_compute; reflexivity|].
  exists t. split; [exact Ht|].
  apply (apply_keeps_snapshots json_any sample_gateway accepted (delta_event accepted no_resume) t sample_bounds_ok
           accepted_words Ht).
  vm_compute. reflexivity.
Defined.

(** A dispatch that was never sent is retried. *)
Definition retried : list Event :=
  [plain_event admitted EventBeginDispatch; failure_event sample_gateway dispatching FailurePreDispatch;
   MkEvent 3 EventBeginDispatch "" "" None NoFailure "" false no_cancellation no_resume].

Lemma dispatches_bounded_witness :
  exists e' commands, run json_any sample_gateway admitted retried = Ok (e', commands) /\ length commands = 2%nat /\
    commands = map (command_at (ef_Admission admitted)) (seqZ 1 (ef_Attempt e')).
Proof.
  destruct (is_ok_inv (run json_any sample_gateway admitted retried)) as [[e' commands] Hr]; [vm_compute; reflexivity|].
  exists e', commands.
  assert (match run json_any sample_gateway admitted retried with Ok (e2, _) => ef_Attempt e2 | Err _ => 0 end = 2) as Ha
    by (vm_compute; reflexivity). rewrite Hr in Ha.
  destruct (dispatches_bounded json_any sample_gateway sample_bounds_ok admitted retried e' commands admitted_words) as [Hc _].
  - vm_compute. reflexivity.
  - vm_compute. reflexivity.
  - exact Hr.
  - split; [exact Hr|]. split; [|exact Hc]. rewrite Hc, Ha. reflexivity.
Defined.

Lemma accepted_never_redispatched_witness :
  exists e', run json_any sample_gateway accepted [completed_event accepted no_resume] = Ok (e', []) /\
             ef_ProviderRequestID e' = "request-1".
Proof.
  destruct (is_ok_inv (run json_any sample_gateway accepted [completed_event accepted no_resume])) as [[e' commands] Hr];
    [vm_compute; reflexivity|].
  exists e'.
  destruct (accepted_never_redispatched json_any sample_gateway sample_bounds_ok accepted [completed_event accepted no_resume] e' commands accepted_words)
    as (Hc & Hid & _).
  - left. vm_compute. discriminate.
  - exact Hr.
  - rewrite Hid. split; [rewrite Hr, Hc; reflexivity|]. vm_compute. reflexivity.
Defined.

(** A recovered stream that is cancelled: the cancellation is accepted with a command for
    the provider, and then nothing is, the command included. *)
Lemma stranded_effect_is_stuck_witness :
  exists t, Apply json_any sample_gateway resumed (plain_event resumed EventCancelRequested) = Ok t /\ bool_decide (tr_Cancel t <> None) = true /\
    is_ok (Apply json_any sample_gateway (tr_Effect t) (plain_event (tr_Effect t) EventCancellationResolved)) = false /\
    forall authority, refused (AuthorizeSettlement json_any sample_gateway sample_deps (tr_Effect t) authority).
Proof.
  destruct (is_ok_inv (Apply json_any sample_gateway resumed (plain_event resumed EventCancelRequested))) as [t Ht]; [vm_compute; reflexivity|].
  exists t. split; [exact Ht|]. split.
  - assert (match Apply json_any sample_gateway resumed (plain_event resumed EventCancelRequested) with
            | Ok t => bool_decide (tr_Cancel t <> None) | Err _ => false end = true) as Hc by (vm_compute; reflexivity).
    rewrite Ht in Hc. exact Hc.
  - destruct (stranded_effect_is_stuck json_any sample_gateway sample_deps resumed _ t sample_bounds_ok resumed_words Ht) as (Happly & _ & _ & _ & Hset & _).
    + vm_compute. reflexivity.
    + split; [apply Happly|exact Hset].
Defined.

(** The same after a cancellation resolved with a permit: the request may be
    resumed, and the first event of the resumed stream strands the effect. *)
Example resumed_after_cancellation_strands :
  exists permit, (ResumeProviderRequest json_any sample_gateway sample_deps (to_bytes "token") uncertain []).1 = Ok (8%nat, permit) /\
    is_ok (Apply json_any sample_gateway uncertain (completed_event uncertain permit)) = true /\
    strands uncertain (completed_event uncertain permit) = true.
Proof.
  exists (sample_resume_permit uncertain). split; [vm_compute; reflexivity|]. split; vm_compute; reflexivity.
Qed.

(** The resumed stream, from its admission. *)
Definition resumed_history : list Event :=
  [plain_event admitted EventBeginDispatch; accepted_event dispatching "request-1"; delta_event accepted (sample_resume_permit accepted)].
Lemma effect_can_finish_witness :
  exists t, Apply json_any sample_gateway resumed (ending_event sample_gateway resumed) = Ok t /\ ef_Outcome (tr_Effect t) = OutcomeUncertain.
Proof.
  destruct (Admit sample_gateway sample_deps sample_admission_request []) as [r tr'] eqn:Ha.
  assert (r = Ok admitted) as ->.
  { change r with (r, tr').1. rewrite <- Ha. vm_compute. reflexivity. }
  destruct (effect_can_finish json_any sample_gateway sample_deps sample_bounds 0 [sample_grant] [("provider-1", false)]
    sample_admission_request [] admitted tr' resumed_history resumed (match run json_any sample_gateway admitted resumed_history with Ok (_, c) => c | Err _ => [] end)
    sample_bounds_ok) as [Hs|(t & Happly & _ & Ho)].
  - vm_compute. reflexivity.
  - exact Ha.
  - exact admitted_words.
  - vm_compute. reflexivity.
  - vm_compute. reflexivity.
  - destruct Hs as (before & ev & e1 & cs & Heq & Hrun & Hs). exfalso.
    apply (app_inj_2 [plain_event admitted EventBeginDispatch; accepted_event dispatching "request-1"] before
      [delta_event accepted (sample_resume_permit accepted)] [ev] eq_refl) in Heq as [<- [= <-]].
    assert (e1 = accepted) as ->; [|vm_compute in Hs; discriminate Hs].
    assert (match run json_any sample_gateway admitted [plain_event admitted EventBeginDispatch; accepted_event dispatching "request-1"] with
            | Ok (e, _) => e | Err _ => admitted end = accepted) as He by (vm_compute; reflexivity).
    rewrite Hrun in He. exact He.
  - exists t. split; [exact Happly|]. rewrite Ho. vm_compute. reflexivity.
Defined.

Lemma admit_valid_witness :
  exists e tr', Admit sample_gateway sample_deps sample_admission_request [] = (Ok e, tr') /\
    validateEffect json_any sample_gateway e = Ok tt /\ length tr' = 4%nat.
Proof.
  destruct (Admit sample_gateway sample_deps sample_admission_request []) as [r tr'] eqn:Ha.
  destruct (is_ok_inv r) as [e ->].
  { change r with (r, tr').1. rewrite <- Ha. vm_compute. reflexivity. }
  exists e, tr'.
  destruct (admit_valid json_any sample_gateway sample_deps sample_bounds 0 [sample_grant] [("provider-1", false)]
    sample_admission_request [] e tr' sample_bounds_ok) as (Hv & _ & _ & _ & q & Ht & _).
  - vm_compute. reflexivity.
  - exact Ha.
  - split; [reflexivity|]. split; [exact Hv|]. rewrite Ht. reflexivity.
Defined.

Lemma settlement_accounts_witness :
  exists s tr', AuthorizeSettlement json_any sample_gateway sample_deps completed (to_bytes "token") [] = (Ok s, tr') /\
    qt_Usage (se_QuotaReceipt s) = MkUsage 40 100.
Proof.
  destruct (AuthorizeSettlement json_any sample_gateway sample_deps completed (to_bytes "token") []) as [r tr'] eqn:Hs.
  destruct (is_ok_inv r) as [s ->].
  { change r with (r, tr').1. rewrite <- Hs. vm_compute. reflexivity. }
  exists s, tr'. split; [reflexivity|].
  pose proof (settlement_accounts json_any sample_gateway sample_deps completed (to_bytes "token") [] s tr' Hs) as H.
  cbv zeta in H. destruct H as (_ & _ & _ & _ & _ & H).
  assert (ef_Outcome completed = OutcomeCompleted) as Ho by (vm_compute; reflexivity). rewrite Ho in H.
  destruct H as (_ & _ & _ & Hu). rewrite Hu. vm_compute. reflexivity.
Defined.

Lemma forallb_words {A} (p : A -> bool) (P : A -> Prop) l : (forall x, p x = true -> P x) -> forallb p l = true -> Forall P l.
Proof. intros Hp Hl. rewrite forallb_forall in Hl. apply List.Forall_forall. auto. Qed.

Lemma completed_terminal_words : terminal_words completed.
Proof.
  split; [|split; [|split; [concrete|split; [concrete|]]]].
  - apply (forallb_words (fun z => (0 <=? z) && (z <? 2 ^ 64))); [|vm_compute; reflexivity].
    intros z Hz. bools in Hz. exact Hz.
  - assert (ef_Response completed = Some (MkModelResponse "answer" "stop" (MkUsage 40 100) [])) as -> by (vm_compute; reflexivity).
    repeat split; try (intros; discriminate). apply List.Forall_nil.
  - apply (forallb_words (fun f => zlen f <? 2 ^ 64)); [|vm_compute; reflexivity]. intros f Hf. by apply Z.ltb_lt.
Qed.

Lemma terminal_digest_binds_witness :
  (ef_Response completed = ef_Response completed) \/
  (exists bs bs', bs <> bs' /\ sha256_Sum256 bs = sha256_Sum256 bs').
Proof.
  destruct (terminal_digest_binds completed completed completed_terminal_words completed_terminal_words)
    as [(_ & _ & _ & _ & _ & H & _)|H].
  - vm_compute. reflexivity.
  - vm_compute. reflexivity.
  - reflexivity.
  - left. exact H.
  - right. exact H.
Defined.
