(* ===== verification/BrokerState.v ===== *)
(** * Broker state and commands ([internal/broker/types.go])

    The snapshots, permits, receipts and commands the coordinator exchanges with
    the durable session store. Messages of the generated API are the fields the
    broker reads, or their encoding where it only compares them. *)

From S2P Require Import Prelude Identity BrokerTypes.
#[local] Open Scope string_scope.
#[local] Open Scope list_scope.
#[local] Open Scope Z_scope.
#[local] Open Scope go_scope.

Inductive broker_error :=
| ErrInvalidRequest | ErrAdmissionExpired | ErrLeaseExpired | ErrStaleGeneration | ErrFenceMismatch | ErrEffectInFlight
| ErrInvalidEffectState | ErrIdempotencyConflict | ErrDurabilityBarrier | ErrLedgerUnavailable | ErrLedgerMismatch
| ErrDispatchAlreadyStarted | ErrDispatchStartUnknown | ErrDispatchStarterUnavailable | OtherError.
#[global] Instance broker_error_eq_dec : EqDecision broker_error.
Proof. solve_decision. Defined.

(** ** Time: [Before], [After] and [Equal] compare instants. *)
Definition Before (a b : Time) : bool := t_instant a <? t_instant b.
Definition After (a b : Time) : bool := t_instant b <? t_instant a.
Definition time_Equal (a b : Time) : bool := t_instant a =? t_instant b.

(** [v1.PublicError] and [v1.AgentCheckpoint], compared with [proto.Equal]: their
    encoding. *)
Abbreviation PublicError := (list ascii) (only parsing).

(** [v1.EffectRecord]: the fields the broker reads; [er_rest] is the others. *)
Inductive RecordState := RecordPrepared | RecordSettled | OtherRecordState (n : Z).
#[global] Instance RecordState_eq_dec : EqDecision RecordState.
Proof. solve_decision. Defined.
Record EffectRecord := MkEffectRecord {
  er_State : RecordState;
  er_DispatchAttempt : Z;
  er_TenantId : string;
  er_UserId : string;
  er_SessionId : string;
  er_TurnId : string;
  er_EffectId : string;
  er_InvocationId : string;
  er_RequestDigest : option Digest;
  er_Operation : string;
  er_ParentOperationId : string;
  er_Ordinal : Z;
  er_TurnLeaseGeneration : Z;
  er_PlacementGeneration : Z;
  er_SandboxGeneration : Z;
  er_AuthorizationGeneration : Z;
  er_DeadlineUnixMs : Z;
  er_rest : bytes;
}.
#[global] Instance EffectRecord_eq_dec : EqDecision EffectRecord.
Proof. solve_decision. Defined.

(** ** Turns and effects *)
Record ValidatedTurnFence := MkFence {
  vf_TenantID : ID;
  vf_WorkspaceID : ID;
  vf_SessionID : ID;
  vf_TurnID : ID;
  vf_Generations : Generations;
  vf_ExpiresAt : Time;
}.

Inductive EffectState :=
| EffectPrepared | EffectDispatched | EffectExternallyCommitted | EffectSettled | EffectBlocked | OtherEffectState (s : string).
#[global] Instance EffectState_eq_dec : EqDecision EffectState.
Proof. solve_decision. Defined.

Record EffectPreparationPermit := MkPreparation {
  pp_EffectKey : EffectKey;
  pp_Opaque : string;
  pp_TenantID : ID;
  pp_WorkspaceID : ID;
  pp_UserID : ID;
  pp_Service : string;
  pp_Operation : string;
  pp_ParentOperationID : ID;
  pp_ParentOperation : string;
  pp_Ordinal : Z;
  pp_ReplayPolicy : string;
  pp_Generations : Generations;
  pp_DispatchAttempt : Z;
  pp_Deadline : Time;
  pp_EventSequence : Z;
  pp_Durable : bool;
}.

Record DispatchMetadata := MkMetadata {
  dm_DispatchAttempt : Z;
  dm_Generations : Generations;
  dm_ProviderRequestID : ID;
  dm_ProviderRouteDigest : Digest;
  dm_Deadline : Time;
  dm_Start : option DispatchStartPermit;
}.

Record EffectSnapshot := MkEffectSnapshot {
  ef_EffectID : ID;
  ef_InvocationID : ID;
  ef_RequestDigest : Digest;
  ef_Service : string;
  ef_Operation : string;
  ef_ParentOperationID : ID;
  ef_ParentOperation : string;
  ef_Ordinal : Z;
  ef_ReplayPolicy : string;
  ef_State : EffectState;
  ef_DispatchAttempt : Z;
  ef_Generations : Generations;
  ef_ExternalCommitID : ID;
  ef_ResultRef : ID;
  ef_PreparationPermit : option EffectPreparationPermit;
  ef_LastDispatch : option DispatchMetadata;
  ef_Settlement : option EffectRecord;
}.

Record EngineStepBudget := MkBudget { MaximumEvents : Z; MaximumEphemeralBytes : Z; MaximumWallClock : Z }.
#[global] Instance EngineStepBudget_eq_dec : EqDecision EngineStepBudget.
Proof. solve_decision. Defined.

Record TurnSnapshot := MkTurn {
  tn_TenantID : ID;
  tn_WorkspaceID : ID;
  tn_UserID : ID;
  tn_SessionID : ID;
  tn_TurnID : ID;
  tn_Active : bool;
  tn_AbortRequested : bool;
  tn_LeaseExpiresAt : Time;
  tn_Generations : Generations;
  tn_CheckpointDigest : Digest;
  tn_EventSequence : Z;
  tn_EngineStepLimits : EngineStepBudget;
  tn_ActiveEffect : option EffectSnapshot;
  tn_Checkpoint : option bytes;
  tn_UnconsumedSettlement : option EffectRecord;
  tn_ResumeSettlement : bytes;
}.

(** ** Engine steps *)
Record EngineStepRequest := MkStepRequest {
  es_Authority : ValidatedTurnFence; es_Now : Time; es_Budget : EngineStepBudget; es_OperationKey : string;
}.

Record EngineStepPermit := MkStepPermit {
  sn_Opaque : string;
  sn_TenantID : ID;
  sn_WorkspaceID : ID;
  sn_UserID : ID;
  sn_OperationKey : string;
  sn_SessionID : ID;
  sn_TurnID : ID;
  sn_Generations : Generations;
  sn_ExpectedEventSequence : Z;
  sn_CheckpointDigest : Digest;
  sn_Budget : EngineStepBudget;
  sn_Deadline : Time;
  sn_Durable : bool;
  sn_Checkpoint : option bytes;
  sn_UnconsumedSettlement : option EffectRecord;
  sn_ResumeSettlement : bytes;
}.

Inductive BoundaryKind := NoBoundary | BoundaryCheckpoint | BoundaryEffectRequest | BoundaryTurnComplete | BoundaryTurnError
| OtherBoundary (s : string).
#[global] Instance BoundaryKind_eq_dec : EqDecision BoundaryKind.
Proof. solve_decision. Defined.

Record EffectIntent := MkIntent {
  ei_Service : string;
  ei_Operation : string;
  ei_ReplayPolicy : string;
  ei_RequestDigest : Digest;
  ei_Payload : bytes;
  ei_ParentOperationID : ID;
  ei_ParentOperation : string;
  ei_Ordinal : Z;
}.

(** [v1.EffectRequest] of a boundary message: its enums as their numbers, [None]
    where a field is nil. *)
Record MessageIntent := MkMessageIntent {
  mi_Service : Z;
  mi_Operation : string;
  mi_ReplayPolicy : Z;
  mi_RequestDigest : option bytes;
  mi_ParentOperationId : option string;
  mi_Ordinal : Z;
}.
(** [v1.EngineStepBoundary]: whether it has a checkpoint, and its oneof; a [None]
    payload is a nil message in a set alternative. *)
Inductive MessageBoundary :=
| MessageUnset
| MessageCheckpointOnly (present : bool)
| MessageEffectRequest (intent : option MessageIntent)
| MessageTurnComplete (present : bool)
| MessageTurnError (present : bool).
Record BoundaryMessage := MkBoundaryMessage { bm_Checkpoint : bool; bm_Boundary : MessageBoundary }.

Record EngineBoundary := MkBoundary {
  eb_Kind : BoundaryKind;
  eb_CheckpointDigest : Digest;
  eb_Effect : option EffectIntent;
  eb_Message : option BoundaryMessage;
}.

Record EngineStepCommit := MkStepCommit {
  ec_Permit : EngineStepPermit; ec_Now : Time; ec_OperationKey : string; ec_RequestDigest : Digest; ec_Boundary : EngineBoundary;
}.

Record EngineStepReceipt := MkStepReceipt {
  rc_OperationKey : string;
  rc_EventSequence : Z;
  rc_Durable : bool;
  rc_PreparedEffect : option EffectRecord;
  rc_PreparationPermit : option EffectPreparationPermit;
}.

(** ** Dispatch, confirmation and settlement *)
Record DispatchRequest := MkDispatchRequest {
  dq_Authority : ValidatedTurnFence;
  dq_Now : Time;
  dq_EffectID : ID;
  dq_InvocationID : ID;
  dq_RequestDigest : Digest;
  dq_Service : string;
  dq_Operation : string;
  dq_OperationKey : string;
  dq_OperationDigest : Digest;
  dq_PreparationPermit : EffectPreparationPermit;
  dq_ProviderRequestID : ID;
  dq_ProviderRouteDigest : Digest;
  dq_Deadline : Time;
}.

Record DispatchStartRequest := MkStartRequest {
  sr_Authority : ValidatedTurnFence; sr_Now : Time; sr_Dispatch : DispatchPermit; sr_CommandDigest : Digest;
}.
Record DispatchStartClaim := MkStartClaim { sc_Permit : DispatchStartPermit; sc_Fresh : bool }.

Inductive RecoverySettlementKind := NoRecoveryKind | RecoverySettlementFailed | RecoverySettlementInterrupted
| OtherRecoveryKind (s : string).
#[global] Instance RecoverySettlementKind_eq_dec : EqDecision RecoverySettlementKind.
Proof. solve_decision. Defined.

Record SettlementRequest := MkSettlementRequest {
  st_Authority : ValidatedTurnFence;
  st_Now : Time;
  st_EffectID : ID;
  st_InvocationID : ID;
  st_RequestDigest : Digest;
  st_DispatchAttempt : Z;
  st_ExternalCommitID : ID;
  st_ResultRef : ID;
  st_Error : option PublicError;
  st_OperationKey : string;
  st_SettlementDigest : Digest;
}.

Record SettlementReceipt := MkSettlementReceipt {
  sl_EffectKey : EffectKey;
  sl_TenantID : ID;
  sl_WorkspaceID : ID;
  sl_State : EffectState;
  sl_DispatchAttempt : Z;
  sl_ExternalCommitID : ID;
  sl_ResultRef : ID;
  sl_Error : option PublicError;
  sl_OperationDigest : Digest;
  sl_RecoveryKind : RecoverySettlementKind;
  sl_Effect : option EffectRecord;
  sl_EventSequence : Z;
  sl_Durable : bool;
}.

Record ConfirmationRequest := MkConfirmationRequest {
  cf_Authority : ValidatedTurnFence;
  cf_Now : Time;
  cf_EffectID : ID;
  cf_InvocationID : ID;
  cf_RequestDigest : Digest;
  cf_Service : string;
  cf_Operation : string;
  cf_DispatchAttempt : Z;
  cf_ProviderRequestID : ID;
  cf_OperationKey : string;
  cf_OperationDigest : Digest;
}.

Record ConfirmationReceipt := MkConfirmation {
  cr_EffectKey : EffectKey;
  cr_TenantID : ID;
  cr_WorkspaceID : ID;
  cr_Service : string;
  cr_Operation : string;
  cr_DispatchAttempt : Z;
  cr_ProviderRequestID : ID;
  cr_ExternalCommitID : ID;
  cr_ResultRef : ID;
  cr_OperationDigest : Digest;
  cr_EventSequence : Z;
  cr_Durable : bool;
}.

Record BlockReceipt := MkBlockReceipt {
  br_EffectKey : EffectKey;
  br_TenantID : ID;
  br_WorkspaceID : ID;
  br_State : EffectState;
  br_ReplayPolicy : string;
  br_DispatchAttempt : Z;
  br_OperationDigest : Digest;
  br_Reason : option PublicError;
  br_EventSequence : Z;
  br_Durable : bool;
}.

(** ** Recovery *)
Inductive RecoveryAction :=
| RecoveryNone | RecoveryDispatch | RecoveryReplay | RecoveryWaitExternal | RecoverySettleOnly | RecoverySettleFailed
| RecoverySettleInterrupted | RecoveryNeedsConfirmation | RecoveryAwaitConfirmation.
#[global] Instance RecoveryAction_eq_dec : EqDecision RecoveryAction.
Proof. solve_decision. Defined.

Record RecoveryRequest := MkRecoveryRequest {
  rq_Authority : ValidatedTurnFence;
  rq_Now : Time;
  rq_EffectID : ID;
  rq_InvocationID : ID;
  rq_RequestDigest : Digest;
  rq_OperationKey : string;
  rq_OperationDigest : Digest;
  rq_UserConfirmed : bool;
  rq_ProviderRequestID : ID;
  rq_ProviderRouteDigest : Digest;
  rq_Deadline : Time;
  rq_Reason : option PublicError;
}.

Record RecoveryDecision := MkDecision {
  rd_Action : RecoveryAction;
  rd_EffectKey : EffectKey;
  rd_ReplayPolicy : string;
  rd_DispatchAttempt : Z;
  rd_ExternalCommitID : ID;
  rd_ResultRef : ID;
  rd_PreparationPermit : option EffectPreparationPermit;
  rd_DispatchPermit : option DispatchPermit;
  rd_SettlementReceipt : option SettlementReceipt;
  rd_BlockReceipt : option BlockReceipt;
}.

Record EffectReconcileRequest := MkReconcileRequest {
  rr_Recovery : RecoveryRequest;
  rr_DispatchAttempt : Z;
  rr_ExternalCommitID : ID;
  rr_ResultRef : ID;
  rr_TerminalError : option PublicError;
  rr_SettlementOperationKey : string;
  rr_SettlementDigest : Digest;
}.

(** ** Operation receipts *)
Inductive OperationKind := OperationDispatch | OperationConfirmation | OperationSettlement | OperationRecoverySettlement
| OperationBlock | OtherOperation (s : string).
#[global] Instance OperationKind_eq_dec : EqDecision OperationKind.
Proof. solve_decision. Defined.

Record OperationLookup := MkOperationLookup {
  ol_Kind : OperationKind;
  ol_OperationKey : string;
  ol_OperationDigest : Digest;
  ol_TenantID : ID;
  ol_WorkspaceID : ID;
  ol_SessionID : ID;
}.

Record OperationReceipt := MkOperationReceipt {
  or_Found : bool;
  or_Kind : OperationKind;
  or_OperationDigest : Digest;
  or_Dispatch : option DispatchPermit;
  or_Confirmation : option ConfirmationReceipt;
  or_Settlement : option SettlementReceipt;
  or_Block : option BlockReceipt;
}.

(** ** Commands to the store *)
Record AcquireStepCommand := MkAcquire {
  ac_Snapshot : TurnSnapshot; ac_Now : Time; ac_Budget : EngineStepBudget; ac_OperationKey : string; ac_AbsoluteDeadline : Time;
}.
Record CommitStepCommand := MkCommitStep {
  cc_Snapshot : TurnSnapshot; cc_Permit : EngineStepPermit; cc_Now : Time; cc_OperationKey : string; cc_RequestDigest : Digest;
  cc_Boundary : EngineBoundary;
}.
Record MarkDispatchedCommand := MkMarkDispatched {
  mk_Snapshot : TurnSnapshot; mk_Key : EffectKey; mk_Service : string; mk_Operation : string; mk_OperationKey : string;
  mk_OperationDigest : Digest; mk_PreparationPermit : EffectPreparationPermit; mk_ProviderRequestID : ID;
  mk_ProviderRouteDigest : Digest; mk_Now : Time; mk_Deadline : Time;
}.
Record ClaimDispatchStartCommand := MkClaimStart {
  cd_Snapshot : TurnSnapshot; cd_Dispatch : DispatchPermit; cd_CommandDigest : Digest; cd_Now : Time;
}.
Record MarkExternalCommand := MkMarkExternal {
  me_Snapshot : TurnSnapshot; me_Key : EffectKey; me_Record : LedgerRecord; me_DispatchAttempt : Z; me_OperationKey : string;
  me_OperationDigest : Digest;
}.
Record SettleCommand := MkSettle {
  sm_Snapshot : TurnSnapshot; sm_Key : EffectKey; sm_ExternalCommitID : ID; sm_ResultRef : ID; sm_Error : option PublicError;
  sm_DispatchAttempt : Z; sm_OperationKey : string; sm_SettlementDigest : Digest;
}.
Record BlockCommand := MkBlock {
  bc_Snapshot : TurnSnapshot; bc_Key : EffectKey; bc_OperationKey : string; bc_OperationDigest : Digest;
  bc_Reason : option PublicError;
}.
Record PrepareRetryCommand := MkPrepareRetry {
  pr_Snapshot : TurnSnapshot; pr_Key : EffectKey; pr_OperationKey : string; pr_OperationDigest : Digest; pr_Now : Time;
  pr_Deadline : Time; pr_UserConfirmed : bool;
}.
Record SettleRecoveryCommand := MkSettleRecovery {
  sy_Snapshot : TurnSnapshot; sy_Key : EffectKey; sy_OperationKey : string; sy_OperationDigest : Digest;
  sy_Kind : RecoverySettlementKind; sy_Error : option PublicError;
}.
