(* ===== verification/Coordinator.v ===== *)
(** * Broker coordinator ([internal/broker/coordinator.go], [dispatch_consumer.go],
    [ledger_router.go], [reconciler.go])

    The effect sandwich: an engine step is acquired and committed, an effect is
    dispatched, started, confirmed from the provider's ledger and settled, and
    recovered after a crash. The coordinator keeps no state; the durable store, the
    invocation ledgers and the provider starters are parameters ([Services]). *)

From S2P Require Import Prelude Calls Identity BrokerTypes BrokerState.
#[local] Open Scope string_scope.
#[local] Open Scope list_scope.
#[local] Open Scope Z_scope.
#[local] Open Scope go_scope.
#[local] Open Scope call_scope.

Inductive BrokerCall :=
| CallLookup (lookup : OperationLookup)
| CallReadTurn (session : ID)
| CallAcquireStep (command : AcquireStepCommand)
| CallCommitStep (command : CommitStepCommand)
| CallMarkDispatched (command : MarkDispatchedCommand)
| CallClaimStart (command : ClaimDispatchStartCommand)
| CallMarkExternal (command : MarkExternalCommand)
| CallSettle (command : SettleCommand)
| CallBlock (command : BlockCommand)
| CallPrepareRetry (command : PrepareRetryCommand)
| CallSettleRecovery (command : SettleRecoveryCommand)
| CallLedger (lookup : LedgerLookup)
| CallStart (service : string) (claim : ClaimedDispatchStart).
Abbreviation BrokerM := (CallM BrokerCall broker_error).
Abbreviation trace := (list BrokerCall).

Record Services := MkServices {
  ctx_Err : trace -> option broker_error;
  store_LookupOperation : trace -> OperationLookup -> res broker_error OperationReceipt;
  store_ReadTurn : trace -> ID -> res broker_error TurnSnapshot;
  store_AcquireEngineStep : trace -> AcquireStepCommand -> res broker_error EngineStepPermit;
  store_CommitEngineStep : trace -> CommitStepCommand -> res broker_error EngineStepReceipt;
  store_MarkDispatched : trace -> MarkDispatchedCommand -> res broker_error DispatchPermit;
  store_ClaimDispatchStart : trace -> ClaimDispatchStartCommand -> res broker_error DispatchStartClaim;
  store_MarkExternallyCommitted : trace -> MarkExternalCommand -> res broker_error ConfirmationReceipt;
  store_SettleEffect : trace -> SettleCommand -> res broker_error SettlementReceipt;
  store_BlockEffect : trace -> BlockCommand -> res broker_error BlockReceipt;
  store_PrepareRetry : trace -> PrepareRetryCommand -> res broker_error EffectPreparationPermit;
  store_SettleRecovery : trace -> SettleRecoveryCommand -> res broker_error SettlementReceipt;
  ledger_Lookup : option (trace -> LedgerLookup -> res broker_error LedgerRecord);
}.

(** ** Checks *)
Definition validService (service : string) : bool :=
  (service == ServiceModel) || (service == ServiceWorkspace) || (service == ServiceExecutor) || (service == ServiceMCP)
  || (service == ServiceArtifact) || (service == ServiceExternalTool).

Definition validReplayPolicy (policy : string) : bool :=
  (policy == ReplaySafe) || (policy == ReplayIdempotencyKey) || (policy == ReplayNever) || (policy == ReplayConfirm).

Definition validAuthorityRoute (authority : ValidatedTurnFence) : bool :=
  (id_kind (vf_TenantID authority) == "tenant") && (id_kind (vf_WorkspaceID authority) == "ws").

Definition validateTurn (snapshot : TurnSnapshot) (authority : ValidatedTurnFence) : res broker_error unit :=
  let limits := tn_EngineStepLimits snapshot in
  _ ← reject_if ((id_kind (tn_TenantID snapshot) != "tenant") || (id_kind (tn_WorkspaceID snapshot) != "ws")
                 || (id_kind (tn_SessionID snapshot) != "sess") || (id_kind (tn_TurnID snapshot) != "turn")
                 || (tn_CheckpointDigest snapshot == zero_digest) || (MaximumEvents limits =? 0)
                 || (MaximumEphemeralBytes limits =? 0) || (MaximumWallClock limits <=? 0)) ErrInvalidRequest;
  _ ← reject_if (negb (tn_Active snapshot) || (tn_TenantID snapshot != vf_TenantID authority)
                 || (tn_WorkspaceID snapshot != vf_WorkspaceID authority)
                 || (tn_SessionID snapshot != vf_SessionID authority) || (tn_TurnID snapshot != vf_TurnID authority))
        ErrFenceMismatch;
  _ ← reject_if (tn_Generations snapshot != vf_Generations authority) ErrStaleGeneration;
  reject_if (IsZero (tn_LeaseExpiresAt snapshot) || IsZero (vf_ExpiresAt authority)) ErrInvalidRequest.

Definition validateDispatchPermitAgainstSnapshot (snapshot : TurnSnapshot) (effect : EffectSnapshot) (key : EffectKey)
    (permit : DispatchPermit) : bool :=
  match ef_LastDispatch effect with
  | None => false
  | Some last =>
      dp_Durable permit && (dp_Opaque permit != "") && (dp_EventSequence permit != 0) && (dp_EffectKey permit == key)
      && (dp_TenantID permit == tn_TenantID snapshot) && (dp_WorkspaceID permit == tn_WorkspaceID snapshot)
      && (dp_UserID permit == tn_UserID snapshot) && (dp_Service permit == ef_Service effect)
      && (dp_Operation permit == ef_Operation effect) && (dp_ParentOperationID permit == ef_ParentOperationID effect)
      && (dp_ParentOperation permit == ef_ParentOperation effect) && (dp_Ordinal permit == ef_Ordinal effect)
      && (dp_ReplayPolicy permit == ef_ReplayPolicy effect) && (dp_Generations permit == tn_Generations snapshot)
      && (dp_DispatchAttempt permit == ef_DispatchAttempt effect) && (dp_DispatchAttempt permit == dm_DispatchAttempt last)
      && (dp_ProviderRequestID permit == dm_ProviderRequestID last)
      && (dp_ProviderRouteDigest permit == dm_ProviderRouteDigest last) && time_Equal (dp_Deadline permit) (dm_Deadline last)
  end.

Definition sameDispatchPermit (left right : DispatchPermit) : bool :=
  (dp_EffectKey left == dp_EffectKey right) && (dp_Opaque left == dp_Opaque right) && (dp_TenantID left == dp_TenantID right)
  && (dp_WorkspaceID left == dp_WorkspaceID right) && (dp_UserID left == dp_UserID right)
  && (dp_Service left == dp_Service right) && (dp_Operation left == dp_Operation right)
  && (dp_ParentOperationID left == dp_ParentOperationID right) && (dp_ParentOperation left == dp_ParentOperation right)
  && (dp_Ordinal left == dp_Ordinal right) && (dp_ReplayPolicy left == dp_ReplayPolicy right)
  && (dp_Generations left == dp_Generations right) && (dp_DispatchAttempt left == dp_DispatchAttempt right)
  && (dp_ProviderRequestID left == dp_ProviderRequestID right)
  && (dp_ProviderRouteDigest left == dp_ProviderRouteDigest right) && time_Equal (dp_Deadline left) (dp_Deadline right)
  && (dp_EventSequence left == dp_EventSequence right) && Bool.eqb (dp_Durable left) (dp_Durable right).

Definition validateLedgerRoute (record : LedgerRecord) (lookup : LedgerLookup) : res broker_error unit :=
  let key := ll_EffectKey lookup in
  reject_if ((lr_TenantID record != ll_TenantID lookup) || (lr_WorkspaceID record != ll_WorkspaceID lookup)
             || (lr_EffectID record != ek_EffectID key) || (lr_InvocationID record != ek_InvocationID key)
             || (lr_RequestDigest record != ek_RequestDigest key) || (lr_Service record != ll_Service lookup)
             || (lr_Operation record != ll_Operation lookup) || (lr_DispatchAttempt record != ll_DispatchAttempt lookup)
             || (lr_ProviderRequestID record != ll_ProviderRequestID lookup)
             || (lr_ProviderRouteDigest record != ll_ProviderRouteDigest lookup)) ErrLedgerMismatch.

Definition validateCommittedRecord (record : LedgerRecord) (lookup : LedgerLookup) : res broker_error unit :=
  let key := ll_EffectKey lookup in
  reject_if ((lr_Status record != LedgerCommitted) || (lr_EffectID record != ek_EffectID key)
             || (lr_InvocationID record != ek_InvocationID key) || (lr_RequestDigest record != ek_RequestDigest key)
             || (lr_Service record != ll_Service lookup) || (lr_Operation record != ll_Operation lookup)
             || (lr_DispatchAttempt record != ll_DispatchAttempt lookup)
             || (lr_ProviderRequestID record != ll_ProviderRequestID lookup)
             || (lr_ProviderRouteDigest record != ll_ProviderRouteDigest lookup)
             || (id_kind (lr_ExternalCommitID record) != "commit") || set_with_other_kind (lr_ResultRef record) "artifact")
    ErrLedgerMismatch.

Definition validateConfirmationReceipt (receipt : ConfirmationReceipt) (key : EffectKey) (record : LedgerRecord)
    (operationDigest : Digest) : res broker_error unit :=
  reject_if ((cr_EventSequence receipt =? 0) || (cr_EffectKey receipt != key) || (cr_TenantID receipt != lr_TenantID record)
             || (cr_WorkspaceID receipt != lr_WorkspaceID record) || (cr_Service receipt != lr_Service record)
             || (cr_Operation receipt != lr_Operation record) || (cr_DispatchAttempt receipt != lr_DispatchAttempt record)
             || (cr_ProviderRequestID receipt != lr_ProviderRequestID record)
             || (cr_ExternalCommitID receipt != lr_ExternalCommitID record) || (cr_ResultRef receipt != lr_ResultRef record)
             || (cr_OperationDigest receipt != operationDigest)) ErrFenceMismatch.

Definition validRecoverySettlementReceipt (receipt : SettlementReceipt) (key : EffectKey) (tenantID workspaceID : ID)
    (dispatchAttempt : Z) (operationDigest : Digest) (kind : RecoverySettlementKind) (publicError : option PublicError) : bool :=
  sl_Durable receipt && (sl_EventSequence receipt != 0) && (sl_EffectKey receipt == key) && (sl_TenantID receipt == tenantID)
  && (sl_WorkspaceID receipt == workspaceID) && (sl_State receipt == EffectSettled)
  && (sl_DispatchAttempt receipt == dispatchAttempt) && (sl_ExternalCommitID receipt == no_id)
  && (sl_ResultRef receipt == no_id) && (sl_Error receipt == publicError) && (sl_OperationDigest receipt == operationDigest)
  && (sl_RecoveryKind receipt == kind) && bool_decide (sl_Effect receipt <> None).

(** A preparation permit is for this effect of this turn. *)
Definition preparation_of (snapshot : TurnSnapshot) (effect : EffectSnapshot) (key : EffectKey) (p : EffectPreparationPermit)
    : bool :=
  (pp_EffectKey p == key) && (pp_Opaque p != "") && pp_Durable p && (pp_TenantID p == tn_TenantID snapshot)
  && (pp_WorkspaceID p == tn_WorkspaceID snapshot) && (pp_UserID p == tn_UserID snapshot)
  && (pp_Service p == ef_Service effect) && (pp_Operation p == ef_Operation effect)
  && (pp_ParentOperationID p == ef_ParentOperationID effect) && (pp_ParentOperation p == ef_ParentOperation effect)
  && (pp_Ordinal p == ef_Ordinal effect) && (pp_ReplayPolicy p == ef_ReplayPolicy effect).

(** A dispatch permit is for this effect of this turn, attempt, route and deadline. *)
Definition dispatch_of (snapshot : TurnSnapshot) (effect : EffectSnapshot) (key : EffectKey) (attempt : Z)
    (providerRequestID : ID) (route : Digest) (deadline : Time) (p : DispatchPermit) : bool :=
  (dp_EffectKey p == key) && (dp_Opaque p != "") && (dp_EventSequence p != 0) && (dp_TenantID p == tn_TenantID snapshot)
  && (dp_WorkspaceID p == tn_WorkspaceID snapshot) && (dp_UserID p == tn_UserID snapshot)
  && (dp_Service p == ef_Service effect) && (dp_Operation p == ef_Operation effect)
  && (dp_ParentOperationID p == ef_ParentOperationID effect) && (dp_ParentOperation p == ef_ParentOperation effect)
  && (dp_Ordinal p == ef_Ordinal effect) && (dp_ReplayPolicy p == ef_ReplayPolicy effect)
  && (dp_Generations p == tn_Generations snapshot) && (dp_DispatchAttempt p == attempt)
  && (dp_ProviderRequestID p == providerRequestID) && (dp_ProviderRouteDigest p == route) && time_Equal (dp_Deadline p) deadline.

(** The [switch effect.State] of [readAndFenceEffect]. *)
Definition effect_malformed (snapshot : TurnSnapshot) (effect : EffectSnapshot) : bool :=
  let attempt := ef_DispatchAttempt effect in
  let key := MkEffectKey (tn_SessionID snapshot) (tn_TurnID snapshot) (ef_EffectID effect) (ef_InvocationID effect)
               (ef_RequestDigest effect) in
  let uncommitted := (ef_ExternalCommitID effect != no_id) || (ef_ResultRef effect != no_id) in
  let settled := bool_decide (ef_Settlement effect <> None) in
  let undispatched := match ef_LastDispatch effect with
                      | None => true | Some last => negb (dm_DispatchAttempt last =? attempt) end in
  match ef_State effect with
  | EffectPrepared =>
      negb (attempt =? 0) || bool_decide (ef_LastDispatch effect <> None) || uncommitted || settled
      || match ef_PreparationPermit effect with
         | None => true
         | Some p => negb (preparation_of snapshot effect key p) || (pp_Generations p != ef_Generations effect)
                     || (pp_DispatchAttempt p != 1) || IsZero (pp_Deadline p) || (pp_EventSequence p =? 0)
         end
  | EffectDispatched => (attempt =? 0) || undispatched || uncommitted || settled
  | EffectBlocked => (ef_ReplayPolicy effect != ReplayConfirm) || (attempt =? 0) || undispatched || uncommitted || settled
  | EffectExternallyCommitted =>
      (attempt =? 0) || undispatched || (id_kind (ef_ExternalCommitID effect) != "commit") || settled
  | EffectSettled =>
      match ef_Settlement effect with
      | None => true
      | Some record =>
          (er_State record != RecordSettled) || (er_DispatchAttempt record != attempt)
          || (attempt =? 0) && bool_decide (ef_LastDispatch effect <> None) || (0 <? attempt) && undispatched
      end
  | OtherEffectState _ => true
  end.

(** The checks on the last dispatch, and on its start claim. *)
Definition dispatch_malformed (effect : EffectSnapshot) : bool :=
  match ef_LastDispatch effect with
  | None => false
  | Some last =>
      (dm_DispatchAttempt last =? 0) || (dm_Generations last != ef_Generations effect)
      || (dm_ProviderRouteDigest last == zero_digest) || IsZero (dm_Deadline last)
      || set_with_other_kind (dm_ProviderRequestID last) "req"
  end.
Definition start_malformed (snapshot : TurnSnapshot) (effect : EffectSnapshot) (key : EffectKey) : bool :=
  match ef_LastDispatch effect with
  | Some (MkMetadata _ _ _ _ _ (Some start)) =>
      (sp_Opaque start == "") || negb (sp_Durable start) || (sp_EventSequence start =? 0)
      || (tn_EventSequence snapshot <? sp_EventSequence start) || (sp_CommandDigest start == zero_digest)
      || negb (validateDispatchPermitAgainstSnapshot snapshot effect key (sp_Dispatch start))
  | _ => false
  end.

Section Coordinator.
Variable services : Services.

Definition read_turn (session : ID) : BrokerM TurnSnapshot :=
  ask (CallReadTurn session) (fun tr => store_ReadTurn services tr session).

Definition lookup_operation (kind : OperationKind) (key : string) (digest : Digest) (authority : ValidatedTurnFence)
    : BrokerM OperationReceipt :=
  let lookup := MkOperationLookup kind key digest (vf_TenantID authority) (vf_WorkspaceID authority) (vf_SessionID authority) in
  ask (CallLookup lookup) (fun tr => store_LookupOperation services tr lookup).

(** What [readAndFenceEffect] requires of the snapshot it read. *)
Definition fence_effect (snapshot : TurnSnapshot) (authority : ValidatedTurnFence) (now : Time) (effectID invocationID : ID)
    (requestDigest : Digest) (newAdmission : bool) : res broker_error (EffectSnapshot * EffectKey) :=
  _ ← validateTurn snapshot authority;
  _ ← reject_if (newAdmission && negb (Before now (vf_ExpiresAt authority))) ErrAdmissionExpired;
  _ ← reject_if (newAdmission && negb (Before now (tn_LeaseExpiresAt snapshot))) ErrLeaseExpired;
  _ ← reject_if (newAdmission && tn_AbortRequested snapshot) ErrInvalidEffectState;
  match tn_ActiveEffect snapshot with
  | None => Err ErrInvalidEffectState
  | Some effect =>
      _ ← reject_if ((id_kind (ef_EffectID effect) != "effect") || (id_kind (ef_InvocationID effect) != "inv")
                     || (ef_RequestDigest effect == zero_digest) || negb (validService (ef_Service effect))
                     || (ef_Operation effect == "")) ErrInvalidRequest;
      _ ← reject_if (negb (validReplayPolicy (ef_ReplayPolicy effect))) ErrInvalidRequest;
      _ ← reject_if (effect_malformed snapshot effect) ErrInvalidRequest;
      _ ← reject_if (dispatch_malformed effect) ErrInvalidRequest;
      _ ← reject_if ((ef_EffectID effect != effectID) || (ef_InvocationID effect != invocationID)
                     || (ef_RequestDigest effect != requestDigest)) ErrFenceMismatch;
      _ ← reject_if (ef_Generations effect != tn_Generations snapshot) ErrStaleGeneration;
      let key := MkEffectKey (tn_SessionID snapshot) (tn_TurnID snapshot) effectID invocationID requestDigest in
      _ ← reject_if (start_malformed snapshot effect key) ErrInvalidRequest;
      Ok (effect, key)
  end.

Definition readAndFenceEffect (authority : ValidatedTurnFence) (now : Time) (effectID invocationID : ID)
    (requestDigest : Digest) (newAdmission : bool) : BrokerM (TurnSnapshot * EffectSnapshot * EffectKey) :=
  snapshot <- read_turn (vf_SessionID authority) ;;
  ek <- liftM (fence_effect snapshot authority now effectID invocationID requestDigest newAdmission) ;;
  ret (snapshot, ek.1, ek.2).

Definition validateCurrentDispatchReplay (authority : ValidatedTurnFence) (now : Time) (permit : DispatchPermit)
    (allowClaimedAbort : bool) : BrokerM EffectSnapshot :=
  let key := dp_EffectKey permit in
  sek <- readAndFenceEffect authority now (ek_EffectID key) (ek_InvocationID key) (ek_RequestDigest key) false ;;
  let '(snapshot, effect, key) := sek in
  let unstarted := match ef_LastDispatch effect with Some last => bool_decide (dm_Start last = None) | None => true end in
  _ <- ensure ((ef_State effect != EffectDispatched) || bool_decide (ef_LastDispatch effect = None)
               || tn_AbortRequested snapshot && (negb allowClaimedAbort || unstarted)) ErrInvalidEffectState ;;
  _ <- ensure (negb (validateDispatchPermitAgainstSnapshot snapshot effect key permit)) ErrFenceMismatch ;;
  ret effect.

(** The start claim of the same attempt, read back from the store. *)
Definition same_dispatch (expected current : EffectSnapshot) : option DispatchStartPermit :=
  match ef_LastDispatch expected, ef_LastDispatch current with
  | Some old, Some last =>
      match dm_Start last with
      | Some start =>
          if (ef_State current == EffectDispatched) && (ef_Service current == ef_Service expected)
             && (ef_Operation current == ef_Operation expected)
             && (ef_ParentOperationID current == ef_ParentOperationID expected)
             && (ef_ParentOperation current == ef_ParentOperation expected) && (ef_Ordinal current == ef_Ordinal expected)
             && (ef_ReplayPolicy current == ef_ReplayPolicy expected) && (ef_Generations current == ef_Generations expected)
             && (ef_DispatchAttempt current == ef_DispatchAttempt expected)
             && (dm_DispatchAttempt last == dm_DispatchAttempt old) && (dm_Generations last == dm_Generations old)
             && (dm_ProviderRequestID last == dm_ProviderRequestID old)
             && (dm_ProviderRouteDigest last == dm_ProviderRouteDigest old) && time_Equal (dm_Deadline last) (dm_Deadline old)
          then Some start else None
      | None => None
      end
  | _, _ => None
  end.

Definition readExactDispatchStart (authority : ValidatedTurnFence) (now : Time) (expected : EffectSnapshot) (key : EffectKey)
    : BrokerM DispatchStartPermit :=
  sek <- readAndFenceEffect authority now (ek_EffectID key) (ek_InvocationID key) (ek_RequestDigest key) false ;;
  let '(_, current, currentKey) := sek in
  _ <- ensure (currentKey != key) ErrFenceMismatch ;;
  match same_dispatch expected current with
  | Some start => ret start
  | None => fail ErrFenceMismatch
  end.
(** ** Engine steps *)
Definition clamp (limits budget : EngineStepBudget) : EngineStepBudget :=
  MkBudget 1 (Z.min (MaximumEphemeralBytes budget) (MaximumEphemeralBytes limits))
    (Z.min (MaximumWallClock budget) (MaximumWallClock limits)).

Definition earlier (a b : Time) : Time := if Before a b then a else b.

(** [now.Add(d)]: only the instant of a deadline is compared. *)
Definition time_Add (t : Time) (d : Z) : Time := MkTime (t_instant t + d) (t_rest t).

Definition AcquireEngineStep (request : EngineStepRequest) : BrokerM EngineStepPermit :=
  let authority := es_Authority request in
  let now := es_Now request in
  _ <- check_context (ctx_Err services) ;;
  _ <- ensure (IsZero now || (es_OperationKey request == "") || (MaximumEvents (es_Budget request) =? 0)
               || (MaximumEphemeralBytes (es_Budget request) =? 0) || (MaximumWallClock (es_Budget request) <=? 0))
         ErrInvalidRequest ;;
  snapshot <- read_turn (vf_SessionID authority) ;;
  _ <- liftM (validateTurn snapshot authority) ;;
  _ <- ensure (negb (Before now (vf_ExpiresAt authority))) ErrAdmissionExpired ;;
  _ <- ensure (negb (Before now (tn_LeaseExpiresAt snapshot))) ErrLeaseExpired ;;
  _ <- ensure (tn_AbortRequested snapshot) ErrInvalidEffectState ;;
  _ <- ensure (match tn_ActiveEffect snapshot with Some effect => ef_State effect != EffectSettled | None => false end)
         ErrEffectInFlight ;;
  let budget := clamp (tn_EngineStepLimits snapshot) (es_Budget request) in
  let deadline := earlier (tn_LeaseExpiresAt snapshot)
                    (earlier (vf_ExpiresAt authority) (time_Add now (MaximumWallClock budget))) in
  let command := MkAcquire snapshot now budget (es_OperationKey request) deadline in
  permit <- ask (CallAcquireStep command) (fun tr => store_AcquireEngineStep services tr command) ;;
  _ <- ensure (negb (sn_Durable permit)) ErrDurabilityBarrier ;;
  _ <- ensure ((sn_Opaque permit == "") || (sn_TenantID permit != tn_TenantID snapshot)
               || (sn_WorkspaceID permit != tn_WorkspaceID snapshot) || (sn_UserID permit != tn_UserID snapshot)
               || (sn_OperationKey permit != es_OperationKey request) || (sn_SessionID permit != tn_SessionID snapshot)
               || (sn_TurnID permit != tn_TurnID snapshot) || (sn_Generations permit != tn_Generations snapshot)
               || (sn_ExpectedEventSequence permit != tn_EventSequence snapshot)
               || (sn_CheckpointDigest permit != tn_CheckpointDigest snapshot) || (sn_Budget permit != budget)
               || negb (Before now (sn_Deadline permit)) || After (sn_Deadline permit) deadline) ErrFenceMismatch ;;
  _ <- ensure ((sn_Checkpoint permit != tn_Checkpoint snapshot)
               || (sn_UnconsumedSettlement permit != tn_UnconsumedSettlement snapshot)
               || (sn_ResumeSettlement permit != tn_ResumeSettlement snapshot)) ErrFenceMismatch ;;
  ret permit.

(** The checks on the boundary: whether it ends the turn. *)
Definition check_boundary (boundary : EngineBoundary) : res broker_error bool :=
  match eb_Message boundary with
  | Some message =>
      _ ← reject_if ((eb_Kind boundary != NoBoundary) || bool_decide (is_Some (eb_Effect boundary))) ErrInvalidRequest;
      _ ← reject_if (negb (bm_Checkpoint message)) ErrInvalidRequest;
      match bm_Boundary message with
      | MessageUnset => Err ErrInvalidRequest
      | MessageCheckpointOnly present => _ ← reject_if (negb present) ErrInvalidRequest; Ok false
      | MessageEffectRequest None => Err ErrInvalidRequest
      | MessageEffectRequest (Some intent) =>
          _ ← reject_if ((mi_Service intent =? 0) || (mi_Operation intent == "") || (mi_ReplayPolicy intent =? 0)
                         || bool_decide (mi_RequestDigest intent = None)) ErrInvalidRequest;
          Ok false
      | MessageTurnComplete present | MessageTurnError present => _ ← reject_if (negb present) ErrInvalidRequest; Ok true
      end
  | None =>
      match eb_Kind boundary, eb_Effect boundary with
      | BoundaryEffectRequest, Some intent =>
          _ ← reject_if ((ei_RequestDigest intent == zero_digest) || (ei_Operation intent == "")
                         || negb (validService (ei_Service intent))) ErrInvalidRequest;
          _ ← reject_if (negb (validReplayPolicy (ei_ReplayPolicy intent))) ErrInvalidRequest;
          Ok false
      | BoundaryCheckpoint, None => Ok false
      | (BoundaryTurnComplete | BoundaryTurnError), None => Ok true
      | _, _ => Err ErrInvalidRequest
      end
  end.

(** The enums of a message, as the broker's strings. *)
Definition message_service (n : Z) : string :=
  match n with
  | 1 => ServiceModel | 2 => ServiceWorkspace | 3 => ServiceExecutor | 4 => ServiceMCP | 5 => ServiceArtifact
  | 6 => ServiceExternalTool | _ => ""
  end.
Definition message_policy (n : Z) : string :=
  match n with 1 => ReplaySafe | 2 => ReplayIdempotencyKey | 3 => ReplayNever | 4 => ReplayConfirm | _ => "" end.

(** The effect a boundary asks for. *)
Definition expected_intent (boundary : EngineBoundary) : option EffectIntent :=
  match eb_Message boundary with
  | Some (MkBoundaryMessage _ (MessageEffectRequest (Some intent))) =>
      let '(parentID, parent) := match mi_ParentOperationId intent with
                                 | None => (no_id, "")
                                 | Some text => match Parse "op" text with Ok typed => (typed, "") | Err _ => (no_id, text) end
                                 end in
      let digest := match mi_RequestDigest intent with
                    | Some value => if zlen value =? 32 then value else zero_digest
                    | None => zero_digest
                    end in
      Some (MkIntent (message_service (mi_Service intent)) (mi_Operation intent) (message_policy (mi_ReplayPolicy intent))
              digest [] parentID parent (mi_Ordinal intent))
  | Some _ => None
  | None => match eb_Kind boundary with BoundaryEffectRequest => eb_Effect boundary | _ => None end
  end.

(** [uint64(deadline.UnixMilli())]; instants count from the zero time, whose Unix
    time is [unix_epoch] nanoseconds before. *)
Definition unix_epoch : Z := 62135596800 * 1000000000.
Definition UnixMilli (t : Time) : Z := (t_instant t - unix_epoch) / 1000000.

(** The preparation receipt is for the snapshot and the requested effect. *)
Definition receipt_prepares (snapshot : TurnSnapshot) (intent : EffectIntent) (receipt : EngineStepReceipt)
    (record : EffectRecord) (p : EffectPreparationPermit) : bool :=
  let key := pp_EffectKey p in
  let parentText := if ei_ParentOperationID intent != no_id then id_value (ei_ParentOperationID intent)
                    else ei_ParentOperation intent in
  (pp_Opaque p != "") && (ek_SessionID key == tn_SessionID snapshot) && (ek_TurnID key == tn_TurnID snapshot)
  && (id_kind (ek_EffectID key) == "effect") && (id_kind (ek_InvocationID key) == "inv")
  && (ek_RequestDigest key == ei_RequestDigest intent) && (pp_TenantID p == tn_TenantID snapshot)
  && (pp_WorkspaceID p == tn_WorkspaceID snapshot) && (pp_UserID p == tn_UserID snapshot)
  && (pp_Service p == ei_Service intent) && (pp_Operation p == ei_Operation intent)
  && (pp_ParentOperationID p == ei_ParentOperationID intent) && (pp_ParentOperation p == ei_ParentOperation intent)
  && (pp_Ordinal p == ei_Ordinal intent) && (pp_ReplayPolicy p == ei_ReplayPolicy intent)
  && (pp_Generations p == tn_Generations snapshot) && (pp_DispatchAttempt p == 1) && negb (IsZero (pp_Deadline p))
  && (pp_EventSequence p == rc_EventSequence receipt) && pp_Durable p && (er_State record == RecordPrepared)
  && (er_DispatchAttempt record == 0) && (er_TenantId record == id_value (pp_TenantID p))
  && (er_UserId record == id_value (pp_UserID p)) && (er_SessionId record == id_value (ek_SessionID key))
  && (er_TurnId record == id_value (ek_TurnID key)) && (er_EffectId record == id_value (ek_EffectID key))
  && (er_InvocationId record == id_value (ek_InvocationID key)) && (er_RequestDigest record == Some (ek_RequestDigest key))
  && (er_Operation record == pp_Operation p) && (er_ParentOperationId record == parentText)
  && (er_Ordinal record == ei_Ordinal intent) && (er_TurnLeaseGeneration record == g_TurnLease (pp_Generations p))
  && (er_PlacementGeneration record == g_Placement (pp_Generations p))
  && (er_SandboxGeneration record == g_Sandbox (pp_Generations p))
  && (er_AuthorizationGeneration record == g_Authorization (pp_Generations p))
  && (er_DeadlineUnixMs record == u64 (UnixMilli (pp_Deadline p))).

Definition CommitEngineStep (request : EngineStepCommit) : BrokerM EngineStepReceipt :=
  let permit := ec_Permit request in
  let boundary := ec_Boundary request in
  _ <- check_context (ctx_Err services) ;;
  _ <- ensure (negb (sn_Durable permit) || (sn_Opaque permit == "") || (id_kind (sn_TenantID permit) != "tenant")
               || (id_kind (sn_WorkspaceID permit) != "ws") || (id_kind (sn_UserID permit) != "subject")
               || IsZero (sn_Deadline permit) || IsZero (ec_Now request) || (ec_OperationKey request == "")
               || (ec_RequestDigest request == zero_digest)) ErrInvalidRequest ;;
  _ <- ensure (eb_CheckpointDigest boundary == zero_digest) ErrInvalidRequest ;;
  isTerminal <- liftM (check_boundary boundary) ;;
  current <- read_turn (sn_SessionID permit) ;;
  _ <- ensure ((id_kind (tn_TenantID current) != "tenant") || (id_kind (tn_WorkspaceID current) != "ws")) ErrInvalidRequest ;;
  _ <- ensure ((tn_TenantID current != sn_TenantID permit) || (tn_WorkspaceID current != sn_WorkspaceID permit)
               || (tn_UserID current != sn_UserID permit)) ErrFenceMismatch ;;
  _ <- ensure ((tn_SessionID current != sn_SessionID permit)
               || (g_Authorization (tn_Generations current) != g_Authorization (sn_Generations permit))) ErrStaleGeneration ;;
  let superseded := (tn_TurnID current != sn_TurnID permit) || (tn_Generations current != sn_Generations permit) in
  _ <- ensure (superseded && negb isTerminal) ErrStaleGeneration ;;
  _ <- ensure (negb superseded && negb (Before (ec_Now request) (sn_Deadline permit))) ErrInvalidRequest ;;
  let snapshot := if superseded
    then MkTurn (sn_TenantID permit) (sn_WorkspaceID permit) (sn_UserID permit) (sn_SessionID permit) (sn_TurnID permit)
           false false (MkTime 0 0) (sn_Generations permit) (sn_CheckpointDigest permit) (sn_ExpectedEventSequence permit)
           (MkBudget 0 0 0) None None None []
    else current in
  let command := MkCommitStep snapshot permit (ec_Now request) (ec_OperationKey request) (ec_RequestDigest request) boundary in
  receipt <- ask (CallCommitStep command) (fun tr => store_CommitEngineStep services tr command) ;;
  _ <- ensure (negb (rc_Durable receipt)) ErrDurabilityBarrier ;;
  _ <- ensure ((rc_OperationKey receipt != ec_OperationKey request) || (rc_EventSequence receipt =? 0)) ErrFenceMismatch ;;
  match expected_intent boundary, rc_PreparedEffect receipt, rc_PreparationPermit receipt with
  | Some intent, Some record, Some p =>
      _ <- ensure (negb (receipt_prepares snapshot intent receipt record p)) ErrFenceMismatch ;; ret receipt
  | None, Some _, Some _ | Some _, _, _ => fail ErrFenceMismatch
  | None, _, _ => ret receipt
  end.
(** ** Dispatch *)
Definition requested_key (authority : ValidatedTurnFence) (effectID invocationID : ID) (digest : Digest) : EffectKey :=
  MkEffectKey (vf_SessionID authority) (vf_TurnID authority) effectID invocationID digest.

Definition replayed_dispatch (request : DispatchRequest) (snapshot : TurnSnapshot) (key : EffectKey) (replay : OperationReceipt)
    : option DispatchPermit :=
  let p := dq_PreparationPermit request in
  match or_Dispatch replay with
  | None => None
  | Some d =>
      if (or_Kind replay == OperationDispatch) && (or_OperationDigest replay == dq_OperationDigest request) && dp_Durable d
         && (dp_EventSequence d != 0) && (dp_EffectKey d == key) && (dp_Opaque d != "")
         && (dp_TenantID d == tn_TenantID snapshot) && (dp_WorkspaceID d == tn_WorkspaceID snapshot)
         && (dp_TenantID d == pp_TenantID p) && (dp_WorkspaceID d == pp_WorkspaceID p) && (dp_UserID d == pp_UserID p)
         && (dp_Service d == dq_Service request) && (dp_Operation d == dq_Operation request)
         && (dp_ParentOperationID d == pp_ParentOperationID p) && (dp_ParentOperation d == pp_ParentOperation p)
         && (dp_Ordinal d == pp_Ordinal p) && (dp_ReplayPolicy d == pp_ReplayPolicy p)
         && (dp_Generations d == vf_Generations (dq_Authority request)) && (dp_DispatchAttempt d == pp_DispatchAttempt p)
         && (dp_ProviderRequestID d == dq_ProviderRequestID request)
         && (dp_ProviderRouteDigest d == dq_ProviderRouteDigest request) && time_Equal (dp_Deadline d) (dq_Deadline request)
      then Some d else None
  end.

Definition AdmitDispatch (request : DispatchRequest) : BrokerM DispatchPermit :=
  let authority := dq_Authority request in
  let now := dq_Now request in
  let deadline := dq_Deadline request in
  let p := dq_PreparationPermit request in
  _ <- check_context (ctx_Err services) ;;
  _ <- ensure (IsZero now || IsZero deadline || negb (Before now deadline) || After deadline (vf_ExpiresAt authority)
               || (dq_OperationKey request == "") || (dq_OperationDigest request == zero_digest)
               || (dq_RequestDigest request == zero_digest) || (dq_ProviderRouteDigest request == zero_digest)
               || (dq_Operation request == "") || negb (validService (dq_Service request))) ErrInvalidRequest ;;
  _ <- ensure (set_with_other_kind (dq_ProviderRequestID request) "req") ErrInvalidRequest ;;
  sek <- readAndFenceEffect authority now (dq_EffectID request) (dq_InvocationID request) (dq_RequestDigest request) true ;;
  let '(snapshot, effect, key) := sek in
  _ <- ensure ((ef_Service effect != dq_Service request) || (ef_Operation effect != dq_Operation request)) ErrFenceMismatch ;;
  _ <- ensure ((ef_State effect != EffectPrepared) && (ef_State effect != EffectDispatched)) ErrInvalidEffectState ;;
  replay <- lookup_operation OperationDispatch (dq_OperationKey request) (dq_OperationDigest request) authority ;;
  if or_Found replay then
    match replayed_dispatch request snapshot key replay with
    | None => fail ErrFenceMismatch
    | Some d => _ <- validateCurrentDispatchReplay authority now d false ;; ret d
    end
  else
    _ <- ensure (ef_State effect != EffectPrepared) ErrInvalidEffectState ;;
    _ <- ensure (negb (preparation_of snapshot effect key p) || (pp_EventSequence p =? 0)
                 || (pp_Generations p != tn_Generations snapshot)
                 || (pp_DispatchAttempt p != u64 (ef_DispatchAttempt effect + 1))
                 || negb (time_Equal (pp_Deadline p) deadline)) ErrFenceMismatch ;;
    let command := MkMarkDispatched snapshot key (dq_Service request) (dq_Operation request) (dq_OperationKey request)
      (dq_OperationDigest request) p (dq_ProviderRequestID request) (dq_ProviderRouteDigest request) now deadline in
    permit <- ask (CallMarkDispatched command) (fun tr => store_MarkDispatched services tr command) ;;
    _ <- ensure (negb (dp_Durable permit)) ErrDurabilityBarrier ;;
    _ <- ensure (negb (dispatch_of snapshot effect key (pp_DispatchAttempt p) (dq_ProviderRequestID request)
                         (dq_ProviderRouteDigest request) deadline permit)) ErrFenceMismatch ;;
    _ <- validateCurrentDispatchReplay authority now permit false ;;
    ret permit.

Definition ClaimDispatchStart (request : DispatchStartRequest) : BrokerM DispatchStartClaim :=
  let permit := sr_Dispatch request in
  let key := dp_EffectKey permit in
  let authority := sr_Authority request in
  let now := sr_Now request in
  _ <- check_context (ctx_Err services) ;;
  _ <- ensure (IsZero now || (sr_CommandDigest request == zero_digest) || negb (validAuthorityRoute authority)
               || negb (dp_Durable permit) || (dp_Opaque permit == "") || (dp_EventSequence permit =? 0)
               || (id_kind (dp_TenantID permit) != "tenant") || (id_kind (dp_WorkspaceID permit) != "ws")
               || (id_kind (dp_UserID permit) != "subject") || (id_kind (ek_SessionID key) != "sess")
               || (id_kind (ek_TurnID key) != "turn") || (id_kind (ek_EffectID key) != "effect")
               || (id_kind (ek_InvocationID key) != "inv") || (ek_RequestDigest key == zero_digest)
               || (dp_ProviderRouteDigest permit == zero_digest) || negb (validService (dp_Service permit))
               || (dp_Operation permit == "") || (dp_DispatchAttempt permit =? 0) || IsZero (dp_Deadline permit)
               || negb (Before now (dp_Deadline permit)) || set_with_other_kind (dp_ProviderRequestID permit) "req")
         ErrInvalidRequest ;;
  sek <- readAndFenceEffect authority now (ek_EffectID key) (ek_InvocationID key) (ek_RequestDigest key) false ;;
  let '(snapshot, effect, key) := sek in
  _ <- ensure (tn_AbortRequested snapshot || (ef_State effect != EffectDispatched)
               || bool_decide (ef_LastDispatch effect = None)) ErrInvalidEffectState ;;
  _ <- ensure (negb (validateDispatchPermitAgainstSnapshot snapshot effect key permit)) ErrFenceMismatch ;;
  let command := MkClaimStart snapshot permit (sr_CommandDigest request) now in
  claim <- ask (CallClaimStart command) (fun tr => store_ClaimDispatchStart services tr command) ;;
  let start := sc_Permit claim in
  _ <- ensure ((sp_Opaque start == "") || negb (sp_Durable start) || (sp_EventSequence start =? 0)
               || (sp_CommandDigest start != sr_CommandDigest request)
               || negb (sameDispatchPermit (sp_Dispatch start) permit)) ErrFenceMismatch ;;
  let claimed := match ef_LastDispatch effect with Some last => bool_decide (is_Some (dm_Start last)) | None => false end in
  _ <- ensure (claimed && sc_Fresh claim) ErrFenceMismatch ;;
  persisted <- readExactDispatchStart authority now effect key ;;
  _ <- ensure (negb (sameDispatchPermit (sp_Dispatch start) (sp_Dispatch persisted)) || (sp_Opaque start != sp_Opaque persisted)
               || (sp_CommandDigest start != sp_CommandDigest persisted)
               || (sp_EventSequence start != sp_EventSequence persisted)
               || negb (Bool.eqb (sp_Durable start) (sp_Durable persisted))) ErrFenceMismatch ;;
  ret claim.

(** ** Confirmation and settlement *)
Definition replayed_confirmation (request : ConfirmationRequest) (replay : OperationReceipt) : option ConfirmationReceipt :=
  let authority := cf_Authority request in
  match or_Confirmation replay with
  | None => None
  | Some c =>
      if (or_Kind replay == OperationConfirmation) && (or_OperationDigest replay == cf_OperationDigest request) && cr_Durable c
         && (cr_EventSequence c != 0)
         && (cr_EffectKey c == requested_key authority (cf_EffectID request) (cf_InvocationID request) (cf_RequestDigest request))
         && (cr_TenantID c == vf_TenantID authority) && (cr_WorkspaceID c == vf_WorkspaceID authority)
         && (cr_Service c == cf_Service request) && (cr_Operation c == cf_Operation request)
         && (cr_DispatchAttempt c == cf_DispatchAttempt request) && (cr_ProviderRequestID c == cf_ProviderRequestID request)
         && (id_kind (cr_ExternalCommitID c) == "commit") && negb (set_with_other_kind (cr_ResultRef c) "artifact")
         && (cr_OperationDigest c == cf_OperationDigest request)
      then Some c else None
  end.

Definition ledger_lookup (snapshot : TurnSnapshot) (effect : EffectSnapshot) (key : EffectKey) (attempt : Z)
    (last : DispatchMetadata) : LedgerLookup :=
  MkLookup key (tn_TenantID snapshot) (tn_WorkspaceID snapshot) (ef_Service effect) (ef_Operation effect) attempt
    (dm_ProviderRequestID last) (dm_ProviderRouteDigest last).

Definition ConfirmExternalCommit (request : ConfirmationRequest) : BrokerM ConfirmationReceipt :=
  let authority := cf_Authority request in
  _ <- check_context (ctx_Err services) ;;
  _ <- ensure (IsZero (cf_Now request) || (cf_OperationKey request == "") || (cf_OperationDigest request == zero_digest)
               || (cf_RequestDigest request == zero_digest) || negb (validService (cf_Service request))
               || (cf_Operation request == "") || (cf_DispatchAttempt request =? 0)
               || set_with_other_kind (cf_ProviderRequestID request) "req") ErrInvalidRequest ;;
  _ <- ensure (negb (validAuthorityRoute authority)) ErrFenceMismatch ;;
  replay <- lookup_operation OperationConfirmation (cf_OperationKey request) (cf_OperationDigest request) authority ;;
  if or_Found replay then
    match replayed_confirmation request replay with Some c => ret c | None => fail ErrFenceMismatch end
  else
    match ledger_Lookup services with
    | None => fail ErrLedgerUnavailable
    | Some ledger =>
        sek <- readAndFenceEffect authority (cf_Now request) (cf_EffectID request) (cf_InvocationID request)
                 (cf_RequestDigest request) false ;;
        let '(snapshot, effect, key) := sek in
        _ <- ensure ((ef_State effect != EffectDispatched) && (ef_State effect != EffectBlocked)
                     && (ef_State effect != EffectExternallyCommitted)) ErrInvalidEffectState ;;
        _ <- ensure ((cf_Service request != ef_Service effect) || (cf_Operation request != ef_Operation effect))
               ErrFenceMismatch ;;
        match ef_LastDispatch effect with
        | None => fail ErrFenceMismatch
        | Some last =>
            _ <- ensure ((cf_DispatchAttempt request != ef_DispatchAttempt effect)
                         || (cf_DispatchAttempt request != dm_DispatchAttempt last)
                         || (cf_ProviderRequestID request != dm_ProviderRequestID last)) ErrFenceMismatch ;;
            let lookup := ledger_lookup snapshot effect key (cf_DispatchAttempt request) last in
            record <- ask (CallLedger lookup) (fun tr => ledger tr lookup) ;;
            _ <- liftM (validateLedgerRoute record lookup) ;;
            _ <- liftM (validateCommittedRecord record lookup) ;;
            let command := MkMarkExternal snapshot key record (cf_DispatchAttempt request) (cf_OperationKey request)
              (cf_OperationDigest request) in
            receipt <- ask (CallMarkExternal command) (fun tr => store_MarkExternallyCommitted services tr command) ;;
            _ <- ensure (negb (cr_Durable receipt)) ErrDurabilityBarrier ;;
            _ <- liftM (validateConfirmationReceipt receipt key record (cf_OperationDigest request)) ;;
            ret receipt
        end
    end.

(** The settlement receipt is for the key and the requested outcome. *)
Definition settles (request : SettlementRequest) (key : EffectKey) (tenantID workspaceID : ID) (r : SettlementReceipt) : bool :=
  (sl_EffectKey r == key) && (sl_TenantID r == tenantID) && (sl_WorkspaceID r == workspaceID) && (sl_EventSequence r != 0)
  && (sl_State r == EffectSettled) && (sl_DispatchAttempt r == st_DispatchAttempt request)
  && (sl_ExternalCommitID r == st_ExternalCommitID request) && (sl_ResultRef r == st_ResultRef request)
  && (sl_Error r == st_Error request) && (sl_OperationDigest r == st_SettlementDigest request)
  && (sl_RecoveryKind r == NoRecoveryKind) && bool_decide (sl_Effect r <> None).

Definition replayed_settlement (request : SettlementRequest) (replay : OperationReceipt) : option SettlementReceipt :=
  let authority := st_Authority request in
  match or_Settlement replay with
  | None => None
  | Some r =>
      if (or_Kind replay == OperationSettlement) && (or_OperationDigest replay == st_SettlementDigest request) && sl_Durable r
         && settles request (requested_key authority (st_EffectID request) (st_InvocationID request) (st_RequestDigest request))
              (vf_TenantID authority) (vf_WorkspaceID authority) r
      then Some r else None
  end.

Definition SettleEffect (request : SettlementRequest) : BrokerM SettlementReceipt :=
  let authority := st_Authority request in
  _ <- check_context (ctx_Err services) ;;
  _ <- ensure (IsZero (st_Now request) || (st_OperationKey request == "") || (st_RequestDigest request == zero_digest)
               || (st_SettlementDigest request == zero_digest) || (id_kind (st_ExternalCommitID request) != "commit")
               || set_with_other_kind (st_ResultRef request) "artifact"
               || Bool.eqb (st_ResultRef request == no_id) (bool_decide (st_Error request = None))) ErrInvalidRequest ;;
  _ <- ensure (negb (validAuthorityRoute authority)) ErrFenceMismatch ;;
  replay <- lookup_operation OperationSettlement (st_OperationKey request) (st_SettlementDigest request) authority ;;
  if or_Found replay then
    match replayed_settlement request replay with Some r => ret r | None => fail ErrFenceMismatch end
  else
    sek <- readAndFenceEffect authority (st_Now request) (st_EffectID request) (st_InvocationID request)
             (st_RequestDigest request) false ;;
    let '(snapshot, effect, key) := sek in
    _ <- ensure ((ef_State effect != EffectExternallyCommitted) && (ef_State effect != EffectSettled)) ErrInvalidEffectState ;;
    _ <- ensure ((st_DispatchAttempt request =? 0) || (st_DispatchAttempt request != ef_DispatchAttempt effect)
                 || match ef_LastDispatch effect with
                    | None => true | Some last => st_DispatchAttempt request != dm_DispatchAttempt last end) ErrFenceMismatch ;;
    _ <- ensure ((ef_ExternalCommitID effect != st_ExternalCommitID request) || (ef_ResultRef effect != st_ResultRef request))
           ErrFenceMismatch ;;
    let command := MkSettle snapshot key (st_ExternalCommitID request) (st_ResultRef request) (st_Error request)
      (st_DispatchAttempt request) (st_OperationKey request) (st_SettlementDigest request) in
    receipt <- ask (CallSettle command) (fun tr => store_SettleEffect services tr command) ;;
    _ <- ensure (negb (sl_Durable receipt)) ErrDurabilityBarrier ;;
    _ <- ensure (negb (settles request key (tn_TenantID snapshot) (tn_WorkspaceID snapshot) receipt)) ErrFenceMismatch ;;
    ret receipt.
End Coordinator.
