(* ===== verification/Recovery.v ===== *)
(** * Effect recovery ([internal/broker/coordinator.go] [RecoverEffect], [reconciler.go])

    What to do with an effect after a crash: replay the decision already taken, or
    decide from the effect's state, its start claim, the provider's ledger and its
    replay policy. *)

From S2P Require Import Prelude Calls Identity BrokerTypes BrokerState Coordinator.
#[local] Open Scope string_scope.
#[local] Open Scope list_scope.
#[local] Open Scope Z_scope.
#[local] Open Scope go_scope.
#[local] Open Scope call_scope.

(** ** Decisions *)
Definition decide_only (action : RecoveryAction) (key : EffectKey) (policy : string) (attempt : Z) : RecoveryDecision :=
  MkDecision action key policy attempt no_id no_id None None None None.
Definition with_settlement (d : RecoveryDecision) (receipt : SettlementReceipt) : RecoveryDecision :=
  MkDecision (rd_Action d) (rd_EffectKey d) (rd_ReplayPolicy d) (rd_DispatchAttempt d) (rd_ExternalCommitID d) (rd_ResultRef d)
    (rd_PreparationPermit d) (rd_DispatchPermit d) (Some receipt) (rd_BlockReceipt d).
Definition with_block (d : RecoveryDecision) (receipt : BlockReceipt) : RecoveryDecision :=
  MkDecision (rd_Action d) (rd_EffectKey d) (rd_ReplayPolicy d) (rd_DispatchAttempt d) (rd_ExternalCommitID d) (rd_ResultRef d)
    (rd_PreparationPermit d) (rd_DispatchPermit d) (rd_SettlementReceipt d) (Some receipt).
Definition with_commit (d : RecoveryDecision) (commit result : ID) : RecoveryDecision :=
  MkDecision (rd_Action d) (rd_EffectKey d) (rd_ReplayPolicy d) (rd_DispatchAttempt d) commit result
    (rd_PreparationPermit d) (rd_DispatchPermit d) (rd_SettlementReceipt d) (rd_BlockReceipt d).
Definition with_permits (d : RecoveryDecision) (preparation : option EffectPreparationPermit) (permit : option DispatchPermit)
    : RecoveryDecision :=
  MkDecision (rd_Action d) (rd_EffectKey d) (rd_ReplayPolicy d) (rd_DispatchAttempt d) (rd_ExternalCommitID d) (rd_ResultRef d)
    preparation permit (rd_SettlementReceipt d) (rd_BlockReceipt d).

(** ** Replays of an earlier decision *)
Definition replayed_recovery_dispatch (request : RecoveryRequest) (key : EffectKey) (replay : OperationReceipt)
    : option DispatchPermit :=
  let authority := rq_Authority request in
  match or_Dispatch replay with
  | None => None
  | Some p =>
      if (or_Kind replay == OperationDispatch) && (or_OperationDigest replay == rq_OperationDigest request) && dp_Durable p
         && (dp_EventSequence p != 0) && (dp_EffectKey p == key) && (dp_Opaque p != "")
         && (dp_TenantID p == vf_TenantID authority) && (dp_WorkspaceID p == vf_WorkspaceID authority)
         && (id_kind (dp_UserID p) == "subject") && (dp_Generations p == vf_Generations authority)
         && (dp_DispatchAttempt p != 0) && (dp_ProviderRequestID p == rq_ProviderRequestID request)
         && (dp_ProviderRouteDigest p != zero_digest) && (dp_ProviderRouteDigest p == rq_ProviderRouteDigest request)
         && time_Equal (dp_Deadline p) (rq_Deadline request) && validService (dp_Service p)
         && validReplayPolicy (dp_ReplayPolicy p) && (dp_Operation p != "")
      then Some p else None
  end.

Definition replayed_recovery_settlement (request : RecoveryRequest) (key : EffectKey) (replay : OperationReceipt)
    : option (SettlementReceipt * RecoveryAction) :=
  let authority := rq_Authority request in
  match or_Settlement replay with
  | None => None
  | Some r =>
      if (or_Kind replay == OperationRecoverySettlement) && (or_OperationDigest replay == rq_OperationDigest request)
         && (sl_EffectKey r == key) && (sl_TenantID r == vf_TenantID authority) && (sl_WorkspaceID r == vf_WorkspaceID authority)
         && sl_Durable r && (sl_EventSequence r != 0) && (sl_State r == EffectSettled) && (sl_ExternalCommitID r == no_id)
         && (sl_ResultRef r == no_id) && (sl_Error r == rq_Reason request)
         && (sl_OperationDigest r == rq_OperationDigest request) && bool_decide (sl_Effect r <> None)
      then match sl_RecoveryKind r with
           | RecoverySettlementFailed => Some (r, RecoverySettleFailed)
           | RecoverySettlementInterrupted => Some (r, RecoverySettleInterrupted)
           | _ => None
           end
      else None
  end.

Definition replayed_block (request : RecoveryRequest) (key : EffectKey) (replay : OperationReceipt) : option BlockReceipt :=
  let authority := rq_Authority request in
  match or_Block replay with
  | None => None
  | Some r =>
      if (or_Kind replay == OperationBlock) && (or_OperationDigest replay == rq_OperationDigest request)
         && (br_EffectKey r == key) && (br_TenantID r == vf_TenantID authority) && (br_WorkspaceID r == vf_WorkspaceID authority)
         && br_Durable r && (br_EventSequence r != 0) && (br_State r == EffectBlocked) && (br_ReplayPolicy r == ReplayConfirm)
         && (br_DispatchAttempt r != 0) && (br_OperationDigest r == rq_OperationDigest request)
         && (br_Reason r == rq_Reason request)
      then Some r else None
  end.

(** ** New decisions *)

(** The request admits new work: its deadline is ahead, within the authority and the
    lease. *)
Definition check_admission (request : RecoveryRequest) (snapshot : TurnSnapshot) : res broker_error unit :=
  let now := rq_Now request in
  let deadline := rq_Deadline request in
  let expiry := vf_ExpiresAt (rq_Authority request) in
  _ ← reject_if (IsZero deadline || negb (Before now deadline) || negb (Before now expiry) || After deadline expiry)
        ErrAdmissionExpired;
  reject_if (negb (Before now (tn_LeaseExpiresAt snapshot)) || After deadline (tn_LeaseExpiresAt snapshot)) ErrLeaseExpired.

Definition renewal_of (request : RecoveryRequest) (snapshot : TurnSnapshot) (effect : EffectSnapshot) (key : EffectKey)
    (preparation renewed : EffectPreparationPermit) : bool :=
  preparation_of snapshot effect key renewed && (pp_Opaque renewed != pp_Opaque preparation)
  && (pp_EventSequence renewed == u64 (tn_EventSequence snapshot + 1)) && (pp_DispatchAttempt renewed == 1)
  && (pp_Generations renewed == tn_Generations snapshot) && Before (rq_Now request) (pp_Deadline renewed)
  && negb (After (pp_Deadline renewed) (rq_Deadline request)).

Definition retry_of (request : RecoveryRequest) (snapshot : TurnSnapshot) (effect : EffectSnapshot) (key : EffectKey)
    (p : EffectPreparationPermit) : bool :=
  preparation_of snapshot effect key p && (pp_EventSequence p != 0)
  && ((pp_EventSequence p == tn_EventSequence snapshot) || (u64 (pp_EventSequence p - 1) == tn_EventSequence snapshot))
  && (pp_DispatchAttempt p == u64 (ef_DispatchAttempt effect + 1)) && (pp_Generations p == tn_Generations snapshot)
  && time_Equal (pp_Deadline p) (rq_Deadline request).

Definition block_of (request : RecoveryRequest) (snapshot : TurnSnapshot) (effect : EffectSnapshot) (key : EffectKey)
    (r : BlockReceipt) : bool :=
  (br_EffectKey r == key) && (br_TenantID r == tn_TenantID snapshot) && (br_WorkspaceID r == tn_WorkspaceID snapshot)
  && (br_EventSequence r != 0) && (br_State r == EffectBlocked) && (br_ReplayPolicy r == ef_ReplayPolicy effect)
  && (br_DispatchAttempt r == ef_DispatchAttempt effect) && (br_OperationDigest r == rq_OperationDigest request)
  && (br_Reason r == rq_Reason request).

(** The identity an inflight or failed ledger record must repeat; it carries no commit. *)
Definition uncommitted_record (record : LedgerRecord) (lookup : LedgerLookup) : bool :=
  let key := ll_EffectKey lookup in
  (lr_EffectID record == ek_EffectID key) && (lr_InvocationID record == ek_InvocationID key)
  && (lr_RequestDigest record == ek_RequestDigest key) && (lr_Service record == ll_Service lookup)
  && (lr_Operation record == ll_Operation lookup) && (lr_DispatchAttempt record == ll_DispatchAttempt lookup)
  && (lr_ProviderRequestID record == ll_ProviderRequestID lookup) && (lr_ExternalCommitID record == no_id)
  && (lr_ResultRef record == no_id).

(** [dispatchSnapshot]: the snapshot at the event the preparation was reserved from. *)
Definition with_event_sequence (s : TurnSnapshot) (sequence : Z) : TurnSnapshot :=
  MkTurn (tn_TenantID s) (tn_WorkspaceID s) (tn_UserID s) (tn_SessionID s) (tn_TurnID s) (tn_Active s) (tn_AbortRequested s)
    (tn_LeaseExpiresAt s) (tn_Generations s) (tn_CheckpointDigest s) sequence (tn_EngineStepLimits s) (tn_ActiveEffect s)
    (tn_Checkpoint s) (tn_UnconsumedSettlement s) (tn_ResumeSettlement s).

Section Recovery.
Variable services : Services.

(** A store error: a start that was claimed concurrently, once read back, leaves the
    effect to its provider. *)
Definition concurrent_start (request : RecoveryRequest) (effect : EffectSnapshot) (key : EffectKey) (e : broker_error)
    : BrokerM RecoveryDecision :=
  if e == ErrDispatchAlreadyStarted then
    _ <- readExactDispatchStart services (rq_Authority request) (rq_Now request) effect key ;;
    ret (decide_only RecoveryWaitExternal key (ef_ReplayPolicy effect) (ef_DispatchAttempt effect))
  else fail e.

Definition settle_recovery (request : RecoveryRequest) (snapshot : TurnSnapshot) (effect : EffectSnapshot) (key : EffectKey)
    (kind : RecoverySettlementKind) (action : RecoveryAction) (on_error : broker_error -> BrokerM RecoveryDecision)
    : BrokerM RecoveryDecision :=
  let command := MkSettleRecovery snapshot key (rq_OperationKey request) (rq_OperationDigest request) kind (rq_Reason request) in
  answer <- call (CallSettleRecovery command) (fun tr => store_SettleRecovery services tr command) ;;
  match answer with
  | Err e => on_error e
  | Ok receipt =>
      _ <- ensure (negb (validRecoverySettlementReceipt receipt key (tn_TenantID snapshot) (tn_WorkspaceID snapshot)
                           (ef_DispatchAttempt effect) (rq_OperationDigest request) kind (rq_Reason request)))
             ErrFenceMismatch ;;
      ret (with_settlement (decide_only action key (ef_ReplayPolicy effect) (ef_DispatchAttempt effect)) receipt)
  end.

(** The retry of an attempt that never started: reserve the next attempt, then
    dispatch it. *)
Definition retry_dispatch (request : RecoveryRequest) (snapshot : TurnSnapshot) (effect : EffectSnapshot) (key : EffectKey)
    (userConfirmed : bool) : BrokerM RecoveryDecision :=
  let now := rq_Now request in
  let deadline := rq_Deadline request in
  _ <- liftM (check_admission request snapshot) ;;
  _ <- ensure ((rq_ProviderRouteDigest request == zero_digest) || set_with_other_kind (rq_ProviderRequestID request) "req")
         ErrInvalidRequest ;;
  let prepare := MkPrepareRetry snapshot key (rq_OperationKey request ++ ":prepare") (rq_OperationDigest request) now deadline
                   userConfirmed in
  answer <- call (CallPrepareRetry prepare) (fun tr => store_PrepareRetry services tr prepare) ;;
  match answer with
  | Err e => concurrent_start request effect key e
  | Ok preparation =>
      _ <- ensure (negb (retry_of request snapshot effect key preparation)) ErrFenceMismatch ;;
      let command := MkMarkDispatched (with_event_sequence snapshot (u64 (pp_EventSequence preparation - 1))) key
        (ef_Service effect) (ef_Operation effect) (rq_OperationKey request) (rq_OperationDigest request) preparation
        (rq_ProviderRequestID request) (rq_ProviderRouteDigest request) now deadline in
      permit <- ask (CallMarkDispatched command) (fun tr => store_MarkDispatched services tr command) ;;
      _ <- ensure (negb (dp_Durable permit && dispatch_of snapshot effect key (pp_DispatchAttempt preparation)
                           (rq_ProviderRequestID request) (rq_ProviderRouteDigest request) deadline permit)) ErrFenceMismatch ;;
      ret (with_permits (decide_only RecoveryReplay key (ef_ReplayPolicy effect) (ef_DispatchAttempt effect))
             (Some preparation) (Some permit))
  end.

(** [case EffectPrepared]. The fence excludes a prepared effect with no preparation. *)
Definition recover_prepared (request : RecoveryRequest) (snapshot : TurnSnapshot) (effect : EffectSnapshot) (key : EffectKey)
    : BrokerM RecoveryDecision :=
  let dispatch preparation :=
    ret (with_permits (decide_only RecoveryDispatch key (ef_ReplayPolicy effect) (ef_DispatchAttempt effect))
           (Some preparation) None) in
  if tn_AbortRequested snapshot then
    settle_recovery request snapshot effect key RecoverySettlementInterrupted RecoverySettleInterrupted fail
  else
    match ef_PreparationPermit effect with
    | None => fail ErrInvalidRequest
    | Some preparation =>
        if Before (rq_Now request) (pp_Deadline preparation) then dispatch preparation
        else
          _ <- liftM (check_admission request snapshot) ;;
          let command := MkPrepareRetry snapshot key (rq_OperationKey request ++ ":prepare") (rq_OperationDigest request)
                           (rq_Now request) (rq_Deadline request) false in
          renewed <- ask (CallPrepareRetry command) (fun tr => store_PrepareRetry services tr command) ;;
          _ <- ensure (negb (renewal_of request snapshot effect key preparation renewed)) ErrFenceMismatch ;;
          dispatch renewed
    end.

(** [case EffectBlocked]. *)
Definition recover_blocked (request : RecoveryRequest) (snapshot : TurnSnapshot) (effect : EffectSnapshot) (key : EffectKey)
    : BrokerM RecoveryDecision :=
  if tn_AbortRequested snapshot then
    settle_recovery request snapshot effect key RecoverySettlementInterrupted RecoverySettleInterrupted
      (concurrent_start request effect key)
  else if rq_UserConfirmed request && (ef_ReplayPolicy effect == ReplayConfirm) then
    retry_dispatch request snapshot effect key true
  else ret (decide_only RecoveryAwaitConfirmation key (ef_ReplayPolicy effect) (ef_DispatchAttempt effect)).

(** The [switch effect.ReplayPolicy] of an attempt with no external fact. *)
Definition recover_unstarted (request : RecoveryRequest) (snapshot : TurnSnapshot) (effect : EffectSnapshot) (key : EffectKey)
    : BrokerM RecoveryDecision :=
  let policy := ef_ReplayPolicy effect in
  let interrupt := settle_recovery request snapshot effect key RecoverySettlementInterrupted RecoverySettleInterrupted
                     (concurrent_start request effect key) in
  if (policy == ReplaySafe) || (policy == ReplayIdempotencyKey) then
    if tn_AbortRequested snapshot then interrupt else retry_dispatch request snapshot effect key false
  else if policy == ReplayNever then interrupt
  else if policy == ReplayConfirm then
    let command := MkBlock snapshot key (rq_OperationKey request) (rq_OperationDigest request) (rq_Reason request) in
    answer <- call (CallBlock command) (fun tr => store_BlockEffect services tr command) ;;
    match answer with
    | Err e => concurrent_start request effect key e
    | Ok receipt =>
        _ <- ensure (negb (br_Durable receipt)) ErrDurabilityBarrier ;;
        _ <- ensure (negb (block_of request snapshot effect key receipt)) ErrFenceMismatch ;;
        ret (with_block (decide_only RecoveryNeedsConfirmation key policy (ef_DispatchAttempt effect)) receipt)
    end
  else fail ErrInvalidRequest.

(** [case EffectDispatched]: the ledger has the last word on an external fact. *)
Definition recover_dispatched (request : RecoveryRequest) (snapshot : TurnSnapshot) (effect : EffectSnapshot) (key : EffectKey)
    : BrokerM RecoveryDecision :=
  let attempt := ef_DispatchAttempt effect in
  let decision action := decide_only action key (ef_ReplayPolicy effect) attempt in
  match ledger_Lookup services, ef_LastDispatch effect with
  | None, _ => fail ErrLedgerUnavailable
  | Some _, None => fail ErrInvalidRequest
  | Some ledger, Some last =>
      let lookup := ledger_lookup snapshot effect key attempt last in
      record <- ask (CallLedger lookup) (fun tr => ledger tr lookup) ;;
      _ <- liftM (validateLedgerRoute record lookup) ;;
      match lr_Status record with
      | LedgerCommitted =>
          _ <- liftM (validateCommittedRecord record lookup) ;;
          let command := MkMarkExternal snapshot key record attempt (rq_OperationKey request) (rq_OperationDigest request) in
          receipt <- ask (CallMarkExternal command) (fun tr => store_MarkExternallyCommitted services tr command) ;;
          _ <- ensure (negb (cr_Durable receipt)) ErrDurabilityBarrier ;;
          _ <- liftM (validateConfirmationReceipt receipt key record (rq_OperationDigest request)) ;;
          ret (with_commit (decision RecoverySettleOnly) (lr_ExternalCommitID record) (lr_ResultRef record))
      | LedgerInflight =>
          _ <- ensure (negb (uncommitted_record record lookup)) ErrLedgerMismatch ;;
          ret (decision RecoveryWaitExternal)
      | LedgerFailed =>
          _ <- ensure (negb (uncommitted_record record lookup)) ErrLedgerMismatch ;;
          settle_recovery request snapshot effect key RecoverySettlementFailed RecoverySettleFailed fail
      | LedgerAbsent | LedgerUnknown =>
          match dm_Start last with
          | Some _ => ret (decision RecoveryWaitExternal)
          | None => recover_unstarted request snapshot effect key
          end
      | OtherLedgerStatus _ => fail ErrLedgerMismatch
      end
  end.

(** The [switch effect.State]. *)
Definition recover_state (request : RecoveryRequest) (snapshot : TurnSnapshot) (effect : EffectSnapshot) (key : EffectKey)
    : BrokerM RecoveryDecision :=
  let decision action := decide_only action key (ef_ReplayPolicy effect) (ef_DispatchAttempt effect) in
  match ef_State effect with
  | EffectPrepared => recover_prepared request snapshot effect key
  | EffectExternallyCommitted =>
      ret (with_commit (decision RecoverySettleOnly) (ef_ExternalCommitID effect) (ef_ResultRef effect))
  | EffectSettled => ret (decision RecoveryNone)
  | EffectBlocked => recover_blocked request snapshot effect key
  | EffectDispatched => recover_dispatched request snapshot effect key
  | OtherEffectState _ => fail ErrInvalidEffectState
  end.

(** A dispatch already recorded under the operation key. *)
Definition replay_dispatch (request : RecoveryRequest) (key : EffectKey) (replay : OperationReceipt) : BrokerM RecoveryDecision :=
  match replayed_recovery_dispatch request key replay with
  | None => fail ErrFenceMismatch
  | Some permit =>
      current <- validateCurrentDispatchReplay services (rq_Authority request) (rq_Now request) permit true ;;
      let started := match ef_LastDispatch current with Some last => bool_decide (is_Some (dm_Start last)) | None => false end in
      let decision action := decide_only action key (dp_ReplayPolicy permit) (dp_DispatchAttempt permit) in
      ret (if started then decision RecoveryWaitExternal else with_permits (decision RecoveryReplay) None (Some permit))
  end.

Definition RecoverEffect (request : RecoveryRequest) : BrokerM RecoveryDecision :=
  let authority := rq_Authority request in
  let lookup kind := lookup_operation services kind (rq_OperationKey request) (rq_OperationDigest request) authority in
  let requestedKey := requested_key authority (rq_EffectID request) (rq_InvocationID request) (rq_RequestDigest request) in
  _ <- check_context (ctx_Err services) ;;
  _ <- ensure (IsZero (rq_Now request) || (rq_OperationKey request == "") || (rq_OperationDigest request == zero_digest)
               || (rq_RequestDigest request == zero_digest)) ErrInvalidRequest ;;
  _ <- ensure (negb (validAuthorityRoute authority)) ErrFenceMismatch ;;
  dispatchReplay <- lookup OperationDispatch ;;
  if or_Found dispatchReplay then replay_dispatch request requestedKey dispatchReplay
  else
  settlementReplay <- lookup OperationRecoverySettlement ;;
  if or_Found settlementReplay then
    match replayed_recovery_settlement request requestedKey settlementReplay with
    | None => fail ErrFenceMismatch
    | Some (receipt, action) =>
        ret (with_settlement (decide_only action requestedKey "" (sl_DispatchAttempt receipt)) receipt)
    end
  else
  blockReplay <- lookup OperationBlock ;;
  if or_Found blockReplay then
    match replayed_block request requestedKey blockReplay with
    | None => fail ErrFenceMismatch
    | Some receipt =>
        ret (with_block (decide_only RecoveryNeedsConfirmation requestedKey ReplayConfirm (br_DispatchAttempt receipt)) receipt)
    end
  else
    sek <- readAndFenceEffect services authority (rq_Now request) (rq_EffectID request) (rq_InvocationID request)
             (rq_RequestDigest request) false ;;
    let '(snapshot, effect, key) := sek in
    recover_state request snapshot effect key.

(** ** Reconciliation *)
Definition Reconcile (request : EffectReconcileRequest) : BrokerM RecoveryDecision :=
  let recovery := rr_Recovery request in
  _ <- check_context (ctx_Err services) ;;
  _ <- ensure ((rr_DispatchAttempt request =? 0) || (id_kind (rr_ExternalCommitID request) != "commit")
               || set_with_other_kind (rr_ResultRef request) "artifact"
               || Bool.eqb (rr_ResultRef request == no_id) (bool_decide (rr_TerminalError request = None))
               || (rr_SettlementOperationKey request == "") || (rr_SettlementDigest request == zero_digest))
         ErrInvalidRequest ;;
  decision <- RecoverEffect recovery ;;
  let settle :=
    receipt <- SettleEffect services (MkSettlementRequest (rq_Authority recovery) (rq_Now recovery) (rq_EffectID recovery)
                 (rq_InvocationID recovery) (rq_RequestDigest recovery) (rr_DispatchAttempt request)
                 (rr_ExternalCommitID request) (rr_ResultRef request) (rr_TerminalError request)
                 (rr_SettlementOperationKey request) (rr_SettlementDigest request)) ;;
    ret (with_settlement decision receipt) in
  match rd_Action decision with
  | RecoverySettleOnly =>
      _ <- ensure ((rd_DispatchAttempt decision != rr_DispatchAttempt request)
                   || (rd_ExternalCommitID decision != rr_ExternalCommitID request)
                   || (rd_ResultRef decision != rr_ResultRef request)) ErrLedgerMismatch ;;
      settle
  | RecoveryNone => settle
  | _ => ret decision
  end.
End Recovery.

(** ** Dispatch consumer ([internal/broker/dispatch_consumer.go], [workload.go], [ledger_router.go])

    The boundary from a durable start claim to the provider: the consumer claims the
    start of one attempt and calls the provider's starter at most once, the workload
    dispatcher admits a dispatch and hands its permit to the consumer, the ledger
    router asks the ledger of the effect's service. *)

(** [dispatchStarterBinding]: a starter is what its [Start] answers. *)
Record dispatchStarterBinding := MkBinding {
  starter_Start : trace -> ClaimedDispatchStart -> option broker_error;
  binding_routeDigest : Digest;
}.
Record DispatchConsumer := MkConsumer { dc_starters : gmap string dispatchStarterBinding; dc_timeout : Z }.

Definition maximumDispatchStartTimeout : Z := 5 * 60 * 1000000000.

(** The checks of [NewDispatchConsumer] on its registry and timeout; [None] is a nil
    starter. The production proof of the claimer is not modelled. *)
Definition check_starter (service : string) (starter : option dispatchStarterBinding) : option dispatchStarterBinding :=
  b ← starter;
  if negb (validService service) || (binding_routeDigest b == zero_digest) then None else Some b.
Definition build_registry (starters : gmap string (option dispatchStarterBinding))
    : option (gmap string dispatchStarterBinding) :=
  bindings ← mapM (fun entry => b ← check_starter entry.1 entry.2; Some (entry.1, b)) (map_to_list starters);
  Some (list_to_map bindings).
Definition NewDispatchConsumer (starters : gmap string (option dispatchStarterBinding)) (timeout : Z)
    : res broker_error DispatchConsumer :=
  if (timeout <=? 0) || (maximumDispatchStartTimeout <? timeout) || bool_decide (starters = ∅)
  then Err ErrDispatchStarterUnavailable
  else match build_registry starters with
       | Some registry => Ok (MkConsumer registry timeout)
       | None => Err ErrDispatchStarterUnavailable
       end.

Inductive DispatchStartOutcome := DispatchStartOutcomeStarted | DispatchStartOutcomeUnknown.
Record DispatchStartExecution := MkExecution { dx_Claim : DispatchStartClaim; dx_Outcome : DispatchStartOutcome }.

Record WorkloadDispatch := MkWorkload {
  wd_Dispatch : DispatchRequest; wd_Authority : ValidatedTurnFence; wd_Now : Time; wd_CommandDigest : Digest;
}.

Section Consumer.
Variable services : Services.
Variable consumer : DispatchConsumer.

(** An error returned with an execution is its second component; any other error
    comes with the zero execution. The claimer is the coordinator. *)
Definition StartExactAttempt (request : DispatchStartRequest) : BrokerM (DispatchStartExecution * option broker_error) :=
  let permit := sr_Dispatch request in
  _ <- check_context (ctx_Err services) ;;
  match dc_starters consumer !! dp_Service permit with
  | None => fail ErrDispatchStarterUnavailable
  | Some binding =>
      _ <- ensure (dp_ProviderRouteDigest permit != binding_routeDigest binding) ErrFenceMismatch ;;
      claim <- ClaimDispatchStart services request ;;
      let start := sc_Permit claim in
      _ <- ensure ((sp_Opaque start == "") || negb (sp_Durable start) || (sp_EventSequence start =? 0)
                   || (sp_CommandDigest start != sr_CommandDigest request)
                   || negb (sameDispatchPermit (sp_Dispatch start) permit)) ErrFenceMismatch ;;
      if sc_Fresh claim then
        let claimed := MkClaimedStart start true in
        failure <- call (CallStart (dp_Service permit) claimed) (fun tr => starter_Start binding tr claimed) ;;
        ret match failure with
            | Some _ => (MkExecution claim DispatchStartOutcomeUnknown, Some ErrDispatchStartUnknown)
            | None => (MkExecution claim DispatchStartOutcomeStarted, None)
            end
      else ret (MkExecution claim DispatchStartOutcomeUnknown, Some ErrDispatchAlreadyStarted)
  end.

(** [WorkloadDispatcher.Dispatch], its admitter the coordinator. *)
Definition Dispatch (request : WorkloadDispatch) : BrokerM (DispatchStartExecution * option broker_error) :=
  permit <- AdmitDispatch services (wd_Dispatch request) ;;
  StartExactAttempt (MkStartRequest (wd_Authority request) (wd_Now request) permit (wd_CommandDigest request)).
End Consumer.

(** ** The ledger router *)
Abbreviation Ledger := (trace -> LedgerLookup -> res broker_error LedgerRecord).
Definition NewInvocationLedgerRouter (ledgers : gmap string (option Ledger)) : res broker_error (gmap string Ledger) :=
  if bool_decide (map_to_list ledgers = []) then Err ErrLedgerUnavailable
  else match mapM (fun entry => if validService entry.1 then l ← entry.2; Some (entry.1, l) else None) (map_to_list ledgers) with
       | Some registry => Ok (list_to_map registry)
       | None => Err ErrLedgerUnavailable
       end.
Definition InvocationLedgerRouter_Lookup (services : Services) (ledgers : gmap string Ledger) : Ledger := fun tr lookup =>
  match ctx_Err services tr with
  | Some e => Err e
  | None =>
      match ledgers !! ll_Service lookup with
      | None => Err ErrLedgerUnavailable
      | Some ledger => record ← ledger tr lookup; _ ← validateLedgerRoute record lookup; Ok record
      end
  end.
