(* ===== verification/BrokerProtocol.v ===== *)
(** * The effect protocol of the broker

    What the durable store, the ledgers and the providers may rely on: each call the
    broker makes to them is justified by what it was told before ([justified]), in
    every operation, on every path, whether the operation succeeds or not.  A retry
    of a blocked effect is justified by the request alone: [confirms key] says that the
    request being served carries the user's confirmation for the effect. *)

From S2P Require Import Prelude Calls Identity BrokerTypes BrokerState Coordinator Recovery.
#[local] Open Scope string_scope.
#[local] Open Scope list_scope.
#[local] Open Scope Z_scope.
#[local] Open Scope go_scope.
#[local] Open Scope call_scope.

(** The snapshot's active effect has the key, and passed the broker's checks. *)
Record active (snapshot : TurnSnapshot) (effect : EffectSnapshot) (key : EffectKey) : Prop := MkActive {
  active_turn : tn_Active snapshot = true;
  active_effect : tn_ActiveEffect snapshot = Some effect;
  active_key : key = MkEffectKey (tn_SessionID snapshot) (tn_TurnID snapshot) (ef_EffectID effect) (ef_InvocationID effect)
                       (ef_RequestDigest effect);
  active_generations : ef_Generations effect = tn_Generations snapshot;
  active_wellformed : effect_malformed snapshot effect = false;
  active_dispatch : dispatch_malformed effect = false;
  active_start : start_malformed snapshot effect key = false;
}.

(** The current attempt has no start claim. *)
Definition unstarted (effect : EffectSnapshot) : Prop := forall last, ef_LastDispatch effect = Some last -> dm_Start last = None.

Section Protocol.
Variable services : Services.

Variable confirms : EffectKey -> Prop.

(** The store answered the snapshot, the ledger the record. *)
Definition read_in (tr : trace) (snapshot : TurnSnapshot) : Prop :=
  exists tr0 tr1 session, tr = tr0 ++ CallReadTurn session :: tr1 /\ store_ReadTurn services tr0 session = Ok snapshot.
Definition ledger_said (tr : trace) (lookup : LedgerLookup) (record : LedgerRecord) : Prop :=
  exists tr0 tr1 ledger, tr = tr0 ++ CallLedger lookup :: tr1 /\ ledger_Lookup services = Some ledger /\
    ledger tr0 lookup = Ok record /\ validateLedgerRoute record lookup = Ok tt.

(** The ledger's answer for the effect's current attempt. *)
Definition attempt_said (tr : trace) (snapshot : TurnSnapshot) (effect : EffectSnapshot) (key : EffectKey)
    (record : LedgerRecord) : Prop :=
  exists last, ef_LastDispatch effect = Some last /\
    ledger_said tr (ledger_lookup snapshot effect key (ef_DispatchAttempt effect) last) record.

(** Dispatched, its start not claimed, and unknown to the ledger. *)
Definition idle (tr : trace) (snapshot : TurnSnapshot) (effect : EffectSnapshot) (key : EffectKey) : Prop :=
  ef_State effect = EffectDispatched /\ unstarted effect /\
  exists record, attempt_said tr snapshot effect key record /\ (lr_Status record = LedgerAbsent \/ lr_Status record = LedgerUnknown).

(** A new attempt: of a dispatched effect with no external fact, or of a blocked effect whose
    retry the user confirmed. *)
Definition may_retry (tr : trace) (snapshot : TurnSnapshot) (effect : EffectSnapshot) (key : EffectKey) (confirmed : bool) : Prop :=
  let policy := ef_ReplayPolicy effect in
  confirmed = false /\ idle tr snapshot effect key /\ (policy = ReplaySafe \/ policy = ReplayIdempotencyKey) \/
  confirmed = true /\ confirms key /\ ef_State effect = EffectBlocked /\ policy = ReplayConfirm.

(** A settlement without an external commit. *)
Definition may_settle_recovery (tr : trace) (snapshot : TurnSnapshot) (effect : EffectSnapshot) (key : EffectKey)
    (kind : RecoverySettlementKind) : Prop :=
  kind = RecoverySettlementFailed /\ ef_State effect = EffectDispatched /\
    (exists record, attempt_said tr snapshot effect key record /\ lr_Status record = LedgerFailed) \/
  kind = RecoverySettlementInterrupted /\
    (tn_AbortRequested snapshot = true /\ (ef_State effect = EffectPrepared \/ ef_State effect = EffectBlocked) \/
     idle tr snapshot effect key /\ (tn_AbortRequested snapshot = true \/ ef_ReplayPolicy effect = ReplayNever)).

(** The store just answered a fresh claim of this start, and the claim was read back. *)
Definition claimed_start (tr : trace) (claim : ClaimedDispatchStart) : Prop :=
  exists tr0 tr1 command granted, tr = tr0 ++ CallClaimStart command :: tr1 /\
    (forall service other, CallStart service other ∉ tr1) /\
    store_ClaimDispatchStart services tr0 command = Ok granted /\ sc_Fresh granted = true /\
    cs_permit claim = sc_Permit granted /\ cs_sealed claim = true /\ sp_Durable (sc_Permit granted) = true /\
    sp_CommandDigest (sc_Permit granted) = cd_CommandDigest command /\
    sameDispatchPermit (sp_Dispatch (sc_Permit granted)) (cd_Dispatch command) = true.

Definition justified (tr : trace) (c : BrokerCall) : Prop :=
  match c with
  | CallLookup _ | CallReadTurn _ | CallLedger _ => True
  | CallAcquireStep command =>
      let s := ac_Snapshot command in
      read_in tr s /\ tn_Active s = true /\ tn_AbortRequested s = false /\
      (forall effect, tn_ActiveEffect s = Some effect -> ef_State effect = EffectSettled) /\
      Before (ac_Now command) (tn_LeaseExpiresAt s) = true /\
      After (ac_AbsoluteDeadline command) (tn_LeaseExpiresAt s) = false /\
      MaximumEvents (ac_Budget command) = 1 /\
      MaximumEphemeralBytes (ac_Budget command) <= MaximumEphemeralBytes (tn_EngineStepLimits s) /\
      MaximumWallClock (ac_Budget command) <= MaximumWallClock (tn_EngineStepLimits s)
  | CallCommitStep command =>
      let s := cc_Snapshot command in let permit := cc_Permit command in
      sn_Durable permit = true /\ tn_SessionID s = sn_SessionID permit /\ tn_TurnID s = sn_TurnID permit /\
      tn_Generations s = sn_Generations permit /\
      (read_in tr s /\ Before (cc_Now command) (sn_Deadline permit) = true \/
       check_boundary (cc_Boundary command) = Ok true /\ tn_Active s = false)
  | CallMarkDispatched command =>
      exists s effect, read_in tr s /\ active s effect (mk_Key command) /\ tn_AbortRequested s = false /\
      Before (mk_Now command) (tn_LeaseExpiresAt s) = true /\ Before (mk_Now command) (mk_Deadline command) = true /\
      pp_EffectKey (mk_PreparationPermit command) = mk_Key command /\ pp_Durable (mk_PreparationPermit command) = true /\
      pp_DispatchAttempt (mk_PreparationPermit command) = u64 (ef_DispatchAttempt effect + 1) /\
      (mk_Snapshot command = s /\ ef_State effect = EffectPrepared \/
       mk_Snapshot command = with_event_sequence s (u64 (pp_EventSequence (mk_PreparationPermit command) - 1)) /\
       exists confirmed, may_retry tr s effect (mk_Key command) confirmed)
  | CallClaimStart command =>
      let s := cd_Snapshot command in let permit := cd_Dispatch command in
      exists effect, read_in tr s /\ active s effect (dp_EffectKey permit) /\ tn_AbortRequested s = false /\
      ef_State effect = EffectDispatched /\ Before (cd_Now command) (dp_Deadline permit) = true /\
      validateDispatchPermitAgainstSnapshot s effect (dp_EffectKey permit) permit = true
  | CallMarkExternal command =>
      let s := me_Snapshot command in
      exists effect, read_in tr s /\ active s effect (me_Key command) /\
      me_DispatchAttempt command = ef_DispatchAttempt effect /\
      attempt_said tr s effect (me_Key command) (me_Record command) /\
      lr_Status (me_Record command) = LedgerCommitted /\ id_kind (lr_ExternalCommitID (me_Record command)) = "commit" /\
      (ef_State effect = EffectDispatched \/ ef_State effect = EffectBlocked \/ ef_State effect = EffectExternallyCommitted)
  | CallSettle command =>
      let s := sm_Snapshot command in
      exists effect, read_in tr s /\ active s effect (sm_Key command) /\
      (ef_State effect = EffectExternallyCommitted \/ ef_State effect = EffectSettled) /\
      sm_DispatchAttempt command = ef_DispatchAttempt effect /\
      sm_ExternalCommitID command = ef_ExternalCommitID effect /\ sm_ResultRef command = ef_ResultRef effect /\
      id_kind (sm_ExternalCommitID command) = "commit" /\
      (sm_ResultRef command = no_id <-> sm_Error command <> None)
  | CallBlock command =>
      let s := bc_Snapshot command in
      exists effect, read_in tr s /\ active s effect (bc_Key command) /\ idle tr s effect (bc_Key command) /\
      ef_ReplayPolicy effect = ReplayConfirm
  | CallPrepareRetry command =>
      let s := pr_Snapshot command in
      exists effect, read_in tr s /\ active s effect (pr_Key command) /\ tn_AbortRequested s = false /\
      Before (pr_Now command) (pr_Deadline command) = true /\ Before (pr_Now command) (tn_LeaseExpiresAt s) = true /\
      After (pr_Deadline command) (tn_LeaseExpiresAt s) = false /\
      (ef_State effect = EffectPrepared /\
       (forall p, ef_PreparationPermit effect = Some p -> Before (pr_Now command) (pp_Deadline p) = false) \/
       may_retry tr s effect (pr_Key command) (pr_UserConfirmed command))
  | CallSettleRecovery command =>
      let s := sy_Snapshot command in
      exists effect, read_in tr s /\ active s effect (sy_Key command) /\
      may_settle_recovery tr s effect (sy_Key command) (sy_Kind command)
  | CallStart _ claim => claimed_start tr claim
  end.
#[local] Abbreviation wp := (wp justified).

(** ** Reading *)
Lemma read_in_app tr more snapshot : read_in tr snapshot -> read_in (tr ++ more) snapshot.
Proof. intros (tr0 & tr1 & session & -> & Hread). exists tr0, (tr1 ++ more), session. by rewrite <- app_assoc. Qed.
Lemma ledger_said_app tr more lookup record : ledger_said tr lookup record -> ledger_said (tr ++ more) lookup record.
Proof. intros (tr0 & tr1 & ledger & -> & H). exists tr0, (tr1 ++ more), ledger. by rewrite <- app_assoc. Qed.
Lemma attempt_said_app tr more s e key record : attempt_said tr s e key record -> attempt_said (tr ++ more) s e key record.
Proof. intros (last & Hlast & Hsaid). exists last. split; [done|]. by apply ledger_said_app. Qed.
Lemma idle_app tr more s e key : idle tr s e key -> idle (tr ++ more) s e key.
Proof. intros (Hs & Hu & record & Hsaid & Hst). split; [done|]. split; [done|]. exists record. split; [by apply attempt_said_app|done]. Qed.
Lemma may_retry_app tr more s e key confirmed : may_retry tr s e key confirmed -> may_retry (tr ++ more) s e key confirmed.
Proof. intros [(? & ? & ?)|?]; [left|by right]. split; [done|]. split; [by apply idle_app|done]. Qed.
End Protocol.
