(* ===== verification/BrokerProofs.v ===== *)
(** * The broker keeps to the effect protocol

    Every operation of the coordinator, the reconciler and the dispatch consumer
    makes only justified calls; what follows for any sequence of operations. *)

From S2P Require Import Prelude Calls Identity BrokerTypes BrokerState Coordinator Recovery BrokerProtocol.
#[local] Open Scope string_scope.
#[local] Open Scope list_scope.
#[local] Open Scope Z_scope.
#[local] Open Scope go_scope.
#[local] Open Scope call_scope.

(** ** The fences *)
Lemma validateTurn_ok snapshot authority :
  validateTurn snapshot authority = Ok tt ->
  tn_Active snapshot = true /\ tn_TenantID snapshot = vf_TenantID authority /\ tn_WorkspaceID snapshot = vf_WorkspaceID authority /\
  tn_SessionID snapshot = vf_SessionID authority /\ tn_TurnID snapshot = vf_TurnID authority /\
  tn_Generations snapshot = vf_Generations authority.
Proof. unfold validateTurn. intros H. inv_ok H. bools in H1. bools in H2. naive_solver. Qed.

Lemma fence_effect_ok snapshot authority now effectID invocationID digest newAdmission effect key :
  fence_effect snapshot authority now effectID invocationID digest newAdmission = Ok (effect, key) ->
  active snapshot effect key /\ key = requested_key authority effectID invocationID digest /\
  validateTurn snapshot authority = Ok tt /\ validReplayPolicy (ef_ReplayPolicy effect) = true /\
  (newAdmission = true -> tn_AbortRequested snapshot = false /\ Before now (tn_LeaseExpiresAt snapshot) = true).
Proof.
  unfold fence_effect. intros H. apply bind_ok in H as ([] & Hturn & H). apply reject_if_ok in H as [_ H].
  apply reject_if_ok in H as [Hlease H]. apply reject_if_ok in H as [Habort H].
  destruct (tn_ActiveEffect snapshot) as [found|] eqn:Hfound; [|done].
  apply reject_if_ok in H as [_ H]. apply reject_if_ok in H as [Hpolicy H]. apply reject_if_ok in H as [Hform H].
  apply reject_if_ok in H as [Hdispatch H]. apply reject_if_ok in H as [Hids H]. apply reject_if_ok in H as [Hgen H].
  apply reject_if_ok in H as [Hstart H]. injection H as <- <-.
  bools in Hids. bools in Hgen. apply negb_false_iff in Hpolicy. destruct Hids as [[<- <-] <-].
  pose proof (validateTurn_ok _ _ Hturn) as (Hactive & _ & _ & Hsession & Hid & _).
  split; [by constructor|]. split; [by unfold requested_key; rewrite Hsession, Hid|]. split; [done|]. split; [done|].
  intros ->. simpl in *. split; [done|by apply negb_false_iff].
Qed.

Lemma permit_key snapshot effect key permit :
  validateDispatchPermitAgainstSnapshot snapshot effect key permit = true -> dp_EffectKey permit = key.
Proof. unfold validateDispatchPermitAgainstSnapshot. case_match; [|done]. intros H'. bools in H'. tauto. Qed.


Lemma validateCommittedRecord_ok record lookup u :
  validateCommittedRecord record lookup = Ok u ->
  lr_Status record = LedgerCommitted /\ id_kind (lr_ExternalCommitID record) = "commit".
Proof. unfold validateCommittedRecord, reject_if. case_match; [done|]. intros _. bools in H. tauto. Qed.

Section Operations.
Context (services : Services) (confirms : EffectKey -> Prop).
#[local] Abbreviation justified := (justified services confirms).
#[local] Abbreviation wp := (wp justified).
#[local] Abbreviation read_in := (read_in services).

(** What a fenced read establishes. *)
Record fenced (authority : ValidatedTurnFence) (now : Time) (key : EffectKey) (newAdmission : bool)
    (snapshot : TurnSnapshot) (effect : EffectSnapshot) (tr : trace) : Prop := MkFenced {
  fenced_read : read_in tr snapshot;
  fenced_active : active snapshot effect key;
  fenced_turn : validateTurn snapshot authority = Ok tt;
  fenced_policy : validReplayPolicy (ef_ReplayPolicy effect) = true;
  fenced_admission : newAdmission = true ->
    tn_AbortRequested snapshot = false /\ Before now (tn_LeaseExpiresAt snapshot) = true;
}.

Lemma read_now tr session snapshot : store_ReadTurn services tr session = Ok snapshot -> read_in (tr ++ [CallReadTurn session]) snapshot.
Proof. intros H. by exists tr, [], session. Qed.

Lemma wp_fence authority now effectID invocationID digest newAdmission {B} (k : _ -> BrokerM B) Q tr :
  (forall snapshot effect more,
     fenced authority now (requested_key authority effectID invocationID digest) newAdmission
       snapshot effect (tr ++ more) ->
     (forall service claim, CallStart service claim ∉ more) ->
     wp (k (snapshot, effect, requested_key authority effectID invocationID digest)) (returns Q) (tr ++ more)) ->
  wp (bindM (readAndFenceEffect services authority now effectID invocationID digest newAdmission) k) (returns Q) tr.
Proof.
  intros Hk. eapply wp_seq with (R := fun sek tr' => exists snapshot effect, sek = (snapshot, effect, requested_key authority effectID invocationID digest) /\
    tr' = tr ++ [CallReadTurn (vf_SessionID authority)] /\
    fenced authority now (requested_key authority effectID invocationID digest) newAdmission snapshot effect tr').
  - unfold readAndFenceEffect, read_turn. wp_step; [done|]. wp_step. wp_step.
    match goal with H : fence_effect _ _ _ _ _ _ _ = Ok ?ek |- _ =>
      destruct ek as [effect key]; destruct (fence_effect_ok _ _ _ _ _ _ _ _ _ H) as (Ha & -> & Hv & Hp & Hn) end.
    eexists _, effect. split; [done|]. split; [done|]. constructor; try done. by apply read_now.
  - intros sek tr' (snapshot & effect & -> & -> & Hf). apply Hk; [done|]. intros service claim. by rewrite list_elem_of_singleton.
Qed.

(** ** Engine steps *)
Lemma earlier_le a b : t_instant (earlier a b) <= t_instant a /\ t_instant (earlier a b) <= t_instant b.
Proof. unfold earlier, Before. destruct (Z.ltb_spec (t_instant a) (t_instant b)); lia. Qed.

Lemma acquire_justified request tr : wp (AcquireEngineStep services request) (returns (fun _ _ => True)) tr.
Proof.
  unfold AcquireEngineStep, read_turn. do 2 wp_step. wp_step; [done|]. do 5 wp_step. wp_step.
  - cbn [BrokerProtocol.justified ac_Snapshot ac_Now ac_AbsoluteDeadline ac_Budget].
    match goal with H : validateTurn ?s _ = Ok ?u |- _ => destruct u; destruct (validateTurn_ok _ _ H) as (Hactive & _) end.
    split; [by apply read_now|]. split; [done|]. split; [done|]. split_and!.
    + intros effect Heffect. rewrite Heffect in *. by bools in H5.
    + by apply negb_false_iff.
    + unfold After. apply Z.ltb_ge. apply earlier_le.
    + done.
    + simpl. lia.
    + simpl. lia.
  - repeat wp_step. done.
Qed.

Lemma commit_justified request tr : wp (CommitEngineStep services request) (returns (fun _ _ => True)) tr.
Proof.
  unfold CommitEngineStep, read_turn. do 4 wp_step. wp_step; [done|]. do 5 wp_step. wp_step.
  - cbn [BrokerProtocol.justified cc_Snapshot cc_Permit cc_Now cc_Boundary].
    bools in H. bools in H5. destruct H as ((((((((Hdur & _) & _) & _) & _) & _) & _) & _) & _). destruct H5 as [Hsession _].
    destruct ((tn_TurnID _ != _) || (tn_Generations _ != _)) eqn:Hsuper; simpl in *.
    + apply negb_false_iff in H6. subst. auto 8.
    + bools in Hsuper. destruct Hsuper as [Hid Hgen]. apply negb_false_iff in H7. split_and!; auto.
      left. split; [by apply read_now|done].
  - do 2 wp_step. repeat case_match; repeat wp_step; done.
Qed.

(** ** Dispatch *)

(** A permit that was checked against the turn: it is of the dispatched attempt the
    store holds for this effect. *)
Record current_permit (authority : ValidatedTurnFence) (now : Time) (permit : DispatchPermit) (allowClaimedAbort : bool)
    (snapshot : TurnSnapshot) (effect : EffectSnapshot) (tr : trace) : Prop := MkCurrent {
  current_fenced : let key := dp_EffectKey permit in
    let key := requested_key authority (ek_EffectID key) (ek_InvocationID key) (ek_RequestDigest key) in
    fenced authority now key false snapshot effect tr;
  current_state : ef_State effect = EffectDispatched;
  current_dispatch : is_Some (ef_LastDispatch effect);
  current_abort : tn_AbortRequested snapshot = true -> allowClaimedAbort = true /\ ~ unstarted effect;
  current_valid : let key := dp_EffectKey permit in
    validateDispatchPermitAgainstSnapshot snapshot effect
      (requested_key authority (ek_EffectID key) (ek_InvocationID key) (ek_RequestDigest key)) permit = true;
}.

Lemma wp_current authority now permit allowClaimedAbort {B} (k : _ -> BrokerM B) Q tr :
  (forall snapshot effect more, current_permit authority now permit allowClaimedAbort snapshot effect (tr ++ more) ->
     (forall service claim, CallStart service claim ∉ more) -> wp (k effect) (returns Q) (tr ++ more)) ->
  wp (bindM (validateCurrentDispatchReplay services authority now permit allowClaimedAbort) k) (returns Q) tr.
Proof.
  intros Hk. unfold validateCurrentDispatchReplay. eapply wp_seq with (R := fun effect tr' => exists snapshot more,
    tr' = tr ++ more /\ current_permit authority now permit allowClaimedAbort snapshot effect tr' /\
    (forall service claim, CallStart service claim ∉ more)).
  - apply wp_fence. intros snapshot effect more Hf Hmore. do 3 wp_step. exists snapshot, more. split; [done|]. split; [|done].
    bools in H. destruct H as [[Hstate Hlast] Habort]. apply negb_false_iff in H0.
    constructor; try done; [by destruct (ef_LastDispatch effect); [eexists|]|].
    intros Ha. destruct Habort as [?|[Hc Hs]]; [congruence|]. split; [done|]. intros Hu.
    unfold unstarted in Hu. destruct (ef_LastDispatch effect) as [last|]; [|done]. bools in Hs. by apply Hs, Hu.
  - intros effect tr' (snapshot & more & -> & Hc & Hmore). eauto.
Qed.

Definition admitted (request : DispatchRequest) (permit : DispatchPermit) (tr : trace) : Prop :=
  exists snapshot effect, current_permit (dq_Authority request) (dq_Now request) permit false snapshot effect tr /\
    dp_EffectKey permit =
      requested_key (dq_Authority request) (dq_EffectID request) (dq_InvocationID request) (dq_RequestDigest request) /\
    dp_Durable permit = true /\ dp_Service permit = dq_Service request /\ dp_Operation permit = dq_Operation request /\
    dp_DispatchAttempt permit = pp_DispatchAttempt (dq_PreparationPermit request) /\
    dp_ProviderRequestID permit = dq_ProviderRequestID request /\
    dp_ProviderRouteDigest permit = dq_ProviderRouteDigest request /\
    time_Equal (dp_Deadline permit) (dq_Deadline request) = true.

Lemma admit_justified request tr : wp (AdmitDispatch services request) (returns (admitted request)) tr.
Proof.
  unfold AdmitDispatch. do 3 wp_step. apply wp_fence. intros snapshot effect more Hf Hmore. do 2 wp_step.
  unfold lookup_operation. wp_step; [done|]. case_match.
  - destruct (replayed_dispatch _ _ _ _) as [d|] eqn:Hd; [|by wp_step]. unfold replayed_dispatch in Hd.
    destruct (or_Dispatch _) as [d'|]; [|done]. destruct (_ && _) eqn:Hb in Hd; [|done]. injection Hd as ->.
    bools in Hb. apply wp_current. intros s e m Hc _. wp_step. exists s, e. split; [done|]. tauto.
  - do 2 wp_step. wp_step.
    + cbn [BrokerProtocol.justified mk_Snapshot mk_Key mk_Now mk_Deadline mk_PreparationPermit]. exists snapshot, effect.
      destruct Hf as [Hread Hactive _ _ Hadm]. destruct (Hadm eq_refl) as [Hab Hlease].
      bools in H. bools in H5. bools in H6. unfold preparation_of in H6. bools in H6.
      split_and!; try tauto. by apply read_in_app.
    + do 2 wp_step. apply wp_current. intros s e m Hc _. wp_step. exists s, e. split; [done|].
      unfold dispatch_of in *. bools in H9. bools in H8. bools in H1. destruct H1 as [<- <-].
      split_and!; tauto.
Qed.

Lemma wp_exact_start authority now expected key {B} (k : _ -> BrokerM B) Q tr :
  (forall start snapshot effect more, read_in (tr ++ more) snapshot -> active snapshot effect key -> ~ unstarted effect ->
     (forall service claim, CallStart service claim ∉ more) -> wp (k start) (returns Q) (tr ++ more)) ->
  wp (bindM (readExactDispatchStart services authority now expected key) k) (returns Q) tr.
Proof.
  intros Hk. eapply wp_seq with (R := fun _ tr' => exists snapshot effect more, tr' = tr ++ more /\ read_in (tr ++ more) snapshot /\
    active snapshot effect key /\ ~ unstarted effect /\ forall service claim, CallStart service claim ∉ more).
  - unfold readExactDispatchStart. apply wp_fence. intros snapshot effect more [Hread Hactive _ _ _] Hmore. wp_step. bools in H.
    destruct (same_dispatch expected effect) as [start|] eqn:Hsame; wp_step. exists snapshot, effect, more. rewrite <- H.
    split_and!; try done. unfold same_dispatch in Hsame. intros Hu.
    destruct (ef_LastDispatch expected), (ef_LastDispatch effect) as [last|] eqn:Hlast; try done.
    by rewrite (Hu _ Hlast) in Hsame.
  - intros start tr' (snapshot & effect & more & -> & Hread & Hactive & Hs & Hmore). eauto.
Qed.

(** The store granted the claim in this run, and holds it. *)
Definition granted (request : DispatchStartRequest) (claim : DispatchStartClaim) (tr : trace) : Prop :=
  exists tr0 tr1 command, tr = tr0 ++ CallClaimStart command :: tr1 /\
    (forall service other, CallStart service other ∉ tr1) /\
    store_ClaimDispatchStart services tr0 command = Ok claim /\ cd_Dispatch command = sr_Dispatch request /\
    cd_CommandDigest command = sr_CommandDigest request.

Lemma claim_justified request tr : wp (ClaimDispatchStart services request) (returns (granted request)) tr.
Proof.
  unfold ClaimDispatchStart. do 2 wp_step. apply wp_fence. intros snapshot effect more Hf Hmore. do 2 wp_step. wp_step.
  - cbn [BrokerProtocol.justified cd_Snapshot cd_Dispatch cd_Now]. exists effect. destruct Hf as [Hread Hactive _ _ _].
    bools in H. bools in H0. apply negb_false_iff in H1. rewrite (permit_key _ _ _ _ H1). split_and!; try tauto.
  - do 2 wp_step. apply wp_exact_start. intros persisted s' e' more' _ _ _ Hmore'. do 2 wp_step.
    eexists _, more', _. split; [by rewrite <- (app_assoc _ [_])|]. done.
Qed.

(** ** Confirmation and settlement *)
Lemma said_now tr lookup record ledger u :
  ledger_Lookup services = Some ledger -> ledger tr lookup = Ok record -> validateLedgerRoute record lookup = Ok u ->
  ledger_said services (tr ++ [CallLedger lookup]) lookup record.
Proof. intros Hl Hr Hv. destruct u. by exists tr, [], ledger. Qed.

Lemma confirm_justified request tr : wp (ConfirmExternalCommit services request) (returns (fun _ _ => True)) tr.
Proof.
  unfold ConfirmExternalCommit, lookup_operation. do 3 wp_step. wp_step; [done|]. case_match; [case_match; by wp_step|].
  destruct (ledger_Lookup services) as [ledger|] eqn:Hledger; [|by wp_step].
  apply wp_fence. intros snapshot effect more Hf Hmore. do 2 wp_step.
  destruct (ef_LastDispatch effect) as [last|] eqn:Hlast; [|by wp_step]. wp_step. wp_step; [done|]. do 2 wp_step. wp_step.
  - cbn [BrokerProtocol.justified me_Snapshot me_Key me_Record me_DispatchAttempt]. exists effect.
    destruct Hf as [Hread Hactive _ _ _]. bools in H3. bools in H5. destruct H5 as [[Hatt _] _]. rewrite Hatt in *.
    match goal with H : validateCommittedRecord _ _ = Ok _ |- _ => destruct (validateCommittedRecord_ok _ _ _ H) as [Hst Hid] end.
    split_and!; try done; [by apply read_in_app| |tauto]. exists last. split; [done|]. by eapply said_now.
  - repeat wp_step. done.
Qed.

Definition settled_as (request : SettlementRequest) (receipt : SettlementReceipt) : Prop :=
  let authority := st_Authority request in
  sl_Durable receipt = true /\
  settles request (requested_key authority (st_EffectID request) (st_InvocationID request) (st_RequestDigest request))
    (vf_TenantID authority) (vf_WorkspaceID authority) receipt = true.

Lemma settle_justified request tr : wp (SettleEffect services request) (returns (fun receipt _ => settled_as request receipt)) tr.
Proof.
  unfold SettleEffect, lookup_operation. do 3 wp_step. wp_step; [done|]. case_match.
  - unfold replayed_settlement. destruct (or_Settlement _) as [r|]; [|by wp_step].
    destruct (_ && _) eqn:Hb; wp_step. unfold settled_as. bools in Hb. tauto.
  - apply wp_fence. intros snapshot effect more Hf Hmore. do 3 wp_step. wp_step.
    + cbn [BrokerProtocol.justified sm_Snapshot sm_Key sm_DispatchAttempt sm_ExternalCommitID sm_ResultRef sm_Error]. exists effect.
      destruct Hf as [Hread Hactive _ _ _]. bools in H. bools in H3. bools in H4. bools in H5. simpl in *.
      destruct H5 as [Hcommit Hresult]. destruct H as [[[_ Hkind] _] Herr]. split_and!; try done; try tauto.
      apply eqb_false_iff in Herr.
      destruct (st_Error request); case_bool_decide; [split; done| |by rewrite bool_decide_true in Herr|split; done].
      by rewrite bool_decide_false in Herr.
    + do 3 wp_step. apply negb_false_iff in H7. destruct Hf as [_ _ Hturn _ _].
      destruct (validateTurn_ok _ _ Hturn) as (_ & Htenant & Hws & _). simpl in *.
      split; [done|]. rewrite <- Htenant, <- Hws. by apply negb_false_iff.
Qed.

(** ** Recovery *)

(** The request carries the user's confirmation for its effect. *)
Definition request_confirms (request : RecoveryRequest) (key : EffectKey) : Prop :=
  rq_UserConfirmed request = true /\
  key = requested_key (rq_Authority request) (rq_EffectID request) (rq_InvocationID request) (rq_RequestDigest request).

(** What a decision for the key stands on. *)
Definition decided (request : RecoveryRequest) (d : RecoveryDecision) (tr : trace) : Prop :=
  let key := rd_EffectKey d in
  key = requested_key (rq_Authority request) (rq_EffectID request) (rq_InvocationID request) (rq_RequestDigest request) /\
  match rd_Action d with
  | RecoveryReplay => exists snapshot effect permit, read_in tr snapshot /\ active snapshot effect key /\
      tn_AbortRequested snapshot = false /\ rd_DispatchPermit d = Some permit /\ dp_Durable permit = true /\
      dp_EffectKey permit = key /\ dp_Generations permit = vf_Generations (rq_Authority request) /\
      (ef_State effect = EffectDispatched /\ unstarted effect /\ dp_DispatchAttempt permit = ef_DispatchAttempt effect \/
       dp_DispatchAttempt permit = u64 (ef_DispatchAttempt effect + 1) /\
       exists confirmed, may_retry services confirms tr snapshot effect key confirmed)
  | RecoveryDispatch => exists snapshot effect p, read_in tr snapshot /\ active snapshot effect key /\
      tn_AbortRequested snapshot = false /\ ef_State effect = EffectPrepared /\ rd_PreparationPermit d = Some p /\
      pp_EffectKey p = key /\ pp_DispatchAttempt p = 1 /\ Before (rq_Now request) (pp_Deadline p) = true
  | RecoverySettleOnly => exists snapshot effect, read_in tr snapshot /\ active snapshot effect key /\
      rd_DispatchAttempt d = ef_DispatchAttempt effect /\
      (ef_State effect = EffectExternallyCommitted /\ rd_ExternalCommitID d = ef_ExternalCommitID effect /\
         rd_ResultRef d = ef_ResultRef effect \/
       ef_State effect = EffectDispatched /\ exists record, attempt_said services tr snapshot effect key record /\
         lr_Status record = LedgerCommitted /\ rd_ExternalCommitID d = lr_ExternalCommitID record /\
         rd_ResultRef d = lr_ResultRef record)
  | RecoveryWaitExternal => exists snapshot effect, read_in tr snapshot /\ active snapshot effect key /\
      (~ unstarted effect \/ exists record, attempt_said services tr snapshot effect key record /\ lr_Status record = LedgerInflight)
  | RecoveryNone => exists snapshot effect, read_in tr snapshot /\ active snapshot effect key /\ ef_State effect = EffectSettled
  | RecoverySettleFailed | RecoverySettleInterrupted => exists receipt, rd_SettlementReceipt d = Some receipt /\
      sl_Durable receipt = true /\ sl_EffectKey receipt = key /\ sl_State receipt = EffectSettled /\
      sl_ExternalCommitID receipt = no_id
  | RecoveryNeedsConfirmation => exists receipt, rd_BlockReceipt d = Some receipt /\ br_Durable receipt = true /\
      br_EffectKey receipt = key /\ br_State receipt = EffectBlocked
  | RecoveryAwaitConfirmation => exists snapshot effect, read_in tr snapshot /\ active snapshot effect key /\
      ef_State effect = EffectBlocked /\ tn_AbortRequested snapshot = false
  end.

Section Recover.
#[local] Set Default Proof Using "Type*".
Context (request : RecoveryRequest) (snapshot : TurnSnapshot) (effect : EffectSnapshot) (key : EffectKey).
Context (Hkey : key = requested_key (rq_Authority request) (rq_EffectID request) (rq_InvocationID request) (rq_RequestDigest request)).
Context (Hconfirms : forall k, request_confirms request k -> confirms k).
Context (Hactive : active snapshot effect key) (Hturn : validateTurn snapshot (rq_Authority request) = Ok tt).

Lemma concurrent_start_justified e tr : wp (concurrent_start services request effect key e) (returns (decided request)) tr.
Proof.
  unfold concurrent_start. case_bool_decide; [|by wp_step]. apply wp_exact_start. intros start s e' more Hread Ha Hs _. wp_step.
  split; [done|]. exists s, e'. auto.
Qed.

Lemma settle_recovery_justified kind action on_error tr :
  read_in tr snapshot -> may_settle_recovery services tr snapshot effect key kind ->
  action = RecoverySettleFailed \/ action = RecoverySettleInterrupted ->
  (forall e tr', wp (on_error e) (returns (decided request)) tr') ->
  wp (settle_recovery services request snapshot effect key kind action on_error) (returns (decided request)) tr.
Proof.
  intros Hread Hmay Haction Herr. unfold settle_recovery. wp_step.
  - exists effect. auto.
  - destruct (store_SettleRecovery _ _ _) as [receipt|e]; [|apply Herr]. do 2 wp_step. split; [done|].
    unfold validRecoverySettlementReceipt in H. bools in H. destruct Haction as [-> | ->]; exists receipt; split_and!; tauto.
Qed.

Lemma check_admission_ok :
  check_admission request snapshot = Ok tt ->
  Before (rq_Now request) (rq_Deadline request) = true /\ Before (rq_Now request) (tn_LeaseExpiresAt snapshot) = true /\
  After (rq_Deadline request) (tn_LeaseExpiresAt snapshot) = false.
Proof.
  unfold check_admission. intros H. apply reject_if_ok in H as [H1 H]. unfold reject_if in H. destruct (_ || _) eqn:H2 in H; [done|].
  bools in H1. bools in H2. tauto.
Qed.

Lemma retry_dispatch_justified confirmed tr :
  read_in tr snapshot -> tn_AbortRequested snapshot = false -> may_retry services confirms tr snapshot effect key confirmed ->
  wp (retry_dispatch services request snapshot effect key confirmed) (returns (decided request)) tr.
Proof.
  intros Hread Habort Hmay. unfold retry_dispatch. wp_step. destruct a. pose proof (check_admission_ok H) as (Hdl & Hlease & Hlate).
  wp_step. wp_step.
  - exists effect. split_and!; auto.
  - destruct (store_PrepareRetry _ _ _) as [preparation|e]; [|apply concurrent_start_justified]. wp_step.
    assert (Hprep := H1). unfold retry_of, preparation_of in Hprep. bools in Hprep. wp_step.
    + exists snapshot, effect. split_and!; auto; try tauto; [by apply read_in_app|]. right. split; [done|].
      exists confirmed. by apply may_retry_app.
    + do 2 wp_step. unfold dispatch_of in H3. bools in H3. destruct (validateTurn_ok _ _ Hturn) as (_ & _ & _ & _ & _ & Hgen).
      split; [done|]. exists snapshot, effect, a. rewrite <- app_assoc. rewrite <- Hgen. split_and!; try tauto.
      * by apply read_in_app.
      * right. split; [intuition congruence|]. exists confirmed. by apply may_retry_app.
Qed.

Lemma recover_prepared_justified tr :
  read_in tr snapshot -> ef_State effect = EffectPrepared ->
  wp (recover_prepared services request snapshot effect key) (returns (decided request)) tr.
Proof.
  intros Hread Hstate. unfold recover_prepared. destruct (tn_AbortRequested snapshot) eqn:Habort.
  - apply settle_recovery_justified; auto; [|by intros; wp_step]. right. auto.
  - destruct (ef_PreparationPermit effect) as [preparation|] eqn:Hp; [|by wp_step].
    destruct (Before _ (pp_Deadline preparation)) eqn:Hb.
    + wp_step. split; [done|]. exists snapshot, effect, preparation. pose proof (active_wellformed _ _ _ Hactive) as Hw.
      unfold effect_malformed in Hw. rewrite Hstate, Hp in Hw. unfold preparation_of in Hw. bools in Hw. cbn [rd_EffectKey decide_only with_permits rd_Action rd_PreparationPermit].
      pose proof (active_key _ _ _ Hactive) as ->. split_and!; try tauto.
    + wp_step. destruct a. pose proof (check_admission_ok H) as (Hdl & Hlease & Hlate). wp_step.
      * exists effect. split_and!; auto. left. split; [done|]. intros p Hp'. rewrite Hp in Hp'. by injection Hp' as <-.
      * do 2 wp_step. unfold renewal_of, preparation_of in H1. bools in H1. split; [done|]. eexists snapshot, effect, _.
        split_and!; try done; try tauto. by apply read_in_app.
Qed.

Lemma recover_blocked_justified tr :
  read_in tr snapshot -> ef_State effect = EffectBlocked ->
  wp (recover_blocked services request snapshot effect key) (returns (decided request)) tr.
Proof.
  intros Hread Hstate. unfold recover_blocked. destruct (tn_AbortRequested snapshot) eqn:Habort.
  - apply settle_recovery_justified; auto; [|intros; apply concurrent_start_justified]. right. auto.
  - destruct (_ && _) eqn:Hc.
    + bools in Hc. apply retry_dispatch_justified; auto. right.
      split_and!; try tauto. apply Hconfirms. split; [tauto|done].
    + wp_step. split; [done|]. by exists snapshot, effect.
Qed.

Lemma recover_unstarted_justified tr :
  read_in tr snapshot -> idle services tr snapshot effect key ->
  wp (recover_unstarted services request snapshot effect key) (returns (decided request)) tr.
Proof.
  intros Hread Hidle. unfold recover_unstarted.
  assert (Hinterrupt : tn_AbortRequested snapshot = true \/ ef_ReplayPolicy effect = ReplayNever ->
    wp (settle_recovery services request snapshot effect key RecoverySettlementInterrupted RecoverySettleInterrupted
          (concurrent_start services request effect key)) (returns (decided request)) tr).
  { intros Hwhy. apply settle_recovery_justified; auto; [|intros; apply concurrent_start_justified]. right. auto. }
  destruct (_ || _) eqn:Hp.
  - bools in Hp. destruct (tn_AbortRequested snapshot) eqn:Habort; [by apply Hinterrupt; left|].
    apply retry_dispatch_justified; auto. left. auto.
  - clear Hp. case_bool_decide; [by apply Hinterrupt; right|]. case_bool_decide; [|by wp_step]. wp_step; [by exists effect|].
    destruct (store_BlockEffect _ _ _) as [receipt|e]; [|apply concurrent_start_justified]. do 3 wp_step.
    unfold block_of in H2. bools in H2. bools in H1. split; [done|]. exists receipt. split_and!; tauto.
Qed.

Lemma recover_dispatched_justified tr :
  read_in tr snapshot -> ef_State effect = EffectDispatched ->
  wp (recover_dispatched services request snapshot effect key) (returns (decided request)) tr.
Proof.
  intros Hread Hstate. unfold recover_dispatched. destruct (ledger_Lookup services) as [ledger|] eqn:Hledger; [|by wp_step].
  destruct (ef_LastDispatch effect) as [last|] eqn:Hlast; [|by wp_step]. wp_step; [done|]. wp_step. destruct a0.
  assert (Hsaid : attempt_said services (tr ++ [CallLedger (ledger_lookup snapshot effect key (ef_DispatchAttempt effect) last)])
                    snapshot effect key a).
  { exists last. split; [done|]. by eapply said_now. }
  assert (Hread' := read_in_app _ _ [CallLedger (ledger_lookup snapshot effect key (ef_DispatchAttempt effect) last)] _ Hread).
  assert (Hidle : lr_Status a = LedgerAbsent \/ lr_Status a = LedgerUnknown -> wp match dm_Start last with
      | Some _ => ret (decide_only RecoveryWaitExternal key (ef_ReplayPolicy effect) (ef_DispatchAttempt effect))
      | None => recover_unstarted services request snapshot effect key end (returns (decided request))
      (tr ++ [CallLedger (ledger_lookup snapshot effect key (ef_DispatchAttempt effect) last)])).
  { intros Hst. destruct (dm_Start last) as [start|] eqn:Hstart.
    - wp_step. split; [done|]. exists snapshot, effect. split; [done|]. split; [done|]. left. intros Hu.
      by rewrite (Hu _ Hlast) in Hstart.
    - apply recover_unstarted_justified; auto. split; [done|]. split; [|by exists a]. intros l. rewrite Hlast. congruence. }
  destruct (lr_Status a) eqn:Hst; auto.
  - do 2 wp_step. split; [done|]. exists snapshot, effect. split_and!; auto. right. by exists a.
  - wp_step. wp_step.
    + exists effect. match goal with H : validateCommittedRecord _ _ = Ok _ |- _ => destruct (validateCommittedRecord_ok _ _ _ H) end.
      split_and!; auto.
    + do 3 wp_step. split; [done|]. exists snapshot, effect. split_and!; auto; [by apply read_in_app|]. right. split; [done|].
      exists a. split; [by apply attempt_said_app|]. auto.
  - wp_step. apply settle_recovery_justified; auto; [|by intros; wp_step]. left. eauto.
  - wp_step.
Qed.
End Recover.

Lemma replay_dispatch_justified request replay tr :
  let key := requested_key (rq_Authority request) (rq_EffectID request) (rq_InvocationID request) (rq_RequestDigest request) in
  wp (replay_dispatch services request key replay) (returns (decided request)) tr.
Proof.
  intros key. unfold replay_dispatch. destruct (replayed_recovery_dispatch _ _ _) as [permit|] eqn:Hp; [|by wp_step].
  unfold replayed_recovery_dispatch in Hp. destruct (or_Dispatch replay) as [p|]; [|done].
  destruct (_ && _) eqn:Hb in Hp; [|done]. injection Hp as ->. bools in Hb.
  assert (Hk : dp_EffectKey permit = key) by tauto.
  apply wp_current. intros snapshot effect more [[Hread Hactive Hturn _ _] Hstate [last Hlast] Habort Hvalid] _. rewrite Hk in *.
  simpl in Hread, Hactive, Hturn, Hvalid. fold key in Hactive, Hvalid. wp_step. rewrite Hlast. case_bool_decide as Hs.
  - split; [done|]. exists snapshot, effect. split_and!; auto. left. intros Hu. rewrite (Hu _ Hlast) in Hs. by destruct Hs.
  - assert (Hu : unstarted effect). { intros l. rewrite Hlast. intros [= <-]. by apply eq_None_not_Some. }
    split; [done|]. exists snapshot, effect, permit. unfold validateDispatchPermitAgainstSnapshot in Hvalid. rewrite Hlast in Hvalid.
    bools in Hvalid. split_and!; auto; try tauto.
    destruct (tn_AbortRequested snapshot); [|done]. by destruct (Habort eq_refl).
Qed.

Lemma recover_justified request tr :
  (forall k, request_confirms request k -> confirms k) -> wp (RecoverEffect services request) (returns (decided request)) tr.
Proof.
  intros Hconfirms. unfold RecoverEffect, lookup_operation. do 3 wp_step. wp_step; [done|]. case_match; [apply replay_dispatch_justified|].
  wp_step; [done|]. case_match.
  { unfold replayed_recovery_settlement. destruct (or_Settlement _) as [r|]; [|by wp_step].
    destruct (_ && _) eqn:Hb; [|by wp_step]. bools in Hb.
    destruct (sl_RecoveryKind r); wp_step; (split; [done|]); exists r; split_and!; tauto. }
  wp_step; [done|]. case_match.
  { unfold replayed_block. destruct (or_Block _) as [r|]; [|by wp_step]. destruct (_ && _) eqn:Hb; [|by wp_step]. bools in Hb.
    wp_step. split; [done|]. exists r. split_and!; tauto. }
  apply wp_fence. intros snapshot effect more [Hread Hactive Hturn _ _] _. unfold recover_state.
  destruct (ef_State effect) eqn:Hstate.
  - by apply recover_prepared_justified.
  - by apply recover_dispatched_justified.
  - wp_step. split; [done|]. exists snapshot, effect. split_and!; auto.
  - wp_step. split; [done|]. by exists snapshot, effect.
  - by apply recover_blocked_justified.
  - wp_step.
Qed.

(** A settlement that joined a recovery decision is the requested one. *)
Definition reconciled (request : EffectReconcileRequest) (d : RecoveryDecision) : Prop :=
  rd_Action d = RecoverySettleOnly \/ rd_Action d = RecoveryNone ->
  exists receipt, rd_SettlementReceipt d = Some receipt /\ sl_Durable receipt = true /\ sl_State receipt = EffectSettled /\
    sl_EffectKey receipt = requested_key (rq_Authority (rr_Recovery request)) (rq_EffectID (rr_Recovery request))
      (rq_InvocationID (rr_Recovery request)) (rq_RequestDigest (rr_Recovery request)) /\
    sl_DispatchAttempt receipt = rr_DispatchAttempt request /\ sl_ExternalCommitID receipt = rr_ExternalCommitID request /\
    sl_ResultRef receipt = rr_ResultRef request /\ sl_Error receipt = rr_TerminalError request /\
    (rd_Action d = RecoverySettleOnly -> rd_ExternalCommitID d = rr_ExternalCommitID request /\ rd_ResultRef d = rr_ResultRef request).

Lemma reconcile_justified request tr :
  (forall k, request_confirms (rr_Recovery request) k -> confirms k) ->
  wp (Reconcile services request) (returns (fun d _ => reconciled request d)) tr.
Proof.
  intros Hconfirms. unfold Reconcile. do 2 wp_step. eapply wp_seq; [by apply recover_justified|]. intros d tr' _.
  assert (Hsettle : (rd_Action d = RecoverySettleOnly ->
      rd_ExternalCommitID d = rr_ExternalCommitID request /\ rd_ResultRef d = rr_ResultRef request) -> forall settlement,
    st_Authority settlement = rq_Authority (rr_Recovery request) -> st_EffectID settlement = rq_EffectID (rr_Recovery request) ->
    st_InvocationID settlement = rq_InvocationID (rr_Recovery request) ->
    st_RequestDigest settlement = rq_RequestDigest (rr_Recovery request) ->
    st_DispatchAttempt settlement = rr_DispatchAttempt request -> st_ExternalCommitID settlement = rr_ExternalCommitID request ->
    st_ResultRef settlement = rr_ResultRef request -> st_Error settlement = rr_TerminalError request ->
    wp (receipt <- SettleEffect services settlement ;; ret (with_settlement d receipt)) (returns (fun d _ => reconciled request d)) tr').
  { intros Hmatch settlement E1 E2 E3 E4 E5 E6 E7 E8. eapply wp_seq; [apply settle_justified|]. intros receipt tr2 [Hdur Hs]. wp_step.
    intros _. unfold settles in Hs. bools in Hs. exists receipt. rewrite E1, E2, E3, E4, E5, E6, E7, E8 in Hs.
    split_and!; try done; tauto. }
  destruct (rd_Action d) eqn:Hd; try (wp_step; unfold reconciled; rewrite Hd; by intros [?|?]).
  - apply Hsettle; done.
  - wp_step. bools in H0. apply Hsettle; tauto.
Qed.

(** ** Starting an attempt *)
Context (consumer : DispatchConsumer).

Lemma start_justified request tr :
  wp (StartExactAttempt services consumer request) (returns (fun execution tr' => exists tr0,
    granted request (dx_Claim execution.1) tr0 /\
    tr' = tr0 ++ (if sc_Fresh (dx_Claim execution.1)
                  then [CallStart (dp_Service (sr_Dispatch request)) (MkClaimedStart (sc_Permit (dx_Claim execution.1)) true)] else []) /\
    (execution.2 = None -> sc_Fresh (dx_Claim execution.1) = true))) tr.
Proof.
  unfold StartExactAttempt. wp_step. destruct (dc_starters consumer !! _) as [binding|]; [|by wp_step]. wp_step.
  eapply wp_seq; [apply claim_justified|]. intros claim tr' Hg. wp_step. bools in H0. destruct (sc_Fresh claim) eqn:Hfresh.
  - wp_step.
    + destruct Hg as (tr0 & tr1 & command & -> & Hno & Hstore & Hd & Hc). exists tr0, tr1, command, claim.
      cbn [cs_permit cs_sealed]. rewrite Hd, Hc. split_and!; try done; tauto.
    + wp_step. exists tr'. destruct (starter_Start _ _ _); simpl; by rewrite Hfresh.
  - wp_step. exists tr'. simpl. by rewrite Hfresh, app_nil_r.
Qed.

Lemma dispatch_justified request tr : wp (Dispatch services consumer request) (returns (fun _ _ => True)) tr.
Proof.
  unfold Dispatch. eapply wp_seq; [apply admit_justified|]. intros permit tr' _. eapply wp_weaken; [apply start_justified|done].
Qed.
End Operations.
