(* ===== verification/BrokerRuns.v ===== *)
(** * Runs of the broker

    Any sequence of operations against any services; what the promises of the
    durable store ([SingleStartStore]) then give for the providers. *)

From S2P Require Import Prelude Calls Identity BrokerTypes BrokerState Coordinator Recovery BrokerProtocol BrokerProofs.
#[local] Open Scope string_scope.
#[local] Open Scope list_scope.
#[local] Open Scope Z_scope.
#[local] Open Scope go_scope.
#[local] Open Scope call_scope.

Inductive broker_op :=
| OpAcquire (request : EngineStepRequest)
| OpCommit (request : EngineStepCommit)
| OpAdmit (request : DispatchRequest)
| OpClaim (request : DispatchStartRequest)
| OpConfirm (request : ConfirmationRequest)
| OpSettle (request : SettlementRequest)
| OpRecover (request : RecoveryRequest)
| OpReconcile (request : EffectReconcileRequest)
| OpStart (request : DispatchStartRequest)
| OpDispatch (request : WorkloadDispatch).

(** The calls an operation adds. *)
Definition exec_op (services : Services) (consumer : DispatchConsumer) (tr : trace) (op : broker_op) : trace :=
  match op with
  | OpAcquire r => (AcquireEngineStep services r tr).2
  | OpCommit r => (CommitEngineStep services r tr).2
  | OpAdmit r => (AdmitDispatch services r tr).2
  | OpClaim r => (ClaimDispatchStart services r tr).2
  | OpConfirm r => (ConfirmExternalCommit services r tr).2
  | OpSettle r => (SettleEffect services r tr).2
  | OpRecover r => (RecoverEffect services r tr).2
  | OpReconcile r => (Reconcile services r tr).2
  | OpStart r => (StartExactAttempt services consumer r tr).2
  | OpDispatch r => (Dispatch services consumer r tr).2
  end.
Definition run_ops (services : Services) (consumer : DispatchConsumer) (ops : list broker_op) : trace :=
  fold_left (exec_op services consumer) ops [].

(** An attempt of an effect: the attempt a claim starts, the attempt a retry gives up. *)
Definition attempt : Type := EffectKey * Z.
Definition permit_attempt (p : DispatchPermit) : attempt := (dp_EffectKey p, dp_DispatchAttempt p).
Definition retried_attempt (command : PrepareRetryCommand) : option attempt :=
  effect ← tn_ActiveEffect (pr_Snapshot command); Some (pr_Key command, ef_DispatchAttempt effect).

(** The provider starts of a trace. *)
Definition start_attempt (c : BrokerCall) : option attempt :=
  match c with CallStart _ claim => Some (permit_attempt (sp_Dispatch (cs_permit claim))) | _ => None end.
Definition starts (tr : trace) : list attempt := omap start_attempt tr.

(** What the coordinator relies on: a start of an attempt is granted once. *)
Class SingleStartStore (services : Services) : Prop := {
  granted_once tr command claim more command' claim' :
    store_ClaimDispatchStart services tr command = Ok claim -> sc_Fresh claim = true ->
    store_ClaimDispatchStart services (tr ++ CallClaimStart command :: more) command' = Ok claim' ->
    permit_attempt (cd_Dispatch command') = permit_attempt (cd_Dispatch command) -> sc_Fresh claim' = false;
}.

(** The user's confirmation an operation carries. *)
Definition op_confirms (op : broker_op) (key : EffectKey) : Prop :=
  match op with
  | OpRecover r => request_confirms r key
  | OpReconcile r => request_confirms (rr_Recovery r) key
  | _ => False
  end.

Section Runs.
Context (services : Services) (consumer : DispatchConsumer).
#[local] Abbreviation run_ops := (run_ops services consumer).

Lemma wp_allowed {A} confirms (m : BrokerM A) Q tr :
  wp (justified services confirms) m Q tr -> exists calls, (m tr).2 = tr ++ calls /\ allowed (justified services confirms) tr calls.
Proof. intros (calls & Htr & Hc & _). by exists calls. Qed.

Lemma exec_op_allowed op tr :
  exists calls, exec_op services consumer tr op = tr ++ calls /\ allowed (justified services (op_confirms op)) tr calls.
Proof.
  destruct op; eapply wp_allowed.
  - apply acquire_justified.
  - apply commit_justified.
  - apply admit_justified.
  - apply claim_justified.
  - apply confirm_justified.
  - apply settle_justified.
  - by apply recover_justified.
  - by apply reconcile_justified.
  - apply start_justified.
  - apply dispatch_justified.
Qed.

Lemma run_ops_snoc ops op : run_ops (ops ++ [op]) = exec_op services consumer (run_ops ops) op.
Proof. unfold BrokerRuns.run_ops. by rewrite fold_left_app. Qed.

(** A call of a run is made by one of its operations. *)
Lemma run_justified ops tr0 c tr1 :
  run_ops ops = tr0 ++ c :: tr1 -> exists op, op ∈ ops /\ justified services (op_confirms op) tr0 c.
Proof.
  revert tr1. induction ops as [|op ops IH] using rev_ind; intros tr1 H; [by destruct tr0|].
  rewrite run_ops_snoc in H. destruct (exec_op_allowed op (run_ops ops)) as (calls & Hcalls & Ha). rewrite Hcalls in H.
  apply app_eq_inv in H as [(k & Hk & Hck)|(k & -> & ->)].
  - destruct k as [|x k]; simplify_eq/=.
    + rewrite app_nil_r in Hk. rewrite Hk in Ha. exists op. split; [set_solver|]. apply Ha.
    + destruct (IH k Hk) as (op' & Hin & Hj). exists op'. split; [set_solver|done].
  - apply allowed_app in Ha as [_ Ha]. exists op. split; [set_solver|]. apply Ha.
Qed.

(** C5: Whatever the store, the ledgers, the providers and the context answer, and whatever
    operations were run on the broker before, each call an operation makes is justified by
    the answers before it: an external commit is recorded only for a committed record the
    ledger answered for that attempt, a settlement repeats the commit the store holds, a
    retry is prepared and dispatched only for an unaborted attempt with no start claim and
    no ledger fact, or for a blocked effect whose retry the user confirmed in the request
    being served, a recovery settlement is made only for a failed, aborted or never-replayed
    attempt, a start only for a granted claim. *)
Theorem broker_calls_justified ops op :
  exists calls, run_ops (ops ++ [op]) = run_ops ops ++ calls /\
    allowed (justified services (op_confirms op)) (run_ops ops) calls.
Proof. rewrite run_ops_snoc. apply exec_op_allowed. Qed.

(** ** Results *)
Lemma wp_value {A} confirms (m : BrokerM A) Q tr a tr' :
  wp (justified services confirms) m (returns Q) tr -> m tr = (Ok a, tr') -> Q a tr'.
Proof. intros (calls & _ & _ & HQ) Hm. by rewrite Hm in HQ. Qed.

(** C8: A recovery decision stands on what was read: a replay carries a durable permit bound
    to the effect, the authority's generations and an attempt that was not aborted and not
    started (the recorded one, or the next one of an attempt that may be retried, after a
    block only with the confirmation of this request); a
    dispatch has an unexpired preparation; a settle-only decision has the commit of the
    effect or of its ledger; a wait has a start claim or an inflight ledger record. *)
Theorem recovery_decisions_grounded request tr d tr' :
  RecoverEffect services request tr = (Ok d, tr') -> decided services (request_confirms request) request d tr'.
Proof. by apply (wp_value (request_confirms request) _ (decided services (request_confirms request) request)), recover_justified. Qed.

(** An admitted dispatch permit is durable, is for the requested effect, service,
    operation, attempt, route and deadline, and when it is returned the store holds that
    attempt as dispatched and unaborted under the authority's generations. *)
Theorem admitted_permit_current request tr permit tr' :
  AdmitDispatch services request tr = (Ok permit, tr') -> admitted services request permit tr'.
Proof. apply (wp_value (fun _ => False) _ (admitted services request)), admit_justified. Qed.

(** A start that returns an execution ends with the provider's start exactly when the
    claim was fresh, right after the store granted the claim of this dispatch and command;
    success is reported only for a fresh claim. *)
Theorem start_follows_claim request tr execution tr' :
  StartExactAttempt services consumer request tr = (Ok execution, tr') ->
  exists tr0, granted services request (dx_Claim execution.1) tr0 /\
    tr' = tr0 ++ (if sc_Fresh (dx_Claim execution.1)
                  then [CallStart (dp_Service (sr_Dispatch request)) (MkClaimedStart (sc_Permit (dx_Claim execution.1)) true)]
                  else []) /\
    (execution.2 = None -> sc_Fresh (dx_Claim execution.1) = true).
Proof. intros H. exact (wp_value (fun _ => False) _ _ _ _ _ (start_justified services _ consumer request tr) H). Qed.

(** Reconciling an effect whose commit is recorded returns the durable settlement of
    exactly the observed attempt, commit, result and error; a settle-only decision agrees
    with the observation. *)
Theorem reconcile_settles request tr d tr' :
  Reconcile services request tr = (Ok d, tr') -> reconciled request d.
Proof. by apply (wp_value (request_confirms (rr_Recovery request)) _ (fun d _ => reconciled request d)), reconcile_justified. Qed.
End Runs.

(** ** Lists *)
Lemma later_split {A} (x y : A) a b a' b' : a ++ x :: b = a' ++ y :: b' -> x <> y -> x ∉ b' -> exists more, a' = a ++ x :: more.
Proof.
  intros Heq Hne Hx. apply app_eq_inv in Heq as [(k & -> & Hk)|(k & -> & Hk)].
  - exfalso. assert (Hin : x ∈ y :: b'). { rewrite Hk. set_solver. } set_solver.
  - destruct k as [|z k]; simplify_eq/=. by exists k.
Qed.

Lemma NoDup_omap {A B} (f : A -> option B) l :
  (forall l0 x l1 y l2 b, l = l0 ++ x :: l1 ++ y :: l2 -> f x = Some b -> f y <> Some b) -> NoDup (omap f l).
Proof.
  induction l as [|x l IH]; intros H; [constructor|]. simpl.
  assert (Hl : NoDup (omap f l)). { apply IH. intros l0 z l1 y l2 b ->. by apply (H (x :: l0) z l1 y l2 b). }
  destruct (f x) as [b|] eqn:Hx; [|done]. constructor; [|done]. rewrite list_elem_of_omap. intros (y & Hy & Hb).
  apply list_elem_of_split in Hy as (l1 & l2 & ->). by apply (H [] x l1 y l2 b).
Qed.

Section Starts.
Context (services : Services) (consumer : DispatchConsumer) `{!SingleStartStore services}.
#[local] Set Default Proof Using "Type*".

Lemma same_permit_attempt p q : sameDispatchPermit p q = true -> permit_attempt p = permit_attempt q.
Proof using Type. unfold sameDispatchPermit, permit_attempt. intros H. bools in H. f_equal; tauto. Qed.

(** The claim behind a start. *)
Lemma start_claim ops tr0 service claim tr1 :
  run_ops services consumer ops = tr0 ++ CallStart service claim :: tr1 ->
  exists pre post command granted, tr0 = pre ++ CallClaimStart command :: post /\
    (forall s c, CallStart s c ∉ post) /\ store_ClaimDispatchStart services pre command = Ok granted /\ sc_Fresh granted = true /\
    permit_attempt (cd_Dispatch command) = permit_attempt (sp_Dispatch (cs_permit claim)).
Proof using Type.
  intros H. destruct (run_justified _ _ _ _ _ _ H) as (op & _ & pre & post & command & granted & -> & Hpost & Hs & Hf & Hp & _ & _ & _ & Hsame).
  exists pre, post, command, granted. split_and!; try done. rewrite Hp. symmetry. by apply same_permit_attempt.
Qed.

Lemma no_start_later ops tr0 service claim tr1 service' claim' tr2 :
  run_ops services consumer ops = tr0 ++ CallStart service claim :: tr1 ++ CallStart service' claim' :: tr2 ->
  permit_attempt (sp_Dispatch (cs_permit claim)) <> permit_attempt (sp_Dispatch (cs_permit claim')).
Proof.
  intros H Heq. destruct (start_claim _ _ _ _ _ H) as (pre & post & command & claim1 & -> & _ & Hs & Hf & Ha).
  rewrite app_comm_cons, app_assoc in H.
  destruct (start_claim _ _ _ _ _ H) as (pre' & post' & command' & claim2 & Htr & Hpost' & Hs' & Hf' & Ha').
  destruct (later_split (CallStart service claim) (CallClaimStart command') _ _ _ _ Htr) as [more ->]; [done|apply Hpost'|].
  rewrite <- app_assoc in Hs'. rewrite (granted_once _ _ _ _ _ _ Hs Hf Hs') in Hf'; [done|congruence].
Qed.

(** C6: With a store that grants a start claim of an attempt once, no sequence of dispatches,
    starts, recoveries and other operations starts the provider twice for one attempt of one
    effect. *)
Theorem provider_started_once ops : NoDup (starts (run_ops services consumer ops)).
Proof.
  apply NoDup_omap. intros l0 x l1 y l2 a Htr Hx Hy. destruct x; try done. destruct y; try done. simpl in *.
  by apply (no_start_later _ _ _ _ _ _ _ _ Htr); congruence.
Qed.
End Starts.

(** ** A run of the broker

    A small store, ledger and provider that keep one effect, as functions of the calls
    made to them; the broker's claims applied to runs against them. *)

Definition d1 : Digest := repeat (ascii_of_nat 1) 32.
Definition at_ (n : Z) : Time := MkTime n 0.
Definition gens : Generations := MkGenerations 1 1 1 1.
Definition fence : ValidatedTurnFence := MkFence (MkID "tenant" "t") (MkID "ws" "w") (MkID "sess" "s") (MkID "turn" "u") gens (at_ 900).
Definition effect_id : ID := MkID "effect" "e".
Definition invocation_id : ID := MkID "inv" "i".
Definition the_key : EffectKey := requested_key fence effect_id invocation_id d1.

Definition preparation (attempt : Z) : EffectPreparationPermit :=
  MkPreparation the_key "prep" (vf_TenantID fence) (vf_WorkspaceID fence) (MkID "subject" "x") ServiceModel "generate" no_id "" 0
    ReplaySafe gens attempt (at_ 200) 10 true.
Definition permit_for (command : MarkDispatchedCommand) : DispatchPermit :=
  MkDispatch (mk_Key command) "permit" (vf_TenantID fence) (vf_WorkspaceID fence) (MkID "subject" "x") ServiceModel "generate" no_id ""
    0 ReplaySafe gens (pp_DispatchAttempt (mk_PreparationPermit command)) (mk_ProviderRequestID command)
    (mk_ProviderRouteDigest command) (mk_Deadline command) 10 true.
Definition start_for (command : ClaimDispatchStartCommand) : DispatchStartPermit :=
  MkStart (cd_Dispatch command) "start" (cd_CommandDigest command) 10 true.

(** What the calls tell. *)
Definition last_of {A} (f : BrokerCall -> option A) (tr : trace) : option A := last (omap f tr).
Definition last_dispatch : trace -> option MarkDispatchedCommand :=
  last_of (fun c => match c with CallMarkDispatched command => Some command | _ => None end).
Definition last_claim : trace -> option ClaimDispatchStartCommand :=
  last_of (fun c => match c with CallClaimStart command => Some command | _ => None end).
Definition last_external : trace -> option MarkExternalCommand :=
  last_of (fun c => match c with CallMarkExternal command => Some command | _ => None end).
Definition claims (a : option attempt) (c : BrokerCall) : bool :=
  match c with CallClaimStart command => Some (permit_attempt (cd_Dispatch command)) == a | _ => false end.
Definition retries (a : attempt) (c : BrokerCall) : bool :=
  match c with CallPrepareRetry command => retried_attempt command == Some a | _ => false end.
Definition is_start (c : BrokerCall) : bool := match c with CallStart _ _ => true | _ => false end.
Definition is_settle (c : BrokerCall) : bool := match c with CallSettle _ => true | _ => false end.

Definition sample_effect (tr : trace) : EffectSnapshot :=
  let at_state state attempt commit result last settlement :=
    MkEffectSnapshot effect_id invocation_id d1 ServiceModel "generate" no_id "" 0 ReplaySafe state attempt gens commit result
      (Some (preparation 1)) last settlement in
  match last_dispatch tr with
  | None => at_state EffectPrepared 0 no_id no_id None None
  | Some command =>
      let permit := permit_for command in
      let start := match last_claim tr with
                   | Some claim => if permit_attempt (cd_Dispatch claim) == permit_attempt permit then Some (start_for claim) else None
                   | None => None
                   end in
      let n := dp_DispatchAttempt permit in
      let last := Some (MkMetadata n gens (dp_ProviderRequestID permit) (dp_ProviderRouteDigest permit) (dp_Deadline permit) start) in
      match last_external tr with
      | None => at_state EffectDispatched n no_id no_id last None
      | Some external =>
          let commit := lr_ExternalCommitID (me_Record external) in
          let result := lr_ResultRef (me_Record external) in
          if existsb is_settle tr
          then at_state EffectSettled n commit result last
                 (Some (MkEffectRecord RecordSettled n "" "" "" "" "" "" None "" "" 0 0 0 0 0 0 []))
          else at_state EffectExternallyCommitted n commit result last None
      end
  end.
Definition sample_turn (tr : trace) : TurnSnapshot :=
  MkTurn (vf_TenantID fence) (vf_WorkspaceID fence) (MkID "subject" "x") (vf_SessionID fence) (vf_TurnID fence) true false (at_ 800)
    gens d1 10 (MkBudget 1 100 100) (Some (sample_effect tr)) None None [].

Definition sample_services : Services := {|
  ctx_Err _ := None;
  store_LookupOperation _ lookup := Ok (MkOperationReceipt false (ol_Kind lookup) d1 None None None None);
  store_ReadTurn tr _ := Ok (sample_turn tr);
  store_AcquireEngineStep _ _ := Err OtherError;
  store_CommitEngineStep _ _ := Err OtherError;
  store_MarkDispatched _ command := Ok (permit_for command);
  store_ClaimDispatchStart tr command :=
    let a := permit_attempt (cd_Dispatch command) in
    Ok (MkStartClaim (start_for command) (negb (existsb (claims (Some a)) tr || existsb (retries a) tr)));
  store_MarkExternallyCommitted _ command :=
    let r := me_Record command in
    Ok (MkConfirmation (me_Key command) (lr_TenantID r) (lr_WorkspaceID r) (lr_Service r) (lr_Operation r) (lr_DispatchAttempt r)
          (lr_ProviderRequestID r) (lr_ExternalCommitID r) (lr_ResultRef r) (me_OperationDigest command) 10 true);
  store_SettleEffect _ command :=
    Ok (MkSettlementReceipt (sm_Key command) (vf_TenantID fence) (vf_WorkspaceID fence) EffectSettled (sm_DispatchAttempt command)
          (sm_ExternalCommitID command) (sm_ResultRef command) (sm_Error command) (sm_SettlementDigest command) NoRecoveryKind
          (Some (MkEffectRecord RecordSettled 1 "" "" "" "" "" "" None "" "" 0 0 0 0 0 0 [])) 10 true);
  store_BlockEffect _ _ := Err OtherError;
  store_PrepareRetry tr command :=
    if existsb (claims (retried_attempt command)) tr then Err ErrDispatchAlreadyStarted
    else Ok (preparation (u64 (ef_DispatchAttempt (sample_effect tr) + 1)));
  store_SettleRecovery _ _ := Err OtherError;
  ledger_Lookup := Some (fun tr lookup =>
    let key := ll_EffectKey lookup in
    let record status commit result :=
      MkLedgerRecord status (ll_TenantID lookup) (ll_WorkspaceID lookup) (ek_EffectID key) (ek_InvocationID key)
        (ek_RequestDigest key) (ll_Service lookup) (ll_Operation lookup) (ll_DispatchAttempt lookup)
        (ll_ProviderRequestID lookup) (ll_ProviderRouteDigest lookup) commit result in
    Ok (if existsb is_start tr then record LedgerCommitted (MkID "commit" "c") (MkID "artifact" "r")
        else record LedgerAbsent no_id no_id));
|}.
Definition sample_consumer : DispatchConsumer := MkConsumer {[ ServiceModel := MkBinding (fun _ _ => None) d1 ]} 1000.

Lemma existsb_app_cons {A} (f : A -> bool) l x m : f x = true -> existsb f (l ++ x :: m) = true.
Proof. intros Hx. rewrite existsb_app. simpl. rewrite Hx. apply orb_true_r. Qed.

#[local] Instance sample_single_start : SingleStartStore sample_services.
Proof.
  constructor. intros tr command claim more command' claim' _ _ [= <-] Heq. cbn [sc_Fresh]. apply negb_false_iff, orb_true_iff. left.
    apply existsb_app_cons. cbn [claims]. rewrite Heq. by apply bool_decide_true.
Qed.

(** The requests of the run. *)
Definition dispatch_request : DispatchRequest :=
  MkDispatchRequest fence (at_ 100) effect_id invocation_id d1 ServiceModel "generate" "dispatch" d1 (preparation 1) no_id d1 (at_ 200).
Definition workload : WorkloadDispatch := MkWorkload dispatch_request fence (at_ 101) d1.
Definition start_request (n : Z) : DispatchStartRequest :=
  let command := MkMarkDispatched (sample_turn []) the_key ServiceModel "generate" "" d1 (preparation n) no_id d1 (at_ 100) (at_ 200) in
  MkStartRequest fence (at_ 102) (permit_for command) d1.
Definition recovery : RecoveryRequest :=
  MkRecoveryRequest fence (at_ 110) effect_id invocation_id d1 "recover" d1 false no_id d1 (at_ 200) None.
Definition reconcile_request : EffectReconcileRequest :=
  MkReconcileRequest recovery 1 (MkID "commit" "c") (MkID "artifact" "r") None "settle" d1.

(** The value an operation returned, when it returned one. *)
Lemma returned {A} (m : BrokerM A) tr : is_ok (m tr).1 = true -> exists a, m tr = (Ok a, (m tr).2).
Proof. destruct (m tr) as [[a|e] tr']; [|done]. by exists a. Qed.

Abbreviation run := (run_ops sample_services sample_consumer).

(** ** Witnesses *)
Lemma recovery_decisions_grounded_witness :
  exists d tr', RecoverEffect sample_services recovery (run [OpAdmit dispatch_request]) = (Ok d, tr') /\
    decided sample_services (request_confirms recovery) recovery d tr'.
Proof.
  destruct (returned (RecoverEffect sample_services recovery) (run [OpAdmit dispatch_request])) as [d Hd]; [by vm_compute|].
  exists d, (RecoverEffect sample_services recovery (run [OpAdmit dispatch_request])).2. split; [exact Hd|].
  exact (recovery_decisions_grounded sample_services _ _ _ _ Hd).
Defined.

Lemma admitted_permit_current_witness :
  exists permit tr', AdmitDispatch sample_services dispatch_request [] = (Ok permit, tr') /\
    admitted sample_services dispatch_request permit tr'.
Proof.
  destruct (returned (AdmitDispatch sample_services dispatch_request) []) as [permit H]; [by vm_compute|].
  exists permit, (AdmitDispatch sample_services dispatch_request []).2. split; [exact H|].
  exact (admitted_permit_current sample_services _ _ _ _ H).
Defined.

Lemma start_follows_claim_witness :
  exists execution tr', StartExactAttempt sample_services sample_consumer (start_request 1) (run [OpAdmit dispatch_request])
      = (Ok execution, tr') /\
    exists tr0, granted sample_services (start_request 1) (dx_Claim execution.1) tr0.
Proof.
  destruct (returned (StartExactAttempt sample_services sample_consumer (start_request 1)) (run [OpAdmit dispatch_request]))
    as [execution H]; [by vm_compute|].
  eexists execution, _. split; [exact H|].
  destruct (start_follows_claim sample_services sample_consumer _ _ _ _ H) as (tr0 & Hg & _). by exists tr0.
Defined.

Lemma reconcile_settles_witness :
  exists d tr', Reconcile sample_services reconcile_request (run [OpDispatch workload]) = (Ok d, tr') /\
    reconciled reconcile_request d.
Proof.
  destruct (returned (Reconcile sample_services reconcile_request) (run [OpDispatch workload])) as [d H]; [by vm_compute|].
  exists d, (Reconcile sample_services reconcile_request (run [OpDispatch workload])).2. split; [exact H|].
  exact (reconcile_settles sample_services _ _ _ _ H).
Defined.

(** The dispatched effect is started once, though every request is sent twice. *)
Lemma provider_started_once_witness :
  let ops := [OpDispatch workload; OpDispatch workload; OpStart (start_request 1); OpReconcile reconcile_request] in
  starts (run ops) = [(the_key, 1)] /\ NoDup (starts (run ops)).
Proof. split; [by vm_compute|]. exact (provider_started_once sample_services sample_consumer _). Defined.

(** A dispatched attempt that never started is given up for the next one. *)
Definition retry_ops : list broker_op := [OpAdmit dispatch_request; OpRecover recovery; OpStart (start_request 1); OpStart (start_request 2)].
Example retried_attempt_starts_anew : starts (run retry_ops) = [(the_key, 2)].
Proof. by vm_compute. Qed.
