(* ===== verification/Authority.v ===== *)
(** * Turn authority ([internal/authority])

    The broker-side validator of turn authority: it keeps a secret and a lifetime,
    mints sealed claims from an authoritative snapshot, and admits a call only when
    the claims still describe a fresh snapshot. *)

From S2P Require Import Prelude GoText GoCrypto.
#[local] Open Scope string_scope.
#[local] Open Scope list_scope.
#[local] Open Scope Z_scope.
#[local] Open Scope go_scope.

Inductive authority_error :=
| ErrInvalidConfig | ErrInvalidRequest | ErrInvalidSnapshot | ErrSnapshotUnavailable | ErrInvalidAuthority
| ErrServiceBindingMismatch | ErrScopeMismatch | ErrPermissionDenied | ErrAuthorityExpired | ErrInactiveSession
| ErrInactiveTurn | ErrLeaseInvalid | ErrStaleTurnLease | ErrStalePlacement | ErrStaleAuthorization | ErrRuntimeChanged
| ErrPolicySnapshotChanged | ErrEmergencyOverlayChanged | ErrEffectMismatch | ErrEffectNotDispatched | ErrContext.

(** ** Data *)
Definition BindingWorkspace : string := "workspace".
Definition isServiceBinding (binding : string) : bool :=
  (binding == "state") || (binding == BindingWorkspace) || (binding == "model") || (binding == "mcp") || (binding == "executor")
  || (binding == "artifacts") || (binding == "events").

Record Scope := MkScope {
  TenantID : string;
  UserID : string;
  SessionID : string;
  TurnID : string;
  RuntimeRevision : string;
  WorkspaceID : string;
}.
#[global] Instance Scope_eq_dec : EqDecision Scope.
Proof. solve_decision. Defined.

Definition SessionActive : string := "active".
Definition TurnActive : string := "active".
Definition TurnSettling : string := "settling".
Definition TurnAborting : string := "aborting".
Definition EffectDispatched : string := "dispatched".
Definition EffectExternallyCommitted : string := "externally_committed".
Definition EffectServiceWorkspace : string := "workspace".

Record EffectSnapshot := MkEffect {
  e_EffectID : string;
  e_InvocationID : string;
  e_RequestDigest : string;
  e_Service : string;
  e_Operation : string;
  e_DispatchAttempt : Z;
  e_Status : string;
}.

(** Times are nanoseconds since the zero time. *)
Record Snapshot := MkSnapshot {
  s_Scope : Scope;
  s_SessionStatus : string;
  s_TurnStatus : string;
  s_LeaseActive : bool;
  s_LeaseExpiresAt : Z;
  s_TurnLeaseGeneration : Z;
  s_PlacementGeneration : Z;
  s_AuthorizationGeneration : Z;
  s_PolicySnapshotDigest : string;
  s_EmergencyOverlayDigest : string;
  s_EffectivePermissions : list string;
  s_ActiveEffect : option EffectSnapshot;
}.

Record IssueRequest := MkIssue { is_Scope : Scope; is_Permissions : list string }.
Record AdmissionRequest := MkAdmission { am_Scope : Scope; am_Permission : string }.
Record SettlementRequest := MkSettlement {
  sq_Scope : Scope;
  sq_Permission : string;
  sq_EffectID : string;
  sq_InvocationID : string;
  sq_RequestDigest : string;
  sq_Service : string;
  sq_Operation : string;
  sq_DispatchAttempt : Z;
}.

Inductive authorityPurpose := purposeAdmission | purposeSettlement | OtherPurpose (n : Z).
#[global] Instance authorityPurpose_eq_dec : EqDecision authorityPurpose.
Proof. solve_decision. Defined.
Definition purpose_byte (p : authorityPurpose) : Z :=
  match p with purposeAdmission => 1 | purposeSettlement => 2 | OtherPurpose n => n end.

Record authorityClaims := MkClaims {
  c_purpose : authorityPurpose;
  c_binding : string;
  c_scope : Scope;
  c_permissions : list string;
  c_turnLeaseGeneration : Z;
  c_placementGeneration : Z;
  c_authorizationGeneration : Z;
  c_policySnapshotDigest : string;
  c_emergencyOverlayDigest : string;
  c_issuedAtUnixNano : Z;
  c_expiresAtUnixNano : Z;
  c_effectID : string;
  c_invocationID : string;
  c_requestDigest : string;
  c_effectService : string;
  c_effectOperation : string;
  c_dispatchAttempt : Z;
}.
#[global] Instance authorityClaims_eq_dec : EqDecision authorityClaims.
Proof. solve_decision. Defined.
Record signedAuthority := MkSigned { sg_claims : authorityClaims; sg_mac : bytes }.
(** [TurnAuthority] and [SettlementAuthority]: distinct types around a signed claim. *)
Record TurnAuthority := MkTurnAuthority { ta_signed : signedAuthority }.
Record SettlementAuthority := MkSettlementAuthority { sa_signed : signedAuthority }.

(** The validator's own state; the reader and the clock are in [Env]. *)
Record Validator := MkValidator { v_secret : bytes; v_ttl : Z }.

(** What one call meets: the context at its start and after a failed read, the
    snapshot reader's answer, the clock. *)
Record Env := MkEnv {
  env_ctx_Err : option authority_error;
  env_reader : string -> option Snapshot;
  env_ctx_Err_after : option authority_error;
  env_now : Z;
}.

Definition NewValidator (has_reader : bool) (secret : bytes) (ttl : Z) : res authority_error Validator :=
  if negb has_reader then Err ErrInvalidConfig
  else if zlen secret <? 32 then Err ErrInvalidConfig
  else if ttl <=? 0 then Err ErrInvalidConfig
  else Ok (MkValidator secret ttl).

(** ** Text checks *)
Section Checks.
Context `{Normalizer}.

Definition validProtocolText (value : string) (optional : bool) : bool :=
  if value == "" then optional
  else negb ((256 <? strlen value) || negb (utf8_ValidString value) || negb (nfc value == value)
             || (strings_TrimSpace value != value))
       && negb (has_control value).
Definition validIdentifier : string -> bool -> bool := validProtocolText.
Definition validPermission (permission : string) : bool := validProtocolText permission false.

(** [strings.ToLower], on the ASCII text it is applied to. *)
Definition lower_byte (b : ascii) : ascii := if in_range 65 90 (byte_val b) then to_byte (byte_val b + 32) else b.
Definition validDigest (value : string) : bool :=
  bool_decide (take 7 (to_bytes value) = to_bytes "sha256:") && (strlen value =? 7 + 32 * 2)
  && match hex_decode (drop 7 (to_bytes value)) with
     | Some decoded => (zlen decoded =? 32) && bool_decide (to_bytes value = map lower_byte (to_bytes value))
     | None => false
     end.

Definition validEffectService (service : string) : bool :=
  (service == "model") || (service == EffectServiceWorkspace) || (service == "executor") || (service == "mcp")
  || (service == "artifact") || (service == "external-tool").

Definition validateScope (scope : Scope) : bool :=
  forallb (fun value => validIdentifier value false)
    [TenantID scope; UserID scope; SessionID scope; TurnID scope; RuntimeRevision scope]
  && validIdentifier (WorkspaceID scope) true.

Definition hasPermission (permissions : list string) (requested : string) : bool :=
  existsb (fun permission => permission == requested) permissions.

(** The loop that refuses invalid and duplicate permissions. *)
Definition permissions_valid (permissions : list string) : bool :=
  forallb validPermission permissions && bool_decide (NoDup permissions).

Definition validateSettlementRequest (request : SettlementRequest) : bool :=
  validateScope (sq_Scope request) && validPermission (sq_Permission request) && validIdentifier (sq_EffectID request) false
  && validIdentifier (sq_InvocationID request) false && validDigest (sq_RequestDigest request)
  && validEffectService (sq_Service request) && validProtocolText (sq_Operation request) false
  && (sq_DispatchAttempt request != 0).

(** ** Snapshots *)
Definition validateSnapshot (snapshot : Snapshot) (now : Z) (admission : bool) : res authority_error unit :=
  _ ← reject_if (negb (validateScope (s_Scope snapshot)) || (s_TurnLeaseGeneration snapshot =? 0)
                 || (s_PlacementGeneration snapshot =? 0) || (s_AuthorizationGeneration snapshot =? 0)) ErrInvalidSnapshot;
  _ ← reject_if (negb (validDigest (s_PolicySnapshotDigest snapshot)) || negb (validDigest (s_EmergencyOverlayDigest snapshot)))
        ErrInvalidSnapshot;
  _ ← reject_if (negb (permissions_valid (s_EffectivePermissions snapshot))) ErrInvalidSnapshot;
  _ ← reject_if (s_SessionStatus snapshot != SessionActive) ErrInactiveSession;
  if admission then
    _ ← reject_if (s_TurnStatus snapshot != TurnActive) ErrInactiveTurn;
    reject_if (negb (s_LeaseActive snapshot) || (s_LeaseExpiresAt snapshot =? 0) || negb (now <? s_LeaseExpiresAt snapshot))
      ErrLeaseInvalid
  else
    reject_if ((s_TurnStatus snapshot != TurnActive) && (s_TurnStatus snapshot != TurnSettling)
               && (s_TurnStatus snapshot != TurnAborting)) ErrInactiveTurn.

Definition validateCurrent (claims : authorityClaims) (snapshot : Snapshot) : res authority_error unit :=
  let scope := c_scope claims in
  let current := s_Scope snapshot in
  _ ← reject_if ((TenantID scope != TenantID current) || (UserID scope != UserID current)
                 || (SessionID scope != SessionID current) || (TurnID scope != TurnID current)
                 || (WorkspaceID scope != WorkspaceID current)) ErrScopeMismatch;
  _ ← reject_if (RuntimeRevision scope != RuntimeRevision current) ErrRuntimeChanged;
  _ ← reject_if (c_turnLeaseGeneration claims != s_TurnLeaseGeneration snapshot) ErrStaleTurnLease;
  _ ← reject_if (c_placementGeneration claims != s_PlacementGeneration snapshot) ErrStalePlacement;
  _ ← reject_if (c_authorizationGeneration claims != s_AuthorizationGeneration snapshot) ErrStaleAuthorization;
  _ ← reject_if (c_policySnapshotDigest claims != s_PolicySnapshotDigest snapshot) ErrPolicySnapshotChanged;
  reject_if (c_emergencyOverlayDigest claims != s_EmergencyOverlayDigest snapshot) ErrEmergencyOverlayChanged.

Definition validateEffectBinding (binding service : string) : res authority_error unit :=
  reject_if ((binding == BindingWorkspace) && (service != EffectServiceWorkspace)) ErrServiceBindingMismatch.

Definition validateEffect (snapshot : Snapshot) (binding : string) (request : SettlementRequest) : res authority_error unit :=
  match s_ActiveEffect snapshot with
  | None => Err ErrEffectMismatch
  | Some effect =>
      _ ← reject_if (negb (validIdentifier (e_EffectID effect) false) || negb (validIdentifier (e_InvocationID effect) false)
                     || negb (validDigest (e_RequestDigest effect)) || negb (validEffectService (e_Service effect))
                     || negb (validProtocolText (e_Operation effect) false) || (e_DispatchAttempt effect =? 0))
            ErrInvalidSnapshot;
      _ ← validateEffectBinding binding (e_Service effect);
      _ ← reject_if ((e_EffectID effect != sq_EffectID request) || (e_InvocationID effect != sq_InvocationID request)
                     || (e_RequestDigest effect != sq_RequestDigest request) || (e_Service effect != sq_Service request)
                     || (e_Operation effect != sq_Operation request)
                     || (e_DispatchAttempt effect != sq_DispatchAttempt request)) ErrEffectMismatch;
      reject_if ((e_Status effect != EffectDispatched) && (e_Status effect != EffectExternallyCommitted)) ErrEffectNotDispatched
  end.

(** ** Sealed claims *)
Definition authorityMACDomain : bytes := to_bytes "circulusd.turn-authority.v2" ++ [to_byte 0].

Definition writeString (value : string) : bytes := be_bytes 4 (u32 (strlen value)) ++ to_bytes value.
Definition claims_message (claims : authorityClaims) : bytes :=
  let scope := c_scope claims in
  authorityMACDomain ++ [to_byte (purpose_byte (c_purpose claims))] ++ writeString (c_binding claims)
  ++ writeString (TenantID scope) ++ writeString (UserID scope) ++ writeString (SessionID scope) ++ writeString (TurnID scope)
  ++ writeString (RuntimeRevision scope) ++ writeString (WorkspaceID scope)
  ++ be_bytes 8 (c_turnLeaseGeneration claims) ++ be_bytes 8 (c_placementGeneration claims)
  ++ be_bytes 8 (c_authorizationGeneration claims) ++ writeString (c_policySnapshotDigest claims)
  ++ writeString (c_emergencyOverlayDigest claims) ++ be_bytes 4 (u32 (zlen (c_permissions claims)))
  ++ concat (map writeString (c_permissions claims)) ++ be_bytes 8 (u64 (c_issuedAtUnixNano claims))
  ++ be_bytes 8 (u64 (c_expiresAtUnixNano claims)) ++ writeString (c_effectID claims) ++ writeString (c_invocationID claims)
  ++ writeString (c_requestDigest claims) ++ writeString (c_effectService claims) ++ writeString (c_effectOperation claims)
  ++ be_bytes 8 (c_dispatchAttempt claims).
Definition calculateMAC (v : Validator) (claims : authorityClaims) : bytes := hmac_sha256 (v_secret v) (claims_message claims).
Definition signClaims (v : Validator) (claims : authorityClaims) : signedAuthority := MkSigned claims (calculateMAC v claims).
Definition verifyClaims (v : Validator) (signed : signedAuthority) : res authority_error authorityClaims :=
  if hmac_Equal (sg_mac signed) (calculateMAC v (sg_claims signed)) then Ok (sg_claims signed) else Err ErrInvalidAuthority.

(** ** Operations *)

(** [time.Time.UnixNano]: an [int64]. *)
Definition unix_epoch : Z := 62135596800 * 1000000000.
Definition UnixNano (t : Z) : Z := i64 (t - unix_epoch).

Definition check_ctx (env : Env) : res authority_error unit :=
  match env_ctx_Err env with Some e => Err e | None => Ok tt end.
Definition readSnapshot (env : Env) (sessionID : string) : res authority_error Snapshot :=
  match env_reader env sessionID with
  | Some snapshot => Ok snapshot
  | None => match env_ctx_Err_after env with Some e => Err e | None => Err ErrSnapshotUnavailable end
  end.

Definition expiry (v : Validator) (snapshot : Snapshot) (now : Z) : Z :=
  if s_LeaseExpiresAt snapshot <? now + v_ttl v then s_LeaseExpiresAt snapshot else now + v_ttl v.

Definition Issue (v : Validator) (env : Env) (binding : string) (request : IssueRequest) : res authority_error TurnAuthority :=
  _ ← check_ctx env;
  _ ← reject_if (negb (isServiceBinding binding) || negb (validateScope (is_Scope request)) || (is_Permissions request == []))
        ErrInvalidRequest;
  _ ← reject_if (negb (permissions_valid (is_Permissions request))) ErrInvalidRequest;
  let permissions := sort_by bytes_lt to_bytes (is_Permissions request) in
  snapshot ← readSnapshot env (SessionID (is_Scope request));
  let now := env_now env in
  _ ← validateSnapshot snapshot now true;
  _ ← reject_if (s_Scope snapshot != is_Scope request) ErrScopeMismatch;
  _ ← reject_if (negb (forallb (hasPermission (s_EffectivePermissions snapshot)) permissions)) ErrPermissionDenied;
  Ok (MkTurnAuthority (signClaims v (MkClaims purposeAdmission binding (s_Scope snapshot) permissions
        (s_TurnLeaseGeneration snapshot) (s_PlacementGeneration snapshot) (s_AuthorizationGeneration snapshot)
        (s_PolicySnapshotDigest snapshot) (s_EmergencyOverlayDigest snapshot) (UnixNano now)
        (UnixNano (expiry v snapshot now)) "" "" "" "" "" 0))).

(** The checks [ValidateAdmission] and [Renew] share: the sealed claims are of this
    purpose and binding, and describe the fresh snapshot. *)
Definition open_claims (v : Validator) (signed : signedAuthority) (purpose : authorityPurpose) (binding : string)
    : res authority_error authorityClaims :=
  match verifyClaims v signed with
  | Err _ => Err ErrInvalidAuthority
  | Ok claims =>
      _ ← reject_if (c_purpose claims != purpose) ErrInvalidAuthority;
      _ ← reject_if (c_binding claims != binding) ErrServiceBindingMismatch;
      Ok claims
  end.
Definition current_snapshot (env : Env) (claims : authorityClaims) (admission : bool) : res authority_error Snapshot :=
  snapshot ← readSnapshot env (SessionID (c_scope claims));
  let now := env_now env in
  _ ← reject_if (UnixNano now <? c_issuedAtUnixNano claims) ErrInvalidAuthority;
  _ ← validateSnapshot snapshot now admission;
  _ ← validateCurrent claims snapshot;
  Ok snapshot.

Definition ValidateAdmission (v : Validator) (env : Env) (authority : TurnAuthority) (binding : string)
    (request : AdmissionRequest) : res authority_error unit :=
  _ ← check_ctx env;
  _ ← reject_if (negb (isServiceBinding binding) || negb (validateScope (am_Scope request))
                 || negb (validPermission (am_Permission request))) ErrInvalidRequest;
  claims ← open_claims v (ta_signed authority) purposeAdmission binding;
  snapshot ← current_snapshot env claims true;
  _ ← reject_if (c_expiresAtUnixNano claims <=? UnixNano (env_now env)) ErrAuthorityExpired;
  _ ← reject_if (c_scope claims != am_Scope request) ErrScopeMismatch;
  _ ← reject_if (negb (hasPermission (c_permissions claims) (am_Permission request))) ErrPermissionDenied;
  reject_if (negb (hasPermission (s_EffectivePermissions snapshot) (am_Permission request))) ErrPermissionDenied.

Definition with_lifetime (c : authorityClaims) (issued expires : Z) : authorityClaims :=
  MkClaims (c_purpose c) (c_binding c) (c_scope c) (c_permissions c) (c_turnLeaseGeneration c) (c_placementGeneration c)
    (c_authorizationGeneration c) (c_policySnapshotDigest c) (c_emergencyOverlayDigest c) issued expires (c_effectID c)
    (c_invocationID c) (c_requestDigest c) (c_effectService c) (c_effectOperation c) (c_dispatchAttempt c).

Definition Renew (v : Validator) (env : Env) (authority : TurnAuthority) (binding : string) : res authority_error TurnAuthority :=
  _ ← check_ctx env;
  _ ← reject_if (negb (isServiceBinding binding)) ErrInvalidRequest;
  claims ← open_claims v (ta_signed authority) purposeAdmission binding;
  snapshot ← current_snapshot env claims true;
  let now := env_now env in
  _ ← reject_if (c_expiresAtUnixNano claims <=? UnixNano now) ErrAuthorityExpired;
  _ ← reject_if (negb (forallb (hasPermission (s_EffectivePermissions snapshot)) (c_permissions claims))) ErrPermissionDenied;
  Ok (MkTurnAuthority (signClaims v (with_lifetime claims (UnixNano now) (UnixNano (expiry v snapshot now))))).

Definition IssueSettlementAuthority (v : Validator) (env : Env) (binding : string) (request : SettlementRequest)
    : res authority_error SettlementAuthority :=
  _ ← check_ctx env;
  _ ← reject_if (negb (isServiceBinding binding) || negb (validateSettlementRequest request)) ErrInvalidRequest;
  snapshot ← readSnapshot env (SessionID (sq_Scope request));
  let now := env_now env in
  _ ← validateSnapshot snapshot now false;
  _ ← reject_if (s_Scope snapshot != sq_Scope request) ErrScopeMismatch;
  _ ← reject_if (negb (hasPermission (s_EffectivePermissions snapshot) (sq_Permission request))) ErrPermissionDenied;
  _ ← validateEffect snapshot binding request;
  match s_ActiveEffect snapshot with
  | None => Err ErrEffectMismatch
  | Some effect =>
      Ok (MkSettlementAuthority (signClaims v (MkClaims purposeSettlement binding (s_Scope snapshot) [sq_Permission request]
            (s_TurnLeaseGeneration snapshot) (s_PlacementGeneration snapshot) (s_AuthorizationGeneration snapshot)
            (s_PolicySnapshotDigest snapshot) (s_EmergencyOverlayDigest snapshot) (UnixNano now) 0 (e_EffectID effect)
            (e_InvocationID effect) (e_RequestDigest effect) (e_Service effect) (e_Operation effect)
            (e_DispatchAttempt effect))))
  end.

(** A credential that is not a [SettlementAuthority] is [None]. *)
Definition ValidateSettlement (v : Validator) (env : Env) (credential : option SettlementAuthority) (binding : string)
    (request : SettlementRequest) : res authority_error unit :=
  _ ← check_ctx env;
  _ ← reject_if (negb (isServiceBinding binding) || negb (validateSettlementRequest request)) ErrInvalidRequest;
  match credential with
  | None => Err ErrInvalidAuthority
  | Some authority =>
      claims ← open_claims v (sa_signed authority) purposeSettlement binding;
      _ ← reject_if (c_scope claims != sq_Scope request) ErrScopeMismatch;
      _ ← reject_if (negb (hasPermission (c_permissions claims) (sq_Permission request))) ErrPermissionDenied;
      _ ← validateEffectBinding binding (c_effectService claims);
      _ ← reject_if ((c_effectID claims != sq_EffectID request) || (c_invocationID claims != sq_InvocationID request)
                     || (c_requestDigest claims != sq_RequestDigest request) || (c_effectService claims != sq_Service request)
                     || (c_effectOperation claims != sq_Operation request)
                     || (c_dispatchAttempt claims != sq_DispatchAttempt request)) ErrEffectMismatch;
      snapshot ← current_snapshot env claims false;
      _ ← reject_if (negb (hasPermission (s_EffectivePermissions snapshot) (sq_Permission request))) ErrPermissionDenied;
      validateEffect snapshot binding request
  end.
End Checks.
