(* ===== verification/AuthorityProofs.v ===== *)
(** * Turn authority: what an accepted authority means

    Acceptance is equivalent to a proposition on the sealed claims, the fresh snapshot
    and the clock; the seal binds the claims; renewals never widen an authority. *)

From S2P Require Import Prelude GoText GoCrypto Authority.
#[local] Open Scope string_scope.
#[local] Open Scope list_scope.
#[local] Open Scope Z_scope.
#[local] Open Scope go_scope.

(** ** The seal *)

(** The ranges of the claims' Go types, with strings shorter than the length field. *)
Record claims_typed (c : authorityClaims) : Prop := MkTyped {
  typed_purpose : 0 <= purpose_byte (c_purpose c) < 256 /\ (forall n, c_purpose c = OtherPurpose n -> n <> 1 /\ n <> 2);
  typed_strings : Forall (fun s => strlen s < 2 ^ 32)
    [c_binding c; TenantID (c_scope c); UserID (c_scope c); SessionID (c_scope c); TurnID (c_scope c); RuntimeRevision (c_scope c);
     WorkspaceID (c_scope c); c_policySnapshotDigest c; c_emergencyOverlayDigest c; c_effectID c; c_invocationID c;
     c_requestDigest c; c_effectService c; c_effectOperation c];
  typed_permissions : zlen (c_permissions c) < 2 ^ 32 /\ Forall (fun s => strlen s < 2 ^ 32) (c_permissions c);
  typed_counters : Forall is_u64 [c_turnLeaseGeneration c; c_placementGeneration c; c_authorizationGeneration c; c_dispatchAttempt c];
  typed_times : Forall is_i64 [c_issuedAtUnixNano c; c_expiresAtUnixNano c];
}.

Lemma be_bytes_app_inj n a b r r' :
  0 <= a < 256 ^ Z.of_nat n -> 0 <= b < 256 ^ Z.of_nat n -> be_bytes n a ++ r = be_bytes n b ++ r' -> a = b /\ r = r'.
Proof.
  intros Ha Hb H. apply app_inj_1 in H as [H ->]; [|by rewrite !length_be_bytes]. split; [|done].
  by rewrite <- (be_value_be_bytes n a), <- (be_value_be_bytes n b), H.
Qed.

Lemma u64_app_inj a b r r' : is_u64 a -> is_u64 b -> be_bytes 8 a ++ r = be_bytes 8 b ++ r' -> a = b /\ r = r'.
Proof. intros Ha Hb. by apply be_bytes_app_inj. Qed.

Lemma time_app_inj a b r r' : is_i64 a -> is_i64 b -> be_bytes 8 (u64 a) ++ r = be_bytes 8 (u64 b) ++ r' -> a = b /\ r = r'.
Proof.
  intros Ha Hb [H ->]%u64_app_inj; [|apply u64_range..]. split; [|done]. unfold u64, is_i64 in *.
  rewrite (Z.mod_eq a), (Z.mod_eq b) in H by lia.
  assert (a / 2 ^ 64 = -1 \/ a / 2 ^ 64 = 0) by (destruct (Z_lt_le_dec a 0); [left; symmetry; apply (Z.div_unique _ _ _ (a + 2 ^ 64)); lia|right; apply Z.div_small; lia]).
  assert (b / 2 ^ 64 = -1 \/ b / 2 ^ 64 = 0) by (destruct (Z_lt_le_dec b 0); [left; symmetry; apply (Z.div_unique _ _ _ (b + 2 ^ 64)); lia|right; apply Z.div_small; lia]).
  lia.
Qed.

Lemma writeString_app_inj s t r r' :
  strlen s < 2 ^ 32 -> strlen t < 2 ^ 32 -> writeString s ++ r = writeString t ++ r' -> s = t /\ r = r'.
Proof.
  intros Hs Ht H. unfold writeString in H. rewrite <- !app_assoc in H.
  assert (Hr : forall x, strlen x < 2 ^ 32 -> u32 (strlen x) = strlen x).
  { intros x Hx. unfold u32. apply Z.mod_small. pose proof (strlen_nonneg x). lia. }
  rewrite !Hr in H by done. pose proof (strlen_nonneg s). pose proof (strlen_nonneg t).
  apply be_bytes_app_inj in H as [Hlen H]; [|change (256 ^ Z.of_nat 4) with (2 ^ 32); lia..].
  apply app_inj_1 in H as [H ->].
  - split; [|done]. by apply (inj to_bytes).
  - rewrite !length_to_bytes. unfold strlen in Hlen. lia.
Qed.

Lemma permissions_app_inj ps qs r r' :
  length ps = length qs -> Forall (fun s => strlen s < 2 ^ 32) ps -> Forall (fun s => strlen s < 2 ^ 32) qs ->
  concat (map writeString ps) ++ r = concat (map writeString qs) ++ r' -> ps = qs /\ r = r'.
Proof.
  revert qs. induction ps as [|p ps IH]; intros [|q qs] Hlen Hp Hq H; try done. simpl in H. rewrite <- !app_assoc in H.
  apply Forall_cons in Hp as [Hp Hps]. apply Forall_cons in Hq as [Hq Hqs].
  apply writeString_app_inj in H as [-> H]; [|done..]. destruct (IH qs) as [-> ->]; auto.
Qed.

Lemma purpose_byte_inj c c' : claims_typed c -> claims_typed c' ->
  to_byte (purpose_byte (c_purpose c)) = to_byte (purpose_byte (c_purpose c')) -> c_purpose c = c_purpose c'.
Proof.
  intros [[Hr Ho] _ _ _ _] [[Hr' Ho'] _ _ _ _] H. apply (f_equal byte_val) in H. rewrite !byte_val_to_byte, !Z.mod_small in H by done.
  destruct (c_purpose c) as [| |n], (c_purpose c') as [| |n']; simpl in *; try done;
    try destruct (Ho _ eq_refl); try destruct (Ho' _ eq_refl); congruence.
Qed.

(** The message the seal is computed from determines the claims. *)
Lemma claims_message_inj c c' : claims_typed c -> claims_typed c' -> claims_message c = claims_message c' -> c = c'.
Proof.
  intros Hc Hc' H. unfold claims_message in H. apply app_inv_head in H.
  apply app_inj_1 in H as [Hp H]; [|done]. apply cons_eq_inj in Hp as [Hp _].
  apply purpose_byte_inj in Hp; [|done..]. destruct Hc as [_ Hs [Hn Hps] Hg Ht], Hc' as [_ Hs' [Hn' Hps'] Hg' Ht'].
  rewrite !Forall_cons in Hs. rewrite !Forall_cons in Hs'. rewrite !Forall_cons in Hg. rewrite !Forall_cons in Hg'. rewrite !Forall_cons in Ht. rewrite !Forall_cons in Ht'.
  do 7 (apply writeString_app_inj in H as [? H]; [|tauto..]).
  do 3 (apply u64_app_inj in H as [? H]; [|tauto..]).
  do 2 (apply writeString_app_inj in H as [? H]; [|tauto..]).
  pose proof (zlen_nonneg (c_permissions c)). pose proof (zlen_nonneg (c_permissions c')). unfold u32 in H.
  rewrite !Z.mod_small in H by lia. apply be_bytes_app_inj in H as [Hlen H]; [|change (256 ^ Z.of_nat 4) with (2 ^ 32); lia..].
  apply permissions_app_inj in H as [? H]; [|unfold zlen in Hlen; lia|done..].
  do 2 (apply time_app_inj in H as [? H]; [|tauto..]).
  do 5 (apply writeString_app_inj in H as [? H]; [|tauto..]).
  rewrite <- (app_nil_r (be_bytes 8 (c_dispatchAttempt c))), <- (app_nil_r (be_bytes 8 (c_dispatchAttempt c'))) in H.
  apply u64_app_inj in H as [? _]; [|tauto..].
  destruct c as [? ? [] ? ? ? ? ? ? ? ? ? ? ? ? ? ?], c' as [? ? [] ? ? ? ? ? ? ? ? ? ? ? ? ? ?]. simpl in *. by subst.
Qed.

(** A sealed authority cannot be altered: a seal the validator computed for some claims
    verifies only with those claims, or it exhibits two messages with one HMAC under the
    validator's secret. *)
Theorem tampered_authority_refused v claims altered accepted :
  claims_typed claims -> claims_typed altered ->
  verifyClaims v (MkSigned altered (sg_mac (signClaims v claims))) = Ok accepted ->
  accepted = claims \/ exists m m', m <> m' /\ hmac_sha256 (v_secret v) m = hmac_sha256 (v_secret v) m'.
Proof.
  intros Hc Ha. unfold verifyClaims, signClaims. cbn [sg_mac sg_claims]. case_match eqn:Heq; [|done]. intros [= <-].
  apply hmac_Equal_true in Heq. destruct (decide (claims_message altered = claims_message claims)) as [Hm|Hm].
  - left. by apply claims_message_inj.
  - right. eexists _, _. split; [exact Hm|done].
Qed.

(** ** Acceptance *)
Section Acceptance.
Context `{Normalizer}.

(** The snapshot is well formed, of an active session; for an admission its turn is
    active under a running lease, for a settlement its turn is not finished. *)
Record live (snapshot : Snapshot) (now : Z) (admission : bool) : Prop := MkLive {
  live_scope : validateScope (s_Scope snapshot) = true;
  live_generations : s_TurnLeaseGeneration snapshot <> 0 /\ s_PlacementGeneration snapshot <> 0 /\
    s_AuthorizationGeneration snapshot <> 0;
  live_digests : validDigest (s_PolicySnapshotDigest snapshot) = true /\ validDigest (s_EmergencyOverlayDigest snapshot) = true;
  live_permissions : permissions_valid (s_EffectivePermissions snapshot) = true;
  live_session : s_SessionStatus snapshot = SessionActive;
  live_turn : if admission
    then s_TurnStatus snapshot = TurnActive /\ s_LeaseActive snapshot = true /\ s_LeaseExpiresAt snapshot <> 0 /\
         now < s_LeaseExpiresAt snapshot
    else s_TurnStatus snapshot = TurnActive \/ s_TurnStatus snapshot = TurnSettling \/ s_TurnStatus snapshot = TurnAborting;
}.

(** The claims describe the snapshot: its scope, generations and policies. *)
Definition describes (claims : authorityClaims) (snapshot : Snapshot) : Prop :=
  c_scope claims = s_Scope snapshot /\ c_turnLeaseGeneration claims = s_TurnLeaseGeneration snapshot /\
  c_placementGeneration claims = s_PlacementGeneration snapshot /\
  c_authorizationGeneration claims = s_AuthorizationGeneration snapshot /\
  c_policySnapshotDigest claims = s_PolicySnapshotDigest snapshot /\
  c_emergencyOverlayDigest claims = s_EmergencyOverlayDigest snapshot.

Lemma reject_ok {E} (b : bool) (e : E) u : reject_if b e = Ok u <-> b = false.
Proof. destruct b, u; naive_solver. Qed.

Lemma validateSnapshot_iff snapshot now admission : validateSnapshot snapshot now admission = Ok tt <-> live snapshot now admission.
Proof.
  unfold validateSnapshot. rewrite !reject_if_ok. split.
  - intros (H1 & H2 & H3 & H4 & H5). bools in H1. bools in H2. bools in H3. bools in H4. constructor; try tauto.
    destruct admission; [rewrite reject_if_ok, reject_ok in H5|rewrite reject_ok in H5]; bools in H5; tauto.
  - intros [H1 H2 H3 H4 H5 H6]. bools. repeat (split; [tauto|]).
    destruct admission; [rewrite reject_if_ok, reject_ok|rewrite reject_ok]; bools; tauto.
Qed.

Lemma validateCurrent_iff claims snapshot : validateCurrent claims snapshot = Ok tt <-> describes claims snapshot.
Proof.
  unfold validateCurrent, describes. rewrite !reject_if_ok, reject_ok. split.
  - intros (H1 & H2 & H3 & H4 & H5 & H6 & H7). bools in H1. bools in H2. bools in H3. bools in H4. bools in H5. bools in H6.
    bools in H7. destruct (c_scope claims), (s_Scope snapshot). simpl in *. destruct_and!.
    repeat match goal with Hn : ~ (_ <> _) |- _ => apply dec_stable in Hn end. subst. auto 8.
  - intros (-> & -> & -> & -> & -> & ->). repeat (split; [bools; tauto|]). bools. done.
Qed.

Lemma hasPermission_iff permissions p : hasPermission permissions p = true <-> p ∈ permissions.
Proof.
  unfold hasPermission. rewrite existsb_exists. setoid_rewrite bool_decide_eq_true. setoid_rewrite <- list_elem_of_In. naive_solver.
Qed.

Lemma open_claims_iff v signed purpose binding claims :
  open_claims v signed purpose binding = Ok claims <->
  claims = sg_claims signed /\ sg_mac signed = calculateMAC v claims /\ c_purpose claims = purpose /\ c_binding claims = binding.
Proof.
  unfold open_claims, verifyClaims. destruct (hmac_Equal _ _) eqn:Hm.
  - apply hmac_Equal_true in Hm. rewrite !reject_if_ok. bools. naive_solver.
  - split; [done|]. intros (-> & Heq & _). rewrite Heq, hmac_Equal_refl in Hm. done.
Qed.

Lemma current_snapshot_iff env claims admission snapshot :
  current_snapshot env claims admission = Ok snapshot <->
  env_reader env (SessionID (c_scope claims)) = Some snapshot /\ c_issuedAtUnixNano claims <= UnixNano (env_now env) /\
  live snapshot (env_now env) admission /\ describes claims snapshot.
Proof.
  unfold current_snapshot, readSnapshot. rewrite bind_ok. split.
  - intros (s & Hread & Hok). destruct (env_reader env _) as [s'|]; [|by case_match]. injection Hread as ->.
    rewrite reject_if_ok, !bind_ok in Hok. destruct Hok as (Ht & [] & Hl & Hok). rewrite bind_ok in Hok. destruct Hok as ([] & Hd & [= ->]).
    bools in Ht. by rewrite validateSnapshot_iff in Hl; rewrite validateCurrent_iff in Hd.
  - intros (-> & Ht & Hl & Hd). exists snapshot. split; [done|]. rewrite reject_if_ok. bools. split; [done|].
    apply validateSnapshot_iff in Hl as ->. by apply validateCurrent_iff in Hd as ->.
Qed.

Lemma check_ctx_iff env : check_ctx env = Ok tt <-> env_ctx_Err env = None.
Proof. unfold check_ctx. destruct (env_ctx_Err env); naive_solver. Qed.

(** An admission: the sealed claims, their lifetime, and the fresh snapshot. *)
Definition admissible (v : Validator) (env : Env) (authority : TurnAuthority) (binding : string) (request : AdmissionRequest) : Prop :=
  let claims := sg_claims (ta_signed authority) in
  env_ctx_Err env = None /\ isServiceBinding binding = true /\ validateScope (am_Scope request) = true /\
  validPermission (am_Permission request) = true /\ sg_mac (ta_signed authority) = calculateMAC v claims /\
  c_purpose claims = purposeAdmission /\ c_binding claims = binding /\ c_scope claims = am_Scope request /\
  am_Permission request ∈ c_permissions claims /\
  c_issuedAtUnixNano claims <= UnixNano (env_now env) < c_expiresAtUnixNano claims /\
  exists snapshot, env_reader env (SessionID (am_Scope request)) = Some snapshot /\ live snapshot (env_now env) true /\
    describes claims snapshot /\ am_Permission request ∈ s_EffectivePermissions snapshot.

Lemma admission_iff v env authority binding request :
  ValidateAdmission v env authority binding request = Ok tt <-> admissible v env authority binding request.
Proof.
  unfold ValidateAdmission, admissible. rewrite bind_ok. split.
  - intros ([] & Hctx%check_ctx_iff & Hok). rewrite reject_if_ok, bind_ok in Hok. destruct Hok as (Hreq & c & Hc & Hok).
    apply open_claims_iff in Hc as (-> & Hmac & Hp & Hb). rewrite bind_ok in Hok. destruct Hok as (snapshot & Hs & Hok).
    apply current_snapshot_iff in Hs as (Hr & Ht & Hl & Hd). rewrite !reject_if_ok, reject_ok in Hok.
    destruct Hok as (H1 & H2 & H3 & H4). bools in H1. bools in H2. bools in H3. bools in H4. bools in Hreq.
    rewrite hasPermission_iff in H3, H4. rewrite H2 in Hr. split_and!; try tauto. eauto.
  - intros (Hctx & Hb & Hsc & Hpm & Hmac & Hp & Hbind & Hscope & Hperm & Ht & snapshot & Hr & Hl & Hd & Hs).
    exists tt. split; [by apply check_ctx_iff|]. rewrite reject_if_ok, bind_ok. rewrite Hb, Hsc, Hpm. split; [done|].
    exists (sg_claims (ta_signed authority)). split; [by apply open_claims_iff|]. rewrite bind_ok. exists snapshot.
    split; [apply current_snapshot_iff; rewrite Hscope; naive_solver|].
    rewrite !reject_if_ok, reject_ok. bools. rewrite !hasPermission_iff. naive_solver.
Qed.

(** C40: An admission is granted exactly when the request is well formed, the sealed claims
    are admission claims of this binding, scope and permission within their lifetime, and
    the fresh snapshot is of an active turn under a running lease with the same scope,
    generations and policies that still has the permission. *)
Theorem admission_exact v env authority binding request :
  ValidateAdmission v env authority binding request = Ok tt <-> admissible v env authority binding request.
Proof. apply admission_iff. Qed.

(** The snapshot's effect is the requested one, dispatched or committed. *)
Definition owns_effect (snapshot : Snapshot) (request : SettlementRequest) : Prop :=
  exists effect, s_ActiveEffect snapshot = Some effect /\ e_EffectID effect = sq_EffectID request /\
    e_InvocationID effect = sq_InvocationID request /\ e_RequestDigest effect = sq_RequestDigest request /\
    e_Service effect = sq_Service request /\ e_Operation effect = sq_Operation request /\
    e_DispatchAttempt effect = sq_DispatchAttempt request /\
    (e_Status effect = EffectDispatched \/ e_Status effect = EffectExternallyCommitted).

Definition binding_fits (binding service : string) : Prop := binding = BindingWorkspace -> service = EffectServiceWorkspace.
Lemma validateEffectBinding_iff binding service : validateEffectBinding binding service = Ok tt <-> binding_fits binding service.
Proof. unfold validateEffectBinding, binding_fits. rewrite reject_ok. bools. destruct (decide (binding = BindingWorkspace)); tauto. Qed.

Lemma validateEffect_iff snapshot binding request : validateSettlementRequest request = true ->
  validateEffect snapshot binding request = Ok tt <-> binding_fits binding (sq_Service request) /\ owns_effect snapshot request.
Proof.
  intros Hreq. unfold validateSettlementRequest in Hreq. bools in Hreq. unfold validateEffect, owns_effect.
  destruct (s_ActiveEffect snapshot) as [effect|]; [|split; [done|by intros (_ & e & ? & _)]].
  rewrite reject_if_ok, bind_ok. split.
  - intros (_ & [] & Hb%validateEffectBinding_iff & Hok). rewrite reject_if_ok, reject_ok in Hok. destruct Hok as [H1 H2].
    bools in H1. bools in H2. destruct_and!.
    split; [by match goal with E : e_Service effect = _ |- _ => rewrite <- E end|]. exists effect. split_and!; try done.
  - intros (Hb & e & [= <-] & E1 & E2 & E3 & E4 & E5 & E6 & Hst). rewrite <- E4 in Hb.
    split; [bools; rewrite E1, E2, E3, E4, E5, E6; tauto|]. exists tt. split; [by apply validateEffectBinding_iff|].
    rewrite reject_if_ok, reject_ok. bools. tauto.
Qed.

(** A settlement: the sealed claims of the effect attempt, and the fresh snapshot. *)
Definition settleable (v : Validator) (env : Env) (authority : SettlementAuthority) (binding : string) (request : SettlementRequest)
    : Prop :=
  let claims := sg_claims (sa_signed authority) in
  env_ctx_Err env = None /\ isServiceBinding binding = true /\ validateSettlementRequest request = true /\
  sg_mac (sa_signed authority) = calculateMAC v claims /\ c_purpose claims = purposeSettlement /\ c_binding claims = binding /\
  c_scope claims = sq_Scope request /\ sq_Permission request ∈ c_permissions claims /\ binding_fits binding (sq_Service request) /\
  c_effectID claims = sq_EffectID request /\ c_invocationID claims = sq_InvocationID request /\
  c_requestDigest claims = sq_RequestDigest request /\ c_effectService claims = sq_Service request /\
  c_effectOperation claims = sq_Operation request /\ c_dispatchAttempt claims = sq_DispatchAttempt request /\
  c_issuedAtUnixNano claims <= UnixNano (env_now env) /\
  exists snapshot, env_reader env (SessionID (sq_Scope request)) = Some snapshot /\ live snapshot (env_now env) false /\
    describes claims snapshot /\ sq_Permission request ∈ s_EffectivePermissions snapshot /\ owns_effect snapshot request.

Lemma settlement_iff v env authority binding request :
  ValidateSettlement v env (Some authority) binding request = Ok tt <-> settleable v env authority binding request.
Proof.
  unfold ValidateSettlement, settleable. rewrite bind_ok. split.
  - intros ([] & Hctx%check_ctx_iff & Hok). rewrite reject_if_ok, bind_ok in Hok. destruct Hok as (Hreq & c & Hc & Hok).
    bools in Hreq. destruct Hreq as [Hb Hreq]. apply open_claims_iff in Hc as (-> & Hmac & Hp & Hbind).
    rewrite !reject_if_ok, bind_ok in Hok. destruct Hok as (H1 & H2 & [] & Hf%validateEffectBinding_iff & Hok).
    rewrite reject_if_ok, bind_ok in Hok. destruct Hok as (H3 & snapshot & Hs & Hok).
    apply current_snapshot_iff in Hs as (Hr & Ht & Hl & Hd). rewrite reject_if_ok, validateEffect_iff in Hok by done.
    destruct Hok as (H4 & _ & Hown). bools in H1. bools in H2. bools in H3. bools in H4. rewrite hasPermission_iff in H2, H4.
    rewrite H1 in Hr. destruct_and!. split_and!; try done;
      [by match goal with E : c_effectService _ = _ |- _ => rewrite <- E end|]. by exists snapshot.
  - intros (Hctx & Hb & Hreq & Hmac & Hp & Hbind & Hscope & Hperm & Hf & E1 & E2 & E3 & E4 & E5 & E6 & Ht & snapshot & Hr & Hl & Hd & Hs & Hown).
    exists tt. split; [by apply check_ctx_iff|]. rewrite reject_if_ok, bind_ok, Hb, Hreq. split; [done|].
    exists (sg_claims (sa_signed authority)). split; [by apply open_claims_iff|].
    rewrite !reject_if_ok, bind_ok. bools. rewrite hasPermission_iff. split; [done|]. split; [done|]. exists tt.
    split; [apply validateEffectBinding_iff; by rewrite E4|]. rewrite reject_if_ok, bind_ok. bools. split; [tauto|].
    exists snapshot. split; [apply current_snapshot_iff; by rewrite Hscope|]. rewrite reject_if_ok, validateEffect_iff by done.
    bools. rewrite hasPermission_iff. auto.
Qed.

(** A settlement is authorised exactly when the credential is a sealed settlement claim
    of this binding, scope, permission and effect attempt, and the fresh snapshot of the
    unfinished turn, with the same scope, generations and policies, still owns that effect
    as dispatched or committed. Neither the claims' lifetime nor the lease's clock matters. *)
Theorem settlement_exact v env authority binding request :
  ValidateSettlement v env (Some authority) binding request = Ok tt <-> settleable v env authority binding request.
Proof. apply settlement_iff. Qed.

(** The same sealed claims never serve both an admission and a settlement. *)
Lemma purposes_disjoint v env env' signed binding binding' request request' :
  ValidateAdmission v env (MkTurnAuthority signed) binding request = Ok tt ->
  ValidateSettlement v env' (Some (MkSettlementAuthority signed)) binding' request' = Ok tt -> False.
Proof.
  intros (_ & _ & _ & _ & _ & Hp & _)%admission_iff (_ & _ & _ & _ & Hp' & _)%settlement_iff. simpl in *. congruence.
Qed.

(** ** Lifetimes *)
Lemma expiry_min v snapshot now : expiry v snapshot now = Z.min (s_LeaseExpiresAt snapshot) (now + v_ttl v).
Proof. unfold expiry. destruct (Z.ltb_spec (s_LeaseExpiresAt snapshot) (now + v_ttl v)); lia. Qed.
Lemma expiry_le v snapshot now : expiry v snapshot now <= s_LeaseExpiresAt snapshot /\ expiry v snapshot now <= now + v_ttl v.
Proof. rewrite expiry_min. lia. Qed.

(** Claims minted for a request: from a live snapshot with all its permissions. *)
Record minted (v : Validator) (binding : string) (scope : Scope) (permissions : list string) (env : Env) (claims : authorityClaims)
    : Prop := MkMinted {
  minted_purpose : c_purpose claims = purposeAdmission;
  minted_binding : c_binding claims = binding;
  minted_scope : c_scope claims = scope;
  minted_permissions : c_permissions claims ≡ₚ permissions;
  minted_snapshot : exists snapshot, env_reader env (SessionID scope) = Some snapshot /\ live snapshot (env_now env) true /\
    describes claims snapshot /\ Forall (.∈ s_EffectivePermissions snapshot) permissions /\
    c_issuedAtUnixNano claims = UnixNano (env_now env) /\ c_expiresAtUnixNano claims = UnixNano (expiry v snapshot (env_now env));
}.

Lemma forall_has snapshot ps : forallb (hasPermission (s_EffectivePermissions snapshot)) ps = true <-> Forall (.∈ s_EffectivePermissions snapshot) ps.
Proof. rewrite forallb_forall, List.Forall_forall. by setoid_rewrite hasPermission_iff. Qed.

Lemma Issue_ok v env binding request authority :
  Issue v env binding request = Ok authority ->
  minted v binding (is_Scope request) (is_Permissions request) env (sg_claims (ta_signed authority)) /\
  ta_signed authority = signClaims v (sg_claims (ta_signed authority)) /\ isServiceBinding binding = true /\
  permissions_valid (is_Permissions request) = true.
Proof.
  unfold Issue. intros Hok. apply bind_ok in Hok as (_ & _ & Hok). rewrite !reject_if_ok in Hok. destruct Hok as (Hreq & Hv & Hok).
  apply bind_ok in Hok as (snapshot & Hs & Hok). apply bind_ok in Hok as ([] & Hl%validateSnapshot_iff & Hok).
  rewrite !reject_if_ok in Hok. destruct Hok as (Hsc & Hp & Hok). injection Hok as <-. bools in Hreq. bools in Hv. bools in Hsc.
  apply negb_false_iff, forall_has in Hp. rewrite sort_by_perm in Hp. unfold readSnapshot in Hs.
  destruct (env_reader env _) as [s|] eqn:Hr; [|by case_match]. injection Hs as ->.
  split_and!; [|done|tauto|done]. constructor; simpl; auto; [by rewrite sort_by_perm|]. exists snapshot. rewrite <- Hsc in *.
  split_and!; auto. by unfold describes.
Qed.

Lemma Renew_ok v env authority binding renewed :
  Renew v env authority binding = Ok renewed ->
  exists snapshot, env_reader env (SessionID (c_scope (sg_claims (ta_signed authority)))) = Some snapshot /\
    live snapshot (env_now env) true /\ describes (sg_claims (ta_signed authority)) snapshot /\
    Forall (.∈ s_EffectivePermissions snapshot) (c_permissions (sg_claims (ta_signed authority))) /\
    c_purpose (sg_claims (ta_signed authority)) = purposeAdmission /\ c_binding (sg_claims (ta_signed authority)) = binding /\
    UnixNano (env_now env) < c_expiresAtUnixNano (sg_claims (ta_signed authority)) /\
    ta_signed renewed = signClaims v (with_lifetime (sg_claims (ta_signed authority)) (UnixNano (env_now env))
                                        (UnixNano (expiry v snapshot (env_now env)))).
Proof.
  unfold Renew. intros Hok. apply bind_ok in Hok as (_ & _ & Hok). rewrite reject_if_ok in Hok. destruct Hok as (_ & Hok).
  apply bind_ok in Hok as (claims & Hc & Hok). apply open_claims_iff in Hc as (-> & _ & Hp & Hb).
  apply bind_ok in Hok as (snapshot & Hs & Hok). apply current_snapshot_iff in Hs as (Hr & Ht & Hl & Hd).
  rewrite !reject_if_ok in Hok. destruct Hok as (He & Hperm & Hok). injection Hok as <-. bools in He.
  apply negb_false_iff, forall_has in Hperm. eexists. split_and!; try done.
Qed.

(** An authority after any number of renewals. *)
Inductive renewals (v : Validator) (binding : string) : list Env -> TurnAuthority -> TurnAuthority -> Prop :=
| no_renewal authority : renewals v binding [] authority authority
| one_renewal env envs authority renewed last :
    Renew v env authority binding = Ok renewed -> renewals v binding envs renewed last ->
    renewals v binding (env :: envs) authority last.

(** Renewals keep everything but the lifetime. *)
Definition same_grant (a b : authorityClaims) : Prop := exists issued expires, b = with_lifetime a issued expires.

Lemma renewals_same_grant v binding envs authority last :
  renewals v binding envs authority last -> same_grant (sg_claims (ta_signed authority)) (sg_claims (ta_signed last)).
Proof.
  induction 1 as [authority|env envs authority renewed last Hr _ (i & e & IH)].
  - exists (c_issuedAtUnixNano (sg_claims (ta_signed authority))), (c_expiresAtUnixNano (sg_claims (ta_signed authority))).
    by destruct (sg_claims (ta_signed authority)).
  - apply Renew_ok in Hr as (snapshot & _ & _ & _ & _ & _ & _ & _ & Heq). rewrite Heq in IH. by exists i, e.
Qed.

(** The last minting of an authority, after its issue or its last renewal. *)
Fixpoint last_env (env : Env) (envs : list Env) : Env := match envs with [] => env | next :: rest => last_env next rest end.
Lemma renewals_minted v binding scope permissions envs : forall env authority last,
  minted v binding scope permissions env (sg_claims (ta_signed authority)) -> renewals v binding envs authority last ->
  minted v binding scope permissions (last_env env envs) (sg_claims (ta_signed last)).
Proof.
  induction envs as [|env' envs IH]; intros env authority last Hm Hr; inversion Hr as [|? ? ? renewed ? Hrenew Hrest]; subst; [done|].
  simpl. apply (IH env' renewed last); [|done]. destruct Hm as [Hp Hb Hs Hperm _].
  apply Renew_ok in Hrenew as (snapshot & Hread & Hl & Hd & Hf & _ & _ & _ & ->). rewrite Hs in Hread.
  constructor; simpl; auto. exists snapshot. rewrite <- Hperm. split_and!; auto.
Qed.

(** C39: An issued authority never widens: after any number of renewals it is accepted only
    for the binding, scope and permissions it was issued for, while the turn's scope, lease,
    placement and authorization generations and policies are those of its issue, within the
    lifetime of its last minting, which ends with the turn lease of that time and no later
    than the validator's limit after it. *)
Theorem authority_never_widens v env0 binding request authority envs last env binding' admission :
  Issue v env0 binding request = Ok authority -> renewals v binding envs authority last ->
  ValidateAdmission v env last binding' admission = Ok tt ->
  binding' = binding /\ am_Scope admission = is_Scope request /\ am_Permission admission ∈ is_Permissions request /\
  exists issued minting snapshot, env_reader env0 (SessionID (is_Scope request)) = Some issued /\
    env_reader (last_env env0 envs) (SessionID (is_Scope request)) = Some minting /\
    env_reader env (SessionID (is_Scope request)) = Some snapshot /\
    s_Scope snapshot = s_Scope issued /\ s_TurnLeaseGeneration snapshot = s_TurnLeaseGeneration issued /\
    s_PlacementGeneration snapshot = s_PlacementGeneration issued /\
    s_AuthorizationGeneration snapshot = s_AuthorizationGeneration issued /\
    s_PolicySnapshotDigest snapshot = s_PolicySnapshotDigest issued /\
    s_EmergencyOverlayDigest snapshot = s_EmergencyOverlayDigest issued /\
    am_Permission admission ∈ s_EffectivePermissions snapshot /\
    UnixNano (env_now (last_env env0 envs)) <= UnixNano (env_now env) <
      UnixNano (Z.min (s_LeaseExpiresAt minting) (env_now (last_env env0 envs) + v_ttl v)).
Proof.
  intros Hissue Hr Hadm. apply Issue_ok in Hissue as (Hm & _). pose proof (renewals_minted _ _ _ _ _ _ _ _ Hm Hr) as Hm'.
  apply renewals_same_grant in Hr as (i & e & Hlast). apply admission_iff in Hadm.
  destruct Hadm as (_ & _ & _ & _ & _ & _ & Hb & Hsc & Hp & Ht & snapshot & Hread & _ & Hd & Heff).
  destruct Hm as [_ Hbind Hscope Hperm (issued & Hread0 & _ & Hd0 & _)].
  destruct Hm' as [_ Hbind' Hscope' Hperm' (minting & Hread1 & _ & _ & _ & Hi & He)].
  rewrite Hbind' in Hb. rewrite Hperm' in Hp. rewrite Hscope' in Hsc. rewrite Hi, He, expiry_min in Ht.
  split; [done|]. split; [done|]. split; [done|]. exists issued, minting, snapshot. rewrite <- Hsc in Hread.
  rewrite Hlast in Hd. unfold describes in Hd, Hd0. simpl in Hd. destruct_and!. split_and!; try done; try congruence; try lia.
Qed.

(** An issued authority is usable: under the snapshot it was issued from, until it
    expires, it admits each of the permissions it was issued for. *)
Theorem issue_then_admit v env binding request authority later permission :
  Issue v env binding request = Ok authority -> permission ∈ is_Permissions request ->
  env_ctx_Err later = None -> env_reader later (SessionID (is_Scope request)) = env_reader env (SessionID (is_Scope request)) ->
  (forall snapshot, env_reader env (SessionID (is_Scope request)) = Some snapshot -> env_now env <= env_now later < expiry v snapshot (env_now env)) ->
  is_i64 (env_now env - unix_epoch) -> is_i64 (env_now later - unix_epoch) ->
  (forall snapshot, env_reader env (SessionID (is_Scope request)) = Some snapshot -> is_i64 (expiry v snapshot (env_now env) - unix_epoch)) ->
  ValidateAdmission v later authority binding (MkAdmission (is_Scope request) permission) = Ok tt.
Proof.
  intros Hissue Hp Hctx Hread Htime Hr1 Hr2 Hr3. apply Issue_ok in Hissue as (Hm & Hsign & Hb & Hv).
  destruct Hm as [Hpur Hbind Hscope Hperm (snapshot & Hread0 & Hl & Hd & Hf & Hi & He)]. specialize (Htime _ Hread0).
  specialize (Hr3 _ Hread0). apply admission_iff. unfold admissible. cbn [am_Scope am_Permission]. rewrite Hscope, Hperm, Hi, He.
  unfold UnixNano. rewrite !i64_id by done. unfold permissions_valid in Hv. apply andb_prop in Hv as [Hv _]. rewrite forallb_forall in Hv.
  assert (Hsc : validateScope (is_Scope request) = true). { destruct Hd as [Hd _]. rewrite <- Hscope, Hd. apply Hl. }
  split_and!; try done; [by apply Hv, list_elem_of_In|by rewrite Hsign at 1|lia|lia|].
  exists snapshot. rewrite Hread. split; [done|]. split; [|split; [done|]].
  - destruct Hl as [? ? ? ? ? (? & ? & ? & _)]. pose proof (expiry_le v snapshot (env_now env)). constructor; auto. split_and!; auto. lia.
  - rewrite Forall_forall in Hf. auto.
Qed.
End Acceptance.

(** ** Witnesses *)
#[local] Existing Instance id_normalizer.
Definition sample_digest : string := "sha256:" +:+ of_bytes (repeat "0"%char 64).
Definition sample_scope : Scope := MkScope "tenant_a" "user_a" "sess_a" "turn_a" "runtime_1" "ws_a".
Definition sample_effect : EffectSnapshot := MkEffect "effect_a" "inv_a" sample_digest "model" "generate" 1 EffectDispatched.
Definition sample_snapshot (now : Z) : Snapshot :=
  MkSnapshot sample_scope SessionActive TurnActive true (unix_epoch + now + 500) 1 2 3 sample_digest sample_digest
    ["read"; "write"] (Some sample_effect).
Definition sample_env (now : Z) : Env := MkEnv None (fun _ => Some (sample_snapshot 0)) None (unix_epoch + now).
Definition sample_validator : Validator := MkValidator (repeat "k"%char 32) 100.
Definition sample_issue : IssueRequest := MkIssue sample_scope ["write"; "read"].

Lemma issued : exists a, Issue sample_validator (sample_env 10) "model" sample_issue = Ok a.
Proof. eexists. vm_compute. reflexivity. Qed.

Lemma authority_never_widens_witness :
  exists a b, Issue sample_validator (sample_env 10) "model" sample_issue = Ok a /\
    Renew sample_validator (sample_env 60) a "model" = Ok b /\
    ValidateAdmission sample_validator (sample_env 120) b "model" (MkAdmission sample_scope "read") = Ok tt /\
    ("read" ∈ is_Permissions sample_issue).
Proof.
  assert (H : match Issue sample_validator (sample_env 10) "model" sample_issue with
              | Err _ => false
              | Ok a => match Renew sample_validator (sample_env 60) a "model" with
                        | Err _ => false
                        | Ok b => is_ok (ValidateAdmission sample_validator (sample_env 120) b "model" (MkAdmission sample_scope "read"))
                        end
              end = true) by (vm_compute; reflexivity).
  destruct (Issue _ _ _ _) as [a|] eqn:Ha; [|done]. destruct (Renew _ _ a _) as [b|] eqn:Hb; [|done].
  destruct (ValidateAdmission _ _ b _ _) as [[]|] eqn:Hv; [|done]. exists a, b. split_and!; try done.
  exact (proj1 (proj2 (proj2 (authority_never_widens sample_validator (sample_env 10) "model" sample_issue a [sample_env 60] b
    (sample_env 120) "model" _ Ha (one_renewal _ _ _ _ _ _ _ Hb (no_renewal _ _ _)) Hv)))).
Defined.

Lemma issue_then_admit_witness :
  exists a, Issue sample_validator (sample_env 10) "model" sample_issue = Ok a /\
    ValidateAdmission sample_validator (sample_env 20) a "model" (MkAdmission sample_scope "write") = Ok tt.
Proof.
  destruct issued as [a Ha]. exists a. split; [exact Ha|].
  apply (issue_then_admit sample_validator (sample_env 10) "model" sample_issue a (sample_env 20) "write" Ha).
  - apply list_elem_of_here.
  - reflexivity.
  - reflexivity.
  - intros s [= <-]. vm_compute. split; [discriminate|reflexivity].
  - vm_compute. split; [discriminate|reflexivity].
  - vm_compute. split; [discriminate|reflexivity].
  - intros s [= <-]. vm_compute. split; [discriminate|reflexivity].
Defined.

Definition sample_claims (permissions : list string) : authorityClaims :=
  MkClaims purposeAdmission "model" sample_scope permissions 1 2 3 sample_digest sample_digest 10 110 "" "" "" "" "" 0.
Lemma sample_claims_typed permissions :
  zlen permissions < 2 ^ 32 -> Forall (fun s => strlen s < 2 ^ 32) permissions -> claims_typed (sample_claims permissions).
Proof. intros Hn Hp. constructor; [done| |done| |]; repeat constructor; vm_compute; try discriminate; done. Qed.

Lemma tampered_authority_refused_witness :
  verifyClaims sample_validator (MkSigned (sample_claims ["read"; "write"]) (sg_mac (signClaims sample_validator (sample_claims ["read"]))))
    = Err ErrInvalidAuthority /\
  (sample_claims ["read"] = sample_claims ["read"] \/
   exists m m', m <> m' /\ hmac_sha256 (v_secret sample_validator) m = hmac_sha256 (v_secret sample_validator) m').
Proof.
  split; [vm_compute; reflexivity|].
  apply (tampered_authority_refused sample_validator (sample_claims ["read"]) (sample_claims ["read"])).
  - apply sample_claims_typed; [vm_compute; reflexivity|repeat constructor].
  - apply sample_claims_typed; [vm_compute; reflexivity|repeat constructor].
  - vm_compute. reflexivity.
Defined.
