(* ===== verification/Tenant.v ===== *)
(** * Tenant quota ([internal/tenant])

    Tenant membership, workspace grants and quota: the reference repository with its
    expected-version mutations and operation receipts, and the service that releases a
    live resource only with a proof of its destruction. *)

From S2P Require Import Prelude GoText GoCrypto Identity.
#[local] Open Scope string_scope.
#[local] Open Scope list_scope.
#[local] Open Scope Z_scope.
#[local] Open Scope go_scope.

Inductive tenant_error :=
| ErrInvalidConfiguration | ErrInvalidRequest | ErrAccessDenied | ErrQuotaExceeded | ErrVersionConflict | ErrVersionExhausted
| ErrOperationConflict | ErrReceiptNotFound | ErrReservationNotFound | ErrReservationState | ErrInvalidPolicy
| ErrPolicyConflict | ErrPolicyRelaxation | ErrPolicyViolation | ErrTeardownUnproven | ErrRepositoryNotDurable | ErrContext.
#[global] Instance tenant_error_eq_dec : EqDecision tenant_error.
Proof. solve_decision. Defined.

Definition MaximumAmount : Z := 2 ^ 63 - 1.

Definition RolePlatformAdmin : string := "platform-admin".
Definition RoleTenantAdmin : string := "tenant-admin".
Definition RoleWorkspaceOwner : string := "workspace-owner".
Definition RoleWorkspaceMember : string := "workspace-member".
Definition RoleUser : string := "user".

Definition ActionTenantRead : string := "tenant.read".
Definition ActionTenantManage : string := "tenant.manage".
Definition ActionWorkspaceRead : string := "workspace.read".
Definition ActionWorkspaceWrite : string := "workspace.write".
Definition ActionWorkspaceManage : string := "workspace.manage".
Definition ActionSessionCreate : string := "session.create".
Definition ActionBlobStore : string := "blob.store".
Definition ActionArtifactCreate : string := "artifact.create".
Definition ActionSandboxStart : string := "sandbox.start".
Definition ActionModelUse : string := "model.use".

(** ** Quotas and policies: [uint64] amounts *)
Record Quota := MkQuota {
  Sessions : Z;
  WorkspaceBytes : Z;
  BlobBytes : Z;
  ArtifactBytes : Z;
  ActiveSandboxes : Z;
  ModelTokens : Z;
  ModelCostMicros : Z;
}.
#[global] Instance Quota_eq_dec : EqDecision Quota.
Proof. solve_decision. Defined.
Definition no_quota : Quota := MkQuota 0 0 0 0 0 0 0.
Definition quota_values (q : Quota) : list Z :=
  [Sessions q; WorkspaceBytes q; BlobBytes q; ArtifactBytes q; ActiveSandboxes q; ModelTokens q; ModelCostMicros q].

Record ResourceProfile := MkProfile { CPUUnits : Z; MemoryBytes : Z }.
#[global] Instance ResourceProfile_eq_dec : EqDecision ResourceProfile.
Proof. solve_decision. Defined.
Record ResourceInstance := MkInstance { in_ID : string; in_Generation : Z }.
#[global] Instance ResourceInstance_eq_dec : EqDecision ResourceInstance.
Proof. solve_decision. Defined.
Record Policy := MkPolicy { Limits : Quota; MinimumProfile : ResourceProfile; MaximumProfile : ResourceProfile }.
#[global] Instance Policy_eq_dec : EqDecision Policy.
Proof. solve_decision. Defined.
Definition no_policy : Policy := MkPolicy no_quota (MkProfile 0 0) (MkProfile 0 0).

Definition validatePolicy (policy : Policy) : res tenant_error unit :=
  let lo := MinimumProfile policy in
  let hi := MaximumProfile policy in
  _ ← reject_if (existsb (fun value => MaximumAmount <? value) (quota_values (Limits policy))) ErrInvalidPolicy;
  reject_if ((CPUUnits lo =? 0) || (MemoryBytes lo =? 0) || (CPUUnits hi =? 0) || (MemoryBytes hi =? 0)
             || (MaximumAmount <? CPUUnits lo) || (MaximumAmount <? MemoryBytes lo) || (MaximumAmount <? CPUUnits hi)
             || (MaximumAmount <? MemoryBytes hi) || (CPUUnits hi <? CPUUnits lo) || (MemoryBytes hi <? MemoryBytes lo))
    ErrInvalidPolicy.

(** [if b < a { a = b }] and [if b > a { a = b }]. *)
Definition smaller (a b : Z) : Z := if b <? a then b else a.
Definition larger (a b : Z) : Z := if a <? b then b else a.
Definition narrow (resolved policy : Policy) : Policy :=
  let q := Limits resolved in let p := Limits policy in
  MkPolicy
    (MkQuota (smaller (Sessions q) (Sessions p)) (smaller (WorkspaceBytes q) (WorkspaceBytes p))
       (smaller (BlobBytes q) (BlobBytes p)) (smaller (ArtifactBytes q) (ArtifactBytes p))
       (smaller (ActiveSandboxes q) (ActiveSandboxes p)) (smaller (ModelTokens q) (ModelTokens p))
       (smaller (ModelCostMicros q) (ModelCostMicros p)))
    (MkProfile (larger (CPUUnits (MinimumProfile resolved)) (CPUUnits (MinimumProfile policy)))
       (larger (MemoryBytes (MinimumProfile resolved)) (MemoryBytes (MinimumProfile policy))))
    (MkProfile (smaller (CPUUnits (MaximumProfile resolved)) (CPUUnits (MaximumProfile policy)))
       (smaller (MemoryBytes (MaximumProfile resolved)) (MemoryBytes (MaximumProfile policy)))).

Fixpoint check_policies (policies : list Policy) : res tenant_error unit :=
  match policies with [] => Ok tt | p :: rest => _ ← validatePolicy p; check_policies rest end.
Definition IntersectPolicies (policies : list Policy) : res tenant_error Policy :=
  match policies with
  | [] => Err ErrInvalidPolicy
  | first :: rest =>
      _ ← check_policies policies;
      let resolved := fold_left narrow rest first in
      _ ← reject_if ((CPUUnits (MaximumProfile resolved) <? CPUUnits (MinimumProfile resolved))
                     || (MemoryBytes (MaximumProfile resolved) <? MemoryBytes (MinimumProfile resolved))) ErrPolicyConflict;
      Ok resolved
  end.

(** ** Requests and receipts *)
Record Resource := MkResource { rs_TenantID : ID; rs_WorkspaceID : ID }.
Record AuthorizationRequest := MkAuthorization { az_Subject : ID; az_Resource : Resource; az_Action : string }.
Record AuthorizationDecision := MkAuthDecision { ad_Role : string; ad_Version : Z }.

Record ReserveRequest := MkReserve {
  rv_OperationID : ID;
  rv_ExpectedVersion : Z;
  rv_Subject : ID;
  rv_Resource : Resource;
  rv_Action : string;
  rv_Amount : Quota;
  rv_RequestedProfile : ResourceProfile;
  rv_Instance : ResourceInstance;
}.

Inductive OperationKind := OperationReserve | OperationConsume | OperationRelease | OperationPolicyTighten.
#[global] Instance OperationKind_eq_dec : EqDecision OperationKind.
Proof. solve_decision. Defined.
Definition kind_text (kind : OperationKind) : string :=
  match kind with
  | OperationReserve => "reserve" | OperationConsume => "consume" | OperationRelease => "release"
  | OperationPolicyTighten => "policy-tighten"
  end.

(** [NoReservation] is the empty string. *)
Inductive ReservationState := NoReservation | ReservationReserved | ReservationConsumed | ReservationReleased.
#[global] Instance ReservationState_eq_dec : EqDecision ReservationState.
Proof. solve_decision. Defined.

Record TeardownReceipt := MkTeardown {
  td_ReleaseOperationID : ID;
  td_ReservationID : ID;
  td_ReservationVersion : Z;
  td_TenantID : ID;
  td_WorkspaceID : ID;
  td_Action : string;
  td_Instance : ResourceInstance;
  td_Destroyed : bool;
  td_LifecycleGeneration : Z;
  td_Durable : bool;
  td_Sequence : Z;
  td_ProofDigest : string;
}.
Record releaseBinding := MkBinding { rb_reservationVersion : Z; rb_instance : ResourceInstance }.

Record TransitionRequest := MkTransition {
  tq_OperationID : ID;
  tq_ExpectedVersion : Z;
  tq_ReservationID : ID;
  tq_Subject : ID;
  tq_Resource : Resource;
  tq_Action : string;
  tq_releaseBinding : option releaseBinding;
  tq_teardownPermit : option TeardownReceipt;
}.
Record RecoveryRequest := MkRecovery { rr_OperationID : ID; rr_Subject : ID; rr_Resource : Resource; rr_Action : string }.
Record TightenPolicyRequest := MkTighten {
  tp_OperationID : ID; tp_ExpectedVersion : Z; tp_Subject : ID; tp_TenantID : ID; tp_Policy : Policy;
}.

Record Receipt := MkReceipt {
  rt_OperationID : ID;
  rt_Kind : OperationKind;
  rt_Fingerprint : string;
  rt_SubjectID : ID;
  rt_TenantID : ID;
  rt_WorkspaceID : ID;
  rt_Action : string;
  rt_ReservationID : ID;
  rt_ReservationVersion : Z;
  rt_Amount : Quota;
  rt_Instance : ResourceInstance;
  rt_State : ReservationState;
  rt_Version : Z;
  rt_Durable : bool;
  rt_TeardownProofDigest : string;
}.
Record Recovery := MkRecoveryResult { rc_Receipt : Receipt; rc_CurrentState : ReservationState; rc_CurrentVersion : Z }.
Record Snapshot := MkTenantSnapshot { sn_Version : Z; sn_Policy : Policy; sn_Used : Quota; sn_Reserved : Quota }.

(** ** The repository *)
Record reservationRecord := MkReservation {
  re_tenantID : ID;
  re_workspaceID : ID;
  re_subjectID : ID;
  re_action : string;
  re_amount : Quota;
  re_profile : ResourceProfile;
  re_instance : ResourceInstance;
  re_version : Z;
  re_state : ReservationState;
}.

Record tenantState := MkTenantState {
  ts_version : Z;
  ts_policy : Policy;
  ts_members : gmap ID string;
  ts_workspaces : gmap ID (gmap ID string);
  ts_used : Quota;
  ts_reserved : Quota;
  ts_reservations : gmap ID reservationRecord;
}.

Record operationIdentity := MkOperation {
  op_kind : OperationKind;
  op_subjectID : ID;
  op_tenantID : ID;
  op_workspaceID : ID;
  op_action : string;
  op_reservationID : ID;
  op_amount : Quota;
  op_profile : ResourceProfile;
  op_instance : ResourceInstance;
  op_reservationVersion : Z;
  op_policy : Policy;
}.
#[global] Instance operationIdentity_eq_dec : EqDecision operationIdentity.
Proof. solve_decision. Defined.
Record operationRecord := MkOperationRecord { or_identity : operationIdentity; or_receipt : Receipt }.

Record MemoryRepository := MkRepository {
  mr_platformAdmins : gset ID;
  mr_tenants : gmap ID tenantState;
  mr_operations : gmap ID operationRecord;
}.

(** ** Validation *)
Definition no_id : ID := MkID "" "".
Definition no_instance : ResourceInstance := MkInstance "" 0.
Definition validID (value : ID) (kind : Kind) : bool := (id_kind value == kind) && (id_value value != "").

Definition knownAction (action : string) : bool :=
  (action == ActionTenantRead) || (action == ActionTenantManage) || (action == ActionWorkspaceRead)
  || (action == ActionWorkspaceWrite) || (action == ActionWorkspaceManage) || (action == ActionSessionCreate)
  || (action == ActionBlobStore) || (action == ActionArtifactCreate) || (action == ActionSandboxStart) || (action == ActionModelUse).
Definition actionUsesWorkspace (action : string) : bool :=
  (action == ActionWorkspaceRead) || (action == ActionWorkspaceWrite) || (action == ActionWorkspaceManage)
  || (action == ActionSessionCreate) || (action == ActionBlobStore) || (action == ActionArtifactCreate)
  || (action == ActionSandboxStart) || (action == ActionModelUse).
Definition actionRequiresTeardown (action : string) : bool :=
  (action == ActionWorkspaceWrite) || (action == ActionSessionCreate) || (action == ActionBlobStore)
  || (action == ActionArtifactCreate) || (action == ActionSandboxStart).

Definition validResourceInstance (instance : ResourceInstance) : bool :=
  negb ((in_Generation instance =? 0) || (in_ID instance == "") || (512 <? strlen (in_ID instance))
        || (strings_TrimSpace (in_ID instance) != in_ID instance))
  && forallb (fun character => negb ((character <? 33) || (character =? 127))) (string_runes (in_ID instance)).

Definition validateAuthorizationRequest (request : AuthorizationRequest) : res tenant_error unit :=
  let resource := az_Resource request in
  _ ← reject_if (negb (validID (az_Subject request) "subject") || negb (validID (rs_TenantID resource) "tenant")) ErrInvalidRequest;
  _ ← reject_if (negb (knownAction (az_Action request))) ErrInvalidRequest;
  if actionUsesWorkspace (az_Action request)
  then reject_if (negb (validID (rs_WorkspaceID resource) "ws")) ErrInvalidRequest
  else reject_if (id_value (rs_WorkspaceID resource) != "") ErrInvalidRequest.

Definition validateMutationHeader (operationID : ID) (expectedVersion : Z) : res tenant_error unit :=
  reject_if (negb (validID operationID "op") || (expectedVersion =? 0)) ErrInvalidRequest.

(** The [switch request.Action] on the amount; [None] for an action that reserves
    nothing. *)
Definition valid_amount (action : string) (a : Quota) : option bool :=
  if action == ActionSessionCreate then Some (a == MkQuota 1 0 0 0 0 0 0)
  else if action == ActionWorkspaceWrite then Some ((0 <? WorkspaceBytes a) && (a == MkQuota 0 (WorkspaceBytes a) 0 0 0 0 0))
  else if action == ActionBlobStore then
    Some ((0 <? WorkspaceBytes a) && (0 <? BlobBytes a) && (WorkspaceBytes a =? BlobBytes a)
          && (a == MkQuota 0 (WorkspaceBytes a) (BlobBytes a) 0 0 0 0))
  else if action == ActionArtifactCreate then Some ((0 <? ArtifactBytes a) && (a == MkQuota 0 0 0 (ArtifactBytes a) 0 0 0))
  else if action == ActionSandboxStart then Some (a == MkQuota 0 0 0 0 1 0 0)
  else if action == ActionModelUse then
    Some (((0 <? ModelTokens a) || (0 <? ModelCostMicros a)) && (a == MkQuota 0 0 0 0 0 (ModelTokens a) (ModelCostMicros a)))
  else None.

Definition validateReserveSemantics (action : string) (amount : Quota) (profile : ResourceProfile) (instance : ResourceInstance)
    (policy : Policy) : res tenant_error unit :=
  _ ← reject_if (existsb (fun value => MaximumAmount <? value) (quota_values amount ++ [CPUUnits profile; MemoryBytes profile]))
        ErrInvalidRequest;
  match valid_amount action amount with
  | None => Err ErrInvalidRequest
  | Some valid =>
      _ ← reject_if (negb valid) ErrInvalidRequest;
      _ ← reject_if (if actionRequiresTeardown action then negb (validResourceInstance instance) else instance != no_instance)
            ErrInvalidRequest;
      if action != ActionSandboxStart then reject_if (profile != MkProfile 0 0) ErrInvalidRequest
      else reject_if ((CPUUnits profile <? CPUUnits (MinimumProfile policy)) || (CPUUnits (MaximumProfile policy) <? CPUUnits profile)
                      || (MemoryBytes profile <? MemoryBytes (MinimumProfile policy))
                      || (MemoryBytes (MaximumProfile policy) <? MemoryBytes profile)) ErrPolicyViolation
  end.

(** ** Quota arithmetic on [uint64] *)
Fixpoint admissible_values (limits used reserved requested : list Z) : bool :=
  match limits, used, reserved, requested with
  | maximum :: limits', u :: used', r :: reserved', q :: requested' =>
      negb ((maximum <? u) || (u64 (maximum - u) <? r) || (u64 (u64 (maximum - u) - r) <? q))
      && admissible_values limits' used' reserved' requested'
  | _, _, _, _ => true
  end.
Definition quotaAdmissible (limit used reserved requested : Quota) : bool :=
  admissible_values (quota_values limit) (quota_values used) (quota_values reserved) (quota_values requested).

Definition quotaContains (total amount : Quota) : bool :=
  (Sessions amount <=? Sessions total) && (WorkspaceBytes amount <=? WorkspaceBytes total) && (BlobBytes amount <=? BlobBytes total)
  && (ArtifactBytes amount <=? ArtifactBytes total) && (ActiveSandboxes amount <=? ActiveSandboxes total)
  && (ModelTokens amount <=? ModelTokens total) && (ModelCostMicros amount <=? ModelCostMicros total).

Definition addQuota (l r : Quota) : Quota :=
  MkQuota (u64 (Sessions l + Sessions r)) (u64 (WorkspaceBytes l + WorkspaceBytes r)) (u64 (BlobBytes l + BlobBytes r))
    (u64 (ArtifactBytes l + ArtifactBytes r)) (u64 (ActiveSandboxes l + ActiveSandboxes r)) (u64 (ModelTokens l + ModelTokens r))
    (u64 (ModelCostMicros l + ModelCostMicros r)).
Definition subtractQuota (l r : Quota) : Quota :=
  MkQuota (u64 (Sessions l - Sessions r)) (u64 (WorkspaceBytes l - WorkspaceBytes r)) (u64 (BlobBytes l - BlobBytes r))
    (u64 (ArtifactBytes l - ArtifactBytes r)) (u64 (ActiveSandboxes l - ActiveSandboxes r)) (u64 (ModelTokens l - ModelTokens r))
    (u64 (ModelCostMicros l - ModelCostMicros r)).

Definition incrementVersion (current : Z) : res tenant_error Z :=
  if current =? u64_max then Err ErrVersionExhausted else Ok (u64 (current + 1)).

Definition policyRelaxes (current next : Policy) : bool :=
  let c := Limits current in let n := Limits next in
  (Sessions c <? Sessions n) || (WorkspaceBytes c <? WorkspaceBytes n) || (BlobBytes c <? BlobBytes n)
  || (ArtifactBytes c <? ArtifactBytes n) || (ActiveSandboxes c <? ActiveSandboxes n) || (ModelTokens c <? ModelTokens n)
  || (ModelCostMicros c <? ModelCostMicros n)
  || (CPUUnits (MinimumProfile next) <? CPUUnits (MinimumProfile current))
  || (MemoryBytes (MinimumProfile next) <? MemoryBytes (MinimumProfile current))
  || (CPUUnits (MaximumProfile current) <? CPUUnits (MaximumProfile next))
  || (MemoryBytes (MaximumProfile current) <? MemoryBytes (MaximumProfile next)).

Definition write_string (value : string) : bytes := be_bytes 8 (strlen value) ++ to_bytes value.
Definition write_quota (q : Quota) : bytes := concat (map (be_bytes 8) (quota_values q)).
Definition write_profile (p : ResourceProfile) : bytes := be_bytes 8 (CPUUnits p) ++ be_bytes 8 (MemoryBytes p).
Definition fingerprintOperation (operationID : ID) (o : operationIdentity) : string :=
  sha256_text (write_string "circulusd.tenant-operation.v1" ++ write_string (id_value operationID) ++ write_string (kind_text (op_kind o))
    ++ write_string (id_value (op_subjectID o)) ++ write_string (id_value (op_tenantID o))
    ++ write_string (id_value (op_workspaceID o)) ++ write_string (op_action o) ++ write_string (id_value (op_reservationID o))
    ++ write_quota (op_amount o) ++ write_profile (op_profile o) ++ write_string (in_ID (op_instance o))
    ++ be_bytes 8 (in_Generation (op_instance o)) ++ be_bytes 8 (op_reservationVersion o) ++ write_quota (Limits (op_policy o))
    ++ write_profile (MinimumProfile (op_policy o)) ++ write_profile (MaximumProfile (op_policy o))).

(** ** Authorisation *)
Definition authorizeLocked (repository : MemoryRepository) (request : AuthorizationRequest)
    : res tenant_error (AuthorizationDecision * tenantState) :=
  let resource := az_Resource request in
  match mr_tenants repository !! rs_TenantID resource with
  | None => Err ErrAccessDenied
  | Some state =>
      let decide role := Ok (MkAuthDecision role (ts_version state), state) in
      let uses := actionUsesWorkspace (az_Action request) in
      if uses && bool_decide (ts_workspaces state !! rs_WorkspaceID resource = None) then Err ErrAccessDenied
      else if bool_decide (az_Subject request ∈ mr_platformAdmins repository) then decide RolePlatformAdmin
      else match ts_members state !! az_Subject request with
      | None => Err ErrAccessDenied
      | Some tenantRole =>
          if negb uses then
            if (az_Action request == ActionTenantRead) || (tenantRole == RoleTenantAdmin) then decide tenantRole
            else Err ErrAccessDenied
          else if tenantRole == RoleTenantAdmin then decide RoleTenantAdmin
          else match default ∅ (ts_workspaces state !! rs_WorkspaceID resource) !! az_Subject request with
          | None => Err ErrAccessDenied
          | Some workspaceRole =>
              if (az_Action request == ActionWorkspaceManage) && (workspaceRole != RoleWorkspaceOwner) then Err ErrAccessDenied
              else decide workspaceRole
          end
      end
  end.

(** A context is the error it reports, if any. *)
Abbreviation Context := (option tenant_error) (only parsing).
Definition check_ctx (ctx : Context) : res tenant_error unit := match ctx with Some e => Err e | None => Ok tt end.

Definition Authorize (ctx : Context) (repository : MemoryRepository) (request : AuthorizationRequest)
    : res tenant_error AuthorizationDecision :=
  _ ← validateAuthorizationRequest request;
  _ ← check_ctx ctx;
  d ← authorizeLocked repository request;
  Ok d.1.

(** [None]: not found. *)
Definition replayLocked (repository : MemoryRepository) (operationID : ID) (requested : operationIdentity)
    : option (res tenant_error Receipt) :=
  existing ← mr_operations repository !! operationID;
  Some (if or_identity existing != requested then Err ErrOperationConflict else Ok (or_receipt existing)).

(** The writes at the end of a mutation: the tenant's new state and the receipt. *)
Definition commit (repository : MemoryRepository) (tenantID : ID) (state : tenantState) (operationID : ID)
    (operation : operationIdentity) (receipt : Receipt) : MemoryRepository :=
  MkRepository (mr_platformAdmins repository) (<[tenantID := state]> (mr_tenants repository))
    (<[operationID := MkOperationRecord operation receipt]> (mr_operations repository)).

(** A mutation: the receipt and what it commits, [None] for a replay. *)
Abbreviation Mutation := (res tenant_error (Receipt * option (tenantState * operationIdentity))) (only parsing).
Definition run_mutation (repository : MemoryRepository) (tenantID operationID : ID) (m : Mutation)
    : res tenant_error Receipt * MemoryRepository :=
  match m with
  | Err e => (Err e, repository)
  | Ok (receipt, None) => (Ok receipt, repository)
  | Ok (receipt, Some (state, operation)) => (Ok receipt, commit repository tenantID state operationID operation receipt)
  end.

(** ** Mutations *)
Definition reserve_mutation (ctx : Context) (repository : MemoryRepository) (request : ReserveRequest) : Mutation :=
  let resource := rv_Resource request in
  let authorization := MkAuthorization (rv_Subject request) resource (rv_Action request) in
  _ ← validateMutationHeader (rv_OperationID request) (rv_ExpectedVersion request);
  _ ← validateAuthorizationRequest authorization;
  _ ← check_ctx ctx;
  d ← authorizeLocked repository authorization;
  let state := d.2 in
  let operation := MkOperation OperationReserve (rv_Subject request) (rs_TenantID resource) (rs_WorkspaceID resource)
    (rv_Action request) (rv_OperationID request) (rv_Amount request) (rv_RequestedProfile request) (rv_Instance request) 0 no_policy in
  match replayLocked repository (rv_OperationID request) operation with
  | Some replay => receipt ← replay; Ok (receipt, None)
  | None =>
      _ ← validateReserveSemantics (rv_Action request) (rv_Amount request) (rv_RequestedProfile request) (rv_Instance request)
            (ts_policy state);
      _ ← reject_if (rv_ExpectedVersion request != ts_version state) ErrVersionConflict;
      _ ← reject_if (negb (quotaAdmissible (Limits (ts_policy state)) (ts_used state) (ts_reserved state) (rv_Amount request)))
            ErrQuotaExceeded;
      version ← incrementVersion (ts_version state);
      let record := MkReservation (rs_TenantID resource) (rs_WorkspaceID resource) (rv_Subject request) (rv_Action request)
        (rv_Amount request) (rv_RequestedProfile request) (rv_Instance request) version ReservationReserved in
      let receipt := MkReceipt (rv_OperationID request) OperationReserve (fingerprintOperation (rv_OperationID request) operation)
        (rv_Subject request) (rs_TenantID resource) (rs_WorkspaceID resource) (rv_Action request) (rv_OperationID request) version
        (rv_Amount request) (rv_Instance request) ReservationReserved version false "" in
      Ok (receipt, Some (MkTenantState version (ts_policy state) (ts_members state) (ts_workspaces state) (ts_used state)
            (addQuota (ts_reserved state) (rv_Amount request)) (<[rv_OperationID request := record]> (ts_reservations state)), operation))
  end.
Definition AuthorizeAndReserve (ctx : Context) (repository : MemoryRepository) (request : ReserveRequest)
    : res tenant_error Receipt * MemoryRepository :=
  run_mutation repository (rs_TenantID (rv_Resource request)) (rv_OperationID request) (reserve_mutation ctx repository request).

(** The proof is for this release of this incarnation. *)
Definition teardown_proves (request : TransitionRequest) (r : reservationRecord) (proof : TeardownReceipt) : bool :=
  (td_ReleaseOperationID proof == tq_OperationID request) && (td_ReservationID proof == tq_ReservationID request)
  && (td_ReservationVersion proof == re_version r) && (td_TenantID proof == re_tenantID r)
  && (td_WorkspaceID proof == re_workspaceID r) && (td_Action proof == re_action r) && (td_Instance proof == re_instance r)
  && td_Destroyed proof && (td_LifecycleGeneration proof == in_Generation (re_instance r)) && td_Durable proof
  && (td_Sequence proof != 0) && (td_ProofDigest proof != "").

(** The new used and reserved amounts and the reservation's state: the [switch kind]. *)
Definition consume_step (state : tenantState) (action : string) (r : reservationRecord)
    : res tenant_error (Quota * Quota * ReservationState) :=
  let used := ts_used state in
  let reserved := ts_reserved state in
  _ ← reject_if ((re_state r != ReservationReserved) || negb (quotaContains reserved (re_amount r))) ErrReservationState;
  _ ← validateReserveSemantics action (re_amount r) (re_profile r) (re_instance r) (ts_policy state);
  let remainingReserved := subtractQuota reserved (re_amount r) in
  _ ← reject_if (negb (quotaAdmissible (Limits (ts_policy state)) used remainingReserved (re_amount r))) ErrQuotaExceeded;
  Ok (addQuota used (re_amount r), remainingReserved, ReservationConsumed).
Definition release_step (state : tenantState) (request : TransitionRequest) (r : reservationRecord)
    : res tenant_error (Quota * Quota * ReservationState) :=
  let used := ts_used state in
  let reserved := ts_reserved state in
  match re_state r with
  | ReservationReserved =>
      _ ← reject_if (negb (quotaContains reserved (re_amount r))) ErrReservationState;
      Ok (used, subtractQuota reserved (re_amount r), ReservationReleased)
  | ReservationConsumed =>
      _ ← reject_if ((ModelTokens (re_amount r) != 0) || (ModelCostMicros (re_amount r) != 0)) ErrReservationState;
      match tq_releaseBinding request, tq_teardownPermit request with
      | Some binding, Some proof =>
          _ ← reject_if (negb (actionRequiresTeardown (re_action r)) || (rb_reservationVersion binding != re_version r)
                         || (rb_instance binding != re_instance r)) ErrTeardownUnproven;
          _ ← reject_if (negb (teardown_proves request r proof)) ErrTeardownUnproven;
          _ ← reject_if (negb (quotaContains used (re_amount r))) ErrReservationState;
          Ok (subtractQuota used (re_amount r), reserved, ReservationReleased)
      | _, _ => Err ErrTeardownUnproven
      end
  | _ => Err ErrReservationState
  end.

Definition transition_mutation (ctx : Context) (repository : MemoryRepository) (request : TransitionRequest) (kind : OperationKind)
    : Mutation :=
  let resource := tq_Resource request in
  let authorization := MkAuthorization (tq_Subject request) resource (tq_Action request) in
  _ ← validateMutationHeader (tq_OperationID request) (tq_ExpectedVersion request);
  _ ← reject_if (negb (validID (tq_ReservationID request) "op")) ErrInvalidRequest;
  _ ← validateAuthorizationRequest authorization;
  _ ← check_ctx ctx;
  d ← authorizeLocked repository authorization;
  let '(decision, state) := d in
  let binding := default (MkBinding 0 no_instance) (tq_releaseBinding request) in
  let operation := MkOperation kind (tq_Subject request) (rs_TenantID resource) (rs_WorkspaceID resource) (tq_Action request)
    (tq_ReservationID request) no_quota (MkProfile 0 0) (rb_instance binding) (rb_reservationVersion binding) no_policy in
  match replayLocked repository (tq_OperationID request) operation with
  | Some replay => receipt ← replay; Ok (receipt, None)
  | None =>
      _ ← reject_if (tq_ExpectedVersion request != ts_version state) ErrVersionConflict;
      match ts_reservations state !! tq_ReservationID request with
      | None => Err ErrReservationNotFound
      | Some r =>
          _ ← reject_if ((re_tenantID r != rs_TenantID resource) || (re_workspaceID r != rs_WorkspaceID resource)
                         || (re_action r != tq_Action request)) ErrReservationNotFound;
          _ ← reject_if ((re_subjectID r != tq_Subject request) && (ad_Role decision != RolePlatformAdmin)
                         && (ad_Role decision != RoleTenantAdmin) && (ad_Role decision != RoleWorkspaceOwner)) ErrAccessDenied;
          step ← match kind with
                 | OperationConsume => consume_step state (tq_Action request) r
                 | OperationRelease => release_step state request r
                 | _ => Err ErrInvalidRequest
                 end;
          let '(used, reserved, new_state) := step in
          version ← incrementVersion (ts_version state);
          let record := MkReservation (re_tenantID r) (re_workspaceID r) (re_subjectID r) (re_action r) (re_amount r) (re_profile r)
            (re_instance r) (re_version r) new_state in
          let digest := match kind, tq_teardownPermit request with
                        | OperationRelease, Some proof => td_ProofDigest proof
                        | _, _ => ""
                        end in
          let receipt := MkReceipt (tq_OperationID request) kind (fingerprintOperation (tq_OperationID request) operation)
            (tq_Subject request) (rs_TenantID resource) (rs_WorkspaceID resource) (tq_Action request) (tq_ReservationID request)
            (re_version r) (re_amount r) (re_instance r) new_state version false digest in
          Ok (receipt, Some (MkTenantState version (ts_policy state) (ts_members state) (ts_workspaces state) used reserved
                (<[tq_ReservationID request := record]> (ts_reservations state)), operation))
      end
  end.
Definition transition (ctx : Context) (repository : MemoryRepository) (request : TransitionRequest) (kind : OperationKind)
    : res tenant_error Receipt * MemoryRepository :=
  run_mutation repository (rs_TenantID (tq_Resource request)) (tq_OperationID request) (transition_mutation ctx repository request kind).
Definition Consume (ctx : Context) (repository : MemoryRepository) (request : TransitionRequest) :=
  transition ctx repository request OperationConsume.
Definition Release (ctx : Context) (repository : MemoryRepository) (request : TransitionRequest) :=
  transition ctx repository request OperationRelease.

Definition Recover (ctx : Context) (repository : MemoryRepository) (request : RecoveryRequest) : res tenant_error Recovery :=
  let resource := rr_Resource request in
  let authorization := MkAuthorization (rr_Subject request) resource (rr_Action request) in
  _ ← reject_if (negb (validID (rr_OperationID request) "op")) ErrInvalidRequest;
  _ ← validateAuthorizationRequest authorization;
  _ ← check_ctx ctx;
  d ← authorizeLocked repository authorization;
  let '(decision, state) := d in
  match mr_operations repository !! rr_OperationID request with
  | None => Err ErrReceiptNotFound
  | Some operation =>
      let receipt := or_receipt operation in
      _ ← reject_if ((rt_TenantID receipt != rs_TenantID resource) || (rt_WorkspaceID receipt != rs_WorkspaceID resource)
                     || (rt_Action receipt != rr_Action request)) ErrReceiptNotFound;
      _ ← reject_if ((rt_SubjectID receipt != rr_Subject request) && (ad_Role decision != RolePlatformAdmin)
                     && (ad_Role decision != RoleTenantAdmin) && (ad_Role decision != RoleWorkspaceOwner)) ErrAccessDenied;
      if validID (rt_ReservationID receipt) "op" then
        match ts_reservations state !! rt_ReservationID receipt with
        | None => Err ErrReservationNotFound
        | Some r => Ok (MkRecoveryResult receipt (re_state r) (ts_version state))
        end
      else Ok (MkRecoveryResult receipt (rt_State receipt) (ts_version state))
  end.

Definition tighten_mutation (ctx : Context) (repository : MemoryRepository) (request : TightenPolicyRequest) : Mutation :=
  let authorization := MkAuthorization (tp_Subject request) (MkResource (tp_TenantID request) no_id) ActionTenantManage in
  _ ← validateMutationHeader (tp_OperationID request) (tp_ExpectedVersion request);
  _ ← reject_if (negb (validID (tp_TenantID request) "tenant")) ErrInvalidRequest;
  _ ← validatePolicy (tp_Policy request);
  _ ← validateAuthorizationRequest authorization;
  _ ← check_ctx ctx;
  d ← authorizeLocked repository authorization;
  let state := d.2 in
  let operation := MkOperation OperationPolicyTighten (tp_Subject request) (tp_TenantID request) no_id ActionTenantManage no_id
    no_quota (MkProfile 0 0) no_instance 0 (tp_Policy request) in
  match replayLocked repository (tp_OperationID request) operation with
  | Some replay => receipt ← replay; Ok (receipt, None)
  | None =>
      _ ← reject_if (tp_ExpectedVersion request != ts_version state) ErrVersionConflict;
      _ ← reject_if (policyRelaxes (ts_policy state) (tp_Policy request)) ErrPolicyRelaxation;
      version ← incrementVersion (ts_version state);
      let receipt := MkReceipt (tp_OperationID request) OperationPolicyTighten (fingerprintOperation (tp_OperationID request) operation)
        (tp_Subject request) (tp_TenantID request) no_id ActionTenantManage no_id 0 no_quota no_instance NoReservation version false "" in
      Ok (receipt, Some (MkTenantState version (tp_Policy request) (ts_members state) (ts_workspaces state) (ts_used state)
            (ts_reserved state) (ts_reservations state), operation))
  end.
Definition TightenPolicy (ctx : Context) (repository : MemoryRepository) (request : TightenPolicyRequest)
    : res tenant_error Receipt * MemoryRepository :=
  run_mutation repository (tp_TenantID request) (tp_OperationID request) (tighten_mutation ctx repository request).

Definition repository_Snapshot (ctx : Context) (repository : MemoryRepository) (subject tenantID : ID) : res tenant_error Snapshot :=
  let authorization := MkAuthorization subject (MkResource tenantID no_id) ActionTenantManage in
  _ ← validateAuthorizationRequest authorization;
  _ ← check_ctx ctx;
  d ← authorizeLocked repository authorization;
  Ok (MkTenantSnapshot (ts_version d.2) (ts_policy d.2) (ts_used d.2) (ts_reserved d.2)).

(** ** Construction *)
Record Membership := MkMembership { mb_SubjectID : ID; mb_Role : string }.
Record WorkspaceGrant := MkGrant { wg_SubjectID : ID; wg_Role : string }.
Record WorkspaceACL := MkACL { wa_WorkspaceID : ID; wa_Grants : list WorkspaceGrant }.
Record TenantConfiguration := MkTenantConfiguration {
  tc_TenantID : ID; tc_Members : list Membership; tc_Workspaces : list WorkspaceACL; tc_Policy : Policy;
}.
Record Configuration := MkConfiguration { cf_PlatformAdmins : list ID; cf_Tenants : list TenantConfiguration }.

(** The loops of [NewMemoryRepository]; every error is [ErrInvalidConfiguration]. *)
Definition invalid {A} : res tenant_error A := Err ErrInvalidConfiguration.
Fixpoint add_admins (admins : gset ID) (subjects : list ID) : res tenant_error (gset ID) :=
  match subjects with
  | [] => Ok admins
  | s :: rest => if negb (validID s "subject") || bool_decide (s ∈ admins) then invalid else add_admins ({[s]} ∪ admins) rest
  end.
Fixpoint add_members (members : gmap ID string) (config : list Membership) : res tenant_error (gmap ID string) :=
  match config with
  | [] => Ok members
  | m :: rest =>
      if negb (validID (mb_SubjectID m) "subject") || ((mb_Role m != RoleTenantAdmin) && (mb_Role m != RoleUser))
         || bool_decide (is_Some (members !! mb_SubjectID m)) then invalid
      else add_members (<[mb_SubjectID m := mb_Role m]> members) rest
  end.
Fixpoint add_grants (members grants : gmap ID string) (config : list WorkspaceGrant) : res tenant_error (gmap ID string) :=
  match config with
  | [] => Ok grants
  | g :: rest =>
      if negb (validID (wg_SubjectID g) "subject") || ((wg_Role g != RoleWorkspaceOwner) && (wg_Role g != RoleWorkspaceMember))
         || bool_decide (members !! wg_SubjectID g = None) || bool_decide (is_Some (grants !! wg_SubjectID g)) then invalid
      else add_grants members (<[wg_SubjectID g := wg_Role g]> grants) rest
  end.
(** [assigned] is the key set of [workspaceTenants]. *)
Fixpoint add_workspaces (members : gmap ID string) (workspaces : gmap ID (gmap ID string)) (assigned : gset ID)
    (config : list WorkspaceACL) : res tenant_error (gmap ID (gmap ID string) * gset ID) :=
  match config with
  | [] => Ok (workspaces, assigned)
  | w :: rest =>
      if negb (validID (wa_WorkspaceID w) "ws") || bool_decide (is_Some (workspaces !! wa_WorkspaceID w))
         || bool_decide (wa_WorkspaceID w ∈ assigned) then invalid
      else
        grants ← add_grants members ∅ (wa_Grants w);
        add_workspaces members (<[wa_WorkspaceID w := grants]> workspaces) ({[wa_WorkspaceID w]} ∪ assigned) rest
  end.
Fixpoint add_tenants (tenants : gmap ID tenantState) (assigned : gset ID) (config : list TenantConfiguration)
    : res tenant_error (gmap ID tenantState) :=
  match config with
  | [] => Ok tenants
  | c :: rest =>
      if negb (validID (tc_TenantID c) "tenant") || bool_decide (is_Some (tenants !! tc_TenantID c)) then invalid
      else
        _ ← wrap_err ErrInvalidConfiguration (validatePolicy (tc_Policy c));
        members ← add_members ∅ (tc_Members c);
        wa ← add_workspaces members ∅ assigned (tc_Workspaces c);
        add_tenants (<[tc_TenantID c := MkTenantState 1 (tc_Policy c) members wa.1 no_quota no_quota ∅]> tenants) wa.2 rest
  end.
Definition NewMemoryRepository (configuration : Configuration) : res tenant_error MemoryRepository :=
  if bool_decide (cf_Tenants configuration = []) then invalid
  else
    admins ← add_admins ∅ (cf_PlatformAdmins configuration);
    tenants ← add_tenants ∅ ∅ (cf_Tenants configuration);
    Ok (MkRepository admins tenants ∅).

(** ** The service ([service.go]) over the reference repository *)
Record ReleaseRequest := MkRelease {
  rl_OperationID : ID;
  rl_ExpectedVersion : Z;
  rl_ReservationID : ID;
  rl_ReservationVersion : Z;
  rl_Subject : ID;
  rl_Resource : Resource;
  rl_Action : string;
  rl_Instance : ResourceInstance;
}.
Record TeardownVerificationRequest := MkVerification {
  vq_ReleaseOperationID : ID;
  vq_ReservationID : ID;
  vq_ReservationVersion : Z;
  vq_TenantID : ID;
  vq_WorkspaceID : ID;
  vq_Action : string;
  vq_Instance : ResourceInstance;
}.

(** What the release meets: the context at each of its checks, the lifecycle owner. *)
Record ServiceEnv := MkServiceEnv {
  sv_ctx : Context;
  sv_ctx_repository : Context;
  sv_ctx_after : Context;
  sv_ctx_release : Context;
  sv_VerifyTeardown : TeardownVerificationRequest -> option TeardownReceipt;
}.

(** The receipt of an earlier release of this request; the reference repository's
    receipts are accepted without durability. *)
Definition replayed_release (request : ReleaseRequest) (recovery : Recovery) : res tenant_error Receipt :=
  let receipt := rc_Receipt recovery in
  _ ← reject_if ((rt_OperationID receipt != rl_OperationID request) || (rt_Kind receipt != OperationRelease)
                 || (rt_SubjectID receipt != rl_Subject request) || (rt_TenantID receipt != rs_TenantID (rl_Resource request))
                 || (rt_WorkspaceID receipt != rs_WorkspaceID (rl_Resource request)) || (rt_Action receipt != rl_Action request)
                 || (rt_ReservationID receipt != rl_ReservationID request)
                 || (rt_ReservationVersion receipt != rl_ReservationVersion request)
                 || (rt_Instance receipt != rl_Instance request)) ErrOperationConflict;
  _ ← reject_if ((rt_State receipt != ReservationReleased) || (rc_CurrentState recovery != ReservationReleased)
                 || negb (matches_sha256 (rt_TeardownProofDigest receipt))) ErrTeardownUnproven;
  Ok receipt.

Definition proof_matches (v : TeardownVerificationRequest) (proof : TeardownReceipt) : bool :=
  (td_ReleaseOperationID proof == vq_ReleaseOperationID v) && (td_ReservationID proof == vq_ReservationID v)
  && (td_ReservationVersion proof == vq_ReservationVersion v) && (td_TenantID proof == vq_TenantID v)
  && (td_WorkspaceID proof == vq_WorkspaceID v) && (td_Action proof == vq_Action v) && (td_Instance proof == vq_Instance v)
  && td_Destroyed proof && (td_LifecycleGeneration proof == in_Generation (vq_Instance v)) && td_Durable proof
  && (td_Sequence proof != 0) && matches_sha256 (td_ProofDigest proof).

Definition release_checks (env : ServiceEnv) (repository : MemoryRepository) (request : ReleaseRequest)
    : res tenant_error (Receipt + TransitionRequest) :=
  let authorization := MkAuthorization (rl_Subject request) (rl_Resource request) (rl_Action request) in
  _ ← validateMutationHeader (rl_OperationID request) (rl_ExpectedVersion request);
  _ ← reject_if (negb (validID (rl_ReservationID request) "op") || (rl_ReservationVersion request =? 0)) ErrInvalidRequest;
  _ ← validateAuthorizationRequest authorization;
  _ ← reject_if (negb (actionRequiresTeardown (rl_Action request)) || negb (validResourceInstance (rl_Instance request)))
        ErrInvalidRequest;
  _ ← check_ctx (sv_ctx env);
  _ ← Authorize (sv_ctx_repository env) repository authorization;
  match Recover (sv_ctx_repository env) repository
          (MkRecovery (rl_OperationID request) (rl_Subject request) (rl_Resource request) (rl_Action request)) with
  | Ok recovery => receipt ← replayed_release request recovery; Ok (inl receipt)
  | Err ErrReceiptNotFound =>
      let v := MkVerification (rl_OperationID request) (rl_ReservationID request) (rl_ReservationVersion request)
        (rs_TenantID (rl_Resource request)) (rs_WorkspaceID (rl_Resource request)) (rl_Action request) (rl_Instance request) in
      match sv_VerifyTeardown env v with
      | None => match sv_ctx_after env with Some e => Err e | None => Err ErrTeardownUnproven end
      | Some proof =>
          _ ← check_ctx (sv_ctx_after env);
          _ ← reject_if (negb (proof_matches v proof)) ErrTeardownUnproven;
          Ok (inr (MkTransition (rl_OperationID request) (rl_ExpectedVersion request) (rl_ReservationID request)
                (rl_Subject request) (rl_Resource request) (rl_Action request)
                (Some (MkBinding (rl_ReservationVersion request) (rl_Instance request))) (Some proof)))
      end
  | Err e => Err e
  end.

Definition Service_Release (env : ServiceEnv) (repository : MemoryRepository) (request : ReleaseRequest)
    : res tenant_error Receipt * MemoryRepository :=
  match release_checks env repository request with
  | Err e => (Err e, repository)
  | Ok (inl receipt) => (Ok receipt, repository)
  | Ok (inr transition) =>
      let '(answer, repository') := Release (sv_ctx_release env) repository transition in
      (receipt ← answer;
       _ ← reject_if ((rt_State receipt != ReservationReleased) || (rt_ReservationID receipt != rl_ReservationID request)
                      || (rt_ReservationVersion receipt != rl_ReservationVersion request)
                      || (rt_Instance receipt != rl_Instance request)
                      || (rt_TeardownProofDigest receipt
                          != match tq_teardownPermit transition with Some proof => td_ProofDigest proof | None => "" end))
             ErrTeardownUnproven;
       Ok receipt, repository')
  end.
