(* ===== verification/TenantProofs.v ===== *)
(** * Tenant quota: accounting

    What is used and reserved is the sum of the live reservations, within the limits,
    without overflow; operations take effect once; what was spent is not refunded. *)

From S2P Require Import Prelude MapSums GoText GoCrypto Identity Tenant.
#[local] Open Scope string_scope.
#[local] Open Scope list_scope.
#[local] Open Scope Z_scope.
#[local] Open Scope go_scope.

(** ** Dimensions *)
Inductive Dim := DSessions | DWorkspaceBytes | DBlobBytes | DArtifactBytes | DActiveSandboxes | DModelTokens | DModelCost.
Definition dim (d : Dim) (q : Quota) : Z :=
  match d with
  | DSessions => Sessions q | DWorkspaceBytes => WorkspaceBytes q | DBlobBytes => BlobBytes q | DArtifactBytes => ArtifactBytes q
  | DActiveSandboxes => ActiveSandboxes q | DModelTokens => ModelTokens q | DModelCost => ModelCostMicros q
  end.

Lemma forall_dim (P : Dim -> Prop) :
  (forall d, P d) <-> P DSessions /\ P DWorkspaceBytes /\ P DBlobBytes /\ P DArtifactBytes /\ P DActiveSandboxes /\
                      P DModelTokens /\ P DModelCost.
Proof. split; [auto 8|]. intros H []; tauto. Qed.

(** A [uint64] quota. *)
Definition quota_typed (q : Quota) : Prop := forall d, is_u64 (dim d q).

Lemma dim_add d a b : dim d (addQuota a b) = u64 (dim d a + dim d b).
Proof. by destruct d. Qed.
Lemma dim_subtract d a b : dim d (subtractQuota a b) = u64 (dim d a - dim d b).
Proof. by destruct d. Qed.

Lemma quotaContains_iff a b : quotaContains a b = true <-> forall d, dim d b <= dim d a.
Proof. unfold quotaContains. rewrite forall_dim. bools. simpl. tauto. Qed.

Lemma admissible_one m u r q : is_u64 m -> is_u64 u -> is_u64 r -> is_u64 q ->
  negb ((m <? u) || (u64 (m - u) <? r) || (u64 (u64 (m - u) - r) <? q)) = true <-> u + r + q <= m.
Proof.
  unfold is_u64. intros Hm Hu Hr Hq. bools. split.
  - intros [[H1 H2] H3]. rewrite (u64_id (m - u)) in H2, H3 by (unfold is_u64; lia).
    rewrite u64_id in H3 by (unfold is_u64; lia). lia.
  - intros H. rewrite (u64_id (m - u)) by (unfold is_u64; lia). rewrite u64_id by (unfold is_u64; lia). lia.
Qed.

Lemma quotaAdmissible_iff limit used reserved amount :
  quota_typed limit -> quota_typed used -> quota_typed reserved -> quota_typed amount ->
  quotaAdmissible limit used reserved amount = true <-> forall d, dim d used + dim d reserved + dim d amount <= dim d limit.
Proof.
  intros Hl Hu Hr Ha. unfold quotaAdmissible. cbn [quota_values admissible_values]. rewrite !andb_true_iff.
  rewrite (admissible_one _ _ _ _ (Hl DSessions) (Hu DSessions) (Hr DSessions) (Ha DSessions)).
  rewrite (admissible_one _ _ _ _ (Hl DWorkspaceBytes) (Hu DWorkspaceBytes) (Hr DWorkspaceBytes) (Ha DWorkspaceBytes)).
  rewrite (admissible_one _ _ _ _ (Hl DBlobBytes) (Hu DBlobBytes) (Hr DBlobBytes) (Ha DBlobBytes)).
  rewrite (admissible_one _ _ _ _ (Hl DArtifactBytes) (Hu DArtifactBytes) (Hr DArtifactBytes) (Ha DArtifactBytes)).
  rewrite (admissible_one _ _ _ _ (Hl DActiveSandboxes) (Hu DActiveSandboxes) (Hr DActiveSandboxes) (Ha DActiveSandboxes)).
  rewrite (admissible_one _ _ _ _ (Hl DModelTokens) (Hu DModelTokens) (Hr DModelTokens) (Ha DModelTokens)).
  rewrite (admissible_one _ _ _ _ (Hl DModelCost) (Hu DModelCost) (Hr DModelCost) (Ha DModelCost)).
  rewrite forall_dim. simpl. tauto.
Qed.

(** The amount of the reservations in a state. *)
Definition held (d : Dim) (st : ReservationState) (r : reservationRecord) : Z := if re_state r == st then dim d (re_amount r) else 0.
Definition total (d : Dim) (st : ReservationState) (m : gmap ID reservationRecord) : Z := msum (held d st) m.

(** ** The invariant *)
Definition tighter (p q : Policy) : Prop := policyRelaxes q p = false.

Lemma tighter_refl p : tighter p p.
Proof. unfold tighter, policyRelaxes. rewrite !Z.ltb_irrefl. done. Qed.
Lemma tighter_limits p q : tighter p q -> forall d, dim d (Limits p) <= dim d (Limits q).
Proof. unfold tighter, policyRelaxes. intros H. bools in H. rewrite forall_dim. simpl. tauto. Qed.
Lemma tighter_trans p q r : tighter p q -> tighter q r -> tighter p r.
Proof. unfold tighter, policyRelaxes. intros H1 H2. bools in H1. bools in H2. bools. lia. Qed.

(** The tenant's accounts, from its configured policy [initial]. *)
Record tenant_ok (initial : Policy) (s : tenantState) : Prop := MkTenantOk {
  ok_policy : quota_typed (Limits (ts_policy s));
  ok_tighter : tighter (ts_policy s) initial;
  ok_amounts : forall k r, ts_reservations s !! k = Some r -> quota_typed (re_amount r);
  ok_used : forall d, dim d (ts_used s) = total d ReservationConsumed (ts_reservations s);
  ok_reserved : forall d, dim d (ts_reserved s) = total d ReservationReserved (ts_reservations s);
  ok_bound : forall d, dim d (ts_used s) + dim d (ts_reserved s) <= dim d (Limits initial);
  ok_version : 1 <= ts_version s <= u64_max;
}.

(** The configured limits are within the durable range. *)
Definition initial_ok (initial : Policy) : Prop := forall d, 0 <= dim d (Limits initial) <= MaximumAmount.

Lemma held_nonneg d st (m : gmap ID reservationRecord) : (forall k r, m !! k = Some r -> quota_typed (re_amount r)) ->
  forall k r, m !! k = Some r -> 0 <= held d st r.
Proof. intros Ht k r Hk. unfold held. specialize (Ht _ _ Hk d). unfold is_u64 in Ht. destruct (re_state r == st); lia. Qed.

Lemma ok_typed initial s : initial_ok initial -> tenant_ok initial s -> quota_typed (ts_used s) /\ quota_typed (ts_reserved s).
Proof.
  intros Hi Hs. assert (Hb : forall d, 0 <= dim d (ts_used s) /\ 0 <= dim d (ts_reserved s)).
  { intros d. rewrite (ok_used _ _ Hs), (ok_reserved _ _ Hs). split; apply msum_nonneg, held_nonneg, (ok_amounts _ _ Hs). }
  split; intros d; destruct (Hb d); pose proof (ok_bound _ _ Hs d); pose proof (Hi d) as Hm; unfold MaximumAmount in Hm;
    unfold is_u64; lia.
Qed.

Lemma incrementVersion_ok v v' : 1 <= v <= u64_max -> incrementVersion v = Ok v' -> v' = v + 1 /\ 1 <= v' <= u64_max.
Proof.
  unfold incrementVersion, u64_max. intros Hv. destruct (Z.eqb_spec v (2 ^ 64 - 1)); [done|]. intros [= <-].
  rewrite u64_id; unfold is_u64; lia.
Qed.

Definition with_state (r : reservationRecord) (st : ReservationState) : reservationRecord :=
  MkReservation (re_tenantID r) (re_workspaceID r) (re_subjectID r) (re_action r) (re_amount r) (re_profile r) (re_instance r)
    (re_version r) st.

(** ** Mutations of one tenant *)
Section Tenant.
Context (initial : Policy) (Hinitial : initial_ok initial).
#[local] Set Default Proof Using "Type*".

Lemma reserve_ok s version key record :
  tenant_ok initial s -> 1 <= version <= u64_max -> ts_reservations s !! key = None -> quota_typed (re_amount record) ->
  re_state record = ReservationReserved ->
  quotaAdmissible (Limits (ts_policy s)) (ts_used s) (ts_reserved s) (re_amount record) = true ->
  tenant_ok initial (MkTenantState version (ts_policy s) (ts_members s) (ts_workspaces s) (ts_used s)
    (addQuota (ts_reserved s) (re_amount record)) (<[key := record]> (ts_reservations s))).
Proof.
  intros Hs Hv Hfresh Ht Hst Hadm. destruct (ok_typed _ _ Hinitial Hs) as [Hu Hr].
  rewrite quotaAdmissible_iff in Hadm; [|apply Hs|done..].
  assert (Hadd : forall d, dim d (addQuota (ts_reserved s) (re_amount record)) = dim d (ts_reserved s) + dim d (re_amount record)).
  { intros d. rewrite dim_add. apply u64_id. specialize (Hadm d). pose proof (ok_policy _ _ Hs d) as Hp. pose proof (Hu d). pose proof (Hr d).
    pose proof (Ht d). unfold is_u64 in *. lia. }
  constructor; simpl; try apply Hs; try done.
  - intros k r [[<- <-]|[_ Hk]]%lookup_insert_Some; [done|]. by apply (ok_amounts _ _ Hs k).
  - intros d. unfold total. rewrite msum_insert by done. unfold held at 1. rewrite Hst. simpl. apply (ok_used _ _ Hs).
  - intros d. unfold total. rewrite msum_insert by done. unfold held at 1. rewrite Hst, bool_decide_true by done. rewrite Hadd.
    pose proof (ok_reserved _ _ Hs d) as Hres. unfold total in Hres. lia.
  - intros d. rewrite Hadd. pose proof (tighter_limits _ _ (ok_tighter _ _ Hs) d). specialize (Hadm d). lia.
Qed.

Lemma move_ok s version key r st used reserved :
  tenant_ok initial s -> 1 <= version <= u64_max -> ts_reservations s !! key = Some r ->
  (forall d, dim d used = dim d (ts_used s) - held d ReservationConsumed r + held d ReservationConsumed (with_state r st)) ->
  (forall d, dim d reserved = dim d (ts_reserved s) - held d ReservationReserved r + held d ReservationReserved (with_state r st)) ->
  (forall d, dim d used + dim d reserved <= dim d (Limits initial)) ->
  tenant_ok initial (MkTenantState version (ts_policy s) (ts_members s) (ts_workspaces s) used reserved
    (<[key := with_state r st]> (ts_reservations s))).
Proof.
  intros Hs Hv Hr Hused Hreserved Hbound. constructor; simpl; try apply Hs; try done.
  - intros k r' [[<- <-]|[_ Hk]]%lookup_insert_Some; [exact (ok_amounts _ _ Hs key r Hr)|by apply (ok_amounts _ _ Hs k)].
  - intros d. rewrite Hused, (ok_used _ _ Hs). unfold total. by rewrite (msum_update _ _ _ _ _ Hr).
  - intros d. rewrite Hreserved, (ok_reserved _ _ Hs). unfold total. by rewrite (msum_update _ _ _ _ _ Hr).
Qed.

(** What a reservation holds is part of the total. *)
Lemma held_le s key r d : tenant_ok initial s -> ts_reservations s !! key = Some r ->
  (re_state r = ReservationReserved -> dim d (re_amount r) <= dim d (ts_reserved s)) /\
  (re_state r = ReservationConsumed -> dim d (re_amount r) <= dim d (ts_used s)).
Proof.
  intros Hs Hr. assert (Hn := fun st => held_nonneg d st _ (ok_amounts _ _ Hs)). split; intros Hst.
  - rewrite (ok_reserved _ _ Hs). pose proof (msum_contains _ _ _ _ (Hn ReservationReserved) Hr) as H.
    unfold held at 1 in H. by rewrite Hst, bool_decide_true in H.
  - rewrite (ok_used _ _ Hs). pose proof (msum_contains _ _ _ _ (Hn ReservationConsumed) Hr) as H.
    unfold held at 1 in H. by rewrite Hst, bool_decide_true in H.
Qed.

Lemma add_exact a b d : quota_typed a -> quota_typed b -> dim d a + dim d b <= dim d (Limits initial) ->
  dim d (addQuota a b) = dim d a + dim d b.
Proof.
  intros Ha Hb Hle. rewrite dim_add. apply u64_id. pose proof (Hinitial d) as Hi. unfold MaximumAmount in Hi.
  specialize (Ha d). specialize (Hb d). unfold is_u64 in *. lia.
Qed.
Lemma subtract_exact a b d : quota_typed a -> quota_typed b -> dim d b <= dim d a -> dim d (subtractQuota a b) = dim d a - dim d b.
Proof. intros Ha Hb Hle. rewrite dim_subtract. apply u64_id. specialize (Ha d). specialize (Hb d). unfold is_u64 in *. lia. Qed.

Lemma consume_ok s version key r action used reserved st :
  tenant_ok initial s -> 1 <= version <= u64_max -> ts_reservations s !! key = Some r ->
  consume_step s action r = Ok (used, reserved, st) ->
  st = ReservationConsumed /\
  (forall d, dim d used = dim d (ts_used s) + dim d (re_amount r)) /\
  tenant_ok initial (MkTenantState version (ts_policy s) (ts_members s) (ts_workspaces s) used reserved
    (<[key := with_state r st]> (ts_reservations s))).
Proof.
  intros Hs Hv Hr Hstep. destruct (ok_typed _ _ Hinitial Hs) as [Hu Hre]. pose proof (ok_amounts _ _ Hs _ _ Hr) as Ha.
  unfold consume_step in Hstep. apply reject_if_ok in Hstep as [H1 Hstep]. apply bind_ok in Hstep as (_ & _ & Hstep).
  apply reject_if_ok in Hstep as [_ Hstep]. injection Hstep as <- <- <-. bools in H1. destruct H1 as [Hst Hc].
  rewrite quotaContains_iff in Hc.
  assert (Hadd : forall d, dim d (addQuota (ts_used s) (re_amount r)) = dim d (ts_used s) + dim d (re_amount r)).
  { intros d. apply add_exact; [done..|]. pose proof (ok_bound _ _ Hs d). specialize (Hc d). lia. }
  assert (Hsub : forall d, dim d (subtractQuota (ts_reserved s) (re_amount r)) = dim d (ts_reserved s) - dim d (re_amount r)).
  { intros d. by apply subtract_exact. }
  split; [done|]. split; [done|]. apply move_ok; try done; intros d; rewrite ?Hadd, ?Hsub; unfold held; cbn [with_state re_state re_amount];
    rewrite ?Hst; simpl; rewrite ?bool_decide_true by done; try lia.
  pose proof (ok_bound _ _ Hs d). lia.
Qed.

(** What a release gives back. *)
Definition refunded (r : reservationRecord) (d : Dim) : Z := held d ReservationConsumed r.

Lemma tenant_release_ok s version key r request used reserved st :
  tenant_ok initial s -> 1 <= version <= u64_max -> ts_reservations s !! key = Some r ->
  release_step s request r = Ok (used, reserved, st) ->
  st = ReservationReleased /\ (forall d, dim d used = dim d (ts_used s) - refunded r d) /\
  (re_state r = ReservationConsumed -> ModelTokens (re_amount r) = 0 /\ ModelCostMicros (re_amount r) = 0 /\
     exists proof, tq_teardownPermit request = Some proof /\ teardown_proves request r proof = true) /\
  tenant_ok initial (MkTenantState version (ts_policy s) (ts_members s) (ts_workspaces s) used reserved
    (<[key := with_state r st]> (ts_reservations s))).
Proof.
  intros Hs Hv Hr Hstep. destruct (ok_typed _ _ Hinitial Hs) as [Hu Hre]. pose proof (ok_amounts _ _ Hs _ _ Hr) as Ha.
  unfold release_step in Hstep. destruct (re_state r) eqn:Hst; try done.
  - apply reject_if_ok in Hstep as [H1 Hstep]. injection Hstep as <- <- <-. rewrite negb_false_iff, quotaContains_iff in H1. rename H1 into Hc.
    assert (Hsub : forall d, dim d (subtractQuota (ts_reserved s) (re_amount r)) = dim d (ts_reserved s) - dim d (re_amount r)).
    { intros d. by apply subtract_exact. }
    split; [done|]. split; [intros d; unfold refunded, held; rewrite Hst; simpl; lia|]. split; [done|].
    apply move_ok; try done; intros d; rewrite ?Hsub; unfold held; cbn [with_state re_state re_amount]; rewrite ?Hst; simpl;
      rewrite ?bool_decide_true by done; try lia. pose proof (ok_bound _ _ Hs d). specialize (Ha d). unfold is_u64 in Ha. lia.
  - apply reject_if_ok in Hstep as [H1 Hstep]. destruct (tq_releaseBinding request), (tq_teardownPermit request) as [proof|]; try done.
    apply reject_if_ok in Hstep as [H2 Hstep]. apply reject_if_ok in Hstep as [H3 Hstep]. apply reject_if_ok in Hstep as [H4 Hstep].
    injection Hstep as <- <- <-. bools in H1. apply negb_false_iff in H3. rewrite negb_false_iff, quotaContains_iff in H4. rename H4 into Hc.
    assert (Hsub : forall d, dim d (subtractQuota (ts_used s) (re_amount r)) = dim d (ts_used s) - dim d (re_amount r)).
    { intros d. by apply subtract_exact. }
    split; [done|]. split; [intros d; rewrite Hsub; unfold refunded, held; rewrite Hst, bool_decide_true by done; lia|].
    split; [intros _; split; [tauto|]; split; [tauto|]; eauto|].
    apply move_ok; try done; intros d; rewrite ?Hsub; unfold held; cbn [with_state re_state re_amount]; rewrite ?Hst; simpl;
      rewrite ?bool_decide_true by done; try lia. pose proof (ok_bound _ _ Hs d). specialize (Ha d). unfold is_u64 in Ha. lia.
Qed.
End Tenant.

(** ** Operations on the repository *)
Inductive tenant_op :=
| OpReserve (ctx : option tenant_error) (request : ReserveRequest)
| OpConsume (ctx : option tenant_error) (request : TransitionRequest)
| OpRelease (ctx : option tenant_error) (request : TransitionRequest)
| OpTighten (ctx : option tenant_error) (request : TightenPolicyRequest)
| OpService (env : ServiceEnv) (request : ReleaseRequest).

Definition exec_tenant (repository : MemoryRepository) (op : tenant_op) : res tenant_error Receipt * MemoryRepository :=
  match op with
  | OpReserve ctx request => AuthorizeAndReserve ctx repository request
  | OpConsume ctx request => Consume ctx repository request
  | OpRelease ctx request => Release ctx repository request
  | OpTighten ctx request => TightenPolicy ctx repository request
  | OpService env request => Service_Release env repository request
  end.
Definition run_tenant (repository : MemoryRepository) (ops : list tenant_op) : MemoryRepository :=
  fold_left (fun r op => (exec_tenant r op).2) ops repository.

(** The amounts of a request are [uint64]s. *)
Definition op_typed (op : tenant_op) : Prop :=
  match op with
  | OpReserve _ request => quota_typed (rv_Amount request)
  | OpTighten _ request => quota_typed (Limits (tp_Policy request))
  | _ => True
  end.

(** The tenant an operation is for, and the release it asks the repository for. *)
Definition op_tenant (op : tenant_op) : ID :=
  match op with
  | OpReserve _ request => rs_TenantID (rv_Resource request)
  | OpConsume _ request | OpRelease _ request => rs_TenantID (tq_Resource request)
  | OpTighten _ request => tp_TenantID request
  | OpService _ request => rs_TenantID (rl_Resource request)
  end.
Definition op_release (repository : MemoryRepository) (op : tenant_op) : option TransitionRequest :=
  match op with
  | OpRelease _ request => Some request
  | OpService env request => match release_checks env repository request with Ok (inr tr) => Some tr | _ => None end
  | _ => None
  end.

(** What a mutation does to the tenant it is for; [release] is the release it makes. *)
Inductive tenant_step (key : ID) (release : option TransitionRequest) : tenantState -> tenantState -> Prop :=
| step_reserve s version record :
    incrementVersion (ts_version s) = Ok version -> re_state record = ReservationReserved -> quota_typed (re_amount record) ->
    quotaAdmissible (Limits (ts_policy s)) (ts_used s) (ts_reserved s) (re_amount record) = true ->
    tenant_step key release s (MkTenantState version (ts_policy s) (ts_members s) (ts_workspaces s) (ts_used s)
      (addQuota (ts_reserved s) (re_amount record)) (<[key := record]> (ts_reservations s)))
| step_consume s version k r action used reserved st :
    incrementVersion (ts_version s) = Ok version -> ts_reservations s !! k = Some r ->
    consume_step s action r = Ok (used, reserved, st) ->
    tenant_step key release s (MkTenantState version (ts_policy s) (ts_members s) (ts_workspaces s) used reserved
      (<[k := with_state r st]> (ts_reservations s)))
| step_release s version r request used reserved st :
    incrementVersion (ts_version s) = Ok version -> ts_reservations s !! tq_ReservationID request = Some r -> release = Some request ->
    release_step s request r = Ok (used, reserved, st) ->
    tenant_step key release s (MkTenantState version (ts_policy s) (ts_members s) (ts_workspaces s) used reserved
      (<[tq_ReservationID request := with_state r st]> (ts_reservations s)))
| step_tighten s version policy :
    incrementVersion (ts_version s) = Ok version -> policyRelaxes (ts_policy s) policy = false -> quota_typed (Limits policy) ->
    tenant_step key release s
      (MkTenantState version policy (ts_members s) (ts_workspaces s) (ts_used s) (ts_reserved s) (ts_reservations s)).

Lemma authorizeLocked_state repository request decision state :
  authorizeLocked repository request = Ok (decision, state) ->
  mr_tenants repository !! rs_TenantID (az_Resource request) = Some state.
Proof. unfold authorizeLocked. intros H. repeat case_match; simplify_eq; done. Qed.

Lemma replayLocked_none repository key operation :
  replayLocked repository key operation = None -> mr_operations repository !! key = None.
Proof. unfold replayLocked. by destruct (mr_operations repository !! key). Qed.

(** A mutation leaves the repository, or commits one step of its tenant under an
    operation key not used before. *)
Inductive repo_step (repository : MemoryRepository) (tenantID : ID) (release : option TransitionRequest)
    : res tenant_error Receipt * MemoryRepository -> Prop :=
| repo_same answer : repo_step repository tenantID release (answer, repository)
| repo_commit s s' key operation receipt :
    mr_tenants repository !! tenantID = Some s -> mr_operations repository !! key = None -> tenant_step key release s s' ->
    repo_step repository tenantID release (Ok receipt, commit repository tenantID s' key operation receipt).

Lemma reserve_repo_step ctx repository request :
  quota_typed (rv_Amount request) ->
  repo_step repository (rs_TenantID (rv_Resource request)) None (AuthorizeAndReserve ctx repository request).
Proof.
  intros Ht. unfold AuthorizeAndReserve, run_mutation. destruct (reserve_mutation ctx repository request) as [[receipt next]|e] eqn:Hm;
    [|constructor]. destruct next as [[s' operation]|]; [|constructor].
  unfold reserve_mutation in Hm. do 3 (apply bind_ok in Hm as ([] & _ & Hm)). apply bind_ok in Hm as ([decision s] & Ha & Hm).
  apply authorizeLocked_state in Ha. cbn [snd] in Hm.
  destruct (replayLocked _ _ _) as [replay|] eqn:Hr; [by apply bind_ok in Hm as (? & _ & ?)|].
  apply bind_ok in Hm as ([] & _ & Hm). apply reject_if_ok in Hm as [_ Hm]. apply reject_if_ok in Hm as [Hq Hm].
  apply bind_ok in Hm as (version & Hv & Hm). injection Hm as <- <- <-. apply negb_false_iff in Hq.
  eapply repo_commit; [exact Ha|by eapply replayLocked_none|].
  refine (step_reserve _ _ s version (MkReservation _ _ _ _ (rv_Amount request) _ _ _ _) Hv eq_refl Ht Hq).
Qed.

Lemma transition_repo_step ctx repository request kind :
  repo_step repository (rs_TenantID (tq_Resource request)) (if kind == OperationRelease then Some request else None)
    (transition ctx repository request kind).
Proof.
  unfold transition, run_mutation. destruct (transition_mutation ctx repository request kind) as [[receipt next]|e] eqn:Hm; [|constructor].
  destruct next as [[s' operation]|]; [|constructor]. unfold transition_mutation in Hm.
  apply bind_ok in Hm as ([] & _ & Hm). apply reject_if_ok in Hm as [_ Hm]. do 2 (apply bind_ok in Hm as ([] & _ & Hm)).
  apply bind_ok in Hm as ([decision s] & Ha & Hm). apply authorizeLocked_state in Ha.
  destruct (replayLocked _ _ _) as [replay|] eqn:Hr; [by apply bind_ok in Hm as (? & _ & ?)|].
  apply reject_if_ok in Hm as [_ Hm]. destruct (ts_reservations s !! _) as [r|] eqn:Hres; [|done].
  apply reject_if_ok in Hm as [_ Hm]. apply reject_if_ok in Hm as [_ Hm]. apply bind_ok in Hm as ([[used reserved] st] & Hstep & Hm).
  apply bind_ok in Hm as (version & Hv & Hm). injection Hm as <- <- <-.
  eapply repo_commit; [exact Ha|by eapply replayLocked_none|].
  destruct kind; try done; [by eapply step_consume|by eapply step_release].
Qed.

Lemma tighten_repo_step ctx repository request :
  quota_typed (Limits (tp_Policy request)) -> repo_step repository (tp_TenantID request) None (TightenPolicy ctx repository request).
Proof.
  intros Ht. unfold TightenPolicy, run_mutation. destruct (tighten_mutation ctx repository request) as [[receipt next]|e] eqn:Hm;
    [|constructor]. destruct next as [[s' operation]|]; [|constructor]. unfold tighten_mutation in Hm.
  apply bind_ok in Hm as ([] & _ & Hm). apply reject_if_ok in Hm as [_ Hm]. do 3 (apply bind_ok in Hm as ([] & _ & Hm)).
  apply bind_ok in Hm as ([decision s] & Ha & Hm). apply authorizeLocked_state in Ha. cbn [snd] in Hm.
  destruct (replayLocked _ _ _) as [replay|] eqn:Hr; [by apply bind_ok in Hm as (? & _ & ?)|].
  apply reject_if_ok in Hm as [_ Hm]. apply reject_if_ok in Hm as [Hp Hm]. apply bind_ok in Hm as (version & Hv & Hm). injection Hm as <- <- <-.
  eapply repo_commit; [exact Ha|by eapply replayLocked_none|]. by apply step_tighten.
Qed.

(** The release of the service is for the request's resource, with the lifecycle owner's proof. *)
Lemma release_checks_transition env repository request tr :
  release_checks env repository request = Ok (inr tr) ->
  tq_OperationID tr = rl_OperationID request /\ tq_Resource tr = rl_Resource request /\
  exists proof v, tq_teardownPermit tr = Some proof /\ sv_VerifyTeardown env v = Some proof /\ proof_matches v proof = true.
Proof.
  unfold release_checks. intros H. apply bind_ok in H as ([] & _ & H). apply reject_if_ok in H as [_ H].
  apply bind_ok in H as ([] & _ & H). apply reject_if_ok in H as [_ H]. apply bind_ok in H as ([] & _ & H).
  apply bind_ok in H as (d & _ & H). destruct (Recover _ _ _) as [recovery|e]; [by apply bind_ok in H as (? & _ & ?)|].
  destruct e; try done. destruct (sv_VerifyTeardown env _) as [proof|] eqn:Hv; [|by destruct (sv_ctx_after env)].
  apply bind_ok in H as ([] & _ & H). apply reject_if_ok in H as [Hp H]. injection H as <-. apply negb_false_iff in Hp.
  do 2 (split; [done|]). exists proof. eexists. split; [done|]. split; [exact Hv|done].
Qed.

Lemma exec_repo_step repository op :
  op_typed op -> exists answer, repo_step repository (op_tenant op) (op_release repository op) (answer, (exec_tenant repository op).2).
Proof.
  intros Ht. assert (Hpair : forall t l p, repo_step repository t l p -> exists answer, repo_step repository t l (answer, p.2)).
  { intros t l [a r'] H. by exists a. }
  destruct op as [ctx request|ctx request|ctx request|ctx request|env request]; simpl.
  - by apply Hpair, reserve_repo_step.
  - apply Hpair, (transition_repo_step _ _ _ OperationConsume).
  - apply Hpair, (transition_repo_step _ _ _ OperationRelease).
  - by apply Hpair, tighten_repo_step.
  - unfold Service_Release. destruct (release_checks env repository request) as [[receipt|tr]|e] eqn:Hc;
      [exists (Ok receipt); constructor| |exists (Err e); constructor].
    apply release_checks_transition in Hc as (_ & <- & _).
    assert (H := transition_repo_step (sv_ctx_release env) repository tr OperationRelease). unfold Release.
    destruct (transition _ _ _ _) as [a r']. by exists a.
Qed.

(** ** The repository's invariant *)
Definition configured (config : Configuration) (tenantID : ID) (policy : Policy) : Prop :=
  exists c, c ∈ cf_Tenants config /\ tc_TenantID c = tenantID /\ tc_Policy c = policy.

Record repo_ok (config : Configuration) (repository : MemoryRepository) : Prop := MkRepoOk {
  ok_tenants : forall t s, mr_tenants repository !! t = Some s ->
    exists initial, configured config t initial /\ initial_ok initial /\ tenant_ok initial s;
  ok_keys : forall t s k, mr_tenants repository !! t = Some s -> is_Some (ts_reservations s !! k) -> is_Some (mr_operations repository !! k);
}.

Lemma tenant_step_ok initial key release s s' :
  initial_ok initial -> tenant_ok initial s -> ts_reservations s !! key = None -> tenant_step key release s s' -> tenant_ok initial s'.
Proof.
  intros Hi Hs Hk Hstep. pose proof (ok_version _ _ Hs) as Hv. destruct Hstep as [s version record Hn ? ? ?|s version k r action used
    reserved st Hn Hr Hc|s version r request used reserved st Hn Hr _ Hc|s version policy Hn Hp Ht];
    destruct (incrementVersion_ok _ _ Hv Hn) as [_ Hv'].
  - by apply reserve_ok.
  - by eapply consume_ok.
  - by eapply tenant_release_ok.
  - constructor; simpl; try apply Hs; try done. eapply tighter_trans; [exact Hp|apply Hs].
Qed.

Lemma tenant_step_keys key release s s' k :
  tenant_step key release s s' -> is_Some (ts_reservations s' !! k) -> k = key \/ is_Some (ts_reservations s !! k).
Proof.
  intros Hstep Hk. destruct Hstep as [s version record Hn ? ? ?|s version k' r action used reserved st Hn Hr Hc
    |s version r request used reserved st Hn Hr _ Hc|s version policy Hn Hp Ht]; simpl in Hk; [| | |by right];
    rewrite lookup_insert_is_Some in Hk; destruct Hk as [Hk|[_ Hk]]; subst; eauto.
Qed.

Lemma repo_step_ok config repository tenantID release p :
  repo_ok config repository -> repo_step repository tenantID release p -> repo_ok config p.2.
Proof.
  intros Hok [answer|s s' key operation receipt Hs Hkey Hstep]; [done|].
  destruct (ok_tenants _ _ Hok _ _ Hs) as (initial & Hc & Hi & Ht). constructor; simpl.
  - intros t u [[<- <-]|[_ Hu]]%lookup_insert_Some; [|by apply (ok_tenants _ _ Hok)]. exists initial. do 2 (split; [done|]).
    eapply tenant_step_ok; [done|exact Ht| |exact Hstep]. apply eq_None_not_Some. intros Hsome.
    apply (ok_keys _ _ Hok _ _ _ Hs) in Hsome. rewrite Hkey in Hsome. by destruct Hsome.
  - intros t u k [[<- <-]|[_ Hu]]%lookup_insert_Some Hk; rewrite lookup_insert_is_Some'.
    + apply (tenant_step_keys _ _ _ _ _ Hstep) in Hk as [->|Hk]; [by left|]. right. by apply (ok_keys _ _ Hok _ _ _ Hs).
    + right. by apply (ok_keys _ _ Hok _ _ _ Hu).
Qed.

Lemma exec_ok config repository op : op_typed op -> repo_ok config repository -> repo_ok config (exec_tenant repository op).2.
Proof. intros Ht Hok. destruct (exec_repo_step repository op Ht) as [a Hs]. by apply (repo_step_ok _ _ _ _ _ Hok Hs). Qed.
Lemma run_ok config ops : Forall op_typed ops -> forall repository, repo_ok config repository -> repo_ok config (run_tenant repository ops).
Proof.
  induction 1 as [|op ops Ht _ IH]; intros repository Hok; [done|]. apply (IH (exec_tenant repository op).2). by apply exec_ok.
Qed.
