(* ===== verification/TenantRuns.v ===== *)
(** * Tenant quota: what holds of every run

    A repository built from a configuration, and any sequence of operations on it: the
    accounts, replays, refunds and policies. *)

From S2P Require Import Prelude MapSums GoText GoCrypto Identity Tenant TenantProofs.
#[local] Open Scope string_scope.
#[local] Open Scope list_scope.
#[local] Open Scope Z_scope.
#[local] Open Scope go_scope.

(** ** Construction *)
Definition config_typed (config : Configuration) : Prop :=
  Forall (fun c => quota_typed (Limits (tc_Policy c))) (cf_Tenants config).

Lemma validatePolicy_limits p : validatePolicy p = Ok tt -> forall d, dim d (Limits p) <= MaximumAmount.
Proof.
  unfold validatePolicy. intros H. apply reject_if_ok in H as [H _]. unfold quota_values in H. cbn [existsb] in H. bools in H.
  rewrite forall_dim. simpl. tauto.
Qed.

Lemma add_tenants_ok config : forall tenants assigned result,
  add_tenants tenants assigned config = Ok result ->
  forall t s, result !! t = Some s ->
    tenants !! t = Some s \/
    exists c members workspaces, c ∈ config /\ tc_TenantID c = t /\ validatePolicy (tc_Policy c) = Ok tt /\
      s = MkTenantState 1 (tc_Policy c) members workspaces no_quota no_quota ∅.
Proof.
  induction config as [|c rest IH]; simpl; intros tenants assigned result H t s Hs; [injection H as <-; by left|].
  destruct (negb _ || _); [done|]. apply bind_ok in H as ([] & Hv & H). apply bind_ok in H as (members & _ & H).
  apply bind_ok in H as (wa & _ & H). apply wrap_err_ok in Hv.
  destruct (IH _ _ _ H t s Hs) as [Ht|(c' & m & w & Hc & Hrest)].
  - apply lookup_insert_Some in Ht as [[Ht <-]|[_ Ht]]; [|by left]. right. exists c, members, wa.1. split; [by left|done].
  - right. exists c', m, w. split; [by right|done].
Qed.

Lemma new_repository_ok config repository :
  config_typed config -> NewMemoryRepository config = Ok repository -> repo_ok config repository.
Proof.
  unfold NewMemoryRepository. intros Htyped H. destruct (bool_decide _); [done|]. apply bind_ok in H as (admins & _ & H).
  apply bind_ok in H as (tenants & Ht & H). injection H as <-. constructor; simpl.
  - intros t s Hs. destruct (add_tenants_ok _ _ _ _ Ht t s Hs) as [?|(c & m & w & Hc & <- & Hv & ->)]; [done|].
    assert (Hq : quota_typed (Limits (tc_Policy c))) by (by apply (proj1 (Forall_forall _ _) Htyped)).
    assert (Hi : initial_ok (tc_Policy c)).
    { intros d. split; [apply Hq|by apply validatePolicy_limits]. }
    exists (tc_Policy c). split; [by exists c|]. split; [done|]. constructor; simpl; try done.
    + apply tighter_refl.
    + intros []; done.
    + intros []; done.
    + intros d. destruct (Hi d). destruct d; simpl in *; lia.
  - intros t s k Hs Hk. destruct (add_tenants_ok _ _ _ _ Ht t s Hs) as [?|(c & m & w & Hc & <- & Hv & ->)]; [done|].
    simpl in Hk. rewrite lookup_empty in Hk. by destruct Hk.
Qed.

(** The repositories a configuration can reach. *)
Definition reached (config : Configuration) (ops : list tenant_op) (repository : MemoryRepository) : Prop :=
  config_typed config /\ Forall op_typed ops /\
  exists initial, NewMemoryRepository config = Ok initial /\ repository = run_tenant initial ops.

Lemma reached_ok config ops repository : reached config ops repository -> repo_ok config repository.
Proof. intros (Hc & Hops & initial & Hnew & ->). apply run_ok; [done|]. by apply new_repository_ok. Qed.

(** ** Operation receipts *)
Definition op_key (op : tenant_op) : ID :=
  match op with
  | OpReserve _ request => rv_OperationID request
  | OpConsume _ request | OpRelease _ request => tq_OperationID request
  | OpTighten _ request => tp_OperationID request
  | OpService _ request => rl_OperationID request
  end.

(** A mutation answers from the receipt of its key, or commits under a new key. *)
Inductive mutation_shape (repository : MemoryRepository) (key : ID) (identity : operationIdentity)
    : res tenant_error (Receipt * option (tenantState * operationIdentity)) -> Prop :=
| shape_error e : mutation_shape repository key identity (Err e)
| shape_replay receipt :
    mr_operations repository !! key = Some (MkOperationRecord identity receipt) ->
    mutation_shape repository key identity (Ok (receipt, None))
| shape_fresh receipt s :
    mr_operations repository !! key = None -> mutation_shape repository key identity (Ok (receipt, Some (s, identity))).

Lemma shape_bind {A} repository key identity (m : res tenant_error A) f :
  (forall a, m = Ok a -> mutation_shape repository key identity (f a)) -> mutation_shape repository key identity (m ≫= f).
Proof. destruct m as [a|e]; simpl; [auto|constructor]. Qed.
Lemma shape_replayed repository key identity fresh :
  (mr_operations repository !! key = None -> mutation_shape repository key identity fresh) ->
  mutation_shape repository key identity
    (match replayLocked repository key identity with Some replay => receipt ← replay; Ok (receipt, None) | None => fresh end).
Proof.
  intros Hf. unfold replayLocked. destruct (mr_operations repository !! key) as [[identity' receipt]|] eqn:Hk; simpl; [|auto].
  destruct (decide (identity' = identity)) as [->|Hne].
  - rewrite bool_decide_false by tauto. by constructor.
  - rewrite bool_decide_true by done. constructor.
Qed.

Definition reserve_identity (request : ReserveRequest) : operationIdentity :=
  MkOperation OperationReserve (rv_Subject request) (rs_TenantID (rv_Resource request)) (rs_WorkspaceID (rv_Resource request))
    (rv_Action request) (rv_OperationID request) (rv_Amount request) (rv_RequestedProfile request) (rv_Instance request) 0 no_policy.
Definition transition_identity (request : TransitionRequest) (kind : OperationKind) : operationIdentity :=
  let binding := default (MkBinding 0 no_instance) (tq_releaseBinding request) in
  MkOperation kind (tq_Subject request) (rs_TenantID (tq_Resource request)) (rs_WorkspaceID (tq_Resource request)) (tq_Action request)
    (tq_ReservationID request) no_quota (MkProfile 0 0) (rb_instance binding) (rb_reservationVersion binding) no_policy.
Definition tighten_identity (request : TightenPolicyRequest) : operationIdentity :=
  MkOperation OperationPolicyTighten (tp_Subject request) (tp_TenantID request) no_id ActionTenantManage no_id no_quota (MkProfile 0 0)
    no_instance 0 (tp_Policy request).

Definition op_identity (op : tenant_op) : option operationIdentity :=
  match op with
  | OpReserve _ request => Some (reserve_identity request)
  | OpConsume _ request => Some (transition_identity request OperationConsume)
  | OpRelease _ request => Some (transition_identity request OperationRelease)
  | OpTighten _ request => Some (tighten_identity request)
  | OpService _ _ => None
  end.

Ltac shape_tac :=
  repeat first
    [ apply shape_replayed; intros ?
    | apply shape_bind; intros ? ?
    | match goal with
      | |- mutation_shape _ _ _ (let '(_, _) := ?p in _) => destruct p
      | |- mutation_shape _ _ _ (match ?m with Some _ => _ | None => Err _ end) => destruct m
      end
    | constructor; done ].

Lemma reserve_shape ctx repository request :
  mutation_shape repository (rv_OperationID request) (reserve_identity request) (reserve_mutation ctx repository request).
Proof. unfold reserve_mutation. shape_tac. Qed.
Lemma transition_shape ctx repository request kind :
  mutation_shape repository (tq_OperationID request) (transition_identity request kind) (transition_mutation ctx repository request kind).
Proof. unfold transition_mutation. shape_tac. Qed.
Lemma tighten_shape ctx repository request :
  mutation_shape repository (tp_OperationID request) (tighten_identity request) (tighten_mutation ctx repository request).
Proof. unfold tighten_mutation. shape_tac. Qed.

Lemma run_mutation_used repository tenantID key identity m rec :
  mutation_shape repository key identity m -> mr_operations repository !! key = Some rec ->
  (run_mutation repository tenantID key m).2 = repository /\
  forall receipt, (run_mutation repository tenantID key m).1 = Ok receipt -> receipt = or_receipt rec.
Proof. intros [e|receipt Hk|receipt s Hk] Hrec; simpl; [done| |congruence]. split; [done|]. rewrite Hrec in Hk. by intros ? [= <-]; simplify_eq. Qed.
Lemma run_mutation_records repository tenantID key identity m receipt :
  mutation_shape repository key identity m -> (run_mutation repository tenantID key m).1 = Ok receipt ->
  mr_operations (run_mutation repository tenantID key m).2 !! key = Some (MkOperationRecord identity receipt).
Proof. intros [e|receipt' Hk|receipt' s Hk]; simpl; intros [= <-]; [done|]. apply lookup_insert_eq. Qed.

(** The receipt a repeated release answers with, and the key of a new one. *)
Lemma Recover_receipt ctx repository request recovery :
  Recover ctx repository request = Ok recovery ->
  exists rec, mr_operations repository !! rr_OperationID request = Some rec /\ rc_Receipt recovery = or_receipt rec.
Proof.
  unfold Recover. intros H. apply reject_if_ok in H as [_ H]. do 2 (apply bind_ok in H as ([] & _ & H)).
  apply bind_ok in H as ([decision state] & _ & H). destruct (mr_operations repository !! _) as [rec|] eqn:Hk; [|done].
  apply reject_if_ok in H as [_ H]. apply reject_if_ok in H as [_ H]. exists rec. split; [done|].
  destruct (validID _ _); [destruct (ts_reservations state !! _); [|done]|]; by injection H as <-.
Qed.
Lemma release_checks_recorded env repository request receipt :
  release_checks env repository request = Ok (inl receipt) ->
  exists rec, mr_operations repository !! rl_OperationID request = Some rec /\ receipt = or_receipt rec.
Proof.
  unfold release_checks. intros H. apply bind_ok in H as ([] & _ & H). apply reject_if_ok in H as [_ H].
  apply bind_ok in H as ([] & _ & H). apply reject_if_ok in H as [_ H]. apply bind_ok in H as ([] & _ & H).
  apply bind_ok in H as (d & _ & H). destruct (Recover _ _ _) as [recovery|e] eqn:Hr.
  - apply Recover_receipt in Hr as (rec & Hk & Hr). exists rec. split; [done|]. apply bind_ok in H as (r & H & [= <-]).
    unfold replayed_release in H. apply reject_if_ok in H as [_ H]. by apply reject_if_ok in H as [_ [= <-]].
  - destruct e; try done. destruct (sv_VerifyTeardown env _) as [proof|]; [|by destruct (sv_ctx_after env)].
    apply bind_ok in H as ([] & _ & H). by apply reject_if_ok in H as [_ H].
Qed.

(** An operation under a used key changes nothing and can only answer its receipt. *)
Lemma exec_used repository op rec : mr_operations repository !! op_key op = Some rec ->
  (exec_tenant repository op).2 = repository /\
  forall receipt, (exec_tenant repository op).1 = Ok receipt -> receipt = or_receipt rec.
Proof.
  intros Hk. destruct op as [ctx request|ctx request|ctx request|ctx request|env request]; simpl in *.
  - by eapply run_mutation_used; [apply reserve_shape|].
  - by eapply run_mutation_used; [apply transition_shape|].
  - by eapply run_mutation_used; [apply transition_shape|].
  - by eapply run_mutation_used; [apply tighten_shape|].
  - unfold Service_Release. destruct (release_checks env repository request) as [[receipt|tr]|e] eqn:Hc; simpl; [| |done].
    + split; [done|]. intros ? [= <-]. apply release_checks_recorded in Hc as (rec' & Hk' & ->). congruence.
    + apply release_checks_transition in Hc as (Hkey & _). rewrite <- Hkey in Hk.
      destruct (run_mutation_used _ (rs_TenantID (tq_Resource tr)) _ _ _ _ (transition_shape (sv_ctx_release env) repository tr OperationRelease) Hk)
        as [H1 H2]. unfold Release, transition. destruct (run_mutation _ _ _ _) as [a r'']. simpl in *. split; [done|].
      intros receipt Hr. apply bind_ok in Hr as (receipt' & -> & Hr). apply reject_if_ok in Hr as [_ [= <-]]. by apply H2.
Qed.

Lemma exec_records repository op receipt repository' :
  exec_tenant repository op = (Ok receipt, repository') ->
  exists identity, mr_operations repository' !! op_key op = Some (MkOperationRecord identity receipt) /\
    forall i, op_identity op = Some i -> identity = i.
Proof.
  assert (Hm : forall tenantID key identity m, mutation_shape repository key identity m ->
    run_mutation repository tenantID key m = (Ok receipt, repository') ->
    mr_operations repository' !! key = Some (MkOperationRecord identity receipt)).
  { intros t key identity m Hshape Hrun. assert (H := run_mutation_records repository t key identity m receipt Hshape).
    rewrite Hrun in H. by apply H. }
  intros H. destruct op as [ctx request|ctx request|ctx request|ctx request|env request]; simpl in *.
  - eexists. split; [eapply Hm, H; apply reserve_shape|congruence].
  - eexists. split; [eapply Hm, H; apply transition_shape|congruence].
  - eexists. split; [eapply Hm, H; apply transition_shape|congruence].
  - eexists. split; [eapply Hm, H; apply tighten_shape|congruence].
  - unfold Service_Release in H. destruct (release_checks env repository request) as [[receipt'|tr]|e] eqn:Hc; [| |done].
    + injection H as -> <-. destruct (release_checks_recorded _ _ _ _ Hc) as ([identity rec] & Hk & ->). by exists identity.
    + apply release_checks_transition in Hc as (<- & _). destruct (Release _ _ _) as [a r'] eqn:Hrel. injection H as H <-.
      apply bind_ok in H as (receipt' & -> & H). apply reject_if_ok in H as [_ [= ->]].
      eexists. split; [eapply Hm, Hrel; apply transition_shape|done].
Qed.

(** What no operation changes: who may do what, and the receipts already written. *)
Record later (repository repository' : MemoryRepository) : Prop := MkLater {
  later_admins : mr_platformAdmins repository' = mr_platformAdmins repository;
  later_tenants : forall t s, mr_tenants repository !! t = Some s ->
    exists s', mr_tenants repository' !! t = Some s' /\ ts_members s' = ts_members s /\ ts_workspaces s' = ts_workspaces s;
  later_operations : forall k rec, mr_operations repository !! k = Some rec -> mr_operations repository' !! k = Some rec;
}.
#[global] Instance later_preorder : PreOrder later.
Proof.
  split.
  - intros r. constructor; eauto.
  - intros r1 r2 r3 [Ha Ht Ho] [Ha' Ht' Ho']. constructor; [congruence| |auto]. intros t s Hs.
    destruct (Ht _ _ Hs) as (s2 & H2 & <- & <-). by apply Ht'.
Qed.

Lemma tenant_step_access key release s s' :
  tenant_step key release s s' -> ts_members s' = ts_members s /\ ts_workspaces s' = ts_workspaces s.
Proof. by intros []. Qed.
Lemma repo_step_later repository tenantID release p : repo_step repository tenantID release p -> later repository p.2.
Proof.
  intros [answer|s s' key operation receipt Hs Hkey Hstep]; [reflexivity|]. apply tenant_step_access in Hstep. constructor; simpl; [done| |].
  - intros t u Hu. destruct (decide (tenantID = t)) as [<-|Hne].
    + exists s'. rewrite lookup_insert_eq. by simplify_eq.
    + exists u. by rewrite lookup_insert_ne.
  - intros k rec Hk. rewrite lookup_insert_ne; [done|]. congruence.
Qed.
Lemma run_later ops : Forall op_typed ops -> forall repository, later repository (run_tenant repository ops).
Proof.
  induction 1 as [|op ops Ht _ IH]; intros repository; [reflexivity|]. transitivity (exec_tenant repository op).2; [|apply IH].
  destruct (exec_repo_step repository op Ht) as [a Hs]. exact (repo_step_later _ _ _ _ Hs).
Qed.

Lemma authorize_later repository repository' request d :
  later repository repository' -> authorizeLocked repository request = Ok d -> exists d', authorizeLocked repository' request = Ok d'.
Proof.
  intros [Ha Ht _] H. unfold authorizeLocked in *. destruct (mr_tenants repository !! _) as [s|] eqn:Hs; [|done].
  destruct (Ht _ _ Hs) as (s' & -> & -> & ->). rewrite Ha. repeat case_match; simplify_eq; eexists; reflexivity.
Qed.

(** An operation of the repository under a live context. *)
Definition repeatable (op : tenant_op) : Prop :=
  match op with
  | OpReserve ctx _ | OpConsume ctx _ | OpRelease ctx _ | OpTighten ctx _ => ctx = None
  | OpService _ _ => False
  end.
Lemma replayLocked_same repository key identity receipt :
  mr_operations repository !! key = Some (MkOperationRecord identity receipt) ->
  replayLocked repository key identity = Some (Ok receipt).
Proof. intros Hk. unfold replayLocked. rewrite Hk. simpl. by rewrite bool_decide_false by tauto. Qed.

(** The receipt of a recorded operation answers it again. *)
Ltac replay_tac H Hl Hr :=
  unfold reserve_identity, transition_identity, tighten_identity in Hr; cbn zeta in Hr; cbn zeta;
  repeat (apply bind_ok in H as ([] & E & H); rewrite E; clear E; cbn [mbind res_bind]);
  apply bind_ok in H as (d & E & _); destruct (authorize_later _ _ _ _ Hl E) as [[decision state] ->]; cbn [mbind res_bind snd];
  rewrite Hr; reflexivity.

Section Replay.
Context (repository repository' : MemoryRepository) (receipt : Receipt) (Hlater : later repository repository').
#[local] Set Default Proof Using "Type*".

Lemma reserve_replays request p :
  reserve_mutation None repository request = Ok p ->
  replayLocked repository' (rv_OperationID request) (reserve_identity request) = Some (Ok receipt) ->
  reserve_mutation None repository' request = Ok (receipt, None).
Proof. intros H Hr. unfold reserve_mutation in *. replay_tac H Hlater Hr. Qed.
Lemma transition_replays request kind p :
  transition_mutation None repository request kind = Ok p ->
  replayLocked repository' (tq_OperationID request) (transition_identity request kind) = Some (Ok receipt) ->
  transition_mutation None repository' request kind = Ok (receipt, None).
Proof. intros H Hr. unfold transition_mutation in *. replay_tac H Hlater Hr. Qed.
Lemma tighten_replays request p :
  tighten_mutation None repository request = Ok p ->
  replayLocked repository' (tp_OperationID request) (tighten_identity request) = Some (Ok receipt) ->
  tighten_mutation None repository' request = Ok (receipt, None).
Proof. intros H Hr. unfold tighten_mutation in *. replay_tac H Hlater Hr. Qed.
End Replay.

Lemma run_mutation_ok repository tenantID key m receipt repository' :
  run_mutation repository tenantID key m = (Ok receipt, repository') -> exists p, m = Ok p.
Proof. destruct m as [p|e]; [eauto|done]. Qed.

Lemma exec_replays repository op receipt repository1 repository2 identity :
  repeatable op -> op_identity op = Some identity -> exec_tenant repository op = (Ok receipt, repository1) ->
  later repository repository2 -> mr_operations repository2 !! op_key op = Some (MkOperationRecord identity receipt) ->
  exec_tenant repository2 op = (Ok receipt, repository2).
Proof.
  intros Hrep Hid Hexec Hlater Hk. apply replayLocked_same in Hk.
  destruct op as [ctx request|ctx request|ctx request|ctx request|env request]; simpl in *; try subst ctx; simplify_eq;
    apply run_mutation_ok in Hexec as [p Hp].
  - unfold AuthorizeAndReserve. by rewrite (reserve_replays _ _ receipt Hlater _ _ Hp Hk).
  - unfold Consume, transition. by rewrite (transition_replays _ _ receipt Hlater _ _ _ Hp Hk).
  - unfold Release, transition. by rewrite (transition_replays _ _ receipt Hlater _ _ _ Hp Hk).
  - unfold TightenPolicy. by rewrite (tighten_replays _ _ receipt Hlater _ _ Hp Hk).
Qed.

(** ** Refunds *)
Definition spent (d : Dim) : bool := match d with DModelTokens | DModelCost => true | _ => false end.

(** [proof] shows that the incarnation of [r] was destroyed, for this release. *)
Definition proves_teardown (request : TransitionRequest) (r : reservationRecord) (proof : TeardownReceipt) : Prop :=
  tq_teardownPermit request = Some proof /\ td_ReleaseOperationID proof = tq_OperationID request /\
  td_ReservationID proof = tq_ReservationID request /\ td_ReservationVersion proof = re_version r /\
  td_Instance proof = re_instance r /\ td_LifecycleGeneration proof = in_Generation (re_instance r) /\
  td_Destroyed proof = true /\ td_Durable proof = true.

Lemma teardown_proves_ok request r proof :
  tq_teardownPermit request = Some proof -> teardown_proves request r proof = true -> proves_teardown request r proof.
Proof. unfold teardown_proves, proves_teardown. intros Hp H. bools in H. tauto. Qed.

Lemma tenant_step_used initial key release s s' d :
  initial_ok initial -> tenant_ok initial s -> tenant_step key release s s' -> dim d (ts_used s') < dim d (ts_used s) ->
  spent d = false /\
  exists request r proof, release = Some request /\ ts_reservations s !! tq_ReservationID request = Some r /\
    re_state r = ReservationConsumed /\ dim d (ts_used s') = dim d (ts_used s) - dim d (re_amount r) /\
    proves_teardown request r proof /\
    ts_reservations s' !! tq_ReservationID request = Some (with_state r ReservationReleased).
Proof.
  intros Hi Hs Hstep Hlt. pose proof (ok_version _ _ Hs) as Hv. destruct Hstep as [s version record Hn ? ? ?|s version k r action used
    reserved st Hn Hr Hc|s version r request used reserved st Hn Hr Hrel Hc|s version policy Hn Hp Ht]; simpl in Hlt; [lia| | |lia].
  - destruct (consume_ok initial Hi s version k r action used reserved st Hs ltac:(by eapply incrementVersion_ok) Hr Hc) as (_ & Hu & _).
    pose proof (ok_amounts _ _ Hs _ _ Hr d) as Ha. unfold is_u64 in Ha. rewrite Hu in Hlt. lia.
  - destruct (tenant_release_ok initial Hi s version _ r request used reserved st Hs ltac:(by eapply incrementVersion_ok) Hr Hc)
      as (-> & Hu & Hcons & _). rewrite Hu in Hlt. unfold refunded, held in *.
    destruct (decide (re_state r = ReservationConsumed)) as [Hst|]; [|rewrite bool_decide_false in Hlt by done; lia].
    rewrite bool_decide_true in Hlt by done. destruct (Hcons Hst) as (H1 & H2 & proof & Hp & Hproof).
    split; [destruct d; try done; simpl in *; lia|]. exists request, r, proof. do 3 (split; [done|]). simpl.
    split; [rewrite Hu, bool_decide_true by done; done|]. split; [by apply teardown_proves_ok|]. apply lookup_insert_eq.
Qed.

(** ** Claims *)

(** C26: in every reachable repository, each dimension of a tenant's used and reserved
    quota is exactly the sum of the amounts of its consumed and reserved reservations;
    their sum never exceeds the limit the tenant was configured with, which is within the
    durable [int64] range, so no [uint64] operation on them wraps around. *)
Theorem quota_conservation config ops repository tenantID s :
  reached config ops repository -> mr_tenants repository !! tenantID = Some s ->
  exists policy, configured config tenantID policy /\
    forall d, dim d (ts_used s) = total d ReservationConsumed (ts_reservations s) /\
      dim d (ts_reserved s) = total d ReservationReserved (ts_reservations s) /\
      0 <= dim d (ts_used s) /\ 0 <= dim d (ts_reserved s) /\
      dim d (ts_used s) + dim d (ts_reserved s) <= dim d (Limits policy) <= MaximumAmount.
Proof.
  intros Hreach Hs. destruct (ok_tenants _ _ (reached_ok _ _ _ Hreach) _ _ Hs) as (policy & Hc & Hi & Hok).
  exists policy. split; [done|]. intros d. destruct (ok_typed _ _ Hi Hok) as [Hu Hr].
  split; [by apply ok_used with policy|]. split; [by apply ok_reserved with policy|].
  split; [apply Hu|]. split; [apply Hr|]. split; [by apply ok_bound|apply Hi].
Qed.

(** An operation takes effect at most once. After an operation was answered with a
    receipt, whatever runs in between, any operation under the same operation ID leaves
    the repository as it is and can only answer with that receipt, and the same request
    under a live context does answer with it. *)
Theorem operation_applied_once repository op receipt repository1 ops :
  op_typed op -> exec_tenant repository op = (Ok receipt, repository1) -> Forall op_typed ops ->
  let repository2 := run_tenant repository1 ops in
  (forall op', op_key op' = op_key op ->
     (exec_tenant repository2 op').2 = repository2 /\
     forall receipt', (exec_tenant repository2 op').1 = Ok receipt' -> receipt' = receipt) /\
  (repeatable op -> exec_tenant repository2 op = (Ok receipt, repository2)).
Proof.
  intros Ht Hexec Hops repository2. destruct (exec_records _ _ _ _ Hexec) as (identity & Hk & Hid).
  assert (Hl : later repository1 repository2) by (by apply run_later). apply (later_operations _ _ Hl) in Hk. split.
  - intros op' Hkey. rewrite <- Hkey in Hk. destruct (exec_used _ _ _ Hk) as [H1 H2]. split; [done|]. intros r Hr. by rewrite (H2 _ Hr).
  - intros Hrep. destruct (op_identity op) as [i|] eqn:Hi; [|by destruct op]. rewrite (Hid i eq_refl) in Hk.
    eapply exec_replays; [done..| |done]. transitivity repository1; [|done].
    destruct (exec_repo_step repository op Ht) as [a Hs]. apply repo_step_later in Hs. simpl in Hs. by rewrite Hexec in Hs.
Qed.

(** What was spent is not refunded. If an operation lowers a used amount of a tenant
    in a reachable repository, the amount is not model tokens or cost, and the operation
    is a release of a consumed reservation with a durable proof, for exactly this release,
    that the reservation's incarnation was destroyed; a release by the service has that
    proof from the lifecycle owner. The amount refunded is the reservation's, which is
    released by it. *)
Theorem refund_needs_teardown config ops repository op tenantID s s' d :
  reached config ops repository -> op_typed op ->
  mr_tenants repository !! tenantID = Some s -> mr_tenants (exec_tenant repository op).2 !! tenantID = Some s' ->
  dim d (ts_used s') < dim d (ts_used s) ->
  spent d = false /\
  exists request r proof, op_release repository op = Some request /\
    ts_reservations s !! tq_ReservationID request = Some r /\ re_state r = ReservationConsumed /\
    proves_teardown request r proof /\
    match op with OpService env _ => exists v, sv_VerifyTeardown env v = Some proof | _ => True end /\
    dim d (ts_used s') = dim d (ts_used s) - dim d (re_amount r) /\
    ts_reservations s' !! tq_ReservationID request = Some (with_state r ReservationReleased).
Proof.
  intros Hreach Ht Hs Hs' Hlt. destruct (ok_tenants _ _ (reached_ok _ _ _ Hreach) _ _ Hs) as (policy & _ & Hi & Hok).
  destruct (exec_repo_step repository op Ht) as [a Hstep]. remember (a, (exec_tenant repository op).2) as p eqn:Hp.
  destruct Hstep as [answer|u u' key operation receipt Hu Hkey Htstep]; injection Hp as _ Hp; rewrite <- Hp in Hs'; simpl in Hs'.
  { simplify_eq. lia. }
  apply lookup_insert_Some in Hs' as [[Heq ->]|[_ Hs']]; [|simplify_eq; lia].
  subst tenantID. simplify_eq. destruct (tenant_step_used _ _ _ _ _ d Hi Hok Htstep Hlt) as (Hd & request & r & proof & Hrel & H1 & H2 & H3 & H4 & H5).
  split; [done|]. exists request, r, proof. split_and!; try done. destruct op as [| | | |env rl]; try done. simpl in Hrel.
  destruct (release_checks env repository rl) as [[]|] eqn:Hc; simplify_eq.
  apply release_checks_transition in Hc as (_ & _ & proof' & v & Hpr & Hv & _). destruct H4 as (Hpr' & _). exists v. congruence.
Qed.

(** ** Policies *)
Lemma tighter_antisym p q : tighter p q -> tighter q p -> p = q.
Proof.
  unfold tighter, policyRelaxes. intros H1 H2. bools in H1. bools in H2.
  destruct p as [[] [] []], q as [[] [] []]; simpl in *. repeat f_equal; lia.
Qed.
Lemma smaller_le a b c : c <= smaller a b <-> c <= a /\ c <= b.
Proof. unfold smaller. destruct (Z.ltb_spec b a); lia. Qed.
Lemma larger_le a b c : larger a b <= c <-> a <= c /\ b <= c.
Proof. unfold larger. destruct (Z.ltb_spec a b); lia. Qed.
Lemma tighter_narrow p q r : tighter p (narrow q r) <-> tighter p q /\ tighter p r.
Proof. unfold tighter, policyRelaxes, narrow. cbn [Limits MinimumProfile MaximumProfile Sessions WorkspaceBytes BlobBytes ArtifactBytes
  ActiveSandboxes ModelTokens ModelCostMicros CPUUnits MemoryBytes]. bools. rewrite !smaller_le, !larger_le. tauto. Qed.
Lemma tighter_fold p rest : forall first, tighter p (fold_left narrow rest first) <-> Forall (tighter p) (first :: rest).
Proof.
  induction rest as [|q rest IH]; intros first; simpl; [by rewrite Forall_singleton|].
  rewrite IH, !Forall_cons, tighter_narrow. tauto.
Qed.
Lemma check_policies_ok policies : check_policies policies = Ok tt <-> Forall (fun p => validatePolicy p = Ok tt) policies.
Proof.
  induction policies as [|p rest IH]; [done|]. rewrite Forall_cons, <- IH. simpl. destruct (validatePolicy p) as [[]|e]; simpl; [tauto|].
  split; [done|]. by intros [? _].
Qed.

(** [IntersectPolicies] succeeds exactly when there are policies, each is valid, and
    the profiles they all allow are not empty; its result is then their meet: a policy is
    at least as tight as the result exactly when it is at least as tight as each of them.
    So the result does not depend on the order or repetition of the policies. *)
Theorem intersection_is_meet policies resolved :
  IntersectPolicies policies = Ok resolved <->
  policies <> [] /\ Forall (fun p => validatePolicy p = Ok tt) policies /\
  (forall p, tighter p resolved <-> Forall (tighter p) policies) /\
  CPUUnits (MinimumProfile resolved) <= CPUUnits (MaximumProfile resolved) /\
  MemoryBytes (MinimumProfile resolved) <= MemoryBytes (MaximumProfile resolved).
Proof.
  destruct policies as [|first rest]; [by split; [|intros [? _]]|]. unfold IntersectPolicies. rewrite <- check_policies_ok.
  destruct (check_policies (first :: rest)) as [[]|e]; simpl; [|by split; [|intros (_ & ? & _)]]. split.
  - intros H. apply reject_if_ok in H as [H [= <-]]. bools in H. split; [done|]. split; [done|]. split; [|lia]. intros p. apply tighter_fold.
  - intros (_ & _ & Hmeet & Hc & Hm). assert (fold_left narrow rest first = resolved) as ->.
    { apply tighter_antisym; [|apply tighter_fold, Hmeet, tighter_refl]. apply Hmeet, tighter_fold, tighter_refl. }
    unfold reject_if. assert ((CPUUnits (MaximumProfile resolved) <? CPUUnits (MinimumProfile resolved))
      || (MemoryBytes (MaximumProfile resolved) <? MemoryBytes (MinimumProfile resolved)) = false) as -> by (bools; lia). done.
Qed.

(** The policy of a tenant is never relaxed and its version grows with every mutation. *)
Definition tenant_le (s s' : tenantState) : Prop :=
  ts_version s <= ts_version s' /\ tighter (ts_policy s') (ts_policy s) /\
  ts_members s' = ts_members s /\ ts_workspaces s' = ts_workspaces s /\
  (ts_version s = ts_version s' -> s = s').
#[global] Instance tenant_le_preorder : PreOrder tenant_le.
Proof.
  split.
  - intros s. unfold tenant_le. split_and!; auto using tighter_refl. lia.
  - intros s1 s2 s3 (H1 & H2 & H3 & H4 & H5) (K1 & K2 & K3 & K4 & K5). unfold tenant_le. split_and!; [lia| |congruence..|].
    + by eapply tighter_trans.
    + intros Heq. rewrite H5 by lia. apply K5. lia.
Qed.

Lemma tenant_step_le key release s s' : 1 <= ts_version s <= u64_max -> tenant_step key release s s' -> tenant_le s s'.
Proof.
  intros Hv Hstep. destruct Hstep as [s version record Hn ? ? ?|s version k r action used
    reserved st Hn Hr Hc|s version r request used reserved st Hn Hr Hrel Hc|s version policy Hn Hp Ht];
    destruct (incrementVersion_ok _ _ Hv Hn) as [-> _]; unfold tenant_le; simpl; split_and!; auto using tighter_refl; lia.
Qed.

(** Over any operations on a reachable repository a tenant stays, its policy is
    never relaxed, its members and grants do not change, its version never decreases, and
    an unchanged version means an unchanged state; operations for other tenants do not
    change it at all. *)
Theorem tenant_history config ops repository tenantID s more :
  reached config ops repository -> Forall op_typed more -> mr_tenants repository !! tenantID = Some s ->
  exists s', mr_tenants (run_tenant repository more) !! tenantID = Some s' /\ tenant_le s s' /\
    (Forall (fun op => op_tenant op <> tenantID) more -> s' = s).
Proof.
  intros Hreach. apply reached_ok in Hreach. revert repository s Hreach. induction more as [|op more IH]; intros repository s Hok Hops Hs.
  { exists s. split; [done|]. split; [reflexivity|done]. }
  apply Forall_cons in Hops as [Ht Hops]. destruct (ok_tenants _ _ Hok _ _ Hs) as (policy & _ & _ & Htok).
  assert (exists s1, mr_tenants (exec_tenant repository op).2 !! tenantID = Some s1 /\ tenant_le s s1 /\ (op_tenant op <> tenantID -> s1 = s))
    as (s1 & Hs1 & Hle & Hother).
  { destruct (exec_repo_step repository op Ht) as [a Hstep]. remember (a, (exec_tenant repository op).2) as p eqn:Hp.
    destruct Hstep as [answer|u u' key operation receipt Hu Hkey Htstep]; injection Hp as _ <-; [exists s; split; [done|]; by split|].
    simpl. destruct (decide (op_tenant op = tenantID)) as [<-|Hne].
    - rewrite lookup_insert_eq. exists u'. simplify_eq. split; [done|]. split; [|done]. eapply tenant_step_le; [apply Htok|done].
    - rewrite lookup_insert_ne by done. exists s. split; [done|]. by split. }
  destruct (IH _ _ (exec_ok _ _ _ Ht Hok) Hops Hs1) as (s2 & Hs2 & Hle2 & Hother2). exists s2. split; [done|].
  split; [by etransitivity|]. intros [Hne Hmore]%Forall_cons. rewrite Hother2 by done. by apply Hother.
Qed.

(** ** Examples *)
Definition sample_policy : Policy :=
  MkPolicy (MkQuota 4 4096 4096 4096 1 1000 1000) (MkProfile 1 1024) (MkProfile 4 8192).
Definition sample_tenant : ID := MkID "tenant" "tenant_a".
Definition sample_subject : ID := MkID "subject" "subject_a".
Definition sample_workspace : ID := MkID "ws" "ws_a".
Definition sample_resource : Resource := MkResource sample_tenant sample_workspace.
Definition sample_configuration : Configuration :=
  MkConfiguration [] [MkTenantConfiguration sample_tenant [MkMembership sample_subject RoleUser]
    [MkACL sample_workspace [MkGrant sample_subject RoleWorkspaceOwner]] sample_policy].
Definition op_id (n : string) : ID := MkID "op" n.
Definition sample_instance : ResourceInstance := MkInstance "sandbox-1" 7.

(** A sandbox is reserved and started; its quota is given back after its teardown. *)
Definition sample_reserve : tenant_op :=
  OpReserve None (MkReserve (op_id "op_1") 1 sample_subject sample_resource ActionSandboxStart (MkQuota 0 0 0 0 1 0 0)
    (MkProfile 2 2048) sample_instance).
Definition sample_consume : tenant_op :=
  OpConsume None (MkTransition (op_id "op_2") 2 (op_id "op_1") sample_subject sample_resource ActionSandboxStart None None).
Definition sample_release : tenant_op :=
  OpService
    (MkServiceEnv None None None None (fun v => Some (MkTeardown (vq_ReleaseOperationID v) (vq_ReservationID v) (vq_ReservationVersion v)
       (vq_TenantID v) (vq_WorkspaceID v) (vq_Action v) (vq_Instance v) true (in_Generation (vq_Instance v)) true 1
       "sha256:0123456789abcdef0123456789abcdef0123456789abcdef0123456789abcdef")))
    (MkRelease (op_id "op_3") 3 (op_id "op_1") 2 sample_subject sample_resource ActionSandboxStart sample_instance).
Definition sample_ops : list tenant_op := [sample_reserve; sample_consume].

Definition after (ops : list tenant_op) : MemoryRepository :=
  match NewMemoryRepository sample_configuration with Ok r => run_tenant r ops | Err _ => MkRepository ∅ ∅ ∅ end.
Definition sandboxes (r : MemoryRepository) : option (Z * Z) :=
  s ← mr_tenants r !! sample_tenant; Some (ActiveSandboxes (ts_used s), ActiveSandboxes (ts_reserved s)).

Example sandbox_accounts :
  (sandboxes (after []), sandboxes (after [sample_reserve]), sandboxes (after sample_ops), sandboxes (after (sample_ops ++ [sample_release])))
  = (Some (0, 0), Some (0, 1), Some (1, 0), Some (0, 0)).
Proof. vm_compute. reflexivity. Qed.

Lemma sample_quota_typed a b c d e f g :
  forallb (fun v => (0 <=? v) && (v <=? MaximumAmount)) [a; b; c; d; e; f; g] = true -> quota_typed (MkQuota a b c d e f g).
Proof.
  unfold MaximumAmount. cbn [forallb]. intros H. bools in H. unfold quota_typed, is_u64. intros []; simpl; lia.
Qed.
Lemma sample_reached : reached sample_configuration sample_ops (after sample_ops).
Proof.
  split; [repeat constructor; by apply sample_quota_typed|]. split; [repeat constructor; by apply sample_quota_typed|].
  unfold after. destruct (NewMemoryRepository sample_configuration) as [r|e] eqn:Hr; [by exists r|]. by vm_compute in Hr.
Qed.
(** The state of the sample tenant. *)
Definition tenant_of (r : MemoryRepository) : tenantState :=
  default (MkTenantState 0 no_policy ∅ ∅ no_quota no_quota ∅) (mr_tenants r !! sample_tenant).
Lemma tenant_of_some r : bool_decide (is_Some (mr_tenants r !! sample_tenant)) = true -> mr_tenants r !! sample_tenant = Some (tenant_of r).
Proof. rewrite bool_decide_eq_true. unfold tenant_of. by intros [s ->]. Qed.

Lemma quota_conservation_witness : ActiveSandboxes (ts_used (tenant_of (after sample_ops))) = 1 /\
  total DActiveSandboxes ReservationConsumed (ts_reservations (tenant_of (after sample_ops))) = 1.
Proof.
  assert (H1 : ActiveSandboxes (ts_used (tenant_of (after sample_ops))) = 1) by (vm_compute; reflexivity). split; [exact H1|].
  destruct (quota_conservation sample_configuration sample_ops (after sample_ops) sample_tenant (tenant_of (after sample_ops)) sample_reached)
    as (policy & _ & H); [apply tenant_of_some; vm_compute; reflexivity|]. destruct (H DActiveSandboxes) as [H2 _]. rewrite <- H2. exact H1.
Defined.

Lemma operation_applied_once_witness :
  exec_tenant (after sample_ops) sample_reserve = ((exec_tenant (after []) sample_reserve).1, after sample_ops).
Proof.
  destruct (exec_tenant (after []) sample_reserve) as [answer r1] eqn:He. cbn [fst].
  assert (Hr1 : run_tenant r1 [sample_consume] = after sample_ops).
  { change r1 with (answer, r1).2. rewrite <- He. vm_compute. reflexivity. }
  destruct answer as [receipt|e]; [|change (Err e) with (@Err tenant_error Receipt e, r1).1 in He; vm_compute in He; discriminate He].
  rewrite <- Hr1. apply (proj2 (operation_applied_once (after []) sample_reserve receipt r1 [sample_consume]
    ltac:(by apply sample_quota_typed) He ltac:(by repeat constructor))). reflexivity.
Defined.

Lemma refund_needs_teardown_witness : exists proof, td_Destroyed proof = true /\ td_Instance proof = sample_instance.
Proof.
  destruct (refund_needs_teardown sample_configuration sample_ops (after sample_ops) sample_release sample_tenant
    (tenant_of (after sample_ops)) (tenant_of (exec_tenant (after sample_ops) sample_release).2) DActiveSandboxes sample_reached I)
    as (_ & request & r & proof & Hrel & Hr & _ & Hp & _);
    [apply tenant_of_some; vm_compute; reflexivity|apply tenant_of_some; vm_compute; reflexivity|vm_compute; reflexivity|].
  exists proof. unfold proves_teardown in Hp. destruct Hp as (_ & _ & _ & _ & Hi & _ & Hd & _). split; [exact Hd|].
  rewrite Hi. assert (He : tq_ReservationID <$> op_release (after sample_ops) sample_release = Some (op_id "op_1")) by (vm_compute; reflexivity).
  rewrite Hrel in He. simpl in He. injection He as He. rewrite He in Hr.
  assert (Hr' : re_instance <$> ts_reservations (tenant_of (after sample_ops)) !! op_id "op_1" = Some sample_instance)
    by (vm_compute; reflexivity). rewrite Hr in Hr'. by injection Hr'.
Defined.

Lemma tenant_history_witness : exists s', tenant_le (tenant_of (after sample_ops)) s' /\ ts_version s' = 4.
Proof.
  destruct (tenant_history sample_configuration sample_ops (after sample_ops) sample_tenant (tenant_of (after sample_ops)) [sample_release]
    sample_reached) as (s' & Hs & Hle & _); [by repeat constructor|apply tenant_of_some; vm_compute; reflexivity|].
  exists s'. split; [exact Hle|]. assert (Hv : ts_version <$> mr_tenants (run_tenant (after sample_ops) [sample_release]) !! sample_tenant = Some 4)
    by (vm_compute; reflexivity). rewrite Hs in Hv. by injection Hv.
Defined.
