(* ===== verification/Manifest.v ===== *)
(** * Workspace manifests ([internal/workspace/manifest])

    The canonical form of a workspace's entries, the traversal check of its symbolic
    links, and the canonical encoding and root digest of the manifest. *)

From S2P Require Import Prelude GoText GoStrings GoCrypto Canonical.
#[local] Open Scope string_scope.
#[local] Open Scope list_scope.
#[local] Open Scope Z_scope.
#[local] Open Scope go_scope.

Definition MaxComponentBytes : Z := 255.
Definition MaxPathBytes : Z := 4096.
Definition MaxFileSize : Z := 9007199254740991.
Definition rootDigestDomain : string := "circulusd.workspace.manifest.root".
Definition maxSymlinkExpansions : Z := 40.

(** [ErrEncoding] stands for the errors of [internal/canonical]. *)
Inductive manifest_error := ErrInvalidPath | ErrPathCollision | ErrInvalidEntry | ErrInvalidTree | ErrEncoding (e : cerror).
#[global] Instance manifest_error_eq_dec : EqDecision manifest_error.
Proof. solve_decision. Defined.

Inductive EntryType := File | Directory | Symlink | OtherType (t : string).
#[global] Instance EntryType_eq_dec : EqDecision EntryType.
Proof. solve_decision. Defined.

(** [Mode] is a [uint32], [Size] an [int64]. *)
Record Entry := MkEntry {
  Path : string;
  Type_ : EntryType;
  Mode : Z;
  Size : Z;
  ContentDigest : string;
  SymlinkTarget : string;
}.
#[global] Instance Entry_eq_dec : EqDecision Entry.
Proof. solve_decision. Defined.

Section manifest.
Context `{N : Normalizer}.

(** The body of the loop over [entries], up to the collision check. *)
Fixpoint check_components (components : list string) : res manifest_error unit :=
  match components with
  | [] => Ok tt
  | component :: rest =>
      _ ← reject_if ((component == "") || (component == ".") || (component == "..")) ErrInvalidPath;
      _ ← reject_if (MaxComponentBytes <? strlen component) ErrInvalidPath;
      _ ← reject_if (has_control component) ErrInvalidPath;
      check_components rest
  end.
Definition canonical_path (p : string) : res manifest_error string :=
  _ ← reject_if (negb (utf8_ValidString p)) ErrInvalidPath;
  let p := nfc p in
  _ ← reject_if (p == "") ErrInvalidPath;
  _ ← reject_if (strings_HasPrefix p "/") ErrInvalidPath;
  _ ← reject_if (has_NUL p) ErrInvalidPath;
  _ ← reject_if (MaxPathBytes <? strlen p) ErrInvalidPath;
  _ ← check_components (split_slash p);
  Ok p.

Fixpoint check_target_components (components : list string) : res manifest_error unit :=
  match components with
  | [] => Ok tt
  | component :: rest =>
      _ ← reject_if ((component != ".") && (component != "..") && (MaxComponentBytes <? strlen component)) ErrInvalidEntry;
      _ ← reject_if (has_control component) ErrInvalidEntry;
      check_target_components rest
  end.

(** [for strings.HasPrefix(target, "./") { target = strings.TrimLeft(target[2:], "/") }];
    every round drops two bytes, so the length of the target is enough fuel. *)
Fixpoint trim_dots (fuel : nat) (target : string) : string :=
  match fuel with
  | O => target
  | S fuel => if strings_HasPrefix target "./" then trim_dots fuel (trim_slashes (string_drop 2 target)) else target
  end.

Definition canonical_target (entry_path target : string) : res manifest_error string :=
  _ ← reject_if (negb (utf8_ValidString target)) ErrInvalidEntry;
  let target := nfc target in
  _ ← reject_if ((target == "") || has_NUL target || path_IsAbs target) ErrInvalidEntry;
  _ ← reject_if (MaxPathBytes <? strlen target) ErrInvalidEntry;
  _ ← check_target_components (split_slash target);
  let target := trim_dots (String.length target) target in
  let target := if target == "" then "." else target in
  let resolvedTarget := path_Clean (path_Join (path_Dir entry_path) target) in
  _ ← reject_if ((resolvedTarget == "..") || strings_HasPrefix resolvedTarget "../") ErrInvalidEntry;
  Ok target.

(** The [switch entry.Type], for an entry whose path is canonical. *)
Definition canonical_metadata (entry : Entry) : res manifest_error Entry :=
  _ ← reject_if (negb (Z.ldiff (Mode entry) 511 =? 0)) ErrInvalidEntry;
  match Type_ entry with
  | File =>
      _ ← reject_if ((Size entry <? 0) || (MaxFileSize <? Size entry)) ErrInvalidEntry;
      _ ← reject_if (SymlinkTarget entry != "") ErrInvalidEntry;
      _ ← reject_if (negb (matches_sha256 (ContentDigest entry))) ErrInvalidEntry;
      Ok (MkEntry (Path entry) File (if Z.land (Mode entry) 73 =? 0 then 420 else 493) (Size entry) (ContentDigest entry) "")
  | Directory =>
      _ ← reject_if ((Size entry != 0) || (ContentDigest entry != "") || (SymlinkTarget entry != "")) ErrInvalidEntry;
      Ok (MkEntry (Path entry) Directory 493 0 "" "")
  | Symlink =>
      _ ← reject_if ((Size entry != 0) || (ContentDigest entry != "")) ErrInvalidEntry;
      target ← canonical_target (Path entry) (SymlinkTarget entry);
      Ok (MkEntry (Path entry) Symlink 511 0 "" target)
  | OtherType _ => Err ErrInvalidEntry
  end.

(** The loop over [entries]: the canonical entries in order, [kinds] and [symlinks]. *)
Record tables := MkTables { t_kinds : gmap string EntryType; t_symlinks : gmap string string }.
Definition record_entry (t : tables) (entry : Entry) : tables :=
  MkTables (<[Path entry := Type_ entry]> (t_kinds t))
    (if Type_ entry == Symlink then <[Path entry := SymlinkTarget entry]> (t_symlinks t) else t_symlinks t).
Fixpoint collect (t : tables) (entries : list Entry) : res manifest_error (list Entry * tables) :=
  match entries with
  | [] => Ok ([], t)
  | entry :: rest =>
      p ← canonical_path (Path entry);
      _ ← reject_if (bool_decide (is_Some (t_kinds t !! p))) ErrPathCollision;
      entry' ← canonical_metadata (MkEntry p (Type_ entry) (Mode entry) (Size entry) (ContentDigest entry) (SymlinkTarget entry));
      r ← collect (record_entry t entry') rest;
      Ok (entry' :: r.1, r.2)
  end.

(** The parent of every entry is a directory. *)
Fixpoint check_parents (kinds : gmap string EntryType) (entries : list Entry) : res manifest_error unit :=
  match entries with
  | [] => Ok tt
  | entry :: rest =>
      _ ← match before_last_slash (Path entry) with
          | None => Ok tt
          | Some parent => reject_if (kinds !! parent != Some Directory) ErrInvalidTree
          end;
      check_parents kinds rest
  end.

(** The loop of [validateSymlinkTraversal]; [None] when the fuel is spent. *)
Fixpoint traverse (t : tables) (fuel : nat) (directory : string) (pending : list string) (expansions : Z)
    : option (res manifest_error unit) :=
  match fuel with
  | O => None
  | S fuel =>
      match pending with
      | [] => Some (Ok tt)
      | component :: pending =>
          if (component == "") || (component == ".") then traverse t fuel directory pending expansions
          else if component == ".." then
            if directory == "" then Some (Err ErrInvalidEntry)
            else traverse t fuel (default "" (before_last_slash directory)) pending expansions
          else
            let candidate := if directory != "" then (directory ++ "/" ++ component)%string else component in
            match t_kinds t !! candidate with
            | Some Symlink =>
                let expansions := expansions + 1 in
                if maxSymlinkExpansions <? expansions then Some (Err ErrInvalidEntry)
                else traverse t fuel directory (split_slash (default "" (t_symlinks t !! candidate)) ++ pending) expansions
            | Some Directory => traverse t fuel candidate pending expansions
            | _ => Some (Ok tt)
            end
      end
  end.

(** The longest target, in components; every component is consumed once, and at most
    [maxSymlinkExpansions] targets are added. *)
Definition longest_target (t : tables) : nat := map_fold (fun _ target n => Nat.max (length (split_slash target)) n) 1%nat (t_symlinks t).
Definition traversal_fuel (t : tables) (pending : list string) : nat :=
  (length pending + Z.to_nat maxSymlinkExpansions * longest_target t + 1)%nat.
Definition validateSymlinkTraversal (t : tables) (entry : Entry) : res manifest_error unit :=
  let directory := path_Dir (Path entry) in
  let directory := if directory == "." then "" else directory in
  let pending := split_slash (SymlinkTarget entry) in
  default (Err ErrInvalidEntry) (traverse t (traversal_fuel t pending) directory pending 1).
Fixpoint check_symlinks (t : tables) (entries : list Entry) : res manifest_error unit :=
  match entries with
  | [] => Ok tt
  | entry :: rest =>
      _ ← if Type_ entry == Symlink then validateSymlinkTraversal t entry else Ok tt;
      check_symlinks t rest
  end.

Definition sort_entries_by_path (entries : list Entry) : list Entry := sort_by bytes_lt (fun e => to_bytes (Path e)) entries.

Definition Canonicalize (entries : list Entry) : res manifest_error (list Entry) :=
  r ← collect (MkTables ∅ ∅) entries;
  let t := r.2 in
  let canonical := sort_entries_by_path r.1 in
  _ ← check_parents (t_kinds t) canonical;
  _ ← check_symlinks t canonical;
  Ok canonical.

Definition Validate (entries : list Entry) : res manifest_error unit := _ ← Canonicalize entries; Ok tt.

(** ** Encoding *)
Definition type_code (t : EntryType) : Z := match t with File => 0 | Directory => 1 | Symlink => 2 | OtherType _ => 0 end.
Definition text_or_nil (s : string) : Value := if s == "" then VNil else VString s.
Definition entry_value (entry : Entry) : Value :=
  VArray [VString (Path entry); VInt KInt64 (type_code (Type_ entry)); VInt KInt64 (Mode entry);
    if Type_ entry == File then VInt KInt64 (Size entry) else VNil; text_or_nil (ContentDigest entry); text_or_nil (SymlinkTarget entry)].
Definition manifestValue (entries : list Entry) : Value := VArray [VInt KInt64 1; VArray (map entry_value entries)].

Definition MarshalCanonical (entries : list Entry) : res manifest_error bytes :=
  canonical ← Canonicalize entries;
  lift_err ErrEncoding (Encode (manifestValue canonical) DefaultOptions).
Definition RootDigest (entries : list Entry) : res manifest_error string :=
  canonical ← Canonicalize entries;
  lift_err ErrEncoding (StructuredDigest rootDigestDomain 1 (manifestValue canonical)).
End manifest.

#[local] Existing Instance id_normalizer.
Definition sample_digest_text : string := "sha256:0123456789abcdef0123456789abcdef0123456789abcdef0123456789abcdef".
Definition sample_entries : list Entry :=
  [MkEntry "src/link" Symlink 511 0 "" "./../lib/a"; MkEntry "src" Directory 448 0 "" "";
   MkEntry "lib" Directory 493 0 "" ""; MkEntry "lib/a" File 416 3 sample_digest_text ""].

Example canonicalize_example :
  Canonicalize sample_entries =
  Ok [MkEntry "lib" Directory 493 0 "" ""; MkEntry "lib/a" File 420 3 sample_digest_text "";
      MkEntry "src" Directory 493 0 "" ""; MkEntry "src/link" Symlink 511 0 "" "../lib/a"].
Proof. vm_compute. reflexivity. Qed.
Example canonicalize_rejects :
  (map (fun l => Canonicalize (map (fun p => MkEntry p Directory 493 0 "" "") l))
     [["a/b"]; ["a"; "a"]; ["../a"]; ["a//b"]; [""]; ["/a"]],
   Canonicalize [MkEntry "a" Symlink 511 0 "" "../b"], Canonicalize [MkEntry "a" Symlink 511 0 "" "b"; MkEntry "b" Symlink 511 0 "" "a"])
  = ([Err ErrInvalidTree; Err ErrPathCollision; Err ErrInvalidPath; Err ErrInvalidPath; Err ErrInvalidPath; Err ErrInvalidPath],
     Err ErrInvalidEntry, Err ErrInvalidEntry).
Proof. vm_compute. reflexivity. Qed.

(** ** Workspace manifests: the canonical form *)

(** Unicode normal forms are closed under substrings (UAX #15); the code relies on it
    where it drops a leading [./]. *)
Class NormalizerSuffix `{N : Normalizer} : Prop :=
  nfc_suffix : forall a s, (byte_val a <? 128) = true -> nfc_text (String a s) -> nfc s = s.
Lemma id_normalizer_suffix : @NormalizerSuffix id_normalizer.
Proof. by intros a s _ _. Qed.

Lemma utf8_ascii_cons a s : (byte_val a <? 128) = true -> utf8_ValidString (String a s) = utf8_ValidString s.
Proof.
  intros Ha. unfold utf8_ValidString, utf8_Valid, decode_runes. simpl. rewrite Ha. simpl. by rewrite drop_0.
Qed.

(** ** Trimming a target *)
Section trim.
Context `{N : Normalizer, NL : !NormalizerLaws, NS : !NormalizerSuffix}.
#[local] Set Default Proof Using "Type*".

(** What holds of a target before and after the trimming. *)
Definition target_text (s : string) : Prop :=
  nfc_text s /\ has_NUL s = false /\ strlen s <= MaxPathBytes /\ check_target_components (split_slash s) = Ok tt.

Lemma check_target_tail c l : check_target_components (c :: l) = Ok tt -> check_target_components l = Ok tt.
Proof. simpl. intros H. apply reject_if_ok in H as [_ H]. by apply reject_if_ok in H as [_ H]. Qed.

Lemma has_NUL_cons a s : has_NUL (String a s) = false -> has_NUL s = false.
Proof. unfold has_NUL. rewrite !bool_decide_eq_false. intros H Hs. apply H. simpl. by right. Qed.

Lemma target_text_slash s : target_text (String slash s) -> target_text s.
Proof.
  intros ([Hv Hn] & Hz & Hl & Hc). split_and!; [split|..].
  - by rewrite utf8_ascii_cons in Hv.
  - by apply (nfc_suffix slash).
  - by apply has_NUL_cons in Hz.
  - unfold strlen in *. simpl in Hl. lia.
  - exact (check_target_tail "" _ Hc).
Qed.
Lemma target_text_dot s : target_text (String "." (String slash s)) -> target_text s.
Proof.
  intros ([Hv Hn] & Hz & Hl & Hc). assert (Hv' : utf8_ValidString (String slash s) = true) by (by rewrite utf8_ascii_cons in Hv).
  split_and!; [split|..].
  - by rewrite utf8_ascii_cons in Hv'.
  - apply (nfc_suffix slash); [done|]. split; [done|]. by apply (nfc_suffix ".").
  - by do 2 apply has_NUL_cons in Hz.
  - unfold strlen in *. simpl in Hl. lia.
  - exact (check_target_tail "." _ Hc).
Qed.
Lemma target_text_trim s : target_text s -> target_text (trim_slashes s).
Proof.
  induction s as [|a s IH]; intros H; simpl; [done|]. destruct (decide (a = slash)) as [->|]; [|done]. by apply IH, target_text_slash.
Qed.

Lemma has_dot_prefix s : strings_HasPrefix s "./" = true <-> exists s', s = String "." (String slash s').
Proof. apply has_prefix_iff. Qed.
Lemma string_drop_2 a b s : string_drop 2 (String a (String b s)) = s.
Proof. unfold string_drop. simpl. by rewrite drop_0, of_to_bytes. Qed.
Lemma trim_slashes_length s : (String.length (trim_slashes s) <= String.length s)%nat.
Proof. induction s as [|a s IH]; simpl; [done|]. destruct (decide _); simpl; lia. Qed.
Lemma trim_slashes_relative s : path_IsAbs (trim_slashes s) = false.
Proof.
  apply not_true_iff_false. unfold path_IsAbs. rewrite has_prefix_iff. intros [t Ht].
  induction s as [|a s IH]; [done|]. simpl in Ht. destruct (decide (a = slash)); [by apply IH|]. by injection Ht as -> _.
Qed.

Lemma trim_dots_text fuel : forall s, target_text s -> path_IsAbs s = false ->
  target_text (trim_dots fuel s) /\ path_IsAbs (trim_dots fuel s) = false.
Proof.
  induction fuel as [|fuel IH]; intros s Hs Ha; simpl; [done|]. destruct (strings_HasPrefix s "./") eqn:Hp; [|done].
  apply has_dot_prefix in Hp as [s' ->]. rewrite string_drop_2. apply IH; [|apply trim_slashes_relative].
  by apply target_text_trim, target_text_dot.
Qed.
Lemma trim_dots_done fuel : forall s, (String.length s <= fuel)%nat -> strings_HasPrefix (trim_dots fuel s) "./" = false.
Proof.
  induction fuel as [|fuel IH]; intros s Hs; simpl.
  - by destruct s; [|simpl in Hs; lia].
  - destruct (strings_HasPrefix s "./") eqn:Hp; [|done]. apply has_dot_prefix in Hp as [s' ->]. rewrite string_drop_2. apply IH.
    pose proof (trim_slashes_length s'). simpl in Hs. lia.
Qed.
Lemma trim_dots_id fuel s : strings_HasPrefix s "./" = false -> trim_dots fuel s = s.
Proof. intros H. destruct fuel; simpl; [done|]. by rewrite H. Qed.

Lemma dot_text : target_text ".".
Proof. split_and!; [apply ascii_nfc_text; done|done|done|done]. Qed.

Lemma canonical_target_idem entry_path target r :
  canonical_target entry_path target = Ok r -> canonical_target entry_path r = Ok r.
Proof.
  intros H. unfold canonical_target in H. apply reject_if_ok in H as [Hv H]. cbn zeta in H. apply reject_if_ok in H as [H1 H].
  apply reject_if_ok in H as [H2 H]. apply bind_ok in H as ([] & H3 & H). apply negb_false_iff in Hv. bools in H1. destruct H1 as [[H1 Hz] Ha].
  assert (Ht : target_text (nfc target)).
  { split_and!; [by apply nfc_nfc_text|done|apply Z.ltb_ge in H2; done|done]. }
  destruct (trim_dots_text (String.length (nfc target)) _ Ht Ha) as [Ht' Ha'].
  assert (Hd := trim_dots_done (String.length (nfc target)) (nfc target) ltac:(lia)).
  set (s := trim_dots (String.length (nfc target)) (nfc target)) in *. set (s' := if s == "" then "." else s) in *.
  assert (target_text s' /\ path_IsAbs s' = false /\ strings_HasPrefix s' "./" = false /\ s' <> "") as (Hs & Hs1 & Hs2 & Hs3).
  { subst s'. destruct (decide (s = "")) as [->|Hne]; [rewrite bool_decide_true by done; split; [apply dot_text|done]|].
    by rewrite bool_decide_false. }
  apply reject_if_ok in H as [H4 H]. injection H as <-. clearbody s'. clear s Ht' Ha' Hd H1 Hz Ha H2 H3 Ht Hv.
  destruct Hs as ([Hv Hn] & Hz & Hl & Hc). unfold canonical_target. rewrite Hv. cbn [negb reject_if mbind res_bind]. rewrite Hn. cbn zeta.
  rewrite Hz, Hs1. assert ((s' == "") = false) as -> by (by apply bool_decide_eq_false). cbn [orb reject_if mbind res_bind].
  assert ((MaxPathBytes <? strlen s') = false) as -> by (by apply Z.ltb_ge). cbn [reject_if mbind res_bind]. rewrite Hc.
  cbn [mbind res_bind]. rewrite (trim_dots_id _ _ Hs2). assert ((s' == "") = false) as -> by (by apply bool_decide_eq_false). by rewrite H4.
Qed.
End trim.

(** ** One entry *)
Definition canonical_entry `{Normalizer} (entry : Entry) : res manifest_error Entry :=
  p ← canonical_path (Path entry);
  canonical_metadata (MkEntry p (Type_ entry) (Mode entry) (Size entry) (ContentDigest entry) (SymlinkTarget entry)).

(** A component of a canonical path. *)
Definition plain_component (c : string) : Prop := c <> "" /\ c <> "." /\ c <> "..".

Section entries.
Context `{N : Normalizer, NL : !NormalizerLaws, NS : !NormalizerSuffix}.
#[local] Set Default Proof Using "Type*".

Lemma canonical_path_ok p q : canonical_path p = Ok q ->
  nfc_text q /\ q <> "" /\ Forall plain_component (split_slash q) /\ canonical_path q = Ok q.
Proof.
  unfold canonical_path. intros H. apply reject_if_ok in H as [Hv H]. apply negb_false_iff in Hv. cbn zeta in H.
  apply reject_if_ok in H as [H1 H]. apply reject_if_ok in H as [H2 H]. apply reject_if_ok in H as [H3 H].
  apply reject_if_ok in H as [H4 H]. apply bind_ok in H as ([] & H5 & H). injection H as <-.
  destruct (nfc_nfc_text p Hv) as [Hv' Hn']. split; [done|]. split; [by apply bool_decide_eq_false in H1|]. split.
  - revert H5. generalize (split_slash (nfc p)). induction l as [|c l IH]; [constructor|]. simpl. intros H.
    apply reject_if_ok in H as [Hc H]. apply reject_if_ok in H as [_ H]. apply reject_if_ok in H as [_ H]. bools in Hc.
    constructor; [|by apply IH]. unfold plain_component. tauto.
  - rewrite Hv'. cbn [negb reject_if mbind res_bind]. rewrite Hn'. cbn zeta. rewrite H1, H2, H3, H4. cbn [reject_if mbind res_bind].
    by rewrite H5.
Qed.

Lemma canonical_metadata_path entry entry' : canonical_metadata entry = Ok entry' ->
  Path entry' = Path entry /\ Type_ entry' = Type_ entry.
Proof using Type.
  unfold canonical_metadata. intros H. apply reject_if_ok in H as [_ H].
  destruct (Type_ entry); [do 3 apply reject_if_ok in H as [_ H]|apply reject_if_ok in H as [_ H]
    |apply reject_if_ok in H as [_ H]; apply bind_ok in H as (target & _ & H)|done]; by injection H as <-.
Qed.
Lemma canonical_metadata_idem entry entry' : canonical_metadata entry = Ok entry' -> canonical_metadata entry' = Ok entry'.
Proof.
  unfold canonical_metadata. intros H. apply reject_if_ok in H as [_ H]. destruct (Type_ entry) eqn:Ht; [| | |done].
  - apply reject_if_ok in H as [H1 H]. apply reject_if_ok in H as [_ H]. apply reject_if_ok in H as [H3 H]. injection H as <-.
    cbn [Type_ Mode Size ContentDigest SymlinkTarget Path]. rewrite H1, H3. destruct (Z.land (Mode entry) 73 =? 0); reflexivity.
  - apply reject_if_ok in H as [_ H]. injection H as <-. reflexivity.
  - apply reject_if_ok in H as [_ H]. apply bind_ok in H as (target & Htg & H). injection H as <-.
    cbn [Type_ Mode Size ContentDigest SymlinkTarget Path]. apply canonical_target_idem in Htg. by rewrite Htg.
Qed.

Lemma canonical_entry_ok entry entry' : canonical_entry entry = Ok entry' ->
  canonical_path (Path entry') = Ok (Path entry') /\ canonical_entry entry' = Ok entry'.
Proof.
  unfold canonical_entry. intros H. apply bind_ok in H as (p & Hp & H). apply canonical_path_ok in Hp as (_ & _ & _ & Hp).
  destruct (canonical_metadata_path _ _ H) as [Hpath _]. apply canonical_metadata_idem in H. simpl in Hpath. rewrite Hpath, Hp.
  split; [done|]. simpl. destruct entry'. simpl in *. by subst.
Qed.
End entries.

(** ** The whole list *)
Definition tables_of (l : list Entry) : tables := foldl record_entry (MkTables ∅ ∅) l.

Section lists.
Context `{N : Normalizer}.

Lemma collect_ok entries : forall t l t',
  collect t entries = Ok (l, t') <->
  Forall2 (fun e e' => canonical_entry e = Ok e') entries l /\ NoDup (map Path l) /\
  Forall (fun e => t_kinds t !! Path e = None) l /\ t' = foldl record_entry t l.
Proof.
  induction entries as [|entry rest IH]; intros t l t'; simpl.
  - split; [intros [= <- <-]; split_and!; constructor|]. intros (Hf & _ & _ & ->). by inversion Hf.
  - split.
    + intros H. apply bind_ok in H as (p & Hp & H). apply reject_if_ok in H as [Hc H]. apply bind_ok in H as (e' & He & H).
      apply bind_ok in H as ([l1 t1] & Hr & H). injection H as <- <-. apply IH in Hr as (Hf & Hnd & Hk & ->).
      destruct (canonical_metadata_path _ _ He) as [Hpath Htype]. simpl in Hpath. apply bool_decide_eq_false in Hc.
      rewrite <- eq_None_not_Some in Hc. simpl. split_and!.
      * constructor; [|done]. unfold canonical_entry. by rewrite Hp.
      * constructor; [|done]. intros (e & He' & Hin)%list_elem_of_fmap. rewrite Forall_forall in Hk. specialize (Hk e Hin). simpl in Hk.
        rewrite He', lookup_insert_eq in Hk. done.
      * constructor; [by rewrite Hpath|]. eapply Forall_impl; [exact Hk|]. simpl. intros e Hl. by apply lookup_insert_None in Hl as [? _].
      * done.
    + intros (Hf & Hnd & Hk & ->). inversion Hf as [|? e' ? l1 He Hf']; subst. simpl in Hnd. apply NoDup_cons in Hnd as [Hni Hnd].
      apply Forall_cons in Hk as [Hk1 Hk]. unfold canonical_entry in He. apply bind_ok in He as (p & Hp & He). rewrite Hp. simpl.
      destruct (canonical_metadata_path _ _ He) as [Hpath _]. simpl in Hpath. rewrite Hpath in Hk1. 
      assert (bool_decide (is_Some (t_kinds t !! p)) = false) as -> by (apply bool_decide_eq_false; rewrite Hk1; by intros [? ?]).
      cbn [reject_if mbind res_bind]. rewrite He. simpl. rewrite (proj2 (IH (record_entry t e') l1 (foldl record_entry (record_entry t e') l1))); [reflexivity|]. split_and!; try done.
      apply Forall_forall. intros e Hin. simpl. rewrite lookup_insert_ne; [by apply (proj1 (Forall_forall _ _) Hk)|].
      intros Heq. apply Hni. rewrite Heq. by apply list_elem_of_fmap_2.
Qed.
End lists.

Lemma tables_snoc l e : tables_of (l ++ [e]) = record_entry (tables_of l) e.
Proof. unfold tables_of. by rewrite foldl_app. Qed.

Lemma tables_lookup l : NoDup (map Path l) ->
  (forall p k, t_kinds (tables_of l) !! p = Some k <-> exists e, e ∈ l /\ Path e = p /\ Type_ e = k) /\
  (forall p t, t_symlinks (tables_of l) !! p = Some t <-> exists e, e ∈ l /\ Path e = p /\ Type_ e = Symlink /\ SymlinkTarget e = t).
Proof.
  induction l as [|e l IH] using rev_ind; intros Hnd.
  - split; intros p k; split; [done|by intros (? & ?%not_elem_of_nil & _)|done|by intros (? & ?%not_elem_of_nil & _)].
  - rewrite map_app in Hnd. apply NoDup_app in Hnd as (Hnd & Hdis & _). specialize (IH Hnd) as [IH1 IH2]. rewrite tables_snoc.
    assert (Hne : forall e', e' ∈ l -> Path e' <> Path e).
    { intros e' Hin Heq. apply (Hdis (Path e')); [by apply list_elem_of_fmap_2|]. rewrite Heq. by left. }
    split; intros p k; simpl.
    + rewrite lookup_insert_Some, IH1. setoid_rewrite elem_of_app. setoid_rewrite list_elem_of_singleton. split.
      * intros [[<- <-]|(Hp & e' & Hin & <- & <-)]; [exists e; split_and!; auto|exists e'; split_and!; auto].
      * intros (e' & [Hin| ->] & <- & <-); [right|by left]. split; [by apply not_eq_sym, Hne|]. by exists e'.
    + setoid_rewrite elem_of_app. setoid_rewrite list_elem_of_singleton. destruct (decide (Type_ e = Symlink)) as [Hs|Hs].
      * rewrite bool_decide_true by done. rewrite lookup_insert_Some, IH2. split.
        -- intros [[<- <-]|(Hp & e' & Hin & <- & Hrest)]; [exists e; split_and!; auto|exists e'; split_and!; tauto].
        -- intros (e' & [Hin| ->] & <- & Hrest & <-); [right|by left]. split; [by apply not_eq_sym, Hne|]. by exists e'.
      * rewrite bool_decide_false by done. rewrite IH2. split.
        -- intros (e' & Hin & Hrest). exists e'. tauto.
        -- intros (e' & [Hin| ->] & Hp & Hk & Ht); [|done]. by exists e'.
Qed.

Lemma tables_perm l l' : NoDup (map Path l) -> l ≡ₚ l' -> tables_of l = tables_of l'.
Proof.
  intros Hnd Hp. assert (Hnd' : NoDup (map Path l')) by (by rewrite <- Hp). destruct (tables_lookup l Hnd) as [H1 H2].
  destruct (tables_lookup l' Hnd') as [H1' H2']. destruct (tables_of l) as [k s], (tables_of l') as [k' s']. simpl in *. f_equal.
  - apply map_eq. intros p. apply option_eq. intros x. rewrite H1, H1'. by setoid_rewrite Hp.
  - apply map_eq. intros p. apply option_eq. intros x. rewrite H2, H2'. by setoid_rewrite Hp.
Qed.

(** The parent of an entry is a directory of the list; its link, if it is one, passes
    the traversal. *)
Definition parent_ok (t : tables) (e : Entry) : Prop :=
  forall parent, before_last_slash (Path e) = Some parent -> t_kinds t !! parent = Some Directory.
Definition link_ok (t : tables) (e : Entry) : Prop := Type_ e = Symlink -> validateSymlinkTraversal t e = Ok tt.

Lemma check_parents_ok kinds l : check_parents kinds l = Ok tt <->
  Forall (fun e => forall parent, before_last_slash (Path e) = Some parent -> kinds !! parent = Some Directory) l.
Proof.
  induction l as [|e l IH]; [done|]. rewrite Forall_cons, <- IH. simpl. destruct (before_last_slash (Path e)) as [parent|]; simpl.
  - destruct (decide (kinds !! parent = Some Directory)) as [Hd|Hd].
    + assert ((kinds !! parent != Some Directory) = false) as -> by (apply bool_decide_eq_false; tauto). simpl.
      split; [|tauto]. intros H. split; [congruence|done].
    + rewrite bool_decide_true by done. simpl. split; [done|]. intros [H _]. destruct Hd. by apply H.
  - split; [|tauto]. done.
Qed.
Lemma check_symlinks_ok t l : check_symlinks t l = Ok tt <-> Forall (link_ok t) l.
Proof.
  induction l as [|e l IH]; [done|]. rewrite Forall_cons, <- IH. simpl. unfold link_ok. destruct (decide (Type_ e = Symlink)) as [Hs|Hs].
  - rewrite bool_decide_true by done. destruct (validateSymlinkTraversal t e) as [[]|err]; simpl; [tauto|].
    split; [done|]. intros [H _]. by specialize (H Hs).
  - rewrite bool_decide_false by done. simpl. split; [|tauto]. split; [done|done].
Qed.

(** [Canonicalize] on the whole: what it accepts and what it returns. *)
Lemma Canonicalize_ok `{N : Normalizer} entries c : Canonicalize entries = Ok c <->
  exists l, Forall2 (fun e e' => canonical_entry e = Ok e') entries l /\ NoDup (map Path l) /\
    c = sort_entries_by_path l /\ Forall (parent_ok (tables_of l)) l /\ Forall (link_ok (tables_of l)) l.
Proof.
  assert (Hperm : forall (P : Entry -> Prop) l, Forall P (sort_entries_by_path l) <-> Forall P l).
  { intros P l. unfold sort_entries_by_path. by rewrite sort_by_perm. }
  unfold Canonicalize. split.
  - intros H. apply bind_ok in H as ([l t] & Hc & H). apply collect_ok in Hc as (Hf & Hnd & _ & ->). cbn [fst snd] in H.
    apply bind_ok in H as ([] & Hp & H). apply bind_ok in H as ([] & Hs & H). injection H as <-.
    apply check_parents_ok in Hp. apply check_symlinks_ok in Hs. rewrite Hperm in Hp. rewrite Hperm in Hs. by exists l.
  - intros (l & Hf & Hnd & -> & Hp & Hs). rewrite (proj2 (collect_ok entries (MkTables ∅ ∅) l (tables_of l))).
    2:{ split_and!; try done. apply Forall_forall. intros e _. apply lookup_empty. }
    cbn [mbind res_bind fst snd]. rewrite (proj2 (check_parents_ok _ _)) by (by rewrite Hperm). cbn [mbind res_bind].
    rewrite (proj2 (check_symlinks_ok _ _)) by (by rewrite Hperm). done.
Qed.

(** The tables of the canonical entries are those the checks used. *)
Lemma Canonicalize_tables `{N : Normalizer} entries c : Canonicalize entries = Ok c ->
  NoDup (map Path c) /\ StronglySorted bytes_lt (map (fun e => to_bytes (Path e)) c) /\
  Forall (parent_ok (tables_of c)) c /\ Forall (link_ok (tables_of c)) c /\
  exists l, c ≡ₚ l /\ Forall2 (fun e e' => canonical_entry e = Ok e') entries l.
Proof.
  intros (l & Hf & Hnd & -> & Hp & Hs)%Canonicalize_ok. assert (Hperm : sort_entries_by_path l ≡ₚ l) by apply sort_by_perm.
  assert (Ht : tables_of l = tables_of (sort_entries_by_path l)) by (by apply tables_perm). rewrite Ht in Hp. rewrite Ht in Hs. clear Ht.
  revert Hp Hs. generalize (tables_of (sort_entries_by_path l)). intros t Hp Hs.
  split; [by rewrite Hperm|]. split; [|split_and!; [by rewrite Hperm..|by exists l]].
  apply sort_by_strict; [apply _..|]. rewrite <- (map_map Path to_bytes). by apply NoDup_fmap_2; [apply _|].
Qed.
