(* ===== verification/ManifestTree.v ===== *)
(** * Workspace manifests: the tree a manifest denotes

    Resolution of paths in the workspace, symbolic links included, as a step relation;
    the traversal check against it; what canonical entries, encodings and root digests
    determine. *)

From S2P Require Import Prelude GoText GoStrings GoCrypto Canonical CanonicalSpec CanonicalProofs Manifest.
#[local] Open Scope string_scope.
#[local] Open Scope list_scope.
#[local] Open Scope Z_scope.
#[local] Open Scope go_scope.

(** ** Resolution

    A state is the directory reached, as its components, and the components left. *)
Abbreviation walk_state := (list string * list string)%type (only parsing).
Inductive walk (c : list Entry) : walk_state -> walk_state -> Prop :=
| walk_skip d x p : x = "" \/ x = "." -> walk c (d, x :: p) (d, p)
| walk_up d y p : walk c (d ++ [y], ".." :: p) (d, p)
| walk_down d x p e :
    plain_component x -> e ∈ c -> Path e = join_slash (d ++ [x]) -> Type_ e = Directory -> walk c (d, x :: p) (d ++ [x], p)
| walk_link d x p e :
    plain_component x -> e ∈ c -> Path e = join_slash (d ++ [x]) -> Type_ e = Symlink ->
    walk c (d, x :: p) (d, split_slash (SymlinkTarget e) ++ p).

(** The next component leaves the root of the workspace. *)
Definition escapes (st : walk_state) : Prop := exists p, st = ([], ".." :: p).
(** No state reached escapes. *)
Definition contained (c : list Entry) (st : walk_state) : Prop := forall st', rtc (walk c) st st' -> ~ escapes st'.

(** ** The traversal terminates *)
Lemma longest_target_le t p target : t_symlinks t !! p = Some target -> (length (split_slash target) <= longest_target t)%nat.
Proof.
  unfold longest_target. generalize (t_symlinks t) as m. induction m as [|k v m Hk IH] using map_ind; [done|].
  rewrite (map_fold_insert_L (fun _ target n => Nat.max (length (split_slash target)) n)); [|intros; lia|done].
  intros [[<- <-]|[_ Hp]]%lookup_insert_Some; [lia|]. specialize (IH Hp). lia.
Qed.
Lemma longest_target_pos t : (1 <= longest_target t)%nat.
Proof.
  unfold longest_target. generalize (t_symlinks t) as m. induction m as [|k v m Hk IH] using map_ind; [by rewrite map_fold_empty|].
  rewrite (map_fold_insert_L (fun _ target n => Nat.max (length (split_slash target)) n)); [lia|intros; lia|done].
Qed.

Lemma traverse_some t fuel : forall directory pending k,
  k <= maxSymlinkExpansions ->
  (length pending + Z.to_nat (maxSymlinkExpansions - k) * longest_target t < fuel)%nat -> traverse t fuel directory pending k <> None.
Proof.
  induction fuel as [|fuel IH]; intros directory pending k Hk Hf; [lia|]. simpl. destruct pending as [|x p]; [done|]. simpl in Hf.
  destruct ((x == "") || (x == ".")); [apply IH; lia|]. destruct (x == ".."); [destruct (directory == ""); [done|]; apply IH; lia|].
  destruct (t_kinds t !! _) as [[| | |]|]; try done; [apply IH; lia|].
  destruct (Z.ltb_spec maxSymlinkExpansions (k + 1)) as [|Hk']; [done|]. apply IH; [lia|]. rewrite length_app.
  set (target := t_symlinks t !! _) in *. assert (length (split_slash (default "" target)) <= longest_target t)%nat.
  { destruct target as [tg|] eqn:Ht; [by eapply longest_target_le|]. simpl. apply longest_target_pos. }
  replace (maxSymlinkExpansions - k) with (Z.succ (maxSymlinkExpansions - (k + 1))) in Hf by lia. rewrite Z2Nat.inj_succ in Hf by lia. lia.
Qed.

Lemma traversal_some t directory pending : exists answer, traverse t (traversal_fuel t pending) directory pending 1 = Some answer.
Proof.
  destruct (traverse t (traversal_fuel t pending) directory pending 1) as [answer|] eqn:H; [by exists answer|]. exfalso.
  revert H. apply traverse_some; [done|]. unfold traversal_fuel. change (Z.to_nat (maxSymlinkExpansions - 1)) with 39%nat.
  change (Z.to_nat maxSymlinkExpansions) with 40%nat. lia.
Qed.
(** The loop of [validateSymlinkTraversal] ends for every table and target: the
    fuel of the model is never spent. *)
Theorem traversal_terminates t directory pending : exists answer, traverse t (traversal_fuel t pending) directory pending 1 = Some answer.
Proof. apply traversal_some. Qed.

(** ** The traversal follows the resolution *)
Definition good_component (x : string) : Prop := no_slash x /\ plain_component x.

Lemma join_empty d : Forall good_component d -> join_slash d = "" -> d = [].
Proof.
  intros Hd. destruct d as [|x d]; [done|]. apply Forall_cons in Hd as [[_ [Hx _]] _]. destruct d as [|y d]; simpl; [done|].
  by destruct x.
Qed.
Lemma join_candidate d x : Forall good_component d ->
  (if join_slash d != "" then (join_slash d ++ "/" ++ x)%string else x) = join_slash (d ++ [x]).
Proof.
  intros Hd. destruct (decide (join_slash d = "")) as [He|He].
  - rewrite bool_decide_false by tauto. by rewrite (join_empty d Hd He).
  - rewrite bool_decide_true by done. rewrite join_snoc; [done|]. by intros ->.
Qed.

Section traversal.
Context (c : list Entry) (Hnd : NoDup (map Path c)).
#[local] Set Default Proof Using "Type*".

Lemma plain_tests x : plain_component x -> (x == "") || (x == ".") = false /\ (x == "..") = false.
Proof using Type. intros (H1 & H2 & H3). by rewrite !bool_decide_false. Qed.

(** One step of the resolution is one round of the loop. *)
Lemma traverse_step fuel d pending k st :
  Forall good_component d -> Forall no_slash pending -> walk c (d, pending) st ->
  traverse (tables_of c) (S fuel) (join_slash d) pending k = Some (Ok tt) ->
  Forall good_component st.1 /\ Forall no_slash st.2 /\ exists k', traverse (tables_of c) fuel (join_slash st.1) st.2 k' = Some (Ok tt).
Proof.
  destruct (tables_lookup c Hnd) as [Hkinds Hlinks]. intros Hd Hp Hwalk. inversion Hwalk as [d' x p Hx|d' y p|d' x p e Hx He Hpath Htype|d' x p e Hx He Hpath Htype];
    subst; simpl; apply Forall_cons in Hp as [Hxs Hp].
  - assert ((x == "") || (x == ".") = true) as -> by (bools; tauto). eauto.
  - assert (join_slash (d' ++ [y]) <> "") as Hne.
    { intros He. apply join_empty in He; [|done]. by destruct d'. }
    rewrite (bool_decide_false (join_slash (d' ++ [y]) = "")) by done. apply Forall_app in Hd as [Hd Hy].
    rewrite before_last_join by (by apply Forall_singleton in Hy as [? _]). intros H. split; [done|]. split; [done|]. exists k.
    destruct (decide (d' = [])) as [->|]; exact H.
  - destruct (plain_tests x Hx) as [-> ->]. rewrite join_candidate by done.
    rewrite (proj2 (Hkinds _ Directory)) by (exists e; split_and!; done). intros H. split; [|eauto].
    apply Forall_app. split; [done|]. apply Forall_singleton. by split.
  - destruct (plain_tests x Hx) as [-> ->]. rewrite join_candidate by done.
    rewrite (proj2 (Hkinds _ Symlink)) by (exists e; split_and!; done).
    rewrite (proj2 (Hlinks _ (SymlinkTarget e))) by (exists e; split_and!; done). simpl. destruct (maxSymlinkExpansions <? k + 1); [done|].
    intros H. split; [done|]. split; [|eauto]. apply Forall_app. split; [apply split_no_slash|done].
Qed.

Lemma traverse_safe fuel : forall d pending k,
  Forall good_component d -> Forall no_slash pending ->
  traverse (tables_of c) fuel (join_slash d) pending k = Some (Ok tt) ->
  forall n st, nsteps (walk c) n (d, pending) st -> ~ escapes st /\ (n < fuel)%nat.
Proof.
  induction fuel as [|fuel IH]; intros d pending k Hd Hp Ht n st Hn; [done|].
  inversion Hn as [|n' ? [d1 p1] ? Hw Hn']; subst.
  - split; [|lia]. intros [p Heq]. simplify_eq.
  - destruct (traverse_step fuel d pending k (d1, p1) Hd Hp Hw Ht) as (Hd1 & Hp1 & k' & Ht1).
    destruct (IH _ _ _ Hd1 Hp1 Ht1 _ _ Hn') as [He Hlt]. split; [done|lia].
Qed.
End traversal.

(** ** The directory of an entry *)
Lemma clean_plain l : forall out, Forall good_component l -> clean_components false out l = rev l ++ out.
Proof.
  induction l as [|x l IH]; intros out Hl; [done|]. apply Forall_cons in Hl as [[_ Hx] Hl]. cbn [clean_components].
  destruct (plain_tests x Hx) as [-> ->]. rewrite IH by done. simpl. by rewrite <- app_assoc.
Qed.
Lemma clean_app l out rest : Forall good_component l -> clean_components false out (l ++ rest) = clean_components false (rev l ++ out) rest.
Proof.
  revert out. induction l as [|x l IH]; intros out Hl; [done|]. apply Forall_cons in Hl as [[_ Hx] Hl]. cbn [clean_components app].
  destruct (plain_tests x Hx) as [-> ->]. rewrite IH by done. simpl. by rewrite <- app_assoc.
Qed.
Lemma not_rooted x s : no_slash x -> x <> "" -> path_IsAbs (x ++ s)%string = false.
Proof.
  intros Hx Hne. apply not_true_iff_false. unfold path_IsAbs. rewrite has_prefix_iff. intros [t Ht]. destruct x as [|a x]; [done|].
  injection Ht as -> _. apply Hx. by left.
Qed.

Lemma dir_of_path d x : Forall good_component d -> no_slash x ->
  (if path_Dir (join_slash (d ++ [x])) == "." then "" else path_Dir (join_slash (d ++ [x]))) = join_slash d.
Proof.
  intros Hd Hx. unfold path_Dir. rewrite before_last_join by done. destruct (decide (d = [])) as [->|Hne]; [done|].
  assert (path_Clean (join_slash d ++ "/") = join_slash d) as ->.
  { unfold path_Clean. assert (path_IsAbs (join_slash d ++ "/") = false) as ->.
    { destruct d as [|y d]; [done|]. apply Forall_cons in Hd as [[Hy [Hy' _]] _]. destruct d as [|z d]; [exact (not_rooted y "/" Hy Hy')|].
      rewrite join_cons by done. rewrite <- append_assoc_slash. exact (not_rooted y _ Hy Hy'). }
    change "/" with (String slash ""). rewrite <- (join_snoc d "") by done. rewrite split_join; [|by destruct d|].
    2:{ apply Forall_app. split; [|apply Forall_singleton; apply not_elem_of_nil]. eapply Forall_impl; [exact Hd|]. by intros ? [? _]. }
    rewrite clean_app by done. rewrite app_nil_r. change (clean_components false (rev d) [""]) with (rev d). rewrite rev_involutive.
    destruct (decide (join_slash d = "")) as [He|He]; [by apply join_empty in He|]. by rewrite bool_decide_false. }
  rewrite bool_decide_false; [done|]. intros He. assert (Hs : split_slash (join_slash d) = ["."]) by (by rewrite He).
  rewrite split_join in Hs; [|done|eapply Forall_impl; [exact Hd|]; by intros ? [? _]]. subst d.
  apply Forall_singleton in Hd as [_ (_ & Hdot & _)]. done.
Qed.

(** ** What canonical entries look like *)
Definition entry_normal `{Normalizer} (e : Entry) : Prop :=
  match Type_ e with
  | File => (Mode e = 420 \/ Mode e = 493) /\ 0 <= Size e <= MaxFileSize /\ matches_sha256 (ContentDigest e) = true /\ SymlinkTarget e = ""
  | Directory => Mode e = 493 /\ Size e = 0 /\ ContentDigest e = "" /\ SymlinkTarget e = ""
  | Symlink => Mode e = 511 /\ Size e = 0 /\ ContentDigest e = "" /\ SymlinkTarget e <> "" /\ nfc_text (SymlinkTarget e) /\
      path_IsAbs (SymlinkTarget e) = false
  | OtherType _ => False
  end.

Section claims.
Context {N : Normalizer} {NL : NormalizerLaws} {NS : NormalizerSuffix}.
#[local] Set Default Proof Using "Type*".

Lemma canonical_target_text entry_path r : canonical_target entry_path r = Ok r -> nfc_text r /\ r <> "" /\ path_IsAbs r = false.
Proof.
  intros H. assert (H' := H). unfold canonical_target in H. apply reject_if_ok in H as [Hv H]. cbn zeta in H. apply reject_if_ok in H as [H1 H].
  apply reject_if_ok in H as [H2 H]. apply bind_ok in H as ([] & H3 & H). apply negb_false_iff in Hv. bools in H1. destruct H1 as [[H1 Hz] Ha].
  assert (Ht : target_text (nfc r)).
  { split_and!; [by apply nfc_nfc_text|done|apply Z.ltb_ge in H2; done|done]. }
  destruct (trim_dots_text (String.length (nfc r)) _ Ht Ha) as [Ht' Ha'].
  apply reject_if_ok in H as [_ H]. injection H as <-.
  destruct (decide (trim_dots (String.length (nfc r)) (nfc r) = "")) as [He|He].
  - rewrite He. split; [by destruct dot_text|]. done.
  - rewrite bool_decide_false by done. split; [by destruct Ht'|]. done.
Qed.

Lemma canonical_entry_normal e : canonical_entry e = Ok e ->
  nfc_text (Path e) /\ Forall good_component (split_slash (Path e)) /\ entry_normal e.
Proof.
  unfold canonical_entry. intros H. apply bind_ok in H as (p & Hp & H). assert (Hpath := canonical_metadata_path _ _ H). simpl in Hpath.
  destruct Hpath as [Hpath _]. rewrite <- Hpath in Hp. apply canonical_path_ok in Hp as (Hn & Hne & Hc & _). split; [done|]. split.
  { pose proof (split_no_slash (Path e)) as Hs. clear -Hc Hs. induction Hc; [constructor|]. apply Forall_cons in Hs as [? ?].
    constructor; [by split|auto]. }
  unfold canonical_metadata in H. apply reject_if_ok in H as [_ H]. unfold entry_normal. cbn [Type_ Mode Size ContentDigest SymlinkTarget Path] in H.
  destruct (Type_ e) eqn:Ht; [| | |done].
  - apply reject_if_ok in H as [H1 H]. apply reject_if_ok in H as [H2 H]. apply reject_if_ok in H as [H3 H]. apply negb_false_iff in H3.
    bools in H1. bools in H2. injection H as H. rewrite <- H at 1 2. simpl. destruct (Z.land _ _ =? 0); split_and!; auto; lia.
  - apply reject_if_ok in H as [H1 H]. injection H as H. rewrite <- H. done.
  - apply reject_if_ok in H as [H1 H]. apply bind_ok in H as (target & Htg & H). apply canonical_target_idem in Htg.
    apply canonical_target_text in Htg as (? & ? & ?). injection H as H. rewrite <- H. done.
Qed.

Lemma Canonicalize_fixed entries c : Canonicalize entries = Ok c -> Forall (fun e => canonical_entry e = Ok e) c.
Proof.
  intros (_ & _ & _ & _ & l & Hperm & Hf)%Canonicalize_tables. rewrite Hperm. clear Hperm. induction Hf; constructor; [|done].
  by eapply canonical_entry_ok.
Qed.

(** Canonicalisation is idempotent: what [Canonicalize] returns it accepts, and
    returns unchanged. *)
Theorem canonicalize_idempotent entries c : Canonicalize entries = Ok c -> Canonicalize c = Ok c.
Proof.
  intros H. assert (Hfix := Canonicalize_fixed _ _ H). apply Canonicalize_tables in H as (Hnd & Hsort & Hp & Hl & _).
  apply Canonicalize_ok. exists c. split_and!; try done.
  - clear -Hfix. induction Hfix; by constructor.
  - symmetry. by apply sort_by_id; [apply _..|].
Qed.

(** The canonical form, its encoding and its root digest do not depend on the order
    in which the entries are listed. *)
Theorem canonicalize_order_irrelevant entries entries' c :
  entries ≡ₚ entries' -> Canonicalize entries = Ok c ->
  Canonicalize entries' = Ok c /\ MarshalCanonical entries' = MarshalCanonical entries /\ RootDigest entries' = RootDigest entries.
Proof.
  intros Hp H. assert (H' : Canonicalize entries' = Ok c).
  { apply Canonicalize_ok in H as (l & Hf & Hnd & -> & Hpar & Hl).
    assert (Hm : forall xs ys, Forall2 (fun e e' => canonical_entry e = Ok e') xs ys <-> map canonical_entry xs = map Ok ys).
    { intros xs. induction xs as [|x xs IH]; intros [|y ys]; simpl; split; intros Hx; inversion Hx; subst; try constructor; try done.
      - f_equal; [done|]. by apply IH.
      - by apply IH. }
    apply Hm in Hf. assert (Hp' : map canonical_entry entries' ≡ₚ map Ok l) by (rewrite <- Hf; by apply Permutation_map).
    apply Permutation_map_inv in Hp' as (l' & Heq & Hl'). assert (Ht := tables_perm l l' Hnd Hl').
    apply Canonicalize_ok. exists l'. split_and!; [by apply Hm|by rewrite <- Hl'| | |].
    - apply sort_by_unique; [apply _..| |done]. rewrite <- (map_map Path to_bytes). by apply NoDup_fmap_2; [apply _|].
    - rewrite <- Ht. by rewrite <- Hl'.
    - rewrite <- Ht. by rewrite <- Hl'. }
  split; [done|]. unfold MarshalCanonical, RootDigest. by rewrite H, H'.
Qed.

Lemma good_no_slash l : Forall good_component l -> Forall no_slash l.
Proof using Type. intros H. eapply Forall_impl; [exact H|]. by intros ? [? _]. Qed.

Lemma ancestor_is_directory entries c d rest : Canonicalize entries = Ok c ->
  forall e, e ∈ c -> split_slash (Path e) = d ++ rest -> d <> [] -> rest <> [] ->
  exists dir, dir ∈ c /\ Path dir = join_slash d /\ Type_ dir = Directory.
Proof.
  intros H. assert (Hfix := Canonicalize_fixed _ _ H). rewrite Forall_forall in Hfix.
  apply Canonicalize_tables in H as (Hnd & _ & Hp & _ & _). rewrite Forall_forall in Hp. destruct (tables_lookup c Hnd) as [Hk _].
  induction rest as [|x rest IH] using rev_ind; intros e He Hs Hd Hr; [done|]. destruct (canonical_entry_normal e (Hfix e He)) as (_ & Hgood & _).
  rewrite Hs in Hgood. rewrite app_assoc in Hgood, Hs. apply Forall_app in Hgood as [Hgood Hx]. apply Forall_singleton in Hx as [Hx _].
  assert (Hb : before_last_slash (Path e) = Some (join_slash (d ++ rest))).
  { rewrite <- (join_split (Path e)), Hs, before_last_join by done. rewrite decide_False; [done|]. by destruct d. }
  apply (Hp e He) in Hb. apply Hk in Hb as (dir & Hdir & Hpath & Htype). destruct rest as [|y rest]; [exists dir; by rewrite app_nil_r in Hpath|].
  apply (IH dir); try done. rewrite Hpath. apply split_join; [by destruct d|by apply good_no_slash].
Qed.

(** C27: the canonical entries are a well-formed tree in normal form: strictly increasing
    in the bytes of their paths, so without duplicates; every path has only plain,
    slash-free components; every ancestor of an entry is an entry and a directory; and
    modes, sizes, digests and targets are the normal ones of the entry's type. *)
Theorem canonical_tree entries c : Canonicalize entries = Ok c ->
  StronglySorted bytes_lt (map (fun e => to_bytes (Path e)) c) /\
  forall e, e ∈ c -> nfc_text (Path e) /\ Forall good_component (split_slash (Path e)) /\ entry_normal e /\
    forall d rest, split_slash (Path e) = d ++ rest -> d <> [] -> rest <> [] ->
      exists dir, dir ∈ c /\ Path dir = join_slash d /\ Type_ dir = Directory.
Proof.
  intros H. split; [by apply Canonicalize_tables in H as (_ & ? & _)|]. intros e He.
  destruct (canonical_entry_normal e) as (H1 & H2 & H3).
  { assert (Hfix := Canonicalize_fixed _ _ H). rewrite Forall_forall in Hfix. by apply Hfix. }
  split_and!; try done. intros d rest Hs Hd Hr. by eapply ancestor_is_directory.
Qed.

(** ** Containment *)

(** The directory an entry is in. *)
Definition home (e : Entry) : list string := removelast (split_slash (Path e)).

Lemma home_path e d x : Forall good_component d -> no_slash x -> Path e = join_slash (d ++ [x]) -> home e = d.
Proof using Type.
  intros Hd Hx Hp. unfold home. rewrite Hp, split_join; [apply removelast_last|by destruct d|].
  apply Forall_app. split; [by apply good_no_slash|by apply Forall_singleton].
Qed.

Lemma link_safe entries c e : Canonicalize entries = Ok c -> e ∈ c -> Type_ e = Symlink ->
  forall n st, nsteps (walk c) n (home e, split_slash (SymlinkTarget e)) st ->
  ~ escapes st /\ (n < traversal_fuel (tables_of c) (split_slash (SymlinkTarget e)))%nat.
Proof.
  intros H He Ht. assert (Hfix := Canonicalize_fixed _ _ H). rewrite Forall_forall in Hfix.
  destruct (canonical_entry_normal e (Hfix e He)) as (_ & Hgood & _). apply Canonicalize_tables in H as (Hnd & _ & _ & Hl & _).
  rewrite Forall_forall in Hl. specialize (Hl e He Ht). unfold validateSymlinkTraversal in Hl.
  destruct (exists_last (split_nonempty (Path e))) as (d & x & Hs). rewrite Hs in Hgood. apply Forall_app in Hgood as [Hd Hx].
  apply Forall_singleton in Hx as [Hx _]. assert (Hpath : Path e = join_slash (d ++ [x])) by (by rewrite <- Hs, join_split).
  rewrite (home_path e d x Hd Hx Hpath). rewrite Hpath in Hl. cbn zeta in Hl. rewrite dir_of_path in Hl by done.
  destruct (traversal_some (tables_of c) (join_slash d) (split_slash (SymlinkTarget e))) as [answer Ha]. rewrite Ha in Hl. simpl in Hl. subst answer.
  eapply traverse_safe; [done|done|apply split_no_slash|exact Ha].
Qed.

Lemma walk_app c d q p st : walk c (d, q ++ p) st -> q <> [] -> exists d1 q1, st = (d1, q1 ++ p) /\ walk c (d, q) (d1, q1).
Proof using Type.
  intros Hw Hq. destruct q as [|x q]; [done|]. simpl in Hw. inversion Hw; subst.
  - exists d, q. split; [done|]. by apply walk_skip.
  - eexists _, q. split; [done|]. apply walk_up.
  - eexists _, q. split; [done|]. by eapply walk_down.
  - exists d, (split_slash (SymlinkTarget e) ++ q). split; [by rewrite app_assoc|]. by eapply walk_link.
Qed.

Lemma walk_good c d p st : Forall good_component d -> Forall no_slash p -> walk c (d, p) st -> Forall good_component st.1 /\ Forall no_slash st.2.
Proof using Type.
  intros Hd Hp Hw. inversion Hw; subst; simpl; apply Forall_cons in Hp as [Hx Hp].
  - done.
  - by apply Forall_app in Hd as [? _].
  - split; [|done]. apply Forall_app. split; [done|]. apply Forall_singleton. by split.
  - split; [done|]. apply Forall_app. split; [apply split_no_slash|done].
Qed.

Lemma contained_path entries c q : Canonicalize entries = Ok c ->
  forall d p, Forall good_component d -> Forall no_slash q -> contained c (d, q) -> Forall no_slash p -> Forall (fun x => x <> "..") p ->
  contained c (d, q ++ p).
Proof.
  intros H d p Hd Hq Hc Hp Hup st Hrtc. remember (d, q ++ p) as s eqn:Hs. revert d q p Hs Hd Hq Hc Hp Hup.
  induction Hrtc as [s|s s1 st Hw Hrtc IH]; intros d q p -> Hd Hq Hc Hp Hup.
  - intros [r Heq]. destruct q as [|x q]; simplify_eq/=.
    + apply Forall_cons in Hup as [? _]. done.
    + apply (Hc _ (rtc_refl _ _)). by exists q.
  - destruct (decide (q = [])) as [->|Hne]; simpl in *.
    + destruct (walk_good _ _ _ _ Hd Hp Hw) as [Hd1 Hp1]. inversion Hw as [d' x p' Hx|d' y p'|d' x p' e Hx He Hpath Htype|d' x p' e Hx He Hpath Htype]; subst;
        apply Forall_cons in Hp as [Hxs Hp]; apply Forall_cons in Hup as [Hxu Hup].
      * by apply (IH d [] p').
      * done.
      * apply (IH (d ++ [x]) [] p'); try done. intros st' Hst' [r Heq]. inversion Hst' as [|? ? ? Hw' _]; subst; [done|]. inversion Hw'.
      * apply (IH d (split_slash (SymlinkTarget e)) p'); try done; [apply split_no_slash|]. intros st' Hst'.
        apply rtc_nsteps in Hst' as [n Hn]. rewrite <- (home_path e d x Hd Hxs Hpath) in Hn. by eapply link_safe.
    + apply walk_app in Hw as (d1 & q1 & -> & Hw); [|done]. destruct (walk_good _ _ _ _ Hd Hq Hw) as [Hd1 Hq1].
      apply (IH d1 q1 p); try done. intros st' Hst'. apply Hc. by eapply rtc_l.
Qed.

(** C28: a canonical workspace contains its links. Resolving the target of a link in its
    directory, links followed wherever they lead, never leaves the root of the workspace
    and ends within the bound of the traversal check; so no path without [..] components
    leaves the workspace, whatever links it meets. *)
Theorem symlinks_contained entries c : Canonicalize entries = Ok c ->
  (forall e, e ∈ c -> Type_ e = Symlink ->
     forall n st, nsteps (walk c) n (home e, split_slash (SymlinkTarget e)) st ->
     ~ escapes st /\ (n < traversal_fuel (tables_of c) (split_slash (SymlinkTarget e)))%nat) /\
  (forall p, Forall (fun x => x <> "..") (split_slash p) -> contained c ([], split_slash p)).
Proof.
  intros H. split; [intros e He Ht; by eapply link_safe|]. intros p Hp. apply (contained_path _ _ [] H); try done.
  - intros st Hst [r Heq]. inversion Hst as [|? ? ? Hw _]; subst; [done|]. inversion Hw.
  - apply split_no_slash.
Qed.

(** ** What an encoding determines *)
Lemma sha256_ascii d : matches_sha256 d = true -> is_ascii d = true /\ d <> "".
Proof using Type.
  unfold matches_sha256, matches_hex64, is_ascii. intros H. destruct (decide _) as [Hp|]; [|done]. cbn zeta in H.
  apply andb_prop in H as [Hl Hh]. split; [|by intros ->]. rewrite <- (take_drop (String.length "sha256:") (to_bytes d)), Hp, forallb_app.
  apply andb_true_intro. split; [done|]. apply forallb_forall. intros b Hb. rewrite forallb_forall in Hh. specialize (Hh b Hb).
  unfold is_lower_hex, in_range in Hh. bools in Hh. apply Z.ltb_lt. lia.
Qed.
Lemma text_or_nil_inj s s' : nfc s = s -> nfc s' = s' -> canon (text_or_nil s) = canon (text_or_nil s') -> s = s'.
Proof using Type.
  intros Hs Hs' H. unfold text_or_nil in H. destruct (decide (s = "")) as [->|Hn], (decide (s' = "")) as [->|Hn']; [done|..].
  - rewrite bool_decide_true, bool_decide_false in H by done. done.
  - rewrite bool_decide_false, bool_decide_true in H by done. done.
  - rewrite !bool_decide_false in H by done. simpl in H. congruence.
Qed.
Lemma entry_normal_texts e : entry_normal e -> nfc (ContentDigest e) = ContentDigest e /\ nfc (SymlinkTarget e) = SymlinkTarget e.
Proof.
  assert (Hempty : nfc "" = "") by (by apply nfc_ascii). unfold entry_normal. destruct (Type_ e); intros H; destruct_and? H; [| | |done].
  - split; [apply nfc_ascii; by apply sha256_ascii|congruence].
  - split; congruence.
  - split; [congruence|]. by match goal with Hn : nfc_text _ |- _ => destruct Hn end.
Qed.
Lemma entry_value_inj e e' : entry_normal e -> entry_normal e' -> nfc_text (Path e) -> nfc_text (Path e') ->
  canon (entry_value e) = canon (entry_value e') -> e = e'.
Proof.
  intros He He' [_ Hn] [_ Hn'] H. destruct (entry_normal_texts e He) as [Hd Ht], (entry_normal_texts e' He') as [Hd' Ht'].
  unfold entry_value in H. cbn [canon map] in H. rewrite Hn, Hn' in H. injection H as Hpath Htype Hmode Hsize Hdig Htg.
  apply text_or_nil_inj in Hdig, Htg; try done. unfold entry_normal in *.
  destruct e as [p t m s d tg], e' as [p' t' m' s' d' tg']. simpl in *. subst.
  assert (t = t') as <- by (by destruct t, t'). f_equal. destruct t; simpl in *; [by injection Hsize|destruct_and?; subst; done..].
Qed.
Lemma manifest_value_inj entries entries' c c' : Canonicalize entries = Ok c -> Canonicalize entries' = Ok c' ->
  canon (manifestValue c) = canon (manifestValue c') -> c = c'.
Proof.
  intros H H' Heq. apply Canonicalize_fixed in H, H'. unfold manifestValue in Heq. cbn [canon map] in Heq. injection Heq as Heq.
  rewrite !map_map in Heq. revert c' H' Heq. induction H as [|e c He _ IH]; intros [|e' c'] H' Heq; try done.
  apply Forall_cons in H' as [He' H']. cbn [map] in Heq. apply cons_eq_inj in Heq as [H1 H2].
  destruct (canonical_entry_normal _ He) as (Hn & _ & Hnorm), (canonical_entry_normal _ He') as (Hn' & _ & Hnorm').
  rewrite (entry_value_inj e e') by done. f_equal. by apply IH.
Qed.

(** C29: a manifest determines its tree. Two lists of entries with the same encoding have
    the same canonical entries, and two with the same root digest have the same canonical
    entries or exhibit a SHA-256 collision. *)
Theorem manifest_determines_tree entries entries' :
  (forall bs, MarshalCanonical entries = Ok bs -> MarshalCanonical entries' = Ok bs ->
     exists c, Canonicalize entries = Ok c /\ Canonicalize entries' = Ok c) /\
  (forall digest, RootDigest entries = Ok digest -> RootDigest entries' = Ok digest ->
     (exists c, Canonicalize entries = Ok c /\ Canonicalize entries' = Ok c) \/
     exists bs bs', bs <> bs' /\ sha256_Sum256 bs = sha256_Sum256 bs').
Proof.
  unfold MarshalCanonical, RootDigest. destruct (Canonicalize entries) as [c|e] eqn:Hc; [|done].
  destruct (Canonicalize entries') as [c'|e'] eqn:Hc'; [|done]. cbn [mbind res_bind]. split.
  - intros bs H H'. apply lift_err_ok in H, H'. exists c. split; [done|]. f_equal. symmetry.
    eapply manifest_value_inj; [done..|]. by eapply encode_inj; [apply default_int_options| |].
  - intros digest H H'. apply lift_err_ok in H, H'. destruct (digest_binding _ _ _ _ _ _ _ H H') as [(_ & _ & Heq)|]; [left|by right].
    exists c. split; [done|]. f_equal. symmetry. by eapply manifest_value_inj.
Qed.
End claims.

(** ** Examples *)
#[local] Existing Instance id_normalizer.
#[local] Existing Instance id_normalizer_laws.
#[local] Existing Instance id_normalizer_suffix.

Definition sample_canonical : list Entry :=
  [MkEntry "lib" Directory 493 0 "" ""; MkEntry "lib/a" File 420 3 sample_digest_text "";
   MkEntry "src" Directory 493 0 "" ""; MkEntry "src/link" Symlink 511 0 "" "../lib/a"].
Definition sample_link : Entry := MkEntry "src/link" Symlink 511 0 "" "../lib/a".

Lemma canonicalize_idempotent_witness : Canonicalize sample_entries = Ok sample_canonical /\ Canonicalize sample_canonical = Ok sample_canonical.
Proof.
  assert (H : Canonicalize sample_entries = Ok sample_canonical) by (vm_compute; reflexivity). split; [exact H|].
  exact (canonicalize_idempotent sample_entries sample_canonical H).
Defined.

Lemma canonicalize_order_irrelevant_witness : Canonicalize (rev sample_entries) = Ok sample_canonical.
Proof.
  apply (canonicalize_order_irrelevant sample_entries (rev sample_entries) sample_canonical); [apply Permutation_rev|vm_compute; reflexivity].
Defined.

Lemma canonical_tree_witness : exists dir, dir ∈ sample_canonical /\ Path dir = "src" /\ Type_ dir = Directory.
Proof.
  destruct (canonical_tree sample_entries sample_canonical) as [_ H]; [vm_compute; reflexivity|].
  destruct (H sample_link) as (_ & _ & _ & Hd); [do 3 right; left|]. apply (Hd ["src"] ["link"]); [reflexivity|discriminate|discriminate].
Defined.

Lemma symlinks_contained_witness : contained sample_canonical ([], split_slash "src/link").
Proof.
  assert (H : Canonicalize sample_entries = Ok sample_canonical) by (vm_compute; reflexivity).
  assert (Hp : Forall (fun x => x <> "..") (split_slash "src/link")) by (vm_compute; repeat constructor; discriminate).
  exact (proj2 (symlinks_contained sample_entries sample_canonical H) "src/link" Hp).
Defined.

Lemma manifest_determines_tree_witness :
  exists c, Canonicalize sample_entries = Ok c /\ Canonicalize (rev sample_entries) = Ok c.
Proof.
  destruct (MarshalCanonical sample_entries) as [bs|e] eqn:H; [|vm_compute in H; discriminate H].
  apply (proj1 (manifest_determines_tree sample_entries (rev sample_entries)) bs H). rewrite <- H. vm_compute. reflexivity.
Defined.
