(* ===== verification/ArtifactRepo.v ===== *)
(** * The artifact repository ([internal/artifact/types.go], [memory.go])

    Invocations and their reservations, artifacts, tombstones, the sweep claims that
    fence an object while its bytes are collected, and the lease of the collector. *)

From S2P Require Import Prelude GoText GoStrings GoCrypto.
#[local] Open Scope string_scope.
#[local] Open Scope list_scope.
#[local] Open Scope Z_scope.
#[local] Open Scope go_scope.

Inductive artifact_error :=
| ErrInvalidConfig | ErrInvalidRequest | ErrInvalidWorkspaceSource | ErrAccessDenied | ErrInvocationConflict | ErrInvocationAbandoned
| ErrQuotaExceeded | ErrArtifactNotFound | ErrArtifactUnavailable | ErrStorageCorruption | ErrBlobNotFound | ErrBlobVersionConflict
| ErrGCInProgress | ErrRepositoryConflict
(** the error of a context, and any other error of a dependency *)
| ErrContext | ErrDependency.
#[global] Instance artifact_error_eq_dec : EqDecision artifact_error.
Proof. solve_decision. Defined.

Abbreviation Context := (option artifact_error) (only parsing).
Definition check_ctx (ctx : Context) : res artifact_error unit := match ctx with Some e => Err e | None => Ok tt end.

(** [RetainFor] is a [time.Duration] in nanoseconds. *)
Record Metadata := MkMetadata { Name : string; MediaType : string; RetainFor : Z; Attributes : gmap string string }.
#[global] Instance Metadata_eq_dec : EqDecision Metadata.
Proof. solve_decision. Defined.

Inductive ArtifactState := ArtifactActive | ArtifactTombstoned | ArtifactPurged.
#[global] Instance ArtifactState_eq_dec : EqDecision ArtifactState.
Proof. solve_decision. Defined.

Record ArtifactRecord := MkArtifact {
  ar_ArtifactID : string; ar_TenantID : string; ar_SessionID : string; ar_WorkspaceID : string; ar_InvocationID : string;
  ar_RequestDigest : string;
  ar_SourceRevisionID : string; ar_SourcePath : string; ar_ContentDigest : string; ar_MetadataDigest : string; ar_ObjectKey : string;
  ar_Size : Z; ar_Metadata : Metadata;
  ar_CreatedAt : time; ar_RetainUntil : time; ar_State : ArtifactState; ar_TombstonedAt : option time; ar_PurgedAt : option time;
}.
#[global] Instance ArtifactRecord_eq_dec : EqDecision ArtifactRecord.
Proof. solve_decision. Defined.

Inductive InvocationState := InvocationInflight | InvocationCommitted | InvocationAbandoned.
#[global] Instance InvocationState_eq_dec : EqDecision InvocationState.
Proof. solve_decision. Defined.

Record CreateReservation := MkReservation {
  cr_TenantID : string; cr_SessionID : string; cr_WorkspaceID : string; cr_InvocationID : string; cr_RequestDigest : string;
  cr_ArtifactID : string; cr_ObjectKey : string; cr_Size : Z; cr_StartedAt : time;
  cr_SourceRevisionID : string; cr_SourcePath : string; cr_ContentDigest : string; cr_MetadataDigest : string; cr_Metadata : Metadata;
}.
#[global] Instance CreateReservation_eq_dec : EqDecision CreateReservation.
Proof. solve_decision. Defined.

(** The record of an invocation has the fields of its reservation and these. *)
Record InvocationRecord := MkInvocation {
  iv_reservation : CreateReservation; iv_HeartbeatAt : time; iv_Generation : Z; iv_State : InvocationState;
}.
#[global] Instance InvocationRecord_eq_dec : EqDecision InvocationRecord.
Proof. solve_decision. Defined.

Record CommitCreateRequest := MkCommit { cc_InvocationID : string; cc_RequestDigest : string; cc_Generation : Z; cc_Artifact : ArtifactRecord }.
Record SweepClaim := MkClaim { sc_ObjectKey : string; sc_ObjectVersion : string; sc_Token : Z; sc_LeaseToken : Z }.
#[global] Instance SweepClaim_eq_dec : EqDecision SweepClaim.
Proof. solve_decision. Defined.
Record GCCheckpoint := MkCheckpoint { ExpiredCursor : string; InflightCursor : string; SweepCursor : string; BlobEpoch : string; BlobCursor : string }.
Record GCLease := MkLease { gl_Token : Z; gl_ExpiresAt : time; gl_Checkpoint : GCCheckpoint }.
Definition no_checkpoint : GCCheckpoint := MkCheckpoint "" "" "" "" "".

Definition maximumGCBatchSize : Z := 4096.

(** ** The state

    The entry of a sweep is shared by [sweeps] and the heap [sweepQueue], which hold the
    same entries; the heap is their order. *)
Record memorySweepEntry := MkSweep { sw_claim : SweepClaim; sw_order : Z }.
#[global] Instance memorySweepEntry_eq_dec : EqDecision memorySweepEntry.
Proof. solve_decision. Defined.
Record accounts := MkAccounts { quotas : gmap string Z; used : gmap string Z; reserved : gmap string Z }.
Record invocation_table := MkInvocations {
  invocations : gmap string InvocationRecord; invocationOrder : list string; artifactReservations : gmap string string;
  inflightByObject : gmap string Z;
}.
Record artifact_table := MkArtifacts {
  artifacts : gmap string ArtifactRecord; artifactOrder : list string; activeByObject : gmap string Z;
  latestTombstoneByObject : gmap string time; artifactIDsByObject : gmap string (list string);
}.
Record sweep_table := MkSweeps { sweeps : gmap string memorySweepEntry; nextSweepToken : Z; nextSweepOrder : Z }.
Record gc_state := MkGC { gcCheckpoint : GCCheckpoint; gcLease : option GCLease; nextGCLeaseToken : Z }.
Record MemoryRepository := MkRepository {
  r_accounts : accounts; r_invocations : invocation_table; r_artifacts : artifact_table; r_sweeps : sweep_table; r_gc : gc_state;
}.

Definition NewMemoryRepository (tenantQuotaBytes : gmap string Z) : MemoryRepository :=
  MkRepository (MkAccounts tenantQuotaBytes ∅ ∅) (MkInvocations ∅ [] ∅ ∅) (MkArtifacts ∅ [] ∅ ∅ ∅) (MkSweeps ∅ 0 0) (MkGC no_checkpoint None 0).

(** A missing entry of a map of numbers reads as 0. *)
Definition count_of (m : gmap string Z) (k : string) : Z := default 0 (m !! k).
Definition bump (k : string) (n : Z) (m : gmap string Z) : gmap string Z := <[k := i64 (count_of m k + n)]> m.
(** The counters of records in the maps are far from the ends of [int]. *)
Definition tally (k : string) (n : Z) (m : gmap string Z) : gmap string Z := <[k := count_of m k + n]> m.

Definition with_accounts (r : MemoryRepository) (used' reserved' : gmap string Z -> gmap string Z) : MemoryRepository :=
  MkRepository (MkAccounts (quotas (r_accounts r)) (used' (used (r_accounts r))) (reserved' (reserved (r_accounts r))))
    (r_invocations r) (r_artifacts r) (r_sweeps r) (r_gc r).
Definition with_invocations (r : MemoryRepository) (t : invocation_table) : MemoryRepository :=
  MkRepository (r_accounts r) t (r_artifacts r) (r_sweeps r) (r_gc r).
Definition with_artifacts (r : MemoryRepository) (t : artifact_table) : MemoryRepository :=
  MkRepository (r_accounts r) (r_invocations r) t (r_sweeps r) (r_gc r).
Definition with_sweeps (r : MemoryRepository) (t : sweep_table) : MemoryRepository :=
  MkRepository (r_accounts r) (r_invocations r) (r_artifacts r) t (r_gc r).
Definition with_gc (r : MemoryRepository) (t : gc_state) : MemoryRepository :=
  MkRepository (r_accounts r) (r_invocations r) (r_artifacts r) (r_sweeps r) t.

(** An operation answers and leaves the repository; on an error it leaves it unchanged. *)
Definition commit_on_success {A} (r : MemoryRepository) (m : res artifact_error (A * MemoryRepository)) : res artifact_error A * MemoryRepository :=
  match m with Ok (a, r') => (Ok a, r') | Err e => (Err e, r) end.

(** ** Invocations *)
Definition LookupInvocation (ctx : Context) (r : MemoryRepository) (invocationID : string) : res artifact_error (option InvocationRecord) :=
  _ ← check_ctx ctx;
  Ok (invocations (r_invocations r) !! invocationID).

Definition begin_create (ctx : Context) (r : MemoryRepository) (request : CreateReservation)
    : res artifact_error (InvocationRecord * bool * MemoryRepository) :=
  _ ← check_ctx ctx;
  let t := r_invocations r in
  match invocations t !! cr_InvocationID request with
  | Some existing =>
      _ ← reject_if ((cr_TenantID (iv_reservation existing) != cr_TenantID request)
                     || (cr_RequestDigest (iv_reservation existing) != cr_RequestDigest request)) ErrInvocationConflict;
      Ok (existing, true, r)
  | None =>
      _ ← reject_if (bool_decide (is_Some (sweeps (r_sweeps r) !! cr_ObjectKey request))) ErrGCInProgress;
      let a := r_accounts r in
      let tenant := cr_TenantID request in
      _ ← match quotas a !! tenant with
          | None => Err ErrQuotaExceeded
          | Some quota =>
              reject_if ((quota <? 0) || (cr_Size request <? 0)
                         || (i64 (i64 (quota - count_of (used a) tenant) - count_of (reserved a) tenant) <? cr_Size request)) ErrQuotaExceeded
          end;
      _ ← reject_if (bool_decide (is_Some (artifacts (r_artifacts r) !! cr_ArtifactID request))) ErrRepositoryConflict;
      _ ← reject_if (bool_decide (is_Some (artifactReservations t !! cr_ArtifactID request))) ErrRepositoryConflict;
      let record := MkInvocation request (cr_StartedAt request) 1 InvocationInflight in
      let t' := MkInvocations (<[cr_InvocationID request := record]> (invocations t)) (invocationOrder t ++ [cr_InvocationID request])
        (<[cr_ArtifactID request := cr_InvocationID request]> (artifactReservations t)) (tally (cr_ObjectKey request) 1 (inflightByObject t)) in
      Ok (record, false, with_accounts (with_invocations r t') (fun u => u) (bump tenant (cr_Size request)))
  end.
Definition BeginCreate ctx r request := commit_on_success r (begin_create ctx r request).

Definition set_invocation (r : MemoryRepository) (invocationID : string) (record : InvocationRecord) : MemoryRepository :=
  let t := r_invocations r in
  with_invocations r (MkInvocations (<[invocationID := record]> (invocations t)) (invocationOrder t) (artifactReservations t) (inflightByObject t)).

Definition heartbeat_create (ctx : Context) (r : MemoryRepository) (invocationID requestDigest : string) (generation : Z) (now : time)
    : res artifact_error (InvocationRecord * MemoryRepository) :=
  _ ← check_ctx ctx;
  match invocations (r_invocations r) !! invocationID with
  | None => Err ErrRepositoryConflict
  | Some record =>
      _ ← reject_if (cr_RequestDigest (iv_reservation record) != requestDigest) ErrInvocationConflict;
      _ ← reject_if (iv_State record == InvocationAbandoned) ErrInvocationAbandoned;
      _ ← reject_if (iv_Generation record != generation) ErrRepositoryConflict;
      if iv_State record == InvocationCommitted then Ok (record, r)
      else if iv_HeartbeatAt record <? now then
        let record' := MkInvocation (iv_reservation record) now (iv_Generation record) (iv_State record) in
        Ok (record', set_invocation r invocationID record')
      else Ok (record, r)
  end.
Definition HeartbeatCreate ctx r invocationID requestDigest generation now :=
  commit_on_success r (heartbeat_create ctx r invocationID requestDigest generation now).

Definition commit_create (ctx : Context) (r : MemoryRepository) (request : CommitCreateRequest)
    : res artifact_error (ArtifactRecord * bool * MemoryRepository) :=
  _ ← check_ctx ctx;
  match invocations (r_invocations r) !! cc_InvocationID request with
  | None => Err ErrRepositoryConflict
  | Some invocation =>
      let v := iv_reservation invocation in
      _ ← reject_if (cr_RequestDigest v != cc_RequestDigest request) ErrInvocationConflict;
      _ ← reject_if (iv_State invocation == InvocationAbandoned) ErrInvocationAbandoned;
      if iv_State invocation == InvocationCommitted then
        match artifacts (r_artifacts r) !! cr_ArtifactID v with
        | None => Err ErrStorageCorruption
        | Some existing => Ok (existing, true, r)
        end
      else
        let a := cc_Artifact request in
        let key := ar_ObjectKey a in
        _ ← reject_if (iv_Generation invocation != cc_Generation request) ErrRepositoryConflict;
        _ ← reject_if ((ar_ArtifactID a != cr_ArtifactID v) || (ar_TenantID a != cr_TenantID v) || (ar_InvocationID a != cr_InvocationID v)
                       || (ar_RequestDigest a != cr_RequestDigest v) || (ar_ObjectKey a != cr_ObjectKey v) || (ar_Size a != cr_Size v)
                       || (ar_State a != ArtifactActive)) ErrRepositoryConflict;
        let t := r_artifacts r in
        _ ← reject_if (bool_decide (is_Some (artifacts t !! ar_ArtifactID a))) ErrRepositoryConflict;
        let i := r_invocations r in
        let r1 := with_artifacts r (MkArtifacts (<[ar_ArtifactID a := a]> (artifacts t)) (artifactOrder t ++ [ar_ArtifactID a])
          (tally key 1 (activeByObject t)) (latestTombstoneByObject t)
          (<[key := default [] (artifactIDsByObject t !! key) ++ [ar_ArtifactID a]]> (artifactIDsByObject t))) in
        let r2 := with_invocations r1 (MkInvocations
          (<[cc_InvocationID request := MkInvocation v (iv_HeartbeatAt invocation) (iv_Generation invocation) InvocationCommitted]> (invocations i))
          (invocationOrder i) (artifactReservations i) (tally key (-1) (inflightByObject i))) in
        Ok (a, false, with_accounts r2 (bump (ar_TenantID a) (ar_Size a)) (bump (ar_TenantID a) (- ar_Size a)))
  end.
Definition CommitCreate ctx r request := commit_on_success r (commit_create ctx r request).

Definition GetArtifact (ctx : Context) (r : MemoryRepository) (artifactID : string) : res artifact_error ArtifactRecord :=
  _ ← check_ctx ctx;
  match artifacts (r_artifacts r) !! artifactID with Some record => Ok record | None => Err ErrArtifactNotFound end.

(** ** Tombstones *)
Definition recordTombstoneLocked (objectKey : string) (instant : time) (latest : gmap string time) : gmap string time :=
  match latest !! objectKey with
  | Some l => if l <? instant then <[objectKey := instant]> latest else latest
  | None => <[objectKey := instant]> latest
  end.
(** The writes that tombstone an active record. *)
Definition tombstone (r : MemoryRepository) (artifactID tenantID : string) (record : ArtifactRecord) (instant : time) : ArtifactRecord * MemoryRepository :=
  let record' := MkArtifact (ar_ArtifactID record) (ar_TenantID record) (ar_SessionID record) (ar_WorkspaceID record) (ar_InvocationID record)
    (ar_RequestDigest record) (ar_SourceRevisionID record) (ar_SourcePath record) (ar_ContentDigest record) (ar_MetadataDigest record)
    (ar_ObjectKey record) (ar_Size record) (ar_Metadata record) (ar_CreatedAt record) (ar_RetainUntil record) ArtifactTombstoned
    (Some instant) (ar_PurgedAt record) in
  let t := r_artifacts r in
  let key := ar_ObjectKey record in
  (record', with_accounts (with_artifacts r (MkArtifacts (<[artifactID := record']> (artifacts t)) (artifactOrder t) (tally key (-1) (activeByObject t))
     (recordTombstoneLocked key instant (latestTombstoneByObject t)) (artifactIDsByObject t)))
     (bump tenantID (- ar_Size record)) (fun m => m)).

Definition tombstone_artifact (ctx : Context) (r : MemoryRepository) (artifactID tenantID : string) (now : time)
    : res artifact_error (ArtifactRecord * bool * MemoryRepository) :=
  _ ← check_ctx ctx;
  match artifacts (r_artifacts r) !! artifactID with
  | None => Err ErrArtifactNotFound
  | Some record =>
      _ ← reject_if (ar_TenantID record != tenantID) ErrAccessDenied;
      if ar_State record != ArtifactActive then Ok (record, false, r)
      else let '(record', r') := tombstone r artifactID tenantID record now in Ok (record', true, r')
  end.
Definition TombstoneArtifact ctx r artifactID tenantID now := commit_on_success r (tombstone_artifact ctx r artifactID tenantID now).

(** The body of the loops over artifacts; an artifact of [artifactOrder] is in the map. *)
Definition expire_one (now : time) (acc : Z * MemoryRepository) (artifactID : string) : Z * MemoryRepository :=
  let '(count, r) := acc in
  match artifacts (r_artifacts r) !! artifactID with
  | None => acc
  | Some record =>
      if (ar_State record != ArtifactActive) || (now <? ar_RetainUntil record) then acc
      else (count + 1, (tombstone r artifactID (ar_TenantID record) record now).2)
  end.
(** [range repository.artifacts] visits the artifacts in some order. *)
Definition TombstoneExpired (ctx : Context) (r : MemoryRepository) (now : time) : res artifact_error Z * MemoryRepository :=
  commit_on_success r (_ ← check_ctx ctx; Ok (foldl (expire_one now) (0, r) (map fst (map_to_list (artifacts (r_artifacts r)))))).

(** [strings.IndexByte(cursor, ':')] splits the cursor. *)
Fixpoint before_colon (s : string) : option (string * string) :=
  match s with
  | EmptyString => None
  | String a rest => if decide (a = ":"%char) then Some ("", rest) else match before_colon rest with Some (x, y) => Some (String a x, y) | None => None end
  end.
Definition memoryPageBounds (cursor : string) (total limit : Z) : res artifact_error (Z * Z * string * bool) :=
  bounds ← (if cursor == "" then Ok (0, total)
            else match before_colon cursor with
                 | Some (x, y) =>
                     if (x == "") || (y == "") then Err ErrRepositoryConflict
                     else match strconv_Atoi x, strconv_Atoi y with
                          | Some start, Some highwater =>
                              if (start <? 0) || (highwater <? start) || (total <? highwater) then Err ErrRepositoryConflict else Ok (start, highwater)
                          | _, _ => Err ErrRepositoryConflict
                          end
                 | None => Err ErrRepositoryConflict
                 end);
  let '(start, highwater) := bounds in
  let stop := if highwater <? start + limit then highwater else start + limit in
  let done := stop =? highwater in
  Ok (start, stop, (if done then "" else (strconv_Itoa stop ++ ":" ++ strconv_Itoa highwater)%string), done).
Definition slice {A} (l : list A) (start stop : Z) : list A := take (Z.to_nat (stop - start)) (drop (Z.to_nat start) l).

(** The lease is held under this token. *)
Definition lease_current (r : MemoryRepository) (lease : GCLease) : bool :=
  match gcLease (r_gc r) with Some l => gl_Token l =? gl_Token lease | None => false end.

(** One page of a scan: its count, the next cursor and whether it is done. *)
Definition scan_page (ctx : Context) (r : MemoryRepository) (lease : GCLease) (after : string) (limit : Z) (order : list string)
    (one : Z * MemoryRepository -> string -> Z * MemoryRepository) : res artifact_error (Z * string * bool * MemoryRepository) :=
  _ ← check_ctx ctx;
  _ ← reject_if ((limit <=? 0) || (maximumGCBatchSize <? limit)) ErrInvalidRequest;
  _ ← reject_if (negb (lease_current r lease)) ErrRepositoryConflict;
  bounds ← memoryPageBounds after (zlen order) limit;
  let '(start, stop, next, done) := bounds in
  let '(count, r') := foldl one (0, r) (slice order start stop) in
  Ok (count, next, done, r').
Definition TombstoneExpiredPage (ctx : Context) (r : MemoryRepository) (lease : GCLease) (now : time) (after : string) (limit : Z) :=
  commit_on_success r (scan_page ctx r lease after limit (artifactOrder (r_artifacts r)) (expire_one now)).

(** ** Abandoned invocations *)
Definition abandon (r : MemoryRepository) (invocationID : string) (record : InvocationRecord) : MemoryRepository :=
  let v := iv_reservation record in
  let t := r_invocations r in
  let record' := MkInvocation v (iv_HeartbeatAt record) (u64 (iv_Generation record + 1)) InvocationAbandoned in
  with_accounts (with_invocations r (MkInvocations (<[invocationID := record']> (invocations t)) (invocationOrder t) (artifactReservations t)
    (tally (cr_ObjectKey v) (-1) (inflightByObject t)))) (fun m => m) (bump (cr_TenantID v) (- cr_Size v)).
Definition abandon_one (stale : InvocationRecord -> bool) (acc : Z * MemoryRepository) (invocationID : string) : Z * MemoryRepository :=
  let '(count, r) := acc in
  match invocations (r_invocations r) !! invocationID with
  | None => acc
  | Some record => if (iv_State record != InvocationInflight) || negb (stale record) then acc else (count + 1, abandon r invocationID record)
  end.
Definition AbandonInflight (ctx : Context) (r : MemoryRepository) (startedBefore : time) : res artifact_error Z * MemoryRepository :=
  commit_on_success r (_ ← check_ctx ctx;
    Ok (foldl (abandon_one (fun v => cr_StartedAt (iv_reservation v) <=? startedBefore)) (0, r) (map fst (map_to_list (invocations (r_invocations r)))))).
Definition AbandonInflightPage (ctx : Context) (r : MemoryRepository) (lease : GCLease) (heartbeatBefore : time) (after : string) (limit : Z) :=
  commit_on_success r (scan_page ctx r lease after limit (invocationOrder (r_invocations r)) (abandon_one (fun v => iv_HeartbeatAt v <=? heartbeatBefore))).

(** ** The collector's lease *)
Definition acquire_gc (ctx : Context) (r : MemoryRepository) (now duration : Z) : res artifact_error (option GCLease * MemoryRepository) :=
  _ ← check_ctx ctx;
  _ ← reject_if (duration <=? 0) ErrInvalidRequest;
  let g := r_gc r in
  if match gcLease g with Some l => now <? gl_ExpiresAt l | None => false end then Ok (None, r)
  else
    let token := u64 (nextGCLeaseToken g + 1) in
    let lease := MkLease token (now + duration) (gcCheckpoint g) in
    Ok (Some lease, with_gc r (MkGC (gcCheckpoint g) (Some lease) token)).
Definition AcquireGC ctx r now duration := commit_on_success r (acquire_gc ctx r now duration).

Definition renew_gc (ctx : Context) (r : MemoryRepository) (lease : GCLease) (now duration : Z) : res artifact_error (GCLease * MemoryRepository) :=
  _ ← check_ctx ctx;
  _ ← reject_if (duration <=? 0) ErrInvalidRequest;
  match gcLease (r_gc r) with
  | None => Err ErrRepositoryConflict
  | Some l =>
      _ ← reject_if ((gl_Token l != gl_Token lease) || (gl_ExpiresAt l <=? now)) ErrRepositoryConflict;
      let l' := MkLease (gl_Token l) (now + duration) (gl_Checkpoint l) in
      Ok (l', with_gc r (MkGC (gcCheckpoint (r_gc r)) (Some l') (nextGCLeaseToken (r_gc r))))
  end.
Definition RenewGC ctx r lease now duration := commit_on_success r (renew_gc ctx r lease now duration).

Definition release_gc (ctx : Context) (r : MemoryRepository) (lease : GCLease) (checkpoint : GCCheckpoint) : res artifact_error (unit * MemoryRepository) :=
  _ ← check_ctx ctx;
  _ ← reject_if (negb (lease_current r lease)) ErrRepositoryConflict;
  Ok (tt, with_gc r (MkGC checkpoint None (nextGCLeaseToken (r_gc r)))).
Definition ReleaseGC ctx r lease checkpoint := commit_on_success r (release_gc ctx r lease checkpoint).

(** ** Sweeps *)

(** [Less] of the heap. *)
Definition sweep_lt (a b : Z * bytes) : Prop := a.1 < b.1 \/ (a.1 = b.1 /\ bytes_lt a.2 b.2).
#[global] Instance sweep_lt_dec a b : Decision (sweep_lt a b).
Proof. unfold sweep_lt. apply _. Defined.
Definition sweep_rank (e : memorySweepEntry) : Z * bytes := (sw_order e, to_bytes (sc_ObjectKey (sw_claim e))).
Definition sweep_queue (r : MemoryRepository) : list memorySweepEntry := sort_by sweep_lt sweep_rank (map snd (map_to_list (sweeps (r_sweeps r)))).

Definition PendingSweeps (ctx : Context) (r : MemoryRepository) : res artifact_error (list SweepClaim) :=
  _ ← check_ctx ctx;
  Ok (sort_by bytes_lt (fun c => to_bytes (sc_ObjectKey c)) (map (fun p => sw_claim p.2) (map_to_list (sweeps (r_sweeps r))))).

(** An entry goes to the end of the queue, under the lease. *)
Definition requeue (lease : GCLease) (acc : list SweepClaim * sweep_table) (entry : memorySweepEntry) : list SweepClaim * sweep_table :=
  let '(claims, t) := acc in
  let order := u64 (nextSweepOrder t + 1) in
  let c := sw_claim entry in
  let claim := MkClaim (sc_ObjectKey c) (sc_ObjectVersion c) (sc_Token c) (gl_Token lease) in
  (claims ++ [claim], MkSweeps (<[sc_ObjectKey c := MkSweep claim order]> (sweeps t)) (nextSweepToken t) order).
Definition pending_sweeps_page (ctx : Context) (r : MemoryRepository) (lease : GCLease) (limit : Z)
    : res artifact_error (list SweepClaim * string * bool * MemoryRepository) :=
  _ ← check_ctx ctx;
  _ ← reject_if ((limit <=? 0) || (maximumGCBatchSize <? limit)) ErrInvalidRequest;
  _ ← reject_if (negb (lease_current r lease)) ErrRepositoryConflict;
  let '(claims, t) := foldl (requeue lease) ([], r_sweeps r) (take (Z.to_nat limit) (sweep_queue r)) in
  Ok (claims, "", true, with_sweeps r t).
Definition PendingSweepsPage ctx r lease (cursor : string) limit := commit_on_success r (pending_sweeps_page ctx r lease limit).

(** No reference to the object, and none tombstoned after the cutoff. *)
Definition sweepable (r : MemoryRepository) (objectKey : string) (tombstonedBefore : time) : bool :=
  bool_decide (sweeps (r_sweeps r) !! objectKey = None)
  && negb ((count_of (inflightByObject (r_invocations r)) objectKey != 0) || (count_of (activeByObject (r_artifacts r)) objectKey != 0))
  && match latestTombstoneByObject (r_artifacts r) !! objectKey with Some latest => latest <=? tombstonedBefore | None => true end.
Definition add_sweep (r : MemoryRepository) (objectKey objectVersion : string) (leaseToken : Z) : SweepClaim * MemoryRepository :=
  let t := r_sweeps r in
  let token := u64 (nextSweepToken t + 1) in
  let order := u64 (nextSweepOrder t + 1) in
  let claim := MkClaim objectKey objectVersion token leaseToken in
  (claim, with_sweeps r (MkSweeps (<[objectKey := MkSweep claim order]> (sweeps t)) token order)).

Definition claim_sweep (ctx : Context) (r : MemoryRepository) (objectKey : string) (tombstonedBefore : time)
    : res artifact_error (option SweepClaim * MemoryRepository) :=
  _ ← check_ctx ctx;
  if sweepable r objectKey tombstonedBefore then let '(claim, r') := add_sweep r objectKey "" 0 in Ok (Some claim, r') else Ok (None, r).
Definition ClaimSweep ctx r objectKey tombstonedBefore := commit_on_success r (claim_sweep ctx r objectKey tombstonedBefore).

Definition claim_sweep_leased (ctx : Context) (r : MemoryRepository) (lease : GCLease) (objectKey objectVersion : string) (tombstonedBefore : time)
    : res artifact_error (option SweepClaim * MemoryRepository) :=
  _ ← check_ctx ctx;
  _ ← reject_if (negb (lease_current r lease) || (objectKey == "") || (objectVersion == "")) ErrRepositoryConflict;
  if sweepable r objectKey tombstonedBefore
  then let '(claim, r') := add_sweep r objectKey objectVersion (gl_Token lease) in Ok (Some claim, r') else Ok (None, r).
Definition ClaimSweepLeased ctx r lease objectKey objectVersion tombstonedBefore :=
  commit_on_success r (claim_sweep_leased ctx r lease objectKey objectVersion tombstonedBefore).

Definition removeSweepLocked (r : MemoryRepository) (objectKey : string) : MemoryRepository :=
  let t := r_sweeps r in with_sweeps r (MkSweeps (delete objectKey (sweeps t)) (nextSweepToken t) (nextSweepOrder t)).
Definition claim_current (r : MemoryRepository) (claim : SweepClaim) : bool :=
  match sweeps (r_sweeps r) !! sc_ObjectKey claim with Some e => sw_claim e == claim | None => false end.

(** The tombstoned artifacts of a deleted object are purged. *)
Definition purge_one (now : time) (acc : Z * gmap string ArtifactRecord) (artifactID : string) : Z * gmap string ArtifactRecord :=
  let '(count, m) := acc in
  match m !! artifactID with
  | None => acc
  | Some record =>
      if ar_State record != ArtifactTombstoned then acc
      else (count + 1, <[artifactID := MkArtifact (ar_ArtifactID record) (ar_TenantID record) (ar_SessionID record) (ar_WorkspaceID record)
        (ar_InvocationID record) (ar_RequestDigest record) (ar_SourceRevisionID record) (ar_SourcePath record) (ar_ContentDigest record)
        (ar_MetadataDigest record) (ar_ObjectKey record) (ar_Size record) (ar_Metadata record) (ar_CreatedAt record) (ar_RetainUntil record)
        ArtifactPurged (ar_TombstonedAt record) (Some now)]> m)
  end.
Definition finish (r : MemoryRepository) (claim : SweepClaim) (deleted : bool) (now : time) : Z * MemoryRepository :=
  if negb deleted then (0, r)
  else
    let key := sc_ObjectKey claim in
    let r1 := removeSweepLocked r key in
    let t := r_artifacts r1 in
    let '(count, m) := foldl (purge_one now) (0, artifacts t) (default [] (artifactIDsByObject t !! key)) in
    (count, with_artifacts r1 (MkArtifacts m (artifactOrder t) (activeByObject t) (delete key (latestTombstoneByObject t)) (artifactIDsByObject t))).

Definition finish_sweep (ctx : Context) (r : MemoryRepository) (claim : SweepClaim) (deleted : bool) (now : time)
    : res artifact_error (Z * MemoryRepository) :=
  _ ← check_ctx ctx;
  _ ← reject_if (negb (claim_current r claim)) ErrRepositoryConflict;
  Ok (finish r claim deleted now).
Definition FinishSweep ctx r claim deleted now := commit_on_success r (finish_sweep ctx r claim deleted now).

Definition retire_sweep_leased (ctx : Context) (r : MemoryRepository) (lease : GCLease) (claim : SweepClaim) : res artifact_error (unit * MemoryRepository) :=
  _ ← check_ctx ctx;
  _ ← reject_if (negb (lease_current r lease) || (sc_LeaseToken claim != gl_Token lease)) ErrRepositoryConflict;
  _ ← reject_if (negb (claim_current r claim)) ErrRepositoryConflict;
  Ok (tt, removeSweepLocked r (sc_ObjectKey claim)).
Definition RetireSweepLeased ctx r lease claim := commit_on_success r (retire_sweep_leased ctx r lease claim).

Definition finish_sweep_leased (ctx : Context) (r : MemoryRepository) (lease : GCLease) (claim : SweepClaim) (deleted : bool) (now : time)
    : res artifact_error (Z * MemoryRepository) :=
  _ ← check_ctx ctx;
  _ ← reject_if (negb (lease_current r lease) || (sc_LeaseToken claim != gl_Token lease)) ErrRepositoryConflict;
  _ ← reject_if (negb (claim_current r claim)) ErrRepositoryConflict;
  Ok (finish r claim deleted now).
Definition FinishSweepLeased ctx r lease claim deleted now := commit_on_success r (finish_sweep_leased ctx r lease claim deleted now).

Record RepositoryStats := MkStats { Artifacts : Z; Invocations : Z; UsedBytes : Z; ReservedBytes : Z }.
Definition Stats (r : MemoryRepository) (tenantID : string) : RepositoryStats :=
  MkStats (zlen (filter (fun p => ar_TenantID p.2 = tenantID) (map_to_list (artifacts (r_artifacts r)))))
    (zlen (filter (fun p => cr_TenantID (iv_reservation p.2) = tenantID) (map_to_list (invocations (r_invocations r)))))
    (count_of (used (r_accounts r)) tenantID) (count_of (reserved (r_accounts r)) tenantID).

(** ** The artifact blob store ([internal/artifact/memory.go], [MemoryBlobStore])

    Immutable objects with a version per incarnation, and the history that lets an
    enumeration keep the snapshot it began with. *)

Record BlobPut := MkPut { bp_Key : string; bp_Digest : string; bp_Data : bytes; bp_CreatedAt : time }.
Record BlobObject := MkObject { bo_Key : string; bo_Version : string; bo_Digest : string; bo_Data : bytes; bo_CreatedAt : time }.
Record BlobInfo := MkInfo { bi_Key : string; bi_Version : string; bi_Digest : string; bi_Size : Z; bi_CreatedAt : time }.
Record BlobListRequest := MkListRequest { lr_Epoch : string; lr_Cursor : string; lr_Limit : Z }.
Record BlobListPage := MkPage { pg_Epoch : string; pg_NextCursor : string; pg_Objects : list BlobInfo; pg_Done : bool }.

(** [validDigest]: 71 bytes, the prefix, lower case, and the hexadecimal form of 32 bytes. *)
Definition validDigest (value : string) : bool := matches_sha256 value.
Definition digestBytes (data : bytes) : string := sha256_text data.

Record memoryBlobHistory := MkHistory { hi_info : BlobInfo; hi_createdMutation : Z; hi_deletedMutation : Z }.
Record MemoryBlobStore := MkStore {
  objects : gmap string BlobObject;
  activeHistory : gmap string Z;
  history : list memoryBlobHistory;
  mutation : Z;
  failAfterPut : option artifact_error;
  failAfterDelete : option artifact_error;
  nextObjectVersion : Z;
}.
Definition NewMemoryBlobStore : MemoryBlobStore := MkStore ∅ ∅ [] 0 None None 0.

Definition version_text (n : Z) : string := ("memory-object-" ++ strconv_Itoa n)%string.
Definition object_info (o : BlobObject) : BlobInfo := MkInfo (bo_Key o) (bo_Version o) (bo_Digest o) (zlen (bo_Data o)) (bo_CreatedAt o).

(** An error set by [FailAfterPut] is answered after the write took effect. *)
Definition fails (e : option artifact_error) : res artifact_error unit := match e with Some e => Err e | None => Ok tt end.

Definition PutIfAbsent (ctx : Context) (s : MemoryBlobStore) (request : BlobPut) : res artifact_error unit * MemoryBlobStore :=
  match ctx with
  | Some e => (Err e, s)
  | None =>
      if (bp_Key request == "") || negb (validDigest (bp_Digest request)) || (bp_Digest request != digestBytes (bp_Data request))
         || time_IsZero (bp_CreatedAt request)
      then (Err ErrStorageCorruption, s)
      else match objects s !! bp_Key request with
      | Some existing =>
          if (bo_Digest existing != bp_Digest request) || (bo_Data existing != bp_Data request) then (Err ErrStorageCorruption, s)
          else (fails (failAfterPut s), s)
      | None =>
          let version := u64 (nextObjectVersion s + 1) in
          let m := u64 (mutation s + 1) in
          let object := MkObject (bp_Key request) (version_text version) (bp_Digest request) (bp_Data request) (bp_CreatedAt request) in
          (fails (failAfterPut s),
           MkStore (<[bp_Key request := object]> (objects s)) (<[bp_Key request := zlen (history s)]> (activeHistory s))
             (history s ++ [MkHistory (object_info object) m 0]) m (failAfterPut s) (failAfterDelete s) version)
      end
  end.

Definition Get (ctx : Context) (s : MemoryBlobStore) (key : string) : res artifact_error BlobObject :=
  match ctx with Some e => Err e | None => match objects s !! key with Some o => Ok o | None => Err ErrBlobNotFound end end.
Definition Head (ctx : Context) (s : MemoryBlobStore) (key : string) : res artifact_error BlobInfo :=
  match ctx with Some e => Err e | None => match objects s !! key with Some o => Ok (object_info o) | None => Err ErrBlobNotFound end end.
Definition List (ctx : Context) (s : MemoryBlobStore) : res artifact_error (list BlobInfo) :=
  match ctx with
  | Some e => Err e
  | None => Ok (sort_by bytes_lt (fun i => to_bytes (bi_Key i)) (map (fun p => object_info p.2) (map_to_list (objects s))))
  end.

(** The snapshot of an epoch: the mutation it shows and the length of the history. *)
Definition epoch_bounds (s : MemoryBlobStore) (epoch : string) : res artifact_error (Z * Z) :=
  match before_colon epoch with
  | Some (x, y) =>
      if (x == "") || (y == "") then Err ErrInvalidRequest
      else match strconv_ParseUint x, strconv_Atoi y with
           | Some m, Some highwater =>
               if (mutation s <? m) || (highwater <? 0) || (zlen (history s) <? highwater) then Err ErrInvalidRequest else Ok (m, highwater)
           | _, _ => Err ErrInvalidRequest
           end
  | None => Err ErrInvalidRequest
  end.
(** The entry is live at the mutation. *)
Definition live_at (m : Z) (h : memoryBlobHistory) : bool :=
  (hi_createdMutation h <=? m) && ((hi_deletedMutation h =? 0) || (m <? hi_deletedMutation h)).
Definition ListPage (ctx : Context) (s : MemoryBlobStore) (request : BlobListRequest) : res artifact_error BlobListPage :=
  match ctx with
  | Some e => Err e
  | None =>
      _ ← reject_if ((lr_Limit request <=? 0) || (maximumGCBatchSize <? lr_Limit request)
                     || ((lr_Epoch request == "") && (lr_Cursor request != ""))) ErrInvalidRequest;
      snapshot ← (if lr_Epoch request == ""
                  then Ok ((strconv_Itoa (mutation s) ++ ":" ++ strconv_Itoa (zlen (history s)))%string, (mutation s, zlen (history s)))
                  else b ← epoch_bounds s (lr_Epoch request); Ok (lr_Epoch request, b));
      let '(epoch, (m, highwater)) := snapshot in
      offset ← (if lr_Cursor request == "" then Ok 0
                else match strconv_Atoi (lr_Cursor request) with
                     | Some parsed => if (parsed <? 0) || (highwater <? parsed) then Err ErrInvalidRequest else Ok parsed
                     | None => Err ErrInvalidRequest
                     end);
      let stop := if highwater <? offset + lr_Limit request then highwater else offset + lr_Limit request in
      let done := stop =? highwater in
      Ok (MkPage epoch (if done then "" else strconv_Itoa stop) (map hi_info (filter (fun h => live_at m h = true) (slice (history s) offset stop))) done)
  end.

(** The writes of a deletion. *)
Definition delete_object (s : MemoryBlobStore) (key : string) : MemoryBlobStore :=
  let m := u64 (mutation s + 1) in
  let index := Z.to_nat (default 0 (activeHistory s !! key)) in
  MkStore (delete key (objects s)) (delete key (activeHistory s))
    (alter (fun h => MkHistory (hi_info h) (hi_createdMutation h) m) index (history s)) m (failAfterPut s) (failAfterDelete s) (nextObjectVersion s).
Definition Delete (ctx : Context) (s : MemoryBlobStore) (key : string) : res artifact_error unit * MemoryBlobStore :=
  match ctx with
  | Some e => (Err e, s)
  | None => match objects s !! key with None => (Err ErrBlobNotFound, s) | Some _ => (fails (failAfterDelete s), delete_object s key) end
  end.
Definition DeleteIfVersion (ctx : Context) (s : MemoryBlobStore) (key version : string) : res artifact_error unit * MemoryBlobStore :=
  match ctx with
  | Some e => (Err e, s)
  | None =>
      match objects s !! key with
      | None => (Err ErrBlobNotFound, s)
      | Some object =>
          if (version == "") || (bo_Version object != version) then (Err ErrBlobVersionConflict, s)
          else (fails (failAfterDelete s), delete_object s key)
      end
  end.
Definition FailAfterPut (s : MemoryBlobStore) (e : option artifact_error) : MemoryBlobStore :=
  MkStore (objects s) (activeHistory s) (history s) (mutation s) e (failAfterDelete s) (nextObjectVersion s).
Definition FailAfterDelete (s : MemoryBlobStore) (e : option artifact_error) : MemoryBlobStore :=
  MkStore (objects s) (activeHistory s) (history s) (mutation s) (failAfterPut s) e (nextObjectVersion s).
