(* ===== verification/ArtifactService.v ===== *)
(** * The artifact service ([internal/artifact/service.go])

    Creation, opening, deletion and garbage collection as programs over the repository,
    the blob store, the workspace, the authorizer and the clock. *)

From S2P Require Import Prelude Programs GoText GoStrings GoCrypto Canonical Identity ArtifactRepo.
#[local] Open Scope string_scope.
#[local] Open Scope list_scope.
#[local] Open Scope Z_scope.
#[local] Open Scope go_scope.

Definition maximumArtifactNameBytes : Z := 255.
Definition maximumMediaTypeBytes : Z := 255.
Definition maximumAttributeCount : Z := 64.
Definition maximumAttributeKeyBytes : Z := 128.
Definition maximumAttributeValueBytes : Z := 1024.
Definition maximumAttributeMetadataBytes : Z := 16384.
Definition maximumWorkspacePathBytes : Z := 4096.
Definition maximumWorkspaceComponentBytes : Z := 255.
Definition maximumCanonicalInteger : Z := 9007199254740991.
Definition defaultGCBatchSize : Z := 256.
Definition defaultGCLeaseDuration : Z := 60000000000.

Definition OperationCreate : string := "artifact.create".
Definition OperationOpen : string := "artifact.open".
Definition OperationDelete : string := "artifact.delete".

Record AccessContext := MkAccess { ac_TenantID : string; ac_SubjectID : string; ac_SessionID : string; ac_WorkspaceID : string }.
Record AuthorizationRequest := MkAuthorization {
  az_Operation : string; az_TenantID : string; az_SubjectID : string; az_SessionID : string; az_WorkspaceID : string;
  az_ResourceSessionID : string; az_ResourceWorkspaceID : string; az_ArtifactID : string;
}.
Record WorkspaceSource := MkSource { ws_RevisionID : string; ws_Path : string }.
Record WorkspaceReadRequest := MkRead { rd_TenantID : string; rd_WorkspaceID : string; rd_RevisionID : string; rd_Path : string; rd_MaximumBytes : Z }.
Inductive WorkspaceFileKind := WorkspaceRegularFile | WorkspaceDirectory | WorkspaceSymlink.
#[global] Instance WorkspaceFileKind_eq_dec : EqDecision WorkspaceFileKind.
Proof. solve_decision. Defined.
Record WorkspaceFile := MkFile {
  wf_TenantID : string; wf_WorkspaceID : string; wf_RevisionID : string; wf_Path : string; wf_Kind : WorkspaceFileKind; wf_Size : Z;
  wf_ContentDigest : string; wf_Data : bytes;
}.
Record CreateRequest := MkCreate { cq_Access : AccessContext; cq_InvocationID : string; cq_Source : WorkspaceSource; cq_Metadata : Metadata }.
Record ArtifactRef := MkRef {
  rf_ArtifactID : string; rf_ContentDigest : string; rf_MetadataDigest : string; rf_ObjectKey : string; rf_Size : Z; rf_CreatedAt : time;
  rf_RetainUntil : time;
}.
Record OpenRequest := MkOpen { oq_Access : AccessContext; oq_ArtifactID : string }.
Record OpenedArtifact := MkOpened { oa_Ref : ArtifactRef; oa_Metadata : Metadata; oa_Data : bytes }.
Record DeleteRequest := MkDelete { dq_Access : AccessContext; dq_ArtifactID : string }.
Record GCResult := MkGCResult { ExpiredArtifacts : Z; AbandonedInvocations : Z; DeletedObjects : Z; PurgedArtifacts : Z }.

Record Service := MkService {
  maximumArtifactBytes : Z; defaultRetention : Z; maximumRetention : Z; gcGrace : Z; inflightTimeout : Z; inflightHeartbeatInterval : Z;
  gcBatchSize : Z; gcLeaseDuration : Z;
}.
(** The numeric fields of [Config]; the dependencies are not nil. *)
Definition NewService (c : Service) : res artifact_error Service :=
  _ ← reject_if ((maximumArtifactBytes c <=? 0) || (defaultRetention c <=? 0) || (maximumRetention c <=? 0)
                 || (maximumRetention c <? defaultRetention c) || (gcGrace c <=? 0) || (inflightTimeout c <=? 0)) ErrInvalidConfig;
  _ ← reject_if ((maximumCanonicalInteger <? maximumArtifactBytes c) || (maximumCanonicalInteger <? maximumRetention c)) ErrInvalidConfig;
  _ ← reject_if ((inflightHeartbeatInterval c <? 0) || (inflightTimeout c <=? inflightHeartbeatInterval c) || (gcBatchSize c <? 0)
                 || (maximumGCBatchSize <? gcBatchSize c) || (gcLeaseDuration c <? 0)) ErrInvalidConfig;
  let interval := if inflightHeartbeatInterval c =? 0 then inflightTimeout c / 3 else inflightHeartbeatInterval c in
  _ ← reject_if (interval <=? 0) ErrInvalidConfig;
  Ok (MkService (maximumArtifactBytes c) (defaultRetention c) (maximumRetention c) (gcGrace c) (inflightTimeout c) interval
    (if gcBatchSize c =? 0 then defaultGCBatchSize else gcBatchSize c)
    (if gcLeaseDuration c =? 0 then defaultGCLeaseDuration else gcLeaseDuration c)).

(** ** The calls of the service *)
Abbreviation answer := (res artifact_error) (only parsing).
Inductive ACall : Type -> Type :=
| Now : ACall time
| Authorize (request : AuthorizationRequest) : ACall (answer unit)
| ReadFile (request : WorkspaceReadRequest) : ACall (answer WorkspaceFile)
| NewArtifactID : ACall (answer string)
(** the error of the heartbeat that ran beside the program *)
| JoinHeartbeat : ACall (answer unit)
| Lookup (invocationID : string) : ACall (answer (option InvocationRecord))
| Begin (request : CreateReservation) : ACall (answer (InvocationRecord * bool))
| Heartbeat (invocationID requestDigest : string) (generation : Z) (now : time) : ACall (answer InvocationRecord)
| Commit (request : CommitCreateRequest) : ACall (answer (ArtifactRecord * bool))
| GetRecord (artifactID : string) : ACall (answer ArtifactRecord)
| Tombstone (artifactID tenantID : string) (now : time) : ACall (answer (ArtifactRecord * bool))
| ExpirePage (lease : GCLease) (now : time) (after : string) (limit : Z) : ACall (answer (Z * string * bool))
| AbandonPage (lease : GCLease) (heartbeatBefore : time) (after : string) (limit : Z) : ACall (answer (Z * string * bool))
| Acquire (now duration : Z) : ACall (answer (option GCLease))
| Release (lease : GCLease) (checkpoint : GCCheckpoint) : ACall (answer unit)
| PendingPage (lease : GCLease) (cursor : string) (limit : Z) : ACall (answer (list SweepClaim * string * bool))
| Claim (lease : GCLease) (objectKey objectVersion : string) (tombstonedBefore : time) : ACall (answer (option SweepClaim))
| Retire (lease : GCLease) (claim : SweepClaim) : ACall (answer unit)
| Finish (lease : GCLease) (claim : SweepClaim) (deleted : bool) (now : time) : ACall (answer Z)
| PutBlob (request : BlobPut) : ACall (answer unit)
| GetBlob (key : string) : ACall (answer BlobObject)
| HeadBlob (key : string) : ACall (answer BlobInfo)
| ListBlobs (request : BlobListRequest) : ACall (answer BlobListPage)
| DeleteBlob (key version : string) : ACall (answer unit).

(** ** Validation *)
Section service.
Context `{N : Normalizer}.

Definition parses (kind : Kind) (value : string) : bool := is_ok (Parse kind value).
Definition validateAccess (access : AccessContext) : res artifact_error unit :=
  reject_if (negb (parses "tenant" (ac_TenantID access)) || negb (parses "subject" (ac_SubjectID access))
             || negb (parses "sess" (ac_SessionID access)) || negb (parses "ws" (ac_WorkspaceID access))) ErrInvalidRequest.

Fixpoint check_path_components (components : list string) : res artifact_error unit :=
  match components with
  | [] => Ok tt
  | component :: rest =>
      _ ← reject_if ((component == "") || (component == ".") || (component == "..") || (maximumWorkspaceComponentBytes <? strlen component))
            ErrInvalidRequest;
      _ ← reject_if (has_control component) ErrInvalidRequest;
      check_path_components rest
  end.
Definition validateWorkspacePath (value : string) : res artifact_error unit :=
  _ ← reject_if ((value == "") || negb (utf8_ValidString value) || (nfc value != value) || strings_HasPrefix value "/"
                 || (maximumWorkspacePathBytes <? strlen value)) ErrInvalidRequest;
  check_path_components (split_slash value).

Definition attribute_values (m : gmap string string) : Value := VMap (map (fun p => (p.1, VString p.2)) (map_to_list m)).
Definition digestMetadata (metadata : Metadata) (contentDigest : string) (size : Z) : res cerror string :=
  StructuredDigest "artifact.metadata" 1 (VMap [
    ("name", VString (Name metadata)); ("mediaType", VString (MediaType metadata));
    ("retainForNanoseconds", VInt KInt64 (RetainFor metadata)); ("attributes", attribute_values (Attributes metadata));
    ("contentDigest", VString contentDigest); ("size", VInt KInt64 size)]).

(** [objectKey] of a digest: the bytes after the prefix, by two levels. *)
Definition object_key (tenantID contentDigest : string) : string :=
  let hex := string_drop 7 contentDigest in
  let part (from upto : nat) := of_bytes (take (upto - from) (drop from (to_bytes hex))) in
  (tenantID ++ "/sha256/" ++ part 0%nat 2%nat ++ "/" ++ part 2%nat 4%nat ++ "/" ++ hex)%string.

Definition validArtifactRecord (record : ArtifactRecord) (maximumBytes : Z) : bool :=
  parses "artifact" (ar_ArtifactID record) && parses "tenant" (ar_TenantID record) && parses "sess" (ar_SessionID record)
  && parses "ws" (ar_WorkspaceID record) && parses "inv" (ar_InvocationID record)
  && validDigest (ar_RequestDigest record) && validDigest (ar_SourceRevisionID record) && validDigest (ar_ContentDigest record)
  && validDigest (ar_MetadataDigest record) && negb (ar_Size record <? 0) && negb (maximumBytes <? ar_Size record)
  && negb (time_IsZero (ar_CreatedAt record)) && (ar_CreatedAt record <? ar_RetainUntil record)
  && (ar_RetainUntil record - ar_CreatedAt record =? RetainFor (ar_Metadata record))
  && is_ok (validateWorkspacePath (ar_SourcePath record))
  && (ar_ObjectKey record == object_key (ar_TenantID record) (ar_ContentDigest record))
  && (digestMetadata (ar_Metadata record) (ar_ContentDigest record) (ar_Size record) == Ok (ar_MetadataDigest record))
  && match ar_State record, ar_TombstonedAt record, ar_PurgedAt record with
     | ArtifactActive, None, None => true
     | ArtifactTombstoned, Some _, None => true
     | ArtifactPurged, Some tombstoned, Some purged => tombstoned <=? purged
     | _, _, _ => false
     end.
Definition artifactRefFromRecord (record : ArtifactRecord) : ArtifactRef :=
  MkRef (ar_ArtifactID record) (ar_ContentDigest record) (ar_MetadataDigest record) (ar_ObjectKey record) (ar_Size record)
    (ar_CreatedAt record) (ar_RetainUntil record).

(** [strings.ContainsAny(name, "/\\")] and [strings.Count(mediaType, "/")]. *)
Definition has_separator (s : string) : bool := existsb (fun b => bool_decide (b = slash) || bool_decide (b = ascii_of_nat 92)) (to_bytes s).
Definition count_slashes (s : string) : Z := zlen (filter (fun b => b = slash) (to_bytes s)).

(** The loop over the attributes; the map is visited in some order. *)
Fixpoint check_attributes (total : Z) (out : gmap string string) (attributes : list (string * string)) : res artifact_error (gmap string string) :=
  match attributes with
  | [] => Ok out
  | (rawKey, rawValue) :: rest =>
      _ ← reject_if (negb (utf8_ValidString rawKey) || negb (utf8_ValidString rawValue)) ErrInvalidRequest;
      let key := nfc rawKey in
      let value := nfc rawValue in
      _ ← reject_if ((key == "") || (maximumAttributeKeyBytes <? strlen key) || (maximumAttributeValueBytes <? strlen value)) ErrInvalidRequest;
      _ ← reject_if (bool_decide (is_Some (out !! key))) ErrInvalidRequest;
      _ ← reject_if (has_control key || has_control value) ErrInvalidRequest;
      let total := total + strlen key + strlen value in
      _ ← reject_if (maximumAttributeMetadataBytes <? total) ErrInvalidRequest;
      check_attributes total (<[key := value]> out) rest
  end.
Definition normalize_metadata (service : Service) (m : Metadata) : res artifact_error Metadata :=
  let name := nfc (Name m) in
  let mediaType := nfc (MediaType m) in
  let retain := if RetainFor m =? 0 then defaultRetention service else RetainFor m in
  _ ← reject_if ((retain <? 0) || (maximumRetention service <? retain) || negb (utf8_ValidString (Name m)) || (nfc (Name m) != Name m)
                 || (name == "") || (maximumArtifactNameBytes <? strlen name) || (name == ".") || (name == "..") || has_separator name
                 || negb (utf8_ValidString (MediaType m)) || (nfc (MediaType m) != MediaType m) || (mediaType == "")
                 || (maximumMediaTypeBytes <? strlen mediaType) || (count_slashes mediaType != 1)) ErrInvalidRequest;
  _ ← reject_if (has_control name || has_control mediaType) ErrInvalidRequest;
  _ ← reject_if (maximumAttributeCount <? Z.of_nat (size (Attributes m))) ErrInvalidRequest;
  attributes ← check_attributes 0 ∅ (map_to_list (Attributes m));
  Ok (MkMetadata name mediaType retain attributes).

Definition request_digest (request : CreateRequest) (metadata : Metadata) : res cerror string :=
  let access := cq_Access request in
  StructuredDigest "artifact.create-from-workspace" 1 (VMap [
    ("tenantId", VString (ac_TenantID access)); ("sessionId", VString (ac_SessionID access));
    ("workspaceId", VString (ac_WorkspaceID access)); ("revisionId", VString (ws_RevisionID (cq_Source request)));
    ("path", VString (ws_Path (cq_Source request)));
    ("metadata", VMap [("name", VString (Name metadata)); ("mediaType", VString (MediaType metadata));
       ("retainForNanoseconds", VInt KInt64 (RetainFor metadata)); ("attributes", attribute_values (Attributes metadata))])]).

Definition create_checks (service : Service) (request : CreateRequest) : res artifact_error (Metadata * string) :=
  _ ← validateAccess (cq_Access request);
  _ ← reject_if (negb (parses "inv" (cq_InvocationID request))) ErrInvalidRequest;
  _ ← reject_if (negb (validDigest (ws_RevisionID (cq_Source request)))) ErrInvalidRequest;
  _ ← validateWorkspacePath (ws_Path (cq_Source request));
  metadata ← normalize_metadata service (cq_Metadata request);
  digest ← wrap_err ErrInvalidRequest (request_digest request metadata);
  Ok (metadata, digest).

(** ** Creation *)
#[local] Open Scope prog_scope.
Abbreviation Program A := (Prog ACall (res artifact_error A)) (only parsing).
Definition ensure (b : bool) (e : artifact_error) : Program unit := pure (reject_if b e).

(** The artifact of a committed invocation. *)
Definition committed_artifact (service : Service) (request : CreateRequest) (requestDigest artifactID : string) : Program ArtifactRef :=
  record <- ask_or ErrStorageCorruption (GetRecord artifactID);;
  _ <- ensure (negb (validArtifactRecord record (maximumArtifactBytes service)) || (ar_TenantID record != ac_TenantID (cq_Access request))
               || (ar_InvocationID record != cq_InvocationID request) || (ar_RequestDigest record != requestDigest)
               || (ar_ArtifactID record != artifactID)) ErrStorageCorruption;;
  done (artifactRefFromRecord record).

(** The record of an inflight invocation is the one this request would make. *)
Definition inflight_matches (service : Service) (request : CreateRequest) (metadata : Metadata) (reservation : InvocationRecord) : bool :=
  let v := iv_reservation reservation in
  let access := cq_Access request in
  negb ((cr_SessionID v != ac_SessionID access) || (cr_WorkspaceID v != ac_WorkspaceID access)
        || (cr_SourceRevisionID v != ws_RevisionID (cq_Source request)) || (cr_SourcePath v != ws_Path (cq_Source request))
        || (cr_InvocationID v != cq_InvocationID request) || (iv_Generation reservation =? 0) || time_IsZero (cr_StartedAt v)
        || time_IsZero (iv_HeartbeatAt reservation) || (cr_Size v <? 0) || (maximumArtifactBytes service <? cr_Size v)
        || negb (validDigest (cr_ContentDigest v)) || negb (validDigest (cr_MetadataDigest v)))
  && parses "artifact" (cr_ArtifactID v)
  && (cr_ObjectKey v == object_key (ac_TenantID access) (cr_ContentDigest v))
  && (digestMetadata metadata (cr_ContentDigest v) (cr_Size v) == Ok (cr_MetadataDigest v))
  && (digestMetadata (cr_Metadata v) (cr_ContentDigest v) (cr_Size v) == Ok (cr_MetadataDigest v)).

(** Resume an inflight invocation: the record after a heartbeat, and whether its bytes
    are stored. *)
Definition resume_inflight (service : Service) (request : CreateRequest) (metadata : Metadata) (requestDigest : string)
    (reservation : InvocationRecord) : Program (InvocationRecord * bool) :=
  _ <- ensure (negb (inflight_matches service request metadata reservation)) ErrStorageCorruption;;
  now <-- ask Now;;
  reservation <- ask (Heartbeat (cq_InvocationID request) requestDigest (iv_Generation reservation) now);;
  let v := iv_reservation reservation in
  object <-- ask (GetBlob (cr_ObjectKey v));;
  match object with
  | Ok object =>
      _ <- ensure ((bo_Key object != cr_ObjectKey v) || (bo_Version object == "") || (bo_Digest object != cr_ContentDigest v)
                   || (zlen (bo_Data object) != cr_Size v) || (digestBytes (bo_Data object) != cr_ContentDigest v)) ErrStorageCorruption;;
      done (reservation, true)
  | Err ErrBlobNotFound => done (reservation, false)
  | Err e => raise e
  end.

(** The file of the exact revision. *)
Definition read_source (service : Service) (request : CreateRequest) : Program WorkspaceFile :=
  let access := cq_Access request in
  let read := MkRead (ac_TenantID access) (ac_WorkspaceID access) (ws_RevisionID (cq_Source request)) (ws_Path (cq_Source request))
    (maximumArtifactBytes service) in
  file <- ask_or ErrInvalidWorkspaceSource (ReadFile read);;
  _ <- ensure ((wf_TenantID file != rd_TenantID read) || (wf_WorkspaceID file != rd_WorkspaceID read)
               || (wf_RevisionID file != rd_RevisionID read) || (wf_Path file != rd_Path read) || (wf_Kind file != WorkspaceRegularFile)
               || (wf_Size file <? 0) || (wf_Size file != zlen (wf_Data file)) || (maximumArtifactBytes service <? wf_Size file)
               || negb (validDigest (wf_ContentDigest file)) || (wf_ContentDigest file != digestBytes (wf_Data file))) ErrInvalidWorkspaceSource;;
  _ <- pure (wrap_err ErrInvalidWorkspaceSource (validateWorkspacePath (wf_Path file)));;
  done file.

(** Begin a new invocation; [inl] is the answer for one that another process committed. *)
Definition begin_invocation (service : Service) (request : CreateRequest) (metadata : Metadata) (requestDigest metadataDigest : string)
    (file : WorkspaceFile) : Program (ArtifactRef + InvocationRecord) :=
  let access := cq_Access request in
  artifactID <- ask NewArtifactID;;
  _ <- ensure (negb (parses "artifact" artifactID)) ErrInvalidConfig;;
  now <-- ask Now;;
  begun <- ask (Begin (MkReservation (ac_TenantID access) (ac_SessionID access) (ac_WorkspaceID access) (cq_InvocationID request)
    requestDigest artifactID (object_key (ac_TenantID access) (wf_ContentDigest file)) (wf_Size file) now
    (ws_RevisionID (cq_Source request)) (ws_Path (cq_Source request)) (wf_ContentDigest file) metadataDigest metadata));;
  let reservation := begun.1 in
  match iv_State reservation with
  | InvocationAbandoned => raise ErrInvocationAbandoned
  | InvocationCommitted =>
      ref <- committed_artifact service request requestDigest (cr_ArtifactID (iv_reservation reservation));; done (inl ref)
  | InvocationInflight => done (inr reservation)
  end.

(** Store the bytes under the reservation, with heartbeats before and after. *)
Definition store_bytes (request : CreateRequest) (requestDigest metadataDigest : string) (file : WorkspaceFile) (reservation : InvocationRecord)
    : Program InvocationRecord :=
  let access := cq_Access request in
  let v := iv_reservation reservation in
  _ <- ensure ((cr_TenantID v != ac_TenantID access) || (cr_SessionID v != ac_SessionID access) || (cr_WorkspaceID v != ac_WorkspaceID access)
               || (cr_InvocationID v != cq_InvocationID request) || (cr_RequestDigest v != requestDigest)
               || (cr_SourceRevisionID v != ws_RevisionID (cq_Source request)) || (cr_SourcePath v != ws_Path (cq_Source request))
               || (cr_ObjectKey v != object_key (ac_TenantID access) (wf_ContentDigest file)) || (cr_Size v != wf_Size file)
               || (cr_ContentDigest v != wf_ContentDigest file) || (cr_MetadataDigest v != metadataDigest) || (iv_Generation reservation =? 0))
         ErrInvalidWorkspaceSource;;
  now <-- ask Now;;
  reservation <- ask (Heartbeat (cq_InvocationID request) requestDigest (iv_Generation reservation) now);;
  let v := iv_reservation reservation in
  put <-- ask (PutBlob (MkPut (cr_ObjectKey v) (cr_ContentDigest v) (wf_Data file) (cr_StartedAt v)));;
  _ <- ask JoinHeartbeat;;
  _ <- pure put;;
  now <-- ask Now;;
  ask (Heartbeat (cq_InvocationID request) requestDigest (iv_Generation reservation) now).

Definition commit_artifact (service : Service) (request : CreateRequest) (requestDigest : string) (reservation : InvocationRecord)
    : Program ArtifactRef :=
  let v := iv_reservation reservation in
  r <- ask (Commit (MkCommit (cq_InvocationID request) requestDigest (iv_Generation reservation)
    (MkArtifact (cr_ArtifactID v) (cr_TenantID v) (cr_SessionID v) (cr_WorkspaceID v) (cq_InvocationID request) requestDigest
       (cr_SourceRevisionID v) (cr_SourcePath v) (cr_ContentDigest v) (cr_MetadataDigest v) (cr_ObjectKey v) (cr_Size v) (cr_Metadata v)
       (cr_StartedAt v) (cr_StartedAt v + RetainFor (cr_Metadata v)) ArtifactActive None None)));;
  _ <- ensure (negb (validArtifactRecord r.1 (maximumArtifactBytes service))) ErrStorageCorruption;;
  done (artifactRefFromRecord r.1).

(** From an invocation without stored bytes, new or resumed, to the commit. *)
Definition create_bytes (service : Service) (request : CreateRequest) (metadata : Metadata) (requestDigest : string)
    (resumed : option InvocationRecord) : Program ArtifactRef :=
  file <- read_source service request;;
  metadataDigest <- pure (wrap_err ErrInvalidRequest (digestMetadata metadata (wf_ContentDigest file) (wf_Size file)));;
  begun <- match resumed with
           | Some reservation => done (inr reservation)
           | None => begin_invocation service request metadata requestDigest metadataDigest file
           end;;
  match begun with
  | inl ref => done ref
  | inr reservation =>
      reservation <- store_bytes request requestDigest metadataDigest file reservation;;
      commit_artifact service request requestDigest reservation
  end.

Definition CreateFromWorkspace (service : Service) (request : CreateRequest) : Program ArtifactRef :=
  let access := cq_Access request in
  checked <- pure (create_checks service request);;
  let '(metadata, requestDigest) := checked in
  _ <- ask_or ErrAccessDenied (Authorize (MkAuthorization OperationCreate (ac_TenantID access) (ac_SubjectID access) (ac_SessionID access)
         (ac_WorkspaceID access) (ac_SessionID access) (ac_WorkspaceID access) ""));;
  existing <- ask (Lookup (cq_InvocationID request));;
  match existing with
  | None => create_bytes service request metadata requestDigest None
  | Some existing =>
      let v := iv_reservation existing in
      _ <- ensure ((cr_TenantID v != ac_TenantID access) || (cr_RequestDigest v != requestDigest)) ErrInvocationConflict;;
      match iv_State existing with
      | InvocationCommitted => committed_artifact service request requestDigest (cr_ArtifactID v)
      | InvocationAbandoned => raise ErrInvocationAbandoned
      | InvocationInflight =>
          resumed <- resume_inflight service request metadata requestDigest existing;;
          let '(reservation, blobReady) := resumed in
          if (blobReady : bool) then commit_artifact service request requestDigest reservation
          else create_bytes service request metadata requestDigest (Some reservation)
      end
  end.

(** ** Opening and deletion *)
Definition Open_artifact (service : Service) (request : OpenRequest) : Program OpenedArtifact :=
  let access := oq_Access request in
  _ <- pure (validateAccess access);;
  _ <- ensure (negb (parses "artifact" (oq_ArtifactID request))) ErrInvalidRequest;;
  record <- ask (GetRecord (oq_ArtifactID request));;
  _ <- ensure (ar_TenantID record != ac_TenantID access) ErrAccessDenied;;
  _ <- ensure (negb (validArtifactRecord record (maximumArtifactBytes service))) ErrStorageCorruption;;
  _ <- ask_or ErrAccessDenied (Authorize (MkAuthorization OperationOpen (ac_TenantID access) (ac_SubjectID access) (ac_SessionID access)
         (ac_WorkspaceID access) (ar_SessionID record) (ar_WorkspaceID record) (ar_ArtifactID record)));;
  now <-- (if ar_State record != ArtifactActive then Ret 0 else ask Now);;
  _ <- ensure ((ar_State record != ArtifactActive) || (ar_RetainUntil record <=? now)) ErrArtifactUnavailable;;
  _ <- ensure (digestMetadata (ar_Metadata record) (ar_ContentDigest record) (ar_Size record) != Ok (ar_MetadataDigest record)) ErrStorageCorruption;;
  object <- ask_or ErrStorageCorruption (GetBlob (ar_ObjectKey record));;
  _ <- ensure ((bo_Key object != ar_ObjectKey record) || (bo_Version object == "") || (bo_Digest object != ar_ContentDigest record)
               || (zlen (bo_Data object) != ar_Size record) || negb (validDigest (bo_Digest object))
               || (digestBytes (bo_Data object) != bo_Digest object)) ErrStorageCorruption;;
  done (MkOpened (artifactRefFromRecord record) (ar_Metadata record) (bo_Data object)).

Definition Delete_artifact (service : Service) (request : DeleteRequest) : Program unit :=
  let access := dq_Access request in
  _ <- pure (validateAccess access);;
  _ <- ensure (negb (parses "artifact" (dq_ArtifactID request))) ErrInvalidRequest;;
  record <- ask (GetRecord (dq_ArtifactID request));;
  _ <- ensure (ar_TenantID record != ac_TenantID access) ErrAccessDenied;;
  _ <- ensure (negb (validArtifactRecord record (maximumArtifactBytes service))) ErrStorageCorruption;;
  _ <- ask_or ErrAccessDenied (Authorize (MkAuthorization OperationDelete (ac_TenantID access) (ac_SubjectID access) (ac_SessionID access)
         (ac_WorkspaceID access) (ar_SessionID record) (ar_WorkspaceID record) (ar_ArtifactID record)));;
  now <-- ask Now;;
  _ <- ask (Tombstone (dq_ArtifactID request) (ac_TenantID access) now);;
  done tt.
End service.

(** ** Garbage collection

    The result, the checkpoint and the errors joined so far. *)
Record GCWork := MkWork { wk_result : GCResult; wk_checkpoint : GCCheckpoint; wk_errors : list artifact_error }.
Definition add_error (w : GCWork) (e : artifact_error) : GCWork := MkWork (wk_result w) (wk_checkpoint w) (wk_errors w ++ [e]).
Definition no_errors (w : GCWork) : bool := match wk_errors w with [] => true | _ => false end.
Definition set_ExpiredCursor (c : GCCheckpoint) (x : string) := MkCheckpoint x (InflightCursor c) (SweepCursor c) (BlobEpoch c) (BlobCursor c).
Definition set_InflightCursor (c : GCCheckpoint) (x : string) := MkCheckpoint (ExpiredCursor c) x (SweepCursor c) (BlobEpoch c) (BlobCursor c).
Definition set_SweepCursor (c : GCCheckpoint) (x : string) := MkCheckpoint (ExpiredCursor c) (InflightCursor c) x (BlobEpoch c) (BlobCursor c).
Definition set_Blob (c : GCCheckpoint) (epoch cursor : string) := MkCheckpoint (ExpiredCursor c) (InflightCursor c) (SweepCursor c) epoch cursor.

Section collector.
Context (service : Service) (lease : GCLease) (now : time).
#[local] Open Scope prog_scope.

Definition expire_phase (w : GCWork) : Prog ACall GCWork :=
  answer <-- ask (ExpirePage lease now (ExpiredCursor (wk_checkpoint w)) (gcBatchSize service));;
  match answer with
  | Err e => Ret (add_error w e)
  | Ok (count, next, done) =>
      let r := wk_result w in
      Ret (MkWork (MkGCResult count (AbandonedInvocations r) (DeletedObjects r) (PurgedArtifacts r))
        (set_ExpiredCursor (wk_checkpoint w) (if (done : bool) then "" else next)) (wk_errors w))
  end.

Definition abandon_phase (w : GCWork) : Prog ACall GCWork :=
  if negb (no_errors w) then Ret w
  else
    answer <-- ask (AbandonPage lease (now - inflightTimeout service) (InflightCursor (wk_checkpoint w)) (gcBatchSize service));;
    match answer with
    | Err e => Ret (add_error w e)
    | Ok (count, next, done) =>
        let r := wk_result w in
        Ret (MkWork (MkGCResult (ExpiredArtifacts r) count (DeletedObjects r) (PurgedArtifacts r))
          (set_InflightCursor (wk_checkpoint w) (if (done : bool) then "" else next)) (wk_errors w))
    end.

Definition pending_phase (w : GCWork) : Prog ACall (GCWork * list SweepClaim) :=
  if negb (no_errors w) then Ret (w, [])
  else
    answer <-- ask (PendingPage lease (SweepCursor (wk_checkpoint w)) (gcBatchSize service));;
    match answer with
    | Err e => Ret (add_error w e, [])
    | Ok (claims, next, done) =>
        Ret (MkWork (wk_result w) (set_SweepCursor (wk_checkpoint w) (if (done : bool) then "" else next)) (wk_errors w), claims)
    end.

(** The loop over the objects of the page. *)
Fixpoint claim_objects (cutoff : time) (w : GCWork) (claims : list SweepClaim) (page : list BlobInfo) : Prog ACall (GCWork * list SweepClaim) :=
  match page with
  | [] => Ret (w, claims)
  | object :: rest =>
      if (bi_Key object == "") || (bi_Version object == "") || negb (validDigest (bi_Digest object)) || (bi_Size object <? 0)
         || time_IsZero (bi_CreatedAt object)
      then claim_objects cutoff (add_error w ErrStorageCorruption) claims rest
      else if cutoff <? bi_CreatedAt object then claim_objects cutoff w claims rest
      else
        answer <-- ask (Claim lease (bi_Key object) (bi_Version object) cutoff);;
        match answer with
        | Err e => claim_objects cutoff (add_error w e) claims rest
        | Ok None => claim_objects cutoff w claims rest
        | Ok (Some claim) => claim_objects cutoff w (claims ++ [claim]) rest
        end
  end.

Definition blob_phase (w : GCWork) (claims : list SweepClaim) : Prog ACall (GCWork * list SweepClaim) :=
  let remaining := gcBatchSize service - zlen claims in
  if negb (no_errors w && (0 <? remaining)) then Ret (w, claims)
  else
    let c := wk_checkpoint w in
    answer <-- ask (ListBlobs (MkListRequest (BlobEpoch c) (BlobCursor c) remaining));;
    match answer with
    | Err e => Ret (add_error w e, claims)
    | Ok page =>
        if (pg_Epoch page == "") || ((BlobEpoch c != "") && (pg_Epoch page != BlobEpoch c)) || (remaining <? zlen (pg_Objects page))
           || (pg_Done page && (pg_NextCursor page != ""))
           || (negb (pg_Done page) && ((pg_NextCursor page == "") || (pg_NextCursor page == BlobCursor c)))
        then Ret (add_error w ErrStorageCorruption, claims)
        else
          let c' := if pg_Done page then set_Blob c "" "" else set_Blob c (pg_Epoch page) (pg_NextCursor page) in
          claim_objects (now - gcGrace service) (MkWork (wk_result w) c' (wk_errors w)) claims (pg_Objects page)
    end.

Definition unresolved (w : GCWork) (e : artifact_error) : GCWork * bool := (add_error w e, true).

(** A claim that no longer fits its object is retired. *)
Definition retire_claim (w : GCWork) (claim : SweepClaim) : Prog ACall (GCWork * bool) :=
  answer <-- ask (Retire lease claim);;
  match answer with Err e => Ret (unresolved w e) | Ok _ => Ret (w, false) end.
(** The bytes are gone: the claim is finished and its artifacts purged. *)
Definition finish_claim (w : GCWork) (claim : SweepClaim) : Prog ACall (GCWork * bool) :=
  answer <-- ask (Finish lease claim true now);;
  match answer with
  | Err e => Ret (unresolved w e)
  | Ok purged =>
      let r := wk_result w in
      Ret (MkWork (MkGCResult (ExpiredArtifacts r) (AbandonedInvocations r) (DeletedObjects r + 1) (PurgedArtifacts r + purged))
        (wk_checkpoint w) (wk_errors w), false)
  end.

(** One claim: whether it stays unresolved. *)
Definition sweep_claim (w : GCWork) (claim : SweepClaim) : Prog ACall (GCWork * bool) :=
  head <-- ask (HeadBlob (sc_ObjectKey claim));;
  match head with
  | Err ErrBlobNotFound => finish_claim w claim
  | Err e => Ret (unresolved w e)
  | Ok head =>
      if (sc_ObjectVersion claim == "") || (bi_Key head != sc_ObjectKey claim) || (bi_Version head == "") || negb (validDigest (bi_Digest head))
         || (bi_Size head <? 0) || time_IsZero (bi_CreatedAt head)
      then Ret (unresolved w ErrStorageCorruption)
      else if bi_Version head != sc_ObjectVersion claim then retire_claim w claim
      else
        deleted <-- ask (DeleteBlob (sc_ObjectKey claim) (sc_ObjectVersion claim));;
        match deleted with
        | Ok _ | Err ErrBlobNotFound => finish_claim w claim
        | Err ErrBlobVersionConflict => retire_claim w claim
        | Err e => Ret (unresolved w e)
        end
  end.
Fixpoint sweep_claims (w : GCWork) (open : bool) (claims : list SweepClaim) : Prog ACall (GCWork * bool) :=
  match claims with
  | [] => Ret (w, open)
  | claim :: rest =>
      swept <-- sweep_claim w claim;;
      sweep_claims swept.1 (open || swept.2) rest
  end.

Definition collect_under_lease : Prog ACall GCWork :=
  w <-- expire_phase (MkWork (MkGCResult 0 0 0 0) (gl_Checkpoint lease) []);;
  w <-- abandon_phase w;;
  wc <-- pending_phase w;;
  wc <-- blob_phase wc.1 wc.2;;
  ws <-- sweep_claims wc.1 false wc.2;;
  let w := ws.1 in
  let w := if (ws.2 : bool) then MkWork (wk_result w) (set_SweepCursor (wk_checkpoint w) "") (wk_errors w) else w in
  heartbeat <-- ask JoinHeartbeat;;
  let w := match heartbeat with Err e => add_error w e | Ok _ => w end in
  released <-- ask (Release lease (wk_checkpoint w));;
  Ret (match released with Err e => add_error w e | Ok _ => w end).
End collector.

Definition CollectGarbage (service : Service) : Prog ACall (GCResult * list artifact_error) :=
  (now <-- ask Now;;
   lease <-- ask (Acquire now (gcLeaseDuration service));;
   match lease with
   | Err e => Ret (MkGCResult 0 0 0 0, [e])
   | Ok None => Ret (MkGCResult 0 0 0 0, [ErrGCInProgress])
   | Ok (Some lease) => w <-- collect_under_lease service lease now;; Ret (wk_result w, wk_errors w)
   end)%prog.
