(* ===== verification/ArtifactBooks.v ===== *)
(** * The artifact repository: accounts and views

    The counters and the quota accounts are totals over the records; the operations as
    moves of the part of the state that decides what may be collected. *)

From S2P Require Import Prelude MapSums GoText GoStrings ArtifactRepo.
#[local] Open Scope string_scope.
#[local] Open Scope list_scope.
#[local] Open Scope Z_scope.
#[local] Open Scope go_scope.

(** ** Measures of records *)
Definition when (b : bool) (n : Z) : Z := if b then n else 0.
Definition inflight_on (k : string) (v : InvocationRecord) : Z :=
  when ((iv_State v == InvocationInflight) && (cr_ObjectKey (iv_reservation v) == k)) 1.
Definition inflight_bytes (t : string) (v : InvocationRecord) : Z :=
  when ((iv_State v == InvocationInflight) && (cr_TenantID (iv_reservation v) == t)) (cr_Size (iv_reservation v)).
Definition active_on (k : string) (a : ArtifactRecord) : Z := when ((ar_State a == ArtifactActive) && (ar_ObjectKey a == k)) 1.
Definition active_bytes (t : string) (a : ArtifactRecord) : Z := when ((ar_State a == ArtifactActive) && (ar_TenantID a == t)) (ar_Size a).

Abbreviation invs r := (invocations (r_invocations r)) (only parsing).
Abbreviation arts r := (artifacts (r_artifacts r)) (only parsing).

Definition bytes_reserved (r : MemoryRepository) (t : string) : Z := msum (inflight_bytes t) (invs r).
Definition bytes_used (r : MemoryRepository) (t : string) : Z := msum (active_bytes t) (arts r).
Definition quota_of (r : MemoryRepository) (t : string) : Z := Z.max 0 (count_of (quotas (r_accounts r)) t).

Record books_ok (r : MemoryRepository) : Prop := MkBooksOk {
  bk_inflight : forall k, count_of (inflightByObject (r_invocations r)) k = msum (inflight_on k) (invs r);
  bk_active : forall k, count_of (activeByObject (r_artifacts r)) k = msum (active_on k) (arts r);
  bk_reserved : forall t, count_of (reserved (r_accounts r)) t = bytes_reserved r t;
  bk_used : forall t, count_of (used (r_accounts r)) t = bytes_used r t;
  bk_inv_size : forall i v, invs r !! i = Some v -> 0 <= cr_Size (iv_reservation v);
  bk_art_size : forall i a, arts r !! i = Some a -> 0 <= ar_Size a;
  bk_limit : forall t, bytes_used r t + bytes_reserved r t <= quota_of r t;
  bk_quotas : forall t q, quotas (r_accounts r) !! t = Some q -> is_i64 q;
}.

Lemma count_of_tally m k n k' : count_of (tally k n m) k' = count_of m k' + when (k == k') n.
Proof.
  unfold tally, count_of, when. destruct (decide (k = k')) as [<-|Hne]; [rewrite lookup_insert_eq, bool_decide_true by done; done|].
  rewrite lookup_insert_ne, bool_decide_false by done. lia.
Qed.
Lemma count_of_bump m k n k' : is_i64 (count_of m k + n) -> count_of (bump k n m) k' = count_of m k' + when (k == k') n.
Proof. intros H. unfold bump. rewrite i64_id by done. apply (count_of_tally m k n k'). Qed.

Lemma when_and a b n : when (a && b) n = when a (when b n).
Proof. by destruct a, b. Qed.
Lemma when_nonneg b n : 0 <= n -> 0 <= when b n.
Proof. by destruct b. Qed.

Section Books.
Context (r : MemoryRepository) (Hb : books_ok r).
#[local] Set Default Proof Using "Type*".

Lemma reserved_nonneg t : 0 <= bytes_reserved r t.
Proof. apply msum_nonneg. intros i v Hi. apply when_nonneg. by apply (bk_inv_size _ Hb i). Qed.
Lemma used_nonneg t : 0 <= bytes_used r t.
Proof. apply msum_nonneg. intros i a Hi. apply when_nonneg. by apply (bk_art_size _ Hb i). Qed.
Lemma quota_range t : 0 <= quota_of r t < 2 ^ 63.
Proof.
  unfold quota_of, count_of. destruct (quotas (r_accounts r) !! t) as [q|] eqn:Hq; simpl; [|lia].
  apply (bk_quotas _ Hb) in Hq. unfold is_i64 in Hq. lia.
Qed.
Lemma reserved_le_quota t : bytes_reserved r t <= quota_of r t.
Proof. pose proof (bk_limit _ Hb t). pose proof (used_nonneg t). lia. Qed.
Lemma used_le_quota t : bytes_used r t <= quota_of r t.
Proof. pose proof (bk_limit _ Hb t). pose proof (reserved_nonneg t). lia. Qed.
(** A record is part of its tenant's total. *)
Lemma inflight_le i v : invs r !! i = Some v -> iv_State v = InvocationInflight -> cr_Size (iv_reservation v) <= bytes_reserved r (cr_TenantID (iv_reservation v)).
Proof.
  intros Hi Hs. assert (Hc := msum_contains (inflight_bytes (cr_TenantID (iv_reservation v))) (invs r) i v). unfold inflight_bytes at 2 in Hc.
  rewrite Hs, !bool_decide_true in Hc by done. apply Hc; [|done]. intros k u Hu. apply when_nonneg. by apply (bk_inv_size _ Hb k).
Qed.
Lemma active_le i a : arts r !! i = Some a -> ar_State a = ArtifactActive -> ar_Size a <= bytes_used r (ar_TenantID a).
Proof.
  intros Hi Hs. assert (Hc := msum_contains (active_bytes (ar_TenantID a)) (arts r) i a). unfold active_bytes at 2 in Hc.
  rewrite Hs, !bool_decide_true in Hc by done. apply Hc; [|done]. intros k u Hu. apply when_nonneg. by apply (bk_art_size _ Hb k).
Qed.
End Books.

(** ** The view of the collector

    The state of each invocation and artifact with its object, and the version each
    claimed object is claimed at. *)
Record view := MkView {
  v_inv : gmap string (CreateReservation * InvocationState);
  v_art : gmap string (string * string * ArtifactState);
  v_sweep : gmap string string;
}.
Definition view_of (r : MemoryRepository) : view :=
  MkView ((fun v => (iv_reservation v, iv_State v)) <$> invs r) ((fun a => (ar_ObjectKey a, ar_ContentDigest a, ar_State a)) <$> arts r)
    ((fun e => sc_ObjectVersion (sw_claim e)) <$> sweeps (r_sweeps r)).

(** Nothing refers to the object. *)
Definition unreferenced (w : view) (k : string) : Prop :=
  (forall i v, v_inv w !! i = Some (v, InvocationInflight) -> cr_ObjectKey v <> k) /\
  (forall i key d, v_art w !! i = Some (key, d, ArtifactActive) -> key <> k).

Inductive move : view -> view -> Prop :=
| mv_begin w i v :
    v_inv w !! i = None -> v_sweep w !! cr_ObjectKey v = None -> move w (MkView (<[i := (v, InvocationInflight)]> (v_inv w)) (v_art w) (v_sweep w))
| mv_abandon w i v :
    v_inv w !! i = Some (v, InvocationInflight) -> move w (MkView (<[i := (v, InvocationAbandoned)]> (v_inv w)) (v_art w) (v_sweep w))
| mv_tombstone w i k d :
    v_art w !! i = Some (k, d, ArtifactActive) -> move w (MkView (v_inv w) (<[i := (k, d, ArtifactTombstoned)]> (v_art w)) (v_sweep w))
| mv_purge w i k d :
    v_art w !! i = Some (k, d, ArtifactTombstoned) -> move w (MkView (v_inv w) (<[i := (k, d, ArtifactPurged)]> (v_art w)) (v_sweep w)).

Definition keyed (r : MemoryRepository) : Prop := forall k e, sweeps (r_sweeps r) !! k = Some e -> sc_ObjectKey (sw_claim e) = k.

(** What every operation keeps. *)
Definition advances (r r' : MemoryRepository) : Prop :=
  books_ok r -> keyed r -> books_ok r' /\ keyed r' /\ quotas (r_accounts r') = quotas (r_accounts r) /\ rtc move (view_of r) (view_of r').
#[global] Instance advances_preorder : PreOrder advances.
Proof.
  split.
  - intros r Hb Hk. split_and!; try done.
  - intros r1 r2 r3 H12 H23 Hb Hk. destruct (H12 Hb Hk) as (Hb2 & Hk2 & Hq2 & Hm2). destruct (H23 Hb2 Hk2) as (Hb3 & Hk3 & Hq3 & Hm3).
    split_and!; [done|done|congruence|by etrans].
Qed.

Lemma sweeps_only_advances r t gc :
  keyed (MkRepository (r_accounts r) (r_invocations r) (r_artifacts r) t gc) ->
  (fun e => sc_ObjectVersion (sw_claim e)) <$> sweeps t = (fun e => sc_ObjectVersion (sw_claim e)) <$> sweeps (r_sweeps r) ->
  advances r (MkRepository (r_accounts r) (r_invocations r) (r_artifacts r) t gc).
Proof.
  intros Hk Hv Hb _. split; [by destruct Hb; constructor|]. split; [done|]. split; [done|].
  assert (view_of (MkRepository (r_accounts r) (r_invocations r) (r_artifacts r) t gc) = view_of r) as ->; [|done].
  unfold view_of. simpl. by rewrite Hv.
Qed.

(** ** The operations *)
Lemma commit_on_success_ok {A} r (m : res artifact_error (A * MemoryRepository)) a r' :
  commit_on_success r m = (a, r') -> (r' = r /\ exists e, a = Err e) \/ exists x, m = Ok (x, r') /\ a = Ok x.
Proof. destruct m as [[x r1]|e]; simpl; intros [= <- <-]; [right|left]; eauto. Qed.

Lemma fmap_same {A B} (f : A -> B) (m : gmap string A) i a b : m !! i = Some a -> f b = f a -> f <$> <[i := b]> m = f <$> m.
Proof. intros Hi Hf. rewrite fmap_insert, Hf. apply insert_id. by rewrite lookup_fmap, Hi. Qed.

(** The state after a new invocation. *)
Definition add_invocation (r : MemoryRepository) (v : CreateReservation) : MemoryRepository :=
  let t := r_invocations r in
  with_accounts (with_invocations r (MkInvocations
    (<[cr_InvocationID v := MkInvocation v (cr_StartedAt v) 1 InvocationInflight]> (invocations t)) (invocationOrder t ++ [cr_InvocationID v])
    (<[cr_ArtifactID v := cr_InvocationID v]> (artifactReservations t)) (tally (cr_ObjectKey v) 1 (inflightByObject t))))
    (fun u => u) (bump (cr_TenantID v) (cr_Size v)).

Lemma add_invocation_advances r v :
  invs r !! cr_InvocationID v = None -> sweeps (r_sweeps r) !! cr_ObjectKey v = None -> 0 <= cr_Size v ->
  (books_ok r -> bytes_used r (cr_TenantID v) + bytes_reserved r (cr_TenantID v) + cr_Size v <= quota_of r (cr_TenantID v)) ->
  advances r (add_invocation r v).
Proof.
  intros Hi Hs Hz Hq Hb Hk. specialize (Hq Hb). pose proof (quota_range r Hb (cr_TenantID v)). pose proof (used_nonneg r Hb (cr_TenantID v)).
  pose proof (reserved_nonneg r Hb (cr_TenantID v)).
  assert (Hres : forall t, bytes_reserved (add_invocation r v) t = bytes_reserved r t + when (cr_TenantID v == t) (cr_Size v)).
  { intros t. unfold bytes_reserved. simpl. rewrite msum_insert by done. unfold inflight_bytes at 1. simpl. lia. }
  split; [|split; [done|split; [done|]]].
  - constructor; try apply Hb.
    + intros k. simpl. rewrite count_of_tally, msum_insert by done. unfold inflight_on at 1. simpl. rewrite (bk_inflight _ Hb). lia.
    + intros t. rewrite Hres. simpl. rewrite count_of_bump; [by rewrite (bk_reserved _ Hb)|]. rewrite (bk_reserved _ Hb). unfold is_i64. lia.
    + intros i u Hu. simpl in Hu. apply lookup_insert_Some in Hu as [[_ <-]|[_ Hu]]; [done|]. by apply (bk_inv_size _ Hb i).
    + intros t. rewrite Hres. change (bytes_used (add_invocation r v) t) with (bytes_used r t). change (quota_of (add_invocation r v) t) with (quota_of r t).
      pose proof (bk_limit _ Hb t). unfold when. destruct (decide (cr_TenantID v = t)) as [<-|]; [rewrite bool_decide_true by done; lia|].
      rewrite bool_decide_false by done. lia.
  - apply rtc_once. unfold view_of. simpl. rewrite fmap_insert. apply (mv_begin (view_of r) (cr_InvocationID v) v); simpl; by rewrite lookup_fmap, ?Hi, ?Hs.
Qed.

Lemma begin_effect ctx r v a r' : BeginCreate ctx r v = (a, r') ->
  advances r r' /\ forall rec b, a = Ok (rec, b) -> invs r' !! cr_InvocationID v = Some rec.
Proof.
  intros H. apply commit_on_success_ok in H as [[-> [e ->]]|([rec b] & H & ->)]; [by split|].
  unfold begin_create in H. apply bind_ok in H as ([] & _ & H). destruct (invs r !! cr_InvocationID v) as [existing|] eqn:Hi.
  - apply reject_if_ok in H as [_ H]. injection H as <- <- <-. split; [done|]. by intros rec b [= <- <-].
  - apply reject_if_ok in H as [Hs H]. apply bind_ok in H as ([] & Hq & H). apply reject_if_ok in H as [_ H].
    apply reject_if_ok in H as [_ H]. injection H as <- <- <-. split; [|intros rec b [= <- <-]; apply lookup_insert_eq].
    apply bool_decide_eq_false in Hs. rewrite <- eq_None_not_Some in Hs. destruct (quotas (r_accounts r) !! cr_TenantID v) as [quota|] eqn:Hqu; [|done].
    assert (Hq' : 0 <= quota /\ 0 <= cr_Size v /\ cr_Size v <= i64 (i64 (quota - count_of (used (r_accounts r)) (cr_TenantID v))
      - count_of (reserved (r_accounts r)) (cr_TenantID v))).
    { unfold reject_if in Hq. case_match eqn:Hc; [done|]. bools in Hc. lia. }
    destruct Hq' as (Hq1 & Hq2 & Hq3). apply add_invocation_advances; try done. intros Hb.
    rewrite (bk_used _ Hb), (bk_reserved _ Hb) in Hq3. pose proof (used_nonneg r Hb (cr_TenantID v)). pose proof (reserved_nonneg r Hb (cr_TenantID v)).
    pose proof (used_le_quota r Hb (cr_TenantID v)) as Hu. pose proof (bk_limit _ Hb (cr_TenantID v)) as Hl. pose proof (bk_quotas _ Hb _ _ Hqu) as Hi64.
    assert (Hquota : quota_of r (cr_TenantID v) = quota) by (unfold quota_of, count_of; rewrite Hqu; simpl; lia).
    rewrite Hquota in *. unfold is_i64 in Hi64. rewrite (i64_id (quota - _)) in Hq3 by (unfold is_i64; lia). rewrite i64_id in Hq3 by (unfold is_i64; lia). lia.
Qed.

(** A record that keeps its reservation and state changes no total. *)
Lemma set_invocation_advances r i old new :
  invs r !! i = Some old -> iv_reservation new = iv_reservation old -> iv_State new = iv_State old -> advances r (set_invocation r i new).
Proof.
  intros Hi Hv Hs Hb Hk.
  assert (Hsum : forall f, f new = f old -> msum f (invs (set_invocation r i new)) = msum f (invs r)).
  { intros f Hf. simpl. rewrite (msum_update _ _ _ _ _ Hi), Hf. lia. }
  assert (Hres : forall t, bytes_reserved (set_invocation r i new) t = bytes_reserved r t).
  { intros t. apply Hsum. unfold inflight_bytes. by rewrite Hv, Hs. }
  split; [|split; [done|split; [done|]]].
  - constructor; try apply Hb.
    + intros k. rewrite Hsum; [apply Hb|]. unfold inflight_on. by rewrite Hv, Hs.
    + intros t. rewrite Hres. apply Hb.
    + intros j u Hu. simpl in Hu. apply lookup_insert_Some in Hu as [[_ <-]|[_ Hu]]; [rewrite Hv; by apply (bk_inv_size _ Hb i)|by apply (bk_inv_size _ Hb j)].
    + intros t. rewrite Hres. apply (bk_limit _ Hb).
  - assert (view_of (set_invocation r i new) = view_of r) as ->; [|done]. unfold view_of. simpl. f_equal. eapply fmap_same; [exact Hi|]. by rewrite Hv, Hs.
Qed.

Lemma heartbeat_effect ctx r i digest generation now a r' : HeartbeatCreate ctx r i digest generation now = (a, r') ->
  advances r r' /\ forall rec, a = Ok rec -> invs r' !! i = Some rec.
Proof.
  intros H. apply commit_on_success_ok in H as [[-> [e ->]]|(rec & H & ->)]; [by split|].
  unfold heartbeat_create in H. apply bind_ok in H as ([] & _ & H). destruct (invs r !! i) as [record|] eqn:Hi; [|done].
  do 3 apply reject_if_ok in H as [_ H]. destruct (iv_State record == InvocationCommitted); [injection H as <- <-; split; [done|]; by intros ? [= <-]|].
  destruct (iv_HeartbeatAt record <? now); injection H as <- <-; (split; [|intros ? [= <-]]); [|apply lookup_insert_eq|done|done].
  by eapply set_invocation_advances.
Qed.

(** An invocation that stops being inflight gives its reservation back. *)
Lemma leave_inflight r i v : books_ok r -> invs r !! i = Some v -> iv_State v = InvocationInflight ->
  forall new, iv_State new <> InvocationInflight ->
  (forall k, msum (inflight_on k) (<[i := new]> (invs r)) = msum (inflight_on k) (invs r) - when (cr_ObjectKey (iv_reservation v) == k) 1) /\
  (forall t, msum (inflight_bytes t) (<[i := new]> (invs r)) = bytes_reserved r t - when (cr_TenantID (iv_reservation v) == t) (cr_Size (iv_reservation v))).
Proof.
  intros Hb Hi Hs new Hn. split; intros x; unfold bytes_reserved; rewrite (msum_update _ _ _ _ _ Hi); unfold inflight_on, inflight_bytes;
    rewrite Hs, (bool_decide_false (iv_State new = InvocationInflight)), (bool_decide_true (InvocationInflight = InvocationInflight)) by done; simpl; lia.
Qed.

Lemma abandon_advances r i v : invs r !! i = Some v -> iv_State v = InvocationInflight -> advances r (abandon r i v).
Proof.
  intros Hi Hs Hb Hk. destruct (leave_inflight r i v Hb Hi Hs (MkInvocation (iv_reservation v) (iv_HeartbeatAt v) (u64 (iv_Generation v + 1)) InvocationAbandoned)
    ltac:(done)) as [Hon Hbytes].
  assert (Hres : forall t, bytes_reserved (abandon r i v) t = bytes_reserved r t - when (cr_TenantID (iv_reservation v) == t) (cr_Size (iv_reservation v))).
  { intros t. apply Hbytes. }
  assert (Hz := bk_inv_size _ Hb i v Hi).
  assert (Hle : cr_Size (iv_reservation v) <= bytes_reserved r (cr_TenantID (iv_reservation v))).
  { by apply (inflight_le r Hb i). }
  pose proof (reserved_le_quota r Hb (cr_TenantID (iv_reservation v))). pose proof (quota_range r Hb (cr_TenantID (iv_reservation v))).
  split; [|split; [done|split; [done|]]].
  - constructor; try apply Hb.
    + intros k. simpl. rewrite count_of_tally, Hon, (bk_inflight _ Hb). unfold when. destruct (cr_ObjectKey _ == k); lia.
    + intros t. rewrite Hres. simpl. rewrite count_of_bump; rewrite (bk_reserved _ Hb); [|unfold is_i64; lia]. unfold when. destruct (_ == t); lia.
    + intros j u Hu. simpl in Hu. apply lookup_insert_Some in Hu as [[_ <-]|[_ Hu]]; [done|]. by apply (bk_inv_size _ Hb j).
    + intros t. rewrite Hres. pose proof (bk_limit _ Hb t). change (bytes_used (abandon r i v) t) with (bytes_used r t).
      change (quota_of (abandon r i v) t) with (quota_of r t). unfold when. destruct (_ == t); lia.
  - apply rtc_once. unfold view_of. simpl. rewrite fmap_insert. apply (mv_abandon (view_of r) i (iv_reservation v)). simpl. by rewrite lookup_fmap, Hi, <- Hs.
Qed.

Lemma leave_active r i a new : arts r !! i = Some a -> ar_State a = ArtifactActive -> ar_State new <> ArtifactActive ->
  (forall k, msum (active_on k) (<[i := new]> (arts r)) = msum (active_on k) (arts r) - when (ar_ObjectKey a == k) 1) /\
  (forall t, msum (active_bytes t) (<[i := new]> (arts r)) = bytes_used r t - when (ar_TenantID a == t) (ar_Size a)).
Proof.
  intros Hi Hs Hn. split; intros x; unfold bytes_used; rewrite (msum_update _ _ _ _ _ Hi); unfold active_on, active_bytes;
    rewrite Hs, (bool_decide_false (ar_State new = ArtifactActive)), (bool_decide_true (ArtifactActive = ArtifactActive)) by done; simpl; lia.
Qed.

Lemma tombstone_advances r i a now : arts r !! i = Some a -> ar_State a = ArtifactActive -> advances r (tombstone r i (ar_TenantID a) a now).2.
Proof.
  intros Hi Hs Hb Hk. set (r' := (tombstone r i (ar_TenantID a) a now).2).
  destruct (leave_active r i a (tombstone r i (ar_TenantID a) a now).1 Hi Hs ltac:(done)) as [Hon Hbytes].
  assert (Hused : forall t, bytes_used r' t = bytes_used r t - when (ar_TenantID a == t) (ar_Size a)) by apply Hbytes.
  assert (Hz := bk_art_size _ Hb i a Hi).
  assert (Hle : ar_Size a <= bytes_used r (ar_TenantID a)).
  { by apply (active_le r Hb i). }
  pose proof (used_le_quota r Hb (ar_TenantID a)). pose proof (quota_range r Hb (ar_TenantID a)).
  split; [|split; [done|split; [done|]]].
  - constructor; try apply Hb.
    + intros k. simpl. rewrite count_of_tally, (bk_active _ Hb). simpl in Hon. rewrite Hon. unfold when. destruct (ar_ObjectKey a == k); lia.
    + intros t. rewrite Hused. simpl. rewrite count_of_bump; rewrite (bk_used _ Hb); [|unfold is_i64; lia]. unfold when. destruct (_ == t); lia.
    + intros j u Hu. simpl in Hu. apply lookup_insert_Some in Hu as [[_ <-]|[_ Hu]]; [done|]. by apply (bk_art_size _ Hb j).
    + intros t. rewrite Hused. pose proof (bk_limit _ Hb t). change (bytes_reserved r' t) with (bytes_reserved r t).
      change (quota_of r' t) with (quota_of r t). unfold when. destruct (_ == t); lia.
  - apply rtc_once. unfold view_of. simpl. rewrite fmap_insert. simpl. apply (mv_tombstone (view_of r) i). simpl. by rewrite lookup_fmap, Hi, <- Hs.
Qed.

Lemma tombstone_effect ctx r i t now : advances r (TombstoneArtifact ctx r i t now).2.
Proof.
  destruct (TombstoneArtifact ctx r i t now) as [a r'] eqn:H. apply commit_on_success_ok in H as [[-> _]|([rec b] & H & _)]; [done|].
  unfold tombstone_artifact in H. apply bind_ok in H as ([] & _ & H). destruct (arts r !! i) as [record|] eqn:Hi; [|done].
  apply reject_if_ok in H as [Ht H]. apply neq_test_false in Ht as <-. destruct (decide (ar_State record = ArtifactActive)) as [Hs|Hs].
  - assert ((ar_State record != ArtifactActive) = false) as Hf by (by apply neq_test_false). rewrite Hf in H.
    assert (Hadv := tombstone_advances r i record now Hi Hs). destruct (tombstone r i (ar_TenantID record) record now) as [rec' r1]. by injection H as _ _ <-.
  - rewrite bool_decide_true in H by done. by injection H as _ _ <-.
Qed.

Lemma expire_one_advances now acc i : advances acc.2 (expire_one now acc i).2.
Proof.
  destruct acc as [count r]. unfold expire_one. simpl. destruct (arts r !! i) as [a|] eqn:Hi; [|done].
  destruct ((ar_State a != ArtifactActive) || (now <? ar_RetainUntil a)) eqn:Hc; [done|]. apply orb_false_iff in Hc as [Hc _].
  apply tombstone_advances; [done|]. by apply neq_test_false in Hc.
Qed.
Lemma abandon_one_advances stale acc i : advances acc.2 (abandon_one stale acc i).2.
Proof.
  destruct acc as [count r]. unfold abandon_one. simpl. destruct (invs r !! i) as [v|] eqn:Hi; [|done].
  destruct ((iv_State v != InvocationInflight) || negb (stale v)) eqn:Hc; [done|]. apply orb_false_iff in Hc as [Hc _].
  apply abandon_advances; [done|]. by apply neq_test_false in Hc.
Qed.
Lemma fold_advances (one : Z * MemoryRepository -> string -> Z * MemoryRepository) ids :
  (forall acc i, advances acc.2 (one acc i).2) -> forall acc, advances acc.2 (foldl one acc ids).2.
Proof. intros Hone. induction ids as [|i ids IH]; intros acc; simpl; [done|]. etrans; [apply Hone|apply IH]. Qed.

Lemma scan_page_advances ctx r lease after limit order one :
  (forall acc i, advances acc.2 (one acc i).2) -> advances r (commit_on_success r (scan_page ctx r lease after limit order one)).2.
Proof.
  intros Hone. destruct (commit_on_success _ _) as [a r'] eqn:H. apply commit_on_success_ok in H as [[-> _]|([[count next] d] & H & _)]; [done|].
  unfold scan_page in H. apply bind_ok in H as ([] & _ & H). do 2 apply reject_if_ok in H as [_ H]. apply bind_ok in H as ([[[start stop] n] dn] & _ & H).
  assert (Hf := fold_advances one (slice order start stop) Hone (0, r)). destruct (foldl one (0, r) (slice order start stop)) as [c r1].
  by injection H as _ _ _ <-.
Qed.
Lemma expire_page_effect ctx r lease now after limit : advances r (TombstoneExpiredPage ctx r lease now after limit).2.
Proof. apply scan_page_advances, expire_one_advances. Qed.
Lemma abandon_page_effect ctx r lease before after limit : advances r (AbandonInflightPage ctx r lease before after limit).2.
Proof. apply scan_page_advances, abandon_one_advances. Qed.

(** The lease alone. *)
Lemma gc_only_advances r gc : advances r (with_gc r gc).
Proof. intros Hb Hk. by apply (sweeps_only_advances r (r_sweeps r) gc). Qed.
Lemma acquire_effect ctx r now duration : advances r (AcquireGC ctx r now duration).2.
Proof.
  destruct (AcquireGC ctx r now duration) as [a r'] eqn:H. apply commit_on_success_ok in H as [[-> _]|(l & H & _)]; [done|].
  unfold acquire_gc in H. apply bind_ok in H as ([] & _ & H). apply reject_if_ok in H as [_ H]. destruct (match _ with Some l => _ | None => _ end);
    injection H as _ <-; [done|apply gc_only_advances].
Qed.
Lemma renew_effect ctx r lease now duration : advances r (RenewGC ctx r lease now duration).2.
Proof.
  destruct (RenewGC ctx r lease now duration) as [a r'] eqn:H. apply commit_on_success_ok in H as [[-> _]|(l & H & _)]; [done|].
  unfold renew_gc in H. apply bind_ok in H as ([] & _ & H). apply reject_if_ok in H as [_ H]. destruct (gcLease (r_gc r)); [|done].
  apply reject_if_ok in H as [_ H]. injection H as _ <-. apply gc_only_advances.
Qed.
Lemma release_effect ctx r lease checkpoint : advances r (ReleaseGC ctx r lease checkpoint).2.
Proof.
  destruct (ReleaseGC ctx r lease checkpoint) as [a r'] eqn:H. apply commit_on_success_ok in H as [[-> _]|(l & H & _)]; [done|].
  unfold release_gc in H. apply bind_ok in H as ([] & _ & H). apply reject_if_ok in H as [_ H]. injection H as _ <-. apply gc_only_advances.
Qed.

(** A page of claims: every claim is of a claimed object, at its version. *)
Abbreviation versions m := ((fun e => sc_ObjectVersion (sw_claim e)) <$> m) (only parsing).
Lemma requeue_fold lease entries (V : gmap string string) : forall claims t,
  versions (sweeps t) = V -> (forall k e, sweeps t !! k = Some e -> sc_ObjectKey (sw_claim e) = k) ->
  Forall (fun e => V !! sc_ObjectKey (sw_claim e) = Some (sc_ObjectVersion (sw_claim e))) entries ->
  Forall (fun c => V !! sc_ObjectKey c = Some (sc_ObjectVersion c)) claims ->
  let '(claims', t') := foldl (requeue lease) (claims, t) entries in
  versions (sweeps t') = V /\ (forall k e, sweeps t' !! k = Some e -> sc_ObjectKey (sw_claim e) = k) /\
  Forall (fun c => V !! sc_ObjectKey c = Some (sc_ObjectVersion c)) claims'.
Proof.
  induction entries as [|e entries IH]; intros claims t Hv Hk He Hc; [done|]. apply Forall_cons in He as [He1 He]. simpl. apply IH; simpl.
  - rewrite fmap_insert. simpl. rewrite Hv. by apply insert_id.
  - intros k x [[<- <-]|[_ Hx]]%lookup_insert_Some; [done|]. by apply Hk.
  - done.
  - apply Forall_app. split; [done|]. by apply Forall_singleton.
Qed.

Lemma pending_effect ctx r lease cursor limit a r' : PendingSweepsPage ctx r lease cursor limit = (a, r') -> keyed r ->
  advances r r' /\ forall claims next d, a = Ok (claims, next, d) ->
    Forall (fun c => v_sweep (view_of r') !! sc_ObjectKey c = Some (sc_ObjectVersion c)) claims.
Proof.
  intros H Hk. apply commit_on_success_ok in H as [[-> [e ->]]|([[claims next] d] & H & ->)]; [by split|].
  unfold pending_sweeps_page in H. apply bind_ok in H as ([] & _ & H). do 2 apply reject_if_ok in H as [_ H].
  assert (Hf := requeue_fold lease (take (Z.to_nat limit) (sweep_queue r)) (versions (sweeps (r_sweeps r))) [] (r_sweeps r) eq_refl Hk).
  destruct (foldl (requeue lease) ([], r_sweeps r) (take (Z.to_nat limit) (sweep_queue r))) as [claims' t]. injection H as -> <- <- <-.
  destruct Hf as (Hv & Hk' & Hc).
  - apply Forall_take. unfold sweep_queue. rewrite sort_by_perm. apply Forall_forall. intros e He. apply list_elem_of_fmap in He as ([k e'] & -> & He).
    apply elem_of_map_to_list in He. simpl. rewrite lookup_fmap, (Hk k e' He), He. done.
  - constructor.
  - split; [by apply sweeps_only_advances|]. intros ? ? ? [= <- <- <-]. simpl. by rewrite Hv.
Qed.

(** A commit makes an inflight invocation's artifact active. *)
Lemma commit_effect ctx r request a r' : CommitCreate ctx r request = (a, r') ->
  r' = r \/
  exists v art, art = cc_Artifact request /\ invs r !! cc_InvocationID request = Some v /\ iv_State v = InvocationInflight /\
    ar_ObjectKey art = cr_ObjectKey (iv_reservation v) /\ arts r !! ar_ArtifactID art = None /\ ar_State art = ArtifactActive /\
    (books_ok r -> books_ok r') /\ (keyed r -> keyed r') /\ quotas (r_accounts r') = quotas (r_accounts r) /\
    view_of r' = MkView (<[cc_InvocationID request := (iv_reservation v, InvocationCommitted)]> (v_inv (view_of r)))
      (<[ar_ArtifactID art := (ar_ObjectKey art, ar_ContentDigest art, ArtifactActive)]> (v_art (view_of r))) (v_sweep (view_of r)).
Proof.
  intros H. apply commit_on_success_ok in H as [[-> _]|([rec b] & H & _)]; [by left|].
  unfold commit_create in H. apply bind_ok in H as ([] & _ & H). destruct (invs r !! cc_InvocationID request) as [v|] eqn:Hi; [|done]. cbn zeta in H.
  apply reject_if_ok in H as [_ H]. apply reject_if_ok in H as [Hab H]. destruct (decide (iv_State v = InvocationCommitted)) as [Hc|Hc].
  { rewrite bool_decide_true in H by done. destruct (arts r !! _); [|done]. injection H as <- <- <-. by left. }
  rewrite bool_decide_false in H by done. apply bool_decide_eq_false in Hab. assert (Hs : iv_State v = InvocationInflight) by (by destruct (iv_State v)).
  apply reject_if_ok in H as [_ H]. apply reject_if_ok in H as [Hm H]. apply reject_if_ok in H as [Hex H]. injection H as <- <- <-.
  bools in Hm. destruct Hm as [[[[[[_ Htenant] _] _] Hkey] Hsize] Hact]. apply bool_decide_eq_false in Hex. rewrite <- eq_None_not_Some in Hex.
  right. exists v, (cc_Artifact request). split_and!; try done.
  - intros Hb. set (art := cc_Artifact request) in *.
    destruct (leave_inflight r _ v Hb Hi Hs (MkInvocation (iv_reservation v) (iv_HeartbeatAt v) (iv_Generation v) InvocationCommitted) ltac:(done)) as [Hon Hby].
    assert (Hz := bk_inv_size _ Hb _ v Hi). set (t0 := cr_TenantID (iv_reservation v)) in *.
    assert (Hle : ar_Size art <= bytes_reserved r t0).
    { rewrite Hsize. by apply (inflight_le r Hb _ v Hi). }
    pose proof (reserved_le_quota r Hb t0). pose proof (quota_range r Hb t0). pose proof (bk_limit _ Hb t0). pose proof (used_nonneg r Hb t0).
    match goal with |- books_ok ?r1 => set (r' := r1) end.
    assert (Hres : forall t, bytes_reserved r' t = bytes_reserved r t - when (t0 == t) (ar_Size art)) by (intros t; rewrite Hsize; apply Hby).
    assert (Huse : forall t, bytes_used r' t = bytes_used r t + when (t0 == t) (ar_Size art)).
    { intros t. unfold bytes_used. simpl. rewrite msum_insert by done. unfold active_bytes at 1. rewrite Hact, Htenant, bool_decide_true by done. simpl.
      lia. }
    constructor; try apply Hb.
    + intros k. simpl. rewrite count_of_tally, Hon, (bk_inflight _ Hb), Hkey. unfold when. destruct (_ == k); lia.
    + intros k. simpl. rewrite count_of_tally, msum_insert, (bk_active _ Hb) by done. unfold active_on at 2. rewrite Hact, (bool_decide_true (ArtifactActive = ArtifactActive)) by done. simpl. lia.
    + intros t. rewrite Hres. simpl. rewrite Htenant, count_of_bump; rewrite (bk_reserved _ Hb); [|unfold is_i64; lia].
      unfold when. destruct (_ == t); lia.
    + intros t. rewrite Huse. simpl. rewrite Htenant, count_of_bump; rewrite (bk_used _ Hb); [done|unfold is_i64; lia].
    + intros i u Hu. simpl in Hu. apply lookup_insert_Some in Hu as [[_ <-]|[_ Hu]]; [done|]. by apply (bk_inv_size _ Hb i).
    + intros i u Hu. simpl in Hu. apply lookup_insert_Some in Hu as [[_ <-]|[_ Hu]]; [lia|]. by apply (bk_art_size _ Hb i).
    + intros t. rewrite Hres, Huse. pose proof (bk_limit _ Hb t). change (quota_of r' t) with (quota_of r t). lia.
  - unfold view_of. simpl. by rewrite !fmap_insert, Hact.
Qed.

(** A claim is of an object nothing refers to. *)
Lemma sweepable_unreferenced r k before : books_ok r -> sweepable r k before = true ->
  v_sweep (view_of r) !! k = None /\ unreferenced (view_of r) k.
Proof.
  intros Hb H. unfold sweepable in H. apply andb_prop in H as [H _]. apply andb_prop in H as [Hs Hc]. apply bool_decide_eq_true in Hs. bools in Hc.
  destruct Hc as [Hi Ha]. rewrite (bk_inflight _ Hb) in Hi. rewrite (bk_active _ Hb) in Ha. split; [simpl; by rewrite lookup_fmap, Hs|]. split; simpl.
  - intros i v Hv <-. rewrite lookup_fmap in Hv. apply fmap_Some in Hv as (u & Hu & [= -> Hst]).
    assert (Hle := msum_contains (inflight_on (cr_ObjectKey (iv_reservation u))) (invs r) i u). unfold inflight_on at 2 in Hle.
    rewrite <- Hst, !bool_decide_true in Hle by done. simpl in Hle. rewrite Hi in Hle. assert (1 <= 0); [|lia]. apply Hle; [|done].
    intros j x _. unfold inflight_on. by apply when_nonneg.
  - intros i key d Hv <-. rewrite lookup_fmap in Hv. apply fmap_Some in Hv as (u & Hu & [= -> -> Hst]).
    assert (Hle := msum_contains (active_on (ar_ObjectKey u)) (arts r) i u). unfold active_on at 2 in Hle.
    rewrite <- Hst, !bool_decide_true in Hle by done. simpl in Hle. rewrite Ha in Hle. assert (1 <= 0); [|lia]. apply Hle; [|done].
    intros j x _. unfold active_on. by apply when_nonneg.
Qed.

Lemma claim_effect ctx r lease k version before a r' : ClaimSweepLeased ctx r lease k version before = (a, r') ->
  (r' = r /\ forall c, a <> Ok (Some c)) \/
  exists c, a = Ok (Some c) /\ sc_ObjectKey c = k /\ sc_ObjectVersion c = version /\ (keyed r -> keyed r') /\
    quotas (r_accounts r') = quotas (r_accounts r) /\
    (books_ok r -> books_ok r' /\ v_sweep (view_of r) !! k = None /\ unreferenced (view_of r) k) /\
    view_of r' = MkView (v_inv (view_of r)) (v_art (view_of r)) (<[k := version]> (v_sweep (view_of r))).
Proof.
  intros H. apply commit_on_success_ok in H as [[-> [e ->]]|(c & H & ->)]; [by left|].
  unfold claim_sweep_leased in H. apply bind_ok in H as ([] & _ & H). apply reject_if_ok in H as [_ H].
  destruct (sweepable r k before) eqn:Hs; [|injection H as <- <-; by left]. injection H as <- <-. right. eexists. split; [done|]. simpl. split_and!; try done.
  - intros Hk j e He. simpl in He. apply lookup_insert_Some in He as [[<- <-]|[_ He]]; [done|]. by apply Hk.
  - intros Hb. split; [by destruct Hb; constructor|]. by eapply sweepable_unreferenced.
  - unfold view_of. simpl. by rewrite fmap_insert.
Qed.

(** The end of a claim. *)
Definition unclaimed (r r' : MemoryRepository) (c : SweepClaim) : Prop :=
  v_sweep (view_of r) !! sc_ObjectKey c = Some (sc_ObjectVersion c) /\ (keyed r -> keyed r') /\ quotas (r_accounts r') = quotas (r_accounts r) /\
  (books_ok r -> keyed r -> books_ok r' /\ rtc move (MkView (v_inv (view_of r)) (v_art (view_of r)) (delete (sc_ObjectKey c) (v_sweep (view_of r)))) (view_of r')).

Lemma claim_current_view r c : claim_current r c = true -> v_sweep (view_of r) !! sc_ObjectKey c = Some (sc_ObjectVersion c).
Proof.
  unfold claim_current. simpl. rewrite lookup_fmap. destruct (sweeps (r_sweeps r) !! sc_ObjectKey c) as [e|]; [|done].
  intros He%bool_decide_eq_true. simpl. by rewrite He.
Qed.
Lemma remove_keyed r k : keyed r -> keyed (removeSweepLocked r k).
Proof. intros Hk j e He. simpl in He. apply lookup_delete_Some in He as [_ He]. by apply Hk. Qed.

Lemma retire_effect ctx r lease c a r' : RetireSweepLeased ctx r lease c = (a, r') -> r' = r \/ unclaimed r r' c.
Proof.
  intros H. apply commit_on_success_ok in H as [[-> _]|([] & H & _)]; [by left|].
  unfold retire_sweep_leased in H. apply bind_ok in H as ([] & _ & H). apply reject_if_ok in H as [_ H]. apply reject_if_ok in H as [Hc H].
  apply negb_false_iff in Hc. injection H as <-. right. split_and!; [by apply claim_current_view|apply remove_keyed|done|].
  intros Hb _. split; [by destruct Hb; constructor|]. unfold view_of. simpl. rewrite fmap_delete. constructor.
Qed.

Lemma purge_fold now (r : MemoryRepository) sw ids : forall acc,
  let '(count, m) := foldl (purge_one now) acc ids in
  let t := r_artifacts r in
  let at_ m := MkRepository (r_accounts r) (r_invocations r) (MkArtifacts m (artifactOrder t) (activeByObject t) (latestTombstoneByObject t) (artifactIDsByObject t)) sw (r_gc r) in
  advances (at_ acc.2) (at_ m).
Proof.
  induction ids as [|i ids IH]; intros acc; [destruct acc; done|]. simpl. specialize (IH (purge_one now acc i)).
  destruct (foldl (purge_one now) (purge_one now acc i) ids) as [count m]. cbn zeta in *. etrans; [|exact IH]. clear IH. destruct acc as [n m0].
  unfold purge_one. simpl. destruct (m0 !! i) as [a|] eqn:Hi; [|done]. destruct (decide (ar_State a = ArtifactTombstoned)) as [Hs|Hs].
  2:{ rewrite bool_decide_true by done. done. }
  assert ((ar_State a != ArtifactTombstoned) = false) as -> by (by apply neq_test_false). simpl. intros Hb Hk.
  match goal with |- books_ok ?r1 /\ _ => set (r' := r1) end.
  assert (Hsum : forall f : ArtifactRecord -> Z, (forall u, ar_State u <> ArtifactActive -> f u = 0) -> msum f (arts r') = msum f m0).
  { intros f Hf. simpl. rewrite (msum_update _ _ _ _ _ Hi). rewrite (Hf a) by (by rewrite Hs). rewrite Hf by done. lia. }
  assert (Hon : forall k, msum (active_on k) (arts r') = msum (active_on k) m0).
  { intros k. apply Hsum. intros u Hu. unfold active_on. by rewrite bool_decide_false. }
  assert (Huse : forall t, bytes_used r' t = msum (active_bytes t) m0).
  { intros t. apply Hsum. intros u Hu. unfold active_bytes. by rewrite bool_decide_false. }
  split; [|split; [done|split; [done|]]].
  - constructor; try apply Hb.
    + intros k. rewrite Hon. apply (bk_active _ Hb).
    + intros t. rewrite Huse. apply (bk_used _ Hb).
    + intros j u Hu. simpl in Hu. apply lookup_insert_Some in Hu as [[_ <-]|[_ Hu]]; [exact (bk_art_size _ Hb i a Hi)|by apply (bk_art_size _ Hb j)].
    + intros t. rewrite Huse. apply (bk_limit _ Hb).
  - apply rtc_once. unfold view_of. simpl. rewrite fmap_insert. simpl.
    match goal with |- move ?w _ => apply (mv_purge w i) end. simpl. by rewrite lookup_fmap, Hi, <- Hs.
Qed.

Lemma finish_effect ctx r lease c now a r' : FinishSweepLeased ctx r lease c true now = (a, r') -> r' = r \/ unclaimed r r' c.
Proof.
  intros H. apply commit_on_success_ok in H as [[-> _]|(n & H & _)]; [by left|].
  unfold finish_sweep_leased in H. apply bind_ok in H as ([] & _ & H). apply reject_if_ok in H as [_ H]. apply reject_if_ok in H as [Hc H].
  apply negb_false_iff in Hc. injection H as H. right. apply claim_current_view in Hc.
  unfold finish in H. cbn [negb] in H. cbn zeta in H. set (r1 := removeSweepLocked r (sc_ObjectKey c)) in *.
  assert (Hf := purge_fold now r1 (r_sweeps r1) (default [] (artifactIDsByObject (r_artifacts r1) !! sc_ObjectKey c)) (0, arts r1)).
  destruct (foldl (purge_one now) _ _) as [count m]. injection H as _ <-. cbn zeta in Hf. simpl in Hf.
  unfold unclaimed. split; [done|]. split; [intros Hk; by apply remove_keyed|]. split; [done|].
  intros Hb Hk. destruct Hf as (Hb2 & _ & _ & Hm); [by destruct Hb; constructor|exact (remove_keyed r _ Hk)|].
  split; [by destruct Hb2; constructor|]. revert Hm. unfold view_of. simpl. by rewrite fmap_delete.
Qed.
