(* ===== verification/ArtifactProtocol.v ===== *)
(** * Artifacts under concurrency: the protocol

    What the calls of the service do to the repository and the blob store, what a process
    knows from the answers it got, which calls that permits, and why they keep the bytes
    of every active artifact whatever the other processes do. *)

From S2P Require Import Prelude MapSums Programs GoText GoStrings GoCrypto ArtifactRepo ArtifactService ArtifactBooks.
#[local] Open Scope string_scope.
#[local] Open Scope list_scope.
#[local] Open Scope Z_scope.
#[local] Open Scope go_scope.

Record World := MkWorld { w_repo : MemoryRepository; w_blobs : MemoryBlobStore }.

(** A context is live or done. *)
Definition context_ok (ctx : option artifact_error) : Prop := ctx = None \/ ctx = Some ErrContext.
Definition on_repo {A} (w : World) (op : option artifact_error -> MemoryRepository -> res artifact_error A * MemoryRepository)
    (a : res artifact_error A) (w' : World) : Prop :=
  exists ctx r, context_ok ctx /\ op ctx (w_repo w) = (a, r) /\ w' = MkWorld r (w_blobs w).
Definition on_blobs {A} (w : World) (op : option artifact_error -> MemoryBlobStore -> res artifact_error A * MemoryBlobStore)
    (a : res artifact_error A) (w' : World) : Prop :=
  exists ctx b, context_ok ctx /\ op ctx (w_blobs w) = (a, b) /\ w' = MkWorld (w_repo w) b.
Definition reads {S A} (op : option artifact_error -> S -> res artifact_error A) (ctx : option artifact_error) (s : S) := (op ctx s, s).

(** The effect of a call.  The clock, the authorizer, the workspace, the source of
    identifiers and the heartbeats beside a program answer anything; the counter of
    object versions does not reach the end of [uint64]. *)
Definition call_sem (w : World) (X : Type) (c : ACall X) : X -> World -> Prop :=
  match c in ACall X return X -> World -> Prop with
  | Now => fun _ w' => w' = w
  | Authorize _ => fun _ w' => w' = w
  | ReadFile _ => fun _ w' => w' = w
  | NewArtifactID => fun _ w' => w' = w
  | JoinHeartbeat => fun _ w' => w' = w
  | Lookup i => on_repo w (reads (fun ctx r => LookupInvocation ctx r i))
  | Begin v => on_repo w (fun ctx r => BeginCreate ctx r v)
  | Heartbeat i digest generation now => on_repo w (fun ctx r => HeartbeatCreate ctx r i digest generation now)
  | Commit request => on_repo w (fun ctx r => CommitCreate ctx r request)
  | GetRecord i => on_repo w (reads (fun ctx r => GetArtifact ctx r i))
  | Tombstone i t now => on_repo w (fun ctx r => TombstoneArtifact ctx r i t now)
  | ExpirePage lease now after limit => on_repo w (fun ctx r => TombstoneExpiredPage ctx r lease now after limit)
  | AbandonPage lease before after limit => on_repo w (fun ctx r => AbandonInflightPage ctx r lease before after limit)
  | Acquire now duration => on_repo w (fun ctx r => AcquireGC ctx r now duration)
  | Release lease checkpoint => on_repo w (fun ctx r => ReleaseGC ctx r lease checkpoint)
  | PendingPage lease cursor limit => on_repo w (fun ctx r => PendingSweepsPage ctx r lease cursor limit)
  | Claim lease k version before => on_repo w (fun ctx r => ClaimSweepLeased ctx r lease k version before)
  | Retire lease claim => on_repo w (fun ctx r => RetireSweepLeased ctx r lease claim)
  | Finish lease claim deleted now => on_repo w (fun ctx r => FinishSweepLeased ctx r lease claim deleted now)
  | PutBlob request => fun a w' =>
      (nextObjectVersion (w_blobs w) < u64_max /\ on_blobs w (fun ctx b => PutIfAbsent ctx b request) a w') \/ (a = Err ErrContext /\ w' = w)
  | GetBlob k => on_blobs w (reads (fun ctx b => Get ctx b k))
  | HeadBlob k => on_blobs w (reads (fun ctx b => Head ctx b k))
  | ListBlobs request => on_blobs w (reads (fun ctx b => ListPage ctx b request))
  | DeleteBlob k version => on_blobs w (fun ctx b => DeleteIfVersion ctx b k version)
  end.

(** Heartbeats and renewals beside the programs, and the injected failures of the store. *)
Inductive env_step (w : World) : World -> Prop :=
| env_heartbeat ctx i digest generation now :
    env_step w (MkWorld (HeartbeatCreate ctx (w_repo w) i digest generation now).2 (w_blobs w))
| env_renew ctx lease now duration : env_step w (MkWorld (RenewGC ctx (w_repo w) lease now duration).2 (w_blobs w))
| env_fail_put e : env_step w (MkWorld (w_repo w) (FailAfterPut (w_blobs w) e))
| env_fail_delete e : env_step w (MkWorld (w_repo w) (FailAfterDelete (w_blobs w) e)).

(** ** What a process knows *)
Inductive Fact :=
| Known (i : string) (v : CreateReservation)   (* the reservation of the invocation *)
| Ready (i k d : string)                       (* while the invocation is inflight, the object holds the digest *)
| Listed (k version : string)                  (* a version the store issued *)
| Claimed (k version : string)                 (* claimed at this version, or the version is gone *)
| Gone (k version : string).                   (* the object does not have this version any more *)

Definition learns (K : Fact -> Prop) (X : Type) (c : ACall X) : X -> Fact -> Prop :=
  match c in ACall X return X -> Fact -> Prop with
  | Begin v => fun a f => match a with Ok (rec, _) => f = Known (cr_InvocationID v) (iv_reservation rec) | Err _ => False end
  | Heartbeat i _ _ _ => fun a f => match a with Ok rec => f = Known i (iv_reservation rec) | Err _ => False end
  | PutBlob put => fun a f => a = Ok tt /\ exists i v, K (Known i v) /\ f = Ready i (bp_Key put) (bp_Digest put)
  | GetBlob k => fun a f => match a with Ok o => exists i v, K (Known i v) /\ f = Ready i k (bo_Digest o) | Err _ => False end
  | ListBlobs _ => fun a f => match a with Ok page => exists o, o ∈ pg_Objects page /\ f = Listed (bi_Key o) (bi_Version o) | Err _ => False end
  | PendingPage _ _ _ => fun a f =>
      match a with Ok (claims, _, _) => exists c, c ∈ claims /\ f = Claimed (sc_ObjectKey c) (sc_ObjectVersion c) | Err _ => False end
  | Claim _ _ _ _ => fun a f => match a with Ok (Some c) => f = Claimed (sc_ObjectKey c) (sc_ObjectVersion c) | _ => False end
  | HeadBlob k => fun a f => exists version, K (Claimed k version) /\ f = Gone k version /\
      match a with Ok o => bi_Version o <> version | Err e => e = ErrBlobNotFound end
  | DeleteBlob k version => fun a f => K (Claimed k version) /\ f = Gone k version /\
      (a = Ok tt \/ a = Err ErrBlobNotFound \/ a = Err ErrBlobVersionConflict)
  | _ => fun _ _ => False
  end.
Fixpoint knows (h : list (event ACall)) (f : Fact) : Prop :=
  match h with
  | [] => False
  | e :: rest => knows rest f \/ learns (knows rest) _ (ev_call _ e) (ev_answer _ e) f
  end.

(** What a process may call: it commits bytes it stored or saw under the reservation,
    deletes only versions it has claimed, and ends a claim only when its version is gone. *)
Definition permitted (h : list (event ACall)) (X : Type) (c : ACall X) : Prop :=
  match c with
  | Commit request =>
      exists v v', knows h (Known (cc_InvocationID request) v) /\ knows h (Known (cc_InvocationID request) v') /\
        knows h (Ready (cc_InvocationID request) (cr_ObjectKey v) (cr_ContentDigest v)) /\
        ar_ObjectKey (cc_Artifact request) = cr_ObjectKey v' /\ ar_ContentDigest (cc_Artifact request) = cr_ContentDigest v'
  | Claim _ k version _ => knows h (Listed k version)
  | Retire _ claim => knows h (Gone (sc_ObjectKey claim) (sc_ObjectVersion claim))
  | Finish _ claim deleted _ => deleted = true /\ knows h (Gone (sc_ObjectKey claim) (sc_ObjectVersion claim))
  | DeleteBlob k version => knows h (Claimed k version)
  | _ => True
  end.

(** ** What the facts mean *)
Definition issued (b : MemoryBlobStore) (version : string) : Prop := exists n, 1 <= n <= nextObjectVersion b /\ version = version_text n.
Definition absent (b : MemoryBlobStore) (k version : string) : Prop := forall o, objects b !! k = Some o -> bo_Version o <> version.
Definition stored (b : MemoryBlobStore) (k d : string) : Prop := exists o, objects b !! k = Some o /\ bo_Digest o = d.

Definition holds (w : view) (b : MemoryBlobStore) (f : Fact) : Prop :=
  match f with
  | Known i v => exists st, v_inv w !! i = Some (v, st)
  | Ready i k d => is_Some (v_inv w !! i) /\ forall v, v_inv w !! i = Some (v, InvocationInflight) -> cr_ObjectKey v = k -> stored b k d
  | Listed k version => issued b version
  | Claimed k version => issued b version /\ (v_sweep w !! k = Some version \/ absent b k version)
  | Gone k version => issued b version /\ absent b k version
  end.

(** The bytes of every active artifact are stored; nothing refers to a claimed object. *)
Record safe (w : view) (b : MemoryBlobStore) : Prop := MkSafe {
  sf_fence : forall k version, v_sweep w !! k = Some version -> unreferenced w k /\ issued b version;
  sf_stored : forall i k d, v_art w !! i = Some (k, d, ArtifactActive) -> stored b k d;
}.
Record store_ok (b : MemoryBlobStore) : Prop := MkStoreOk {
  so_objects : forall k o, objects b !! k = Some o -> bo_Key o = k /\ issued b (bo_Version o) /\ bo_Digest o = digestBytes (bo_Data o);
  so_history : Forall (fun h => issued b (bi_Version (hi_info h))) (history b);
  so_version : 0 <= nextObjectVersion b <= u64_max;
}.
Definition assured (w : World) (h : list (event ACall)) : Prop := forall f, knows h f -> holds (view_of (w_repo w)) (w_blobs w) f.

Section world.
Context (quotas0 : gmap string Z).

(** The quotas are those the repository was made with. *)
Record world_ok (w : World) : Prop := MkWorldOk {
  wo_books : books_ok (w_repo w);
  wo_keyed : keyed (w_repo w);
  wo_store : store_ok (w_blobs w);
  wo_safe : safe (view_of (w_repo w)) (w_blobs w);
  wo_quotas : quotas (r_accounts (w_repo w)) = quotas0;
}.

(** ** Moves of the repository *)
Lemma move_keeps w w' b : safe w b -> move w w' -> safe w' b /\ forall f, holds w b f -> holds w' b f.
Proof.
  intros [Hfence Hstored] Hm. destruct Hm as [w i v Hi Hs|w i v Hi|w i k d Hi|w i k d Hi]; (split; [split|]); simpl.
  - intros k version Hk. destruct (Hfence k version Hk) as [[Hu1 Hu2] Hiss]. split; [|done]. split; [|done]. simpl.
    intros j u [[<- [= <-]]|[_ Hj]]%lookup_insert_Some; [|by apply (Hu1 j)]. intros <-. congruence.
  - done.
  - intros [j u|j k d|k x|k x|k x]; simpl; try done.
    + intros [st Hj]. exists st. rewrite lookup_insert_ne; [done|]. congruence.
    + intros [Hj Hr]. rewrite lookup_insert_ne by (intros ->; rewrite Hi in Hj; by destruct Hj). done.
  - intros k version Hk. destruct (Hfence k version Hk) as [[Hu1 Hu2] Hiss]. split; [|done]. split; [|done]. simpl.
    intros j u [[_ [=]]|[_ Hj]]%lookup_insert_Some. by apply (Hu1 j).
  - done.
  - intros [j u|j k d|k x|k x|k x]; simpl; try done.
    + intros [st Hj]. destruct (decide (i = j)) as [<-|]; [|exists st; by rewrite lookup_insert_ne]. rewrite lookup_insert_eq. simplify_eq. eauto.
    + intros [Hj Hr]. destruct (decide (i = j)) as [<-|]; [|by rewrite lookup_insert_ne]. rewrite lookup_insert_eq. split; [by eexists|]. by intros u [= ].
  - intros k' version Hk. destruct (Hfence k' version Hk) as [[Hu1 Hu2] Hiss]. split; [|done]. split; [done|]. simpl.
    intros j key d' [[_ [=]]|[_ Hj]]%lookup_insert_Some. by apply (Hu2 j key d').
  - intros j key d' [[_ [=]]|[_ Hj]]%lookup_insert_Some. by apply (Hstored j).
  - by intros [].
  - intros k' version Hk. destruct (Hfence k' version Hk) as [[Hu1 Hu2] Hiss]. split; [|done]. split; [done|]. simpl.
    intros j key d' [[_ [=]]|[_ Hj]]%lookup_insert_Some. by apply (Hu2 j key d').
  - intros j key d' [[_ [=]]|[_ Hj]]%lookup_insert_Some. by apply (Hstored j).
  - by intros [].
Qed.
Lemma moves_keep w w' b : rtc move w w' -> safe w b -> safe w' b /\ forall f, holds w b f -> holds w' b f.
Proof.
  induction 1 as [w|w w1 w2 Hm _ IH]; intros Hs; [done|]. destruct (move_keeps _ _ _ Hs Hm) as [Hs1 Hf1].
  destruct (IH Hs1) as [Hs2 Hf2]. split; [done|]. auto.
Qed.
Lemma advances_keep r r' b : advances r r' -> world_ok (MkWorld r b) ->
  world_ok (MkWorld r' b) /\ forall f, holds (view_of r) b f -> holds (view_of r') b f.
Proof.
  intros Ha [Hb Hk Hst Hs Hq]. destruct (Ha Hb Hk) as (Hb' & Hk' & Hq' & Hm). destruct (moves_keep _ _ _ Hm Hs) as [Hs' Hf].
  split; [|done]. split; try done. simpl in *. congruence.
Qed.

(** A commit of bytes that are ready. *)
Lemma commit_keeps ctx r b request a r' :
  world_ok (MkWorld r b) -> CommitCreate ctx r request = (a, r') ->
  (forall v, v_inv (view_of r) !! cc_InvocationID request = Some (v, InvocationInflight) ->
     ar_ObjectKey (cc_Artifact request) = cr_ObjectKey v -> stored b (ar_ObjectKey (cc_Artifact request)) (ar_ContentDigest (cc_Artifact request))) ->
  world_ok (MkWorld r' b) /\ forall f, holds (view_of r) b f -> holds (view_of r') b f.
Proof.
  intros [Hb Hk Hst [Hfence Hstored] Hq] Hc Hready. simpl in *.
  apply commit_effect in Hc as [->|(v & art & -> & Hi & Hs & Hkey & Hna & Hact & Hb' & Hk' & Hq' & Hview)]; [by split|].
  assert (Hv : v_inv (view_of r) !! cc_InvocationID request = Some (iv_reservation v, InvocationInflight)) by (simpl; by rewrite lookup_fmap, Hi, <- Hs).
  split; [split; simpl; auto; try congruence|]; rewrite Hview.
  - split; simpl.
    + intros k version Hk1. destruct (Hfence k version Hk1) as [[Hu1 Hu2] Hiss]. split; [|done]. split; simpl.
      * intros j u [[_ [=]]|[_ Hj]]%lookup_insert_Some. by apply (Hu1 j).
      * intros j key d [[_ [= <- _]]|[_ Hj]]%lookup_insert_Some; [|by apply (Hu2 j key d)]. rewrite Hkey. by apply (Hu1 _ _ Hv).
    + intros j key d [[_ [= <- <-]]|[_ Hj]]%lookup_insert_Some; [|by apply (Hstored j)]. by apply (Hready _ Hv).
  - intros [j u|j k d|k x|k x|k x]; simpl; try done.
    + intros [st Hj]. destruct (decide (cc_InvocationID request = j)) as [<-|]; [|exists st; by rewrite lookup_insert_ne].
      rewrite lookup_insert_eq. assert (Hv1 := Hv). simpl in Hv1. rewrite Hv1 in Hj. simplify_eq. eauto.
    + intros [Hj Hr]. destruct (decide (cc_InvocationID request = j)) as [<-|]; [|by rewrite lookup_insert_ne].
      rewrite lookup_insert_eq. split; [by eexists|]. by intros u [= ].
Qed.

Lemma claim_keeps ctx r b lease k version before a r' :
  world_ok (MkWorld r b) -> ClaimSweepLeased ctx r lease k version before = (a, r') -> issued b version ->
  world_ok (MkWorld r' b) /\ (forall f, holds (view_of r) b f -> holds (view_of r') b f) /\
  forall c, a = Ok (Some c) -> holds (view_of r') b (Claimed (sc_ObjectKey c) (sc_ObjectVersion c)).
Proof.
  intros [Hb Hk Hst [Hfence Hstored] Hq] Hc Hiss. simpl in *.
  apply claim_effect in Hc as [[-> Hno]|(c & -> & <- & <- & Hk' & Hq' & Hbooks & Hview)]; [split; [done|]; split; [done|]; intros c ->; by destruct (Hno c)|].
  destruct (Hbooks Hb) as (Hb' & Hnone & Hun). split; [|split].
  - split; simpl; auto; [|congruence]. rewrite Hview. split; simpl; [|done].
    intros k v [[<- <-]|[_ Hkv]]%lookup_insert_Some; [by split|]. by apply (Hfence k v).
  - rewrite Hview. intros [j u|j k d|k x|k x|k x]; simpl; try done. intros [Hi [Hkx|Hg]]; split; auto. left.
    rewrite lookup_insert_ne; [done|]. intros Heq. simpl in Hnone. rewrite Heq in Hnone. congruence.
  - intros c' [= <-]. split; [done|]. left. transitivity (<[sc_ObjectKey c := sc_ObjectVersion c]> (v_sweep (view_of r)) !! sc_ObjectKey c); [|apply lookup_insert_eq].
    change (v_sweep (view_of r') !! sc_ObjectKey c = <[sc_ObjectKey c := sc_ObjectVersion c]> (v_sweep (view_of r)) !! sc_ObjectKey c). by rewrite Hview.
Qed.

Lemma unclaimed_keeps r b c r' :
  world_ok (MkWorld r b) -> unclaimed r r' c -> holds (view_of r) b (Gone (sc_ObjectKey c) (sc_ObjectVersion c)) ->
  world_ok (MkWorld r' b) /\ forall f, holds (view_of r) b f -> holds (view_of r') b f.
Proof.
  intros [Hb Hk Hst [Hfence Hstored] Hq] (Hsw & Hk' & Hq' & Hmoves) [_ Habs]. simpl in *. destruct (Hmoves Hb Hk) as [Hb' Hm].
  match type of Hm with rtc move ?w _ => set (w0 := w) in * end.
  assert (Hs0 : safe w0 b).
  { split; simpl; [|done]. intros k v Hv. apply lookup_delete_Some in Hv as [_ Hv]. by apply (Hfence k v). }
  destruct (moves_keep _ _ _ Hm Hs0) as [Hs' Hf]. split; [split; simpl; auto; congruence|]. intros f Hhold. apply Hf.
  destruct f as [j u|j k d|k x|k x|k x]; simpl in *; try done. destruct Hhold as [Hi [Hx|Hx]]; split; auto.
  destruct (decide (sc_ObjectKey c = k)) as [<-|Hne]; [right|left; by rewrite lookup_delete_ne].
  assert (x = sc_ObjectVersion c) as -> by congruence. done.
Qed.

(** ** The store *)
Lemma version_text_inj n m : 0 <= n <= u64_max -> 0 <= m <= u64_max -> version_text n = version_text m -> n = m.
Proof.
  intros Hn Hm H. unfold version_text in H. apply (inj (String.append "memory-object-")) in H.
  apply (f_equal strconv_ParseUint) in H. rewrite !parse_itoa in H by done. congruence.
Qed.

Lemma issued_mono b b' version : nextObjectVersion b <= nextObjectVersion b' -> issued b version -> issued b' version.
Proof. intros Hle (n & Hn & ->). exists n. split; [lia|done]. Qed.

Lemma get_stored ctx b k o : context_ok ctx -> Get ctx b k = Ok o -> objects b !! k = Some o.
Proof. intros [->| ->]; simpl; [|done]. destruct (objects b !! k); congruence. Qed.

Lemma put_keeps ctx r b put a b' :
  world_ok (MkWorld r b) -> nextObjectVersion b < u64_max -> context_ok ctx -> PutIfAbsent ctx b put = (a, b') ->
  world_ok (MkWorld r b') /\ (forall f, holds (view_of r) b f -> holds (view_of r) b' f) /\ (a = Ok tt -> stored b' (bp_Key put) (bp_Digest put)).
Proof.
  intros Hw Hmax Hctx H. unfold PutIfAbsent in H. destruct Hctx as [->| ->]; [|by injection H as <- <-].
  destruct (_ || _ || _ || _) eqn:Hvalid in H; [by injection H as <- <-|]. destruct (objects b !! bp_Key put) as [existing|] eqn:Hex.
  { destruct (_ || _) eqn:Hsame in H; [by injection H as <- <-|]. injection H as <- <-. split; [done|]. split; [done|]. intros _.
    exists existing. split; [done|]. apply orb_false_iff in Hsame as [Hd _]. by apply neq_test_false in Hd. }
  injection H as <- <-. destruct Hw as [Hb Hk [Hobj Hhist Hver] [Hfence Hstored] Hq]. simpl in *.
  rewrite (u64_id (nextObjectVersion b + 1)) by (unfold is_u64, u64_max in *; lia).
  match goal with |- world_ok (MkWorld r ?x) /\ _ => set (b' := x) end.
  assert (Hiss : forall version, issued b version -> issued b' version) by (intros version; apply issued_mono; simpl; lia).
  assert (Hnew : issued b' (version_text (nextObjectVersion b + 1))) by (exists (nextObjectVersion b + 1); split; [simpl; lia|done]).
  assert (Hst : forall k d, stored b k d -> stored b' k d).
  { intros k d (o & Ho & Hd). exists o. split; [|done]. simpl. rewrite lookup_insert_ne; [done|]. congruence. }
  assert (Habs : forall k version, issued b version -> absent b k version -> absent b' k version).
  { intros k version (n & Hn & ->) Ha o. simpl. intros [[<- <-]|[_ Ho]]%lookup_insert_Some; [|by apply Ha]. simpl. intros Heq.
    apply version_text_inj in Heq; unfold u64_max in *; lia. }
  bools in Hvalid. split; [|split].
  - split; simpl; try done.
    + split; simpl; [| |lia].
      * intros k o [[<- <-]|[_ Ho]]%lookup_insert_Some; [simpl; split; [done|]; split; [done|tauto]|]. destruct (Hobj k o Ho) as (H1 & H2 & H3). auto.
      * apply Forall_app. split; [|by apply Forall_singleton]. eapply Forall_impl; [exact Hhist|]. auto.
    + split; [|eauto]. intros k version Hkv. destruct (Hfence k version Hkv). auto.
  - intros [j u|j k d|k x|k x|k x]; simpl; try done.
    + intros [Hj Hr]. split; [done|]. eauto.
    + auto.
    + intros [Hi [Hx|Hx]]; split; auto.
    + intros [Hi Hx]. auto.
  - intros _. eexists. split; [apply lookup_insert_eq|done].
Qed.

Lemma delete_keeps ctx r b k version a b' :
  world_ok (MkWorld r b) -> context_ok ctx -> DeleteIfVersion ctx b k version = (a, b') -> holds (view_of r) b (Claimed k version) ->
  world_ok (MkWorld r b') /\ (forall f, holds (view_of r) b f -> holds (view_of r) b' f) /\
  (a = Ok tt \/ a = Err ErrBlobNotFound \/ a = Err ErrBlobVersionConflict -> holds (view_of r) b' (Gone k version)).
Proof.
  intros Hw Hctx H Hclaim. pose proof (proj1 Hclaim) as Hissued. unfold DeleteIfVersion in H.
  destruct Hctx as [->| ->]; [|injection H as <- <-; split; [done|]; split; [done|]; by intros [?|[?|?]]].
  destruct (objects b !! k) as [o|] eqn:Ho; [|injection H as <- <-; split; [done|]; split; [done|]; intros _; split; [done|]; intros o; congruence].
  destruct (decide (bo_Version o = version)) as [Hv|Hv].
  2:{ rewrite (bool_decide_true (bo_Version o <> version)), orb_true_r in H by done. injection H as <- <-. split; [done|]. split; [done|]. intros _.
      split; [done|]. intros o'. rewrite Ho. by intros [= <-]. }
  assert (Hne : (version == "") = false).
  { apply bool_decide_eq_false. destruct Hissued as (n & _ & ->). by unfold version_text. }
  rewrite Hne, (proj2 (neq_test_false _ _) Hv) in H. simpl in H. injection H as <- <-.
  assert (Hsw : v_sweep (view_of r) !! k = Some version).
  { destruct Hclaim as [_ [?|Ha]]; [done|]. by destruct (Ha o Ho). }
  destruct Hw as [Hb Hk [Hobj Hhist Hver] [Hfence Hstored] Hq]. simpl in Hfence, Hstored, Hb, Hk. destruct (Hfence k version Hsw) as [[Hu1 Hu2] _].
  assert (Hiss : forall x, issued b x <-> issued (delete_object b k) x) by done.
  assert (Hst : forall k' d, k' <> k -> stored b k' d -> stored (delete_object b k) k' d).
  { intros k' d Hne' (o' & Ho' & Hd). exists o'. split; [|done]. simpl. by rewrite lookup_delete_ne. }
  assert (Habs : forall k' x, absent b k' x -> absent (delete_object b k) k' x).
  { intros k' x Ha o' Ho'. simpl in Ho'. apply lookup_delete_Some in Ho' as [_ Ho']. by apply Ha. }
  split; [|split].
  - split; simpl; try done.
    + split; simpl; [| |done].
      * intros k' o' Ho'. apply lookup_delete_Some in Ho' as [_ Ho']. by apply Hobj.
      * apply Forall_alter; [done|]. intros h Hh Hp. done.
    + split; [done|]. intros i k' d Hi. apply Hst; [by apply (Hu2 i k' d)|by apply (Hstored i)].
  - intros [j u|j k' d|k' x|k' x|k' x]; simpl; try done.
    + intros [Hj Hr]. split; [done|]. intros v Hv' Hkey. apply Hst; [|by apply (Hr v)]. rewrite <- Hkey. by apply (Hu1 j).
    + intros [Hi [Hx|Hx]]; split; auto.
    + intros [Hi Hx]. auto.
  - intros _. split; [done|]. intros o' Ho'. simpl in Ho'. by rewrite lookup_delete_eq in Ho'.
Qed.

(** ** Every permitted call keeps the world and what anyone knows *)
Definition keeps (w w' : World) : Prop := world_ok w' /\ forall f, holds (view_of (w_repo w)) (w_blobs w) f -> holds (view_of (w_repo w')) (w_blobs w') f.

Lemma assured_next w w' h X (c : ACall X) (x : X) :
  keeps w w' -> assured w h -> (forall f, learns (knows h) X c x f -> holds (view_of (w_repo w')) (w_blobs w') f) ->
  world_ok w' /\ assured w' (Event c x :: h) /\ forall h', assured w h' -> assured w' h'.
Proof.
  intros [Hw Hf] Ha Hl. split; [done|]. split; [|intros h' Ha' f Hk; by apply Hf, Ha'].
  intros f [Hk|Hlearn]; [by apply Hf, Ha|]. by apply Hl.
Qed.
Lemma keeps_refl w : world_ok w -> keeps w w.
Proof. by split. Qed.
Lemma advances_keeps r r' b : advances r r' -> world_ok (MkWorld r b) -> keeps (MkWorld r b) (MkWorld r' b).
Proof. intros Ha Hw. by destruct (advances_keep r r' b Ha Hw). Qed.

(** What an enumeration lists was issued by the store. *)
Lemma listed_issued ctx b request page o : store_ok b -> ListPage ctx b request = Ok page -> o ∈ pg_Objects page -> issued b (bi_Version o).
Proof.
  intros [_ Hhist _] H Ho. unfold ListPage in H. destruct ctx; [done|]. apply reject_if_ok in H as [_ H].
  apply bind_ok in H as ([epoch [m highwater]] & _ & H). apply bind_ok in H as (offset & _ & H). injection H as <-. simpl in Ho.
  apply list_elem_of_fmap in Ho as (e & -> & He). apply list_elem_of_filter in He as [_ He].
  rewrite Forall_forall in Hhist. apply Hhist. unfold slice in He. apply elem_of_take in He as (i & He & _).
  rewrite lookup_drop in He. by eapply list_elem_of_lookup_2.
Qed.

Lemma head_gone ctx b k a version : context_ok ctx -> Head ctx b k = a ->
  match a with Ok o => bi_Version o <> version | Err e => e = ErrBlobNotFound end -> absent b k version.
Proof.
  intros [->| ->] <-; simpl; [|done]. destruct (objects b !! k) as [o|] eqn:Ho; intros H o' Ho'; [|congruence]. rewrite Ho in Ho'. by injection Ho' as <-.
Qed.

Lemma known_some w h i v : assured w h -> knows h (Known i v) -> is_Some (v_inv (view_of (w_repo w)) !! i).
Proof. intros Ha Hk. destruct (Ha _ Hk) as [st Hst]. by eexists. Qed.

(** A read of the repository or of the store. *)
Lemma read_keeps {A} w w' (op : option artifact_error -> MemoryRepository -> res artifact_error A) x :
  on_repo w (reads op) x w' -> w' = w /\ exists ctx, context_ok ctx /\ op ctx (w_repo w) = x.
Proof. intros (ctx & r & Hctx & [= <- <-] & ->). split; [by destruct w|]. eauto. Qed.
Lemma read_blobs_keeps {A} w w' (op : option artifact_error -> MemoryBlobStore -> res artifact_error A) x :
  on_blobs w (reads op) x w' -> w' = w /\ exists ctx, context_ok ctx /\ op ctx (w_blobs w) = x.
Proof. intros (ctx & r & Hctx & [= <- <-] & ->). split; [by destruct w|]. eauto. Qed.
(** An operation that only advances the repository. *)
Lemma repo_keeps {A} w w' (op : option artifact_error -> MemoryRepository -> res artifact_error A * MemoryRepository) x :
  world_ok w -> (forall ctx, advances (w_repo w) (op ctx (w_repo w)).2) -> on_repo w op x w' -> keeps w w'.
Proof.
  intros Hw Hop (ctx & r & _ & Heq & ->). specialize (Hop ctx). rewrite Heq in Hop. destruct w as [r0 b]. by apply advances_keeps.
Qed.

Section Calls.
Context (w w' : World) (h : list (event ACall)) (Hw : world_ok w) (Ha : assured w h).
#[local] Set Default Proof Using "Type*".

(** The bytes of a permitted commit are stored. *)
Lemma commit_ready request : permitted h _ (Commit request) ->
  forall v, v_inv (view_of (w_repo w)) !! cc_InvocationID request = Some (v, InvocationInflight) ->
  ar_ObjectKey (cc_Artifact request) = cr_ObjectKey v -> stored (w_blobs w) (ar_ObjectKey (cc_Artifact request)) (ar_ContentDigest (cc_Artifact request)).
Proof.
  intros (v & v' & Hk1 & Hk2 & Hr & -> & ->) u Hu _. destruct (Ha _ Hk1) as [st1 H1], (Ha _ Hk2) as [st2 H2].
  assert (v' = v) as -> by congruence. assert (u = v) as -> by congruence. destruct (Ha _ Hr) as [_ Hst]. by apply (Hst v).
Qed.

Lemma put_learns request a : nextObjectVersion (w_blobs w) < u64_max -> on_blobs w (fun ctx b => PutIfAbsent ctx b request) a w' ->
  keeps w w' /\ forall f, learns (knows h) _ (PutBlob request) a f -> holds (view_of (w_repo w')) (w_blobs w') f.
Proof.
  intros Hmax (ctx & b & Hctx & Heq & ->). destruct w as [r b0]. simpl in *.
  destruct (put_keeps ctx r b0 request a b Hw Hmax Hctx Heq) as (Hw' & Hf & Hst). split; [by split|].
  intros f (-> & i & v & Hk & ->). split; [exact (known_some _ _ _ _ Ha Hk)|]. auto.
Qed.
Lemma delete_learns k version a : permitted h _ (DeleteBlob k version) -> on_blobs w (fun ctx b => DeleteIfVersion ctx b k version) a w' ->
  keeps w w' /\ forall f, learns (knows h) _ (DeleteBlob k version) a f -> holds (view_of (w_repo w')) (w_blobs w') f.
Proof.
  intros Hp (ctx & b & Hctx & Heq & ->). destruct w as [r b0]. simpl in *.
  destruct (delete_keeps ctx r b0 k version a b Hw Hctx Heq (Ha _ Hp)) as (Hw' & Hf & Hg). split; [by split|].
  intros f (_ & -> & Hans). by apply Hg.
Qed.
Lemma claim_learns lease k version before a : permitted h _ (Claim lease k version before) ->
  on_repo w (fun ctx r => ClaimSweepLeased ctx r lease k version before) a w' ->
  keeps w w' /\ forall f, learns (knows h) _ (Claim lease k version before) a f -> holds (view_of (w_repo w')) (w_blobs w') f.
Proof.
  intros Hp (ctx & r & _ & Heq & ->). destruct w as [r0 b]. destruct (claim_keeps ctx r0 b lease k version before a r Hw Heq (Ha _ Hp)) as (Hw' & Hf & Hc).
  split; [by split|]. destruct a as [[c|]|]; intros f; simpl; try done. intros ->. by apply Hc.
Qed.
Lemma pending_learns lease cursor limit a : on_repo w (fun ctx r => PendingSweepsPage ctx r lease cursor limit) a w' ->
  keeps w w' /\ forall f, learns (knows h) _ (PendingPage lease cursor limit) a f -> holds (view_of (w_repo w')) (w_blobs w') f.
Proof.
  intros (ctx & r & _ & Heq & ->). destruct w as [r0 b]. destruct (pending_effect _ _ _ _ _ _ _ Heq (wo_keyed _ Hw)) as [Hadv Hclaims].
  pose proof (advances_keeps r0 r b Hadv Hw) as Hkeep. split; [done|]. destruct a as [[[claims next] d]|]; intros f; [|done]. intros (c & Hc & ->).
  specialize (Hclaims claims next d eq_refl). rewrite Forall_forall in Hclaims. specialize (Hclaims c Hc).
  split; [|by left]. by apply (sf_fence _ _ (wo_safe _ (proj1 Hkeep)) (sc_ObjectKey c)).
Qed.
Lemma unclaim_keeps {A} (op : option artifact_error -> MemoryRepository -> res artifact_error A * MemoryRepository) c a :
  (forall ctx a r', op ctx (w_repo w) = (a, r') -> r' = w_repo w \/ unclaimed (w_repo w) r' c) -> knows h (Gone (sc_ObjectKey c) (sc_ObjectVersion c)) ->
  on_repo w op a w' -> keeps w w'.
Proof.
  intros Hop Hg (ctx & r & _ & Heq & ->). specialize (Ha _ Hg). destruct (Hop _ _ _ Heq) as [-> |Hun]; [by destruct w; apply keeps_refl|].
  destruct w as [r0 b]. by destruct (unclaimed_keeps r0 b c r Hw Hun Ha).
Qed.
End Calls.

Lemma call_keeps w w' h X (c : ACall X) (x : X) : world_ok w -> assured w h -> permitted h X c -> call_sem w X c x w' ->
  world_ok w' /\ assured w' (Event c x :: h) /\ forall h', assured w h' -> assured w' h'.
Proof.
  intros Hw Ha Hp Hsem. enough (Hk : keeps w w' /\ forall f, learns (knows h) X c x f -> holds (view_of (w_repo w')) (w_blobs w') f).
  { destruct Hk. by apply assured_next. }
  destruct c; cbn [call_sem] in Hsem.
  1,2,3,4,5: by subst; split; [apply keeps_refl|].
  - apply read_keeps in Hsem as [-> _]. by split; [apply keeps_refl|].
  - destruct Hsem as (ctx & r & _ & Heq & ->). destruct w as [r0 b], (begin_effect _ _ _ _ _ Heq) as [Hadv Hans]. split; [by apply advances_keeps|].
    intros f. destruct x as [[rec old]|]; simpl; [|done]. intros ->. exists (iv_State rec). simpl. by rewrite lookup_fmap, (Hans rec old eq_refl).
  - destruct Hsem as (ctx & r & _ & Heq & ->). destruct w as [r0 b], (heartbeat_effect _ _ _ _ _ _ _ _ Heq) as [Hadv Hans]. split; [by apply advances_keeps|].
    intros f. destruct x as [rec|]; simpl; [|done]. intros ->. exists (iv_State rec). simpl. by rewrite lookup_fmap, (Hans rec eq_refl).
  - split; [|done]. assert (Hr := commit_ready w h Hw Ha request Hp). destruct Hsem as (ctx & r & _ & Heq & ->). destruct w as [r0 b].
    by destruct (commit_keeps ctx r0 b request x r Hw Heq Hr).
  - apply read_keeps in Hsem as [-> _]. by split; [apply keeps_refl|].
  - split; [|done]. eapply repo_keeps; [done| |exact Hsem]. intros ctx. apply tombstone_effect.
  - split; [|done]. eapply repo_keeps; [done| |exact Hsem]. intros ctx. apply expire_page_effect.
  - split; [|done]. eapply repo_keeps; [done| |exact Hsem]. intros ctx. apply abandon_page_effect.
  - split; [|done]. eapply repo_keeps; [done| |exact Hsem]. intros ctx. apply acquire_effect.
  - split; [|done]. eapply repo_keeps; [done| |exact Hsem]. intros ctx. apply release_effect.
  - by apply pending_learns.
  - by apply claim_learns.
  - split; [|done]. eapply (unclaim_keeps w w' h Hw Ha); [|exact Hp|exact Hsem]. intros ctx a r'. apply retire_effect.
  - split; [|done]. destruct Hp as [-> Hp]. eapply (unclaim_keeps w w' h Hw Ha); [|exact Hp|exact Hsem]. intros ctx a r'. apply finish_effect.
  - destruct Hsem as [[Hmax Hsem]|[-> ->]]; [by apply put_learns|]. split; [by apply keeps_refl|]. by intros f [? _].
  - apply read_blobs_keeps in Hsem as [-> (ctx & Hctx & Hget)]. split; [by apply keeps_refl|]. intros f. destruct x as [o|]; simpl; [|done].
    intros (i & v & Hk & ->). split; [exact (known_some _ _ _ _ Ha Hk)|]. intros v' _ _. exists o. by split; [eapply get_stored|].
  - apply read_blobs_keeps in Hsem as [-> (ctx & Hctx & Hhead)]. split; [by apply keeps_refl|]. intros f (version & Hk & -> & Hans).
    destruct (Ha _ Hk) as [Hiss _]. split; [done|]. by eapply head_gone.
  - apply read_blobs_keeps in Hsem as [-> (ctx & Hctx & Hlist)]. split; [by apply keeps_refl|]. intros f. destruct x as [page|]; simpl; [|done].
    intros (o & Ho & ->). eapply listed_issued; [apply Hw|exact Hlist|done].
  - by apply delete_learns.
Qed.

Lemma env_keeps w w' : world_ok w -> env_step w w' -> world_ok w' /\ forall h, assured w h -> assured w' h.
Proof.
  intros Hw Henv. enough (Hk : keeps w w') by (destruct Hk as [Hw' Hf]; split; [done|]; intros h Ha f Hk; by apply Hf, Ha).
  destruct Henv as [ctx i digest generation now|ctx lease now duration|e|e]; destruct w as [r b]; simpl.
  - destruct (HeartbeatCreate ctx r i digest generation now) as [a r'] eqn:Heq. apply heartbeat_effect in Heq as [Hadv _]. by apply advances_keeps.
  - apply advances_keeps; [apply renew_effect|done].
  - split; [|by intros []]. destruct Hw as [Hb Hk [] [Hfence Hst] Hq]. by split; try done; split.
  - split; [|by intros []]. destruct Hw as [Hb Hk [] [Hfence Hst] Hq]. by split; try done; split.
Qed.

End world.

(** ** The world at the start *)
Lemma books_initial quotas0 : (forall t q, quotas0 !! t = Some q -> is_i64 q) -> books_ok (NewMemoryRepository quotas0).
Proof.
  intros Hq. constructor; simpl; try done.
  intros t. unfold bytes_used, bytes_reserved, quota_of. simpl. rewrite !msum_empty. lia.
Qed.
Definition world0 (quotas0 : gmap string Z) : World := MkWorld (NewMemoryRepository quotas0) NewMemoryBlobStore.
Lemma world_initial quotas0 : (forall t q, quotas0 !! t = Some q -> is_i64 q) -> world_ok quotas0 (world0 quotas0).
Proof.
  intros Hq. split; simpl; [by apply books_initial|done|split; simpl; try done; unfold u64_max; lia| |done]. split; simpl; intros *; by rewrite fmap_empty.
Qed.
