(* ===== verification/ArtifactRuns.v ===== *)
(** * Artifacts under concurrency: the programs

    The service's programs make only permitted calls, so whatever creations, openings,
    deletions and collections run together, with calls that fail at any point and
    processes that stop at any point, the bytes of every active artifact stay stored. *)

From S2P Require Import Prelude MapSums Programs GoText GoCrypto Canonical Identity ArtifactRepo ArtifactService ArtifactBooks ArtifactProtocol.
#[local] Open Scope string_scope.
#[local] Open Scope list_scope.
#[local] Open Scope Z_scope.
#[local] Open Scope go_scope.

Lemma knows_app l h f : knows h f -> knows (l ++ h) f.
Proof. induction l as [|e l IH]; simpl; auto. Qed.
Lemma knows_cons h (e : event ACall) f : knows h f -> knows (e :: h) f.
Proof. by left. Qed.

(** The bytes of the invocation are stored under its reservation. *)
Definition ready (i : string) (h : list (event ACall)) (rec : InvocationRecord) : Prop :=
  exists v, knows h (Known i v) /\ knows h (Known i (iv_reservation rec)) /\ knows h (Ready i (cr_ObjectKey v) (cr_ContentDigest v)).

Abbreviation safely p := (guarded permitted p) (only parsing).

Section creation.
Context `{N : Normalizer}.

Lemma ensure_safely {B} b e (f : unit -> Prog ACall (res artifact_error B)) R h :
  (b = false -> safely (f tt) (succeeds R) h) -> safely (andThen (ensure b e) f) (succeeds R) h.
Proof. intros Hf. apply guarded_pure. intros [] Hb. apply Hf. by destruct b. Qed.

Lemma commit_artifact_safely service request digest rec h :
  ready (cq_InvocationID request) h rec -> safely (commit_artifact service request digest rec) (succeeds (fun _ _ => True)) h.
Proof.
  intros (v & Hk & Hk' & Hr). apply guarded_ask_ok; [by exists v, (iv_reservation rec)|]. intros [art b]. by apply ensure_safely.
Qed.

Lemma store_bytes_safely request digest mdigest file rec h :
  safely (store_bytes request digest mdigest file rec) (succeeds (ready (cq_InvocationID request))) h.
Proof.
  apply ensure_safely. intros _. apply guarded_ask; [done|]. intros now. apply guarded_ask_ok; [done|]. intros rec1.
  apply guarded_ask; [done|]. intros put. apply guarded_ask_ok; [done|]. intros []. apply guarded_pure. intros [] ->.
  apply guarded_ask; [done|]. intros now2. split; [done|]. intros [rec2|e]; [|done].
  exists (iv_reservation rec1). split; [|split].
  - do 4 left. by right.
  - by right.
  - do 3 left. right. split; [done|]. exists (cq_InvocationID request), (iv_reservation rec1). split; [by right|done].
Qed.

Lemma committed_artifact_safely service request digest i h : safely (committed_artifact service request digest i) (succeeds (fun _ _ => True)) h.
Proof. apply guarded_ask_or; [done|]. intros rec. by apply ensure_safely. Qed.

Lemma read_source_safely service request h : safely (read_source service request) (succeeds (fun _ _ => True)) h.
Proof. apply guarded_ask_or; [done|]. intros file. apply ensure_safely. intros _. by apply guarded_pure. Qed.

Lemma begin_invocation_safely service request metadata digest mdigest file h :
  safely (begin_invocation service request metadata digest mdigest file) (succeeds (fun _ _ => True)) h.
Proof.
  apply guarded_ask_ok; [done|]. intros i. apply ensure_safely. intros _. apply guarded_ask; [done|]. intros now.
  apply guarded_ask_ok; [done|]. intros [rec old]. simpl. destruct (iv_State rec); [done| |done].
  eapply guarded_seq_ok; [apply committed_artifact_safely|]. done.
Qed.

Lemma create_bytes_safely service request metadata digest resumed h :
  safely (create_bytes service request metadata digest resumed) (succeeds (fun _ _ => True)) h.
Proof.
  eapply guarded_seq_ok; [apply read_source_safely|]. intros l file _. apply guarded_pure. intros mdigest _.
  assert (Hfinish : forall begun h', safely (match begun with
    | inl ref => done ref
    | inr reservation => andThen (store_bytes request digest mdigest file reservation) (commit_artifact service request digest) end)
    (succeeds (fun _ _ => True)) h').
  { intros [ref|rec] h'; [done|]. eapply guarded_seq_ok; [apply store_bytes_safely|]. intros l' rec' Hr. by apply commit_artifact_safely. }
  destruct resumed as [rec|]; [apply (Hfinish (inr rec))|].
  eapply guarded_seq_ok; [apply begin_invocation_safely|]. intros l' begun _. apply Hfinish.
Qed.

Lemma resume_inflight_safely service request metadata digest rec h :
  safely (resume_inflight service request metadata digest rec)
    (succeeds (fun h' (r : InvocationRecord * bool) => r.2 = true -> ready (cq_InvocationID request) h' r.1)) h.
Proof.
  apply ensure_safely. intros _. apply guarded_ask; [done|]. intros now. apply guarded_ask_ok; [done|]. intros rec1.
  apply guarded_ask; [done|]. intros [o|e]; [|by destruct e]. apply ensure_safely. intros Hc. bools in Hc. destruct Hc as [[[_ Hd] _] _]. intros _.
  exists (iv_reservation rec1). split; [|split].
  - left. by right.
  - left. by right.
  - right. exists (cq_InvocationID request), (iv_reservation rec1). split; [by right|]. simpl. by rewrite Hd.
Qed.

Lemma create_safely service request h : safely (CreateFromWorkspace service request) (succeeds (fun _ _ => True)) h.
Proof.
  apply guarded_pure. intros [metadata digest] _. apply guarded_ask_or; [done|]. intros []. apply guarded_ask_ok; [done|].
  intros [existing|]; [|apply create_bytes_safely]. apply ensure_safely. intros _. destruct (iv_State existing); [|apply committed_artifact_safely|done].
  eapply guarded_seq_ok; [apply resume_inflight_safely|]. intros l [rec [|]] Hr; [by apply commit_artifact_safely, Hr|apply create_bytes_safely].
Qed.

Lemma open_safely service request h : safely (Open_artifact service request) (succeeds (fun _ _ => True)) h.
Proof.
  apply guarded_pure. intros [] _. apply ensure_safely. intros _. apply guarded_ask_ok; [done|]. intros rec. do 2 (apply ensure_safely; intros _).
  apply guarded_ask_or; [done|]. intros []. eapply guarded_seq with (Q := fun _ _ => True); [by destruct (ar_State rec != ArtifactActive)|].
  intros l now _. do 2 (apply ensure_safely; intros _). apply guarded_ask_or; [done|]. intros o. by apply ensure_safely.
Qed.
Lemma delete_safely service request h : safely (Delete_artifact service request) (succeeds (fun _ _ => True)) h.
Proof.
  apply guarded_pure. intros [] _. apply ensure_safely. intros _. apply guarded_ask_ok; [done|]. intros rec. do 2 (apply ensure_safely; intros _).
  apply guarded_ask_or; [done|]. intros []. apply guarded_ask; [done|]. intros now. by apply guarded_ask_ok.
Qed.
End creation.

(** ** The collector *)
Definition claimed (h : list (event ACall)) (claims : list SweepClaim) : Prop :=
  Forall (fun c => knows h (Claimed (sc_ObjectKey c) (sc_ObjectVersion c))) claims.
Lemma claimed_app l h claims : claimed h claims -> claimed (l ++ h) claims.
Proof. intros Hc. eapply Forall_impl; [exact Hc|]. intros c. apply knows_app. Qed.

Section collector.
Context (service : Service) (lease : GCLease) (now : time).

Lemma expire_phase_safely w h : safely (expire_phase service lease now w) (fun _ _ => True) h.
Proof. apply guarded_ask; [done|]. by intros [[[count next] d]|e]. Qed.
Lemma abandon_phase_safely w h : safely (abandon_phase service lease now w) (fun _ _ => True) h.
Proof. unfold abandon_phase. destruct (negb (no_errors w)); [done|]. apply guarded_ask; [done|]. by intros [[[count next] d]|e]. Qed.

Lemma pending_phase_safely w h : safely (pending_phase service lease w) (fun h' r => claimed h' r.2) h.
Proof.
  unfold pending_phase. destruct (negb (no_errors w)); [constructor|]. apply guarded_ask; [done|]. intros [[[claims next] d]|e]; [|constructor].
  apply Forall_forall. intros c Hc. right. by exists c.
Qed.

Lemma claim_objects_safely cutoff page : forall w claims h,
  claimed h claims -> Forall (fun o => knows h (Listed (bi_Key o) (bi_Version o))) page ->
  safely (claim_objects lease cutoff w claims page) (fun h' r => claimed h' r.2) h.
Proof.
  induction page as [|o page IH]; intros w claims h Hc Hl; [done|]. apply Forall_cons in Hl as [Ho Hl]. simpl.
  destruct (_ || _); [by apply IH|]. destruct (cutoff <? bi_CreatedAt o); [by apply IH|]. apply guarded_ask; [done|]. intros answer.
  assert (Hl' : Forall (fun o' => knows (Event (Claim lease (bi_Key o) (bi_Version o) cutoff) answer :: h) (Listed (bi_Key o') (bi_Version o'))) page).
  { eapply Forall_impl; [exact Hl|]. intros o' Ho'. by apply knows_cons. }
  assert (Hc' := claimed_app [Event (Claim lease (bi_Key o) (bi_Version o) cutoff) answer] h claims Hc).
  destruct answer as [[c|]|e]; apply IH; try done. apply Forall_app. split; [done|]. apply Forall_singleton. by right.
Qed.

Lemma blob_phase_safely w claims h : claimed h claims -> safely (blob_phase service lease now w claims) (fun h' r => claimed h' r.2) h.
Proof.
  intros Hc. unfold blob_phase. destruct (negb _); [done|]. apply guarded_ask; [done|]. intros [page|e]; [|by apply (claimed_app [_])].
  destruct (_ || _); [by apply (claimed_app [_])|]. apply claim_objects_safely; [by apply (claimed_app [_])|].
  apply Forall_forall. intros o Ho. right. by exists o.
Qed.

(** A claim ends only when its version is gone. *)
Lemma sweep_claim_safely w c h : knows h (Claimed (sc_ObjectKey c) (sc_ObjectVersion c)) -> safely (sweep_claim lease now w c) (fun _ _ => True) h.
Proof.
  intros Hk.
  assert (Hretire : forall w h', knows h' (Gone (sc_ObjectKey c) (sc_ObjectVersion c)) -> safely (retire_claim lease w c) (fun _ _ => True) h').
  { intros w' h' Hg. apply guarded_ask; [done|]. by intros [|]. }
  assert (Hfinish : forall w h', knows h' (Gone (sc_ObjectKey c) (sc_ObjectVersion c)) -> safely (finish_claim lease now w c) (fun _ _ => True) h').
  { intros w' h' Hg. apply guarded_ask; [done|]. by intros [|]. }
  apply guarded_ask; [done|]. intros [head|e].
  - destruct (_ || _); [done|]. destruct (decide (bi_Version head = sc_ObjectVersion c)) as [Hv|Hv].
    + rewrite (proj2 (neq_test_false _ _) Hv). apply guarded_ask; [by left|].
      intros [[]|e]; [apply Hfinish; right; split; [by left|]; split; [done|tauto]|].
      destruct e; try done; [apply Hfinish|apply Hretire]; right; (split; [by left|]); (split; [done|tauto]).
    + rewrite (bool_decide_true (bi_Version head <> sc_ObjectVersion c)) by done. apply Hretire. right. by exists (sc_ObjectVersion c).
  - destruct e; try done. apply Hfinish. right. by exists (sc_ObjectVersion c).
Qed.
Lemma sweep_claims_safely claims : forall w open h, claimed h claims -> safely (sweep_claims lease now w open claims) (fun _ _ => True) h.
Proof.
  induction claims as [|c claims IH]; intros w open h Hc; [done|]. apply Forall_cons in Hc as [Hk Hc]. cbn [sweep_claims].
  eapply guarded_seq; [by apply sweep_claim_safely|]. intros l [w' o] _. by apply IH, claimed_app.
Qed.

Lemma collect_under_lease_safely h : safely (collect_under_lease service lease now) (fun _ _ => True) h.
Proof.
  eapply guarded_seq; [apply expire_phase_safely|]. intros l1 w1 _. eapply guarded_seq; [apply abandon_phase_safely|]. intros l2 w2 _.
  eapply guarded_seq; [apply pending_phase_safely|]. intros l3 [w3 claims] Hc. eapply guarded_seq; [by apply blob_phase_safely|].
  intros l4 [w4 claims'] Hc'. eapply guarded_seq; [by apply sweep_claims_safely|]. intros l5 ws _. apply guarded_ask; [done|]. intros beat.
  by apply guarded_ask.
Qed.
End collector.

Lemma collect_safely service h : safely (CollectGarbage service) (fun _ _ => True) h.
Proof.
  apply guarded_ask; [done|]. intros now. apply guarded_ask; [done|]. intros [[lease|]|e]; [|done|done].
  eapply guarded_seq; [apply collect_under_lease_safely|]. done.
Qed.

(** ** Every interleaving *)
Section runs.
Context `{N : Normalizer}.

(** The programs of any number of services. *)
Inductive starts : forall A : Type, Prog ACall A -> Prop :=
| start_create service request : starts _ (CreateFromWorkspace service request)
| start_open service request : starts _ (Open_artifact service request)
| start_delete service request : starts _ (Delete_artifact service request)
| start_collect service : starts _ (CollectGarbage service).

Definition artifact_step := pool_step (fun w _ => call_sem w) env_step starts.

Lemma starts_guarded A (p : Prog ACall A) : starts A p -> guarded permitted p (fun _ _ => True) [].
Proof.
  destruct 1 as [service request|service request|service request|service].
  - eapply guarded_mono; [apply create_safely|done].
  - eapply guarded_mono; [apply open_safely|done].
  - eapply guarded_mono; [apply delete_safely|done].
  - apply collect_safely.
Qed.

Lemma runs_ok quotas0 st : (forall t q, quotas0 !! t = Some q -> is_i64 q) -> rtc artifact_step (world0 quotas0, []) st -> world_ok quotas0 st.1.
Proof.
  intros Hq Hrun.
  eapply (pool_invariant (fun w _ => call_sem w) env_step starts permitted (world_ok quotas0) (fun w _ => assured w)); [| | | | |exact Hrun].
  - intros w w' i h X c x Hw Ha Hp Hsem. destruct (call_keeps quotas0 w w' h X c x Hw Ha Hp Hsem) as (Hw' & Ha' & Hothers).
    split; [done|]. split; [done|]. intros j h' _. apply Hothers.
  - intros w w' Hw Henv. destruct (env_keeps quotas0 w w' Hw Henv) as [Hw' Hkeep]. split; [done|]. intros _. apply Hkeep.
  - apply starts_guarded.
  - by intros w i _ f [].
  - by apply world_initial.
Qed.

(** C19: whatever creations, openings, deletions and collections run together from an
    empty store, with calls that fail at any point and processes that stop at any point,
    the object of every active artifact is stored, with the artifact's content digest,
    which is the digest of the bytes. *)
Theorem active_bytes_kept (quotas0 : gmap string Z) st i a :
  (forall t q, quotas0 !! t = Some q -> is_i64 q) ->
  rtc artifact_step (world0 quotas0, []) st ->
  artifacts (r_artifacts (w_repo st.1)) !! i = Some a -> ar_State a = ArtifactActive ->
  exists o, Get None (w_blobs st.1) (ar_ObjectKey a) = Ok o /\ bo_Digest o = ar_ContentDigest a /\ digestBytes (bo_Data o) = ar_ContentDigest a.
Proof.
  intros Hq Hrun Hi Hs. destruct (runs_ok _ _ Hq Hrun) as [_ _ Hst [_ Hstored] _].
  destruct (Hstored i (ar_ObjectKey a) (ar_ContentDigest a)) as (o & Ho & Hd); [simpl; by rewrite lookup_fmap, Hi, <- Hs|].
  exists o. simpl. rewrite Ho. split; [done|]. split; [done|]. destruct (so_objects _ Hst _ _ Ho) as (_ & _ & Hdig). congruence.
Qed.

(** C20: in every such run the statistics of a tenant are exact, the bytes in use are the
    sizes of its active artifacts and the bytes reserved the sizes of its inflight
    invocations, and together they are within its quota: no addition or subtraction of
    the accounts wraps. *)
Theorem artifact_quota_exact (quotas0 : gmap string Z) st t :
  (forall t q, quotas0 !! t = Some q -> is_i64 q) ->
  rtc artifact_step (world0 quotas0, []) st ->
  let r := w_repo st.1 in
  UsedBytes (Stats r t) = msum (fun a => if (ar_State a == ArtifactActive) && (ar_TenantID a == t) then ar_Size a else 0) (artifacts (r_artifacts r)) /\
  ReservedBytes (Stats r t) =
    msum (fun v => if (iv_State v == InvocationInflight) && (cr_TenantID (iv_reservation v) == t) then cr_Size (iv_reservation v) else 0)
      (invocations (r_invocations r)) /\
  0 <= UsedBytes (Stats r t) /\ 0 <= ReservedBytes (Stats r t) /\
  UsedBytes (Stats r t) + ReservedBytes (Stats r t) <= Z.max 0 (default 0 (quotas0 !! t)).
Proof.
  intros Hq Hrun. destruct (runs_ok _ _ Hq Hrun) as [Hb _ _ _ Hquotas]. simpl. rewrite (bk_used _ Hb), (bk_reserved _ Hb).
  split; [done|]. split; [done|]. split; [by apply used_nonneg|]. split; [by apply reserved_nonneg|]. rewrite <- Hquotas. apply (bk_limit _ Hb).
Qed.
End runs.

(** ** Artifacts: what an opening returns, and a run of the service

    The calls behind every successful opening, and a creation, an opening, a deletion and
    two collections evaluated on concrete data. *)

(** C21: whatever the dependencies answer, an opening that succeeds read an active record
    of the caller's own tenant, was authorized for that record's session and workspace,
    did so before the record's retention ended, and returns bytes that have the record's
    digest and size. *)
Theorem open_authorized_and_intact `{N : Normalizer} (service : Service) (request : OpenRequest) :
  guarded (fun _ _ _ => True) (Open_artifact service request)
    (fun h answer => forall opened, answer = Ok opened ->
      exists record object now,
        h = [Event (GetBlob (ar_ObjectKey record)) (Ok object); Event Now now;
             Event (Authorize (MkAuthorization OperationOpen (ac_TenantID (oq_Access request)) (ac_SubjectID (oq_Access request))
               (ac_SessionID (oq_Access request)) (ac_WorkspaceID (oq_Access request)) (ar_SessionID record) (ar_WorkspaceID record)
               (ar_ArtifactID record))) (Ok tt);
             Event (GetRecord (oq_ArtifactID request)) (Ok record)] /\
        ar_TenantID record = ac_TenantID (oq_Access request) /\ ar_State record = ArtifactActive /\ now < ar_RetainUntil record /\
        opened = MkOpened (artifactRefFromRecord record) (ar_Metadata record) (bo_Data object) /\
        digestBytes (oa_Data opened) = ar_ContentDigest record /\ zlen (oa_Data opened) = ar_Size record) [].
Proof.
  eapply guarded_mono with (Q := succeeds _); [|intros h [opened|e]; [intros HQ o [= <-]; exact HQ|done]].
  apply guarded_pure. intros [] _. apply guarded_pure. intros [] _. apply guarded_ask_ok; [done|]. intros record.
  apply guarded_pure. intros [] Ht. apply guarded_pure. intros [] _. apply guarded_ask_or; [done|]. intros [].
  assert (Htenant : ar_TenantID record = ac_TenantID (oq_Access request)).
  { unfold reject_if in Ht. case_match eqn:He; [done|]. by apply neq_test_false in He. }
  destruct (decide (ar_State record = ArtifactActive)) as [Hs|Hs].
  2:{ rewrite (bool_decide_true (ar_State record <> ArtifactActive)) by done. simpl. done. }
  rewrite (proj2 (neq_test_false _ _) Hs). apply guarded_ask; [done|]. intros now. simpl orb.
  apply guarded_pure. intros [] Hnow. apply guarded_pure. intros [] _. apply guarded_ask_or; [done|]. intros object.
  apply guarded_pure. intros [] Ho. exists record, object, now. unfold reject_if in Hnow, Ho.
  destruct (ar_RetainUntil record <=? now) eqn:Hr; [done|]. case_match eqn:He; [done|]. bools in He.
  destruct He as [[[[[_ _] Hd] Hz] _] Hdig]. split_and!; try done; simpl; [lia|congruence].
Qed.

(** ** A run *)
Definition sample_data : bytes := to_bytes "the report".
Definition sample_service : Service := MkService 1000000 100 1000 10 30 10 256 60.
Definition id_of (kind : string) : string := id_text kind (base32_EncodeToString (repeat (to_byte 0) 16)).
Definition sample_access : AccessContext := MkAccess (id_of "tenant") (id_of "subject") (id_of "sess") (id_of "ws").
Definition sample_source : WorkspaceSource := MkSource (sha256_text []) "out/report.txt".
Definition sample_create : CreateRequest :=
  MkCreate sample_access (id_of "inv") sample_source (MkMetadata "report" "text/plain" 0 {[ "stage" := "final" ]}).
Definition sample_quotas : gmap string Z := {[ id_of "tenant" := 25 ]}.

(** Dependencies that answer at the time [now] and fail in nothing. *)
Definition handle (now : time) (X : Type) (c : ACall X) (w : World) : X * World :=
  let repo {A} (op : MemoryRepository -> res artifact_error A * MemoryRepository) := let '(a, r) := op (w_repo w) in (a, MkWorld r (w_blobs w)) in
  let blobs {A} (op : MemoryBlobStore -> res artifact_error A * MemoryBlobStore) := let '(a, b) := op (w_blobs w) in (a, MkWorld (w_repo w) b) in
  match c in ACall X return X * World with
  | Now => (now, w)
  | Authorize _ => (Ok tt, w)
  | ReadFile r => (Ok (MkFile (rd_TenantID r) (rd_WorkspaceID r) (rd_RevisionID r) (rd_Path r) WorkspaceRegularFile (zlen sample_data)
      (sha256_text sample_data) sample_data), w)
  | NewArtifactID => (Ok (id_of "artifact"), w)
  | JoinHeartbeat => (Ok tt, w)
  | Lookup i => (LookupInvocation None (w_repo w) i, w)
  | Begin v => repo (fun r => BeginCreate None r v)
  | Heartbeat i digest generation now => repo (fun r => HeartbeatCreate None r i digest generation now)
  | Commit request => repo (fun r => CommitCreate None r request)
  | GetRecord i => (GetArtifact None (w_repo w) i, w)
  | Tombstone i t now => repo (fun r => TombstoneArtifact None r i t now)
  | ExpirePage lease now after limit => repo (fun r => TombstoneExpiredPage None r lease now after limit)
  | AbandonPage lease before after limit => repo (fun r => AbandonInflightPage None r lease before after limit)
  | Acquire now duration => repo (fun r => AcquireGC None r now duration)
  | Release lease checkpoint => repo (fun r => ReleaseGC None r lease checkpoint)
  | PendingPage lease cursor limit => repo (fun r => PendingSweepsPage None r lease cursor limit)
  | Claim lease k version before => repo (fun r => ClaimSweepLeased None r lease k version before)
  | Retire lease claim => repo (fun r => RetireSweepLeased None r lease claim)
  | Finish lease claim deleted now => repo (fun r => FinishSweepLeased None r lease claim deleted now)
  | PutBlob request =>
      if nextObjectVersion (w_blobs w) <? u64_max then blobs (fun b => PutIfAbsent None b request) else (Err ErrContext, w)
  | GetBlob k => (Get None (w_blobs w) k, w)
  | HeadBlob k => (Head None (w_blobs w) k, w)
  | ListBlobs request => (ListPage None (w_blobs w) request, w)
  | DeleteBlob k version => blobs (fun b => DeleteIfVersion None b k version)
  end.

Lemma handle_sound now X (c : ACall X) w : call_sem w X c (handle now X c w).1 (handle now X c w).2.
Proof.
  destruct w as [r b]. destruct c; cbn -[BeginCreate HeartbeatCreate CommitCreate TombstoneArtifact TombstoneExpiredPage AbandonInflightPage AcquireGC
    ReleaseGC PendingSweepsPage ClaimSweepLeased RetireSweepLeased FinishSweepLeased PutIfAbsent DeleteIfVersion ListPage u64_max]; try done;
    try (exists None; eexists; split; [by left|]; split; [reflexivity|done]).
  all: try (match goal with |- context [let '(_, _) := ?p in _] => destruct p as [? ?] eqn:Heq end; exists None; eexists; split; [by left|]; split; [exact Heq|done]).
  destruct (nextObjectVersion b <? u64_max) eqn:Hmax; [left|by right]. split; [lia|].
  destruct (PutIfAbsent None b request) as [a b'] eqn:Heq. exists None, b'. split; [by left|]. by split.
Qed.

#[local] Existing Instance id_normalizer.

Definition at_time {A} (now : time) (p : Prog ACall A) (w : World) : A * World := (drive (handle now) p w []).1.
Definition created : World := (at_time 1000 (CreateFromWorkspace sample_service sample_create) (world0 sample_quotas)).2.
Definition deleted : World := (at_time 1020 (Delete_artifact sample_service (MkDelete sample_access (id_of "artifact"))) created).2.
Definition collected_early : GCResult * list artifact_error * World := at_time 1025 (CollectGarbage sample_service) deleted.
Definition collected : GCResult * list artifact_error * World := at_time 1040 (CollectGarbage sample_service) collected_early.2.

(** Created, the artifact can be opened, by its own tenant; deleted, it can not; collected
    after the grace period, and not before, its bytes are gone and its record purged. *)
Example artifact_life :
  let open w := match (at_time 1010 (Open_artifact sample_service (MkOpen sample_access (id_of "artifact"))) w).1 with
    | Ok o => Ok (of_bytes (oa_Data o)) | Err e => Err e end in
  let state (w : World) := ar_State <$> artifacts (r_artifacts (w_repo w)) !! id_of "artifact" in
  let objects_of (w : World) := size (objects (w_blobs w)) in
  [open created; open deleted] = [Ok "the report"; Err ErrArtifactUnavailable] /\
  map (fun w => UsedBytes (Stats (w_repo w) (id_of "tenant"))) [created; deleted] = [10; 0] /\
  (collected_early.1, state collected_early.2, objects_of collected_early.2) = ((MkGCResult 0 0 0 0, []), Some ArtifactTombstoned, 1%nat) /\
  (collected.1, state collected.2, objects_of collected.2) = ((MkGCResult 0 0 1 1, []), Some ArtifactPurged, 0%nat).
Proof. vm_compute. split_and!; reflexivity. Qed.

Lemma run_program A (p : Prog ACall A) now w pool : starts A p -> exists pool', rtc artifact_step (w, pool) ((at_time now p w).2, pool').
Proof.
  intros Hp. pose proof (drive_run (fun w _ => call_sem w) env_step starts (handle now) A p w pool (fun _ => handle_sound now) Hp) as Hd. unfold at_time.
  destruct (drive (handle now) p w []) as [[a w'] h']. by eexists.
Qed.
Lemma created_run : exists pool, rtc artifact_step (world0 sample_quotas, []) (created, pool).
Proof. apply run_program. constructor. Qed.
Lemma sample_quotas_fit t q : sample_quotas !! t = Some q -> is_i64 q.
Proof. unfold sample_quotas. rewrite lookup_singleton_Some. intros [_ <-]. unfold is_i64. lia. Qed.

Lemma active_bytes_kept_witness : exists pool a o,
  rtc artifact_step (world0 sample_quotas, []) (created, pool) /\
  artifacts (r_artifacts (w_repo created)) !! id_of "artifact" = Some a /\ ar_State a = ArtifactActive /\
  Get None (w_blobs created) (ar_ObjectKey a) = Ok o /\ bo_Digest o = ar_ContentDigest a /\ digestBytes (bo_Data o) = ar_ContentDigest a.
Proof.
  destruct created_run as [pool Hrun].
  assert (Hstate : (ar_State <$> (artifacts (r_artifacts (w_repo created)) !! id_of "artifact")) = Some ArtifactActive) by (by vm_compute).
  apply fmap_Some in Hstate as (a & Ha & Hs).
  destruct (active_bytes_kept sample_quotas (created, pool) (id_of "artifact") a sample_quotas_fit Hrun Ha (eq_sym Hs)) as (o & Ho & Hd & Hb).
  exists pool, a, o. exact (conj Hrun (conj Ha (conj (eq_sym Hs) (conj Ho (conj Hd Hb))))).
Defined.
Lemma artifact_quota_exact_witness : exists pool,
  rtc artifact_step (world0 sample_quotas, []) (created, pool) /\
  UsedBytes (Stats (w_repo created) (id_of "tenant")) = 10 /\
  UsedBytes (Stats (w_repo created) (id_of "tenant")) + ReservedBytes (Stats (w_repo created) (id_of "tenant")) <= 25.
Proof.
  destruct created_run as [pool Hrun]. exists pool. split; [exact Hrun|]. split; [by vm_compute|].
  destruct (artifact_quota_exact sample_quotas (created, pool) (id_of "tenant") sample_quotas_fit Hrun) as (_ & _ & _ & _ & Hle).
  etrans; [exact Hle|]. by vm_compute.
Defined.
