(* ===== verification/Secret.v ===== *)
(** * Secrets: data, validation and the reference store
      ([internal/secret/types.go], [service.go], [memory.go])

    Records of credentials, the leases that fence them while their material is in use,
    and the recovery bindings that survive the process that used it.  A validator that
    returns an error is a [bool] here, [true] for nil: its callers only compare with nil.
    The zeroing of buffers and the redacting methods are not modelled. *)

From S2P Require Import Prelude GoText GoStrings Identity.
#[local] Open Scope string_scope.
#[local] Open Scope list_scope.
#[local] Open Scope Z_scope.
#[local] Open Scope go_scope.

Inductive secret_error :=
| ErrInvalidConfig | ErrInvalidRequest | ErrAccessDenied | ErrSecretNotFound | ErrStoreConflict | ErrStoreNotDurable | ErrStoreInUse
| ErrUseLeaseInvalid | ErrUseReleaseUnconfirmed | ErrRecoveryDenied | ErrRecoveryAuditNotDurable | ErrStaleHandle | ErrExposureDenied
| ErrAuditNotDurable | ErrGatewayUnavailable | ErrGatewayFailed | ErrGatewayRecoveryUnconfirmed | ErrSandboxUnavailable | ErrSandboxFailed
| ErrCleanupUnconfirmed | ErrContainmentUnconfirmed | ErrTokenUnavailable | ErrTokenFailed | ErrResponseTooLarge | ErrSensitiveSerialization
(** the error of a context, and any other error of a dependency *)
| ErrContext | ErrDependency.
#[global] Instance secret_error_eq_dec : EqDecision secret_error.
Proof. solve_decision. Defined.

Abbreviation Context := (option secret_error) (only parsing).
Definition check_ctx (ctx : Context) : res secret_error unit := match ctx with Some e => Err e | None => Ok tt end.

(** ** Data *)
Abbreviation ExposureClass := string (only parsing).
Definition ExposureProxyOnly : ExposureClass := "proxy-only".
Definition ExposureGatewayHeader : ExposureClass := "gateway-header".
Definition ExposureSandboxEnv : ExposureClass := "sandbox-env".
Definition ExposureSandboxFile : ExposureClass := "sandbox-file".
Definition ExposureShortLivedToken : ExposureClass := "short-lived-token".
Abbreviation Operation := string (only parsing).
Definition OperationIssue : Operation := "issue".
Definition OperationGatewayUse : Operation := "gateway-use".
Definition OperationSandboxUse : Operation := "sandbox-use".

Record AccessContext := MkAccess {
  ac_TenantID : string; ac_SubjectID : string; ac_SessionID : string; ac_WorkspaceID : string; ac_TurnID : string; ac_RuntimeRevision : string;
  ac_TurnLeaseGeneration : Z; ac_PlacementGeneration : Z; ac_SandboxGeneration : Z; ac_AuthorizationGeneration : Z;
  ac_Permission : string; ac_ServiceBinding : string; ac_AuthorityExpiresAt : time;
}.
#[global] Instance AccessContext_eq_dec : EqDecision AccessContext.
Proof. solve_decision. Defined.

Record SecretRecord := MkRecord {
  sr_SecretID : string; sr_TenantID : string; sr_Version : Z; sr_Exposure : ExposureClass; sr_Value : bytes; sr_InjectionName : string;
  sr_Endpoint : string; sr_Audience : string; sr_Active : bool; sr_DestroySandboxAfterUse : bool;
}.
Record UseLease := MkLease { ul_LeaseID : string; ul_TenantID : string; ul_SecretID : string; ul_Version : Z }.
#[global] Instance UseLease_eq_dec : EqDecision UseLease.
Proof. solve_decision. Defined.

(** [UseRecoveryBinding] has the dimensions of the access and these fields. *)
Record UseRecoveryBinding := MkRecovery {
  rb_Access : AccessContext; rb_DestroySandboxAfterUse : bool; rb_SecretID : string; rb_SecretVersion : Z; rb_Exposure : ExposureClass;
  rb_InvocationID : string; rb_RecoveryID : string; rb_ResolvedCacheKey : string; rb_Endpoint : string; rb_Audience : string;
}.
#[global] Instance UseRecoveryBinding_eq_dec : EqDecision UseRecoveryBinding.
Proof. solve_decision. Defined.
Abbreviation rb_TenantID r := (ac_TenantID (rb_Access r)) (only parsing).

Record AuthorizationRequest := MkAuthorization {
  az_Operation : Operation; az_Access : AccessContext; az_SecretID : string; az_Exposure : ExposureClass; az_Endpoint : string;
  az_Audience : string; az_InvocationID : string;
}.
#[global] Instance AuthorizationRequest_eq_dec : EqDecision AuthorizationRequest.
Proof. solve_decision. Defined.
Record UseAdmissionRequest := MkAdmissionRequest { ar_Authorization : AuthorizationRequest; ar_HandleExpiresAt : time; ar_RequestedAt : time }.
Record UseAdmissionPermit := MkPermit {
  up_Authorization : AuthorizationRequest; up_HandleExpiresAt : time; up_IssuedAt : time; up_ExpiresAt : time; up_Proof : string;
}.
Record BeginUseRequest := MkBegin {
  bu_TenantID : string; bu_SecretID : string; bu_ExpectedVersion : Z; bu_Recovery : UseRecoveryBinding; bu_Admission : UseAdmissionPermit;
}.
Record AcquireReservedUseRequest := MkAcquire {
  aq_TenantID : string; aq_SecretID : string; aq_ExpectedVersion : Z; aq_Recovery : UseRecoveryBinding; aq_Lease : UseLease;
  aq_Admission : UseAdmissionPermit;
}.
Record PendingUseRecoveryQuery := MkQuery { pq_TenantID : string; pq_AfterRecoveryID : string; pq_Limit : Z }.
Record PendingUseRecoveryPage := MkPage { pp_Recoveries : list UseRecoveryBinding; pp_NextAfterRecoveryID : string }.

(** ** Validation *)
Definition maximumDefaultSecretBytes : Z := 1048576.
Definition maximumTextBytes : Z := 256.
Definition maximumEndpointBytes : Z := 2048.
Definition maximumSharedGeneration : Z := 9007199254740991.
Definition maximumAdmissionProofBytes : Z := 4096.

(** The regular expressions [^[a-z][a-z0-9._-]{0,255}$] and [^[A-Z_][A-Z0-9_]{0,255}$]. *)
Definition lower_letter (b : byte) : bool := in_range 97 122 (byte_val b).
Definition upper_letter (b : byte) : bool := in_range 65 90 (byte_val b).
Definition decimal (b : byte) : bool := in_range 48 57 (byte_val b).
Definition secretIDPattern (s : string) : bool :=
  match to_bytes s with
  | b :: rest => lower_letter b && (zlen rest <=? 255) && forallb (fun b => lower_letter b || decimal b || one_of "._-" b) rest
  | [] => false
  end.
Definition environmentNamePattern (s : string) : bool :=
  match to_bytes s with
  | b :: rest => (upper_letter b || one_of "_" b) && (zlen rest <=? 255) && forallb (fun b => upper_letter b || decimal b || one_of "_" b) rest
  | [] => false
  end.
Definition validHeaderName (s : string) : bool :=
  negb ((s == "") || (maximumTextBytes <? strlen s))
  && forallb (fun b => lower_letter b || upper_letter b || decimal b || one_of "!#$%&'*+-.^_`|~" b) (to_bytes s).
Definition parses (kind : Kind) (value : string) : bool := is_ok (Parse kind value).
Definition validExposure (e : ExposureClass) : bool :=
  (e == ExposureProxyOnly) || (e == ExposureGatewayHeader) || (e == ExposureSandboxEnv) || (e == ExposureSandboxFile) || (e == ExposureShortLivedToken).
Definition gateway_exposure (e : ExposureClass) : bool := (e == ExposureProxyOnly) || (e == ExposureGatewayHeader) || (e == ExposureShortLivedToken).
Definition sandbox_exposure (e : ExposureClass) : bool := (e == ExposureSandboxEnv) || (e == ExposureSandboxFile).

Section validation.
Context `{N : Normalizer}.

Definition validateBoundedText (value : string) (allowEmpty : bool) : bool :=
  negb ((negb allowEmpty && (value == "")) || (maximumTextBytes <? strlen value) || negb (utf8_ValidString value) || (nfc value != value))
  && negb (has_control value).
Definition validateSecretID (value : string) : bool := secretIDPattern value && utf8_ValidString value && (nfc value == value).
Definition validateEndpoint (value : string) : bool :=
  validateBoundedText value false && (strlen value <=? maximumEndpointBytes)
  && match url_Parse value with
     | None => false
     | Some parsed =>
         negb (((url_Scheme parsed != "http") && (url_Scheme parsed != "https")) || negb (nonempty (url_Host parsed)) || url_HasUser parsed
               || nonempty (url_Fragment parsed) || nonempty (url_RawQuery parsed) || (url_String parsed != value))
     end.
Definition validateBinding (exposure : ExposureClass) (injectionName endpoint audience : string) : bool :=
  if gateway_exposure exposure then validHeaderName injectionName && validateEndpoint endpoint && validateBoundedText audience false
  else if exposure == ExposureSandboxEnv then environmentNamePattern injectionName && (endpoint == "") && (audience == "")
  else if exposure == ExposureSandboxFile then
    validateBoundedText injectionName false && strings_HasPrefix injectionName "/run/credentials/" && (path_Clean injectionName == injectionName)
    && bool_decide (find_sub ".." (to_bytes injectionName) = None) && (endpoint == "") && (audience == "")
  else false.
Definition validateRecord (r : SecretRecord) (maximumSecretBytes : Z) : bool :=
  parses "tenant" (sr_TenantID r) && validateSecretID (sr_SecretID r) && (sr_Version r != 0) && validExposure (sr_Exposure r)
  && negb (sr_Active r && (zlen (sr_Value r) =? 0)) && (zlen (sr_Value r) <=? maximumSecretBytes)
  && validateBinding (sr_Exposure r) (sr_InjectionName r) (sr_Endpoint r) (sr_Audience r)
  && negb (sr_DestroySandboxAfterUse r && negb (sandbox_exposure (sr_Exposure r))).

Definition generation_ok (g : Z) : bool := negb (g =? 0) && (g <=? maximumSharedGeneration).
(** [AuthorityExpiresAt.Equal(AuthorityExpiresAt.Round(0).UTC())] holds of every instant. *)
Definition validateAccess (a : AccessContext) : bool :=
  parses "tenant" (ac_TenantID a) && parses "subject" (ac_SubjectID a) && parses "sess" (ac_SessionID a) && parses "ws" (ac_WorkspaceID a)
  && parses "turn" (ac_TurnID a) && parses "runtime" (ac_RuntimeRevision a)
  && generation_ok (ac_TurnLeaseGeneration a) && generation_ok (ac_PlacementGeneration a) && generation_ok (ac_SandboxGeneration a)
  && generation_ok (ac_AuthorizationGeneration a)
  && validateBoundedText (ac_Permission a) false && validateBoundedText (ac_ServiceBinding a) false && negb (time_IsZero (ac_AuthorityExpiresAt a)).

Definition validateUseAdmission (p : UseAdmissionPermit) (now : time) : bool :=
  let a := up_Authorization p in
  let access := az_Access a in
  validateAccess access && validateSecretID (az_SecretID a) && validExposure (az_Exposure a) && negb (time_IsZero (up_HandleExpiresAt p))
  && negb (time_IsZero (up_IssuedAt p)) && negb (time_IsZero (up_ExpiresAt p)) && negb (strlen (up_Proof p) =? 0)
  && (strlen (up_Proof p) <=? maximumAdmissionProofBytes) && utf8_ValidString (up_Proof p)
  && negb (now <? up_IssuedAt p) && (now <? up_ExpiresAt p) && (now <? up_HandleExpiresAt p) && (now <? ac_AuthorityExpiresAt access)
  && (up_ExpiresAt p <=? up_HandleExpiresAt p) && (up_HandleExpiresAt p <=? ac_AuthorityExpiresAt access)
  && (if az_Operation a == OperationGatewayUse then
        (az_InvocationID a == "") && validateEndpoint (az_Endpoint a) && validateBoundedText (az_Audience a) false && gateway_exposure (az_Exposure a)
      else if az_Operation a == OperationSandboxUse then
        (az_Endpoint a == "") && (az_Audience a == "") && sandbox_exposure (az_Exposure a) && parses "inv" (az_InvocationID a)
      else false).

Definition validateRecoveryBinding (r : UseRecoveryBinding) : bool :=
  parses "tenant" (rb_TenantID r) && validateSecretID (rb_SecretID r) && (rb_SecretVersion r != 0) && validExposure (rb_Exposure r)
  && validateAccess (rb_Access r) && parses "op" (rb_RecoveryID r)
  && (if sandbox_exposure (rb_Exposure r) then
        parses "inv" (rb_InvocationID r) && matches_sha256 (rb_ResolvedCacheKey r) && (rb_Endpoint r == "") && (rb_Audience r == "")
      else if gateway_exposure (rb_Exposure r) then
        negb (rb_DestroySandboxAfterUse r) && (rb_InvocationID r == "") && (rb_ResolvedCacheKey r == "") && validateEndpoint (rb_Endpoint r)
        && validateBoundedText (rb_Audience r) false
      else false).

Definition admissionMatchesRecovery (p : UseAdmissionPermit) (r : UseRecoveryBinding) (tenantID secretID : string) (now : time) : bool :=
  let a := up_Authorization p in
  validateUseAdmission p now && (ac_TenantID (az_Access a) == tenantID) && (az_SecretID a == secretID) && (az_Access a == rb_Access r)
  && (az_SecretID a == rb_SecretID r) && (az_Exposure a == rb_Exposure r) && (az_Endpoint a == rb_Endpoint r) && (az_Audience a == rb_Audience r)
  && (az_InvocationID a == rb_InvocationID r).

(** ** The store *)
Record MemoryStore := MkStore {
  records : gmap string SecretRecord;
  leases : gmap string UseLease;
  activeByKey : gmap string Z;
  recoveryByLease : gmap string UseRecoveryBinding;
  leaseByRecoveryID : gmap string string;
  completedRecoveries : gmap string UseRecoveryBinding;
  acquiredByLease : gmap string bool;
}.
Definition NewMemoryStore : MemoryStore := MkStore ∅ ∅ ∅ ∅ ∅ ∅ ∅.
Definition store_key (tenantID secretID : string) : string := (tenantID ++ String Ascii.zero secretID)%string.
Definition active_count (s : MemoryStore) (key : string) : Z := default 0 (activeByKey s !! key).

(** The context is read twice: at the start, and with the lock held. *)
Definition Get (ctx locked : Context) (s : MemoryStore) (tenantID secretID : string) : res secret_error SecretRecord :=
  _ ← check_ctx ctx;
  _ ← check_ctx locked;
  match records s !! store_key tenantID secretID with Some r => Ok r | None => Err ErrSecretNotFound end.

Definition put_record (s : MemoryStore) (key : string) (r : SecretRecord) : MemoryStore :=
  MkStore (<[key := r]> (records s)) (leases s) (activeByKey s) (recoveryByLease s) (leaseByRecoveryID s) (completedRecoveries s) (acquiredByLease s).
Definition compare_and_swap (ctx locked : Context) (s : MemoryStore) (expectedVersion : Z) (next : SecretRecord) : res secret_error MemoryStore :=
  _ ← check_ctx ctx;
  _ ← reject_if (negb (validateRecord next maximumDefaultSecretBytes)) ErrInvalidRequest;
  let nextCopy := if sr_Active next then next
    else MkRecord (sr_SecretID next) (sr_TenantID next) (sr_Version next) (sr_Exposure next) [] (sr_InjectionName next) (sr_Endpoint next)
           (sr_Audience next) false (sr_DestroySandboxAfterUse next) in
  let key := store_key (sr_TenantID next) (sr_SecretID next) in
  _ ← check_ctx locked;
  _ ← reject_if (match records s !! key with
                 | None => (expectedVersion != 0) || (sr_Version next != 1)
                 | Some current => (sr_Version current != expectedVersion) || (expectedVersion =? u64_max) || (sr_Version next != u64 (expectedVersion + 1))
                 end) ErrStoreConflict;
  _ ← reject_if (active_count s key != 0) ErrStoreInUse;
  Ok (put_record s key nextCopy).
Definition CompareAndSwap ctx locked s expectedVersion next : res secret_error unit * MemoryStore :=
  match compare_and_swap ctx locked s expectedVersion next with Ok s' => (Ok tt, s') | Err e => (Err e, s) end.

(** The record can be used under the admission and the recovery. *)
Definition usable (s : MemoryStore) (key : string) (expectedVersion : Z) (p : UseAdmissionPermit) (r : UseRecoveryBinding) : res secret_error SecretRecord :=
  match records s !! key with
  | None => Err ErrSecretNotFound
  | Some record =>
      _ ← reject_if (negb (sr_Active record) || (sr_Version record != expectedVersion)) ErrSecretNotFound;
      let a := up_Authorization p in
      _ ← reject_if ((az_Exposure a != sr_Exposure record) || (az_Endpoint a != sr_Endpoint record) || (az_Audience a != sr_Audience record)
                     || (rb_DestroySandboxAfterUse r != sr_DestroySandboxAfterUse record)) ErrAccessDenied;
      Ok record
  end.
Definition recovery_matches (r : UseRecoveryBinding) (tenantID secretID : string) (expectedVersion : Z) : bool :=
  (rb_TenantID r == tenantID) && (rb_SecretID r == secretID) && (rb_SecretVersion r == expectedVersion) && validateRecoveryBinding r.

(** [leaseID] is the answer of [identity.New(identity.Lease)]. *)
Definition begin_use (ctx locked : Context) (leaseID : option string) (now : time) (s : MemoryStore) (q : BeginUseRequest) (acquire : bool)
    : res secret_error (SecretRecord * UseLease * MemoryStore) :=
  _ ← check_ctx ctx;
  let r := bu_Recovery q in
  _ ← reject_if (negb (recovery_matches r (bu_TenantID q) (bu_SecretID q) (bu_ExpectedVersion q))) ErrUseLeaseInvalid;
  match leaseID with
  | None => Err ErrStoreConflict
  | Some leaseID =>
      let key := store_key (bu_TenantID q) (bu_SecretID q) in
      _ ← check_ctx locked;
      _ ← reject_if (negb (admissionMatchesRecovery (bu_Admission q) r (bu_TenantID q) (bu_SecretID q) now)) ErrAccessDenied;
      _ ← match leaseByRecoveryID s !! rb_RecoveryID r with
          | Some active => if bool_decide (recoveryByLease s !! active = Some r) then Err ErrStoreInUse else Err ErrUseLeaseInvalid
          | None => Ok tt
          end;
      _ ← reject_if (bool_decide (is_Some (completedRecoveries s !! rb_RecoveryID r))) ErrUseLeaseInvalid;
      record ← usable s key (bu_ExpectedVersion q) (bu_Admission q) r;
      _ ← reject_if (active_count s key != 0) ErrStoreInUse;
      let lease := MkLease leaseID (bu_TenantID q) (bu_SecretID q) (bu_ExpectedVersion q) in
      _ ← reject_if (bool_decide (is_Some (leases s !! leaseID))) ErrStoreConflict;
      Ok (record, lease, MkStore (records s) (<[leaseID := lease]> (leases s)) (<[key := u64 (active_count s key + 1)]> (activeByKey s))
        (<[leaseID := r]> (recoveryByLease s)) (<[rb_RecoveryID r := leaseID]> (leaseByRecoveryID s)) (completedRecoveries s)
        (<[leaseID := acquire]> (acquiredByLease s)))
  end.
Definition BeginUse ctx locked leaseID now s q : res secret_error (SecretRecord * UseLease) * MemoryStore :=
  match begin_use ctx locked leaseID now s q true with Ok (record, lease, s') => (Ok (record, lease), s') | Err e => (Err e, s) end.
Definition ReserveUse ctx locked leaseID now s q : res secret_error UseLease * MemoryStore :=
  match begin_use ctx locked leaseID now s q false with Ok (_, lease, s') => (Ok lease, s') | Err e => (Err e, s) end.

Definition acquire_reserved_use (ctx locked : Context) (now : time) (s : MemoryStore) (q : AcquireReservedUseRequest)
    : res secret_error (SecretRecord * MemoryStore) :=
  _ ← check_ctx ctx;
  let r := aq_Recovery q in
  let lease := aq_Lease q in
  _ ← reject_if (negb (recovery_matches r (aq_TenantID q) (aq_SecretID q) (aq_ExpectedVersion q))) ErrUseLeaseInvalid;
  let key := store_key (aq_TenantID q) (aq_SecretID q) in
  _ ← check_ctx locked;
  _ ← reject_if (negb (admissionMatchesRecovery (aq_Admission q) r (aq_TenantID q) (aq_SecretID q) now)) ErrAccessDenied;
  _ ← reject_if (bool_decide (leases s !! ul_LeaseID lease <> Some lease) || (ul_TenantID lease != aq_TenantID q) || (ul_SecretID lease != aq_SecretID q)
                 || (ul_Version lease != aq_ExpectedVersion q)) ErrUseLeaseInvalid;
  _ ← reject_if (bool_decide (recoveryByLease s !! ul_LeaseID lease <> Some r)
                 || (default "" (leaseByRecoveryID s !! rb_RecoveryID r) != ul_LeaseID lease)) ErrUseLeaseInvalid;
  _ ← reject_if (default false (acquiredByLease s !! ul_LeaseID lease)) ErrStoreInUse;
  record ← usable s key (aq_ExpectedVersion q) (aq_Admission q) r;
  Ok (record, MkStore (records s) (leases s) (activeByKey s) (recoveryByLease s) (leaseByRecoveryID s) (completedRecoveries s)
    (<[ul_LeaseID lease := true]> (acquiredByLease s))).
Definition AcquireReservedUse ctx locked now s q : res secret_error SecretRecord * MemoryStore :=
  match acquire_reserved_use ctx locked now s q with Ok (record, s') => (Ok record, s') | Err e => (Err e, s) end.

(** The lease and its recovery leave the tables; the recovery stays as a tombstone. *)
Definition end_lease (s : MemoryStore) (lease : UseLease) (recovery : option UseRecoveryBinding) : MemoryStore :=
  let id := ul_LeaseID lease in
  let key := store_key (ul_TenantID lease) (ul_SecretID lease) in
  let active := if active_count s key <=? 1 then delete key (activeByKey s) else <[key := active_count s key - 1]> (activeByKey s) in
  match recovery with
  | Some r => MkStore (records s) (delete id (leases s)) active (delete id (recoveryByLease s)) (delete (rb_RecoveryID r) (leaseByRecoveryID s))
      (<[rb_RecoveryID r := r]> (completedRecoveries s)) (delete id (acquiredByLease s))
  | None => MkStore (records s) (delete id (leases s)) active (recoveryByLease s) (leaseByRecoveryID s) (completedRecoveries s)
      (delete id (acquiredByLease s))
  end.
Definition EndUse (ctx locked : Context) (s : MemoryStore) (lease : UseLease) : res secret_error unit * MemoryStore :=
  match (_ ← check_ctx ctx; _ ← check_ctx locked; reject_if (bool_decide (leases s !! ul_LeaseID lease <> Some lease)) ErrUseLeaseInvalid) with
  | Err e => (Err e, s)
  | Ok _ => (Ok tt, end_lease s lease (recoveryByLease s !! ul_LeaseID lease))
  end.

(** The lease of a pending recovery. *)
Definition pending_lease (s : MemoryStore) (r : UseRecoveryBinding) : option UseLease :=
  leaseID ← leaseByRecoveryID s !! rb_RecoveryID r;
  if bool_decide (recoveryByLease s !! leaseID = Some r) then leases s !! leaseID else None.
Definition ValidateUseRecovery (ctx locked : Context) (s : MemoryStore) (r : UseRecoveryBinding) : res secret_error unit :=
  _ ← check_ctx ctx;
  _ ← reject_if (negb (validateRecoveryBinding r)) ErrUseLeaseInvalid;
  _ ← check_ctx locked;
  match completedRecoveries s !! rb_RecoveryID r with
  | Some completed => reject_if (completed != r) ErrUseLeaseInvalid
  | None => reject_if (bool_decide (pending_lease s r = None)) ErrUseLeaseInvalid
  end.
Definition complete_use_recovery (ctx locked : Context) (s : MemoryStore) (r : UseRecoveryBinding) : res secret_error MemoryStore :=
  _ ← check_ctx ctx;
  _ ← reject_if (negb (validateRecoveryBinding r)) ErrUseLeaseInvalid;
  _ ← check_ctx locked;
  match completedRecoveries s !! rb_RecoveryID r with
  | Some completed => _ ← reject_if (completed != r) ErrUseLeaseInvalid; Ok s
  | None =>
      match pending_lease s r with
      | None => Err ErrUseLeaseInvalid
      | Some lease =>
          _ ← reject_if ((ul_TenantID lease != rb_TenantID r) || (ul_SecretID lease != rb_SecretID r) || (ul_Version lease != rb_SecretVersion r))
                ErrUseLeaseInvalid;
          Ok (end_lease s lease (Some r))
      end
  end.
Definition CompleteUseRecovery ctx locked s r : res secret_error unit * MemoryStore :=
  match complete_use_recovery ctx locked s r with Ok s' => (Ok tt, s') | Err e => (Err e, s) end.

(** One recovery of the scan: the page in order, no longer than needed. *)
Definition recovery_rank (r : UseRecoveryBinding) : bytes := to_bytes (rb_RecoveryID r).
Definition keep_recovery (q : PendingUseRecoveryQuery) (page : list UseRecoveryBinding) (r : UseRecoveryBinding) : list UseRecoveryBinding :=
  if bool_decide (rb_TenantID r = pq_TenantID q /\ bytes_lt (to_bytes (pq_AfterRecoveryID q)) (recovery_rank r))
  then take (Z.to_nat (pq_Limit q + 1)) (sort_by bytes_lt recovery_rank (page ++ [r])) else page.
Definition ListPendingUseRecoveries (ctx locked : Context) (s : MemoryStore) (q : PendingUseRecoveryQuery) : res secret_error PendingUseRecoveryPage :=
  _ ← check_ctx ctx;
  _ ← reject_if (negb (parses "tenant" (pq_TenantID q)) || (pq_Limit q <? 1) || (1000 <? pq_Limit q)) ErrInvalidRequest;
  _ ← reject_if ((pq_AfterRecoveryID q != "") && negb (parses "op" (pq_AfterRecoveryID q))) ErrInvalidRequest;
  _ ← check_ctx locked;
  let recoveries := foldl (keep_recovery q) [] (map snd (map_to_list (recoveryByLease s))) in
  if pq_Limit q <? zlen recoveries then
    let page := take (Z.to_nat (pq_Limit q)) recoveries in
    Ok (MkPage page (default "" (rb_RecoveryID <$> last page)))
  else Ok (MkPage recoveries "").
End validation.
