(* ===== verification/SecretService.v ===== *)
(** * The secret service ([internal/secret/service.go])

    Handles, gateway and sandbox uses and their recovery as programs over the store and
    the trusted dependencies.  A dependency may answer, fail or panic; a panic unwinds
    through the deferred functions, so the programs say what they release then. *)

From S2P Require Import Prelude Programs GoText GoStrings GoCrypto Identity Secret.
#[local] Open Scope string_scope.
#[local] Open Scope list_scope.
#[local] Open Scope Z_scope.
#[local] Open Scope go_scope.

(** ** Requests and answers *)
Record Handle := MkHandle {
  ha_access : AccessContext; ha_secretID : string; ha_version : Z; ha_exposure : ExposureClass; ha_endpoint : string; ha_audience : string;
  ha_destroySandboxAfterUse : bool; ha_invocationID : string; ha_expiresAt : time;
}.
Record IssueRequest := MkIssue {
  iq_Access : AccessContext; iq_SecretID : string; iq_Exposure : ExposureClass; iq_Endpoint : string; iq_Audience : string; iq_InvocationID : string;
}.
Record CredentialMaterial := MkMaterial { cm_Exposure : ExposureClass; cm_InjectionName : string; cm_Value : bytes; cm_ExpiresAt : option time }.
Record GatewayUseRequest := MkGatewayUse { gq_Access : AccessContext; gq_Handle : Handle; gq_Endpoint : string; gq_Audience : string; gq_Payload : bytes }.
Record GatewayDispatch := MkDispatch {
  gd_Authority : AccessContext; gd_Endpoint : string; gd_Audience : string; gd_Payload : bytes; gd_Recovery : UseRecoveryBinding;
}.
(** A zero recovery is [None]. *)
Record GatewayResponse := MkResponse { gr_Payload : bytes; gr_Recovery : option UseRecoveryBinding; gr_RecoveryDurable : bool }.
Record RecoveryAuthority := MkAuthority { ra_TenantID : string; ra_SubjectID : string }.
Abbreviation RecoveryOperation := string (only parsing).
Definition RecoveryContainSandbox : RecoveryOperation := "contain-sandbox".
Definition RecoveryReleaseGateway : RecoveryOperation := "release-gateway".
Definition RecoveryListPending : RecoveryOperation := "list-pending".
(** The fields after the authority are those of the recovery. *)
Record RecoveryAuthorizationRequest := MkRecoveryAuthorization {
  rz_Operation : RecoveryOperation; rz_Authority : RecoveryAuthority; rz_Recovery : option UseRecoveryBinding;
}.
Record RecoveryAuditEvent := MkRecoveryAudit {
  re_Operation : RecoveryOperation; re_Authority : RecoveryAuthority; re_TenantID : string; re_Recovery : option UseRecoveryBinding;
}.
Record AuditEvent := MkAudit {
  ae_Operation : Operation; ae_Access : AccessContext; ae_InvocationID : string; ae_SecretID : string; ae_Version : Z;
  ae_Exposure : ExposureClass; ae_Endpoint : string; ae_Audience : string;
}.
Record AuditReceipt := MkAuditReceipt { au_Durable : bool; au_Sequence : Z }.
Record GatewayRecoveryReceipt := MkGatewayReceipt { gv_Recovery : option UseRecoveryBinding; gv_Durable : bool; gv_SafeToRelease : bool }.
Record TokenMintRequest := MkMint {
  tm_TenantID : string; tm_SecretID : string; tm_Version : Z; tm_Endpoint : string; tm_Audience : string; tm_Seed : bytes; tm_ExpiresBy : time;
}.
Record MintedToken := MkToken { mt_Value : bytes; mt_ExpiresAt : time }.
Record SandboxUseRequest := MkSandboxUse { sq_Access : AccessContext; sq_Handle : Handle; sq_InvocationID : string; sq_BaseCacheKey : string }.
Record SandboxDispatch := MkSandboxDispatch {
  sd_TenantID : string; sd_SubjectID : string; sd_SessionID : string; sd_WorkspaceID : string; sd_InvocationID : string;
  sd_ResolvedCacheKey : string; sd_DestroySandboxAfterUse : bool;
}.
Record SandboxCleanupReceipt := MkCleanup {
  cl_InvocationID : string; cl_Recovery : option UseRecoveryBinding; cl_FileRemoved : bool; cl_EnvironmentCleared : bool; cl_SandboxDestroyed : bool;
}.
Record SandboxExposurePermit := MkExposurePermit {
  xp_InvocationID : string; xp_RecoveryID : string; xp_ResolvedCacheKey : string; xp_Recovery : UseRecoveryBinding; xp_Durable : bool;
}.
#[global] Instance SandboxExposurePermit_eq_dec : EqDecision SandboxExposurePermit.
Proof. solve_decision. Defined.
Record SandboxQuarantineReceipt := MkQuarantine { qr_InvocationID : string; qr_RecoveryID : string; qr_ResolvedCacheKey : string; qr_Durable : bool }.
Record PendingRecoveryRequest := MkPending { pr_Authority : RecoveryAuthority; pr_AfterRecoveryID : string; pr_Limit : Z }.

(** ** Configuration *)
Record StoreCapabilities := MkCapabilities {
  Durable : bool; AtomicUseRecovery : bool; AtomicAdmissionValidation : bool; AtomicPreparedUse : bool; BoundedRecoveryEnumeration : bool;
}.
Definition MemoryStore_Capabilities : StoreCapabilities := MkCapabilities false true false true true.
Record GatewayCapabilities := MkGatewayCapabilities { DurableRecovery : bool; IdempotentRecovery : bool }.
(** The gateway, the sandbox and the minter may be absent; the other dependencies are not
    nil, and the admitter is the configured one or the authorizer. *)
Record Config := MkConfig {
  cf_Store : StoreCapabilities; cf_HasAdmitter : bool; cf_Gateway : option GatewayCapabilities; cf_HasSandbox : bool; cf_HasMinter : bool;
  cf_MaximumRequestBytes : Z; cf_MaximumResponseBytes : Z; cf_MaximumSecretBytes : Z; cf_MaximumTokenTTL : Z; cf_HandleTTL : Z;
  cf_RecoveryTimeout : Z; cf_ServiceBinding : string;
}.
Record Service := MkService {
  hasGateway : bool; hasSandbox : bool; hasMinter : bool; maximumRequestBytes : Z; maximumResponseBytes : Z; maximumSecretBytes : Z;
  maximumTokenTTL : Z; handleTTL : Z; serviceBinding : string; recoveryTimeout : Z;
}.
Definition maximumConfiguredBytes : Z := 67108864.
Definition minute : Z := 60000000000.
Definition or_default (n d : Z) : Z := if n =? 0 then d else n.
Section service.
Context `{N : Normalizer}.
Definition NewService (c : Config) : res secret_error Service :=
  _ ← reject_if ((cf_MaximumRequestBytes c <=? 0) || (maximumConfiguredBytes <? cf_MaximumRequestBytes c)
                 || (cf_MaximumResponseBytes c <=? 0) || (maximumConfiguredBytes <? cf_MaximumResponseBytes c)
                 || negb (validateBoundedText (cf_ServiceBinding c) false)) ErrInvalidConfig;
  _ ← reject_if (negb (cf_HasAdmitter c)) ErrInvalidConfig;
  let capabilities := cf_Store c in
  _ ← reject_if (negb (Durable capabilities) || negb (AtomicUseRecovery capabilities) || negb (AtomicAdmissionValidation capabilities)
                 || negb (AtomicPreparedUse capabilities) || negb (BoundedRecoveryEnumeration capabilities)) ErrStoreNotDurable;
  _ ← match cf_Gateway c with
      | Some g => reject_if (negb (DurableRecovery g) || negb (IdempotentRecovery g)) ErrInvalidConfig
      | None => Ok tt
      end;
  let secretBytes := or_default (cf_MaximumSecretBytes c) maximumDefaultSecretBytes in
  _ ← reject_if ((secretBytes <? 1) || (maximumConfiguredBytes <? secretBytes)) ErrInvalidConfig;
  let tokenTTL := or_default (cf_MaximumTokenTTL c) (15 * minute) in
  _ ← reject_if ((tokenTTL <=? 0) || (24 * 60 * minute <? tokenTTL)) ErrInvalidConfig;
  let ttl := or_default (cf_HandleTTL c) (5 * minute) in
  _ ← reject_if ((ttl <=? 0) || (60 * minute <? ttl)) ErrInvalidConfig;
  let timeout := or_default (cf_RecoveryTimeout c) 30000000000 in
  _ ← reject_if ((timeout <=? 0) || (5 * minute <? timeout)) ErrInvalidConfig;
  Ok (MkService (bool_decide (is_Some (cf_Gateway c))) (cf_HasSandbox c) (cf_HasMinter c) (cf_MaximumRequestBytes c) (cf_MaximumResponseBytes c)
    secretBytes tokenTTL ttl (cf_ServiceBinding c) timeout).
End service.

(** ** The calls *)
Inductive outcome (A : Type) := Value (a : A) | Panics.
Arguments Value {A} a.
Arguments Panics {A}.
Abbreviation answer A := (outcome (res secret_error A)) (only parsing).

Inductive SCall : Type -> Type :=
| Now : SCall time
(** [ctx.Err()] *)
| ContextErr : SCall (option secret_error)
| NewOperationID : SCall (option string)
| Authorize (request : AuthorizationRequest) : SCall (answer unit)
| Admit (request : UseAdmissionRequest) : SCall (answer UseAdmissionPermit)
| AppendAudit (event : AuditEvent) : SCall (answer AuditReceipt)
| AuthorizeRecovery (request : RecoveryAuthorizationRequest) : SCall (answer unit)
| AppendRecovery (event : RecoveryAuditEvent) : SCall (answer AuditReceipt)
| StoreGet (tenantID secretID : string) : SCall (answer SecretRecord)
| StoreBegin (request : BeginUseRequest) : SCall (answer (SecretRecord * UseLease))
| StoreReserve (request : BeginUseRequest) : SCall (answer UseLease)
| StoreAcquire (request : AcquireReservedUseRequest) : SCall (answer SecretRecord)
| StoreEnd (lease : UseLease) : SCall (answer unit)
| StoreValidate (recovery : UseRecoveryBinding) : SCall (answer unit)
| StoreComplete (recovery : UseRecoveryBinding) : SCall (answer unit)
| StoreList (query : PendingUseRecoveryQuery) : SCall (answer PendingUseRecoveryPage)
| Mint (request : TokenMintRequest) : SCall (answer MintedToken)
| Dispatch (dispatch : GatewayDispatch) (material : CredentialMaterial) : SCall (answer GatewayResponse)
| RecoverDispatch (recovery : UseRecoveryBinding) : SCall (answer GatewayRecoveryReceipt)
| Prepare (dispatch : SandboxDispatch) (recovery : UseRecoveryBinding) : SCall (answer SandboxExposurePermit)
| Use (dispatch : SandboxDispatch) (permit : SandboxExposurePermit) (material : CredentialMaterial) : SCall (answer SandboxCleanupReceipt)
| Cleanup (dispatch : SandboxDispatch) (permit : SandboxExposurePermit) : SCall (answer SandboxCleanupReceipt)
| Quarantine (dispatch : SandboxDispatch) (permit : SandboxExposurePermit) : SCall (answer SandboxQuarantineReceipt).

(** A program that returns a value or an error, or panics. *)
Abbreviation Program A := (Prog SCall (answer A)) (only parsing).
Definition andThen {A B} (p : Program A) (f : A -> Program B) : Program B :=
  bindP p (fun o => match o with Value (Ok a) => f a | Value (Err e) => Ret (Value (Err e)) | Panics => Ret Panics end).
Definition pure {A} (r : res secret_error A) : Program A := Ret (Value r).
Definition fail {A} (e : secret_error) : Program A := pure (Err e).
Definition give {A} (a : A) : Program A := pure (Ok a).
Definition require (b : bool) (e : secret_error) : Program unit := pure (reject_if (negb b) e).
(** A call whose error the program replaces. *)
Definition call_or {A} (c : SCall (answer A)) (f : secret_error -> secret_error) : Program A :=
  Vis c (fun o => Ret (match o with Value (Ok a) => Value (Ok a) | Value (Err e) => Value (Err (f e)) | Panics => Panics end)).
Declare Scope secret_scope.
Delimit Scope secret_scope with secret.
Notation "x <- p ;; q" := (andThen p (fun x => q)) (at level 100, p at next level, right associativity) : secret_scope.
Notation "x <-- p ;; q" := (bindP p (fun x => q)) (at level 100, p at next level, right associativity) : secret_scope.

(** ** Handles *)
Section programs.
Context `{N : Normalizer}.
#[local] Open Scope secret_scope.

Definition binding_valid (request : IssueRequest) : bool :=
  if gateway_exposure (iq_Exposure request) then
    validateEndpoint (iq_Endpoint request) && validateBoundedText (iq_Audience request) false && (iq_InvocationID request == "")
  else if sandbox_exposure (iq_Exposure request) then (iq_Endpoint request == "") && (iq_Audience request == "") && parses "inv" (iq_InvocationID request)
  else false.
Definition IssueHandle (service : Service) (ctx : Context) (request : IssueRequest) : Program Handle :=
  let access := iq_Access request in
  _ <- pure (check_ctx ctx);;
  now <-- ask Now;;
  _ <- require (validateAccess access && (ac_ServiceBinding access == serviceBinding service) && (now <? ac_AuthorityExpiresAt access)
                && validateSecretID (iq_SecretID request) && validExposure (iq_Exposure request) && binding_valid request) ErrInvalidRequest;;
  _ <- call_or (Authorize (MkAuthorization OperationIssue access (iq_SecretID request) (iq_Exposure request) (iq_Endpoint request)
         (iq_Audience request) (iq_InvocationID request))) (fun _ => ErrAccessDenied);;
  record <- call_or (StoreGet (ac_TenantID access) (iq_SecretID request)) (fun _ => ErrSecretNotFound);;
  _ <- require (validateRecord record (maximumSecretBytes service)) ErrInvalidRequest;;
  _ <- require (sr_Active record && (sr_TenantID record == ac_TenantID access) && (sr_SecretID record == iq_SecretID request)
                && (sr_Exposure record == iq_Exposure request) && (sr_Endpoint record == iq_Endpoint request)
                && (sr_Audience record == iq_Audience request)) ErrExposureDenied;;
  give (MkHandle access (sr_SecretID record) (sr_Version record) (sr_Exposure record) (sr_Endpoint record) (sr_Audience record)
    (sr_DestroySandboxAfterUse record) (iq_InvocationID request) (Z.min (now + handleTTL service) (ac_AuthorityExpiresAt access))).

Definition use_authorization (operation : Operation) (access : AccessContext) (handle : Handle) (endpoint audience invocationID : string) : AuthorizationRequest :=
  MkAuthorization operation access (ha_secretID handle) (ha_exposure handle) endpoint audience invocationID.
Definition authorizeHandle (service : Service) (access : AccessContext) (handle : Handle) (operation : Operation)
    (endpoint audience invocationID : string) : Program unit :=
  now <-- ask Now;;
  _ <- require (validateAccess access && (ac_ServiceBinding access == serviceBinding service) && (ha_version handle != 0)
                && validateSecretID (ha_secretID handle) && validExposure (ha_exposure handle) && (ha_access handle == access)
                && (ha_endpoint handle == endpoint) && (ha_audience handle == audience) && (ha_invocationID handle == invocationID)
                && negb (time_IsZero (ha_expiresAt handle)) && (now <? ha_expiresAt handle) && (now <? ac_AuthorityExpiresAt access)) ErrStaleHandle;;
  call_or (Authorize (use_authorization operation access handle (ha_endpoint handle) (ha_audience handle) invocationID)) (fun _ => ErrAccessDenied).

(** The permit is for this authorization, was issued now and is valid now. *)
Definition permit_answers (request : UseAdmissionRequest) (handle : Handle) (permit : UseAdmissionPermit) (now : time) : bool :=
  (up_Authorization permit == ar_Authorization request) && (up_HandleExpiresAt permit == ha_expiresAt handle)
  && (up_IssuedAt permit == ar_RequestedAt request) && validateUseAdmission permit now.
Definition admitHandleUse (access : AccessContext) (handle : Handle) (operation : Operation) (endpoint audience invocationID : string)
    : Program UseAdmissionPermit :=
  now <-- ask Now;;
  _ <- require (now <? ha_expiresAt handle) ErrStaleHandle;;
  let request := MkAdmissionRequest (use_authorization operation access handle endpoint audience invocationID) (ha_expiresAt handle) now in
  admitted <-- ask (Admit request);;
  match admitted with
  | Panics => Ret Panics
  | Value (Err _) => err <-- ask ContextErr;; match err with Some e => fail e | None => fail ErrAccessDenied end
  | Value (Ok permit) =>
      now <-- ask Now;;
      if permit_answers request handle permit now then give permit
      else fail (if ha_expiresAt handle <=? now then ErrStaleHandle else ErrAccessDenied)
  end.

(** The record is the one the handle names. *)
Definition record_of_handle (service : Service) (access : AccessContext) (handle : Handle) (record : SecretRecord) : bool :=
  validateRecord record (maximumSecretBytes service) && sr_Active record && (sr_TenantID record == ac_TenantID access)
  && (sr_SecretID record == ha_secretID handle) && (sr_Version record == ha_version handle) && (sr_Exposure record == ha_exposure handle)
  && (sr_Endpoint record == ha_endpoint handle) && (sr_Audience record == ha_audience handle)
  && bool_decide (sr_DestroySandboxAfterUse record = ha_destroySandboxAfterUse handle).

Definition releaseUse (lease : UseLease) : Program unit := call_or (StoreEnd lease) (fun _ => ErrUseReleaseUnconfirmed).

(** [errors.Join] gives more than one error. *)
Abbreviation errors := (list secret_error) (only parsing).
Definition beginHandleUse (service : Service) (access : AccessContext) (handle : Handle) (recovery : UseRecoveryBinding) (admission : UseAdmissionPermit)
    : Prog SCall (outcome (res errors (SecretRecord * UseLease))) :=
  begun <-- ask (StoreBegin (MkBegin (ac_TenantID access) (ha_secretID handle) (ha_version handle) recovery admission));;
  match begun with
  | Panics => Ret Panics
  | Value (Err e) => Ret (Value (Err [if e == ErrStoreInUse then ErrStoreInUse else ErrStaleHandle]))
  | Value (Ok (record, lease)) =>
      if record_of_handle service access handle record then Ret (Value (Ok (record, lease)))
      else
        released <-- releaseUse lease;;
        match released with
        | Panics => Ret Panics
        | Value (Err e) => Ret (Value (Err [ErrStaleHandle; e]))
        | Value (Ok _) => Ret (Value (Err [ErrStaleHandle]))
        end
  end.

Definition appendAudit (secretID : string) (version : Z) (exposure : ExposureClass) (endpoint audience : string) (access : AccessContext)
    (operation : Operation) (invocationID : string) : Program unit :=
  receipt <- call_or (AppendAudit (MkAudit operation access invocationID secretID version exposure endpoint audience)) (fun _ => ErrAuditNotDurable);;
  require (au_Durable receipt && (au_Sequence receipt != 0)) ErrAuditNotDurable.

(** ** Gateway uses *)
Definition no_response : GatewayResponse := MkResponse [] None false.
Definition recovery_response (recovery : UseRecoveryBinding) : GatewayResponse := MkResponse [] (Some recovery) false.
(** What a function returns or that it panicked, and whether the deferred function
    releases the lease. *)
Abbreviation Released A := (outcome (A * errors) * bool)%type (only parsing).

(** The value of a short-lived token, minted from the record as its seed. *)
Definition mint_token (service : Service) (record : SecretRecord) : Prog SCall (outcome (res secret_error CredentialMaterial) * bool) :=
  if negb (hasMinter service) then Ret (Value (Err ErrTokenUnavailable), true)
  else
    now <-- ask Now;;
    minted <-- ask (Mint (MkMint (sr_TenantID record) (sr_SecretID record) (sr_Version record) (sr_Endpoint record) (sr_Audience record)
      (sr_Value record) (now + maximumTokenTTL service)));;
    match minted with
    | Panics => Ret (Panics, false)
    | Value (Err _) => Ret (Value (Err ErrTokenFailed), true)
    | Value (Ok token) =>
        if (zlen (mt_Value token) =? 0) || (maximumSecretBytes service <? zlen (mt_Value token)) || (mt_ExpiresAt token <=? now)
           || (now + maximumTokenTTL service <? mt_ExpiresAt token)
        then Ret (Value (Err ErrTokenFailed), true)
        else Ret (Value (Ok (MkMaterial (sr_Exposure record) (sr_InjectionName record) (mt_Value token) (Some (mt_ExpiresAt token)))), true)
    end.
Definition gateway_material (service : Service) (record : SecretRecord) : Prog SCall (outcome (res secret_error CredentialMaterial) * bool) :=
  if sr_Exposure record == ExposureShortLivedToken then mint_token service record
  else Ret (Value (Ok (MkMaterial (sr_Exposure record) (sr_InjectionName record) (sr_Value record) None)), true).

Definition gateway_dispatch (service : Service) (request : GatewayUseRequest) (recovery : UseRecoveryBinding) (material : CredentialMaterial)
    : Prog SCall (Released GatewayResponse) :=
  dispatched <-- ask (Dispatch (MkDispatch (gq_Access request) (gq_Endpoint request) (gq_Audience request) (gq_Payload request) recovery) material);;
  match dispatched with
  | Panics => Ret (Panics, false)
  | Value (Err _) => Ret (Value (recovery_response recovery, [ErrGatewayFailed]), false)
  | Value (Ok response) =>
      if negb (gr_RecoveryDurable response) || bool_decide (gr_Recovery response <> Some recovery)
      then Ret (Value (recovery_response recovery, [ErrGatewayFailed]), false)
      else if maximumResponseBytes service <? zlen (gr_Payload response) then Ret (Value (no_response, [ErrResponseTooLarge]), true)
      else Ret (Value (MkResponse (gr_Payload response) None false, []), true)
  end.

(** From the audit to the answer, with the lease held. *)
Definition gateway_body (service : Service) (request : GatewayUseRequest) (recovery : UseRecoveryBinding) (record : SecretRecord)
    : Prog SCall (Released GatewayResponse) :=
  if negb (gateway_exposure (sr_Exposure record)) then Ret (Value (no_response, [ErrExposureDenied]), true)
  else
    audit <-- appendAudit (sr_SecretID record) (sr_Version record) (sr_Exposure record) (sr_Endpoint record) (sr_Audience record) (gq_Access request)
      OperationGatewayUse "";;
    match audit with
    | Panics => Ret (Panics, true)
    | Value (Err e) => Ret (Value (no_response, [e]), true)
    | Value (Ok _) =>
        material <-- gateway_material service record;;
        match material.1 with
        | Panics => Ret (Panics, material.2)
        | Value (Err e) => Ret (Value (no_response, [e]), material.2)
        | Value (Ok m) => gateway_dispatch service request recovery m
        end
    end.

(** The deferred function: a release that fails adds its error and the recovery. *)
Definition release_after {A} (lease : UseLease) (with_recovery : A -> A) (r : Released A) : Prog SCall (outcome (A * errors)) :=
  if r.2 then
    released <-- releaseUse lease;;
    match released, r.1 with
    | Panics, _ | _, Panics => Ret Panics
    | Value (Ok _), Value x => Ret (Value x)
    | Value (Err e), Value (a, errs) => Ret (Value (with_recovery a, errs ++ [e]))
    end
  else Ret r.1.

Definition gateway_recovery (request : GatewayUseRequest) (recoveryID : string) : UseRecoveryBinding :=
  let handle := gq_Handle request in
  MkRecovery (gq_Access request) (ha_destroySandboxAfterUse handle) (ha_secretID handle) (ha_version handle) (ha_exposure handle) "" recoveryID ""
    (gq_Endpoint request) (gq_Audience request).
(** The steps before the lease: a recovery and an admission. *)
Definition gateway_admission (service : Service) (ctx : Context) (request : GatewayUseRequest) : Program (UseRecoveryBinding * UseAdmissionPermit) :=
  _ <- pure (check_ctx ctx);;
  _ <- require (hasGateway service) ErrGatewayUnavailable;;
  _ <- require ((zlen (gq_Payload request) <=? maximumRequestBytes service) && validateEndpoint (gq_Endpoint request)
                && validateBoundedText (gq_Audience request) false) ErrInvalidRequest;;
  _ <- authorizeHandle service (gq_Access request) (gq_Handle request) OperationGatewayUse (gq_Endpoint request) (gq_Audience request) "";;
  recoveryID <-- ask NewOperationID;;
  match recoveryID with
  | None => fail ErrGatewayFailed
  | Some recoveryID =>
      admission <- admitHandleUse (gq_Access request) (gq_Handle request) OperationGatewayUse (gq_Endpoint request) (gq_Audience request) "";;
      give (gateway_recovery request recoveryID, admission)
  end.
Definition UseGateway (service : Service) (ctx : Context) (request : GatewayUseRequest) : Prog SCall (outcome (GatewayResponse * errors)) :=
  admitted <-- gateway_admission service ctx request;;
  match admitted with
  | Panics => Ret Panics
  | Value (Err e) => Ret (Value (no_response, [e]))
  | Value (Ok (recovery, admission)) =>
      begun <-- beginHandleUse service (gq_Access request) (gq_Handle request) recovery admission;;
      match begun with
      | Panics => Ret Panics
      | Value (Err errs) => Ret (Value (if bool_decide (ErrUseReleaseUnconfirmed ∈ errs) then recovery_response recovery else no_response, errs))
      | Value (Ok (record, lease)) =>
          result <-- gateway_body service request recovery record;;
          release_after lease (fun response => MkResponse (gr_Payload response) (Some recovery) (gr_RecoveryDurable response)) result
      end
  end.

(** ** Sandbox uses *)
Definition no_receipt : SandboxCleanupReceipt := MkCleanup "" None false false false.
(** The receipt proves that nothing of the material is left in the sandbox. *)
Definition receipt_clean (receipt : SandboxCleanupReceipt) (invocationID : string) (recovery : UseRecoveryBinding) (exposure : ExposureClass)
    (destroySandboxAfterUse : bool) : bool :=
  (cl_InvocationID receipt == invocationID) && bool_decide (cl_Recovery receipt = Some recovery) && cl_EnvironmentCleared receipt
  && negb ((exposure == ExposureSandboxFile) && negb (cl_FileRemoved receipt)) && negb (destroySandboxAfterUse && negb (cl_SandboxDestroyed receipt)).
Definition quarantine_durable (receipt : SandboxQuarantineReceipt) (permit : SandboxExposurePermit) : bool :=
  qr_Durable receipt && (qr_InvocationID receipt == xp_InvocationID permit) && (qr_RecoveryID receipt == xp_RecoveryID permit)
  && (qr_ResolvedCacheKey receipt == xp_ResolvedCacheKey permit).

(** A cleanup that is not confirmed ends in a quarantine. *)
Definition quarantine_use (dispatch : SandboxDispatch) (permit : SandboxExposurePermit) : Prog SCall (outcome (SandboxCleanupReceipt * option secret_error)) :=
  let unconfirmed := MkCleanup (xp_InvocationID permit) (Some (xp_Recovery permit)) false false false in
  quarantined <-- ask (Quarantine dispatch permit);;
  match quarantined with
  | Panics => Ret Panics
  | Value (Ok receipt) =>
      if quarantine_durable receipt permit then Ret (Value (no_receipt, Some ErrCleanupUnconfirmed))
      else Ret (Value (unconfirmed, Some ErrContainmentUnconfirmed))
  | Value (Err _) => Ret (Value (unconfirmed, Some ErrContainmentUnconfirmed))
  end.
Definition containSandboxUse (dispatch : SandboxDispatch) (permit : SandboxExposurePermit) (exposure : ExposureClass) (destroySandboxAfterUse : bool)
    : Prog SCall (outcome (SandboxCleanupReceipt * option secret_error)) :=
  cleaned <-- ask (Cleanup dispatch permit);;
  match cleaned with
  | Panics => Ret Panics
  | Value (Ok receipt) =>
      if receipt_clean receipt (xp_InvocationID permit) (xp_Recovery permit) exposure destroySandboxAfterUse then Ret (Value (receipt, None))
      else quarantine_use dispatch permit
  | Value (Err _) => quarantine_use dispatch permit
  end.

(** A use that failed: what it returns, and whether its lease is released. *)
Definition contain_and (dispatch : SandboxDispatch) (permit : SandboxExposurePermit) (exposure : ExposureClass) (destroySandboxAfterUse : bool)
    (finish : SandboxCleanupReceipt -> Prog SCall (SandboxCleanupReceipt * errors)) : Prog SCall (Released SandboxCleanupReceipt) :=
  contained <-- containSandboxUse dispatch permit exposure destroySandboxAfterUse;;
  match contained with
  | Panics => Ret (Panics, false)
  | Value (receipt, Some ErrContainmentUnconfirmed) => Ret (Value (receipt, [ErrContainmentUnconfirmed]), false)
  | Value (receipt, Some e) => Ret (Value (receipt, [e]), true)
  | Value (receipt, None) => r <-- finish receipt;; Ret (Value r, true)
  end.
Definition fails_with (e : secret_error) : SandboxCleanupReceipt -> Prog SCall (SandboxCleanupReceipt * errors) := fun _ => Ret (no_receipt, [e]).

(** The error of a refused acquisition; a done context comes first. *)
Definition acquire_failed (e : secret_error) : SandboxCleanupReceipt -> Prog SCall (SandboxCleanupReceipt * errors) := fun _ =>
  err <-- ask ContextErr;;
  match err with
  | Some c => Ret (no_receipt, [c])
  | None =>
      Ret (no_receipt, [if (e == ErrSecretNotFound) || (e == ErrUseLeaseInvalid) then ErrStaleHandle
                        else if e == ErrStoreInUse then ErrStoreInUse else ErrAccessDenied])
  end.

Section use.
Context (service : Service) (request : SandboxUseRequest) (dispatch : SandboxDispatch) (permit : SandboxExposurePermit) (lease : UseLease).
Let access := sq_Access request.
Let handle := sq_Handle request.
Let recovery := xp_Recovery permit.

Definition inject (record : SecretRecord) : Prog SCall (Released SandboxCleanupReceipt) :=
  used <-- ask (Use dispatch permit (MkMaterial (sr_Exposure record) (sr_InjectionName record) (sr_Value record) None));;
  match used with
  | Panics => Ret (Panics, false)
  | Value (Err _) => contain_and dispatch permit (sr_Exposure record) (sr_DestroySandboxAfterUse record) (fails_with ErrSandboxFailed)
  | Value (Ok receipt) =>
      if receipt_clean receipt (sq_InvocationID request) recovery (sr_Exposure record) (sr_DestroySandboxAfterUse record)
      then Ret (Value (receipt, []), true)
      else contain_and dispatch permit (sr_Exposure record) (sr_DestroySandboxAfterUse record) (fun recovered => Ret (recovered, []))
  end.
Definition acquire_and_inject (admission : UseAdmissionPermit) : Prog SCall (Released SandboxCleanupReceipt) :=
  acquired <-- ask (StoreAcquire (MkAcquire (ac_TenantID access) (ha_secretID handle) (ha_version handle) recovery lease admission));;
  match acquired with
  | Panics => Ret (Panics, false)
  | Value (Err e) => contain_and dispatch permit (ha_exposure handle) (ha_destroySandboxAfterUse handle) (acquire_failed e)
  | Value (Ok record) =>
      if record_of_handle service access handle record then inject record
      else contain_and dispatch permit (ha_exposure handle) (ha_destroySandboxAfterUse handle) (fails_with ErrStaleHandle)
  end.
(** From the reservation to the answer. *)
Definition sandbox_body : Prog SCall (Released SandboxCleanupReceipt) :=
  prepared <-- ask (Prepare dispatch recovery);;
  match prepared with
  | Panics => Ret (Panics, false)
  | Value (Err _) => contain_and dispatch permit (ha_exposure handle) (ha_destroySandboxAfterUse handle) (fails_with ErrSandboxFailed)
  | Value (Ok p) =>
      if p != permit then contain_and dispatch permit (ha_exposure handle) (ha_destroySandboxAfterUse handle) (fails_with ErrSandboxFailed)
      else
        admitted <-- admitHandleUse access handle OperationSandboxUse "" "" (sq_InvocationID request);;
        match admitted with
        | Panics => Ret (Panics, false)
        | Value (Err e) => contain_and dispatch permit (ha_exposure handle) (ha_destroySandboxAfterUse handle) (fails_with e)
        | Value (Ok admission) => acquire_and_inject admission
        end
  end.
(** The deferred function that recovers a panic contains the use and panics again. *)
Definition sandbox_use : Prog SCall (Released SandboxCleanupReceipt) :=
  result <-- sandbox_body;;
  match result.1 with
  | Value _ => Ret result
  | Panics =>
      contained <-- containSandboxUse dispatch permit (ha_exposure handle) (ha_destroySandboxAfterUse handle);;
      match contained with
      | Panics => Ret (Panics, result.2)
      | Value (_, Some ErrContainmentUnconfirmed) => Ret (Panics, result.2)
      | Value _ => Ret (Panics, true)
      end
  end.
End use.

(** The fields of the cache key are separated by NUL bytes. *)
Definition nul_join (l : list string) : string := of_bytes (flat_map (fun s => to_bytes s ++ [Ascii.zero]) (take (length l - 1) l) ++ to_bytes (default "" (last l))).
Definition resolved_cache_key (request : SandboxUseRequest) : string :=
  let a := sq_Access request in
  let h := sq_Handle request in
  sha256_text (to_bytes (nul_join [
     "circulusd.sandbox-secret-cache.v3"; sq_BaseCacheKey request; ac_TenantID a; ac_SubjectID a; ac_SessionID a; ac_WorkspaceID a; ac_TurnID a;
     ac_RuntimeRevision a; strconv_Itoa (ac_TurnLeaseGeneration a); strconv_Itoa (ac_PlacementGeneration a); strconv_Itoa (ac_SandboxGeneration a);
     strconv_Itoa (ac_AuthorizationGeneration a); ac_Permission a; ac_ServiceBinding a; RFC3339Nano (ac_AuthorityExpiresAt a); ha_secretID h;
     strconv_Itoa (ha_version h); ha_exposure h; if ha_destroySandboxAfterUse h then "true" else "false"])).

Definition sandbox_dispatch_of (recovery : UseRecoveryBinding) : SandboxDispatch :=
  let a := rb_Access recovery in
  MkSandboxDispatch (ac_TenantID a) (ac_SubjectID a) (ac_SessionID a) (ac_WorkspaceID a) (rb_InvocationID recovery) (rb_ResolvedCacheKey recovery)
    (rb_DestroySandboxAfterUse recovery).
Definition sandbox_permit_of (recovery : UseRecoveryBinding) : SandboxExposurePermit :=
  MkExposurePermit (rb_InvocationID recovery) (rb_RecoveryID recovery) (rb_ResolvedCacheKey recovery) recovery true.
Definition sandbox_recovery (request : SandboxUseRequest) (recoveryID : string) : UseRecoveryBinding :=
  let handle := sq_Handle request in
  MkRecovery (sq_Access request) (ha_destroySandboxAfterUse handle) (ha_secretID handle) (ha_version handle) (ha_exposure handle)
    (sq_InvocationID request) recoveryID (resolved_cache_key request) "" "".

(** The steps before the sandbox is touched: a recovery and a lease that reserves it. *)
Definition sandbox_reservation (service : Service) (ctx : Context) (request : SandboxUseRequest) : Program (UseRecoveryBinding * UseLease) :=
  let access := sq_Access request in
  let handle := sq_Handle request in
  _ <- pure (check_ctx ctx);;
  _ <- require (hasSandbox service) ErrSandboxUnavailable;;
  _ <- require (parses "inv" (sq_InvocationID request) && matches_sha256 (sq_BaseCacheKey request)) ErrInvalidRequest;;
  _ <- authorizeHandle service access handle OperationSandboxUse "" "" (sq_InvocationID request);;
  _ <- require (sandbox_exposure (ha_exposure handle)) ErrExposureDenied;;
  _ <- appendAudit (ha_secretID handle) (ha_version handle) (ha_exposure handle) "" "" access OperationSandboxUse (sq_InvocationID request);;
  recoveryID <-- ask NewOperationID;;
  match recoveryID with
  | None => fail ErrSandboxFailed
  | Some recoveryID =>
      let recovery := sandbox_recovery request recoveryID in
      admission <- admitHandleUse access handle OperationSandboxUse "" "" (sq_InvocationID request);;
      lease <- call_or (StoreReserve (MkBegin (ac_TenantID access) (ha_secretID handle) (ha_version handle) recovery admission))
        (fun e => if e == ErrStoreInUse then ErrStoreInUse else ErrStaleHandle);;
      give (recovery, lease)
  end.
Definition UseSandbox (service : Service) (ctx : Context) (request : SandboxUseRequest) : Prog SCall (outcome (SandboxCleanupReceipt * errors)) :=
  reserved <-- sandbox_reservation service ctx request;;
  match reserved with
  | Panics => Ret Panics
  | Value (Err e) => Ret (Value (no_receipt, [e]))
  | Value (Ok (recovery, lease)) =>
      result <-- sandbox_use service request (sandbox_dispatch_of recovery) (sandbox_permit_of recovery) lease;;
      release_after lease (fun receipt => MkCleanup (sq_InvocationID request) (Some recovery) (cl_FileRemoved receipt) (cl_EnvironmentCleared receipt)
        (cl_SandboxDestroyed receipt)) result
  end.

(** ** Recovery *)
Definition validateRecoveryAuthority (authority : RecoveryAuthority) : bool := parses "tenant" (ra_TenantID authority) && parses "subject" (ra_SubjectID authority).
Definition authorizeRecovery (operation : RecoveryOperation) (authority : RecoveryAuthority) (recovery : option UseRecoveryBinding) : Program unit :=
  call_or (AuthorizeRecovery (MkRecoveryAuthorization operation authority recovery)) (fun _ => ErrRecoveryDenied).
Definition appendRecoveryAudit (operation : RecoveryOperation) (authority : RecoveryAuthority) (tenantID : string) (recovery : option UseRecoveryBinding)
    : Program unit :=
  receipt <- call_or (AppendRecovery (MkRecoveryAudit operation authority tenantID recovery)) (fun _ => ErrRecoveryAuditNotDurable);;
  require (au_Durable receipt && (au_Sequence receipt != 0)) ErrRecoveryAuditNotDurable.
(** The authority, the durable record and the audit of a recovery. *)
Definition recovery_checks (operation : RecoveryOperation) (available : bool) (exposed : ExposureClass -> bool) (ctx : Context)
    (authority : RecoveryAuthority) (recovery : UseRecoveryBinding) : Program unit :=
  _ <- pure (check_ctx ctx);;
  _ <- require (available && validateRecoveryAuthority authority && validateRecoveryBinding recovery && (ra_TenantID authority == rb_TenantID recovery)
                && exposed (rb_Exposure recovery)) ErrInvalidRequest;;
  _ <- authorizeRecovery operation authority (Some recovery);;
  call_or (StoreValidate recovery) (fun _ => ErrUseLeaseInvalid).

Definition RecoverSandbox (service : Service) (ctx : Context) (authority : RecoveryAuthority) (recovery : UseRecoveryBinding)
    : Prog SCall (outcome (option SandboxQuarantineReceipt * option secret_error)) :=
  checked <-- (_ <- recovery_checks RecoveryContainSandbox (hasSandbox service) sandbox_exposure ctx authority recovery;;
               _ <- appendRecoveryAudit RecoveryContainSandbox authority (rb_TenantID recovery) (Some recovery);;
               receipt <- call_or (Quarantine (sandbox_dispatch_of recovery) (sandbox_permit_of recovery)) (fun _ => ErrContainmentUnconfirmed);;
               _ <- require (quarantine_durable receipt (sandbox_permit_of recovery)) ErrContainmentUnconfirmed;;
               give receipt);;
  match checked with
  | Panics => Ret Panics
  | Value (Err e) => Ret (Value (None, Some e))
  | Value (Ok receipt) =>
      completed <-- ask (StoreComplete recovery);;
      match completed with
      | Panics => Ret Panics
      | Value (Err _) => Ret (Value (Some receipt, Some ErrUseReleaseUnconfirmed))
      | Value (Ok _) => Ret (Value (Some receipt, None))
      end
  end.

(** From the audit on, the recovery is returned with every error. *)
Definition RecoverGateway (service : Service) (ctx : Context) (authority : RecoveryAuthority) (recovery : UseRecoveryBinding)
    : Prog SCall (outcome (option UseRecoveryBinding * option secret_error)) :=
  checked <-- recovery_checks RecoveryReleaseGateway (hasGateway service) gateway_exposure ctx authority recovery;;
  match checked with
  | Panics => Ret Panics
  | Value (Err e) => Ret (Value (None, Some e))
  | Value (Ok _) =>
      released <-- (_ <- appendRecoveryAudit RecoveryReleaseGateway authority (rb_TenantID recovery) (Some recovery);;
                    receipt <- call_or (RecoverDispatch recovery) (fun _ => ErrGatewayRecoveryUnconfirmed);;
                    _ <- require (gv_Durable receipt && gv_SafeToRelease receipt && bool_decide (gv_Recovery receipt = Some recovery))
                           ErrGatewayRecoveryUnconfirmed;;
                    call_or (StoreComplete recovery) (fun _ => ErrUseReleaseUnconfirmed));;
      match released with
      | Panics => Ret Panics
      | Value (Err e) => Ret (Value (Some recovery, Some e))
      | Value (Ok _) => Ret (Value (Some recovery, None))
      end
  end.

Definition ListPendingRecoveries (ctx : Context) (request : PendingRecoveryRequest) : Program PendingUseRecoveryPage :=
  let authority := pr_Authority request in
  _ <- pure (check_ctx ctx);;
  _ <- require (validateRecoveryAuthority authority) ErrInvalidRequest;;
  _ <- authorizeRecovery RecoveryListPending authority None;;
  _ <- appendRecoveryAudit RecoveryListPending authority (ra_TenantID authority) None;;
  ask (StoreList (MkQuery (ra_TenantID authority) (pr_AfterRecoveryID request) (pr_Limit request))).
End programs.
