(* ===== verification/SecretStore.v ===== *)
(** * The secret store: leases, recoveries and one-time material

    The tables of the store agree: every lease has its recovery, its active record and the
    only use of its secret.  Material is returned at most once per recovery. *)

From S2P Require Import Prelude MapSums GoText Identity Secret.
#[local] Open Scope string_scope.
#[local] Open Scope list_scope.
#[local] Open Scope Z_scope.
#[local] Open Scope go_scope.

Definition lease_key (l : UseLease) : string := store_key (ul_TenantID l) (ul_SecretID l).
(** The record of the lease is active, at the version of the lease. *)
Definition fences (s : MemoryStore) (l : UseLease) : Prop :=
  activeByKey s !! lease_key l = Some 1 /\ exists record, records s !! lease_key l = Some record /\ sr_Active record = true /\ sr_Version record = ul_Version l.
(** The recovery is bound to the lease. *)
Definition bound (s : MemoryStore) (id : string) (l : UseLease) (r : UseRecoveryBinding) : Prop :=
  recoveryByLease s !! id = Some r /\ leaseByRecoveryID s !! rb_RecoveryID r = Some id /\
  rb_TenantID r = ul_TenantID l /\ rb_SecretID r = ul_SecretID l /\ rb_SecretVersion r = ul_Version l.

Record store_ok (s : MemoryStore) : Prop := MkStoreOk {
  so_lease : forall id l, leases s !! id = Some l -> ul_LeaseID l = id /\ fences s l /\ exists r, bound s id l r;
  so_active : forall key n, activeByKey s !! key = Some n -> exists id l, leases s !! id = Some l /\ lease_key l = key;
  so_one : forall id l id' l', leases s !! id = Some l -> leases s !! id' = Some l' -> lease_key l = lease_key l' -> id = id';
  so_recovery : forall id r, recoveryByLease s !! id = Some r -> is_Some (leases s !! id);
  so_op : forall id r, recoveryByLease s !! id = Some r -> parses "op" (rb_RecoveryID r) = true;
  so_rid : forall rid id, leaseByRecoveryID s !! rid = Some id -> exists r, recoveryByLease s !! id = Some r /\ rb_RecoveryID r = rid;
  so_done : forall rid r, completedRecoveries s !! rid = Some r -> rb_RecoveryID r = rid /\ leaseByRecoveryID s !! rid = None;
}.

Lemma store_initial : store_ok NewMemoryStore.
Proof. constructor; by intros. Qed.

(** A secret without a lease has the count 0. *)
Lemma idle_key s key : store_ok s -> active_count s key = 0 -> activeByKey s !! key = None.
Proof.
  intros Hok H. unfold active_count in H. destruct (activeByKey s !! key) as [n|] eqn:Hk; [|done]. simpl in H.
  destruct (so_active _ Hok _ _ Hk) as (id & l & Hl & <-). destruct (so_lease _ Hok _ _ Hl) as (_ & [Hone _] & _). congruence.
Qed.
Lemma recovery_bound s id r : store_ok s -> recoveryByLease s !! id = Some r -> exists l, leases s !! id = Some l /\ bound s id l r.
Proof.
  intros Hok Hr. destruct (so_recovery _ Hok _ _ Hr) as [l Hl]. exists l. split; [done|].
  destruct (so_lease _ Hok _ _ Hl) as (_ & _ & r' & Hb). destruct Hb as (Hr' & Hrest). rewrite Hr in Hr'. injection Hr' as <-. by split.
Qed.

Section store.
Context `{N : Normalizer}.

(** ** A use begins *)
Definition add_lease (s : MemoryStore) (l : UseLease) (r : UseRecoveryBinding) (acquire : bool) : MemoryStore :=
  MkStore (records s) (<[ul_LeaseID l := l]> (leases s)) (<[lease_key l := 1]> (activeByKey s)) (<[ul_LeaseID l := r]> (recoveryByLease s))
    (<[rb_RecoveryID r := ul_LeaseID l]> (leaseByRecoveryID s)) (completedRecoveries s) (<[ul_LeaseID l := acquire]> (acquiredByLease s)).

(** The recovery is neither pending nor completed. *)
Definition fresh (s : MemoryStore) (rid : string) : Prop := leaseByRecoveryID s !! rid = None /\ completedRecoveries s !! rid = None.

Lemma begin_use_ok ctx locked leaseID now s q acquire record l s' : store_ok s ->
  begin_use ctx locked leaseID now s q acquire = Ok (record, l, s') ->
  leaseID = Some (ul_LeaseID l) /\ leases s !! ul_LeaseID l = None /\ fresh s (rb_RecoveryID (bu_Recovery q)) /\
  activeByKey s !! lease_key l = None /\ records s !! lease_key l = Some record /\ sr_Active record = true /\ sr_Version record = ul_Version l /\
  admissionMatchesRecovery (bu_Admission q) (bu_Recovery q) (bu_TenantID q) (bu_SecretID q) now = true /\
  ul_TenantID l = bu_TenantID q /\ ul_SecretID l = bu_SecretID q /\ ul_Version l = bu_ExpectedVersion q /\
  recovery_matches (bu_Recovery q) (ul_TenantID l) (ul_SecretID l) (ul_Version l) = true /\
  s' = add_lease s l (bu_Recovery q) acquire.
Proof.
  intros Hok H. unfold begin_use in H. apply bind_ok in H as ([] & _ & H). apply reject_if_ok in H as [Hm H]. apply negb_false_iff in Hm.
  destruct leaseID as [leaseID|]; [|done]. apply bind_ok in H as ([] & _ & H). apply reject_if_ok in H as [Ha H]. apply negb_false_iff in Ha.
  apply bind_ok in H as ([] & Hp & H). destruct (leaseByRecoveryID s !! _) as [|] eqn:Hrid; [exfalso; case_match; discriminate|]. clear Hp.
  apply reject_if_ok in H as [Hc H]. apply bool_decide_eq_false in Hc. rewrite <- eq_None_not_Some in Hc.
  apply bind_ok in H as (record' & Hu & H). apply reject_if_ok in H as [Hact H]. apply neq_test_false in Hact.
  apply reject_if_ok in H as [Hl H]. apply bool_decide_eq_false in Hl. rewrite <- eq_None_not_Some in Hl. injection H as <- <- <-.
  unfold usable in Hu. destruct (records s !! _) as [found|] eqn:Hrec; [|done]. apply reject_if_ok in Hu as [Hver Hu]. apply reject_if_ok in Hu as [_ Hu].
  injection Hu as ->. bools in Hver. destruct Hver as [Hactive Hver]. split_and!; try done; simpl.
  - by apply idle_key.
  - by rewrite Hact.
Qed.

Lemma add_lease_ok s l r (acquire : bool) record : store_ok s -> leases s !! ul_LeaseID l = None -> fresh s (rb_RecoveryID r) ->
  activeByKey s !! lease_key l = None -> records s !! lease_key l = Some record -> sr_Active record = true -> sr_Version record = ul_Version l ->
  rb_TenantID r = ul_TenantID l -> rb_SecretID r = ul_SecretID l -> rb_SecretVersion r = ul_Version l ->
  parses "op" (rb_RecoveryID r) = true -> store_ok (add_lease s l r acquire).
Proof.
  intros Hok Hl [Hf Hc] Hact Hrec Hactive Hver Ht Hs Hv Hop. constructor; simpl.
  - intros id l' [[<- <-]|[Hne Hl']]%lookup_insert_Some.
    + split; [done|]. split; [split; simpl; [apply lookup_insert_eq|by exists record]|]. exists r. split_and!; simpl; try done; apply lookup_insert_eq.
    + destruct (so_lease _ Hok _ _ Hl') as (Hid & [Hone Hr] & r' & Hb1 & Hb2 & Hb3). split; [done|]. split.
      * split; [|done]. simpl. rewrite lookup_insert_ne; [done|]. intros Heq. rewrite Heq in Hact. congruence.
      * exists r'. split_and!; simpl; try apply Hb3; [by rewrite lookup_insert_ne|]. rewrite lookup_insert_ne; [done|]. congruence.
  - intros key n [[<- <-]|[Hne Hn]]%lookup_insert_Some; [exists (ul_LeaseID l), l; by rewrite lookup_insert_eq|].
    destruct (so_active _ Hok _ _ Hn) as (id & l' & Hl' & <-). exists id, l'. rewrite lookup_insert_ne; [done|]. congruence.
  - intros id l1 id' l2 [[<- <-]|[Hne1 H1]]%lookup_insert_Some [[<- <-]|[Hne2 H2]]%lookup_insert_Some Hk; try done.
    + destruct (so_lease _ Hok _ _ H2) as (_ & [Hone _] & _). congruence.
    + destruct (so_lease _ Hok _ _ H1) as (_ & [Hone _] & _). congruence.
    + by apply (so_one _ Hok _ l1 _ l2).
  - intros id r' [[<- <-]|[Hne Hr]]%lookup_insert_Some; [rewrite lookup_insert_eq; by eexists|].
    rewrite lookup_insert_ne by done. by apply (so_recovery _ Hok id r').
  - intros id r' [[_ <-]|[_ Hr]]%lookup_insert_Some; [done|]. by apply (so_op _ Hok id).
  - intros rid id [[<- <-]|[Hne Hr]]%lookup_insert_Some; [exists r; by rewrite lookup_insert_eq|].
    destruct (so_rid _ Hok _ _ Hr) as (r' & Hr' & Hrid). exists r'. split; [|done]. rewrite lookup_insert_ne; [done|].
    intros <-. destruct (so_recovery _ Hok _ _ Hr') as [l' Hl']. congruence.
  - intros rid r' Hd. destruct (so_done _ Hok _ _ Hd) as [Hrid Hnone]. split; [done|]. rewrite lookup_insert_ne; [done|]. congruence.
Qed.

(** ** A use ends *)
Lemma end_lease_ok s l r : store_ok s -> leases s !! ul_LeaseID l = Some l -> recoveryByLease s !! ul_LeaseID l = Some r ->
  store_ok (end_lease s l (Some r)) /\ activeByKey (end_lease s l (Some r)) = delete (lease_key l) (activeByKey s).
Proof.
  intros Hok Hl Hr. destruct (so_lease _ Hok _ _ Hl) as (_ & [Hone _] & r' & Hb1 & Hb2 & _). rewrite Hr in Hb1. injection Hb1 as <-.
  assert (Hact : activeByKey (end_lease s l (Some r)) = delete (lease_key l) (activeByKey s)).
  { unfold end_lease, active_count. simpl. fold (lease_key l). by rewrite Hone. }
  split; [|done].
  assert (Hother : forall id l', leases s !! id = Some l' -> id <> ul_LeaseID l -> lease_key l' <> lease_key l).
  { intros id l' Hl' Hne Hk. apply Hne. by apply (so_one _ Hok _ l' _ l). }
  assert (Hrid : forall id l' r', leases s !! id = Some l' -> id <> ul_LeaseID l -> bound s id l' r' -> rb_RecoveryID r' <> rb_RecoveryID r).
  { intros id l' r' Hl' Hne (_ & H2 & _) Heq. apply Hne. congruence. }
  constructor.
  - intros id l' Hl'. simpl in Hl'. apply lookup_delete_Some in Hl' as [Hne Hl']. destruct (so_lease _ Hok _ _ Hl') as (Hid & [Ho Hrec] & r' & Hb).
    split; [done|]. split.
    + split; [|done]. rewrite Hact. rewrite lookup_delete_ne; [done|]. intros Heq. by apply (Hother id l' Hl' (not_eq_sym Hne)).
    + exists r'. assert (Hne' := Hrid id l' r' Hl' (not_eq_sym Hne) Hb). destruct Hb as (Hb3 & Hb4 & Hb5). split_and!; simpl; try apply Hb5.
      * by rewrite lookup_delete_ne.
      * by rewrite lookup_delete_ne.
  - intros key n. rewrite Hact. intros [Hne Hn]%lookup_delete_Some. destruct (so_active _ Hok _ _ Hn) as (id & l' & Hl' & <-).
    exists id, l'. split; [|done]. simpl. rewrite lookup_delete_ne; [done|]. intros <-. congruence.
  - intros id l1 id' l2. simpl. intros [_ H1]%lookup_delete_Some [_ H2]%lookup_delete_Some. by apply (so_one _ Hok).
  - intros id r'. simpl. intros [Hne Hr']%lookup_delete_Some. rewrite lookup_delete_ne by done. by apply (so_recovery _ Hok _ r').
  - intros id r'. simpl. intros [_ Hr']%lookup_delete_Some. by apply (so_op _ Hok id).
  - intros rid id. simpl. intros [Hne Hi]%lookup_delete_Some. destruct (so_rid _ Hok _ _ Hi) as (r' & Hr' & <-). exists r'. split; [|done].
    rewrite lookup_delete_ne; [done|]. intros <-. congruence.
  - intros rid r'. simpl. intros [[<- <-]|[Hne Hd]]%lookup_insert_Some; [split; [done|apply lookup_delete_eq]|].
    destruct (so_done _ Hok _ _ Hd) as [Hid Hnone]. split; [done|]. by rewrite lookup_delete_ne.
Qed.

Lemma EndUse_effect ctx locked s l a s' : store_ok s -> EndUse ctx locked s l = (a, s') ->
  (s' = s /\ exists e, a = Err e) \/
  (a = Ok tt /\ leases s !! ul_LeaseID l = Some l /\ exists r, recoveryByLease s !! ul_LeaseID l = Some r /\ s' = end_lease s l (Some r)).
Proof.
  intros Hok H. unfold EndUse in H. destruct (_ ≫= _) as [[]|e] eqn:Hc; injection H as <- <-; [right|left; eauto].
  apply bind_ok in Hc as ([] & _ & Hc). apply bind_ok in Hc as ([] & _ & Hc). unfold reject_if in Hc. case_match eqn:Hl; [done|].
  apply neq_test_false in Hl. split; [done|]. split; [done|]. destruct (so_lease _ Hok _ _ Hl) as (_ & _ & r & Hr & _). exists r. split; [done|]. by rewrite Hr.
Qed.

Lemma CompleteUseRecovery_effect ctx locked s r a s' : store_ok s -> CompleteUseRecovery ctx locked s r = (a, s') ->
  (s' = s /\ (a = Ok tt -> completedRecoveries s !! rb_RecoveryID r = Some r)) \/
  (a = Ok tt /\ exists l, leases s !! ul_LeaseID l = Some l /\ recoveryByLease s !! ul_LeaseID l = Some r /\ s' = end_lease s l (Some r)).
Proof.
  intros Hok H. unfold CompleteUseRecovery in H. destruct (complete_use_recovery ctx locked s r) as [s1|e] eqn:Hc; injection H as <- <-; [|by left].
  unfold complete_use_recovery in Hc. apply bind_ok in Hc as ([] & _ & Hc). apply reject_if_ok in Hc as [_ Hc]. apply bind_ok in Hc as ([] & _ & Hc).
  destruct (completedRecoveries s !! rb_RecoveryID r) as [done_|] eqn:Hd.
  { apply reject_if_ok in Hc as [Heq Hc]. apply neq_test_false in Heq as ->. injection Hc as <-. by left. }
  destruct (pending_lease s r) as [l|] eqn:Hp; [|done]. apply reject_if_ok in Hc as [_ Hc]. injection Hc as <-. right. split; [done|].
  unfold pending_lease in Hp. destruct (leaseByRecoveryID s !! rb_RecoveryID r) as [id|] eqn:Hid; [|done]. simpl in Hp. case_bool_decide as Hr; [|done].
  destruct (so_lease _ Hok _ _ Hp) as (<- & _). by exists l.
Qed.

Lemma AcquireReservedUse_effect ctx locked now s q a s' : store_ok s -> AcquireReservedUse ctx locked now s q = (a, s') ->
  (s' = s /\ exists e, a = Err e) \/
  (exists record, a = Ok record /\ leases s !! ul_LeaseID (aq_Lease q) = Some (aq_Lease q) /\ recoveryByLease s !! ul_LeaseID (aq_Lease q) = Some (aq_Recovery q) /\
    default false (acquiredByLease s !! ul_LeaseID (aq_Lease q)) = false /\ records s !! lease_key (aq_Lease q) = Some record /\
    admissionMatchesRecovery (aq_Admission q) (aq_Recovery q) (aq_TenantID q) (aq_SecretID q) now = true /\
    s' = MkStore (records s) (leases s) (activeByKey s) (recoveryByLease s) (leaseByRecoveryID s) (completedRecoveries s)
      (<[ul_LeaseID (aq_Lease q) := true]> (acquiredByLease s))).
Proof.
  intros Hok H. unfold AcquireReservedUse in H. destruct (acquire_reserved_use ctx locked now s q) as [[record s1]|e] eqn:Hc; injection H as <- <-; [right|left; eauto].
  exists record. split; [done|]. unfold acquire_reserved_use in Hc. apply bind_ok in Hc as ([] & _ & Hc). apply reject_if_ok in Hc as [_ Hc].
  apply bind_ok in Hc as ([] & _ & Hc). apply reject_if_ok in Hc as [Ha Hc]. apply negb_false_iff in Ha. apply reject_if_ok in Hc as [Hl Hc].
  apply reject_if_ok in Hc as [Hr Hc]. apply reject_if_ok in Hc as [Hq Hc]. apply bind_ok in Hc as (record' & Hu & Hc). injection Hc as -> <-.
  bools in Hl. destruct Hl as [[[Hl Ht] Hs] Hv]. bools in Hr. destruct Hr as [Hr _]. split_and!; try done.
  unfold lease_key. rewrite Ht, Hs. unfold usable in Hu. destruct (records s !! _) as [found|]; [|done].
  apply reject_if_ok in Hu as [_ Hu]. apply reject_if_ok in Hu as [_ Hu]. congruence.
Qed.

(** ** A record in use stays *)
Lemma CompareAndSwap_effect ctx locked s version next a s' : CompareAndSwap ctx locked s version next = (a, s') ->
  (s' = s /\ exists e, a = Err e) \/
  (a = Ok tt /\ active_count s (store_key (sr_TenantID next) (sr_SecretID next)) = 0 /\
   exists record, s' = put_record s (store_key (sr_TenantID next) (sr_SecretID next)) record).
Proof.
  intros H. unfold CompareAndSwap in H. destruct (compare_and_swap ctx locked s version next) as [s1|e] eqn:Hc; injection H as <- <-; [right|left; eauto].
  split; [done|]. unfold compare_and_swap in Hc. apply bind_ok in Hc as ([] & _ & Hc). apply reject_if_ok in Hc as [_ Hc]. cbn zeta in Hc.
  apply bind_ok in Hc as ([] & _ & Hc). apply reject_if_ok in Hc as [_ Hc]. apply reject_if_ok in Hc as [Ha Hc]. apply neq_test_false in Ha.
  injection Hc as <-. split; [done|]. by eexists.
Qed.
Lemma put_record_ok s key record : store_ok s -> active_count s key = 0 -> store_ok (put_record s key record).
Proof.
  intros Hok H0. apply idle_key in H0; [|done]. constructor; try apply Hok. intros id l Hl. destruct (so_lease _ Hok _ _ Hl) as (Hid & [Hone Hrec] & Hb).
  split; [done|]. split; [|done]. split; [done|]. simpl. rewrite lookup_insert_ne; [done|]. intros ->. congruence.
Qed.

Lemma acquired_ok s m : store_ok s ->
  store_ok (MkStore (records s) (leases s) (activeByKey s) (recoveryByLease s) (leaseByRecoveryID s) (completedRecoveries s) m).
Proof. intros Hok. constructor; apply Hok. Qed.

(** ** Sequences of operations *)
Inductive store_op :=
| OpSwap (ctx locked : option secret_error) (expectedVersion : Z) (next : SecretRecord)
| OpBegin (ctx locked : option secret_error) (leaseID : option string) (now : time) (q : BeginUseRequest)
| OpReserve (ctx locked : option secret_error) (leaseID : option string) (now : time) (q : BeginUseRequest)
| OpAcquire (ctx locked : option secret_error) (now : time) (q : AcquireReservedUseRequest)
| OpEnd (ctx locked : option secret_error) (lease : UseLease)
| OpComplete (ctx locked : option secret_error) (recovery : UseRecoveryBinding).
(** The recovery whose material the operation returns, if any, and the store after it. *)
Definition apply_op (s : MemoryStore) (op : store_op) : option string * MemoryStore :=
  match op with
  | OpSwap ctx locked version next => (None, (CompareAndSwap ctx locked s version next).2)
  | OpBegin ctx locked leaseID now q =>
      let '(a, s') := BeginUse ctx locked leaseID now s q in (match a with Ok _ => Some (rb_RecoveryID (bu_Recovery q)) | Err _ => None end, s')
  | OpReserve ctx locked leaseID now q => (None, (ReserveUse ctx locked leaseID now s q).2)
  | OpAcquire ctx locked now q =>
      let '(a, s') := AcquireReservedUse ctx locked now s q in (match a with Ok _ => Some (rb_RecoveryID (aq_Recovery q)) | Err _ => None end, s')
  | OpEnd ctx locked lease => (None, (EndUse ctx locked s lease).2)
  | OpComplete ctx locked recovery => (None, (CompleteUseRecovery ctx locked s recovery).2)
  end.
Fixpoint returned (s : MemoryStore) (ops : list store_op) : list (option string) :=
  match ops with [] => [] | op :: rest => let '(out, s') := apply_op s op in out :: returned s' rest end.

(** The material of the recovery has been returned, or never will be. *)
Definition spent (s : MemoryStore) (rid : string) : bool :=
  match leaseByRecoveryID s !! rid with
  | Some id => default false (acquiredByLease s !! id)
  | None => bool_decide (is_Some (completedRecoveries s !! rid))
  end.
Definition spends (s : MemoryStore) (out : option string) (s' : MemoryStore) : Prop :=
  store_ok s' /\ (forall rid, spent s rid = true -> spent s' rid = true /\ out <> Some rid) /\ forall rid, out = Some rid -> spent s' rid = true.

Lemma spends_nothing s : store_ok s -> spends s None s.
Proof. by split. Qed.
Lemma begin_spends s l r (acquire : bool) record : store_ok s -> leases s !! ul_LeaseID l = None -> fresh s (rb_RecoveryID r) ->
  activeByKey s !! lease_key l = None -> records s !! lease_key l = Some record -> sr_Active record = true -> sr_Version record = ul_Version l ->
  rb_TenantID r = ul_TenantID l -> rb_SecretID r = ul_SecretID l -> rb_SecretVersion r = ul_Version l ->
  parses "op" (rb_RecoveryID r) = true -> spends s (if acquire then Some (rb_RecoveryID r) else None) (add_lease s l r acquire).
Proof.
  intros Hok Hl Hf Hact Hrec Hactive Hver Ht Hs Hv Hop. split; [by eapply add_lease_ok|].
  assert (Hnot : spent s (rb_RecoveryID r) = false).
  { destruct Hf as [Hf1 Hf2]. unfold spent. rewrite Hf1. apply bool_decide_eq_false. by rewrite Hf2, <- eq_None_not_Some. }
  split.
  - intros rid Hspent. assert (Hne : rb_RecoveryID r <> rid) by congruence. split; [|by destruct acquire; congruence]. unfold spent in *. simpl.
    rewrite lookup_insert_ne by done. destruct (leaseByRecoveryID s !! rid) as [id|] eqn:Hid; [|done]. destruct (so_rid _ Hok _ _ Hid) as (r' & Hr' & _).
    destruct (so_recovery _ Hok _ _ Hr') as [l' Hl']. rewrite lookup_insert_ne; [done|]. congruence.
  - destruct acquire; [|done]. intros rid [= <-]. unfold spent. simpl. by rewrite !lookup_insert_eq.
Qed.
Lemma end_spends s l r : store_ok s -> leases s !! ul_LeaseID l = Some l -> recoveryByLease s !! ul_LeaseID l = Some r -> spends s None (end_lease s l (Some r)).
Proof.
  intros Hok Hl Hr. split; [by apply end_lease_ok|]. split; [|done]. intros rid Hspent. split; [|done]. unfold spent in *. simpl.
  destruct (decide (rb_RecoveryID r = rid)) as [<-|Hne].
  { rewrite lookup_delete_eq, lookup_insert_eq. by apply bool_decide_eq_true. }
  rewrite lookup_delete_ne, lookup_insert_ne by done. destruct (leaseByRecoveryID s !! rid) as [id|] eqn:Hid; [|done].
  rewrite lookup_delete_ne; [done|]. intros <-. destruct (so_rid _ Hok _ _ Hid) as (r' & Hr' & <-). congruence.
Qed.

Lemma recovery_op r : validateRecoveryBinding r = true -> parses "op" (rb_RecoveryID r) = true.
Proof. unfold validateRecoveryBinding. intros H. apply andb_prop in H as [H _]. by apply andb_prop in H as [_ H]. Qed.
Lemma begin_use_spends ctx locked leaseID now s q (acquire : bool) record l s' : store_ok s -> begin_use ctx locked leaseID now s q acquire = Ok (record, l, s') ->
  spends s (if acquire then Some (rb_RecoveryID (bu_Recovery q)) else None) s'.
Proof.
  intros Hok H. destruct (begin_use_ok _ _ _ _ _ _ _ _ _ _ Hok H) as (_ & Hl & Hf & Hact & Hrec & Hactive & Hver & _ & _ & _ & _ & Hm & ->).
  unfold recovery_matches in Hm. bools in Hm. destruct Hm as [[[Ht Hs] Hv] Hvalid].
  eapply begin_spends; try done. by apply recovery_op.
Qed.
Lemma apply_op_spends s op : store_ok s -> spends s (apply_op s op).1 (apply_op s op).2.
Proof.
  intros Hok. destruct op as [ctx locked v next|ctx locked id now q|ctx locked id now q|ctx locked now q|ctx locked l|ctx locked r]; simpl.
  - destruct (CompareAndSwap ctx locked s v next) as [a s'] eqn:H. apply CompareAndSwap_effect in H as [[-> _]|(_ & H0 & record & ->)]; [by apply spends_nothing|].
    by split; [apply put_record_ok|].
  - unfold BeginUse. destruct (begin_use ctx locked id now s q true) as [[[record l] s']|e] eqn:H; [|by apply spends_nothing].
    exact (begin_use_spends _ _ _ _ _ _ _ _ _ _ Hok H).
  - unfold ReserveUse. destruct (begin_use ctx locked id now s q false) as [[[record l] s']|e] eqn:H; [|by apply spends_nothing].
    exact (begin_use_spends _ _ _ _ _ _ _ _ _ _ Hok H).
  - destruct (AcquireReservedUse ctx locked now s q) as [a s'] eqn:H.
    apply AcquireReservedUse_effect in H as [[-> [e ->]]|(record & -> & Hl & Hr & Ha & _ & _ & ->)]; [by apply spends_nothing| |done].
    destruct (so_lease _ Hok _ _ Hl) as (_ & _ & r' & Hr' & Hrid & _). rewrite Hr in Hr'. injection Hr' as <-.
    split; [by apply acquired_ok|]. unfold spent. simpl. split.
    + intros rid Hspent. split.
      * destruct (leaseByRecoveryID s !! rid) as [id|]; [|done]. destruct (decide (ul_LeaseID (aq_Lease q) = id)) as [<-|]; [by rewrite lookup_insert_eq|].
        by rewrite lookup_insert_ne.
      * intros [= <-]. rewrite Hrid in Hspent. congruence.
    + intros rid [= <-]. by rewrite Hrid, lookup_insert_eq.
  - destruct (EndUse ctx locked s l) as [a s'] eqn:H. apply EndUse_effect in H as [[-> _]|(_ & Hl & r & Hr & ->)]; [by apply spends_nothing| |done].
    by apply end_spends.
  - destruct (CompleteUseRecovery ctx locked s r) as [a s'] eqn:H. apply CompleteUseRecovery_effect in H as [[-> _]|(_ & l & Hl & Hr & ->)];
      [by apply spends_nothing| |done]. by apply end_spends.
Qed.

Definition times (rid : string) (outs : list (option string)) : nat := length (filter (fun o => o = Some rid) outs).
Lemma returned_bound s ops rid : store_ok s -> (times rid (returned s ops) <= if spent s rid then 0 else 1)%nat.
Proof.
  revert s. induction ops as [|op ops IH]; intros s Hok; simpl; [unfold times; simpl; case_match; lia|]. destruct (apply_op_spends s op Hok) as (Hok' & Hkeep & Hout).
  destruct (apply_op s op) as [out s']. simpl in *. specialize (IH s' Hok'). unfold times in *. rewrite filter_cons.
  destruct (spent s rid) eqn:Hs.
  - destruct (Hkeep rid Hs) as [Hs' Hne]. rewrite Hs' in IH. by rewrite decide_False.
  - destruct (decide (out = Some rid)) as [Heq|_]; [rewrite (Hout rid Heq) in IH; simpl; lia|]. destruct (spent s' rid); lia.
Qed.

(** C24: over any sequence of writes, uses, reservations, acquisitions, releases and
    recoveries, with any clocks, contexts and lease identifiers, the store returns the
    material of a recovery at most once. *)
Theorem material_returned_once (ops : list store_op) (rid : string) :
  (length (filter (fun out => out = Some rid) (returned NewMemoryStore ops)) <= 1)%nat.
Proof. pose proof (returned_bound NewMemoryStore ops rid store_initial) as H. unfold times in H. destruct (spent NewMemoryStore rid); lia. Qed.

Definition run_ops (ops : list store_op) : MemoryStore := foldl (fun s op => (apply_op s op).2) NewMemoryStore ops.
Lemma run_ops_ok ops : store_ok (run_ops ops).
Proof.
  unfold run_ops. generalize NewMemoryStore, store_initial. induction ops as [|op ops IH]; intros s Hok; [done|]. simpl. apply IH. by apply apply_op_spends.
Qed.

(** ** Pages of pending recoveries *)
Definition values (s : MemoryStore) : list UseRecoveryBinding := map snd (map_to_list (recoveryByLease s)).
(** The reference: the pending recoveries of the tenant, in order. *)
Definition pending_of (s : MemoryStore) (tenantID : string) : list UseRecoveryBinding :=
  sort_by bytes_lt recovery_rank (filter (fun r => rb_TenantID r = tenantID) (values s)).

Lemma values_nodup s : store_ok s -> NoDup (map recovery_rank (values s)).
Proof.
  intros Hok. unfold values. rewrite map_map. apply NoDup_fmap_2_strong; [|apply NoDup_map_to_list].
  intros [id r] [id' r'] H1%elem_of_map_to_list H2%elem_of_map_to_list Heq. simpl in Heq. apply (inj to_bytes) in Heq.
  destruct (recovery_bound _ _ _ Hok H1) as (l & _ & _ & Hr & _), (recovery_bound _ _ _ Hok H2) as (l' & _ & _ & Hr' & _).
  assert (id = id') as -> by congruence. by rewrite H1 in H2; injection H2 as ->.
Qed.
Definition after_rank (after : string) (r : UseRecoveryBinding) : Prop := bytes_lt (to_bytes after) (recovery_rank r).
Lemma scan_exact s q : store_ok s ->
  foldl (keep_recovery q) [] (values s) =
  take (Z.to_nat (pq_Limit q + 1)) (filter (after_rank (pq_AfterRecoveryID q)) (pending_of s (pq_TenantID q))).
Proof.
  intros Hok. pose proof (values_nodup s Hok) as Hnd. set (matching r := rb_TenantID r = pq_TenantID q /\ after_rank (pq_AfterRecoveryID q) r).
  assert (Hscan : forall l page, foldl (keep_recovery q) page l =
    foldl (fun page x => take (Z.to_nat (pq_Limit q + 1)) (sort_by bytes_lt recovery_rank (page ++ [x]))) page (filter matching l)).
  { induction l as [|r l IH]; intros page; [done|]. simpl. rewrite IH. unfold keep_recovery at 1. rewrite filter_cons. unfold matching at 2.
    destruct (decide _) as [Hm|Hm]; [by rewrite bool_decide_true|by rewrite bool_decide_false]. }
  rewrite Hscan, bounded_scan by (apply _ || by apply nodup_filter). f_equal. unfold pending_of.
  rewrite <- (sort_by_id bytes_lt recovery_rank (filter (after_rank _) _)).
  - apply sort_by_unique; [apply _..|by apply nodup_filter|]. rewrite sort_by_perm. unfold matching. rewrite list_filter_filter.
    apply reflexive_eq, list_filter_iff. intros r. tauto.
  - apply sorted_filter. by apply sort_by_strict; [apply _..|apply nodup_filter].
Qed.

(** A caller follows the cursors. *)
Fixpoint follow_pages (fuel : nat) (s : MemoryStore) (tenantID after : string) (limit : Z) : list (list UseRecoveryBinding) :=
  match fuel with
  | O => []
  | S fuel =>
      match ListPendingUseRecoveries None None s (MkQuery tenantID after limit) with
      | Err _ => []
      | Ok page => pp_Recoveries page :: (if pp_NextAfterRecoveryID page == "" then [] else follow_pages fuel s tenantID (pp_NextAfterRecoveryID page) limit)
      end
  end.

Lemma pending_sorted s tenantID : store_ok s -> StronglySorted bytes_lt (map recovery_rank (pending_of s tenantID)).
Proof. intros Hok. by apply sort_by_strict; [apply _..|apply nodup_filter, values_nodup]. Qed.
Lemma pending_op s tenantID r : store_ok s -> r ∈ pending_of s tenantID -> parses "op" (rb_RecoveryID r) = true.
Proof.
  intros Hok Hr. unfold pending_of in Hr. rewrite sort_by_perm in Hr. apply list_elem_of_filter in Hr as [_ Hr].
  apply list_elem_of_fmap in Hr as ([id r'] & -> & Hr). apply elem_of_map_to_list in Hr. by apply (so_op _ Hok id).
Qed.
(** What a cursor leaves. *)
Lemma after_suffix (l1 l2 : list UseRecoveryBinding) x : StronglySorted bytes_lt (map recovery_rank (l1 ++ x :: l2)) ->
  filter (after_rank (rb_RecoveryID x)) (l1 ++ x :: l2) = l2.
Proof.
  intros Hs. rewrite filter_app. assert (filter (after_rank (rb_RecoveryID x)) l1 = []) as ->.
  { apply filter_none. intros y Hy Hlt. induction l1 as [|z l1 IH]; [by apply not_elem_of_nil in Hy|].
    simpl in Hs. apply StronglySorted_cons in Hs as [Hz Hs]. apply elem_of_cons in Hy as [->|Hy]; [|by apply IH].
    rewrite map_app in Hz. apply Forall_app in Hz as [_ Hz]. apply Forall_cons in Hz as [Hz _].
    apply (irreflexivity bytes_lt (recovery_rank x)). by trans (recovery_rank z). }
  simpl. induction l1 as [|z l1 IH]; [|simpl in Hs; apply StronglySorted_cons in Hs as [_ Hs]; by apply IH].
  simpl in Hs. apply StronglySorted_cons in Hs as [Hx _]. rewrite filter_cons, decide_False by apply (irreflexivity bytes_lt).
  rewrite Forall_map in Hx. induction Hx as [|y l2 Hy _ IH]; [done|]. rewrite filter_cons, decide_True by done. by rewrite IH.
Qed.

(** One page, from a cursor that leaves [rest]. *)
Lemma page_exact s tenantID after limit rest : store_ok s -> parses "tenant" tenantID = true -> 1 <= limit <= 1000 ->
  after = "" \/ parses "op" after = true -> filter (after_rank after) (pending_of s tenantID) = rest ->
  ListPendingUseRecoveries None None s (MkQuery tenantID after limit) =
  Ok (MkPage (take (Z.to_nat limit) rest) (if limit <? zlen rest then default "" (rb_RecoveryID <$> last (take (Z.to_nat limit) rest)) else "")).
Proof.
  intros Hok Ht Hl Ha Hrest. unfold ListPendingUseRecoveries. simpl. rewrite Ht. simpl.
  assert ((limit <? 1) = false) as -> by lia. assert ((1000 <? limit) = false) as -> by lia. simpl.
  assert (((after != "") && negb (parses "op" after)) = false) as ->.
  { destruct Ha as [->| ->]; [done|]. by rewrite andb_false_r. }
  simpl. fold (values s). rewrite (scan_exact s (MkQuery tenantID after limit) Hok). simpl. rewrite Hrest.
  assert (Hlen : (limit <? zlen (take (Z.to_nat (limit + 1)) rest)) = (limit <? zlen rest)).
  { apply eq_true_iff_eq. rewrite !Z.ltb_lt. unfold zlen. rewrite length_take. lia. }
  rewrite Hlen. destruct (limit <? zlen rest) eqn:Hmore.
  - rewrite take_take. by replace (Z.to_nat limit `min` Z.to_nat (limit + 1))%nat with (Z.to_nat limit) by lia.
  - f_equal. unfold zlen in Hmore. rewrite !take_ge by lia. done.
Qed.

Lemma follow_exact s tenantID limit : store_ok s -> parses "tenant" tenantID = true -> 1 <= limit <= 1000 -> forall fuel after before rest,
  pending_of s tenantID = before ++ rest -> filter (after_rank after) (pending_of s tenantID) = rest -> after = "" \/ parses "op" after = true ->
  (length rest < fuel)%nat -> concat (follow_pages fuel s tenantID after limit) = rest.
Proof.
  intros Hok Ht Hl. induction fuel as [|fuel IH]; intros after before rest Hsplit Hrest Ha Hfuel; [lia|]. cbn [follow_pages].
  rewrite (page_exact s tenantID after limit rest) by done. cbn [pp_Recoveries pp_NextAfterRecoveryID].
  destruct (limit <? zlen rest) eqn:Hmore; [|rewrite bool_decide_true by done; simpl; rewrite app_nil_r; apply take_ge; unfold zlen in Hmore; lia].
  assert (Hn : (0 < Z.to_nat limit < length rest)%nat) by (unfold zlen in Hmore; lia).
  destruct (last (take (Z.to_nat limit) rest)) as [x|] eqn:Hlast.
  2:{ apply last_None in Hlast. apply (f_equal length) in Hlast. rewrite length_take in Hlast. simpl in Hlast. lia. }
  apply last_Some in Hlast as [page Hpage]. simpl. assert (Hsuffix : pending_of s tenantID = (before ++ page) ++ x :: drop (Z.to_nat limit) rest).
  { rewrite Hsplit, <- (take_drop (Z.to_nat limit) rest) at 1. by rewrite Hpage, <- !app_assoc. }
  assert (Hop : parses "op" (rb_RecoveryID x) = true).
  { apply (pending_op s tenantID); [done|]. rewrite Hsuffix. set_solver. }
  rewrite bool_decide_false by (intros Hx; by rewrite Hx in Hop).
  rewrite (IH (rb_RecoveryID x) ((before ++ page) ++ [x]) (drop (Z.to_nat limit) rest)).
  - apply take_drop.
  - by rewrite Hsuffix, <- !app_assoc.
  - rewrite Hsuffix. apply after_suffix. rewrite <- Hsuffix. by apply pending_sorted.
  - by right.
  - rewrite length_drop. lia.
Qed.

(** C25: after any sequence of operations, following the cursors of bounded pages from the
    start enumerates exactly the pending recoveries of the tenant, each once, in the order
    of their identifiers, whatever the size of the page. *)
Theorem pending_pages_complete (ops : list store_op) (tenantID : string) (limit : Z) :
  parses "tenant" tenantID = true -> 1 <= limit <= 1000 ->
  let s := run_ops ops in
  concat (follow_pages (S (size (recoveryByLease s))) s tenantID "" limit) = pending_of s tenantID.
Proof.
  intros Ht Hl s. pose proof (run_ops_ok ops : store_ok s) as Hok. apply (follow_exact s tenantID limit Hok Ht Hl _ "" []); [done| |by left|].
  - apply filter_all. intros r Hr. pose proof (pending_op s tenantID r Hok Hr) as Hop. unfold after_rank, recovery_rank.
    destruct (rb_RecoveryID r); [done|]. done.
  - unfold pending_of. rewrite sort_by_perm. pose proof (length_filter (fun r => rb_TenantID r = tenantID) (values s)) as Hle.
    unfold values in Hle at 2. rewrite length_map, length_map_to_list in Hle. lia.
Qed.
End store.
