(* ===== verification/SecretProtocol.v ===== *)
(** * Secrets under concurrency: the protocol

    What the calls of the service do to the store and to the places where material may be
    live, what a process may call, and why a secret stays fenced while its material may be
    live, whatever the other processes and the writers of secrets do. *)

From S2P Require Import Prelude Programs GoText Identity Secret SecretService SecretStore.
#[local] Open Scope string_scope.
#[local] Open Scope list_scope.
#[local] Open Scope Z_scope.
#[local] Open Scope go_scope.

(** ** Where material may be live

    A gateway dispatch, the preparation of a sandbox and a use in it engage their recovery;
    a confirmed answer settles it: the gateway's durable binding of exactly this recovery, a
    receipt that proves the sandbox clean, a durable quarantine, a gateway reconciliation
    that is safe to release. *)
Definition engages {X} (c : SCall X) : option string :=
  match c with
  | Dispatch d _ => Some (rb_RecoveryID (gd_Recovery d))
  | Prepare _ r => Some (rb_RecoveryID r)
  | Use _ p _ => Some (xp_RecoveryID p)
  | _ => None
  end.
Definition clean_for (p : SandboxExposurePermit) (receipt : SandboxCleanupReceipt) : bool :=
  receipt_clean receipt (xp_InvocationID p) (xp_Recovery p) (rb_Exposure (xp_Recovery p)) (rb_DestroySandboxAfterUse (xp_Recovery p)).
(** A containment settles what a recovery engaged until then; the recovery may be completed
    after it, by another process than the one that uses it. *)
Definition contains {X} (c : SCall X) : X -> option string :=
  match c in SCall X return X -> option string with
  | Quarantine _ p => fun x =>
      match x with Value (Ok receipt) => if quarantine_durable receipt p then Some (xp_RecoveryID p) else None | _ => None end
  | RecoverDispatch r => fun x =>
      match x with
      | Value (Ok receipt) =>
          if gv_Durable receipt && gv_SafeToRelease receipt && bool_decide (gv_Recovery receipt = Some r) then Some (rb_RecoveryID r) else None
      | _ => None
      end
  | _ => fun _ => None
  end.
Definition settles {X} (c : SCall X) : X -> option string :=
  match c in SCall X return X -> option string with
  | Dispatch d _ => fun x =>
      match x with
      | Value (Ok response) =>
          if gr_RecoveryDurable response && bool_decide (gr_Recovery response = Some (gd_Recovery d)) then Some (rb_RecoveryID (gd_Recovery d)) else None
      | _ => None
      end
  | Use _ p _ => fun x => match x with Value (Ok receipt) => if clean_for p receipt then Some (xp_RecoveryID p) else None | _ => None end
  | Cleanup _ p => fun x => match x with Value (Ok receipt) => if clean_for p receipt then Some (xp_RecoveryID p) else None | _ => None end
  | Quarantine d p => contains (Quarantine d p)
  | RecoverDispatch r => contains (RecoverDispatch r)
  | _ => fun _ => None
  end.

(** ** The world: the store, which process began each use, the lease identifiers issued so
    far, the engaged recoveries and those that were ever contained *)
Record World := MkWorld {
  w_store : MemoryStore; w_holder : gmap string nat; w_issued : gset string; w_engaged : gset string; w_contained : gset string;
}.
Definition set_store (w : World) (s : MemoryStore) : World := MkWorld s (w_holder w) (w_issued w) (w_engaged w) (w_contained w).
Definition begin_with (w : World) (s : MemoryStore) (leaseID : option string) (holder : gmap string nat) : World :=
  MkWorld s holder (match leaseID with Some id => {[id]} ∪ w_issued w | None => w_issued w end) (w_engaged w) (w_contained w).
Definition exposed (w : World) {X} (c : SCall X) (x : X) : World :=
  let engaged := match engages c with Some rid => {[rid]} ∪ w_engaged w | None => w_engaged w end in
  MkWorld (w_store w) (w_holder w) (w_issued w) (match settles c x with Some rid => engaged ∖ {[rid]} | None => engaged end)
    (match contains c x with Some rid => {[rid]} ∪ w_contained w | None => w_contained w end).

(** A call of the store takes effect and is answered, or its answer is lost: the caller
    sees an error or a panic, whether or not it took effect. *)
Definition lost {A} (x : outcome (res secret_error A)) : Prop := x = Panics \/ exists e, x = Value (Err e).
Definition answers {A} (x : outcome (res secret_error A)) (a : res secret_error A) : Prop := x = Value a \/ lost x.

Section semantics.
Context `{N : Normalizer}.

(** Lease identifiers are not issued twice; beyond that every dependency answers anything. *)
Definition call_sem (w : World) (i : nat) (X : Type) (c : SCall X) : X -> World -> Prop :=
  match c in SCall X return X -> World -> Prop with
  | Now => fun _ w' => w' = w
  | ContextErr => fun _ w' => w' = w
  | NewOperationID => fun _ w' => w' = w
  | Authorize _ => fun _ w' => w' = w
  | Admit _ => fun _ w' => w' = w
  | AppendAudit _ => fun _ w' => w' = w
  | AuthorizeRecovery _ => fun _ w' => w' = w
  | AppendRecovery _ => fun _ w' => w' = w
  | Mint _ => fun _ w' => w' = w
  | StoreGet t id => fun x w' => w' = w /\ exists ctx locked, answers x (Get ctx locked (w_store w) t id)
  | StoreValidate r => fun x w' => w' = w /\ exists ctx locked, answers x (ValidateUseRecovery ctx locked (w_store w) r)
  | StoreList q => fun x w' => w' = w /\ exists ctx locked, answers x (ListPendingUseRecoveries ctx locked (w_store w) q)
  | StoreBegin q => fun x w' => exists ctx locked leaseID now a s, BeginUse ctx locked leaseID now (w_store w) q = (a, s) /\
      (forall id, leaseID = Some id -> id ∉ w_issued w) /\
      ((x = Value a /\ w' = begin_with w s leaseID (if is_ok a then <[rb_RecoveryID (bu_Recovery q) := i]> (w_holder w) else w_holder w)) \/
       (lost x /\ w' = begin_with w s leaseID (w_holder w)))
  | StoreReserve q => fun x w' => exists ctx locked leaseID now a s, ReserveUse ctx locked leaseID now (w_store w) q = (a, s) /\
      (forall id, leaseID = Some id -> id ∉ w_issued w) /\
      ((x = Value a /\ w' = begin_with w s leaseID (if is_ok a then <[rb_RecoveryID (bu_Recovery q) := i]> (w_holder w) else w_holder w)) \/
       (lost x /\ w' = begin_with w s leaseID (w_holder w)))
  | StoreAcquire q => fun x w' => exists ctx locked now a s, AcquireReservedUse ctx locked now (w_store w) q = (a, s) /\ answers x a /\ w' = set_store w s
  | StoreEnd l => fun x w' => exists ctx locked a s, EndUse ctx locked (w_store w) l = (a, s) /\ answers x a /\ w' = set_store w s
  | StoreComplete r => fun x w' => exists ctx locked a s, CompleteUseRecovery ctx locked (w_store w) r = (a, s) /\ answers x a /\ w' = set_store w s
  | Dispatch d m => fun x w' => w' = exposed w (Dispatch d m) x
  | Prepare d r => fun x w' => w' = exposed w (Prepare d r) x
  | Use d p m => fun x w' => w' = exposed w (Use d p m) x
  | Cleanup d p => fun x w' => w' = exposed w (Cleanup d p) x
  | Quarantine d p => fun x w' => w' = exposed w (Quarantine d p) x
  | RecoverDispatch r => fun x w' => w' = exposed w (RecoverDispatch r) x
  end.

(** Secrets are written beside the programs. *)
Inductive env_step (w : World) : World -> Prop :=
| env_swap ctx locked version next : env_step w (set_store w (CompareAndSwap ctx locked (w_store w) version next).2).

(** ** What a process may call *)
Definition begins {X} (c : SCall X) : X -> UseRecoveryBinding -> UseLease -> Prop :=
  match c in SCall X return X -> UseRecoveryBinding -> UseLease -> Prop with
  | StoreBegin q => fun x r l => bu_Recovery q = r /\ exists record, x = Value (Ok (record, l))
  | StoreReserve q => fun x r l => bu_Recovery q = r /\ x = Value (Ok l)
  | _ => fun _ _ _ => False
  end.
Definition ends {X} (c : SCall X) (l : UseLease) : Prop := match c with StoreEnd l' => l' = l | _ => False end.
Fixpoint owns (h : list (event SCall)) (r : UseRecoveryBinding) (l : UseLease) : Prop :=
  match h with [] => False | e :: rest => owns rest r l \/ begins (ev_call _ e) (ev_answer _ e) r l end.
Fixpoint ended (h : list (event SCall)) (l : UseLease) : Prop :=
  match h with [] => False | e :: rest => ended rest l \/ ends (ev_call _ e) l end.
(** Whatever the process engaged has been settled since. *)
Fixpoint quiet (h : list (event SCall)) (rid : string) : Prop :=
  match h with
  | [] => True
  | e :: rest => settles (ev_call _ e) (ev_answer _ e) = Some rid \/ (quiet rest rid /\ engages (ev_call _ e) <> Some rid)
  end.
Fixpoint saw_contained (h : list (event SCall)) (rid : string) : Prop :=
  match h with [] => False | e :: rest => saw_contained rest rid \/ contains (ev_call _ e) (ev_answer _ e) = Some rid end.

Definition holds_lease (h : list (event SCall)) (r : UseRecoveryBinding) : Prop := exists l, owns h r l /\ ~ ended h l.
(** A process engages only recoveries it holds the lease of, ends a lease only when all it
    engaged is settled, and completes a recovery only when it is contained. *)
Definition permitted (h : list (event SCall)) (X : Type) (c : SCall X) : Prop :=
  match c with
  | Dispatch d _ => holds_lease h (gd_Recovery d)
  | Prepare _ r => holds_lease h r
  | Use _ p _ => holds_lease h (xp_Recovery p) /\ xp_RecoveryID p = rb_RecoveryID (xp_Recovery p)
  | StoreEnd l => ~ ended h l /\ exists r, owns h r l /\ quiet h (rb_RecoveryID r)
  | StoreComplete r => saw_contained h (rb_RecoveryID r)
  | _ => True
  end.

(** ** The invariant *)
(** The lease of the recovery is in place, or the recovery was completed after it had been
    contained. *)
Definition fenced (w : World) (rid : string) : Prop :=
  is_Some (leaseByRecoveryID (w_store w) !! rid) \/ (rid ∈ w_contained w /\ is_Some (completedRecoveries (w_store w) !! rid)).
Record world_ok (w : World) : Prop := MkWorldOk {
  wo_store : store_ok (w_store w);
  wo_issued : forall id l, leases (w_store w) !! id = Some l -> id ∈ w_issued w;
  wo_engaged : forall rid, rid ∈ w_engaged w -> fenced w rid;
  wo_engager : forall rid, rid ∈ w_engaged w -> is_Some (w_holder w !! rid);
  wo_holder : forall rid i, w_holder w !! rid = Some i -> ~ fresh (w_store w) rid;
}.
(** What a process's history says of the world. *)
Record lease_facts (w : World) (i : nat) (r : UseRecoveryBinding) (l : UseLease) : Prop := MkLeaseFacts {
  lf_holder : w_holder w !! rb_RecoveryID r = Some i;
  lf_issued : ul_LeaseID l ∈ w_issued w;
  lf_lease : forall l', leases (w_store w) !! ul_LeaseID l = Some l' -> l' = l;
  lf_recovery : forall r', recoveryByLease (w_store w) !! ul_LeaseID l = Some r' -> r' = r;
}.
Definition live (w : World) (r : UseRecoveryBinding) (l : UseLease) : Prop :=
  recoveryByLease (w_store w) !! ul_LeaseID l = Some r \/ rb_RecoveryID r ∈ w_contained w.
Record assured (w : World) (i : nat) (h : list (event SCall)) : Prop := MkAssured {
  as_facts : forall r l, owns h r l -> lease_facts w i r l;
  as_live : forall r l, owns h r l -> ~ ended h l -> live w r l;
  as_quiet : forall r l, owns h r l -> quiet h (rb_RecoveryID r) -> rb_RecoveryID r ∉ w_engaged w;
  as_contained : forall rid, saw_contained h rid -> rid ∈ w_contained w;
}.
Lemma assured_nil w i : assured w i [].
Proof. constructor; by intros. Qed.

(** An event that begins, engages, settles and contains nothing. *)
Lemma neutral_event w i h X (c : SCall X) (x : X) : (forall r l, ~ begins c x r l) -> engages c = None -> settles c x = None -> contains c x = None ->
  assured w i h -> assured w i (Event c x :: h).
Proof.
  intros Hb He Hs Hc [Hf Hl Hq Hk]. constructor; simpl.
  - intros r l [Ho|Hbe]; [by apply Hf|]. by destruct (Hb r l).
  - intros r l [Ho|Hbe] Hn; [|by destruct (Hb r l)]. apply Hl; [done|]. tauto.
  - intros r l [Ho|Hbe] Hqu; [|by destruct (Hb r l)]. rewrite Hs in Hqu. destruct Hqu as [[=]|[Hqu _]]. by apply (Hq r l).
  - intros rid [Hsc|Hco]; [by apply Hk|]. congruence.
Qed.

(** ** The store changes *)
Record same_tables (s s' : MemoryStore) : Prop := MkSame {
  st_leases : leases s' = leases s; st_recovery : recoveryByLease s' = recoveryByLease s;
  st_rid : leaseByRecoveryID s' = leaseByRecoveryID s; st_done : completedRecoveries s' = completedRecoveries s;
}.
Lemma same_keeps w s' : world_ok w -> store_ok s' -> same_tables (w_store w) s' -> world_ok (set_store w s') /\ forall i h, assured w i h -> assured (set_store w s') i h.
Proof.
  intros [Hst Hiss Hen Hco Hho] Hok [Hl Hr Hi Hd]. split.
  - constructor; simpl; try done; [by rewrite Hl| |]; intros rid; unfold fenced, fresh; simpl; rewrite Hi, Hd; [by apply Hen|by apply Hho].
  - intros i h [Hf Hlive Hq Hk]. constructor; simpl; try done.
    + intros r l Ho. destruct (Hf r l Ho). by constructor; simpl; rewrite ?Hl, ?Hr.
    + intros r l Ho Hn. unfold live. simpl. rewrite Hr. by apply Hlive.
Qed.

(** A lease is added under a new identifier. *)
Lemma begin_keeps w l r acquire (holder : gmap string nat) :
  world_ok w -> store_ok (add_lease (w_store w) l r acquire) -> fresh (w_store w) (rb_RecoveryID r) -> ul_LeaseID l ∉ w_issued w ->
  (forall rid i, holder !! rid = Some i -> rid = rb_RecoveryID r \/ w_holder w !! rid = Some i) ->
  (forall rid i, rid <> rb_RecoveryID r -> w_holder w !! rid = Some i -> holder !! rid = Some i) ->
  let w' := begin_with w (add_lease (w_store w) l r acquire) (Some (ul_LeaseID l)) holder in
  world_ok w' /\ (forall i h, assured w i h -> assured w' i h) /\ rb_RecoveryID r ∉ w_engaged w'.
Proof.
  intros [Hst Hiss Hen Hco Hho] Hok Hfr Hid Hnew Hold. split; [|split].
  - constructor; simpl; try done.
    + intros id l' [[<- <-]|[_ Hl]]%lookup_insert_Some; [set_solver|]. apply Hiss in Hl. set_solver.
    + intros rid He. unfold fenced. simpl. destruct (decide (rb_RecoveryID r = rid)) as [<-|]; [left; rewrite lookup_insert_eq; by eexists|].
      rewrite lookup_insert_ne by done. by apply Hen.
    + intros rid He. destruct (decide (rid = rb_RecoveryID r)) as [->|Hne]; [|destruct (Hco rid He) as [i Hi]; exists i; by apply Hold].
      destruct (Hco _ He) as [i Hi]. by destruct (Hho _ i Hi).
    + intros rid i Hh. unfold fresh. simpl. intros [Hf1 Hf2]. apply Hnew in Hh as [->|Hh]; [by rewrite lookup_insert_eq in Hf1|].
      apply (Hho rid i Hh). split; [|done]. by apply lookup_insert_None in Hf1 as [? _].
  - intros i h [Hf Hlive Hq Hk].
    assert (Hrid : forall r' l', owns h r' l' -> rb_RecoveryID r' <> rb_RecoveryID r).
    { intros r' l' Ho Heq. destruct (Hf r' l' Ho) as [Hh _ _ _]. apply (Hho _ _ Hh). by rewrite Heq. }
    assert (Hlid : forall r' l', owns h r' l' -> ul_LeaseID l <> ul_LeaseID l').
    { intros r' l' Ho Heq. destruct (Hf r' l' Ho). congruence. }
    constructor; simpl; try done.
    + intros r' l' Ho. destruct (Hf r' l' Ho) as [Hh Hi Hl Hr]. specialize (Hrid r' l' Ho). specialize (Hlid r' l' Ho).
      constructor; simpl; [by apply Hold|set_solver| |]; rewrite lookup_insert_ne by done; done.
    + intros r' l' Ho Hn. destruct (Hlive r' l' Ho Hn) as [Hr|Hc]; [left|by right]. simpl. rewrite lookup_insert_ne; [done|]. by apply (Hlid r').
  - simpl. intros He. destruct (Hco _ He) as [i Hi]. by apply (Hho _ i Hi).
Qed.

(** A lease of a recovery that is not engaged, or that was contained, is removed. *)
Lemma end_keeps w l r : world_ok w -> leases (w_store w) !! ul_LeaseID l = Some l -> recoveryByLease (w_store w) !! ul_LeaseID l = Some r ->
  rb_RecoveryID r ∉ w_engaged w \/ rb_RecoveryID r ∈ w_contained w ->
  world_ok (set_store w (end_lease (w_store w) l (Some r))) /\
  forall i h, assured w i h -> (forall r' l', owns h r' l' -> ul_LeaseID l' = ul_LeaseID l -> ended h l' \/ rb_RecoveryID r ∈ w_contained w) ->
  assured (set_store w (end_lease (w_store w) l (Some r))) i h.
Proof.
  intros [Hst Hiss Hen Hco Hho] Hl Hr Hne. split.
  - constructor; simpl; try done.
    + by apply end_lease_ok.
    + intros id l' [_ Hl']%lookup_delete_Some. by apply (Hiss id l').
    + intros rid He. unfold fenced. simpl. destruct (decide (rb_RecoveryID r = rid)) as [<-|Hneq].
      * right. rewrite lookup_insert_eq. split; [by destruct Hne|by eexists].
      * rewrite lookup_delete_ne, lookup_insert_ne by done. by apply Hen.
    + intros rid i Hh [Hf1 Hf2]. simpl in Hf1, Hf2. apply lookup_insert_None in Hf2 as [Hd Hne']. apply (Hho rid i Hh). split; [|done].
      by rewrite lookup_delete_ne in Hf1.
  - intros i h [Hf Hlive Hq Hk] Hmine. constructor; simpl; try done.
    + intros r' l' Ho. destruct (Hf r' l' Ho) as [Hh Hi Hle Hre]. constructor; simpl; try done.
      * intros l2 [_ Hl2]%lookup_delete_Some. by apply Hle.
      * intros r2 [_ Hr2]%lookup_delete_Some. by apply Hre.
    + intros r' l' Ho Hn. destruct (Hlive r' l' Ho Hn) as [Hr'|Hc]; [|by right]. unfold live. simpl.
      destruct (decide (ul_LeaseID l = ul_LeaseID l')) as [Heq|Hneq]; [|left; by rewrite lookup_delete_ne].
      destruct (Hmine r' l' Ho (eq_sym Heq)) as [He|Hc]; [done|]. right. rewrite <- Heq, Hr in Hr'. by injection Hr' as <-.
Qed.

(** ** Material moves *)
Lemma exposed_keeps w X (c : SCall X) (x : X) i h :
  world_ok w -> assured w i h ->
  (forall rid, engages c = Some rid -> exists r l, owns h r l /\ ~ ended h l /\ rb_RecoveryID r = rid) -> (forall r l, ~ begins c x r l) ->
  world_ok (exposed w c x) /\ assured (exposed w c x) i (Event c x :: h) /\ forall j h', j <> i -> assured w j h' -> assured (exposed w c x) j h'.
Proof.
  intros [Hst Hiss Hen Hco Hho] [Hf Hlive Hq Hk] Heng Hnb.
  (* what is engaged after the call was engaged, or is what it engages *)
  assert (Hin : forall rid, rid ∈ w_engaged (exposed w c x) -> settles c x <> Some rid /\ (rid ∈ w_engaged w \/ engages c = Some rid)).
  { intros rid. simpl. destruct (settles c x) as [rid'|]; destruct (engages c) as [rid''|]; set_solver. }
  assert (Hcon : forall rid, rid ∈ w_contained w -> rid ∈ w_contained (exposed w c x)).
  { intros rid Hr. simpl. destruct (contains c x); set_solver. }
  assert (Hholder : forall rid, engages c = Some rid -> w_holder w !! rid = Some i).
  { intros rid He. destruct (Heng rid He) as (r & l & Ho & _ & <-). apply (Hf r l Ho). }
  split; [|split].
  - constructor; simpl; try done.
    + intros rid Hr. destruct (Hin rid Hr) as [_ [Hr'|He]].
      { destruct (Hen rid Hr') as [?|[? ?]]; [by left|right]. split; [by apply Hcon|done]. }
      destruct (Heng rid He) as (r & l & Ho & Hn & <-). destruct (Hlive r l Ho Hn) as [Hrec|Hc].
      { destruct (recovery_bound _ _ _ Hst Hrec) as (l' & _ & _ & Hrid & _). left. by eexists. }
      destruct (completedRecoveries (w_store w) !! rb_RecoveryID r) as [r'|] eqn:Hdone; [right; split; [by apply Hcon|simpl; rewrite Hdone; by eexists]|left].
      simpl. destruct (leaseByRecoveryID (w_store w) !! rb_RecoveryID r) as [id|] eqn:Hid; [by eexists|]. by destruct (Hho _ _ (Hholder _ He)).
    + intros rid Hr. destruct (Hin rid Hr) as [_ [Hr'|He]]; [by apply Hco|]. rewrite (Hholder rid He). by eexists.
  - constructor; simpl.
    + intros r l [Ho|Hb]; [|by destruct (Hnb r l)]. destruct (Hf r l Ho). by constructor.
    + intros r l [Ho|Hb] Hn; [|by destruct (Hnb r l)]. destruct (Hlive r l Ho ltac:(tauto)) as [?|?]; [by left|right]. by apply Hcon.
    + intros r l [Ho|Hb] Hqu He; [|by destruct (Hnb r l)]. destruct (Hin _ He) as [Hns Hor]. destruct Hqu as [Hqu|[Hqu Hneng]]; [done|].
      destruct Hor as [He'|He']; [by apply (Hq r l)|done].
    + intros rid [Hsc|Hc]; [apply Hk in Hsc; destruct (contains c x); set_solver|]. rewrite Hc. set_solver.
  - intros j h' Hji [Hf' Hlive' Hq' Hk']. constructor; simpl.
    + intros r l Ho. destruct (Hf' r l Ho). by constructor.
    + intros r l Ho Hn. destruct (Hlive' r l Ho Hn) as [?|?]; [by left|right]. by apply Hcon.
    + intros r l Ho Hqu He. destruct (Hin _ He) as [Hns [He'|He']]; [by apply (Hq' r l)|].
      apply Hholder in He'. destruct (Hf' r l Ho). congruence.
    + intros rid Hsc. apply Hk' in Hsc. destruct (contains c x); set_solver.
Qed.

(** ** The calls *)
Lemma begin_event w i h X (c : SCall X) (x : X) r l :
  assured w i h -> lease_facts w i r l -> live w r l -> rb_RecoveryID r ∉ w_engaged w -> (forall r' l', begins c x r' l' -> r' = r /\ l' = l) ->
  engages c = None -> settles c x = None -> contains c x = None -> assured w i (Event c x :: h).
Proof.
  intros [Hf Hl Hq Hk] Hfact Hlive Hne Hb He Hs Hc. constructor; simpl.
  - intros r' l' [Ho|Hbe]; [by apply Hf|]. by destruct (Hb _ _ Hbe) as [-> ->].
  - intros r' l' [Ho|Hbe] Hn; [apply Hl; [done|tauto]|]. by destruct (Hb _ _ Hbe) as [-> ->].
  - intros r' l' [Ho|Hbe] Hqu; [|by destruct (Hb _ _ Hbe) as [-> ->]]. rewrite Hs in Hqu. destruct Hqu as [[=]|[Hqu _]]. by apply (Hq r' l').
  - intros rid [Hsc|Hco]; [by apply Hk|]. congruence.
Qed.
Lemma issue_keeps w leaseID : world_ok w ->
  world_ok (begin_with w (w_store w) leaseID (w_holder w)) /\ forall i h, assured w i h -> assured (begin_with w (w_store w) leaseID (w_holder w)) i h.
Proof.
  intros [Hst Hiss Hen Hco Hho]. split.
  - constructor; simpl; try done. intros id l Hl. apply Hiss in Hl. destruct leaseID; set_solver.
  - intros i h [Hf Hl Hq Hk]. constructor; simpl; try done. intros r l Ho. destruct (Hf r l Ho). constructor; simpl; try done. destruct leaseID; set_solver.
Qed.

(** A begin, answered ([Some]) or with its answer lost. *)
Lemma begin_call w i h X (c : SCall X) (x : X) ctx locked leaseID now q acquire (answered : bool) :
  world_ok w -> assured w i h -> (forall id, leaseID = Some id -> id ∉ w_issued w) -> engages c = None -> settles c x = None -> contains c x = None ->
  (forall r' l', begins c x r' l' -> answered = true /\ r' = bu_Recovery q /\
     exists record s', begin_use ctx locked leaseID now (w_store w) q acquire = Ok (record, l', s')) ->
  let holder := if answered then <[rb_RecoveryID (bu_Recovery q) := i]> (w_holder w) else w_holder w in
  let w' := match begin_use ctx locked leaseID now (w_store w) q acquire with
            | Ok (_, _, s') => begin_with w s' leaseID holder
            | Err _ => begin_with w (w_store w) leaseID (w_holder w)
            end in
  world_ok w' /\ assured w' i (Event c x :: h) /\ forall j h', j <> i -> assured w j h' -> assured w' j h'.
Proof.
  intros Hw Ha Hfresh He Hs Hc Hb holder w'. subst w'. destruct (begin_use ctx locked leaseID now (w_store w) q acquire) as [[[record l] s']|e] eqn:Hbegin.
  2:{ destruct (issue_keeps w leaseID Hw) as [Hw' Hkeep]. split; [done|]. split; [|intros; by apply Hkeep]. apply neutral_event; try done; [|by apply Hkeep].
      intros r' l' Hbe. destruct (Hb _ _ Hbe) as (_ & _ & record & s' & [=]). }
  pose proof (begin_use_spends _ _ _ _ _ _ _ _ _ _ (wo_store _ Hw) Hbegin) as [Hok' _].
  destruct (begin_use_ok _ _ _ _ _ _ _ _ _ _ (wo_store _ Hw) Hbegin) as (Hid & Hl & Hfr & _ & _ & _ & _ & _ & _ & _ & _ & _ & ->).
  subst leaseID. assert (Hni := Hfresh _ eq_refl). set (r := bu_Recovery q) in *.
  destruct (begin_keeps w l r acquire holder Hw Hok' Hfr Hni) as (Hw' & Hkeep & Hne).
  { intros rid k. unfold holder. destruct answered; [|by right]. intros [[<- _]|[_ Hh]]%lookup_insert_Some; [by left|by right]. }
  { intros rid k Hne Hh. unfold holder. destruct answered; [by rewrite lookup_insert_ne|done]. }
  split; [done|]. split; [|intros; by apply Hkeep]. destruct answered.
  - apply (begin_event _ _ _ _ _ _ r l); try done; [by apply Hkeep| | |].
    + constructor; simpl; [apply lookup_insert_eq|set_solver| |]; rewrite lookup_insert_eq; congruence.
    + left. simpl. apply lookup_insert_eq.
    + intros r' l' Hbe. destruct (Hb _ _ Hbe) as (_ & -> & record' & s' & [= _ <- _]). done.
  - apply neutral_event; try done; [|by apply Hkeep]. intros r' l' Hbe. by destruct (Hb _ _ Hbe) as [? _].
Qed.

Lemma end_call w w' i h X (c : SCall X) (x : X) l : world_ok w -> assured w i h -> ~ ended h l -> (exists r, owns h r l /\ quiet h (rb_RecoveryID r)) ->
  ends c l -> (forall r' l', ~ begins c x r' l') -> engages c = None -> settles c x = None -> contains c x = None ->
  (exists ctx locked a s, EndUse ctx locked (w_store w) l = (a, s) /\ w' = set_store w s) ->
  world_ok w' /\ assured w' i (Event c x :: h) /\ forall j h', j <> i -> assured w j h' -> assured w' j h'.
Proof.
  intros Hw Ha Hn (r & Ho & Hqu) Hends Hnb He Hs Hc (ctx & locked & a & s & Hend & ->).
  destruct (EndUse_effect _ _ _ _ _ _ (wo_store _ Hw) Hend) as [[-> _]|(_ & Hl & r' & Hr & ->)].
  { destruct w as [st ho iss en co]. split; [done|]. split; [by apply neutral_event|done]. }
  destruct (as_facts _ _ _ Ha r l Ho) as [Hh Hi Hle Hre]. assert (r' = r) as -> by (by apply Hre).
  destruct (end_keeps w l r Hw Hl Hr (or_introl (as_quiet _ _ _ Ha r l Ho Hqu))) as [Hw' Hkeep]. split; [done|]. split.
  - (* the event ends the lease *)
    assert (Ha1 : assured w i (Event c x :: h)) by (by apply neutral_event).
    apply Hkeep; [done|]. intros r2 l2 [Ho2|Hb2]; [|by destruct (Hnb r2 l2)]. intros Heq. left. right. simpl.
    assert (l2 = l) as ->; [|done]. symmetry. apply (lf_lease _ _ _ _ (as_facts _ _ _ Ha r2 l2 Ho2)). by rewrite Heq.
  - intros j h' Hji Ha'. apply Hkeep; [done|]. intros r2 l2 Ho2 Heq. destruct (as_facts _ _ _ Ha' r2 l2 Ho2) as [Hh2 _ _ Hre2].
    assert (r = r2) as <- by (apply Hre2; by rewrite Heq). congruence.
Qed.

Lemma complete_call w w' i h X (c : SCall X) (x : X) r : world_ok w -> assured w i h -> saw_contained h (rb_RecoveryID r) ->
  (forall r' l', ~ begins c x r' l') -> engages c = None -> settles c x = None -> contains c x = None ->
  (exists ctx locked a s, CompleteUseRecovery ctx locked (w_store w) r = (a, s) /\ w' = set_store w s) ->
  world_ok w' /\ assured w' i (Event c x :: h) /\ forall j h', j <> i -> assured w j h' -> assured w' j h'.
Proof.
  intros Hw Ha Hsc Hnb He Hs Hc (ctx & locked & a & s & Hend & ->).
  destruct (CompleteUseRecovery_effect _ _ _ _ _ _ (wo_store _ Hw) Hend) as [[-> _]|(_ & l & Hl & Hr & ->)].
  { destruct w as [st ho iss en co]. split; [done|]. split; [by apply neutral_event|done]. }
  apply (as_contained _ _ _ Ha) in Hsc. destruct (end_keeps w l r Hw Hl Hr (or_intror Hsc)) as [Hw' Hkeep].
  split; [done|]. split; [apply neutral_event; try done; apply Hkeep; [done|]|intros j h' _ Ha'; apply Hkeep; [done|]]; intros; by right.
Qed.

Lemma lost_ok {A} (x : outcome (res secret_error A)) a : lost x -> x <> Value (Ok a).
Proof. by intros [->|[e ->]]. Qed.
Lemma same_call w w' i h X (c : SCall X) (x : X) s : world_ok w -> assured w i h -> store_ok s -> same_tables (w_store w) s -> w' = set_store w s ->
  (forall r l, ~ begins c x r l) -> engages c = None -> settles c x = None -> contains c x = None ->
  world_ok w' /\ assured w' i (Event c x :: h) /\ forall j h', j <> i -> assured w j h' -> assured w' j h'.
Proof.
  intros Hw Ha Hok Hsame -> Hb He Hs Hc. destruct (same_keeps w s Hw Hok Hsame) as [Hw' Hkeep]. split; [done|].
  split; [apply neutral_event; auto|intros; by apply Hkeep].
Qed.
Lemma still_call w w' i h X (c : SCall X) (x : X) : world_ok w -> assured w i h -> w' = w ->
  (forall r l, ~ begins c x r l) -> engages c = None -> settles c x = None -> contains c x = None ->
  world_ok w' /\ assured w' i (Event c x :: h) /\ forall j h', j <> i -> assured w j h' -> assured w' j h'.
Proof. intros Hw Ha -> Hb He Hs Hc. split; [done|]. split; [by apply neutral_event|done]. Qed.

(** The answered or lost call of the store that begins a use. *)
Lemma store_begin_keeps w w' i h q x : world_ok w -> assured w i h -> call_sem w i _ (StoreBegin q) x w' ->
  world_ok w' /\ assured w' i (Event (StoreBegin q) x :: h) /\ forall j h', j <> i -> assured w j h' -> assured w' j h'.
Proof.
  intros Hw Ha (ctx & locked & leaseID & now & a & s & Heq & Hfresh & Hor). unfold BeginUse in Heq.
  destruct Hor as [[-> ->]|[Hlost ->]].
  - assert (Hk := begin_call w i h _ (StoreBegin q) (Value a) ctx locked leaseID now q true true Hw Ha Hfresh eq_refl eq_refl eq_refl). cbn zeta in Hk.
    destruct (begin_use ctx locked leaseID now (w_store w) q true) as [[[record l] s']|e]; injection Heq as <- <-; apply Hk; simpl.
    + intros r' l' [<- [record' [= <- <-]]]. eauto.
    + by intros r' l' [_ [record' [=]]].
  - assert (Hk := begin_call w i h _ (StoreBegin q) x ctx locked leaseID now q true false Hw Ha Hfresh eq_refl eq_refl eq_refl). cbn zeta in Hk.
    destruct (begin_use ctx locked leaseID now (w_store w) q true) as [[[record l] s']|e]; injection Heq as <- <-; apply Hk; simpl;
      intros r' l' [_ [record' Hx]]; by destruct (lost_ok _ _ Hlost Hx).
Qed.
Lemma store_reserve_keeps w w' i h q x : world_ok w -> assured w i h -> call_sem w i _ (StoreReserve q) x w' ->
  world_ok w' /\ assured w' i (Event (StoreReserve q) x :: h) /\ forall j h', j <> i -> assured w j h' -> assured w' j h'.
Proof.
  intros Hw Ha (ctx & locked & leaseID & now & a & s & Heq & Hfresh & Hor). unfold ReserveUse in Heq.
  destruct Hor as [[-> ->]|[Hlost ->]].
  - assert (Hk := begin_call w i h _ (StoreReserve q) (Value a) ctx locked leaseID now q false true Hw Ha Hfresh eq_refl eq_refl eq_refl). cbn zeta in Hk.
    destruct (begin_use ctx locked leaseID now (w_store w) q false) as [[[record l] s']|e]; injection Heq as <- <-; apply Hk; simpl.
    + intros r' l' [<- [= <-]]. eauto.
    + by intros r' l' [_ [=]].
  - assert (Hk := begin_call w i h _ (StoreReserve q) x ctx locked leaseID now q false false Hw Ha Hfresh eq_refl eq_refl eq_refl). cbn zeta in Hk.
    destruct (begin_use ctx locked leaseID now (w_store w) q false) as [[[record l] s']|e]; injection Heq as <- <-; apply Hk; simpl;
      intros r' l' [_ Hx]; by destruct (lost_ok _ _ Hlost Hx).
Qed.

Lemma secret_call_keeps w w' i h X (c : SCall X) (x : X) : world_ok w -> assured w i h -> permitted h X c -> call_sem w i X c x w' ->
  world_ok w' /\ assured w' i (Event c x :: h) /\ forall j h', j <> i -> assured w j h' -> assured w' j h'.
Proof.
  intros Hw Ha Hp Hsem. destruct c; cbn [call_sem] in Hsem; try (by apply (still_call w); [done|done|done|intros r l []|..]); try (by destruct Hsem as [Hw' _]; subst w'; apply (still_call w); [done|done|done|intros r l []|..]).
  - by eapply store_begin_keeps.
  - by eapply store_reserve_keeps.
  - destruct Hsem as (ctx & locked & now & a & s & Heq & _ & ->).
    destruct (AcquireReservedUse_effect _ _ _ _ _ _ _ (wo_store _ Hw) Heq) as [[-> _]|(record & _ & _ & _ & _ & _ & _ & ->)].
    + eapply same_call; [done|done|apply Hw|by constructor|done|intros r l []|done..].
    + eapply same_call; [done|done|apply acquired_ok; apply Hw|by constructor|done|intros r l []|done..].
  - destruct Hp as [Hn Hown]. destruct Hsem as (ctx & locked & a & s & Heq & _ & ->).
    apply (end_call w _ i h _ (StoreEnd lease) x lease); [done..|intros r l []|done|done|done|by exists ctx, locked, a, s].
  - destruct Hsem as (ctx & locked & a & s & Heq & _ & ->).
    apply (complete_call w _ i h _ (StoreComplete recovery) x recovery); [done..|intros r l []|done|done|done|by exists ctx, locked, a, s].
  - subst w'. apply exposed_keeps; [done|done| |intros r l []]. intros rid [= <-]. destruct Hp as (l & Ho & Hn). by exists (gd_Recovery dispatch), l.
  - subst w'. apply exposed_keeps; [done|done|done|intros r l []].
  - subst w'. apply exposed_keeps; [done|done| |intros r l []]. intros rid [= <-]. destruct Hp as (l & Ho & Hn). by exists recovery, l.
  - subst w'. apply exposed_keeps; [done|done| |intros r l []]. intros rid [= <-]. destruct Hp as [(l & Ho & Hn) Hid]. by exists (xp_Recovery permit), l.
  - subst w'. apply exposed_keeps; [done|done|done|intros r l []].
  - subst w'. apply exposed_keeps; [done|done|done|intros r l []].
Qed.

Lemma secret_env_keeps w w' : world_ok w -> env_step w w' -> world_ok w' /\ forall i h, assured w i h -> assured w' i h.
Proof.
  intros Hw [ctx locked version next]. destruct (CompareAndSwap ctx locked (w_store w) version next) as [a s] eqn:Heq. simpl.
  apply CompareAndSwap_effect in Heq as [[-> _]|(_ & H0 & record & ->)]; apply same_keeps; try done; try apply Hw. by apply put_record_ok; [apply Hw|].
Qed.

Definition world0 : World := MkWorld NewMemoryStore ∅ ∅ ∅ ∅.
Lemma secret_world_initial : world_ok world0.
Proof. constructor; simpl; [apply store_initial|done|set_solver..|done]. Qed.
End semantics.
