(* ===== verification/SecretRuns.v ===== *)
(** * Secrets under concurrency: the programs

    The programs of the service call only what the protocol permits, and expose material
    only when the use is authorized, audited, admitted and bound to its lease.  What
    follows for every interleaving of uses, recoveries and writers of secrets. *)

From S2P Require Import Prelude Programs GoText GoCrypto Canonical Identity Secret SecretService SecretStore SecretProtocol.
#[local] Open Scope string_scope.
#[local] Open Scope list_scope.
#[local] Open Scope Z_scope.
#[local] Open Scope go_scope.

Abbreviation history := (list (event SCall)) (only parsing).

(** ** Why material may leave the service *)
Section justification.
Context `{N : Normalizer}.

(** The use was authorized, durably audited and admitted. *)
Record approved (h : history) (authorization : AuthorizationRequest) (version : Z) (admission : UseAdmissionPermit) : Prop := MkApproved {
  ap_authorized : Event (Authorize authorization) (Value (Ok tt)) ∈ h;
  ap_audited : exists receipt,
    Event (AppendAudit (MkAudit (az_Operation authorization) (az_Access authorization) (az_InvocationID authorization) (az_SecretID authorization) version
      (az_Exposure authorization) (az_Endpoint authorization) (az_Audience authorization))) (Value (Ok receipt)) ∈ h /\
    au_Durable receipt = true /\ au_Sequence receipt <> 0;
  ap_admitted : exists request, Event (Admit request) (Value (Ok admission)) ∈ h /\ ar_Authorization request = authorization /\
    up_Authorization admission = authorization;
}.
(** The record was begun for exactly this recovery, under an approved gateway use. *)
Definition gateway_use_of (h : history) (r : UseRecoveryBinding) (record : SecretRecord) : Prop :=
  exists q lease, Event (StoreBegin q) (Value (Ok (record, lease))) ∈ h /\ bu_Recovery q = r /\
    bu_TenantID q = rb_TenantID r /\ bu_SecretID q = rb_SecretID r /\ bu_ExpectedVersion q = rb_SecretVersion r /\
    approved h (MkAuthorization OperationGatewayUse (rb_Access r) (rb_SecretID r) (rb_Exposure r) (rb_Endpoint r) (rb_Audience r) "")
      (rb_SecretVersion r) (bu_Admission q) /\
    sr_Active record = true /\ sr_TenantID record = rb_TenantID r /\ sr_SecretID record = rb_SecretID r /\ sr_Version record = rb_SecretVersion r /\
    sr_Exposure record = rb_Exposure r /\ sr_Endpoint record = rb_Endpoint r /\ sr_Audience record = rb_Audience r /\
    gateway_exposure (sr_Exposure record) = true.
Definition minted_for (h : history) (record : SecretRecord) (m : CredentialMaterial) : Prop :=
  exists request token, Event (Mint request) (Value (Ok token)) ∈ h /\ tm_TenantID request = sr_TenantID record /\
    tm_SecretID request = sr_SecretID record /\ tm_Version request = sr_Version record /\ tm_Endpoint request = sr_Endpoint record /\
    tm_Audience request = sr_Audience record /\
    cm_Value m = mt_Value token /\ cm_ExpiresAt m = Some (mt_ExpiresAt token) /\ mt_ExpiresAt token <= tm_ExpiresBy request.
(** The material of a record: its value, except for a record whose value is only a seed. *)
Definition material_of (h : history) (record : SecretRecord) (m : CredentialMaterial) : Prop :=
  cm_Exposure m = sr_Exposure record /\ cm_InjectionName m = sr_InjectionName record /\
  if decide (sr_Exposure record = ExposureShortLivedToken) then minted_for h record m else cm_Value m = sr_Value record /\ cm_ExpiresAt m = None.
Definition sandbox_use_of (h : history) (r : UseRecoveryBinding) (record : SecretRecord) : Prop :=
  exists q, Event (StoreAcquire q) (Value (Ok record)) ∈ h /\ aq_Recovery q = r /\
    aq_TenantID q = rb_TenantID r /\ aq_SecretID q = rb_SecretID r /\ aq_ExpectedVersion q = rb_SecretVersion r /\
    approved h (MkAuthorization OperationSandboxUse (rb_Access r) (rb_SecretID r) (rb_Exposure r) "" "" (rb_InvocationID r))
      (rb_SecretVersion r) (aq_Admission q) /\
    sr_Active record = true /\ sr_TenantID record = rb_TenantID r /\ sr_SecretID record = rb_SecretID r /\ sr_Version record = rb_SecretVersion r /\
    sr_Exposure record = rb_Exposure r /\ sandbox_exposure (sr_Exposure record) = true.

Definition justified (h : history) (X : Type) (c : SCall X) : Prop :=
  match c with
  | Dispatch d m => gd_Authority d = rb_Access (gd_Recovery d) /\ gd_Endpoint d = rb_Endpoint (gd_Recovery d) /\
      gd_Audience d = rb_Audience (gd_Recovery d) /\ exists record, gateway_use_of h (gd_Recovery d) record /\ material_of h record m
  | Mint request => exists r record, gateway_use_of h r record /\ sr_Exposure record = ExposureShortLivedToken /\ tm_Seed request = sr_Value record /\
      tm_TenantID request = sr_TenantID record /\ tm_Endpoint request = sr_Endpoint record /\ tm_Audience request = sr_Audience record
  | Use d p m => d = sandbox_dispatch_of (xp_Recovery p) /\ p = sandbox_permit_of (xp_Recovery p) /\
      Event (Prepare d (xp_Recovery p)) (Value (Ok p)) ∈ h /\
      exists record, sandbox_use_of h (xp_Recovery p) record /\ m = MkMaterial (sr_Exposure record) (sr_InjectionName record) (sr_Value record) None
  | _ => True
  end.
Definition allowed (h : history) (X : Type) (c : SCall X) : Prop := permitted h X c /\ justified h X c.
End justification.

(** ** The logic of programs that return a value or an error, or panic *)
Definition gives {A} (Q : history -> A -> Prop) (h : history) (o : outcome (res secret_error A)) : Prop :=
  match o with Value (Ok a) => Q h a | _ => True end.
Section logic.
Context (P : history -> forall X, SCall X -> Prop).
Lemma gives_then {A B} (p : Prog SCall (outcome (res secret_error A))) (f : A -> Prog SCall (outcome (res secret_error B))) Q (R : history -> B -> Prop) h :
  guarded P p (gives Q) h -> (forall l a, Q (l ++ h) a -> guarded P (f a) (gives R) (l ++ h)) -> guarded P (andThen p f) (gives R) h.
Proof. intros Hp Hf. eapply guarded_seq; [exact Hp|]. intros l [[a|e]|]; [apply Hf|done|done]. Qed.
Lemma gives_pure {A B} (r : res secret_error A) (f : A -> Prog SCall (outcome (res secret_error B))) (R : history -> B -> Prop) h :
  (forall a, r = Ok a -> guarded P (f a) (gives R) h) -> guarded P (andThen (pure r) f) (gives R) h.
Proof. destruct r as [a|e]; [|done]. intros Hf. by apply Hf. Qed.
Lemma gives_require {B} (b : bool) e (f : unit -> Prog SCall (outcome (res secret_error B))) (R : history -> B -> Prop) h :
  (b = true -> guarded P (f tt) (gives R) h) -> guarded P (andThen (require b e) f) (gives R) h.
Proof. intros Hf. apply gives_pure. intros [] H. apply Hf. destruct b; [done|]. discriminate H. Qed.
Lemma gives_call {A B} (c : SCall (outcome (res secret_error A))) g (f : A -> Prog SCall (outcome (res secret_error B))) (R : history -> B -> Prop) h :
  P h _ c -> (forall a, guarded P (f a) (gives R) (Event c (Value (Ok a)) :: h)) -> guarded P (andThen (call_or c g) f) (gives R) h.
Proof. intros Hc Hf. split; [done|]. intros [[a|e]|]; [apply Hf|done|done]. Qed.
Lemma gives_last {A} (c : SCall (outcome (res secret_error A))) g (R : history -> A -> Prop) h :
  P h _ c -> (forall a, R (Event c (Value (Ok a)) :: h) a) -> guarded P (call_or c g) (gives R) h.
Proof. intros Hc Hf. split; [done|]. intros [[a|e]|]; [apply Hf|done|done]. Qed.
End logic.

(** Calls that are always permitted and leave what is engaged, and the leases that were
    ended, as they are. *)
Definition passive {X} (c : SCall X) : bool :=
  match c with Dispatch _ _ | Prepare _ _ | Use _ _ _ | StoreEnd _ | StoreComplete _ | Mint _ => false | _ => true end.
Definition only_passive (h : history) (X : Type) (c : SCall X) : Prop := passive c = true.
Definition kept (K : history -> Prop) : Prop := forall h X (c : SCall X) x, passive c = true -> K h -> K (Event c x :: h).
Lemma passive_engages X (c : SCall X) : passive c = true -> engages c = None /\ (forall l, ~ ends c l).
Proof. destruct c; simpl; try done; (split; [done|by intros l []]). Qed.
Lemma passive_allowed h X (c : SCall X) : passive c = true -> allowed h X c.
Proof. by destruct c. Qed.
(** A part that makes only passive calls, within a program. *)
Lemma passive_part {A} (p : Prog SCall A) (K : history -> Prop) : kept K -> forall (Q : history -> A -> Prop) h,
  guarded only_passive p Q h -> K h -> guarded allowed p (fun h' a => Q h' a /\ K h') h.
Proof.
  intros Hkept. induction p as [a|X c k IH]; intros Q h; simpl; [done|]. intros [Hc Hk] HK. split; [by apply passive_allowed|].
  intros x. apply IH; [apply Hk|by apply Hkept].
Qed.

(** Nothing is engaged and no lease was ended. *)
Definition unused (h : history) : Prop := (forall rid, quiet h rid) /\ (forall l, ~ ended h l).
(** The lease of the recovery is held. *)
Definition holding (r : UseRecoveryBinding) (l : UseLease) (h : history) : Prop := owns h r l /\ ~ ended h l.
Definition resting (r : UseRecoveryBinding) (l : UseLease) (h : history) : Prop := holding r l h /\ quiet h (rb_RecoveryID r).
Lemma unused_nil : unused [].
Proof. split; [intros rid; exact I|by intros l []]. Qed.
Lemma kept_unused : kept unused.
Proof.
  intros h X c x [He Hn]%passive_engages [Hq Hl]. split; simpl; [intros rid; right; split; [apply Hq|by rewrite He]|].
  intros l [Hend|Hend]; [by apply (Hl l)|by apply (Hn l)].
Qed.
Lemma kept_holding r l : kept (holding r l).
Proof. intros h X c x [_ Hn]%passive_engages [Ho Hl]. split; simpl; [by left|]. intros [Hend|Hend]; [done|by apply (Hn l)]. Qed.
Lemma kept_resting r l : kept (resting r l).
Proof.
  intros h X c x Hp [Hh Hq]. split; [by apply kept_holding|]. right. split; [done|]. simpl. destruct (passive_engages _ _ Hp) as [-> _]. done.
Qed.

(** ** The common parts *)
Section parts.
Context `{N : Normalizer} (service : Service).

Definition authorized (authorization : AuthorizationRequest) (h : history) : Prop := Event (Authorize authorization) (Value (Ok tt)) ∈ h.
Lemma authorize_handle access handle operation endpoint audience invocationID h :
  guarded only_passive (authorizeHandle service access handle operation endpoint audience invocationID)
    (gives (fun h' _ => authorized (MkAuthorization operation access (ha_secretID handle) (ha_exposure handle) endpoint audience invocationID) h' /\
      ha_endpoint handle = endpoint /\ ha_audience handle = audience)) h.
Proof.
  apply guarded_ask; [done|]. intros now. apply gives_require. intros H. bools in H. destruct H as [[[[[[_ He] Ha] _] _] _] _].
  apply gives_last; [done|]. intros []. split; [|done]. unfold authorized, use_authorization. rewrite He, Ha. apply list_elem_of_here.
Qed.

Definition admitted (authorization : AuthorizationRequest) (permit : UseAdmissionPermit) (h : history) : Prop :=
  exists request, Event (Admit request) (Value (Ok permit)) ∈ h /\ ar_Authorization request = authorization /\ up_Authorization permit = authorization.
Lemma admit_handle access handle operation endpoint audience invocationID h :
  guarded only_passive (admitHandleUse access handle operation endpoint audience invocationID)
    (gives (fun h' permit => admitted (use_authorization operation access handle endpoint audience invocationID) permit h')) h.
Proof.
  apply guarded_ask; [done|]. intros now. apply gives_require. intros _. apply guarded_ask; [done|]. intros [[permit|e]|]; [| |done].
  - apply guarded_ask; [done|]. intros now'. destruct (permit_answers _ handle permit now') eqn:Hp; [|done].
    unfold permit_answers in Hp. bools in Hp. destruct Hp as [[[Hp _] _] _]. eexists. split; [apply list_elem_of_further, list_elem_of_here|by split].
  - apply guarded_ask; [done|]. by intros [e'|].
Qed.

Definition audited (event : AuditEvent) (h : history) : Prop :=
  exists receipt, Event (AppendAudit event) (Value (Ok receipt)) ∈ h /\ au_Durable receipt = true /\ au_Sequence receipt <> 0.
Lemma append_audit secretID version exposure endpoint audience access operation invocationID h :
  guarded only_passive (appendAudit secretID version exposure endpoint audience access operation invocationID)
    (gives (fun h' _ => audited (MkAudit operation access invocationID secretID version exposure endpoint audience) h')) h.
Proof.
  apply gives_call; [done|]. intros receipt. unfold require. destruct (au_Durable receipt && (au_Sequence receipt != 0)) eqn:Hr; [|done]. bools in Hr. exists receipt.
  split; [apply list_elem_of_here|]. by destruct Hr.
Qed.

Lemma record_fields access handle record : record_of_handle service access handle record = true ->
  sr_Active record = true /\ sr_TenantID record = ac_TenantID access /\ sr_SecretID record = ha_secretID handle /\ sr_Version record = ha_version handle /\
  sr_Exposure record = ha_exposure handle /\ sr_Endpoint record = ha_endpoint handle /\ sr_Audience record = ha_audience handle /\
  sr_DestroySandboxAfterUse record = ha_destroySandboxAfterUse handle.
Proof. unfold record_of_handle. intros H. bools in H. tauto. Qed.

(** The deferred release. *)
Lemma release_held {A} r l (with_recovery : A -> A) (result : outcome (A * list secret_error) * bool) h :
  (result.2 = true -> resting r l h) -> guarded allowed (release_after l with_recovery result) (fun _ _ => True) h.
Proof.
  intros Hr. unfold release_after. destruct result as [o [|]]; simpl in *; [|done]. destruct (Hr eq_refl) as [[Ho Hn] Hq].
  split; [split; [|done]; split; [done|by exists r]|]. by intros [[[]|e]|]; destruct o as [[a errs]|].
Qed.
End parts.

(** What was seen stays seen. *)
Lemma later {A} (x : A) l h : x ∈ h -> x ∈ l ++ h.
Proof. intros H. apply elem_of_app. by right. Qed.
Lemma approved_later h l authorization version admission : approved h authorization version admission -> approved (l ++ h) authorization version admission.
Proof.
  intros [H1 (receipt & H2 & H2') (request & H3 & H3')]. constructor; [by apply later|exists receipt|exists request]; (split; [by apply later|done]).
Qed.
Lemma gateway_use_later h l r record : gateway_use_of h r record -> gateway_use_of (l ++ h) r record.
Proof.
  intros (q & lease & Hq & Hr & Ht & Hs & Hv & Ha & Hrest). exists q, lease. repeat (split; [first [by apply later|by apply approved_later|done]|]). done.
Qed.

(** ** Gateway uses *)
Section gateway.
Context `{N : Normalizer} (service : Service).

Definition gateway_authorization (request : GatewayUseRequest) : AuthorizationRequest :=
  use_authorization OperationGatewayUse (gq_Access request) (gq_Handle request) (gq_Endpoint request) (gq_Audience request) "".
Lemma gateway_admitted ctx request h :
  guarded only_passive (gateway_admission service ctx request)
    (gives (fun h' '(r, admission) => (exists rid, r = gateway_recovery request rid) /\ authorized (gateway_authorization request) h' /\
       admitted (gateway_authorization request) admission h' /\
       ha_endpoint (gq_Handle request) = gq_Endpoint request /\ ha_audience (gq_Handle request) = gq_Audience request)) h.
Proof.
  apply gives_pure. intros [] _. apply gives_require. intros _. apply gives_require. intros _.
  eapply gives_then; [apply authorize_handle|]. intros l [] (Hauth & He & Ha). apply guarded_ask; [done|]. intros [rid|]; [|done].
  eapply gives_then; [apply admit_handle|]. intros l' admission Hadm. simpl. split; [by exists rid|]. split; [|by split_and!].
  apply later, list_elem_of_further, Hauth.
Qed.

Lemma begin_held access handle r admission h : unused h ->
  guarded allowed (beginHandleUse service access handle r admission)
    (fun h' o => match o with
       | Value (Ok (record, lease)) => resting r lease h' /\ record_of_handle service access handle record = true /\
           Event (StoreBegin (MkBegin (ac_TenantID access) (ha_secretID handle) (ha_version handle) r admission)) (Value (Ok (record, lease))) ∈ h'
       | _ => True
       end) h.
Proof.
  intros [Hq Hl]. apply guarded_ask; [by apply passive_allowed|]. intros [[[record lease]|e]|]; [|done|done]. set (e := Event _ _).
  assert (Hrest : resting r lease (e :: h)).
  { split; [split; simpl; [right; split; [done|by exists record]|intros [Hend|[]]; by apply (Hl lease)]|]. right. by split; [apply Hq|]. }
  destruct (record_of_handle service access handle record) eqn:Hrec; [split; [done|]; split; [done|apply list_elem_of_here]|].
  destruct Hrest as [[Ho Hn] Hqu]. split; [split; [|done]; split; [done|by exists r]|]. by intros [[[]|e']|].
Qed.

Lemma gateway_material_held r l record h : resting r l h -> gateway_use_of h r record ->
  guarded allowed (gateway_material service record)
    (fun h' m => resting r l h' /\ match m.1 with Value (Ok m) => material_of h' record m | _ => True end) h.
Proof.
  intros Hr Hu. unfold gateway_material. destruct (decide (sr_Exposure record = ExposureShortLivedToken)) as [He|He].
  2:{ rewrite bool_decide_false by done. split; [done|]. split; [done|]. split; [done|]. by rewrite decide_False. }
  rewrite bool_decide_true by done. unfold mint_token. destruct (hasMinter service); [|done]. apply guarded_ask; [by apply passive_allowed|].
  intros now. apply guarded_ask.
  { split; [done|]. exists r, record. split; [by apply (gateway_use_later _ [_])|]. done. }
  intros minted. set (request := MkMint _ _ _ _ _ _ _). assert (Hr' : resting r l (Event (Mint request) minted :: Event Now now :: h)).
  { destruct Hr as [[Ho Hn] Hq]. split; [split; simpl; [by left; left|tauto]|]. right. split; [|done]. right. by split. }
  destruct minted as [[token|e]|]; [|done|done]. case_match eqn:Hbad; [done|]. bools in Hbad. destruct Hbad as [_ Hexp].
  split; [done|]. split; [done|]. split; [done|]. rewrite decide_True by done. exists request, token. split; [apply list_elem_of_here|].
  by split_and!; simpl; try done; lia.
Qed.

Lemma gateway_dispatch_held r l request record m h : resting r l h -> gateway_use_of h r record -> material_of h record m ->
  rb_Access r = gq_Access request -> rb_Endpoint r = gq_Endpoint request -> rb_Audience r = gq_Audience request ->
  guarded allowed (gateway_dispatch service request r m) (fun h' result => result.2 = true -> resting r l h') h.
Proof.
  intros [[Ho Hn] Hq] Hu Hm H1 H2 H3. apply guarded_ask; [split; [by exists l|by split_and!; [..|by exists record]]|].
  intros [[response|e]|]; [|done|done]. case_match eqn:Hbad; [done|]. bools in Hbad. destruct Hbad as [Hd Hr].
  assert (Hrest : resting r l (Event (Dispatch (MkDispatch (gq_Access request) (gq_Endpoint request) (gq_Audience request) (gq_Payload request) r) m)
    (Value (Ok response)) :: h)).
  { split; [split; simpl; [by left|tauto]|]. left. simpl. by rewrite Hd, bool_decide_true. }
  destruct (maximumResponseBytes service <? zlen (gr_Payload response)); intros _; exact Hrest.
Qed.

Lemma gateway_body_held r l request record h : resting r l h ->
  (forall h', audited (MkAudit OperationGatewayUse (gq_Access request) "" (sr_SecretID record) (sr_Version record) (sr_Exposure record) (sr_Endpoint record)
     (sr_Audience record)) (h' ++ h) -> gateway_exposure (sr_Exposure record) = true -> gateway_use_of (h' ++ h) r record) ->
  rb_Access r = gq_Access request -> rb_Endpoint r = gq_Endpoint request -> rb_Audience r = gq_Audience request ->
  guarded allowed (gateway_body service request r record) (fun h' result => result.2 = true -> resting r l h') h.
Proof.
  intros Hr Hu H1 H2 H3. unfold gateway_body. destruct (gateway_exposure (sr_Exposure record)) eqn:He; [|by intros _]. cbn [negb].
  eapply guarded_seq; [apply (passive_part _ _ (kept_resting r l) _ _ (append_audit _ _ _ _ _ _ _ _ _) Hr)|].
  intros l1 o [Haud Hr1]. destruct o as [[[]|e]|]; [|by intros _|by intros _]. specialize (Hu l1 Haud eq_refl).
  eapply guarded_seq; [by apply gateway_material_held|]. intros l2 [m b] [Hr2 Hm]. simpl in *. destruct m as [[m|e]|]; [|by intros _|by intros _].
  apply (gateway_dispatch_held _ _ _ record); try done. by apply gateway_use_later.
Qed.

Lemma use_gateway_allowed ctx request : guarded allowed (UseGateway service ctx request) (fun _ _ => True) [].
Proof.
  eapply guarded_seq; [apply (passive_part _ _ kept_unused _ _ (gateway_admitted _ _ _) unused_nil)|].
  intros l0 o [Hadm Hun]. destruct o as [[[r admission]|e]|]; [|done|done]. simpl in Hadm. destruct Hadm as ([rid ->] & Hauth & Hadm & Hend & Haud).
  eapply guarded_seq; [by apply begin_held|]. intros l1 o Hb. destruct o as [[[record lease]|e]|]; [|done|done].
  destruct Hb as (Hrest & Hrec & Hev). destruct (record_fields _ _ _ _ Hrec) as (Hact & Ht & Hs & Hv & Hx & He & Ha & Hd).
  eapply guarded_seq; [apply (gateway_body_held _ lease); try done|]; [|intros l2 result Hres; eapply release_held; exact Hres].
  intros l2 Hau Hexp. exists (MkBegin (ac_TenantID (gq_Access request)) (ha_secretID (gq_Handle request)) (ha_version (gq_Handle request))
    (gateway_recovery request rid) admission), lease.
  split; [by apply later|]. split_and!; try done; simpl; try congruence. constructor; simpl.
  - by apply later, later.
  - rewrite <- Hs, <- Hv, <- Hx, <- Hend, <- Haud, <- He, <- Ha. apply Hau.
  - destruct Hadm as (q & Hq & Hq'). exists q. split; [by apply later, later|done].
Qed.
End gateway.

(** ** Sandbox uses *)
Section sandbox.
Context `{N : Normalizer} (service : Service).

(** A use that ended or panicked: it releases its lease only when nothing is engaged. *)
Definition held (r : UseRecoveryBinding) (l : UseLease) (h : history) (result : outcome (SandboxCleanupReceipt * list secret_error) * bool) : Prop :=
  holding r l h /\ (result.2 = true -> quiet h (rb_RecoveryID r)) /\ (result.1 = Panics -> result.2 = false).

Definition contained (r : UseRecoveryBinding) (l : UseLease) (h : history) (o : outcome (SandboxCleanupReceipt * option secret_error)) : Prop :=
  holding r l h /\ match o with Value (_, Some ErrContainmentUnconfirmed) | Panics => True | Value _ => quiet h (rb_RecoveryID r) end.
Lemma quarantine_held r l dispatch h : holding r l h -> guarded allowed (quarantine_use dispatch (sandbox_permit_of r)) (contained r l) h.
Proof.
  intros Hh. apply guarded_ask; [by apply passive_allowed|]. intros quarantined.
  assert (Hh' : holding r l (Event (Quarantine dispatch (sandbox_permit_of r)) quarantined :: h)) by (by apply kept_holding).
  destruct quarantined as [[receipt|e]|]; [|by split|by split]. destruct (quarantine_durable receipt (sandbox_permit_of r)) eqn:Hq; [|by split].
  split; [done|]. left. simpl. by rewrite Hq.
Qed.
Lemma contain_held r l dispatch exposure (destroy : bool) h : holding r l h -> rb_Exposure r = exposure -> rb_DestroySandboxAfterUse r = destroy ->
  guarded allowed (containSandboxUse dispatch (sandbox_permit_of r) exposure destroy) (contained r l) h.
Proof.
  intros Hh <- <-. apply guarded_ask; [by apply passive_allowed|]. intros cleaned.
  assert (Hh' : holding r l (Event (Cleanup dispatch (sandbox_permit_of r)) cleaned :: h)) by (by apply kept_holding).
  destruct cleaned as [[receipt|e]|]; [|by apply quarantine_held|by split]. case_match eqn:Hc; [|by apply quarantine_held].
  split; [done|]. left. simpl. unfold clean_for. simpl in *. by rewrite Hc.
Qed.
Lemma contain_and_held r l dispatch exposure (destroy : bool) finish h : holding r l h -> rb_Exposure r = exposure -> rb_DestroySandboxAfterUse r = destroy ->
  (forall receipt h', guarded only_passive (finish receipt) (fun _ _ => True) h') ->
  guarded allowed (contain_and dispatch (sandbox_permit_of r) exposure destroy finish) (held r l) h.
Proof.
  intros Hh He Hd Hf. eapply guarded_seq; [by apply (contain_held r l)|]. intros l1 o [Hh' Hq].
  destruct o as [[receipt [e|]]|]; [| |by split_and!].
  - destruct e; by split_and!.
  - eapply guarded_seq; [apply (passive_part _ _ (kept_resting r l) _ _ (Hf receipt _)); by split|]. intros l2 a [_ [Hh2 Hq2]]. by split_and!.
Qed.
Lemma fails_passive e receipt h : guarded only_passive (fails_with e receipt) (fun _ _ => True) h.
Proof. done. Qed.
Lemma acquire_failed_passive e receipt h : guarded only_passive (acquire_failed e receipt) (fun _ _ => True) h.
Proof. split; [done|]. by intros [c|]. Qed.

Context (request : SandboxUseRequest) (rid : string).
Let r := sandbox_recovery request rid.
Let permit := sandbox_permit_of r.
Let dispatch := sandbox_dispatch_of r.
Definition sandbox_authorization : AuthorizationRequest :=
  use_authorization OperationSandboxUse (sq_Access request) (sq_Handle request) "" "" (sq_InvocationID request).
Definition sandbox_audit : AuditEvent :=
  MkAudit OperationSandboxUse (sq_Access request) (sq_InvocationID request) (ha_secretID (sq_Handle request)) (ha_version (sq_Handle request))
    (ha_exposure (sq_Handle request)) "" "".
(** The use is authorized and audited. *)
Definition cleared (h : history) : Prop :=
  authorized sandbox_authorization h /\ audited sandbox_audit h /\ sandbox_exposure (ha_exposure (sq_Handle request)) = true.
Lemma cleared_later h h' : cleared h -> cleared (h' ++ h).
Proof. intros (H1 & (receipt & H2 & H2') & H3). split; [by apply later|]. split; [|done]. exists receipt. split; [by apply later|done]. Qed.

Lemma inject_held l record h : holding r l h -> Event (Prepare dispatch r) (Value (Ok permit)) ∈ h -> sandbox_use_of h r record ->
  sr_DestroySandboxAfterUse record = rb_DestroySandboxAfterUse r -> guarded allowed (inject request dispatch permit record) (held r l) h.
Proof.
  intros Hh Hp Hu Hd. assert (He : sr_Exposure record = rb_Exposure r) by (destruct Hu as (q & Hu); apply Hu).
  apply guarded_ask.
  { split; [split; [by exists l|done]|]. split; [done|]. split; [done|]. split; [done|]. by exists record. }
  set (m := MkMaterial _ _ _ _). intros used. assert (Hh' : holding r l (Event (Use dispatch permit m) used :: h)).
  { destruct Hh as [Ho Hn]. split; simpl; [by left|tauto]. }
  destruct used as [[receipt|e]|]; [|by apply contain_and_held|by split_and!].
  case_match eqn:Hc; [|by apply contain_and_held]. split; [done|]. split; [|done]. intros _. left. simpl. unfold clean_for. simpl in *.
  rewrite He, Hd in Hc. simpl in Hc. by rewrite Hc.
Qed.

Lemma acquire_held l admission h : holding r l h -> Event (Prepare dispatch r) (Value (Ok permit)) ∈ h -> cleared h -> admitted sandbox_authorization admission h ->
  guarded allowed (acquire_and_inject service request dispatch permit l admission) (held r l) h.
Proof.
  intros Hh Hp Hc Ha. apply guarded_ask; [by apply passive_allowed|]. intros acquired. set (q := MkAcquire _ _ _ _ _ _).
  assert (Hh' : holding r l (Event (StoreAcquire q) acquired :: h)) by (by apply kept_holding).
  destruct acquired as [[record|e]|]; [|apply contain_and_held; try done; intros; apply acquire_failed_passive|by split_and!].
  case_match eqn:Hrec; [|by apply contain_and_held]. destruct (record_fields _ _ _ _ Hrec) as (Hact & Ht & Hs & Hv & Hx & _ & _ & Hd).
  apply inject_held; [done|by apply list_elem_of_further| |done]. exists q. split; [apply list_elem_of_here|].
  destruct Hc as (H1 & (receipt & H2 & H2') & H3). destruct Ha as (aq & H4 & H4').
  split_and!; try done; simpl; try congruence. constructor; simpl; [by apply list_elem_of_further|exists receipt|exists aq];
    (split; [by apply list_elem_of_further|done]).
Qed.

Lemma sandbox_body_held l h : resting r l h -> cleared h -> guarded allowed (sandbox_body service request dispatch permit l) (held r l) h.
Proof.
  intros [Hh Hq] Hc. apply guarded_ask; [split; [by exists l|done]|]. intros prepared.
  assert (Hh' : holding r l (Event (Prepare dispatch r) prepared :: h)). { destruct Hh as [Ho Hn]. split; simpl; [by left|tauto]. }
  destruct prepared as [[p|e]|]; [|by apply contain_and_held|by split_and!].
  case_match eqn:Hp; [by apply contain_and_held|]. apply neq_test_false in Hp as ->.
  eapply guarded_seq; [apply (passive_part _ _ (kept_holding r l) _ _ (admit_handle _ _ _ _ _ _ _) Hh')|].
  intros l1 o [Ha Hh1]. destruct o as [[admission|e]|]; [|by apply contain_and_held|by split_and!].
  apply acquire_held; [done|by apply later, list_elem_of_here|by apply cleared_later, (cleared_later h [_])|done].
Qed.

Lemma sandbox_use_held l h : resting r l h -> cleared h ->
  guarded allowed (sandbox_use service request dispatch permit l) (fun h' result => result.2 = true -> resting r l h') h.
Proof.
  intros Hr Hc. eapply guarded_seq; [by apply sandbox_body_held|]. intros l1 [o b] (Hh & Hq & Hp). cbn [fst snd] in *.
  destruct o as [x|]; [intros Hb; by split; [|apply Hq]|]. rewrite (Hp eq_refl).
  eapply guarded_seq; [by apply (contain_held r l)|]. intros l2 o [Hh2 Hq2].
  destruct o as [[receipt [e|]]|]; [destruct e|..]; simpl; try done; intros _; by split.
Qed.
End sandbox.

(** ** The programs *)
Section programs.
Context `{N : Normalizer}.

Lemma reservation_cleared service ctx request h :
  guarded only_passive (sandbox_reservation service ctx request)
    (gives (fun h' '(r, l) => (exists rid, r = sandbox_recovery request rid) /\ owns h' r l /\ cleared request h')) h.
Proof.
  apply gives_pure. intros [] _. apply gives_require. intros _. apply gives_require. intros _.
  eapply gives_then; [apply authorize_handle|]. intros l1 [] (Hauth & _ & _). apply gives_require. intros Hexp.
  eapply gives_then; [apply append_audit|]. intros l2 [] (receipt & Haud & Haud'). apply guarded_ask; [done|]. intros [rid|]; [|done].
  eapply gives_then; [apply admit_handle|]. intros l3 admission _. apply gives_call; [done|]. intros lease.
  split; [by exists rid|]. split; [right; by split|]. apply (cleared_later _ _ [_]), cleared_later, (cleared_later _ _ [_]).
  split; [by apply later|]. split; [by exists receipt|done].
Qed.
Lemma use_sandbox_allowed service ctx request : guarded allowed (UseSandbox service ctx request) (fun _ _ => True) [].
Proof.
  eapply guarded_seq; [apply (passive_part _ _ kept_unused _ _ (reservation_cleared _ _ _ _) unused_nil)|].
  intros l1 o [Hr [Hq Hn]]. destruct o as [[[r lease]|e]|]; [|done|done]. simpl in Hr. destruct Hr as ([rid ->] & Ho & Hc).
  eapply guarded_seq; [apply (sandbox_use_held service request rid lease); [|done]; split; [by split|apply Hq]|].
  intros l2 result Hres. eapply release_held. exact Hres.
Qed.
Lemma issue_allowed service ctx request : guarded allowed (IssueHandle service ctx request) (fun _ _ => True) [].
Proof.
  eapply guarded_mono with (Q := gives (fun _ _ => True)); [|done]. apply gives_pure. intros [] _. apply guarded_ask; [by apply passive_allowed|].
  intros now. apply gives_require. intros _. apply gives_call; [by apply passive_allowed|]. intros []. apply gives_call; [by apply passive_allowed|].
  intros record. apply gives_require. intros _. apply gives_require. intros _. done.
Qed.

Lemma recovery_checked operation available exposed ctx authority r h :
  guarded allowed (recovery_checks operation available exposed ctx authority r) (gives (fun _ _ => True)) h.
Proof.
  apply gives_pure. intros [] _. apply gives_require. intros _. apply gives_call; [by apply passive_allowed|]. intros [].
  by apply gives_last; [apply passive_allowed|].
Qed.
Lemma recovery_audited operation authority tenantID r h :
  guarded allowed (appendRecoveryAudit operation authority tenantID r) (gives (fun _ _ => True)) h.
Proof. apply gives_call; [by apply passive_allowed|]. intros receipt. simpl. by case_match. Qed.
Lemma recover_sandbox_allowed service ctx authority r : guarded allowed (RecoverSandbox service ctx authority r) (fun _ _ => True) [].
Proof.
  apply (guarded_seq allowed _ _ (gives (fun h' _ => saw_contained h' (rb_RecoveryID r)))).
  - eapply gives_then; [apply recovery_checked|]. intros l1 [] _. eapply gives_then; [apply recovery_audited|]. intros l2 [] _.
    apply gives_call; [by apply passive_allowed|]. intros receipt. apply gives_require. intros Hq. right. simpl. by rewrite Hq.
  - intros l1 [[receipt|e]|] Hc; [|done|done]. split; [by split|]. by intros [[[]|e]|].
Qed.
Lemma recover_gateway_allowed service ctx authority r : guarded allowed (RecoverGateway service ctx authority r) (fun _ _ => True) [].
Proof.
  eapply guarded_seq; [apply recovery_checked|]. intros l1 [[[]|e]|] _; [|done|done].
  apply (guarded_seq allowed _ _ (gives (fun _ _ => True))); [|by intros l2 [[[]|e]|]].
  eapply gives_then; [apply recovery_audited|]. intros l2 [] _. apply gives_call; [by apply passive_allowed|]. intros receipt.
  apply gives_require. intros Hr. apply gives_last; [|done]. split; [|done]. right. simpl. by rewrite Hr.
Qed.
Lemma list_allowed ctx request : guarded allowed (ListPendingRecoveries ctx request) (fun _ _ => True) [].
Proof.
  eapply guarded_mono with (Q := gives (fun _ _ => True)); [|done]. apply gives_pure. intros [] _. apply gives_require. intros _.
  apply gives_call; [by apply passive_allowed|]. intros []. eapply gives_then; [apply recovery_audited|]. intros l [] _.
  split; [by apply passive_allowed|]. by intros [[page|e]|].
Qed.

(** ** Runs *)
Inductive starts : forall A : Type, Prog SCall A -> Prop :=
| start_issue service ctx request : starts _ (IssueHandle service ctx request)
| start_gateway service ctx request : starts _ (UseGateway service ctx request)
| start_sandbox service ctx request : starts _ (UseSandbox service ctx request)
| start_recover_sandbox service ctx authority r : starts _ (RecoverSandbox service ctx authority r)
| start_recover_gateway service ctx authority r : starts _ (RecoverGateway service ctx authority r)
| start_list ctx request : starts _ (ListPendingRecoveries ctx request).
Definition secret_step := pool_step call_sem env_step starts.

Lemma starts_allowed A (p : Prog SCall A) : starts A p -> guarded allowed p (fun _ _ => True) [].
Proof.
  destruct 1; [apply issue_allowed|apply use_gateway_allowed|apply use_sandbox_allowed|apply recover_sandbox_allowed|apply recover_gateway_allowed|].
  apply list_allowed.
Qed.

(** Every call of the history was justified by what came before it. *)
Fixpoint traced (h : history) : Prop := match h with [] => True | e :: rest => traced rest /\ justified rest _ (ev_call _ e) end.
Lemma traced_at h1 e h2 : traced (h1 ++ e :: h2) -> justified h2 _ (ev_call _ e).
Proof. induction h1 as [|e' h1 IH]; simpl; intros [H1 H2]; [done|by apply IH]. Qed.

Lemma secret_runs_ok st : rtc secret_step (world0, []) st ->
  pool_ok allowed world_ok (fun w i h => assured w i h /\ traced h) st.
Proof.
  intros Hrun. eapply (pool_invariant call_sem env_step starts allowed world_ok (fun w i h => assured w i h /\ traced h)); [| | | | |exact Hrun].
  - intros w w' i h X c x Hw [Ha Ht] [Hp Hj] Hsem. destruct (secret_call_keeps w w' i h X c x Hw Ha Hp Hsem) as (Hw' & Ha' & Hothers).
    split; [done|]. split; [by split|]. intros j h' Hji [Hb Hb']. split; [by apply Hothers|done].
  - intros w w' Hw Henv. destruct (secret_env_keeps w w' Hw Henv) as [Hw' Hkeep]. split; [done|]. intros j h [Hb Hb']. split; [by apply Hkeep|done].
  - apply starts_allowed.
  - intros w i _. split; [apply assured_nil|done].
  - apply secret_world_initial.
Qed.

Lemma fenced_swap s id l ctx locked version next : store_ok s -> leases s !! id = Some l ->
  sr_TenantID next = ul_TenantID l -> sr_SecretID next = ul_SecretID l -> exists e, CompareAndSwap ctx locked s version next = (Err e, s).
Proof.
  intros Hok Hl Ht Hs. destruct (CompareAndSwap ctx locked s version next) as [a s'] eqn:Hc.
  destruct (CompareAndSwap_effect _ _ _ _ _ _ _ Hc) as [[-> [e ->]]|(_ & H0 & _)]; [by exists e|].
  destruct (so_lease _ Hok _ _ Hl) as (_ & [Hone _] & _). apply idle_key in H0; [|done]. unfold lease_key in Hone. rewrite Ht, Hs in H0. congruence.
Qed.

(** C22: whatever gateway uses, sandbox uses and recoveries run together, with dependencies
    that fail or panic, store calls whose answers are lost, processes that stop at any
    point and administrators that rotate or revoke secrets, a credential whose material
    may still be live at a gateway or in a sandbox keeps its lease and its durable
    recovery, its record stays active at the version that was used, and every rotation or
    revocation of it is refused.  The one exception: the store has completed the recovery,
    and a containment of it was confirmed in the run, so the material became live only
    after that containment. *)
Theorem secret_fenced_while_exposed st rid : rtc secret_step (world0, []) st -> rid ∈ w_engaged st.1 ->
  let s := w_store st.1 in
  (exists id l r record,
    leaseByRecoveryID s !! rid = Some id /\ leases s !! id = Some l /\ recoveryByLease s !! id = Some r /\ rb_RecoveryID r = rid /\
    records s !! lease_key l = Some record /\ sr_Active record = true /\ sr_Version record = rb_SecretVersion r /\
    forall ctx locked version next, sr_TenantID next = rb_TenantID r -> sr_SecretID next = rb_SecretID r ->
      exists e, CompareAndSwap ctx locked s version next = (Err e, s)) \/
  (rid ∈ w_contained st.1 /\ exists r, completedRecoveries s !! rid = Some r).
Proof.
  intros Hrun He s. destruct (secret_runs_ok st Hrun) as [[Hst _ Hen _ _] _]. destruct (Hen rid He) as [[id Hid]|[Hc [r Hr]]]; [left|right; eauto].
  destruct (so_rid _ Hst _ _ Hid) as (r & Hr & Hrid). destruct (recovery_bound _ _ _ Hst Hr) as (l & Hl & _ & _ & Ht & Hs & Hv).
  destruct (so_lease _ Hst _ _ Hl) as (_ & (_ & record & Hrec & Hact & Hver) & _). exists id, l, r, record.
  split_and!; try done; [congruence|]. intros ctx locked version next Hnt Hns. apply (fenced_swap s id l); [done|done|congruence|congruence].
Qed.

(** C23: in every such run, every call that carries secret material out of the service was
    preceded, in the process that made it, by a successful authorization, a durable audit
    record and a current admission of exactly this use, and by a store call that returned
    the active record of the version under the recovery of the use: a gateway receives it
    only for the endpoint and audience of the record, a token minter only the seed of a
    short-lived token, and a sandbox only after it confirmed the permit of this recovery. *)
Theorem exposures_justified st i p X (c : SCall X) (x : X) later earlier : rtc secret_step (world0, []) st ->
  st.2 !! i = Some p -> pr_history p = later ++ Event c x :: earlier -> justified earlier X c.
Proof. intros Hrun Hp Hh. destruct (secret_runs_ok st Hrun) as [_ Hpool]. destruct (Hpool i p Hp) as [[_ Ht] _]. rewrite Hh in Ht. apply (traced_at _ _ _ Ht). Qed.
End programs.

(** ** Secrets: a run

    A credential is created, a gateway use of it fails after the dispatch, the credential
    is fenced, and the recovery of the gateway releases it; evaluated on concrete data. *)

#[local] Existing Instance id_normalizer.

Definition id_of (kind : string) : string := id_text kind (base32_EncodeToString (repeat (to_byte 0) 16)).
Definition sample_access : AccessContext :=
  MkAccess (id_of "tenant") (id_of "subject") (id_of "sess") (id_of "ws") (id_of "turn") (id_of "runtime") 1 1 1 1 "secrets.use" "binding" 5000.
Definition sample_endpoint : string := "https://api.example.com/v1".
Definition sample_record (version : Z) : SecretRecord :=
  MkRecord "api-key" (id_of "tenant") version ExposureGatewayHeader (to_bytes "s3cr3t") "Authorization" sample_endpoint "api" true false.
Definition sample_service : Service := MkService true true true 1000 1000 1000 900 300 "binding" 30.
Definition sample_handle : Handle := MkHandle sample_access "api-key" 1 ExposureGatewayHeader sample_endpoint "api" false "" 2000.
Definition sample_use : GatewayUseRequest := MkGatewayUse sample_access sample_handle sample_endpoint "api" (to_bytes "request").
Definition sample_recovery : UseRecoveryBinding := gateway_recovery sample_use (id_of "op").

(** Dependencies at the time 1000 that succeed, except that the gateway and the sandbox fail
    after they received the material, the cleanup of a sandbox fails and the minter fails. *)
Definition handle (i : nat) (X : Type) (c : SCall X) (w : World) : X * World :=
  let exposing {Y} (c : SCall Y) (y : Y) : Y * World := (y, exposed w c y) in
  let leaseID := if decide (id_of "lease" ∈ w_issued w) then None else Some (id_of "lease") in
  match c in SCall X return X * World with
  | Now => (1000, w)
  | ContextErr => (None, w)
  | NewOperationID => (Some (id_of "op"), w)
  | Authorize _ => (Value (Ok tt), w)
  | Admit q => (Value (Ok (MkPermit (ar_Authorization q) (ar_HandleExpiresAt q) (ar_RequestedAt q) (ar_HandleExpiresAt q) "proof")), w)
  | AppendAudit _ => (Value (Ok (MkAuditReceipt true 1)), w)
  | AuthorizeRecovery _ => (Value (Ok tt), w)
  | AppendRecovery _ => (Value (Ok (MkAuditReceipt true 1)), w)
  | StoreGet t id => (Value (Get None None (w_store w) t id), w)
  | StoreBegin q =>
      let '(a, s) := BeginUse None None leaseID 1000 (w_store w) q in
      (Value a, begin_with w s leaseID (if is_ok a then <[rb_RecoveryID (bu_Recovery q) := i]> (w_holder w) else w_holder w))
  | StoreReserve q =>
      let '(a, s) := ReserveUse None None leaseID 1000 (w_store w) q in
      (Value a, begin_with w s leaseID (if is_ok a then <[rb_RecoveryID (bu_Recovery q) := i]> (w_holder w) else w_holder w))
  | StoreAcquire q => let '(a, s) := AcquireReservedUse None None 1000 (w_store w) q in (Value a, set_store w s)
  | StoreEnd l => let '(a, s) := EndUse None None (w_store w) l in (Value a, set_store w s)
  | StoreValidate r => (Value (ValidateUseRecovery None None (w_store w) r), w)
  | StoreComplete r => let '(a, s) := CompleteUseRecovery None None (w_store w) r in (Value a, set_store w s)
  | StoreList q => (Value (ListPendingUseRecoveries None None (w_store w) q), w)
  | Mint _ => (Value (Err ErrDependency), w)
  | Dispatch d m => exposing (Dispatch d m) (Value (Err ErrDependency))
  | RecoverDispatch r => exposing (RecoverDispatch r) (Value (Ok (MkGatewayReceipt (Some r) true true)))
  | Prepare d r => exposing (Prepare d r) (Value (Ok (sandbox_permit_of r)))
  | Use d p m => exposing (Use d p m) (Value (Err ErrDependency))
  | Cleanup d p => exposing (Cleanup d p) (Value (Err ErrDependency))
  | Quarantine d p => exposing (Quarantine d p) (Value (Ok (MkQuarantine (xp_InvocationID p) (xp_RecoveryID p) (xp_ResolvedCacheKey p) true)))
  end.

Lemma secret_handle_sound i X (c : SCall X) w : call_sem w i X c (handle i X c w).1 (handle i X c w).2.
Proof.
  assert (Hfresh : forall id, (if decide (id_of "lease" ∈ w_issued w) then None else Some (id_of "lease")) = Some id -> id ∉ w_issued w).
  { intros id. case_decide; [done|]. by intros [= <-]. }
  destruct c; cbn -[BeginUse ReserveUse AcquireReservedUse EndUse CompleteUseRecovery Get ValidateUseRecovery ListPendingUseRecoveries exposed];
    try done; try (split; [done|]; exists None, None; by left).
  - destruct (BeginUse None None _ 1000 (w_store w) request) as [a s] eqn:Heq. do 4 eexists. exists a, s. split; [exact Heq|]. split; [exact Hfresh|]. by left.
  - destruct (ReserveUse None None _ 1000 (w_store w) request) as [a s] eqn:Heq. do 4 eexists. exists a, s. split; [exact Heq|]. split; [exact Hfresh|]. by left.
  - destruct (AcquireReservedUse None None 1000 (w_store w) request) as [a s] eqn:Heq. exists None, None, 1000, a, s. split; [exact Heq|]. split; [by left|done].
  - destruct (EndUse None None (w_store w) lease) as [a s] eqn:Heq. exists None, None, a, s. split; [exact Heq|]. split; [by left|done].
  - destruct (CompleteUseRecovery None None (w_store w) recovery) as [a s] eqn:Heq. exists None, None, a, s. split; [exact Heq|]. split; [by left|done].
Qed.

Definition run_at {A} (i : nat) (p : Prog SCall A) (w : World) : A * World * list (event SCall) := drive (handle i) p w [].
Definition stored : World := set_store world0 (CompareAndSwap None None (w_store world0) 0 (sample_record 1)).2.
Definition used : outcome (GatewayResponse * list secret_error) * World * list (event SCall) := run_at 0 (UseGateway sample_service None sample_use) stored.
Definition failed : World := used.1.2.
Definition recovered : outcome (option UseRecoveryBinding * option secret_error) * World * list (event SCall) :=
  run_at 1 (RecoverGateway sample_service None (MkAuthority (id_of "tenant") (id_of "subject")) sample_recovery) failed.
Definition released : World := recovered.1.2.

(** The gateway failed with the material: the credential cannot be rotated until the
    recovery of the gateway is confirmed, and can be afterwards. *)
Example gateway_failure :
  let rotate (w : World) := (CompareAndSwap None None (w_store w) 1 (sample_record 2)).1 in
  used.1.1 = Value (recovery_response sample_recovery, [ErrGatewayFailed]) /\
  elements (w_engaged failed) = [id_of "op"] /\ rotate failed = Err ErrStoreInUse /\
  recovered.1.1 = Value (Some sample_recovery, None) /\ elements (w_engaged released) = [] /\ rotate released = Ok tt.
Proof. vm_compute. split_and!; reflexivity. Qed.

Lemma secret_run_program A (p : Prog SCall A) w pool : starts A p ->
  let '(a, w', h) := run_at (length pool) p w in rtc secret_step (w, pool) (w', pool ++ [running h (Ret a)]).
Proof.
  intros Hp. pose proof (drive_steps call_sem env_step starts (handle (length pool)) pool (fun X c w => secret_handle_sound (length pool) X c w) A p w []) as Hd.
  unfold run_at. destruct (drive (handle (length pool)) p w []) as [[a w'] h]. eapply rtc_l; [by apply step_start|exact Hd].
Qed.
Lemma used_run : rtc secret_step (world0, []) (failed, [running used.2 (Ret used.1.1)]).
Proof.
  eapply rtc_l; [apply step_env, (env_swap _ None None 0 (sample_record 1))|].
  pose proof (secret_run_program _ (UseGateway sample_service None sample_use) stored [] (start_gateway _ _ _)) as Hrun. unfold failed, used.
  change (length []) with 0%nat in Hrun. destruct (run_at 0 (UseGateway sample_service None sample_use) stored) as [[a w] h]. exact Hrun.
Qed.

Lemma failed_engaged : id_of "op" ∈ w_engaged failed.
Proof. apply elem_of_elements. vm_compute. left. Qed.
Lemma failed_lease : leaseByRecoveryID (w_store failed) !! id_of "op" = Some (id_of "lease") /\ recoveryByLease (w_store failed) !! id_of "lease" = Some sample_recovery.
Proof. by vm_compute. Qed.

Lemma secret_fenced_while_exposed_witness :
  id_of "op" ∈ w_engaged failed /\ exists e, CompareAndSwap None None (w_store failed) 1 (sample_record 2) = (Err e, w_store failed).
Proof.
  split; [exact failed_engaged|]. destruct failed_lease as [Hid' Hr'].
  destruct (secret_fenced_while_exposed _ (id_of "op") used_run failed_engaged) as [(id & l & r & record & Hid & Hl & Hr & Hrid & Hrec & Hact & Hver & Hcas)|[_ [r Hr]]].
  2:{ assert (Hnone : completedRecoveries (w_store failed) !! id_of "op" = None) by (by vm_compute).
      change (completedRecoveries (w_store failed) !! id_of "op" = Some r) in Hr. rewrite Hnone in Hr. discriminate Hr. }
  change (leaseByRecoveryID (w_store failed) !! id_of "op" = Some id) in Hid. change (recoveryByLease (w_store failed) !! id = Some r) in Hr.
  rewrite Hid' in Hid. injection Hid as <-. rewrite Hr' in Hr. injection Hr as <-. exact (Hcas None None 1 (sample_record 2) eq_refl eq_refl).
Defined.

(** ** Secrets: a sandbox used after its recovery

    One process has acquired the record of a sandbox use and not called the sandbox yet;
    another one recovers the sandbox: the quarantine is confirmed and the recovery
    completed, which releases the lease; the first one then hands the material to the
    sandbox. *)
Definition turn (i : nat) (st : World * list process) : World * list process :=
  match st.2 !! i with
  | Some (Process _ h (Vis c k)) => let '(x, w) := handle i _ c st.1 in (w, <[i := running (Event c x :: h) (k x)]> st.2)
  | _ => st
  end.
Lemma turn_step i st : rtc secret_step st (turn i st).
Proof.
  destruct st as [w pool]. unfold turn. simpl. destruct (pool !! i) as [[A h p]|] eqn:Hi; [|done]. destruct p as [a|X c k]; [done|].
  pose proof (secret_handle_sound i X c w) as Hsem. destruct (handle i X c w) as [x w']. apply rtc_once. by apply (step_call _ _ _ w w' i pool A h X c k x).
Qed.
Definition turns (n i : nat) (st : World * list process) : World * list process := Nat.iter n (turn i) st.
Lemma turns_steps n i st : rtc secret_step st (turns n i st).
Proof. induction n as [|n IH]; [done|]. etrans; [exact IH|]. simpl. apply turn_step. Qed.

Definition file_record (version : Z) : SecretRecord :=
  MkRecord "ssh-key" (id_of "tenant") version ExposureSandboxFile (to_bytes "s3cr3t") "/run/credentials/ssh-key" "" "" true false.
Definition file_handle : Handle := MkHandle sample_access "ssh-key" 1 ExposureSandboxFile "" "" false (id_of "inv") 2000.
Definition file_use : SandboxUseRequest := MkSandboxUse sample_access file_handle (id_of "inv") (sha256_text (to_bytes "base")).
Definition file_recovery : UseRecoveryBinding := sandbox_recovery file_use (id_of "op").
Definition file_stored : World := set_store world0 (CompareAndSwap None None (w_store world0) 0 (file_record 1)).2.
Definition acquired : World * list process := turns 13 0 (file_stored, [running [] (UseSandbox sample_service None file_use)]).
Definition recoverer : Prog SCall (outcome (option SandboxQuarantineReceipt * option secret_error)) :=
  RecoverSandbox sample_service None (MkAuthority (id_of "tenant") (id_of "subject")) file_recovery.
Definition completed : World * list process := turns 5 1 (acquired.1, acquired.2 ++ [running [] recoverer]).
Definition overtaken : World * list process := turn 0 completed.
Lemma started_turns A (p : Prog SCall A) w pool n i : starts A p -> rtc secret_step (w, pool) (turns n i (w, pool ++ [running [] p])).
Proof. intros Hp. eapply rtc_l; [apply (step_start call_sem env_step starts w A p pool Hp)|]. apply turns_steps. Qed.
Lemma acquired_run : rtc secret_step (file_stored, []) acquired.
Proof. exact (started_turns _ _ file_stored [] 13 0 (start_sandbox sample_service None file_use)). Qed.
Lemma overtaken_run : rtc secret_step (world0, []) overtaken.
Proof.
  eapply rtc_l; [apply step_env, (env_swap _ None None 0 (file_record 1))|].
  etrans; [exact acquired_run|].
  etrans; [|exact (turn_step 0 completed)]. unfold completed. destruct acquired as [w pool].
  exact (started_turns _ recoverer w pool 5 1 (start_recover_sandbox _ _ _ _)).
Qed.
(** The calls of a process, the latest first, by what they do to its sandbox. *)
Definition touches (e : event SCall) : option string :=
  match ev_call _ e with
  | Prepare _ _ => Some "prepare" | Use _ _ _ => Some "use" | Quarantine _ _ => Some "quarantine" | StoreComplete _ => Some "complete" | _ => None
  end.
Definition touched (i : nat) (st : World * list process) : list string :=
  match st.2 !! i with Some p => omap touches (pr_history p) | None => [] end.
(** The sandbox holds the material of a credential that no lease fences any more: a
    rotation of it is accepted. *)
Example used_after_recovery :
  rtc secret_step (world0, []) overtaken /\
  touched 0 acquired = ["prepare"] /\ touched 1 completed = ["complete"; "quarantine"] /\ elements (w_engaged completed.1) = [] /\
  touched 0 overtaken = ["use"; "prepare"] /\ elements (w_engaged overtaken.1) = [id_of "op"] /\
  (CompareAndSwap None None (w_store acquired.1) 1 (file_record 2)).1 = Err ErrStoreInUse /\
  (CompareAndSwap None None (w_store overtaken.1) 1 (file_record 2)).1 = Ok tt.
Proof. split; [exact overtaken_run|]. vm_compute. split_and!; reflexivity. Qed.

Definition sample_dispatch : GatewayDispatch := MkDispatch sample_access sample_endpoint "api" (to_bytes "request") sample_recovery.
Definition sample_material : CredentialMaterial := MkMaterial ExposureGatewayHeader "Authorization" (to_bytes "s3cr3t") None.
Lemma used_dispatched : used.2 = [] ++ Event (Dispatch sample_dispatch sample_material) (Value (Err ErrDependency)) :: tail used.2.
Proof. vm_compute. reflexivity. Qed.
Lemma exposures_justified_witness : justified (tail used.2) _ (Dispatch sample_dispatch sample_material).
Proof. exact (exposures_justified _ 0 (running used.2 (Ret used.1.1)) _ _ _ _ _ used_run eq_refl used_dispatched). Defined.

(** Two recoveries of two secrets, listed in pages of one. *)
Definition second_op : string := id_text "op" (base32_EncodeToString (repeat (to_byte 1) 16)).
Definition second_lease : string := id_text "lease" (base32_EncodeToString (repeat (to_byte 1) 16)).
Definition begin_of (secretID rid : string) : BeginUseRequest :=
  let handle := MkHandle sample_access secretID 1 ExposureGatewayHeader sample_endpoint "api" false "" 2000 in
  let use := MkGatewayUse sample_access handle sample_endpoint "api" [] in
  MkBegin (id_of "tenant") secretID 1 (gateway_recovery use rid) (MkPermit (gateway_authorization use) 2000 1000 2000 "proof").
Definition record_named (secretID : string) : SecretRecord :=
  MkRecord secretID (id_of "tenant") 1 ExposureGatewayHeader (to_bytes "s3cr3t") "Authorization" sample_endpoint "api" true false.
Definition sample_ops : list store_op :=
  [OpSwap None None 0 (record_named "first"); OpSwap None None 0 (record_named "second");
   OpBegin None None (Some (id_of "lease")) 1000 (begin_of "second" second_op); OpReserve None None (Some second_lease) 1000 (begin_of "first" (id_of "op"))].
Lemma pending_pages_complete_witness :
  map (map rb_RecoveryID) (follow_pages 3 (run_ops sample_ops) (id_of "tenant") "" 1) = [[id_of "op"]; [second_op]] /\
  concat (follow_pages (S (size (recoveryByLease (run_ops sample_ops)))) (run_ops sample_ops) (id_of "tenant") "" 1) = pending_of (run_ops sample_ops) (id_of "tenant").
Proof.
  split; [by vm_compute|]. apply (pending_pages_complete sample_ops (id_of "tenant") 1); [by vm_compute|lia].
Defined.
