(* ===== verification/McpGateway.v ===== *)
(** * MCP gateway data ([internal/mcpgateway/types.go])

    The fields of an [Effect] that no transition changes are grouped in [Call]; the
    enumerated strings are inductive types with a constructor for any other string, since
    a restored snapshot may hold one. *)

From S2P Require Import Prelude GoText GoStrings GoCrypto Canonical Identity BrokerTypes.
#[local] Open Scope string_scope.
#[local] Open Scope list_scope.
#[local] Open Scope Z_scope.

Inductive mcp_error :=
| ErrInvalidConfiguration | ErrInvalidRequest | ErrInputLimit | ErrOutputLimit | ErrEventLimit | ErrServerNotAllowed | ErrToolNotAllowed
| ErrReplayPolicyRequired | ErrProtocolMismatch | ErrAffinityMismatch | ErrCredentialUnavailable | ErrCredentialMismatch | ErrProviderUnavailable
| ErrStaleAuthority | ErrAuthorityMismatch | ErrAuthorizationMismatch | ErrInvocationConflict | ErrInvocationNotFound | ErrEffectInFlight
| ErrInvalidTransition | ErrConcurrentTransition | ErrDispatchNotDurable | ErrStoreUnavailable | ErrLedgerUnavailable | ErrLedgerMismatch
| ErrNeedsConfirmation | ErrBackpressure | ErrAuditUnavailable | ErrServerRequestDenied
(** the error of a context, and any other error of a dependency *)
| ErrContext | ErrDependency.
#[global] Instance mcp_error_eq_dec : EqDecision mcp_error.
Proof. solve_decision. Defined.

(** ** Authority *)
Record Generations := MkGenerations { gn_TurnLease : Z; gn_Placement : Z; gn_Sandbox : Z; gn_Policy : Z }.
#[global] Instance mcp_generations_eq_dec : EqDecision Generations.
Proof. solve_decision. Defined.
Record ValidatedAuthority := MkAuthority {
  va_TenantID : ID; va_UserID : ID; va_SessionID : ID; va_WorkspaceID : ID; va_TurnID : ID; va_EffectID : ID; va_InvocationID : ID;
  va_RuntimeRevision : ID; va_Generations : Generations;
}.
#[global] Instance mcp_authority_eq_dec : EqDecision ValidatedAuthority.
Proof. solve_decision. Defined.
Definition no_authority : ValidatedAuthority := MkAuthority no_id no_id no_id no_id no_id no_id no_id no_id (MkGenerations 0 0 0 0).

(** ** Servers and tools *)
Inductive Transport := TransportStdio | TransportStreamableHTTP | OtherTransport (s : string).
#[global] Instance Transport_eq_dec : EqDecision Transport.
Proof. solve_decision. Defined.
Inductive ScopeKind := ScopeWorkspace | ScopeSession | ScopeInvocation | OtherScope (s : string).
#[global] Instance ScopeKind_eq_dec : EqDecision ScopeKind.
Proof. solve_decision. Defined.
Definition scope_text (k : ScopeKind) : string :=
  match k with ScopeWorkspace => "workspace" | ScopeSession => "session" | ScopeInvocation => "invocation" | OtherScope s => s end.

Record BackendAffinity := MkAffinity {
  af_Backend : string; af_EnvironmentRevision : ID; af_Scope : ScopeKind; af_ScopeID : ID; af_ResourceProfileDigest : Digest;
  af_NetworkPolicyDigest : Digest; af_SecretExposureClass : string; af_SandboxProtocolVersion : string;
}.
#[global] Instance BackendAffinity_eq_dec : EqDecision BackendAffinity.
Proof. solve_decision. Defined.
Definition no_affinity : BackendAffinity := MkAffinity "" no_id (OtherScope "") no_id zero_digest zero_digest "" "".
(** [cb_Handle] is the value of the handle. *)
Record CredentialBinding := MkBinding { cb_Handle : string; cb_Audience : string }.
#[global] Instance CredentialBinding_eq_dec : EqDecision CredentialBinding.
Proof. solve_decision. Defined.

Inductive ReplayPolicy := ReplaySafe | ReplayIdempotencyKey | ReplayNever | ReplayConfirm | OtherReplay (s : string).
#[global] Instance mcp_replay_eq_dec : EqDecision ReplayPolicy.
Proof. solve_decision. Defined.
Inductive ServerRequestMethod := ServerRequestSampling | ServerRequestElicitation | ServerRequestRoots | OtherMethod (s : string).
#[global] Instance ServerRequestMethod_eq_dec : EqDecision ServerRequestMethod.
Proof. solve_decision. Defined.

Record ServerRegistration := MkServer {
  sv_TenantID : ID; sv_UserID : ID; sv_ServerID : string; sv_ProviderID : string; sv_Transport : Transport; sv_TargetRef : string;
  sv_ProtocolVersion : string; sv_Affinity : BackendAffinity; sv_Credential : CredentialBinding; sv_AllowedServerRequests : list ServerRequestMethod;
}.
Record ToolRegistration := MkTool {
  tr_TenantID : ID; tr_UserID : ID; tr_ServerID : string; tr_ToolName : string; tr_SideEffecting : bool; tr_ReplayPolicy : ReplayPolicy;
  tr_MaxAutomaticRetries : Z; tr_MaxConfirmationRetries : Z;
}.
Record Bounds := MkBounds {
  MaxAuthorityBytes : Z; MaxServerIDBytes : Z; MaxToolNameBytes : Z; MaxTargetRefBytes : Z; MaxProtocolVersionBytes : Z;
  MaxCredentialHandleBytes : Z; MaxAudienceBytes : Z; MaxInputBytes : Z; MaxInputDepth : Z; MaxProviderRequestIDBytes : Z;
  MaxExternalCommitIDBytes : Z; MaxChunkBytes : Z; MaxChunks : Z; MaxOutputBytes : Z; MaxFailureBytes : Z; MaxEvents : Z; CancelTimeout : Z;
}.
Record ServerDescriptor := MkDescriptor {
  de_ServerID : string; de_Transport : Transport; de_TargetRef : string; de_ProtocolVersion : string; de_Affinity : BackendAffinity;
}.
#[global] Instance ServerDescriptor_eq_dec : EqDecision ServerDescriptor.
Proof. solve_decision. Defined.
Definition no_descriptor : ServerDescriptor := MkDescriptor "" (OtherTransport "") "" "" no_affinity.

(** ** Effects *)
Record StartNegotiationReceipt := MkNegotiation {
  ng_Durable : bool; ng_Scope : ValidatedAuthority; ng_Server : ServerDescriptor; ng_InvocationID : ID; ng_RequestDigest : Digest; ng_Attempt : Z;
  ng_NegotiatedProtocolVersion : string; ng_Affinity : BackendAffinity; ng_SupportsInvocationLedger : bool; ng_SupportsIdempotencyKey : bool;
  ng_ConnectionGeneration : Z;
}.
#[global] Instance StartNegotiationReceipt_eq_dec : EqDecision StartNegotiationReceipt.
Proof. solve_decision. Defined.
Definition no_negotiation : StartNegotiationReceipt :=
  MkNegotiation false no_authority no_descriptor no_id zero_digest 0 "" no_affinity false false 0.

Inductive State :=
| StateAdmitted | StateDispatching | StateRetryPending | StateDispatched | StateStreaming | StateCancellationPending | StateExternallyCommitted
| StateNeedsConfirmation | StateCompleted | StateFailed | StateCancelled | StateUncertain | OtherState (s : string).
#[global] Instance mcp_state_eq_dec : EqDecision State.
Proof. solve_decision. Defined.
(** [NoFailure] is the empty string, here and for the classes below. *)
Inductive FailureClass :=
| NoFailure | FailureDefinitelyNotSent | FailureRejected | FailureLedgerAbsent | FailureExternalFailed | FailureUnknown | OtherFailure (s : string).
#[global] Instance mcp_failure_eq_dec : EqDecision FailureClass.
Proof. solve_decision. Defined.

Record AttemptRecord := MkAttempt {
  at_Attempt : Z; at_ProviderRequestID : string; at_HadOutput : bool; at_Failure : FailureClass; at_Negotiation : StartNegotiationReceipt;
}.
#[global] Instance AttemptRecord_eq_dec : EqDecision AttemptRecord.
Proof. solve_decision. Defined.
Definition no_attempt : AttemptRecord := MkAttempt 0 "" false NoFailure no_negotiation.

Record Call := MkCall {
  ca_Scope : ValidatedAuthority; ca_RequestDigest : Digest; ca_ServerID : string; ca_ToolName : string; ca_ProviderID : string;
  ca_Transport : Transport; ca_TargetRef : string; ca_ProtocolVersion : string; ca_Affinity : BackendAffinity; ca_Credential : CredentialBinding;
  ca_InputCanonical : bytes; ca_SideEffecting : bool; ca_ReplayPolicy : ReplayPolicy; ca_MaxAutomaticRetries : Z; ca_MaxConfirmationRetries : Z;
  ca_SupportsInvocationLedger : bool; ca_SupportsIdempotencyKey : bool;
}.
#[global] Instance Call_eq_dec : EqDecision Call.
Proof. solve_decision. Defined.
Record Effect := MkEffect {
  ef_Call : Call; ef_State : State; ef_Revision : Z; ef_EventCount : Z; ef_EventBytes : Z; ef_Attempts : list AttemptRecord;
  ef_AutomaticRetriesUsed : Z; ef_ConfirmationRetriesUsed : Z; ef_ChunkCount : Z; ef_StreamBytes : Z; ef_ExternalCommitID : string;
  ef_Output : bytes; ef_FailureReason : string; ef_CancellationRequested : bool;
}.
#[global] Instance mcp_effect_eq_dec : EqDecision Effect.
Proof. solve_decision. Defined.

(** [CurrentAttempt]: the last attempt, or the zero record and false. *)
Definition CurrentAttempt (e : Effect) : AttemptRecord * bool :=
  match last (ef_Attempts e) with Some a => (a, true) | None => (no_attempt, false) end.
Definition Terminal (e : Effect) : bool :=
  match ef_State e with StateCompleted | StateFailed | StateCancelled | StateUncertain => true | _ => false end.

(** ** Events *)
Inductive EventKind :=
| EventBeginDispatch | EventNegotiationRecorded | EventProviderAccepted | EventOutputChunk | EventCallCommitted | EventSettlementCompleted
| EventDispatchFailed | EventCancelRequested | EventCancellationResolved | EventRecoveryObserved | EventConfirmationDecided | OtherEvent (s : string).
Inductive ConfirmationDecision := NoDecision | ConfirmationRetry | ConfirmationAbandon | OtherDecision (s : string).
#[global] Instance ConfirmationDecision_eq_dec : EqDecision ConfirmationDecision.
Proof. solve_decision. Defined.
Inductive CancellationStatus :=
| NoCancellation | CancellationPrevented | CancellationAbsent | CancellationCommitted | CancellationUnknown | OtherCancellation (s : string).
#[global] Instance CancellationStatus_eq_dec : EqDecision CancellationStatus.
Proof. solve_decision. Defined.
Inductive LedgerStatus := NoStatus | LedgerAbsent | LedgerInflight | LedgerCommitted | LedgerFailed | LedgerUnknown | OtherStatus (s : string).
#[global] Instance LedgerStatus_eq_dec : EqDecision LedgerStatus.
Proof. solve_decision. Defined.

Record LedgerRecord := MkLedger {
  lg_InvocationID : ID; lg_RequestDigest : Digest; lg_Status : LedgerStatus; lg_ProviderRequestID : string; lg_ExternalCommitID : string;
  lg_Output : bytes; lg_FailureReason : string;
}.
#[global] Instance mcp_ledger_eq_dec : EqDecision LedgerRecord.
Proof. solve_decision. Defined.
Definition no_ledger : LedgerRecord := MkLedger no_id zero_digest NoStatus "" "" [] "".

Record Event := MkEvent {
  ev_ExpectedRevision : Z; ev_Kind : EventKind; ev_ProviderRequestID : string; ev_Chunk : bytes; ev_Output : bytes; ev_ExternalCommitID : string;
  ev_Failure : FailureClass; ev_Reason : string; ev_Cancellation : CancellationStatus; ev_Ledger : LedgerRecord; ev_Decision : ConfirmationDecision;
  ev_Negotiation : StartNegotiationReceipt;
}.

(** ** Commands; the permits that the executor adds later are not part of a transition *)
Record DispatchCommand := MkDispatch {
  dc_Scope : ValidatedAuthority; dc_Server : ServerDescriptor; dc_ToolName : string; dc_InputCanonical : bytes; dc_InvocationID : ID;
  dc_RequestDigest : Digest; dc_ReplayPolicy : ReplayPolicy; dc_IdempotencyKey : string; dc_Attempt : Z;
}.
Record CancelCommand := MkCancel {
  cc_Scope : ValidatedAuthority; cc_Server : ServerDescriptor; cc_ToolName : string; cc_InvocationID : ID; cc_RequestDigest : Digest;
  cc_ProviderRequestID : string; cc_Attempt : Z; cc_Negotiation : StartNegotiationReceipt;
}.
Record Transition := MkTransition { tn_Effect : Effect; tn_Dispatch : option DispatchCommand; tn_Cancel : option CancelCommand }.

(** ** MCP gateway: configuration, requests and snapshots
    ([internal/mcpgateway/gateway.go], [machine.go])

    What a gateway accepts: its bounds, servers and tools, a call and its digest, and
    [validateEffect], the well-formedness check of every snapshot it is handed. *)

#[local] Open Scope go_scope.

Definition hardMaxAuthorityBytes : Z := Z.shiftl 64 10.
Definition hardMaxIdentifierBytes : Z := 512.
Definition hardMaxTargetRefBytes : Z := 1024.
Definition hardMaxCredentialHandleBytes : Z := 1024.
Definition hardMaxInputBytes : Z := Z.shiftl 16 20.
Definition hardMaxInputDepth : Z := 64.
Definition hardMaxProviderRequestIDBytes : Z := 1024.
Definition hardMaxExternalCommitIDBytes : Z := 1024.
Definition hardMaxChunkBytes : Z := Z.shiftl 1 20.
Definition hardMaxChunks : Z := Z.shiftl 1 20.
Definition hardMaxOutputBytes : Z := Z.shiftl 64 20.
Definition hardMaxFailureBytes : Z := 4096.
Definition hardMaxEvents : Z := Z.shiftl 1 20.
Definition hardMaxRetries : Z := 16.

(** ** Texts *)
Definition is_alnum (b : ascii) : bool := in_range 48 57 (byte_val b) || in_range 65 90 (byte_val b) || in_range 97 122 (byte_val b).
(** The patterns are a letter or digit and then letters, digits and [more]. *)
Definition matches_pattern (more : string) (s : string) : bool :=
  match to_bytes s with
  | b :: rest => is_alnum b && forallb (fun b => is_alnum b || existsb (Ascii.eqb b) (to_bytes more)) rest
  | [] => false
  end.
Definition identifierPattern : string -> bool := matches_pattern "._:/-".
Definition targetRefPattern : string -> bool := matches_pattern "._/-".
Definition validBoundedText (value : string) (maximum : Z) : bool :=
  (value != "") && (strlen value <=? maximum) && utf8_ValidString value && negb (has_control value).
Definition validIdentifier (value : string) (maximum : Z) : bool := validBoundedText value maximum && identifierPattern value.
(** No segment is empty, so the value neither begins nor ends with a slash, nor has two
    of them in a row. *)
Definition validRegistryRef (value : string) (maximum : Z) : bool :=
  validBoundedText value maximum && targetRefPattern value
  && forallb (fun segment => negb ((segment == ".") || (segment == "..") || (segment == ""))) (split_slash value).
Definition NewCredentialHandle (value : string) : res mcp_error string :=
  _ ← reject_if (negb (validRegistryRef value hardMaxCredentialHandleBytes)) ErrInvalidConfiguration; Ok value.

(** ** Configuration *)
Definition bad_bound (value hard : Z) : bool := (value =? 0) || (hard <? value).
Definition invalid_bounds (b : Bounds) : bool :=
  bad_bound (MaxAuthorityBytes b) hardMaxAuthorityBytes || bad_bound (MaxServerIDBytes b) hardMaxIdentifierBytes
  || bad_bound (MaxToolNameBytes b) hardMaxIdentifierBytes || bad_bound (MaxTargetRefBytes b) hardMaxTargetRefBytes
  || bad_bound (MaxProtocolVersionBytes b) hardMaxIdentifierBytes || bad_bound (MaxCredentialHandleBytes b) hardMaxCredentialHandleBytes
  || bad_bound (MaxAudienceBytes b) hardMaxIdentifierBytes || bad_bound (MaxInputBytes b) hardMaxInputBytes
  || (MaxInputDepth b <=? 0) || (hardMaxInputDepth <? MaxInputDepth b)
  || bad_bound (MaxProviderRequestIDBytes b) hardMaxProviderRequestIDBytes || bad_bound (MaxExternalCommitIDBytes b) hardMaxExternalCommitIDBytes
  || bad_bound (MaxChunkBytes b) hardMaxChunkBytes || bad_bound (MaxChunks b) hardMaxChunks || bad_bound (MaxOutputBytes b) hardMaxOutputBytes
  || bad_bound (MaxFailureBytes b) hardMaxFailureBytes || (MaxEvents b <? 8) || (hardMaxEvents <? MaxEvents b)
  || (MaxOutputBytes b <? MaxChunkBytes b) || (MaxEvents b <? MaxChunks b) || (CancelTimeout b <=? 0) || (30000000000 <? CancelTimeout b).
Definition validateBounds (b : Bounds) : res mcp_error unit := reject_if (invalid_bounds b) ErrInvalidConfiguration.

Definition scope_kind (k : ScopeKind) : option Kind :=
  match k with ScopeWorkspace => Some "ws" | ScopeSession => Some "sess" | ScopeInvocation => Some "inv" | OtherScope _ => None end.
Definition validateAffinity (a : BackendAffinity) (template : bool) : res mcp_error unit :=
  _ ← reject_if (negb (validIdentifier (af_Backend a) hardMaxIdentifierBytes) || (id_kind (af_EnvironmentRevision a) != "env")
                 || (af_ResourceProfileDigest a == zero_digest) || (af_NetworkPolicyDigest a == zero_digest)
                 || negb (validIdentifier (af_SecretExposureClass a) hardMaxIdentifierBytes)
                 || negb (validIdentifier (af_SandboxProtocolVersion a) hardMaxIdentifierBytes)) ErrInvalidConfiguration;
  _ ← reject_if (template && (af_ScopeID a != no_id)) ErrInvalidConfiguration;
  match scope_kind (af_Scope a) with
  | Some kind => reject_if (negb template && (id_kind (af_ScopeID a) != kind)) ErrInvalidConfiguration
  | None => Err ErrInvalidConfiguration
  end.

Record RepositoryDurability := MkDurability {
  CrashDurable : bool; AtomicAdmissionCAS : bool; AtomicAdmissionReplay : bool; AtomicTransitionCAS : bool; ExclusiveDispatchClaim : bool;
  ExclusiveProviderStartClaim : bool; AtomicProviderStartResolution : bool; ExclusiveCancellationClaim : bool;
  AtomicExpiredRequestReconciliation : bool; AtomicCurrentFence : bool; AtomicActiveEffect : bool; AtomicAuditOutbox : bool; ReferenceMemory : bool;
}.
(** Which of the dependencies are present; the providers by name, with whether they are nil. *)
Record Dependencies := MkDependencies {
  dp_Required : bool; dp_HasCredentials : bool; dp_Durability : RepositoryDurability; dp_Providers : list (string * bool);
  dp_HasSampling : bool; dp_HasElicitation : bool; dp_HasRoots : bool;
}.
Record Configuration := MkConfiguration {
  cg_Bounds : Bounds; cg_Servers : list ServerRegistration; cg_Tools : list ToolRegistration; cg_AllowReferenceMemory : bool;
}.
Abbreviation serverKey := (ID * ID * string)%type (only parsing).
Abbreviation toolKey := (ID * ID * string * string)%type (only parsing).
Record Gateway := MkGateway {
  gw_bounds : Bounds; gw_servers : gmap serverKey ServerRegistration; gw_tools : gmap toolKey ToolRegistration; gw_providers : gset string;
  gw_credentials : bool; gw_sampling : bool; gw_elicitation : bool; gw_roots : bool;
}.

Definition atomic_repository (d : RepositoryDurability) : bool :=
  AtomicAdmissionCAS d && AtomicAdmissionReplay d && AtomicTransitionCAS d && ExclusiveDispatchClaim d && ExclusiveProviderStartClaim d
  && AtomicProviderStartResolution d && ExclusiveCancellationClaim d && AtomicExpiredRequestReconciliation d && AtomicCurrentFence d
  && AtomicActiveEffect d && AtomicAuditOutbox d.

Fixpoint check_methods (deps : Dependencies) (seen methods : list ServerRequestMethod) : res mcp_error unit :=
  match methods with
  | [] => Ok tt
  | m :: rest =>
      _ ← reject_if (match m with
                     | ServerRequestSampling => negb (dp_HasSampling deps)
                     | ServerRequestElicitation => negb (dp_HasElicitation deps)
                     | ServerRequestRoots => negb (dp_HasRoots deps)
                     | OtherMethod _ => true
                     end) ErrInvalidConfiguration;
      _ ← reject_if (bool_decide (m ∈ seen)) ErrInvalidConfiguration;
      check_methods deps (m :: seen) rest
  end.
Definition server_key (r : ServerRegistration) : serverKey := (sv_TenantID r, sv_UserID r, sv_ServerID r).
Definition check_server (b : Bounds) (deps : Dependencies) (providers : gset string) (r : ServerRegistration) : res mcp_error unit :=
  _ ← reject_if ((id_kind (sv_TenantID r) != "tenant") || (id_kind (sv_UserID r) != "subject")
                 || negb (validIdentifier (sv_ServerID r) (MaxServerIDBytes b)) || negb (validIdentifier (sv_ProviderID r) (MaxServerIDBytes b))
                 || negb (validBoundedText (sv_ProtocolVersion r) (MaxProtocolVersionBytes b)) || negb (identifierPattern (sv_ProtocolVersion r))
                 || negb (validRegistryRef (sv_TargetRef r) (MaxTargetRefBytes b))) ErrInvalidConfiguration;
  _ ← reject_if (bool_decide (sv_ProviderID r ∉ providers)) ErrInvalidConfiguration;
  _ ← match sv_Transport r with
      | TransportStdio => validateAffinity (sv_Affinity r) true
      | TransportStreamableHTTP => reject_if (sv_Affinity r != no_affinity) ErrInvalidConfiguration
      | OtherTransport _ => Err ErrInvalidConfiguration
      end;
  let credential := sv_Credential r in
  _ ← reject_if (bool_decide ((cb_Handle credential == "") <> (cb_Audience credential == ""))) ErrInvalidConfiguration;
  _ ← reject_if ((cb_Handle credential != "")
                 && ((MaxCredentialHandleBytes b <? strlen (cb_Handle credential)) || negb (validBoundedText (cb_Audience credential) (MaxAudienceBytes b))
                     || negb (identifierPattern (cb_Audience credential)))) ErrInvalidConfiguration;
  check_methods deps [] (sv_AllowedServerRequests r).
Fixpoint add_servers (b : Bounds) (deps : Dependencies) (providers : gset string) (servers : list ServerRegistration)
    (acc : gmap serverKey ServerRegistration) : res mcp_error (gmap serverKey ServerRegistration) :=
  match servers with
  | [] => Ok acc
  | r :: rest =>
      _ ← check_server b deps providers r;
      _ ← reject_if (bool_decide (is_Some (acc !! server_key r))) ErrInvalidConfiguration;
      add_servers b deps providers rest (<[server_key r := r]> acc)
  end.

Definition default_policy (r : ToolRegistration) : ToolRegistration :=
  if negb (tr_SideEffecting r) && (tr_ReplayPolicy r == OtherReplay "") then
    MkTool (tr_TenantID r) (tr_UserID r) (tr_ServerID r) (tr_ToolName r) (tr_SideEffecting r) ReplaySafe (tr_MaxAutomaticRetries r)
      (tr_MaxConfirmationRetries r)
  else r.
Definition required_events (b : Bounds) (r : ToolRegistration) : Z :=
  MaxChunks b + match tr_ReplayPolicy r with
                | ReplaySafe | ReplayIdempotencyKey => 4 * tr_MaxAutomaticRetries r + 10
                | ReplayNever => 3 * tr_MaxAutomaticRetries r + 10
                | ReplayConfirm => 3 * tr_MaxAutomaticRetries r + 10 * tr_MaxConfirmationRetries r + 12
                | OtherReplay _ => 0
                end.
Definition check_tool (b : Bounds) (servers : gmap serverKey ServerRegistration) (r : ToolRegistration) : res mcp_error ToolRegistration :=
  _ ← reject_if ((id_kind (tr_TenantID r) != "tenant") || (id_kind (tr_UserID r) != "subject")
                 || negb (validIdentifier (tr_ServerID r) (MaxServerIDBytes b)) || negb (validIdentifier (tr_ToolName r) (MaxToolNameBytes b))
                 || (hardMaxRetries <? tr_MaxAutomaticRetries r) || (hardMaxRetries <? tr_MaxConfirmationRetries r)) ErrInvalidConfiguration;
  _ ← reject_if (bool_decide (servers !! (tr_TenantID r, tr_UserID r, tr_ServerID r) = None)) ErrInvalidConfiguration;
  _ ← reject_if (tr_SideEffecting r && (tr_ReplayPolicy r == OtherReplay "")) ErrReplayPolicyRequired;
  let r := default_policy r in
  _ ← match tr_ReplayPolicy r with OtherReplay _ => Err ErrInvalidConfiguration | _ => Ok tt end;
  _ ← reject_if ((tr_ReplayPolicy r == ReplayConfirm) && (tr_MaxConfirmationRetries r =? 0)) ErrInvalidConfiguration;
  _ ← reject_if (MaxEvents b <? required_events b r) ErrInvalidConfiguration;
  Ok r.
Definition tool_key (r : ToolRegistration) : toolKey := (tr_TenantID r, tr_UserID r, tr_ServerID r, tr_ToolName r).
Fixpoint add_tools (b : Bounds) (servers : gmap serverKey ServerRegistration) (tools : list ToolRegistration) (acc : gmap toolKey ToolRegistration)
    : res mcp_error (gmap toolKey ToolRegistration) :=
  match tools with
  | [] => Ok acc
  | r :: rest =>
      r ← check_tool b servers r;
      _ ← reject_if (bool_decide (is_Some (acc !! tool_key r))) ErrInvalidConfiguration;
      add_tools b servers rest (<[tool_key r := r]> acc)
  end.

Definition newGateway (c : Configuration) (deps : Dependencies) (verifiedProduction : bool) : res mcp_error Gateway :=
  let b := cg_Bounds c in
  _ ← validateBounds b;
  _ ← reject_if (negb (dp_Required deps) || (zlen (dp_Providers deps) =? 0)) ErrInvalidConfiguration;
  let d := dp_Durability deps in
  let productionRepository := verifiedProduction && CrashDurable d && atomic_repository d && negb (ReferenceMemory d) in
  let referenceRepository := negb verifiedProduction && cg_AllowReferenceMemory c && negb (CrashDurable d) && atomic_repository d && ReferenceMemory d in
  _ ← reject_if (negb productionRepository && negb referenceRepository) ErrStoreUnavailable;
  _ ← reject_if (existsb (fun p => negb (validIdentifier p.1 (MaxServerIDBytes b)) || p.2) (dp_Providers deps)) ErrInvalidConfiguration;
  let providers : gset string := list_to_set (map fst (dp_Providers deps)) in
  _ ← reject_if ((zlen (cg_Servers c) =? 0) || (zlen (cg_Tools c) =? 0)) ErrInvalidConfiguration;
  servers ← add_servers b deps providers (cg_Servers c) ∅;
  _ ← reject_if (existsb (fun r => cb_Handle (sv_Credential r) != "") (cg_Servers c) && negb (dp_HasCredentials deps)) ErrCredentialUnavailable;
  tools ← add_tools b servers (cg_Tools c) ∅;
  Ok (MkGateway b servers tools providers (dp_HasCredentials deps) (dp_HasSampling deps) (dp_HasElicitation deps) (dp_HasRoots deps)).
Definition NewGateway (c : Configuration) (deps : Dependencies) : res mcp_error Gateway :=
  _ ← reject_if (negb (cg_AllowReferenceMemory c)) ErrStoreUnavailable;
  newGateway c deps false.

(** ** Calls *)
Record CallRequest := MkCallRequest { cr_ServerID : string; cr_ToolName : string; cr_Input : Value }.

Fixpoint preflightCanonical (value : Value) (depth maxDepth maxBytes : Z) {struct value} : res cerror unit :=
  _ ← reject_if (maxDepth <? depth) ErrLimitExceeded;
  match value with
  | VNil | VBool _ | VInt _ _ | VUint _ _ => Ok tt
  | VString s => _ ← reject_if (negb (utf8_ValidString s)) ErrInvalidValue; reject_if (maxBytes <? strlen s) ErrLimitExceeded
  | VBytes b => reject_if (maxBytes <? zlen b) ErrLimitExceeded
  | VArray l =>
      _ ← reject_if (maxBytes <? zlen l) ErrLimitExceeded;
      (fix go (l : list Value) : res cerror unit :=
         match l with [] => Ok tt | v :: rest => _ ← preflightCanonical v (depth + 1) maxDepth maxBytes; go rest end) l
  | VMap m =>
      _ ← reject_if (maxBytes <? zlen m) ErrLimitExceeded;
      (fix go (m : list (string * Value)) : res cerror unit :=
         match m with
         | [] => Ok tt
         | (key, v) :: rest =>
             _ ← reject_if (negb (utf8_ValidString key)) ErrInvalidValue;
             _ ← reject_if (maxBytes <? strlen key) ErrLimitExceeded;
             _ ← preflightCanonical v (depth + 1) maxDepth maxBytes;
             go rest
         end) m
  | VOther => Err ErrInvalidValue
  end.
Definition input_error (e : cerror) : mcp_error := if e == ErrLimitExceeded then ErrInputLimit else ErrInvalidRequest.

Section calls.
Context `{N : Normalizer}.

Definition digestCanonicalCall (serverID toolName : string) (input : bytes) : res cerror Digest :=
  encoded ← Encode (VArray [VString "circulusd.hash"; VInt KInt64 1; VString "mcp.tool.call"; VInt KInt64 1;
    VMap [("server", VString serverID); ("tool", VString toolName); ("input", VBytes input)]]) DefaultOptions;
  Ok (sha256_Sum256 encoded).
Definition canonicalizeCall (request : CallRequest) (b : Bounds) : res mcp_error (bytes * Digest) :=
  _ ← reject_if (bad_bound (MaxInputBytes b) hardMaxInputBytes || (MaxInputDepth b <=? 0) || (hardMaxInputDepth <? MaxInputDepth b)
                 || bad_bound (MaxServerIDBytes b) hardMaxIdentifierBytes || bad_bound (MaxToolNameBytes b) hardMaxIdentifierBytes)
        ErrInvalidConfiguration;
  _ ← reject_if (negb (validIdentifier (cr_ServerID request) (MaxServerIDBytes b)) || negb (validIdentifier (cr_ToolName request) (MaxToolNameBytes b)))
        ErrInvalidRequest;
  _ ← lift_err input_error (preflightCanonical (cr_Input request) 0 (MaxInputDepth b) (MaxInputBytes b));
  input ← lift_err input_error (Encode (cr_Input request)
    {| MaxDepth := MaxInputDepth b; MaxBytes := MaxInputBytes b; MaxItems := MaxItems DefaultOptions |});
  digest ← wrap_err ErrInvalidRequest (digestCanonicalCall (cr_ServerID request) (cr_ToolName request) input);
  Ok (input, digest).
Definition CallRequestDigest (request : CallRequest) (b : Bounds) : res mcp_error Digest :=
  '(_, digest) ← canonicalizeCall request b; Ok digest.

(** ** Scopes and registrations *)
Definition validScope (s : ValidatedAuthority) : bool :=
  (id_kind (va_TenantID s) == "tenant") && (id_kind (va_UserID s) == "subject") && (id_kind (va_SessionID s) == "sess")
  && (id_kind (va_TurnID s) == "turn") && (id_kind (va_EffectID s) == "effect") && (id_kind (va_InvocationID s) == "inv")
  && (id_kind (va_RuntimeRevision s) == "runtime") && (gn_TurnLease (va_Generations s) != 0) && (gn_Placement (va_Generations s) != 0)
  && (gn_Policy (va_Generations s) != 0) && ((va_WorkspaceID s == no_id) || (id_kind (va_WorkspaceID s) == "ws")).
Definition sameOperationScope (left right : ValidatedAuthority) : bool :=
  (va_TenantID left == va_TenantID right) && (va_UserID left == va_UserID right) && (va_SessionID left == va_SessionID right)
  && (va_WorkspaceID left == va_WorkspaceID right) && (va_TurnID left == va_TurnID right) && (va_EffectID left == va_EffectID right)
  && (va_InvocationID left == va_InvocationID right) && (va_RuntimeRevision left == va_RuntimeRevision right).
Definition descriptorFor (s : ServerRegistration) : ServerDescriptor :=
  MkDescriptor (sv_ServerID s) (sv_Transport s) (sv_TargetRef s) (sv_ProtocolVersion s) (sv_Affinity s).
Definition serverForEffect (c : Call) : ServerDescriptor :=
  MkDescriptor (ca_ServerID c) (ca_Transport c) (ca_TargetRef c) (ca_ProtocolVersion c) (ca_Affinity c).
Definition with_scope_id (a : BackendAffinity) (id : ID) : BackendAffinity :=
  MkAffinity (af_Backend a) (af_EnvironmentRevision a) (af_Scope a) id (af_ResourceProfileDigest a) (af_NetworkPolicyDigest a)
    (af_SecretExposureClass a) (af_SandboxProtocolVersion a).
Definition with_affinity (s : ServerRegistration) (a : BackendAffinity) : ServerRegistration :=
  MkServer (sv_TenantID s) (sv_UserID s) (sv_ServerID s) (sv_ProviderID s) (sv_Transport s) (sv_TargetRef s) (sv_ProtocolVersion s) a
    (sv_Credential s) (sv_AllowedServerRequests s).
Definition resolveServerRegistration (server : ServerRegistration) (scope : ValidatedAuthority) : res mcp_error ServerRegistration :=
  if sv_Transport server != TransportStdio then Ok server
  else
    let a := sv_Affinity server in
    affinity ← match af_Scope a with
               | ScopeSession => Ok (with_scope_id a (va_SessionID scope))
               | ScopeInvocation => Ok (with_scope_id a (va_InvocationID scope))
               | ScopeWorkspace => if id_kind (va_WorkspaceID scope) != "ws" then Err ErrAffinityMismatch else Ok (with_scope_id a (va_WorkspaceID scope))
               | OtherScope _ => Err ErrAffinityMismatch
               end;
    _ ← wrap_err ErrAffinityMismatch (validateAffinity affinity false);
    Ok (with_affinity server affinity).

(** ** Snapshots *)
Definition validNegotiationReceiptForEffect (receipt : StartNegotiationReceipt) (c : Call) (attempt : Z) : bool :=
  ng_Durable receipt && (ng_ConnectionGeneration receipt != 0) && (ng_ConnectionGeneration receipt <=? 2 ^ 63 - 1) && validScope (ng_Scope receipt)
  && sameOperationScope (ng_Scope receipt) (ca_Scope c) && (ng_Server receipt == serverForEffect c)
  && (ng_InvocationID receipt == va_InvocationID (ca_Scope c)) && (ng_RequestDigest receipt == ca_RequestDigest c) && (ng_Attempt receipt == attempt)
  && (ng_NegotiatedProtocolVersion receipt == ca_ProtocolVersion c) && (ng_Affinity receipt == ca_Affinity c)
  && bool_decide (ng_SupportsInvocationLedger receipt = ca_SupportsInvocationLedger c)
  && bool_decide (ng_SupportsIdempotencyKey receipt = ca_SupportsIdempotencyKey c).
Definition negotiationEventBytes (receipt : StartNegotiationReceipt) : Z :=
  if receipt == no_negotiation then 0
  else
    let server := ng_Server receipt in
    let affinity := ng_Affinity receipt in
    256 + (strlen (de_ServerID server) + strlen (de_TargetRef server) + strlen (de_ProtocolVersion server) + strlen (ng_NegotiatedProtocolVersion receipt)
           + strlen (af_Backend affinity) + strlen (scope_text (af_Scope affinity)) + strlen (af_SecretExposureClass affinity)
           + strlen (af_SandboxProtocolVersion affinity)).
Definition bytes_per_event (b : Bounds) : Z :=
  MaxOutputBytes b + MaxProviderRequestIDBytes b + MaxExternalCommitIDBytes b + MaxFailureBytes b + MaxTargetRefBytes b
  + 2 * MaxProtocolVersionBytes b + 6 * MaxServerIDBytes b + 256.
Definition maximumEventBytes (b : Bounds) : Z := u64 (MaxEvents b * bytes_per_event b).

Definition optional_text (value : string) (maximum : Z) : bool := (value == "") || validBoundedText value maximum.
(** The checks on the counters and texts. *)
Definition invalid_fields (b : Bounds) (e : Effect) : bool :=
  let c := ef_Call e in
  negb (validScope (ca_Scope c)) || (ca_RequestDigest c == zero_digest) || (ef_Revision e =? 0) || (ef_Revision e != u64 (ef_EventCount e + 1))
  || (MaxEvents b <? ef_EventCount e) || negb (validIdentifier (ca_ServerID c) (MaxServerIDBytes b))
  || negb (validIdentifier (ca_ToolName c) (MaxToolNameBytes b)) || negb (validIdentifier (ca_ProviderID c) (MaxServerIDBytes b))
  || negb (validRegistryRef (ca_TargetRef c) (MaxTargetRefBytes b)) || negb (validBoundedText (ca_ProtocolVersion c) (MaxProtocolVersionBytes b))
  || (zlen (ca_InputCanonical c) =? 0) || (MaxInputBytes b <? zlen (ca_InputCanonical c))
  || (ca_MaxAutomaticRetries c <? ef_AutomaticRetriesUsed e) || (ca_MaxConfirmationRetries c <? ef_ConfirmationRetriesUsed e)
  || (hardMaxRetries <? ca_MaxAutomaticRetries c) || (hardMaxRetries <? ca_MaxConfirmationRetries c)
  || (1 + ef_AutomaticRetriesUsed e + ef_ConfirmationRetriesUsed e <? zlen (ef_Attempts e))
  || (MaxChunks b <? ef_ChunkCount e) || (MaxOutputBytes b <? ef_StreamBytes e) || (maximumEventBytes b <? ef_EventBytes e)
  || (MaxOutputBytes b <? zlen (ef_Output e)) || negb (optional_text (ef_ExternalCommitID e) (MaxExternalCommitIDBytes b))
  || negb (optional_text (ef_FailureReason e) (MaxFailureBytes b)).
(** The registrations the effect was admitted under are still configured. *)
Definition registered (gw : Gateway) (c : Call) : bool :=
  let key := (va_TenantID (ca_Scope c), va_UserID (ca_Scope c), ca_ServerID c) in
  match gw_servers gw !! key with
  | None => false
  | Some server =>
      match resolveServerRegistration server (ca_Scope c) with
      | Err _ => false
      | Ok server =>
          (sv_ProviderID server == ca_ProviderID c) && (sv_Transport server == ca_Transport c) && (sv_TargetRef server == ca_TargetRef c)
          && (sv_ProtocolVersion server == ca_ProtocolVersion c) && (sv_Affinity server == ca_Affinity c) && (sv_Credential server == ca_Credential c)
      end
  end
  && match gw_tools gw !! (key, ca_ToolName c) with
     | None => false
     | Some tool =>
         bool_decide (tr_SideEffecting tool = ca_SideEffecting c) && (tr_ReplayPolicy tool == ca_ReplayPolicy c)
         && (tr_MaxAutomaticRetries tool == ca_MaxAutomaticRetries c) && (tr_MaxConfirmationRetries tool == ca_MaxConfirmationRetries c)
     end.
Definition known_failure (f : FailureClass) : bool := match f with OtherFailure _ => false | _ => true end.
Definition valid_attempt (b : Bounds) (c : Call) (index : Z) (a : AttemptRecord) : bool :=
  (at_Attempt a == u32 (index + 1)) && optional_text (at_ProviderRequestID a) (MaxProviderRequestIDBytes b)
  && negb (at_HadOutput a && (at_ProviderRequestID a == ""))
  && ((at_Negotiation a == no_negotiation) || validNegotiationReceiptForEffect (at_Negotiation a) c (at_Attempt a)) && known_failure (at_Failure a).
(** The loop over the attempts: the bytes they account for. *)
Fixpoint check_attempts (b : Bounds) (c : Call) (index accounted : Z) (attempts : list AttemptRecord) : option Z :=
  match attempts with
  | [] => Some accounted
  | a :: rest =>
      if negb (valid_attempt b c index a) then None
      else if u64_max - accounted <? strlen (at_ProviderRequestID a) then None
      else
        let accounted := accounted + strlen (at_ProviderRequestID a) in
        if u64_max - accounted <? negotiationEventBytes (at_Negotiation a) then None
        else check_attempts b c (index + 1) (accounted + negotiationEventBytes (at_Negotiation a)) rest
  end.
(** The [switch effect.State]: what must not hold in each state. *)
Definition state_conflict (e : Effect) (attempt : AttemptRecord) (hasAttempt : bool) : bool :=
  let id := at_ProviderRequestID attempt in
  let had := at_HadOutput attempt in
  let failed := at_Failure attempt != NoFailure in
  let unnegotiated := at_Negotiation attempt == no_negotiation in
  let answered := negb (zlen (ef_Output e) =? 0) in
  let reason := ef_FailureReason e in
  let cancelling := ef_CancellationRequested e in
  match ef_State e with
  | StateAdmitted =>
      negb (zlen (ef_Attempts e) =? 0) || negb (ef_EventCount e =? 0) || negb (ef_ChunkCount e =? 0) || negb (ef_StreamBytes e =? 0) || answered
      || (ef_ExternalCommitID e != "") || (reason != "") || cancelling
  | StateDispatching => negb hasAttempt || (id != "") || had || failed || (reason != "") || answered || cancelling
  | StateDispatched => negb hasAttempt || (id == "") || had || failed || unnegotiated || answered || cancelling
  | StateStreaming =>
      negb hasAttempt || (id == "") || negb had || failed || unnegotiated || (ef_ChunkCount e =? 0) || (ef_StreamBytes e =? 0) || answered || cancelling
  | StateRetryPending => negb hasAttempt || negb failed || (reason == "") || answered || cancelling
  | StateCancellationPending => negb hasAttempt || answered || negb cancelling
  | StateExternallyCommitted | StateCompleted =>
      negb answered || (reason != "") || negb hasAttempt || unnegotiated || ((id == "") && (ef_ExternalCommitID e == ""))
  | StateNeedsConfirmation | StateFailed | StateUncertain => (reason == "") || answered
  | StateCancelled => answered || (ef_ExternalCommitID e != "") || (reason != "") || negb cancelling
  | OtherState _ => true
  end.
Definition invalid_state (e : Effect) : bool := let '(attempt, hasAttempt) := CurrentAttempt e in state_conflict e attempt hasAttempt.
Definition valid_bytes (b : Bounds) (e : Effect) : bool :=
  let accounted := u64 (ef_StreamBytes e + zlen (ef_Output e) + strlen (ef_ExternalCommitID e) + strlen (ef_FailureReason e)) in
  match check_attempts b (ef_Call e) 0 accounted (ef_Attempts e) with Some accounted => accounted <=? ef_EventBytes e | None => false end.

Definition validateEffect (gw : Gateway) (e : Effect) : res mcp_error unit :=
  let b := gw_bounds gw in
  let c := ef_Call e in
  _ ← reject_if (invalid_fields b e) ErrInvalidRequest;
  _ ← reject_if (bool_decide (digestCanonicalCall (ca_ServerID c) (ca_ToolName c) (ca_InputCanonical c) <> Ok (ca_RequestDigest c))) ErrInvalidRequest;
  _ ← reject_if (negb (registered gw c)) ErrInvalidRequest;
  _ ← reject_if ((ca_ReplayPolicy c == ReplayIdempotencyKey) && (negb (ca_SupportsIdempotencyKey c) || negb (ca_SupportsInvocationLedger c)))
        ErrInvalidRequest;
  _ ← reject_if (negb (valid_bytes b e)) ErrInvalidRequest;
  reject_if (invalid_state e) ErrInvalidRequest.
End calls.
