(* ===== verification/McpMachine.v ===== *)
(** * MCP gateway: the effect state machine ([internal/mcpgateway/machine.go])

    [Apply] in the order of the code: the snapshot, the revision and the event limit, the
    shape of the event and its bytes ([validateEvent]), the transition ([transition], one
    definition per event), and the reserve of events that must stay. *)

From S2P Require Import Prelude GoText Identity BrokerTypes McpGateway.
#[local] Open Scope string_scope.
#[local] Open Scope list_scope.
#[local] Open Scope Z_scope.
#[local] Open Scope go_scope.

Definition confirmationAbandonUnknownReason : string := "user abandoned unknown cancellation".

(** ** Assignments *)
Definition set_state (s : State) (e : Effect) : Effect :=
  MkEffect (ef_Call e) s (ef_Revision e) (ef_EventCount e) (ef_EventBytes e) (ef_Attempts e) (ef_AutomaticRetriesUsed e) (ef_ConfirmationRetriesUsed e)
    (ef_ChunkCount e) (ef_StreamBytes e) (ef_ExternalCommitID e) (ef_Output e) (ef_FailureReason e) (ef_CancellationRequested e).
Definition set_attempts (l : list AttemptRecord) (e : Effect) : Effect :=
  MkEffect (ef_Call e) (ef_State e) (ef_Revision e) (ef_EventCount e) (ef_EventBytes e) l (ef_AutomaticRetriesUsed e) (ef_ConfirmationRetriesUsed e)
    (ef_ChunkCount e) (ef_StreamBytes e) (ef_ExternalCommitID e) (ef_Output e) (ef_FailureReason e) (ef_CancellationRequested e).
Definition set_retries (automatic confirmation : Z) (e : Effect) : Effect :=
  MkEffect (ef_Call e) (ef_State e) (ef_Revision e) (ef_EventCount e) (ef_EventBytes e) (ef_Attempts e) automatic confirmation
    (ef_ChunkCount e) (ef_StreamBytes e) (ef_ExternalCommitID e) (ef_Output e) (ef_FailureReason e) (ef_CancellationRequested e).
Definition set_stream (chunks streamed : Z) (e : Effect) : Effect :=
  MkEffect (ef_Call e) (ef_State e) (ef_Revision e) (ef_EventCount e) (ef_EventBytes e) (ef_Attempts e) (ef_AutomaticRetriesUsed e)
    (ef_ConfirmationRetriesUsed e) chunks streamed (ef_ExternalCommitID e) (ef_Output e) (ef_FailureReason e) (ef_CancellationRequested e).
Definition set_result (commitID : string) (output : bytes) (e : Effect) : Effect :=
  MkEffect (ef_Call e) (ef_State e) (ef_Revision e) (ef_EventCount e) (ef_EventBytes e) (ef_Attempts e) (ef_AutomaticRetriesUsed e)
    (ef_ConfirmationRetriesUsed e) (ef_ChunkCount e) (ef_StreamBytes e) commitID output (ef_FailureReason e) (ef_CancellationRequested e).
Definition set_reason (reason : string) (e : Effect) : Effect :=
  MkEffect (ef_Call e) (ef_State e) (ef_Revision e) (ef_EventCount e) (ef_EventBytes e) (ef_Attempts e) (ef_AutomaticRetriesUsed e)
    (ef_ConfirmationRetriesUsed e) (ef_ChunkCount e) (ef_StreamBytes e) (ef_ExternalCommitID e) (ef_Output e) reason (ef_CancellationRequested e).
Definition set_cancelling (b : bool) (e : Effect) : Effect :=
  MkEffect (ef_Call e) (ef_State e) (ef_Revision e) (ef_EventCount e) (ef_EventBytes e) (ef_Attempts e) (ef_AutomaticRetriesUsed e)
    (ef_ConfirmationRetriesUsed e) (ef_ChunkCount e) (ef_StreamBytes e) (ef_ExternalCommitID e) (ef_Output e) (ef_FailureReason e) b.
(** [next.EventCount++; next.EventBytes += eventBytes; next.Revision++] *)
Definition advance (eventBytes : Z) (e : Effect) : Effect :=
  MkEffect (ef_Call e) (ef_State e) (u64 (ef_Revision e + 1)) (u32 (ef_EventCount e + 1)) (u64 (ef_EventBytes e + eventBytes)) (ef_Attempts e)
    (ef_AutomaticRetriesUsed e) (ef_ConfirmationRetriesUsed e) (ef_ChunkCount e) (ef_StreamBytes e) (ef_ExternalCommitID e) (ef_Output e)
    (ef_FailureReason e) (ef_CancellationRequested e).

Fixpoint update_last {A} (f : A -> A) (l : list A) : list A := match l with [] => [] | [x] => [f x] | x :: rest => x :: update_last f rest end.
(** [next.Attempts[len(next.Attempts)-1].X = v] *)
Definition set_failure (f : FailureClass) (e : Effect) : Effect :=
  set_attempts (update_last (fun a => MkAttempt (at_Attempt a) (at_ProviderRequestID a) (at_HadOutput a) f (at_Negotiation a)) (ef_Attempts e)) e.
Definition set_request (id : string) (e : Effect) : Effect :=
  set_attempts (update_last (fun a => MkAttempt (at_Attempt a) id (at_HadOutput a) (at_Failure a) (at_Negotiation a)) (ef_Attempts e)) e.
Definition set_had_output (e : Effect) : Effect :=
  set_attempts (update_last (fun a => MkAttempt (at_Attempt a) (at_ProviderRequestID a) true (at_Failure a) (at_Negotiation a)) (ef_Attempts e)) e.
Definition set_negotiation (n : StartNegotiationReceipt) (e : Effect) : Effect :=
  set_attempts (update_last (fun a => MkAttempt (at_Attempt a) (at_ProviderRequestID a) (at_HadOutput a) (at_Failure a) n) (ef_Attempts e)) e.

(** ** The reserve of events

    At most 16 retries are configured, so that nothing below wraps. *)
Definition minimumRemainingEvents (e : Effect) : Z :=
  let c := ef_Call e in
  let policy := ca_ReplayPolicy c in
  let automatic := u32 (ca_MaxAutomaticRetries c - ef_AutomaticRetriesUsed e) in
  let confirmation := u32 (ca_MaxConfirmationRetries c - ef_ConfirmationRetriesUsed e) in
  let attempt := (CurrentAttempt e).1 in
  let hasProviderIdentity := at_ProviderRequestID attempt != "" in
  let preNegotiation := at_Negotiation attempt == no_negotiation in
  let confirmationBase := 3 * automatic + 10 * confirmation in
  let knownRequestedConfirmationEvents := if 0 <? confirmation then confirmationBase + 3 else 3 in
  let requestedConfirmationEvents := if hasProviderIdentity then knownRequestedConfirmationEvents else knownRequestedConfirmationEvents + 3 in
  let requestedUnknownEvents :=
    if hasProviderIdentity then 2 else if policy == ReplayConfirm then knownRequestedConfirmationEvents + 2 else 4 in
  let pendingCancellationEvents := if policy == ReplayConfirm then requestedConfirmationEvents + 1 else requestedUnknownEvents + 1 in
  let explicitCancellationEvents := pendingCancellationEvents + 1 in
  let dispatchedEvents :=
    match policy with
    | ReplaySafe | ReplayIdempotencyKey => if 0 <? automatic then 4 * automatic + 7 else 6
    | ReplayConfirm => knownRequestedConfirmationEvents + 4
    | _ => 6
    end in
  let lateUnrequestedEvents := Z.max (if hasProviderIdentity then 2 else dispatchedEvents + 1) explicitCancellationEvents in
  let phase := if preNegotiation then 9 else 8 in
  match ef_State e with
  | StateCompleted | StateCancelled => 0
  | StateExternallyCommitted => 1
  | StateFailed =>
      if at_Failure attempt != FailureUnknown then 0 else if ef_CancellationRequested e then requestedUnknownEvents else lateUnrequestedEvents
  | StateUncertain => if ef_CancellationRequested e then requestedUnknownEvents else lateUnrequestedEvents
  | StateCancellationPending => pendingCancellationEvents
  | StateNeedsConfirmation =>
      if ef_CancellationRequested e then requestedConfirmationEvents
      else Z.max knownRequestedConfirmationEvents
             (if at_Failure attempt != FailureLedgerAbsent then lateUnrequestedEvents + 1 else lateUnrequestedEvents)
  | StateAdmitted | StateRetryPending =>
      match policy with
      | ReplaySafe | ReplayIdempotencyKey => 4 * automatic + 10
      | ReplayNever => 3 * automatic + 10
      | ReplayConfirm => confirmationBase + 12
      | OtherReplay _ => hardMaxEvents
      end
  | StateDispatching =>
      match policy with
      | ReplaySafe | ReplayIdempotencyKey => 4 * automatic + phase
      | ReplayNever => 3 * automatic + phase
      | ReplayConfirm => confirmationBase + (if preNegotiation then 11 else 10)
      | OtherReplay _ => hardMaxEvents
      end
  | StateDispatched | StateStreaming => dispatchedEvents
  | OtherState _ => hardMaxEvents
  end.

(** ** Events *)
Definition ledgerEventBytes (r : LedgerRecord) : Z :=
  strlen (lg_ProviderRequestID r) + strlen (lg_ExternalCommitID r) + zlen (lg_Output r) + strlen (lg_FailureReason r).
Definition zeroLedgerRecord (r : LedgerRecord) : bool := r == no_ledger.
Definition validateLedgerRecord (b : Bounds) (r : LedgerRecord) (allowInflight : bool) : bool :=
  let id := lg_ProviderRequestID r in
  let commit := lg_ExternalCommitID r in
  let output := negb (zlen (lg_Output r) =? 0) in
  let reason := lg_FailureReason r in
  (id_kind (lg_InvocationID r) == "inv") && (lg_RequestDigest r != zero_digest) && optional_text id (MaxProviderRequestIDBytes b)
  && optional_text commit (MaxExternalCommitIDBytes b) && (zlen (lg_Output r) <=? MaxOutputBytes b) && optional_text reason (MaxFailureBytes b)
  && match lg_Status r with
     | LedgerAbsent | LedgerUnknown => (id == "") && (commit == "") && negb output && (reason == "")
     | LedgerInflight => allowInflight && (id != "") && (commit == "") && negb output && (reason == "")
     | LedgerCommitted => output && (reason == "") && ((id != "") || (commit != ""))
     | LedgerFailed => (reason != "") && (commit == "") && negb output
     | _ => false
     end.

(** Which fields of an event are empty. *)
Record blanks := MkBlanks {
  no_request : bool; no_bytes : bool; no_commit : bool; no_fail : bool; no_reason : bool; no_cancel : bool; no_record : bool; no_choice : bool;
  no_receipt : bool;
}.
Definition blanks_of (ev : Event) : blanks :=
  MkBlanks (ev_ProviderRequestID ev == "") ((zlen (ev_Chunk ev) =? 0) && (zlen (ev_Output ev) =? 0)) (ev_ExternalCommitID ev == "")
    (ev_Failure ev == NoFailure) (ev_Reason ev == "") (ev_Cancellation ev == NoCancellation) (zeroLedgerRecord (ev_Ledger ev))
    (ev_Decision ev == NoDecision) (ev_Negotiation ev == no_negotiation).

(** The bytes an event accounts for. *)
Definition validateEvent (b : Bounds) (e : Effect) (ev : Event) : res mcp_error Z :=
  let k := blanks_of ev in
  match ev_Kind ev with
  | EventBeginDispatch | EventSettlementCompleted | EventCancelRequested =>
      _ ← reject_if (negb (no_request k && no_bytes k && no_commit k && no_fail k && no_reason k && no_cancel k && no_record k && no_choice k
                           && no_receipt k)) ErrInvalidRequest;
      Ok 0
  | EventNegotiationRecorded =>
      let '(attempt, ok) := CurrentAttempt e in
      _ ← reject_if (negb (ok && no_request k && no_bytes k && no_commit k && no_fail k && no_reason k && no_cancel k && no_record k && no_choice k
                           && negb (no_receipt k) && validNegotiationReceiptForEffect (ev_Negotiation ev) (ef_Call e) (at_Attempt attempt)))
            ErrInvalidRequest;
      Ok (negotiationEventBytes (ev_Negotiation ev))
  | EventProviderAccepted =>
      _ ← reject_if (negb (validBoundedText (ev_ProviderRequestID ev) (MaxProviderRequestIDBytes b) && no_bytes k && no_commit k && no_fail k
                           && no_reason k && no_cancel k && no_record k && no_choice k && no_receipt k)) ErrInvalidRequest;
      Ok (strlen (ev_ProviderRequestID ev))
  | EventOutputChunk =>
      _ ← reject_if (MaxChunkBytes b <? zlen (ev_Chunk ev)) ErrOutputLimit;
      _ ← reject_if (negb (negb (zlen (ev_Chunk ev) =? 0) && (zlen (ev_Output ev) =? 0) && no_request k && no_commit k && no_fail k && no_reason k
                           && no_cancel k && no_record k && no_choice k && no_receipt k)) ErrInvalidRequest;
      Ok (zlen (ev_Chunk ev))
  | EventCallCommitted =>
      _ ← reject_if (MaxOutputBytes b <? zlen (ev_Output ev)) ErrOutputLimit;
      _ ← reject_if (negb (negb (zlen (ev_Output ev) =? 0) && (zlen (ev_Chunk ev) =? 0) && no_request k && no_fail k && no_reason k && no_cancel k
                           && no_record k && no_choice k && no_receipt k && optional_text (ev_ExternalCommitID ev) (MaxExternalCommitIDBytes b)))
            ErrInvalidRequest;
      Ok (zlen (ev_Output ev) + strlen (ev_ExternalCommitID ev))
  | EventDispatchFailed =>
      match ev_Failure ev with
      | FailureDefinitelyNotSent | FailureRejected | FailureLedgerAbsent | FailureUnknown =>
          _ ← reject_if (negb (validBoundedText (ev_Reason ev) (MaxFailureBytes b) && no_request k && no_bytes k && no_commit k && no_cancel k
                               && no_record k && no_choice k && no_receipt k)) ErrInvalidRequest;
          Ok (strlen (ev_Reason ev))
      | _ => Err ErrInvalidRequest
      end
  | EventCancellationResolved =>
      _ ← match ev_Cancellation ev with
          | CancellationPrevented | CancellationAbsent | CancellationUnknown => reject_if (negb (no_record k)) ErrInvalidRequest
          | CancellationCommitted =>
              reject_if ((lg_Status (ev_Ledger ev) != LedgerCommitted) || negb (validateLedgerRecord b (ev_Ledger ev) false)) ErrInvalidRequest
          | _ => Err ErrInvalidRequest
          end;
      _ ← reject_if (negb (no_request k && no_bytes k && no_commit k && no_fail k && no_reason k && no_choice k && no_receipt k)) ErrInvalidRequest;
      Ok (ledgerEventBytes (ev_Ledger ev) + (if ev_Cancellation ev == CancellationUnknown then strlen "cancellation outcome is unknown" else 0))
  | EventRecoveryObserved =>
      _ ← reject_if (negb (negb (no_record k) && no_request k && no_bytes k && no_commit k && no_fail k && no_reason k && no_cancel k && no_choice k
                           && no_receipt k)) ErrInvalidRequest;
      _ ← reject_if (negb (validateLedgerRecord b (ev_Ledger ev) true)) ErrLedgerMismatch;
      Ok (ledgerEventBytes (ev_Ledger ev) + match lg_Status (ev_Ledger ev) with
                                            | LedgerFailed => strlen "external invocation failed"
                                            | LedgerAbsent => strlen "external ledger has no invocation"
                                            | LedgerUnknown => strlen "external invocation outcome is unknown"
                                            | _ => 0
                                            end)
  | EventConfirmationDecided =>
      match ev_Decision ev with
      | ConfirmationRetry | ConfirmationAbandon =>
          _ ← reject_if (negb (no_request k && no_bytes k && no_commit k && no_fail k && no_reason k && no_cancel k && no_record k && no_receipt k))
                ErrInvalidRequest;
          Ok (if ev_Decision ev == ConfirmationRetry then strlen "explicit retry confirmed"
              else if ef_CancellationRequested e then strlen confirmationAbandonUnknownReason else strlen "user declined uncertain replay")
      | _ => Err ErrInvalidRequest
      end
  | OtherEvent _ => Err ErrInvalidRequest
  end.

(** ** Transitions *)
Definition cancel_command (e : Effect) (attempt : AttemptRecord) : CancelCommand :=
  let c := ef_Call e in
  MkCancel (ca_Scope c) (serverForEffect c) (ca_ToolName c) (va_InvocationID (ca_Scope c)) (ca_RequestDigest c) (at_ProviderRequestID attempt)
    (at_Attempt attempt) (at_Negotiation attempt).
Definition plain (e : Effect) : res mcp_error Transition := Ok (MkTransition e None None).

Definition applyFailure (e : Effect) (class : FailureClass) (reason : string) : res mcp_error Effect :=
  let c := ef_Call e in
  let '(attempt, hasAttempt) := CurrentAttempt e in
  if negb hasAttempt then Err ErrInvalidTransition
  else
    let failed := set_reason reason (set_failure class e) in
    let retried := set_state StateRetryPending (set_retries (u32 (ef_AutomaticRetriesUsed e + 1)) (ef_ConfirmationRetriesUsed e) failed) in
    let more := ef_AutomaticRetriesUsed e <? ca_MaxAutomaticRetries c in
    let confirm := ca_ReplayPolicy c == ReplayConfirm in
    match class with
    | FailureDefinitelyNotSent =>
        if (ef_State e != StateDispatching) || (at_ProviderRequestID attempt != "") || at_HadOutput attempt then Err ErrInvalidTransition
        else Ok (if more then retried else set_state StateFailed failed)
    | FailureRejected =>
        if ((ef_State e != StateDispatching) && (ef_State e != StateDispatched)) || at_HadOutput attempt then Err ErrInvalidTransition
        else Ok (set_state StateFailed failed)
    | FailureLedgerAbsent | FailureUnknown =>
        let absent := class == FailureLedgerAbsent in
        let wasFailedUnknown := (ef_State e == StateFailed) && (at_Failure attempt == FailureUnknown) in
        match ef_State e with
        | StateDispatching | StateDispatched | StateStreaming | StateCancellationPending | StateUncertain | StateNeedsConfirmation | StateFailed =>
            if ef_CancellationRequested e then
              Ok (if absent then set_reason "" (set_state StateCancelled failed)
                  else set_state (if confirm then StateNeedsConfirmation else StateUncertain) failed)
            else if absent && wasFailedUnknown then Ok (set_state StateFailed failed)
            else if negb absent && at_HadOutput attempt && negb (ca_SupportsInvocationLedger c) then
              Ok (set_state (if confirm then StateNeedsConfirmation else StateUncertain) failed)
            else
              match ca_ReplayPolicy c with
              | ReplaySafe | ReplayIdempotencyKey =>
                  if (ca_ReplayPolicy c == ReplayIdempotencyKey) && negb (ca_SupportsIdempotencyKey c) then Err ErrInvalidTransition
                  else if more then Ok retried
                  else if absent || (ca_ReplayPolicy c == ReplaySafe) then Ok (set_state StateFailed failed)
                  else Ok (set_state StateUncertain failed)
              | ReplayNever => Ok (set_state (if absent then StateFailed else StateUncertain) failed)
              | ReplayConfirm => Ok (set_state StateNeedsConfirmation failed)
              | OtherReplay _ => Err ErrInvalidTransition
              end
        | _ => Err ErrInvalidTransition
        end
    | _ => Err ErrInvalidTransition
    end.

Definition applyCommittedRecord (b : Bounds) (e : Effect) (record : LedgerRecord) : res mcp_error Effect :=
  let c := ef_Call e in
  _ ← reject_if (negb (validateLedgerRecord b record false) || (lg_InvocationID record != va_InvocationID (ca_Scope c))
                 || (lg_RequestDigest record != ca_RequestDigest c) || (lg_Status record != LedgerCommitted)) ErrLedgerMismatch;
  let '(attempt, ok) := CurrentAttempt e in
  _ ← reject_if (negb ok) ErrLedgerMismatch;
  let id := lg_ProviderRequestID record in
  _ ← reject_if ((id != "") && (at_ProviderRequestID attempt != "") && (at_ProviderRequestID attempt != id)) ErrLedgerMismatch;
  let e := if (id != "") && (at_ProviderRequestID attempt == "") then set_request id e else e in
  Ok (set_state StateExternallyCommitted (set_reason "" (set_result (lg_ExternalCommitID record) (lg_Output record) e))).

Definition begin_dispatch (e : Effect) : res mcp_error Transition :=
  let c := ef_Call e in
  _ ← reject_if (((ef_State e != StateAdmitted) && (ef_State e != StateRetryPending)) || ef_CancellationRequested e) ErrInvalidTransition;
  _ ← reject_if (1 + ef_AutomaticRetriesUsed e + ef_ConfirmationRetriesUsed e <=? zlen (ef_Attempts e)) ErrInvalidTransition;
  let attempt := u32 (zlen (ef_Attempts e) + 1) in
  let next := set_reason "" (set_state StateDispatching (set_attempts (ef_Attempts e ++ [MkAttempt attempt "" false NoFailure no_negotiation]) e)) in
  let key := if ca_ReplayPolicy c == ReplayIdempotencyKey then id_value (va_InvocationID (ca_Scope c)) else "" in
  Ok (MkTransition next (Some (MkDispatch (ca_Scope c) (serverForEffect c) (ca_ToolName c) (ca_InputCanonical c) (va_InvocationID (ca_Scope c))
    (ca_RequestDigest c) (ca_ReplayPolicy c) key attempt)) None).

Definition negotiation_recorded (e : Effect) (ev : Event) : res mcp_error Transition :=
  let '(attempt, ok) := CurrentAttempt e in
  _ ← reject_if ((ef_State e != StateDispatching) || negb ok || (at_ProviderRequestID attempt != "") || at_HadOutput attempt
                 || (at_Failure attempt != NoFailure) || (at_Negotiation attempt != no_negotiation)
                 || negb (validNegotiationReceiptForEffect (ev_Negotiation ev) (ef_Call e) (at_Attempt attempt))) ErrInvalidTransition;
  plain (set_negotiation (ev_Negotiation ev) e).
Definition provider_accepted (e : Effect) (ev : Event) : res mcp_error Transition :=
  let '(attempt, ok) := CurrentAttempt e in
  _ ← reject_if ((ef_State e != StateDispatching) || negb ok || (at_ProviderRequestID attempt != "") || at_HadOutput attempt
                 || (at_Failure attempt != NoFailure)
                 || negb (validNegotiationReceiptForEffect (at_Negotiation attempt) (ef_Call e) (at_Attempt attempt))) ErrInvalidTransition;
  plain (set_state StateDispatched (set_request (ev_ProviderRequestID ev) e)).
Definition output_chunk (b : Bounds) (e : Effect) (ev : Event) : res mcp_error Transition :=
  let '(attempt, ok) := CurrentAttempt e in
  _ ← reject_if (((ef_State e != StateDispatched) && (ef_State e != StateStreaming)) || negb ok || (at_ProviderRequestID attempt == ""))
        ErrInvalidTransition;
  _ ← reject_if ((u64 (MaxOutputBytes b - ef_StreamBytes e) <? zlen (ev_Chunk ev)) || (MaxChunks b <=? ef_ChunkCount e)) ErrOutputLimit;
  plain (set_state StateStreaming (set_stream (u32 (ef_ChunkCount e + 1)) (u64 (ef_StreamBytes e + zlen (ev_Chunk ev))) (set_had_output e))).
Definition call_committed (e : Effect) (ev : Event) : res mcp_error Transition :=
  match ef_State e with
  | StateDispatched | StateStreaming | StateCancellationPending | StateUncertain | StateNeedsConfirmation | StateFailed =>
      let '(attempt, ok) := CurrentAttempt e in
      _ ← reject_if ((ef_State e == StateFailed) && (negb ok || (at_Failure attempt != FailureUnknown))) ErrInvalidTransition;
      _ ← reject_if (negb ok || ((at_ProviderRequestID attempt == "") && (ev_ExternalCommitID ev == ""))) ErrInvalidTransition;
      plain (set_state StateExternallyCommitted (set_reason "" (set_result (ev_ExternalCommitID ev) (ev_Output ev) e)))
  | _ => Err ErrInvalidTransition
  end.
Definition settlement_completed (e : Effect) : res mcp_error Transition :=
  _ ← reject_if ((ef_State e != StateExternallyCommitted) || (zlen (ef_Output e) =? 0)) ErrInvalidTransition;
  plain (set_state StateCompleted e).
Definition cancel_requested (e : Effect) : res mcp_error Transition :=
  let next := set_cancelling true e in
  let '(attempt, ok) := CurrentAttempt e in
  let cancelled := plain (set_reason "" (set_state StateCancelled next)) in
  let pending := Ok (MkTransition (set_state StateCancellationPending next) None (Some (cancel_command e attempt))) in
  match ef_State e with
  | StateAdmitted => cancelled
  | StateRetryPending =>
      if negb ok then Err ErrInvalidTransition
      else if (at_Failure attempt == FailureDefinitelyNotSent) || (at_Failure attempt == FailureLedgerAbsent) then cancelled else pending
  | StateDispatching | StateDispatched | StateStreaming | StateUncertain | StateNeedsConfirmation => pending
  | StateFailed => if negb ok || (at_Failure attempt != FailureUnknown) then Err ErrInvalidTransition else pending
  | _ => Err ErrInvalidTransition
  end.
Definition cancellation_resolved (b : Bounds) (e : Effect) (ev : Event) : res mcp_error Transition :=
  _ ← reject_if (ef_State e != StateCancellationPending) ErrInvalidTransition;
  let '(attempt, ok) := CurrentAttempt e in
  _ ← reject_if (negb ok) ErrInvalidTransition;
  match ev_Cancellation ev with
  | CancellationPrevented =>
      if (at_ProviderRequestID attempt != "") || at_HadOutput attempt then Err ErrInvalidTransition else plain (set_reason "" (set_state StateCancelled e))
  | CancellationAbsent => plain (set_reason "" (set_state StateCancelled e))
  | CancellationCommitted => next ← applyCommittedRecord b e (ev_Ledger ev); plain next
  | CancellationUnknown =>
      plain (set_state (if ca_ReplayPolicy (ef_Call e) == ReplayConfirm then StateNeedsConfirmation else StateUncertain)
               (set_reason "cancellation outcome is unknown" (set_failure FailureUnknown e)))
  | _ => plain e
  end.
(** The external ledger says that the invocation runs. *)
Definition observed_inflight (e : Effect) (record : LedgerRecord) : res mcp_error Effect :=
  let '(attempt, ok) := CurrentAttempt e in
  let id := lg_ProviderRequestID record in
  _ ← reject_if (negb ok || (id == "") || ((at_ProviderRequestID attempt != "") && (at_ProviderRequestID attempt != id))) ErrLedgerMismatch;
  let e := set_request id e in
  match ef_State e with
  | StateDispatching | StateUncertain | StateNeedsConfirmation | StateFailed =>
      let state := if ef_CancellationRequested e then StateCancellationPending else if at_HadOutput attempt then StateStreaming else StateDispatched in
      Ok (set_reason "" (set_failure NoFailure (set_state state e)))
  | _ => Ok e
  end.
Definition observed_failed (e : Effect) (record : LedgerRecord) : res mcp_error Effect :=
  let '(attempt, ok) := CurrentAttempt e in
  let id := lg_ProviderRequestID record in
  _ ← reject_if (negb ok || ((id != "") && (at_ProviderRequestID attempt != "") && (at_ProviderRequestID attempt != id))) ErrLedgerMismatch;
  let e := if at_ProviderRequestID attempt == "" then set_request id e else e in
  Ok (set_reason "external invocation failed" (set_state StateFailed (set_failure FailureExternalFailed e))).
Definition recovery_observed (b : Bounds) (e : Effect) (ev : Event) : res mcp_error Transition :=
  let record := ev_Ledger ev in
  _ ← match ef_State e with
      | StateDispatching | StateDispatched | StateStreaming | StateCancellationPending | StateUncertain | StateNeedsConfirmation => Ok tt
      | StateFailed => let '(attempt, ok) := CurrentAttempt e in reject_if (negb ok || (at_Failure attempt != FailureUnknown)) ErrInvalidTransition
      | _ => Err ErrInvalidTransition
      end;
  _ ← reject_if ((lg_InvocationID record != va_InvocationID (ca_Scope (ef_Call e))) || (lg_RequestDigest record != ca_RequestDigest (ef_Call e)))
        ErrLedgerMismatch;
  next ← match lg_Status record with
         | LedgerInflight => observed_inflight e record
         | LedgerCommitted => applyCommittedRecord b e record
         | LedgerFailed => observed_failed e record
         | LedgerAbsent => applyFailure e FailureLedgerAbsent "external ledger has no invocation"
         | LedgerUnknown => applyFailure e FailureUnknown "external invocation outcome is unknown"
         | _ => Err ErrInvalidTransition
         end;
  plain next.
Definition confirmation_decided (e : Effect) (ev : Event) : res mcp_error Transition :=
  _ ← reject_if ((ef_State e != StateNeedsConfirmation) || (ca_ReplayPolicy (ef_Call e) != ReplayConfirm)) ErrInvalidTransition;
  match ev_Decision ev with
  | ConfirmationRetry =>
      _ ← reject_if (ca_MaxConfirmationRetries (ef_Call e) <=? ef_ConfirmationRetriesUsed e) ErrInvalidTransition;
      plain (set_reason "explicit retry confirmed" (set_state StateRetryPending (set_cancelling false
        (set_retries (ef_AutomaticRetriesUsed e) (u32 (ef_ConfirmationRetriesUsed e + 1)) e))))
  | ConfirmationAbandon =>
      if ef_CancellationRequested e then plain (set_reason confirmationAbandonUnknownReason (set_state StateUncertain e))
      else plain (set_reason "user declined uncertain replay" (set_state StateFailed e))
  | _ => plain e
  end.

Definition transition (b : Bounds) (e : Effect) (ev : Event) : res mcp_error Transition :=
  match ev_Kind ev with
  | EventBeginDispatch => begin_dispatch e
  | EventNegotiationRecorded => negotiation_recorded e ev
  | EventProviderAccepted => provider_accepted e ev
  | EventOutputChunk => output_chunk b e ev
  | EventCallCommitted => call_committed e ev
  | EventSettlementCompleted => settlement_completed e
  | EventDispatchFailed => next ← applyFailure e (ev_Failure ev) (ev_Reason ev); plain next
  | EventCancelRequested => cancel_requested e
  | EventCancellationResolved => cancellation_resolved b e ev
  | EventRecoveryObserved => recovery_observed b e ev
  | EventConfirmationDecided => confirmation_decided e ev
  | OtherEvent _ => plain e
  end.

Definition Apply `{N : Normalizer} (gw : Gateway) (e : Effect) (ev : Event) : res mcp_error Transition :=
  let b := gw_bounds gw in
  _ ← validateEffect gw e;
  _ ← reject_if (ev_ExpectedRevision ev != ef_Revision e) ErrConcurrentTransition;
  _ ← reject_if ((ef_Revision e =? u64_max) || (MaxEvents b <=? ef_EventCount e)) ErrEventLimit;
  eventBytes ← validateEvent b e ev;
  _ ← reject_if (u64_max - ef_EventBytes e <? eventBytes) ErrEventLimit;
  t ← transition b e ev;
  _ ← reject_if (MaxEvents b <? ef_EventCount (tn_Effect t) + 1 + minimumRemainingEvents (tn_Effect t)) ErrEventLimit;
  Ok (MkTransition (advance eventBytes (tn_Effect t)) (tn_Dispatch t) (tn_Cancel t)).
