(* ===== verification/McpProofs.v ===== *)
(** * MCP gateway: snapshots stay valid

    What a configured gateway guarantees ([gateway_ok]), the invariant of effects
    ([sound]), and that every transition keeps it. *)

From S2P Require Import Prelude GoText GoStrings GoCrypto Canonical Identity BrokerTypes McpGateway McpMachine.
#[local] Open Scope string_scope.
#[local] Open Scope list_scope.
#[local] Open Scope Z_scope.
#[local] Open Scope go_scope.

(** ** The last attempt *)
Lemma update_last_snoc {A} (f : A -> A) l x : update_last f (l ++ [x]) = l ++ [f x].
Proof. induction l as [|y [|z l] IH]; [done|done|]. simpl in *. by rewrite IH. Qed.
Lemma current_snoc e l a : ef_Attempts e = l ++ [a] -> CurrentAttempt e = (a, true).
Proof. unfold CurrentAttempt. intros ->. by rewrite last_snoc. Qed.
Lemma current_some e a : CurrentAttempt e = (a, true) -> exists l, ef_Attempts e = l ++ [a].
Proof.
  unfold CurrentAttempt. destruct (last (ef_Attempts e)) as [a'|] eqn:Hl; [|done]. intros [= ->].
  apply last_Some in Hl as [l Hl]. by exists l.
Qed.
Lemma current_none e a : CurrentAttempt e = (a, false) -> ef_Attempts e = [] /\ a = no_attempt.
Proof.
  unfold CurrentAttempt. destruct (last (ef_Attempts e)) as [a'|] eqn:Hl; [done|]. intros [= ->]. split; [|done]. by apply last_None.
Qed.
Lemma zlen_snoc {A} (l : list A) x : zlen (l ++ [x]) = zlen l + 1.
Proof. unfold zlen. rewrite length_app. simpl. lia. Qed.
Lemma u32_id z : 0 <= z < 2 ^ 32 -> u32 z = z.
Proof. unfold u32. intros. by apply Z.mod_small. Qed.

(** ** Texts *)
Lemma bounded_text_bytes s n : validBoundedText s n = true -> s <> "" /\ strlen s <= n.
Proof. unfold validBoundedText. intros H. bools in H. tauto. Qed.
Lemma optional_text_bytes s n : 0 <= n -> optional_text s n = true -> strlen s <= n.
Proof. unfold optional_text. intros Hn H. bools in H. destruct H as [->|H]; [exact Hn|]. by destruct (bounded_text_bytes _ _ H). Qed.
Lemma optional_text_some s n : validBoundedText s n = true -> optional_text s n = true.
Proof. unfold optional_text. intros ->. apply orb_true_r. Qed.

(** ** Gateways *)
Record bounds_ok (b : Bounds) : Prop := MkBoundsOk {
  bo_server : 1 <= MaxServerIDBytes b <= 512; bo_target : 1 <= MaxTargetRefBytes b <= 1024; bo_protocol : 1 <= MaxProtocolVersionBytes b <= 512;
  bo_request : 1 <= MaxProviderRequestIDBytes b <= 1024; bo_commit : 1 <= MaxExternalCommitIDBytes b <= 1024;
  bo_chunk : 1 <= MaxChunkBytes b <= MaxOutputBytes b; bo_output : MaxOutputBytes b <= 67108864; bo_chunks : 1 <= MaxChunks b <= MaxEvents b;
  bo_failure : 1 <= MaxFailureBytes b <= 4096; bo_events : 8 <= MaxEvents b <= 1048576;
}.
(** Room for the reasons the machine writes itself and for the receipt of a negotiation;
    the configuration checks do not ask for it. *)
Definition roomy (b : Bounds) : Prop := 38 <= MaxFailureBytes b /\ 2048 <= MaxOutputBytes b.
Definition unsigned_bounds (b : Bounds) : Prop :=
  0 <= MaxServerIDBytes b /\ 0 <= MaxTargetRefBytes b /\ 0 <= MaxProtocolVersionBytes b /\ 0 <= MaxProviderRequestIDBytes b /\
  0 <= MaxExternalCommitIDBytes b /\ 0 <= MaxChunkBytes b /\ 0 <= MaxChunks b /\ 0 <= MaxFailureBytes b.
Definition known_policy (p : ReplayPolicy) : Prop := match p with OtherReplay _ => False | _ => True end.
Record tool_ok (b : Bounds) (t : ToolRegistration) : Prop := MkToolOk {
  to_automatic : 0 <= tr_MaxAutomaticRetries t <= 16; to_confirmation : 0 <= tr_MaxConfirmationRetries t <= 16;
  to_policy : known_policy (tr_ReplayPolicy t); to_events : required_events b t <= MaxEvents b;
}.
Definition server_ok (s : ServerRegistration) : Prop :=
  match sv_Transport s with TransportStdio => True | TransportStreamableHTTP => sv_Affinity s = no_affinity | OtherTransport _ => False end.
Record gateway_ok (gw : Gateway) : Prop := MkGatewayOk {
  go_bounds : bounds_ok (gw_bounds gw);
  go_servers : forall k s, gw_servers gw !! k = Some s -> server_ok s;
  go_tools : forall k t, gw_tools gw !! k = Some t -> tool_ok (gw_bounds gw) t;
}.

Lemma validate_bounds_ok b : unsigned_bounds b -> invalid_bounds b = false -> bounds_ok b.
Proof.
  unfold unsigned_bounds, invalid_bounds, bad_bound. intros Hu H. bools in H.
  unfold hardMaxIdentifierBytes, hardMaxTargetRefBytes, hardMaxProviderRequestIDBytes, hardMaxExternalCommitIDBytes, hardMaxOutputBytes, hardMaxFailureBytes,
    hardMaxEvents in H. change (Z.shiftl 64 20) with 67108864 in H. change (Z.shiftl 1 20) with 1048576 in H. constructor; lia.
Qed.
Lemma check_server_ok b deps providers r u : check_server b deps providers r = Ok u -> server_ok r.
Proof.
  unfold check_server, server_ok. intros H. apply reject_if_ok in H as [_ H]. apply reject_if_ok in H as [_ H]. apply bind_ok in H as ([] & H & _).
  destruct (sv_Transport r); [done| |done]. unfold reject_if in H. destruct (sv_Affinity r != no_affinity) eqn:Ha; [done|]. by apply neq_test_false in Ha.
Qed.
Lemma add_servers_ok b deps providers servers : forall acc m, add_servers b deps providers servers acc = Ok m ->
  (forall k s, acc !! k = Some s -> server_ok s) -> forall k s, m !! k = Some s -> server_ok s.
Proof.
  induction servers as [|r rest IH]; intros acc m H Hacc; [by injection H as <-|]. simpl in H. apply bind_ok in H as ([] & Hr & H).
  apply reject_if_ok in H as [_ H]. eapply IH; [exact H|]. intros k s [[<- <-]|[_ Hk]]%lookup_insert_Some; [by eapply check_server_ok|by eapply Hacc].
Qed.
Definition unsigned_tool (t : ToolRegistration) : Prop := 0 <= tr_MaxAutomaticRetries t /\ 0 <= tr_MaxConfirmationRetries t.
Lemma check_tool_ok b servers r r' : unsigned_tool r -> check_tool b servers r = Ok r' -> tool_ok b r'.
Proof.
  unfold check_tool, unsigned_tool. intros [H1 H2] H. apply reject_if_ok in H as [Hr H]. apply reject_if_ok in H as [_ H]. apply reject_if_ok in H as [_ H].
  apply bind_ok in H as ([] & Hp & H). apply reject_if_ok in H as [_ H]. apply reject_if_ok in H as [He H]. injection H as <-.
  unfold hardMaxRetries in Hr. bools in Hr. bools in He.
  constructor; [unfold default_policy; destruct (negb (tr_SideEffecting r) && _); simpl; lia..| |done].
  by destruct (tr_ReplayPolicy (default_policy r)).
Qed.
Lemma add_tools_ok b servers tools : Forall unsigned_tool tools -> forall acc m, add_tools b servers tools acc = Ok m ->
  (forall k t, acc !! k = Some t -> tool_ok b t) -> forall k t, m !! k = Some t -> tool_ok b t.
Proof.
  induction 1 as [|r rest Hr _ IH]; intros acc m H Hacc; [by injection H as <-|]. simpl in H. apply bind_ok in H as (r' & Hr' & H).
  apply reject_if_ok in H as [_ H]. eapply IH; [exact H|]. intros k t [[<- <-]|[_ Hk]]%lookup_insert_Some; [by eapply check_tool_ok|by eapply Hacc].
Qed.
(** What is configured is what the machine relies on. *)
Lemma newGateway_ok c deps production gw : unsigned_bounds (cg_Bounds c) -> Forall unsigned_tool (cg_Tools c) ->
  newGateway c deps production = Ok gw -> gateway_ok gw /\ gw_bounds gw = cg_Bounds c.
Proof.
  intros Hb Ht H. unfold newGateway in H. apply bind_ok in H as ([] & Hbounds & H). do 3 apply reject_if_ok in H as [_ H]. apply reject_if_ok in H as [_ H].
  apply bind_ok in H as (servers & Hs & H). apply reject_if_ok in H as [_ H]. apply bind_ok in H as (tools & Hto & H). injection H as <-.
  split; [|done]. constructor; simpl.
  - apply validate_bounds_ok; [done|]. unfold validateBounds, reject_if in Hbounds. by destruct (invalid_bounds (cg_Bounds c)).
  - eapply add_servers_ok; [exact Hs|]. done.
  - eapply add_tools_ok; [exact Ht|exact Hto|]. done.
Qed.

(** ** What [validateEffect] checks *)
Definition call_fields (b : Bounds) (c : Call) : Prop :=
  validScope (ca_Scope c) = true /\ ca_RequestDigest c <> zero_digest /\ validIdentifier (ca_ServerID c) (MaxServerIDBytes b) = true /\
  validIdentifier (ca_ToolName c) (MaxToolNameBytes b) = true /\ validIdentifier (ca_ProviderID c) (MaxServerIDBytes b) = true /\
  validRegistryRef (ca_TargetRef c) (MaxTargetRefBytes b) = true /\ validBoundedText (ca_ProtocolVersion c) (MaxProtocolVersionBytes b) = true /\
  zlen (ca_InputCanonical c) <> 0 /\ zlen (ca_InputCanonical c) <= MaxInputBytes b /\ ca_MaxAutomaticRetries c <= 16 /\ ca_MaxConfirmationRetries c <= 16.
Definition counters (b : Bounds) (e : Effect) : Prop :=
  ef_Revision e <> 0 /\ ef_Revision e = u64 (ef_EventCount e + 1) /\ ef_EventCount e <= MaxEvents b /\
  ef_AutomaticRetriesUsed e <= ca_MaxAutomaticRetries (ef_Call e) /\ ef_ConfirmationRetriesUsed e <= ca_MaxConfirmationRetries (ef_Call e) /\
  zlen (ef_Attempts e) <= 1 + ef_AutomaticRetriesUsed e + ef_ConfirmationRetriesUsed e /\
  ef_ChunkCount e <= MaxChunks b /\ ef_StreamBytes e <= MaxOutputBytes b /\ ef_EventBytes e <= maximumEventBytes b /\
  zlen (ef_Output e) <= MaxOutputBytes b /\ optional_text (ef_ExternalCommitID e) (MaxExternalCommitIDBytes b) = true /\
  optional_text (ef_FailureReason e) (MaxFailureBytes b) = true.
Lemma invalid_fields_iff b e : invalid_fields b e = false <-> call_fields b (ef_Call e) /\ counters b e.
Proof. unfold invalid_fields, call_fields, counters, hardMaxRetries. cbv zeta. bools. tauto. Qed.

Section validity.
Context `{N : Normalizer}.

Record call_valid (gw : Gateway) (c : Call) : Prop := MkCallValid {
  cv_fields : call_fields (gw_bounds gw) c;
  cv_digest : digestCanonicalCall (ca_ServerID c) (ca_ToolName c) (ca_InputCanonical c) = Ok (ca_RequestDigest c);
  cv_registered : registered gw c = true;
  cv_idempotent : ca_ReplayPolicy c = ReplayIdempotencyKey -> ca_SupportsIdempotencyKey c = true /\ ca_SupportsInvocationLedger c = true;
}.
Lemma snapshot_iff gw e : validateEffect gw e = Ok tt <->
  call_valid gw (ef_Call e) /\ counters (gw_bounds gw) e /\ valid_bytes (gw_bounds gw) e = true /\ invalid_state e = false.
Proof.
  unfold validateEffect. cbv zeta. rewrite !reject_if_ok, invalid_fields_iff, neq_test_false, !negb_false_iff.
  assert (Hr : reject_if (invalid_state e) ErrInvalidRequest = Ok tt <-> invalid_state e = false) by (unfold reject_if; by destruct (invalid_state e)).
  rewrite Hr, andb_false_iff, orb_false_iff, !negb_false_iff, bool_decide_eq_false.
  split.
  - intros ([H1 H2] & H3 & H4 & H5 & H6 & H7). split_and!; try done. constructor; try done. tauto.
  - intros ([H1 H3 H4 H5] & H2 & H6 & H7). split_and!; try done. destruct (decide (ca_ReplayPolicy (ef_Call e) = ReplayIdempotencyKey)); tauto.
Qed.

(** ** Attempts and the bytes they account for *)
Definition attempt_bytes (a : AttemptRecord) : Z := strlen (at_ProviderRequestID a) + negotiationEventBytes (at_Negotiation a).
Definition attempts_bytes (l : list AttemptRecord) : Z := foldr (fun a n => attempt_bytes a + n) 0 l.
Definition accounted (e : Effect) : Z :=
  ef_StreamBytes e + zlen (ef_Output e) + strlen (ef_ExternalCommitID e) + strlen (ef_FailureReason e) + attempts_bytes (ef_Attempts e).
Definition attempts_ok (b : Bounds) (c : Call) (l : list AttemptRecord) : Prop :=
  forall i a, l !! i = Some a -> valid_attempt b c (Z.of_nat i) a = true.

Lemma negotiation_bytes_nonneg n : 0 <= negotiationEventBytes n.
Proof. unfold negotiationEventBytes. case_bool_decide; [done|]. unfold strlen. lia. Qed.
Lemma attempts_bytes_snoc l a : attempts_bytes (l ++ [a]) = attempts_bytes l + attempt_bytes a.
Proof. induction l as [|x l IH]; simpl; [lia|]. unfold attempts_bytes in *. lia. Qed.
Lemma attempts_bytes_nonneg l : 0 <= attempts_bytes l.
Proof.
  induction l as [|a l IH]; [done|]. simpl. fold (attempts_bytes l).
  pose proof (strlen_nonneg (at_ProviderRequestID a)). pose proof (negotiation_bytes_nonneg (at_Negotiation a)). unfold attempt_bytes. lia.
Qed.
Lemma attempts_ok_snoc b c l a : attempts_ok b c (l ++ [a]) <-> attempts_ok b c l /\ valid_attempt b c (zlen l) a = true.
Proof.
  unfold attempts_ok, zlen. split.
  - intros H. split; [intros i x Hx; apply H; by apply lookup_app_l_Some|]. apply H. by rewrite lookup_app_r, Nat.sub_diag.
  - intros [H1 H2] i x [Hi|[Hle Hi]]%lookup_app_Some; [by apply H1|]. apply list_lookup_singleton_Some in Hi as [Hi <-].
    replace i with (length l) by lia. done.
Qed.
Lemma check_attempts_ok b c l : forall k n, 0 <= n -> n + attempts_bytes l <= u64_max ->
  (forall i a, l !! i = Some a -> valid_attempt b c (k + Z.of_nat i) a = true) -> check_attempts b c k n l = Some (n + attempts_bytes l).
Proof.
  induction l as [|a l IH]; intros k n Hn Hmax Hok; simpl; [f_equal; lia|].
  assert (Ha : valid_attempt b c k a = true) by (rewrite <- (Z.add_0_r k); by apply (Hok 0%nat)). rewrite Ha. simpl.
  simpl in Hmax. fold (attempts_bytes l) in *. unfold attempt_bytes in *. pose proof (strlen_nonneg (at_ProviderRequestID a)).
  pose proof (negotiation_bytes_nonneg (at_Negotiation a)). pose proof (attempts_bytes_nonneg l).
  rewrite (proj2 (Z.ltb_ge _ _)) by lia. rewrite (proj2 (Z.ltb_ge _ _)) by lia. rewrite IH; [f_equal; lia|lia|lia|].
  intros i x Hx. replace (k + 1 + Z.of_nat i) with (k + Z.of_nat (S i)) by lia. by apply Hok.
Qed.
Lemma valid_bytes_ok b e : 0 <= ef_StreamBytes e -> attempts_ok b (ef_Call e) (ef_Attempts e) -> accounted e <= ef_EventBytes e -> ef_EventBytes e <= u64_max ->
  valid_bytes b e = true.
Proof.
  intros Hs Hok Ha Hmax. unfold valid_bytes. cbv zeta. unfold accounted in Ha. pose proof (attempts_bytes_nonneg (ef_Attempts e)).
  pose proof (zlen_nonneg (ef_Output e)). pose proof (strlen_nonneg (ef_ExternalCommitID e)). pose proof (strlen_nonneg (ef_FailureReason e)).
  unfold u64_max in *. rewrite u64_id by (unfold is_u64; lia). rewrite check_attempts_ok; [bools; lia|lia|unfold u64_max; lia|].
  intros i a Hi. rewrite Z.add_0_l. by apply Hok.
Qed.

(** ** The invariant *)
Definition committed_state (s : State) : Prop := s = StateExternallyCommitted \/ s = StateCompleted.
Definition failed_state (s : State) : Prop := s = StateFailed \/ s = StateNeedsConfirmation \/ s = StateUncertain.
(** All but the counters that every transition advances. *)
Record core (gw : Gateway) (e : Effect) : Prop := MkCore {
  co_call : call_valid gw (ef_Call e);
  co_automatic : 0 <= ef_AutomaticRetriesUsed e <= ca_MaxAutomaticRetries (ef_Call e);
  co_confirmation : 0 <= ef_ConfirmationRetriesUsed e <= ca_MaxConfirmationRetries (ef_Call e);
  co_length : zlen (ef_Attempts e) <= 1 + ef_AutomaticRetriesUsed e + ef_ConfirmationRetriesUsed e;
  co_chunks : 0 <= ef_ChunkCount e <= MaxChunks (gw_bounds gw);
  co_stream : 0 <= ef_StreamBytes e <= MaxOutputBytes (gw_bounds gw);
  co_attempts : attempts_ok (gw_bounds gw) (ef_Call e) (ef_Attempts e);
  co_output : zlen (ef_Output e) <= MaxOutputBytes (gw_bounds gw);
  co_commit : optional_text (ef_ExternalCommitID e) (MaxExternalCommitIDBytes (gw_bounds gw)) = true;
  co_reason : optional_text (ef_FailureReason e) (MaxFailureBytes (gw_bounds gw)) = true;
  co_state : invalid_state e = false;
  co_result : ~ committed_state (ef_State e) -> ef_Output e = [] /\ ef_ExternalCommitID e = "";
  co_failed : failed_state (ef_State e) -> exists a, CurrentAttempt e = (a, true) /\ at_Failure a <> NoFailure;
  co_had : forall a, a ∈ ef_Attempts e -> at_HadOutput a = true -> 0 < ef_ChunkCount e /\ 0 < ef_StreamBytes e;
}.
Record sound (gw : Gateway) (e : Effect) : Prop := MkSound {
  so_core : core gw e;
  so_count : 0 <= ef_EventCount e;
  so_revision : ef_Revision e = ef_EventCount e + 1;
  so_accounted : accounted e <= ef_EventBytes e;
  so_bytes : ef_EventBytes e <= ef_EventCount e * bytes_per_event (gw_bounds gw);
  so_reserve : ef_EventCount e + minimumRemainingEvents e <= MaxEvents (gw_bounds gw);
}.

(** What the registration of a call says. *)
Lemma registered_tool gw c : gateway_ok gw -> registered gw c = true ->
  known_policy (ca_ReplayPolicy c) /\ 0 <= ca_MaxAutomaticRetries c <= 16 /\ 0 <= ca_MaxConfirmationRetries c <= 16 /\
  exists t, tool_ok (gw_bounds gw) t /\ tr_ReplayPolicy t = ca_ReplayPolicy c /\ tr_MaxAutomaticRetries t = ca_MaxAutomaticRetries c /\
    tr_MaxConfirmationRetries t = ca_MaxConfirmationRetries c.
Proof.
  intros Hgw H. unfold registered in H. cbv zeta in H. apply andb_true_iff in H as [_ H]. destruct (gw_tools gw !! _) as [t|] eqn:Ht; [|done].
  bools in H. destruct H as [[[_ Hp] Ha] Hc]. destruct (go_tools _ Hgw _ _ Ht) as [Hta Htc Htp Hte].
  split; [by rewrite <- Hp|]. split; [lia|]. split; [lia|]. exists t. split; [by constructor|done].
Qed.
Definition affinity_bytes (a : BackendAffinity) : Z :=
  strlen (af_Backend a) + strlen (scope_text (af_Scope a)) + strlen (af_SecretExposureClass a) + strlen (af_SandboxProtocolVersion a).
Lemma validateAffinity_bytes a template : validateAffinity a template = Ok tt -> affinity_bytes a <= 512 + 10 + 512 + 512.
Proof.
  unfold validateAffinity, affinity_bytes. intros H. apply reject_if_ok in H as [Hr H]. bools in Hr. destruct Hr as [[[[[Hb _] _] _] Hs] Hp].
  unfold validIdentifier in *. bools in Hb. bools in Hs. bools in Hp. destruct Hb as [Hb _], Hs as [Hs _], Hp as [Hp _].
  apply bounded_text_bytes in Hb as [_ Hb], Hs as [_ Hs], Hp as [_ Hp]. unfold hardMaxIdentifierBytes in *. apply reject_if_ok in H as [_ H].
  assert (strlen (scope_text (af_Scope a)) <= 10) by (by destruct (af_Scope a)). lia.
Qed.
Lemma registered_affinity gw c : gateway_ok gw -> registered gw c = true -> affinity_bytes (ca_Affinity c) <= 1546.
Proof.
  intros Hgw H. unfold registered in H. cbv zeta in H. apply andb_true_iff in H as [H _]. destruct (gw_servers gw !! _) as [s|] eqn:Hs; [|done].
  pose proof (go_servers _ Hgw _ _ Hs) as Hok. unfold server_ok in Hok. destruct (resolveServerRegistration s (ca_Scope c)) as [s'|] eqn:Hres; [|done].
  bools in H. destruct H as [[_ <-] _]. unfold resolveServerRegistration in Hres. cbv zeta in Hres. case_bool_decide as Ht.
  - injection Hres as <-. destruct (sv_Transport s); [done| |done]. rewrite Hok. done.
  - apply bind_ok in Hres as (a & _ & Hres). apply bind_ok in Hres as ([] & Ha & Hres). injection Hres as <-. simpl.
    apply wrap_err_ok in Ha. by apply validateAffinity_bytes in Ha.
Qed.
Lemma receipt_bytes gw c r n : gateway_ok gw -> call_valid gw c -> validNegotiationReceiptForEffect r c n = true ->
  negotiationEventBytes r <= 256 + MaxServerIDBytes (gw_bounds gw) + MaxTargetRefBytes (gw_bounds gw) + 2 * MaxProtocolVersionBytes (gw_bounds gw) + 1546.
Proof.
  intros Hgw [Hf _ Hreg _] H. pose proof (registered_affinity _ _ Hgw Hreg) as Haf. unfold validNegotiationReceiptForEffect in H. bools in H.
  destruct H as [[[[[[[[_ Hs] _] _] _] Hv] Ha] _] _]. destruct Hf as (_ & _ & Hid & _ & _ & Htr & Hpv & _).
  unfold validIdentifier in Hid. unfold validRegistryRef in Htr. bools in Hid. bools in Htr. destruct Hid as [Hid _], Htr as [[Htr _] _].
  apply bounded_text_bytes in Hid as [_ Hid], Htr as [_ Htr], Hpv as [_ Hpv]. pose proof (bo_target _ (go_bounds _ Hgw)). pose proof (bo_server _ (go_bounds _ Hgw)).
  pose proof (bo_protocol _ (go_bounds _ Hgw)). unfold negotiationEventBytes. cbv zeta. case_bool_decide; [lia|]. rewrite Hs, Hv, Ha. simpl. unfold affinity_bytes in Haf. lia.
Qed.

Lemma ledger_bytes b r allow : bounds_ok b -> validateLedgerRecord b r allow = true ->
  0 <= ledgerEventBytes r <= MaxProviderRequestIDBytes b + MaxExternalCommitIDBytes b + MaxOutputBytes b + MaxFailureBytes b.
Proof.
  intros Hb H. unfold validateLedgerRecord in H. cbv zeta in H. bools in H. destruct H as [[[[[_ H1] H2] H3] H4] _].
  destruct Hb. apply optional_text_bytes in H1, H2, H4; try lia. unfold ledgerEventBytes, strlen, zlen in *. lia.
Qed.
(** No event accounts for more than its share of the total. *)
Lemma event_bytes gw e ev n : gateway_ok gw -> roomy (gw_bounds gw) -> call_valid gw (ef_Call e) ->
  validateEvent (gw_bounds gw) e ev = Ok n -> 0 <= n <= bytes_per_event (gw_bounds gw).
Proof.
  intros Hgw Hroom Hc H. set (b := gw_bounds gw) in *. pose proof (go_bounds _ Hgw : bounds_ok b) as Hb. pose proof Hroom as [Hr1 Hr2].
  destruct Hb as [B1 B2 B3 B4 B5 B6 B7 B8 B9 B10]. pose proof (go_bounds _ Hgw : bounds_ok b) as Hb. unfold bytes_per_event. unfold validateEvent in H. cbv zeta in H.
  destruct (ev_Kind ev).
  - apply reject_if_ok in H as [_ [= <-]]. lia.
  - destruct (CurrentAttempt e) as [a ok]. apply reject_if_ok in H as [Hr [= <-]]. bools in Hr. destruct Hr as [_ Hr].
    pose proof (receipt_bytes _ _ _ _ Hgw Hc Hr) as Hn. pose proof (negotiation_bytes_nonneg (ev_Negotiation ev)). fold b in Hn. lia.
  - apply reject_if_ok in H as [Hr [= <-]]. bools in Hr. destruct Hr as [[[[[[[[Hr _] _] _] _] _] _] _] _]. apply bounded_text_bytes in Hr as [_ Hr].
    unfold strlen in *. lia.
  - apply reject_if_ok in H as [Hr H]. apply reject_if_ok in H as [_ [= <-]]. bools in Hr. unfold zlen in *. lia.
  - apply reject_if_ok in H as [Hr H]. apply reject_if_ok in H as [Hr' [= <-]]. bools in Hr. bools in Hr'. destruct Hr' as [_ Hr'].
    apply optional_text_bytes in Hr'; [|lia]. unfold zlen, strlen in *. lia.
  - apply reject_if_ok in H as [_ [= <-]]. lia.
  - destruct (ev_Failure ev); try done; apply reject_if_ok in H as [Hr [= <-]]; bools in Hr; destruct Hr as [[[[[[[Hr _] _] _] _] _] _] _];
      apply bounded_text_bytes in Hr as [_ Hr]; unfold strlen in *; lia.
  - apply reject_if_ok in H as [_ [= <-]]. lia.
  - apply bind_ok in H as ([] & Hk & H). apply reject_if_ok in H as [_ [= <-]].
    assert (0 <= ledgerEventBytes (ev_Ledger ev) <= MaxProviderRequestIDBytes b + MaxExternalCommitIDBytes b + MaxOutputBytes b + MaxFailureBytes b).
    { destruct (ev_Cancellation ev); try done; unfold reject_if in Hk.
      1-2,4: destruct (negb (no_record (blanks_of ev))) eqn:Hz; [done|]; apply negb_false_iff in Hz; simpl in Hz; unfold zeroLedgerRecord in Hz;
        apply bool_decide_eq_true in Hz; rewrite Hz; unfold ledgerEventBytes, strlen, zlen; simpl; lia.
      destruct (_ || _) eqn:Hz; [done|]. apply orb_false_iff in Hz as [_ Hz]. apply negb_false_iff in Hz. by eapply ledger_bytes. }
    change (strlen "cancellation outcome is unknown") with 31. destruct (ev_Cancellation ev == CancellationUnknown); lia.
  - apply reject_if_ok in H as [_ H]. apply reject_if_ok in H as [Hr [= <-]]. apply negb_false_iff in Hr. apply (ledger_bytes _ _ _ Hb) in Hr.
    change (strlen "external invocation failed") with 26. change (strlen "external ledger has no invocation") with 33.
    change (strlen "external invocation outcome is unknown") with 38. destruct (lg_Status (ev_Ledger ev)); lia.
  - destruct (ev_Decision ev); try done; apply reject_if_ok in H as [_ [= <-]]; unfold confirmationAbandonUnknownReason;
      change (strlen "explicit retry confirmed") with 24; change (strlen "user abandoned unknown cancellation") with 35;
      change (strlen "user declined uncertain replay") with 30; repeat case_match; lia.
  - done.
Qed.
End validity.

(** ** MCP gateway: every transition keeps the invariant

    One lemma per event, on top of [core_last]: a transition changes the last attempt and
    a few fields, and accounts for the bytes it adds. *)

(** The range facts of an unchanged field. *)
Ltac in_range Hc := pose proof (co_automatic _ _ Hc); pose proof (co_confirmation _ _ Hc); pose proof (co_chunks _ _ Hc); pose proof (co_stream _ _ Hc).
Ltac last_attempt Hl := simpl; rewrite Hl, update_last_snoc; reflexivity.

(** The branches of a failed attempt. *)
Ltac failure_branches H :=
  repeat match type of H with
         | context [if ?x then _ else _] => destruct x eqn:?
         | context [match ?x with ReplaySafe => _ | _ => _ end] => destruct x eqn:?
         end; try done; injection H as <-.

Section steps.
Context `{N : Normalizer}.

(** The reasons that the machine writes fit. *)
Lemma builtin_reason b s : roomy b -> validBoundedText s 38 = true -> optional_text s (MaxFailureBytes b) = true.
Proof.
  intros [Hb _] H. apply optional_text_some. unfold validBoundedText in *. bools in H. bools. destruct H as [[[H1 H2] H3] H4]. split_and!; [done|lia|done|done].
Qed.

Lemma valid_attempt_with b c i a a' : valid_attempt b c i a = true -> at_Attempt a' = at_Attempt a ->
  (at_ProviderRequestID a' = at_ProviderRequestID a \/ optional_text (at_ProviderRequestID a') (MaxProviderRequestIDBytes b) = true) ->
  (at_HadOutput a' = true -> at_ProviderRequestID a' <> "") ->
  (at_Negotiation a' = at_Negotiation a \/ validNegotiationReceiptForEffect (at_Negotiation a') c (at_Attempt a) = true) ->
  known_failure (at_Failure a') = true -> valid_attempt b c i a' = true.
Proof.
  unfold valid_attempt. intros H Ha Hid Hhad Hn Hf. bools in H. destruct H as [[[[H1 H2] H3] H4] H5]. bools. rewrite Ha. split_and!; [done| | | |done].
  - by destruct Hid as [->|].
  - destruct (at_HadOutput a'); [right; by apply Hhad|by left].
  - destruct Hn as [->|]; [done|by right].
Qed.
Lemma valid_attempt_had b c i a : valid_attempt b c i a = true -> at_HadOutput a = true -> at_ProviderRequestID a <> "".
Proof. unfold valid_attempt. intros H Hh. bools in H. destruct H as [[[[_ _] [H|H]] _] _]; congruence. Qed.

Lemma core_attempt gw e l a : core gw e -> ef_Attempts e = l ++ [a] -> valid_attempt (gw_bounds gw) (ef_Call e) (zlen l) a = true.
Proof. intros Hc Hl. pose proof (co_attempts _ _ Hc) as H. rewrite Hl in H. by apply attempts_ok_snoc in H as [_ H]. Qed.

Lemma invalid_state_last e l a : ef_Attempts e = l ++ [a] -> invalid_state e = state_conflict e a true.
Proof. intros H. unfold invalid_state. by rewrite (current_snoc _ _ _ H). Qed.
(** A transition that changes the last attempt. *)
Lemma core_last gw e e' l a a' : core gw e -> ef_Attempts e = l ++ [a] -> ef_Attempts e' = l ++ [a'] -> ef_Call e' = ef_Call e ->
  valid_attempt (gw_bounds gw) (ef_Call e) (zlen l) a' = true ->
  ef_AutomaticRetriesUsed e <= ef_AutomaticRetriesUsed e' <= ca_MaxAutomaticRetries (ef_Call e) ->
  ef_ConfirmationRetriesUsed e <= ef_ConfirmationRetriesUsed e' <= ca_MaxConfirmationRetries (ef_Call e) ->
  ef_ChunkCount e <= ef_ChunkCount e' <= MaxChunks (gw_bounds gw) -> ef_StreamBytes e <= ef_StreamBytes e' <= MaxOutputBytes (gw_bounds gw) ->
  (at_HadOutput a' = true -> at_HadOutput a = true \/ (0 < ef_ChunkCount e' /\ 0 < ef_StreamBytes e')) ->
  optional_text (ef_FailureReason e') (MaxFailureBytes (gw_bounds gw)) = true -> invalid_state e' = false ->
  ((ef_Output e' = [] /\ ef_ExternalCommitID e' = "") \/
   (committed_state (ef_State e') /\ zlen (ef_Output e') <= MaxOutputBytes (gw_bounds gw) /\
    optional_text (ef_ExternalCommitID e') (MaxExternalCommitIDBytes (gw_bounds gw)) = true)) ->
  (failed_state (ef_State e') -> at_Failure a' <> NoFailure) -> core gw e'.
Proof.
  intros [C1 C2 C3 C4 C5 C6 C7 C8 C9 C10 C11 C12 C13 C14] Hl Hl' Hc Ha Hau Hco Hch Hst Hhad Hre Hin Hout Hfail.
  rewrite Hl in *. apply attempts_ok_snoc in C7 as [C7 _]. rewrite zlen_snoc in C4.
  constructor; rewrite ?Hc, ?Hl'; try done; try lia.
  - rewrite zlen_snoc. lia.
  - by apply attempts_ok_snoc.
  - destruct Hout as [[-> _]|(_ & H & _)]; [unfold zlen; simpl; lia|done].
  - by destruct Hout as [[_ ->]|(_ & _ & H)].
  - intros Hn. by destruct Hout as [H|(H & _)].
  - intros Hf. exists a'. split; [by eapply current_snoc|by apply Hfail].
  - intros x [Hx|Hx%list_elem_of_singleton]%elem_of_app Hh.
    + destruct (C14 x) as [? ?]; [apply elem_of_app; by left|done|lia].
    + subst x. destruct (Hhad Hh) as [Hh'|H]; [|done]. destruct (C14 a) as [? ?]; [apply elem_of_app; right; by constructor|done|lia].
Qed.

(** What a transition on an event of [n] bytes keeps. *)
Record keeps (gw : Gateway) (e : Effect) (n : Z) (e' : Effect) : Prop := MkKeeps {
  ke_core : core gw e';
  ke_bytes : accounted e' <= accounted e + n;
  ke_count : ef_EventCount e' = ef_EventCount e;
  ke_event_bytes : ef_EventBytes e' = ef_EventBytes e;
  ke_revision : ef_Revision e' = ef_Revision e;
  ke_state : ef_State e' <> StateAdmitted;
}.
Lemma accounted_snoc e l a : ef_Attempts e = l ++ [a] ->
  accounted e = ef_StreamBytes e + zlen (ef_Output e) + strlen (ef_ExternalCommitID e) + strlen (ef_FailureReason e) + attempts_bytes l + attempt_bytes a.
Proof. intros H. unfold accounted. rewrite H, attempts_bytes_snoc. lia. Qed.

(** The end of an attempt: retried, failed, or cancelled. *)
Definition ended (e : Effect) (reason : string) (st : State) (automatic : Z) (reason' : string) : Prop :=
  (st = StateRetryPending /\ automatic = ef_AutomaticRetriesUsed e + 1 /\ automatic <= ca_MaxAutomaticRetries (ef_Call e) /\ reason' = reason /\
   ef_CancellationRequested e = false) \/
  (failed_state st /\ automatic = ef_AutomaticRetriesUsed e /\ reason' = reason) \/
  (st = StateCancelled /\ automatic = ef_AutomaticRetriesUsed e /\ reason' = "" /\ ef_CancellationRequested e = true).
Definition ended_as (e : Effect) (class : FailureClass) (reason : string) (e' : Effect) : Prop :=
  exists st automatic reason', ended e reason st automatic reason' /\
    e' = set_state st (set_reason reason' (set_retries automatic (ef_ConfirmationRetriesUsed e) (set_failure class e))).
Lemma ended_retry e class reason : 0 <= ef_AutomaticRetriesUsed e < 16 -> ef_CancellationRequested e = false ->
  (ef_AutomaticRetriesUsed e <? ca_MaxAutomaticRetries (ef_Call e)) = true ->
  ended_as e class reason (set_state StateRetryPending (set_retries (u32 (ef_AutomaticRetriesUsed e + 1)) (ef_ConfirmationRetriesUsed e)
    (set_reason reason (set_failure class e)))).
Proof.
  intros Hr Hn H. bools in H. exists StateRetryPending, (ef_AutomaticRetriesUsed e + 1), reason. rewrite u32_id by lia. split; [left|done]. split_and!; try done; lia.
Qed.
Lemma ended_failed e class reason st : failed_state st -> ended_as e class reason (set_state st (set_reason reason (set_failure class e))).
Proof. intros H. exists st, (ef_AutomaticRetriesUsed e), reason. split; [right; by left|done]. Qed.
Lemma ended_cancelled e class reason : ef_CancellationRequested e = true ->
  ended_as e class reason (set_reason "" (set_state StateCancelled (set_reason reason (set_failure class e)))).
Proof. intros H. exists StateCancelled, (ef_AutomaticRetriesUsed e), "". split; [right; by right|done]. Qed.

Ltac ends H := failure_branches H; first [by apply ended_cancelled | apply ended_retry; tauto | apply ended_failed; tauto].
Definition unfinished (s : State) : Prop := s <> StateAdmitted /\ ~ committed_state s.
Lemma applyFailure_cases gw e class reason e' : gateway_ok gw -> core gw e -> applyFailure e class reason = Ok e' ->
  exists l a, ef_Attempts e = l ++ [a] /\ class <> NoFailure /\ known_failure class = true /\ unfinished (ef_State e) /\ ended_as e class reason e'.
Proof.
  intros Hgw Hc H. unfold applyFailure in H. cbv zeta in H. destruct (CurrentAttempt e) as [a ok] eqn:Hcur. destruct ok; [|done]. simpl negb in H. cbv iota in H.
  pose proof Hcur as Hcur'. apply current_some in Hcur' as [l Hl]. pose proof (co_automatic _ _ Hc) as Hau.
  destruct (registered_tool _ _ Hgw (cv_registered _ _ (co_call _ _ Hc))) as (_ & Hmax & _).
  pose proof (co_state _ _ Hc) as Hst. rewrite (invalid_state_last _ _ _ Hl) in Hst. unfold state_conflict in Hst. cbv zeta in Hst.
  exists l, a. split; [done|]. unfold unfinished, committed_state.
  assert (Hretry : (ef_AutomaticRetriesUsed e <? ca_MaxAutomaticRetries (ef_Call e)) = true -> 0 <= ef_AutomaticRetriesUsed e < 16) by (bools; lia).
  assert (Hf : failed_state StateFailed /\ failed_state StateNeedsConfirmation /\ failed_state StateUncertain) by (unfold failed_state; tauto).
  destruct class; try done; (split; [done|]; split; [done|]).
  - destruct (_ || _) eqn:Hg in H; [done|]. bools in Hg. destruct Hg as [[Hg _] _]. rewrite Hg in *. bools in Hst. injection H as <-.
    split; [split; [done|by intros [|]]|]. case_match; [apply ended_retry; tauto|apply ended_failed, Hf].
  - destruct (_ || _) eqn:Hg in H; [done|]. bools in Hg. injection H as <-. destruct Hg as [Hg _].
    split; [|apply ended_failed, Hf]. destruct Hg as [-> | ->]; (split; [done|by intros [|]]).
  - clear Hst. destruct (ef_State e); try done; (split; [split; [done|by intros [|]]|]); ends H.
  - clear Hst. destruct (ef_State e); try done; (split; [split; [done|by intros [|]]|]); ends H.
Qed.

(** ** One lemma per event *)
(** What a transition leaves alone. *)
Definition frame (e e' : Effect) : Prop :=
  ef_Call e' = ef_Call e /\ ef_EventCount e' = ef_EventCount e /\ ef_EventBytes e' = ef_EventBytes e /\ ef_Revision e' = ef_Revision e.
Lemma keeps_last gw e n e' l a a' : core gw e -> ef_Attempts e = l ++ [a] -> frame e e' -> ef_Attempts e' = l ++ [a'] ->
  valid_attempt (gw_bounds gw) (ef_Call e) (zlen l) a' = true ->
  ef_AutomaticRetriesUsed e <= ef_AutomaticRetriesUsed e' <= ca_MaxAutomaticRetries (ef_Call e) ->
  ef_ConfirmationRetriesUsed e <= ef_ConfirmationRetriesUsed e' <= ca_MaxConfirmationRetries (ef_Call e) ->
  ef_ChunkCount e <= ef_ChunkCount e' <= MaxChunks (gw_bounds gw) -> ef_StreamBytes e <= ef_StreamBytes e' <= MaxOutputBytes (gw_bounds gw) ->
  (at_HadOutput a' = true -> at_HadOutput a = true \/ (0 < ef_ChunkCount e' /\ 0 < ef_StreamBytes e')) ->
  optional_text (ef_FailureReason e') (MaxFailureBytes (gw_bounds gw)) = true -> invalid_state e' = false -> ef_State e' <> StateAdmitted ->
  ((ef_Output e' = [] /\ ef_ExternalCommitID e' = "") \/
   (committed_state (ef_State e') /\ zlen (ef_Output e') <= MaxOutputBytes (gw_bounds gw) /\
    optional_text (ef_ExternalCommitID e') (MaxExternalCommitIDBytes (gw_bounds gw)) = true)) ->
  (failed_state (ef_State e') -> at_Failure a' <> NoFailure) ->
  ef_StreamBytes e' + zlen (ef_Output e') + strlen (ef_ExternalCommitID e') + strlen (ef_FailureReason e') + attempt_bytes a' <=
    ef_StreamBytes e + zlen (ef_Output e) + strlen (ef_ExternalCommitID e) + strlen (ef_FailureReason e) + attempt_bytes a + n ->
  keeps gw e n e'.
Proof.
  intros Hc Hl (F1 & F2 & F3 & F4) Hl' Hv H1 H2 H3 H4 H5 H6 H7 H8 H9 H10 H11. constructor; try done; [by eapply core_last|].
  rewrite (accounted_snoc _ _ _ Hl), (accounted_snoc _ _ _ Hl'). lia.
Qed.
Lemma unfinished_blank gw e : core gw e -> unfinished (ef_State e) -> ef_Output e = [] /\ ef_ExternalCommitID e = "".
Proof. intros Hc [_ H]. by apply (co_result _ _ Hc). Qed.

Lemma applyFailure_keeps gw e n class reason e' : gateway_ok gw -> core gw e -> applyFailure e class reason = Ok e' -> reason <> "" ->
  optional_text reason (MaxFailureBytes (gw_bounds gw)) = true -> strlen reason <= n -> keeps gw e n e'.
Proof.
  intros Hgw Hc H Hne Htext Hn. destruct (applyFailure_cases _ _ _ _ _ Hgw Hc H) as (l & a & Hl & Hcl & Hkn & Hun & st & au & re & He & ->).
  pose proof (unfinished_blank _ _ Hc Hun) as [Ho Hco]. pose proof (core_attempt _ _ _ _ Hc Hl) as Hv. in_range Hc.
  assert (Hlast : ef_Attempts (set_failure class e) = l ++ [MkAttempt (at_Attempt a) (at_ProviderRequestID a) (at_HadOutput a) class (at_Negotiation a)])
    by last_attempt Hl.
  pose proof (strlen_nonneg reason). pose proof (strlen_nonneg (ef_FailureReason e)).
  assert (strlen re <= n) by (destruct He as [(_ & _ & _ & -> & _)|[(_ & _ & ->)|(_ & _ & -> & _)]]; [done|done|change (strlen "") with 0; lia]).
  eapply keeps_last; [exact Hc|exact Hl|done|exact Hlast|..]; try done; simpl; try lia.
  - eapply valid_attempt_with; [exact Hv|done|by left| |by left|done]. by apply (valid_attempt_had _ _ _ _ Hv).
  - unfold ended in He. destruct He as [He|[He|He]]; lia.
  - intros Hh. by left.
  - destruct He as [(_ & _ & _ & -> & _)|[(_ & _ & ->)|(_ & _ & -> & _)]]; done.
  - erewrite invalid_state_last by exact Hlast. unfold state_conflict. simpl. rewrite Ho, Hco. unfold failed_state, ended in He.
    destruct He as [(-> & _ & _ & -> & ->)|[([-> | [-> | ->]] & _ & ->)|(-> & _ & -> & ->)]]; simpl; bools; try done; tauto.
  - unfold ended, failed_state in He. destruct He as [(-> & _)|[([-> | [-> | ->]] & _)|(-> & _)]]; done.
  - left. by rewrite Ho.
  - rewrite Ho, Hco. unfold attempt_bytes. simpl. lia.
Qed.

(** The current attempt of an effect that has one, and what its state says of it. *)
Lemma core_current gw e a : core gw e -> CurrentAttempt e = (a, true) ->
  exists l, ef_Attempts e = l ++ [a] /\ valid_attempt (gw_bounds gw) (ef_Call e) (zlen l) a = true /\ state_conflict e a true = false.
Proof.
  intros Hc Hcur. apply current_some in Hcur as [l Hl]. exists l. split; [done|]. split; [by eapply core_attempt|].
  rewrite <- (invalid_state_last _ _ _ Hl). apply (co_state _ _ Hc).
Qed.
Ltac conflict Hlast := erewrite invalid_state_last by exact Hlast; unfold state_conflict; simpl.
Lemma receipt_present r c i : validNegotiationReceiptForEffect r c i = true -> r <> no_negotiation.
Proof. intros H ->. done. Qed.

Lemma negotiation_keeps gw e ev t : core gw e -> negotiation_recorded e ev = Ok t -> keeps gw e (negotiationEventBytes (ev_Negotiation ev)) (tn_Effect t).
Proof.
  intros Hc H. unfold negotiation_recorded in H. destruct (CurrentAttempt e) as [a ok] eqn:Hcur. apply reject_if_ok in H as [Hr H]. bools in Hr.
  destruct Hr as [[[[[[Hs ->] Hid] Hh] Hf] Hn] Hv]. injection H as <-. simpl. destruct (core_current _ _ _ Hc Hcur) as (l & Hl & Ha & Hst). in_range Hc.
  assert (Hlast : ef_Attempts (set_negotiation (ev_Negotiation ev) e) =
    l ++ [MkAttempt (at_Attempt a) (at_ProviderRequestID a) (at_HadOutput a) (at_Failure a) (ev_Negotiation ev)]) by last_attempt Hl.
  unfold state_conflict in Hst. rewrite Hs in Hst.
  eapply keeps_last; [exact Hc|exact Hl|done|exact Hlast|..]; try done; simpl; try lia.
  - eapply valid_attempt_with; [exact Ha|done|by left|by apply (valid_attempt_had _ _ _ _ Ha)|by right|by rewrite Hf].
  - by rewrite Hh.
  - apply (co_reason _ _ Hc).
  - conflict Hlast. by rewrite Hs.
  - by rewrite Hs.
  - left. apply (co_result _ _ Hc). rewrite Hs. by intros [|].
  - rewrite Hs. by intros [|[|]].
  - unfold attempt_bytes. simpl. rewrite Hn. change (negotiationEventBytes no_negotiation) with 0. lia.
Qed.
Lemma accepted_keeps gw e ev t : core gw e -> validBoundedText (ev_ProviderRequestID ev) (MaxProviderRequestIDBytes (gw_bounds gw)) = true ->
  provider_accepted e ev = Ok t -> keeps gw e (strlen (ev_ProviderRequestID ev)) (tn_Effect t).
Proof.
  intros Hc Htext H. unfold provider_accepted in H. destruct (CurrentAttempt e) as [a ok] eqn:Hcur. apply reject_if_ok in H as [Hr H]. bools in Hr.
  destruct Hr as [[[[[Hs ->] Hid] Hh] Hf] Hv]. injection H as <-. simpl. destruct (core_current _ _ _ Hc Hcur) as (l & Hl & Ha & Hst). in_range Hc.
  assert (Hlast : ef_Attempts (set_request (ev_ProviderRequestID ev) e) =
    l ++ [MkAttempt (at_Attempt a) (ev_ProviderRequestID ev) (at_HadOutput a) (at_Failure a) (at_Negotiation a)]) by last_attempt Hl.
  unfold state_conflict in Hst. rewrite Hs in Hst. bools in Hst. pose proof (bounded_text_bytes _ _ Htext) as [Hne _].
  assert (Hun : unfinished (ef_State e)) by (rewrite Hs; split; [done|by intros [|]]). pose proof (unfinished_blank _ _ Hc Hun) as [Ho Hco].
  eapply keeps_last; [exact Hc|exact Hl|done|exact Hlast|..]; try done; simpl; try lia.
  - eapply valid_attempt_with; [exact Ha|done|right; by apply optional_text_some|done|by left|by rewrite Hf].
  - by rewrite Hh.
  - apply (co_reason _ _ Hc).
  - conflict Hlast. rewrite Hh, Hf, Ho. apply receipt_present in Hv. bools. tauto.
  - by left.
  - by intros [|[|]].
  - unfold attempt_bytes. simpl. rewrite Hid. change (strlen "") with 0. lia.
Qed.
Lemma chunk_keeps gw e ev t : gateway_ok gw -> core gw e -> zlen (ev_Chunk ev) <> 0 -> output_chunk (gw_bounds gw) e ev = Ok t ->
  keeps gw e (zlen (ev_Chunk ev)) (tn_Effect t).
Proof.
  intros Hgw Hc Hne H. unfold output_chunk in H. destruct (CurrentAttempt e) as [a ok] eqn:Hcur. apply reject_if_ok in H as [Hr H]. bools in Hr.
  destruct Hr as [[Hs ->] Hid]. apply reject_if_ok in H as [Hr H]. bools in Hr. destruct Hr as [Hr1 Hr2].
  destruct (core_current _ _ _ Hc Hcur) as (l & Hl & Ha & Hst). in_range Hc. pose proof (go_bounds _ Hgw) as [_ _ _ _ _ Bc Bo Bk _ Be]. pose proof (zlen_nonneg (ev_Chunk ev)).
  rewrite u64_id in Hr1 by (unfold is_u64; lia). injection H as <-. simpl.
  assert (Hlast : ef_Attempts (set_had_output e) = l ++ [MkAttempt (at_Attempt a) (at_ProviderRequestID a) true (at_Failure a) (at_Negotiation a)]) by last_attempt Hl.
  assert (Hun : unfinished (ef_State e)) by (destruct Hs as [-> | ->]; (split; [done|by intros [|]])). pose proof (unfinished_blank _ _ Hc Hun) as [Ho Hco].
  rewrite (u32_id (ef_ChunkCount e + 1)) by lia. rewrite (u64_id (ef_StreamBytes e + zlen (ev_Chunk ev))) by (unfold is_u64; lia).
  assert (Hst' : at_Failure a = NoFailure /\ at_Negotiation a <> no_negotiation /\ ef_CancellationRequested e = false).
  { unfold state_conflict in Hst. destruct Hs as [Hs|Hs]; rewrite Hs in Hst; bools in Hst; tauto. } destruct Hst' as (Hf & Hn & Hcan).
  eapply keeps_last; [exact Hc|exact Hl|done|exact Hlast|..]; try done; simpl; try lia.
  - eapply valid_attempt_with; [exact Ha|done|by left|done|by left|by rewrite Hf].
  - apply (co_reason _ _ Hc).
  - conflict Hlast. rewrite Hf, Ho, Hcan. bools. split_and!; try done; lia.
  - by left.
  - by intros [|[|]].
  - unfold attempt_bytes. simpl. lia.
Qed.

(** An outcome that the provider committed, with the request identity it reported. *)
Lemma committed_keeps gw e n l a id commit output : core gw e -> ef_Attempts e = l ++ [a] -> unfinished (ef_State e) -> at_Negotiation a <> no_negotiation ->
  zlen output <> 0 -> zlen output <= MaxOutputBytes (gw_bounds gw) -> optional_text commit (MaxExternalCommitIDBytes (gw_bounds gw)) = true ->
  id = at_ProviderRequestID a \/ (at_ProviderRequestID a = "" /\ optional_text id (MaxProviderRequestIDBytes (gw_bounds gw)) = true) -> id <> "" \/ commit <> "" ->
  zlen output + strlen commit + strlen id - strlen (at_ProviderRequestID a) <= n ->
  keeps gw e n (set_state StateExternallyCommitted (set_reason "" (set_result commit output
    (set_attempts (l ++ [MkAttempt (at_Attempt a) id (at_HadOutput a) (at_Failure a) (at_Negotiation a)]) e)))).
Proof.
  intros Hc Hl Hun Hneg Hne Hmax Htext Hid Hany Hn. pose proof (unfinished_blank _ _ Hc Hun) as [Ho Hco]. pose proof (core_attempt _ _ _ _ Hc Hl) as Ha. in_range Hc.
  assert (Hk : known_failure (at_Failure a) = true) by (unfold valid_attempt in Ha; bools in Ha; tauto).
  eapply keeps_last; [exact Hc|exact Hl|done|reflexivity|..]; try done; simpl; try lia.
  - eapply valid_attempt_with; [exact Ha|done|simpl; tauto| |by left|done]. simpl. intros Hh. pose proof (valid_attempt_had _ _ _ _ Ha Hh) as Hne'.
    destruct Hid as [->|[? _]]; done.
  - intros Hh. by left.
  - erewrite invalid_state_last by reflexivity. unfold state_conflict. simpl. bools. tauto.
  - right. split; [by left|done].
  - by intros [|[|]].
  - rewrite Ho, Hco. unfold attempt_bytes. simpl. pose proof (strlen_nonneg (ef_FailureReason e)). change (strlen "") with 0. change (zlen []) with 0. lia.
Qed.
Lemma call_committed_keeps gw e ev t a : core gw e -> CurrentAttempt e = (a, true) -> at_Negotiation a <> no_negotiation ->
  zlen (ev_Output ev) <> 0 -> zlen (ev_Output ev) <= MaxOutputBytes (gw_bounds gw) ->
  optional_text (ev_ExternalCommitID ev) (MaxExternalCommitIDBytes (gw_bounds gw)) = true -> call_committed e ev = Ok t ->
  keeps gw e (zlen (ev_Output ev) + strlen (ev_ExternalCommitID ev)) (tn_Effect t).
Proof.
  intros Hc Hcur Hneg Hne Hmax Htext H. destruct (core_current _ _ _ Hc Hcur) as (l & Hl & _ & _). unfold call_committed in H. rewrite Hcur in H.
  assert (Hun : unfinished (ef_State e)) by (destruct (ef_State e); try done; (split; [done|by intros [|]])).
  assert (Hr : negb true || ((at_ProviderRequestID a == "") && (ev_ExternalCommitID ev == "")) = false /\ plain (set_state StateExternallyCommitted (set_reason "" (set_result (ev_ExternalCommitID ev) (ev_Output ev) e))) = Ok t).
  { destruct (ef_State e); try done; apply reject_if_ok in H as [_ H]; apply reject_if_ok in H; exact H. }
  destruct Hr as [Hr Ht]. injection Ht as <-. bools in Hr. destruct Hr as [_ Hr]. pose proof (committed_keeps gw e (zlen (ev_Output ev) + strlen (ev_ExternalCommitID ev))
    l a (at_ProviderRequestID a) (ev_ExternalCommitID ev) (ev_Output ev) Hc Hl Hun Hneg Hne Hmax Htext) as K. destruct a. simpl in *. rewrite <- Hl in K.
  apply K; [by left|tauto|lia].
Qed.
Lemma record_keeps gw e record e' a : core gw e -> CurrentAttempt e = (a, true) -> at_Negotiation a <> no_negotiation -> unfinished (ef_State e) ->
  applyCommittedRecord (gw_bounds gw) e record = Ok e' -> keeps gw e (ledgerEventBytes record) e'.
Proof.
  intros Hc Hcur Hneg Hun H. destruct (core_current _ _ _ Hc Hcur) as (l & Hl & Ha & _). unfold applyCommittedRecord in H. rewrite Hcur in H.
  apply reject_if_ok in H as [Hr H]. apply reject_if_ok in H as [_ H]. apply reject_if_ok in H as [Hid H]. bools in Hr. destruct Hr as [[[Hr _] _] Hst].
  unfold validateLedgerRecord in Hr. cbv zeta in Hr. rewrite Hst in Hr. bools in Hr. destruct Hr as [[[[[_ T1] T2] T3] T4] [[T5 T6] T7]]. bools in Hid.
  unfold ledgerEventBytes. rewrite T6. change (strlen "") with 0. pose proof (strlen_nonneg (lg_ProviderRequestID record)). pose proof (strlen_nonneg (at_ProviderRequestID a)).
  destruct ((lg_ProviderRequestID record != "") && (at_ProviderRequestID a == "")) eqn:Hset.
  - bools in Hset. injection H as <-. pose proof (committed_keeps gw e (ledgerEventBytes record) l a (lg_ProviderRequestID record)
      (lg_ExternalCommitID record) (lg_Output record) Hc Hl Hun Hneg T5 T3 T2) as K. unfold set_request. rewrite Hl, update_last_snoc.
    unfold ledgerEventBytes in K. rewrite T6 in K. apply K; [right; tauto|tauto|change (strlen "") with 0; lia].
  - injection H as <-. pose proof (committed_keeps gw e (ledgerEventBytes record) l a (at_ProviderRequestID a)
      (lg_ExternalCommitID record) (lg_Output record) Hc Hl Hun Hneg T5 T3 T2) as K. destruct a as [i id h f ng]. simpl in *. rewrite <- Hl in K.
    unfold ledgerEventBytes in K. rewrite T6 in K. change (strlen "") with 0 in K. apply K; [by left| |lia]. apply andb_false_iff in Hset. bools in Hset.
    destruct Hset as [Hset|Hset]; [|by left]. rewrite Hset in T7. tauto.
Qed.

(** A transition that leaves the attempts alone, on an effect that has one. *)
Lemma keeps_same gw e n e' l a : core gw e -> ef_Attempts e = l ++ [a] -> frame e e' -> ef_Attempts e' = ef_Attempts e ->
  ef_AutomaticRetriesUsed e' = ef_AutomaticRetriesUsed e ->
  ef_ConfirmationRetriesUsed e <= ef_ConfirmationRetriesUsed e' <= ca_MaxConfirmationRetries (ef_Call e) ->
  ef_ChunkCount e' = ef_ChunkCount e -> ef_StreamBytes e' = ef_StreamBytes e ->
  optional_text (ef_FailureReason e') (MaxFailureBytes (gw_bounds gw)) = true -> invalid_state e' = false -> ef_State e' <> StateAdmitted ->
  ef_Output e' = ef_Output e -> ef_ExternalCommitID e' = ef_ExternalCommitID e -> (committed_state (ef_State e) -> committed_state (ef_State e')) ->
  (failed_state (ef_State e') -> at_Failure a <> NoFailure) -> strlen (ef_FailureReason e') <= strlen (ef_FailureReason e) + n ->
  keeps gw e n e'.
Proof.
  intros Hc Hl F Hl' H1 H2 H3 H4 H5 H6 H7 H8 H9 H10 H11 H12. pose proof (core_attempt _ _ _ _ Hc Hl) as Ha. in_range Hc.
  eapply (keeps_last _ _ _ _ l a a); try done; try lia; [by rewrite Hl'|tauto| |rewrite H8, H9; lia].
  destruct (decide (committed_state (ef_State e))) as [Hd|Hd].
  - right. rewrite H8, H9. split; [tauto|]. split; [apply (co_output _ _ Hc)|apply (co_commit _ _ Hc)].
  - left. rewrite H8, H9. by apply (co_result _ _ Hc).
Qed.
Lemma settlement_keeps gw e t : core gw e -> settlement_completed e = Ok t -> keeps gw e 0 (tn_Effect t).
Proof.
  intros Hc H. unfold settlement_completed in H. apply reject_if_ok in H as [Hr H]. bools in Hr. destruct Hr as [Hs _]. injection H as <-.
  pose proof (co_state _ _ Hc) as Hst. destruct (CurrentAttempt e) as [a ok] eqn:Hcur. destruct ok.
  - destruct (core_current _ _ _ Hc Hcur) as (l & Hl & _ & Hst'). in_range Hc. simpl.
    eapply keeps_same; [exact Hc|exact Hl|done|done|..]; try done; simpl; try lia.
    + apply (co_reason _ _ Hc).
    + erewrite invalid_state_last by exact Hl. unfold state_conflict in *. by rewrite Hs in Hst'.
    + by right.
    + by intros [|[|]].
  - unfold invalid_state, state_conflict in Hst. rewrite Hcur, Hs in Hst. bools in Hst. simpl in Hst. destruct Hst as [[[_ Hst] _] _]. done.
Qed.
Lemma cancel_keeps gw e t : core gw e -> cancel_requested e = Ok t -> keeps gw e 0 (tn_Effect t).
Proof.
  intros Hc H. unfold cancel_requested in H. destruct (CurrentAttempt e) as [a ok] eqn:Hcur. in_range Hc. destruct ok.
  - destruct (core_current _ _ _ Hc Hcur) as (l & Hl & _ & Hst). pose proof (strlen_nonneg (ef_FailureReason e)).
    pose proof (co_confirmation _ _ Hc) as Hcf. assert (Hadm : ef_State e <> StateAdmitted).
    { intros Hs. unfold state_conflict in Hst. rewrite Hs in Hst. bools in Hst. rewrite Hl, zlen_snoc in Hst. pose proof (zlen_nonneg l). lia. }
    assert (Hun : unfinished (ef_State e)) by (split; [done|]; intros [Hs|Hs]; rewrite Hs in H; done). pose proof (unfinished_blank _ _ Hc Hun) as [Ho Hco].
    assert (Ht : tn_Effect t = set_state StateCancellationPending (set_cancelling true e) \/ tn_Effect t = set_reason "" (set_state StateCancelled (set_cancelling true e))).
    { destruct (ef_State e); try done; repeat match type of H with context [if ?x then _ else _] => destruct x end; try done; injection H as <-; simpl; tauto. }
    destruct Ht as [-> | ->]; (eapply keeps_same; [exact Hc|exact Hl|done|done|done|exact (conj (Z.le_refl _) (proj2 Hcf))|done|done|..]); try done; simpl.
    all: try (erewrite invalid_state_last by exact Hl; unfold state_conflict; simpl; by rewrite Ho, ?Hco).
    all: try (by intros [|[|]]); try (change (strlen "") with 0; lia); try (intros Hcs; by destruct Hun). apply (co_reason _ _ Hc).
  - apply current_none in Hcur as [Hl ->]. assert (Hs : ef_State e = StateAdmitted).
    { destruct (ef_State e) eqn:Hs; try done; exfalso; pose proof (co_state _ _ Hc) as Hst; unfold invalid_state, CurrentAttempt, state_conflict in Hst; rewrite Hl, Hs in Hst; simpl in Hst; try done.
      all: destruct (co_failed _ _ Hc) as (x & Hx & _); [unfold failed_state; rewrite Hs; tauto|]; unfold CurrentAttempt in Hx; by rewrite Hl in Hx. }
    rewrite Hs in H. injection H as <-. pose proof (co_result _ _ Hc) as Hres. rewrite Hs in Hres. destruct Hres as [Ho Hco]; [by intros [|]|].
    destruct Hc as [C1 C2 C3 C4 C5 C6 C7 C8 C9 C10 C11 C12 C13 C14]. constructor; try done.
    + constructor; try done; simpl.
      * unfold invalid_state, CurrentAttempt, state_conflict. simpl. by rewrite Hl, Ho, Hco.
      * by intros [|[|]].
    + unfold accounted. simpl. pose proof (strlen_nonneg (ef_FailureReason e)). change (strlen "") with 0. lia.
Qed.

(** The identity that a ledger reports for an attempt that has none, or the same one. *)
Lemma reported_attempt gw e l a id f : core gw e -> ef_Attempts e = l ++ [a] -> known_failure f = true ->
  id = at_ProviderRequestID a \/ (at_ProviderRequestID a = "" /\ optional_text id (MaxProviderRequestIDBytes (gw_bounds gw)) = true) ->
  valid_attempt (gw_bounds gw) (ef_Call e) (zlen l) (MkAttempt (at_Attempt a) id (at_HadOutput a) f (at_Negotiation a)) = true.
Proof.
  intros Hc Hl Hf Hid. pose proof (core_attempt _ _ _ _ Hc Hl) as Ha. eapply valid_attempt_with; [exact Ha|done|simpl; tauto| |by left|done].
  simpl. intros Hh. pose proof (valid_attempt_had _ _ _ _ Ha Hh). destruct Hid as [-> | [? _]]; done.
Qed.
Lemma failed_keeps gw e record e' : roomy (gw_bounds gw) -> core gw e -> unfinished (ef_State e) ->
  optional_text (lg_ProviderRequestID record) (MaxProviderRequestIDBytes (gw_bounds gw)) = true -> observed_failed e record = Ok e' ->
  keeps gw e (ledgerEventBytes record + 26) e'.
Proof.
  intros Hroom Hc Hun Htext H. unfold observed_failed in H. destruct (CurrentAttempt e) as [a ok] eqn:Hcur. apply reject_if_ok in H as [Hr H]. bools in Hr. destruct Hr as [-> Hr].
  destruct (core_current _ _ _ Hc Hcur) as (l & Hl & Ha & _). in_range Hc. pose proof (unfinished_blank _ _ Hc Hun) as [Ho Hco].
  set (id := if at_ProviderRequestID a == "" then lg_ProviderRequestID record else at_ProviderRequestID a).
  set (a' := MkAttempt (at_Attempt a) id (at_HadOutput a) FailureExternalFailed (at_Negotiation a)).
  assert (He : e' = set_reason "external invocation failed" (set_state StateFailed (set_attempts (l ++ [a']) e))).
  { injection H as <-. unfold set_failure, set_request, a', id. case_bool_decide; simpl; rewrite Hl, !update_last_snoc; done. }
  assert (Hid : id = at_ProviderRequestID a \/ (at_ProviderRequestID a = "" /\ optional_text id (MaxProviderRequestIDBytes (gw_bounds gw)) = true))
    by (unfold id; case_bool_decide; [by right|by left]).
  subst e'. eapply keeps_last; [exact Hc|exact Hl|done|reflexivity|..]; try done; simpl; try lia.
  - by apply reported_attempt.
  - intros Hh. by left.
  - by apply builtin_reason.
  - erewrite invalid_state_last by reflexivity. unfold state_conflict. simpl. by rewrite Ho.
  - left. by rewrite Ho.
  - unfold attempt_bytes, ledgerEventBytes. simpl. change (strlen "external invocation failed") with 26. pose proof (strlen_nonneg (ef_FailureReason e)).
    pose proof (strlen_nonneg (lg_ExternalCommitID record)). pose proof (strlen_nonneg (lg_FailureReason record)). pose proof (zlen_nonneg (lg_Output record)).
    pose proof (strlen_nonneg (at_ProviderRequestID a)). pose proof (strlen_nonneg (lg_ProviderRequestID record)). unfold id. case_bool_decide; lia.
Qed.
(** The states in which a ledger is asked. *)
Definition asked (s : State) : Prop :=
  s = StateDispatching \/ s = StateDispatched \/ s = StateStreaming \/ s = StateCancellationPending \/ failed_state s.
Definition running (e : Effect) (a : AttemptRecord) : State :=
  if ef_CancellationRequested e then StateCancellationPending else if at_HadOutput a then StateStreaming else StateDispatched.
Lemma asked_unfinished s : asked s -> unfinished s.
Proof. unfold asked, failed_state. intros [-> | [-> | [-> | [-> | [-> | [-> | ->]]]]]]; (split; [done|by intros [|]]). Qed.
Lemma inflight_shape gw e record e' l a : core gw e -> ef_Attempts e = l ++ [a] -> asked (ef_State e) -> observed_inflight e record = Ok e' ->
  exists reason f, (reason = "" \/ reason = ef_FailureReason e) /\ (f = NoFailure \/ (ef_CancellationRequested e = true /\ f = at_Failure a)) /\
    lg_ProviderRequestID record <> "" /\ (at_ProviderRequestID a = "" \/ lg_ProviderRequestID record = at_ProviderRequestID a) /\
    e' = set_reason reason (set_state (running e a)
           (set_attempts (l ++ [MkAttempt (at_Attempt a) (lg_ProviderRequestID record) (at_HadOutput a) f (at_Negotiation a)]) e)).
Proof.
  intros Hc Hl Hsts H. pose proof (current_snoc _ _ _ Hl) as Hcur. pose proof (co_state _ _ Hc) as Hst. rewrite (invalid_state_last _ _ _ Hl) in Hst.
  unfold observed_inflight in H. rewrite Hcur in H. apply reject_if_ok in H as [Hr H]. bools in Hr. destruct Hr as [[_ Hid] Hr].
  assert (Hr' : at_ProviderRequestID a = "" \/ lg_ProviderRequestID record = at_ProviderRequestID a) by (destruct Hr; [by left|by right]).
  unfold running, state_conflict, asked, failed_state in *. simpl in H. unfold set_failure, set_request in H. simpl in H. rewrite Hl, !update_last_snoc in H.
  destruct Hsts as [Hs | [Hs | [Hs | [Hs | [Hs | [Hs | Hs]]]]]]; rewrite Hs in H; rewrite Hs in Hst; injection H as <-.
  1,5-7: exists "", NoFailure; split_and!; try done; [by left|by left].
  all: exists (ef_FailureReason e); bools in Hst; unfold set_attempts, set_state, set_reason; simpl; rewrite Hs.
  - exists NoFailure. assert (ef_CancellationRequested e = false /\ at_HadOutput a = false /\ at_Failure a = NoFailure) as (-> & -> & ->) by tauto. split_and!; try done; tauto.
  - exists NoFailure. assert (ef_CancellationRequested e = false /\ at_HadOutput a = true /\ at_Failure a = NoFailure) as (-> & -> & ->) by tauto. split_and!; try done; tauto.
  - exists (at_Failure a). assert (ef_CancellationRequested e = true) as -> by tauto. split_and!; try done; tauto.
Qed.
Lemma inflight_keeps gw e record e' l a : core gw e -> ef_Attempts e = l ++ [a] -> at_Negotiation a <> no_negotiation -> asked (ef_State e) ->
  optional_text (lg_ProviderRequestID record) (MaxProviderRequestIDBytes (gw_bounds gw)) = true -> observed_inflight e record = Ok e' ->
  keeps gw e (ledgerEventBytes record) e'.
Proof.
  intros Hc Hl Hneg Hsts Htext H. destruct (inflight_shape _ _ _ _ _ _ Hc Hl Hsts H) as (reason & f & Hreason & Hf & Hid & Hsame & ->). in_range Hc.
  pose proof (unfinished_blank _ _ Hc (asked_unfinished _ Hsts)) as [Ho Hco]. pose proof (core_attempt _ _ _ _ Hc Hl) as Ha.
  assert (Hk : known_failure f = true) by (destruct Hf as [-> | [_ ->]]; [done|unfold valid_attempt in Ha; bools in Ha; tauto]).
  assert (Hhad : at_HadOutput a = true -> 0 < ef_ChunkCount e /\ 0 < ef_StreamBytes e).
  { intros Hh. apply (co_had _ _ Hc a); [|done]. rewrite Hl. apply elem_of_app. right. by constructor. }
  eapply keeps_last; [exact Hc|exact Hl|done|reflexivity|..]; try done; simpl; try lia.
  - apply reported_attempt; [done|done|done|tauto].
  - intros Hh. by left.
  - destruct Hreason as [-> | ->]; [done|apply (co_reason _ _ Hc)].
  - erewrite invalid_state_last by reflexivity. unfold state_conflict, running. simpl. rewrite Ho.
    destruct (ef_CancellationRequested e) eqn:Hcan; [done|]. destruct Hf as [-> | [? _]]; [|done].
    destruct (at_HadOutput a); simpl; bools; split_and!; try done; destruct Hhad; try done; lia.
  - unfold running. by repeat case_match.
  - left. by rewrite Ho.
  - unfold running, failed_state. by repeat case_match; intros [|[|]].
  - unfold attempt_bytes, ledgerEventBytes. simpl. pose proof (strlen_nonneg (ef_FailureReason e)). pose proof (strlen_nonneg (lg_ExternalCommitID record)).
    pose proof (strlen_nonneg (lg_FailureReason record)). pose proof (zlen_nonneg (lg_Output record)). pose proof (strlen_nonneg (at_ProviderRequestID a)).
    destruct Hreason as [-> | ->]; change (strlen "") with 0; lia.
Qed.

(** ** The remaining events *)
Definition negotiated (e : Effect) : Prop := exists a, CurrentAttempt e = (a, true) /\ at_Negotiation a <> no_negotiation.
Lemma resolved_keeps gw e ev t : roomy (gw_bounds gw) -> core gw e -> (ev_Cancellation ev = CancellationCommitted -> negotiated e) ->
  (match ev_Cancellation ev with CancellationPrevented | CancellationAbsent | CancellationCommitted | CancellationUnknown => True | _ => False end) ->
  cancellation_resolved (gw_bounds gw) e ev = Ok t ->
  keeps gw e (ledgerEventBytes (ev_Ledger ev) + (if ev_Cancellation ev == CancellationUnknown then strlen "cancellation outcome is unknown" else 0)) (tn_Effect t).
Proof.
  intros Hroom Hc Hev Hkind H. unfold cancellation_resolved in H. apply reject_if_ok in H as [Hs H]. bools in Hs. destruct (CurrentAttempt e) as [a ok] eqn:Hcur.
  apply reject_if_ok in H as [Hok H]. apply negb_false_iff in Hok. subst ok. destruct (core_current _ _ _ Hc Hcur) as (l & Hl & Ha & Hst). in_range Hc.
  unfold state_conflict in Hst. rewrite Hs in Hst. bools in Hst. destruct Hst as [[_ Hout] Hcan]. pose proof (co_confirmation _ _ Hc) as Hcf.
  assert (Hun : unfinished (ef_State e)) by (rewrite Hs; split; [done|by intros [|]]). pose proof (unfinished_blank _ _ Hc Hun) as [Ho Hco].
  assert (Hlb : 0 <= ledgerEventBytes (ev_Ledger ev)) by (unfold ledgerEventBytes, strlen, zlen; lia). pose proof (strlen_nonneg (ef_FailureReason e)).
  assert (Hcancel : keeps gw e (ledgerEventBytes (ev_Ledger ev) + 0) (set_reason "" (set_state StateCancelled e))).
  { eapply keeps_same; [exact Hc|exact Hl|done|done|done|exact (conj (Z.le_refl _) (proj2 Hcf))|done|done|..]; try done; simpl.
    - erewrite invalid_state_last by exact Hl. unfold state_conflict. simpl. by rewrite Ho, Hco, Hcan.
    - intros Hcs. by destruct Hun.
    - by intros [|[|]].
    - change (strlen "") with 0. lia. }
  destruct (ev_Cancellation ev); try done.
  - destruct (_ || _) in H; [done|]. by injection H as <-.
  - by injection H as <-.
  - apply bind_ok in H as (e' & He' & H). injection H as <-. rewrite bool_decide_eq_false_2, Z.add_0_r by done. destruct (Hev eq_refl) as (a' & Hcur' & Hneg). eapply record_keeps; [done|exact Hcur'|done..].
  - injection H as <-. assert (Hlast : ef_Attempts (set_failure FailureUnknown e) =
      l ++ [MkAttempt (at_Attempt a) (at_ProviderRequestID a) (at_HadOutput a) FailureUnknown (at_Negotiation a)]) by last_attempt Hl.
    set (st := if ca_ReplayPolicy (ef_Call e) == ReplayConfirm then StateNeedsConfirmation else StateUncertain).
    assert (Hsf : st = StateNeedsConfirmation \/ st = StateUncertain) by (unfold st; case_bool_decide; tauto). rewrite bool_decide_eq_true_2 by done.
    eapply keeps_last; [exact Hc|exact Hl|done|exact Hlast|..]; try done; simpl; try lia.
    + eapply valid_attempt_with; [exact Ha|done|by left|by apply (valid_attempt_had _ _ _ _ Ha)|by left|done].
    + intros Hh. by left.
    + by apply builtin_reason.
    + erewrite invalid_state_last by exact Hlast. unfold state_conflict. simpl. rewrite Ho. by destruct Hsf as [-> | ->].
    + by destruct Hsf as [-> | ->].
    + left. by rewrite Ho.
    + unfold attempt_bytes. simpl. change (strlen "cancellation outcome is unknown") with 31. lia.
Qed.
End steps.
