(* ===== verification/McpReplay.v ===== *)
(** * MCP gateway: the invariant of effects

    Every accepted event takes a sound effect to a sound one, and a sound effect is a
    valid snapshot: a gateway with room for its own reasons never writes an effect that
    it would then refuse. *)

From S2P Require Import Prelude GoText GoStrings GoCrypto Canonical Identity BrokerTypes McpGateway McpMachine McpProofs.
#[local] Open Scope string_scope.
#[local] Open Scope list_scope.
#[local] Open Scope Z_scope.
#[local] Open Scope go_scope.

(** A sum of cases that are not negative. *)
Ltac nonneg :=
  repeat match goal with
         | |- 0 <= (if ?x then _ else _) => destruct x
         | |- 0 <= match ?x with _ => _ end => destruct x
         | |- 0 <= Z.max _ _ => apply Z.max_le_iff; left
         | |- 0 <= _ + _ => apply Z.add_nonneg_nonneg
         | |- 0 <= _ * _ => apply Z.mul_nonneg_nonneg
         | |- 0 <= hardMaxEvents => done
         | |- _ => lia
         end.

Section invariant.
Context `{N : Normalizer}.

Lemma ledger_nonneg r : 0 <= ledgerEventBytes r.
Proof. unfold ledgerEventBytes, strlen, zlen. lia. Qed.
Lemma recovery_keeps gw e ev t : gateway_ok gw -> roomy (gw_bounds gw) -> core gw e ->
  (lg_Status (ev_Ledger ev) = LedgerInflight \/ lg_Status (ev_Ledger ev) = LedgerCommitted -> negotiated e) ->
  validateLedgerRecord (gw_bounds gw) (ev_Ledger ev) true = true -> recovery_observed (gw_bounds gw) e ev = Ok t ->
  keeps gw e (ledgerEventBytes (ev_Ledger ev) + match lg_Status (ev_Ledger ev) with
                                                | LedgerFailed => strlen "external invocation failed"
                                                | LedgerAbsent => strlen "external ledger has no invocation"
                                                | LedgerUnknown => strlen "external invocation outcome is unknown"
                                                | _ => 0
                                                end) (tn_Effect t).
Proof.
  intros Hgw Hroom Hc Hev Hrec H. unfold recovery_observed in H. cbv zeta in H. apply bind_ok in H as ([] & Hs & H). apply reject_if_ok in H as [_ H].
  apply bind_ok in H as (e' & He' & H). injection H as <-. simpl. pose proof (ledger_nonneg (ev_Ledger ev)) as Hnn.
  assert (Hask : asked (ef_State e)) by (unfold asked, failed_state; destruct (ef_State e); try done; tauto).
  assert (Htext : optional_text (lg_ProviderRequestID (ev_Ledger ev)) (MaxProviderRequestIDBytes (gw_bounds gw)) = true)
    by (unfold validateLedgerRecord in Hrec; cbv zeta in Hrec; bools in Hrec; tauto).
  destruct (lg_Status (ev_Ledger ev)) eqn:Hst; try done.
  - eapply applyFailure_keeps; [done|done|exact He'|done|by apply builtin_reason|lia].
  - destruct Hev as (a & Hcur & Hneg); [tauto|]. apply current_some in Hcur as [l Hl]. rewrite Z.add_0_r. by eapply inflight_keeps.
  - destruct Hev as (a & Hcur & Hneg); [tauto|]. rewrite Z.add_0_r. eapply record_keeps; [done|exact Hcur|done|by apply asked_unfinished|done].
  - change (strlen "external invocation failed") with 26. apply failed_keeps; [done|done|by apply asked_unfinished|done|done].
  - eapply applyFailure_keeps; [done|done|exact He'|done|by apply builtin_reason|lia].
Qed.
Lemma confirmation_keeps gw e ev t : gateway_ok gw -> roomy (gw_bounds gw) -> core gw e ->
  (ev_Decision ev = ConfirmationRetry \/ ev_Decision ev = ConfirmationAbandon) -> confirmation_decided e ev = Ok t ->
  keeps gw e (if ev_Decision ev == ConfirmationRetry then strlen "explicit retry confirmed"
              else if ef_CancellationRequested e then strlen confirmationAbandonUnknownReason else strlen "user declined uncertain replay") (tn_Effect t).
Proof.
  intros Hgw Hroom Hc Hd H. unfold confirmation_decided in H. apply reject_if_ok in H as [Hs H]. bools in Hs. destruct Hs as [Hs _].
  destruct (co_failed _ _ Hc) as (a & Hcur & Hf); [rewrite Hs; unfold failed_state; tauto|]. destruct (core_current _ _ _ Hc Hcur) as (l & Hl & Ha & _).
  pose proof (strlen_nonneg (ef_FailureReason e)). pose proof (co_confirmation _ _ Hc) as Hcf.
  destruct (registered_tool _ _ Hgw (cv_registered _ _ (co_call _ _ Hc))) as (_ & _ & Hmax & _).
  assert (Hun : unfinished (ef_State e)) by (rewrite Hs; split; [done|by intros [|]]). pose proof (unfinished_blank _ _ Hc Hun) as [Ho Hco].
  destruct Hd as [Hd|Hd]; rewrite Hd in H; rewrite Hd; simpl bool_decide; cbv iota.
  - apply reject_if_ok in H as [Hr H]. bools in Hr. injection H as <-. rewrite u32_id by lia.
    eapply keeps_same; [exact Hc|exact Hl|done|done|done|simpl; lia|done|done|..]; try done; simpl; try lia.
    + by apply builtin_reason.
    + erewrite invalid_state_last by exact Hl. unfold state_conflict. simpl. rewrite Ho. bools. tauto.
    + intros Hcs. by destruct Hun.
  - destruct (ef_CancellationRequested e); injection H as <-;
      (eapply keeps_same; [exact Hc|exact Hl|done|done|done|exact (conj (Z.le_refl _) (proj2 Hcf))|done|done|..]; try done; simpl; try lia;
       [by apply builtin_reason|erewrite invalid_state_last by exact Hl; unfold state_conflict; simpl; by rewrite Ho|intros Hcs; by destruct Hun]).
Qed.
Lemma begun_keeps gw e t : gateway_ok gw -> core gw e -> begin_dispatch e = Ok t -> keeps gw e 0 (tn_Effect t).
Proof.
  intros Hgw Hc H. unfold begin_dispatch in H. apply reject_if_ok in H as [Hr H]. apply reject_if_ok in H as [Hr2 H]. bools in Hr. bools in Hr2. injection H as <-.
  destruct Hr as [Hs Hcan]. destruct (registered_tool _ _ Hgw (cv_registered _ _ (co_call _ _ Hc))) as (_ & Hm1 & Hm2 & _). in_range Hc.
  assert (Hncs : ~ committed_state (ef_State e)) by (destruct Hs as [-> | ->]; by intros [|]). destruct (co_result _ _ Hc Hncs) as [Ho Hco].
  pose proof (zlen_nonneg (ef_Attempts e)). destruct Hc as [C1 C2 C3 C4 C5 C6 C7 C8 C9 C10 C11 C12 C13 C14]. constructor; try done; simpl.
  - constructor; try done; simpl; rewrite ?zlen_snoc; try lia.
    + apply attempts_ok_snoc. split; [done|]. unfold valid_attempt. simpl. bools. split_and!; try done; tauto.
    + erewrite invalid_state_last by reflexivity. unfold state_conflict. simpl. rewrite Ho, Hcan. done.
    + by intros [|[|]].
    + intros a [Ha|Ha%list_elem_of_singleton]%elem_of_app Hh; [by eapply C14|by subst a].
  - unfold accounted. simpl. rewrite attempts_bytes_snoc. unfold attempt_bytes. simpl. pose proof (strlen_nonneg (ef_FailureReason e)).
    change (negotiationEventBytes no_negotiation) with 0. change (strlen "") with 0. lia.
Qed.

(** The events that report an outcome or a running call. *)
Definition evidence (ev : Event) : Prop :=
  match ev_Kind ev with
  | EventCallCommitted => True
  | EventCancellationResolved => ev_Cancellation ev = CancellationCommitted
  | EventRecoveryObserved => lg_Status (ev_Ledger ev) = LedgerInflight \/ lg_Status (ev_Ledger ev) = LedgerCommitted
  | _ => False
  end.
Lemma transition_keeps gw e ev n t : gateway_ok gw -> roomy (gw_bounds gw) -> core gw e -> (evidence ev -> negotiated e) ->
  validateEvent (gw_bounds gw) e ev = Ok n -> transition (gw_bounds gw) e ev = Ok t -> keeps gw e n (tn_Effect t).
Proof.
  intros Hgw Hroom Hc Hev Hn H. unfold transition in H. unfold evidence in Hev. unfold validateEvent in Hn. cbv zeta in Hn. destruct (ev_Kind ev).
  - apply reject_if_ok in Hn as [_ [= <-]]. by apply begun_keeps.
  - destruct (CurrentAttempt e) as [a ok]. apply reject_if_ok in Hn as [_ [= <-]]. by apply negotiation_keeps.
  - apply reject_if_ok in Hn as [Hr [= <-]]. bools in Hr. apply accepted_keeps; [done|tauto|done].
  - apply reject_if_ok in Hn as [_ Hn]. apply reject_if_ok in Hn as [Hr [= <-]]. bools in Hr. apply chunk_keeps; [done|done|tauto|done].
  - apply reject_if_ok in Hn as [Hm Hn]. apply reject_if_ok in Hn as [Hr [= <-]]. bools in Hr. bools in Hm. destruct (Hev I) as (a & Hcur & Hneg).
    eapply call_committed_keeps; [done|exact Hcur|done|tauto|done|tauto|done].
  - apply reject_if_ok in Hn as [_ [= <-]]. by apply settlement_keeps.
  - apply bind_ok in H as (e' & He' & H). injection H as <-.
    assert (Hr : validBoundedText (ev_Reason ev) (MaxFailureBytes (gw_bounds gw)) = true /\ n = strlen (ev_Reason ev))
      by (destruct (ev_Failure ev); try done; apply reject_if_ok in Hn as [Hr [= <-]]; bools in Hr; tauto).
    destruct Hr as [Hr ->]. pose proof (bounded_text_bytes _ _ Hr) as [Hne _]. eapply applyFailure_keeps; [done|done|exact He'|done|by apply optional_text_some|lia].
  - apply reject_if_ok in Hn as [_ [= <-]]. by apply cancel_keeps.
  - apply bind_ok in Hn as ([] & Hk & Hn). apply reject_if_ok in Hn as [_ [= <-]]. apply resolved_keeps; try done. by destruct (ev_Cancellation ev).
  - apply reject_if_ok in Hn as [_ Hn]. apply reject_if_ok in Hn as [Hr [= <-]]. apply negb_false_iff in Hr. by apply recovery_keeps.
  - assert (Hd : ev_Decision ev = ConfirmationRetry \/ ev_Decision ev = ConfirmationAbandon) by (destruct (ev_Decision ev); try done; tauto).
    pose proof (confirmation_keeps _ _ _ _ Hgw Hroom Hc Hd H) as K.
    destruct Hd as [Hd|Hd]; rewrite Hd in Hn; rewrite Hd in K; apply reject_if_ok in Hn as [_ Hn]; injection Hn as <-; exact K.
  - done.
Qed.

Lemma reserve_nonneg gw e : gateway_ok gw -> core gw e -> 0 <= minimumRemainingEvents e.
Proof.
  intros Hgw Hc. destruct (registered_tool _ _ Hgw (cv_registered _ _ (co_call _ _ Hc))) as (_ & Hm1 & Hm2 & _). in_range Hc.
  unfold minimumRemainingEvents. cbv zeta. rewrite !u32_id by lia. nonneg.
Qed.

Lemma share_bounds b : bounds_ok b -> 0 < bytes_per_event b < 2 ^ 28.
Proof. intros []. unfold bytes_per_event. lia. Qed.
Lemma total_bytes b n : bounds_ok b -> n <= MaxEvents b -> n * bytes_per_event b <= maximumEventBytes b /\ maximumEventBytes b <= u64_max.
Proof.
  intros Hb Hn. pose proof (share_bounds b Hb). destruct Hb. unfold maximumEventBytes. rewrite u64_id; [unfold u64_max; nia|unfold is_u64; nia].
Qed.
(** A sound effect is a valid snapshot. *)
Lemma sound_valid gw e : gateway_ok gw -> sound gw e -> validateEffect gw e = Ok tt.
Proof.
  intros Hgw [Hc S1 S2 S3 S4 S5]. pose proof (reserve_nonneg _ _ Hgw Hc). pose proof (go_bounds _ Hgw) as Hb. pose proof (bo_events _ Hb).
  destruct (total_bytes _ (ef_EventCount e) Hb) as [T1 T2]; [lia|]. pose proof (co_stream _ _ Hc).
  apply snapshot_iff. split; [apply (co_call _ _ Hc)|]. split; [|split; [|apply (co_state _ _ Hc)]].
  - destruct Hc as [C1 C2 C3 C4 C5 C6 C7 C8 C9 C10 C11 C12 C13 C14]. unfold counters. rewrite u64_id by (unfold is_u64; lia). split_and!; try done; lia.
  - apply valid_bytes_ok; [lia|apply (co_attempts _ _ Hc)|lia|lia].
Qed.
Lemma core_advance gw n e : core gw e -> ef_State e <> StateAdmitted -> core gw (advance n e).
Proof.
  intros [C1 C2 C3 C4 C5 C6 C7 C8 C9 C10 C11 C12 C13 C14] Hs. constructor; try done. simpl. unfold invalid_state, CurrentAttempt, state_conflict in *. simpl in *.
  destruct (ef_State e); done.
Qed.
Lemma reserve_advance n e : ef_State e <> StateAdmitted -> minimumRemainingEvents (advance n e) = minimumRemainingEvents e.
Proof. done. Qed.

Lemma Apply_parts gw e ev t : Apply gw e ev = Ok t -> exists n t', validateEffect gw e = Ok tt /\ ev_ExpectedRevision ev = ef_Revision e /\ ef_Revision e <> u64_max /\
  ef_EventCount e < MaxEvents (gw_bounds gw) /\ validateEvent (gw_bounds gw) e ev = Ok n /\ transition (gw_bounds gw) e ev = Ok t' /\
  ef_EventCount (tn_Effect t') + 1 + minimumRemainingEvents (tn_Effect t') <= MaxEvents (gw_bounds gw) /\
  t = MkTransition (advance n (tn_Effect t')) (tn_Dispatch t') (tn_Cancel t').
Proof.
  unfold Apply. cbv zeta. intros H. apply bind_ok in H as ([] & Hv & H). apply reject_if_ok in H as [H1 H]. apply reject_if_ok in H as [H2 H].
  apply bind_ok in H as (n & Hn & H). apply reject_if_ok in H as [_ H]. apply bind_ok in H as (t' & Ht & H). apply reject_if_ok in H as [H3 H].
  injection H as <-. bools in H1. bools in H2. bools in H3. exists n, t'. split_and!; try done; try lia; tauto.
Qed.
Lemma Apply_sound gw e ev t : gateway_ok gw -> roomy (gw_bounds gw) -> sound gw e -> (evidence ev -> negotiated e) -> Apply gw e ev = Ok t ->
  sound gw (tn_Effect t).
Proof.
  intros Hgw Hroom [Hc S1 S2 S3 S4 S5] Hev H. apply Apply_parts in H as (n & t' & Hv & Hr1 & Hr2 & Hmax & Hn & Ht & Hres & ->). simpl.
  pose proof (transition_keeps _ _ _ _ _ Hgw Hroom Hc Hev Hn Ht) as [K1 K2 K3 K4 K5 K6]. pose proof (go_bounds _ Hgw) as Hb. pose proof (bo_events _ Hb) as Be.
  pose proof (event_bytes _ _ _ _ Hgw Hroom (co_call _ _ Hc) Hn) as Hnb. rewrite K3 in Hres. pose proof (reserve_nonneg _ _ Hgw K1).
  destruct (total_bytes _ (ef_EventCount e + 1) Hb) as [T1 T2]; [lia|]. pose proof (share_bounds _ Hb). pose proof (attempts_bytes_nonneg (ef_Attempts e)).
  assert (0 <= ef_EventBytes e).
  { unfold accounted in S3. pose proof (co_stream _ _ Hc). pose proof (zlen_nonneg (ef_Output e)). pose proof (strlen_nonneg (ef_ExternalCommitID e)).
    pose proof (strlen_nonneg (ef_FailureReason e)). lia. }
  constructor; [by apply core_advance|..]; simpl; rewrite ?K3, ?K4, ?K5, ?(u32_id (ef_EventCount e + 1)), ?(u64_id (ef_EventBytes e + n)),
    ?(u64_id (ef_Revision e + 1)); try (unfold is_u64; unfold u64_max in *; lia).
  - change (accounted (advance n (tn_Effect t'))) with (accounted (tn_Effect t')). lia.
  - rewrite reserve_advance by done. lia.
Qed.
End invariant.

(** ** MCP gateway: histories of an effect

    What holds of every effect that events take an admitted one to: it stays a valid
    snapshot, its outcome can always be recorded and is then final, a cancellation is
    always accepted, and calls are replayed only as the tool's policy allows. *)

Section histories.
Context `{N : Normalizer}.

(** The effect that [Admit] stores. *)
Definition admitted (c : Call) : Effect := MkEffect c StateAdmitted 1 0 0 [] 0 0 0 0 "" [] "" false.
(** The effects that events take an effect to. *)
Inductive history (gw : Gateway) (guard : Effect -> Event -> Prop) (e : Effect) : Effect -> Prop :=
| history_start : history gw guard e e
| history_event e1 ev t : history gw guard e e1 -> guard e1 ev -> Apply gw e1 ev = Ok t -> history gw guard e (tn_Effect t).
(** The effect after a sequence of events that are all accepted. *)
Fixpoint play (gw : Gateway) (e : Effect) (events : list Event) : res mcp_error Effect :=
  match events with [] => Ok e | ev :: rest => t ← Apply gw e ev; play gw (tn_Effect t) rest end.
Lemma play_from gw (guard : Effect -> Event -> Prop) e0 events : forall e e', (forall x ev, ev ∈ events -> guard x ev) -> history gw guard e0 e ->
  play gw e events = Ok e' -> history gw guard e0 e'.
Proof.
  induction events as [|ev rest IH]; intros e e' Hg Hh H; cbn [play] in H; [by injection H as <-|]. apply bind_ok in H as (t & Ht & H).
  apply (IH (tn_Effect t) e').
  - intros x ev' Hin. apply Hg. apply elem_of_cons. right. exact Hin.
  - apply (history_event gw guard e0 e ev t Hh); [apply Hg, elem_of_cons; left; reflexivity|exact Ht].
  - exact H.
Qed.
(** Evidence of the call reaches the machine only after its connection was negotiated. *)
Definition negotiated_evidence (e : Effect) (ev : Event) : Prop := evidence ev -> negotiated e.

Lemma admitted_sound gw c : gateway_ok gw -> validateEffect gw (admitted c) = Ok tt -> sound gw (admitted c).
Proof.
  intros Hgw H. apply snapshot_iff in H as (Hc & _ & _ & _). destruct (registered_tool _ _ Hgw (cv_registered _ _ Hc)) as (Hp & H1 & H2 & t & Ht & E1 & E2 & E3).
  simpl in Hc, Hp, H1, H2, E1, E2, E3.
  pose proof (go_bounds _ Hgw) as Hb. pose proof (share_bounds _ Hb). destruct Hb. constructor; simpl; try done; try lia.
  - constructor; simpl; try done; try lia; [unfold zlen; simpl; lia|by intros [|[|]]|by intros a Ha%elem_of_nil].
  - pose proof (to_events _ _ Ht) as He. unfold required_events in He. rewrite E1, E2, E3 in He. unfold minimumRemainingEvents. cbv zeta. simpl.
    rewrite !Z.sub_0_r, !u32_id by lia. destruct (ca_ReplayPolicy c); simpl in Hp; try done; lia.
Qed.
Lemma history_sound gw c e : gateway_ok gw -> roomy (gw_bounds gw) -> validateEffect gw (admitted c) = Ok tt -> history gw negotiated_evidence (admitted c) e ->
  sound gw e.
Proof. intros Hgw Hroom Hv. induction 1 as [|e1 ev t _ IH Hg Ht]; [by apply admitted_sound|by eapply Apply_sound]. Qed.

(** C16: The MCP gateway never writes an effect that it would refuse to read. For a
    configured gateway whose bounds leave room for the reasons it writes itself, every
    effect that accepted events lead to from an admitted call passes the validation of
    snapshots, whatever the events and their order, as long as outcomes and running calls
    are reported only for an attempt whose connection was negotiated; and the events that
    are still allowed cover the reserve that the gateway keeps to finish the effect. *)
Theorem mcp_effects_stay_valid config deps production gw c e :
  unsigned_bounds (cg_Bounds config) -> Forall unsigned_tool (cg_Tools config) -> newGateway config deps production = Ok gw -> roomy (cg_Bounds config) ->
  validateEffect gw (admitted c) = Ok tt -> history gw negotiated_evidence (admitted c) e ->
  validateEffect gw e = Ok tt /\ ef_EventCount e + minimumRemainingEvents e <= MaxEvents (cg_Bounds config).
Proof.
  intros Hb Ht Hn Hroom Hv Hh. destruct (newGateway_ok _ _ _ _ Hb Ht Hn) as [Hgw Hbs]. rewrite <- Hbs in *.
  pose proof (history_sound _ _ _ Hgw Hroom Hv Hh) as Hs. split; [by apply sound_valid|apply (so_reserve _ _ Hs)].
Qed.

(** ** Recording the outcome *)
(** The event that reports the result of a call, and the one that settles it. *)
Definition blank_event (revision : Z) (kind : EventKind) : Event :=
  MkEvent revision kind "" [] [] "" NoFailure "" NoCancellation no_ledger NoDecision no_negotiation.
Definition commit_event (revision : Z) (commit : string) (output : bytes) : Event :=
  MkEvent revision EventCallCommitted "" [] output commit NoFailure "" NoCancellation no_ledger NoDecision no_negotiation.
(** A call that was sent, or may have been, and whose outcome is open. *)
Definition outcome_open (e : Effect) (a : AttemptRecord) : Prop :=
  match ef_State e with
  | StateDispatched | StateStreaming | StateCancellationPending | StateUncertain | StateNeedsConfirmation => True
  | StateFailed => at_Failure a = FailureUnknown
  | _ => False
  end.
Lemma open_reserve gw e a : gateway_ok gw -> core gw e -> CurrentAttempt e = (a, true) -> outcome_open e a -> 2 <= minimumRemainingEvents e.
Proof.
  intros Hgw Hc Hcur Ho. destruct (registered_tool _ _ Hgw (cv_registered _ _ (co_call _ _ Hc))) as (_ & H1 & H2 & _). in_range Hc.
  unfold outcome_open in Ho. unfold minimumRemainingEvents. rewrite Hcur. cbv zeta. cbn [fst]. rewrite !u32_id by lia.
  set (au := ca_MaxAutomaticRetries (ef_Call e) - ef_AutomaticRetriesUsed e) in *. set (cf := ca_MaxConfirmationRetries (ef_Call e) - ef_ConfirmationRetriesUsed e) in *.
  assert (0 <= au /\ 0 <= cf) by lia. set (known := if 0 <? cf then 3 * au + 10 * cf + 3 else 3). assert (3 <= known) by (unfold known; destruct (0 <? cf) eqn:Hcf; bools in Hcf; lia).
  set (has := at_ProviderRequestID a != ""). set (confirm := ca_ReplayPolicy (ef_Call e) == ReplayConfirm).
  assert (2 <= (if has then 2 else if confirm then known + 2 else 4)) by (destruct has, confirm; lia).
  set (unknown := if has then 2 else if confirm then known + 2 else 4) in *. set (rc := if has then known else known + 3). assert (3 <= rc) by (unfold rc; destruct has; lia).
  set (pend := if confirm then rc + 1 else unknown + 1). assert (3 <= pend) by (unfold pend; destruct confirm; lia).
  assert (6 <= match ca_ReplayPolicy (ef_Call e) with
               | ReplaySafe | ReplayIdempotencyKey => if 0 <? au then 4 * au + 7 else 6
               | ReplayConfirm => known + 4 | _ => 6 end) by (destruct (ca_ReplayPolicy (ef_Call e)); try destruct (0 <? au); lia).
  destruct (ef_State e); try done; try lia; destruct (ef_CancellationRequested e); try lia.
  all: rewrite Ho, bool_decide_eq_false_2 by tauto; lia.
Qed.

Lemma pass_if {E B} (b : bool) (x : E) (k : res E B) : b = false -> (_ ← reject_if b x; k) = k.
Proof. by intros ->. Qed.
Lemma pass_ok {E A B} (m : res E A) (v : A) (k : A -> res E B) : m = Ok v -> (m ≫= k) = k v.
Proof. by intros ->. Qed.
(** An event is accepted when its transition is and the reserve stays. *)
Lemma Apply_accepts gw e ev n t : gateway_ok gw -> roomy (gw_bounds gw) -> sound gw e -> ev_ExpectedRevision ev = ef_Revision e ->
  validateEvent (gw_bounds gw) e ev = Ok n -> transition (gw_bounds gw) e ev = Ok t -> ef_EventCount (tn_Effect t) = ef_EventCount e ->
  minimumRemainingEvents (tn_Effect t) + 1 <= minimumRemainingEvents e -> 0 <= minimumRemainingEvents (tn_Effect t) ->
  Apply gw e ev = Ok (MkTransition (advance n (tn_Effect t)) (tn_Dispatch t) (tn_Cancel t)).
Proof.
  intros Hgw Hroom Hs Hrev Hn Ht Hcnt Hres Hnn. unfold Apply. cbv zeta. rewrite (pass_ok _ _ _ (sound_valid _ _ Hgw Hs)). destruct Hs as [Hc S1 S2 S3 S4 S5].
  pose proof (go_bounds _ Hgw) as Hb. pose proof (bo_events _ Hb). destruct (total_bytes _ (ef_EventCount e) Hb) as [T1 T2]; [lia|].
  pose proof (event_bytes _ _ _ _ Hgw Hroom (co_call _ _ Hc) Hn) as Hnb. pose proof (share_bounds _ Hb). destruct (total_bytes _ (ef_EventCount e + 1) Hb) as [T3 T4]; [lia|].
  rewrite pass_if by (by apply neq_test_false). rewrite pass_if by (bools; unfold u64_max in *; lia). rewrite (pass_ok _ _ _ Hn).
  rewrite pass_if by (bools; unfold u64_max in *; lia). rewrite (pass_ok _ _ _ Ht). by rewrite pass_if by (bools; lia).
Qed.
Lemma committed_reserve e : ef_State e = StateExternallyCommitted -> minimumRemainingEvents e = 1.
Proof. intros H. unfold minimumRemainingEvents. by rewrite H. Qed.
Lemma completed_reserve e : ef_State e = StateCompleted -> minimumRemainingEvents e = 0.
Proof. intros H. unfold minimumRemainingEvents. by rewrite H. Qed.
Lemma commit_accepted gw e a commit output : gateway_ok gw -> roomy (gw_bounds gw) -> sound gw e -> CurrentAttempt e = (a, true) -> outcome_open e a ->
  zlen output <> 0 -> zlen output <= MaxOutputBytes (gw_bounds gw) -> optional_text commit (MaxExternalCommitIDBytes (gw_bounds gw)) = true ->
  at_ProviderRequestID a <> "" \/ commit <> "" ->
  Apply gw e (commit_event (ef_Revision e) commit output) = Ok (MkTransition (advance (zlen output + strlen commit)
    (set_state StateExternallyCommitted (set_reason "" (set_result commit output e)))) None None).
Proof.
  intros Hgw Hroom Hs Hcur Hopen Hne Hmax Htext Hid. pose proof (open_reserve _ _ _ Hgw (so_core _ _ Hs) Hcur Hopen) as H2.
  rewrite (Apply_accepts gw e _ (zlen output + strlen commit) (MkTransition (set_state StateExternallyCommitted (set_reason "" (set_result commit output e))) None None));
    try done; simpl; rewrite ?committed_reserve by done; try lia.
  - unfold validateEvent. simpl. rewrite pass_if by (bools; lia). rewrite pass_if; [done|]. bools. rewrite Htext. split_and!; done.
  - unfold transition, call_committed, outcome_open in *. simpl. rewrite Hcur. destruct (ef_State e); try done; rewrite !pass_if; try done; bools; try tauto.
Qed.
Lemma settlement_accepted gw e : gateway_ok gw -> roomy (gw_bounds gw) -> sound gw e -> ef_State e = StateExternallyCommitted -> zlen (ef_Output e) <> 0 ->
  Apply gw e (blank_event (ef_Revision e) EventSettlementCompleted) = Ok (MkTransition (advance 0 (set_state StateCompleted e)) None None).
Proof.
  intros Hgw Hroom Hs Hst Hout. rewrite (Apply_accepts gw e _ 0 (MkTransition (set_state StateCompleted e) None None)); try done; simpl;
    rewrite ?completed_reserve, ?committed_reserve by done; try lia.
  unfold transition, settlement_completed. simpl. rewrite pass_if; [done|]. bools. tauto.
Qed.

(** C17: The outcome of an MCP call can be recorded. For a configured gateway whose bounds
    leave room for the reasons it writes itself, and in every history in which outcomes and
    running calls were reported only for an attempt whose connection was negotiated:
    whenever the call was sent or may have been and its outcome is open (running, being
    cancelled, uncertain, waiting for confirmation, failed with an unknown outcome), a valid
    result for a negotiated attempt is accepted, and then the settlement is: the effect is
    completed with exactly that result. Under these conditions neither the limit of events
    nor the limit of bytes is in the way. *)
Theorem mcp_outcome_recordable config deps production gw c e a commit output :
  unsigned_bounds (cg_Bounds config) -> Forall unsigned_tool (cg_Tools config) -> newGateway config deps production = Ok gw -> roomy (cg_Bounds config) ->
  validateEffect gw (admitted c) = Ok tt -> history gw negotiated_evidence (admitted c) e ->
  CurrentAttempt e = (a, true) -> at_Negotiation a <> no_negotiation -> outcome_open e a ->
  zlen output <> 0 -> zlen output <= MaxOutputBytes (cg_Bounds config) -> optional_text commit (MaxExternalCommitIDBytes (cg_Bounds config)) = true ->
  at_ProviderRequestID a <> "" \/ commit <> "" ->
  exists t1 t2, Apply gw e (commit_event (ef_Revision e) commit output) = Ok t1 /\
    Apply gw (tn_Effect t1) (blank_event (ef_Revision (tn_Effect t1)) EventSettlementCompleted) = Ok t2 /\
    ef_State (tn_Effect t2) = StateCompleted /\ ef_Output (tn_Effect t2) = output /\ ef_ExternalCommitID (tn_Effect t2) = commit /\ tn_Dispatch t2 = None.
Proof.
  intros Hb Ht Hn Hroom Hv Hh Hcur Hneg Hopen Hne Hmax Htext Hid. destruct (newGateway_ok _ _ _ _ Hb Ht Hn) as [Hgw Hbs]. rewrite <- Hbs in *.
  pose proof (history_sound _ _ _ Hgw Hroom Hv Hh) as Hs. pose proof (commit_accepted _ _ _ _ _ Hgw Hroom Hs Hcur Hopen Hne Hmax Htext Hid) as H1.
  assert (Hs1 := H1). eapply (Apply_sound _ _ _ _ Hgw Hroom Hs) in Hs1; [|intros _; by exists a].
  eexists _, _. split; [exact H1|]. split; [by apply settlement_accepted|]. done.
Qed.

(** ** Cancellation *)
Definition cancellable (e : Effect) : Prop :=
  match ef_State e with
  | StateAdmitted | StateRetryPending | StateDispatching | StateDispatched | StateStreaming | StateUncertain | StateNeedsConfirmation => True
  | StateFailed => at_Failure (CurrentAttempt e).1 = FailureUnknown
  | _ => False
  end.
Lemma cancel_reserve gw e a : gateway_ok gw -> core gw e -> CurrentAttempt e = (a, true) -> cancellable e -> ef_CancellationRequested e = false ->
  minimumRemainingEvents (set_state StateCancellationPending (set_cancelling true e)) + 1 <= minimumRemainingEvents e.
Proof.
  intros Hgw Hc Hcur Hcan Hreq. destruct (core_current _ _ _ Hc Hcur) as (l & Hl & _ & Hst).
  destruct (registered_tool _ _ Hgw (cv_registered _ _ (co_call _ _ Hc))) as (Hp & H1 & H2 & _). in_range Hc.
  assert (Hcur' : CurrentAttempt (set_state StateCancellationPending (set_cancelling true e)) = (a, true)) by exact Hcur.
  unfold cancellable in Hcan. rewrite Hcur in Hcan. unfold minimumRemainingEvents. rewrite Hcur, Hcur'. cbv zeta. cbn [fst]. simpl ef_State. cbv iota.
  change (ef_Call (set_state StateCancellationPending (set_cancelling true e))) with (ef_Call e).
  change (ef_AutomaticRetriesUsed (set_state StateCancellationPending (set_cancelling true e))) with (ef_AutomaticRetriesUsed e).
  change (ef_ConfirmationRetriesUsed (set_state StateCancellationPending (set_cancelling true e))) with (ef_ConfirmationRetriesUsed e).
  rewrite !u32_id by lia. set (au := ca_MaxAutomaticRetries (ef_Call e) - ef_AutomaticRetriesUsed e) in *.
  set (cf := ca_MaxConfirmationRetries (ef_Call e) - ef_ConfirmationRetriesUsed e) in *. assert (0 <= au /\ 0 <= cf) by lia.
  set (known := if 0 <? cf then 3 * au + 10 * cf + 3 else 3). assert (3 <= known <= 3 * au + 10 * cf + 3) by (unfold known; destruct (0 <? cf) eqn:Hcf; bools in Hcf; lia).
  rewrite Hreq. unfold state_conflict in Hst. rewrite Hreq in Hst.
  destruct (ef_State e) eqn:Hs; try done; try lia.
  - bools in Hst. rewrite Hl, zlen_snoc in Hst. pose proof (zlen_nonneg l). lia.
  - destruct (at_Negotiation a == no_negotiation), (at_ProviderRequestID a != ""), (ca_ReplayPolicy (ef_Call e)); simpl in Hp; try done; simpl; lia.
  - destruct (at_ProviderRequestID a != ""), (ca_ReplayPolicy (ef_Call e)); simpl in Hp; try done; simpl; lia.
  - bools in Hst. rewrite (bool_decide_eq_true_2 (at_ProviderRequestID a <> "")) by tauto. destruct (ca_ReplayPolicy (ef_Call e)); simpl in Hp; try done; simpl; try destruct (0 <? au); lia.
  - bools in Hst. rewrite (bool_decide_eq_true_2 (at_ProviderRequestID a <> "")) by tauto. destruct (ca_ReplayPolicy (ef_Call e)); simpl in Hp; try done; simpl; try destruct (0 <? au); lia.
  - destruct (at_Failure a != FailureLedgerAbsent); lia.
  - cbn [fst] in Hcan. rewrite Hcan, (bool_decide_eq_false_2 (FailureUnknown <> FailureUnknown)) by tauto. lia.
Qed.

Lemma cancel_transition gw e a ok : core gw e -> CurrentAttempt e = (a, ok) -> cancellable e ->
  (cancel_requested e = plain (set_reason "" (set_state StateCancelled (set_cancelling true e))) /\
   (ef_State e = StateAdmitted \/ (ef_State e = StateRetryPending /\ (at_Failure a = FailureDefinitelyNotSent \/ at_Failure a = FailureLedgerAbsent)))) \/
  (cancel_requested e = Ok (MkTransition (set_state StateCancellationPending (set_cancelling true e)) None (Some (cancel_command e a))) /\ ok = true).
Proof.
  intros Hc Hcur H. pose proof (co_state _ _ Hc) as Hst. unfold invalid_state in Hst. rewrite Hcur in Hst.
  assert (Hok : ef_State e = StateAdmitted \/ ok = true).
  { destruct ok; [by right|]. apply current_none in Hcur as [Hl ->]. unfold cancellable, state_conflict in *. destruct (ef_State e) eqn:Hs; try done; [by left|..];
      exfalso; (destruct (co_failed _ _ Hc) as (x & Hx & _); [unfold failed_state; rewrite Hs; tauto|]; unfold CurrentAttempt in Hx; by rewrite Hl in Hx). }
  unfold cancellable in H. unfold cancel_requested. rewrite Hcur in *. cbn [fst] in H. destruct Hok as [Hs | ->]; [rewrite Hs; left; tauto|].
  destruct (ef_State e); try done; try (right; split; done); [left; tauto| |rewrite H; right; split; done]. simpl.
  destruct (_ || _) eqn:Hf; [left|right; split; done]. bools in Hf. tauto.
Qed.
Lemma cancelled_reserve e : ef_State e = StateCancelled -> minimumRemainingEvents e = 0.
Proof. intros H. unfold minimumRemainingEvents. by rewrite H. Qed.
Lemma early_reserve gw e : gateway_ok gw -> core gw e -> ef_State e = StateAdmitted \/ ef_State e = StateRetryPending -> 1 <= minimumRemainingEvents e.
Proof.
  intros Hgw Hc Hs. destruct (registered_tool _ _ Hgw (cv_registered _ _ (co_call _ _ Hc))) as (Hp & H1 & H2 & _). in_range Hc.
  unfold minimumRemainingEvents. cbv zeta. rewrite !u32_id by lia. destruct Hs as [-> | ->]; destruct (ca_ReplayPolicy (ef_Call e)); simpl in Hp; try done; lia.
Qed.
(** A cancellation is always accepted. In every history of a configured gateway, the
    first request to cancel an effect that is not finished is accepted whatever events
    came before: the effect is cancelled at once when no call can be under way (it was
    never sent, or the last attempt is known not to have reached the server), and
    otherwise a command to cancel exactly the current attempt is issued. *)
Theorem mcp_cancellation_accepted config deps production gw c e a ok :
  unsigned_bounds (cg_Bounds config) -> Forall unsigned_tool (cg_Tools config) -> newGateway config deps production = Ok gw -> roomy (cg_Bounds config) ->
  validateEffect gw (admitted c) = Ok tt -> history gw negotiated_evidence (admitted c) e ->
  CurrentAttempt e = (a, ok) -> cancellable e -> ef_CancellationRequested e = false ->
  exists t, Apply gw e (blank_event (ef_Revision e) EventCancelRequested) = Ok t /\ ef_CancellationRequested (tn_Effect t) = true /\ tn_Dispatch t = None /\
    ((ef_State (tn_Effect t) = StateCancelled /\ tn_Cancel t = None /\
      (ef_State e = StateAdmitted \/ (ef_State e = StateRetryPending /\ (at_Failure a = FailureDefinitelyNotSent \/ at_Failure a = FailureLedgerAbsent)))) \/
     (ef_State (tn_Effect t) = StateCancellationPending /\ tn_Cancel t = Some (cancel_command e a))).
Proof.
  intros Hb Ht Hn Hroom Hv Hh Hcur Hcan Hreq. destruct (newGateway_ok _ _ _ _ Hb Ht Hn) as [Hgw Hbs]. rewrite <- Hbs in *.
  pose proof (history_sound _ _ _ Hgw Hroom Hv Hh) as Hs. pose proof (so_core _ _ Hs) as Hc. destruct (cancel_transition _ _ _ _ Hc Hcur Hcan) as [[Htr Hwhy]|[Htr ->]].
  - pose proof (early_reserve _ _ Hgw Hc ltac:(tauto)).
    exists (MkTransition (advance 0 (set_reason "" (set_state StateCancelled (set_cancelling true e)))) None None). split; [|split_and!; [done|done|by left]].
    apply (Apply_accepts gw e _ 0 (MkTransition (set_reason "" (set_state StateCancelled (set_cancelling true e))) None None)); try done; simpl;
      rewrite cancelled_reserve by done; lia.
  - pose proof (cancel_reserve _ _ _ Hgw Hc Hcur Hcan Hreq) as Hres. pose proof (cancel_keeps _ _ _ Hc Htr) as K.
    pose proof (reserve_nonneg _ _ Hgw (ke_core _ _ _ _ K)).
    exists (MkTransition (advance 0 (set_state StateCancellationPending (set_cancelling true e))) None (Some (cancel_command e a))).
    split; [|split_and!; [done|done|by right]].
    by apply (Apply_accepts gw e _ 0 (MkTransition (set_state StateCancellationPending (set_cancelling true e)) None (Some (cancel_command e a)))).
Qed.
End histories.

(** ** MCP gateway: the replay policy and final outcomes

    How transitions change the list of attempts ([follows]), and the invariant that bounds
    the attempts after the first by what the tool's policy and the user's confirmations
    allow. *)

(** The attempts before the last. *)
Abbreviation earlier e := (removelast (ef_Attempts e)).
Lemma removelast_update {A} (f : A -> A) l : removelast (update_last f l) = removelast l.
Proof. induction l as [|x [|y l] IH]; [done|done|]. change (removelast (x :: update_last f (y :: l)) = x :: removelast (y :: l)). rewrite <- IH. by destruct l. Qed.
Lemma removelast_snoc {A} (l : list A) x : removelast (l ++ [x]) = l.
Proof. apply removelast_last. Qed.

(** How a transition changes the attempts. *)
Inductive follows (e e' : Effect) : Prop :=
| follows_dispatch a : ef_Attempts e' = ef_Attempts e ++ [a] -> ef_State e = StateAdmitted \/ ef_State e = StateRetryPending -> ef_State e' = StateDispatching ->
    ef_ConfirmationRetriesUsed e' = ef_ConfirmationRetriesUsed e -> follows e e'
| follows_outcome : earlier e' = earlier e -> ef_State e' <> StateRetryPending -> ef_State e' <> StateAdmitted ->
    ef_ConfirmationRetriesUsed e' = ef_ConfirmationRetriesUsed e -> follows e e'
| follows_confirmed : ef_Attempts e' = ef_Attempts e -> ef_State e' = StateRetryPending -> ca_ReplayPolicy (ef_Call e) = ReplayConfirm ->
    ef_ConfirmationRetriesUsed e' = u32 (ef_ConfirmationRetriesUsed e + 1) -> follows e e'
| follows_retry : earlier e' = earlier e -> ef_State e' = StateRetryPending -> ef_ConfirmationRetriesUsed e' = ef_ConfirmationRetriesUsed e ->
    (exists a, last (ef_Attempts e') = Some a /\ at_Failure a = FailureDefinitelyNotSent) \/ ca_ReplayPolicy (ef_Call e) = ReplaySafe \/
    ca_ReplayPolicy (ef_Call e) = ReplayIdempotencyKey -> follows e e'
| follows_same : ef_Attempts e' = ef_Attempts e -> ef_State e' = ef_State e -> ef_ConfirmationRetriesUsed e' = ef_ConfirmationRetriesUsed e -> follows e e'.

Ltac outcome := apply follows_outcome; simpl; rewrite ?removelast_update; try done; by repeat case_match.
Lemma applyFailure_follows e class reason e' : applyFailure e class reason = Ok e' -> follows e e' /\ ef_Call e' = ef_Call e.
Proof.
  unfold applyFailure. cbv zeta. intros H. destruct (CurrentAttempt e) as [a ok] eqn:Hcur. destruct ok; [|done]. simpl negb in H. cbv iota in H.
  apply current_some in Hcur as [l Hl].
  destruct class; try done.
  - destruct (_ || _) in H; [done|]. injection H as <-. case_match; (split; [|done]); [|outcome].
    apply follows_retry; simpl; rewrite ?removelast_update; try done. left. rewrite Hl, update_last_snoc, last_snoc. by eexists.
  - destruct (_ || _) in H; [done|]. injection H as <-. split; [outcome|done].
  - destruct (ef_State e); try done;
      failure_branches H; (split; [|done]); first [outcome | apply follows_retry; simpl; rewrite ?removelast_update; try done; tauto].
  - destruct (ef_State e); try done;
      failure_branches H; (split; [|done]); first [outcome | apply follows_retry; simpl; rewrite ?removelast_update; try done; tauto].
Qed.
Lemma record_follows b e record e' : applyCommittedRecord b e record = Ok e' -> follows e e' /\ ef_Call e' = ef_Call e.
Proof.
  unfold applyCommittedRecord. intros H. apply reject_if_ok in H as [_ H]. destruct (CurrentAttempt e) as [a ok]. apply reject_if_ok in H as [_ H].
  apply reject_if_ok in H as [_ H]. injection H as <-. case_match; (split; [outcome|done]).
Qed.
Lemma recovery_follows b e ev t : recovery_observed b e ev = Ok t -> follows e (tn_Effect t) /\ ef_Call (tn_Effect t) = ef_Call e.
Proof.
  unfold recovery_observed. cbv zeta. intros H. apply bind_ok in H as ([] & Hs & H). apply reject_if_ok in H as [_ H]. apply bind_ok in H as (e' & He & H). injection H as <-.
  simpl. destruct (lg_Status (ev_Ledger ev)); try done; [by eapply applyFailure_follows| |by eapply record_follows| |by eapply applyFailure_follows].
  - unfold observed_inflight in He. destruct (CurrentAttempt e) as [a ok]. apply reject_if_ok in He as [_ He]. simpl in He.
    destruct (ef_State e) eqn:Hst; try done; injection He as <-; (split; [|done]); try outcome; (apply follows_outcome; simpl; rewrite ?removelast_update, ?Hst; done).
  - unfold observed_failed in He. destruct (CurrentAttempt e) as [a ok]. apply reject_if_ok in He as [_ He]. injection He as <-.
    destruct (at_ProviderRequestID a == ""); (split; [|done]); apply follows_outcome; simpl; by rewrite ?removelast_update.
Qed.
Lemma resolved_follows b e ev t : cancellation_resolved b e ev = Ok t -> follows e (tn_Effect t) /\ ef_Call (tn_Effect t) = ef_Call e.
Proof.
  unfold cancellation_resolved. intros H. apply reject_if_ok in H as [_ H]. destruct (CurrentAttempt e) as [a ok]. apply reject_if_ok in H as [_ H].
  destruct (ev_Cancellation ev); try (injection H as <-; (split; [|done])); try outcome; try (by apply follows_same).
  - destruct (_ || _) in H; [done|]. injection H as <-. split; [outcome|done].
  - apply bind_ok in H as (e' & He & H). injection H as <-. by eapply record_follows.
Qed.
Lemma transition_follows b e ev t : transition b e ev = Ok t -> follows e (tn_Effect t) /\ ef_Call (tn_Effect t) = ef_Call e.
Proof.
  unfold transition. intros H. destruct (ev_Kind ev).
  - unfold begin_dispatch in H. apply reject_if_ok in H as [Hr H]. apply reject_if_ok in H as [_ H]. injection H as <-. bools in Hr. split; [|done].
    by apply (follows_dispatch _ _ (MkAttempt (u32 (zlen (ef_Attempts e) + 1)) "" false NoFailure no_negotiation)); simpl; try tauto.
  - unfold negotiation_recorded in H. destruct (CurrentAttempt e) as [a ok]. apply reject_if_ok in H as [Hr H]. injection H as <-. bools in Hr. split; [|done].
    destruct Hr as [[[[[[Hs _] _] _] _] _] _]. by apply follows_outcome; simpl; rewrite ?removelast_update, ?Hs.
  - unfold provider_accepted in H. destruct (CurrentAttempt e) as [a ok]. apply reject_if_ok in H as [_ H]. injection H as <-. split; [outcome|done].
  - unfold output_chunk in H. destruct (CurrentAttempt e) as [a ok]. apply reject_if_ok in H as [_ H]. apply reject_if_ok in H as [_ H]. injection H as <-. split; [outcome|done].
  - unfold call_committed in H. destruct (CurrentAttempt e) as [a ok]. destruct (ef_State e); try done; apply reject_if_ok in H as [_ H]; apply reject_if_ok in H as [_ H];
      injection H as <-; (split; [outcome|done]).
  - unfold settlement_completed in H. apply reject_if_ok in H as [_ H]. injection H as <-. split; [outcome|done].
  - apply bind_ok in H as (e' & He & H). injection H as <-. by eapply applyFailure_follows.
  - unfold cancel_requested in H. destruct (CurrentAttempt e) as [a ok]. destruct (ef_State e); try done;
      repeat match type of H with context [if ?x then _ else _] => destruct x end; try done; injection H as <-; (split; [outcome|done]).
  - by eapply resolved_follows.
  - by eapply recovery_follows.
  - unfold confirmation_decided in H. apply reject_if_ok in H as [Hr H]. bools in Hr. destruct Hr as [Hs Hp]. destruct (ev_Decision ev).
    + injection H as <-. split; [by apply follows_same|done].
    + apply reject_if_ok in H as [_ H]. injection H as <-. split; [by apply follows_confirmed|done].
    + case_match; injection H as <-; (split; [outcome|done]).
    + injection H as <-. split; [by apply follows_same|done].
  - injection H as <-. split; [by apply follows_same|done].
Qed.

(** ** The invariant *)
(** The attempts that may have reached the server. *)
Definition possibly_sent (l : list AttemptRecord) : Z := zlen (List.filter (fun a => at_Failure a != FailureDefinitelyNotSent) l).
Record replayed (c : Call) (e : Effect) : Prop := MkReplayed {
  re_call : ef_Call e = c;
  re_used : 0 <= ef_ConfirmationRetriesUsed e;
  re_unconfirmed : ca_ReplayPolicy c <> ReplayConfirm -> ef_ConfirmationRetriesUsed e = 0;
  re_earlier : ca_ReplayPolicy c = ReplayNever \/ ca_ReplayPolicy c = ReplayConfirm -> possibly_sent (earlier e) <= ef_ConfirmationRetriesUsed e;
  re_retry : ca_ReplayPolicy c = ReplayNever \/ ca_ReplayPolicy c = ReplayConfirm -> ef_State e = StateRetryPending ->
    possibly_sent (ef_Attempts e) <= ef_ConfirmationRetriesUsed e;
  re_first : ef_State e = StateAdmitted -> ef_Attempts e = [];
}.
Lemma possibly_sent_snoc l a : possibly_sent (l ++ [a]) = possibly_sent l + (if at_Failure a != FailureDefinitelyNotSent then 1 else 0).
Proof. unfold possibly_sent, zlen. rewrite List.filter_app, length_app. simpl. destruct (at_Failure a != FailureDefinitelyNotSent); simpl; lia. Qed.
Lemma possibly_sent_removelast l : possibly_sent l <= possibly_sent (removelast l) + 1.
Proof.
  destruct l as [|x l] using rev_ind; [done|]. rewrite removelast_snoc, possibly_sent_snoc. destruct (_ != _); lia.
Qed.
Lemma possibly_sent_none l : possibly_sent l = 0 -> Forall (fun a => at_Failure a = FailureDefinitelyNotSent) l.
Proof.
  unfold possibly_sent. induction l as [|a l IH]; [constructor|]. simpl. destruct (at_Failure a != FailureDefinitelyNotSent) eqn:Ha; intros H.
  - unfold zlen in H. simpl in H. lia.
  - constructor; [by apply neq_test_false in Ha|by apply IH].
Qed.
Lemma replayed_step c e e' : replayed c e -> ef_ConfirmationRetriesUsed e <= 16 -> ef_Call e' = ef_Call e -> follows e e' -> replayed c e'.
Proof.
  intros [R1 R2 R3 R4 R5 R6] Hmax Hc H. destruct H as [a Ha Hs Hs' Hcf|Ha Hs Hs' Hcf|Ha Hs Hp Hcf|Ha Hs Hcf Hwhy|Ha Hs Hcf].
  - constructor; rewrite ?Hcf, ?Ha, ?Hs', ?removelast_snoc; try congruence; try tauto. intros Hpol. destruct Hs as [Hs|Hs]; [rewrite (R6 Hs); exact R2|tauto].
  - constructor; rewrite ?Hcf, ?Ha; try congruence; tauto.
  - rewrite u32_id in Hcf by lia. pose proof (possibly_sent_removelast (ef_Attempts e)). constructor; rewrite ?Hcf, ?Ha; try congruence; try lia.
    + intros Hpol. specialize (R4 Hpol). lia.
    + intros Hpol _. specialize (R4 Hpol). lia.
  - constructor; rewrite ?Hcf, ?Ha; try congruence; try tauto. intros Hpol _. destruct Hwhy as [(a & Hl & Hf)|Hp]; [|rewrite R1 in Hp; exfalso; destruct Hpol, Hp; congruence].
    specialize (R4 Hpol). apply last_Some in Hl as [l Hl]. rewrite <- Ha, Hl, removelast_snoc in R4. rewrite Hl, possibly_sent_snoc, Hf. by rewrite Z.add_0_r.
  - constructor; rewrite ?Hcf, ?Ha, ?Hs; try congruence; tauto.
Qed.

(** ** Counting events *)
Definition dispatching (ev : Event) : bool := match ev_Kind ev with EventBeginDispatch => true | _ => false end.
Definition confirming (ev : Event) : bool := match ev_Kind ev, ev_Decision ev with EventConfirmationDecided, ConfirmationRetry => true | _, _ => false end.
Definition failing (ev : Event) : bool := match ev_Kind ev with EventDispatchFailed | EventRecoveryObserved => true | _ => false end.
Definition tally (f : Event -> bool) (evs : list Event) : Z := zlen (List.filter f evs).
Lemma tally_snoc f evs ev : tally f (evs ++ [ev]) = tally f evs + (if f ev then 1 else 0).
Proof. unfold tally, zlen. rewrite List.filter_app, length_app. simpl. destruct (f ev); simpl; lia. Qed.
Lemma zlen_update_last {A} (f : A -> A) l : zlen (update_last f l) = zlen l.
Proof. unfold zlen. f_equal. induction l as [|x [|y l] IH]; [done|done|]. change (S (length (update_last f (y :: l))) = S (length (y :: l))). by rewrite IH. Qed.

(** How a transition changes the counters of an effect. *)
Record counts (e : Effect) (ev : Event) (e' : Effect) : Prop := MkCounts {
  ct_attempts : zlen (ef_Attempts e') = zlen (ef_Attempts e) + (if dispatching ev then 1 else 0);
  ct_room : dispatching ev = true -> zlen (ef_Attempts e) < 1 + ef_AutomaticRetriesUsed e + ef_ConfirmationRetriesUsed e;
  ct_automatic : ef_AutomaticRetriesUsed e' = ef_AutomaticRetriesUsed e \/
    failing ev = true /\ ef_AutomaticRetriesUsed e < ca_MaxAutomaticRetries (ef_Call e) /\ ef_AutomaticRetriesUsed e' = u32 (ef_AutomaticRetriesUsed e + 1);
  ct_confirmed : ef_ConfirmationRetriesUsed e' = if confirming ev then u32 (ef_ConfirmationRetriesUsed e + 1) else ef_ConfirmationRetriesUsed e;
  ct_allowed : confirming ev = true -> ef_ConfirmationRetriesUsed e < ca_MaxConfirmationRetries (ef_Call e);
}.
(** A transition that leaves the counters, or uses up an automatic retry. *)
Definition level (e e' : Effect) : Prop :=
  zlen (ef_Attempts e') = zlen (ef_Attempts e) /\ ef_ConfirmationRetriesUsed e' = ef_ConfirmationRetriesUsed e /\ ef_AutomaticRetriesUsed e' = ef_AutomaticRetriesUsed e.
Definition retry_used (e e' : Effect) : Prop :=
  zlen (ef_Attempts e') = zlen (ef_Attempts e) /\ ef_ConfirmationRetriesUsed e' = ef_ConfirmationRetriesUsed e /\
  ef_AutomaticRetriesUsed e < ca_MaxAutomaticRetries (ef_Call e) /\ ef_AutomaticRetriesUsed e' = u32 (ef_AutomaticRetriesUsed e + 1).
Lemma level_counts e ev e' : level e e' -> dispatching ev = false -> confirming ev = false -> counts e ev e'.
Proof. intros (L1 & L2 & L3) Hd Hc. constructor; rewrite ?Hd, ?Hc; try done; [lia|by left]. Qed.
Lemma used_counts e ev e' : level e e' \/ retry_used e e' -> failing ev = true -> counts e ev e'.
Proof.
  intros [L|(L1 & L2 & L3 & L4)] Hf.
  - apply level_counts; [done|..]; unfold failing, dispatching, confirming in *; by destruct (ev_Kind ev).
  - assert (Hd : dispatching ev = false /\ confirming ev = false) by (unfold failing, dispatching, confirming in *; by destruct (ev_Kind ev)).
    destruct Hd as [Hd Hc]. constructor; rewrite ?Hd, ?Hc; try done; [lia|by right].
Qed.
Ltac level := unfold level; simpl; rewrite ?zlen_update_last; done.
Lemma applyFailure_level e class reason e' : applyFailure e class reason = Ok e' -> level e e' \/ retry_used e e'.
Proof.
  unfold applyFailure. cbv zeta. intros H. destruct (CurrentAttempt e) as [a ok]. destruct ok; [|done]. simpl negb in H. cbv iota in H.
  assert (Hretry : ef_AutomaticRetriesUsed e < ca_MaxAutomaticRetries (ef_Call e) ->
    retry_used e (set_state StateRetryPending (set_retries (u32 (ef_AutomaticRetriesUsed e + 1)) (ef_ConfirmationRetriesUsed e) (set_reason reason (set_failure class e))))).
  { intros Hlt. unfold retry_used. simpl. by rewrite zlen_update_last. }
  destruct class; try done.
  - destruct (_ || _) in H; [done|]. injection H as <-. destruct (_ <? _) eqn:Hlt; [right; apply Hretry; lia|left; level].
  - destruct (_ || _) in H; [done|]. injection H as <-. left. level.
  - destruct (ef_State e); try done; failure_branches H; first [left; level | right; apply Hretry; lia].
  - destruct (ef_State e); try done; failure_branches H; first [left; level | right; apply Hretry; lia].
Qed.
Lemma record_level b e record e' : applyCommittedRecord b e record = Ok e' -> level e e'.
Proof.
  unfold applyCommittedRecord. intros H. apply reject_if_ok in H as [_ H]. destruct (CurrentAttempt e) as [a ok]. apply reject_if_ok in H as [_ H].
  apply reject_if_ok in H as [_ H]. injection H as <-. case_match; level.
Qed.
Lemma recovery_level b e ev t : recovery_observed b e ev = Ok t -> level e (tn_Effect t) \/ retry_used e (tn_Effect t).
Proof.
  unfold recovery_observed. cbv zeta. intros H. apply bind_ok in H as ([] & Hs & H). apply reject_if_ok in H as [_ H]. apply bind_ok in H as (e' & He & H). injection H as <-.
  simpl. destruct (lg_Status (ev_Ledger ev)); try done; [by eapply applyFailure_level| |left; by eapply record_level| |by eapply applyFailure_level]; left.
  - unfold observed_inflight in He. destruct (CurrentAttempt e) as [a ok]. apply reject_if_ok in He as [_ He]. simpl in He. destruct (ef_State e); injection He as <-; level.
  - unfold observed_failed in He. destruct (CurrentAttempt e) as [a ok]. apply reject_if_ok in He as [_ He]. injection He as <-. destruct (at_ProviderRequestID a == ""); level.
Qed.
Lemma resolved_level b e ev t : cancellation_resolved b e ev = Ok t -> level e (tn_Effect t).
Proof.
  unfold cancellation_resolved. intros H. apply reject_if_ok in H as [_ H]. destruct (CurrentAttempt e) as [a ok]. apply reject_if_ok in H as [_ H].
  destruct (ev_Cancellation ev); try (injection H as <-; level); [destruct (_ || _) in H; [done|]; injection H as <-; level|].
  apply bind_ok in H as (e' & He & H). injection H as <-. by eapply record_level.
Qed.
Ltac leveled Hk := apply level_counts; [level|unfold dispatching; by rewrite Hk|unfold confirming; by rewrite Hk].
Lemma transition_counts b e ev t : transition b e ev = Ok t -> counts e ev (tn_Effect t).
Proof.
  unfold transition. intros H. destruct (ev_Kind ev) eqn:Hk.
  - unfold begin_dispatch in H. apply reject_if_ok in H as [_ H]. apply reject_if_ok in H as [Hr H]. injection H as <-. apply Z.leb_gt in Hr.
    constructor; unfold dispatching, confirming; rewrite ?Hk; simpl; rewrite ?zlen_snoc; try done; by left.
  - unfold negotiation_recorded in H. destruct (CurrentAttempt e) as [a ok]. apply reject_if_ok in H as [_ H]. injection H as <-. leveled Hk.
  - unfold provider_accepted in H. destruct (CurrentAttempt e) as [a ok]. apply reject_if_ok in H as [_ H]. injection H as <-. leveled Hk.
  - unfold output_chunk in H. destruct (CurrentAttempt e) as [a ok]. do 2 apply reject_if_ok in H as [_ H]. injection H as <-. leveled Hk.
  - unfold call_committed in H. destruct (CurrentAttempt e) as [a ok]. destruct (ef_State e); try done; do 2 apply reject_if_ok in H as [_ H]; injection H as <-; leveled Hk.
  - unfold settlement_completed in H. apply reject_if_ok in H as [_ H]. injection H as <-. leveled Hk.
  - apply bind_ok in H as (e' & He & H). injection H as <-. apply used_counts; [by eapply applyFailure_level|unfold failing; by rewrite Hk].
  - unfold cancel_requested in H. destruct (CurrentAttempt e) as [a ok]. destruct (ef_State e); try done;
      repeat match type of H with context [if ?x then _ else _] => destruct x end; try done; injection H as <-; leveled Hk.
  - apply resolved_level in H. apply level_counts; [done|unfold dispatching; by rewrite Hk|unfold confirming; by rewrite Hk].
  - apply used_counts; [by eapply recovery_level|unfold failing; by rewrite Hk].
  - unfold confirmation_decided in H. apply reject_if_ok in H as [_ H]. destruct (ev_Decision ev) eqn:Hd.
    + injection H as <-. by apply level_counts; [level|unfold dispatching; rewrite Hk|unfold confirming; rewrite Hk, Hd].
    + apply reject_if_ok in H as [Hr H]. injection H as <-. apply Z.leb_gt in Hr.
      constructor; unfold dispatching, confirming; rewrite ?Hk, ?Hd; simpl; try done; [lia|by left].
    + case_match; injection H as <-; by apply level_counts; [level|unfold dispatching; rewrite Hk|unfold confirming; rewrite Hk, Hd].
    + injection H as <-. by apply level_counts; [level|unfold dispatching; rewrite Hk|unfold confirming; rewrite Hk, Hd].
  - injection H as <-. leveled Hk.
Qed.

(** What the counters of an effect say of the events that led to it. *)
Record tallied (c : Call) (evs : list Event) (e : Effect) : Prop := MkTallied {
  ta_replayed : replayed c e;
  ta_attempts : zlen (ef_Attempts e) = tally dispatching evs;
  ta_length : zlen (ef_Attempts e) <= 1 + ef_AutomaticRetriesUsed e + tally confirming evs;
  ta_automatic : 0 <= ef_AutomaticRetriesUsed e <= ca_MaxAutomaticRetries c /\ ef_AutomaticRetriesUsed e <= tally failing evs;
  ta_confirmed : ef_ConfirmationRetriesUsed e = tally confirming evs /\ tally confirming evs <= ca_MaxConfirmationRetries c;
}.

Section policy.
Context `{N : Normalizer}.

Definition any_event (e : Effect) (ev : Event) : Prop := True.
Lemma Apply_replayed gw c e ev t : replayed c e -> Apply gw e ev = Ok t -> replayed c (tn_Effect t).
Proof.
  intros HR H. apply Apply_parts in H as (n & t' & Hv & _ & _ & _ & _ & Ht & _ & ->). apply transition_follows in Ht as [Hf Hc].
  apply snapshot_iff in Hv as ([Hcf _ _ _] & Hcnt & _ & _). unfold call_fields in Hcf. unfold counters in Hcnt.
  assert (ef_ConfirmationRetriesUsed e <= 16) by lia. pose proof (replayed_step _ _ _ HR ltac:(done) Hc Hf) as [R1 R2 R3 R4 R5 R6]. by constructor.
Qed.
(** Only the event that begins a dispatch issues a dispatch. *)
Lemma only_begin_dispatches b e ev t : transition b e ev = Ok t -> tn_Dispatch t = None \/ begin_dispatch e = Ok t.
Proof.
  unfold transition. intros Ht. destruct (ev_Kind ev); [by right|left..].
  - unfold negotiation_recorded in Ht. destruct (CurrentAttempt e). apply reject_if_ok in Ht as [_ Ht]. by injection Ht as <-.
  - unfold provider_accepted in Ht. destruct (CurrentAttempt e). apply reject_if_ok in Ht as [_ Ht]. by injection Ht as <-.
  - unfold output_chunk in Ht. destruct (CurrentAttempt e). do 2 apply reject_if_ok in Ht as [_ Ht]. by injection Ht as <-.
  - unfold call_committed in Ht. destruct (CurrentAttempt e). destruct (ef_State e); try done; do 2 apply reject_if_ok in Ht as [_ Ht]; by injection Ht as <-.
  - unfold settlement_completed in Ht. apply reject_if_ok in Ht as [_ Ht]. by injection Ht as <-.
  - apply bind_ok in Ht as (e' & _ & Ht). by injection Ht as <-.
  - unfold cancel_requested in Ht. destruct (CurrentAttempt e). destruct (ef_State e); try done;
      repeat match type of Ht with context [if ?x then _ else _] => destruct x end; try done; by injection Ht as <-.
  - unfold cancellation_resolved in Ht. apply reject_if_ok in Ht as [_ Ht]. destruct (CurrentAttempt e). apply reject_if_ok in Ht as [_ Ht].
    destruct (ev_Cancellation ev); repeat match type of Ht with context [if ?x then _ else _] => destruct x end; try done; try (by injection Ht as <-).
    apply bind_ok in Ht as (e' & _ & Ht). by injection Ht as <-.
  - unfold recovery_observed in Ht. cbv zeta in Ht. apply bind_ok in Ht as ([] & _ & Ht). apply reject_if_ok in Ht as [_ Ht]. apply bind_ok in Ht as (e' & _ & Ht).
    by injection Ht as <-.
  - unfold confirmation_decided in Ht. apply reject_if_ok in Ht as [_ Ht]. destruct (ev_Decision ev); try (by injection Ht as <-).
    + apply reject_if_ok in Ht as [_ Ht]. by injection Ht as <-.
    + case_match; by injection Ht as <-.
  - by injection Ht as <-.
Qed.
(** The command that is sent for an attempt of a call. *)
Definition call_command (c : Call) (attempt : Z) : DispatchCommand :=
  MkDispatch (ca_Scope c) (serverForEffect c) (ca_ToolName c) (ca_InputCanonical c) (va_InvocationID (ca_Scope c)) (ca_RequestDigest c) (ca_ReplayPolicy c)
    (if ca_ReplayPolicy c == ReplayIdempotencyKey then id_value (va_InvocationID (ca_Scope c)) else "") attempt.
Lemma dispatch_exact gw c e ev t d : replayed c e -> Apply gw e ev = Ok t -> tn_Dispatch t = Some d ->
  d = call_command c (u32 (zlen (ef_Attempts e) + 1)) /\ dispatching ev = true /\
  exists a, ef_Attempts (tn_Effect t) = ef_Attempts e ++ [a] /\ at_Attempt a = dc_Attempt d.
Proof.
  intros [<- _ _ _ _ _] H Hd. apply Apply_parts in H as (n & t' & _ & _ & _ & _ & _ & Ht & _ & ->). simpl in Hd. assert (Ht' := Ht).
  apply only_begin_dispatches in Ht as [Ht|Ht]; [congruence|].
  unfold begin_dispatch in Ht. do 2 apply reject_if_ok in Ht as [_ Ht]. injection Ht as <-. injection Hd as <-. simpl. split; [done|]. split; [|by eexists].
  apply transition_counts, ct_attempts in Ht'. simpl in Ht'. rewrite zlen_snoc in Ht'. destruct (dispatching ev); [done|lia].
Qed.
Lemma Apply_tallied gw c evs e ev t : tallied c evs e -> Apply gw e ev = Ok t -> tallied c (evs ++ [ev]) (tn_Effect t).
Proof.
  intros [T1 T2 T3 [T4 T5] [T6 T7]] H. pose proof (Apply_replayed _ _ _ _ _ T1 H) as HR. apply Apply_parts in H as (n & t' & Hv & _ & _ & _ & _ & Ht & _ & ->).
  apply transition_counts in Ht as [C1 C2 C3 C4 C5]. apply snapshot_iff in Hv as ([Hcf _ _ _] & Hcnt & _ & _). unfold call_fields in Hcf. unfold counters in Hcnt.
  destruct T1 as [<- R2 _ _ _ _]. assert (Hconf : ef_ConfirmationRetriesUsed (tn_Effect t') = ef_ConfirmationRetriesUsed e + (if confirming ev then 1 else 0))
    by (rewrite C4; destruct (confirming ev); [apply u32_id|]; lia).
  assert (Hauto : ef_AutomaticRetriesUsed (tn_Effect t') = ef_AutomaticRetriesUsed e \/
    failing ev = true /\ ef_AutomaticRetriesUsed e < ca_MaxAutomaticRetries (ef_Call e) /\ ef_AutomaticRetriesUsed (tn_Effect t') = ef_AutomaticRetriesUsed e + 1)
    by (destruct C3 as [?|(? & ? & C3)]; [by left|right; rewrite u32_id in C3 by lia; done]).
  constructor; [done|..]; simpl; rewrite ?tally_snoc.
  - lia.
  - destruct (dispatching ev) eqn:Hd; [specialize (C2 eq_refl)|]; destruct (confirming ev); lia.
  - destruct Hauto as [Ha|(Hf & Hlt & Ha)]; rewrite ?Hf; [|lia]. destruct (failing ev); lia.
  - rewrite Hconf. destruct (confirming ev) eqn:Hc; [specialize (C5 eq_refl)|]; lia.
Qed.
Lemma admitted_tallied gw c : validateEffect gw (admitted c) = Ok tt -> tallied c [] (admitted c).
Proof.
  intros Hv. apply snapshot_iff in Hv as (_ & Hcnt & _ & _). unfold counters in Hcnt. simpl in Hcnt. constructor; [by constructor|..]; unfold tally, zlen; simpl; lia.
Qed.
Lemma play_tallied gw c evs : forall past e e', tallied c past e -> play gw e evs = Ok e' -> tallied c (past ++ evs) e'.
Proof.
  induction evs as [|ev evs IH]; intros past e e' Ht H; cbn [play] in H; [injection H as <-; by rewrite app_nil_r|]. apply bind_ok in H as (t & Hap & H).
  rewrite (cons_middle ev past evs), app_assoc. eapply IH; [by eapply Apply_tallied|done].
Qed.

(** C14: An MCP call is repeated only as its tool's policy allows, whatever events are
    accepted after its admission. Each attempt was begun by a dispatch; beyond the first, the
    attempts are no more than the automatic retries (each used up by a reported failure, and
    bounded by the registration) and the retries that the user confirmed (bounded by the
    registration, and none without the confirmation policy). A tool that must not be
    replayed is dispatched again only when each earlier attempt is known not to have been
    sent; under the confirmation policy the earlier attempts that may have been sent are no
    more than the confirmations. What is dispatched is always the admitted call: its scope,
    server, tool, input and digest, with the next number and, for the idempotency policy,
    the key that is the same for all attempts. *)
Theorem mcp_replay_policy gw c evs e : validateEffect gw (admitted c) = Ok tt -> play gw (admitted c) evs = Ok e ->
  zlen (ef_Attempts e) = tally dispatching evs /\
  zlen (ef_Attempts e) <= 1 + ef_AutomaticRetriesUsed e + tally confirming evs /\
  ef_AutomaticRetriesUsed e <= ca_MaxAutomaticRetries c /\ ef_AutomaticRetriesUsed e <= tally failing evs /\
  tally confirming evs <= ca_MaxConfirmationRetries c /\ (ca_ReplayPolicy c <> ReplayConfirm -> tally confirming evs = 0) /\
  (ca_ReplayPolicy c = ReplayNever -> Forall (fun a => at_Failure a = FailureDefinitelyNotSent) (earlier e)) /\
  (ca_ReplayPolicy c = ReplayConfirm -> possibly_sent (earlier e) <= tally confirming evs) /\
  (forall ev t d, Apply gw e ev = Ok t -> tn_Dispatch t = Some d ->
    d = call_command c (u32 (zlen (ef_Attempts e) + 1)) /\ exists a, ef_Attempts (tn_Effect t) = ef_Attempts e ++ [a] /\ at_Attempt a = dc_Attempt d).
Proof.
  intros Hv Hp. destruct (play_tallied gw c evs [] _ _ (admitted_tallied _ _ Hv) Hp) as [HR T2 T3 [T4 T5] [T6 T7]]. rewrite app_nil_l in *.
  pose proof HR as [R1 R2 R3 R4 R5 R6]. split_and!; try done; try lia.
  - intros Hpol. by rewrite <- T6, R3.
  - intros Hpol. apply possibly_sent_none. specialize (R4 (or_introl Hpol)). rewrite R3 in R4 by congruence.
    pose proof (zlen_nonneg (List.filter (fun a => at_Failure a != FailureDefinitelyNotSent) (earlier e))). unfold possibly_sent in *. lia.
  - intros Hpol. specialize (R4 (or_intror Hpol)). lia.
  - intros ev t d Hap Hd. by destruct (dispatch_exact _ _ _ _ _ _ HR Hap Hd) as (? & _ & ?).
Qed.

(** ** Final outcomes *)
Lemma committed_step b e ev t : committed_state (ef_State e) \/ ef_State e = StateCancelled -> validateEvent b e ev <> Err ErrInvalidRequest -> transition b e ev = Ok t ->
  ef_State e = StateExternallyCommitted /\ t = MkTransition (set_state StateCompleted e) None None.
Proof.
  intros Hs Hk Ht. unfold transition in Ht. unfold committed_state in Hs.
  destruct (ev_Kind ev) eqn:Hkind.
  - unfold begin_dispatch in Ht. apply reject_if_ok in Ht as [Hr _]. bools in Hr. destruct Hr as [[Hr|Hr] _]; rewrite Hr in Hs; destruct Hs as [[|]|]; done.
  - unfold negotiation_recorded in Ht. destruct (CurrentAttempt e). apply reject_if_ok in Ht as [Hr _]. bools in Hr. destruct Hr as [[[[[[Hr _] _] _] _] _] _]. rewrite Hr in Hs. destruct Hs as [[|]|]; done.
  - unfold provider_accepted in Ht. destruct (CurrentAttempt e). apply reject_if_ok in Ht as [Hr _]. bools in Hr. destruct Hr as [[[[[Hr _] _] _] _] _]. rewrite Hr in Hs. destruct Hs as [[|]|]; done.
  - unfold output_chunk in Ht. destruct (CurrentAttempt e). apply reject_if_ok in Ht as [Hr _]. bools in Hr. destruct Hr as [[[Hr|Hr] _] _]; rewrite Hr in Hs; destruct Hs as [[|]|]; done.
  - unfold call_committed in Ht. by destruct Hs as [[Hs|Hs]|Hs]; rewrite Hs in Ht.
  - unfold settlement_completed in Ht. apply reject_if_ok in Ht as [Hr Ht]. bools in Hr. injection Ht as <-. split; [tauto|done].
  - apply bind_ok in Ht as (e' & He & _). unfold applyFailure in He. destruct (CurrentAttempt e) as [a ok]. destruct ok; [|done]. simpl negb in He. cbv iota zeta in He.
    by destruct Hs as [[Hs|Hs]|Hs]; rewrite Hs in He; destruct (ev_Failure ev).
  - unfold cancel_requested in Ht. destruct (CurrentAttempt e). by destruct Hs as [[Hs|Hs]|Hs]; rewrite Hs in Ht.
  - unfold cancellation_resolved in Ht. apply reject_if_ok in Ht as [Hr _]. bools in Hr. rewrite Hr in Hs. destruct Hs as [[|]|]; done.
  - unfold recovery_observed in Ht. by destruct Hs as [[Hs|Hs]|Hs]; rewrite Hs in Ht.
  - unfold confirmation_decided in Ht. apply reject_if_ok in Ht as [Hr _]. bools in Hr. destruct Hr as [Hr _]. rewrite Hr in Hs. destruct Hs as [[|]|]; done.
  - exfalso. apply Hk. unfold validateEvent. by rewrite Hkind.
Qed.
(** C15: A recorded outcome is final. Whatever events follow, an MCP effect whose result was
    committed keeps that result, its commit identity and its attempts, and goes on only to
    completion; a completed or cancelled effect never changes again. *)
Theorem mcp_outcome_final gw e e' : history gw any_event e e' ->
  (committed_state (ef_State e) -> committed_state (ef_State e') /\ ef_Output e' = ef_Output e /\ ef_ExternalCommitID e' = ef_ExternalCommitID e /\
     ef_Attempts e' = ef_Attempts e) /\
  (ef_State e = StateCompleted \/ ef_State e = StateCancelled -> e' = e).
Proof.
  induction 1 as [|e1 ev t _ [IH1 IH2] _ Ht]; [done|]. apply Apply_parts in Ht as (n & t' & _ & _ & _ & _ & Hn & Ht & _ & ->). split.
  - intros Hs. destruct (IH1 Hs) as (Hc & H1 & H2 & H3). apply committed_step in Ht as [_ ->]; [|by left|congruence]. simpl. split_and!; try done. by right.
  - intros Hs. specialize (IH2 Hs) as ->. apply committed_step in Ht as [Hs' _]; [|destruct Hs; [left; by right|by right]|congruence].
    destruct Hs; congruence.
Qed.
End policy.
