(* ===== verification/McpStore.v ===== *)
(** * MCP gateway: the reference repository ([internal/mcpgateway/repository.go])

    [MemoryRepository]: the effects by invocation, the current authority and the active
    effect of each turn, the claims on dispatches, provider starts and cancellations, the
    requests of servers, and the audit outbox. An operation that fails leaves the
    repository as it was, except for [ClaimServerRequest] at its limit. [ctx] is the error
    of the context and [now] the clock in nanoseconds. Slices that are nil and slices that
    are empty are not told apart. *)

From S2P Require Import Prelude GoText GoCrypto Identity BrokerTypes McpGateway.
#[local] Open Scope string_scope.
#[local] Open Scope list_scope.
#[local] Open Scope Z_scope.
#[local] Open Scope go_scope.

Abbreviation Context := (option mcp_error) (only parsing).
Definition check_ctx (ctx : Context) : res mcp_error unit := match ctx with Some e => Err e | None => Ok tt end.

(** ** Permits *)
Record ToolAuthorizationPermit := MkAuthorization {
  ta_Proof : Digest; ta_Durable : bool; ta_Scope : ValidatedAuthority; ta_ServerID : string; ta_ToolName : string; ta_RequestDigest : Digest;
}.
#[global] Instance ToolAuthorizationPermit_eq_dec : EqDecision ToolAuthorizationPermit.
Proof. solve_decision. Defined.
Definition no_authorization : ToolAuthorizationPermit := MkAuthorization zero_digest false no_authority "" "" zero_digest.
Definition validAuthorizationPermit (p : ToolAuthorizationPermit) (scope : ValidatedAuthority) (serverID toolName : string) (digest : Digest) : bool :=
  ta_Durable p && (ta_Proof p != zero_digest) && (ta_Scope p == scope) && (ta_ServerID p == serverID) && (ta_ToolName p == toolName)
  && (ta_RequestDigest p == digest).

Record DispatchPermit := MkDispatchPermit {
  dp_Proof : Digest; dp_Durable : bool; dp_Scope : ValidatedAuthority; dp_InvocationID : ID; dp_RequestDigest : Digest; dp_ProviderID : string;
  dp_Attempt : Z; dp_EffectRevision : Z; dp_Authorization : ToolAuthorizationPermit;
}.
#[global] Instance DispatchPermit_eq_dec : EqDecision DispatchPermit.
Proof. solve_decision. Defined.
Definition no_dispatch : DispatchPermit := MkDispatchPermit zero_digest false no_authority no_id zero_digest "" 0 0 no_authorization.

Record ProviderStartPermit := MkStartPermit {
  ps_Proof : Digest; ps_Durable : bool; ps_Scope : ValidatedAuthority; ps_InvocationID : ID; ps_RequestDigest : Digest; ps_ProviderID : string;
  ps_Attempt : Z; ps_EffectRevision : Z; ps_ClaimGeneration : Z; ps_LeaseExpires : Z; ps_Dispatch : DispatchPermit; ps_Negotiation : StartNegotiationReceipt;
}.
#[global] Instance ProviderStartPermit_eq_dec : EqDecision ProviderStartPermit.
Proof. solve_decision. Defined.
Definition no_start : ProviderStartPermit := MkStartPermit zero_digest false no_authority no_id zero_digest "" 0 0 0 0 no_dispatch no_negotiation.
Inductive providerStartStatus := providerStartActive | providerStartCompleted | providerStartRevoked.
#[global] Instance providerStartStatus_eq_dec : EqDecision providerStartStatus.
Proof. solve_decision. Defined.
Record providerStartRecord := MkStartRecord { sr_Permit : ProviderStartPermit; sr_Status : providerStartStatus }.

Record ServerRequestPermit := MkRequestPermit {
  rq_Proof : Digest; rq_Durable : bool; rq_Scope : ValidatedAuthority; rq_ParentInvocationID : ID; rq_ProviderRequestID : string;
  rq_ConnectionGeneration : Z; rq_RequestID : string; rq_RequestDigest : Digest; rq_ChildEffectID : ID; rq_ChildInvocationID : ID;
  rq_ClaimGeneration : Z; rq_LeaseExpires : Z;
}.
#[global] Instance ServerRequestPermit_eq_dec : EqDecision ServerRequestPermit.
Proof. solve_decision. Defined.
Definition no_request_permit : ServerRequestPermit := MkRequestPermit zero_digest false no_authority no_id "" 0 "" zero_digest no_id no_id 0 0.

Record CancellationPermit := MkCancellationPermit {
  cp_Proof : Digest; cp_Durable : bool; cp_Scope : ValidatedAuthority; cp_InvocationID : ID; cp_RequestDigest : Digest; cp_ProviderID : string;
  cp_ProviderRequestID : string; cp_Attempt : Z; cp_EffectRevision : Z; cp_ClaimGeneration : Z; cp_LeaseExpires : Z; cp_Start : ProviderStartPermit;
  cp_ServerRequest : ServerRequestPermit; cp_ServerRequestMethod : string;
}.
#[global] Instance CancellationPermit_eq_dec : EqDecision CancellationPermit.
Proof. solve_decision. Defined.
Definition no_cancellation : CancellationPermit :=
  MkCancellationPermit zero_digest false no_authority no_id zero_digest "" "" 0 0 0 0 no_start no_request_permit "".

(** ** Requests of servers *)
Record SamplingCancellationReceipt := MkSamplingReceipt {
  sc_Proof : Digest; sc_Durable : bool; sc_Scope : ValidatedAuthority; sc_ParentEffectID : ID; sc_ParentInvocationID : ID; sc_ChildEffectID : ID;
  sc_ChildInvocationID : ID; sc_RequestDigest : Digest; sc_ClaimProof : Digest;
}.
#[global] Instance SamplingCancellationReceipt_eq_dec : EqDecision SamplingCancellationReceipt.
Proof. solve_decision. Defined.
Definition no_sampling_receipt : SamplingCancellationReceipt := MkSamplingReceipt zero_digest false no_authority no_id no_id no_id no_id zero_digest zero_digest.
Record ElicitationCancellationReceipt := MkElicitationReceipt {
  el_Proof : Digest; el_Durable : bool; el_Scope : ValidatedAuthority; el_ParentEffectID : ID; el_ParentInvocationID : ID; el_RequestDigest : Digest;
  el_ClaimProof : Digest;
}.
#[global] Instance ElicitationCancellationReceipt_eq_dec : EqDecision ElicitationCancellationReceipt.
Proof. solve_decision. Defined.
Definition no_elicitation_receipt : ElicitationCancellationReceipt := MkElicitationReceipt zero_digest false no_authority no_id no_id zero_digest zero_digest.
(** A cancellation request of either broker: the fields are the same. *)
Record ChildCancellationRequest := MkChildCancellation {
  ccr_Scope : ValidatedAuthority; ccr_ParentEffectID : ID; ccr_ParentInvocationID : ID; ccr_RequestDigest : Digest; ccr_Claim : ServerRequestPermit;
}.
Definition validSamplingCancellationReceipt (receipt : SamplingCancellationReceipt) (request : ChildCancellationRequest) : bool :=
  let claim := ccr_Claim request in
  sc_Durable receipt && (sc_Proof receipt != zero_digest) && (sc_Scope receipt == ccr_Scope request)
  && (sc_ParentEffectID receipt == ccr_ParentEffectID request) && (sc_ParentInvocationID receipt == ccr_ParentInvocationID request)
  && (sc_ChildEffectID receipt == rq_ChildEffectID claim) && (sc_ChildInvocationID receipt == rq_ChildInvocationID claim)
  && (sc_RequestDigest receipt == ccr_RequestDigest request) && (sc_RequestDigest receipt == rq_RequestDigest claim)
  && (sc_ClaimProof receipt == rq_Proof claim) && rq_Durable claim && (rq_Proof claim != zero_digest)
  && (rq_ParentInvocationID claim == ccr_ParentInvocationID request) && (id_kind (rq_ChildEffectID claim) == "effect")
  && (id_kind (rq_ChildInvocationID claim) == "inv").
Definition validElicitationCancellationReceipt (receipt : ElicitationCancellationReceipt) (request : ChildCancellationRequest) : bool :=
  let claim := ccr_Claim request in
  el_Durable receipt && (el_Proof receipt != zero_digest) && (el_Scope receipt == ccr_Scope request)
  && (el_ParentEffectID receipt == ccr_ParentEffectID request) && (el_ParentInvocationID receipt == ccr_ParentInvocationID request)
  && (el_RequestDigest receipt == ccr_RequestDigest request) && (el_RequestDigest receipt == rq_RequestDigest claim)
  && (el_ClaimProof receipt == rq_Proof claim) && rq_Durable claim && (rq_Proof claim != zero_digest)
  && (rq_ParentInvocationID claim == ccr_ParentInvocationID request).

Record ServerResponse := MkResponse { rs_RequestID : string; rs_ResultCanonical : bytes; rs_Error : option (Z * string) }.
#[global] Instance ServerResponse_eq_dec : EqDecision ServerResponse.
Proof. solve_decision. Defined.
Inductive ServerRequestRecordState := ServerRequestClaimed | ServerRequestCompleted | ServerRequestAbandoned.
#[global] Instance ServerRequestRecordState_eq_dec : EqDecision ServerRequestRecordState.
Proof. solve_decision. Defined.
Definition sampling_method : string := "sampling/createMessage".
Definition elicitation_method : string := "elicitation/create".
Definition roots_method : string := "roots/list".
Definition brokered (method : string) : bool := (method == sampling_method) || (method == elicitation_method).
Record ServerRequestRecord := MkRequestRecord {
  rr_State : ServerRequestRecordState; rr_ParentInvocationID : ID; rr_ProviderRequestID : string; rr_ConnectionGeneration : Z; rr_RequestID : string;
  rr_Method : string; rr_RequestDigest : Digest; rr_BrokerCancellationRequired : bool; rr_Response : ServerResponse; rr_Permit : ServerRequestPermit;
  rr_ChildCancellation : SamplingCancellationReceipt; rr_ElicitationCancellation : ElicitationCancellationReceipt; rr_AuditSequence : Z;
}.
Definition set_rr_state (s : ServerRequestRecordState) (r : ServerRequestRecord) : ServerRequestRecord :=
  MkRequestRecord s (rr_ParentInvocationID r) (rr_ProviderRequestID r) (rr_ConnectionGeneration r) (rr_RequestID r) (rr_Method r) (rr_RequestDigest r)
    (rr_BrokerCancellationRequired r) (rr_Response r) (rr_Permit r) (rr_ChildCancellation r) (rr_ElicitationCancellation r) (rr_AuditSequence r).
Definition set_rr_permit (p : ServerRequestPermit) (r : ServerRequestRecord) : ServerRequestRecord :=
  MkRequestRecord (rr_State r) (rr_ParentInvocationID r) (rr_ProviderRequestID r) (rr_ConnectionGeneration r) (rr_RequestID r) (rr_Method r)
    (rr_RequestDigest r) (rr_BrokerCancellationRequired r) (rr_Response r) p (rr_ChildCancellation r) (rr_ElicitationCancellation r) (rr_AuditSequence r).
Definition set_rr_audit (n : Z) (r : ServerRequestRecord) : ServerRequestRecord :=
  MkRequestRecord (rr_State r) (rr_ParentInvocationID r) (rr_ProviderRequestID r) (rr_ConnectionGeneration r) (rr_RequestID r) (rr_Method r)
    (rr_RequestDigest r) (rr_BrokerCancellationRequired r) (rr_Response r) (rr_Permit r) (rr_ChildCancellation r) (rr_ElicitationCancellation r) n.
Definition set_rr_receipts (s : SamplingCancellationReceipt) (el : ElicitationCancellationReceipt) (r : ServerRequestRecord) : ServerRequestRecord :=
  MkRequestRecord (rr_State r) (rr_ParentInvocationID r) (rr_ProviderRequestID r) (rr_ConnectionGeneration r) (rr_RequestID r) (rr_Method r)
    (rr_RequestDigest r) (rr_BrokerCancellationRequired r) (rr_Response r) (rr_Permit r) s el (rr_AuditSequence r).
Definition set_rr_response (response : ServerResponse) (r : ServerRequestRecord) : ServerRequestRecord :=
  MkRequestRecord ServerRequestCompleted (rr_ParentInvocationID r) (rr_ProviderRequestID r) (rr_ConnectionGeneration r) (rr_RequestID r) (rr_Method r)
    (rr_RequestDigest r) (rr_BrokerCancellationRequired r) response (rr_Permit r) (rr_ChildCancellation r) (rr_ElicitationCancellation r) (rr_AuditSequence r).
(** A claim taken over: the scope and the lease of the new owner, the next generation. *)
Definition take_over (p : ServerRequestPermit) (scope : ValidatedAuthority) (expires : Z) : ServerRequestPermit :=
  MkRequestPermit (rq_Proof p) (rq_Durable p) scope (rq_ParentInvocationID p) (rq_ProviderRequestID p) (rq_ConnectionGeneration p) (rq_RequestID p)
    (rq_RequestDigest p) (rq_ChildEffectID p) (rq_ChildInvocationID p) (u64 (rq_ClaimGeneration p + 1)) expires.

(** ** Audits *)
Record AuditEvent := MkAuditEvent {
  ae_OutboxSequence : Z; ae_TenantID : ID; ae_UserID : ID; ae_SessionID : ID; ae_TurnID : ID; ae_InvocationID : ID; ae_ServerID : string;
  ae_Method : string; ae_Decision : string; ae_Reason : string;
}.
Record AuditEnvelope := MkEnvelope { an_Sequence : Z; an_Event : AuditEvent }.
Definition normalizedServerRequestAuditMethod (method : string) : string := if brokered method || (method == roots_method) then method else "unsupported".
Definition request_audit (e : Effect) (method decision reason : string) : AuditEvent :=
  let s := ca_Scope (ef_Call e) in
  MkAuditEvent 0 (va_TenantID s) (va_UserID s) (va_SessionID s) (va_TurnID s) (va_InvocationID s) (ca_ServerID (ef_Call e))
    (normalizedServerRequestAuditMethod method) decision reason.
Definition serverRequestAbandonAudit (e : Effect) (r : ServerRequestRecord) : AuditEvent :=
  request_audit e (rr_Method r) "failed" "server request abandoned before completion".

(** ** The repository *)
Abbreviation scopeKey := (ID * ID * ID)%type (only parsing).
Abbreviation serverRequestKey := (ID * string * Z * string)%type (only parsing).
Record Claims := MkClaims {
  cl_dispatches : gmap string DispatchPermit; cl_starts : gmap string providerStartRecord; cl_cancellations : gmap string CancellationPermit;
}.
Record Children := MkChildren {
  ch_requests : gmap serverRequestKey ServerRequestRecord; ch_counts : gmap string Z; ch_limits : gmap string Z;
  ch_active : gmap string serverRequestKey; ch_reconciliations : gmap string serverRequestKey;
  ch_permits : gmap serverRequestKey ServerRequestPermit; ch_parents : gmap string serverRequestKey;
}.
Record Outbox := MkOutbox { ob_pending : gmap Z AuditEnvelope; ob_sequence : Z }.
Record MemoryRepository := MkRepository {
  rp_effects : gmap string Effect; rp_scopes : gmap scopeKey ValidatedAuthority; rp_active : gmap scopeKey string; rp_claims : Claims;
  rp_children : Children; rp_outbox : Outbox; rp_nonce : Z;
}.
Definition NewMemoryRepository : MemoryRepository := MkRepository ∅ ∅ ∅ (MkClaims ∅ ∅ ∅) (MkChildren ∅ ∅ ∅ ∅ ∅ ∅ ∅) (MkOutbox ∅ 0) 0.
Definition Durability : RepositoryDurability := MkDurability false true true true true true true true true true true true true.

Definition set_effect (key : string) (e : Effect) (r : MemoryRepository) : MemoryRepository :=
  MkRepository (<[key := e]> (rp_effects r)) (rp_scopes r) (rp_active r) (rp_claims r) (rp_children r) (rp_outbox r) (rp_nonce r).
Definition set_scope (key : scopeKey) (s : ValidatedAuthority) (r : MemoryRepository) : MemoryRepository :=
  MkRepository (rp_effects r) (<[key := s]> (rp_scopes r)) (rp_active r) (rp_claims r) (rp_children r) (rp_outbox r) (rp_nonce r).
Definition with_active (active : gmap scopeKey string) (r : MemoryRepository) : MemoryRepository :=
  MkRepository (rp_effects r) (rp_scopes r) active (rp_claims r) (rp_children r) (rp_outbox r) (rp_nonce r).
Definition with_claims (c : Claims) (r : MemoryRepository) : MemoryRepository :=
  MkRepository (rp_effects r) (rp_scopes r) (rp_active r) c (rp_children r) (rp_outbox r) (rp_nonce r).
Definition with_children (c : Children) (r : MemoryRepository) : MemoryRepository :=
  MkRepository (rp_effects r) (rp_scopes r) (rp_active r) (rp_claims r) c (rp_outbox r) (rp_nonce r).
Definition with_outbox (o : Outbox) (r : MemoryRepository) : MemoryRepository :=
  MkRepository (rp_effects r) (rp_scopes r) (rp_active r) (rp_claims r) (rp_children r) o (rp_nonce r).
Definition with_nonce (n : Z) (r : MemoryRepository) : MemoryRepository :=
  MkRepository (rp_effects r) (rp_scopes r) (rp_active r) (rp_claims r) (rp_children r) (rp_outbox r) n.
Definition set_dispatch (key : string) (p : DispatchPermit) (r : MemoryRepository) : MemoryRepository :=
  with_claims (MkClaims (<[key := p]> (cl_dispatches (rp_claims r))) (cl_starts (rp_claims r)) (cl_cancellations (rp_claims r))) r.
Definition set_start (key : string) (p : providerStartRecord) (r : MemoryRepository) : MemoryRepository :=
  with_claims (MkClaims (cl_dispatches (rp_claims r)) (<[key := p]> (cl_starts (rp_claims r))) (cl_cancellations (rp_claims r))) r.
Definition with_cancellations (m : gmap string CancellationPermit) (r : MemoryRepository) : MemoryRepository :=
  with_claims (MkClaims (cl_dispatches (rp_claims r)) (cl_starts (rp_claims r)) m) r.
Definition set_request_record (key : serverRequestKey) (record : ServerRequestRecord) (c : Children) : Children :=
  MkChildren (<[key := record]> (ch_requests c)) (ch_counts c) (ch_limits c) (ch_active c) (ch_reconciliations c) (ch_permits c) (ch_parents c).
Definition with_child_active (m : gmap string serverRequestKey) (c : Children) : Children :=
  MkChildren (ch_requests c) (ch_counts c) (ch_limits c) m (ch_reconciliations c) (ch_permits c) (ch_parents c).
Definition with_child_limit (key : string) (count limit : Z) (c : Children) : Children :=
  MkChildren (ch_requests c) (<[key := count]> (ch_counts c)) (<[key := limit]> (ch_limits c)) (ch_active c) (ch_reconciliations c) (ch_permits c)
    (ch_parents c).
Definition with_reconciliations (m : gmap string serverRequestKey) (p : gmap serverRequestKey ServerRequestPermit) (c : Children) : Children :=
  MkChildren (ch_requests c) (ch_counts c) (ch_limits c) (ch_active c) m p (ch_parents c).
Definition with_parents (m : gmap string serverRequestKey) (c : Children) : Children :=
  MkChildren (ch_requests c) (ch_counts c) (ch_limits c) (ch_active c) (ch_reconciliations c) (ch_permits c) m.

(** ** Keys, fences and audits *)
Definition be_bytes (n : nat) (z : Z) : bytes := map (fun i => to_byte (Z.shiftr z (8 * Z.of_nat i))) (rev (seq 0 n)).
Definition keyForScope (s : ValidatedAuthority) : scopeKey := (va_TenantID s, va_SessionID s, va_TurnID s).
Definition sameFence (left right : ValidatedAuthority) : bool :=
  (va_TenantID left == va_TenantID right) && (va_UserID left == va_UserID right) && (va_SessionID left == va_SessionID right)
  && (va_WorkspaceID left == va_WorkspaceID right) && (va_TurnID left == va_TurnID right) && (va_RuntimeRevision left == va_RuntimeRevision right)
  && (va_Generations left == va_Generations right).
Definition dispatchClaimKey (invocation : string) (attempt : Z) : string := invocation +:+ of_bytes (be_bytes 4 attempt).
Definition effect_key (e : Effect) : string := id_value (va_InvocationID (ca_Scope (ef_Call e))).
Definition effect_scope (e : Effect) : scopeKey := keyForScope (ca_Scope (ef_Call e)).
Definition sameImmutableEffect (left right : Effect) : bool := ef_Call left == ef_Call right.
(** The request names the effect's own scope, and the turn's authority has not moved on. *)
Definition fenced (r : MemoryRepository) (e : Effect) (current : ValidatedAuthority) : bool :=
  sameOperationScope current (ca_Scope (ef_Call e)) && sameFence (default no_authority (rp_scopes r !! effect_scope e)) current.
Definition expires (now lease : Z) : Z := i64 (now + lease).
Definition bad_lease (lease : Z) : bool := (lease <=? 0) || (30 * 1000000000 <? lease).
Definition retainsLateProviderOwner (e : Effect) : bool :=
  match ef_State e with
  | StateUncertain => true
  | StateFailed => let '(attempt, ok) := CurrentAttempt e in ok && (at_Failure attempt == FailureUnknown)
  | _ => false
  end.

Definition enqueue (event : AuditEvent) (o : Outbox) : res mcp_error (AuditEnvelope * Outbox) :=
  _ ← reject_if (ob_sequence o =? u64_max) ErrStoreUnavailable;
  let n := ob_sequence o + 1 in
  let envelope := MkEnvelope n (MkAuditEvent n (ae_TenantID event) (ae_UserID event) (ae_SessionID event) (ae_TurnID event) (ae_InvocationID event)
    (ae_ServerID event) (ae_Method event) (ae_Decision event) (ae_Reason event)) in
  Ok (envelope, MkOutbox (<[n := envelope]> (ob_pending o)) n).
Definition enqueueAuditLocked (event : option AuditEvent) (o : Outbox) : res mcp_error (option AuditEnvelope * Outbox) :=
  match event with None => Ok (None, o) | Some event => '(envelope, o) ← enqueue event o; Ok (Some envelope, o) end.
Definition AppendAudit (ctx : Context) (r : MemoryRepository) (event : AuditEvent) : res mcp_error (AuditEnvelope * MemoryRepository) :=
  _ ← check_ctx ctx;
  '(envelope, o) ← enqueue event (rp_outbox r);
  Ok (envelope, with_outbox o r).
(** The loop over the sequence numbers, from [n] on. *)
Fixpoint pending_from (fuel : nat) (n : Z) (limit : Z) (o : Outbox) : list AuditEnvelope :=
  match fuel with
  | O => []
  | S fuel =>
      if (n <=? ob_sequence o) && (0 <? limit) then
        match ob_pending o !! n with
        | Some envelope => envelope :: pending_from fuel (n + 1) (limit - 1) o
        | None => pending_from fuel (n + 1) limit o
        end
      else []
  end.
Definition PendingAudits (ctx : Context) (r : MemoryRepository) (limit : Z) : res mcp_error (list AuditEnvelope) :=
  _ ← check_ctx ctx;
  _ ← reject_if ((limit =? 0) || (hardMaxEvents <? limit)) ErrInvalidRequest;
  Ok (pending_from (Z.to_nat (ob_sequence (rp_outbox r))) 1 limit (rp_outbox r)).
Definition AcknowledgeAudit (ctx : Context) (r : MemoryRepository) (sequence : Z) : res mcp_error MemoryRepository :=
  _ ← check_ctx ctx;
  _ ← reject_if (sequence =? 0) ErrInvalidRequest;
  Ok (with_outbox (MkOutbox (delete sequence (ob_pending (rp_outbox r))) (ob_sequence (rp_outbox r))) r).
Definition SetCurrentAuthority (r : MemoryRepository) (scope : ValidatedAuthority) : res mcp_error MemoryRepository :=
  _ ← reject_if (negb (validScope scope)) ErrInvalidRequest;
  Ok (set_scope (keyForScope scope) scope r).

(** ** Admission *)
Record StoredEffect := MkStored { st_Effect : Effect; st_Durable : bool; st_Audit : option AuditEnvelope }.
Record AdmissionReplayRequest := MkReplay {
  ar_CurrentScope : ValidatedAuthority; ar_EffectID : ID; ar_InvocationID : ID; ar_RequestDigest : Digest; ar_ServerID : string; ar_ToolName : string;
  ar_InputCanonical : bytes;
}.
Definition ReplayAdmission (ctx : Context) (r : MemoryRepository) (q : AdmissionReplayRequest) : res mcp_error StoredEffect :=
  _ ← check_ctx ctx;
  _ ← reject_if ((id_kind (ar_EffectID q) != "effect") || (id_kind (ar_InvocationID q) != "inv") || (ar_RequestDigest q == zero_digest)
                 || (zlen (ar_InputCanonical q) =? 0)) ErrInvalidRequest;
  e ← from_option Ok (Err ErrInvocationNotFound) (rp_effects r !! id_value (ar_InvocationID q));
  _ ← reject_if (negb (fenced r e (ar_CurrentScope q))) ErrStaleAuthority;
  let c := ef_Call e in
  _ ← reject_if ((va_EffectID (ca_Scope c) != ar_EffectID q) || (ca_RequestDigest c != ar_RequestDigest q) || (ca_ServerID c != ar_ServerID q)
                 || (ca_ToolName c != ar_ToolName q) || (ca_InputCanonical c != ar_InputCanonical q)) ErrInvocationConflict;
  Ok (MkStored e true None).
Definition Admit (ctx : Context) (r : MemoryRepository) (e : Effect) : res mcp_error (StoredEffect * MemoryRepository) :=
  _ ← check_ctx ctx;
  let key := effect_key e in
  let scope := ca_Scope (ef_Call e) in
  match rp_effects r !! key with
  | Some existing =>
      _ ← reject_if (negb (sameImmutableEffect existing e)) ErrInvocationConflict;
      _ ← reject_if (negb (sameFence (default no_authority (rp_scopes r !! effect_scope e)) scope)) ErrStaleAuthority;
      Ok (MkStored existing true None, r)
  | None =>
      _ ← reject_if (match rp_scopes r !! effect_scope e with Some current => negb (sameFence current scope) | None => false end) ErrStaleAuthority;
      _ ← reject_if (match rp_active r !! effect_scope e with Some active => active != key | None => false end) ErrEffectInFlight;
      Ok (MkStored e true None,
          with_active (<[effect_scope e := key]> (rp_active r)) (set_effect key e (set_scope (effect_scope e) scope r)))
  end.
Definition Load (ctx : Context) (r : MemoryRepository) (invocationID : ID) : res mcp_error StoredEffect :=
  _ ← check_ctx ctx;
  _ ← reject_if (id_kind invocationID != "inv") ErrInvalidRequest;
  e ← from_option Ok (Err ErrInvocationNotFound) (rp_effects r !! id_value invocationID);
  Ok (MkStored e true None).

(** ** MCP gateway: claims and commits of the reference repository
    ([internal/mcpgateway/repository.go])

    Dispatches, provider starts and cancellations are claimed under the fence of the
    turn's authority; [Commit] replaces an effect by its successor. *)

Definition find_effect (r : MemoryRepository) (key : string) : res mcp_error Effect := from_option Ok (Err ErrInvocationNotFound) (rp_effects r !! key).
Definition claim_proof (prefix : string) (key : string) (nonce : Z) : Digest := sha256_Sum256 (to_bytes prefix ++ zero :: to_bytes key ++ be_bytes 8 nonce).

(** ** Dispatches *)
Record DispatchClaimRequest := MkDispatchClaim {
  dq_ExpectedRevision : Z; dq_CurrentScope : ValidatedAuthority; dq_Previous : Effect; dq_Next : Effect; dq_Authorization : ToolAuthorizationPermit;
}.
Definition CommitAndClaimDispatch (ctx : Context) (r : MemoryRepository) (q : DispatchClaimRequest) : res mcp_error (DispatchPermit * MemoryRepository) :=
  _ ← check_ctx ctx;
  let key := effect_key (dq_Previous q) in
  let next := dq_Next q in
  current ← find_effect r key;
  let c := ef_Call current in
  _ ← reject_if ((ef_Revision current != dq_ExpectedRevision q) || (current != dq_Previous q)) ErrConcurrentTransition;
  _ ← reject_if (negb (fenced r current (dq_CurrentScope q))) ErrStaleAuthority;
  _ ← reject_if (default "" (rp_active r !! effect_scope current) != key) ErrEffectInFlight;
  _ ← reject_if ((ef_Revision next != u64 (dq_ExpectedRevision q + 1)) || (ef_State next != StateDispatching) || negb (sameImmutableEffect current next)
                 || negb (validAuthorizationPermit (dq_Authorization q) (dq_CurrentScope q) (ca_ServerID c) (ca_ToolName c) (ca_RequestDigest c)))
        ErrInvalidTransition;
  let '(attempt, ok) := CurrentAttempt next in
  _ ← reject_if (negb ok || (at_Attempt attempt =? 0) || (at_Attempt attempt != u32 (zlen (ef_Attempts next)))) ErrInvalidTransition;
  let claimKey := dispatchClaimKey key (at_Attempt attempt) in
  _ ← reject_if (bool_decide (is_Some (cl_dispatches (rp_claims r) !! claimKey))) ErrConcurrentTransition;
  let nonce := u64 (rp_nonce r + 1) in
  let proof := sha256_Sum256 (to_bytes key ++ be_bytes 8 (at_Attempt attempt) ++ be_bytes 8 nonce) in
  let permit := MkDispatchPermit proof true (dq_CurrentScope q) (va_InvocationID (ca_Scope c)) (ca_RequestDigest c) (ca_ProviderID c) (at_Attempt attempt)
    (ef_Revision next) (dq_Authorization q) in
  Ok (permit, set_dispatch claimKey permit (set_effect key next (with_nonce nonce r))).

(** ** Provider starts *)
Record ProviderStartClaimRequest := MkStartClaim {
  pq_CurrentScope : ValidatedAuthority; pq_Effect : Effect; pq_Dispatch : DispatchPermit; pq_Lease : Z;
}.
Definition ClaimProviderStart (ctx : Context) (now : Z) (r : MemoryRepository) (q : ProviderStartClaimRequest)
  : res mcp_error (ProviderStartPermit * MemoryRepository) :=
  _ ← check_ctx ctx;
  _ ← reject_if (bad_lease (pq_Lease q)) ErrInvalidRequest;
  let key := effect_key (pq_Effect q) in
  current ← find_effect r key;
  let c := ef_Call current in
  _ ← reject_if ((current != pq_Effect q) || (ef_State current != StateDispatching) || ef_CancellationRequested current) ErrConcurrentTransition;
  _ ← reject_if (negb (fenced r current (pq_CurrentScope q))) ErrStaleAuthority;
  _ ← reject_if (default "" (rp_active r !! effect_scope current) != key) ErrEffectInFlight;
  let '(attempt, ok) := CurrentAttempt current in
  _ ← reject_if (negb ok || (at_Negotiation attempt == no_negotiation)) ErrInvalidTransition;
  let claimKey := dispatchClaimKey key (at_Attempt attempt) in
  let d := pq_Dispatch q in
  _ ← reject_if ((d == no_dispatch) || (default no_dispatch (cl_dispatches (rp_claims r) !! claimKey) != d) || (dp_Scope d != pq_CurrentScope q)
                 || (dp_InvocationID d != va_InvocationID (ca_Scope c)) || (dp_RequestDigest d != ca_RequestDigest c)
                 || (dp_ProviderID d != ca_ProviderID c) || (dp_Attempt d != at_Attempt attempt)) ErrDispatchNotDurable;
  match cl_starts (rp_claims r) !! claimKey with
  | Some existing =>
      let p := sr_Permit existing in
      _ ← reject_if (negb ((sr_Status existing == providerStartActive) && (ps_Scope p == pq_CurrentScope q) && (ps_EffectRevision p == ef_Revision current)
                           && (ps_Dispatch p == d) && (ps_Negotiation p == at_Negotiation attempt) && (now <? ps_LeaseExpires p))) ErrConcurrentTransition;
      Ok (p, r)
  | None =>
      let nonce := u64 (rp_nonce r + 1) in
      let permit := MkStartPermit (claim_proof "mcp.provider.start" claimKey nonce) true (pq_CurrentScope q) (va_InvocationID (ca_Scope c))
        (ca_RequestDigest c) (ca_ProviderID c) (at_Attempt attempt) (ef_Revision current) 1 (expires now (pq_Lease q)) d (at_Negotiation attempt) in
      Ok (permit, set_start claimKey (MkStartRecord permit providerStartActive) (with_nonce nonce r))
  end.

Record StoredProviderStartResolution := MkResolution {
  rv_Permit : ProviderStartPermit; rv_Present : bool; rv_Durable : bool; rv_Active : bool; rv_RetryAfter : Z;
}.
Definition ResolveProviderStart (ctx : Context) (now : Z) (r : MemoryRepository) (scope : ValidatedAuthority) (e : Effect)
  : res mcp_error (StoredProviderStartResolution * MemoryRepository) :=
  _ ← check_ctx ctx;
  let key := effect_key e in
  current ← find_effect r key;
  _ ← reject_if (current != e) ErrConcurrentTransition;
  _ ← reject_if (negb (fenced r current scope)) ErrStaleAuthority;
  let '(attempt, ok) := CurrentAttempt current in
  _ ← reject_if (negb ok) ErrInvalidTransition;
  let claimKey := dispatchClaimKey key (at_Attempt attempt) in
  match cl_starts (rp_claims r) !! claimKey with
  | None =>
      _ ← reject_if ((ef_State current != StateDispatching) || (at_ProviderRequestID attempt != "")) ErrStoreUnavailable;
      Ok (MkResolution no_start false true false 0, set_start claimKey (MkStartRecord no_start providerStartRevoked) r)
  | Some start =>
      let p := sr_Permit start in
      if (sr_Status start == providerStartRevoked) && (p == no_start) then Ok (MkResolution no_start false true false 0, r)
      else if sr_Status start == providerStartActive then
        if sameFence (ps_Scope p) scope && (now <? ps_LeaseExpires p) then Ok (MkResolution p true true true (i64 (ps_LeaseExpires p - now)), r)
        else Ok (MkResolution p true true false 0, set_start claimKey (MkStartRecord p providerStartRevoked) r)
      else Ok (MkResolution p true true false 0, r)
  end.

(** ** Cancellations *)
Record CancellationClaimRequest := MkCancellationRequest { cq_CurrentScope : ValidatedAuthority; cq_Effect : Effect; cq_Lease : Z }.
Record CancellationClaim := MkCancellationClaim { cm_Permit : CancellationPermit; cm_Fresh : bool; cm_RetryAfter : Z }.
(** The request of a server that was abandoned and whose broker must be cancelled too. *)
Definition pending_child (r : MemoryRepository) (key : string) : res mcp_error (ServerRequestPermit * string) :=
  match ch_reconciliations (rp_children r) !! key with
  | None => Ok (no_request_permit, "")
  | Some child =>
      match ch_requests (rp_children r) !! child, ch_permits (rp_children r) !! child with
      | Some record, Some permit =>
          _ ← reject_if ((rr_State record != ServerRequestAbandoned) || negb (brokered (rr_Method record))) ErrStoreUnavailable;
          Ok (permit, rr_Method record)
      | _, _ => Err ErrStoreUnavailable
      end
  end.
Definition ClaimCancellation (ctx : Context) (now : Z) (r : MemoryRepository) (q : CancellationClaimRequest)
  : res mcp_error (res mcp_error CancellationClaim * MemoryRepository) :=
  _ ← check_ctx ctx;
  _ ← reject_if (bad_lease (cq_Lease q)) ErrInvalidRequest;
  let key := effect_key (cq_Effect q) in
  current ← find_effect r key;
  let c := ef_Call current in
  _ ← reject_if ((current != cq_Effect q) || (ef_State current != StateCancellationPending)) ErrConcurrentTransition;
  _ ← reject_if (negb (fenced r current (cq_CurrentScope q))) ErrStaleAuthority;
  let '(attempt, ok) := CurrentAttempt current in
  _ ← reject_if (negb ok) ErrInvalidTransition;
  let claimKey := dispatchClaimKey key (at_Attempt attempt) in
  let start := from_option sr_Permit no_start (cl_starts (rp_claims r) !! claimKey) in
  let found := cl_cancellations (rp_claims r) !! claimKey in
  let existing := default no_cancellation found in
  if bool_decide (is_Some found) && sameFence (cp_Scope existing) (cq_CurrentScope q) && (now <? cp_LeaseExpires existing) then
    Ok (Ok (MkCancellationClaim existing false (i64 (cp_LeaseExpires existing - now))), r)
  else
    let nonce := if bool_decide (is_Some found) then rp_nonce r else u64 (rp_nonce r + 1) in
    let proof := if bool_decide (is_Some found) then cp_Proof existing else claim_proof "mcp.cancel" claimKey nonce in
    let generation := if bool_decide (is_Some found) then u64 (cp_ClaimGeneration existing + 1) else 1 in
    let r := with_nonce nonce r in
    match pending_child r key with
    | Err error => Ok (Err error, r)
    | Ok (child, method) =>
        let permit := MkCancellationPermit proof true (cq_CurrentScope q) (va_InvocationID (ca_Scope c)) (ca_RequestDigest c) (ca_ProviderID c)
          (at_ProviderRequestID attempt) (at_Attempt attempt) (ef_Revision current) generation (expires now (cq_Lease q)) start child method in
        Ok (Ok (MkCancellationClaim permit true 0), with_cancellations (<[claimKey := permit]> (cl_cancellations (rp_claims r))) r)
    end.

(** ** Commits *)
Record TransitionCommitRequest := MkCommit {
  tq_ExpectedRevision : Z; tq_CurrentScope : ValidatedAuthority; tq_Previous : Effect; tq_Next : Effect; tq_Audit : option AuditEvent;
  tq_Cancellation : option CancellationPermit; tq_ProviderStart : option ProviderStartPermit;
}.
Definition cancellation_intent (current next : Effect) : bool :=
  negb (ef_CancellationRequested current) && ef_CancellationRequested next && (ef_State next == StateCancellationPending)
  && match ef_State current with
     | StateDispatching | StateDispatched | StateStreaming | StateUncertain | StateNeedsConfirmation | StateFailed => true
     | _ => false
     end.
(** What becomes of the provider start of the current attempt: its completion is the
    commit of its own result; any other commit revokes it, once its lease ran out or to
    cancel the effect. *)
Definition settle_start (now : Z) (r : MemoryRepository) (key : string) (current : Effect) (intent : bool) (q : TransitionCommitRequest)
  : res mcp_error MemoryRepository :=
  let '(attempt, ok) := CurrentAttempt current in
  if ok then
    let startKey := dispatchClaimKey key (at_Attempt attempt) in
    match tq_ProviderStart q, cl_starts (rp_claims r) !! startKey with
    | Some permit, Some start =>
        _ ← reject_if ((ef_State current != StateDispatching) || (sr_Status start != providerStartActive) || (sr_Permit start != permit)) ErrConcurrentTransition;
        Ok (set_start startKey (MkStartRecord (sr_Permit start) providerStartCompleted) r)
    | Some _, None => Err ErrConcurrentTransition
    | None, Some start =>
        if sr_Status start == providerStartActive then
          _ ← reject_if (negb intent && sameFence (ps_Scope (sr_Permit start)) (tq_CurrentScope q) && (now <? ps_LeaseExpires (sr_Permit start))) ErrEffectInFlight;
          Ok (set_start startKey (MkStartRecord (sr_Permit start) providerStartRevoked) r)
        else Ok r
    | None, None => Ok r
    end
  else match tq_ProviderStart q with Some _ => Err ErrInvalidTransition | None => Ok r end.
(** The request of a server that the commit abandons: it is revoked, and its broker is to
    be cancelled when it may have begun; with whether there is one to cancel. *)
Definition abandon (now : Z) (scope : ValidatedAuthority) (record : ServerRequestRecord) : ServerRequestRecord :=
  set_rr_permit (take_over (rr_Permit record) scope now) (set_rr_state ServerRequestAbandoned record).
Definition needs_broker (record : ServerRequestRecord) : bool := rr_BrokerCancellationRequired record && brokered (rr_Method record).
Definition abandon_child (now : Z) (r : MemoryRepository) (key : string) (intent : bool) (scope : ValidatedAuthority)
  : res mcp_error (option (serverRequestKey * ServerRequestRecord)) :=
  match ch_active (rp_children r) !! key with
  | None => Ok None
  | Some child =>
      match ch_requests (rp_children r) !! child with
      | None => Err ErrEffectInFlight
      | Some record =>
          _ ← reject_if ((rr_State record != ServerRequestClaimed) || (negb intent && (now <? rq_LeaseExpires (rr_Permit record)))) ErrEffectInFlight;
          Ok (Some (child, record))
      end
  end.
(** The abandoned record is stored under the number of its audit. *)
Definition store_abandoned (now : Z) (scope : ValidatedAuthority) (key : string) (child : serverRequestKey) (record : ServerRequestRecord) (audit : Z)
  (c : Children) : Children :=
  let c := with_child_active (delete key (ch_active c)) (set_request_record child (set_rr_audit audit (abandon now scope record)) c) in
  if needs_broker record then
    with_reconciliations (<[key := child]> (ch_reconciliations c)) (<[child := rr_Permit record]> (ch_permits c)) c
  else c.
Definition audits_enqueued (q : TransitionCommitRequest) (current : Effect) (abandoned : option (serverRequestKey * ServerRequestRecord))
  (o : Outbox) : res mcp_error (option AuditEnvelope * Z * Outbox) :=
  let wanted := (if match tq_Audit q with Some _ => true | None => false end then 1 else 0) + (match abandoned with Some _ => 1 | None => 0 end) in
  _ ← reject_if (u64_max - ob_sequence o <? wanted) ErrStoreUnavailable;
  '(audit, o) ← enqueueAuditLocked (tq_Audit q) o;
  match abandoned with
  | None => Ok (audit, 0, o)
  | Some (_, record) => '(envelope, o) ← enqueue (serverRequestAbandonAudit current record) o; Ok (audit, an_Sequence envelope, o)
  end.
(** The slot of the turn and the cancellation claim are released. *)
Definition release (r : MemoryRepository) (key : string) (e : Effect) : MemoryRepository :=
  if default "" (rp_active r !! effect_scope e) == key then
    let r := with_active (delete (effect_scope e) (rp_active r)) r in
    let '(attempt, ok) := CurrentAttempt e in
    if ok then with_cancellations (delete (dispatchClaimKey key (at_Attempt attempt)) (cl_cancellations (rp_claims r))) r else r
  else r.
Definition Commit (ctx : Context) (now : Z) (r : MemoryRepository) (q : TransitionCommitRequest) : res mcp_error (StoredEffect * MemoryRepository) :=
  _ ← check_ctx ctx;
  let key := effect_key (tq_Previous q) in
  let next := tq_Next q in
  current ← find_effect r key;
  _ ← reject_if ((ef_Revision current != tq_ExpectedRevision q) || (current != tq_Previous q)) ErrConcurrentTransition;
  _ ← reject_if (negb (fenced r current (tq_CurrentScope q))) ErrStaleAuthority;
  _ ← reject_if ((ef_Revision next != u64 (tq_ExpectedRevision q + 1)) || negb (sameImmutableEffect current next)) ErrInvalidTransition;
  let intent := cancellation_intent current next in
  _ ← reject_if (bool_decide (is_Some (ch_parents (rp_children r) !! key)) && negb intent) ErrEffectInFlight;
  started ← settle_start now r key current intent q;
  _ ← match tq_Cancellation q with
      | None => Ok tt
      | Some permit =>
          let '(attempt, ok) := CurrentAttempt current in
          reject_if (negb ok || (ef_State current != StateCancellationPending)
                     || (default no_cancellation (cl_cancellations (rp_claims r) !! dispatchClaimKey key (at_Attempt attempt)) != permit)) ErrConcurrentTransition
      end;
  _ ← reject_if (bool_decide (is_Some (ch_reconciliations (rp_children r) !! key))) ErrEffectInFlight;
  abandoned ← abandon_child now r key intent (tq_CurrentScope q);
  let scope := effect_scope current in
  let active := rp_active r !! scope in
  _ ← reject_if (match active with Some a => a != key | None => negb (Terminal current) end) ErrEffectInFlight;
  '(audit, number, outbox) ← audits_enqueued q current abandoned (rp_outbox r);
  let r := with_outbox outbox started in
  let r := if bool_decide (active = None) && negb (Terminal next) then with_active (<[scope := key]> (rp_active r)) r else r in
  let r := match abandoned with
           | Some (child, record) => with_children (store_abandoned now (tq_CurrentScope q) key child record number (rp_children r)) r
           | None => r
           end in
  let r := set_effect key next r in
  let r := if intent then with_children (with_parents (delete key (ch_parents (rp_children r))) (rp_children r)) r else r in
  let child_pending := match abandoned with Some (_, record) => needs_broker record | None => false end in
  let r := if Terminal next && negb (retainsLateProviderOwner next) && negb child_pending then release r key next else r in
  Ok (MkStored next true audit, r).

(** ** MCP gateway: requests of servers in the reference repository
    ([internal/mcpgateway/repository.go])

    A server may ask the client for something while a call runs. One such request per call
    is claimed at a time, under a lease; one whose lease ran out is abandoned, and its
    broker cancelled before the call goes on. *)

Record StoredServerRequest := MkStoredRequest {
  sq_Record : ServerRequestRecord; sq_Durable : bool; sq_Fresh : bool; sq_Audit : option AuditEnvelope; sq_RetryAfter : Z;
}.

(** ** Claims *)
Record ServerRequestClaimRequest := MkRequestClaim {
  sq_CurrentScope : ValidatedAuthority; sq_Parent : Effect; sq_ProviderRequestID : string; sq_ConnectionGeneration : Z; sq_RequestID : string;
  sq_Method : string; sq_RequestDigest : Digest; sq_ChildEffectID : ID; sq_ChildInvocationID : ID; sq_BrokerCancellationRequired : bool;
  sq_MaxRequests : Z; sq_Lease : Z;
}.
Definition invalid_claim (q : ServerRequestClaimRequest) : bool :=
  bad_lease (sq_Lease q) || (sq_ConnectionGeneration q =? 0) || (sq_MaxRequests q =? 0) || (hardMaxEvents <? sq_MaxRequests q)
  || (if sq_BrokerCancellationRequired q && (sq_Method q == sampling_method) then
        (id_kind (sq_ChildEffectID q) != "effect") || (id_kind (sq_ChildInvocationID q) != "inv")
      else (sq_ChildEffectID q != no_id) || (sq_ChildInvocationID q != no_id))
  || (sq_BrokerCancellationRequired q && negb (brokered (sq_Method q))).
Definition claim_key (q : ServerRequestClaimRequest) : serverRequestKey :=
  (va_InvocationID (ca_Scope (ef_Call (sq_Parent q))), sq_ProviderRequestID q, sq_ConnectionGeneration q, sq_RequestID q).
(** The call is running, on the connection that the request came from. *)
Definition check_running (current : Effect) (q : ServerRequestClaimRequest) : res mcp_error unit :=
  _ ← match ef_State current with StateDispatched | StateStreaming => Ok tt | _ => Err ErrInvalidTransition end;
  let '(attempt, ok) := CurrentAttempt current in
  reject_if (negb ok || (at_ProviderRequestID attempt != sq_ProviderRequestID q)
             || (ng_ConnectionGeneration (at_Negotiation attempt) != sq_ConnectionGeneration q)) ErrAuthorityMismatch.
(** A request that was claimed before: its answer, its claim while the lease runs, or the
    claim taken over. *)
Definition claim_again (now : Z) (r : MemoryRepository) (current : Effect) (q : ServerRequestClaimRequest) (key : string) (existing : ServerRequestRecord)
  : res mcp_error (StoredServerRequest * MemoryRepository) :=
  _ ← reject_if ((rr_ParentInvocationID existing != va_InvocationID (ca_Scope (ef_Call (sq_Parent q))))
                 || (rr_ProviderRequestID existing != sq_ProviderRequestID q) || (rr_ConnectionGeneration existing != sq_ConnectionGeneration q)
                 || (rr_RequestID existing != sq_RequestID q) || (rr_Method existing != sq_Method q) || (rr_RequestDigest existing != sq_RequestDigest q)
                 || bool_decide (rr_BrokerCancellationRequired existing <> sq_BrokerCancellationRequired q)) ErrInvocationConflict;
  if rr_State existing == ServerRequestCompleted then Ok (MkStoredRequest existing true false None 0, r)
  else
    _ ← reject_if (rr_State existing != ServerRequestClaimed) ErrInvalidTransition;
    _ ← check_running current q;
    let p := rr_Permit existing in
    if sameFence (rq_Scope p) (sq_CurrentScope q) && (now <? rq_LeaseExpires p) then
      Ok (MkStoredRequest existing true false None (i64 (rq_LeaseExpires p - now)), r)
    else
      let taken := set_rr_permit (take_over p (sq_CurrentScope q) (expires now (sq_Lease q))) existing in
      let c := set_request_record (claim_key q) taken (rp_children r) in
      Ok (MkStoredRequest taken true true None 0, with_children (with_child_active (<[key := claim_key q]> (ch_active c)) c) r).
Definition new_request (now : Z) (nonce : Z) (key : string) (q : ServerRequestClaimRequest) : ServerRequestRecord :=
  let parent := va_InvocationID (ca_Scope (ef_Call (sq_Parent q))) in
  let proof := sha256_Sum256 (to_bytes key ++ to_bytes (sq_ProviderRequestID q) ++ be_bytes 8 (sq_ConnectionGeneration q) ++ to_bytes (sq_RequestID q)
    ++ be_bytes 8 nonce) in
  MkRequestRecord ServerRequestClaimed parent (sq_ProviderRequestID q) (sq_ConnectionGeneration q) (sq_RequestID q) (sq_Method q) (sq_RequestDigest q)
    (sq_BrokerCancellationRequired q) (MkResponse "" [] None)
    (MkRequestPermit proof true (sq_CurrentScope q) parent (sq_ProviderRequestID q) (sq_ConnectionGeneration q) (sq_RequestID q) (sq_RequestDigest q)
      (sq_ChildEffectID q) (sq_ChildInvocationID q) 1 (expires now (sq_Lease q)))
    no_sampling_receipt no_elicitation_receipt 0.
(** At its limit of requests a call must be cancelled: that is recorded, and refused. *)
Definition ClaimServerRequest (ctx : Context) (now : Z) (r : MemoryRepository) (q : ServerRequestClaimRequest)
  : res mcp_error (res mcp_error StoredServerRequest * MemoryRepository) :=
  _ ← check_ctx ctx;
  _ ← reject_if (invalid_claim q) ErrInvalidRequest;
  let key := effect_key (sq_Parent q) in
  current ← find_effect r key;
  _ ← reject_if (negb (fenced r current (sq_CurrentScope q))) ErrStaleAuthority;
  let c := rp_children r in
  let count := default 0 (ch_counts c !! key) in
  _ ← match ch_limits c !! key with
      | Some limit => reject_if (limit != sq_MaxRequests q) ErrInvalidRequest
      | None => reject_if (count != 0) ErrStoreUnavailable
      end;
  _ ← reject_if (bool_decide (is_Some (ch_parents c !! key))) ErrInvalidTransition;
  _ ← reject_if (bool_decide (is_Some (ch_reconciliations c !! key))) ErrEffectInFlight;
  match ch_requests c !! claim_key q with
  | Some existing => '(stored, r) ← claim_again now r current q key existing; Ok (Ok stored, r)
  | None =>
      _ ← reject_if (current != sq_Parent q) ErrInvalidTransition;
      _ ← check_running current q;
      if sq_MaxRequests q <=? count then
        '(_, o) ← enqueue (request_audit current (sq_Method q) "denied" "server request limit exceeded") (rp_outbox r);
        Ok (Err ErrEventLimit, with_children (with_parents (<[key := claim_key q]> (ch_parents c)) c) (with_outbox o r))
      else
        _ ← reject_if (bool_decide (is_Some (ch_active c !! key))) ErrEffectInFlight;
        let nonce := u64 (rp_nonce r + 1) in
        let record := new_request now nonce key q in
        let c := with_child_limit key (u32 (count + 1)) (sq_MaxRequests q) (set_request_record (claim_key q) record c) in
        Ok (Ok (MkStoredRequest record true true None 0), with_children (with_child_active (<[key := claim_key q]> (ch_active c)) c) (with_nonce nonce r))
  end.

(** ** Answers *)
Record ServerRequestCommitRequest := MkRequestCommit {
  sm_CurrentScope : ValidatedAuthority; sm_Permit : ServerRequestPermit; sm_Response : ServerResponse; sm_Audit : option AuditEvent;
  sm_SamplingCancellation : SamplingCancellationReceipt; sm_ElicitationCancellation : ElicitationCancellationReceipt;
}.
Definition child_cancellation (scope : ValidatedAuthority) (current : Effect) (permit : ServerRequestPermit) : ChildCancellationRequest :=
  MkChildCancellation scope (va_EffectID (ca_Scope (ef_Call current))) (va_InvocationID (ca_Scope (ef_Call current))) (rq_RequestDigest permit) permit.
Definition CompleteServerRequest (ctx : Context) (r : MemoryRepository) (q : ServerRequestCommitRequest)
  : res mcp_error (StoredServerRequest * MemoryRepository) :=
  _ ← check_ctx ctx;
  match sm_Audit q with
  | None => Err ErrInvalidRequest
  | Some audit =>
      let p := sm_Permit q in
      let child := (rq_ParentInvocationID p, rq_ProviderRequestID p, rq_ConnectionGeneration p, rq_RequestID p) in
      let key := id_value (rq_ParentInvocationID p) in
      let c := rp_children r in
      record ← from_option Ok (Err ErrInvocationNotFound) (ch_requests c !! child);
      current ← find_effect r key;
      _ ← reject_if (negb (fenced r current (sm_CurrentScope q))) ErrStaleAuthority;
      _ ← reject_if (rr_Permit record != p) ErrInvocationConflict;
      if rr_State record == ServerRequestCompleted then
        _ ← reject_if (rr_Response record != sm_Response q) ErrInvocationConflict;
        Ok (MkStoredRequest record true false None 0, r)
      else
        _ ← reject_if (default (no_id, "", 0, "") (ch_active c !! key) != child) ErrEffectInFlight;
        let cancellation := child_cancellation (sm_CurrentScope q) current p in
        let sampling := sm_SamplingCancellation q in
        let elicitation := sm_ElicitationCancellation q in
        _ ← reject_if ((sampling != no_sampling_receipt)
                       && ((rr_Method record != sampling_method) || negb (validSamplingCancellationReceipt sampling cancellation))) ErrServerRequestDenied;
        _ ← reject_if ((elicitation != no_elicitation_receipt)
                       && ((rr_Method record != elicitation_method) || negb (validElicitationCancellationReceipt elicitation cancellation)))
              ErrServerRequestDenied;
        let record := set_rr_receipts (if sampling != no_sampling_receipt then sampling else rr_ChildCancellation record)
          (if elicitation != no_elicitation_receipt then elicitation else rr_ElicitationCancellation record) record in
        '(envelope, o) ← enqueue audit (rp_outbox r);
        let record := set_rr_audit (an_Sequence envelope) (set_rr_response (sm_Response q) record) in
        let c := set_request_record child record c in
        Ok (MkStoredRequest record true true (Some envelope) 0, with_children (with_child_active (delete key (ch_active c)) c) (with_outbox o r))
  end.

(** ** Abandoned requests *)
Record ServerRequestReconcileResult := MkReconcile {
  rc_Durable : bool; rc_Reconciled : bool; rc_Active : bool; rc_PendingCancellation : bool; rc_ParentCancelRequired : bool;
  rc_Record : option ServerRequestRecord; rc_CancellationClaim : ServerRequestPermit; rc_RetryAfter : Z;
}.
Definition reconcilable (record : ServerRequestRecord) : bool := (rr_State record == ServerRequestAbandoned) && needs_broker record.
Definition ReconcileServerRequests (ctx : Context) (now : Z) (r : MemoryRepository) (scope : ValidatedAuthority) (parent : Effect)
  : res mcp_error (ServerRequestReconcileResult * MemoryRepository) :=
  _ ← check_ctx ctx;
  let key := effect_key parent in
  let c := rp_children r in
  current ← find_effect r key;
  _ ← reject_if (negb (fenced r current scope)) ErrStaleAuthority;
  let required := bool_decide (is_Some (ch_parents c !! key)) in
  match ch_reconciliations c !! key with
  | Some child =>
      _ ← reject_if (current != parent) ErrConcurrentTransition;
      match ch_requests c !! child, ch_permits c !! child with
      | Some record, Some permit =>
          _ ← reject_if (negb (reconcilable record)) ErrStoreUnavailable;
          Ok (MkReconcile true false false true required (Some record) permit 0, r)
      | _, _ => Err ErrStoreUnavailable
      end
  | None =>
      match ch_active c !! key with
      | None => Ok (MkReconcile true false false false required None no_request_permit 0, r)
      | Some child =>
          _ ← reject_if (current != parent) ErrConcurrentTransition;
          record ← from_option Ok (Err ErrStoreUnavailable) (ch_requests c !! child);
          _ ← reject_if (rr_State record != ServerRequestClaimed) ErrStoreUnavailable;
          if now <? rq_LeaseExpires (rr_Permit record) then
            Ok (MkReconcile true false true false false None no_request_permit (i64 (rq_LeaseExpires (rr_Permit record) - now)), r)
          else
            '(envelope, o) ← enqueue (serverRequestAbandonAudit current record) (rp_outbox r);
            let abandoned := set_rr_audit (an_Sequence envelope) (abandon now scope record) in
            let c := store_abandoned now scope key child record (an_Sequence envelope) c in
            let r := with_children (with_parents (<[key := child]> (ch_parents c)) c) (with_outbox o r) in
            Ok (MkReconcile true true false (needs_broker record) true (Some abandoned)
                  (if needs_broker record then rr_Permit record else no_request_permit) 0, r)
      end
  end.

Record ServerRequestReconcileCommitRequest := MkReconcileCommit {
  sx_CurrentScope : ValidatedAuthority; sx_Permit : ServerRequestPermit; sx_Cancellation : SamplingCancellationReceipt;
  sx_ElicitationCancellation : ElicitationCancellationReceipt;
}.
Definition CompleteServerRequestReconciliation (ctx : Context) (r : MemoryRepository) (q : ServerRequestReconcileCommitRequest)
  : res mcp_error (StoredServerRequest * MemoryRepository) :=
  _ ← check_ctx ctx;
  let p := sx_Permit q in
  let key := id_value (rq_ParentInvocationID p) in
  let c := rp_children r in
  current ← find_effect r key;
  _ ← reject_if (negb (fenced r current (sx_CurrentScope q))) ErrStaleAuthority;
  child ← from_option Ok (Err ErrInvocationConflict) (ch_reconciliations c !! key);
  _ ← reject_if (default no_request_permit (ch_permits c !! child) != p) ErrInvocationConflict;
  record ← from_option Ok (Err ErrStoreUnavailable) (ch_requests c !! child);
  _ ← reject_if (negb (reconcilable record)) ErrStoreUnavailable;
  let cancellation := child_cancellation (sx_CurrentScope q) current p in
  record ← if rr_Method record == sampling_method then
             _ ← reject_if ((sx_ElicitationCancellation q != no_elicitation_receipt)
                            || negb (validSamplingCancellationReceipt (sx_Cancellation q) cancellation)) ErrServerRequestDenied;
             Ok (set_rr_receipts (sx_Cancellation q) (rr_ElicitationCancellation record) record)
           else
             _ ← reject_if ((sx_Cancellation q != no_sampling_receipt)
                            || negb (validElicitationCancellationReceipt (sx_ElicitationCancellation q) cancellation)) ErrServerRequestDenied;
             Ok (set_rr_receipts (rr_ChildCancellation record) (sx_ElicitationCancellation q) record);
  let c := set_request_record child record c in
  let r := with_children (with_reconciliations (delete key (ch_reconciliations c)) (delete child (ch_permits c)) c) r in
  let r := if Terminal current && negb (retainsLateProviderOwner current) then release r key current else r in
  Ok (MkStoredRequest record true true None 0, r).
