(* ===== verification/McpStoreProofs.v ===== *)
(** * MCP gateway: what the repository guarantees

    Runs of the repository under the gateway ([serves]): an effect is stored as admitted,
    and replaced only by what [Apply] made of it. Stored effects have histories, a turn has
    one unfinished effect, an attempt is dispatched once, and its provider start is granted
    once and settled once. *)

From S2P Require Import Prelude GoText GoStrings GoCrypto Canonical Identity BrokerTypes McpGateway McpMachine McpProofs McpReplay McpStore.
#[local] Open Scope string_scope.
#[local] Open Scope list_scope.
#[local] Open Scope Z_scope.
#[local] Open Scope go_scope.

Lemma from_option_ok {E A} (e : E) (o : option A) v : from_option Ok (Err e) o = Ok v -> o = Some v.
Proof. destruct o; simpl; congruence. Qed.

(** ** What an operation does to the repository *)
(** A start keeps its permit, and once it is settled it does not change. *)
Definition starts_follow (s s' : gmap string providerStartRecord) : Prop :=
  forall key record, s !! key = Some record -> exists record', s' !! key = Some record' /\ sr_Permit record' = sr_Permit record /\
    (sr_Status record <> providerStartActive -> record' = record).
Record advances (r r' : MemoryRepository) : Prop := MkAdvances {
  av_dispatches : cl_dispatches (rp_claims r) ⊆ cl_dispatches (rp_claims r');
  av_starts : starts_follow (cl_starts (rp_claims r)) (cl_starts (rp_claims r'));
}.
Lemma starts_follow_refl s : starts_follow s s.
Proof. intros key record H. by exists record. Qed.
Lemma starts_follow_trans s1 s2 s3 : starts_follow s1 s2 -> starts_follow s2 s3 -> starts_follow s1 s3.
Proof.
  intros H12 H23 key r1 H1. destruct (H12 _ _ H1) as (r2 & H2 & P2 & S2). destruct (H23 _ _ H2) as (r3 & H3 & P3 & S3). exists r3.
  split; [done|]. split; [congruence|]. intros Hs. rewrite <- (S2 Hs). apply S3. by rewrite (S2 Hs).
Qed.
Lemma starts_follow_settle s key record status : s !! key = Some record -> sr_Status record = providerStartActive ->
  starts_follow s (<[key := MkStartRecord (sr_Permit record) status]> s).
Proof.
  intros Hr Ha k x Hx. destruct (decide (k = key)) as [->|Hne].
  - rewrite lookup_insert_eq. eexists. split; [done|]. simpl. split; [congruence|]. congruence.
  - rewrite lookup_insert_ne by done. by exists x.
Qed.
Lemma starts_follow_new s key record : s !! key = None -> starts_follow s (<[key := record]> s).
Proof. intros Hn k x Hx. rewrite lookup_insert_ne by congruence. by exists x. Qed.
#[global] Instance advances_preorder : PreOrder advances.
Proof.
  split.
  - intros r. split; [done|apply starts_follow_refl].
  - intros r1 r2 r3 [A B] [C D]. split; [by transitivity (cl_dispatches (rp_claims r2))|by eapply starts_follow_trans].
Qed.
(** An operation that does not touch the claims. *)
Lemma advances_same r r' : cl_dispatches (rp_claims r') = cl_dispatches (rp_claims r) -> cl_starts (rp_claims r') = cl_starts (rp_claims r) -> advances r r'.
Proof. intros H1 H2. split; [by rewrite H1|]. rewrite H2. apply starts_follow_refl. Qed.

(** What an operation on no effect leaves alone. *)
Record idle (r r' : MemoryRepository) : Prop := MkIdle {
  id_effects : rp_effects r' = rp_effects r;
  id_active : rp_active r' = rp_active r \/
    exists key e, rp_effects r !! key = Some e /\ Terminal e = true /\ rp_active r' = delete (effect_scope e) (rp_active r) /\
      default "" (rp_active r !! effect_scope e) = key;
  id_advances : advances r r';
}.
Lemma idle_same r r' : rp_effects r' = rp_effects r -> rp_active r' = rp_active r -> advances r r' -> idle r r'.
Proof. intros H1 H2 H3. by constructor; [|left|]. Qed.
Ltac idle_done := apply idle_same; [done|done|by apply advances_same].

Lemma start_idle ctx now r q p r' : ClaimProviderStart ctx now r q = Ok (p, r') -> idle r r'.
Proof.
  unfold ClaimProviderStart. intros H. apply bind_ok in H as ([] & _ & H). apply reject_if_ok in H as [_ H]. apply bind_ok in H as (current & _ & H).
  do 3 apply reject_if_ok in H as [_ H]. destruct (CurrentAttempt current) as [a ok]. do 2 apply reject_if_ok in H as [_ H].
  destruct (cl_starts (rp_claims r) !! _) as [existing|] eqn:Hs.
  - apply reject_if_ok in H as [_ H]. injection H as <- <-. idle_done.
  - injection H as <- <-. apply idle_same; [done|done|]. split; [done|]. by apply starts_follow_new.
Qed.
Lemma resolve_idle ctx now r scope e p r' : ResolveProviderStart ctx now r scope e = Ok (p, r') -> idle r r'.
Proof.
  unfold ResolveProviderStart. intros H. apply bind_ok in H as ([] & _ & H). apply bind_ok in H as (current & _ & H).
  do 2 apply reject_if_ok in H as [_ H]. destruct (CurrentAttempt current) as [a ok]. apply reject_if_ok in H as [_ H].
  destruct (cl_starts (rp_claims r) !! _) as [start|] eqn:Hs.
  - destruct (_ && _) in H; [injection H as <- <-; idle_done|]. destruct (sr_Status start == providerStartActive) eqn:Ha; [|injection H as <- <-; idle_done].
    destruct (_ && _) in H; injection H as <- <-; [idle_done|]. apply bool_decide_eq_true in Ha. apply idle_same; [done|done|]. split; [done|]. by apply starts_follow_settle.
  - apply reject_if_ok in H as [_ H]. injection H as <- <-. apply idle_same; [done|done|]. split; [done|]. by apply starts_follow_new.
Qed.
Lemma cancellation_idle ctx now r q p r' : ClaimCancellation ctx now r q = Ok (p, r') -> idle r r'.
Proof.
  unfold ClaimCancellation. intros H. apply bind_ok in H as ([] & _ & H). apply reject_if_ok in H as [_ H]. apply bind_ok in H as (current & _ & H).
  do 2 apply reject_if_ok in H as [_ H]. destruct (CurrentAttempt current) as [a ok]. apply reject_if_ok in H as [_ H].
  destruct (_ && _) in H; [injection H as <- <-; idle_done|]. destruct (pending_child _ _) as [[child method]|]; injection H as <- <-; idle_done.
Qed.
Lemma request_idle ctx now r q p r' : ClaimServerRequest ctx now r q = Ok (p, r') -> idle r r'.
Proof.
  unfold ClaimServerRequest. intros H. apply bind_ok in H as ([] & _ & H). apply reject_if_ok in H as [_ H]. apply bind_ok in H as (current & _ & H).
  apply reject_if_ok in H as [_ H]. apply bind_ok in H as ([] & _ & H). do 2 apply reject_if_ok in H as [_ H].
  destruct (ch_requests (rp_children r) !! _) as [existing|].
  - apply bind_ok in H as ([stored r1] & Ha & H). injection H as <- <-. unfold claim_again in Ha. apply reject_if_ok in Ha as [_ Ha].
    destruct (_ == _) in Ha; [injection Ha as <- <-; idle_done|]. apply reject_if_ok in Ha as [_ Ha]. apply bind_ok in Ha as ([] & _ & Ha).
    destruct (_ && _) in Ha; injection Ha as <- <-; idle_done.
  - apply reject_if_ok in H as [_ H]. apply bind_ok in H as ([] & _ & H). destruct (_ <=? _).
    + apply bind_ok in H as ([en o] & _ & H). injection H as <- <-. idle_done.
    + apply reject_if_ok in H as [_ H]. injection H as <- <-. idle_done.
Qed.
Lemma complete_idle ctx r q p r' : CompleteServerRequest ctx r q = Ok (p, r') -> idle r r'.
Proof.
  unfold CompleteServerRequest. intros H. apply bind_ok in H as ([] & _ & H). destruct (sm_Audit q); [|done]. apply bind_ok in H as (record & _ & H).
  apply bind_ok in H as (current & _ & H). do 2 apply reject_if_ok in H as [_ H]. destruct (_ == _) in H.
  - apply reject_if_ok in H as [_ H]. injection H as <- <-. idle_done.
  - do 3 apply reject_if_ok in H as [_ H]. apply bind_ok in H as ([en o] & _ & H). injection H as <- <-. idle_done.
Qed.
Lemma reconcile_idle ctx now r scope e p r' : ReconcileServerRequests ctx now r scope e = Ok (p, r') -> idle r r'.
Proof.
  unfold ReconcileServerRequests. intros H. apply bind_ok in H as ([] & _ & H). apply bind_ok in H as (current & _ & H). apply reject_if_ok in H as [_ H].
  destruct (ch_reconciliations (rp_children r) !! _) as [child|].
  - apply reject_if_ok in H as [_ H]. destruct (ch_requests (rp_children r) !! child), (ch_permits (rp_children r) !! child); try done. apply reject_if_ok in H as [_ H]. injection H as <- <-. idle_done.
  - destruct (ch_active (rp_children r) !! _) as [child|]; [|injection H as <- <-; idle_done]. apply reject_if_ok in H as [_ H]. apply bind_ok in H as (record & _ & H).
    apply reject_if_ok in H as [_ H]. destruct (_ <? _); [injection H as <- <-; idle_done|]. apply bind_ok in H as ([en o] & _ & H). injection H as <- <-. idle_done.
Qed.
(** Releasing the slot of a turn. *)
Lemma release_frame r key e : rp_effects (release r key e) = rp_effects r /\ advances r (release r key e) /\
  (rp_active (release r key e) = rp_active r \/
   (rp_active (release r key e) = delete (effect_scope e) (rp_active r) /\ default "" (rp_active r !! effect_scope e) = key)).
Proof.
  unfold release. case_bool_decide as Hk; [|split; [done|split; [reflexivity|by left]]].
  destruct (CurrentAttempt e) as [a ok]. destruct ok; simpl; (split; [done|]; split; [by apply advances_same|by right]).
Qed.
Lemma reconciled_idle ctx r q p r' : CompleteServerRequestReconciliation ctx r q = Ok (p, r') -> idle r r'.
Proof.
  unfold CompleteServerRequestReconciliation. intros H. apply bind_ok in H as ([] & _ & H). apply bind_ok in H as (current & Hf & H). apply reject_if_ok in H as [_ H].
  apply bind_ok in H as (child & _ & H). apply reject_if_ok in H as [_ H]. apply bind_ok in H as (record & _ & H). apply reject_if_ok in H as [_ H].
  apply bind_ok in H as (record' & _ & H). injection H as <- <-. unfold find_effect in Hf. apply from_option_ok in Hf.
  destruct (Terminal current && _) eqn:Ht; [|idle_done]. apply andb_true_iff in Ht as [Ht _].
  set (r1 := with_children _ r). destruct (release_frame r1 (id_value (rq_ParentInvocationID (sx_Permit q))) current) as (H1 & H2 & H3). constructor.
  - exact H1.
  - destruct H3 as [H3|[H3 H4]]; [left; exact H3|right]. eexists _, current. split_and!; [exact Hf|done|exact H3|exact H4].
  - transitivity r1; [by apply advances_same|done].
Qed.

(** What replaces an effect. *)
Record replaces (r r' : MemoryRepository) (prev next : Effect) : Prop := MkReplaces {
  rl_stored : rp_effects r !! effect_key prev = Some prev;
  rl_call : ef_Call next = ef_Call prev;
  rl_effects : rp_effects r' = <[effect_key prev := next]> (rp_effects r);
  rl_owner : forall a, rp_active r !! effect_scope prev = Some a -> a = effect_key prev;
  rl_others : forall k, k <> effect_scope prev -> rp_active r' !! k = rp_active r !! k;
  rl_slot : Terminal next = false -> (Terminal prev = false -> rp_active r !! effect_scope prev = Some (effect_key prev)) ->
    rp_active r' !! effect_scope prev = Some (effect_key prev);
  rl_advances : advances r r';
}.
Lemma settle_start_frame now r key current intent q r' : settle_start now r key current intent q = Ok r' ->
  rp_effects r' = rp_effects r /\ rp_active r' = rp_active r /\ rp_children r' = rp_children r /\ advances r r'.
Proof.
  unfold settle_start. intros H. destruct (CurrentAttempt current) as [a ok]. destruct ok.
  - destruct (tq_ProviderStart q), (cl_starts (rp_claims r) !! _) as [start|] eqn:Hs; try done.
    + apply reject_if_ok in H as [Hr H]. bools in Hr. destruct Hr as [[_ Ha] _]. injection H as <-. split_and!; try done. split; [done|]. by apply starts_follow_settle.
    + destruct (sr_Status start == providerStartActive) eqn:Ha; [|by injection H as <-]. apply bool_decide_eq_true in Ha. apply reject_if_ok in H as [_ H]. injection H as <-.
      split_and!; try done. split; [done|]. by apply starts_follow_settle.
    + by injection H as <-.
  - destruct (tq_ProviderStart q); [done|]. by injection H as <-.
Qed.
Lemma Commit_replaces ctx now r q s r' : Commit ctx now r q = Ok (s, r') -> replaces r r' (tq_Previous q) (tq_Next q).
Proof.
  unfold Commit. intros H. apply bind_ok in H as ([] & _ & H). apply bind_ok in H as (current & Hf & H). unfold find_effect in Hf. apply from_option_ok in Hf.
  apply reject_if_ok in H as [Hr H]. bools in Hr. destruct Hr as [_ ->]. apply reject_if_ok in H as [_ H]. apply reject_if_ok in H as [Hr H].
  unfold sameImmutableEffect in Hr. bools in Hr. destruct Hr as [_ Hcall]. apply reject_if_ok in H as [_ H]. apply bind_ok in H as (r1 & H1 & H).
  apply settle_start_frame in H1 as (E1 & A1 & C1 & V1). apply bind_ok in H as ([] & _ & H). apply reject_if_ok in H as [_ H]. apply bind_ok in H as (child & _ & H).
  apply reject_if_ok in H as [Hact H]. apply bind_ok in H as ([[audit number] outbox] & _ & H). injection H as <- <-. set (prev := tq_Previous q) in *. set (next := tq_Next q) in *.
  set (ra := if _ && negb (Terminal next) then _ else with_outbox outbox r1). set (rb := match child with Some _ => _ | None => ra end).
  set (rc := set_effect (effect_key prev) next rb). set (rd := if cancellation_intent prev next then _ else rc).
  set (re := if _ && negb _ && negb _ then _ else rd). assert (Hscope : effect_scope next = effect_scope prev) by (unfold effect_scope; congruence).
  assert (Ha : rp_effects ra = rp_effects r /\ advances r ra) by (unfold ra; destruct (_ && _); (split; [exact E1|]; transitivity r1; [exact V1|by apply advances_same])).
  assert (Hb : rp_effects rb = rp_effects r /\ rp_active rb = rp_active ra /\ advances r rb).
  { unfold rb. destruct child as [[ck cr]|]; split_and!; try tauto; try done. transitivity ra; [tauto|by apply advances_same]. }
  assert (Hd : rp_effects rd = <[effect_key prev := next]> (rp_effects r) /\ rp_active rd = rp_active ra /\ advances r rd).
  { unfold rd, rc. destruct Hb as (B1 & B2 & B3). destruct (cancellation_intent prev next); simpl; rewrite B1; split_and!; try done; (transitivity rb; [done|by apply advances_same]). }
  destruct Hd as (D1 & D2 & D3). destruct (release_frame rd (effect_key prev) next) as (F1 & F2 & F3). rewrite Hscope in F3.
  assert (Hactive : forall k, k <> effect_scope prev -> rp_active ra !! k = rp_active r !! k).
  { intros k Hk. unfold ra. destruct (_ && _); simpl; rewrite A1; [by rewrite lookup_insert_ne|done]. }
  assert (Hre : (re = release rd (effect_key prev) next /\ Terminal next = true) \/ re = rd).
  { unfold re. destruct (Terminal next && _ && _) eqn:Hx; [left|by right]. split; [done|]. by apply andb_true_iff in Hx as [[Hx _]%andb_true_iff _]. }
  clearbody re. constructor; try done.
  - destruct Hre as [[-> _]| ->]; [by rewrite F1|done].
  - intros a Ha'. rewrite Ha' in Hact. bools in Hact. done.
  - intros k Hk. destruct Hre as [[-> _]| ->]; [|by rewrite D2, Hactive]. destruct F3 as [-> | [-> _]]; [by rewrite D2, Hactive|].
    rewrite lookup_delete_ne by done. by rewrite D2, Hactive.
  - intros Hterm Hslot. destruct Hre as [[_ Hx]| ->]; [congruence|]. rewrite D2. unfold ra. destruct (rp_active r !! effect_scope prev) as [a|] eqn:Hp.
    + bools in Hact. simpl. rewrite A1, Hp. by rewrite Hact.
    + simpl. rewrite Hterm. simpl. by rewrite lookup_insert_eq.
  - destruct Hre as [[-> _]| ->]; [|done]. by transitivity rd.
Qed.
Lemma Dispatch_replaces ctx r q p r' : Terminal (dq_Previous q) = false -> CommitAndClaimDispatch ctx r q = Ok (p, r') ->
  replaces r r' (dq_Previous q) (dq_Next q) /\ dp_InvocationID p = va_InvocationID (ca_Scope (ef_Call (dq_Previous q))) /\
  cl_dispatches (rp_claims r) !! dispatchClaimKey (effect_key (dq_Previous q)) (dp_Attempt p) = None /\
  cl_dispatches (rp_claims r') !! dispatchClaimKey (effect_key (dq_Previous q)) (dp_Attempt p) = Some p.
Proof.
  unfold CommitAndClaimDispatch. intros Hnt H. apply bind_ok in H as ([] & _ & H). apply bind_ok in H as (current & Hf & H). unfold find_effect in Hf. apply from_option_ok in Hf.
  apply reject_if_ok in H as [Hr H]. bools in Hr. destruct Hr as [_ ->]. apply reject_if_ok in H as [_ H]. apply reject_if_ok in H as [Hact H]. apply neq_test_false in Hact.
  apply reject_if_ok in H as [Hr H]. unfold sameImmutableEffect in Hr. bools in Hr. destruct Hr as [[[_ Hst] Hcall] _]. destruct (CurrentAttempt (dq_Next q)) as [a ok].
  apply reject_if_ok in H as [_ H]. apply reject_if_ok in H as [Hc H]. apply bool_decide_eq_false in Hc. injection H as <- <-. simpl.
  apply eq_None_not_Some in Hc. split; [|split_and!; [done|done|by rewrite lookup_insert_eq]]. constructor; try done.
  - intros x Hx. by rewrite Hx in Hact.
  - intros _ Hslot. by apply Hslot.
  - split; [by apply insert_subseteq|apply starts_follow_refl].
Qed.

(** ** Runs *)
Section runs.
Context `{N : Normalizer}.
Variable gw : Gateway.

(** The operations as the gateway performs them: it admits validated calls, and replaces an
    effect by what [Apply] made of it; a dispatch is claimed for the event that begins one. *)
Inductive serves : MemoryRepository -> MemoryRepository -> Prop :=
| serves_admit ctx c r s r' : validateEffect gw (admitted c) = Ok tt -> Admit ctx r (admitted c) = Ok (s, r') -> serves r r'
| serves_dispatch ctx r q ev t d p r' : Apply gw (dq_Previous q) ev = Ok t -> tn_Dispatch t = Some d -> dq_Next q = tn_Effect t ->
    CommitAndClaimDispatch ctx r q = Ok (p, r') -> serves r r'
| serves_commit ctx now r q ev t s r' : Apply gw (tq_Previous q) ev = Ok t -> tq_Next q = tn_Effect t -> Commit ctx now r q = Ok (s, r') -> serves r r'
| serves_start ctx now r q p r' : ClaimProviderStart ctx now r q = Ok (p, r') -> serves r r'
| serves_resolve ctx now r scope e p r' : ResolveProviderStart ctx now r scope e = Ok (p, r') -> serves r r'
| serves_cancellation ctx now r q p r' : ClaimCancellation ctx now r q = Ok (p, r') -> serves r r'
| serves_request ctx now r q p r' : ClaimServerRequest ctx now r q = Ok (p, r') -> serves r r'
| serves_complete ctx r q p r' : CompleteServerRequest ctx r q = Ok (p, r') -> serves r r'
| serves_reconcile ctx now r scope e p r' : ReconcileServerRequests ctx now r scope e = Ok (p, r') -> serves r r'
| serves_reconciled ctx r q p r' : CompleteServerRequestReconciliation ctx r q = Ok (p, r') -> serves r r'
| serves_append ctx r event p r' : AppendAudit ctx r event = Ok (p, r') -> serves r r'
| serves_acknowledge ctx r n r' : AcknowledgeAudit ctx r n = Ok r' -> serves r r'
| serves_authority r scope r' : SetCurrentAuthority r scope = Ok r' -> serves r r'.

(** The three kinds of step. *)
Inductive kind_of_step (r r' : MemoryRepository) : Prop :=
| step_idle : idle r r' -> kind_of_step r r'
| step_admitted c : validateEffect gw (admitted c) = Ok tt -> rp_effects r !! effect_key (admitted c) = None ->
    rp_effects r' = <[effect_key (admitted c) := admitted c]> (rp_effects r) ->
    rp_active r' = <[effect_scope (admitted c) := effect_key (admitted c)]> (rp_active r) ->
    (forall a, rp_active r !! effect_scope (admitted c) = Some a -> a = effect_key (admitted c)) -> advances r r' -> kind_of_step r r'
| step_replaced prev next ev t : Apply gw prev ev = Ok t -> next = tn_Effect t -> replaces r r' prev next -> kind_of_step r r'.
Lemma dispatch_unfinished e ev t d : Apply gw e ev = Ok t -> tn_Dispatch t = Some d -> Terminal e = false.
Proof.
  intros H Hd. apply Apply_parts in H as (n & t' & _ & _ & _ & _ & _ & Ht & _ & ->). simpl in Hd. apply only_begin_dispatches in Ht as [Ht|Ht]; [congruence|].
  unfold begin_dispatch in Ht. apply reject_if_ok in Ht as [Hr _]. bools in Hr. unfold Terminal. by destruct Hr as [[-> | ->] _].
Qed.
Lemma serves_kind r r' : serves r r' -> kind_of_step r r'.
Proof.
  destruct 1 as [ctx c r s r' Hv H|ctx r q ev t d p r' Ht Hd Hn H|ctx now r q ev t s r' Ht Hn H|ctx now r q p r' H|ctx now r scope e p r' H|ctx now r q p r' H
    |ctx now r q p r' H|ctx r q p r' H|ctx now r scope e p r' H|ctx r q p r' H|ctx r event p r' H|ctx r n r' H|r scope r' H].
  - unfold Admit in H. apply bind_ok in H as ([] & _ & H). destruct (rp_effects r !! _) as [existing|] eqn:He.
    + do 2 apply reject_if_ok in H as [_ H]. injection H as <- <-. apply step_idle. idle_done.
    + apply reject_if_ok in H as [_ H]. apply reject_if_ok in H as [Ha H]. injection H as <- <-. apply (step_admitted _ _ c); try done; [|by apply advances_same].
      intros a Hact. rewrite Hact in Ha. by apply neq_test_false in Ha.
  - pose proof (dispatch_unfinished _ _ _ _ Ht Hd) as Hnt. apply Dispatch_replaces in H as [H _]; [|done]. by eapply step_replaced.
  - apply Commit_replaces in H. by eapply step_replaced.
  - apply step_idle. by eapply start_idle.
  - apply step_idle. by eapply resolve_idle.
  - apply step_idle. by eapply cancellation_idle.
  - apply step_idle. by eapply request_idle.
  - apply step_idle. by eapply complete_idle.
  - apply step_idle. by eapply reconcile_idle.
  - apply step_idle. by eapply reconciled_idle.
  - apply step_idle. unfold AppendAudit in H. apply bind_ok in H as ([] & _ & H). apply bind_ok in H as ([en o] & _ & H). injection H as <- <-. idle_done.
  - apply step_idle. unfold AcknowledgeAudit in H. apply bind_ok in H as ([] & _ & H). apply reject_if_ok in H as [_ H]. injection H as <-. idle_done.
  - apply step_idle. unfold SetCurrentAuthority in H. apply reject_if_ok in H as [_ H]. injection H as <-. idle_done.
Qed.

(** The invariant of the repository. *)
Record books (r : MemoryRepository) : Prop := MkBooks {
  bk_key : forall k e, rp_effects r !! k = Some e -> effect_key e = k;
  bk_history : forall k e, rp_effects r !! k = Some e -> validateEffect gw (admitted (ef_Call e)) = Ok tt /\ history gw any_event (admitted (ef_Call e)) e;
  bk_slot : forall k e, rp_effects r !! k = Some e -> Terminal e = false -> rp_active r !! effect_scope e = Some k;
}.
Lemma books_step r r' : books r -> serves r r' -> books r'.
Proof.
  intros [B1 B2 B3] Hs. destruct (serves_kind _ _ Hs) as [[I1 I2 _]|c Hv Hnew He Ha Hown _|prev next ev t Ht -> [L1 L2 L3 L4 L5 L6 _]].
  - constructor; rewrite I1; try done. intros k e Hk Hterm. destruct I2 as [-> | (key & x & Hx & Hxt & -> & Hdef)]; [by apply B3|].
    destruct (decide (effect_scope e = effect_scope x)) as [Hsc|Hsc]; [|rewrite lookup_delete_ne by done; by apply B3].
    exfalso. pose proof (B3 _ _ Hk Hterm) as Hact. rewrite Hsc in Hact. rewrite Hact in Hdef. simpl in Hdef. subst key. congruence.
  - constructor; rewrite He.
    + intros k e [[<- <-]|[_ Hk]]%lookup_insert_Some; [done|by apply B1].
    + intros k e [[<- <-]|[_ Hk]]%lookup_insert_Some; [split; [done|apply history_start]|by apply (B2 k)].
    + intros k e [[<- <-]|[Hne Hk]]%lookup_insert_Some Hterm; rewrite Ha; [by rewrite lookup_insert_eq|].
      destruct (decide (effect_scope e = effect_scope (admitted c))) as [Hsc|Hsc]; [|rewrite lookup_insert_ne by done; by apply B3].
      exfalso. pose proof (B3 _ _ Hk Hterm) as Hact. rewrite Hsc in Hact. apply Hne. symmetry. by apply Hown.
  - constructor; rewrite L3.
    + intros k e [[<- <-]|[_ Hk]]%lookup_insert_Some; [unfold effect_key; by rewrite L2|by apply B1].
    + intros k e [[<- <-]|[_ Hk]]%lookup_insert_Some; [|by apply (B2 k)]. rewrite L2. destruct (B2 _ _ L1) as [Hv Hh]. split; [done|]. by eapply history_event.
    + intros k e [[<- <-]|[Hne Hk]]%lookup_insert_Some Hterm.
      * replace (effect_scope (tn_Effect t)) with (effect_scope prev) by (unfold effect_scope; congruence). apply L6; [done|]. intros Hp. by apply B3.
      * destruct (decide (effect_scope e = effect_scope prev)) as [Hsc|Hsc]; [|rewrite L5 by done; by apply B3].
        exfalso. pose proof (B3 _ _ Hk Hterm) as Hact. rewrite Hsc in Hact. apply Hne. symmetry. by apply L4.
Qed.
Lemma books_run r : rtc serves NewMemoryRepository r -> books r.
Proof.
  intros H. apply (rtc_ind_r books NewMemoryRepository) in H; [done| |].
  - constructor; intros k e Hk; done.
  - intros r1 r2 _ Hs Hb. by eapply books_step.
Qed.
Lemma run_advances r r' : rtc serves r r' -> advances r r'.
Proof.
  induction 1 as [r|r1 r2 r3 Hs _ IH]; [reflexivity|]. transitivity r2; [|done].
  by destruct (serves_kind _ _ Hs) as [[_ _ ?]|c _ _ _ _ _ ?|prev next ev t _ _ [_ _ _ _ _ _ ?]].
Qed.

(** The repository refines the state machine. In every run of the reference repository
    under the gateway, every stored effect is under the key of its own invocation and is
    one that accepted events lead to from the admission of its call; so what holds of all
    histories holds of everything that is ever stored, across all operations, turns and
    interleavings. *)
Theorem mcp_stored_effects r key e : rtc serves NewMemoryRepository r -> rp_effects r !! key = Some e ->
  effect_key e = key /\ validateEffect gw (admitted (ef_Call e)) = Ok tt /\ history gw any_event (admitted (ef_Call e)) e.
Proof. intros Hr He. destruct (books_run _ Hr) as [B1 B2 _]. split; [by apply B1|by eapply B2]. Qed.

(** C18: A turn has at most one unfinished MCP effect. In every run of the reference
    repository, two stored effects of the same tenant, session and turn that are both
    unfinished are the same effect, and it owns the slot of its turn. *)
Theorem mcp_turn_exclusive r key1 e1 key2 e2 : rtc serves NewMemoryRepository r -> rp_effects r !! key1 = Some e1 -> rp_effects r !! key2 = Some e2 ->
  effect_scope e1 = effect_scope e2 -> Terminal e1 = false -> Terminal e2 = false -> key1 = key2 /\ e1 = e2 /\ rp_active r !! effect_scope e1 = Some key1.
Proof.
  intros Hr H1 H2 Hs T1 T2. destruct (books_run _ Hr) as [_ _ B3]. pose proof (B3 _ _ H1 T1) as A1. pose proof (B3 _ _ H2 T2) as A2.
  rewrite Hs, A2 in A1. injection A1 as ->. split; [done|]. split; [congruence|]. rewrite Hs. done.
Qed.

(** ** Dispatches and starts *)
Lemma dispatch_claims ctx r q p r' : CommitAndClaimDispatch ctx r q = Ok (p, r') ->
  cl_dispatches (rp_claims r) !! dispatchClaimKey (id_value (dp_InvocationID p)) (dp_Attempt p) = None /\
  cl_dispatches (rp_claims r') !! dispatchClaimKey (id_value (dp_InvocationID p)) (dp_Attempt p) = Some p.
Proof.
  unfold CommitAndClaimDispatch. intros H. apply bind_ok in H as ([] & _ & H). apply bind_ok in H as (current & _ & H). apply reject_if_ok in H as [Hr H]. bools in Hr.
  destruct Hr as [_ ->]. do 3 apply reject_if_ok in H as [_ H]. destruct (CurrentAttempt (dq_Next q)) as [a ok]. apply reject_if_ok in H as [_ H].
  apply reject_if_ok in H as [Hc H]. apply bool_decide_eq_false in Hc. injection H as <- <-. simpl. split; [by apply eq_None_not_Some|by rewrite lookup_insert_eq].
Qed.
(** An attempt is dispatched once. Whatever happens between two accepted claims on a
    dispatch, restarts of the gateway included, they are not for the same attempt of the
    same invocation. *)
Theorem mcp_dispatched_once ctx1 r0 q1 p1 r1 r2 ctx2 q2 p2 r3 : CommitAndClaimDispatch ctx1 r0 q1 = Ok (p1, r1) -> rtc serves r1 r2 ->
  CommitAndClaimDispatch ctx2 r2 q2 = Ok (p2, r3) -> (dp_InvocationID p1, dp_Attempt p1) <> (dp_InvocationID p2, dp_Attempt p2).
Proof.
  intros H1 Hr H2 [= E1 E2]. apply dispatch_claims in H1 as [_ H1], H2 as [H2 _]. destruct (run_advances _ _ Hr) as [Hd _].
  rewrite <- E1, <- E2 in H2. pose proof (lookup_weaken _ _ _ _ H1 Hd). congruence.
Qed.

(** The start of the attempt that an effect is at. *)
Definition start_of (r : MemoryRepository) (e : Effect) : option providerStartRecord :=
  cl_starts (rp_claims r) !! dispatchClaimKey (effect_key e) (at_Attempt (CurrentAttempt e).1).
Lemma claim_start ctx now r q p r' : ClaimProviderStart ctx now r q = Ok (p, r') ->
  from_option (fun s => sr_Permit s = p /\ sr_Status s = providerStartActive) True (start_of r (pq_Effect q)) /\
  start_of r' (pq_Effect q) = Some (MkStartRecord p providerStartActive).
Proof.
  unfold ClaimProviderStart, start_of. intros H. apply bind_ok in H as ([] & _ & H). apply reject_if_ok in H as [_ H]. apply bind_ok in H as (current & _ & H).
  apply reject_if_ok in H as [Hr H]. bools in Hr. destruct Hr as [[-> _] _]. do 2 apply reject_if_ok in H as [_ H]. destruct (CurrentAttempt (pq_Effect q)) as [a ok].
  do 2 apply reject_if_ok in H as [_ H]. cbn [fst]. destruct (cl_starts (rp_claims r) !! _) as [existing|] eqn:Hs.
  - apply reject_if_ok in H as [Hr H]. bools in Hr. destruct Hr as [[[[[Ha _] _] _] _] _]. injection H as <- <-. rewrite Hs. destruct existing as [pp ss]. simpl in *. by subst ss.
  - injection H as <- <-. simpl. split; [done|by rewrite lookup_insert_eq].
Qed.
Lemma resolve_settles ctx now r scope e v r' : ResolveProviderStart ctx now r scope e = Ok (v, r') -> rv_Active v = false ->
  exists s, start_of r' e = Some s /\ sr_Status s <> providerStartActive.
Proof.
  unfold ResolveProviderStart, start_of. intros H Hv. apply bind_ok in H as ([] & _ & H). apply bind_ok in H as (current & _ & H). apply reject_if_ok in H as [Hr H]. bools in Hr. subst current.
  apply reject_if_ok in H as [_ H]. destruct (CurrentAttempt e) as [a ok]. apply reject_if_ok in H as [_ H]. cbn [fst]. destruct (cl_starts (rp_claims r) !! _) as [start|] eqn:Hs.
  - destruct (_ && _) eqn:Hb in H; [injection H as <- <-; exists start; bools in Hb; destruct Hb as [Hb _]; split; [done|congruence]|].
    destruct (sr_Status start == providerStartActive) eqn:Ha.
    + destruct (sameFence (ps_Scope (sr_Permit start)) scope && (now <? ps_LeaseExpires (sr_Permit start))); injection H as <- <-; [done|]. simpl. rewrite lookup_insert_eq. by eexists.
    + injection H as <- <-. exists start. split; [done|]. by apply bool_decide_eq_false in Ha.
  - apply reject_if_ok in H as [_ H]. injection H as <- <-. simpl. rewrite lookup_insert_eq. by eexists.
Qed.
Lemma commit_start ctx now r q s r' p : Commit ctx now r q = Ok (s, r') -> tq_ProviderStart q = Some p ->
  exists x, start_of r (tq_Previous q) = Some x /\ sr_Status x = providerStartActive /\ sr_Permit x = p.
Proof.
  unfold Commit, start_of. intros H Hp. apply bind_ok in H as ([] & _ & H). apply bind_ok in H as (current & _ & H). apply reject_if_ok in H as [Hr H]. bools in Hr. destruct Hr as [_ ->].
  do 3 apply reject_if_ok in H as [_ H]. apply bind_ok in H as (r1 & H1 & _). unfold settle_start in H1. rewrite Hp in H1. destruct (CurrentAttempt (tq_Previous q)) as [a ok].
  cbn [fst]. destruct ok; [|done]. destruct (cl_starts (rp_claims r) !! _) as [x|] eqn:Hs; [|done]. apply reject_if_ok in H1 as [Hr _]. bools in Hr. exists x. tauto.
Qed.
(** Starting a call and giving it up exclude each other. Once cancellation or recovery
    was told that the provider start of an attempt is not running, that attempt is never
    started any more: in every run from there no start is granted for it and no result of
    a start of it is committed, however late the provider answers. *)
Theorem mcp_start_resolved_once ctx now r0 scope e v r1 r2 : ResolveProviderStart ctx now r0 scope e = Ok (v, r1) -> rv_Active v = false -> rtc serves r1 r2 ->
  (forall ctx' now' q p r3, effect_key (pq_Effect q) = effect_key e -> at_Attempt (CurrentAttempt (pq_Effect q)).1 = at_Attempt (CurrentAttempt e).1 ->
     ClaimProviderStart ctx' now' r2 q <> Ok (p, r3)) /\
  (forall ctx' now' q p s r3, effect_key (tq_Previous q) = effect_key e -> at_Attempt (CurrentAttempt (tq_Previous q)).1 = at_Attempt (CurrentAttempt e).1 ->
     tq_ProviderStart q = Some p -> Commit ctx' now' r2 q <> Ok (s, r3)).
Proof.
  intros H Hv Hr. destruct (resolve_settles _ _ _ _ _ _ _ H Hv) as (x & Hx & Hst). destruct (run_advances _ _ Hr) as [_ Hf].
  destruct (Hf _ _ Hx) as (x' & Hx' & _ & Hsame). rewrite (Hsame Hst) in Hx'. split.
  - intros ctx' now' q p r3 Hk Ha Hc. apply claim_start in Hc as [Hc _]. unfold start_of in *. rewrite Hk, Ha, Hx' in Hc. simpl in Hc. by destruct Hc.
  - intros ctx' now' q p s r3 Hk Ha Hp Hc. destruct (commit_start _ _ _ _ _ _ _ Hc Hp) as (y & Hy & Hy1 & _). unfold start_of in *. rewrite Hk, Ha, Hx' in Hy. congruence.
Qed.
End runs.

(** ** MCP gateway: the audit outbox and the requests of servers in the repository

    Every operation but the acknowledgement only appends to the outbox: what is pending
    stays pending, with its content, and new entries get the next numbers. Every operation
    but a claim leaves the claimed requests of servers as they are, and none removes one. *)

(** An entry carries its number. *)
Definition entry (n : Z) (envelope : AuditEnvelope) : Prop := an_Sequence envelope = n /\ ae_OutboxSequence (an_Event envelope) = n.
Record appends (o o' : Outbox) : Prop := MkAppends {
  ap_grows : ob_sequence o <= ob_sequence o';
  ap_kept : forall n, n <= ob_sequence o -> ob_pending o' !! n = ob_pending o !! n;
  ap_new : forall n, ob_sequence o < n <= ob_sequence o' -> is_Some (ob_pending o' !! n);
  ap_entry : forall n envelope, ob_pending o' !! n = Some envelope ->
    ob_pending o !! n = Some envelope \/ ob_sequence o < n <= ob_sequence o' /\ entry n envelope;
}.
#[global] Instance appends_preorder : PreOrder appends.
Proof.
  split.
  - intros o. constructor; [lia|done| |by left]. intros n Hn. lia.
  - intros o1 o2 o3 [A1 A2 A3 A4] [B1 B2 B3 B4]. constructor; [lia| | |].
    + intros n Hn. rewrite B2 by lia. by apply A2.
    + intros n Hn. destruct (decide (n <= ob_sequence o2)); [rewrite B2 by lia; apply A3; lia|apply B3; lia].
    + intros n envelope Hn. destruct (B4 _ _ Hn) as [Hn'|[? ?]]; [|right; split; [lia|done]].
      destruct (A4 _ _ Hn') as [?|[? ?]]; [by left|right; split; [lia|done]].
Qed.
Lemma enqueue_appends event o envelope o' : enqueue event o = Ok (envelope, o') ->
  appends o o' /\ ob_pending o' !! an_Sequence envelope = Some envelope /\ an_Sequence envelope = ob_sequence o'.
Proof.
  unfold enqueue. intros H. apply reject_if_ok in H as [_ H]. injection H as <- <-. split; [|split; [apply lookup_insert_eq|done]]. constructor; simpl; [lia| | |].
  - intros n Hn. rewrite lookup_insert_ne by lia. done.
  - intros n Hn. replace n with (ob_sequence o + 1) by lia. rewrite lookup_insert_eq. by eexists.
  - intros n en [[<- <-]|[_ Hn]]%lookup_insert_Some; [right; split; [lia|done]|by left].
Qed.
Lemma audits_append q current abandoned o audit number o' : audits_enqueued q current abandoned o = Ok (audit, number, o') ->
  appends o o' /\ forall envelope, audit = Some envelope -> ob_pending o' !! an_Sequence envelope = Some envelope.
Proof.
  unfold audits_enqueued. intros H. apply reject_if_ok in H as [_ H]. apply bind_ok in H as ([audit' o1] & H1 & H).
  assert (H01 : appends o o1 /\ forall envelope, audit' = Some envelope -> ob_pending o1 !! an_Sequence envelope = Some envelope /\ an_Sequence envelope = ob_sequence o1).
  { unfold enqueueAuditLocked in H1. destruct (tq_Audit q) as [event|]; [|by injection H1 as <- <-]. apply bind_ok in H1 as ([envelope o2] & H1 & H2).
    injection H2 as <- <-. destruct (enqueue_appends _ _ _ _ H1) as (E1 & E2 & E3). split; [done|]. by intros ? [= <-]. }
  destruct H01 as [A1 A2]. destruct abandoned as [[child record]|]; [|injection H as <- _ <-; split; [done|]; intros; by apply A2].
  apply bind_ok in H as ([envelope o2] & H2 & H). injection H as <- _ <-. destruct (enqueue_appends _ _ _ _ H2) as [E1 _]. split; [by transitivity o1|].
  intros en Hen. destruct (A2 _ Hen) as [P1 P2]. rewrite (ap_kept _ _ E1); [done|lia].
Qed.

(** An operation that appends, and leaves the claims of requests. *)
Definition request_records (r : MemoryRepository) : gmap serverRequestKey ServerRequestRecord := ch_requests (rp_children r).
Record requests_kept (m m' : gmap serverRequestKey ServerRequestRecord) : Prop := MkRequestsKept {
  rk_present : forall k, is_Some (m !! k) -> is_Some (m' !! k);
  rk_claimed : forall k record, m' !! k = Some record -> rr_State record = ServerRequestClaimed -> m !! k = Some record;
}.
Lemma requests_same m : requests_kept m m.
Proof. by constructor. Qed.
Lemma requests_closed m k record : rr_State record <> ServerRequestClaimed -> requests_kept m (<[k := record]> m).
Proof.
  intros Hr. constructor.
  - intros k' Hk. destruct (decide (k = k')) as [->|]; [rewrite lookup_insert_eq; by eexists|by rewrite lookup_insert_ne].
  - intros k' record' [[<- <-]|[_ ?]]%lookup_insert_Some Hc; done.
Qed.
Record kept (r r' : MemoryRepository) : Prop := MkKept {
  kp_outbox : appends (rp_outbox r) (rp_outbox r');
  kp_requests : requests_kept (request_records r) (request_records r');
}.
Lemma kept_same r r' : rp_outbox r' = rp_outbox r -> request_records r' = request_records r -> kept r r'.
Proof. intros H1 H2. constructor; [by rewrite H1|rewrite H2; apply requests_same]. Qed.
Lemma release_same r key e : rp_outbox (release r key e) = rp_outbox r /\ request_records (release r key e) = request_records r.
Proof. unfold release. case_bool_decide; [|done]. destruct (CurrentAttempt e) as [a ok]. by destruct ok. Qed.

Lemma admit_kept ctx r e s r' : Admit ctx r e = Ok (s, r') -> kept r r'.
Proof.
  unfold Admit. intros H. apply bind_ok in H as ([] & _ & H). destruct (rp_effects r !! _) as [existing|]; do 2 apply reject_if_ok in H as [_ H];
    injection H as <- <-; by apply kept_same.
Qed.
Lemma dispatch_kept ctx r q p r' : CommitAndClaimDispatch ctx r q = Ok (p, r') -> kept r r'.
Proof.
  unfold CommitAndClaimDispatch. intros H. apply bind_ok in H as ([] & _ & H). apply bind_ok in H as (current & _ & H). do 4 apply reject_if_ok in H as [_ H].
  destruct (CurrentAttempt (dq_Next q)) as [a ok]. do 2 apply reject_if_ok in H as [_ H]. injection H as <- <-. by apply kept_same.
Qed.
(** The record of an abandoned request is no longer claimed. *)
Lemma abandoned_kept now scope key child record audit c : requests_kept (ch_requests c) (ch_requests (store_abandoned now scope key child record audit c)).
Proof. unfold store_abandoned. destruct (needs_broker record); by apply requests_closed. Qed.
Lemma settle_start_kept now r key current intent q r1 : settle_start now r key current intent q = Ok r1 -> request_records r1 = request_records r.
Proof.
  unfold settle_start. destruct (CurrentAttempt current) as [a ok]. destruct ok; [|by destruct (tq_ProviderStart q); [|intros [= <-]]].
  destruct (tq_ProviderStart q), (cl_starts (rp_claims r) !! _) as [start|]; try done.
  - intros H. apply reject_if_ok in H as [_ H]. by injection H as <-.
  - destruct (_ == _); [|by intros [= <-]]. intros H. apply reject_if_ok in H as [_ H]. by injection H as <-.
  - by intros [= <-].
Qed.
Lemma commit_kept ctx now r q s r' : Commit ctx now r q = Ok (s, r') ->
  kept r r' /\ forall envelope, st_Audit s = Some envelope -> ob_pending (rp_outbox r') !! an_Sequence envelope = Some envelope.
Proof.
  unfold Commit. intros H. apply bind_ok in H as ([] & _ & H). apply bind_ok in H as (current & _ & H). do 4 apply reject_if_ok in H as [_ H].
  apply bind_ok in H as (r1 & Hr1%settle_start_kept & H). apply bind_ok in H as ([] & _ & H). apply reject_if_ok in H as [_ H]. apply bind_ok in H as (child & _ & H).
  apply reject_if_ok in H as [_ H]. apply bind_ok in H as ([[audit number] outbox] & [Ha Ha']%audits_append & H). injection H as <- <-.
  set (ra := if _ && negb (Terminal (tq_Next q)) then _ else with_outbox outbox r1). set (rb := match child with Some _ => _ | None => ra end).
  set (rd := if cancellation_intent current (tq_Next q) then _ else _).
  assert (Hb : rp_outbox rb = outbox /\ requests_kept (request_records r) (request_records rb)).
  { assert (Hra : rp_outbox ra = outbox /\ request_records ra = request_records r) by (unfold ra; by destruct (bool_decide _ && _)). destruct Hra as [A1 A2].
    unfold rb. destruct child as [[ck cr]|]; [|rewrite A2; split; [done|apply requests_same]]. split; [exact A1|]. rewrite <- A2. apply abandoned_kept. }
  assert (Hd : rp_outbox rd = outbox /\ request_records rd = request_records rb) by (unfold rd; destruct Hb; by destruct (cancellation_intent current (tq_Next q))).
  destruct Hb as [_ Hb], Hd as [D1 D2]. rewrite <- D2 in Hb.
  assert (He : rp_outbox (if Terminal (tq_Next q) && negb (retainsLateProviderOwner (tq_Next q)) && negb match child with Some (_, record) => needs_broker record | None => false end
    then release rd (effect_key (tq_Previous q)) (tq_Next q) else rd) = outbox /\
    request_records (if Terminal (tq_Next q) && negb (retainsLateProviderOwner (tq_Next q)) && negb match child with Some (_, record) => needs_broker record | None => false end
    then release rd (effect_key (tq_Previous q)) (tq_Next q) else rd) = request_records rd).
  { destruct (_ && _ && _); [|done]. destruct (release_same rd (effect_key (tq_Previous q)) (tq_Next q)) as [-> ->]. done. }
  destruct He as [E1 E2]. split; [constructor; [by rewrite E1|by rewrite E2]|]. intros envelope Hen. rewrite E1. by apply Ha'.
Qed.
Lemma start_kept ctx now r q p r' : ClaimProviderStart ctx now r q = Ok (p, r') -> kept r r'.
Proof.
  unfold ClaimProviderStart. intros H. apply bind_ok in H as ([] & _ & H). apply reject_if_ok in H as [_ H]. apply bind_ok in H as (current & _ & H).
  do 3 apply reject_if_ok in H as [_ H]. destruct (CurrentAttempt current) as [a ok]. do 2 apply reject_if_ok in H as [_ H].
  destruct (cl_starts (rp_claims r) !! _) as [existing|]; [apply reject_if_ok in H as [_ H]|]; injection H as <- <-; by apply kept_same.
Qed.
Lemma resolve_kept ctx now r scope e p r' : ResolveProviderStart ctx now r scope e = Ok (p, r') -> kept r r'.
Proof.
  unfold ResolveProviderStart. intros H. apply bind_ok in H as ([] & _ & H). apply bind_ok in H as (current & _ & H).
  do 2 apply reject_if_ok in H as [_ H]. destruct (CurrentAttempt current) as [a ok]. apply reject_if_ok in H as [_ H].
  destruct (cl_starts (rp_claims r) !! _) as [start|]; [|apply reject_if_ok in H as [_ H]; injection H as <- <-; by apply kept_same].
  destruct (_ && _) in H; [injection H as <- <-; by apply kept_same|]. destruct (_ == _) in H; [destruct (_ && _) in H|]; injection H as <- <-; by apply kept_same.
Qed.
Lemma cancellation_kept ctx now r q p r' : ClaimCancellation ctx now r q = Ok (p, r') -> kept r r'.
Proof.
  unfold ClaimCancellation. intros H. apply bind_ok in H as ([] & _ & H). apply reject_if_ok in H as [_ H]. apply bind_ok in H as (current & _ & H).
  do 2 apply reject_if_ok in H as [_ H]. destruct (CurrentAttempt current) as [a ok]. apply reject_if_ok in H as [_ H].
  destruct (_ && _) in H; [injection H as <- <-; by apply kept_same|]. destruct (pending_child _ _) as [[child method]|]; injection H as <- <-; by apply kept_same.
Qed.
(** A claim: none is granted, or the request is new, or its claim is taken over. *)
Definition permit_request (p : ServerRequestPermit) : serverRequestKey := (rq_ParentInvocationID p, rq_ProviderRequestID p, rq_ConnectionGeneration p, rq_RequestID p).
Definition claim_of (s : StoredServerRequest) : ServerRequestPermit := rr_Permit (sq_Record s).
Inductive claim_step (m m' : gmap serverRequestKey ServerRequestRecord) (a : res mcp_error StoredServerRequest) : Prop :=
| claim_refused : m' = m -> (forall s, a = Ok s -> sq_Fresh s = false) -> claim_step m m' a
| claim_new s : a = Ok s -> m !! permit_request (claim_of s) = None -> m' = <[permit_request (claim_of s) := sq_Record s]> m -> rq_ClaimGeneration (claim_of s) = 1 ->
    claim_step m m' a
| claim_taken s k existing : a = Ok s -> sq_Fresh s = true -> m !! k = Some existing -> rr_State existing = ServerRequestClaimed -> m' = <[k := sq_Record s]> m ->
    rq_ClaimGeneration (claim_of s) = u64 (rq_ClaimGeneration (rr_Permit existing) + 1) -> claim_step m m' a.
Lemma request_step ctx now r q a r' : ClaimServerRequest ctx now r q = Ok (a, r') ->
  appends (rp_outbox r) (rp_outbox r') /\ claim_step (request_records r) (request_records r') a.
Proof.
  unfold ClaimServerRequest. intros H. apply bind_ok in H as ([] & _ & H). apply reject_if_ok in H as [_ H]. apply bind_ok in H as (current & _ & H).
  apply reject_if_ok in H as [_ H]. apply bind_ok in H as ([] & _ & H). do 2 apply reject_if_ok in H as [_ H].
  destruct (ch_requests (rp_children r) !! _) as [existing|] eqn:Hk.
  - apply bind_ok in H as ([stored r1] & Ha & H). injection H as <- <-. unfold claim_again in Ha. apply reject_if_ok in Ha as [_ Ha].
    destruct (_ == _) in Ha; [injection Ha as <- <-; split; [done|]; apply claim_refused; [done|by intros s [= <-]]|]. apply reject_if_ok in Ha as [Hs Ha].
    apply bind_ok in Ha as ([] & _ & Ha). bools in Hs.
    destruct (_ && _) in Ha; injection Ha as <- <-; (split; [done|]); [apply claim_refused; [done|by intros s [= <-]]|]. by eapply claim_taken.
  - apply reject_if_ok in H as [_ H]. apply bind_ok in H as ([] & _ & H). destruct (_ <=? _).
    + apply bind_ok in H as ([en o] & He & H). injection H as <- <-. split; [by eapply enqueue_appends|]. by apply claim_refused.
    + apply reject_if_ok in H as [_ H]. injection H as <- <-. split; [done|]. by eapply claim_new.
Qed.
Lemma complete_kept ctx r q p r' : CompleteServerRequest ctx r q = Ok (p, r') ->
  kept r r' /\ forall envelope, sq_Audit p = Some envelope -> ob_pending (rp_outbox r') !! an_Sequence envelope = Some envelope.
Proof.
  unfold CompleteServerRequest. intros H. apply bind_ok in H as ([] & _ & H). destruct (sm_Audit q); [|done]. apply bind_ok in H as (record & _ & H).
  apply bind_ok in H as (current & _ & H). do 2 apply reject_if_ok in H as [_ H]. destruct (_ == _) in H.
  - apply reject_if_ok in H as [_ H]. injection H as <- <-. split; [by apply kept_same|done].
  - do 3 apply reject_if_ok in H as [_ H]. apply bind_ok in H as ([en o] & He & H). injection H as <- <-.
    destruct (enqueue_appends _ _ _ _ He) as (E1 & E2 & _). split; [|by intros ? [= <-]]. constructor; [done|]. by apply requests_closed.
Qed.
Lemma reconcile_kept ctx now r scope e p r' : ReconcileServerRequests ctx now r scope e = Ok (p, r') -> kept r r'.
Proof.
  unfold ReconcileServerRequests. intros H. apply bind_ok in H as ([] & _ & H). apply bind_ok in H as (current & _ & H). apply reject_if_ok in H as [_ H].
  destruct (ch_reconciliations (rp_children r) !! _) as [child|].
  - apply reject_if_ok in H as [_ H]. destruct (ch_requests (rp_children r) !! child), (ch_permits (rp_children r) !! child); try done.
    apply reject_if_ok in H as [_ H]. injection H as <- <-. by apply kept_same.
  - destruct (ch_active (rp_children r) !! _) as [child|]; [|injection H as <- <-; by apply kept_same]. apply reject_if_ok in H as [_ H].
    apply bind_ok in H as (record & _ & H). apply reject_if_ok in H as [_ H]. destruct (_ <? _); [injection H as <- <-; by apply kept_same|].
    apply bind_ok in H as ([en o] & He & H). injection H as <- <-. constructor; [by eapply enqueue_appends|apply abandoned_kept].
Qed.
Lemma reconciled_kept ctx r q p r' : CompleteServerRequestReconciliation ctx r q = Ok (p, r') -> kept r r'.
Proof.
  unfold CompleteServerRequestReconciliation. intros H. apply bind_ok in H as ([] & _ & H). apply bind_ok in H as (current & _ & H). apply reject_if_ok in H as [_ H].
  apply bind_ok in H as (child & _ & H). apply reject_if_ok in H as [_ H]. apply bind_ok in H as (record & _ & H). apply reject_if_ok in H as [Hrec H].
  apply bind_ok in H as (record' & Hrecord & H). injection H as <- <-.
  set (r1 := with_children _ r). assert (H1 : kept r r1).
  { constructor; [done|]. apply requests_closed. unfold reconcilable in Hrec. bools in Hrec. destruct Hrec as [Hrec _].
    destruct (rr_Method record == sampling_method); apply reject_if_ok in Hrecord as [_ Hrecord]; injection Hrecord as <-; simpl; by rewrite Hrec. }
  destruct (Terminal current && _); [|done]. destruct (release_same r1 (id_value (rq_ParentInvocationID (sx_Permit q))) current) as [R1 R2].
  destruct H1 as [K1 K2]. constructor; [by rewrite R1|by rewrite R2].
Qed.
Lemma append_kept ctx r event p r' : AppendAudit ctx r event = Ok (p, r') -> kept r r'.
Proof.
  unfold AppendAudit. intros H. apply bind_ok in H as ([] & _ & H). apply bind_ok in H as ([en o] & He & H). injection H as <- <-. constructor; [by eapply enqueue_appends|apply requests_same].
Qed.
Lemma authority_kept r scope r' : SetCurrentAuthority r scope = Ok r' -> kept r r'.
Proof. unfold SetCurrentAuthority. intros H. apply reject_if_ok in H as [_ H]. injection H as <-. by apply kept_same. Qed.
(** What is read from the outbox is in it. *)
Lemma pending_from_in o : forall fuel n limit envelope, envelope ∈ pending_from fuel n limit o -> exists m, ob_pending o !! m = Some envelope.
Proof.
  induction fuel as [|fuel IH]; intros n limit envelope; simpl; [by intros ?%elem_of_nil|]. destruct (_ && _); [|by intros ?%elem_of_nil].
  destruct (ob_pending o !! n) as [en|] eqn:Hn; [|apply IH]. intros [->|Hin]%elem_of_cons; [by exists n|by eapply IH].
Qed.
Lemma pending_in ctx r limit pending envelope : PendingAudits ctx r limit = Ok pending -> envelope ∈ pending -> exists m, ob_pending (rp_outbox r) !! m = Some envelope.
Proof. unfold PendingAudits. intros H. apply bind_ok in H as ([] & _ & H). apply reject_if_ok in H as [_ H]. injection H as <-. apply pending_from_in. Qed.
