(* ===== verification/McpExecutor.v ===== *)
(** * MCP gateway: calls to the dependencies, and admission
    ([internal/mcpgateway/types.go], [gateway.go], [executor.go])

    The operations of the gateway are programs over calls to the authority, the tool
    authorizer, the credential broker, the providers, the brokers of server requests, the
    audit sink and the repository, each of which may answer anything: a value, or an error without one. [ContextErr Caller]
    is [ctx.Err()] of the caller, [ContextErr Cleanup] that of a bounded context that
    outlives it. *)

From S2P Require Import Prelude Programs GoText GoCrypto Canonical Identity BrokerTypes McpGateway McpMachine McpStore.
#[local] Open Scope string_scope.
#[local] Open Scope list_scope.
#[local] Open Scope Z_scope.
#[local] Open Scope go_scope.
#[local] Open Scope prog_scope.

(** ** Requests and answers *)
Record AuthorityRequest := MkAuthorityRequest { au_EffectID : ID; au_InvocationID : ID; au_RequestDigest : Digest; au_Permission : string }.
Record CurrentAuthorityRequest := MkCurrentRequest {
  cu_Scope : ValidatedAuthority; cu_RequestDigest : Digest; cu_ProviderRequestID : string; cu_ConnectionGeneration : Z; cu_Attempt : Z; cu_Permission : string;
}.
Record ToolAuthorizationRequest := MkToolRequest {
  tz_Scope : ValidatedAuthority; tz_ServerID : string; tz_ToolName : string; tz_RequestDigest : Digest; tz_Permission : string;
}.
Record CredentialRequest := MkCredentialRequest {
  cz_Handle : string; cz_TenantID : ID; cz_UserID : ID; cz_ServerID : string; cz_Audience : string; cz_TargetRef : string;
}.
Record CredentialPermit := MkCredentialPermit { ct_Proof : Digest; ct_Durable : bool; ct_Request : CredentialRequest }.
Definition no_credential : CredentialPermit := MkCredentialPermit zero_digest false (MkCredentialRequest "" no_id no_id "" "" "").
#[global] Instance CredentialRequest_eq_dec : EqDecision CredentialRequest.
Proof. solve_decision. Defined.
Record ServerAvailability := MkAvailability {
  sy_Available : bool; sy_DurableNegotiation : bool; sy_NegotiatedProtocolVersion : string; sy_Affinity : BackendAffinity;
  sy_SupportsInvocationLedger : bool; sy_SupportsIdempotencyKey : bool;
}.
Record AdmissionRequest := MkAdmissionRequest {
  ad_Authority : bytes; ad_EffectID : ID; ad_InvocationID : ID; ad_RequestDigest : Digest; ad_Call : CallRequest;
}.
Record NegotiationCommand := MkNegotiationCommand {
  nc_Scope : ValidatedAuthority; nc_Server : ServerDescriptor; nc_ToolName : string; nc_InvocationID : ID; nc_RequestDigest : Digest; nc_Attempt : Z;
  nc_Authorization : ToolAuthorizationPermit; nc_Credential : CredentialPermit; nc_Dispatch : DispatchPermit;
}.
(** What [Start] receives: the dispatch of the machine under the current scope, with the
    permits. *)
Record ProviderCommand := MkProviderCommand {
  pc_Command : DispatchCommand; pc_Authorization : ToolAuthorizationPermit; pc_Credential : CredentialPermit; pc_Dispatch : DispatchPermit;
  pc_Negotiation : StartNegotiationReceipt; pc_Start : ProviderStartPermit;
}.
Record ProviderCancel := MkProviderCancel {
  px_Command : CancelCommand; px_Credential : CredentialPermit; px_Cancellation : CancellationPermit; px_Start : ProviderStartPermit;
}.
(** A provider's call, and the error of [Start] as [errors.As] classifies it. *)
Record ProviderStartResult := MkStartResult { sl_ProviderRequestID : string; sl_Call : option nat }.
Inductive StartError := StartDefinitelyNotSent | StartUnknown.
Inductive ProviderEventKind := ProviderOutputChunk | ProviderCompleted | OtherProviderEvent.
Record ProviderEvent := MkProviderEvent { pe_Kind : ProviderEventKind; pe_Chunk : bytes; pe_Output : bytes; pe_ExternalCommitID : string }.
Record LedgerQuery := MkLedgerQuery {
  lq_Scope : ValidatedAuthority; lq_Server : ServerDescriptor; lq_ToolName : string; lq_InvocationID : ID; lq_RequestDigest : Digest;
  lq_Credential : CredentialPermit; lq_Negotiation : StartNegotiationReceipt; lq_Start : ProviderStartPermit;
}.
Record CancellationResult := MkCancellationResult { cs_Status : CancellationStatus; cs_Record : LedgerRecord }.
(** Requests of servers to the brokers. *)
Record SamplingRequest := MkSampling {
  sp_Scope : ValidatedAuthority; sp_ParentEffectID : ID; sp_ParentInvocationID : ID; sp_RequestDigest : Digest; sp_RequestID : string;
  sp_ParamsCanonical : bytes; sp_Claim : ServerRequestPermit; sp_ChildEffectID : ID; sp_ChildInvocationID : ID;
}.
Record SamplingParentLifecycleReceipt := MkLifecycle {
  pl_Proof : Digest; pl_Durable : bool; pl_Scope : ValidatedAuthority; pl_ParentEffectID : ID; pl_ParentInvocationID : ID; pl_ChildEffectID : ID;
  pl_ChildInvocationID : ID; pl_RequestDigest : Digest; pl_ClaimProof : Digest; pl_Suspended : bool; pl_Resumed : bool;
}.
Record SamplingResult := MkSamplingResult {
  su_Value : Value; su_EffectID : ID; su_InvocationID : ID; su_Scope : ValidatedAuthority; su_ParentEffectID : ID; su_ParentInvocationID : ID;
  su_RequestDigest : Digest; su_Durable : bool; su_ParentLifecycle : SamplingParentLifecycleReceipt;
}.
Record ElicitationRequest := MkElicitation {
  eq_Scope : ValidatedAuthority; eq_ParentEffectID : ID; eq_ParentInvocationID : ID; eq_RequestDigest : Digest; eq_RequestID : string;
  eq_ParamsCanonical : bytes; eq_Claim : ServerRequestPermit;
}.

(** ** Calls *)
Inductive CtxKind := Caller | Cleanup.
Inductive MCall : Type -> Type :=
| ContextErr (k : CtxKind) : MCall (option mcp_error)
| ValidateAdmission (authority : bytes) (q : AuthorityRequest) : MCall (res mcp_error ValidatedAuthority)
| ValidateCurrent (authority : bytes) (q : CurrentAuthorityRequest) : MCall (res mcp_error ValidatedAuthority)
| Authorize (q : ToolAuthorizationRequest) : MCall (res mcp_error ToolAuthorizationPermit)
| AuthorizeCredential (q : CredentialRequest) : MCall (res mcp_error CredentialPermit)
| Availability (provider : string) (d : ServerDescriptor) : MCall (res mcp_error ServerAvailability)
| Negotiate (provider : string) (c : NegotiationCommand) : MCall (res mcp_error StartNegotiationReceipt)
| Start (provider : string) (c : ProviderCommand) : MCall (ProviderStartResult * option StartError)
| NextEvent (call : nat) : MCall (res mcp_error ProviderEvent)
| CloseCall (call : nat) : MCall unit
| ProviderCancelCall (provider : string) (c : ProviderCancel) : MCall (res mcp_error CancellationResult)
| Lookup (provider : string) (q : LedgerQuery) : MCall (res mcp_error LedgerRecord)
| Accept (chunk : bytes) : MCall (option mcp_error)
| SamplingCancel (q : ChildCancellationRequest) : MCall (res mcp_error SamplingCancellationReceipt)
| ElicitationCancel (q : ChildCancellationRequest) : MCall (ElicitationCancellationReceipt * option mcp_error)
| Sample (q : SamplingRequest) : MCall (res mcp_error SamplingResult)
| ResumeSampling (q : SamplingRequest) : MCall (res mcp_error SamplingResult)
| Elicit (q : ElicitationRequest) : MCall (res mcp_error Value)
| Roots (scope : ValidatedAuthority) : MCall (res mcp_error (list string))
| NewIdentity (kind : Kind) : MCall (res mcp_error ID)
| RecordAudit (e : AuditEvent) : MCall (option mcp_error)
(** the repository *)
| StoreReplay (q : AdmissionReplayRequest) : MCall (res mcp_error StoredEffect)
| StoreAdmit (e : Effect) : MCall (res mcp_error StoredEffect)
| StoreLoad (invocation : ID) : MCall (res mcp_error StoredEffect)
| StoreDispatch (q : DispatchClaimRequest) : MCall (res mcp_error DispatchPermit)
| StoreStart (q : ProviderStartClaimRequest) : MCall (res mcp_error ProviderStartPermit)
| StoreResolve (scope : ValidatedAuthority) (e : Effect) : MCall (res mcp_error StoredProviderStartResolution)
| StoreCancellation (q : CancellationClaimRequest) : MCall (res mcp_error CancellationClaim)
| StoreCommit (q : TransitionCommitRequest) : MCall (res mcp_error StoredEffect)
| StoreReconcile (scope : ValidatedAuthority) (parent : Effect) : MCall (res mcp_error ServerRequestReconcileResult)
| StoreReconciled (q : ServerRequestReconcileCommitRequest) : MCall (res mcp_error StoredServerRequest)
| StoreClaimRequest (q : ServerRequestClaimRequest) : MCall (res mcp_error StoredServerRequest)
| StoreCompleteRequest (q : ServerRequestCommitRequest) : MCall (res mcp_error StoredServerRequest)
| StorePending (limit : Z) : MCall (res mcp_error (list AuditEnvelope))
| StoreAcknowledge (sequence : Z) : MCall (res mcp_error unit).
Abbreviation MProg A := (Prog MCall A).

(** [redactedDependencyError]: the error of the context, one that may be shown, or the
    fallback. *)
Definition redactedDependencyError (k : CtxKind) (e fallback : mcp_error) (allowed : list mcp_error) : MProg mcp_error :=
  c <-- ask (ContextErr k) ;; Ret (match c with Some x => x | None => if bool_decide (e ∈ allowed) then e else fallback end).
(** A call whose error is redacted. *)
Definition redacting {A} (k : CtxKind) (call : MCall (res mcp_error A)) (fallback : mcp_error) (allowed : list mcp_error) : MProg (res mcp_error A) :=
  r <-- ask call ;; match r with Ok a => done a | Err e => x <-- redactedDependencyError k e fallback allowed ;; raise x end.
(** The same for a call that answers a value and an error, of which the error prevails. *)
Definition redacting_pair {A} (k : CtxKind) (call : MCall (A * option mcp_error)) (fallback : mcp_error) (allowed : list mcp_error) : MProg (res mcp_error A) :=
  r <-- ask call ;; match r.2 with None => done r.1 | Some e => x <-- redactedDependencyError k e fallback allowed ;; raise x end.
Definition require (b : bool) (e : mcp_error) : MProg (res mcp_error unit) := pure (reject_if (negb b) e).
Definition check_context : MProg (res mcp_error unit) := c <-- ask (ContextErr Caller) ;; match c with Some e => raise e | None => done tt end.

(** ** Availability and credentials *)
Definition checkAvailability (server : ServerRegistration) (tool : ToolRegistration) : MProg (res mcp_error ServerAvailability) :=
  a <- redacting Caller (Availability (sv_ProviderID server) (descriptorFor server)) ErrProviderUnavailable [] ;;
  _ <- require (sy_Available a) ErrProviderUnavailable ;;
  _ <- require (sy_DurableNegotiation a && (sy_NegotiatedProtocolVersion a == sv_ProtocolVersion server)) ErrProtocolMismatch ;;
  _ <- require (negb ((sv_Transport server == TransportStdio) && (sy_Affinity a != sv_Affinity server))) ErrAffinityMismatch ;;
  _ <- require (negb ((sv_Transport server == TransportStreamableHTTP) && (sy_Affinity a != no_affinity))) ErrAffinityMismatch ;;
  _ <- require (negb ((tr_ReplayPolicy tool == ReplayIdempotencyKey) && (negb (sy_SupportsIdempotencyKey a) || negb (sy_SupportsInvocationLedger a))))
         ErrProviderUnavailable ;;
  done a.
Definition authorizeCredential (gw : Gateway) (k : CtxKind) (scope : ValidatedAuthority) (server : ServerRegistration) : MProg (res mcp_error CredentialPermit) :=
  if cb_Handle (sv_Credential server) == "" then done no_credential
  else
    _ <- require (gw_credentials gw) ErrCredentialUnavailable ;;
    let q := MkCredentialRequest (cb_Handle (sv_Credential server)) (va_TenantID scope) (va_UserID scope) (sv_ServerID server)
      (cb_Audience (sv_Credential server)) (sv_TargetRef server) in
    p <- redacting k (AuthorizeCredential q) ErrCredentialUnavailable [ErrCredentialUnavailable; ErrCredentialMismatch; ErrStaleAuthority] ;;
    _ <- require (ct_Durable p && (ct_Proof p != zero_digest) && (ct_Request p == q)) ErrCredentialMismatch ;;
    done p.

(** ** Admission *)
Section admission.
Context `{N : Normalizer} (gw : Gateway).
Definition valid_authority (authority : bytes) : bool := negb (zlen authority =? 0) && (zlen authority <=? MaxAuthorityBytes (gw_bounds gw)).
Definition new_effect (scope : ValidatedAuthority) (digest : Digest) (input : bytes) (server : ServerRegistration) (tool : ToolRegistration)
  (a : ServerAvailability) : Effect :=
  MkEffect (MkCall scope digest (sv_ServerID server) (tr_ToolName tool) (sv_ProviderID server) (sv_Transport server) (sv_TargetRef server)
      (sv_ProtocolVersion server) (sv_Affinity server) (sv_Credential server) input (tr_SideEffecting tool) (tr_ReplayPolicy tool)
      (tr_MaxAutomaticRetries tool) (tr_MaxConfirmationRetries tool) (sy_SupportsInvocationLedger a) (sy_SupportsIdempotencyKey a))
    StateAdmitted 1 0 0 [] 0 0 0 0 "" [] "" false.
(** The registration of a server and tool for a scope. *)
Definition registration (scope : ValidatedAuthority) (serverID toolName : string) : res mcp_error (ServerRegistration * ToolRegistration) :=
  let key := (va_TenantID scope, va_UserID scope, serverID) in
  server ← from_option Ok (Err ErrServerNotAllowed) (gw_servers gw !! key);
  server ← resolveServerRegistration server scope;
  tool ← from_option Ok (Err ErrToolNotAllowed) (gw_tools gw !! (key, toolName));
  Ok (server, tool).
(** In [Admit] the error of an unresolved affinity is redacted like that of a
    dependency. *)
Definition admission_registration (scope : ValidatedAuthority) (serverID toolName : string) : MProg (res mcp_error (ServerRegistration * ToolRegistration)) :=
  let key := (va_TenantID scope, va_UserID scope, serverID) in
  server <- pure (from_option Ok (Err ErrServerNotAllowed) (gw_servers gw !! key)) ;;
  server <- (match resolveServerRegistration server scope with
             | Ok s => done s
             | Err e => x <-- redactedDependencyError Caller e ErrToolNotAllowed [ErrInvalidRequest; ErrServerNotAllowed; ErrToolNotAllowed; ErrAuthorizationMismatch] ;; raise x
             end) ;;
  tool <- pure (from_option Ok (Err ErrToolNotAllowed) (gw_tools gw !! (key, toolName))) ;;
  done (server, tool).
Definition authorize_tool (scope : ValidatedAuthority) (serverID toolName : string) (digest : Digest) : MProg (res mcp_error ToolAuthorizationPermit) :=
  permit <- redacting Caller (Authorize (MkToolRequest scope serverID toolName digest "mcp.tools.call")) ErrToolNotAllowed
    [ErrInvalidRequest; ErrServerNotAllowed; ErrToolNotAllowed; ErrAuthorizationMismatch; ErrStaleAuthority] ;;
  _ <- require (validAuthorizationPermit permit scope serverID toolName digest) ErrAuthorizationMismatch ;;
  done permit.
Definition valid_replay (scope : ValidatedAuthority) (effectID : ID) (digest : Digest) (serverID toolName : string) (input : bytes) (s : StoredEffect) : bool :=
  let c := ef_Call (st_Effect s) in
  st_Durable s && is_ok (validateEffect gw (st_Effect s)) && sameOperationScope scope (ca_Scope c) && (va_EffectID (ca_Scope c) == effectID)
  && (ca_RequestDigest c == digest) && (ca_ServerID c == serverID) && (ca_ToolName c == toolName) && (ca_InputCanonical c == input).
Definition admit_new (scope : ValidatedAuthority) (digest : Digest) (input : bytes) (server : ServerRegistration) (tool : ToolRegistration)
  : MProg (res mcp_error Effect) :=
  a <- checkAvailability server tool ;;
  _ <- authorizeCredential gw Caller scope server ;;
  let e := new_effect scope digest input server tool a in
  stored <- redacting Caller (StoreAdmit e) ErrStoreUnavailable
    [ErrInvocationConflict; ErrEffectInFlight; ErrStaleAuthority; ErrInvalidTransition; ErrConcurrentTransition] ;;
  _ <- require (st_Durable stored && sameImmutableEffect (st_Effect stored) e) ErrStoreUnavailable ;;
  _ <- require (is_ok (validateEffect gw (st_Effect stored))) ErrStoreUnavailable ;;
  done (st_Effect stored).
Definition Gateway_Admit (q : AdmissionRequest) : MProg (res mcp_error Effect) :=
  _ <- check_context ;;
  _ <- require ((id_kind (ad_EffectID q) == "effect") && (id_kind (ad_InvocationID q) == "inv") && (ad_RequestDigest q != zero_digest)
                && valid_authority (ad_Authority q)) ErrInvalidRequest ;;
  canonical <- pure (canonicalizeCall (ad_Call q) (gw_bounds gw)) ;;
  let '(input, digest) := canonical in
  _ <- require (digest == ad_RequestDigest q) ErrInvalidRequest ;;
  scope <- redacting Caller (ValidateAdmission (ad_Authority q) (MkAuthorityRequest (ad_EffectID q) (ad_InvocationID q) digest "mcp.tools.call"))
    ErrStaleAuthority [ErrInvalidRequest; ErrStaleAuthority; ErrAuthorityMismatch] ;;
  _ <- require (validScope scope && (va_EffectID scope == ad_EffectID q) && (va_InvocationID scope == ad_InvocationID q)) ErrAuthorityMismatch ;;
  registered <- admission_registration scope (cr_ServerID (ad_Call q)) (cr_ToolName (ad_Call q)) ;;
  let '(server, tool) := registered in
  _ <- authorize_tool scope (sv_ServerID server) (tr_ToolName tool) digest ;;
  replayed <-- ask (StoreReplay (MkReplay scope (ad_EffectID q) (ad_InvocationID q) digest (sv_ServerID server) (tr_ToolName tool) input)) ;;
  match replayed with
  | Ok s =>
      _ <- require (valid_replay scope (ad_EffectID q) digest (sv_ServerID server) (tr_ToolName tool) input s) ErrStoreUnavailable ;;
      done (st_Effect s)
  | Err e =>
      if e == ErrInvocationNotFound then admit_new scope digest input server tool
      else x <-- redactedDependencyError Caller e ErrStoreUnavailable
             [ErrInvocationConflict; ErrStaleAuthority; ErrInvalidTransition; ErrConcurrentTransition] ;; raise x
  end.
End admission.

(** ** MCP gateway: execution, cancellation, recovery and confirmation
    ([internal/mcpgateway/executor.go])

    The programs of the gateway. An outcome is the effect that is returned, if any, with
    the errors that [errors.Join] joins; no error is the empty list. [persist] commits what
    [Apply] made of an effect. *)

Abbreviation Outcome := (option Effect * list mcp_error)%type (only parsing).
(** The error of a step is returned with the effect [e], if any. *)
Definition step_or {A B} (p : MProg (res mcp_error A)) (failed : mcp_error -> B) (k : A -> MProg B) : MProg B :=
  r <-- p ;; match r with Ok a => k a | Err e => Ret (failed e) end.
Definition failing (e : option Effect) (error : mcp_error) : Outcome := (e, [error]).
Definition no_event (revision : Z) (kind : EventKind) : Event :=
  MkEvent revision kind "" [] [] "" NoFailure "" NoCancellation no_ledger NoDecision no_negotiation.
Definition failed_with (e : Effect) (class : FailureClass) (reason : string) : Event :=
  MkEvent (ef_Revision e) EventDispatchFailed "" [] [] "" class reason NoCancellation no_ledger NoDecision no_negotiation.
Definition observed (e : Effect) (record : LedgerRecord) : Event :=
  MkEvent (ef_Revision e) EventRecoveryObserved "" [] [] "" NoFailure "" NoCancellation record NoDecision no_negotiation.
Definition resolved_as (e : Effect) (status : CancellationStatus) (record : LedgerRecord) : Event :=
  MkEvent (ef_Revision e) EventCancellationResolved "" [] [] "" NoFailure "" status record NoDecision no_negotiation.
Definition committed_as (e : Effect) (output : bytes) (commit : string) : Event :=
  MkEvent (ef_Revision e) EventCallCommitted "" [] output commit NoFailure "" NoCancellation no_ledger NoDecision no_negotiation.

(** ** Permits *)
Definition validDispatchPermit (p : DispatchPermit) (e : Effect) (authorization : ToolAuthorizationPermit) (attempt : Z) : bool :=
  let c := ef_Call e in
  dp_Durable p && (dp_Proof p != zero_digest) && (dp_Scope p == ta_Scope authorization) && (dp_InvocationID p == va_InvocationID (ca_Scope c))
  && (dp_RequestDigest p == ca_RequestDigest c) && (dp_ProviderID p == ca_ProviderID c) && (dp_Attempt p == attempt)
  && (dp_EffectRevision p == ef_Revision e) && (dp_Authorization p == authorization).
Definition validProviderStartPermit (p : ProviderStartPermit) (e : Effect) (scope : ValidatedAuthority) (dispatch : DispatchPermit) : bool :=
  let '(attempt, ok) := CurrentAttempt e in
  let c := ef_Call e in
  ok && ps_Durable p && (ps_Proof p != zero_digest) && (ps_Scope p == scope) && (ps_InvocationID p == va_InvocationID (ca_Scope c))
  && (ps_RequestDigest p == ca_RequestDigest c) && (ps_ProviderID p == ca_ProviderID c) && (ps_Attempt p == at_Attempt attempt)
  && (ps_EffectRevision p == ef_Revision e) && (ps_ClaimGeneration p != 0) && (ps_LeaseExpires p != 0) && (ps_Dispatch p == dispatch)
  && (ps_Negotiation p == at_Negotiation attempt).
Definition validHistoricalProviderStartPermit (p : ProviderStartPermit) (e : Effect) (scope : ValidatedAuthority) : bool :=
  let '(attempt, ok) := CurrentAttempt e in
  let c := ef_Call e in
  let d := ps_Dispatch p in
  ok && ps_Durable p && (ps_Proof p != zero_digest) && sameOperationScope (ps_Scope p) scope && sameOperationScope (ps_Scope p) (ca_Scope c)
  && (ps_InvocationID p == va_InvocationID (ca_Scope c)) && (ps_RequestDigest p == ca_RequestDigest c) && (ps_ProviderID p == ca_ProviderID c)
  && (ps_Attempt p == at_Attempt attempt) && (ps_ClaimGeneration p != 0) && (dp_EffectRevision d <? ps_EffectRevision p)
  && (ps_EffectRevision p <=? ef_Revision e) && (ps_LeaseExpires p != 0) && (ps_Negotiation p == at_Negotiation attempt)
  && (dp_InvocationID d == va_InvocationID (ca_Scope c)) && (dp_RequestDigest d == ca_RequestDigest c) && (dp_ProviderID d == ca_ProviderID c)
  && (dp_Attempt d == at_Attempt attempt).
Definition validCancellationServerRequest (p : CancellationPermit) (e : Effect) (scope : ValidatedAuthority) : bool :=
  let child := cp_ServerRequest p in
  let method := cp_ServerRequestMethod p in
  if child == no_request_permit then method == ""
  else
    rq_Durable child && (rq_Proof child != zero_digest) && sameOperationScope (rq_Scope child) scope
    && (rq_ParentInvocationID child == va_InvocationID (ca_Scope (ef_Call e))) && (rq_RequestDigest child != zero_digest)
    && (rq_ClaimGeneration child != 0) && (rq_LeaseExpires child != 0)
    && (if method == sampling_method then (id_kind (rq_ChildEffectID child) == "effect") && (id_kind (rq_ChildInvocationID child) == "inv")
        else if method == elicitation_method then (rq_ChildEffectID child == no_id) && (rq_ChildInvocationID child == no_id)
        else false).
Definition validCancellationPermit (p : CancellationPermit) (e : Effect) (scope : ValidatedAuthority) : bool :=
  let '(attempt, ok) := CurrentAttempt e in
  let c := ef_Call e in
  ok && cp_Durable p && (cp_Proof p != zero_digest) && (cp_Scope p == scope) && (cp_InvocationID p == va_InvocationID (ca_Scope c))
  && (cp_RequestDigest p == ca_RequestDigest c) && (cp_ProviderID p == ca_ProviderID c) && (cp_ProviderRequestID p == at_ProviderRequestID attempt)
  && (cp_Attempt p == at_Attempt attempt) && (cp_EffectRevision p == ef_Revision e) && (cp_ClaimGeneration p != 0) && (cp_LeaseExpires p != 0)
  && ((cp_Start p == no_start) || validHistoricalProviderStartPermit (cp_Start p) e scope) && validCancellationServerRequest p e scope.

Section executor.
Context `{N : Normalizer} (gw : Gateway).

(** ** The repository *)
Definition commit_errors : list mcp_error :=
  [ErrConcurrentTransition; ErrEffectInFlight; ErrStaleAuthority; ErrInvalidTransition; ErrInvocationNotFound].
Definition persistAfterExternalWithClaims (scope : ValidatedAuthority) (previous next : Effect) (cancellation : option CancellationPermit)
  (start : option ProviderStartPermit) : MProg (res mcp_error Effect) :=
  stored <- redacting Cleanup (StoreCommit (MkCommit (ef_Revision previous) scope previous next None cancellation start)) ErrStoreUnavailable commit_errors ;;
  _ <- require (st_Durable stored && (st_Effect stored == next)) ErrStoreUnavailable ;;
  done (st_Effect stored).
Definition persistAfterExternal (scope : ValidatedAuthority) (previous next : Effect) : MProg (res mcp_error Effect) :=
  persistAfterExternalWithClaims scope previous next None None.
Definition loadDurableEffect (k : CtxKind) (invocation : ID) : MProg (res mcp_error Effect) :=
  stored <- redacting k (StoreLoad invocation) ErrStoreUnavailable [ErrInvocationNotFound; ErrStaleAuthority; ErrConcurrentTransition] ;;
  _ <- require (st_Durable stored && is_ok (validateEffect gw (st_Effect stored))) ErrStoreUnavailable ;;
  done (st_Effect stored).
Definition invocation_of (e : Effect) : ID := va_InvocationID (ca_Scope (ef_Call e)).
Definition loadAuthoritativeEffect (k : CtxKind) (supplied : Effect) : MProg (res mcp_error Effect) :=
  stored <- loadDurableEffect k (invocation_of supplied) ;;
  if stored == supplied then done stored
  else
    _ <- require (sameImmutableEffect stored supplied && (ef_Revision supplied <? ef_Revision stored)) ErrConcurrentTransition ;;
    done stored.
Definition current_request (e : Effect) (permission : string) : CurrentAuthorityRequest :=
  let a := (CurrentAttempt e).1 in
  MkCurrentRequest (ca_Scope (ef_Call e)) (ca_RequestDigest (ef_Call e)) (at_ProviderRequestID a) (ng_ConnectionGeneration (at_Negotiation a))
    (at_Attempt a) permission.
Definition validateCurrentAuthority (k : CtxKind) (authority : bytes) (q : CurrentAuthorityRequest) : MProg (res mcp_error ValidatedAuthority) :=
  scope <- redacting k (ValidateCurrent authority q) ErrStaleAuthority [ErrInvalidRequest; ErrStaleAuthority; ErrAuthorityMismatch] ;;
  _ <- require (validScope scope && sameOperationScope scope (cu_Scope q)) ErrAuthorityMismatch ;;
  done scope.
Definition registrationForEffect (e : Effect) : res mcp_error (ServerRegistration * ToolRegistration) :=
  registration gw (ca_Scope (ef_Call e)) (ca_ServerID (ef_Call e)) (ca_ToolName (ef_Call e)).
Definition closeProviderCall (call : option nat) : MProg unit := match call with Some c => ask (CloseCall c) | None => Ret tt end.

(** ** Requests of servers to be cancelled *)
Definition reconcile_errors : list mcp_error := [ErrConcurrentTransition; ErrEffectInFlight; ErrStaleAuthority; ErrInvocationNotFound].
Definition child_errors : list mcp_error := [ErrServerRequestDenied; ErrInvocationNotFound; ErrEffectInFlight; ErrStaleAuthority].
Definition cancelReconciledServerRequest (k : CtxKind) (scope : ValidatedAuthority) (parent : Effect) (permit : ServerRequestPermit) (method : string)
  : MProg (res mcp_error unit) :=
  let q := child_cancellation scope parent permit in
  commit <- (if method == sampling_method then
               _ <- require (gw_sampling gw) ErrServerRequestDenied ;;
               receipt <- redacting k (SamplingCancel q) ErrServerRequestDenied child_errors ;;
               _ <- require (validSamplingCancellationReceipt receipt q) ErrServerRequestDenied ;;
               done (MkReconcileCommit scope permit receipt no_elicitation_receipt)
             else if method == elicitation_method then
               _ <- require (gw_elicitation gw) ErrServerRequestDenied ;;
               receipt <- redacting_pair k (ElicitationCancel q) ErrServerRequestDenied child_errors ;;
               _ <- require (validElicitationCancellationReceipt receipt q) ErrServerRequestDenied ;;
               done (MkReconcileCommit scope permit no_sampling_receipt receipt)
             else raise ErrServerRequestDenied) ;;
  stored <-- ask (StoreReconciled commit) ;;
  match stored with
  | Ok s =>
      let record := sq_Record s in
      require (sq_Durable s && (rr_State record == ServerRequestAbandoned)
               && negb ((method == sampling_method) && (rr_ChildCancellation record != sx_Cancellation commit))
               && negb ((method == elicitation_method) && (rr_ElicitationCancellation record != sx_ElicitationCancellation commit))) ErrStoreUnavailable
  | Err e =>
      settled <-- (if e == ErrInvocationConflict then
                     r <-- ask (StoreReconcile scope parent) ;; Ret (match r with Ok r => rc_Durable r && negb (rc_PendingCancellation r) | Err _ => false end)
                   else Ret false) ;;
      if settled : bool then done tt
      else x <-- redactedDependencyError k e ErrStoreUnavailable [ErrInvocationConflict; ErrStaleAuthority; ErrInvocationNotFound; ErrServerRequestDenied] ;; raise x
  end.
(** The reconciliation at the start of [Cancel] and [Recover]. *)
Definition reconcile (k : CtxKind) (scope : ValidatedAuthority) (e : Effect) : MProg (res mcp_error ServerRequestReconcileResult) :=
  redacting k (StoreReconcile scope e) ErrStoreUnavailable reconcile_errors.
Definition pending_method (r : ServerRequestReconcileResult) : string := from_option rr_Method "" (rc_Record r).

(** ** Cancellation *)
Definition settle (scope : ValidatedAuthority) (e : Effect) : MProg Outcome :=
  step_or (pure (Apply gw e (no_event (ef_Revision e) EventSettlementCompleted))) (failing (Some e)) (fun settled =>
  r <-- persistAfterExternal scope e (tn_Effect settled) ;;
  Ret (match r with Ok x => (Some x, []) | Err x => (None, [x]) end)).
Definition resolveCancellationFailure (scope : ValidatedAuthority) (current : Effect) (permit : CancellationPermit) (cause : mcp_error) : MProg Outcome :=
  match Apply gw current (resolved_as current CancellationUnknown no_ledger) with
  | Err x => Ret (Some current, [cause; x])
  | Ok resolved =>
      r <-- persistAfterExternalWithClaims scope current (tn_Effect resolved) (Some permit) None ;;
      Ret (match r with Ok e => (Some e, [cause]) | Err x => (None, [cause; x]) end)
  end.
(** After the outcome of a cancellation was committed: a result is settled. *)
Definition settle_cancelled (k : CtxKind) (scope : ValidatedAuthority) (current : Effect) (errors : list mcp_error) : MProg Outcome :=
  if ef_State current != StateExternallyCommitted then Ret (Some current, errors)
  else
    match Apply gw current (no_event (ef_Revision current) EventSettlementCompleted) with
    | Err x => Ret (Some current, errors ++ [x])
    | Ok settled =>
        r <-- persistAfterExternal scope current (tn_Effect settled) ;;
        match r with
        | Ok e => Ret (Some e, errors)
        | Err x =>
            if x == ErrConcurrentTransition then
              loaded <-- loadDurableEffect k (invocation_of current) ;;
              Ret (match loaded with
                   | Err y => (Some (tn_Effect settled), errors ++ [y])
                   | Ok l => if ef_State l == StateCompleted then (Some l, errors) else (Some (tn_Effect settled), errors ++ [x])
                   end)
            else Ret (Some (tn_Effect settled), errors ++ [x])
        end
    end.
Definition known_status (s : CancellationStatus) : bool :=
  match s with CancellationPrevented | CancellationAbsent | CancellationCommitted | CancellationUnknown => true | _ => false end.
(** The answer of the provider as an event, and the errors to report with it. *)
Definition cancellation_event (current : Effect) (result : CancellationResult) (errors : list mcp_error) : Event * list mcp_error :=
  let '(result, errors) := if known_status (cs_Status result) then (result, errors)
                           else (MkCancellationResult CancellationUnknown (cs_Record result), errors ++ [ErrInvalidRequest]) in
  if cs_Status result == CancellationCommitted then
    if validateLedgerRecord (gw_bounds gw) (cs_Record result) false then (resolved_as current CancellationCommitted (cs_Record result), errors)
    else (resolved_as current CancellationUnknown no_ledger, errors ++ [ErrLedgerMismatch])
  else (resolved_as current (cs_Status result) no_ledger, errors).
Definition cancel_at_provider (k : CtxKind) (scope : ValidatedAuthority) (current : Effect) (permit : CancellationPermit) (credential : CredentialPermit)
  : MProg Outcome :=
  let attempt := (CurrentAttempt current).1 in
  let c := ef_Call current in
  let command := MkCancel scope (serverForEffect c) (ca_ToolName c) (va_InvocationID (ca_Scope c)) (ca_RequestDigest c) (at_ProviderRequestID attempt)
    (at_Attempt attempt) (at_Negotiation attempt) in
  answer <-- ask (ProviderCancelCall (ca_ProviderID c) (MkProviderCancel command credential permit (cp_Start permit))) ;;
  answered <-- (match answer with
                | Ok r => Ret (r, [])
                | Err e => x <-- redactedDependencyError k e ErrProviderUnavailable [ErrProviderUnavailable; ErrProtocolMismatch; ErrAffinityMismatch] ;;
                           Ret (MkCancellationResult CancellationUnknown no_ledger, [x])
                end) ;;
  let '(event, errors) := cancellation_event current answered.1 answered.2 in
  match Apply gw current event with
  | Err x => Ret (Some current, errors ++ [x])
  | Ok resolved =>
      r <-- persistAfterExternalWithClaims scope current (tn_Effect resolved) (Some permit) None ;;
      match r with
      | Ok e => settle_cancelled k scope e errors
      | Err x =>
          if x == ErrConcurrentTransition then
            loaded <-- loadDurableEffect k (invocation_of current) ;;
            match loaded with
            | Err y => Ret (Some (tn_Effect resolved), errors ++ [y])
            | Ok l =>
                match ef_State l with
                | StateExternallyCommitted | StateCompleted => settle_cancelled k scope l errors
                | StateCancelled | StateUncertain | StateNeedsConfirmation | StateFailed => Ret (Some l, errors)
                | _ => Ret (Some l, errors ++ [ErrConcurrentTransition])
                end
            end
          else Ret (Some (tn_Effect resolved), errors ++ [x])
      end
  end.
(** The result says whether the provider was asked now. *)
Definition dispatchCancellation (k : CtxKind) (scope : ValidatedAuthority) (current : Effect) : MProg (Outcome * bool) :=
  step_or (redacting k (StoreCancellation (MkCancellationRequest scope current (CancelTimeout (gw_bounds gw)))) ErrStoreUnavailable commit_errors)
    (fun x => (failing (Some current) x, false)) (fun claim =>
  let permit := cm_Permit claim in
  if negb (validCancellationPermit permit current scope) then Ret (failing (Some current) ErrDispatchNotDurable, false)
  else if negb (cm_Fresh claim) then Ret ((Some current, []), false)
  else
    child <-- (if cp_ServerRequest permit != no_request_permit then
                 cancelReconciledServerRequest k scope current (cp_ServerRequest permit) (cp_ServerRequestMethod permit)
               else done tt) ;;
    match child with
    | Err x => Ret (failing (Some current) x, true)
    | Ok _ =>
        out <-- (if cp_Start permit == no_start then
                   step_or (pure (Apply gw current (resolved_as current CancellationPrevented no_ledger))) (failing (Some current)) (fun resolved =>
                   r <-- persistAfterExternalWithClaims scope current (tn_Effect resolved) (Some permit) None ;;
                   Ret (match r with Ok e => (Some e, []) | Err x => (None, [x]) end))
                 else
                   match registrationForEffect current with
                   | Err x => resolveCancellationFailure scope current permit x
                   | Ok (server, _) =>
                       credential <-- authorizeCredential gw k scope server ;;
                       match credential with
                       | Err x => resolveCancellationFailure scope current permit x
                       | Ok credential => cancel_at_provider k scope current permit credential
                       end
                   end) ;;
        Ret (out, true)
    end).

(** A failure that leaves nothing open, and the states in which a cancellation is still to
    be requested. *)
Definition failed_for_good (e : Effect) : bool :=
  (ef_State e == StateFailed) && (let '(attempt, ok) := CurrentAttempt e in negb ok || (at_Failure attempt != FailureUnknown)).
(** The cancellation lost a race: the effect that won is cancelled, settled or returned. *)
Definition cancel_loaded (authority : bytes) (scope : ValidatedAuthority) (loaded : Effect) : MProg Outcome :=
  let again : MProg Outcome :=
    step_or (validateCurrentAuthority Cleanup authority (current_request loaded "mcp.cancel")) (failing (Some loaded)) (fun scope =>
    step_or (pure (Apply gw loaded (no_event (ef_Revision loaded) EventCancelRequested))) (failing (Some loaded)) (fun requested =>
    step_or (persistAfterExternal scope loaded (tn_Effect requested)) (failing (Some (tn_Effect requested))) (fun current =>
    if ef_State current == StateCancelled then Ret (Some current, [])
    else out <-- dispatchCancellation Cleanup scope current ;; Ret out.1))) in
  match ef_State loaded with
  | StateCompleted | StateCancelled => Ret (Some loaded, [])
  | StateFailed => if failed_for_good loaded then Ret (Some loaded, []) else again
  | StateAdmitted | StateRetryPending | StateDispatching | StateDispatched | StateStreaming | StateUncertain | StateNeedsConfirmation => again
  | StateCancellationPending => out <-- dispatchCancellation Cleanup scope loaded ;; Ret out.1
  | StateExternallyCommitted => settle scope loaded
  | OtherState _ => Ret (Some loaded, [ErrConcurrentTransition])
  end.
Definition request_cancellation (authority : bytes) (scope : ValidatedAuthority) (e : Effect) : MProg Outcome :=
  step_or (pure (Apply gw e (no_event (ef_Revision e) EventCancelRequested))) (failing None) (fun requested =>
  r <-- persistAfterExternal scope e (tn_Effect requested) ;;
  match r with
  | Ok current =>
      if ef_State current == StateCancelled then Ret (Some current, [])
      else out <-- dispatchCancellation Cleanup scope current ;; Ret out.1
  | Err x =>
      if x == ErrConcurrentTransition then
        step_or (loadDurableEffect Cleanup (invocation_of e)) (failing (Some (tn_Effect requested))) (cancel_loaded authority scope)
      else Ret (Some (tn_Effect requested), [x])
  end).
Definition Cancel (authority : bytes) (supplied : Effect) : MProg Outcome :=
  step_or (require (valid_authority gw authority) ErrInvalidRequest) (failing None) (fun _ =>
  step_or (pure (validateEffect gw supplied)) (failing None) (fun _ =>
  step_or (loadAuthoritativeEffect Cleanup supplied) (failing None) (fun e =>
  step_or (validateCurrentAuthority Cleanup authority (current_request e "mcp.cancel")) (failing None) (fun scope =>
  step_or (reconcile Cleanup scope e) (failing None) (fun reconciled =>
  step_or (require (rc_Durable reconciled) ErrStoreUnavailable) (failing None) (fun _ =>
  step_or (if rc_PendingCancellation reconciled then
             cancelReconciledServerRequest Cleanup scope e (rc_CancellationClaim reconciled) (pending_method reconciled)
           else done tt) (failing (Some e)) (fun _ =>
  match ef_State e with
  | StateCompleted | StateCancelled => Ret (Some e, [])
  | StateExternallyCommitted => settle scope e
  | StateCancellationPending => out <-- dispatchCancellation Cleanup scope e ;; Ret out.1
  | _ => if failed_for_good e then Ret (Some e, []) else request_cancellation authority scope e
  end))))))).
Definition joined (error : mcp_error) (out : Outcome) : Outcome := (out.1, error :: out.2).
Definition cancelling (authority : bytes) (e : Effect) (cause : mcp_error) : MProg Outcome := out <-- Cancel authority e ;; Ret (joined cause out).

(** ** Execution *)
Definition authorizeNewDispatch (authority : bytes) (e : Effect)
  : MProg (res mcp_error (ValidatedAuthority * ToolAuthorizationPermit * CredentialPermit)) :=
  let c := ef_Call e in
  scope <- redacting Caller (ValidateAdmission authority (MkAuthorityRequest (va_EffectID (ca_Scope c)) (va_InvocationID (ca_Scope c)) (ca_RequestDigest c)
      "mcp.tools.call")) ErrStaleAuthority [ErrInvalidRequest; ErrStaleAuthority; ErrAuthorityMismatch] ;;
  _ <- require (sameOperationScope scope (ca_Scope c)) ErrAuthorityMismatch ;;
  registered <- (match registrationForEffect e with
                 | Ok r => done r
                 | Err x => y <-- redactedDependencyError Caller x ErrToolNotAllowed [ErrInvalidRequest; ErrServerNotAllowed; ErrToolNotAllowed; ErrAuthorizationMismatch] ;; raise y
                 end) ;;
  let '(server, tool) := registered in
  authorization <- authorize_tool scope (ca_ServerID c) (ca_ToolName c) (ca_RequestDigest c) ;;
  a <- checkAvailability server tool ;;
  _ <- require (negb ((ca_SupportsInvocationLedger c && negb (sy_SupportsInvocationLedger a))
                      || (ca_SupportsIdempotencyKey c && negb (sy_SupportsIdempotencyKey a)))) ErrProviderUnavailable ;;
  credential <- authorizeCredential gw Caller scope server ;;
  done (scope, authorization, credential).

(** What is wrong with a receipt. *)
Definition receipt_error (command : DispatchCommand) (scope : ValidatedAuthority) (current : Effect) (receipt : StartNegotiationReceipt) : option mcp_error :=
  let server := dc_Server command in
  if (ng_NegotiatedProtocolVersion receipt != de_ProtocolVersion server) || (de_ProtocolVersion (ng_Server receipt) != de_ProtocolVersion server) then
    Some ErrProtocolMismatch
  else if (ng_Affinity receipt != de_Affinity server) || (de_Affinity (ng_Server receipt) != de_Affinity server) then Some ErrAffinityMismatch
  else if (ng_Scope receipt != scope) || negb (validNegotiationReceiptForEffect receipt (ef_Call current) (dc_Attempt command)) then Some ErrProtocolMismatch
  else None.
Definition with_scope (scope : ValidatedAuthority) (d : DispatchCommand) : DispatchCommand :=
  MkDispatch scope (dc_Server d) (dc_ToolName d) (dc_InputCanonical d) (dc_InvocationID d) (dc_RequestDigest d) (dc_ReplayPolicy d) (dc_IdempotencyKey d)
    (dc_Attempt d).
(** The failure of a dispatch is recorded; [start] is the claim that it settles. *)
Definition record_failure (scope : ValidatedAuthority) (current : Effect) (class : FailureClass) (reason : string) (start : option ProviderStartPermit)
  (report : list mcp_error) : MProg Outcome :=
  step_or (pure (Apply gw current (failed_with current class reason))) (failing (Some current)) (fun failed =>
  step_or (persistAfterExternalWithClaims scope current (tn_Effect failed) None start) (failing (Some (tn_Effect failed))) (fun e => Ret (Some e, report))).
(** A completed call: its result is committed, also when a cancellation or a failure was
    recorded meanwhile, and settled. *)
Definition settle_completed (scope : ValidatedAuthority) (current : Effect) : MProg Outcome :=
  if ef_State current == StateCompleted then Ret (Some current, [])
  else
    step_or (pure (Apply gw current (no_event (ef_Revision current) EventSettlementCompleted))) (failing (Some current)) (fun settled =>
    step_or (persistAfterExternal scope current (tn_Effect settled)) (failing (Some (tn_Effect settled))) (fun e => Ret (Some e, []))).
Definition merge_completed (scope : ValidatedAuthority) (committed loaded : Effect) (output : bytes) (commit : string) : MProg Outcome :=
  match ef_State loaded with
  | StateCancellationPending | StateUncertain | StateNeedsConfirmation | StateFailed =>
      step_or (pure (Apply gw loaded (committed_as loaded output commit))) (failing (Some loaded)) (fun merged =>
      step_or (persistAfterExternal scope loaded (tn_Effect merged)) (failing (Some committed)) (settle_completed scope))
  | StateExternallyCommitted | StateCompleted =>
      if (ef_Output loaded != output) || (ef_ExternalCommitID loaded != commit) then Ret (Some loaded, [ErrLedgerMismatch]) else settle_completed scope loaded
  | _ => Ret (Some loaded, [ErrConcurrentTransition])
  end.
Definition complete_call (authority : bytes) (scope : ValidatedAuthority) (current : Effect) (event : ProviderEvent) : MProg Outcome :=
  if negb (zlen (pe_Chunk event) =? 0) then cancelling authority current ErrInvalidRequest
  else
    match Apply gw current (committed_as current (pe_Output event) (pe_ExternalCommitID event)) with
    | Err x => cancelling authority current x
    | Ok committed =>
        r <-- persistAfterExternal scope current (tn_Effect committed) ;;
        match r with
        | Ok e => settle_completed scope e
        | Err x =>
            if x == ErrConcurrentTransition then
              step_or (loadDurableEffect Caller (invocation_of current)) (failing (Some (tn_Effect committed))) (fun loaded =>
              merge_completed scope (tn_Effect committed) loaded (pe_Output event) (pe_ExternalCommitID event))
            else Ret (Some (tn_Effect committed), [x])
        end
    end.
(** The stream of a call. [chunks] is the number of chunks that may still be accepted: the
    machine refuses more, so the last case is not reached. *)
Fixpoint stream (chunks : nat) (authority : bytes) (scope : ValidatedAuthority) (call : nat) (current : Effect) {struct chunks} : MProg Outcome :=
  c <-- ask (ContextErr Caller) ;;
  match c with
  | Some x => out <-- Cancel authority current ;; Ret (joined x out)
  | None =>
      next <-- ask (NextEvent call) ;;
      match next with
      | Err _ =>
          c <-- ask (ContextErr Caller) ;;
          match c with
          | Some x => out <-- Cancel authority current ;; Ret (joined x out)
          | None => record_failure scope current FailureUnknown "provider stream ended before completion" None []
          end
      | Ok event =>
          match pe_Kind event with
          | ProviderOutputChunk =>
              if negb (zlen (pe_Output event) =? 0) || (pe_ExternalCommitID event != "") then cancelling authority current ErrInvalidRequest
              else
                match Apply gw current (MkEvent (ef_Revision current) EventOutputChunk "" (pe_Chunk event) [] "" NoFailure "" NoCancellation no_ledger NoDecision no_negotiation) with
                | Err x => cancelling authority current x
                | Ok chunk =>
                    step_or (persistAfterExternal scope current (tn_Effect chunk)) (failing (Some (tn_Effect chunk))) (fun current =>
                    accepted <-- ask (Accept (pe_Chunk event)) ;;
                    match accepted with
                    | Some _ => cancelling authority current ErrBackpressure
                    | None => match chunks with S n => stream n authority scope call current | O => Ret (Some current, [ErrOutputLimit]) end
                    end)
                end
          | ProviderCompleted => complete_call authority scope current event
          | OtherProviderEvent => cancelling authority current ErrInvalidRequest
          end
      end
  end.

(** After [Start] answered: acceptance is recorded whatever happened to the caller. *)
Definition started (authority : bytes) (scope : ValidatedAuthority) (current : Effect) (startPermit : ProviderStartPermit) (start : ProviderStartResult)
  (error : option StartError) : MProg Outcome :=
  let id := sl_ProviderRequestID start in
  let valid := (strings_TrimSpace id != "") && (strings_TrimSpace id == id) && validBoundedText id (MaxProviderRequestIDBytes (gw_bounds gw)) in
  let error := if (id != "") && negb valid then Some StartUnknown else error in
  accepted <-- (if valid : bool then
                  match Apply gw current (MkEvent (ef_Revision current) EventProviderAccepted id [] [] "" NoFailure "" NoCancellation no_ledger NoDecision no_negotiation) with
                  | Err x => _ <-- closeProviderCall (sl_Call start) ;; Ret (inr (Some current, [x]))
                  | Ok accepted =>
                      r <-- persistAfterExternalWithClaims scope current (tn_Effect accepted) None (Some startPermit) ;;
                      match r with
                      | Err x => _ <-- closeProviderCall (sl_Call start) ;; Ret (inr (Some (tn_Effect accepted), [x]))
                      | Ok e => Ret (inl e)
                      end
                  end
                else Ret (inl current)) ;;
  match accepted : Effect + Outcome with
  | inr out => Ret out
  | inl current =>
      c <-- ask (ContextErr Caller) ;;
      match c with
      | Some x => _ <-- closeProviderCall (sl_Call start) ;; cancelling authority current x
      | None =>
          match error, sl_Call start, valid with
          | None, Some call, true =>
              out <-- stream (Z.to_nat (MaxChunks (gw_bounds gw))) authority scope call current ;;
              _ <-- closeProviderCall (Some call) ;;
              Ret out
          | _, _, _ =>
              _ <-- closeProviderCall (sl_Call start) ;;
              let class := match error with Some StartDefinitelyNotSent => if valid then FailureUnknown else FailureDefinitelyNotSent | _ => FailureUnknown end in
              record_failure scope current class "provider dispatch outcome is unknown" (if valid then None else Some startPermit) []
          end
      end
  end.
(** The start is claimed, and the provider called. *)
Definition start_errors : list mcp_error :=
  [ErrConcurrentTransition; ErrEffectInFlight; ErrStaleAuthority; ErrInvalidTransition; ErrInvocationNotFound; ErrDispatchNotDurable].
Definition claim_and_start (authority : bytes) (scope : ValidatedAuthority) (authorization : ToolAuthorizationPermit) (credential : CredentialPermit)
  (permit : DispatchPermit) (command : DispatchCommand) (receipt : StartNegotiationReceipt) (current : Effect) : MProg Outcome :=
  claimed <-- redacting Caller (StoreStart (MkStartClaim scope current permit (CancelTimeout (gw_bounds gw)))) ErrStoreUnavailable start_errors ;;
  match claimed with
  | Err x =>
      if (x == ErrConcurrentTransition) || (x == ErrEffectInFlight) || (x == ErrStaleAuthority) then
        loaded <-- loadDurableEffect Caller (invocation_of current) ;;
        Ret (match loaded with Ok l => if l != current then (Some l, []) else (Some current, [x]) | Err _ => (Some current, [x]) end)
      else Ret (Some current, [x])
  | Ok startPermit =>
      if negb (validProviderStartPermit startPermit current scope permit) then Ret (Some current, [ErrDispatchNotDurable])
      else
        answer <-- ask (Start (ca_ProviderID (ef_Call current)) (MkProviderCommand command authorization credential permit receipt startPermit)) ;;
        started authority scope current startPermit answer.1 answer.2
  end.
Definition negotiate (authority : bytes) (scope : ValidatedAuthority) (authorization : ToolAuthorizationPermit) (credential : CredentialPermit)
  (permit : DispatchPermit) (command : DispatchCommand) (current : Effect) : MProg Outcome :=
  let failed := "provider negotiation failed before tool dispatch" in
  answer <-- ask (Negotiate (ca_ProviderID (ef_Call current)) (MkNegotiationCommand scope (dc_Server command) (dc_ToolName command) (dc_InvocationID command)
    (dc_RequestDigest command) (dc_Attempt command) authorization credential permit)) ;;
  c <-- ask (ContextErr Caller) ;;
  match c with
  | Some x => cancelling authority current x
  | None =>
      match answer with
      | Err x =>
          record_failure scope current FailureDefinitelyNotSent failed None
            (if (x == ErrProtocolMismatch) || (x == ErrAffinityMismatch) then [x] else [])
      | Ok receipt =>
          match receipt_error command scope current receipt with
          | Some x => record_failure scope current FailureDefinitelyNotSent failed None [x]
          | None =>
              step_or (pure (Apply gw current (MkEvent (ef_Revision current) EventNegotiationRecorded "" [] [] "" NoFailure "" NoCancellation no_ledger NoDecision receipt)))
                (failing (Some current)) (fun negotiated =>
              step_or (persistAfterExternal scope current (tn_Effect negotiated)) (failing (Some (tn_Effect negotiated)))
                (claim_and_start authority scope authorization credential permit command receipt))
          end
      end
  end.
Definition Execute (authority : bytes) (hasSink : bool) (e : Effect) : MProg Outcome :=
  step_or check_context (failing None) (fun _ =>
  step_or (require (hasSink && valid_authority gw authority) ErrInvalidRequest) (failing None) (fun _ =>
  step_or (pure (validateEffect gw e)) (failing None) (fun _ =>
  step_or (require ((ef_State e == StateAdmitted) || (ef_State e == StateRetryPending)) ErrInvalidTransition) (failing None) (fun _ =>
  step_or (authorizeNewDispatch authority e) (failing None) (fun authorized =>
  let '(scope, authorization, credential) := authorized in
  step_or (pure (Apply gw e (no_event (ef_Revision e) EventBeginDispatch))) (failing None) (fun begin =>
  step_or (redacting Caller (StoreDispatch (MkDispatchClaim (ef_Revision e) scope e (tn_Effect begin) authorization)) ErrStoreUnavailable commit_errors)
    (failing None) (fun permit =>
  let current := tn_Effect begin in
  if negb (validDispatchPermit permit current authorization (at_Attempt (CurrentAttempt current).1)) then Ret (None, [ErrDispatchNotDurable])
  else
    match tn_Dispatch begin with
    | Some d => negotiate authority scope authorization credential permit (with_scope scope d) current
    | None => Ret (None, [])
    end))))))).
End executor.
