(* ===== verification/McpRecovery.v ===== *)
(** * MCP gateway: recovery, confirmation and the delivery of audits
    ([internal/mcpgateway/executor.go])

    [Recover] finds out what became of an effect and moves it on: it waits for a running
    request of the server or a running start, settles what was committed, resumes a
    cancellation, records that an unstarted attempt was not sent, and otherwise asks the
    ledger of the provider. [Confirm] records the decision of a user with its audit, and
    [FlushAudit] delivers the outbox. *)

From S2P Require Import Prelude Programs GoText GoCrypto Canonical Identity BrokerTypes McpGateway McpMachine McpStore McpExecutor.
#[local] Open Scope string_scope.
#[local] Open Scope list_scope.
#[local] Open Scope Z_scope.
#[local] Open Scope go_scope.
#[local] Open Scope prog_scope.

(** The zero value of an action is [None]. *)
Inductive RecoveryAction := RecoveryWait | RecoveryRetry | RecoverySettled | RecoveryConfirmation | RecoveryInterrupted.
#[global] Instance RecoveryAction_eq_dec : EqDecision RecoveryAction.
Proof. solve_decision. Defined.
Record RecoveryResult := MkRecovery { ry_Effect : option Effect; ry_Action : option RecoveryAction; ry_Errors : list mcp_error }.
Definition recoveryAction (e : option Effect) : RecoveryAction :=
  match ef_State <$> e with
  | Some StateRetryPending => RecoveryRetry
  | Some StateNeedsConfirmation => RecoveryConfirmation
  | Some StateCompleted => RecoverySettled
  | _ => RecoveryInterrupted
  end.
Definition recovery_failed (e : option Effect) (error : mcp_error) : RecoveryResult := MkRecovery e None [error].
Definition recovered_as (e : Effect) (action : RecoveryAction) : RecoveryResult := MkRecovery (Some e) (Some action) [].
Definition recovered_to (out : option Effect * list mcp_error) : RecoveryResult := MkRecovery out.1 (Some (recoveryAction out.1)) out.2.

Section recovery.
Context `{N : Normalizer} (gw : Gateway).

(** A result is settled; a concurrent settlement of the same result counts. *)
Definition settled_elsewhere (base loaded : Effect) : RecoveryResult :=
  if (ef_State loaded == StateCompleted) && (ef_Output loaded == ef_Output base) && (ef_ExternalCommitID loaded == ef_ExternalCommitID base) then
    recovered_as loaded RecoverySettled
  else MkRecovery (Some loaded) (Some (recoveryAction (Some loaded))) [ErrConcurrentTransition].
(** [unsettled] is what is returned when the commit fails otherwise. *)
Definition recover_settle (scope : ValidatedAuthority) (e : Effect) (rejected : mcp_error -> RecoveryResult) (unsettled : Effect -> mcp_error -> RecoveryResult)
  : MProg RecoveryResult :=
  step_or (pure (Apply gw e (no_event (ef_Revision e) EventSettlementCompleted))) rejected (fun settled =>
  r <-- persistAfterExternal scope e (tn_Effect settled) ;;
  match r with
  | Ok next => Ret (recovered_as next RecoverySettled)
  | Err x =>
      if x == ErrConcurrentTransition then
        step_or (loadDurableEffect gw Caller (invocation_of e)) (recovery_failed (Some (tn_Effect settled))) (fun loaded => Ret (settled_elsewhere e loaded))
      else Ret (unsettled (tn_Effect settled) x)
  end).
Definition settle_committed (scope : ValidatedAuthority) (e : Effect) : MProg RecoveryResult :=
  recover_settle scope e (recovery_failed None) (fun _ x => MkRecovery None (Some RecoverySettled) [x]).

(** An attempt without a recorded negotiation was not sent. *)
Definition recover_unnegotiated (scope : ValidatedAuthority) (e : Effect) : MProg RecoveryResult :=
  step_or (pure (Apply gw e (failed_with e FailureDefinitelyNotSent "provider negotiation was not durably recorded"))) (recovery_failed None) (fun failed =>
  r <-- persistAfterExternal scope e (tn_Effect failed) ;;
  match r with
  | Ok next => Ret (recovered_to (Some next, []))
  | Err x =>
      if x == ErrConcurrentTransition then
        step_or (loadDurableEffect gw Caller (invocation_of e)) (recovery_failed (Some (tn_Effect failed))) (fun loaded => Ret (recovered_to (Some loaded, [])))
      else Ret (recovered_to (None, [x]))
  end).
(** Nor was one whose start was prevented. *)
Definition recover_unstarted (scope : ValidatedAuthority) (e : Effect) : MProg RecoveryResult :=
  step_or (require ((ef_State e == StateDispatching) && (at_ProviderRequestID (CurrentAttempt e).1 == "")) ErrStoreUnavailable) (recovery_failed None) (fun _ =>
  step_or (pure (Apply gw e (failed_with e FailureDefinitelyNotSent "provider start was durably prevented"))) (recovery_failed None) (fun failed =>
  r <-- persistAfterExternal scope e (tn_Effect failed) ;;
  Ret (match r with Ok next => recovered_to (Some next, []) | Err x => recovered_to (None, [x]) end))).

(** ** The ledger of the provider *)
Definition unknown_record (e : Effect) : LedgerRecord := MkLedger (invocation_of e) (ca_RequestDigest (ef_Call e)) LedgerUnknown "" "" [] "".
Definition lookup_record (scope : ValidatedAuthority) (e : Effect) (start : ProviderStartPermit) : MProg (res mcp_error LedgerRecord) :=
  let c := ef_Call e in
  if ca_SupportsInvocationLedger c then
    registered <- pure (registrationForEffect gw e) ;;
    credential <- authorizeCredential gw Caller scope registered.1 ;;
    redacting Caller (Lookup (ca_ProviderID c) (MkLedgerQuery scope (serverForEffect c) (ca_ToolName c) (invocation_of e) (ca_RequestDigest c) credential
      (at_Negotiation (CurrentAttempt e).1) start)) ErrLedgerUnavailable [ErrLedgerUnavailable]
  else done (unknown_record e).
(** The states that already hold the identity of a running call. *)
Definition holds_identity (s : State) : bool :=
  match s with
  | StateDispatched | StateStreaming | StateCancellationPending | StateUncertain | StateNeedsConfirmation | StateFailed => true
  | _ => false
  end.
Definition observe_inflight (scope : ValidatedAuthority) (e : Effect) (record : LedgerRecord) : MProg RecoveryResult :=
  let '(attempt, ok) := CurrentAttempt e in
  let id := at_ProviderRequestID attempt in
  if negb ok || ((id != "") && (id != lg_ProviderRequestID record)) then Ret (recovery_failed None ErrLedgerMismatch)
  else if (id != "") && holds_identity (ef_State e) then Ret (recovered_as e RecoveryWait)
  else
    step_or (pure (Apply gw e (observed e record))) (recovery_failed None) (fun recovered =>
    r <-- persistAfterExternal scope e (tn_Effect recovered) ;;
    match r with
    | Ok current => Ret (recovered_as current RecoveryWait)
    | Err x =>
        if x == ErrConcurrentTransition then
          step_or (loadDurableEffect gw Caller (invocation_of e)) (recovery_failed (Some (tn_Effect recovered))) (fun loaded =>
          let '(loadedAttempt, ok) := CurrentAttempt loaded in
          Ret (if negb ok || (at_ProviderRequestID loadedAttempt != lg_ProviderRequestID record) then recovery_failed (Some loaded) ErrLedgerMismatch
               else recovered_as loaded RecoveryWait))
        else Ret (MkRecovery None (Some RecoveryWait) [x])
    end).
(** What is observed is recorded, and a result is settled. *)
Definition settle_observed (scope : ValidatedAuthority) (current : Effect) : MProg RecoveryResult :=
  if ef_State current == StateExternallyCommitted then
    recover_settle scope current (recovery_failed (Some current)) (fun settled => recovery_failed (Some settled))
  else Ret (recovered_to (Some current, [])).
Definition observe_outcome (scope : ValidatedAuthority) (e : Effect) (record : LedgerRecord) : MProg RecoveryResult :=
  step_or (pure (Apply gw e (observed e record))) (recovery_failed None) (fun recovered =>
  r <-- persistAfterExternal scope e (tn_Effect recovered) ;;
  match r with
  | Ok current => settle_observed scope current
  | Err x =>
      if x == ErrConcurrentTransition then
        step_or (loadDurableEffect gw Caller (invocation_of e)) (recovery_failed (Some (tn_Effect recovered))) (fun loaded =>
        if (lg_Status record == LedgerCommitted) && ((ef_State loaded == StateExternallyCommitted) || (ef_State loaded == StateCompleted)) then
          if (ef_Output loaded != lg_Output record) || (ef_ExternalCommitID loaded != lg_ExternalCommitID record) then
            Ret (recovery_failed (Some loaded) ErrLedgerMismatch)
          else settle_observed scope loaded
        else Ret (MkRecovery (Some loaded) (Some (recoveryAction (Some loaded))) [ErrConcurrentTransition]))
      else Ret (recovery_failed (Some (tn_Effect recovered)) x)
  end).
(** The records that say nothing new. *)
Definition unchanged (e : Effect) (record : LedgerRecord) : option RecoveryAction :=
  if (lg_Status record == LedgerUnknown) && (ef_State e == StateNeedsConfirmation) then Some RecoveryConfirmation
  else if (lg_Status record == LedgerAbsent) && (ef_State e == StateNeedsConfirmation) && (at_Failure (CurrentAttempt e).1 == FailureLedgerAbsent) then
    Some RecoveryConfirmation
  else if (lg_Status record == LedgerUnknown) && ((ef_State e == StateUncertain) || (ef_State e == StateFailed)) then Some RecoveryInterrupted
  else None.
Definition observe (scope : ValidatedAuthority) (e : Effect) (start : ProviderStartPermit) : MProg RecoveryResult :=
  let c := ef_Call e in
  if (ef_State e == StateNeedsConfirmation) && negb (ca_SupportsInvocationLedger c) then Ret (recovered_as e RecoveryConfirmation)
  else if (ef_State e == StateUncertain) && (ca_ReplayPolicy c == ReplayNever) && negb (ca_SupportsInvocationLedger c) then
    Ret (recovered_as e RecoveryInterrupted)
  else
    step_or (lookup_record scope e start) (recovery_failed None) (fun record =>
    step_or (require (validateLedgerRecord (gw_bounds gw) record true && (lg_InvocationID record == invocation_of e)
                      && (lg_RequestDigest record == ca_RequestDigest c)) ErrLedgerMismatch) (recovery_failed None) (fun _ =>
    if lg_Status record == LedgerInflight then observe_inflight scope e record
    else match unchanged e record with Some action => Ret (recovered_as e action) | None => observe_outcome scope e record end)).

(** ** Recovery *)
Definition recoverable (s : State) : bool :=
  match s with
  | StateDispatching | StateDispatched | StateStreaming | StateCancellationPending | StateUncertain | StateNeedsConfirmation | StateFailed => true
  | _ => false
  end.
Definition resolve_errors : list mcp_error :=
  [ErrConcurrentTransition; ErrEffectInFlight; ErrStaleAuthority; ErrInvalidTransition; ErrInvocationNotFound; ErrStoreUnavailable].
(** The start of the attempt is resolved before its outcome is looked up. *)
Definition recover_start (scope : ValidatedAuthority) (e : Effect) : MProg RecoveryResult :=
  step_or (require (recoverable (ef_State e)) ErrInvalidTransition) (recovery_failed None) (fun _ =>
  step_or (redacting Caller (StoreResolve scope e) ErrStoreUnavailable resolve_errors) (recovery_failed None) (fun start =>
  step_or (require (rv_Durable start && (0 <=? rv_RetryAfter start)) ErrStoreUnavailable) (recovery_failed None) (fun _ =>
  if rv_Active start then Ret (recovered_as e RecoveryWait)
  else if rv_Present start then
    if validHistoricalProviderStartPermit (rv_Permit start) e scope then observe scope e (rv_Permit start)
    else Ret (recovery_failed None ErrDispatchNotDurable)
  else recover_unstarted scope e))).
Definition resume_cancellation (scope : ValidatedAuthority) (e : Effect) : MProg RecoveryResult :=
  out <-- dispatchCancellation gw Cleanup scope e ;;
  Ret (match out.1.2, out.2 with
       | [], false => MkRecovery out.1.1 (Some RecoveryWait) []
       | _, _ => recovered_to out.1
       end).
Definition recover_unfinished (authority : bytes) (scope : ValidatedAuthority) (e : Effect) (reconciled : ServerRequestReconcileResult) : MProg RecoveryResult :=
  if (ef_State e == StateCompleted) || (ef_State e == StateCancelled) || failed_for_good e then Ret (recovered_to (Some e, []))
  else if rc_ParentCancelRequired reconciled then cancelled <-- Cancel gw authority e ;; Ret (recovered_to cancelled)
  else
    match ef_State e with
    | StateRetryPending => Ret (recovered_as e RecoveryRetry)
    | StateCancellationPending => resume_cancellation scope e
    | StateExternallyCommitted => settle_committed scope e
    | StateDispatching => if at_Negotiation (CurrentAttempt e).1 == no_negotiation then recover_unnegotiated scope e else recover_start scope e
    | _ => recover_start scope e
    end.
Definition Recover (authority : bytes) (supplied : Effect) : MProg RecoveryResult :=
  step_or check_context (recovery_failed None) (fun _ =>
  step_or (require (valid_authority gw authority) ErrInvalidRequest) (recovery_failed None) (fun _ =>
  step_or (pure (validateEffect gw supplied)) (recovery_failed None) (fun _ =>
  step_or (loadAuthoritativeEffect gw Caller supplied) (recovery_failed None) (fun e =>
  step_or (validateCurrentAuthority Caller authority (current_request e "mcp.recover")) (recovery_failed None) (fun scope =>
  step_or (reconcile Caller scope e) (recovery_failed None) (fun reconciled =>
  step_or (require (rc_Durable reconciled && (0 <=? rc_RetryAfter reconciled)) ErrStoreUnavailable) (recovery_failed None) (fun _ =>
  if rc_Active reconciled then Ret (recovered_as e RecoveryWait)
  else
    step_or (if rc_PendingCancellation reconciled then
               cancelReconciledServerRequest gw Caller scope e (rc_CancellationClaim reconciled) (pending_method reconciled)
             else done tt) (fun x => MkRecovery (Some e) (Some RecoveryWait) [x]) (fun _ =>
    recover_unfinished authority scope e reconciled)))))))).

(** ** Audits *)
Definition valid_envelope (envelope : AuditEnvelope) : bool :=
  let event := an_Event envelope in
  let b := gw_bounds gw in
  (an_Sequence envelope != 0) && (ae_OutboxSequence event == an_Sequence envelope) && (id_kind (ae_TenantID event) == "tenant")
  && (id_kind (ae_UserID event) == "subject") && (id_kind (ae_SessionID event) == "sess") && (id_kind (ae_TurnID event) == "turn")
  && (id_kind (ae_InvocationID event) == "inv") && validIdentifier (ae_ServerID event) (MaxServerIDBytes b)
  && validBoundedText (ae_Method event) (MaxToolNameBytes b) && validBoundedText (ae_Decision event) (MaxToolNameBytes b)
  && validBoundedText (ae_Reason event) (MaxFailureBytes b).
Definition deliverAuditEnvelope (k : CtxKind) (envelope : AuditEnvelope) : MProg (res mcp_error unit) :=
  _ <- require (valid_envelope envelope) ErrStoreUnavailable ;;
  recorded <-- ask (RecordAudit (an_Event envelope)) ;;
  match recorded with
  | Some e => x <-- redactedDependencyError k e ErrAuditUnavailable [ErrAuditUnavailable] ;; raise x
  | None => redacting k (StoreAcknowledge (an_Sequence envelope)) ErrStoreUnavailable [ErrInvalidRequest; ErrStoreUnavailable]
  end.
Fixpoint deliver_in_order (previous : Z) (pending : list AuditEnvelope) : MProg (res mcp_error unit) :=
  match pending with
  | [] => done tt
  | envelope :: rest =>
      _ <- require (previous <? an_Sequence envelope) ErrStoreUnavailable ;;
      _ <- deliverAuditEnvelope Caller envelope ;;
      deliver_in_order (an_Sequence envelope) rest
  end.
Definition FlushAudit (limit : Z) : MProg (res mcp_error unit) :=
  _ <- check_context ;;
  _ <- require (negb (limit =? 0) && (limit <=? MaxEvents (gw_bounds gw))) ErrInvalidRequest ;;
  pending <- redacting Caller (StorePending limit) ErrStoreUnavailable [ErrInvalidRequest; ErrStoreUnavailable] ;;
  _ <- require (u32 (zlen pending) <=? limit) ErrStoreUnavailable ;;
  deliver_in_order 0 pending.

(** ** Confirmation *)
Definition decision_text (d : ConfirmationDecision) : string :=
  match d with NoDecision => "" | ConfirmationRetry => "retry" | ConfirmationAbandon => "abandon" | OtherDecision s => s end.
Definition confirm_audit (e : Effect) (d : ConfirmationDecision) : AuditEvent :=
  let s := ca_Scope (ef_Call e) in
  MkAuditEvent 0 (va_TenantID s) (va_UserID s) (va_SessionID s) (va_TurnID s) (va_InvocationID s) (ca_ServerID (ef_Call e))
    "tools/call.confirm" (decision_text d) "uncertain MCP replay decision".
Definition decided (e : Effect) (d : ConfirmationDecision) : Event :=
  MkEvent (ef_Revision e) EventConfirmationDecided "" [] [] "" NoFailure "" NoCancellation no_ledger d no_negotiation.
Definition Confirm (authority : bytes) (e : Effect) (d : ConfirmationDecision) : MProg (option Effect * list mcp_error) :=
  step_or check_context (failing None) (fun _ =>
  step_or (require (valid_authority gw authority && ((d == ConfirmationRetry) || (d == ConfirmationAbandon))) ErrInvalidRequest) (failing None) (fun _ =>
  step_or (pure (validateEffect gw e)) (failing None) (fun _ =>
  step_or (validateCurrentAuthority Caller authority (current_request e "mcp.confirm")) (failing None) (fun scope =>
  step_or (pure (Apply gw e (decided e d))) (failing None) (fun transition =>
  step_or (redacting Cleanup (StoreCommit (MkCommit (ef_Revision e) scope e (tn_Effect transition) (Some (confirm_audit e d)) None None)) ErrStoreUnavailable
    commit_errors) (failing None) (fun stored =>
  match st_Durable stored && (st_Effect stored == tn_Effect transition), st_Audit stored with
  | true, Some envelope =>
      delivered <-- deliverAuditEnvelope Cleanup envelope ;;
      Ret (Some (st_Effect stored), match delivered with Ok _ => [] | Err x => [x] end)
  | _, _ => Ret (None, [ErrStoreUnavailable])
  end)))))).
End recovery.
