(* ===== verification/McpRequests.v ===== *)
(** * MCP gateway: requests of servers and advertised tools
    ([internal/mcpgateway/server_requests.go])

    While a call runs, its server may ask for a model sample, for input of the user, or for
    the roots of the workspace. What is not allowed explicitly is denied, with a durable
    receipt; what is allowed goes to a broker under a claim of the repository. *)

From S2P Require Import Prelude Programs GoText GoStrings GoCrypto Canonical Identity BrokerTypes McpGateway McpMachine McpStore McpExecutor McpRecovery.
#[local] Open Scope string_scope.
#[local] Open Scope list_scope.
#[local] Open Scope Z_scope.
#[local] Open Scope go_scope.
#[local] Open Scope prog_scope.

Record ServerRequest := MkServerRequest {
  vq_Authority : bytes; vq_Effect : Effect; vq_RequestID : string; vq_ProviderRequestID : string; vq_ConnectionGeneration : Z; vq_Method : string;
  vq_Params : Value;
}.
Definition jsonRPCMethodNotFound : Z := -32601.
Definition jsonRPCInvalidParams : Z := -32602.
Definition jsonRPCInternalError : Z := -32603.
(** The conversion of a string to a [ServerRequestMethod]. *)
Definition method_of (s : string) : ServerRequestMethod :=
  if s == sampling_method then ServerRequestSampling else if s == elicitation_method then ServerRequestElicitation
  else if s == roots_method then ServerRequestRoots else OtherMethod s.
Definition serverMethodAllowed (allowed : list ServerRequestMethod) (method : ServerRequestMethod) : bool := existsb (fun candidate => candidate == method) allowed.

Section requests.
Context `{N : Normalizer} (gw : Gateway).

(** ** Roots *)
Definition in_workspace (root : string) : bool := (root == "/workspace") || strings_HasPrefix root "/workspace/".
Definition file_uri (root : string) : string := url_String (MkURL "file" [] false [] (to_bytes root) [] false [] [] false).
Definition parses_back (root uri : string) : bool :=
  match url_Parse uri with
  | None => false
  | Some parsed =>
      (url_Scheme parsed == "file") && bool_decide (url_Host parsed = []) && bool_decide (url_Opaque parsed = []) && bool_decide (url_RawQuery parsed = [])
      && bool_decide (url_Fragment parsed = []) && bool_decide (url_Path parsed = to_bytes root)
      && match unescape encodePath (EscapedPath parsed) with
         | None => false
         | Some decoded => bool_decide (decoded = to_bytes root) && (path_Clean (of_bytes decoded) == of_bytes decoded) && in_workspace (of_bytes decoded)
         end
  end.
Fixpoint root_values (seen roots : list string) : res mcp_error (list Value) :=
  match roots with
  | [] => Ok []
  | root :: rest =>
      _ ← reject_if (negb (validBoundedText root (MaxTargetRefBytes (gw_bounds gw))) || (path_Clean root != root) || negb (in_workspace root)
                     || bool_decide (to_byte 92 ∈ to_bytes root)) ErrServerRequestDenied;
      _ ← reject_if (bool_decide (root ∈ seen)) ErrServerRequestDenied;
      let uri := file_uri root in
      _ ← reject_if (negb (parses_back root uri)) ErrServerRequestDenied;
      values ← root_values (root :: seen) rest;
      Ok (VMap [("uri", VString uri)] :: values)
  end.
Definition workspaceRootsValue (roots : list string) : res mcp_error Value :=
  _ ← reject_if (MaxChunks (gw_bounds gw) <? u32 (zlen roots)) ErrOutputLimit;
  values ← root_values [] roots;
  Ok (VMap [("roots", VArray values)]).

(** ** The request and its claim *)
Definition bounded_value (v : Value) (maximum : Z) : res cerror bytes :=
  _ ← preflightCanonical v 0 (MaxInputDepth (gw_bounds gw)) maximum;
  Encode v {| MaxDepth := MaxInputDepth (gw_bounds gw); MaxBytes := maximum; MaxItems := MaxItems DefaultOptions |}.
Definition invalid_params : bytes := to_bytes "invalid-or-oversized-params".
Definition request_digest (q : ServerRequest) (params : bytes) : res cerror Digest :=
  let c := ef_Call (vq_Effect q) in
  encoded ← Encode (VArray [VString "circulusd.hash"; VInt KInt64 1; VString "mcp.server.request"; VInt KInt64 1;
    VMap [("parentInvocation", VString (id_value (va_InvocationID (ca_Scope c)))); ("parentDigest", VBytes (ca_RequestDigest c));
          ("providerRequest", VString (vq_ProviderRequestID q)); ("connectionGeneration", VInt KInt64 (i64 (vq_ConnectionGeneration q)));
          ("requestId", VString (vq_RequestID q)); ("method", VString (vq_Method q)); ("params", VBytes params)]]) DefaultOptions;
  Ok (sha256_Sum256 encoded).
Definition child_identities (needed : bool) : MProg (res mcp_error (ID * ID)) :=
  if needed then
    effect <-- ask (NewIdentity "effect") ;;
    match effect with
    | Err _ => raise ErrStoreUnavailable
    | Ok effect => invocation <-- ask (NewIdentity "inv") ;; match invocation with Ok invocation => done (effect, invocation) | Err _ => raise ErrStoreUnavailable end
    end
  else done (no_id, no_id).
Definition claimed_for (q : ServerRequest) (digest : Digest) (s : StoredServerRequest) : bool :=
  let r := sq_Record s in
  sq_Durable s && (rr_ParentInvocationID r == invocation_of (vq_Effect q)) && (rr_ProviderRequestID r == vq_ProviderRequestID q)
  && (rr_RequestID r == vq_RequestID q) && (rr_ConnectionGeneration r == vq_ConnectionGeneration q) && (rr_Method r == vq_Method q)
  && (rr_RequestDigest r == digest).
Definition fresh_claim (q : ServerRequest) (scope : ValidatedAuthority) (digest : Digest) (s : StoredServerRequest) : bool :=
  let r := sq_Record s in
  let p := rr_Permit r in
  sq_Fresh s && (rr_State r == ServerRequestClaimed) && rq_Durable p && (rq_Proof p != zero_digest) && (rq_Scope p == scope)
  && (rq_ParentInvocationID p == invocation_of (vq_Effect q)) && (rq_ProviderRequestID p == vq_ProviderRequestID q)
  && (rq_ConnectionGeneration p == vq_ConnectionGeneration q) && (rq_RequestID p == vq_RequestID q) && (rq_RequestDigest p == digest)
  && (rq_ClaimGeneration p != 0) && (rq_LeaseExpires p != 0).
Definition claim_errors : list mcp_error :=
  [ErrInvocationConflict; ErrEffectInFlight; ErrStaleAuthority; ErrInvalidTransition; ErrAuthorityMismatch; ErrInvocationNotFound; ErrEventLimit].

(** ** Brokers *)
(** What a broker answered, with the receipts of a cancellation. *)
Record Brokered := MkBrokered { br_Result : res mcp_error Value; br_Sampling : SamplingCancellationReceipt; br_Elicitation : ElicitationCancellationReceipt }.
Definition uncancelled (r : res mcp_error Value) : Brokered := MkBrokered r no_sampling_receipt no_elicitation_receipt.
Definition cancellation_of (q : ServerRequest) (scope : ValidatedAuthority) (digest : Digest) (permit : ServerRequestPermit) : ChildCancellationRequest :=
  MkChildCancellation scope (va_EffectID (ca_Scope (ef_Call (vq_Effect q)))) (invocation_of (vq_Effect q)) digest permit.
Definition valid_sampling (s : SamplingResult) (request : SamplingRequest) : bool :=
  let l := su_ParentLifecycle s in
  su_Durable s && (id_kind (su_EffectID s) == "effect") && (id_kind (su_InvocationID s) == "inv") && (su_EffectID s != sp_ParentEffectID request)
  && (su_InvocationID s != sp_ParentInvocationID request) && (su_Scope s == sp_Scope request) && (su_ParentEffectID s == sp_ParentEffectID request)
  && (su_ParentInvocationID s == sp_ParentInvocationID request) && (su_RequestDigest s == sp_RequestDigest request)
  && (su_EffectID s == sp_ChildEffectID request) && (su_InvocationID s == sp_ChildInvocationID request)
  && pl_Durable l && (pl_Proof l != zero_digest) && (pl_Scope l == sp_Scope request) && (pl_ParentEffectID l == sp_ParentEffectID request)
  && (pl_ParentInvocationID l == sp_ParentInvocationID request) && (pl_ChildEffectID l == sp_ChildEffectID request)
  && (pl_ChildInvocationID l == sp_ChildInvocationID request) && (pl_RequestDigest l == sp_RequestDigest request)
  && (pl_ClaimProof l == rq_Proof (sp_Claim request)) && pl_Suspended l && pl_Resumed l.
Definition sampled (request : SamplingRequest) (answer : res mcp_error SamplingResult) : res mcp_error Value :=
  s ← answer; _ ← reject_if (negb (valid_sampling s request)) ErrServerRequestDenied; Ok (su_Value s).
Definition sample (q : ServerRequest) (scope : ValidatedAuthority) (digest : Digest) (params : bytes) (permit : ServerRequestPermit) : MProg (res mcp_error Brokered) :=
  let request := MkSampling scope (va_EffectID (ca_Scope (ef_Call (vq_Effect q)))) (invocation_of (vq_Effect q)) digest (vq_RequestID q) params permit
    (rq_ChildEffectID permit) (rq_ChildInvocationID permit) in
  answer <-- ask (if rq_ClaimGeneration permit =? 1 then Sample request else ResumeSampling request) ;;
  match sampled request answer with
  | Ok value => done (uncancelled (Ok value))
  | Err e =>
      let cancellation := cancellation_of q scope digest permit in
      receipt <- redacting Cleanup (SamplingCancel cancellation) ErrServerRequestDenied child_errors ;;
      _ <- require (validSamplingCancellationReceipt receipt cancellation) ErrServerRequestDenied ;;
      done (MkBrokered (Err e) receipt no_elicitation_receipt)
  end.
(** An elicitation that was claimed before is cancelled, not repeated. *)
Definition elicit (q : ServerRequest) (scope : ValidatedAuthority) (digest : Digest) (params : bytes) (permit : ServerRequestPermit) : MProg (res mcp_error Brokered) :=
  let cancellation := cancellation_of q scope digest permit in
  elicited <-- (if 1 <? rq_ClaimGeneration permit then
                  cancelled <-- ask (ElicitationCancel cancellation) ;;
                  Ret (Err (default ErrServerRequestDenied cancelled.2), cancelled.1)
                else
                  answer <-- ask (Elicit (MkElicitation scope (va_EffectID (ca_Scope (ef_Call (vq_Effect q)))) (invocation_of (vq_Effect q)) digest (vq_RequestID q) params permit)) ;;
                  Ret (answer, no_elicitation_receipt)) ;;
  match elicited with
  | (Ok value, _) => done (uncancelled (Ok value))
  | (Err e, receipt) =>
      if receipt == no_elicitation_receipt then
        receipt <- redacting_pair Cleanup (ElicitationCancel cancellation) ErrServerRequestDenied child_errors ;;
        _ <- require (validElicitationCancellationReceipt receipt cancellation) ErrServerRequestDenied ;;
        done (MkBrokered (Err e) no_sampling_receipt receipt)
      else done (MkBrokered (Err e) no_sampling_receipt receipt)
  end.
Definition broker (q : ServerRequest) (scope : ValidatedAuthority) (digest : Digest) (params : bytes) (permit : ServerRequestPermit) : MProg (res mcp_error Brokered) :=
  match method_of (vq_Method q) with
  | ServerRequestSampling => sample q scope digest params permit
  | ServerRequestElicitation => elicit q scope digest params permit
  | ServerRequestRoots => roots <-- ask (Roots scope) ;; done (uncancelled (match roots with Ok roots => workspaceRootsValue roots | Err e => Err e end))
  | OtherMethod _ => done (uncancelled (Err ErrServerRequestDenied))
  end.

(** ** Responses *)
Definition refused (q : ServerRequest) (code : Z) (message : string) : ServerResponse := MkResponse (vq_RequestID q) [] (Some (code, message)).
(** The response with the decision and the reason of its audit. *)
Definition brokered_response (q : ServerRequest) (result : res mcp_error Value) : ServerResponse * string * string :=
  match result with
  | Err _ => (refused q jsonRPCInternalError "Internal error", "failed", "allowed server request failed safely")
  | Ok value =>
      match bounded_value value (MaxOutputBytes (gw_bounds gw)) with
      | Err _ => (refused q jsonRPCInternalError "Internal error", "failed", "server request result exceeded bounds")
      | Ok encoded => (MkResponse (vq_RequestID q) encoded None, "allowed", "explicit server request policy")
      end
  end.
Definition answered_response (q : ServerRequest) (scope : ValidatedAuthority) (digest : Digest) (params : res cerror bytes) (allowed : bool) (permit : ServerRequestPermit)
  : MProg (res mcp_error (ServerResponse * string * string * Brokered)) :=
  match params with
  | Err _ => done (refused q jsonRPCInvalidParams "Invalid params", "denied", "invalid or oversized parameters", uncancelled (Err ErrServerRequestDenied))
  | Ok params =>
      if negb allowed then
        done (refused q jsonRPCMethodNotFound "Method not found", "denied", "server-initiated method is not allowed", uncancelled (Err ErrServerRequestDenied))
      else b <- broker q scope digest params permit ;; done (brokered_response q (br_Result b), b)
  end.
Definition complete_errors : list mcp_error :=
  [ErrInvocationConflict; ErrEffectInFlight; ErrStaleAuthority; ErrInvalidTransition; ErrAuthorityMismatch; ErrInvocationNotFound].

Abbreviation Reply := (ServerResponse * option mcp_error)%type (only parsing).
Definition failed_reply (response : ServerResponse) (error : mcp_error) : ServerResponse * option mcp_error := (response, Some error).
Definition complete_request (q : ServerRequest) (scope : ValidatedAuthority) (digest : Digest) (permit : ServerRequestPermit) (response : ServerResponse)
  (decision reason : string) (b : Brokered) : MProg Reply :=
  step_or (redacting Cleanup (StoreCompleteRequest (MkRequestCommit scope permit response (Some (request_audit (vq_Effect q) (vq_Method q) decision reason))
      (br_Sampling b) (br_Elicitation b))) ErrStoreUnavailable complete_errors) (failed_reply response) (fun completed =>
  let record := sq_Record completed in
  match sq_Durable completed && (rr_State record == ServerRequestCompleted) && (rr_RequestDigest record == digest), sq_Audit completed with
  | true, Some envelope =>
      if rr_AuditSequence record != an_Sequence envelope then Ret (failed_reply response ErrStoreUnavailable)
      else step_or (deliverAuditEnvelope gw Cleanup envelope) (failed_reply response) (fun _ => Ret (rr_Response record, None))
  | _, _ => Ret (failed_reply response ErrStoreUnavailable)
  end).
(** The permission that is asked for a request of a running call. *)
Definition request_permission (q : ServerRequest) (attempt : AttemptRecord) : CurrentAuthorityRequest :=
  MkCurrentRequest (ca_Scope (ef_Call (vq_Effect q))) (ca_RequestDigest (ef_Call (vq_Effect q))) (vq_ProviderRequestID q) (vq_ConnectionGeneration q)
    (at_Attempt attempt) "mcp.server_request".
Definition claim_request (q : ServerRequest) (scope : ValidatedAuthority) (allowed : bool) : MProg Reply :=
  let response := MkResponse (vq_RequestID q) [] None in
  let failed := failed_reply response in
  let b := gw_bounds gw in
  let method := method_of (vq_Method q) in
  let params := bounded_value (vq_Params q) (MaxInputBytes b) in
  let required := is_ok params && allowed && ((method == ServerRequestSampling) || (method == ServerRequestElicitation)) in
  step_or (pure (wrap_err ErrInvalidRequest (request_digest q (match params with Ok p => p | Err _ => invalid_params end)))) failed (fun digest =>
  step_or (child_identities ((method == ServerRequestSampling) && required)) failed (fun child =>
  step_or (redacting Caller (StoreClaimRequest (MkRequestClaim scope (vq_Effect q) (vq_ProviderRequestID q) (vq_ConnectionGeneration q) (vq_RequestID q)
      (vq_Method q) digest child.1 child.2 required (MaxEvents b) (CancelTimeout b))) ErrStoreUnavailable claim_errors) failed (fun claimed =>
  step_or (require (claimed_for q digest claimed) ErrStoreUnavailable) failed (fun _ =>
  if rr_State (sq_Record claimed) == ServerRequestCompleted then Ret (rr_Response (sq_Record claimed), None)
  else
    step_or (require (fresh_claim q scope digest claimed) ErrEffectInFlight) failed (fun _ =>
    let permit := rr_Permit (sq_Record claimed) in
    step_or (answered_response q scope digest params allowed permit) failed (fun answered =>
    let '(response, decision, reason, brokered) := answered in
    complete_request q scope digest permit response decision reason brokered)))))).
Definition HandleServerRequest (q : ServerRequest) : MProg Reply :=
  let failed := failed_reply (MkResponse (vq_RequestID q) [] None) in
  let b := gw_bounds gw in
  let e := vq_Effect q in
  step_or check_context failed (fun _ =>
  step_or (require (valid_authority gw (vq_Authority q) && validBoundedText (vq_RequestID q) (MaxProviderRequestIDBytes b)
                    && validBoundedText (vq_ProviderRequestID q) (MaxProviderRequestIDBytes b) && negb (vq_ConnectionGeneration q =? 0)
                    && validBoundedText (vq_Method q) (MaxToolNameBytes b)) ErrInvalidRequest) failed (fun _ =>
  step_or (pure (validateEffect gw e)) failed (fun _ =>
  step_or (require ((ef_State e == StateDispatched) || (ef_State e == StateStreaming)) ErrInvalidTransition) failed (fun _ =>
  let '(attempt, ok) := CurrentAttempt e in
  step_or (require (ok && (at_ProviderRequestID attempt == vq_ProviderRequestID q)
                    && (ng_ConnectionGeneration (at_Negotiation attempt) == vq_ConnectionGeneration q)) ErrAuthorityMismatch) failed (fun _ =>
  step_or (validateCurrentAuthority Caller (vq_Authority q) (request_permission q attempt)) failed (fun scope =>
  step_or (pure (registrationForEffect gw e)) failed (fun registered =>
  claim_request q scope (serverMethodAllowed (sv_AllowedServerRequests registered.1) (method_of (vq_Method q)))))))))).

(** ** Advertised tools *)
Record ToolListRequest := MkToolList {
  tl_Authority : bytes; tl_EffectID : ID; tl_InvocationID : ID; tl_RequestDigest : Digest; tl_ServerID : string; tl_Advertised : list string;
}.
Fixpoint visible_tools (q : ToolListRequest) (scope : ValidatedAuthority) (seen advertised : list string) : MProg (res mcp_error (list string)) :=
  match advertised with
  | [] => done []
  | tool :: rest =>
      _ <- require (validIdentifier tool (MaxToolNameBytes (gw_bounds gw))) ErrInvalidRequest ;;
      _ <- require (negb (bool_decide (tool ∈ seen))) ErrInvalidRequest ;;
      match gw_tools gw !! (va_TenantID scope, va_UserID scope, tl_ServerID q, tool) with
      | None => visible_tools q scope (tool :: seen) rest
      | Some _ =>
          answer <-- ask (Authorize (MkToolRequest scope (tl_ServerID q) tool (tl_RequestDigest q) "mcp.tools.list")) ;;
          match answer with
          | Err e =>
              if (e == ErrToolNotAllowed) || (e == ErrServerNotAllowed) then visible_tools q scope (tool :: seen) rest
              else x <-- redactedDependencyError Caller e ErrToolNotAllowed [ErrInvalidRequest; ErrServerNotAllowed; ErrToolNotAllowed; ErrAuthorizationMismatch] ;; raise x
          | Ok permit =>
              _ <- require (validAuthorizationPermit permit scope (tl_ServerID q) tool (tl_RequestDigest q)) ErrAuthorizationMismatch ;;
              tools <- visible_tools q scope (tool :: seen) rest ;;
              done (tool :: tools)
          end
      end
  end.
Definition FilterAdvertisedTools (q : ToolListRequest) : MProg (res mcp_error (list string)) :=
  _ <- check_context ;;
  _ <- require (valid_authority gw (tl_Authority q) && (id_kind (tl_EffectID q) == "effect") && (id_kind (tl_InvocationID q) == "inv")
                && (tl_RequestDigest q != zero_digest) && validIdentifier (tl_ServerID q) (MaxServerIDBytes (gw_bounds gw))
                && (u32 (zlen (tl_Advertised q)) <=? MaxChunks (gw_bounds gw))) ErrInvalidRequest ;;
  scope <- redacting Caller (ValidateAdmission (tl_Authority q) (MkAuthorityRequest (tl_EffectID q) (tl_InvocationID q) (tl_RequestDigest q) "mcp.tools.list"))
    ErrStaleAuthority [ErrInvalidRequest; ErrStaleAuthority; ErrAuthorityMismatch] ;;
  _ <- require (validScope scope && (va_EffectID scope == tl_EffectID q) && (va_InvocationID scope == tl_InvocationID q)) ErrAuthorityMismatch ;;
  _ <- require (bool_decide (is_Some (gw_servers gw !! (va_TenantID scope, va_UserID scope, tl_ServerID q)))) ErrServerNotAllowed ;;
  visible_tools q scope [] (tl_Advertised q).
End requests.
