(* ===== verification/McpAdmission.v ===== *)
(** * MCP gateway: what the programs ask of the repository

    [calm] is a logic for the calls of a program that do not depend on what came before:
    every effect handed to the repository is one that was just admitted, and valid, or one
    that [Apply] made. Every program of the gateway is calm up to the start of a provider,
    which [McpProtocol] treats. Here: the logic, what a configuration guarantees of the
    registrations, and admission. *)

From S2P Require Import Prelude Programs GoText GoStrings GoCrypto Canonical CanonicalSpec CanonicalEncode CanonicalDecode CanonicalProofs Identity BrokerTypes McpGateway McpMachine McpProofs McpReplay McpStore McpStoreProofs McpExecutor McpRecovery.
#[local] Open Scope string_scope.
#[local] Open Scope list_scope.
#[local] Open Scope Z_scope.
#[local] Open Scope go_scope.

(** ** The logic *)
Section logic.
Context `{N : Normalizer} (gw : Gateway).

(** What may be asked of the repository. *)
Definition lawful {X} (c : MCall X) : Prop :=
  match c with
  | StoreAdmit e => exists call, e = admitted call /\ validateEffect gw e = Ok tt
  | StoreDispatch q => exists ev t d, Apply gw (dq_Previous q) ev = Ok t /\ tn_Dispatch t = Some d /\ dq_Next q = tn_Effect t
  | StoreCommit q => exists ev t, Apply gw (tq_Previous q) ev = Ok t /\ tq_Next q = tn_Effect t
  | _ => True
  end.
(** Starts, deliveries of audits and calls of a broker depend on what came before. *)
Definition tame {X} (c : MCall X) : Prop :=
  match c with Start _ _ | StoreAcknowledge _ | RecordAudit _ | StoreDispatch _ | Sample _ | ResumeSampling _ | Elicit _ | Roots _ => False | _ => lawful c end.
Fixpoint calm {A} (p : MProg A) (Q : A -> Prop) : Prop :=
  match p with Ret a => Q a | Vis c k => tame c /\ forall x, calm (k x) Q end.
Definition yields {A} (Q : A -> Prop) (r : res mcp_error A) : Prop := match r with Ok a => Q a | Err _ => True end.

Lemma calm_mono {A} (p : MProg A) (Q R : A -> Prop) : calm p Q -> (forall a, Q a -> R a) -> calm p R.
Proof. induction p as [a|X c k IH]; simpl; [auto|]. intros [Hc Hk] HQ. split; [done|]. intros x. by apply IH. Qed.
Lemma calm_bind {A B} (p : MProg A) (f : A -> MProg B) Q R : calm p Q -> (forall a, Q a -> calm (f a) R) -> calm (bindP p f) R.
Proof. induction p as [a|X c k IH]; simpl; [auto|]. intros [Hc Hk] Hf. split; [done|]. intros x. by apply IH. Qed.
Lemma calm_ask {X B} (c : MCall X) (f : X -> MProg B) R : tame c -> (forall x, calm (f x) R) -> calm (bindP (ask c) f) R.
Proof. by split. Qed.
Lemma calm_then {A B} (p : MProg (res mcp_error A)) (f : A -> MProg (res mcp_error B)) Q R :
  calm p (yields Q) -> (forall a, Q a -> calm (f a) (yields R)) -> calm (andThen p f) (yields R).
Proof. intros Hp Hf. eapply calm_bind; [exact Hp|]. intros [a|e]; [apply Hf|done]. Qed.
Lemma calm_pure {A B} (r : res mcp_error A) (f : A -> MProg (res mcp_error B)) R :
  (forall a, r = Ok a -> calm (f a) (yields R)) -> calm (andThen (pure r) f) (yields R).
Proof. destruct r as [a|e]; [|done]. intros Hf. by apply Hf. Qed.
Lemma require_ok b (e : mcp_error) : reject_if (negb b) e = Ok tt -> b = true.
Proof. by destruct b. Qed.
Lemma calm_require {B} (b : bool) e (f : unit -> MProg (res mcp_error B)) R : (b = true -> calm (f tt) (yields R)) -> calm (andThen (require b e) f) (yields R).
Proof. intros Hf. apply calm_pure. intros [] H. by apply Hf, (require_ok _ e). Qed.
Lemma calm_step {A B} (p : MProg (res mcp_error A)) (failed : mcp_error -> B) (k : A -> MProg B) Q R :
  calm p (yields Q) -> (forall e, R (failed e)) -> (forall a, Q a -> calm (k a) R) -> calm (step_or p failed k) R.
Proof. intros Hp Hf Hk. eapply calm_bind; [exact Hp|]. intros [a|e]; [apply Hk|intros _; apply Hf]. Qed.
Lemma calm_step_pure {A B} (r : res mcp_error A) (failed : mcp_error -> B) (k : A -> MProg B) R :
  (forall e, R (failed e)) -> (forall a, r = Ok a -> calm (k a) R) -> calm (step_or (pure r) failed k) R.
Proof. destruct r as [a|e]; [|intros Hf _; apply Hf]. intros _ Hk. by apply Hk. Qed.
Lemma calm_redacting {A} k (c : MCall (res mcp_error A)) fallback allowed (Q : A -> Prop) : tame c -> (forall a, Q a) -> calm (redacting k c fallback allowed) (yields Q).
Proof. intros Hc HQ. split; [done|]. intros [a|e]; simpl; [apply HQ|]. split; [done|]. by intros [x|]. Qed.
Definition any {A} (_ : A) : Prop := True.
Lemma calm_any {A} (p : MProg (res mcp_error A)) Q : calm p (yields Q) -> calm p any.
Proof. intros H. by eapply calm_mono. Qed.
End logic.
Arguments any {A} _ /.

(** ** Registrations *)
Record registration_ok (b : Bounds) (s : ServerRegistration) : Prop := MkRegistrationOk {
  ro_server : validIdentifier (sv_ServerID s) (MaxServerIDBytes b) = true; ro_provider : validIdentifier (sv_ProviderID s) (MaxServerIDBytes b) = true;
  ro_protocol : validBoundedText (sv_ProtocolVersion s) (MaxProtocolVersionBytes b) = true; ro_target : validRegistryRef (sv_TargetRef s) (MaxTargetRefBytes b) = true;
}.
(** What is registered is under its own key, with texts within the bounds. *)
Record configured (gw : Gateway) : Prop := MkConfigured {
  cf_gateway : gateway_ok gw;
  cf_input : 1 <= MaxInputBytes (gw_bounds gw) <= 16777216;
  cf_servers : forall k s, gw_servers gw !! k = Some s -> server_key s = k /\ registration_ok (gw_bounds gw) s;
  cf_tools : forall k t, gw_tools gw !! k = Some t -> tool_key t = k /\ validIdentifier (tr_ToolName t) (MaxToolNameBytes (gw_bounds gw)) = true;
}.
Lemma check_server_texts b deps providers r u : check_server b deps providers r = Ok u -> registration_ok b r.
Proof. unfold check_server. intros H. apply reject_if_ok in H as [Hr _]. bools in Hr. constructor; tauto. Qed.
Lemma add_servers_keyed b deps providers servers : forall acc m, add_servers b deps providers servers acc = Ok m ->
  (forall k s, acc !! k = Some s -> server_key s = k /\ registration_ok b s) -> forall k s, m !! k = Some s -> server_key s = k /\ registration_ok b s.
Proof.
  induction servers as [|r rest IH]; intros acc m H Hacc; [by injection H as <-|]. simpl in H. apply bind_ok in H as ([] & Hr & H).
  apply reject_if_ok in H as [_ H]. eapply IH; [exact H|]. intros k s [[<- <-]|[_ Hk]]%lookup_insert_Some; [|by apply Hacc]. split; [done|by eapply check_server_texts].
Qed.
Lemma check_tool_name b servers r r' : check_tool b servers r = Ok r' -> validIdentifier (tr_ToolName r') (MaxToolNameBytes b) = true.
Proof.
  unfold check_tool. intros H. apply reject_if_ok in H as [Hr H]. do 2 apply reject_if_ok in H as [_ H]. apply bind_ok in H as ([] & _ & H).
  do 2 apply reject_if_ok in H as [_ H]. injection H as <-. bools in Hr. unfold default_policy. destruct (_ && _); simpl; tauto.
Qed.
Lemma add_tools_keyed b servers tools : forall acc m, add_tools b servers tools acc = Ok m ->
  (forall k t, acc !! k = Some t -> tool_key t = k /\ validIdentifier (tr_ToolName t) (MaxToolNameBytes b) = true) ->
  forall k t, m !! k = Some t -> tool_key t = k /\ validIdentifier (tr_ToolName t) (MaxToolNameBytes b) = true.
Proof.
  induction tools as [|r rest IH]; intros acc m H Hacc; [by injection H as <-|]. simpl in H. apply bind_ok in H as (r' & Hr' & H).
  apply reject_if_ok in H as [_ H]. eapply IH; [exact H|]. intros k t [[<- <-]|[_ Hk]]%lookup_insert_Some; [|by apply Hacc]. split; [done|by eapply check_tool_name].
Qed.
Lemma newGateway_configured c deps production gw : unsigned_bounds (cg_Bounds c) -> 0 <= MaxInputBytes (cg_Bounds c) -> Forall unsigned_tool (cg_Tools c) ->
  newGateway c deps production = Ok gw -> configured gw.
Proof.
  intros Hb Hin Ht H. destruct (newGateway_ok _ _ _ _ Hb Ht H) as [Hgw _]. unfold newGateway in H. apply bind_ok in H as ([] & Hbounds & H).
  do 3 apply reject_if_ok in H as [_ H]. apply reject_if_ok in H as [_ H]. apply bind_ok in H as (servers & Hs & H). apply reject_if_ok in H as [_ H].
  apply bind_ok in H as (tools & Hto & H). injection H as <-. constructor; simpl; [done| | |].
  - unfold validateBounds, reject_if in Hbounds. destruct (invalid_bounds (cg_Bounds c)) eqn:Hi; [done|]. unfold invalid_bounds, bad_bound in Hi. bools in Hi.
    unfold hardMaxInputBytes in Hi. change (Z.shiftl 16 20) with 16777216 in Hi. lia.
  - eapply add_servers_keyed; [exact Hs|]. done.
  - eapply add_tools_keyed; [exact Hto|]. done.
Qed.

(** ** Admission *)
Section admission.
Context {N : Normalizer} {NL : NormalizerLaws} (gw : Gateway).

(** The canonical input of a call. *)
Lemma canonical_call request b input digest : canonicalizeCall request b = Ok (input, digest) ->
  validIdentifier (cr_ServerID request) (MaxServerIDBytes b) = true /\ validIdentifier (cr_ToolName request) (MaxToolNameBytes b) = true /\
  digestCanonicalCall (cr_ServerID request) (cr_ToolName request) input = Ok digest /\ zlen input <> 0 /\ zlen input <= MaxInputBytes b.
Proof using Type*.
  unfold canonicalizeCall. intros H. apply reject_if_ok in H as [Hb H]. apply reject_if_ok in H as [Hr H]. apply bind_ok in H as ([] & _ & H).
  apply bind_ok in H as (input' & He & H). apply bind_ok in H as (digest' & Hd & H). injection H as <- <-. bools in Hr. unfold bad_bound in Hb. bools in Hb.
  unfold hardMaxInputBytes in Hb. change (Z.shiftl 16 20) with 16777216 in Hb.
  destruct (Encode _ _) as [bs|] eqn:Hen in He; [|done]. injection He as <-. apply Encode_ok in Hen as (_ & Hcan & -> & Hlen & _ & _); [|split; simpl; [lia|done]].
  destruct (digestCanonicalCall _ _ _) in Hd |- *; [|done]. injection Hd as <-. split_and!; try tauto.
  assert (Hv : canon (cr_Input request) <> VOther) by (intros Hv; by rewrite Hv in Hcan). pose proof (enc_nonempty _ Hv). lia.
Qed.

(** A registration that [registration] finds, for its scope. *)
Lemma resolved_fields server scope s : resolveServerRegistration server scope = Ok s ->
  sv_ServerID s = sv_ServerID server /\ sv_ProviderID s = sv_ProviderID server /\ sv_TargetRef s = sv_TargetRef server /\
  sv_ProtocolVersion s = sv_ProtocolVersion server.
Proof.
  unfold resolveServerRegistration. destruct (sv_Transport server != TransportStdio); [by intros [= <-]|]. intros H. apply bind_ok in H as (a & _ & H).
  apply bind_ok in H as (u & _ & H). by injection H as <-.
Qed.
Definition supports (tool : ToolRegistration) (a : ServerAvailability) : Prop :=
  tr_ReplayPolicy tool = ReplayIdempotencyKey -> sy_SupportsIdempotencyKey a = true /\ sy_SupportsInvocationLedger a = true.
Lemma new_effect_valid request input digest scope server0 server tool a :
  configured gw -> canonicalizeCall request (gw_bounds gw) = Ok (input, digest) -> digest <> zero_digest -> validScope scope = true ->
  gw_servers gw !! (va_TenantID scope, va_UserID scope, cr_ServerID request) = Some server0 -> resolveServerRegistration server0 scope = Ok server ->
  gw_tools gw !! (va_TenantID scope, va_UserID scope, cr_ServerID request, cr_ToolName request) = Some tool -> supports tool a ->
  validateEffect gw (new_effect scope digest input server tool a) = Ok tt.
Proof using Type*.
  intros Hcf Hc Hd Hs Hk Hr Ht Ha. destruct (canonical_call _ _ _ _ Hc) as (H1 & H2 & H3 & H4 & H5). destruct (resolved_fields _ _ _ Hr) as (F1 & F2 & F3 & F4).
  destruct (cf_servers _ Hcf _ _ Hk) as [[= K1 K2 K3] [R1 R2 R3 R4]]. destruct (cf_tools _ Hcf _ _ Ht) as [[= T1 T2 T3 T4] T5].
  destruct (go_tools _ (cf_gateway _ Hcf) _ _ Ht) as [A1 A2 _ _]. pose proof (go_bounds _ (cf_gateway _ Hcf)) as Hb. pose proof (share_bounds _ Hb). destruct Hb.
  rewrite <- F1 in R1, K3. rewrite <- F2 in R2. rewrite <- F3 in R4. rewrite <- F4 in R3.
  apply snapshot_iff. simpl. split_and!; [|unfold counters; simpl; split_and!; try done; try lia| |done].
  - constructor; simpl; [unfold call_fields; simpl; split_and!; try done; try lia|congruence| |done]. unfold registered. simpl.
    rewrite K3, T4, Hk, Hr, Ht. repeat rewrite bool_decide_eq_true_2 by done. done.
  - unfold maximumEventBytes, u64. apply Z.mod_pos_bound. lia.
  - unfold zlen. simpl. lia.
  - done.
Qed.

Lemma availability_calm server tool : calm gw (checkAvailability server tool) (yields (supports tool)).
Proof.
  eapply calm_then with (Q := any); [by apply calm_redacting|]. intros a _. do 4 (apply calm_require; intros _). apply calm_require. intros H.
  unfold supports. simpl. intros Hp. rewrite Hp in H. by destruct (sy_SupportsIdempotencyKey a), (sy_SupportsInvocationLedger a).
Qed.
Lemma credential_calm k scope server : calm gw (authorizeCredential gw k scope server) (yields any).
Proof.
  unfold authorizeCredential. destruct (_ == _); [done|]. apply calm_require. intros _. eapply calm_then with (Q := any); [by apply calm_redacting|].
  intros p _. by apply calm_require.
Qed.
Lemma admit_new_calm request input digest scope server0 server tool :
  configured gw -> canonicalizeCall request (gw_bounds gw) = Ok (input, digest) -> digest <> zero_digest -> validScope scope = true ->
  gw_servers gw !! (va_TenantID scope, va_UserID scope, cr_ServerID request) = Some server0 -> resolveServerRegistration server0 scope = Ok server ->
  gw_tools gw !! (va_TenantID scope, va_UserID scope, cr_ServerID request, cr_ToolName request) = Some tool ->
  calm gw (admit_new gw scope digest input server tool) (yields (fun e => validateEffect gw e = Ok tt)).
Proof using Type*.
  intros Hcf Hc Hd Hs Hk Hr Ht. eapply calm_then; [apply availability_calm|]. intros a Ha. eapply calm_then; [apply credential_calm|]. intros _ _.
  eapply calm_then with (Q := any).
  - apply calm_redacting; [|done]. eexists. split; [done|]. by eapply new_effect_valid.
  - intros stored _. apply calm_require. intros _. apply calm_require. intros Hv. simpl. by destruct (validateEffect gw (st_Effect stored)) as [[]|].
Qed.
Lemma registration_calm scope serverID toolName :
  calm gw (admission_registration gw scope serverID toolName) (yields (fun '(server, tool) => exists server0,
    (gw_servers gw !! (va_TenantID scope, va_UserID scope, serverID)) = Some server0 /\ resolveServerRegistration server0 scope = Ok server /\
    gw_tools gw !! (va_TenantID scope, va_UserID scope, serverID, toolName) = Some tool)).
Proof.
  apply calm_pure. intros server0 H0%from_option_ok. eapply calm_then with (Q := fun s => resolveServerRegistration server0 scope = Ok s).
  - destruct (resolveServerRegistration server0 scope) as [s|e]; [done|]. split; [done|]. by intros [x|].
  - intros s Hs. apply calm_pure. intros tool Ht%from_option_ok. by exists server0.
Qed.
Lemma authorize_calm scope serverID toolName digest : calm gw (authorize_tool scope serverID toolName digest) (yields any).
Proof. eapply calm_then with (Q := any); [by apply calm_redacting|]. intros p _. by apply calm_require. Qed.
Lemma context_calm : calm gw check_context (yields any).
Proof. split; [done|]. by intros [e|]. Qed.

Lemma admission_calm q : configured gw -> calm gw (Gateway_Admit gw q) (yields (fun e => validateEffect gw e = Ok tt)).
Proof using Type*.
  intros Hcf. eapply calm_then; [apply context_calm|]. intros _ _. apply calm_require. intros Hq. bools in Hq. destruct Hq as [[_ Hz] _].
  apply calm_pure. intros [input digest] Hc. apply calm_require. intros Hd. bools in Hd. subst digest. eapply calm_then with (Q := any); [by apply calm_redacting|].
  intros scope _. apply calm_require. intros Hs. bools in Hs. destruct Hs as [[Hs _] _]. eapply calm_then; [apply registration_calm|].
  intros [server tool] (server0 & H0 & Hr & Ht). eapply calm_then; [apply authorize_calm|]. intros _ _. apply calm_ask; [done|]. intros [s|e].
  - apply calm_require. intros Hv. unfold valid_replay in Hv. bools in Hv. destruct Hv as [[[[[[[_ Hv] _] _] _] _] _] _]. simpl.
    by destruct (validateEffect gw (st_Effect s)) as [[]|].
  - destruct (e == ErrInvocationNotFound); [by eapply admit_new_calm|]. split; [done|]. by intros [x|].
Qed.
End admission.

