(* ===== verification/McpCalm.v ===== *)
(** * MCP gateway: the programs hand the repository only what [Apply] made

    Cancellation, execution after a start, recovery and confirmation, whatever the
    dependencies answer. *)

From S2P Require Import Prelude Programs GoText GoCrypto Canonical Identity BrokerTypes McpGateway McpMachine McpProofs McpReplay McpStore McpExecutor McpRecovery McpAdmission.
#[local] Open Scope string_scope.
#[local] Open Scope list_scope.
#[local] Open Scope Z_scope.
#[local] Open Scope go_scope.

Create HintDb calm.
Section calm.
Context `{N : Normalizer} (gw : Gateway).

Lemma calm_bind_any {A B} (p : MProg A) (f : A -> MProg B) : calm gw p any -> (forall a, calm gw (f a) any) -> calm gw (bindP p f) any.
Proof. intros Hp Hf. eapply calm_bind; [exact Hp|]. intros a _. apply Hf. Qed.
Lemma calm_redacting_any {A} k (c : MCall (res mcp_error A)) fallback allowed : tame gw c -> calm gw (redacting k c fallback allowed) any.
Proof. intros Hc. by apply calm_any with (Q := any), calm_redacting. Qed.
Lemma calm_redacting_pair {A} k (c : MCall (A * option mcp_error)) fallback allowed : tame gw c -> calm gw (redacting_pair k c fallback allowed) any.
Proof. intros Hc. split; [done|]. intros [a [e|]]; [by split|done]. Qed.
Lemma redacted_any k e fallback allowed : calm gw (redactedDependencyError k e fallback allowed) any.
Proof. by split. Qed.
Lemma credential_any k scope server : calm gw (authorizeCredential gw k scope server) any.
Proof. eapply calm_any, credential_calm. Qed.
Lemma availability_any server tool : calm gw (checkAvailability server tool) any.
Proof. eapply calm_any, availability_calm. Qed.
Lemma authorize_any scope serverID toolName digest : calm gw (authorize_tool scope serverID toolName digest) any.
Proof. eapply calm_any, authorize_calm. Qed.
Lemma context_any : calm gw check_context any.
Proof. eapply calm_any, context_calm. Qed.
End calm.
#[export] Hint Resolve redacted_any credential_any availability_any authorize_any context_any : calm.

(** One step of a program: a call, a test, a part that is known to be calm. *)
Ltac tame_done := first [exact I | eassumption | (eexists _, _; split; [eassumption|reflexivity])].
Ltac calm_step :=
  match goal with
  | |- calm _ (Ret _) _ => exact I
  | |- calm _ (raise _) _ => exact I
  | |- calm _ (done _) _ => exact I
  | |- calm _ (bindP (pure ?r) ?f) _ => change (bindP (pure r) f) with (f r); cbv beta
  | |- calm _ (bindP (done ?r) ?f) _ => change (bindP (done r) f) with (f (Ok r)); cbv beta iota
  | |- calm _ (bindP (raise ?r) ?f) _ => change (bindP (raise r) f) with (f (Err r)); cbv beta iota
  | |- calm _ (bindP (Ret ?r) ?f) _ => change (bindP (Ret r) f) with (f r); cbv beta iota
  | |- calm _ (bindP (ask _) _) _ => apply calm_ask; [tame_done|intros ?]
  | |- calm _ (step_or _ _ _) _ => unfold step_or at 1
  | |- calm _ (andThen _ _) _ => unfold andThen at 1
  | |- calm _ (bindP (require _ _) _) _ => unfold require at 1
  | |- calm _ (require _ _) _ => exact I
  | |- calm _ (pure _) _ => exact I
  | |- calm _ (bindP _ _) _ => apply calm_bind_any; [|intros ?]
  | |- calm _ (redacting _ _ _ _) _ => apply calm_redacting_any; tame_done
  | |- calm _ (redacting_pair _ _ _ _) _ => apply calm_redacting_pair; tame_done
  | |- calm _ (ask _) _ => split; [tame_done|done]
  | |- calm _ (match ?x with _ => _ end) _ => destruct x eqn:?
  | |- calm _ _ _ => solve [eauto 4 with calm]
  end.
Ltac calm_run := repeat (cbv zeta; calm_step).

Section executor.
Context `{N : Normalizer} (gw : Gateway).

Lemma persist_claims_any scope previous next cancellation start : (exists ev t, Apply gw previous ev = Ok t /\ next = tn_Effect t) ->
  calm gw (persistAfterExternalWithClaims scope previous next cancellation start) any.
Proof. intros H. unfold persistAfterExternalWithClaims. calm_run. Qed.
Lemma persist_any scope previous next : (exists ev t, Apply gw previous ev = Ok t /\ next = tn_Effect t) -> calm gw (persistAfterExternal scope previous next) any.
Proof. apply persist_claims_any. Qed.
Lemma load_any k invocation : calm gw (loadDurableEffect gw k invocation) any.
Proof. unfold loadDurableEffect. calm_run. Qed.
Lemma close_any call : calm gw (closeProviderCall call) any.
Proof. unfold closeProviderCall. calm_run. Qed.
Lemma current_any k authority q : calm gw (validateCurrentAuthority k authority q) any.
Proof. unfold validateCurrentAuthority. calm_run. Qed.
Lemma reconcile_any k scope e : calm gw (reconcile k scope e) any.
Proof. unfold reconcile. calm_run. Qed.
#[local] Hint Resolve load_any close_any current_any reconcile_any : calm.
#[local] Hint Extern 1 (calm _ (persistAfterExternal _ _ _) _) => apply persist_any; eexists _, _; split; [eassumption|reflexivity] : calm.
#[local] Hint Extern 1 (calm _ (persistAfterExternalWithClaims _ _ _ _ _) _) => apply persist_claims_any; eexists _, _; split; [eassumption|reflexivity] : calm.
Lemma authoritative_any k e : calm gw (loadAuthoritativeEffect gw k e) any.
Proof. unfold loadAuthoritativeEffect. calm_run. Qed.
Lemma child_any k scope parent permit method : calm gw (cancelReconciledServerRequest gw k scope parent permit method) any.
Proof. unfold cancelReconciledServerRequest. calm_run. Qed.
#[local] Hint Resolve authoritative_any child_any : calm.

(** ** Cancellation *)
Lemma settle_any scope e : calm gw (settle gw scope e) any.
Proof. unfold settle. calm_run. Qed.
Lemma cancel_failure_any scope e permit cause : calm gw (resolveCancellationFailure gw scope e permit cause) any.
Proof. unfold resolveCancellationFailure. calm_run. Qed.
Lemma settle_cancelled_any k scope e errors : calm gw (settle_cancelled gw k scope e errors) any.
Proof. unfold settle_cancelled. calm_run. Qed.
#[local] Hint Resolve settle_any cancel_failure_any settle_cancelled_any : calm.
Lemma cancel_provider_any k scope e permit credential : calm gw (cancel_at_provider gw k scope e permit credential) any.
Proof. unfold cancel_at_provider. calm_run. Qed.
#[local] Hint Resolve cancel_provider_any : calm.
Lemma dispatch_cancellation_any k scope e : calm gw (dispatchCancellation gw k scope e) any.
Proof. unfold dispatchCancellation. calm_run. Qed.
#[local] Hint Resolve dispatch_cancellation_any : calm.
Lemma cancel_loaded_any authority scope e : calm gw (cancel_loaded gw authority scope e) any.
Proof. unfold cancel_loaded. calm_run. Qed.
#[local] Hint Resolve cancel_loaded_any : calm.
Lemma request_cancellation_any authority scope e : calm gw (request_cancellation gw authority scope e) any.
Proof. unfold request_cancellation. calm_run. Qed.
#[local] Hint Resolve request_cancellation_any : calm.
Lemma cancel_any authority e : calm gw (Cancel gw authority e) any.
Proof. unfold Cancel. calm_run. Qed.
Lemma cancelling_any authority e cause : calm gw (cancelling gw authority e cause) any.
Proof. unfold cancelling. apply calm_bind_any; [apply cancel_any|by intros]. Qed.
#[local] Hint Resolve cancel_any cancelling_any : calm.

(** ** A started call *)
Lemma record_failure_any scope e class reason start report : calm gw (record_failure gw scope e class reason start report) any.
Proof. unfold record_failure. calm_run. Qed.
Lemma settle_completed_any scope e : calm gw (settle_completed gw scope e) any.
Proof. unfold settle_completed. calm_run. Qed.
#[local] Hint Resolve record_failure_any settle_completed_any : calm.
Lemma merge_completed_any scope committed loaded output commit : calm gw (merge_completed gw scope committed loaded output commit) any.
Proof. unfold merge_completed. calm_run. Qed.
#[local] Hint Resolve merge_completed_any : calm.
Lemma complete_call_any authority scope e event : calm gw (complete_call gw authority scope e event) any.
Proof. unfold complete_call. calm_run. Qed.
#[local] Hint Resolve complete_call_any : calm.
Lemma stream_any chunks authority scope call : forall e, calm gw (stream gw chunks authority scope call e) any.
Proof. induction chunks as [|n IH]; intros e; cbn [stream]; calm_run. Qed.
#[local] Hint Resolve stream_any : calm.
Lemma started_any authority scope e permit start error : calm gw (started gw authority scope e permit start error) any.
Proof. unfold started. calm_run. Qed.

(** ** Recovery *)
Lemma recover_settle_any scope e rejected unsettled : calm gw (recover_settle gw scope e rejected unsettled) any.
Proof. unfold recover_settle. calm_run. Qed.
#[local] Hint Resolve recover_settle_any : calm.
Lemma settle_committed_any scope e : calm gw (settle_committed gw scope e) any.
Proof. unfold settle_committed. calm_run. Qed.
Lemma unnegotiated_any scope e : calm gw (recover_unnegotiated gw scope e) any.
Proof. unfold recover_unnegotiated. calm_run. Qed.
Lemma unstarted_any scope e : calm gw (recover_unstarted gw scope e) any.
Proof. unfold recover_unstarted. calm_run. Qed.
Lemma lookup_any scope e start : calm gw (lookup_record gw scope e start) any.
Proof. unfold lookup_record. calm_run. Qed.
Lemma inflight_any scope e record : calm gw (observe_inflight gw scope e record) any.
Proof. unfold observe_inflight. calm_run. Qed.
Lemma settle_observed_any scope e : calm gw (settle_observed gw scope e) any.
Proof. unfold settle_observed. calm_run. Qed.
#[local] Hint Resolve settle_committed_any unnegotiated_any unstarted_any lookup_any inflight_any settle_observed_any : calm.
Lemma outcome_any scope e record : calm gw (observe_outcome gw scope e record) any.
Proof. unfold observe_outcome. calm_run. Qed.
#[local] Hint Resolve outcome_any : calm.
Lemma observe_any scope e start : calm gw (observe gw scope e start) any.
Proof. unfold observe. calm_run. Qed.
#[local] Hint Resolve observe_any : calm.
Lemma recover_start_any scope e : calm gw (recover_start gw scope e) any.
Proof. unfold recover_start. calm_run. Qed.
Lemma resume_any scope e : calm gw (resume_cancellation gw scope e) any.
Proof. unfold resume_cancellation. calm_run. Qed.
#[local] Hint Resolve recover_start_any resume_any : calm.
Lemma unfinished_any authority scope e reconciled : calm gw (recover_unfinished gw authority scope e reconciled) any.
Proof. unfold recover_unfinished. calm_run. Qed.
#[local] Hint Resolve unfinished_any : calm.
Lemma recover_any authority e : calm gw (Recover gw authority e) any.
Proof. unfold Recover. calm_run. Qed.
End executor.
#[export] Hint Resolve cancel_any cancelling_any record_failure_any started_any recover_any current_any load_any : calm.

(** ** The bound of a stream

    [stream] counts the chunks that may still be accepted; once it starts with the number
    that the bounds allow, a larger number makes no difference. *)
Section stream.
Context `{N : Normalizer} (gw : Gateway).

Lemma chunk_applied e revision chunk t : gateway_ok gw -> 0 <= ef_ChunkCount e ->
  Apply gw e (MkEvent revision EventOutputChunk "" chunk [] "" NoFailure "" NoCancellation no_ledger NoDecision no_negotiation) = Ok t ->
  ef_ChunkCount e < MaxChunks (gw_bounds gw) /\ ef_ChunkCount (tn_Effect t) = ef_ChunkCount e + 1.
Proof.
  intros Hgw Hpos H. pose proof (go_bounds _ Hgw) as Hb. destruct Hb. apply Apply_parts in H as (n & t' & _ & _ & _ & _ & _ & Ht & _ & ->).
  unfold transition in Ht. simpl in Ht. unfold output_chunk in Ht. destruct (CurrentAttempt e). apply reject_if_ok in Ht as [_ Ht]. apply reject_if_ok in Ht as [Hr Ht].
  injection Ht as <-. bools in Hr. simpl. split; [lia|]. rewrite u32_id by lia. done.
Qed.
(** What is persisted is what was asked. *)
Lemma alike_persist {B} scope previous next (failed : mcp_error -> B) (k k' : Effect -> MProg B) : alike (k next) (k' next) ->
  alike (step_or (persistAfterExternal scope previous next) failed k) (step_or (persistAfterExternal scope previous next) failed k').
Proof.
  intros Hk. unfold step_or, persistAfterExternal, persistAfterExternalWithClaims. constructor. intros [stored|e].
  - simpl. unfold require. destruct (st_Durable stored && (st_Effect stored == next)) eqn:Hs; simpl; [|apply alike_refl]. bools in Hs. by destruct Hs as [_ ->].
  - simpl. constructor. intros [x|]; simpl; apply alike_refl.
Qed.
Lemma stream_bound authority scope call : gateway_ok gw -> forall n m e, 0 <= ef_ChunkCount e -> MaxChunks (gw_bounds gw) - ef_ChunkCount e <= Z.of_nat n ->
  (n <= m)%nat -> alike (stream gw n authority scope call e) (stream gw m authority scope call e).
Proof.
  intros Hgw. induction n as [|n IH]; intros m e Hpos Hn Hm; destruct m as [|m]; try lia; [apply alike_refl| |]; cbn [stream]; (apply alike_bind; intros [x|]; [apply alike_refl|]);
    (apply alike_bind; intros [event|x]; [|apply alike_refl]); (destruct (pe_Kind event); try apply alike_refl); (destruct (negb _ || _); [apply alike_refl|]);
    (destruct (Apply gw e _) as [t|x] eqn:Ht; [|apply alike_refl]); destruct (chunk_applied _ _ _ _ Hgw Hpos Ht) as [H1 H2]; [lia|].
  apply alike_persist, alike_bind. intros [x|]; [apply alike_refl|]. apply IH; lia.
Qed.
(** The number that [started] uses is enough. *)
Lemma stream_enough authority scope call e m : gateway_ok gw -> 0 <= ef_ChunkCount e -> (Z.to_nat (MaxChunks (gw_bounds gw)) <= m)%nat ->
  alike (stream gw (Z.to_nat (MaxChunks (gw_bounds gw))) authority scope call e) (stream gw m authority scope call e).
Proof. intros Hgw Hpos Hm. apply stream_bound; [done|done|lia|done]. Qed.
End stream.
