(* ===== verification/McpProtocol.v ===== *)
(** * MCP gateway: starts and audits

    A provider is started only by the execution that claimed the attempt, once, after the
    current authority, the tool, the credential, the dispatch, the negotiation and the start
    were all granted or recorded; an audit is acknowledged only after it was recorded. *)

From S2P Require Import Prelude Programs GoText GoStrings GoCrypto Canonical Identity BrokerTypes McpGateway McpMachine McpProofs McpReplay McpStore McpStoreProofs McpExecutor McpRecovery McpRequests McpAdmission McpCalm.
#[local] Open Scope string_scope.
#[local] Open Scope list_scope.
#[local] Open Scope Z_scope.
#[local] Open Scope go_scope.

Abbreviation trace := (list (event MCall)) (only parsing).
Definition starts_provider {X} (c : MCall X) : bool := match c with Start _ _ => true | _ => false end.
Definition unstarted (h : trace) : Prop := Forall (fun e => starts_provider (ev_call _ e) = false) h.
Definition calls_broker {X} (c : MCall X) : bool := match c with Sample _ | ResumeSampling _ | Elicit _ | Roots _ => true | _ => false end.
Definition unbrokered (h : trace) : Prop := Forall (fun e => calls_broker (ev_call _ e) = false) h.
Definition seen {X} (c : MCall X) (x : X) (h : trace) : Prop := Programs.Event c x ∈ h.
Lemma seen_here {X} (c : MCall X) (x : X) h : seen c x (Programs.Event c x :: h).
Proof. apply list_elem_of_here. Qed.
Lemma seen_app {X} (c : MCall X) (x : X) l h : seen c x h -> seen c x (l ++ h).
Proof. intros H. apply elem_of_app. by right. Qed.
Lemma seen_later {X Y} (c : MCall X) (x : X) (d : MCall Y) (y : Y) h : seen c x h -> seen c x (Programs.Event d y :: h).
Proof. intros H. by apply list_elem_of_further. Qed.
Create HintDb mcp.
#[export] Hint Resolve seen_here seen_app seen_later : mcp.

(** The entries of the outbox that the repository answered. *)
Definition envelopes {X} (c : MCall X) : X -> list AuditEnvelope :=
  match c in MCall X return X -> list AuditEnvelope with
  | StorePending _ => fun x => match x with Ok pending => pending | Err _ => [] end
  | StoreCommit _ => fun x => match x with Ok s => option_list (st_Audit s) | Err _ => [] end
  | StoreCompleteRequest _ => fun x => match x with Ok s => option_list (sq_Audit s) | Err _ => [] end
  | _ => fun _ => []
  end.
Definition provided (h : trace) (envelope : AuditEnvelope) : Prop := exists e, e ∈ h /\ envelope ∈ envelopes (ev_call _ e) (ev_answer _ e).
Lemma provided_app l h envelope : provided h envelope -> provided (l ++ h) envelope.
Proof. intros (e & He & Hen). exists e. split; [|done]. apply elem_of_app. by right. Qed.
Lemma provided_here {X} (c : MCall X) x h envelope : envelope ∈ envelopes c x -> provided (Programs.Event c x :: h) envelope.
Proof. intros H. eexists. split; [apply list_elem_of_here|done]. Qed.

Section protocol.
Context `{N : Normalizer} (gw : Gateway).

(** ** What a start rests on *)
Definition authorized (h : trace) (c : Call) (scope : ValidatedAuthority) (authorization : ToolAuthorizationPermit) (credential : CredentialPermit) : Prop :=
  (exists authority, seen (ValidateAdmission authority (MkAuthorityRequest (va_EffectID (ca_Scope c)) (va_InvocationID (ca_Scope c)) (ca_RequestDigest c) "mcp.tools.call"))
     (Ok scope) h) /\ sameOperationScope scope (ca_Scope c) = true /\
  seen (Authorize (MkToolRequest scope (ca_ServerID c) (ca_ToolName c) (ca_RequestDigest c) "mcp.tools.call")) (Ok authorization) h /\
  validAuthorizationPermit authorization scope (ca_ServerID c) (ca_ToolName c) (ca_RequestDigest c) = true /\
  exists server tool, registration gw (ca_Scope c) (ca_ServerID c) (ca_ToolName c) = Ok (server, tool) /\
    (cb_Handle (sv_Credential server) <> "" -> ct_Durable credential = true /\ seen (AuthorizeCredential (ct_Request credential)) (Ok credential) h /\
       ct_Request credential = MkCredentialRequest (cb_Handle (sv_Credential server)) (va_TenantID scope) (va_UserID scope) (sv_ServerID server)
         (cb_Audience (sv_Credential server)) (sv_TargetRef server)).
(** The start of a call of the effect [e], as it was last recorded. *)
Record justified (h : trace) (provider : string) (c : ProviderCommand) (e : Effect) : Prop := MkJustified {
  ju_call : provider = ca_ProviderID (ef_Call e) /\ dc_Server (pc_Command c) = serverForEffect (ef_Call e) /\
    dc_ToolName (pc_Command c) = ca_ToolName (ef_Call e) /\ dc_InputCanonical (pc_Command c) = ca_InputCanonical (ef_Call e) /\
    dc_InvocationID (pc_Command c) = va_InvocationID (ca_Scope (ef_Call e)) /\ dc_RequestDigest (pc_Command c) = ca_RequestDigest (ef_Call e) /\
    dc_Attempt (pc_Command c) = at_Attempt (CurrentAttempt e).1;
  ju_authorized : authorized h (ef_Call e) (dc_Scope (pc_Command c)) (pc_Authorization c) (pc_Credential c);
  ju_dispatched : exists q, seen (StoreDispatch q) (Ok (pc_Dispatch c)) h /\ ef_Call (dq_Next q) = ef_Call e /\
    validDispatchPermit (pc_Dispatch c) (dq_Next q) (pc_Authorization c) (dc_Attempt (pc_Command c)) = true;
  ju_negotiated : at_Negotiation (CurrentAttempt e).1 = pc_Negotiation c /\
    validNegotiationReceiptForEffect (pc_Negotiation c) (ef_Call e) (dc_Attempt (pc_Command c)) = true /\
    exists q s, seen (StoreCommit q) (Ok s) h /\ st_Durable s = true /\ tq_Next q = e;
  ju_started : exists q, seen (StoreStart q) (Ok (pc_Start c)) h /\ pq_Effect q = e /\
    validProviderStartPermit (pc_Start c) e (dc_Scope (pc_Command c)) (pc_Dispatch c) = true;
}.
(** A request of a server that the repository let this process handle, of a method that the
    registration of the server allows, while the call runs. *)
Definition request_claimed (h : trace) (claim : ServerRequestPermit) (method : string) : Prop :=
  exists q s server tool, seen (StoreClaimRequest q) (Ok s) h /\ sq_Fresh s = true /\ rr_Permit (sq_Record s) = claim /\ rq_Durable claim = true /\
    rr_State (sq_Record s) = ServerRequestClaimed /\ rr_Method (sq_Record s) = method /\ rq_Scope claim = sq_CurrentScope q /\
    (ef_State (sq_Parent q) = StateDispatched \/ ef_State (sq_Parent q) = StateStreaming) /\
    registrationForEffect gw (sq_Parent q) = Ok (server, tool) /\ method_of method ∈ sv_AllowedServerRequests server.
(** A broker is called for such a request, and no broker was called before: a process calls
    one broker, once. *)
Definition broker_justified (h : trace) {X} (c : MCall X) : Prop :=
  match c with
  | Sample q => unbrokered h /\ request_claimed h (sp_Claim q) sampling_method /\ rq_ClaimGeneration (sp_Claim q) = 1
  | ResumeSampling q => unbrokered h /\ request_claimed h (sp_Claim q) sampling_method /\ rq_ClaimGeneration (sp_Claim q) <> 1
  | Elicit q => unbrokered h /\ request_claimed h (eq_Claim q) elicitation_method /\ rq_ClaimGeneration (eq_Claim q) <= 1
  | Roots scope => unbrokered h /\ exists claim, request_claimed h claim roots_method /\ rq_Scope claim = scope
  | _ => True
  end.
Definition timely (h : trace) {X} (c : MCall X) : Prop :=
  match c with
  | Sample q => broker_justified h (Sample q)
  | ResumeSampling q => broker_justified h (ResumeSampling q)
  | Elicit q => broker_justified h (Elicit q)
  | Roots scope => broker_justified h (Roots scope)
  | Start provider command => unstarted h /\ exists e, justified h provider command e
  | RecordAudit event => exists envelope, provided h envelope /\ an_Event envelope = event
  | StoreAcknowledge n => exists envelope, provided h envelope /\ an_Sequence envelope = n /\ seen (RecordAudit (an_Event envelope)) None h
  | _ => True
  end.
Definition permitted (h : trace) (X : Type) (c : MCall X) : Prop := lawful gw c /\ timely h c.

Lemma tame_permitted h X (c : MCall X) : tame gw c -> permitted h X c /\ starts_provider c = false /\ calls_broker c = false.
Proof. by destruct c. Qed.
Lemma calm_permitted {A} (p : MProg A) Q : calm gw p Q -> forall h, guarded permitted p (fun _ _ => True) h.
Proof. induction p as [a|X c k IH]; simpl; [done|]. intros [Hc Hk] h. split; [by apply tame_permitted|]. intros x. by apply IH. Qed.
(** A calm part before the start. *)
Lemma calm_part {A} (p : MProg A) (Q : A -> Prop) : calm gw p Q -> forall h, unstarted h -> guarded permitted p (fun h' a => Q a /\ unstarted h') h.
Proof.
  induction p as [a|X c k IH]; simpl; [done|]. intros [Hc Hk] h Hh. destruct (tame_permitted h X c Hc) as (Hp & Hs & _). split; [done|].
  intros x. apply IH; [done|by constructor].
Qed.
(** A calm part before a broker is called. *)
Lemma calm_unbrokered {A} (p : MProg A) (Q : A -> Prop) : calm gw p Q -> forall h, unbrokered h -> guarded permitted p (fun h' a => Q a /\ unbrokered h') h.
Proof.
  induction p as [a|X c k IH]; simpl; [done|]. intros [Hc Hk] h Hh. destruct (tame_permitted h X c Hc) as (Hp & _ & Hs). split; [done|].
  intros x. apply IH; [done|by constructor].
Qed.
(** The answer of a call, if it is not an error. *)
Definition answered {A} (c : MCall (res mcp_error A)) (h h' : trace) (r : res mcp_error A) : Prop :=
  match r with Ok a => h' = Programs.Event c (Ok a) :: h | Err _ => True end.
Lemma redacting_answered {A} k (c : MCall (res mcp_error A)) fallback allowed h : permitted h _ c ->
  guarded permitted (redacting k c fallback allowed) (answered c h) h.
Proof. intros Hc. split; [done|]. intros [a|e]; [done|]. split; [by split|]. by intros [x|]. Qed.
Lemma guarded_step {A B} (p : MProg (res mcp_error A)) (failed : mcp_error -> B) (k : A -> MProg B) (Q : trace -> res mcp_error A -> Prop) h :
  guarded permitted p Q h -> (forall l a, Q (l ++ h) (Ok a) -> guarded permitted (k a) (fun _ _ => True) (l ++ h)) ->
  guarded permitted (step_or p failed k) (fun _ _ => True) h.
Proof. intros Hp Hk. eapply guarded_seq; [exact Hp|]. intros l [a|e]; [apply Hk|done]. Qed.
Lemma guarded_step_pure {A B} (r : res mcp_error A) (failed : mcp_error -> B) (k : A -> MProg B) h :
  (forall a, r = Ok a -> guarded permitted (k a) (fun _ _ => True) h) -> guarded permitted (step_or (pure r) failed k) (fun _ _ => True) h.
Proof. destruct r as [a|e]; [|done]. intros Hk. by apply Hk. Qed.

Lemma guarded_require {A} (b : bool) e (f : unit -> MProg (res mcp_error A)) (Q : trace -> res mcp_error A -> Prop) h :
  (b = true -> guarded permitted (f tt) Q h) -> Q h (Err e) -> guarded permitted (andThen (require b e) f) Q h.
Proof. destruct b; [|done]. intros Hf _. by apply Hf. Qed.

(** ** The machine *)
Lemma begin_applied e revision t : Apply gw e (no_event revision EventBeginDispatch) = Ok t ->
  ef_Call (tn_Effect t) = ef_Call e /\ exists d, tn_Dispatch t = Some d /\ dc_Server d = serverForEffect (ef_Call e) /\ dc_ToolName d = ca_ToolName (ef_Call e) /\
    dc_InputCanonical d = ca_InputCanonical (ef_Call e) /\ dc_InvocationID d = va_InvocationID (ca_Scope (ef_Call e)) /\
    dc_RequestDigest d = ca_RequestDigest (ef_Call e) /\ dc_Attempt d = at_Attempt (CurrentAttempt (tn_Effect t)).1.
Proof.
  intros H. apply Apply_parts in H as (n & t' & _ & _ & _ & _ & _ & Ht & _ & ->). unfold transition in Ht. simpl in Ht. unfold begin_dispatch in Ht.
  do 2 apply reject_if_ok in Ht as [_ Ht]. injection Ht as <-. simpl. split; [done|]. eexists. split; [done|]. split_and!; try done. simpl.
  erewrite current_snoc by (simpl; reflexivity). done.
Qed.
Lemma negotiation_applied e revision receipt t :
  Apply gw e (MkEvent revision EventNegotiationRecorded "" [] [] "" NoFailure "" NoCancellation no_ledger NoDecision receipt) = Ok t ->
  ef_Call (tn_Effect t) = ef_Call e /\ at_Negotiation (CurrentAttempt (tn_Effect t)).1 = receipt /\
  at_Attempt (CurrentAttempt (tn_Effect t)).1 = at_Attempt (CurrentAttempt e).1 /\
  validNegotiationReceiptForEffect receipt (ef_Call e) (at_Attempt (CurrentAttempt e).1) = true.
Proof.
  intros H. apply Apply_parts in H as (n & t' & _ & _ & _ & _ & _ & Ht & _ & ->). unfold transition in Ht. simpl in Ht. unfold negotiation_recorded in Ht.
  destruct (CurrentAttempt e) as [a ok] eqn:Hc. apply reject_if_ok in Ht as [Hr Ht]. injection Ht as <-. bools in Hr.
  destruct Hr as [[[[[[_ ->] _] _] _] _] Hv]. apply current_some in Hc as [l Hl]. simpl. split; [done|].
  erewrite current_snoc; [|simpl; rewrite Hl; apply update_last_snoc]. done.
Qed.

(** ** Execution *)
Lemma persisted scope previous next cancellation start h : unstarted h -> (exists ev t, Apply gw previous ev = Ok t /\ next = tn_Effect t) ->
  guarded permitted (persistAfterExternalWithClaims scope previous next cancellation start) (fun h' r => match r with
    | Ok e => unstarted h' /\ e = next /\ exists q s, seen (StoreCommit q) (Ok s) h' /\ st_Durable s = true /\ tq_Next q = next
    | Err _ => True end) h.
Proof.
  intros Hh Hap. unfold persistAfterExternalWithClaims. eapply guarded_seq; [by apply redacting_answered|].
  intros l [stored|e]; [|done]. unfold answered. intros ->. cbv beta iota zeta. unfold require.
  destruct (st_Durable stored && (st_Effect stored == next)) eqn:Hs; [|done]. bools in Hs. destruct Hs as [Hd ->]. simpl.
  split; [by constructor|]. split; [done|]. eexists _, stored. split; [apply seen_here|done].
Qed.

Lemma claim_and_start_permitted authority scope authorization credential permit command receipt current h :
  unstarted h -> dc_Scope command = scope ->
  (forall h' start, (exists l, h' = l ++ h) -> (exists q, seen (StoreStart q) (Ok start) h' /\ pq_Effect q = current) ->
     validProviderStartPermit start current scope permit = true ->
     justified h' (ca_ProviderID (ef_Call current)) (MkProviderCommand command authorization credential permit receipt start) current) ->
  guarded permitted (claim_and_start gw authority scope authorization credential permit command receipt current) (fun _ _ => True) h.
Proof.
  intros Hh Hs Hj. unfold claim_and_start. eapply guarded_seq; [by apply redacting_answered|]. intros l [start|e].
  - unfold answered. intros ->. destruct (validProviderStartPermit start current scope permit) eqn:Hv; [|done]. simpl negb. cbv iota. apply guarded_ask.
    + split; [done|]. split; [by constructor|]. exists current. apply Hj; [eexists [Programs.Event _ _]; reflexivity|eexists; split; [apply seen_here|done]|done].
    + intros [result error]. eapply calm_permitted. apply started_any.
  - intros _. destruct (_ || _); [|done]. eapply guarded_bind, guarded_mono; [eapply calm_permitted, load_any|]. by intros h' [loaded|x].
Qed.

Lemma authorize_answered scope serverID toolName digest h : unstarted h -> guarded permitted (authorize_tool scope serverID toolName digest) (fun h' r => match r with
    | Ok p => unstarted h' /\ seen (Authorize (MkToolRequest scope serverID toolName digest "mcp.tools.call")) (Ok p) h' /\
        validAuthorizationPermit p scope serverID toolName digest = true
    | Err _ => True end) h.
Proof.
  intros Hh. unfold authorize_tool. eapply guarded_seq; [by apply redacting_answered|]. intros l [p|e]; [|done]. unfold answered. intros ->. cbv beta iota. unfold require.
  destruct (validAuthorizationPermit p scope serverID toolName digest) eqn:Hv; [|done]. split; [by constructor|]. split; [apply seen_here|done].
Qed.
Lemma credential_answered k scope server h : unstarted h -> guarded permitted (authorizeCredential gw k scope server) (fun h' r => match r with
    | Ok p => unstarted h' /\ (cb_Handle (sv_Credential server) <> "" -> ct_Durable p = true /\ seen (AuthorizeCredential (ct_Request p)) (Ok p) h' /\
        ct_Request p = MkCredentialRequest (cb_Handle (sv_Credential server)) (va_TenantID scope) (va_UserID scope) (sv_ServerID server)
          (cb_Audience (sv_Credential server)) (sv_TargetRef server))
    | Err _ => True end) h.
Proof.
  intros Hh. unfold authorizeCredential. destruct (cb_Handle (sv_Credential server) == "") eqn:He.
  { bools in He. split; [done|]. intros Hne. by rewrite He in Hne. }
  apply guarded_require; [intros _|done]. set (q := MkCredentialRequest _ _ _ _ _ _). eapply guarded_seq; [by apply redacting_answered|].
  intros l [p|e]; [|done]. unfold answered. intros ->. cbv beta iota. unfold require. destruct (_ && _) eqn:Hp; [|done]. bools in Hp. destruct Hp as [[Hd _] Hq].
  split; [by constructor|]. intros _. rewrite Hq. split; [done|]. split; [apply seen_here|done].
Qed.
(** What was granted stays granted. *)
Lemma authorized_later h l c scope authorization credential : authorized h c scope authorization credential -> authorized (l ++ h) c scope authorization credential.
Proof.
  intros ([authority H1] & H2 & H3 & H4 & server & tool & H5 & H6). split; [exists authority; by apply seen_app|]. split; [done|]. split; [by apply seen_app|].
  split; [done|]. exists server, tool. split; [done|]. intros Hne. destruct (H6 Hne) as (H7 & H8 & H9). split; [done|]. split; [by apply seen_app|done].
Qed.
Lemma dispatch_authorized authority e h : unstarted h -> guarded permitted (authorizeNewDispatch gw authority e) (fun h' r => match r with
    | Ok (scope, authorization, credential) => unstarted h' /\ authorized h' (ef_Call e) scope authorization credential
    | Err _ => True end) h.
Proof.
  intros Hh. unfold authorizeNewDispatch. eapply guarded_seq; [by apply redacting_answered|]. intros l [scope|x]; [|done]. unfold answered. intros ->.
  set (h1 := Programs.Event _ _ :: h). cbv beta iota zeta. apply guarded_require; [intros Hscope|done].
  assert (Hh1 : unstarted h1) by (by constructor).
  eapply guarded_seq with (Q := fun h' r => match r with Ok x => registrationForEffect gw e = Ok x /\ unstarted h' | Err _ => True end).
  { destruct (registrationForEffect gw e) as [x|x]; [done|]. split; [by split|]. by intros [y|]. }
  intros l1 [[server tool]|x]; [|done]. intros [Hreg Hl1]. eapply guarded_seq; [by apply authorize_answered|]. intros l2 [authorization|x]; [|done].
  intros (Hl2 & Hseen & Hvalid). eapply guarded_seq; [apply calm_part; [apply availability_any|done]|]. intros l3 [a|x] [_ Hl3]; [|done].
  apply guarded_require; [intros _|done]. eapply guarded_seq; [by apply credential_answered|]. intros l4 [credential|x]; [|done].
  intros [Hl4 Hcred]. simpl. split; [done|]. split; [exists authority; do 4 apply seen_app; apply seen_here|]. split; [done|]. split; [by do 2 apply seen_app|].
  split; [done|]. by exists server, tool.
Qed.

Lemma negotiate_permitted authority scope authorization credential permit command current h :
  unstarted h -> dc_Scope command = scope -> authorized h (ef_Call current) scope authorization credential ->
  dc_Server command = serverForEffect (ef_Call current) -> dc_ToolName command = ca_ToolName (ef_Call current) ->
  dc_InputCanonical command = ca_InputCanonical (ef_Call current) -> dc_InvocationID command = va_InvocationID (ca_Scope (ef_Call current)) ->
  dc_RequestDigest command = ca_RequestDigest (ef_Call current) -> dc_Attempt command = at_Attempt (CurrentAttempt current).1 ->
  (exists q, seen (StoreDispatch q) (Ok permit) h /\ dq_Next q = current) -> validDispatchPermit permit current authorization (dc_Attempt command) = true ->
  guarded permitted (negotiate gw authority scope authorization credential permit command current) (fun _ _ => True) h.
Proof.
  intros Hh Hs Ha C1 C2 C3 C4 C5 C6 (q & Hq & Hn) Hp. unfold negotiate. apply guarded_ask; [by split|]. intros answer. apply guarded_ask; [by split|]. intros [x|].
  { eapply calm_permitted, cancelling_any. }
  destruct answer as [receipt|x]; [|eapply calm_permitted, record_failure_any].
  destruct (receipt_error command scope current receipt) as [x|]; [eapply calm_permitted, record_failure_any|]. set (h1 := Programs.Event _ _ :: _).
  apply guarded_step_pure. intros t Ht. destruct (negotiation_applied _ _ _ _ Ht) as (N1 & N2 & N3 & N4).
  eapply guarded_step; [apply persisted; [by do 2 constructor|by eexists _, _]|]. intros l e (Hl & -> & Hcommit).
  apply claim_and_start_permitted; [done|done|]. intros h' start (l' & ->) (q' & Hq' & Hq'') Hv. constructor; simpl; rewrite ?N1.
  - by rewrite N3, C6.
  - rewrite Hs. apply authorized_later, authorized_later, (authorized_later h [_; _]), Ha.
  - exists q. rewrite Hn. split; [|done]. by do 2 apply seen_app; do 2 apply seen_later.
  - split; [done|]. rewrite C6. split; [done|]. destruct Hcommit as (qc & s & Hc & Hd & Hnext). exists qc, s. split; [by apply seen_app|done].
  - exists q'. by rewrite Hs.
Qed.

Lemma execute_permitted authority hasSink e : guarded permitted (Execute gw authority hasSink e) (fun _ _ => True) [].
Proof.
  unfold Execute. eapply guarded_step; [apply calm_part; [apply context_any|by constructor]|]. intros l0 [] [_ Hl0]. do 3 (apply guarded_step_pure; intros _ _).
  eapply guarded_step; [by apply dispatch_authorized|]. intros l1 [[scope authorization] credential] [Hl1 Ha]. apply guarded_step_pure. intros t Ht.
  destruct (begin_applied _ _ _ Ht) as (B1 & d & Hd & B2 & B3 & B4 & B5 & B6 & B7).
  eapply guarded_step; [apply redacting_answered; split; [by exists (no_event (ef_Revision e) EventBeginDispatch), t, d|done]|]. intros l2 permit Hl2. unfold answered in Hl2. rewrite Hl2.
  destruct (validDispatchPermit _ _ _ _) eqn:Hp; [|done]. simpl negb. cbv iota. rewrite Hd.
  apply negotiate_permitted; simpl; rewrite ?B1; try done; [by constructor|by apply (authorized_later _ [_])| |by rewrite B7].
  eexists. split; [apply seen_here|done].
Qed.

(** ** Audits *)
Lemma deliver_permitted k envelope h : provided h envelope -> guarded permitted (deliverAuditEnvelope gw k envelope) (fun _ _ => True) h.
Proof.
  intros Hen. unfold deliverAuditEnvelope. apply guarded_require; [intros Hv|done]. apply guarded_ask; [split; [done|]; by exists envelope|].
  intros [e|].
  - split; [by split|]. by intros [x|].
  - eapply guarded_mono; [apply redacting_answered|done]. split; [done|]. exists envelope. split; [by apply (provided_app [_])|]. split; [done|apply seen_here].
Qed.
Lemma deliver_all_permitted pending : forall previous h, Forall (provided h) pending -> guarded permitted (deliver_in_order gw previous pending) (fun _ _ => True) h.
Proof.
  induction pending as [|envelope rest IH]; intros previous h Hp; [done|]. apply Forall_cons in Hp as [He Hp]. cbn [deliver_in_order].
  apply guarded_require; [intros _|done]. eapply guarded_seq; [by apply deliver_permitted|]. intros l [[]|e] _; [|done]. apply IH.
  eapply Forall_impl; [exact Hp|]. intros en. apply provided_app.
Qed.
Lemma flush_permitted limit h : guarded permitted (FlushAudit gw limit) (fun _ _ => True) h.
Proof.
  unfold FlushAudit. apply guarded_bind. eapply guarded_mono; [eapply calm_permitted, context_any|]. intros h1 [[]|e] _; [|done].
  apply guarded_require; [intros _|done]. eapply guarded_seq; [apply redacting_answered; by split|]. intros l [pending|e] Hl; [|done]. unfold answered in Hl. rewrite Hl.
  apply guarded_require; [intros _|done]. apply deliver_all_permitted. apply Forall_forall. intros envelope Hin. by apply provided_here.
Qed.
Lemma confirm_permitted authority e decision h : guarded permitted (Confirm gw authority e decision) (fun _ _ => True) h.
Proof.
  unfold Confirm. eapply guarded_step; [eapply calm_permitted, context_any|]. intros l0 [] _. do 2 (apply guarded_step_pure; intros _ _).
  eapply guarded_step; [eapply calm_permitted, current_any|]. intros l1 scope _. apply guarded_step_pure. intros t Ht.
  eapply guarded_step; [apply redacting_answered; split; [by exists (decided e decision), t|done]|]. intros l2 stored Hl2. unfold answered in Hl2. rewrite Hl2.
  destruct (_ && _), (st_Audit stored) as [envelope|] eqn:Hau; try done. apply guarded_bind. eapply guarded_mono; [apply deliver_permitted|done].
  apply provided_here. simpl. rewrite Hau. apply list_elem_of_here.
Qed.
End protocol.

(** ** MCP gateway: requests of servers are denied by default

    A broker is called only under a fresh claim, for an allowed method of a running call;
    the roots that are reported lie in the workspace; the tools that are listed are
    registered and authorized. *)

Section requests.
Context `{N : Normalizer} (gw : Gateway).

Lemma allowed_method allowed method : serverMethodAllowed allowed method = true -> method ∈ allowed.
Proof. unfold serverMethodAllowed. intros H. apply existsb_exists in H as (m & Hin & Hm). bools in Hm. subst. by apply list_elem_of_In. Qed.
Lemma method_sampling s : method_of s = ServerRequestSampling -> s = sampling_method.
Proof. unfold method_of. by repeat case_bool_decide. Qed.
Lemma method_elicitation s : method_of s = ServerRequestElicitation -> s = elicitation_method.
Proof. unfold method_of. by repeat case_bool_decide. Qed.
Lemma method_roots s : method_of s = ServerRequestRoots -> s = roots_method.
Proof. unfold method_of. by repeat case_bool_decide. Qed.

(** After a call, the rest of a program that only cancels. *)
Lemma cancel_sample_permitted request cancellation e h : guarded (permitted gw)
  (andThen (redacting Cleanup (SamplingCancel request) ErrServerRequestDenied child_errors) (fun receipt =>
   andThen (require (validSamplingCancellationReceipt receipt cancellation) ErrServerRequestDenied) (fun _ => done (MkBrokered e receipt no_elicitation_receipt))))
  (fun _ _ => True) h.
Proof. eapply calm_permitted with (Q := any). calm_run. Qed.
Lemma broker_permitted q scope digest params permit h : unbrokered h -> request_claimed gw h permit (vq_Method q) -> rq_Scope permit = scope ->
  guarded (permitted gw) (broker gw q scope digest params permit) (fun _ _ => True) h.
Proof.
  intros Hu Hc Hs. unfold broker. destruct (method_of (vq_Method q)) eqn:Hm; [| | |done].
  - apply method_sampling in Hm. rewrite Hm in Hc. unfold sample. destruct (rq_ClaimGeneration permit =? 1) eqn:Hg; (apply guarded_ask; [split; [done|]; simpl; split; [done|]; split; [done|lia]|]);
      intros answer; (destruct (sampled _ answer); [done|]); apply cancel_sample_permitted.
  - apply method_elicitation in Hm. rewrite Hm in Hc. unfold elicit. destruct (1 <? rq_ClaimGeneration permit) eqn:Hg.
    + eapply calm_permitted with (Q := any). calm_run.
    + apply guarded_bind. apply guarded_ask; [split; [done|]; simpl; split; [done|]; split; [done|lia]|]. intros answer. eapply calm_permitted with (Q := any). calm_run.
  - apply method_roots in Hm. rewrite Hm in Hc. apply guarded_ask; [|done]. split; [done|]. split; [done|]. by exists permit.
Qed.
Lemma complete_permitted q scope digest permit response decision reason b h :
  guarded (permitted gw) (complete_request gw q scope digest permit response decision reason b) (fun _ _ => True) h.
Proof.
  unfold complete_request. eapply guarded_step; [by apply redacting_answered|]. intros l completed Hl. unfold answered in Hl. rewrite Hl.
  destruct (_ && _), (sq_Audit completed) as [envelope|] eqn:Hau; try done.
  destruct (_ != _); [done|]. eapply guarded_step; [apply deliver_permitted|done]. apply provided_here. simpl. rewrite Hau. apply list_elem_of_here.
Qed.
Lemma claim_permitted q scope server tool h : unbrokered h -> registrationForEffect gw (vq_Effect q) = Ok (server, tool) ->
  (ef_State (vq_Effect q) = StateDispatched \/ ef_State (vq_Effect q) = StateStreaming) ->
  guarded (permitted gw) (claim_request gw q scope (serverMethodAllowed (sv_AllowedServerRequests server) (method_of (vq_Method q)))) (fun _ _ => True) h.
Proof.
  intros Hu Hreg Hstate. unfold claim_request. cbv zeta. set (allowed := serverMethodAllowed _ _). apply guarded_step_pure. intros digest _.
  eapply guarded_step; [apply calm_unbrokered with (Q := any); [unfold child_identities; calm_run|done]|]. intros l1 child [_ Hl1].
  set (claim := MkRequestClaim _ _ _ _ _ _ _ _ _ _ _ _). eapply guarded_step; [by apply redacting_answered|]. intros l2 claimed Hclaimed. unfold answered in Hclaimed.
  apply guarded_step_pure. intros [] Hfor%require_ok. destruct (rr_State (sq_Record claimed) == ServerRequestCompleted); [done|].
  apply guarded_step_pure. intros [] Hfresh%require_ok. unfold claimed_for in Hfor. unfold fresh_claim in Hfresh. cbv zeta in Hfor, Hfresh. bools in Hfor. bools in Hfresh.
  eapply guarded_step with (Q := fun _ _ => True).
  - unfold answered_response. destruct (bounded_value gw _ _) as [params|]; [|done]. destruct allowed eqn:Hallowed; [|done]. simpl negb. cbv iota.
    apply guarded_bind. eapply guarded_mono; [apply broker_permitted|by intros h' [b|e]]; [rewrite Hclaimed; by constructor| |tauto]. exists claim, claimed, server, tool. rewrite Hclaimed.
    split; [apply seen_here|]. split_and!; try done; try tauto. by apply allowed_method.
  - intros l3 [[[response decision] reason] b] _. apply complete_permitted.
Qed.
Lemma request_permitted q : guarded (permitted gw) (HandleServerRequest gw q) (fun _ _ => True) [].
Proof.
  unfold HandleServerRequest. cbv zeta. eapply guarded_step; [apply calm_unbrokered; [apply context_any|by constructor]|]. intros l0 [] [_ Hl0]. do 2 (apply guarded_step_pure; intros _ _).
  apply guarded_step_pure. intros [] Hstate%require_ok. bools in Hstate. destruct (CurrentAttempt (vq_Effect q)) as [attempt ok]. apply guarded_step_pure. intros _ _.
  eapply guarded_step; [apply calm_unbrokered; [apply current_any|done]|]. intros l1 scope [_ Hl1]. apply guarded_step_pure. intros [server tool] Hreg.
  by apply (claim_permitted q scope server tool).
Qed.

(** ** Advertised tools *)
Lemma list_calm q : calm gw (FilterAdvertisedTools gw q) any.
Proof.
  assert (Hv : forall scope advertised seen, calm gw (visible_tools gw q scope seen advertised) any).
  { intros scope. induction advertised as [|tool rest IH]; intros seen; cbn [visible_tools]; calm_run. }
  unfold FilterAdvertisedTools. calm_run.
Qed.
(** A tool that is shown. *)
Definition shown (h : trace) (q : ToolListRequest) (scope : ValidatedAuthority) (tool : string) : Prop :=
  tool ∈ tl_Advertised q /\ is_Some (gw_tools gw !! (va_TenantID scope, va_UserID scope, tl_ServerID q, tool)) /\
  exists permit, seen (Authorize (MkToolRequest scope (tl_ServerID q) tool (tl_RequestDigest q) "mcp.tools.list")) (Ok permit) h /\
    validAuthorizationPermit permit scope (tl_ServerID q) tool (tl_RequestDigest q) = true.
Lemma shown_later h l q scope tool : shown h q scope tool -> shown (l ++ h) q scope tool.
Proof. intros (H1 & H2 & permit & H3 & H4). split; [done|]. split; [done|]. exists permit. split; [by apply seen_app|done]. Qed.
Definition listing (q : ToolListRequest) (scope : ValidatedAuthority) (known : list string) (h : trace) (r : res mcp_error (list string)) : Prop :=
  match r with Ok tools => NoDup tools /\ (forall t, t ∈ tools -> t ∉ known) /\ Forall (shown h q scope) tools | Err _ => True end.
Lemma visible_listing q scope : forall advertised known h, (forall t, t ∈ advertised -> t ∈ tl_Advertised q) ->
  guarded (fun _ _ _ => True) (visible_tools gw q scope known advertised) (listing q scope known) h.
Proof.
  assert (Hskip : forall known tool h r, listing q scope (tool :: known) h r -> listing q scope known h r).
  { intros known tool h [tools|e]; [|done]. simpl. intros (H1 & H2 & H3). split_and!; try done. intros t Ht Hk. by apply (H2 t Ht), elem_of_cons; right. }
  induction advertised as [|tool rest IH]; intros known h Hin; cbn [visible_tools].
  { simpl. split; [by constructor|]. split; [by intros t Ht%elem_of_nil|by constructor]. }
  assert (Hrest : forall t, t ∈ rest -> t ∈ tl_Advertised q) by (intros t Ht; apply Hin; by apply elem_of_cons; right).
  unfold require. destruct (validIdentifier tool _); [|done]. destruct (bool_decide (tool ∈ known)) eqn:Hk; [done|]. apply bool_decide_eq_false in Hk. simpl.
  destruct (gw_tools gw !! _) as [registered|] eqn:Hr; [|eapply guarded_mono; [by apply IH|intros; by eapply Hskip]].
  split; [done|]. intros [permit|e].
  - simpl. destruct (validAuthorizationPermit permit scope (tl_ServerID q) tool (tl_RequestDigest q)) eqn:Hv; [|done]. unfold andThen, pure; cbn [bindP]. apply guarded_bind.
    eapply guarded_mono; [apply guarded_extends, IH, Hrest|].
    intros h' [tools|e] [Hl [l ->]]; [|done]. simpl. destruct Hl as (H1 & H2 & H3). split_and!.
    + constructor; [|done]. intros Ht. by apply (H2 tool Ht), elem_of_cons; left.
    + intros t [->|Ht]%elem_of_cons; [done|]. intros Hk'. by apply (H2 t Ht), elem_of_cons; right.
    + constructor; [|done]. apply (shown_later (Programs.Event _ (Ok permit) :: h)). split; [apply Hin; by apply elem_of_cons; left|]. split; [by eexists|]. exists permit. split; [apply seen_here|done].
  - simpl. destruct (_ || _); [eapply guarded_mono; [by apply IH|intros; by eapply Hskip]|]. split; [done|]. by intros [x|].
Qed.
(** The tools that a session sees. Whatever the dependencies answer, the list that
    [FilterAdvertisedTools] returns has no duplicates, and every tool in it was advertised
    by the server, is registered for the tenant, user and server of the validated scope,
    and was authorized for listing by a permit of exactly this scope, tool and request. *)
Theorem mcp_listed_tools q : guarded (fun _ _ _ => True) (FilterAdvertisedTools gw q)
  (fun h r => match r with Ok tools => NoDup tools /\ exists scope, Forall (shown h q scope) tools /\
     seen (ValidateAdmission (tl_Authority q) (MkAuthorityRequest (tl_EffectID q) (tl_InvocationID q) (tl_RequestDigest q) "mcp.tools.list")) (Ok scope) h | Err _ => True end) [].
Proof.
  unfold FilterAdvertisedTools. split; [done|]. intros [x|]; [done|]. simpl. unfold require. destruct (_ && _); [|done]. simpl. split; [done|].
  intros [scope|e]; [|split; [done|by intros [x|]]]. simpl. destruct (_ && _); [|done]. simpl. destruct (bool_decide _); [|done]. simpl.
  eapply guarded_mono; [apply guarded_extends, visible_listing; done|]. intros h [tools|e] [Hl [l ->]]; [|done]. destruct Hl as (H1 & _ & H3).
  split; [done|]. exists scope. split; [done|]. apply seen_app, seen_here.
Qed.

(** ** Roots *)
Definition workspace_root (root : string) : Prop := path_Clean root = root /\ in_workspace root = true /\ parses_back root (file_uri root) = true.
Lemma root_values_ok : forall roots known values, root_values gw known roots = Ok values ->
  NoDup roots /\ (forall r, r ∈ roots -> r ∉ known) /\ Forall workspace_root roots /\ values = map (fun r => VMap [("uri", VString (file_uri r))]) roots.
Proof.
  induction roots as [|root rest IH]; intros known values H; cbn [root_values] in H.
  { injection H as <-. split; [by constructor|]. split; [by intros r Hr%elem_of_nil|]. by split; [constructor|]. }
  apply reject_if_ok in H as [Hr H]. apply reject_if_ok in H as [Hk H]. apply reject_if_ok in H as [Hp H]. apply bind_ok in H as (vs & Hvs & H). injection H as <-.
  bools in Hr. bools in Hk. bools in Hp. destruct (IH _ _ Hvs) as (H1 & H2 & H3 & ->). split_and!.
  - constructor; [|done]. intros Hin. by apply (H2 root Hin), elem_of_cons; left.
  - intros r [->|Hin]%elem_of_cons; [done|]. intros Hk'. by apply (H2 r Hin), elem_of_cons; right.
  - constructor; [|done]. split_and!; tauto.
  - done.
Qed.
End requests.
