(* ===== verification/McpRuns.v ===== *)
(** * MCP gateway: every interleaving

    Admissions, executions, cancellations, recoveries, confirmations, requests of servers
    and the delivery of audits run together on the reference repository, which answers each call or loses the
    answer; the other dependencies answer anything; processes stop at any point. What holds
    of the repository and of the providers' starts in every such run. *)

From S2P Require Import Prelude Programs GoText GoCrypto Canonical CanonicalSpec CanonicalEncode CanonicalDecode CanonicalProofs Identity BrokerTypes McpGateway McpMachine McpProofs McpReplay McpStore McpStoreProofs McpExecutor McpRecovery McpRequests McpAdmission McpCalm McpProtocol.
#[local] Open Scope string_scope.
#[local] Open Scope list_scope.
#[local] Open Scope Z_scope.
#[local] Open Scope go_scope.

(** ** The world

    The repository, and what no process can see: which process was granted each dispatch,
    the attempts that providers were started for, the entries that the outbox ever held, the
    audits that the sink recorded, which process was granted the first claim of each request
    of a server, the requests that the user was asked for, and whether the generation of a
    claim, a 64-bit counter, has wrapped around to zero. *)
Record World := MkWorld {
  w_repository : MemoryRepository; w_holder : gmap string nat; w_started : list (ID * Z); w_log : gmap Z AuditEnvelope; w_recorded : list AuditEvent;
  w_claimant : gmap serverRequestKey nat; w_asked : list serverRequestKey; w_wrapped : bool;
}.
Definition world0 : World := MkWorld NewMemoryRepository ∅ [] ∅ [] ∅ [] false.
Definition w_outbox (w : World) : Outbox := rp_outbox (w_repository w).
Definition with_repository (w : World) (r : MemoryRepository) : World :=
  MkWorld r (w_holder w) (w_started w) (ob_pending (rp_outbox r) ∪ w_log w) (w_recorded w) (w_claimant w) (w_asked w) (w_wrapped w).
Definition with_holder (key : string) (i : nat) (w : World) : World :=
  MkWorld (w_repository w) (<[key := i]> (w_holder w)) (w_started w) (w_log w) (w_recorded w) (w_claimant w) (w_asked w) (w_wrapped w).
Definition with_started (a : ID * Z) (w : World) : World :=
  MkWorld (w_repository w) (w_holder w) (a :: w_started w) (w_log w) (w_recorded w) (w_claimant w) (w_asked w) (w_wrapped w).
Definition with_recorded (e : AuditEvent) (w : World) : World :=
  MkWorld (w_repository w) (w_holder w) (w_started w) (w_log w) (e :: w_recorded w) (w_claimant w) (w_asked w) (w_wrapped w).
Definition with_asked (k : serverRequestKey) (w : World) : World :=
  MkWorld (w_repository w) (w_holder w) (w_started w) (w_log w) (w_recorded w) (w_claimant w) (k :: w_asked w) (w_wrapped w).
(** The first claim of a request that was granted. *)
Definition first_claim (s : StoredServerRequest) : option serverRequestKey :=
  if sq_Fresh s && (rq_ClaimGeneration (claim_of s) <=? 1) then Some (permit_request (claim_of s)) else None.
Definition with_claim (i : nat) (a : res mcp_error StoredServerRequest) (w : World) : World :=
  match a with
  | Err _ => w
  | Ok s =>
      MkWorld (w_repository w) (w_holder w) (w_started w) (w_log w) (w_recorded w)
        (match first_claim s with Some k => <[k := i]> (w_claimant w) | None => w_claimant w end) (w_asked w)
        (w_wrapped w || (sq_Fresh s && (rq_ClaimGeneration (claim_of s) =? 0)))
  end.
Definition attempt_key (a : ID * Z) : string := dispatchClaimKey (id_value a.1) a.2.
Definition permit_attempt (p : DispatchPermit) : ID * Z := (dp_InvocationID p, dp_Attempt p).
Definition permit_key (p : DispatchPermit) : string := attempt_key (permit_attempt p).

(** The repository performs an operation and answers, or the answer is lost; or it refuses,
    or the call does not reach it. *)
Definition lost {A} (x : res mcp_error A) : Prop := exists e, x = Err e.
Definition performs {A} (w : World) (op : option mcp_error -> Z -> res mcp_error (A * MemoryRepository)) (x : res mcp_error A) (w' : World) : Prop :=
  (lost x /\ w' = w) \/ exists ctx now a r, op ctx now = Ok (a, r) /\ (x = Ok a \/ lost x) /\ w' = with_repository w r.
(** An operation whose refusal may be recorded. *)
Definition performs_claim {A} (w : World) (op : option mcp_error -> Z -> res mcp_error (res mcp_error A * MemoryRepository)) (x : res mcp_error A) (w' : World) : Prop :=
  (lost x /\ w' = w) \/ exists ctx now a r, op ctx now = Ok (a, r) /\ (x = a \/ lost x) /\ w' = with_repository w r.
Definition reads {A} (w : World) (op : option mcp_error -> res mcp_error A) (x : res mcp_error A) (w' : World) : Prop :=
  w' = w /\ (lost x \/ exists ctx, x = op ctx).
Definition call_sem (w : World) (i : nat) (X : Type) (c : MCall X) : X -> World -> Prop :=
  match c in MCall X return X -> World -> Prop with
  | Start _ c => fun _ w' => w' = with_started (dc_InvocationID (pc_Command c), dc_Attempt (pc_Command c)) w
  | RecordAudit e => fun x w' => w' = match x with None => with_recorded e w | Some _ => w end
  | Elicit q => fun _ w' => w' = with_asked (permit_request (eq_Claim q)) w
  | StoreReplay q => fun x w' => reads w (fun ctx => ReplayAdmission ctx (w_repository w) q) x w'
  | StoreLoad id => fun x w' => reads w (fun ctx => Load ctx (w_repository w) id) x w'
  | StorePending limit => fun x w' => reads w (fun ctx => PendingAudits ctx (w_repository w) limit) x w'
  | StoreAdmit e => fun x w' => performs w (fun ctx _ => Admit ctx (w_repository w) e) x w'
  | StoreDispatch q => fun x w' => (lost x /\ w' = w) \/ exists ctx p r, CommitAndClaimDispatch ctx (w_repository w) q = Ok (p, r) /\ (x = Ok p \/ lost x) /\
      w' = with_holder (permit_key p) i (with_repository w r)
  | StoreStart q => fun x w' => performs w (fun ctx now => ClaimProviderStart ctx now (w_repository w) q) x w'
  | StoreResolve scope e => fun x w' => performs w (fun ctx now => ResolveProviderStart ctx now (w_repository w) scope e) x w'
  | StoreCancellation q => fun x w' => performs_claim w (fun ctx now => ClaimCancellation ctx now (w_repository w) q) x w'
  | StoreCommit q => fun x w' => performs w (fun ctx now => Commit ctx now (w_repository w) q) x w'
  | StoreReconcile scope e => fun x w' => performs w (fun ctx now => ReconcileServerRequests ctx now (w_repository w) scope e) x w'
  | StoreReconciled q => fun x w' => performs w (fun ctx _ => CompleteServerRequestReconciliation ctx (w_repository w) q) x w'
  | StoreClaimRequest q => fun x w' => (lost x /\ w' = w) \/ exists ctx now a r, ClaimServerRequest ctx now (w_repository w) q = Ok (a, r) /\ (x = a \/ lost x) /\
      w' = with_claim i a (with_repository w r)
  | StoreCompleteRequest q => fun x w' => performs w (fun ctx _ => CompleteServerRequest ctx (w_repository w) q) x w'
  | StoreAcknowledge n => fun x w' => performs w (fun ctx _ => r ← AcknowledgeAudit ctx (w_repository w) n; Ok (tt, r)) x w'
  | _ => fun _ w' => w' = w
  end.
(** Beside the programs, audits are appended, and the authority of a turn moves on. *)
Inductive env_step (w : World) : World -> Prop :=
| env_append ctx event a r : AppendAudit ctx (w_repository w) event = Ok (a, r) -> env_step w (with_repository w r)
| env_authority scope r : SetCurrentAuthority (w_repository w) scope = Ok r -> env_step w (with_repository w r).

Section runs.
Context {N : Normalizer} {NL : NormalizerLaws} (gw : Gateway).

Inductive starts : forall A : Type, Prog MCall A -> Prop :=
| start_admit q : starts _ (Gateway_Admit gw q)
| start_execute authority hasSink e : starts _ (Execute gw authority hasSink e)
| start_cancel authority e : starts _ (Cancel gw authority e)
| start_recover authority e : starts _ (Recover gw authority e)
| start_confirm authority e decision : starts _ (Confirm gw authority e decision)
| start_flush limit : starts _ (FlushAudit gw limit)
| start_request q : starts _ (HandleServerRequest gw q)
| start_list q : starts _ (FilterAdvertisedTools gw q).
Definition mcp_step := pool_step call_sem env_step starts.
Lemma starts_permitted : configured gw -> forall A (p : Prog MCall A), starts A p -> guarded (permitted gw) p (fun _ _ => True) [].
Proof using Type*.
  intros Hcf A p. destruct 1; [eapply calm_permitted; by apply admission_calm|apply execute_permitted|eapply calm_permitted, cancel_any|eapply calm_permitted, recover_any
    |apply confirm_permitted|apply flush_permitted|apply request_permitted|eapply calm_permitted, list_calm].
Qed.

(** ** What holds of the world *)

(** The outbox: what it held is there with its content, or was recorded; what was recorded
    it held. *)
Record audits_ok (w : World) : Prop := MkAuditsOk {
  au_sequence : 0 <= ob_sequence (w_outbox w);
  au_pending : forall n envelope, ob_pending (w_outbox w) !! n = Some envelope -> w_log w !! n = Some envelope;
  au_log : forall n envelope, w_log w !! n = Some envelope ->
    1 <= n <= ob_sequence (w_outbox w) /\ entry n envelope /\ (ob_pending (w_outbox w) !! n = Some envelope \/ an_Event envelope ∈ w_recorded w);
  au_complete : forall n, 1 <= n <= ob_sequence (w_outbox w) -> is_Some (w_log w !! n);
  au_recorded : forall event, event ∈ w_recorded w -> exists n envelope, w_log w !! n = Some envelope /\ an_Event envelope = event;
}.
(** The user: who asks holds the first claim of a request, which there is once. *)
Record user_ok (w : World) : Prop := MkUserOk {
  us_claims : forall k record, request_records (w_repository w) !! k = Some record -> rr_State record = ServerRequestClaimed ->
    1 <= rq_ClaimGeneration (rr_Permit record) < 2 ^ 64;
  us_claimant : forall k, is_Some (w_claimant w !! k) -> is_Some (request_records (w_repository w) !! k);
  us_asked : forall k, k ∈ w_asked w -> is_Some (w_claimant w !! k);
  us_once : NoDup (w_asked w);
}.
Record world_ok (w : World) : Prop := MkWorldOk {
  wo_run : rtc (serves gw) NewMemoryRepository (w_repository w);
  wo_held : forall key, is_Some (w_holder w !! key) -> is_Some (cl_dispatches (rp_claims (w_repository w)) !! key);
  wo_started : forall a, a ∈ w_started w -> is_Some (w_holder w !! attempt_key a);
  wo_once : NoDup (w_started w);
  wo_audits : audits_ok w;
  wo_user : w_wrapped w = false -> user_ok w;
}.
(** What a process was granted, and what it recorded. *)
Definition granted {X} (c : MCall X) : X -> option DispatchPermit :=
  match c in MCall X return X -> option DispatchPermit with StoreDispatch _ => fun x => match x with Ok p => Some p | Err _ => None end | _ => fun _ => None end.
Definition recorded {X} (c : MCall X) : X -> option AuditEvent :=
  match c in MCall X return X -> option AuditEvent with RecordAudit e => fun x => match x with None => Some e | Some _ => None end | _ => fun _ => None end.
Definition claimed {X} (c : MCall X) : X -> option serverRequestKey :=
  match c in MCall X return X -> option serverRequestKey with StoreClaimRequest _ => fun x => match x with Ok s => first_claim s | Err _ => None end | _ => fun _ => None end.
Fixpoint traced (h : trace) : Prop := match h with [] => True | e :: rest => traced rest /\ timely gw rest (ev_call _ e) end.
(** What an answer tells its process, and goes on to hold. *)
Record told (w : World) (i : nat) (e : event MCall) : Prop := MkTold {
  td_granted : forall p, granted (ev_call _ e) (ev_answer _ e) = Some p -> w_holder w !! permit_key p = Some i;
  td_recorded : forall event, recorded (ev_call _ e) (ev_answer _ e) = Some event -> event ∈ w_recorded w;
  td_envelope : forall envelope, envelope ∈ envelopes (ev_call _ e) (ev_answer _ e) -> w_log w !! an_Sequence envelope = Some envelope;
  td_claimed : forall k, w_wrapped w = false -> claimed (ev_call _ e) (ev_answer _ e) = Some k -> w_claimant w !! k = Some i;
}.
Record assured (w : World) (i : nat) (h : trace) : Prop := MkAssured {
  as_told : Forall (told w i) h;
  as_started : unstarted h -> Forall (fun e => forall p, granted (ev_call _ e) (ev_answer _ e) = Some p -> permit_attempt p ∉ w_started w) h;
  as_asked : unbrokered h -> Forall (fun e => forall k, w_wrapped w = false -> claimed (ev_call _ e) (ev_answer _ e) = Some k -> k ∉ w_asked w) h;
  as_traced : traced h;
}.
Lemma traced_timely h1 e h2 : traced (h1 ++ e :: h2) -> timely gw h2 (ev_call _ e).
Proof. induction h1 as [|e' h1 IH]; simpl; intros [H1 H2]; [done|by apply IH]. Qed.
Lemma seen_told w i h X (c : MCall X) x : assured w i h -> seen c x h -> told w i (Programs.Event c x).
Proof. intros [Ht _ _ _] Hs. rewrite Forall_forall in Ht. by apply Ht. Qed.
Lemma seen_unstarted w i h q p : assured w i h -> unstarted h -> seen (StoreDispatch q) (Ok p) h -> permit_attempt p ∉ w_started w.
Proof. intros [_ Hst _ _] Hu Hs. specialize (Hst Hu). rewrite Forall_forall in Hst. by apply (Hst _ Hs). Qed.
Lemma provided_logged w i h envelope : assured w i h -> provided h envelope -> w_log w !! an_Sequence envelope = Some envelope.
Proof. intros [Ht _ _ _] (e & He & Hen). rewrite Forall_forall in Ht. by apply (td_envelope _ _ _ (Ht _ He)). Qed.
Lemma mcp_assured_nil w i : assured w i [].
Proof. constructor; [by apply Forall_nil|intros _; by apply Forall_nil..|done]. Qed.
(** The history of a process grows. *)
Lemma assured_cons w i h X (c : MCall X) (x : X) : assured w i h -> timely gw h c -> told w i (Programs.Event c x) ->
  (starts_provider c = false -> forall p, granted c x = Some p -> permit_attempt p ∉ w_started w) ->
  (calls_broker c = false -> forall k, w_wrapped w = false -> claimed c x = Some k -> k ∉ w_asked w) -> assured w i (Programs.Event c x :: h).
Proof.
  intros [A1 A2 A3 A4] Ht Hd Hs Hb. constructor; [by constructor| | |by split].
  - intros Hu. apply Forall_cons in Hu as [Hu1 Hu2]. constructor; [by apply Hs|by apply A2].
  - intros Hu. apply Forall_cons in Hu as [Hu1 Hu2]. constructor; [by apply Hb|by apply A3].
Qed.

(** What a process knows survives what leaves the ghosts as they are, or adds to them. *)
Record extends (w w' : World) : Prop := MkExtends {
  ex_holder : w_holder w ⊆ w_holder w'; ex_recorded : forall e, e ∈ w_recorded w -> e ∈ w_recorded w'; ex_log : w_log w ⊆ w_log w';
  ex_wrapped : w_wrapped w' = false -> w_wrapped w = false; ex_claimant : w_wrapped w' = false -> w_claimant w ⊆ w_claimant w';
}.
Lemma told_extends w w' i e : extends w w' -> told w i e -> told w' i e.
Proof.
  intros [E1 E2 E3 E4 E5] [T1 T2 T3 T4]. constructor.
  - intros p Hp. eapply lookup_weaken; [by apply T1|done].
  - intros event He. by apply E2, T2.
  - intros en Hen. eapply lookup_weaken; [by apply T3|done].
  - intros k Hw Hk. eapply lookup_weaken; [by apply T4; [apply E4|]|by apply E5].
Qed.
Lemma assured_extends w w' i h : extends w w' -> w_started w' = w_started w -> w_asked w' = w_asked w -> assured w i h -> assured w' i h.
Proof.
  intros He Hs Ha [A1 A2 A3 A4]. constructor; [|by rewrite Hs| |done].
  - eapply Forall_impl; [exact A1|]. intros e. by apply told_extends.
  - rewrite Ha. intros Hu. eapply Forall_impl; [by apply A3|]. intros e Hk k Hw. apply Hk. by apply (ex_wrapped _ _ He).
Qed.

(** ** Steps of the repository *)
Definition step_advances r r' (H : serves gw r r') : advances r r' := run_advances gw r r' (rtc_once _ _ H).
(** The log only grows when the outbox appends. *)
Lemma log_appends w r : audits_ok w -> appends (w_outbox w) (rp_outbox r) -> w_log w ⊆ w_log (with_repository w r) /\ audits_ok (with_repository w r).
Proof.
  intros [U1 U2 U3 U4 U5] [G1 G2 G3 G4]. assert (Hsub : w_log w ⊆ w_log (with_repository w r)).
  { apply map_subseteq_spec. intros n en Hn. simpl. apply lookup_union_Some_raw. destruct (U3 _ _ Hn) as (Hr & _ & _).
    rewrite G2 by lia. destruct (ob_pending (w_outbox w) !! n) as [en'|] eqn:Hp; [left|by right]. by rewrite (U2 _ _ Hp) in Hn. }
  split; [done|]. constructor; simpl; unfold w_outbox in *; simpl.
  - lia.
  - intros n en Hn. by apply lookup_union_Some_l.
  - intros n en [Hn|[Hno Hn]]%lookup_union_Some_raw.
    + destruct (G4 _ _ Hn) as [Ho|[Hr He]]; [|split; [lia|auto]]. destruct (U3 _ _ (U2 _ _ Ho)) as (Hr & He & _). split; [lia|auto].
    + destruct (U3 _ _ Hn) as (Hr & He & [Hp|?]); [|split; [lia|auto]]. rewrite G2 in Hno by lia. congruence.
  - intros n Hn. destruct (decide (n <= ob_sequence (rp_outbox (w_repository w)))).
    + destruct (U4 n) as [en Hen]; [lia|]. exists en. by eapply lookup_weaken.
    + destruct (G3 n) as [en Hen]; [lia|]. exists en. by apply lookup_union_Some_l.
  - intros event He. destruct (U5 _ He) as (n & en & Hn & Hev). exists n, en. split; [by eapply lookup_weaken|done].
Qed.
Lemma user_kept w r : user_ok w -> requests_kept (request_records (w_repository w)) (request_records r) -> user_ok (with_repository w r).
Proof.
  intros [S1 S2 S3 S4] [K1 K2]. constructor; simpl; try done.
  - intros k record Hk Hc. apply (S1 k); [by apply K2|done].
  - intros k Hk. by apply K1, S2.
Qed.
Lemma extends_repository w r : w_log w ⊆ w_log (with_repository w r) -> extends w (with_repository w r).
Proof. by constructor. Qed.
(** The repository moves, and the rest with it. *)
Definition moves (w w' : World) : Prop := w' = w \/ exists r, w' = with_repository w r /\ serves gw (w_repository w) r /\ kept (w_repository w) r.
Lemma held_serves w r : (forall key, is_Some (w_holder w !! key) -> is_Some (cl_dispatches (rp_claims (w_repository w)) !! key)) -> serves gw (w_repository w) r ->
  forall key, is_Some (w_holder w !! key) -> is_Some (cl_dispatches (rp_claims r) !! key).
Proof. intros W2 Hs key Hk. destruct (step_advances _ _ Hs) as [Hd _]. destruct (W2 _ Hk) as [p Hp]. exists p. by eapply lookup_weaken. Qed.
Lemma repository_ok w r : world_ok w -> serves gw (w_repository w) r -> kept (w_repository w) r ->
  world_ok (with_repository w r) /\ extends w (with_repository w r).
Proof.
  intros [W1 W2 W3 W4 W5 W6] Hs [K1 K2]. destruct (log_appends w r W5 K1) as [Hsub Hau]. split; [|by apply extends_repository].
  constructor; try done; [by eapply rtc_r|exact (held_serves w r W2 Hs)|]. intros Hw. by apply user_kept; [apply W6|].
Qed.
Lemma moves_ok w w' : world_ok w -> moves w w' -> world_ok w' /\ extends w w' /\ w_started w' = w_started w /\ w_asked w' = w_asked w.
Proof.
  intros Hw [-> |(r & -> & Hs & Hk)]; [split; [done|]; split; [by constructor|done]|]. destruct (repository_ok w r Hw Hs Hk) as [H1 H2]. done.
Qed.

(** The calls that only move the repository. *)
Definition ordinary {X} (c : MCall X) : bool :=
  match c with Start _ _ | RecordAudit _ | StoreDispatch _ | StoreAcknowledge _ | Elicit _ | StoreClaimRequest _ => false | _ => true end.
Lemma performs_moves {A} w (op : option mcp_error -> Z -> res mcp_error (A * MemoryRepository)) x w' : performs w op x w' ->
  (forall ctx now a r, op ctx now = Ok (a, r) -> serves gw (w_repository w) r /\ kept (w_repository w) r) -> moves w w'.
Proof. intros [[_ ->]|(ctx & now & a & r & Ho & _ & ->)] H; [by left|]. destruct (H _ _ _ _ Ho). right. by exists r. Qed.
Lemma ordinary_moves w i X (c : MCall X) x w' : lawful gw c -> ordinary c = true -> call_sem w i X c x w' -> moves w w'.
Proof.
  intros Hl Ho Hs. destruct c; simpl in Ho; try done; simpl in Hs; try (by left); try (destruct Hs as [-> _]; by left).
  - eapply performs_moves; [exact Hs|]. intros ctx now a r H; cbv beta in H. destruct Hl as (call & -> & Hv). split; [by eapply serves_admit|by eapply admit_kept].
  - eapply performs_moves; [exact Hs|]. intros ctx now a r H; cbv beta in H. split; [by eapply serves_start|by eapply start_kept].
  - eapply performs_moves; [exact Hs|]. intros ctx now a r H; cbv beta in H. split; [by eapply serves_resolve|by eapply resolve_kept].
  - destruct Hs as [[_ ->]|(ctx & now & a & r & H & _ & ->)]; [by left|]. right. exists r. split; [done|]. split; [by eapply serves_cancellation|by eapply cancellation_kept].
  - eapply performs_moves; [exact Hs|]. intros ctx now a r H; cbv beta in H. destruct Hl as (ev & t & Ht & Hn). split; [by eapply serves_commit|by eapply commit_kept].
  - eapply performs_moves; [exact Hs|]. intros ctx now a r H; cbv beta in H. split; [by eapply serves_reconcile|by eapply reconcile_kept].
  - eapply performs_moves; [exact Hs|]. intros ctx now a r H; cbv beta in H. split; [by eapply serves_reconciled|by eapply reconciled_kept].
  - eapply performs_moves; [exact Hs|]. intros ctx now a r H; cbv beta in H. split; [by eapply serves_complete|by eapply complete_kept].
Qed.
Lemma performs_answer {A} w (op : option mcp_error -> Z -> res mcp_error (A * MemoryRepository)) a w' : performs w op (Ok a) w' ->
  exists ctx now, op ctx now = Ok (a, w_repository w').
Proof. intros [[[e [=]] _]|(ctx & now & a' & r & Ho & [[= ->]|[e [=]]] & ->)]. by exists ctx, now. Qed.
Lemma elem_of_option_list {A} (x : A) o : x ∈ option_list o -> o = Some x.
Proof. destruct o; simpl; [by intros ->%list_elem_of_singleton|by intros ?%elem_of_nil]. Qed.
(** The entries that such a call answers are those of the outbox. *)
Lemma ordinary_envelopes w i X (c : MCall X) x w' envelope : audits_ok w' -> ordinary c = true -> call_sem w i X c x w' -> envelope ∈ envelopes c x ->
  w_log w' !! an_Sequence envelope = Some envelope.
Proof.
  intros Hau Ho Hs Hen. destruct c; try done; try (by apply elem_of_nil in Hen); destruct x as [a|e]; simpl in Hen; try (by apply elem_of_nil in Hen).
  - apply performs_answer in Hs as (ctx & now & H). apply commit_kept in H as [_ H]. apply elem_of_option_list in Hen. by apply (au_pending _ Hau), H.
  - apply performs_answer in Hs as (ctx & now & H). apply complete_kept in H as [_ H]. apply elem_of_option_list in Hen. by apply (au_pending _ Hau), H.
  - destruct Hs as [-> [[e [=]]|[ctx H]]]. symmetry in H. destruct (pending_in _ _ _ _ _ H Hen) as [n Hn]. apply (au_pending _ Hau) in Hn as Hl.
    destruct (au_log _ Hau _ _ Hl) as (_ & [-> _] & _). done.
Qed.
Lemma ordinary_facts X (c : MCall X) : ordinary c = true -> (forall x, granted c x = None) /\ (forall x, recorded c x = None) /\ (forall x, claimed c x = None).
Proof. by destruct c. Qed.
Lemma env_moves w w' : env_step w w' -> moves w w'.
Proof.
  destruct 1 as [ctx event a r H|scope r H]; right; exists r; (split; [done|]).
  - split; [by eapply serves_append|by eapply append_kept].
  - split; [by eapply serves_authority|by eapply authority_kept].
Qed.

(** ** The calls *)
Definition keeps_all (w w' : World) (i : nat) (e : event MCall) (h : trace) : Prop :=
  world_ok w' /\ w_log w ⊆ w_log w' /\ assured w' i (e :: h) /\ forall j h', j <> i -> assured w j h' -> assured w' j h'.
Lemma ordinary_keeps w w' i h X (c : MCall X) x : world_ok w -> assured w i h -> permitted gw h X c -> ordinary c = true -> call_sem w i X c x w' ->
  keeps_all w w' i (Programs.Event c x) h.
Proof.
  intros Hw Ha [Hl Ht] Ho Hs. destruct (moves_ok _ _ Hw (ordinary_moves _ _ _ _ _ _ Hl Ho Hs)) as (Hw' & He & E1 & E2). destruct (ordinary_facts _ _ Ho) as (F1 & F2 & F3).
  split; [done|]. split; [apply He|]. split; [|intros j h' _; by apply assured_extends]. apply assured_cons; [by eapply assured_extends|done| | |].
  - constructor; simpl; [by rewrite F1|by rewrite F2| |by rewrite F3]. intros en. by eapply ordinary_envelopes; [apply Hw'| |].
  - by rewrite F1.
  - by rewrite F3.
Qed.
(** A call that does not reach the repository. *)
Lemma lost_keeps w i h X (c : MCall X) x : world_ok w -> assured w i h -> timely gw h c -> granted c x = None -> recorded c x = None -> claimed c x = None ->
  envelopes c x = [] -> keeps_all w w i (Programs.Event c x) h.
Proof.
  intros Hw Ha Ht F1 F2 F3 F4. split; [done|]. split; [done|]. split; [|done]. apply assured_cons; [done|done| | |].
  - constructor; simpl; [by rewrite F1|by rewrite F2|by rewrite F4; intros en Hen%elem_of_nil|by rewrite F3].
  - by rewrite F1.
  - by rewrite F3.
Qed.
(** A dispatch is granted: its key was not held, so its attempt was not started. *)
Lemma dispatch_keeps w w' i h q x : world_ok w -> assured w i h -> lawful gw (StoreDispatch q) -> call_sem w i _ (StoreDispatch q) x w' ->
  keeps_all w w' i (Programs.Event (StoreDispatch q) x) h.
Proof.
  intros Hw Ha (ev & t & d & Ht & Hd & Hn) [[[e ->] ->]|(ctx & p & r & H & Hx & ->)]; [by apply lost_keeps|].
  destruct (dispatch_claims _ _ _ _ _ H) as [Hnone Hsome]. change (dispatchClaimKey _ _) with (permit_key p) in Hnone, Hsome.
  assert (Hs : serves gw (w_repository w) r) by (by eapply serves_dispatch).
  assert (Hfree : w_holder w !! permit_key p = None). { apply eq_None_not_Some. intros Hh%(wo_held _ Hw). by rewrite Hnone in Hh; destruct Hh. }
  assert (Hfresh : permit_attempt p ∉ w_started w). { intros Hin%(wo_started _ Hw). unfold permit_key in Hfree. rewrite Hfree in Hin. by destruct Hin. }
  destruct (repository_ok w r Hw Hs) as [[W1 W2 W3 W4 W5 W6] [E1 E2 E3 E4 E5]]; [by eapply dispatch_kept|].
  set (w' := with_holder _ _ _). assert (Hex : extends w w') by (constructor; try done; by apply insert_subseteq).
  split; [|split; [done|split; [|intros j h' _; by apply assured_extends]]].
  - constructor; simpl; try done.
    + intros key Hk. destruct (decide (key = permit_key p)) as [->|Hne]; [by exists p|]. rewrite lookup_insert_ne in Hk by done. by apply W2.
    + intros a Hin. destruct (decide (attempt_key a = permit_key p)) as [->|Hne]; [rewrite lookup_insert_eq; by eexists|]. rewrite lookup_insert_ne by done. by apply W3.
    + by destruct W5.
    + intros Hwr. destruct (W6 Hwr) as [S1 S2 S3 S4]. by constructor.
  - apply assured_cons; [by eapply assured_extends|done| | |done].
    + constructor; simpl; try done; [|by intros en Hen%elem_of_nil]. intros p' Hp'. destruct Hx as [-> | [e ->]]; [|done]. injection Hp' as <-. by rewrite lookup_insert_eq.
    + intros _ p' Hp'. destruct Hx as [-> | [e ->]]; [|done]. by injection Hp' as <-.
Qed.
(** A provider is started by the holder of the dispatch, for the first time. *)
Lemma start_keeps w w' i h provider c x : world_ok w -> assured w i h -> timely gw h (Start provider c) -> call_sem w i _ (Start provider c) x w' ->
  keeps_all w w' i (Programs.Event (Start provider c) x) h.
Proof.
  intros [W1 W2 W3 W4 W5 W6] Ha Ht ->. pose proof Ht as (Hu & e & Hj). destruct (ju_dispatched _ _ _ _ _ Hj) as (q & Hq & Hcall & Hvalid).
  destruct (ju_call _ _ _ _ _ Hj) as (_ & _ & _ & _ & Hinv & _ & _).
  assert (Hp : permit_attempt (pc_Dispatch c) = (dc_InvocationID (pc_Command c), dc_Attempt (pc_Command c))).
  { unfold validDispatchPermit in Hvalid. bools in Hvalid. unfold permit_attempt. rewrite Hinv, <- Hcall. f_equal; tauto. }
  pose proof (td_granted _ _ _ (seen_told _ _ _ _ _ _ Ha Hq) _ eq_refl) as Hheld. pose proof (seen_unstarted _ _ _ _ _ Ha Hu Hq) as Hnew.
  unfold permit_key in Hheld. rewrite Hp in Hheld, Hnew. split; [|split; [done|split]].
  - constructor; simpl; try done.
    + intros a [-> |Hin]%elem_of_cons; [by eexists|by apply W3].
    + by constructor.
    + by destruct W5.
    + intros Hwr. by destruct (W6 Hwr).
  - destruct Ha as [A1 A2 A3 A4]. constructor; simpl; [|intros Hu'; by apply Forall_inv in Hu'| |by split].
    + constructor; [by constructor; try done; intros en Hen%elem_of_nil|]. eapply Forall_impl; [exact A1|]. intros ev. by apply told_extends.
    + intros Hb. apply Forall_cons in Hb as [_ Hb]. constructor; [done|by apply A3].
  - intros j h' Hne [B1 B2 B3 B4]. constructor; simpl; try done; [eapply Forall_impl; [exact B1|]; intros ev; by apply told_extends|].
    intros Hu'. specialize (B2 Hu'). rewrite Forall_forall in *. intros ev Hev p Hgp.
    rewrite not_elem_of_cons. split; [|by eapply B2]. intros Heq. pose proof (td_granted _ _ _ (B1 _ Hev) _ Hgp) as Hj'. unfold permit_key in Hj'. rewrite Heq in Hj'. congruence.
Qed.
(** The sink records an entry of the outbox. *)
Lemma audit_record_keeps w w' i h event x : world_ok w -> assured w i h -> timely gw h (RecordAudit event) -> call_sem w i _ (RecordAudit event) x w' ->
  keeps_all w w' i (Programs.Event (RecordAudit event) x) h.
Proof.
  intros Hw Ha Ht ->. destruct x as [e|]; [by apply lost_keeps|]. pose proof Ht as (en & Hen & Hev). apply (provided_logged _ _ _ _ Ha) in Hen.
  destruct Hw as [W1 W2 W3 W4 [U1 U2 U3 U4 U5] W6]. set (w' := with_recorded _ _).
  assert (Hex : extends w w') by (constructor; try done; intros e He; by apply list_elem_of_further).
  split; [|split; [done|split; [|intros j h' _; by apply assured_extends]]].
  - constructor; try done; [|intros Hwr; by destruct (W6 Hwr)]. constructor; try done.
    + intros n en' Hn. destruct (U3 _ _ Hn) as (? & ? & [?|?]); (split; [done|]; split; [done|]); [by left|right; by apply list_elem_of_further].
    + intros ev [->|He]%elem_of_cons; [by exists (an_Sequence en), en|by apply U5].
  - apply assured_cons; [by eapply assured_extends|done| |done|done]. constructor; simpl; try done; [|by intros ? ?%elem_of_nil]. intros ev [= <-]. apply list_elem_of_here.
Qed.
(** An entry is removed after it was recorded. *)
Lemma acknowledge_keeps w w' i h n x : world_ok w -> assured w i h -> timely gw h (StoreAcknowledge n) -> call_sem w i _ (StoreAcknowledge n) x w' ->
  keeps_all w w' i (Programs.Event (StoreAcknowledge n) x) h.
Proof.
  intros Hw Ha Ht Hs. pose proof Ht as (en & Hen & <- & Hseen). apply (provided_logged _ _ _ _ Ha) in Hen.
  pose proof (td_recorded _ _ _ (seen_told _ _ _ _ _ _ Ha Hseen) _ eq_refl) as Hrec.
  destruct Hs as [[[e ->] ->]|(ctx & now & [] & r & H & Hx & ->)]; [by apply lost_keeps|]. cbv beta in H. apply bind_ok in H as (r1 & H & H1). injection H1 as ->.
  assert (Hs : serves gw (w_repository w) r) by (by eapply serves_acknowledge). unfold AcknowledgeAudit in H. apply bind_ok in H as ([] & _ & H).
  apply reject_if_ok in H as [_ H]. injection H as <-. set (r := with_outbox _ _) in *. destruct Hw as [W1 W2 W3 W4 [U1 U2 U3 U4 U5] W6].
  assert (Hlog : w_log (with_repository w r) = w_log w).
  { simpl. apply map_subseteq_union. apply map_subseteq_spec. intros m en' [_ Hm]%lookup_delete_Some. by apply U2. }
  assert (Hex : extends w (with_repository w r)) by (apply extends_repository; by rewrite Hlog).
  split; [|split; [by rewrite Hlog|split; [|intros j h' _; by apply assured_extends]]].
  - constructor; try done; [by eapply rtc_r| |].
    + constructor; rewrite ?Hlog; unfold w_outbox; simpl; try done.
      * intros m en' [_ Hm]%lookup_delete_Some. by apply U2.
      * intros m en' Hm. destruct (U3 _ _ Hm) as (H1 & H2 & H3). split; [done|]. split; [done|]. destruct (decide (m = an_Sequence en)) as [->|Hne].
        { right. rewrite Hen in Hm. by injection Hm as <-. }
        rewrite lookup_delete_ne by done. done.
    + intros Hwr. destruct (W6 Hwr) as [S1 S2 S3 S4]. by constructor.
  - apply assured_cons; [by eapply assured_extends|done| |done|done]. constructor; simpl; try done. by intros ? ?%elem_of_nil.
Qed.
(** A claim of a request. *)
Lemma claims_after w i a r : user_ok w -> claim_step (request_records (w_repository w)) (request_records r) a -> w_wrapped (with_claim i a (with_repository w r)) = false ->
  forall k record, request_records r !! k = Some record -> rr_State record = ServerRequestClaimed -> 1 <= rq_ClaimGeneration (rr_Permit record) < 2 ^ 64.
Proof.
  intros [S1 _ _ _] Hstep Hnw k record Hk Hc. destruct Hstep as [Hm _|s -> _ Hm Hg|s k' existing -> Hf Hk' Hc' Hm Hg]; rewrite Hm in Hk; [by eapply S1|..].
  - apply lookup_insert_Some in Hk as [[_ <-]|[_ Hk]]; [|by eapply S1]. unfold claim_of in Hg. lia.
  - apply lookup_insert_Some in Hk as [[_ <-]|[_ Hk]]; [|by eapply S1]. simpl in Hnw. rewrite Hf in Hnw. apply orb_false_elim in Hnw as [_ Hz%Z.eqb_neq].
    unfold claim_of in *. rewrite Hg in Hz |- *. unfold u64 in *. pose proof (Z.mod_pos_bound (rq_ClaimGeneration (rr_Permit existing) + 1) (2 ^ 64)). lia.
Qed.
Lemma user_after_claim w i a r : user_ok w -> claim_step (request_records (w_repository w)) (request_records r) a -> w_wrapped (with_claim i a (with_repository w r)) = false ->
  (forall s k, a = Ok s -> first_claim s = Some k -> request_records r !! k = Some (sq_Record s)) ->
  w_claimant w ⊆ w_claimant (with_claim i a (with_repository w r)) -> user_ok (with_claim i a (with_repository w r)).
Proof.
  intros Hu Hstep Hnw Hfirst Hcl. pose proof (claims_after w i a r Hu Hstep Hnw) as Hclaims. destruct Hu as [S1 S2 S3 S4].
  assert (Hpresent : forall k, is_Some (request_records (w_repository w) !! k) -> is_Some (request_records r !! k)).
  { intros k Hk. destruct Hstep as [-> _|s _ _ -> _|s k' existing _ _ _ _ -> _]; [done|..].
    - destruct (decide (permit_request (claim_of s) = k)) as [->|]; [rewrite lookup_insert_eq; by eexists|by rewrite lookup_insert_ne].
    - destruct (decide (k' = k)) as [->|]; [rewrite lookup_insert_eq; by eexists|by rewrite lookup_insert_ne]. }
  assert (Hsame : w_repository (with_claim i a (with_repository w r)) = r /\ w_asked (with_claim i a (with_repository w r)) = w_asked w) by (by destruct a).
  destruct Hsame as [Q1 Q2]. constructor; rewrite ?Q1, ?Q2; [done| | |done].
  - intros k Hk. destruct a as [s|e]; [|by apply Hpresent, S2]. simpl in Hk. destruct (first_claim s) as [k'|] eqn:Hf; [|by apply Hpresent, S2].
    destruct (decide (k' = k)) as [->|Hne]; [by eexists; apply Hfirst|]. rewrite lookup_insert_ne in Hk by done. by apply Hpresent, S2.
  - intros k Hk. destruct (S3 _ Hk) as [j Hj]. exists j. by eapply lookup_weaken.
Qed.
(** The first claim is of a request that was not known. *)
Lemma user_claimed w i q a r ctx now : world_ok w -> ClaimServerRequest ctx now (w_repository w) q = Ok (a, r) ->
  let w' := with_claim i a (with_repository w r) in
  world_ok w' /\ extends w w' /\
  forall s k, w_wrapped w' = false -> a = Ok s -> first_claim s = Some k -> w_claimant w' !! k = Some i /\ k ∉ w_asked w.
Proof.
  intros Hw H w'. assert (Hs : serves gw (w_repository w) r) by (by eapply serves_request). destruct (request_step _ _ _ _ _ _ H) as [Hap Hstep].
  destruct Hw as [W1 W2 W3 W4 W5 W6]. destruct (log_appends w r W5 Hap) as [Hsub Hau].
  assert (Hwr : w_wrapped w' = false -> w_wrapped w = false) by (unfold w'; destruct a; simpl; [intros [? _]%orb_false_elim|]; done).
  assert (Hfirst : forall s k, w_wrapped w' = false -> a = Ok s -> first_claim s = Some k ->
    request_records (w_repository w) !! k = None /\ request_records r = <[k := sq_Record s]> (request_records (w_repository w)) /\ 1 <= rq_ClaimGeneration (claim_of s) < 2 ^ 64).
  { intros s k Hnw -> Hk. unfold first_claim in Hk. destruct (sq_Fresh s && _) eqn:Hf; [|done]. injection Hk as <-. apply andb_true_iff in Hf as [Hf Hg%Z.leb_le].
    simpl in Hnw. rewrite Hf in Hnw. apply orb_false_elim in Hnw as [Hnw Hz%Z.eqb_neq].
    destruct Hstep as [_ Hno|s' [= <-] Hnone Hm Hg1|s' k' existing [= <-] _ Hk' Hc Hm Hg1]; [by rewrite (Hno s) in Hf|split_and!; [done|done|lia..]|].
    destruct (us_claims _ (W6 Hnw) _ _ Hk' Hc) as [G1 G2]. rewrite Hg1 in Hg, Hz. unfold u64 in Hg, Hz.
    destruct (decide (rq_ClaimGeneration (rr_Permit existing) + 1 < 2 ^ 64)); [rewrite Z.mod_small in Hg by lia; lia|].
    replace (rq_ClaimGeneration (rr_Permit existing) + 1) with (2 ^ 64) in Hz by lia. by rewrite Z_mod_same_full in Hz. }
  assert (Hcl : w_wrapped w' = false -> w_claimant w ⊆ w_claimant w').
  { intros Hnw. destruct a as [s|e]; [|done]. simpl. destruct (first_claim s) as [k|] eqn:Hk; [|done]. apply insert_subseteq, eq_None_not_Some.
    intros Hin%(us_claimant _ (W6 (Hwr Hnw))). destruct (Hfirst s k Hnw eq_refl Hk) as (Hnone & _). rewrite Hnone in Hin. by destruct Hin. }
  assert (Hsame : w_repository w' = r /\ w_holder w' = w_holder w /\ w_started w' = w_started w /\ w_log w' = w_log (with_repository w r) /\
    w_recorded w' = w_recorded w /\ w_asked w' = w_asked w) by (unfold w'; by destruct a). destruct Hsame as (Q1 & Q2 & Q3 & Q4 & Q5 & Q6).
  split_and!.
  - constructor; rewrite ?Q1, ?Q2, ?Q3; try done; [by eapply rtc_r|exact (held_serves w r W2 Hs)| |].
    + destruct Hau as [U1 U2 U3 U4 U5]. unfold w_outbox in *. constructor; unfold w_outbox; rewrite ?Q1, ?Q4, ?Q5; done.
    + intros Hnw. pose proof (W6 (Hwr Hnw)) as Hu. apply user_after_claim; try done; [|by apply Hcl].
      intros s k Ha Hk. destruct (Hfirst s k Hnw Ha Hk) as (_ & -> & _). apply lookup_insert_eq.
  - constructor; rewrite ?Q2, ?Q4, ?Q5; try done.
  - intros s k Hnw -> Hk. destruct (Hfirst s k Hnw eq_refl Hk) as (Hnone & _). simpl. rewrite Hk. split; [apply lookup_insert_eq|].
    intros Hin%(us_asked _ (W6 (Hwr Hnw))). apply (us_claimant _ (W6 (Hwr Hnw))) in Hin. rewrite Hnone in Hin. by destruct Hin.
Qed.
Lemma request_claim_keeps w w' i h q x : world_ok w -> assured w i h -> call_sem w i _ (StoreClaimRequest q) x w' -> keeps_all w w' i (Programs.Event (StoreClaimRequest q) x) h.
Proof.
  intros Hw Ha [[[e ->] ->]|(ctx & now & a & r & H & Hx & ->)]; [by apply lost_keeps|]. destruct (user_claimed w i q a r ctx now Hw H) as (Hw' & Hex & Hf).
  set (w' := with_claim _ _ _) in *. assert (Hst : w_started w' = w_started w /\ w_asked w' = w_asked w) by (unfold w'; by destruct a). destruct Hst as [Q1 Q2].
  assert (Hk : forall k, w_wrapped w' = false -> claimed (StoreClaimRequest q) x = Some k -> w_claimant w' !! k = Some i /\ k ∉ w_asked w).
  { intros k Hnw Hk. simpl in Hk. destruct x as [s|e]; [|done]. destruct Hx as [Hx|[e Hx]]; [|done]. by apply (Hf s). }
  split; [done|]. split; [apply Hex|]. split; [|intros j h' _; by apply assured_extends]. apply assured_cons; [by eapply assured_extends|done| |done|].
  - constructor; simpl; try done; [by intros ? ?%elem_of_nil|]. intros k Hnw Hc. by apply Hk.
  - intros _ k Hnw Hc. rewrite Q2. by apply Hk.
Qed.
(** The user is asked by the holder of the first claim, for the first time. *)
Lemma elicit_keeps w w' i h q x : world_ok w -> assured w i h -> timely gw h (Elicit q) -> call_sem w i _ (Elicit q) x w' ->
  keeps_all w w' i (Programs.Event (Elicit q) x) h.
Proof.
  intros [W1 W2 W3 W4 W5 W6] Ha Ht ->. pose proof Ht as (Hu & (cq & s & server & tool & Hseen & Hf & Hp & _) & Hg).
  assert (Hc : claimed (StoreClaimRequest cq) (Ok s) = Some (permit_request (eq_Claim q))).
  { simpl. unfold first_claim, claim_of. by rewrite Hf, Hp, (proj2 (Z.leb_le _ _) Hg). }
  pose proof (fun Hnw => td_claimed _ _ _ (seen_told _ _ _ _ _ _ Ha Hseen) _ Hnw Hc) as Hheld.
  assert (Hnew : w_wrapped w = false -> permit_request (eq_Claim q) ∉ w_asked w).
  { intros Hnw. pose proof (as_asked _ _ _ Ha Hu) as Hq. rewrite Forall_forall in Hq. exact (Hq _ Hseen _ Hnw Hc). }
  assert (Hex : extends w (with_asked (permit_request (eq_Claim q)) w)) by (by constructor).
  split; [|split; [done|split]].
  - constructor; simpl; try done; [by destruct W5|]. intros Hnw. destruct (W6 Hnw) as [S1 S2 S3 S4]. constructor; simpl; try done.
    + intros k [-> |Hin]%elem_of_cons; [by eexists; apply Hheld|by apply S3].
    + constructor; [by apply Hnew|done].
  - destruct Ha as [A1 A2 A3 A4]. constructor; simpl; [| |intros Hu'; by apply Forall_inv in Hu'|by split].
    + constructor; [by constructor; try done; intros en Hen%elem_of_nil|]. eapply Forall_impl; [exact A1|]. intros ev. by apply told_extends.
    + intros Hu'. apply Forall_cons in Hu' as [_ Hu']. constructor; [done|by apply A2].
  - intros j h' Hne [B1 B2 B3 B4]. constructor; simpl; try done; [eapply Forall_impl; [exact B1|]; intros ev; by apply told_extends|].
    intros Hu'. specialize (B3 Hu'). rewrite Forall_forall in *. intros ev Hev k Hnw Hk. rewrite not_elem_of_cons. split; [|by eapply B3].
    intros ->. pose proof (td_claimed _ _ _ (B1 _ Hev) _ Hnw Hk) as Hj. rewrite (Hheld Hnw) in Hj. congruence.
Qed.
Lemma mcp_call_keeps w w' i h X (c : MCall X) x : world_ok w -> assured w i h -> permitted gw h X c -> call_sem w i X c x w' ->
  keeps_all w w' i (Programs.Event c x) h.
Proof.
  intros Hw Ha Hp Hs. destruct (ordinary c) eqn:Ho; [by eapply ordinary_keeps|]. destruct Hp as [Hl Ht]. destruct c; try done;
    [by eapply start_keeps|by eapply elicit_keeps|by eapply audit_record_keeps|by eapply dispatch_keeps|by eapply request_claim_keeps|by eapply acknowledge_keeps].
Qed.
Lemma world0_ok : world_ok world0.
Proof.
  constructor; simpl; try done; [by intros key [? ?]|by intros a Ha%elem_of_nil|by constructor| |].
  - constructor; unfold w_outbox; simpl; try done; [intros n Hn; lia|by intros event He%elem_of_nil].
  - intros _. constructor; simpl; try done; [by intros k [? ?]|by intros k Hk%elem_of_nil|by constructor].
Qed.
Abbreviation runs_ok := (pool_ok (permitted gw) world_ok assured).
Lemma mcp_step_ok st st' : configured gw -> runs_ok st -> mcp_step st st' -> runs_ok st' /\ w_log st.1 ⊆ w_log st'.1.
Proof using Type*.
  intros Hcf Hok Hstep. split.
  - eapply (pool_step_ok call_sem env_step starts (permitted gw) world_ok assured); [| | | |exact Hok|exact Hstep].
    + intros w w' i h X c x Hw Ha Hp Hs. destruct (mcp_call_keeps _ _ _ _ _ _ _ Hw Ha Hp Hs) as (H1 & _ & H2). by split.
    + intros w w' Hw He%env_moves. destruct (moves_ok _ _ Hw He) as (H1 & H2 & H3 & H4). split; [done|]. intros j h. by apply assured_extends.
    + by apply starts_permitted.
    + intros w i _. apply mcp_assured_nil.
  - destruct Hok as [Hw Hp]. destruct Hstep as [w w' i pool A h X c k x Hpi Hsem|w w' pool He%env_moves|w A p pool Hst]; simpl in *; [|by apply (moves_ok _ _ Hw He)|done].
    destruct (Hp _ _ Hpi) as [Ha [Hc _]]. by destruct (mcp_call_keeps _ _ _ _ _ _ _ Hw Ha Hc Hsem) as (_ & H & _).
Qed.
Lemma mcp_steps_ok st st' : configured gw -> runs_ok st -> rtc mcp_step st st' -> runs_ok st' /\ w_log st.1 ⊆ w_log st'.1.
Proof using Type*.
  intros Hcf Hok Hr. induction Hr as [st|st st1 st2 Hs Hr IH]; [done|]. destruct (mcp_step_ok _ _ Hcf Hok Hs) as [H1 H2]. destruct (IH H1) as [H3 H4].
  split; [done|by transitivity (w_log st1.1)].
Qed.
Lemma mcp_runs_ok st : configured gw -> rtc mcp_step (world0, []) st -> runs_ok st.
Proof using Type*. intros Hcf Hr. apply (mcp_steps_ok (world0, []) st Hcf); [|done]. split; [apply world0_ok|by intros i p Hp]. Qed.

(** C9: A provider is started at most once for an attempt. Whatever admissions, executions,
    cancellations, recoveries, confirmations and deliveries of audits run together on the
    reference repository, with requests and answers that are lost, dependencies that answer
    anything and processes that stop at any point, no two calls of a provider's [Start] are
    for the same attempt of the same invocation. *)
Theorem mcp_provider_started_once st : configured gw -> rtc mcp_step (world0, []) st -> NoDup (w_started st.1).
Proof using Type*. intros Hcf Hrun. destruct (mcp_runs_ok st Hcf Hrun) as [[_ _ _ H _ _] _]. exact H. Qed.

(** C11: In every such run, a provider is started only for a call that was admitted under
    the current authority: in the same process and before the start, the authority was
    validated for exactly this call, the tool and, where the server has one, the credential
    were authorized for it, the dispatch of the attempt was claimed, the connection's
    negotiation was durably recorded in the effect, and the start was claimed for it; what
    is sent is the input that was admitted, to the server and tool it was admitted for. *)
Theorem mcp_start_justified st i p provider c x later earlier : configured gw -> rtc mcp_step (world0, []) st ->
  st.2 !! i = Some p -> pr_history p = later ++ Programs.Event (Start provider c) x :: earlier -> unstarted earlier /\ exists e, justified gw earlier provider c e.
Proof using Type*.
  intros Hcf Hrun Hp Hh. destruct (mcp_runs_ok st Hcf Hrun) as [_ Hpool]. destruct (Hpool i p Hp) as [[_ _ _ Ht] _]. rewrite Hh in Ht. apply (traced_timely _ _ _ Ht).
Qed.

(** C12: Requests of servers are denied by default. In every such run, a model is sampled, a
    user asked or the roots of the workspace listed only under a durable claim that the
    repository granted to this process for a request of a running call, and only for a
    method that the registration of the server allows; no process calls a broker twice, a
    sample is begun only under a first claim of a request and resumed under a later one, and
    a user is asked only under a first claim. *)
Theorem mcp_brokers_justified st i p X (c : MCall X) (x : X) later earlier : configured gw -> rtc mcp_step (world0, []) st ->
  st.2 !! i = Some p -> pr_history p = later ++ Programs.Event c x :: earlier -> broker_justified gw earlier c.
Proof using Type*.
  intros Hcf Hrun Hp Hh. destruct (mcp_runs_ok st Hcf Hrun) as [_ Hpool]. destruct (Hpool i p Hp) as [[_ _ _ Ht] _]. rewrite Hh in Ht.
  pose proof (traced_timely _ _ _ Ht) as Hc. simpl in Hc. by destruct c.
Qed.

(** C10: The programs of the gateway refine the state machine. In every such run, the
    repository has only gone through steps that its specification allows: every stored
    effect is under its own key, its call passed the validation of snapshots when it was
    admitted, and it is one that accepted events lead to from there. *)
Theorem mcp_runs_refine st key e : configured gw -> rtc mcp_step (world0, []) st -> rp_effects (w_repository st.1) !! key = Some e ->
  rtc (serves gw) NewMemoryRepository (w_repository st.1) /\ effect_key e = key /\ validateEffect gw (admitted (ef_Call e)) = Ok tt /\
  history gw any_event (admitted (ef_Call e)) e.
Proof using Type*.
  intros Hcf Hrun He. destruct (mcp_runs_ok st Hcf Hrun) as [[Hs _ _ _ _ _] _]. split; [done|]. destruct (books_run gw _ Hs) as [B1 B2 _].
  split; [by apply B1|by eapply B2].
Qed.

(** C7: A user is asked at most once for a request of a server. In every such run in which no
    request was claimed so often that the 64-bit generation of its claim wrapped around to
    zero, no two calls of the elicitation broker, by whichever processes, are for the same
    request of the same connection of the same call: when the claim of a process ran out, or
    its answer was lost, the process that takes the request over does not ask again. *)
Theorem mcp_user_asked_once st : configured gw -> rtc mcp_step (world0, []) st -> w_wrapped st.1 = false -> NoDup (w_asked st.1).
Proof using Type*. intros Hcf Hrun Hnw. destruct (mcp_runs_ok st Hcf Hrun) as [Hw _]. by apply (wo_user _ Hw Hnw). Qed.

(** C13: No audit is lost or changed. In every such run, every entry that the outbox held at
    any time is later still in it, under the same number and with the same content, or the
    sink has recorded that entry's event; every number up to the outbox's sequence is
    accounted for in this way; and whatever the sink has recorded is, unchanged, the event
    of the entry that the outbox held under its number: an entry is removed only after it was recorded, even when answers
    are lost. *)
Theorem mcp_audits_delivered st st' : configured gw -> rtc mcp_step (world0, []) st -> rtc mcp_step st st' ->
  (forall n envelope, ob_pending (w_outbox st.1) !! n = Some envelope ->
     ob_pending (w_outbox st'.1) !! n = Some envelope \/ an_Event envelope ∈ w_recorded st'.1) /\
  (forall n, 1 <= n <= ob_sequence (w_outbox st'.1) -> exists envelope, entry n envelope /\
     (ob_pending (w_outbox st'.1) !! n = Some envelope \/ an_Event envelope ∈ w_recorded st'.1)) /\
  (forall event, event ∈ w_recorded st'.1 -> 1 <= ae_OutboxSequence event <= ob_sequence (w_outbox st'.1) /\
     exists envelope, w_log st'.1 !! ae_OutboxSequence event = Some envelope /\ an_Event envelope = event).
Proof using Type*.
  intros Hcf Hr Hr'. pose proof (mcp_runs_ok st Hcf Hr) as Hok. destruct (mcp_steps_ok st st' Hcf Hok Hr') as [[[_ _ _ _ [U1 U2 U3 U4 U5] _] _] Hsub].
  destruct Hok as [[_ _ _ _ V _] _]. split_and!.
  - intros n en Hn%(au_pending _ V). by destruct (U3 n en (lookup_weaken _ _ _ _ Hn Hsub)) as (_ & _ & H).
  - intros n Hn. destruct (U4 n Hn) as [en Hen]. exists en. by destruct (U3 n en Hen) as (_ & ? & ?).
  - intros event He. destruct (U5 _ He) as (n & en & Hn & <-). destruct (U3 n en Hn) as (Hb & [_ ->] & _). eauto.
Qed.
End runs.
