(* ===== verification/McpExamples.v ===== *)
(** * MCP gateway: runs

    A gateway with one server and one tool that needs confirmation to be replayed, a call
    that is dispatched, negotiated and accepted and streams its output, and the repository
    that stores it; evaluated on concrete data. *)

From S2P Require Import Prelude Programs GoText GoStrings GoCrypto Canonical CanonicalProofs Identity BrokerTypes McpGateway McpMachine McpProofs McpReplay McpStore McpStoreProofs McpExecutor McpRecovery McpRequests McpAdmission McpProtocol McpRuns.
#[local] Open Scope string_scope.
#[local] Open Scope list_scope.
#[local] Open Scope Z_scope.
#[local] Open Scope go_scope.

#[local] Existing Instance id_normalizer.

(** ** A gateway *)
Definition mcp_id (kind : string) (n : Z) : ID := MkID kind (id_text kind (base32_EncodeToString (repeat (to_byte n) 16))).
Definition demo_bounds : Bounds := MkBounds 4096 64 64 256 32 128 128 4096 8 64 64 1024 4 4096 256 128 1000000000.
Definition demo_server : ServerRegistration :=
  MkServer (mcp_id "tenant" 0) (mcp_id "subject" 0) "files" "remote" TransportStreamableHTTP "mcp/files" "2025-06-18" no_affinity (MkBinding "" "") [ServerRequestRoots; ServerRequestElicitation].
Definition demo_tool : ToolRegistration := MkTool (mcp_id "tenant" 0) (mcp_id "subject" 0) "files" "write" true ReplayConfirm 1 2.
Definition demo_deps : Dependencies := MkDependencies true false Durability [("remote", false)] false true true.
Definition demo_config : Configuration := MkConfiguration demo_bounds [demo_server] [demo_tool] true.
Definition demo_gateway : Gateway :=
  match NewGateway demo_config demo_deps with Ok g => g | Err _ => MkGateway demo_bounds ∅ ∅ ∅ false false false false end.
Lemma demo_gateway_ok : newGateway demo_config demo_deps false = Ok demo_gateway.
Proof.
  unfold demo_gateway. assert (Hok : match NewGateway demo_config demo_deps with Ok _ => true | Err _ => false end = true) by (vm_compute; reflexivity).
  destruct (NewGateway demo_config demo_deps) as [g|] eqn:Hg; [|discriminate Hok]. exact Hg.
Qed.
Lemma demo_bounds_unsigned : unsigned_bounds demo_bounds.
Proof. unfold unsigned_bounds. simpl. lia. Qed.
Lemma demo_tools_unsigned : Forall unsigned_tool [demo_tool].
Proof. constructor; [split; simpl; lia|constructor]. Qed.
Lemma demo_roomy : roomy demo_bounds.
Proof. split; simpl; lia. Qed.

(** ** A call *)
Definition demo_scope (n : Z) : ValidatedAuthority :=
  MkAuthority (mcp_id "tenant" 0) (mcp_id "subject" 0) (mcp_id "sess" 0) (mcp_id "ws" 0) (mcp_id "turn" 0) (mcp_id "effect" n) (mcp_id "inv" n)
    (mcp_id "runtime" 0) (MkGenerations 1 1 1 1).
Definition demo_request : CallRequest := MkCallRequest "files" "write" (VMap [("path", VString "a.txt"); ("text", VString "hello")]).
Definition demo_canonical : bytes * Digest := match canonicalizeCall demo_request demo_bounds with Ok p => p | Err _ => ([], zero_digest) end.
Definition demo_input : bytes := Eval vm_compute in demo_canonical.1.
Definition demo_digest : Digest := Eval vm_compute in demo_canonical.2.
Definition demo_call (n : Z) : Call :=
  MkCall (demo_scope n) demo_digest "files" "write" "remote" TransportStreamableHTTP "mcp/files" "2025-06-18" no_affinity (MkBinding "" "")
    demo_input true ReplayConfirm 1 2 false false.
Lemma demo_admitted_valid : validateEffect demo_gateway (admitted (demo_call 0)) = Ok tt.
Proof. vm_compute. reflexivity. Qed.

(** ** Events *)
Definition demo_receipt (n attempt : Z) : StartNegotiationReceipt :=
  MkNegotiation true (demo_scope n) (serverForEffect (demo_call n)) (mcp_id "inv" n) (ca_RequestDigest (demo_call n)) attempt "2025-06-18" no_affinity false false 7.
Definition negotiated_event (revision n attempt : Z) : Event :=
  MkEvent revision EventNegotiationRecorded "" [] [] "" NoFailure "" NoCancellation no_ledger NoDecision (demo_receipt n attempt).
Definition accepted_event (revision : Z) : Event :=
  MkEvent revision EventProviderAccepted "request-1" [] [] "" NoFailure "" NoCancellation no_ledger NoDecision no_negotiation.
Definition chunk_event (revision : Z) : Event :=
  MkEvent revision EventOutputChunk "" (to_bytes "part") [] "" NoFailure "" NoCancellation no_ledger NoDecision no_negotiation.
Definition failed_event (revision : Z) (class : FailureClass) (reason : string) : Event :=
  MkEvent revision EventDispatchFailed "" [] [] "" class reason NoCancellation no_ledger NoDecision no_negotiation.
Definition confirmed_event (revision : Z) : Event :=
  MkEvent revision EventConfirmationDecided "" [] [] "" NoFailure "" NoCancellation no_ledger ConfirmationRetry no_negotiation.
Definition demo_events : list Event :=
  [blank_event 1 EventBeginDispatch; negotiated_event 2 0 1; accepted_event 3; chunk_event 4].
Definition played (gw : Gateway) (e : Effect) (events : list Event) : Effect := match play gw e events with Ok x => x | Err _ => e end.
Definition demo_streaming : Effect := Eval vm_compute in played demo_gateway (admitted (demo_call 0)) demo_events.
Lemma demo_played : play demo_gateway (admitted (demo_call 0)) demo_events = Ok demo_streaming.
Proof. vm_compute. reflexivity. Qed.
Lemma demo_events_guarded : forall x ev, ev ∈ demo_events -> negotiated_evidence x ev.
Proof. intros x ev Hev. unfold demo_events in Hev. repeat (apply elem_of_cons in Hev as [-> | Hev]; [intros []|]). by apply elem_of_nil in Hev. Qed.
Lemma demo_history : history demo_gateway negotiated_evidence (admitted (demo_call 0)) demo_streaming.
Proof. eapply play_from; [exact demo_events_guarded|apply history_start|exact demo_played]. Qed.

(** ** The claims on histories *)
(** The streaming call, four events after its admission. *)
Lemma mcp_effects_stay_valid_witness : validateEffect demo_gateway demo_streaming = Ok tt /\
  ef_EventCount demo_streaming + minimumRemainingEvents demo_streaming <= MaxEvents demo_bounds.
Proof.
  apply (mcp_effects_stay_valid demo_config demo_deps false demo_gateway (demo_call 0) demo_streaming); [exact demo_bounds_unsigned|exact demo_tools_unsigned|
    exact demo_gateway_ok|exact demo_roomy|exact demo_admitted_valid|exact demo_history].
Defined.
Definition demo_attempt : AttemptRecord := Eval vm_compute in (CurrentAttempt demo_streaming).1.
Lemma mcp_outcome_recordable_witness : exists t1 t2,
  Apply demo_gateway demo_streaming (commit_event (ef_Revision demo_streaming) "" (to_bytes "done")) = Ok t1 /\
  Apply demo_gateway (tn_Effect t1) (blank_event (ef_Revision (tn_Effect t1)) EventSettlementCompleted) = Ok t2 /\
  ef_State (tn_Effect t2) = StateCompleted /\ ef_Output (tn_Effect t2) = to_bytes "done" /\ ef_ExternalCommitID (tn_Effect t2) = "" /\ tn_Dispatch t2 = None.
Proof.
  apply (mcp_outcome_recordable demo_config demo_deps false demo_gateway (demo_call 0) demo_streaming demo_attempt); [exact demo_bounds_unsigned|
    exact demo_tools_unsigned|exact demo_gateway_ok|exact demo_roomy|exact demo_admitted_valid|exact demo_history|vm_compute; reflexivity|
    intros H; discriminate (f_equal ng_Durable H)|exact I|discriminate|apply Z.leb_le; reflexivity|reflexivity|left; discriminate].
Defined.
Lemma mcp_cancellation_accepted_witness : exists t,
  Apply demo_gateway demo_streaming (blank_event (ef_Revision demo_streaming) EventCancelRequested) = Ok t /\
  ef_CancellationRequested (tn_Effect t) = true /\ tn_Dispatch t = None /\
  ((ef_State (tn_Effect t) = StateCancelled /\ tn_Cancel t = None /\
    (ef_State demo_streaming = StateAdmitted \/
     (ef_State demo_streaming = StateRetryPending /\ (at_Failure demo_attempt = FailureDefinitelyNotSent \/ at_Failure demo_attempt = FailureLedgerAbsent)))) \/
   (ef_State (tn_Effect t) = StateCancellationPending /\ tn_Cancel t = Some (cancel_command demo_streaming demo_attempt))).
Proof.
  apply (mcp_cancellation_accepted demo_config demo_deps false demo_gateway (demo_call 0) demo_streaming demo_attempt true); [exact demo_bounds_unsigned|
    exact demo_tools_unsigned|exact demo_gateway_ok|exact demo_roomy|exact demo_admitted_valid|exact demo_history|vm_compute; reflexivity|exact I|reflexivity].
Defined.

(** A call whose outcome became unknown, confirmed and dispatched a second time. *)
Definition retry_events : list Event :=
  [blank_event 1 EventBeginDispatch; negotiated_event 2 0 1; accepted_event 3; failed_event 4 FailureUnknown "connection lost"; confirmed_event 5;
   blank_event 6 EventBeginDispatch].
Definition demo_retried : Effect := Eval vm_compute in played demo_gateway (admitted (demo_call 0)) retry_events.
Lemma retry_played : play demo_gateway (admitted (demo_call 0)) retry_events = Ok demo_retried.
Proof. vm_compute. reflexivity. Qed.
Lemma any_history events e e' : play demo_gateway e events = Ok e' -> history demo_gateway any_event e e'.
Proof. apply play_from; [done|apply history_start]. Qed.
Lemma mcp_replay_policy_witness : tally dispatching retry_events = 2 /\ tally confirming retry_events = 1 /\ possibly_sent (earlier demo_retried) = 1 /\
  zlen (ef_Attempts demo_retried) = 2 /\ possibly_sent (earlier demo_retried) <= tally confirming retry_events.
Proof.
  destruct (mcp_replay_policy demo_gateway (demo_call 0) retry_events demo_retried) as (H1 & _ & _ & _ & _ & _ & _ & H2 & _); [exact demo_admitted_valid|exact retry_played|].
  split; [reflexivity|]. split; [reflexivity|]. split; [reflexivity|]. split; [exact H1|exact (H2 eq_refl)].
Defined.

Definition demo_committed : Effect := Eval vm_compute in played demo_gateway demo_streaming [commit_event 5 "commit-1" (to_bytes "done")].
Definition demo_completed : Effect := Eval vm_compute in played demo_gateway demo_committed [blank_event 6 EventSettlementCompleted].
Lemma completed_played : play demo_gateway demo_committed [blank_event 6 EventSettlementCompleted] = Ok demo_completed.
Proof. vm_compute. reflexivity. Qed.
Lemma mcp_outcome_final_witness : committed_state (ef_State demo_completed) /\ ef_Output demo_completed = to_bytes "done" /\
  ef_ExternalCommitID demo_completed = "commit-1".
Proof.
  destruct (mcp_outcome_final demo_gateway demo_committed demo_completed) as [H _]; [exact (any_history _ _ _ completed_played)|].
  destruct (H (or_introl eq_refl)) as (H1 & H2 & H3 & _). split; [exact H1|]. split; [exact H2|exact H3].
Defined.

(** ** Runs of the repository *)
Definition after {A} (m : res mcp_error (A * MemoryRepository)) : MemoryRepository := match m with Ok (_, r) => r | Err _ => NewMemoryRepository end.
Definition answer {A} (m : res mcp_error (A * MemoryRepository)) (d : A) : A := match m with Ok (a, _) => a | Err _ => d end.
Lemma after_ok {A} (m : res mcp_error (A * MemoryRepository)) d : is_ok m = true -> m = Ok (answer m d, after m).
Proof. destruct m as [[a r]|]; [reflexivity|discriminate]. Qed.
Definition demo_authorization : ToolAuthorizationPermit := MkAuthorization (repeat (to_byte 1) 32) true (demo_scope 0) "files" "write" demo_digest.

Definition applied (e : Effect) (ev : Event) : Effect := match Apply demo_gateway e ev with Ok t => tn_Effect t | Err _ => e end.
Definition demo_dispatching : Effect := Eval vm_compute in applied (admitted (demo_call 0)) (blank_event 1 EventBeginDispatch).
Definition demo_negotiated : Effect := Eval vm_compute in applied demo_dispatching (negotiated_event 2 0 1).
Definition demo_not_sent : Effect := Eval vm_compute in applied demo_dispatching (failed_event 2 FailureDefinitelyNotSent "refused").
Definition demo_second : Effect := Eval vm_compute in applied demo_not_sent (blank_event 3 EventBeginDispatch).

Definition admit_call := Admit None NewMemoryRepository (admitted (demo_call 0)).
Definition first_dispatch : DispatchClaimRequest := MkDispatchClaim 1 (demo_scope 0) (admitted (demo_call 0)) demo_dispatching demo_authorization.
Definition claim_first := CommitAndClaimDispatch None (after admit_call) first_dispatch.
Definition commit_of (prev next : Effect) : TransitionCommitRequest := MkCommit (ef_Revision prev) (demo_scope 0) prev next None None None.
Definition record_negotiation := Commit None 1000 (after claim_first) (commit_of demo_dispatching demo_negotiated).
Definition start_request : ProviderStartClaimRequest :=
  MkStartClaim (demo_scope 0) demo_negotiated (answer claim_first no_dispatch) 1000000000.
Definition claim_demo_start := ClaimProviderStart None 1000 (after record_negotiation) start_request.
(** The lease of the start has run out. *)
Definition resolve_demo_start := ResolveProviderStart None 2000000000 (after claim_demo_start) (demo_scope 0) demo_negotiated.
Definition record_failure := Commit None 1000 (after claim_first) (commit_of demo_dispatching demo_not_sent).
Definition second_dispatch : DispatchClaimRequest := MkDispatchClaim 3 (demo_scope 0) demo_not_sent demo_second demo_authorization.
Definition claim_second := CommitAndClaimDispatch None (after record_failure) second_dispatch.
Example demo_run_accepted : is_ok admit_call && is_ok claim_first && is_ok record_negotiation && is_ok claim_demo_start && is_ok resolve_demo_start
  && is_ok record_failure && is_ok claim_second = true.
Proof. vm_compute. reflexivity. Qed.
(** One step of a run: the machine's transition and the operation that stores it. *)
Lemma applied_ok e ev : is_ok (Apply demo_gateway e ev) = true -> exists t, Apply demo_gateway e ev = Ok t /\ applied e ev = tn_Effect t.
Proof. intros H. unfold applied. destruct (Apply demo_gateway e ev) as [t|]; [by exists t|discriminate]. Qed.
Lemma committed_serves now r prev ev : is_ok (Apply demo_gateway prev ev) = true -> is_ok (Commit None now r (commit_of prev (applied prev ev))) = true ->
  serves demo_gateway r (after (Commit None now r (commit_of prev (applied prev ev)))).
Proof.
  intros Ha Hc. destruct (applied_ok _ _ Ha) as (t & Ht & He).
  eapply (serves_commit _ None now r (commit_of prev (applied prev ev)) ev t); [exact Ht|exact He|exact (after_ok _ (MkStored prev false None) Hc)].
Qed.
Lemma admit_serves : serves demo_gateway NewMemoryRepository (after admit_call).
Proof.
  eapply (serves_admit _ None (demo_call 0)); [exact demo_admitted_valid|]. refine (after_ok admit_call (MkStored (admitted (demo_call 0)) false None) _). vm_compute. reflexivity.
Qed.
Lemma first_serves : serves demo_gateway (after admit_call) (after claim_first).
Proof.
  assert (Hd : match Apply demo_gateway (admitted (demo_call 0)) (blank_event 1 EventBeginDispatch) with
               | Ok t => match tn_Dispatch t with Some _ => true | None => false end | Err _ => false end = true) by (vm_compute; reflexivity).
  assert (He : match Apply demo_gateway (admitted (demo_call 0)) (blank_event 1 EventBeginDispatch) with Ok t => tn_Effect t | Err _ => demo_second end = demo_dispatching)
    by (vm_compute; reflexivity).
  destruct (Apply demo_gateway (admitted (demo_call 0)) (blank_event 1 EventBeginDispatch)) as [t|] eqn:Ht; [|discriminate Hd].
  destruct (tn_Dispatch t) as [d|] eqn:Hdd; [|discriminate Hd].
  eapply (serves_dispatch _ None _ first_dispatch (blank_event 1 EventBeginDispatch) t d); [exact Ht|exact Hdd|symmetry; exact He|].
  refine (after_ok claim_first no_dispatch _). vm_compute. reflexivity.
Qed.
Lemma demo_run : rtc (serves demo_gateway) NewMemoryRepository (after claim_first).
Proof. eapply rtc_l; [exact admit_serves|]. apply rtc_once. exact first_serves. Qed.
Lemma demo_stored : rp_effects (after claim_first) !! effect_key demo_dispatching = Some demo_dispatching.
Proof. vm_compute. reflexivity. Qed.
Lemma mcp_stored_effects_witness : effect_key demo_dispatching = effect_key (admitted (demo_call 0)) /\
  validateEffect demo_gateway (admitted (ef_Call demo_dispatching)) = Ok tt /\ history demo_gateway any_event (admitted (ef_Call demo_dispatching)) demo_dispatching.
Proof. exact (mcp_stored_effects demo_gateway (after claim_first) (effect_key (admitted (demo_call 0))) demo_dispatching demo_run demo_stored). Defined.
Lemma mcp_turn_exclusive_witness : rp_active (after claim_first) !! effect_scope demo_dispatching = Some (effect_key demo_dispatching).
Proof.
  destruct (mcp_turn_exclusive demo_gateway (after claim_first) (effect_key demo_dispatching) demo_dispatching (effect_key demo_dispatching) demo_dispatching)
    as (_ & _ & H); [exact demo_run|exact demo_stored|exact demo_stored|reflexivity|reflexivity|reflexivity|exact H].
Defined.
Lemma failure_serves : serves demo_gateway (after claim_first) (after record_failure).
Proof.
  refine (committed_serves 1000 (after claim_first) demo_dispatching (failed_event 2 FailureDefinitelyNotSent "refused") _ _); vm_compute; reflexivity.
Qed.
(** The first attempt was not sent, and the second is dispatched. *)
Lemma mcp_dispatched_once_witness : (dp_InvocationID (answer claim_first no_dispatch), dp_Attempt (answer claim_first no_dispatch)) <>
  (dp_InvocationID (answer claim_second no_dispatch), dp_Attempt (answer claim_second no_dispatch)).
Proof.
  apply (mcp_dispatched_once demo_gateway None (after admit_call) first_dispatch (answer claim_first no_dispatch) (after claim_first) (after record_failure) None
    second_dispatch (answer claim_second no_dispatch) (after claim_second)).
  - refine (after_ok claim_first no_dispatch _). vm_compute. reflexivity.
  - apply rtc_once. exact failure_serves.
  - refine (after_ok claim_second no_dispatch _). vm_compute. reflexivity.
Defined.
Definition no_resolution : StoredProviderStartResolution := MkResolution no_start false false true 0.
(** After the lease ran out and the start was resolved, it can no longer be claimed. *)
Lemma mcp_start_resolved_once_witness : match ClaimProviderStart None 1000 (after resolve_demo_start) start_request with Ok _ => False | Err _ => True end.
Proof.
  destruct (mcp_start_resolved_once demo_gateway None 2000000000 (after claim_demo_start) (demo_scope 0) demo_negotiated (answer resolve_demo_start no_resolution)
    (after resolve_demo_start) (after resolve_demo_start)) as [H _].
  - refine (after_ok resolve_demo_start no_resolution _). vm_compute. reflexivity.
  - vm_compute. reflexivity.
  - apply rtc_refl.
  - destruct (ClaimProviderStart None 1000 (after resolve_demo_start) start_request) as [[p r3]|] eqn:Hc; [|exact I].
    apply (H None 1000 start_request p r3); [reflexivity|reflexivity|exact Hc].
Defined.

(** ** MCP gateway: runs of the programs

    A call is admitted and executed, and an audit is delivered, on the reference
    repository, with dependencies that grant what they are asked. *)

(** ** Dependencies *)
Definition demo_proof : Digest := repeat (to_byte 1) 32.
Definition perform {A} (w : World) (m : res mcp_error (A * MemoryRepository)) : res mcp_error A * World :=
  match m with Ok (a, r) => (Ok a, with_repository w r) | Err e => (Err e, w) end.
Definition perform_claim {A} (w : World) (m : res mcp_error (res mcp_error A * MemoryRepository)) : res mcp_error A * World :=
  match m with Ok (a, r) => (a, with_repository w r) | Err e => (Err e, w) end.
Definition handle (i : nat) (X : Type) (c : MCall X) (w : World) : X * World :=
  let r := w_repository w in
  match c in MCall X return X * World with
  | ContextErr _ => (None, w)
  | ValidateAdmission _ _ => (Ok (demo_scope 0), w)
  | ValidateCurrent _ _ => (Ok (demo_scope 0), w)
  | Authorize q => (Ok (MkAuthorization demo_proof true (tz_Scope q) (tz_ServerID q) (tz_ToolName q) (tz_RequestDigest q)), w)
  | AuthorizeCredential q => (Ok (MkCredentialPermit demo_proof true q), w)
  | Availability _ d => (Ok (MkAvailability true true (de_ProtocolVersion d) (de_Affinity d) false false), w)
  | Negotiate _ c => (Ok (MkNegotiation true (nc_Scope c) (nc_Server c) (nc_InvocationID c) (nc_RequestDigest c) (nc_Attempt c)
      (de_ProtocolVersion (nc_Server c)) (de_Affinity (nc_Server c)) false false 7), w)
  | Start _ c => ((MkStartResult "request-1" (Some 0%nat), None),
      with_started (dc_InvocationID (pc_Command c), dc_Attempt (pc_Command c)) w)
  | NextEvent _ => (Ok (MkProviderEvent ProviderCompleted [] (to_bytes "done") "commit-1"), w)
  | CloseCall _ => (tt, w)
  | ProviderCancelCall _ _ => (Err ErrProviderUnavailable, w)
  | Lookup _ _ => (Err ErrLedgerUnavailable, w)
  | Accept _ => (None, w)
  | SamplingCancel _ => (Err ErrServerRequestDenied, w)
  | ElicitationCancel _ => ((no_elicitation_receipt, Some ErrServerRequestDenied), w)
  | RecordAudit e => (None, with_recorded e w)
  | StoreReplay q => (ReplayAdmission None r q, w)
  | StoreAdmit e => perform w (Admit None r e)
  | StoreLoad id => (Load None r id, w)
  | StoreDispatch q =>
      match CommitAndClaimDispatch None r q with
      | Ok (p, r) => (Ok p, with_holder (permit_key p) i (with_repository w r))
      | Err e => (Err e, w)
      end
  | StoreStart q => perform w (ClaimProviderStart None 1000 r q)
  | StoreResolve scope e => perform w (ResolveProviderStart None 1000 r scope e)
  | StoreCancellation q => perform_claim w (ClaimCancellation None 1000 r q)
  | StoreCommit q => perform w (Commit None 1000 r q)
  | StoreReconcile scope e => perform w (ReconcileServerRequests None 1000 r scope e)
  | StoreReconciled q => perform w (CompleteServerRequestReconciliation None r q)
  | Sample _ => (Err ErrServerRequestDenied, w)
  | ResumeSampling _ => (Err ErrServerRequestDenied, w)
  | Elicit q => (Ok (VMap [("action", VString "accept")]), with_asked (permit_request (eq_Claim q)) w)
  | Roots _ => (Ok ["/workspace/docs"; "/workspace/a b"], w)
  | NewIdentity kind => (Ok (mcp_id kind 9), w)
  | StoreClaimRequest q =>
      match ClaimServerRequest None 1000 r q with
      | Ok (a, r) => (a, with_claim i a (with_repository w r))
      | Err e => (Err e, w)
      end
  | StoreCompleteRequest q => perform w (CompleteServerRequest None r q)
  | StorePending limit => (PendingAudits None r limit, w)
  | StoreAcknowledge n => perform w (r ← AcknowledgeAudit None r n; Ok (tt, r))
  end.
Lemma perform_sound {A} w (op : option mcp_error -> Z -> res mcp_error (A * MemoryRepository)) :
  performs w op (perform w (op None 1000)).1 (perform w (op None 1000)).2.
Proof. unfold perform. destruct (op None 1000) as [[a r]|e] eqn:H; [right; exists None, 1000, a, r; auto|left; split; [by exists e|done]]. Qed.
Lemma perform_claim_sound {A} w (op : option mcp_error -> Z -> res mcp_error (res mcp_error A * MemoryRepository)) :
  performs_claim w op (perform_claim w (op None 1000)).1 (perform_claim w (op None 1000)).2.
Proof. unfold perform_claim. destruct (op None 1000) as [[a r]|e] eqn:H; [right; exists None, 1000, a, r; auto|left; split; [by exists e|done]]. Qed.
Lemma mcp_handle_sound i X (c : MCall X) w : call_sem w i X c (handle i X c w).1 (handle i X c w).2.
Proof.
  destruct c; try reflexivity; try (split; [reflexivity|right; by exists None]).
  - exact (perform_sound w (fun ctx _ => Admit ctx (w_repository w) e)).
  - unfold handle, call_sem. destruct (CommitAndClaimDispatch None (w_repository w) q) as [[p r]|e] eqn:H; [right; exists None, p, r; auto|left; split; [by exists e|done]].
  - exact (perform_sound w (fun ctx now => ClaimProviderStart ctx now (w_repository w) q)).
  - exact (perform_sound w (fun ctx now => ResolveProviderStart ctx now (w_repository w) scope e)).
  - exact (perform_claim_sound w (fun ctx now => ClaimCancellation ctx now (w_repository w) q)).
  - exact (perform_sound w (fun ctx now => Commit ctx now (w_repository w) q)).
  - exact (perform_sound w (fun ctx now => ReconcileServerRequests ctx now (w_repository w) scope parent)).
  - exact (perform_sound w (fun ctx _ => CompleteServerRequestReconciliation ctx (w_repository w) q)).
  - unfold handle, call_sem. destruct (ClaimServerRequest None 1000 (w_repository w) q) as [[a r]|e] eqn:H; [right; exists None, 1000, a, r; auto|left; split; [by exists e|done]].
  - exact (perform_sound w (fun ctx _ => CompleteServerRequest ctx (w_repository w) q)).
  - exact (perform_sound w (fun ctx _ => r ← AcknowledgeAudit ctx (w_repository w) sequence; Ok (tt, r))).
Qed.
Definition run_at {A} (i : nat) (p : Prog MCall A) (w : World) : A * World * list (event MCall) := drive (handle i) p w [].
Lemma mcp_run_program A (p : Prog MCall A) w pool : starts demo_gateway A p ->
  rtc (mcp_step demo_gateway) (w, pool) ((run_at (length pool) p w).1.2, pool ++ [Programs.running (run_at (length pool) p w).2 (Ret (run_at (length pool) p w).1.1)]).
Proof.
  intros Hp. pose proof (drive_steps call_sem env_step (starts demo_gateway) (handle (length pool)) pool (fun X c w => mcp_handle_sound (length pool) X c w) A p w []) as Hd.
  unfold run_at. destruct (drive (handle (length pool)) p w []) as [[a w'] h]. eapply rtc_l; [by apply step_start|exact Hd].
Qed.

(** ** A run *)
Definition demo_admission : AdmissionRequest := MkAdmissionRequest (to_bytes "token") (mcp_id "effect" 0) (mcp_id "inv" 0) demo_digest demo_request.
Definition admitting := run_at 0 (Gateway_Admit demo_gateway demo_admission) world0.
Definition executing := run_at 1 (Execute demo_gateway (to_bytes "token") true (admitted (demo_call 0))) admitting.1.2.
Definition demo_audit : AuditEvent :=
  MkAuditEvent 0 (mcp_id "tenant" 0) (mcp_id "subject" 0) (mcp_id "sess" 0) (mcp_id "turn" 0) (mcp_id "inv" 0) "files" "roots/list" "allowed" "roots".
Definition appended := AppendAudit None (w_repository executing.1.2) demo_audit.
Definition flushing := run_at 2 (FlushAudit demo_gateway 4) (with_repository executing.1.2 (after appended)).
(** The call is admitted as the machine admits it, completed, and its audit delivered. *)
Definition completed_with (o : option Effect * list mcp_error) (output : bytes) : bool :=
  match o with (Some e, []) => (ef_State e == StateCompleted) && (ef_Output e == output) | _ => false end.
Example demo_program_runs :
  bool_decide (admitting.1.1 = Ok (admitted (demo_call 0))) && completed_with executing.1.1 (to_bytes "done") && is_ok appended && is_ok flushing.1.1 = true.
Proof. vm_compute. reflexivity. Qed.

Lemma demo_configured : configured demo_gateway.
Proof.
  apply (newGateway_configured demo_config demo_deps false); [exact demo_bounds_unsigned|simpl; lia|exact demo_tools_unsigned|exact demo_gateway_ok].
Qed.
Definition admitted_process : @process MCall := Programs.running admitting.2 (Ret admitting.1.1).
Definition executed_process : @process MCall := Programs.running executing.2 (Ret executing.1.1).
Definition flushed_process : @process MCall := Programs.running flushing.2 (Ret flushing.1.1).
Lemma executed_run : rtc (mcp_step demo_gateway) (world0, []) (executing.1.2, [admitted_process; executed_process]).
Proof.
  etransitivity; [apply (mcp_run_program _ (Gateway_Admit demo_gateway demo_admission) world0 []), start_admit|].
  exact (mcp_run_program _ (Execute demo_gateway (to_bytes "token") true (admitted (demo_call 0))) admitting.1.2 [admitted_process] (start_execute _ _ _ _)).
Qed.
(** The run before the audit is delivered. *)
Lemma appended_run : rtc (mcp_step demo_gateway) (world0, []) (with_repository executing.1.2 (after appended), [admitted_process; executed_process]).
Proof.
  etransitivity; [exact executed_run|]. apply rtc_once, step_env.
  apply (env_append _ None demo_audit (answer appended (MkEnvelope 0 demo_audit)) (after appended)). apply (after_ok appended). vm_compute. reflexivity.
Qed.

(** ** The claims on runs *)
Lemma mcp_provider_started_once_witness : w_started executing.1.2 = [(mcp_id "inv" 0, 1)] /\ NoDup (w_started executing.1.2).
Proof.
  split; [vm_compute; reflexivity|].
  exact (mcp_provider_started_once (NL := id_normalizer_laws) demo_gateway (executing.1.2, [admitted_process; executed_process]) demo_configured executed_run).
Defined.

(** The start in a history. *)
Definition start_in (e : event MCall) : option (string * ProviderCommand * (ProviderStartResult * option StartError)) :=
  match e with
  | @Programs.Event _ X c x =>
      match c in MCall X return X -> option (string * ProviderCommand * (ProviderStartResult * option StartError)) with
      | Start provider c => fun x => Some (provider, c, x)
      | _ => fun _ => None
      end x
  end.
(** The latest event of a kind. *)
Fixpoint find_event {T} (f : event MCall -> option T) (h : list (event MCall)) : option (list (event MCall) * event MCall * T * list (event MCall)) :=
  match h with
  | [] => None
  | e :: rest =>
      match f e with
      | Some t => Some ([], e, t, rest)
      | None => match find_event f rest with Some (later, e', t, earlier) => Some (e :: later, e', t, earlier) | None => None end
      end
  end.
Lemma find_event_ok {T} (f : event MCall -> option T) h : forall later e t earlier, find_event f h = Some (later, e, t, earlier) -> h = later ++ e :: earlier /\ f e = Some t.
Proof.
  induction h as [|e0 rest IH]; intros later e t earlier; simpl; [discriminate|]. destruct (f e0) as [t0|] eqn:Hf; [by intros [= <- <- <- <-]|].
  destruct (find_event f rest) as [[[[l e1] t1] r]|]; [|discriminate]. intros [= <- -> -> ->]. destruct (IH _ _ _ _ eq_refl) as [-> Ht]. done.
Qed.
Lemma start_in_ok e provider c x : start_in e = Some (provider, c, x) -> e = Programs.Event (Start provider c) x.
Proof. destruct e as [X k y]. destruct k; simpl; try discriminate. by intros [= -> -> ->]. Qed.
Lemma mcp_start_justified_witness : exists provider c x later earlier, executing.2 = later ++ Programs.Event (Start provider c) x :: earlier /\
  unstarted earlier /\ exists e, justified demo_gateway earlier provider c e.
Proof.
  assert (Hf : match find_event start_in executing.2 with Some _ => true | None => false end = true) by (vm_compute; reflexivity).
  destruct (find_event start_in executing.2) as [[[[later e] [[provider c] x]] earlier]|] eqn:He; [|discriminate Hf]. apply find_event_ok in He as [He ->%start_in_ok].
  exists provider, c, x, later, earlier. split; [exact He|].
  exact (mcp_start_justified (NL := id_normalizer_laws) demo_gateway (executing.1.2, [admitted_process; executed_process]) 1 executed_process provider c x later earlier
    demo_configured executed_run eq_refl He).
Defined.

(** ** A request of the server while the call runs *)
(** A process runs until it asks for the next event of the provider. *)
Definition waits {X} (c : MCall X) : bool := match c with NextEvent _ => true | _ => false end.
Fixpoint drive_until {A} (i : nat) (p : Prog MCall A) (w : World) (h : list (event MCall)) : Prog MCall A * World * list (event MCall) :=
  match p with
  | Ret a => (Ret a, w, h)
  | Vis c k => if waits c then (Vis c k, w, h) else drive_until i (k (handle i _ c w).1) (handle i _ c w).2 (Programs.Event c (handle i _ c w).1 :: h)
  end.
Lemma drive_until_steps A pool (p : Prog MCall A) : forall w h, let '(p', w', h') := drive_until (length pool) p w h in
  rtc (mcp_step demo_gateway) (w, pool ++ [Programs.running h p]) (w', pool ++ [Programs.running h' p']).
Proof.
  induction p as [a|X c k IH]; intros w h; simpl; [apply rtc_refl|]. destruct (waits c); [apply rtc_refl|]. pose proof (mcp_handle_sound (length pool) X c w) as Hs.
  destruct (handle (length pool) X c w) as [x w1]. simpl. specialize (IH x w1 (Programs.Event c x :: h)).
  destruct (drive_until (length pool) (k x) w1 (Programs.Event c x :: h)) as [[p' w'] h']. eapply rtc_l; [|exact IH].
  rewrite <- (list_insert_snoc_last pool (Programs.running h (Vis c k)) (Programs.running (Programs.Event c x :: h) (k x))).
  apply (step_call _ _ _ _ _ (length pool)); [by apply lookup_snoc_last|exact Hs].
Qed.
Definition execution : Prog MCall (option Effect * list mcp_error) := Execute demo_gateway (to_bytes "token") true (admitted (demo_call 0)).
Definition waiting := drive_until 1 execution admitting.1.2 [].
Definition waiting_process : @process MCall := Programs.running waiting.2 waiting.1.1.
Definition demo_accepted : Effect := Eval vm_compute in played demo_gateway (admitted (demo_call 0)) [blank_event 1 EventBeginDispatch; negotiated_event 2 0 1; accepted_event 3].
Definition demo_server_request : ServerRequest := MkServerRequest (to_bytes "token") demo_accepted "1" "request-1" 7 "roots/list" (VMap []).
Definition requesting := run_at 2 (HandleServerRequest demo_gateway demo_server_request) waiting.1.2.
Definition requested_process : @process MCall := Programs.running requesting.2 (Ret requesting.1.1).
(** The server learns the roots, which are in the workspace. *)
Example demo_request_answered :
  requesting.1.1.2 = None /\
  Encode (VMap [("roots", VArray [VMap [("uri", VString "file:///workspace/docs")]; VMap [("uri", VString "file:///workspace/a%20b")]])]) DefaultOptions =
    Ok (rs_ResultCanonical requesting.1.1.1).
Proof. split; vm_compute; reflexivity. Qed.
Lemma admitted_run : rtc (mcp_step demo_gateway) (world0, []) (admitting.1.2, [admitted_process]).
Proof. exact (mcp_run_program _ (Gateway_Admit demo_gateway demo_admission) world0 [] (start_admit _ _)). Qed.
Lemma waiting_run : rtc (mcp_step demo_gateway) (admitting.1.2, [admitted_process]) (waiting.1.2, [admitted_process; waiting_process]).
Proof.
  eapply rtc_l; [apply step_start, (start_execute demo_gateway (to_bytes "token") true (admitted (demo_call 0)))|].
  pose proof (drive_until_steps _ [admitted_process] execution admitting.1.2 []) as Hd. unfold waiting_process, waiting. change (length [admitted_process]) with 1%nat in Hd.
  destruct (drive_until 1 execution admitting.1.2 []) as [[p' w'] h']. exact Hd.
Qed.
Lemma requested_run : rtc (mcp_step demo_gateway) (world0, []) (requesting.1.2, [admitted_process; waiting_process; requested_process]).
Proof.
  etransitivity; [exact admitted_run|]. etransitivity; [exact waiting_run|].
  exact (mcp_run_program _ (HandleServerRequest demo_gateway demo_server_request) waiting.1.2 [admitted_process; waiting_process] (McpRuns.start_request _ _)).
Qed.
Definition roots_in (e : event MCall) : option (ValidatedAuthority * res mcp_error (list string)) :=
  match e with
  | @Programs.Event _ X c x =>
      match c in MCall X return X -> option (ValidatedAuthority * res mcp_error (list string)) with Roots scope => fun x => Some (scope, x) | _ => fun _ => None end x
  end.
Lemma roots_in_ok e scope x : roots_in e = Some (scope, x) -> e = Programs.Event (Roots scope) x.
Proof. destruct e as [X k y]. destruct k; simpl; try discriminate. by intros [= -> ->]. Qed.
Lemma mcp_brokers_justified_witness : exists scope x later earlier, requesting.2 = later ++ Programs.Event (Roots scope) x :: earlier /\
  unbrokered earlier /\ exists claim, request_claimed demo_gateway earlier claim roots_method /\ rq_Scope claim = scope.
Proof.
  assert (Hf : match find_event roots_in requesting.2 with Some _ => true | None => false end = true) by (vm_compute; reflexivity).
  destruct (find_event roots_in requesting.2) as [[[[later e] [scope x]] earlier]|] eqn:He; [|discriminate Hf]. apply find_event_ok in He as [He ->%roots_in_ok].
  exists scope, x, later, earlier. split; [exact He|].
  exact (mcp_brokers_justified (NL := id_normalizer_laws) demo_gateway (requesting.1.2, [admitted_process; waiting_process; requested_process]) 2 requested_process _
    (Roots scope) x later earlier demo_configured requested_run eq_refl He).
Defined.

(** A request for input of the user, and the same request again. *)
Definition demo_question : ServerRequest := MkServerRequest (to_bytes "token") demo_accepted "2" "request-1" 7 "elicitation/create" (VMap []).
Definition questioning := run_at 3 (HandleServerRequest demo_gateway demo_question) requesting.1.2.
Definition questioned_process : @process MCall := Programs.running questioning.2 (Ret questioning.1.1).
Definition repeating := run_at 4 (HandleServerRequest demo_gateway demo_question) questioning.1.2.
Definition repeated_process : @process MCall := Programs.running repeating.2 (Ret repeating.1.1).
Definition demo_pool : list (@process MCall) := [admitted_process; waiting_process; requested_process].
Lemma repeated_run : rtc (mcp_step demo_gateway) (world0, []) (repeating.1.2, demo_pool ++ [questioned_process; repeated_process]).
Proof.
  etransitivity; [exact requested_run|]. etransitivity.
  - exact (mcp_run_program _ (HandleServerRequest demo_gateway demo_question) requesting.1.2 demo_pool (McpRuns.start_request _ _)).
  - exact (mcp_run_program _ (HandleServerRequest demo_gateway demo_question) questioning.1.2 (demo_pool ++ [questioned_process]) (McpRuns.start_request _ _)).
Qed.
Lemma mcp_user_asked_once_witness : w_asked repeating.1.2 = [(mcp_id "inv" 0, "request-1", 7, "2")] /\ repeating.1.1 = questioning.1.1 /\ NoDup (w_asked repeating.1.2).
Proof.
  split; [vm_compute; reflexivity|]. split; [vm_compute; reflexivity|].
  exact (mcp_user_asked_once (NL := id_normalizer_laws) demo_gateway (repeating.1.2, demo_pool ++ [questioned_process; repeated_process]) demo_configured repeated_run
    ltac:(vm_compute; reflexivity)).
Defined.

Definition stored_completed (o : option Effect) : bool := match o with Some e => (ef_State e == StateCompleted) | None => false end.
Lemma mcp_runs_refine_witness : exists e, ef_State e = StateCompleted /\ rp_effects (w_repository executing.1.2) !! id_value (mcp_id "inv" 0) = Some e /\
  validateEffect demo_gateway (admitted (ef_Call e)) = Ok tt /\ history demo_gateway any_event (admitted (ef_Call e)) e.
Proof.
  assert (Hc : stored_completed (rp_effects (w_repository executing.1.2) !! id_value (mcp_id "inv" 0)) = true) by (vm_compute; reflexivity).
  destruct (rp_effects (w_repository executing.1.2) !! id_value (mcp_id "inv" 0)) as [e|] eqn:He; [|discriminate Hc]. exists e.
  split; [exact (proj1 (bool_decide_eq_true _) Hc)|]. split; [reflexivity|].
  destruct (mcp_runs_refine (NL := id_normalizer_laws) demo_gateway (executing.1.2, [admitted_process; executed_process]) (id_value (mcp_id "inv" 0)) e
    demo_configured executed_run He) as (_ & _ & H1 & H2). split; [exact H1|exact H2].
Defined.

Definition demo_envelope : AuditEnvelope :=
  MkEnvelope 1 (MkAuditEvent 1 (mcp_id "tenant" 0) (mcp_id "subject" 0) (mcp_id "sess" 0) (mcp_id "turn" 0) (mcp_id "inv" 0) "files" "roots/list" "allowed" "roots").
Lemma mcp_audits_delivered_witness : ob_pending (rp_outbox (after appended)) !! 1 = Some demo_envelope /\ ob_pending (w_outbox flushing.1.2) !! 1 = None /\
  an_Event demo_envelope ∈ w_recorded flushing.1.2.
Proof.
  assert (Hn : ob_pending (rp_outbox (after appended)) !! 1 = Some demo_envelope) by (vm_compute; reflexivity).
  assert (Hgone : ob_pending (w_outbox flushing.1.2) !! 1 = None) by (vm_compute; reflexivity). split; [exact Hn|]. split; [exact Hgone|].
  destruct (mcp_audits_delivered (NL := id_normalizer_laws) demo_gateway (with_repository executing.1.2 (after appended), [admitted_process; executed_process])
    (flushing.1.2, [admitted_process; executed_process; flushed_process]) demo_configured appended_run) as (H & _).
  - exact (mcp_run_program _ (FlushAudit demo_gateway 4) (with_repository executing.1.2 (after appended)) [admitted_process; executed_process] (start_flush _ _)).
  - destruct (H 1 demo_envelope Hn) as [Hp|Hp]; [|exact Hp]. discriminate (eq_trans (eq_sym Hgone) Hp).
Defined.
(** Every entry of the outbox was delivered. *)
Example demo_flushed : bool_decide (ob_pending (w_outbox flushing.1.2) = ∅) && bool_decide (map ae_OutboxSequence (w_recorded flushing.1.2) = [1]) = true.
Proof. vm_compute. reflexivity. Qed.
